(* ===== verification/_CoqProject ===== *)
-Q . S2P
Prelude.v
F64.v
Bytes.v
U256.v
Types.v
ScriptNum.v
Merkle.v
ScriptBytes.v
Signatures.v
Opcodes.v
Interp.v
InterpProofs.v
Tapscript.v
TapscriptProofs.v
VerifyScript.v
VerifyProofs.v
Consensus.v
Validation.v
ValidationProofs.v
TimeOffset.v
Versionbits.v
Store.v
HeaderIndex.v
HeaderProofs.v
TxIndex.v
BlockStore.v
Bip110.v
Bip110Proofs.v
UtxoSet.v
UtxoProofs.v
ChainState.v
ChainProofs.v
ReorgProofs.v
BlockScripts.v
RelayPolicy.v
Mempool.v
FeeEstimator.v
MempoolAccept.v
MempoolProofs.v
AcceptProofs.v
Template.v
PoolTheorems.v
BlockFilter.v
FilterProofs.v
BlockSync.v
SyncProofs.v
SplitMonitor.v
SplitProofs.v
HeaderSync.v
HeaderSyncProofs.v
NodeChain.v
NodeProofs.v
BlockDir.v
Prune.v
PruneProofs.v
ReindexProofs.v
CompactBlock.v
CompactProofs.v
ScriptHash.v
ScriptHashProofs.v
ResolverProofs.v
IndexTheorems.v
V2Cipher.v
Poly1305.v
WireCodec.v
V2Session.v
V2Channel.v
V2Proofs.v
V2Theorems.v
HeaderCheck.v
Recovery.v
CrashProofs.v
RecoveryProofs.v
ReplayProofs.v
Bloom.v
NetAddr.v
NetAddrProofs.v
PeerBook.v
