(* ===== verification/Prelude.v ===== *)
(** * BitcoinPR verification library

    A shallow embedding of BitcoinPR, a Bitcoin full node in Rust: its data and
    operations are Rocq definitions translated from [src/], and the theorems
    are about those definitions.

    ** The program and its parts

    - [bitcoinpr-core] holds the consensus rules: scripts, Merkle trees, work
      and difficulty, validation of headers, blocks and transactions, the
      BIP-110 deployment, and the chain state that connects and disconnects
      blocks.  It also has the mempool, compact blocks, block filters, and the
      monitor of chain splits.
    - [bitcoinpr-storage] keeps headers, coins, undo records, block files and
      the transaction index in RocksDB databases and flat files.
    - [bitcoinpr-p2p] downloads headers and blocks from peers, over plain or
      encrypted connections, and keeps addresses, scores and bans of peers.
    - [bitcoinpr-index] answers balance and history queries per scripthash.
    - [bitcoinpr] is the node: startup recovery, then an event loop that hands
      received headers and blocks to the chain state, buffers early blocks,
      reorganises, and prunes.

    A block travels through the model as through the node: [HeaderSync] stores
    its header and moves the best header tip; [BlockSync] asks peers for the
    body; [NodeChain] buffers it and calls [ChainState], which validates it
    with [Validation], [VerifyScript] and [Bip110], and writes [UtxoSet],
    [BlockStore], [TxIndex] and [HeaderIndex]; [Mempool] drops what the block
    confirms; [ScriptHash] follows.  [Recovery] runs over what is on disk after
    a stop at any write.

    ** Conventions

    - A [w]-bit integer is a [Z]; wrap-around is written out ([wrap], [u32],
      [u64], ...), as are saturating and checked operations.  Bytes are lists
      of [Z].  Fee rates are binary64 numbers ([F64]).
    - [Result] is [result], with the monad of the [?] operator.  A stateful
      operation that may fail returns the new state also with an error
      ([stm] of [Store]), because the code keeps what it changed before an
      early return.  [wp] states what such a computation leaves in either case.
    - A [HashMap] is a [gmap] and a [HashSet] a [gset].  Where the code
      iterates over one, the order is a parameter known only to be a
      permutation ([MapIter], [PoolIter], [SyncIter], [NodeIter], ...).
    - Code outside [src/] is a class: hashes, script templates, sizes, sighash
      and signatures of the [bitcoin] and [secp256k1] crates ([Hashes],
      [ScriptLib], [TxLib], [SigLib], [BlockLib], [Bip152], [MsgLib],
      [V2Crypto], ...), RocksDB ([RocksDb], [RocksDirs]), the file system
      ([BlockFiles], [BlockDir]).  What a theorem needs to know of it is in a
      separate class of laws ([RocksLaws], [BlockFilesLaws], ...), and the
      witness of the theorem gives instances that satisfy the laws.
    - Clocks are arguments, and so are the room in a bounded channel ([Room])
      and the progress of the block writer while a caller waits for it.  Every
      call of a database or of the file system may fail; a theorem that needs
      one to succeed says so.  A crash is modelled as a write that fails and
      after which nothing runs.

    ** Files

    Shared: this file (integers, results, loops, list lemmas, tactics, hints),
    [F64], [Bytes], [Types] (errors, blocks, transactions, classes of external
    code), [Store] (stateful computations, RocksDB).

    Scripts ([bitcoinpr-core/src/script.rs]): [ScriptNum], [ScriptBytes],
    [Signatures] (flags, signature checks, [SigCache]), [Opcodes], [Interp]
    ([execute_script_inner]), [Tapscript] ([execute_tapscript]),
    [VerifyScript] ([verify_script]); [InterpProofs], [TapscriptProofs],
    [VerifyProofs].

    Consensus ([bitcoinpr-core/src/]): [U256] ([validation.rs], and the work
    helpers of [header_index.rs]), [Merkle] ([merkle.rs]), [Consensus]
    ([consensus.rs]), [Validation] with [ValidationProofs] ([validation.rs]),
    [TimeOffset] ([time.rs]), [Versionbits] ([versionbits.rs]), [Bip110] with
    [Bip110Proofs] ([bip110.rs]), [ChainState] ([chain.rs]) with [ChainProofs]
    (validation of a block), [ReorgProofs] (connecting and disconnecting) and
    [BlockScripts] (scripts of a block).

    Storage ([bitcoinpr-storage/src/]): [HeaderIndex], [HeaderCheck] with
    [HeaderProofs] ([header_index.rs]), [TxIndex] ([tx_index.rs]),
    [BlockStore], [BlockDir] with [ReindexProofs] ([block_store.rs]),
    [UtxoSet] with [UtxoProofs] ([utxo_set.rs]), [Prune] with [PruneProofs]
    ([prune.rs] and the prune tick of [node.rs]).

    Mempool and relay ([bitcoinpr-core/src/]): [RelayPolicy] ([script.rs],
    [mempool.rs]), [Mempool], [FeeEstimator], [MempoolAccept] ([mempool.rs])
    with [MempoolProofs], [AcceptProofs], [Template], [PoolTheorems];
    [BlockFilter] with [FilterProofs] ([block_filter.rs]); [CompactBlock] with
    [CompactProofs] ([compact_block.rs] and two handlers of [manager.rs]);
    [SplitMonitor] with [SplitProofs] ([splitmon.rs]).

    Peers ([bitcoinpr-p2p/src/]): [BlockSync] with [SyncProofs] and
    [HeaderSync] with [HeaderSyncProofs] ([sync.rs], [ibd.rs]); [WireCodec]
    ([codec.rs], [error.rs]); [V2Cipher], [V2Session], [V2Channel]
    ([v2_transport.rs], [transport.rs]) with [Poly1305], [V2Proofs],
    [V2Theorems]; [Bloom] ([bloom.rs] and handlers of [manager.rs]); [NetAddr]
    with [NetAddrProofs] ([netaddr.rs]); [PeerBook] ([scoring.rs],
    [addr_manager.rs]).

    Scripthash index ([bitcoinpr-index/src/scripthash.rs]): [ScriptHash] with
    [ScriptHashProofs], [ResolverProofs], [IndexTheorems].

    Node ([bitcoinpr/src/]): [NodeChain] with [NodeProofs] ([node.rs]);
    [Recovery] ([recovery.rs], [main.rs]) with [CrashProofs] (what a crash
    leaves), [RecoveryProofs] (what the start makes of it), [ReplayProofs].

    ** What the theorems show

    - Coins: connecting a block is exact and creates at most the subsidy, a
      rejected block leaves no trace, the tip can be disconnected, and after
      any history the coins are those of the active chain ([ReorgProofs]).
      Where the code skips the check for duplicate transactions this needs
      blocks whose coins are new.  No input is spent without its script,
      outside the blocks that the assume-valid setting covers
      ([BlockScripts]).  The node's reorganisation disconnects down to the
      fork or reports a storage failure ([NodeProofs]).
    - Disk: database, cache and buffer implement one map, and a flush may be
      cut off at any write ([UtxoProofs]); a crash inside the last operation of
      a session that began at a flushed height is repaired by the next start,
      up to coins of an interrupted flush ([RecoveryProofs]); stored blocks
      read back while their bytes are queued, as long as no append has failed
      ([BlockStore]); pruning keeps the chain readable whatever fails, and
      reindexing is sound whatever fails and complete when nothing does
      ([PruneProofs], [ReindexProofs]).
    - Scripts: limits that hold of every successful run, multisig matching,
      agreement of the two interpreters on shared opcodes, P2PKH for every
      scriptSig, what a taproot spend has verified and run, soundness of the
      signature cache.
    - Rules: transaction sanity, retargeting, its termination, the Merkle root
      with its mutation flag, the money supply, the BIP-110 state.
    - Mempool: consistency with itself at all times, and with the chain as
      long as it is told of every block (the flag of [reach]); replacement that
      pays, templates whose entries fit together, persistence.
    - Peers: header sync keeps a tree of valid headers, no scheduled block is
      lost, announced blocks are relayed exactly, the encrypted transport
      delivers what was sent, Poly1305 on limbs is Poly1305, light clients
      miss nothing, addresses survive their encodings, bans last.
    - Indexes: balances are the unspent outputs of a chain that is only
      extended; block filters match exactly.
    - Defects and limits: theorems of [NodeProofs], [ReplayProofs],
      [CompactProofs], [HeaderSyncProofs], [ReindexProofs] and [PoolTheorems],
      and examples of [RecoveryProofs], [IndexTheorems], [PruneProofs],
      [ReorgProofs], [UtxoProofs] and [BlockScripts], state behaviour the code
      should not have, such as a forged body that makes the node reject a valid
      block, or show what happens without a condition of a theorem.

    ** Fuel

    A loop whose recursion is not structural takes fuel.  Where the code gives
    a bound, the fuel is that bound: the length of the input for decoders,
    the difference of heights for walks along the chain, the number of digits
    or bits for conversions, the size of the pool for graph walks.  Otherwise
    the fuel is an argument and running out of it is an outcome of its own,
    and theorems prove that enough fuel gives the result: for the required
    difficulty, matching a block filter, rebuilding the position index and the
    packets of the encrypted transport.

    ** Not modelled

    - RPC, Electrum server, web dashboard, Stratum and mining services, events,
      logging, command line and configuration: servers and wiring around the
      modelled components.
    - Sockets, proxies, DNS seeds, the asynchronous tasks of [peer.rs] and
      [manager.rs], [PrefixedReader], and the choice between the plain and the
      encrypted protocol: concurrent I/O.  [messages.rs] builds messages of the
      [bitcoin] crate.  Handlers of [manager.rs] that decide something are in
      [CompactBlock] and [Bloom].
    - Timers, stall heuristics and background tasks of the event loop.
    - Moving block files between directories, the pointer to the blocks
      directory, the BIP-110 fingerprint record, the backfill of the transaction
      index.
    - Worker threads and locks: the threads of the script checks and of the
      resolver share no state besides caches, and an order of theirs is a
      parameter; the writer thread of the block files is modelled.
    - Memory statistics, difficulty as a float for display, JSON and text
      rendering, and [fast_hash.rs], a hasher invisible behind maps. *)

From Stdlib Require Import ZArith Lia.
From stdpp Require Import base option numbers list gmap strings.

Declare Scope btc_scope.
Delimit Scope btc_scope with btc.
#[global] Open Scope Z_scope.

(** ** Machine integers

    A [w]-bit unsigned integer is a [Z]; [uN] is the wrap-around that a Rust
    [as uN] cast or an unchecked release-mode operation performs. *)

Definition wrap (w z : Z) : Z := z mod 2 ^ w.
Abbreviation u8 := (wrap 8).
Abbreviation u16 := (wrap 16).
Abbreviation u32 := (wrap 32).
Abbreviation u64 := (wrap 64).
Abbreviation u128 := (wrap 128).

(** [usize] is 64 bits wide on the supported targets. *)
Abbreviation usize := (wrap 64).

Definition fits (w z : Z) : Prop := 0 <= z < 2 ^ w.
Abbreviation byte_ok := (fits 8).

(** [bool as u32] *)
Definition b2z (b : bool) : Z := if b then 1 else 0.

(** [saturating_sub] on an unsigned type. *)
Definition sat_sub (a b : Z) : Z := Z.max 0 (a - b).

(** A byte string: a Rust [Vec<u8>], [&[u8]] or [[u8; N]]. *)
Abbreviation bytes := (list Z).
Definition bytes_ok (l : bytes) : Prop := Forall byte_ok l.

(** [slice.len()] *)
Definition len {A} (l : list A) : Z := Z.of_nat (length l).

(** ** Results

    Rust's [Result<A, E>], with the monad that models the [?] operator. *)

Inductive result (E A : Type) : Type :=
| Ok (a : A)
| Err (e : E).
Arguments Ok {E A} a.
Arguments Err {E A} e.

#[global] Instance result_ret {E} : MRet (result E) := fun A a => Ok a.
#[global] Instance result_bind {E} : MBind (result E) :=
  fun A B f r => match r with Ok a => f a | Err e => Err e end.

Definition is_ok {E A} (r : result E A) : bool :=
  match r with Ok _ => true | Err _ => false end.

Definition ok_or {E A} (o : option A) (e : E) : result E A :=
  match o with Some a => Ok a | None => Err e end.

(** [if cond { return Err(e); }] *)
Definition guard_err {E} (b : bool) (e : E) : result E unit :=
  if b then Err e else Ok tt.

(** A [for] loop whose body may return early with an error. *)
Fixpoint foldM {E A B} (f : B -> A -> result E B) (b : B) (l : list A) : result E B :=
  match l with
  | [] => Ok b
  | x :: r => b' ← f b x; foldM f b' r
  end.

Lemma bind_Ok_inv {E A B} (r : result E A) (f : A -> result E B) (b : B) :
  r ≫= f = Ok b -> exists a, r = Ok a /\ f a = Ok b.
Proof. destruct r as [a|e]; cbn; [eauto|discriminate]. Qed.

(** A computation that succeeds whenever another does, link by link. *)
Lemma bind_mono {E A B} (r1 r2 : result E A) (f g : A -> result E B) b :
  (forall a, r1 = Ok a -> r2 = Ok a) -> (forall a, f a = Ok b -> g a = Ok b) ->
  r1 ≫= f = Ok b -> r2 ≫= g = Ok b.
Proof.
  intros Hr Hf Hrun. apply bind_Ok_inv in Hrun as (a & Ha & Hfa).
  rewrite (Hr a Ha). cbn. by apply Hf.
Qed.

Lemma guard_err_Ok {E} (b : bool) (e : E) u : guard_err b e = Ok u -> b = false.
Proof. destruct b; cbn; congruence. Qed.

Lemma ok_or_Ok {E A} (o : option A) (e : E) a : ok_or o e = Ok a <-> o = Some a.
Proof. destruct o; cbn; split; congruence. Qed.

(** Rules of the form "the loop returned, so every iteration did". *)
Lemma foldM_inv {E A B} (I : B -> Prop) (f : B -> A -> result E B) l :
  (forall b x b', I b -> x ∈ l -> f b x = Ok b' -> I b') ->
  forall b b', I b -> foldM f b l = Ok b' -> I b'.
Proof.
  induction l as [|x l IH]; cbn; intros Hstep b b' Hb Hrun; [congruence|].
  apply bind_Ok_inv in Hrun as (b1 & H1 & H2).
  apply (IH (fun b0 y b0' Hb0 Hy => Hstep b0 y b0' Hb0 (list_elem_of_further _ _ _ Hy)) b1 b');
    [|exact H2].
  exact (Hstep _ _ _ Hb (list_elem_of_here _ _) H1).
Qed.

Lemma foldM_app {E A B} (f : B -> A -> result E B) l1 l2 b :
  foldM f b (l1 ++ l2) = foldM f b l1 ≫= fun b' => foldM f b' l2.
Proof.
  revert b. induction l1 as [|x l1 IH]; intros b; cbn; [done|].
  destruct (f b x); cbn; [apply IH|done].
Qed.

(** Every iteration of a successful loop satisfies what its success implies. *)
Lemma foldM_Forall {E A B} (P : A -> Prop) (f : B -> A -> result E B) l :
  (forall b x b', f b x = Ok b' -> P x) -> forall b b', foldM f b l = Ok b' -> Forall P l.
Proof.
  intros Hf. induction l as [|x l IH]; cbn; intros b b' Hrun; [constructor|].
  apply bind_Ok_inv in Hrun as (b1 & H1 & H2). constructor; eauto.
Qed.

(** Two loops over the same list whose bodies simulate each other. *)
Lemma foldM_sim {E A B C} (R : B -> C -> Prop) (f : B -> A -> result E B)
    (g : C -> A -> result E C) l :
  (forall b c x b', R b c -> x ∈ l -> f b x = Ok b' -> exists c', g c x = Ok c' /\ R b' c') ->
  forall b c b', R b c -> foldM f b l = Ok b' -> exists c', foldM g c l = Ok c' /\ R b' c'.
Proof.
  induction l as [|x l IH]; cbn; intros Hstep b c b' HR Hrun.
  - injection Hrun as <-. eauto.
  - apply bind_Ok_inv in Hrun as (b1 & H1 & H2).
    destruct (Hstep b c x b1 HR (list_elem_of_here _ _) H1) as (c1 & Hg & HR1).
    destruct (IH (fun b0 c0 y b0' H0 Hy => Hstep b0 c0 y b0' H0 (list_elem_of_further _ _ _ Hy))
                b1 c1 b' HR1 H2) as (c' & Hg' & HR').
    exists c'. split; [|done]. cbn. by rewrite Hg.
Qed.

(** [res_inv] turns a successful run of a chain of binds and guards into the
    facts that every link succeeded. *)
Ltac res_inv_step :=
  match goal with
  | H : Ok _ = Ok _ |- _ => injection H as H; try subst
  | H : Err _ = Ok _ |- _ => discriminate H
  | H : Ok _ = Err _ |- _ => discriminate H
  | H : Some _ = Some _ |- _ => injection H as H; try subst
  | H : None = Some _ |- _ => discriminate H
  | H : mret _ = Ok _ |- _ => injection H as H; try subst
  | H : _ ≫= _ = Ok _ |- _ =>
      let x := fresh "x" in let H1 := fresh "Hb" in
      apply bind_Ok_inv in H as (x & H1 & H)
  | H : guard_err _ _ = Ok _ |- _ => apply guard_err_Ok in H
  | H : ok_or _ _ = Ok _ |- _ => apply ok_or_Ok in H
  | H : (_, _) = (_, _) |- _ => injection H as; try subst
  end.
Ltac res_inv := repeat (res_inv_step; cbn beta in *).

(** [bool_to_prop] reflects the boolean tests of the code. *)
Ltac bool_to_prop :=
  repeat match goal with
  | H : (_ <? _) = true |- _ => apply Z.ltb_lt in H
  | H : (_ <? _) = false |- _ => apply Z.ltb_ge in H
  | H : (_ <=? _) = true |- _ => apply Z.leb_le in H
  | H : (_ <=? _) = false |- _ => apply Z.leb_gt in H
  | H : (_ =? _) = true |- _ => apply Z.eqb_eq in H
  | H : (_ =? _) = false |- _ => apply Z.eqb_neq in H
  | H : (_ >? _) = _ |- _ => rewrite Z.gtb_ltb in H
  | H : (_ >=? _) = _ |- _ => rewrite Z.geb_leb in H
  | H : negb _ = true |- _ => apply negb_true_iff in H
  | H : negb _ = false |- _ => apply negb_false_iff in H
  | H : _ && _ = true |- _ => apply andb_true_iff in H as [? ?]
  | H : _ || _ = false |- _ => apply orb_false_iff in H as [? ?]
  end.

(** ** Vectors

    A Rust [Vec] is a list whose last element is the most recently pushed one.
    The panicking accesses are written as [option]s or with the guard that the
    source places in front of them. *)

Definition vec_push {A} (l : list A) (x : A) : list A := l ++ [x].

Definition vec_pop {A} (l : list A) : option (A * list A) :=
  match last l with
  | Some x => Some (x, take (length l - 1) l)
  | None => None
  end.

(** [v.remove(i)]: the removed element and the shortened vector. *)
Definition vec_remove {A} (l : list A) (i : nat) : option (A * list A) :=
  match l !! i with
  | Some x => Some (x, delete i l)
  | None => None
  end.

(** [v.insert(i, x)] *)
Definition vec_insert {A} (l : list A) (i : nat) (x : A) : list A :=
  take i l ++ x :: drop i l.

(** [v.swap(i, j)] *)
Definition vec_swap {A} (l : list A) (i j : nat) : option (list A) :=
  match l !! i, l !! j with
  | Some x, Some y => Some (<[i := y]> (<[j := x]> l))
  | _, _ => None
  end.

Lemma vec_pop_snoc {A} (l : list A) x : vec_pop (l ++ [x]) = Some (x, l).
Proof.
  unfold vec_pop. rewrite last_snoc, length_app. cbn.
  by rewrite Nat.add_sub, take_app_length.
Qed.

Lemma vec_pop_inv {A} (l : list A) x l' : vec_pop l = Some (x, l') -> l = l' ++ [x].
Proof.
  destruct l as [|y l0 _] using rev_ind; [done|].
  rewrite vec_pop_snoc. intros H. by simplify_eq.
Qed.

Lemma vec_pop_None {A} (l : list A) : vec_pop l = None <-> l = [].
Proof.
  destruct l as [|y l0 _] using rev_ind; [done|].
  rewrite vec_pop_snoc. split; [done|]. intros H. by apply app_nil in H as [_ ?].
Qed.

(** Indexing from the end: [v[len - n]] for the [n] last elements [t]. *)
Lemma lookup_from_end {A} (s t : list A) (n i : nat) :
  length t = n -> (i < n)%nat -> (s ++ t) !! (length (s ++ t) - n + i)%nat = t !! i.
Proof.
  intros Ht Hi. rewrite length_app, Ht.
  rewrite lookup_app_r by lia. f_equal. lia.
Qed.

Lemma split_at_end {A} (l : list A) (n : nat) :
  (n <= length l)%nat -> exists s t, l = s ++ t /\ length t = n.
Proof.
  intros H. exists (take (length l - n) l), (drop (length l - n) l).
  split; [by rewrite take_drop|]. rewrite length_drop. lia.
Qed.

Lemma len_app {A} (a b : list A) : len (a ++ b) = len a + len b.
Proof. unfold len. rewrite length_app. lia. Qed.
Lemma len_nonneg {A} (a : list A) : 0 <= len a.
Proof. unfold len. lia. Qed.
Lemma len_nil (A : Type) : len (@nil A) = 0.
Proof. done. Qed.
Lemma len_cons {A} (x : A) l : len (x :: l) = 1 + len l.
Proof. unfold len. cbn [length]. lia. Qed.

Lemma to_nat_len {A} (l : list A) : Z.to_nat (len l) = length l.
Proof. unfold len. lia. Qed.

Create HintDb btc.
#[export] Hint Rewrite @len_app len_nil @len_cons : btc.
#[export] Hint Resolve len_nonneg : btc.

(** ** Wrap-around facts *)

Lemma wrap_small w z : fits w z -> wrap w z = z.
Proof. intros H. apply Z.mod_small, H. Qed.

Lemma wrap_fits w z : 0 <= w -> fits w (wrap w z).
Proof. intros H. apply Z.mod_pos_bound, Z.pow_pos_nonneg; lia. Qed.

Lemma fits_le w w' z : 0 <= w <= w' -> fits w z -> fits w' z.
Proof.
  intros Hw [H1 H2]. split; [done|].
  eapply Z.lt_le_trans; [exact H2|]. apply Z.pow_le_mono_r; lia.
Qed.

Lemma bytes_ok_app a b : bytes_ok (a ++ b) <-> bytes_ok a /\ bytes_ok b.
Proof. apply Forall_app. Qed.

Lemma bytes_ok_cons x l : bytes_ok (x :: l) <-> byte_ok x /\ bytes_ok l.
Proof. apply Forall_cons. Qed.

Lemma bytes_ok_rev l : bytes_ok (reverse l) <-> bytes_ok l.
Proof. unfold bytes_ok. by rewrite Forall_reverse. Qed.

#[export] Hint Resolve wrap_fits wrap_small : btc.
