(* ===== verification/F64.v ===== *)
(** * 64-bit floating point

    The IEEE 754 binary64 operations behind fee rates, as the executable
    specification of the Standard Library computes them: round to nearest,
    ties to even. *)

From Stdlib Require Import ZArith Lia SpecFloat.
From stdpp Require Import base option numbers list.
From S2P Require Import Prelude.

Definition f64 : Type := spec_float.

(** [z as f64] *)
Definition f64_of_u64 (z : Z) : f64 := binary_normalize 53 1024 z 0 false.
Definition f64_div : f64 -> f64 -> f64 := SFdiv 53 1024.
Definition f64_add : f64 -> f64 -> f64 := SFadd 53 1024.
Definition f64_sub : f64 -> f64 -> f64 := SFsub 53 1024.
Definition f64_mul : f64 -> f64 -> f64 := SFmul 53 1024.
Definition f64_lt (a b : f64) : bool := SFltb a b.
Definition f64_le (a b : f64) : bool := SFleb a b.

Definition f64_is_nan (a : f64) : bool := match a with S754_nan => true | _ => false end.

(** [f64::max]: a NaN operand is ignored. *)
Definition f64_max (a b : f64) : f64 :=
  match SFcompare a b with
  | None => if f64_is_nan a then b else a
  | Some Lt => b
  | Some _ => a
  end.

(** [f64::total_cmp], with the NaN of a division taken as positive. *)
Definition f64_total_cmp (a b : f64) : comparison :=
  match a, b with
  | S754_nan, S754_nan => Eq
  | S754_nan, _ => Gt
  | _, S754_nan => Lt
  | S754_zero true, S754_zero false => Lt
  | S754_zero false, S754_zero true => Gt
  | _, _ => default Eq (SFcompare a b)
  end.

(** [f64::powi(2.0, n)] *)
Definition f64_pow2 (n : Z) : f64 := binary_normalize 53 1024 1 n false.

(** [x.floor() as u64], which saturates. *)
Definition f64_floor_u64 (a : f64) : Z :=
  match a with
  | S754_finite false m e => Z.min (Z.shiftl (Z.pos m) e) (2 ^ 64 - 1)
  | S754_infinity false => 2 ^ 64 - 1
  | _ => 0
  end.

(** ** The order *)

(** A key in which the order is the lexicographic one on integers. *)
Definition f64_key (a : f64) : option (Z * Z * Z) :=
  match a with
  | S754_nan => None
  | S754_infinity true => Some (-2, 0, 0)
  | S754_infinity false => Some (2, 0, 0)
  | S754_zero _ => Some (0, 0, 0)
  | S754_finite true m e => Some (-1, -e, Z.neg m)
  | S754_finite false m e => Some (1, e, Z.pos m)
  end.

Definition key_lt (a b : Z * Z * Z) : Prop :=
  let '(a1, a2, a3) := a in let '(b1, b2, b3) := b in
  a1 < b1 \/ a1 = b1 /\ (a2 < b2 \/ a2 = b2 /\ a3 < b3).

Lemma SFcompare_key a b :
  match SFcompare a b with
  | None => f64_key a = None \/ f64_key b = None
  | Some Lt => exists ka kb, f64_key a = Some ka /\ f64_key b = Some kb /\ key_lt ka kb
  | Some Eq => exists ka, f64_key a = Some ka /\ f64_key b = Some ka
  | Some Gt => exists ka kb, f64_key a = Some ka /\ f64_key b = Some kb /\ key_lt kb ka
  end.
Proof.
  destruct a as [sa|[]| |[] ma ea], b as [sb|[]| |[] mb eb]; cbn; try (by auto); try (by eauto);
    try (by do 2 eexists; split_and!; [reflexivity..|cbn; lia]);
    change (Pos.compare_cont Eq ma mb) with (Pos.compare ma mb);
    (destruct (Z.compare_spec ea eb) as [->|Hl|Hl]; [destruct (Pos.compare_spec ma mb) as [->|Hm|Hm]|..]); cbn;
    (by eauto) || (do 2 eexists; split_and!; [reflexivity..|cbn; lia]).
Qed.

Lemma key_lt_trans a b c : key_lt a b -> key_lt b c -> key_lt a c.
Proof. destruct a as [[a1 a2] a3], b as [[b1 b2] b3], c as [[c1 c2] c3]. cbn. lia. Qed.
Lemma key_lt_irrefl a : ~ key_lt a a.
Proof. destruct a as [[a1 a2] a3]. cbn. lia. Qed.
Lemma key_lt_total a b : key_lt a b \/ a = b \/ key_lt b a.
Proof.
  destruct a as [[a1 a2] a3], b as [[b1 b2] b3]. cbn. destruct (decide (a1 = b1)), (decide (a2 = b2)), (decide (a3 = b3)); subst; auto; lia.
Qed.

Lemma f64_le_key a b :
  f64_le a b = true <-> exists ka kb, f64_key a = Some ka /\ f64_key b = Some kb /\ (key_lt ka kb \/ ka = kb).
Proof.
  unfold f64_le, SFleb. pose proof (SFcompare_key a b) as Hk. destruct (SFcompare a b) as [[]|].
  - destruct Hk as (ka & -> & ->). split; [|done]. eauto 10.
  - destruct Hk as (ka & kb & -> & -> & Hlt). split; [|done]. eauto 10.
  - destruct Hk as (ka & kb & -> & -> & Hlt). split; [done|]. intros (? & ? & [= <-] & [= <-] & Hc).
    exfalso. destruct Hc as [Hc|Heq]; [|subst]; eapply key_lt_irrefl; [by eapply key_lt_trans|done].
  - split; [done|]. intros (ka & kb & Ha & Hb & _). destruct Hk; congruence.
Qed.

Lemma f64_lt_key a b :
  f64_lt a b = true <-> exists ka kb, f64_key a = Some ka /\ f64_key b = Some kb /\ key_lt ka kb.
Proof.
  unfold f64_lt, SFltb. pose proof (SFcompare_key a b) as Hk. destruct (SFcompare a b) as [[]|].
  - destruct Hk as (ka & -> & ->). split; [done|]. intros (? & ? & [= <-] & [= <-] & Hc). by apply key_lt_irrefl in Hc.
  - split; [|done]. eauto.
  - destruct Hk as (ka & kb & -> & -> & Hlt). split; [done|]. intros (? & ? & [= <-] & [= <-] & Hc).
    exfalso. eapply key_lt_irrefl, key_lt_trans; eauto.
  - split; [done|]. intros (ka & kb & Ha & Hb & _). destruct Hk; congruence.
Qed.

Lemma f64_le_trans a b c : f64_le a b = true -> f64_le b c = true -> f64_le a c = true.
Proof.
  rewrite !f64_le_key. intros (ka & kb & Ha & Hb & Hab) (kb' & kc & Hb' & Hc & Hbc). rewrite Hb in Hb'. injection Hb' as <-.
  exists ka, kc. split_and!; [done|done|]. destruct Hab as [Hab| ->], Hbc as [Hbc| ->]; eauto using key_lt_trans.
Qed.

Lemma f64_key_nan a : f64_is_nan a = false <-> is_Some (f64_key a).
Proof. destruct a as [s|[]| |[] m e]; cbn; split; try done; by intros [? ?]. Qed.

Lemma f64_le_refl a : f64_is_nan a = false -> f64_le a a = true.
Proof. intros [k Hk]%f64_key_nan. apply f64_le_key. eauto 10. Qed.

(** The maximum dominates both numbers it is given. *)
Lemma f64_max_spec a b :
  (f64_is_nan a = false -> f64_le a (f64_max a b) = true) /\ (f64_is_nan b = false -> f64_le b (f64_max a b) = true).
Proof.
  unfold f64_max. pose proof (SFcompare_key a b) as Hk. rewrite !f64_le_key, !f64_key_nan.
  destruct (SFcompare a b) as [[]|] eqn:Hc.
  - destruct Hk as (ka & Ha & Hb). split; intros _; rewrite ?Ha, ?Hb; eauto 10.
  - destruct Hk as (ka & kb & Ha & Hb & Hlt). split; intros _; rewrite ?Ha, ?Hb; eauto 10.
  - destruct Hk as (ka & kb & Ha & Hb & Hlt). split; intros _; rewrite ?Ha, ?Hb; eauto 10.
  - destruct (f64_is_nan a) eqn:Hn.
    + split; [intros Hs; apply f64_key_nan in Hs; congruence|]. intros [k Hb]. rewrite Hb. eauto 10.
    + apply f64_key_nan in Hn as [ka Ha]. split; [intros _; rewrite Ha; eauto 10|]. intros [kb Hb].
      destruct Hk; congruence.
Qed.

Lemma f64_not_le_lt a b : f64_is_nan a = false -> f64_is_nan b = false -> f64_le a b = false -> f64_lt b a = true.
Proof.
  intros [ka Ha]%f64_key_nan [kb Hb]%f64_key_nan Hle. apply f64_lt_key. exists kb, ka. split_and!; [done|done|].
  destruct (key_lt_total kb ka) as [?|[Heq|Hlt]]; [done| |];
    (assert (f64_le a b = true); [|congruence]); apply f64_le_key; exists ka, kb; subst; auto.
Qed.
