(* ===== verification/Bytes.v ===== *)
(** * Fixed-width byte strings

    The numeric value of little- and big-endian byte strings, the standard
    library's [to_le_bytes], [from_le_bytes], [to_be_bytes], [from_be_bytes]
    and the lexicographic order of byte arrays, with the lemmas every
    component that reads or writes integers shares. *)

From Stdlib Require Import ZArith Lia.
From stdpp Require Import base numbers list.
From S2P Require Import Prelude.

(** [uN::from_le_bytes] *)
Fixpoint from_le (l : bytes) : Z :=
  match l with
  | [] => 0
  | b :: r => b + 256 * from_le r
  end.

(** [uN::from_be_bytes] *)
Definition from_be (l : bytes) : Z := from_le (reverse l).

(** [z.to_le_bytes()] for an integer of [n] bytes. *)
Fixpoint to_le (n : nat) (z : Z) : bytes :=
  match n with
  | O => []
  | S n' => z mod 256 :: to_le n' (z / 256)
  end.

(** [z.to_be_bytes()] *)
Definition to_be (n : nat) (z : Z) : bytes := reverse (to_le n z).

(** [<[u8]>::cmp]: lexicographic order of byte strings. *)
Fixpoint lex_cmp (a b : bytes) : comparison :=
  match a, b with
  | [], [] => Eq
  | [], _ :: _ => Lt
  | _ :: _, [] => Gt
  | x :: a', y :: b' => match x ?= y with Eq => lex_cmp a' b' | c => c end
  end.

#[global] Arguments from_be : simpl never.
#[global] Arguments to_be : simpl never.

Definition pow256 (n : nat) : Z := 2 ^ (8 * Z.of_nat n).

Lemma pow256_S n : pow256 (S n) = 256 * pow256 n.
Proof.
  unfold pow256. replace (8 * Z.of_nat (S n)) with (8 + 8 * Z.of_nat n) by lia.
  rewrite Z.pow_add_r by lia. done.
Qed.

Lemma pow256_pos n : 0 < pow256 n.
Proof. unfold pow256. apply Z.pow_pos_nonneg; lia. Qed.

Lemma pow256_add n m : pow256 (n + m) = pow256 n * pow256 m.
Proof. unfold pow256. rewrite <- Z.pow_add_r by lia. f_equal. lia. Qed.

Lemma from_le_bound l : bytes_ok l -> 0 <= from_le l < pow256 (length l).
Proof.
  induction 1 as [|b l Hb _ IH]; cbn [from_le length]; [done|].
  unfold fits in Hb. change (2 ^ 8) with 256 in Hb. rewrite pow256_S. lia.
Qed.

Lemma from_le_app a b : from_le (a ++ b) = from_le a + pow256 (length a) * from_le b.
Proof.
  induction a as [|x a IH]; cbn [from_le length app].
  - change (pow256 0) with 1. lia.
  - rewrite IH, pow256_S. lia.
Qed.

Lemma length_to_le n z : length (to_le n z) = n.
Proof. revert z. induction n; intros z; cbn [to_le length]; auto. Qed.

Lemma bytes_ok_to_le n z : bytes_ok (to_le n z).
Proof.
  revert z. induction n as [|n IH]; intros z; cbn [to_le]; constructor; [|apply IH].
  apply (Z.mod_pos_bound z 256). lia.
Qed.

Lemma from_to_le n z : from_le (to_le n z) = z mod pow256 n.
Proof.
  revert z. induction n as [|n IH]; intros z; cbn [to_le from_le].
  - change (pow256 0) with 1. by rewrite Z.mod_1_r.
  - rewrite IH, pow256_S. rewrite Z.rem_mul_r; [lia|lia|]. apply pow256_pos.
Qed.

Lemma from_to_le_small n z : 0 <= z < pow256 n -> from_le (to_le n z) = z.
Proof. intros H. rewrite from_to_le. by apply Z.mod_small. Qed.

Lemma to_from_le l : bytes_ok l -> to_le (length l) (from_le l) = l.
Proof.
  induction 1 as [|b l Hb _ IH]; cbn [from_le length to_le]; [done|].
  unfold fits in Hb. change (2 ^ 8) with 256 in Hb.
  rewrite (Z.mul_comm 256), Z.mod_add, Z.div_add, Z.mod_small, Z.div_small by lia.
  by rewrite Z.add_0_l, IH.
Qed.

Lemma from_le_inj a b :
  bytes_ok a -> bytes_ok b -> length a = length b -> from_le a = from_le b -> a = b.
Proof.
  intros Ha Hb Hl Heq. rewrite <- (to_from_le a Ha), <- (to_from_le b Hb). by rewrite Hl, Heq.
Qed.

Lemma from_be_bound l : bytes_ok l -> 0 <= from_be l < pow256 (length l).
Proof.
  intros H. unfold from_be. rewrite <- length_reverse. by apply from_le_bound, bytes_ok_rev.
Qed.

Lemma from_be_cons x l : from_be (x :: l) = x * pow256 (length l) + from_be l.
Proof.
  unfold from_be. rewrite reverse_cons, from_le_app, length_reverse. cbn [from_le]. lia.
Qed.

Lemma from_be_nil : from_be [] = 0.
Proof. done. Qed.

Lemma from_be_app a b : from_be (a ++ b) = from_be a * pow256 (length b) + from_be b.
Proof.
  unfold from_be. rewrite reverse_app, from_le_app, length_reverse. lia.
Qed.

Lemma from_be_inj a b :
  bytes_ok a -> bytes_ok b -> length a = length b -> from_be a = from_be b -> a = b.
Proof.
  intros Ha Hb Hl Heq. apply (inj reverse), from_le_inj; [by apply bytes_ok_rev..| |done].
  by rewrite !length_reverse.
Qed.

Lemma length_to_be n z : length (to_be n z) = n.
Proof. unfold to_be. by rewrite length_reverse, length_to_le. Qed.

Lemma bytes_ok_to_be n z : bytes_ok (to_be n z).
Proof. apply bytes_ok_rev, bytes_ok_to_le. Qed.

Lemma from_to_be n z : from_be (to_be n z) = z mod pow256 n.
Proof. unfold from_be, to_be. by rewrite reverse_involutive, from_to_le. Qed.

Lemma to_from_be l : bytes_ok l -> to_be (length l) (from_be l) = l.
Proof.
  intros H. unfold from_be, to_be. rewrite <- (length_reverse l), to_from_le by by apply bytes_ok_rev.
  apply reverse_involutive.
Qed.

(** Big-endian arrays of one length compare as the numbers they encode. *)
Lemma lex_cmp_spec a b :
  bytes_ok a -> bytes_ok b -> length a = length b -> lex_cmp a b = (from_be a ?= from_be b).
Proof.
  intros Ha. revert b. induction Ha as [|x a Hx Ha IH]; intros [|y b] Hb Hl; try done.
  apply bytes_ok_cons in Hb as [Hy Hb]. cbn [lex_cmp].
  rewrite !from_be_cons. injection Hl as Hl. rewrite Hl.
  pose proof (from_be_bound a Ha) as Ba. pose proof (from_be_bound b Hb) as Bb.
  rewrite Hl in Ba. set (P := pow256 (length b)) in *.
  destruct (Z.compare_spec x y) as [->|Hlt|Hgt].
  - rewrite IH by done. symmetry. rewrite Z.add_compare_mono_l. done.
  - symmetry. apply Z.compare_lt_iff. nia.
  - symmetry. apply Z.compare_gt_iff. nia.
Qed.

(** Overwriting one byte of a big-endian string. *)
Lemma from_be_insert l i x y :
  l !! i = Some x ->
  from_be (<[i := y]> l) = from_be l + (y - x) * pow256 (length l - S i).
Proof.
  intros Hi. rewrite <- (take_drop_middle _ _ _ Hi) at 2.
  rewrite insert_take_drop by (by eapply lookup_lt_Some).
  rewrite !from_be_app, !from_be_cons. cbn [length].
  rewrite length_drop. nia.
Qed.

Lemma bytes_ok_insert l i y : bytes_ok l -> byte_ok y -> bytes_ok (<[i := y]> l).
Proof. intros Hl Hy. by apply Forall_insert. Qed.

Lemma bytes_ok_lookup l i x : bytes_ok l -> l !! i = Some x -> byte_ok x.
Proof. apply Forall_lookup_1. Qed.

Lemma bytes_ok_take l n : bytes_ok l -> bytes_ok (take n l).
Proof. apply Forall_take. Qed.
Lemma bytes_ok_drop l n : bytes_ok l -> bytes_ok (drop n l).
Proof. apply Forall_drop. Qed.

(** Well-formedness of a concrete byte string, by computation. *)
Definition bytes_okb (l : bytes) : bool := forallb (fun b => (0 <=? b) && (b <? 256)) l.

Lemma bytes_okb_ok l : bytes_okb l = true -> bytes_ok l.
Proof.
  induction l as [|b l IH]; [constructor|]. unfold bytes_okb. cbn [forallb]. intros H.
  apply andb_true_iff in H as [Hb Hl]. bool_to_prop. constructor; [unfold fits; lia|by apply IH].
Qed.

#[export] Hint Resolve bytes_ok_to_le bytes_ok_to_be bytes_ok_take bytes_ok_drop pow256_pos : btc.
#[export] Hint Rewrite length_to_le length_to_be : btc.
