(* ===== verification/U256.v ===== *)
(** * 256-bit arithmetic on big-endian byte arrays

    The hand-written 256-bit integer routines: proof-of-work accounting in
    [bitcoinpr-core/src/validation.rs] ([calculate_work], [u256_*],
    [add_chain_work], [multiply_target_by_ratio]) and the chain-work helpers of
    [bitcoinpr-storage/src/header_index.rs] ([add_work], [sub_work],
    [cmp_work]).  A [[u8; 32]] is a list of 32 bytes, most significant first;
    a loop [for i in (0..32).rev()] walks the reversed list. *)

From Stdlib Require Import ZArith Lia.
From stdpp Require Import base numbers list.
From S2P Require Import Prelude Bytes.

(** ** The code *)

Definition zero32 : bytes := replicate 32 0.
Definition ff32 : bytes := replicate 32 255.

Definition u256_one : bytes := <[31%nat := 1]> zero32.

(** The loop of [u256_add_one], least significant byte first; it stops as soon
    as the carry is zero. *)
Fixpoint add_one_loop (l : bytes) (carry : Z) : bytes * Z :=
  match l with
  | [] => ([], carry)
  | x :: r =>
      let sum := x + carry in
      let carry' := Z.shiftr sum 8 in
      if carry' =? 0 then (u8 sum :: r, 0)
      else let '(r', c) := add_one_loop r carry' in (u8 sum :: r', c)
  end.

Definition u256_add_one (a : bytes) : bytes * bool :=
  let '(r, carry) := add_one_loop (reverse a) 1 in
  (reverse r, negb (carry =? 0)).

Fixpoint sub_loop (a b : bytes) (borrow : Z) : bytes * Z :=
  match a, b with
  | x :: a', y :: b' =>
      let diff := x - y - borrow in
      let '(d, borrow') := if diff <? 0 then (u8 (diff + 256), 1) else (u8 diff, 0) in
      let '(r, bo) := sub_loop a' b' borrow' in (d :: r, bo)
  | _, _ => ([], borrow)
  end.

Definition u256_sub (a b : bytes) : bytes :=
  reverse (sub_loop (reverse a) (reverse b) 0).1.

Definition u256_cmp (a b : bytes) : comparison := lex_cmp a b.

(** [rem <<= 1], byte by byte from the least significant end. *)
Fixpoint shl1_loop (l : bytes) (carry : Z) : bytes :=
  match l with
  | [] => []
  | x :: r => Z.lor (u8 (Z.shiftl x 1)) carry :: shl1_loop r (Z.shiftr x 7)
  end.

Definition shl1 (a : bytes) : bytes := reverse (shl1_loop (reverse a) 0).

(** [a[i] |= v] *)
Definition or_byte (a : bytes) (i : nat) (v : Z) : bytes :=
  alter (fun x => Z.lor x v) i a.

(** One iteration of the long division, for numerator bit [bit]. *)
Definition div_step (num den : bytes) (st : bytes * bytes) (bit : nat) : bytes * bytes :=
  let '(quotient, rem) := st in
  let rem := shl1 rem in
  let nbit := Z.land (Z.shiftr (default 0 (num !! (31 - bit / 8)%nat))
                               (Z.of_nat (bit mod 8))) 1 in
  let rem := or_byte rem 31 nbit in
  match u256_cmp rem den with
  | Lt => (quotient, rem)
  | _ => (or_byte quotient (31 - bit / 8)%nat (Z.shiftl 1 (Z.of_nat (bit mod 8))),
          u256_sub rem den)
  end.

Definition u256_div (num den : bytes) : bytes :=
  if decide (den = zero32) then ff32
  else (foldl (div_step num den) (zero32, zero32) (reverse (seq 0 256))).1.

(** [calculate_work]: the proof of work a 256-bit target stands for. *)
Definition calculate_work (t : bytes) : bytes :=
  if decide (t = zero32) then ff32
  else
    let '(t_plus_one, overflow) := u256_add_one t in
    if overflow then u256_one
    else
      let not_t := (fun x => Z.lxor x 255) <$> t in
      let quotient := u256_div not_t t_plus_one in
      (u256_add_one quotient).1.

Fixpoint add_loop (a b : bytes) (carry : Z) : bytes :=
  match a, b with
  | x :: a', y :: b' =>
      let sum := x + y + carry in
      u8 sum :: add_loop a' b' (Z.shiftr sum 8)
  | _, _ => []
  end.

Definition add_chain_work (a b : bytes) : bytes :=
  reverse (add_loop (reverse a) (reverse b) 0).

(** [header_index.rs] repeats the addition and adds a saturating subtraction. *)
Definition add_work (a b : bytes) : bytes :=
  reverse (add_loop (reverse a) (reverse b) 0).

Definition sub_work (a b : bytes) : bytes :=
  let '(r, borrow) := sub_loop (reverse a) (reverse b) 0 in
  if negb (borrow =? 0) then zero32 else reverse r.

Definition cmp_work (a b : bytes) : comparison := lex_cmp a b.

(** [multiply_target_by_ratio]: four little-endian 64-bit limbs, multiplied by
    the numerator with a 128-bit carry and then divided limb by limb. *)
Definition limb_of (target : bytes) (i : nat) : Z :=
  from_be (take 8 (drop (32 - (i + 1) * 8) target)).

Fixpoint mul_limbs (limbs : list Z) (numerator carry : Z) : list Z :=
  match limbs with
  | [] => []
  | l :: r =>
      let product := u128 (l * numerator + carry) in
      u64 product :: mul_limbs r numerator (Z.shiftr product 64)
  end.

(** Most significant limb first, as the loop runs [rev()]. *)
Fixpoint div_limbs (limbs : list Z) (denominator remainder : Z) : list Z :=
  match limbs with
  | [] => []
  | l :: r =>
      let dividend := Z.lor (u128 (Z.shiftl remainder 64)) l in
      u64 (dividend / denominator) :: div_limbs r denominator (dividend mod denominator)
  end.

Definition multiply_target_by_ratio (target : bytes) (numerator denominator : Z) : bytes :=
  let limbs := limb_of target <$> seq 0 4 in
  let limbs := mul_limbs limbs numerator 0 in
  let limbs := reverse (div_limbs (reverse limbs) denominator 0) in
  concat (to_be 8 <$> reverse limbs).

(** ** Value lemmas of the loops *)

Definition arr32 (a : bytes) : Prop := length a = 32%nat /\ bytes_ok a.

Lemma arr32_bound a : arr32 a -> 0 <= from_be a < 2 ^ 256.
Proof. intros [Hl Ha]. pose proof (from_be_bound a Ha). by rewrite Hl in *. Qed.

Lemma arr32_zero : arr32 zero32.
Proof. split; [done|]. apply Forall_replicate. unfold fits. lia. Qed.

Lemma arr32_ff : arr32 ff32.
Proof. split; [done|]. apply Forall_replicate. unfold fits. lia. Qed.

Lemma arr32_one : arr32 u256_one.
Proof. split; [done|]. apply bytes_ok_insert; [apply arr32_zero|]. unfold fits. lia. Qed.

Lemma from_be_zero32 : from_be zero32 = 0.
Proof. done. Qed.

Lemma arr32_eq_zero a : arr32 a -> a = zero32 <-> from_be a = 0.
Proof.
  intros [Hl Ha]. split; [by intros ->|]. intros H0.
  apply from_be_inj; [done|apply arr32_zero|done|done].
Qed.

Lemma byte_div_mod x : 0 <= x -> x = u8 x + 256 * Z.shiftr x 8.
Proof.
  intros H. rewrite Z.shiftr_div_pow2 by lia. unfold wrap.
  change (2 ^ 8) with 256. pose proof (Z.div_mod x 256). lia.
Qed.

Lemma shiftr8_bound x n : 0 <= x < 256 * n -> 0 <= Z.shiftr x 8 < n.
Proof.
  intros H. rewrite Z.shiftr_div_pow2 by lia. change (2 ^ 8) with 256.
  split; [apply Z.div_pos; lia|]. apply Z.div_lt_upper_bound; lia.
Qed.

Ltac byte_bounds :=
  repeat match goal with
  | H : bytes_ok (_ :: _) |- _ => apply bytes_ok_cons in H as [? ?]
  | H : byte_ok _ |- _ => unfold fits in H; change (2 ^ 8) with 256 in H
  end.

Lemma add_one_loop_spec l carry :
  bytes_ok l -> 0 <= carry <= 1 ->
  let '(r, c) := add_one_loop l carry in
  length r = length l /\ bytes_ok r /\ 0 <= c <= 1 /\
  from_le r + pow256 (length l) * c = from_le l + carry.
Proof.
  intros Hl. revert carry. induction Hl as [|x l Hx Hl IH]; intros carry Hc; cbn.
  { change (pow256 0) with 1. repeat split; try done; try lia; constructor. }
  byte_bounds. pose proof (byte_div_mod (x + carry) ltac:(lia)) as Hd.
  pose proof (shiftr8_bound (x + carry) 2 ltac:(lia)) as Hs.
  pose proof (wrap_fits 8 (x + carry) ltac:(lia)) as Hw.
  destruct (Z.eqb_spec (Z.shiftr (x + carry) 8) 0) as [E|E].
  - rewrite E in Hd. rewrite pow256_S. split_and!; cbn; [done|by constructor|lia|lia|lia].
  - specialize (IH (Z.shiftr (x + carry) 8) ltac:(lia)).
    destruct (add_one_loop l _) as [r c]. destruct IH as (IH1 & IH2 & IH3 & IH4).
    rewrite pow256_S. split_and!; cbn; [lia|by constructor|lia|lia|lia].
Qed.

Lemma u256_add_one_spec a :
  arr32 a ->
  arr32 (u256_add_one a).1 /\
  from_be (u256_add_one a).1 = (from_be a + 1) mod 2 ^ 256 /\
  (u256_add_one a).2 = (2 ^ 256 <=? from_be a + 1).
Proof.
  intros Ha. pose proof (arr32_bound a Ha) as Hb. destruct Ha as [Hl Ha].
  unfold u256_add_one. pose proof (add_one_loop_spec (reverse a) 1) as H.
  destruct (add_one_loop (reverse a) 1) as [r c]. cbn.
  destruct H as (H1 & H2 & H3 & H4); [by apply bytes_ok_rev|lia|].
  rewrite length_reverse, Hl in H1, H4. change (pow256 32) with (2 ^ 256) in H4.
  pose proof (from_le_bound r H2) as Hr. rewrite H1 in Hr. change (pow256 32) with (2 ^ 256) in Hr.
  assert (from_be (reverse r) = from_le r) as Er by (unfold from_be; by rewrite reverse_involutive).
  fold (from_be a) in H4. split_and!.
  - split; [by rewrite length_reverse|by apply bytes_ok_rev].
  - rewrite Er. apply (Z.mod_unique _ _ c); lia.
  - destruct (Z.eqb_spec c 0) as [->|Hc0]; cbn; symmetry; [apply Z.leb_gt|apply Z.leb_le]; lia.
Qed.

Lemma sub_loop_spec a b borrow :
  bytes_ok a -> bytes_ok b -> length a = length b -> 0 <= borrow <= 1 ->
  let '(r, bo) := sub_loop a b borrow in
  length r = length a /\ bytes_ok r /\ 0 <= bo <= 1 /\
  from_le r = from_le a - from_le b - borrow + pow256 (length a) * bo.
Proof.
  intros Ha. revert b borrow.
  induction Ha as [|x a Hx Ha IH]; intros [|y b] borrow Hb Hl Hbo; try done; cbn.
  { change (pow256 0) with 1. repeat split; try done; try lia; constructor. }
  byte_bounds. injection Hl as Hl. rewrite pow256_S.
  destruct (Z.ltb_spec (x - y - borrow) 0) as [E|E].
  - specialize (IH b 1 ltac:(done) Hl ltac:(lia)). destruct (sub_loop a b 1) as [r bo].
    destruct IH as (IH1 & IH2 & IH3 & IH4). rewrite wrap_small by (unfold fits; lia).
    split_and!; cbn; [lia|constructor; [unfold fits; lia|done]|lia|lia|lia].
  - specialize (IH b 0 ltac:(done) Hl ltac:(lia)). destruct (sub_loop a b 0) as [r bo].
    destruct IH as (IH1 & IH2 & IH3 & IH4). rewrite wrap_small by (unfold fits; lia).
    split_and!; cbn; [lia|constructor; [unfold fits; lia|done]|lia|lia|lia].
Qed.

Lemma sub_loop_be a b :
  arr32 a -> arr32 b ->
  let '(r, bo) := sub_loop (reverse a) (reverse b) 0 in
  arr32 (reverse r) /\ from_be (reverse r) = (from_be a - from_be b) mod 2 ^ 256 /\
  (bo =? 0) = (from_be b <=? from_be a).
Proof.
  intros Ha Hb. pose proof (arr32_bound a Ha). pose proof (arr32_bound b Hb).
  destruct Ha as [La Ha], Hb as [Lb Hb].
  pose proof (sub_loop_spec (reverse a) (reverse b) 0) as H1.
  destruct (sub_loop _ _ _) as [r bo].
  destruct H1 as (H1 & H2 & H3 & H4);
    [by apply bytes_ok_rev|by apply bytes_ok_rev|by rewrite !length_reverse, La, Lb|lia|].
  rewrite length_reverse, La in H1, H4. change (pow256 32) with (2 ^ 256) in H4.
  fold (from_be a) (from_be b) in H4.
  pose proof (from_le_bound r H2) as Hr. rewrite H1 in Hr. change (pow256 32) with (2 ^ 256) in Hr.
  assert (from_be (reverse r) = from_le r) as Er by (unfold from_be; by rewrite reverse_involutive).
  split_and!.
  - split; [by rewrite length_reverse|by apply bytes_ok_rev].
  - rewrite Er. apply (Z.mod_unique _ _ (- bo)); lia.
  - destruct (Z.eqb_spec bo 0) as [->|Hc0]; symmetry; [apply Z.leb_le|apply Z.leb_gt]; lia.
Qed.

Lemma u256_sub_spec a b :
  arr32 a -> arr32 b -> from_be b <= from_be a ->
  arr32 (u256_sub a b) /\ from_be (u256_sub a b) = from_be a - from_be b.
Proof.
  intros Ha Hb Hle. pose proof (sub_loop_be a b Ha Hb) as H.
  pose proof (arr32_bound a Ha). pose proof (arr32_bound b Hb).
  unfold u256_sub. destruct (sub_loop _ _ _) as [r bo]. destruct H as (Hr1 & Hr2 & _).
  split; [done|]. cbn [fst]. rewrite Hr2. apply Z.mod_small. lia.
Qed.

Lemma add_loop_spec a b carry :
  bytes_ok a -> bytes_ok b -> length a = length b -> 0 <= carry <= 1 ->
  length (add_loop a b carry) = length a /\ bytes_ok (add_loop a b carry) /\
  from_le (add_loop a b carry) = (from_le a + from_le b + carry) mod pow256 (length a).
Proof.
  intros Ha. revert b carry.
  induction Ha as [|x a Hx Ha IH]; intros [|y b] carry Hb Hl Hc; try done; cbn [add_loop length from_le].
  { change (pow256 0) with 1. rewrite Z.mod_1_r. repeat split; constructor. }
  byte_bounds. injection Hl as Hl. rewrite pow256_S.
  pose proof (byte_div_mod (x + y + carry) ltac:(lia)) as Hd.
  pose proof (shiftr8_bound (x + y + carry) 2 ltac:(lia)) as Hs.
  destruct (IH b (Z.shiftr (x + y + carry) 8) ltac:(done) Hl ltac:(lia)) as (IH1 & IH2 & IH3).
  split_and!; [by rewrite IH1|constructor; [by apply wrap_fits|done]|].
  rewrite IH3, (Z.rem_mul_r _ 256) by (try lia; apply pow256_pos).
  replace (x + 256 * from_le a + (y + 256 * from_le b) + carry)
    with (x + y + carry + (from_le a + from_le b) * 256) by lia.
  rewrite Z.mod_add, Z.div_add by lia. unfold wrap. change (2 ^ 8) with 256.
  rewrite Z.shiftr_div_pow2 by lia. change (2 ^ 8) with 256. f_equal. f_equal. f_equal. lia.
Qed.

Lemma shl1_loop_spec l carry :
  bytes_ok l -> 0 <= carry <= 1 ->
  length (shl1_loop l carry) = length l /\ bytes_ok (shl1_loop l carry) /\
  from_le (shl1_loop l carry) = (2 * from_le l + carry) mod pow256 (length l).
Proof.
  intros Hl. revert carry.
  induction Hl as [|x l Hx Hl IH]; intros carry Hc; cbn [shl1_loop length from_le].
  { change (pow256 0) with 1. rewrite Z.mod_1_r. repeat split; constructor. }
  byte_bounds. rewrite pow256_S.
  assert (Z.shiftr x 7 = (2 * x + carry) / 256) as E7.
  { rewrite Z.shiftr_div_pow2 by lia. change (2 ^ 7) with 128.
    pose proof (Z.div_mod x 128). pose proof (Z.mod_pos_bound x 128).
    apply (Z.div_unique _ _ _ (2 * (x mod 128) + carry)); lia. }
  assert (Z.lor (u8 (Z.shiftl x 1)) carry = (2 * x + carry) mod 256) as E8.
  { rewrite Z.shiftl_mul_pow2 by lia. unfold wrap. change (2 ^ 8) with 256. change (2 ^ 1) with 2.
    assert (Z.land (x * 2 mod 256) carry = 0) as Hland.
    { assert (carry = 0 \/ carry = 1) as [-> | ->] by lia; [apply Z.land_0_r|].
      change 1 with (Z.ones 1). rewrite Z.land_ones by lia. change (2 ^ 1) with 2.
      rewrite <- Znumtheory.Zmod_div_mod by (try lia; by exists 128). apply Z.mod_mul. lia. }
    rewrite <- Z.lxor_lor, <- Z.add_nocarry_lxor by done.
    pose proof (Z.div_mod (2 * x) 256). pose proof (Z.mod_pos_bound (2 * x) 256).
    replace (x * 2) with (2 * x) by lia.
    assert ((2 * x) mod 256 mod 2 = 0) as Hev.
    { rewrite <- Znumtheory.Zmod_div_mod by (try lia; by exists 128).
      rewrite Z.mul_comm. apply Z.mod_mul. lia. }
    pose proof (Z.div_mod ((2 * x) mod 256) 2).
    apply (Z.mod_unique _ _ ((2 * x) / 256)); lia. }
  assert (0 <= (2 * x + carry) / 256 <= 1) as Hc'.
  { split; [apply Z.div_pos; lia|]. apply Z.lt_succ_r, Z.div_lt_upper_bound; lia. }
  destruct (IH (Z.shiftr x 7) ltac:(lia)) as (IH1 & IH2 & IH3).
  split_and!; [by rewrite IH1|constructor; [|done]|].
  - rewrite E8. apply Z.mod_pos_bound. lia.
  - rewrite IH3, E8, E7, (Z.rem_mul_r _ 256) by (try lia; apply pow256_pos).
    replace (2 * (x + 256 * from_le l) + carry) with (2 * x + carry + (2 * from_le l) * 256) by lia.
    rewrite Z.mod_add, Z.div_add by lia. f_equal. f_equal. f_equal. lia.
Qed.

Lemma shl1_spec a :
  arr32 a -> arr32 (shl1 a) /\ from_be (shl1 a) = (2 * from_be a) mod 2 ^ 256.
Proof.
  intros [Hl Ha]. unfold shl1.
  destruct (shl1_loop_spec (reverse a) 0) as (H1 & H2 & H3); [by apply bytes_ok_rev|lia|].
  rewrite length_reverse, Hl in H1, H3. split; [split; [by rewrite length_reverse|by apply bytes_ok_rev]|].
  unfold from_be at 1. rewrite reverse_involutive, H3, Z.add_0_r. done.
Qed.

(** ** Long division *)

Lemma from_le_lookup l j x :
  bytes_ok l -> l !! j = Some x -> x = (from_le l / pow256 j) mod 256.
Proof.
  intros Hl. revert j. induction Hl as [|y l Hy Hl IH]; intros [|j] Hj; try done; cbn [from_le].
  - injection Hj as ->. byte_bounds. change (pow256 0) with 1.
    rewrite Z.div_1_r, Z.mul_comm, Z.mod_add, Z.mod_small by lia. done.
  - cbn in Hj. apply IH in Hj. byte_bounds.
    pose proof (from_le_bound l Hl). rewrite pow256_S, <- Z.div_div by (try lia; apply pow256_pos).
    rewrite (Z.mul_comm 256), Z.div_add, (Z.div_small y) by lia. done.
Qed.

Lemma arr32_lookup a j :
  arr32 a -> (j < 32)%nat -> a !! (31 - j)%nat = Some ((from_be a / pow256 j) mod 256).
Proof.
  intros [Hl Ha] Hj. destruct (lookup_lt_is_Some_2 a (31 - j)%nat) as [x Hx]; [lia|].
  rewrite Hx. f_equal. apply from_le_lookup; [by apply bytes_ok_rev|].
  rewrite reverse_lookup by lia. rewrite <- Hx. f_equal. lia.
Qed.

Lemma arr32_testbit a j m x :
  arr32 a -> (j < 32)%nat -> (m < 8)%nat -> a !! (31 - j)%nat = Some x ->
  Z.testbit x (Z.of_nat m) = Z.testbit (from_be a) (Z.of_nat (8 * j + m)).
Proof.
  intros Ha Hj Hm Hx. rewrite (arr32_lookup a j Ha Hj) in Hx. injection Hx as <-.
  change 256 with (2 ^ 8). rewrite Z.mod_pow2_bits_low by lia.
  unfold pow256. rewrite Z.div_pow2_bits by lia. f_equal. lia.
Qed.

Lemma lor_pow2 x m : 0 <= x -> 0 <= m -> Z.testbit x m = false -> Z.lor x (2 ^ m) = x + 2 ^ m.
Proof.
  intros Hx Hm Hb. assert (Z.land x (2 ^ m) = 0) as Hland.
  { apply Z.bits_inj'. intros i Hi. rewrite Z.land_spec, Z.bits_0, Z.pow2_bits_eqb by lia.
    destruct (Z.eqb_spec m i) as [->|]; [by rewrite Hb|apply andb_false_r]. }
  rewrite <- Z.lxor_lor, <- Z.add_nocarry_lxor by done. done.
Qed.

Lemma or_byte_zero a i : bytes_ok a -> or_byte a i 0 = a.
Proof.
  intros Ha. unfold or_byte. apply list_eq. intros k. rewrite list_lookup_alter.
  case_decide; subst; [|done]. destruct (a !! k); cbn; [|done]. by rewrite Z.lor_0_r.
Qed.

Lemma or_byte_pow2 a j m :
  arr32 a -> (j < 32)%nat -> (m < 8)%nat ->
  Z.testbit (from_be a) (Z.of_nat (8 * j + m)) = false ->
  arr32 (or_byte a (31 - j) (2 ^ Z.of_nat m)) /\
  from_be (or_byte a (31 - j) (2 ^ Z.of_nat m)) = from_be a + 2 ^ Z.of_nat (8 * j + m).
Proof.
  intros Ha Hj Hm Hb. destruct (lookup_lt_is_Some_2 a (31 - j)%nat) as [x Hx];
    [destruct Ha as [-> _]; lia|].
  rewrite <- (arr32_testbit a j m x Ha Hj Hm Hx) in Hb. destruct Ha as [Hl Ha].
  pose proof (bytes_ok_lookup _ _ _ Ha Hx) as Hxb. pose proof Hxb as Hxb'. byte_bounds.
  assert (or_byte a (31 - j) (2 ^ Z.of_nat m) = <[(31 - j)%nat := x + 2 ^ Z.of_nat m]> a) as ->.
  { unfold or_byte. rewrite <- lor_pow2 by (done || lia). apply list_eq. intros k.
    rewrite list_lookup_alter. case_decide as E.
    - subst. rewrite Hx, list_lookup_insert_eq by lia. done.
    - by rewrite list_lookup_insert_ne by done. }
  assert (byte_ok (x + 2 ^ Z.of_nat m)) as Hok.
  { rewrite <- lor_pow2 by (done || lia). destruct (Z.eq_dec (Z.lor x (2 ^ Z.of_nat m)) 0) as [->|].
    { unfold fits; lia. }
    assert (0 <= Z.lor x (2 ^ Z.of_nat m)) by (apply Z.lor_nonneg; lia).
    split; [done|]. apply Z.log2_lt_pow2; [lia|]. rewrite Z.log2_lor by lia.
    rewrite Z.log2_pow2 by lia. apply Z.max_lub_lt; [|lia].
    destruct (Z.eq_dec x 0) as [->|]; [done|]. apply Z.log2_lt_pow2; lia. }
  split; [split; [by rewrite length_insert|by apply bytes_ok_insert]|].
  rewrite (from_be_insert _ _ x) by done. rewrite Hl.
  replace (32 - S (31 - j))%nat with j by lia. unfold pow256.
  rewrite Nat2Z.inj_add, Nat2Z.inj_mul, Z.pow_add_r by lia. lia.
Qed.

(** What [div_step] has established once the bits from 255 down to [k] are
    processed. *)
Definition div_inv (num den : bytes) (k : nat) (st : bytes * bytes) : Prop :=
  let n := from_be num / 2 ^ Z.of_nat k in
  arr32 st.1 /\ arr32 st.2 /\
  from_be st.1 = n / from_be den * 2 ^ Z.of_nat k /\
  from_be st.2 = n mod from_be den.

Lemma div_nbit num bit :
  arr32 num -> (bit < 256)%nat ->
  Z.land (Z.shiftr (default 0 (num !! (31 - bit / 8)%nat)) (Z.of_nat (bit mod 8))) 1 =
  (from_be num / 2 ^ Z.of_nat bit) mod 2.
Proof.
  intros Hn Hb. assert (bit / 8 < 32)%nat by (apply Nat.Div0.div_lt_upper_bound; lia).
  pose proof (Nat.mod_upper_bound bit 8 ltac:(lia)).
  destruct (lookup_lt_is_Some_2 num (31 - bit / 8)%nat) as [x Hx]; [destruct Hn as [-> _]; lia|].
  rewrite Hx. cbn [default from_option id].
  change 1 with (Z.ones 1) at 1. rewrite Z.land_ones by lia. change (2 ^ 1) with 2.
  rewrite Z.shiftr_div_pow2, <- !Z.testbit_spec' by lia.
  rewrite (arr32_testbit num (bit / 8) (bit mod 8) x) by done.
  do 2 f_equal. pose proof (Nat.div_mod_eq bit 8). lia.
Qed.

(** Appending one bit to the numerator doubles the quotient and the remainder. *)
Lemma div_double n D :
  0 <= n -> 0 < D ->
  let rem := 2 * (n / 2 mod D) + n mod 2 in
  0 <= rem < 2 * D /\
  n / D = 2 * (n / 2 / D) + b2z (D <=? rem) /\
  n mod D = rem - b2z (D <=? rem) * D.
Proof.
  intros Hn HD rem. pose proof (Z.div_mod n 2 ltac:(lia)). pose proof (Z.mod_pos_bound n 2 ltac:(lia)).
  pose proof (Z.div_mod (n / 2) D ltac:(lia)). pose proof (Z.mod_pos_bound (n / 2) D HD).
  assert (n = D * (2 * (n / 2 / D)) + rem) as Hdec by (unfold rem; lia).
  assert (0 <= rem < 2 * D) as Hrem by (unfold rem; lia). clearbody rem.
  split; [done|]. destruct (Z.leb_spec D rem); cbn [b2z].
  - split; [symmetry; apply (Z.div_unique n D _ (rem - D)); lia|].
    symmetry. apply (Z.mod_unique n D (2 * (n / 2 / D) + 1)); lia.
  - split; [symmetry; apply (Z.div_unique n D _ rem); lia|].
    symmetry. apply (Z.mod_unique n D (2 * (n / 2 / D))); lia.
Qed.

(** Shifting the remainder and bringing in the next numerator bit. *)
Lemma div_rem_step r b :
  arr32 r -> from_be r < 2 ^ 255 -> b = 0 \/ b = 1 ->
  arr32 (or_byte (shl1 r) 31 b) /\ from_be (or_byte (shl1 r) 31 b) = 2 * from_be r + b.
Proof.
  intros Hr Hlt Hb. pose proof (arr32_bound r Hr). destruct (shl1_spec r Hr) as [Hs Es].
  rewrite (Z.mod_small (2 * from_be r)) in Es by lia. destruct Hb as [-> | ->].
  - rewrite or_byte_zero by apply Hs. split; [done|lia].
  - destruct (or_byte_pow2 (shl1 r) 0 0) as [H1 H2]; [done|lia|lia| |].
    + rewrite Es. change (Z.of_nat (8 * 0 + 0)) with 0. apply Z.testbit_even_0.
    + change (2 ^ Z.of_nat 0) with 1 in *. change (Z.of_nat (8 * 0 + 0)) with 0 in *.
      change (31 - 0)%nat with 31%nat in *. split; [done|]. by rewrite H2, Es.
Qed.

(** Setting quotient bit [bit] when no bit from [bit] down is set yet. *)
Lemma div_quot_step q c bit :
  arr32 q -> (bit < 256)%nat -> 0 <= c -> from_be q = 2 * c * 2 ^ Z.of_nat bit ->
  let q' := or_byte q (31 - bit / 8) (Z.shiftl 1 (Z.of_nat (bit mod 8))) in
  arr32 q' /\ from_be q' = (2 * c + 1) * 2 ^ Z.of_nat bit.
Proof.
  intros Hq Hbit Hc Eq. rewrite Z.shiftl_1_l. pose proof (Nat.div_mod_eq bit 8) as Eb.
  destruct (or_byte_pow2 q (bit / 8) (bit mod 8)) as [H1 H2];
    [done|apply Nat.Div0.div_lt_upper_bound; lia|apply Nat.mod_upper_bound; lia| |].
  - rewrite <- Eb, Eq, Z.mul_pow2_bits, Z.sub_diag by lia. apply Z.testbit_even_0.
  - split; [done|]. rewrite H2, <- Eb, Eq. lia.
Qed.

Lemma div_step_inv num den bit st :
  arr32 num -> arr32 den -> 0 < from_be den -> (bit < 256)%nat ->
  div_inv num den (S bit) st -> div_inv num den bit (div_step num den st bit).
Proof.
  intros Hn Hd Hpos Hbit. destruct st as [q r]. intros (Hq & Hr & Eq & Er). cbn [fst snd] in *.
  pose proof (arr32_bound num Hn) as Bn. set (D := from_be den) in *. set (N := from_be num) in *.
  assert (0 < 2 ^ Z.of_nat bit) as Hp2 by (apply Z.pow_pos_nonneg; lia).
  rewrite Nat2Z.inj_succ, Z.pow_succ_r, (Z.mul_comm 2), <- Z.div_div in Eq, Er by lia.
  unfold div_inv. fold N D. set (n := N / 2 ^ Z.of_nat bit) in *.
  assert (0 <= n < 2 ^ 256) as Hnb.
  { split; [apply Z.div_pos; lia|]. apply Z.div_lt_upper_bound; [lia|]. nia. }
  assert (from_be r < 2 ^ 255) as Hr255.
  { apply Z.le_lt_trans with (n / 2); [rewrite Er; apply Z.mod_le; [apply Z.div_pos; lia|lia]|].
    apply Z.div_lt_upper_bound; lia. }
  destruct (div_rem_step r (n mod 2) Hr Hr255) as [Hrem Erem];
    [pose proof (Z.mod_pos_bound n 2 ltac:(lia)); lia|].
  destruct (div_double n D ltac:(lia) Hpos) as (_ & Edd & Emm). rewrite <- Er, <- Erem in *.
  destruct (div_quot_step q (n / 2 / D) bit Hq Hbit) as [Hq' Eq'];
    [apply Z.div_pos; [apply Z.div_pos|]; lia|rewrite Eq; lia|].
  unfold div_step. rewrite (div_nbit num bit Hn Hbit). fold N n.
  set (rem := or_byte (shl1 r) 31 (n mod 2)) in *.
  unfold u256_cmp. rewrite lex_cmp_spec
    by first [apply Hrem|apply Hd|destruct Hrem as [-> _]; by destruct Hd as [-> _]].
  fold D. rewrite Edd, Emm. pose proof (u256_sub_spec rem den Hrem Hd) as Hsub. fold D in Hsub.
  destruct (Z.compare_spec (from_be rem) D) as [E|E|E], (Z.leb_spec D (from_be rem)); try lia;
    cbn [b2z fst snd].
  - destruct Hsub as [Hs1 Hs2]; [lia|]. split_and!; [done|done|done|]. rewrite Hs2. lia.
  - split_and!; [done|done|rewrite Eq; lia|lia].
  - destruct Hsub as [Hs1 Hs2]; [lia|]. split_and!; [done|done|done|]. rewrite Hs2. lia.
Qed.

Lemma div_loop_inv num den k :
  arr32 num -> arr32 den -> 0 < from_be den -> (k <= 256)%nat ->
  div_inv num den (256 - k) (foldl (div_step num den) (zero32, zero32) (reverse (seq (256 - k) k))).
Proof.
  intros Hn Hd Hpos. induction k as [|k IH]; intros Hk.
  - pose proof (arr32_bound num Hn). cbn [seq]. rewrite reverse_nil. cbn [foldl].
    unfold div_inv. cbn [fst snd]. rewrite Nat.sub_0_r. change (Z.of_nat 256) with 256.
    rewrite (Z.div_small (from_be num)) by lia. rewrite Z.div_0_l, Z.mod_0_l by lia.
    split_and!; [apply arr32_zero..|by rewrite from_be_zero32|by rewrite from_be_zero32].
  - replace (seq (256 - S k) (S k)) with ((256 - S k)%nat :: seq (256 - k) k).
    2: { cbn [seq]. do 2 f_equal. lia. }
    rewrite reverse_cons, foldl_app. cbn [foldl].
    apply div_step_inv; [done|done|done|lia|].
    replace (S (256 - S k)) with (256 - k)%nat by lia. apply IH. lia.
Qed.

Lemma u256_div_spec num den :
  arr32 num -> arr32 den -> from_be den <> 0 ->
  arr32 (u256_div num den) /\ from_be (u256_div num den) = from_be num / from_be den.
Proof.
  intros Hn Hd H0. pose proof (arr32_bound den Hd). unfold u256_div.
  rewrite decide_False by (by rewrite arr32_eq_zero).
  destruct (div_loop_inv num den 256 Hn Hd ltac:(lia) ltac:(lia)) as (H1 & _ & H2 & _).
  change (256 - 256)%nat with 0%nat in *. split; [done|]. rewrite H2.
  change (2 ^ Z.of_nat 0) with 1. by rewrite Z.div_1_r, Z.mul_1_r.
Qed.

(** ** Limb arithmetic of the retarget *)

(** Little- and big-endian values of a list of 64-bit limbs. *)
Fixpoint limbs_le (l : list Z) : Z :=
  match l with [] => 0 | x :: r => x + 2 ^ 64 * limbs_le r end.

Definition limbs_be (l : list Z) : Z := foldl (fun acc x => acc * 2 ^ 64 + x) 0 l.

Definition limbs_ok (l : list Z) : Prop := Forall (fits 64) l.

Lemma foldl_limbs_acc l acc :
  foldl (fun acc x => acc * 2 ^ 64 + x) acc l = acc * 2 ^ (64 * len l) + limbs_be l.
Proof.
  unfold limbs_be. revert acc. induction l as [|x l IH]; intros acc; cbn [foldl].
  - rewrite len_nil, Z.pow_0_r. lia.
  - rewrite (IH (acc * 2 ^ 64 + x)), (IH (0 * 2 ^ 64 + x)), len_cons.
    replace (64 * (1 + len l)) with (64 + 64 * len l) by lia.
    rewrite Z.pow_add_r by (pose proof (len_nonneg l); lia). lia.
Qed.

Lemma limbs_be_app a b : limbs_be (a ++ b) = limbs_be a * 2 ^ (64 * len b) + limbs_be b.
Proof. unfold limbs_be at 1. rewrite foldl_app. by rewrite foldl_limbs_acc. Qed.

Lemma limbs_be_reverse l : limbs_be (reverse l) = limbs_le l.
Proof.
  induction l as [|x l IH]; [done|]. rewrite reverse_cons, limbs_be_app, IH.
  cbn [limbs_le]. unfold limbs_be, len. cbn [foldl length]. change (64 * Z.of_nat 1) with 64. lia.
Qed.

Lemma mul_limbs_spec l n c :
  limbs_ok l -> fits 64 n -> fits 64 c ->
  length (mul_limbs l n c) = length l /\ limbs_ok (mul_limbs l n c) /\
  limbs_le (mul_limbs l n c) = (limbs_le l * n + c) mod 2 ^ (64 * len l).
Proof.
  intros Hl Hn. revert c. induction Hl as [|x l Hx Hl IH]; intros c Hc; cbn [mul_limbs limbs_le].
  - rewrite len_nil, Z.pow_0_r, Z.mod_1_r. repeat split; constructor.
  - unfold fits in Hx, Hn, Hc. rewrite (wrap_small 128) by (unfold fits; nia).
    rewrite Z.shiftr_div_pow2 by lia. set (p := x * n + c).
    assert (0 <= p < 2 ^ 128) as Hp by (unfold p; nia).
    destruct (IH (p / 2 ^ 64)) as (IH1 & IH2 & IH3).
    { split; [apply Z.div_pos; lia|apply Z.div_lt_upper_bound; lia]. }
    split_and!; [cbn; by rewrite IH1|constructor; [by apply wrap_fits|done]|].
    rewrite IH3, len_cons. replace (64 * (1 + len l)) with (64 + 64 * len l) by lia.
    rewrite Z.pow_add_r by (pose proof (len_nonneg l); lia).
    rewrite Z.rem_mul_r by (try lia; apply Z.pow_pos_nonneg; pose proof (len_nonneg l); lia).
    replace ((x + 2 ^ 64 * limbs_le l) * n + c) with (p + limbs_le l * n * 2 ^ 64) by (unfold p; lia).
    rewrite Z.mod_add, Z.div_add by lia. unfold wrap. f_equal. f_equal. f_equal. lia.
Qed.

Lemma lor_shift_add a x k : 0 <= k -> 0 <= x < 2 ^ k -> Z.lor (a * 2 ^ k) x = a * 2 ^ k + x.
Proof.
  intros Hk Hx. assert (Z.land (a * 2 ^ k) x = 0) as Hland.
  { apply Z.bits_inj'. intros i Hi. rewrite Z.land_spec, Z.bits_0.
    destruct (Z.lt_ge_cases i k); [by rewrite Z.mul_pow2_bits_low by lia|].
    rewrite <- (Z.mod_small x (2 ^ k)), Z.mod_pow2_bits_high by lia. apply andb_false_r. }
  by rewrite <- Z.lxor_lor, <- Z.add_nocarry_lxor by done.
Qed.

Lemma div_limbs_spec l d r :
  limbs_ok l -> fits 64 d -> 0 <= r < d ->
  length (div_limbs l d r) = length l /\ limbs_ok (div_limbs l d r) /\
  limbs_be (div_limbs l d r) = (r * 2 ^ (64 * len l) + limbs_be l) / d.
Proof.
  intros Hl Hd. revert r. induction Hl as [|x l Hx Hl IH]; intros r Hr; cbn [div_limbs].
  - rewrite len_nil, Z.pow_0_r, Z.mul_1_r. unfold limbs_be. cbn [foldl].
    rewrite Z.add_0_r, Z.div_small by lia. repeat split; constructor.
  - unfold fits in Hx, Hd. rewrite Z.shiftl_mul_pow2, (wrap_small 128) by (try (unfold fits; nia); lia).
    rewrite lor_shift_add by lia.
    set (v := r * 2 ^ 64 + x). pose proof (Z.div_mod v d ltac:(lia)) as Hv.
    pose proof (Z.mod_pos_bound v d ltac:(lia)) as Hm.
    destruct (IH (v mod d) ltac:(lia)) as (IH1 & IH2 & IH3).
    assert (0 <= v / d < 2 ^ 64) as Hq.
    { split; [apply Z.div_pos; unfold v; lia|apply Z.div_lt_upper_bound; unfold v; nia]. }
    split_and!; [cbn; by rewrite IH1|constructor; [by apply wrap_fits|done]|].
    rewrite (wrap_small 64) by done. change (?a :: ?b) with ([a] ++ b).
    rewrite !limbs_be_app, IH3, len_app.
    assert (len (div_limbs l d (v mod d)) = len l) as -> by (unfold len; by rewrite IH1).
    change (len [x]) with 1. assert (forall y, limbs_be [y] = y) as Hsing by (intros y; unfold limbs_be; cbn; lia).
    rewrite !Hsing. pose proof (len_nonneg l).
    replace (64 * (1 + len l)) with (64 + 64 * len l) by lia. rewrite Z.pow_add_r by lia.
    set (P := 2 ^ (64 * len l)).
    rewrite <- Z.div_add_l by lia. f_equal. unfold v in *. nia.
Qed.

Lemma from_be_limbs l :
  limbs_ok l -> length (concat (to_be 8 <$> l)) = (8 * length l)%nat /\
  bytes_ok (concat (to_be 8 <$> l)) /\ from_be (concat (to_be 8 <$> l)) = limbs_be l.
Proof.
  induction 1 as [|x l Hx Hl (IH1 & IH2 & IH3)]; cbn [fmap list_fmap concat].
  - repeat split. constructor.
  - split_and!.
    + rewrite length_app, length_to_be. change (list_fmap _ _ (to_be 8) l) with (to_be 8 <$> l).
      rewrite IH1. cbn [length]. lia.
    + by apply bytes_ok_app; split; [apply bytes_ok_to_be|].
    + rewrite from_be_app, from_to_be. change (list_fmap _ _ (to_be 8) l) with (to_be 8 <$> l).
      rewrite IH1, IH3. change (x :: l) with ([x] ++ l). rewrite limbs_be_app.
      rewrite Z.mod_small by apply Hx. unfold pow256, len. f_equal.
      unfold limbs_be. cbn [foldl]. f_equal. f_equal. lia.
Qed.

Lemma limbs_of_target t :
  arr32 t -> limbs_ok (limb_of t <$> seq 0 4) /\ limbs_le (limb_of t <$> seq 0 4) = from_be t.
Proof.
  intros [Hl Ht]. split.
  - apply Forall_fmap, Forall_forall. intros i Hi%elem_of_seq. cbn. unfold limb_of.
    assert (length (take 8 (drop (32 - (i + 1) * 8) t)) = 8%nat) as E
      by (rewrite length_take, length_drop; lia).
    pose proof (from_be_bound (take 8 (drop (32 - (i + 1) * 8) t))) as B. rewrite E in B.
    apply B. by auto with btc.
  - do 32 (destruct t as [|? t]; [done|]). destruct t; [|done].
    cbn [seq fmap list_fmap limbs_le]. unfold limb_of. cbn [Nat.sub Nat.mul Nat.add drop take].
    unfold from_be. cbn. lia.
Qed.

(** ** Correctness of the 256-bit routines *)

Lemma not_bytes_value t : arr32 t ->
  arr32 ((fun x => Z.lxor x 255) <$> t) /\
  from_be ((fun x => Z.lxor x 255) <$> t) = 2 ^ 256 - 1 - from_be t.
Proof.
  intros [Hl Ht]. change (2 ^ 256) with (pow256 32). rewrite <- Hl.
  assert (forall x, byte_ok x -> Z.lxor x 255 = 255 - x) as Hx.
  { intros x Hx. change 255 with (Z.ones 8). rewrite Z.lxor_comm.
    pose proof (Z.sub_nocarry_ldiff (Z.ones 8) x) as Hs. rewrite Hs.
    - apply Z.bits_inj'. intros i Hi. rewrite Z.lxor_spec, Z.ldiff_spec.
      destruct (Z.lt_ge_cases i 8) as [Hi8|Hi8].
      + rewrite Z.ones_spec_low by lia. by destruct (Z.testbit x i).
      + rewrite Z.ones_spec_high by lia. rewrite <- (Z.mod_small x (2 ^ 8)) by apply Hx.
        by rewrite Z.mod_pow2_bits_high by lia.
    - apply Z.bits_inj'. intros i Hi. rewrite Z.ldiff_spec, Z.bits_0.
      destruct (Z.lt_ge_cases i 8) as [Hi8|Hi8].
      + rewrite Z.ones_spec_low by lia. apply andb_false_r.
      + rewrite <- (Z.mod_small x (2 ^ 8)) by apply Hx. by rewrite Z.mod_pow2_bits_high by lia. }
  split; [split; [by rewrite length_fmap|]|].
  - apply Forall_fmap. eapply Forall_impl; [exact Ht|]. intros x Hb. cbn. rewrite Hx by done.
    unfold fits in *. lia.
  - clear Hl. induction Ht as [|x t Hb Ht IH]; [done|]. rewrite fmap_cons, !from_be_cons, length_fmap.
    rewrite IH, Hx by done. cbn [length]. rewrite pow256_S. lia.
Qed.

(** The formula of Bitcoin Core's [GetBlockProof] in closed form. *)
Lemma work_closed_form t : 0 < t + 1 -> (2 ^ 256 - 1 - t) / (t + 1) + 1 = 2 ^ 256 / (t + 1).
Proof.
  intros H. replace (2 ^ 256) with (2 ^ 256 - 1 - t + 1 * (t + 1)) at 2 by lia.
  by rewrite Z.div_add by lia.
Qed.

Lemma calculate_work_value t :
  arr32 t -> from_be t <> 0 ->
  arr32 (calculate_work t) /\ from_be (calculate_work t) = 2 ^ 256 / (from_be t + 1).
Proof.
  intros Ht Hnz.
  pose proof (arr32_bound t Ht) as Hb. unfold calculate_work.
  rewrite decide_False by (by rewrite arr32_eq_zero).
  destruct (u256_add_one_spec t Ht) as (Hp & Ep & Eo).
  destruct (u256_add_one t) as [t1 ov]. cbn [fst snd] in *. subst ov.
  destruct (Z.leb_spec (2 ^ 256) (from_be t + 1)) as [E|E].
  { split; [apply arr32_one|]. replace (from_be t + 1) with (2 ^ 256) by lia. done. }
  rewrite Z.mod_small in Ep by lia. destruct (not_bytes_value t Ht) as [Hnt Ent].
  destruct (u256_div_spec _ t1 Hnt Hp ltac:(lia)) as [Hq Eq].
  destruct (u256_add_one_spec _ Hq) as (Hw & Ew & _). split; [done|].
  rewrite Ew, Eq, Ent, Ep. rewrite work_closed_form by lia. apply Z.mod_small.
  split; [apply Z.div_pos; lia|]. apply Z.div_lt_upper_bound; nia.
Qed.

(** C1 [calculate_work] computes Bitcoin's proof of work exactly: for every
    non-zero 256-bit target [t] the result is [floor(2^256 / (t + 1))], again a
    32-byte big-endian number. *)
Theorem calculate_work_exact (t : bytes) (Ht : arr32 t) (Hnz : from_be t <> 0) :
  arr32 (calculate_work t) /\ from_be (calculate_work t) = 2 ^ 256 / (from_be t + 1).
Proof. by apply calculate_work_value. Qed.

Definition diff1_target : bytes := <[4%nat := 255]> (<[5%nat := 255]> zero32).

Lemma diff1_target_arr32 : arr32 diff1_target.
Proof. split; [done|]. apply bytes_ok_insert; [apply bytes_ok_insert; [apply arr32_zero|]|]; unfold fits; lia. Qed.

(** The difficulty-1 target: the work the test-suite pins, [0x100010001]. *)
Lemma calculate_work_exact_witness :
  from_be (calculate_work diff1_target) = 0x100010001.
Proof.
  destruct (calculate_work_exact diff1_target diff1_target_arr32 ltac:(vm_compute; congruence)) as [_ ->].
  vm_compute. reflexivity.
Defined.

Lemma add_chain_work_value a b :
  arr32 a -> arr32 b -> arr32 (add_chain_work a b) /\ from_be (add_chain_work a b) = (from_be a + from_be b) mod 2 ^ 256.
Proof.
  intros Ha Hb. destruct (add_loop_spec (reverse a) (reverse b) 0) as (H1 & H2 & H3);
    [apply bytes_ok_rev, Ha|apply bytes_ok_rev, Hb
    |rewrite !length_reverse; destruct Ha as [-> _]; by destruct Hb as [-> _]|lia|].
  rewrite length_reverse in H1, H3. destruct Ha as [La Ha], Hb as [Lb Hb].
  rewrite La in *. fold (from_be a) (from_be b) in H3. change (pow256 32) with (2 ^ 256) in H3. rewrite Z.add_0_r in H3.
  split; [split; unfold add_chain_work; [by rewrite length_reverse|by apply bytes_ok_rev]|].
  unfold from_be at 1, add_chain_work. by rewrite reverse_involutive.
Qed.

(** C2 Chain-work accumulation: adding two 256-bit work values is addition
    modulo [2^256] and stays a 32-byte array, so along a chain whose total work
    fits in 256 bits the cumulative work is the exact sum, and the byte-wise
    comparison used for fork choice orders chains by that sum.  The copy in the
    header index computes the same function. *)
Theorem add_chain_work_exact (a b c : bytes) (Ha : arr32 a) (Hb : arr32 b) (Hc : arr32 c)
    (Hfit : from_be a + from_be b < 2 ^ 256) :
  arr32 (add_chain_work a b) /\
  from_be (add_chain_work a b) = from_be a + from_be b /\
  add_work a b = add_chain_work a b /\
  cmp_work (add_chain_work a b) c = (from_be a + from_be b ?= from_be c).
Proof.
  pose proof (arr32_bound a Ha) as Ba. pose proof (arr32_bound b Hb) as Bb.
  destruct (add_chain_work_value a b Ha Hb) as [Hr Er]. rewrite Z.mod_small in Er by lia.
  split_and!; [done|done|done|]. unfold cmp_work.
  rewrite lex_cmp_spec, Er; [done|apply Hr|apply Hc|]. destruct Hr as [-> _]. by destruct Hc as [-> _].
Qed.

Lemma add_chain_work_exact_witness :
  cmp_work (add_chain_work u256_one diff1_target) diff1_target = Gt.
Proof.
  destruct (add_chain_work_exact u256_one diff1_target diff1_target arr32_one
              diff1_target_arr32 diff1_target_arr32 ltac:(vm_compute; reflexivity)) as (_ & _ & _ & ->).
  vm_compute. reflexivity.
Defined.

(** C3 A smaller (harder) target never carries less work: [calculate_work] is
    antitone in the byte order of targets. *)
Theorem calculate_work_antitone (t1 t2 : bytes) (H1 : arr32 t1) (H2 : arr32 t2)
    (Hnz : from_be t1 <> 0) (Hle : lex_cmp t1 t2 <> Gt) :
  cmp_work (calculate_work t2) (calculate_work t1) <> Gt.
Proof.
  pose proof (arr32_bound t1 H1). pose proof (arr32_bound t2 H2).
  rewrite lex_cmp_spec in Hle by first [apply H1|apply H2|destruct H1 as [-> _]; by destruct H2 as [-> _]].
  fold (from_be t1 <= from_be t2) in Hle.
  assert (forall t, arr32 t -> from_be t <> 0 -> arr32 (calculate_work t) /\
            from_be (calculate_work t) = 2 ^ 256 / (from_be t + 1)) as Hw
    by (intros; by apply calculate_work_value).
  destruct (Hw t1) as [W1 E1]; [done|done|]. destruct (Hw t2) as [W2 E2]; [done|lia|].
  unfold cmp_work.
  rewrite lex_cmp_spec by first [apply W1|apply W2|destruct W1 as [-> _]; by destruct W2 as [-> _]].
  rewrite E1, E2. apply Z.div_le_compat_l; lia.
Qed.

Lemma calculate_work_antitone_witness :
  cmp_work (calculate_work diff1_target) (calculate_work u256_one) <> Gt.
Proof.
  apply (calculate_work_antitone u256_one diff1_target arr32_one diff1_target_arr32);
    vm_compute; congruence.
Defined.

Lemma multiply_target_by_ratio_value t n d :
  arr32 t -> fits 64 n -> 0 < d < 2 ^ 64 ->
  arr32 (multiply_target_by_ratio t n d) /\
  from_be (multiply_target_by_ratio t n d) = (from_be t * n) mod 2 ^ 256 / d.
Proof.
  intros Ht Hn Hd. destruct (limbs_of_target t Ht) as [Hlo Elo].
  destruct (mul_limbs_spec (limb_of t <$> seq 0 4) n 0 Hlo Hn ltac:(unfold fits; lia)) as (M1 & M2 & M3).
  destruct (div_limbs_spec (reverse (mul_limbs (limb_of t <$> seq 0 4) n 0)) d 0) as (D1 & D2 & D3);
    [by apply Forall_reverse|unfold fits; lia|lia|].
  rewrite length_reverse, M1 in D1. rewrite limbs_be_reverse, M3, Elo, Z.add_0_r, Z.add_0_l in D3.
  unfold multiply_target_by_ratio. rewrite reverse_involutive.
  destruct (from_be_limbs _ D2) as (F1 & F2 & F3). rewrite D1 in F1.
  split; [split; [done|done]|]. by rewrite F3, D3.
Qed.

(** C4 The retarget multiplication is exact 256-bit arithmetic: as long as
    [target * numerator] fits in 256 bits the routine returns
    [floor(target * numerator / denominator)], and in general it computes that
    quotient of the product truncated to 256 bits (the carry out of the top
    limb is dropped). *)
Theorem multiply_target_by_ratio_exact (t : bytes) (n d : Z)
    (Ht : arr32 t) (Hn : fits 64 n) (Hd : 0 < d < 2 ^ 64) :
  arr32 (multiply_target_by_ratio t n d) /\
  from_be (multiply_target_by_ratio t n d) = (from_be t * n) mod 2 ^ 256 / d /\
  (from_be t * n < 2 ^ 256 -> from_be (multiply_target_by_ratio t n d) = from_be t * n / d).
Proof.
  destruct (multiply_target_by_ratio_value t n d Ht Hn Hd) as [H1 H2].
  split_and!; [done|done|]. intros Hfit. rewrite H2. pose proof (arr32_bound t Ht).
  destruct Hn. rewrite Z.mod_small; [done|]. nia.
Qed.

Lemma multiply_target_by_ratio_exact_witness :
  from_be (multiply_target_by_ratio diff1_target 4838400 1209600) = 4 * from_be diff1_target.
Proof.
  destruct (multiply_target_by_ratio_exact diff1_target 4838400 1209600 diff1_target_arr32
              ltac:(unfold fits; lia) ltac:(lia)) as (_ & _ & ->); vm_compute; reflexivity.
Defined.

(** C5 The header index's work subtraction saturates: it returns [a - b] when
    [b <= a] and zero otherwise. *)
Theorem sub_work_saturates (a b : bytes) (Ha : arr32 a) (Hb : arr32 b) :
  arr32 (sub_work a b) /\ from_be (sub_work a b) = Z.max 0 (from_be a - from_be b).
Proof.
  pose proof (arr32_bound a Ha). pose proof (arr32_bound b Hb).
  pose proof (sub_loop_be a b Ha Hb) as Hs. unfold sub_work.
  destruct (sub_loop (reverse a) (reverse b) 0) as [r bo]. destruct Hs as (H1 & H2 & ->).
  destruct (Z.leb_spec (from_be b) (from_be a)); cbn [negb].
  - split; [done|]. rewrite H2, Z.mod_small; lia.
  - split; [apply arr32_zero|]. rewrite from_be_zero32. lia.
Qed.

Lemma sub_work_saturates_witness :
  from_be (sub_work u256_one diff1_target) = 0 /\ from_be (sub_work diff1_target u256_one) <> 0.
Proof.
  destruct (sub_work_saturates u256_one diff1_target arr32_one diff1_target_arr32) as [_ ->].
  destruct (sub_work_saturates diff1_target u256_one diff1_target_arr32 arr32_one) as [_ ->].
  vm_compute. split; congruence.
Defined.
