(* ===== verification/Types.v ===== *)
(** * Data and the interface to external code

    The error types of the workspace, the block and transaction data of the
    [bitcoin] crate as far as the node reads it, and the operations of external
    crates the node calls ([bitcoin], [bitcoin_hashes], [secp256k1]).  The
    operations are the fields of type classes: every definition and theorem
    downstream is parametric in them, and a fact about one of them is a named
    hypothesis of the theorem that needs it. *)

From Stdlib Require Import ZArith Lia.
From stdpp Require Import base option numbers list gmap strings.
From S2P Require Import Prelude Bytes.

(** ** Errors *)

Inductive StorageError : Type :=
| Database (msg : string)
| Io (msg : string)
| Serialization (msg : string)
| NotFound (msg : string)
| RocksDb (msg : string)
| MissingColumnFamily (name : string).

Abbreviation StorageResult := (result StorageError).

Inductive CoreError : Type :=
| BlockNotFound (hash : bytes)
| InvalidProofOfWork
| InvalidBlockHash (expected got : bytes)
| InvalidMerkleRoot
| InvalidTimestamp (msg : string)
| InvalidDifficultyTarget (msg : string)
| InvalidBlock (msg : string)
| InvalidTransaction (msg : string)
| InvalidScript (msg : string)
| MissingUtxo (msg : string)
| DoubleSpend (msg : string)
| InvalidCoinbase (msg : string)
| BlockWeightExceeded (weight limit : Z)
| InvalidSubsidy (expected got : Z)
| UndoMissing (hash : bytes) (height : Z)
| Storage (e : StorageError)
| ChainContext (msg : string).

Abbreviation CoreResult := (result CoreError).

(** [?] on a [StorageResult] inside a function returning [CoreResult]. *)
Definition lift_storage {A} (r : StorageResult A) : CoreResult A :=
  match r with Ok a => Ok a | Err e => Err (Storage e) end.

(** The [Display] text of an error.  Heights, hashes and amounts are left out
    of it, as they are of the messages. *)
Definition display (e : CoreError) : string :=
  match e with
  | BlockNotFound _ => "block not found"
  | InvalidProofOfWork => "invalid proof of work"
  | InvalidBlockHash _ _ => "invalid block hash"
  | InvalidMerkleRoot => "invalid merkle root"
  | InvalidTimestamp msg => "invalid timestamp: " +:+ msg
  | InvalidDifficultyTarget msg => "invalid difficulty target: " +:+ msg
  | InvalidBlock msg => "invalid block: " +:+ msg
  | InvalidTransaction msg => "invalid transaction: " +:+ msg
  | InvalidScript msg => "invalid script: " +:+ msg
  | MissingUtxo msg => "missing input UTXO: " +:+ msg
  | DoubleSpend msg => "double spend detected: " +:+ msg
  | InvalidCoinbase msg => "invalid coinbase: " +:+ msg
  | BlockWeightExceeded _ _ => "block weight exceeds limit"
  | InvalidSubsidy _ _ => "invalid block subsidy"
  | UndoMissing _ _ => "undo data missing for block"
  | Storage _ => "storage error"
  | ChainContext msg => "chain context unavailable: " +:+ msg
  end.

(** ** Blocks and transactions *)

(** A txid, wtxid or block hash: 32 bytes in the crate's internal order. *)
Abbreviation hash256 := bytes (only parsing).

Record OutPoint := mkOutPoint { op_txid : hash256; op_vout : Z }.

#[global] Instance OutPoint_eq_dec : EqDecision OutPoint.
Proof. solve_decision. Defined.

#[global] Instance OutPoint_countable : Countable OutPoint.
Proof.
  refine (inj_countable' (fun o => (op_txid o, op_vout o)) (fun p => mkOutPoint p.1 p.2) _).
  by intros [].
Defined.

Record TxOut := mkTxOut { value : Z; script_pubkey : bytes }.

Record TxIn := mkTxIn {
  previous_output : OutPoint;
  script_sig : bytes;
  sequence : Z;
  witness : list bytes }.

Record Transaction := mkTransaction {
  tx_version : Z;
  lock_time : Z;
  input : list TxIn;
  output : list TxOut }.

Record Header := mkHeader {
  version : Z;
  prev_blockhash : hash256;
  merkle_root : hash256;
  time : Z;
  bits : Z;
  nonce : Z }.

Record Block := mkBlock { header : Header; txdata : list Transaction }.

#[global] Instance TxOut_eq_dec : EqDecision TxOut.
Proof. solve_decision. Defined.
#[global] Instance TxIn_eq_dec : EqDecision TxIn.
Proof. solve_decision. Defined.
#[global] Instance Transaction_eq_dec : EqDecision Transaction.
Proof. solve_decision. Defined.
#[global] Instance Header_eq_dec : EqDecision Header.
Proof. solve_decision. Defined.

(** One item of [Script::instructions()]. *)
Inductive Instruction : Type :=
| PushBytes (data : bytes)
| Op (op : Z).

#[global] Instance Instruction_eq_dec : EqDecision Instruction.
Proof. solve_decision. Defined.

(** ** External operations *)

(** The hash functions of [bitcoin_hashes]. *)
Class Hashes := {
  sha256d : bytes -> bytes;
  sha256 : bytes -> bytes;
  sha1 : bytes -> bytes;
  ripemd160 : bytes -> bytes;
  hash160 : bytes -> bytes }.

(** The script helpers of the [bitcoin] crate.  [instructions s] is the
    sequence of items of the iterator [Script::instructions]; [None] is an
    [Err] item. *)
Class ScriptLib := {
  instructions : bytes -> list (option Instruction);
  script_is_p2sh : bytes -> bool;
  script_is_p2wpkh : bytes -> bool;
  script_is_p2wsh : bytes -> bool;
  script_is_op_return : bytes -> bool }.

(** Transaction and header helpers of the [bitcoin] crate.  [target_of_bits]
    is [Target::from_compact] followed by [to_be_bytes]; [to_compact_lossy]
    is [Target::to_compact_lossy] on the big-endian bytes; [null_outpoint] is
    [OutPoint::null()];
    [header_pow_ok] is [header.validate_pow(header.target()).is_ok()]. *)
Class TxLib := {
  compute_txid : Transaction -> hash256;
  compute_wtxid : Transaction -> hash256;
  is_coinbase : Transaction -> bool;
  null_outpoint : OutPoint;
  block_weight : Block -> Z;
  block_hash : Header -> hash256;
  target_of_bits : Z -> bytes;
  to_compact_lossy : bytes -> Z;
  header_pow_ok : Header -> bool;
  serialize_block : Block -> bytes }.

(** Signature parsing and verification: [secp256k1] and the sighash
    algorithms of the [bitcoin] crate.  The [SighashCache] the code threads
    through is a memo table of the functions below and has no state of its
    own here. *)
Class SigLib := {
  PublicKey : Type;
  EcdsaSignature : Type;
  XOnlyPublicKey : Type;
  SchnorrSignature : Type;
  TapSighashType : Type;
  TapLeafHash : Type;
  Annex : Type;
  ControlBlock : Type;
  pubkey_from_slice : bytes -> option PublicKey;
  ecdsa_from_der : bytes -> option EcdsaSignature;
  ecdsa_from_der_lax : bytes -> option EcdsaSignature;
  normalize_s : EcdsaSignature -> EcdsaSignature;
  verify_ecdsa : bytes -> EcdsaSignature -> PublicKey -> bool;
  ecdsa_sighash_from_consensus : Z -> Z;
  p2wpkh_signature_hash : Transaction -> nat -> bytes -> Z -> Z -> option bytes;
  p2wsh_signature_hash : Transaction -> nat -> bytes -> Z -> Z -> option bytes;
  legacy_signature_hash : Transaction -> nat -> bytes -> Z -> option bytes;
  xonly_from_slice : bytes -> option XOnlyPublicKey;
  schnorr_from_slice : bytes -> option SchnorrSignature;
  tap_sighash_default : TapSighashType;
  tap_sighash_from_u8 : Z -> option TapSighashType;
  verify_schnorr : SchnorrSignature -> bytes -> XOnlyPublicKey -> bool;
  taproot_sighash : Transaction -> nat -> list TxOut -> option Annex ->
                    option (TapLeafHash * Z) -> TapSighashType -> option bytes;
  annex_new : bytes -> option Annex;
  control_block_decode : bytes -> option ControlBlock;
  control_leaf_is_tapscript : ControlBlock -> bool;
  verify_taproot_commitment : ControlBlock -> XOnlyPublicKey -> bytes -> bool;
  tap_leaf_hash : bytes -> TapLeafHash;
  new_p2wpkh : bytes -> bytes }.

(** ** Concrete instances

    Small computable instances of the interfaces, on which the theorems that
    carry hypotheses are exercised.  They are not models of the real crates. *)

Module Sample.

(** The first 32 (20) bytes of the input, padded with zeros. *)
Definition pad_to (n : nat) (x : bytes) : bytes := take n (x ++ replicate n 0).

Definition hashes : Hashes := {|
  sha256d := pad_to 32; sha256 := pad_to 32; sha1 := pad_to 20;
  ripemd160 := pad_to 20; hash160 := pad_to 20 |}.

Lemma length_pad_to n x : length (pad_to n x) = n.
Proof. unfold pad_to. rewrite length_take, length_app, length_replicate. lia. Qed.

(** Keys, signatures and digests are byte strings; a signature is valid when
    it is its key. *)
Definition sig_lib : SigLib := {|
  PublicKey := bytes; EcdsaSignature := bytes; XOnlyPublicKey := bytes;
  SchnorrSignature := bytes; TapSighashType := Z; TapLeafHash := bytes;
  Annex := bytes; ControlBlock := bytes;
  pubkey_from_slice := Some; ecdsa_from_der := Some; ecdsa_from_der_lax := Some;
  normalize_s := fun s => s;
  verify_ecdsa := fun _ sig key => bool_decide (sig = key);
  ecdsa_sighash_from_consensus := fun z => z;
  p2wpkh_signature_hash := fun _ _ _ _ _ => Some (replicate 32 0);
  p2wsh_signature_hash := fun _ _ _ _ _ => Some (replicate 32 0);
  legacy_signature_hash := fun _ _ _ _ => Some (replicate 32 0);
  xonly_from_slice := Some; schnorr_from_slice := Some;
  tap_sighash_default := 0;
  tap_sighash_from_u8 := fun z => if bool_decide (z ∈ [0; 1; 2; 3; 0x81; 0x82; 0x83]) then Some z else None;
  verify_schnorr := fun sig _ key => bool_decide (take 32 sig = key);
  taproot_sighash := fun _ _ _ _ _ _ => Some (replicate 32 0);
  annex_new := Some; control_block_decode := Some;
  control_leaf_is_tapscript := fun _ => true;
  verify_taproot_commitment := fun _ _ _ => true;
  tap_leaf_hash := pad_to 32;
  new_p2wpkh := fun h => [0x00; 0x14] ++ h |}.

(** A transaction with one input and no outputs. *)
Definition tx (lt seq : Z) (ss : bytes) (wit : list bytes) : Transaction :=
  mkTransaction 2 lt [mkTxIn (mkOutPoint (replicate 32 1) 0) ss seq wit] [].

(** Targets are their compact form; a txid is the lock time and the scripts. *)
Definition tx_lib : TxLib := {|
  compute_txid := fun t => pad_to 32 (lock_time t :: concat (map script_sig (input t)));
  compute_wtxid := fun t => pad_to 32 (lock_time t :: concat (map script_sig (input t)));
  is_coinbase := fun t =>
    match input t with
    | [i] => bool_decide (previous_output i = mkOutPoint (replicate 32 0) 0xffffffff)
    | _ => false
    end;
  null_outpoint := mkOutPoint (replicate 32 0) 0xffffffff;
  block_weight := fun b => 4 * len (txdata b);
  block_hash := fun h => pad_to 32 [nonce h; time h];
  target_of_bits := fun b => to_be 32 b;
  to_compact_lossy := from_be;
  header_pow_ok := fun _ => true;
  serialize_block := fun _ => [] |}.

End Sample.
