(* ===== verification/ScriptNum.v ===== *)
(** * Script numbers and booleans

    [encode_num], [decode_num], [decode_num_bounded] and [cast_to_bool] of
    [bitcoinpr-core/src/script.rs]: the sign-magnitude little-endian numbers of
    Bitcoin script and the truth value of a stack element. *)

From Stdlib Require Import ZArith Lia.
From stdpp Require Import base option numbers list strings.
From S2P Require Import Prelude Bytes Types.

(** ** The code *)

(** The scan of [cast_to_bool] from index [i]: the first non-zero byte decides,
    unless it is the last byte and equal to [0x80]. *)
Fixpoint cast_to_bool_from (n i : nat) (data : bytes) : bool :=
  match data with
  | [] => false
  | byte :: r =>
      if negb (byte =? 0)
      then if (i =? n - 1)%nat && (byte =? 0x80) then false else true
      else cast_to_bool_from n (S i) r
  end.

Definition cast_to_bool (data : bytes) : bool := cast_to_bool_from (length data) 0 data.

(** [for (i, &byte) in data.iter().enumerate() { result |= (byte as i64) << (8 * i) }] *)
Fixpoint decode_loop (i : Z) (result : Z) (data : bytes) : Z :=
  match data with
  | [] => result
  | byte :: r => decode_loop (i + 1) (Z.lor result (Z.shiftl byte (8 * i))) r
  end.

Definition decode_num_bounded (data : bytes) (max_size : Z) : CoreResult Z :=
  match last data with
  | None => Ok 0
  | Some top =>
      if max_size <? len data then Err (InvalidScript "number too large")
      else
        let negative := negb (Z.land top 0x80 =? 0) in
        let result := decode_loop 0 0 data in
        if negative
        then Ok (- Z.land result (Z.lnot (Z.shiftl 0x80 (8 * (len data - 1)))))
        else Ok result
  end.

Definition decode_num (data : bytes) : CoreResult Z := decode_num_bounded data 4.

(** [while abs_value > 0 { push(abs_value & 0xff); abs_value >>= 8 }]; eight
    iterations exhaust a [u64]. *)
Fixpoint encode_loop (fuel : nat) (abs_value : Z) : bytes :=
  match fuel with
  | O => []
  | S f =>
      if 0 <? abs_value
      then Z.land abs_value 0xff :: encode_loop f (Z.shiftr abs_value 8)
      else []
  end.

Definition encode_num (v : Z) : bytes :=
  if v =? 0 then []
  else
    let negative := v <? 0 in
    let result := encode_loop 8 (Z.abs v) in
    match last result with
    | Some b =>
        if negb (Z.land b 0x80 =? 0)
        then result ++ [if negative then 0x80 else 0x00]
        else if negative
        then <[(length result - 1)%nat := Z.lor b 0x80]> result
        else result
    | None => result
    end.

(** ** The number a byte string denotes *)

(** The top byte of a non-empty string. *)
Definition top_byte (data : bytes) : Z := default 0 (last data).

Definition num_value (data : bytes) : Z :=
  if top_byte data <? 0x80 then from_le data
  else - (from_le data - 0x80 * pow256 (length data - 1)).

Lemma from_le_snoc l b : from_le (l ++ [b]) = from_le l + pow256 (length l) * b.
Proof. rewrite from_le_app. cbn [from_le]. lia. Qed.

Lemma top_byte_snoc l b : top_byte (l ++ [b]) = b.
Proof. unfold top_byte. by rewrite last_snoc. Qed.

(** Sign and magnitude of a string, with its last byte exposed. *)
Lemma num_value_snoc l b :
  num_value (l ++ [b]) =
  if b <? 0x80 then from_le l + pow256 (length l) * b
  else - (from_le l + pow256 (length l) * (b - 0x80)).
Proof.
  unfold num_value. rewrite top_byte_snoc, from_le_snoc, length_app. cbn [length].
  rewrite Nat.add_sub. case_match; lia.
Qed.

Lemma num_value_bound data :
  bytes_ok data -> data <> [] -> Z.abs (num_value data) < 2 ^ (8 * len data - 1).
Proof.
  intros Hd Hne. destruct data as [|b l _] using rev_ind; [done|].
  apply bytes_ok_app in Hd as [Hl Hb]. apply bytes_ok_cons in Hb as [Hb _].
  rewrite num_value_snoc. pose proof (from_le_bound l Hl) as Bl.
  rewrite len_app. change (len [b]) with 1.
  replace (8 * (len l + 1) - 1) with (8 * Z.of_nat (length l) + 7) by (unfold len; lia).
  rewrite Z.pow_add_r by lia. fold (pow256 (length l)). change (2 ^ 7) with 128.
  unfold fits in Hb. change (2 ^ 8) with 256 in Hb. pose proof (pow256_pos (length l)).
  destruct (Z.ltb_spec b 128); nia.
Qed.

Lemma lor_disjoint a x k : 0 <= k -> 0 <= a < 2 ^ k -> Z.lor a (Z.shiftl x k) = a + x * 2 ^ k.
Proof.
  intros Hk Ha. rewrite Z.shiftl_mul_pow2 by lia.
  assert (Z.land a (x * 2 ^ k) = 0) as Hland.
  { apply Z.bits_inj'. intros i Hi. rewrite Z.land_spec, Z.bits_0.
    destruct (Z.lt_ge_cases i k).
    - rewrite Z.mul_pow2_bits_low by lia. apply andb_false_r.
    - rewrite <- (Z.mod_small a (2 ^ k)), Z.mod_pow2_bits_high by lia. done. }
  by rewrite <- Z.lxor_lor, <- Z.add_nocarry_lxor by done.
Qed.

Lemma decode_loop_value data i r :
  bytes_ok data -> 0 <= i -> 0 <= r < 2 ^ (8 * i) ->
  decode_loop i r data = r + 2 ^ (8 * i) * from_le data.
Proof.
  intros Hd. revert i r. induction Hd as [|b data Hb Hd IH]; intros i r Hi Hr; cbn [decode_loop from_le].
  - lia.
  - unfold fits in Hb. change (2 ^ 8) with 256 in Hb. rewrite lor_disjoint by lia.
    assert (2 ^ (8 * (i + 1)) = 256 * 2 ^ (8 * i)) as Ep
      by (replace (8 * (i + 1)) with (8 + 8 * i) by lia; by rewrite Z.pow_add_r by lia).
    rewrite IH by (try lia; rewrite Ep; nia). rewrite Ep. lia.
Qed.

Lemma land_128 b : byte_ok b -> (Z.land b 0x80 =? 0) = (b <? 0x80).
Proof.
  intros Hb. assert (0 <= b < 256) as Hb' by exact Hb. change 0x80 with (2 ^ 7).
  destruct (Z.ltb_spec b (2 ^ 7)) as [H|H].
  - apply Z.eqb_eq. apply Z.bits_inj'. intros i Hi. rewrite Z.land_spec, Z.bits_0, Z.pow2_bits_eqb by lia.
    destruct (Z.eqb_spec 7 i) as [<-|]; [|apply andb_false_r].
    rewrite <- (Z.mod_small b (2 ^ 7)), Z.mod_pow2_bits_high by lia. done.
  - apply Z.eqb_neq. intros Hz. apply (f_equal (fun z => Z.testbit z 7)) in Hz.
    rewrite Z.land_spec, Z.bits_0, Z.pow2_bits_true, andb_true_r in Hz by lia.
    apply (Z.testbit_false b 7) in Hz; [|lia].
    assert (b / 2 ^ 7 = 1) as E
      by (symmetry; apply (Z.div_unique b (2 ^ 7) 1 (b - 128)); lia).
    rewrite E in Hz. done.
Qed.

(** Clearing a set bit subtracts it. *)
Lemma clear_bit v k : 0 <= k -> Z.testbit v k = true ->
  Z.land v (Z.lnot (Z.shiftl 1 k)) = v - 2 ^ k.
Proof.
  intros Hk Hb. rewrite Z.shiftl_1_l.
  rewrite (Z.sub_nocarry_ldiff v (2 ^ k)); [symmetry; apply Z.ldiff_land|].
  apply Z.bits_inj'. intros i Hi. rewrite Z.ldiff_spec, Z.bits_0, Z.pow2_bits_eqb by lia.
  destruct (Z.eqb_spec k i) as [<-|]; [by rewrite Hb|done].
Qed.

Lemma decode_num_bounded_value data n :
  bytes_ok data -> len data <= n -> decode_num_bounded data n = Ok (num_value data).
Proof.
  intros Hd Hn. unfold decode_num_bounded. destruct data as [|b l _] using rev_ind; [done|].
  pose proof Hd as Hd'. apply bytes_ok_app in Hd' as [Hl Hb]. apply bytes_ok_cons in Hb as [Hb _].
  rewrite last_snoc. rewrite (proj2 (Z.ltb_ge _ _)) by done.
  rewrite decode_loop_value by (done || lia). cbn [Z.mul]. change (2 ^ (8 * 0)) with 1.
  rewrite Z.mul_1_l, Z.add_0_l, land_128 by done. rewrite num_value_snoc, from_le_snoc.
  destruct (Z.ltb_spec b 0x80) as [Hs|Hs]; cbn [negb]; [done|]. f_equal. f_equal.
  assert (Z.shiftl 0x80 (8 * (len (l ++ [b]) - 1)) = Z.shiftl 1 (8 * Z.of_nat (length l) + 7)) as ->.
  { rewrite !Z.shiftl_mul_pow2 by (rewrite ?len_app; pose proof (len_nonneg l); change (len [b]) with 1; lia).
    rewrite len_app. change (len [b]) with 1. rewrite Z.pow_add_r by lia.
    replace (8 * (len l + 1 - 1)) with (8 * Z.of_nat (length l)) by (unfold len; lia). lia. }
  pose proof (from_le_bound l Hl) as Bl. assert (0 <= b < 256) as Hb' by exact Hb.
  rewrite clear_bit; [rewrite Z.pow_add_r by lia; unfold pow256; lia|lia|].
  rewrite (Z.add_comm _ 7), <- (Z.div_pow2_bits _ (8 * Z.of_nat (length l)) 7) by lia.
  unfold pow256 in *. rewrite (Z.mul_comm _ b), Z.div_add, (Z.div_small (from_le l)), Z.add_0_l by lia.
  apply Z.testbit_true; [lia|].
  assert (b / 2 ^ 7 = 1) as -> by (symmetry; apply (Z.div_unique b (2 ^ 7) 1 (b - 128)); lia). done.
Qed.

Lemma decode_num_bounded_too_long data n :
  0 <= n < len data -> decode_num_bounded data n = Err (InvalidScript "number too large").
Proof.
  intros Hn. unfold decode_num_bounded. destruct (last data) eqn:E.
  - by rewrite (proj2 (Z.ltb_lt _ _)) by lia.
  - apply last_None in E. subst. rewrite len_nil in Hn. lia.
Qed.

Lemma encode_loop_shape f a :
  0 < a < pow256 f ->
  exists l b, encode_loop f a = l ++ [b] /\ bytes_ok l /\ 0 < b < 256 /\
              from_le l + pow256 (length l) * b = a.
Proof.
  revert a. induction f as [|f IH]; intros a Ha; [change (pow256 0) with 1 in Ha; lia|].
  cbn [encode_loop]. rewrite (proj2 (Z.ltb_lt 0 a)) by lia.
  change 0xff with (Z.ones 8). rewrite Z.land_ones, Z.shiftr_div_pow2 by lia. change (2 ^ 8) with 256.
  rewrite pow256_S in Ha. pose proof (Z.div_mod a 256 ltac:(lia)) as Hdm.
  pose proof (Z.mod_pos_bound a 256 ltac:(lia)) as Hm.
  destruct (Z.eq_dec (a / 256) 0) as [E0|E0].
  - rewrite E0. exists [], a. assert (a mod 256 = a) as Em by lia. rewrite Em.
    assert (encode_loop f 0 = []) as -> by by destruct f.
    split_and!; [done|constructor|lia|lia|]. change (pow256 (length [])) with 1. cbn [from_le]. lia.
  - assert (0 <= a / 256) by (apply Z.div_pos; lia).
    assert (a / 256 < pow256 f) by (apply Z.div_lt_upper_bound; lia).
    destruct (IH (a / 256) ltac:(lia)) as (l & b & -> & Hl & Hb & Hv).
    exists (a mod 256 :: l), b. split_and!; [done|by constructor|lia|lia|].
    cbn [from_le length]. rewrite pow256_S. lia.
Qed.

(** [encode_num] of a non-zero number, by the top byte of its magnitude. *)
Lemma encode_num_shape v :
  v <> 0 -> Z.abs v < 2 ^ 64 ->
  exists l b, bytes_ok l /\ 0 < b < 256 /\ from_le l + pow256 (length l) * b = Z.abs v /\
    encode_num v =
      if b <? 0x80 then l ++ [if v <? 0 then b + 0x80 else b]
      else (l ++ [b]) ++ [if v <? 0 then 0x80 else 0x00].
Proof.
  intros Hv Hb. destruct (encode_loop_shape 8 (Z.abs v)) as (l & b & El & Hl & Hbb & Hval).
  { change (pow256 8) with (2 ^ 64). lia. }
  exists l, b. split_and!; try done; try lia. unfold encode_num.
  rewrite (proj2 (Z.eqb_neq v 0)) by done. rewrite El, last_snoc, land_128 by (unfold fits; lia).
  destruct (Z.ltb_spec b 0x80) as [H|H]; cbn [negb]; [|done].
  destruct (v <? 0); [|done]. rewrite length_app. cbn [length]. rewrite Nat.add_sub.
  rewrite insert_app_r_alt, Nat.sub_diag by lia. cbn. f_equal. f_equal.
  exact (lor_disjoint b 1 7 ltac:(lia) ltac:(lia)).
Qed.

Lemma encode_num_value v :
  Z.abs v < 2 ^ 64 -> bytes_ok (encode_num v) /\ num_value (encode_num v) = v.
Proof.
  intros Hb. destruct (Z.eq_dec v 0) as [->|Hv]; [split; [constructor|done]|].
  destruct (encode_num_shape v Hv Hb) as (l & b & Hl & Hbb & Hval & ->).
  destruct (Z.ltb_spec b 0x80) as [H|H], (Z.ltb_spec v 0) as [Hs|Hs];
    (split; [repeat first [apply bytes_ok_app; split|apply bytes_ok_cons; split];
             first [done|by constructor|unfold fits; lia]
            |rewrite num_value_snoc]).
  - rewrite (proj2 (Z.ltb_ge (b + 128) 128)) by lia. lia.
  - rewrite (proj2 (Z.ltb_lt b 128)) by lia. lia.
  - change (128 <? 128) with false. cbn iota. rewrite from_le_snoc. lia.
  - change (0 <? 128) with true. cbn iota. rewrite from_le_snoc. lia.
Qed.

Lemma encode_num_length v n :
  Z.abs v < 2 ^ 64 -> 0 < n -> Z.abs v < 2 ^ (8 * n - 1) -> len (encode_num v) <= n.
Proof.
  intros Hb Hn Hv. destruct (Z.eq_dec v 0) as [->|Hv0]; [rewrite len_nil; lia|].
  destruct (encode_num_shape v Hv0 Hb) as (l & b & Hl & Hbb & Hval & ->).
  pose proof (from_le_bound l Hl) as Bl. pose proof (pow256_pos (length l)) as Hp.
  assert (2 ^ (8 * len l) <= Z.abs v) as H1 by (unfold len; fold (pow256 (length l)); nia).
  destruct (Z.ltb_spec b 0x80) as [H|H]; rewrite !len_app; change (len [_]) with 1.
  - assert (8 * len l < 8 * n - 1) by (apply (Z.pow_lt_mono_r_iff 2); lia). lia.
  - assert (2 ^ (8 * len l + 7) <= Z.abs v) as H2.
    { rewrite Z.pow_add_r by (pose proof (len_nonneg l); lia).
      unfold len. fold (pow256 (length l)). change (2 ^ 7) with 128. nia. }
    assert (8 * len l + 7 < 8 * n - 1) by (apply (Z.pow_lt_mono_r_iff 2); lia). lia.
Qed.

Lemma cast_to_bool_from_value n i data :
  bytes_ok data -> (i + length data = n)%nat ->
  cast_to_bool_from n i data = negb (num_value data =? 0).
Proof.
  intros Hd. revert i. induction Hd as [|b data Hb Hd IH]; intros i Hn; [done|].
  cbn [cast_to_bool_from length] in *. assert (0 <= b < 256) as Hb' by exact Hb.
  pose proof (from_le_bound data Hd) as Bd.
  destruct data as [|x data'].
  - cbn [length] in Hn. rewrite (proj2 (Nat.eqb_eq i (n - 1))) by lia. unfold num_value, top_byte. cbn [last default from_option id].
    cbn [from_le length cast_to_bool_from]. change (pow256 (1 - 1)) with 1.
    destruct (Z.eqb_spec b 0) as [->|Hb0]; [done|]. cbn [negb andb].
    destruct (Z.eqb_spec b 128) as [->|Hb1]; [done|].
    destruct (Z.ltb_spec b 128); symmetry; apply negb_true_iff, Z.eqb_neq; lia.
  - set (d := x :: data') in *.
    assert (num_value (b :: d) = if top_byte d <? 128 then b + 256 * num_value d
                                 else - b + 256 * num_value d) as Ev.
    { unfold num_value. assert (top_byte (b :: d) = top_byte d) as -> by done.
      cbn [from_le length]. replace (S (length d) - 1)%nat with (S (length d - 1)) by (cbn; lia).
      rewrite pow256_S. case_match; lia. }
    rewrite (proj2 (Nat.eqb_neq i (n - 1))) by (cbn in Hn; lia). cbn [andb].
    rewrite Ev, IH by lia. destruct (Z.eqb_spec b 0) as [->|Hb0]; cbn [negb].
    + f_equal. destruct (top_byte d <? 128); destruct (Z.eqb_spec (num_value d) 0) as [E|E];
        symmetry; rewrite ?E; try done; apply Z.eqb_neq; lia.
    + symmetry. apply negb_true_iff, Z.eqb_neq. destruct (top_byte d <? 128); lia.
Qed.

Lemma cast_to_bool_value data : bytes_ok data -> cast_to_bool data = negb (num_value data =? 0).
Proof. intros Hd. by apply cast_to_bool_from_value. Qed.

Lemma decode_num_inv data n v :
  bytes_ok data -> 0 <= n -> decode_num_bounded data n = Ok v ->
  len data <= n /\ v = num_value data.
Proof.
  intros Hd Hn H. destruct (Z.le_gt_cases (len data) n) as [Hle|Hgt].
  - rewrite decode_num_bounded_value in H by done. res_inv. done.
  - rewrite decode_num_bounded_too_long in H by lia. discriminate.
Qed.

Lemma decode_num_range data n v :
  bytes_ok data -> 0 < n -> decode_num_bounded data n = Ok v -> Z.abs v < 2 ^ (8 * n - 1).
Proof.
  intros Hd Hn H. apply decode_num_inv in H as [Hle ->]; [|done|lia].
  destruct data as [|b data]; [cbn; apply Z.pow_pos_nonneg; lia|].
  eapply Z.lt_le_trans; [apply num_value_bound; done|]. apply Z.pow_le_mono_r; lia.
Qed.

Lemma decode_encode_num v n :
  0 < n <= 8 -> Z.abs v < 2 ^ (8 * n - 1) -> decode_num_bounded (encode_num v) n = Ok v.
Proof.
  intros Hn Hv. assert (Z.abs v < 2 ^ 64) as Hb
    by (eapply Z.lt_le_trans; [exact Hv|apply Z.pow_le_mono_r; lia]).
  destruct (encode_num_value v Hb) as [Hok Hval].
  rewrite decode_num_bounded_value, Hval; [done|done|]. apply encode_num_length; lia.
Qed.

(** ** Correctness *)

(** C6 Script numbers round-trip through their encoding: every value whose
    magnitude fits the sign-magnitude range of [n] bytes is encoded in at most
    [n] bytes and decoded back under the [n]-byte limit ([n = 4] for
    arithmetic, [n = 5] for lock times), and no byte string that decodes to the
    same non-zero value is shorter than the encoding. *)
Theorem script_num_roundtrip (v n : Z) (Hn : 0 < n <= 8) (Hv : Z.abs v < 2 ^ (8 * n - 1)) :
  decode_num_bounded (encode_num v) n = Ok v /\
  len (encode_num v) <= n /\
  (forall data m, bytes_ok data -> 0 <= m -> decode_num_bounded data m = Ok v ->
     len (encode_num v) <= len data).
Proof.
  assert (Z.abs v < 2 ^ 64) as Hb
    by (eapply Z.lt_le_trans; [exact Hv|apply Z.pow_le_mono_r; lia]). split_and!.
  - by apply decode_encode_num.
  - apply encode_num_length; lia.
  - intros data m Hd Hm H. apply decode_num_inv in H as [_ ->]; [|done..].
    destruct data as [|b data]; [rewrite (len_nil Z); done|].
    apply encode_num_length; [lia|rewrite len_cons; pose proof (len_nonneg data); lia|].
    by apply num_value_bound.
Qed.

Lemma script_num_roundtrip_witness :
  decode_num_bounded (encode_num (-2147483647)) 4 = Ok (-2147483647) /\
  len (encode_num (-2147483647)) <= 4.
Proof.
  destruct (script_num_roundtrip (-2147483647) 4 ltac:(lia) ltac:(lia)) as (H1 & H2 & _).
  split; [exact H1|exact H2].
Defined.

(** C7 Script arithmetic cannot overflow the machine integers: operands decoded
    under the 4-byte limit lie strictly between [-2^31] and [2^31], so their
    sum, difference, negation and absolute value fit an [i64] and encode and
    decode without loss under a 5-byte limit. *)
Theorem script_arith_in_range (x y : bytes) (a b : Z) (Hx : bytes_ok x) (Hy : bytes_ok y)
    (Ha : decode_num x = Ok a) (Hb : decode_num y = Ok b) :
  - 2 ^ 31 < a < 2 ^ 31 /\ - 2 ^ 31 < b < 2 ^ 31 /\
  decode_num_bounded (encode_num (a + b)) 5 = Ok (a + b) /\
  decode_num_bounded (encode_num (a - b)) 5 = Ok (a - b) /\
  decode_num (encode_num (- a)) = Ok (- a) /\
  decode_num (encode_num (Z.abs a)) = Ok (Z.abs a).
Proof.
  apply decode_num_range in Ha; [|done|lia]. apply decode_num_range in Hb; [|done|lia].
  change (8 * 4 - 1) with 31 in *. unfold decode_num.
  split_and!; try lia; apply decode_encode_num; lia.
Qed.

Lemma script_arith_in_range_witness :
  decode_num_bounded (encode_num (-2147483647 + -2147483647)) 5 = Ok (-4294967294).
Proof.
  pose proof (script_arith_in_range (encode_num (-2147483647)) (encode_num (-2147483647))
    (-2147483647) (-2147483647)) as H.
  destruct H as (_ & _ & H & _).
  - apply bytes_okb_ok. vm_compute. reflexivity.
  - apply bytes_okb_ok. vm_compute. reflexivity.
  - reflexivity.
  - reflexivity.
  - exact H.
Defined.

(** C8 A stack element is true exactly when the number it denotes is non-zero
    (so the empty string, any run of zero bytes and negative zero are false),
    and hence the truth value of an encoded number is [v <> 0]. *)
Theorem cast_to_bool_numeric (data : bytes) (v : Z) (Hd : bytes_ok data) (Hv : Z.abs v < 2 ^ 64) :
  cast_to_bool data = negb (num_value data =? 0) /\
  decode_num_bounded data (len data) = Ok (num_value data) /\
  cast_to_bool (encode_num v) = negb (v =? 0).
Proof.
  destruct (encode_num_value v Hv) as [Hok Hval]. split_and!.
  - by apply cast_to_bool_value.
  - by apply decode_num_bounded_value.
  - by rewrite cast_to_bool_value, Hval.
Qed.

Lemma cast_to_bool_numeric_witness :
  cast_to_bool [0; 0; 0x80] = false /\ cast_to_bool (encode_num (-128)) = true.
Proof.
  destruct (cast_to_bool_numeric [0; 0; 0x80] (-128)) as (H1 & _ & H3).
  - apply bytes_okb_ok. vm_compute. reflexivity.
  - lia.
  - split; [exact H1|exact H3].
Defined.
