(* ===== verification/Merkle.v ===== *)
(** * Merkle trees

    [bitcoinpr-core/src/merkle.rs]: the level-by-level [root], the one-pass
    [root_detecting_mutation] with its CVE-2012-2459 flag, and the proof paths
    of [branch].  A node is a byte string; [sha256d] is a parameter. *)

From Stdlib Require Import ZArith Lia.
From stdpp Require Import base option numbers list.
From S2P Require Import Prelude Bytes U256 Types.

Section Merkle.
Context `{Hashes}.

(** ** The code *)

Definition hash_pair (a b : bytes) : bytes := sha256d (a ++ b).

(** [if !level.len().is_multiple_of(2) { level.push(last) }] *)
Definition pad_odd (level : list bytes) : list bytes :=
  if Nat.even (length level) then level
  else match last level with Some x => level ++ [x] | None => level end.

(** [for pair in level.chunks(2) { next.push(hash_pair(&pair[0], &pair[1])) }] *)
Fixpoint hash_chunks (level : list bytes) : list bytes :=
  match level with
  | a :: b :: r => hash_pair a b :: hash_chunks r
  | _ => []
  end.

Definition next_level (level : list bytes) : list bytes := hash_chunks (pad_odd level).

(** [while level.len() > 1 { .. } level[0]]; a level of [n] nodes needs at most
    [n] iterations. *)
Fixpoint root_loop (fuel : nat) (level : list bytes) : bytes :=
  match fuel with
  | O => default zero32 (head level)
  | S f => if (1 <? length level)%nat then root_loop f (next_level level)
           else default zero32 (head level)
  end.

Definition root (leaves : list bytes) : bytes :=
  match leaves with
  | [] => zero32
  | _ => root_loop (length leaves) leaves
  end.

(** The state of [root_detecting_mutation]: the accumulator array [inner], and
    the current [level], node [h] and flag [mutated] of the collapsing loops. *)
Record collapse_state := mkCollapse { c_level : Z; c_h : bytes; c_mutated : bool }.

Definition inner_at (inner : list bytes) (level : Z) : bytes :=
  default zero32 (inner !! Z.to_nat level).

(** [while count & (1 << level) == 0 { .. }]; a [u32] has 32 bits. *)
Fixpoint collapse (fuel : nat) (inner : list bytes) (count : Z) (st : collapse_state) : collapse_state :=
  match fuel with
  | O => st
  | S f =>
      let level := c_level st in
      if Z.land count (Z.shiftl 1 level) =? 0 then
        let mutated := if decide (inner_at inner level = c_h st) then true else c_mutated st in
        collapse f inner count (mkCollapse (level + 1) (hash_pair (inner_at inner level) (c_h st)) mutated)
      else st
  end.

(** One iteration of the accumulation loop. *)
Definition accumulate (st : bool * Z * list bytes) (leaf : bytes) : bool * Z * list bytes :=
  let '(mutated, count, inner) := st in
  let count := u32 (count + 1) in
  let c := collapse 32 inner count (mkCollapse 0 leaf mutated) in
  (c_mutated c, count, <[Z.to_nat (c_level c) := c_h c]> inner).

(** [while count & (1 << level) == 0 { level += 1 }] *)
Fixpoint lowest_level (fuel : nat) (count level : Z) : Z :=
  match fuel with
  | O => level
  | S f => if Z.land count (Z.shiftl 1 level) =? 0 then lowest_level f count (level + 1) else level
  end.

(** The final loop: pad with the node itself, then collapse upwards. *)
Fixpoint finish (fuel : nat) (inner : list bytes) (count : Z) (st : collapse_state) : collapse_state :=
  match fuel with
  | O => st
  | S f =>
      let level := c_level st in
      if count =? Z.shiftl 1 level then st
      else
        let h := hash_pair (c_h st) (c_h st) in
        let count := u32 (count + Z.shiftl 1 level) in
        finish f inner count (collapse 32 inner count (mkCollapse (level + 1) h (c_mutated st)))
  end.

Definition root_detecting_mutation (leaves : list bytes) : option bytes * bool :=
  match leaves with
  | [] => (None, false)
  | _ =>
      let '(mutated, count, inner) :=
        foldl accumulate (false, 0, replicate 32 zero32) leaves in
      let level := lowest_level 32 count 0 in
      let st := finish 32 inner count (mkCollapse level (inner_at inner level) mutated) in
      (Some (c_h st), c_mutated st)
  end.

(** [branch]: the sibling at every level, bottom-up. *)
Fixpoint branch_loop (fuel : nat) (level : list bytes) (idx : nat) (br : list bytes) : bytes * list bytes :=
  match fuel with
  | O => (default zero32 (head level), br)
  | S f =>
      if (1 <? length level)%nat then
        let level := pad_odd level in
        let sibling := if Nat.even idx then (idx + 1)%nat else (idx - 1)%nat in
        branch_loop f (hash_chunks level) (idx / 2)
                    (br ++ [default zero32 (level !! sibling)])
      else (default zero32 (head level), br)
  end.

Definition branch (leaves : list bytes) (index : nat) : bytes * list bytes :=
  match leaves with
  | [] => (zero32, [])
  | _ => branch_loop (length leaves) leaves index []
  end.

(** ** Reference tree

    The Merkle tree of height [k] over at most [2^k] leaves, by recursion on
    the height: a tree that fits the left half is paired with itself. *)
Fixpoint tree (k : nat) (l : list bytes) : bytes :=
  match k with
  | O => default zero32 (head l)
  | S k' =>
      if (length l <=? 2 ^ k')%nat then hash_pair (tree k' l) (tree k' l)
      else hash_pair (tree k' (take (2 ^ k') l)) (tree k' (drop (2 ^ k') l))
  end.

(** Two real sibling subtrees of the tree are equal. *)
Fixpoint tree_mutated (k : nat) (l : list bytes) : bool :=
  match k with
  | O => false
  | S k' =>
      if (length l <=? 2 ^ k')%nat then tree_mutated k' l
      else let a := take (2 ^ k') l in let b := drop (2 ^ k') l in
           bool_decide (tree k' a = tree k' b) || tree_mutated k' a || tree_mutated k' b
  end.

(** The height of the tree over [n] leaves. *)
Definition height_of (n : nat) : nat := Nat.log2_up n.

(** ** The level-by-level root is the reference tree *)

Lemma hash_chunks_app a b :
  Nat.even (length a) = true -> hash_chunks (a ++ b) = hash_chunks a ++ hash_chunks b.
Proof.
  remember (length a) as n eqn:Hn. revert a Hn.
  induction n as [n IH] using lt_wf_ind. intros [|x [|y a]] Hn He; cbn in Hn; subst n.
  - done.
  - done.
  - cbn. f_equal. apply (IH (length a)); [lia|done|exact He].
Qed.

Lemma next_level_app a b :
  Nat.even (length a) = true -> b <> [] -> next_level (a ++ b) = hash_chunks a ++ next_level b.
Proof.
  intros Ha Hb. unfold next_level. rewrite <- hash_chunks_app by done. f_equal.
  unfold pad_odd. rewrite length_app, Nat.even_add, Ha.
  replace (eqb true (Nat.even (length b))) with (Nat.even (length b))
    by (by destruct (Nat.even (length b))).
  destruct (Nat.even (length b)); [done|].
  destruct b as [|x b _] using rev_ind; [done|].
  rewrite app_assoc, !last_snoc. by rewrite <- !app_assoc.
Qed.

Lemma next_level_even a : Nat.even (length a) = true -> next_level a = hash_chunks a.
Proof. intros Ha. unfold next_level, pad_odd. by rewrite Ha. Qed.

Lemma length_hash_chunks a :
  Nat.even (length a) = true -> (2 * length (hash_chunks a) = length a)%nat.
Proof.
  remember (length a) as n eqn:Hn. revert a Hn.
  induction n as [n IH] using lt_wf_ind. intros [|x [|y a]] Hn He; cbn in Hn; subst n; [done..|].
  specialize (IH (length a) ltac:(lia) a eq_refl He). cbn [hash_chunks length]. lia.
Qed.

Lemma length_next_level l :
  (length l <= 2 * length (next_level l) <= length l + 1)%nat.
Proof.
  destruct (Nat.even (length l)) eqn:He.
  - rewrite next_level_even by done. rewrite length_hash_chunks; [lia|done].
  - unfold next_level, pad_odd. rewrite He.
    destruct l as [|x l _] using rev_ind; [done|]. rewrite last_snoc.
    rewrite length_hash_chunks; rewrite !length_app; cbn; [lia|].
    rewrite length_app in He. cbn in He.
    replace (length l + 1 + 1)%nat with (S (length l + 1)) by lia.
    rewrite Nat.even_succ, <- Nat.negb_even. by rewrite He.
Qed.

Lemma tree_next k l :
  (1 <= length l <= 2 ^ S k)%nat -> tree (S k) l = tree k (next_level l).
Proof.
  revert l. induction k as [|k IH]; intros l Hl.
  - destruct l as [|x [|y [|z l]]]; cbn in Hl; [lia|done|done|lia].
  - pose proof (length_next_level l) as Hn.
    rewrite (Nat.pow_succ_r' 2 (S k)) in Hl.
    change (tree (S (S k)) l) with
      (if (length l <=? 2 ^ S k)%nat then hash_pair (tree (S k) l) (tree (S k) l)
       else hash_pair (tree (S k) (take (2 ^ S k) l)) (tree (S k) (drop (2 ^ S k) l))).
    change (tree (S k) (next_level l)) with
      (if (length (next_level l) <=? 2 ^ k)%nat
       then hash_pair (tree k (next_level l)) (tree k (next_level l))
       else hash_pair (tree k (take (2 ^ k) (next_level l))) (tree k (drop (2 ^ k) (next_level l)))).
    rewrite (Nat.pow_succ_r' 2 k) in *.
    destruct (Nat.leb_spec (length l) (2 * 2 ^ k));
      destruct (Nat.leb_spec (length (next_level l)) (2 ^ k)); try lia.
    + by rewrite IH by lia.
    + set (a := take (2 * 2 ^ k) l). set (b := drop (2 * 2 ^ k) l).
      assert (Hal : length a = (2 * 2 ^ k)%nat) by (unfold a; rewrite length_take; lia).
      assert (Hbl : (length a + length b = length l)%nat)
        by (unfold a, b; rewrite <- length_app, take_drop; done).
      assert (Hae : Nat.even (length a) = true).
      { rewrite Hal. apply Nat.even_spec. by exists (2 ^ k)%nat. }
      assert (Hc : length (hash_chunks a) = (2 ^ k)%nat).
      { pose proof (length_hash_chunks a Hae). lia. }
      assert (Hsplit : next_level l = hash_chunks a ++ next_level b).
      { rewrite <- next_level_app; [by unfold a, b; rewrite take_drop|done|].
        intros Hb. rewrite Hb in Hbl. cbn [length] in Hbl. lia. }
      rewrite Hsplit, take_app_length', drop_app_length' by done.
      rewrite !IH by lia.
      by rewrite next_level_even.
Qed.

(** [k] is the height of the tree over [n] leaves. *)
Definition height_ok (k n : nat) : Prop := (n <= 2 ^ k /\ (k = 0 \/ 2 ^ (k - 1) < n))%nat.

Lemma height_of_ok n : (1 <= n)%nat -> height_ok (height_of n) n.
Proof.
  intros Hn. unfold height_ok, height_of.
  destruct (Nat.eq_dec n 1%nat) as [->|]; [cbn; lia|].
  pose proof (Nat.log2_up_spec n ltac:(lia)) as [H1 H2].
  split; [lia|]. right. by rewrite Nat.sub_1_r.
Qed.

Lemma root_loop_tree fuel l k :
  (1 <= length l <= fuel)%nat -> height_ok k (length l) -> root_loop fuel l = tree k l.
Proof.
  revert l k. induction fuel as [|f IH]; intros l k Hl [Hk1 Hk2]; [lia|]. cbn [root_loop].
  destruct (Nat.ltb_spec 1 (length l)).
  - destruct k as [|k]; [cbn in Hk1; lia|].
    pose proof (length_next_level l) as Hn.
    rewrite tree_next by lia. rewrite Nat.pow_succ_r' in Hk1.
    destruct Hk2 as [|Hk2]; [done|]. replace (S k - 1)%nat with k in Hk2 by lia.
    apply IH; [lia|]. split; [lia|].
    destruct k as [|k]; [by left|right].
    replace (S k - 1)%nat with k by lia. rewrite Nat.pow_succ_r' in Hk2. lia.
  - destruct k as [|k]; [done|]. exfalso.
    destruct Hk2 as [|Hk2]; [done|].
    pose proof (Nat.pow_nonzero 2 (S k - 1)). lia.
Qed.

Lemma root_tree l k : l <> [] -> height_ok k (length l) -> root l = tree k l.
Proof.
  intros Hl Hk. destruct l as [|x l]; [done|].
  apply root_loop_tree; [cbn; lia|done].
Qed.

(** ** The one-pass computation *)

Lemma land_bit c j : 0 <= j -> (Z.land c (Z.shiftl 1 j) =? 0) = negb (Z.testbit c j).
Proof.
  intros Hj. destruct (Z.testbit c j) eqn:Hb; cbn.
  - apply Z.eqb_neq. intros H0.
    assert (Z.testbit (Z.land c (Z.shiftl 1 j)) j = true) as Ht; [|by rewrite H0, Z.bits_0 in Ht].
    rewrite Z.land_spec, Hb, Z.shiftl_spec, Z.sub_diag by lia. done.
  - apply Z.eqb_eq, Z.bits_inj'. intros i Hi.
    rewrite Z.land_spec, Z.shiftl_spec, Z.bits_0 by lia.
    destruct (Z.eq_dec i j) as [->|Hne]; [by rewrite Hb|].
    destruct (Z.lt_ge_cases i j); [by rewrite (Z.testbit_neg_r 1), andb_false_r by lia|].
    change 1 with (2 ^ 0). rewrite Z.pow2_bits_false, andb_false_r by lia. done.
Qed.

Lemma land_bit_mul (m j : nat) :
  (Z.land (Z.of_nat (m * 2 ^ j)) (Z.shiftl 1 (Z.of_nat j)) =? 0) = Nat.even m.
Proof.
  rewrite land_bit, <- Nat.negb_odd by lia. f_equal.
  rewrite Z.testbit_odd, Z.shiftr_div_pow2 by lia.
  rewrite Nat2Z.inj_mul, Nat2Z.inj_pow, Z.div_mul by lia.
  destruct (Nat.odd m) eqn:Hm.
  - apply Nat.odd_spec in Hm as [q ->]. apply Z.odd_spec. exists (Z.of_nat q). lia.
  - apply Bool.not_true_iff_false. rewrite Z.odd_spec. intros [q Hq].
    assert (Nat.odd m = true); [|congruence].
    apply Nat.odd_spec. exists (Z.to_nat q). lia.
Qed.

Section OnePass.
Context (L : list bytes).

Definition seg (off n : nat) : list bytes := take n (drop off L).

(** Bit [i] of [N] is set and [2 * q] is the number above it. *)
Definition bit_at (N i q : nat) : Prop :=
  exists r, (N = (2 * q + 1) * 2 ^ i + r /\ r < 2 ^ i)%nat.

(** After [N] leaves, slot [i] holds the complete subtree of every set bit [i]. *)
Definition inner_ok (N : nat) (inner : list bytes) : Prop :=
  length inner = 32%nat /\
  forall i q, bit_at N i q -> (i < 32)%nat ->
    inner !! i = Some (tree i (seg (2 * q * 2 ^ i) (2 ^ i))).

(** One of the stored subtrees of level [>= j] contains a mutation. *)
Definition mutated_from (N j : nat) : Prop :=
  exists i q, (j <= i)%nat /\ bit_at N i q /\
    tree_mutated i (seg (2 * q * 2 ^ i) (2 ^ i)) = true.

(** The state of a collapsing loop at level [j] and count [(p + 1) * 2^j]: the
    node covers the leaves from [p * 2^j] on. *)
Definition node_ok (j p : nat) (h : bytes) : Prop :=
  (p * 2 ^ j < length L)%nat /\ h = tree j (seg (p * 2 ^ j) (2 ^ j)).

Definition flag_ok (N j k p : nat) (fl : bool) : Prop :=
  fl = true <-> tree_mutated j (seg (p * 2 ^ j) (2 ^ j)) = true \/ mutated_from N k.

Lemma length_seg off n : length (seg off n) = (n `min` (length L - off))%nat.
Proof. unfold seg. by rewrite length_take, length_drop. Qed.

Lemma seg_split off n m :
  seg off (n + m) = seg off n ++ seg (off + n) m.
Proof. unfold seg. by rewrite <- take_take_drop, drop_drop. Qed.

(** Pairing the left sibling with the current node. *)
Lemma tree_join j q :
  ((2 * q + 1) * 2 ^ j < length L)%nat ->
  tree (S j) (seg (q * 2 ^ S j) (2 ^ S j)) =
    hash_pair (tree j (seg (2 * q * 2 ^ j) (2 ^ j))) (tree j (seg ((2 * q + 1) * 2 ^ j) (2 ^ j))) /\
  tree_mutated (S j) (seg (q * 2 ^ S j) (2 ^ S j)) =
    bool_decide (tree j (seg (2 * q * 2 ^ j) (2 ^ j)) = tree j (seg ((2 * q + 1) * 2 ^ j) (2 ^ j)))
    || tree_mutated j (seg (2 * q * 2 ^ j) (2 ^ j))
    || tree_mutated j (seg ((2 * q + 1) * 2 ^ j) (2 ^ j)).
Proof.
  intros Hl. pose proof (Nat.pow_nonzero 2 j ltac:(lia)) as Hp.
  assert (Hs : seg (q * 2 ^ S j) (2 ^ S j) =
               seg (2 * q * 2 ^ j) (2 ^ j) ++ seg ((2 * q + 1) * 2 ^ j) (2 ^ j)).
  { rewrite Nat.pow_succ_r'. replace (2 * 2 ^ j)%nat with (2 ^ j + 2 ^ j)%nat by lia.
    rewrite seg_split. f_equal; f_equal; lia. }
  assert (Ha : length (seg (2 * q * 2 ^ j) (2 ^ j)) = (2 ^ j)%nat) by (rewrite length_seg; lia).
  assert (Hb : (0 < length (seg ((2 * q + 1) * 2 ^ j) (2 ^ j)))%nat) by (rewrite length_seg; lia).
  rewrite Hs. cbn [tree tree_mutated].
  rewrite take_app_length', drop_app_length' by done.
  destruct (Nat.leb_spec (length (seg (2 * q * 2 ^ j) (2 ^ j) ++ seg ((2 * q + 1) * 2 ^ j) (2 ^ j))) (2 ^ j)).
  - rewrite length_app in *. lia.
  - done.
Qed.

(** Pairing the last, incomplete node with itself. *)
Lemma tree_dup j q :
  (2 * q * 2 ^ j < length L <= (2 * q + 1) * 2 ^ j)%nat ->
  tree (S j) (seg (q * 2 ^ S j) (2 ^ S j)) =
    hash_pair (tree j (seg (2 * q * 2 ^ j) (2 ^ j))) (tree j (seg (2 * q * 2 ^ j) (2 ^ j))) /\
  tree_mutated (S j) (seg (q * 2 ^ S j) (2 ^ S j)) = tree_mutated j (seg (2 * q * 2 ^ j) (2 ^ j)).
Proof.
  intros Hl.
  assert (Hs : seg (q * 2 ^ S j) (2 ^ S j) = seg (2 * q * 2 ^ j) (2 ^ j)).
  { unfold seg. rewrite Nat.pow_succ_r'.
    replace (q * (2 * 2 ^ j))%nat with (2 * q * 2 ^ j)%nat by lia.
    rewrite !take_ge by (rewrite length_drop; lia). done. }
  rewrite Hs. cbn [tree tree_mutated].
  destruct (Nat.leb_spec (length (seg (2 * q * 2 ^ j) (2 ^ j))) (2 ^ j)); [done|].
  rewrite length_seg in *. lia.
Qed.

Lemma bit_at_unique N i q q' : bit_at N i q -> bit_at N i q' -> q = q'.
Proof.
  intros (r & H1 & Hr) (r' & H2 & Hr').
  assert (2 * q + 1 = 2 * q' + 1)%nat; [|lia].
  apply (Nat.div_mod_unique (2 ^ i) _ _ r r'); lia.
Qed.

(** The stored subtrees of level [>= j]: the one at [j], if any, or above. *)
Lemma mutated_from_bit N j q :
  bit_at N j q ->
  mutated_from N j <->
    tree_mutated j (seg (2 * q * 2 ^ j) (2 ^ j)) = true \/ mutated_from N (S j).
Proof.
  intros Hb. split.
  - intros (i & q' & Hi & Hb' & Hm). destruct (Nat.eq_dec i j) as [->|Hne].
    + left. by rewrite (bit_at_unique _ _ _ _ Hb Hb').
    + right. exists i, q'. split; [lia|done].
  - intros [Hm|(i & q' & Hi & Hb' & Hm)]; [by exists j, q|].
    exists i, q'. split; [lia|done].
Qed.

Lemma mutated_from_nobit N j :
  (forall q, ~ bit_at N j q) -> mutated_from N j <-> mutated_from N (S j).
Proof.
  intros Hn. split; intros (i & q & Hi & Hb & Hm); exists i, q; (split; [|done]); [|lia].
  destruct (Nat.eq_dec i j) as [->|]; [by destruct (Hn q)|lia].
Qed.

Lemma pow2_lt_inv a b : (2 ^ a < 2 ^ b)%nat -> (a < b)%nat.
Proof. apply Nat.pow_lt_mono_r_iff. lia. Qed.

Lemma collapse_spec N inner fuel : inner_ok N inner -> forall j p h fl,
  (p * 2 ^ j <= N < (p + 1) * 2 ^ j)%nat -> ((p + 1) * 2 ^ j < 2 ^ 32)%nat ->
  ((p + 1) * 2 ^ j < 2 ^ (j + fuel))%nat ->
  node_ok j p h -> flag_ok N j j p fl ->
  exists j' p' h' fl',
    collapse fuel inner (Z.of_nat ((p + 1) * 2 ^ j)) (mkCollapse (Z.of_nat j) h fl)
      = mkCollapse (Z.of_nat j') h' fl' /\
    (j <= j' < 32)%nat /\ Nat.even p' = true /\ ((p' + 1) * 2 ^ j' = (p + 1) * 2 ^ j)%nat /\
    (p' * 2 ^ j' <= N)%nat /\ node_ok j' p' h' /\ flag_ok N j' j' p' fl'.
Proof.
  intros [Hil Hin]. induction fuel as [|f IH]; intros j p h fl HN H32 Hf Hnode Hfl.
  - rewrite Nat.add_0_r in Hf. nia.
  - pose proof (Nat.pow_nonzero 2 j ltac:(lia)) as Hpj.
    assert (Hj : (j < 32)%nat) by (apply pow2_lt_inv; nia).
    cbn [collapse c_level c_h c_mutated]. rewrite land_bit_mul.
    destruct (Nat.even (p + 1)) eqn:He; cycle 1.
    { exists j, p, h, fl. split_and!; try done; try lia.
      rewrite Nat.add_1_r, Nat.even_succ, <- Nat.negb_even in He. by destruct (Nat.even p). }
    apply Nat.even_spec in He as [q' Hq']. destruct q' as [|q]; [lia|].
    assert (p = (2 * q + 1)%nat) as -> by lia. clear Hq'.
    assert (Hbit : bit_at N j q) by (exists (N - (2 * q + 1) * 2 ^ j)%nat; lia).
    destruct Hnode as [Hlen ->]. destruct (tree_join j q Hlen) as [Ht Hm].
    unfold inner_at. rewrite Nat2Z.id, (Hin j q Hbit Hj). cbn [default].
    replace (Z.of_nat j + 1) with (Z.of_nat (S j)) by lia. unfold id. rewrite <- Ht.
    assert (Hc : ((2 * q + 1 + 1) * 2 ^ j = (q + 1) * 2 ^ S j)%nat)
      by (rewrite Nat.pow_succ_r'; lia).
    rewrite Hc in *.
    edestruct (IH (S j) q) as (j' & p' & h' & fl' & Hrun & Hj' & ?);
      [| | | | |exists j', p', h', fl'; split; [exact Hrun|split; [lia|done]]].
    + rewrite Nat.pow_succ_r' in *. lia.
    + done.
    + by replace (S j + f)%nat with (j + S f)%nat by lia.
    + split; [|done]. rewrite Nat.pow_succ_r'. lia.
    + unfold flag_ok in *. rewrite Hm, !orb_true_iff, bool_decide_eq_true.
      rewrite (mutated_from_bit N j q Hbit) in Hfl.
      destruct (decide _) as [Heq|Hne]; [tauto|]. rewrite Hfl. tauto.
Qed.

Lemma pow2_split i j : (j < i)%nat -> (2 ^ i = 2 * 2 ^ (i - j - 1) * 2 ^ j)%nat.
Proof.
  intros Hji. rewrite <- Nat.pow_succ_r', <- Nat.pow_add_r. f_equal. lia.
Qed.

Lemma bit_at_low m j i q : (i < j)%nat -> ~ bit_at (m * 2 ^ j) i q.
Proof.
  intros Hi (r & Hr & Hlt). rewrite (pow2_split j i Hi) in Hr.
  pose proof (Nat.pow_nonzero 2 i ltac:(lia)).
  assert (m * (2 * 2 ^ (j - i - 1)) = 2 * q + 1)%nat; [|lia].
  apply (Nat.div_mod_unique (2 ^ i) _ _ 0%nat r); lia.
Qed.

Lemma bit_at_succ N q' j i q :
  (N + 1 = (2 * q' + 1) * 2 ^ j)%nat -> (j < i)%nat -> bit_at (N + 1) i q <-> bit_at N i q.
Proof.
  intros HN Hi. pose proof (pow2_split i j Hi) as Hp.
  pose proof (Nat.pow_nonzero 2 j ltac:(lia)).
  assert (Hno : forall m, (N + 1 <> m * 2 ^ i)%nat).
  { intros m Hm. rewrite HN, Hp in Hm.
    assert (2 * q' + 1 = m * (2 * 2 ^ (i - j - 1)))%nat; [|lia].
    apply (Nat.mul_cancel_r _ _ (2 ^ j)); lia. }
  split; intros (r & Hr & Hlt).
  - destruct r as [|r]; [destruct (Hno (2 * q + 1)%nat); lia|]. exists r. lia.
  - exists (r + 1)%nat. split; [lia|].
    destruct (Nat.eq_dec (r + 1)%nat (2 ^ i)%nat); [|lia]. destruct (Hno (2 * q + 2)%nat). lia.
Qed.

Lemma bit_at_even N j q :
  (2 * q * 2 ^ j <= N < (2 * q + 1) * 2 ^ j)%nat -> forall q0, ~ bit_at N j q0.
Proof.
  intros HN q0 (r & Hr & Hlt). assert (2 * q = 2 * q0 + 1)%nat; [|lia].
  apply (Nat.div_mod_unique (2 ^ j) _ _ (N - 2 * q * 2 ^ j)%nat r); lia.
Qed.

(** The state of the accumulation loop after [N] leaves. *)
Definition acc_ok (N : nat) (st : bool * Z * list bytes) : Prop :=
  let '(fl, count, inner) := st in
  count = Z.of_nat N /\ inner_ok N inner /\ (fl = true <-> mutated_from N 0).

Lemma accumulate_ok N st x :
  acc_ok N st -> L !! N = Some x -> (N + 1 < 2 ^ 32)%nat -> acc_ok (N + 1) (accumulate st x).
Proof.
  destruct st as [[fl count] inner]. intros (-> & Hin & Hfl) Hx H32.
  assert (HZ : Z.of_nat (N + 1) < 2 ^ 32) by (apply Nat2Z.inj_lt in H32; rewrite Nat2Z.inj_pow in H32; exact H32).
  pose proof (lookup_lt_Some _ _ _ Hx) as HL.
  destruct (collapse_spec N inner 32 Hin 0 N x fl) as (j & p & h & fl' & Hrun & Hj & Hp & Hc & HpN & [Hnl Hh] & Hfl').
  { rewrite Nat.pow_0_r. lia. }
  { rewrite Nat.pow_0_r. lia. }
  { rewrite Nat.pow_0_r, Nat.add_0_l. lia. }
  { unfold node_ok. rewrite Nat.pow_0_r, Nat.mul_1_r. split; [done|].
    unfold seg. by rewrite (drop_S _ _ _ Hx). }
  { unfold flag_ok. cbn [tree_mutated]. rewrite Hfl. split; [by right|by intros [|]]. }
  rewrite Nat.pow_0_r, Nat.mul_1_r in Hrun, Hc.
  unfold accumulate. rewrite wrap_small by (unfold fits; lia).
  replace (Z.of_nat N + 1) with (Z.of_nat (N + 1)) by lia.
  change 0 with (Z.of_nat 0). rewrite Hrun. cbn [c_mutated c_level c_h]. rewrite Nat2Z.id.
  apply Nat.even_spec in Hp as [q ->]. symmetry in Hc.
  assert (Hbit : bit_at (N + 1) j q) by (exists 0%nat; split; [lia|]; apply Nat.neq_0_lt_0, Nat.pow_nonzero; lia).
  assert (Hno : forall q0, ~ bit_at N j q0) by (apply (bit_at_even N j q); lia).
  destruct Hin as [Hil Hin]. split_and!; [done| |].
  - split; [by rewrite length_insert|]. intros i q0 Hb Hi.
    destruct (Nat.lt_trichotomy i j) as [Hlt|[->|Hgt]].
    + exfalso. rewrite Hc in Hb. by apply bit_at_low in Hb.
    + rewrite list_lookup_insert_eq by lia.
      by rewrite (bit_at_unique _ _ _ _ Hb Hbit), Hh.
    + rewrite list_lookup_insert_ne by lia. apply Hin; [|done].
      by apply (bit_at_succ N q j i q0 Hc Hgt).
  - unfold flag_ok in Hfl'. rewrite Hfl', (mutated_from_nobit N j Hno).
    assert (Habove : mutated_from (N + 1) (S j) <-> mutated_from N (S j)).
    { split; intros (i & q0 & Hi & Hb & Hm); exists i, q0;
        (split; [done|]); (split; [|done]); by apply (bit_at_succ N q j i q0 Hc Hi). }
    rewrite <- Habove, <- (mutated_from_bit (N + 1) j q Hbit).
    split; intros (i & q0 & Hi & Hb & Hm); exists i, q0; (split; [|done]); [lia|].
    destruct (Nat.le_gt_cases j i); [done|].
    exfalso. rewrite Hc in Hb. by apply bit_at_low in Hb.
Qed.

Lemma accumulate_all ls N st :
  acc_ok N st -> (forall i x, ls !! i = Some x -> L !! (N + i)%nat = Some x) ->
  (N + length ls < 2 ^ 32)%nat -> acc_ok (N + length ls) (foldl accumulate st ls).
Proof.
  revert N st. induction ls as [|x ls IH]; intros N st Hst Hls Hlen; cbn [length foldl] in *.
  - by rewrite Nat.add_0_r.
  - replace (N + S (length ls))%nat with (N + 1 + length ls)%nat in * by lia.
    apply IH; [|intros i y Hy|lia].
    + apply accumulate_ok; [done| |lia]. specialize (Hls 0%nat x eq_refl).
      by rewrite Nat.add_0_r in Hls.
    + replace (N + 1 + i)%nat with (N + S i)%nat by lia. by apply Hls.
Qed.

Lemma lowest_level_spec fuel i j q :
  (i <= j < i + fuel)%nat ->
  lowest_level fuel (Z.of_nat ((2 * q + 1) * 2 ^ j)) (Z.of_nat i) = Z.of_nat j.
Proof.
  revert i. induction fuel as [|f IH]; intros i Hi; [lia|]. cbn [lowest_level].
  destruct (Nat.eq_dec i j) as [->|Hne].
  - rewrite land_bit_mul. replace (2 * q + 1)%nat with (S (2 * q)) by lia.
    by rewrite Nat.even_succ, Nat.odd_mul.
  - pose proof (pow2_split j i ltac:(lia)) as Hp.
    replace ((2 * q + 1) * 2 ^ j)%nat with (2 * ((2 * q + 1) * 2 ^ (j - i - 1)) * 2 ^ i)%nat at 1
      by (rewrite Hp; lia).
    rewrite land_bit_mul, Nat.even_mul. cbn [Nat.even orb].
    replace (Z.of_nat i + 1) with (Z.of_nat (S i)) by lia. apply IH. lia.
Qed.

Lemma odd_decomposition n : (0 < n)%nat -> exists j q, (n = (2 * q + 1) * 2 ^ j)%nat.
Proof.
  induction n as [n IH] using lt_wf_ind. intros Hn.
  destruct (Nat.Even_or_Odd n) as [[m ->]|[m ->]].
  - destruct (IH m) as (j & q & Hm); [lia..|]. exists (S j), q. rewrite Nat.pow_succ_r'. lia.
  - exists 0%nat, m. cbn. lia.
Qed.

(** The state of the final loop: the count is [(p + 1) * 2^j] with [p] even,
    the number of leaves rounded up to a multiple of [2^j]. *)
Definition finish_ok (j p : nat) (h : bytes) (fl : bool) : Prop :=
  Nat.even p = true /\ (j < 32)%nat /\ ((p + 1) * 2 ^ j <= 2 ^ 31)%nat /\
  (length L <= (p + 1) * 2 ^ j)%nat /\
  (p = 0%nat -> height_ok j (length L)) /\
  node_ok j p h /\ flag_ok (length L) j (S j) p fl.

(** Padding rounds an odd multiple of [2^j] up, within the [u32]. *)
Lemma pad_count j q :
  (q <> 0)%nat -> ((2 * q + 1) * 2 ^ j <= 2 ^ 31)%nat ->
  ((q + 1) * 2 ^ S j <= 2 ^ 31)%nat /\
  u32 (Z.of_nat ((2 * q + 1) * 2 ^ j) + Z.shiftl 1 (Z.of_nat j)) = Z.of_nat ((q + 1) * 2 ^ S j).
Proof.
  intros Hq H31. pose proof (Nat.pow_nonzero 2 j ltac:(lia)) as Hpj.
  assert (Hj31 : (j < 31)%nat) by (apply pow2_lt_inv; nia).
  pose proof (pow2_split 31 j Hj31) as H31s.
  assert (Hle : (2 * q + 1 <= 2 * 2 ^ (31 - j - 1))%nat).
  { apply (Nat.mul_le_mono_pos_r _ _ (2 ^ j)); [lia|]. by rewrite <- H31s. }
  assert (Hlt : ((2 * q + 2) * 2 ^ j <= 2 ^ 31)%nat).
  { rewrite H31s. apply Nat.mul_le_mono_r. lia. }
  assert (HZ : Z.of_nat ((2 * q + 1) * 2 ^ j) + Z.shiftl 1 (Z.of_nat j) = Z.of_nat ((q + 1) * 2 ^ S j)).
  { rewrite Z.shiftl_1_l, Nat.pow_succ_r'. pose proof (Nat2Z.inj_pow 2 j). lia. }
  rewrite HZ, Nat.pow_succ_r'. split; [lia|]. apply wrap_small. unfold fits.
  apply Nat2Z.inj_le in Hlt. rewrite (Nat2Z.inj_pow 2 31) in Hlt. cbn in Hlt |- *. lia.
Qed.

(** One iteration: pad, then collapse. *)
Lemma finish_step inner j p h fl :
  inner_ok (length L) inner -> finish_ok j p h fl -> p <> 0%nat ->
  exists j' p' h' fl',
    collapse 32 inner (u32 (Z.of_nat ((p + 1) * 2 ^ j) + Z.shiftl 1 (Z.of_nat j)))
      (mkCollapse (Z.of_nat j + 1) (hash_pair h h) fl) = mkCollapse (Z.of_nat j') h' fl' /\
    (j < j')%nat /\ ((p + 1) * 2 ^ j + 2 ^ j = (p' + 1) * 2 ^ j')%nat /\ finish_ok j' p' h' fl'.
Proof.
  intros Hin (Hp & Hj & H31 & HL & Hh0 & [Hnl ->] & Hfl) Hp0.
  apply Nat.even_spec in Hp as [q ->]. pose proof (Nat.pow_nonzero 2 j ltac:(lia)) as Hpj.
  destruct (tree_dup j q ltac:(lia)) as [Ht Hm].
  destruct (pad_count j q ltac:(lia) H31) as [Hc31 Hpad]. rewrite Hpad.
  assert (Hc32 : ((q + 1) * 2 ^ S j < 2 ^ 32)%nat) by (rewrite (Nat.pow_succ_r' 2 31); lia).
  replace (Z.of_nat j + 1) with (Z.of_nat (S j)) by lia. rewrite <- Ht.
  destruct (collapse_spec (length L) inner 32 Hin (S j) q (tree (S j) (seg (q * 2 ^ S j) (2 ^ S j))) fl)
    as (j' & p' & h' & fl' & Hrun & Hj' & Hp' & Hc & HpN & Hn' & Hfl').
  { rewrite Nat.pow_succ_r'. lia. }
  { exact Hc32. }
  { eapply Nat.lt_le_trans; [exact Hc32|]. apply Nat.pow_le_mono_r; lia. }
  { split; [|done]. rewrite Nat.pow_succ_r'. lia. }
  { unfold flag_ok in *. rewrite Hm. exact Hfl. }
  exists j', p', h', fl'. split; [exact Hrun|]. split; [lia|].
  split; [rewrite Hc, Nat.pow_succ_r'; lia|].
  apply Nat.even_spec in Hp' as [q' ->].
  unfold finish_ok. rewrite Hc.
  refine (conj _ (conj _ (conj Hc31 (conj _ (conj _ (conj Hn' _)))))).
  - apply Nat.even_spec. by exists q'.
  - lia.
  - rewrite Nat.pow_succ_r'. lia.
  - intros Hq'. assert (q' = 0%nat) as -> by lia. rewrite Nat.pow_succ_r' in Hc.
    split; [lia|right]. destruct j' as [|j']; [lia|].
    replace (S j' - 1)%nat with j' by lia. rewrite Nat.pow_succ_r' in Hc. nia.
  - unfold flag_ok in *. rewrite Hfl'. rewrite mutated_from_nobit; [done|].
    apply (bit_at_even _ j' q'). rewrite Nat.pow_succ_r' in Hc. lia.
Qed.

Lemma finish_spec inner fuel : inner_ok (length L) inner -> forall j p h fl,
  finish_ok j p h fl -> (32 <= j + fuel)%nat ->
  exists k,
    finish fuel inner (Z.of_nat ((p + 1) * 2 ^ j)) (mkCollapse (Z.of_nat j) h fl)
      = mkCollapse (Z.of_nat k) (tree k L) (tree_mutated k L) /\ height_ok k (length L).
Proof.
  intros Hin. induction fuel as [|f IH]; intros j p h fl Hok Hf;
    [destruct Hok as (_ & Hj & _); lia|].
  cbn [finish c_level c_h c_mutated].
  assert (Hsh : Z.shiftl 1 (Z.of_nat j) = Z.of_nat (2 ^ j)).
  { rewrite Z.shiftl_1_l. by rewrite Nat2Z.inj_pow. }
  pose proof (Nat.pow_nonzero 2 j ltac:(lia)) as Hpj.
  destruct (Z.eqb_spec (Z.of_nat ((p + 1) * 2 ^ j)) (Z.shiftl 1 (Z.of_nat j))) as [Heq|Hne].
  - rewrite Hsh in Heq. assert (p = 0%nat) as -> by nia.
    destruct Hok as (_ & _ & _ & HL & Hh & [_ ->] & Hfl). exists j. split; [|by apply Hh].
    assert (Hseg : seg (0 * 2 ^ j) (2 ^ j) = L).
    { unfold seg. rewrite Nat.mul_0_l, drop_0. apply take_ge. lia. }
    unfold flag_ok in Hfl. rewrite Hseg in *. f_equal.
    apply eq_bool_prop_intro. rewrite !Is_true_true, Hfl. split; [|by left].
    intros [Hm|(i & q & Hi & (r & Hr & _) & _)]; [done|exfalso].
    rewrite (pow2_split i j Hi) in Hr.
    pose proof (Nat.pow_nonzero 2 (i - j - 1) ltac:(lia)). nia.
  - assert (p <> 0%nat) as Hp0 by (intros ->; apply Hne; rewrite Hsh; lia).
    destruct (finish_step inner j p h fl Hin Hok Hp0) as (j' & p' & h' & fl' & Hrun & Hj' & Hc & Hok').
    rewrite Hrun. destruct Hok as (_ & _ & H31 & _). 
    assert (Hcount : u32 (Z.of_nat ((p + 1) * 2 ^ j) + Z.shiftl 1 (Z.of_nat j)) = Z.of_nat ((p' + 1) * 2 ^ j')).
    { rewrite Hsh, <- Nat2Z.inj_add, Hc. apply wrap_small. unfold fits.
      destruct Hok' as (_ & _ & H31' & _). apply Nat2Z.inj_le in H31'.
      rewrite (Nat2Z.inj_pow 2 31) in H31'. cbn in H31' |- *. lia. }
    rewrite Hcount. apply IH; [done|lia].
Qed.

Lemma bit_at_0 i q : ~ bit_at 0 i q.
Proof.
  intros (r & Hr & _). pose proof (Nat.pow_nonzero 2 i ltac:(lia)).
  assert ((2 * q + 1) * 2 ^ i <> 0)%nat by (apply Nat.neq_mul_0; lia). lia.
Qed.

Lemma acc_ok_init : acc_ok 0 (false, 0, replicate 32 zero32).
Proof.
  split; [done|]. split; [|split; [done|]].
  - split; [done|]. intros i q Hb. by apply bit_at_0 in Hb.
  - intros (i & q & _ & Hb & _). by apply bit_at_0 in Hb.
Qed.
End OnePass.

Lemma height_ok_unique k k' n : height_ok k n -> height_ok k' n -> k = k'.
Proof.
  assert (Hlt : forall a b, height_ok a n -> height_ok b n -> ~ (a < b)%nat).
  { intros a b [Ha _] [_ [->|Hb]] Hab; [lia|].
    pose proof (Nat.pow_le_mono_r 2 a (b - 1)). lia. }
  intros H1 H2. pose proof (Hlt k k' H1 H2). pose proof (Hlt k' k H2 H1). lia.
Qed.

Lemma root_detecting_mutation_eq leaves fl count inner :
  leaves <> [] ->
  foldl accumulate (false, 0, replicate 32 zero32) leaves = (fl, count, inner) ->
  root_detecting_mutation leaves =
    let level := lowest_level 32 count 0 in
    let st := finish 32 inner count (mkCollapse level (inner_at inner level) fl) in
    (Some (c_h st), c_mutated st).
Proof. intros Hne Hfold. unfold root_detecting_mutation. destruct leaves; [done|]. by rewrite Hfold. Qed.

Lemma finish_ok_init leaves inner fl j q :
  inner_ok leaves (length leaves) inner -> (length leaves <= 2 ^ 31)%nat ->
  length leaves = ((2 * q + 1) * 2 ^ j)%nat ->
  (fl = true <-> mutated_from leaves (length leaves) 0) ->
  finish_ok leaves j (2 * q) (tree j (seg leaves (2 * q * 2 ^ j) (2 ^ j))) fl.
Proof.
  intros Hin H31 Hd Hfl. pose proof (Nat.pow_nonzero 2 j ltac:(lia)) as Hpj.
  assert (Hj : (j < 32)%nat) by (apply pow2_lt_inv; rewrite (Nat.pow_succ_r' 2 31); nia).
  assert (Hbit : bit_at (length leaves) j q) by (exists 0%nat; lia).
  unfold finish_ok. rewrite <- Hd. refine (conj _ (conj Hj (conj H31 (conj _ (conj _ (conj _ _)))))).
  - apply Nat.even_spec. by exists q.
  - lia.
  - intros Hq. split; [nia|]. destruct j as [|j]; [by left|right].
    replace (S j - 1)%nat with j by lia. rewrite Nat.pow_succ_r' in Hd, Hpj. nia.
  - split; [lia|done].
  - unfold flag_ok. rewrite Hfl, <- (mutated_from_bit leaves _ j q Hbit).
    split; intros (i & q0 & Hi & Hb & Hm); exists i, q0; (split; [|done]); [|lia].
    destruct (Nat.le_gt_cases j i); [done|]. exfalso. rewrite Hd in Hb. by apply bit_at_low in Hb.
Qed.

Lemma root_detecting_mutation_tree leaves k :
  leaves <> [] -> len leaves <= 2 ^ 31 -> height_ok k (length leaves) ->
  root_detecting_mutation leaves = (Some (tree k leaves), tree_mutated k leaves).
Proof.
  intros Hne Hlen Hk.
  assert (H31 : (length leaves <= 2 ^ 31)%nat).
  { apply Nat2Z.inj_le. by rewrite (Nat2Z.inj_pow 2 31). }
  assert (H32 : (length leaves < 2 ^ 32)%nat).
  { rewrite (Nat.pow_succ_r' 2 31). pose proof (Nat.pow_nonzero 2 31). lia. }
  pose proof (accumulate_all leaves leaves 0 _ (acc_ok_init leaves) (fun i x Hx => Hx) H32) as Hacc.
  rewrite Nat.add_0_l in Hacc.
  destruct (foldl accumulate (false, 0, replicate 32 zero32) leaves) as [[fl count] inner] eqn:Hfold.
  destruct Hacc as (-> & Hin & Hfl).
  assert (Hpos : (0 < length leaves)%nat) by (destruct leaves; [done|cbn; lia]).
  destruct (odd_decomposition _ Hpos) as (j & q & Hd).
  pose proof (finish_ok_init leaves inner fl j q Hin H31 Hd Hfl) as Hfin.
  assert (Hj : (j < 32)%nat) by apply Hfin.
  assert (Hbit : bit_at (length leaves) j q).
  { exists 0%nat. split; [lia|]. apply Nat.neq_0_lt_0, Nat.pow_nonzero; lia. }
  destruct (finish_spec leaves inner 32 Hin _ _ _ _ Hfin ltac:(lia)) as (k' & Hrun & Hk').
  rewrite (height_ok_unique _ _ _ Hk Hk').
  rewrite (root_detecting_mutation_eq _ _ _ _ Hne Hfold). cbv zeta.
  rewrite Hd. change 0 with (Z.of_nat 0). rewrite (lowest_level_spec 32 0 j q) by lia.
  unfold inner_at. rewrite Nat2Z.id, (proj2 Hin j q Hbit Hj). cbn [default].
  unfold id. rewrite Hrun. done.
Qed.

(** ** Unmutated trees determine their leaves *)

(** A pair of different byte strings with the same double SHA-256. *)
Definition sha256d_collision : Prop := exists x y, x <> y /\ sha256d x = sha256d y.

Section Unique.
Hypothesis sha256d_length : forall x, length (sha256d x) = 32%nat.

Abbreviation nodes32 := (Forall (fun x : bytes => length x = 32%nat)).

Lemma tree_length k l : l <> [] -> nodes32 l -> length (tree k l) = 32%nat.
Proof.
  intros Hne Hl. destruct k as [|k]; cbn [tree].
  - destruct l as [|x l]; [done|]. by inversion Hl.
  - destruct (length l <=? 2 ^ k)%nat; apply sha256d_length.
Qed.

Lemma hash_pair_inj a b c d :
  length a = 32%nat -> length c = 32%nat ->
  hash_pair a b = hash_pair c d -> (a = c /\ b = d) \/ sha256d_collision.
Proof.
  intros Ha Hc Heq. destruct (decide (a ++ b = c ++ d)) as [Hab|Hab].
  - left. apply app_inj_1 in Hab; [done|congruence].
  - right. by exists (a ++ b), (c ++ d).
Qed.

Lemma tree_inj k : forall l l',
  l <> [] -> l' <> [] -> nodes32 l -> nodes32 l' ->
  (length l <= 2 ^ k)%nat -> (length l' <= 2 ^ k)%nat ->
  tree_mutated k l = false -> tree_mutated k l' = false ->
  tree k l = tree k l' -> l = l' \/ sha256d_collision.
Proof.
  induction k as [|k IH]; intros l l' Hl Hl' H32 H32' Hs Hs' Hm Hm' Heq.
  - cbn in Hs, Hs'. destruct l as [|x [|]], l' as [|y [|]]; cbn in *; try done; try lia.
    left. congruence.
  - rewrite Nat.pow_succ_r' in Hs, Hs'. cbn [tree tree_mutated] in *.
    assert (Hhalf : forall m : list bytes, (2 ^ k < length m <= 2 * 2 ^ k)%nat -> nodes32 m ->
      take (2 ^ k) m <> [] /\ drop (2 ^ k) m <> [] /\
      nodes32 (take (2 ^ k) m) /\ nodes32 (drop (2 ^ k) m) /\
      (length (take (2 ^ k) m) <= 2 ^ k)%nat /\ (length (drop (2 ^ k) m) <= 2 ^ k)%nat).
    { intros m Hlen Hf. pose proof (Nat.pow_nonzero 2 k ltac:(lia)).
      split_and!; try (intros Hnil; apply (f_equal length) in Hnil);
        rewrite ?length_take, ?length_drop in *; cbn in *; try lia;
        [by apply Forall_take|by apply Forall_drop]. }
    destruct (Nat.leb_spec (length l) (2 ^ k)) as [Hc|Hc],
             (Nat.leb_spec (length l') (2 ^ k)) as [Hc'|Hc'];
      rewrite ?orb_false_iff in *.
    + apply hash_pair_inj in Heq as [[Heq _]|]; [eauto|by right|by apply tree_length..].
    + destruct (Hhalf l' ltac:(lia) H32') as (? & ? & ? & ? & ? & ?).
      apply hash_pair_inj in Heq as [[He1 He2]|]; [|by right|by apply tree_length..].
      destruct Hm' as [[Hm' _] _]. apply bool_decide_eq_false in Hm'. congruence.
    + destruct (Hhalf l ltac:(lia) H32) as (? & ? & ? & ? & ? & ?).
      apply hash_pair_inj in Heq as [[He1 He2]|]; [|by right|by apply tree_length..].
      destruct Hm as [[Hm _] _]. apply bool_decide_eq_false in Hm. congruence.
    + destruct (Hhalf l ltac:(lia) H32) as (? & ? & ? & ? & ? & ?).
      destruct (Hhalf l' ltac:(lia) H32') as (? & ? & ? & ? & ? & ?).
      destruct Hm as [[_ Hm1] Hm2], Hm' as [[_ Hm1'] Hm2'].
      apply hash_pair_inj in Heq as [[He1 He2]|]; [|by right|by apply tree_length..].
      destruct (IH (take (2 ^ k) l) (take (2 ^ k) l')) as [Ha|]; [done..| |by right].
      destruct (IH (drop (2 ^ k) l) (drop (2 ^ k) l')) as [Hb|]; [done..| |by right].
      left. rewrite <- (take_drop (2 ^ k) l), <- (take_drop (2 ^ k) l'). by rewrite Ha, Hb.
Qed.
End Unique.

(** ** Proof paths *)

(** How a verifier folds a branch: bit [i] of the index tells the side of the
    sibling at level [i]. *)
Fixpoint fold_branch (idx : nat) (h : bytes) (br : list bytes) : bytes :=
  match br with
  | [] => h
  | s :: r => fold_branch (idx / 2) (if Nat.even idx then hash_pair h s else hash_pair s h) r
  end.

Lemma hash_chunks_lookup l i a b :
  l !! (2 * i)%nat = Some a -> l !! (2 * i + 1)%nat = Some b ->
  hash_chunks l !! i = Some (hash_pair a b).
Proof.
  revert l. induction i as [|i IH]; intros l Ha Hb.
  - destruct l as [|x [|y l]]; cbn in *; congruence.
  - replace (2 * S i)%nat with (S (S (2 * i))) in * by lia.
    destruct l as [|x [|y l]]; [done|done|]. cbn. by apply IH.
Qed.

Lemma pad_odd_even l : l <> [] -> Nat.even (length (pad_odd l)) = true.
Proof.
  intros Hl. unfold pad_odd. destruct (Nat.even (length l)) eqn:He; [done|].
  destruct (last l) eqn:Hlast; [|by apply last_None in Hlast].
  rewrite length_app, Nat.add_1_r, Nat.even_succ, <- Nat.negb_even, He. done.
Qed.

Lemma pad_odd_lookup l i x : l !! i = Some x -> pad_odd l !! i = Some x.
Proof.
  intros Hx. unfold pad_odd. destruct (Nat.even _); [done|].
  destruct (last l); [by apply lookup_app_l_Some|done].
Qed.

(** One level of a branch: the parent of [idx] from the node and its sibling. *)
Lemma branch_level l idx x :
  l !! idx = Some x ->
  let s := default zero32 (pad_odd l !! (if Nat.even idx then idx + 1 else idx - 1)%nat) in
  hash_chunks (pad_odd l) !! (idx / 2)%nat =
    Some (if Nat.even idx then hash_pair x s else hash_pair s x).
Proof.
  intros Hx. pose proof (pad_odd_lookup _ _ _ Hx) as Hp.
  assert (Hl : l <> []) by (by intros ->). pose proof (pad_odd_even l Hl) as Hev.
  pose proof (lookup_lt_Some _ _ _ Hp) as Hlt.
  destruct (Nat.even idx) eqn:He; cbn zeta.
  - apply Nat.even_spec in He as [q ->]. apply Nat.even_spec in Hev as [m Hm].
    destruct (lookup_lt_is_Some_2 (pad_odd l) (2 * q + 1)%nat ltac:(lia)) as [y Hy].
    rewrite Hy. replace (2 * q / 2)%nat with q by (rewrite Nat.mul_comm, Nat.div_mul; lia).
    by apply hash_chunks_lookup.
  - assert (exists q, idx = 2 * q + 1)%nat as [q ->].
    { apply Nat.odd_spec. rewrite <- Nat.negb_even. by rewrite He. }
    replace (2 * q + 1 - 1)%nat with (2 * q)%nat by lia.
    destruct (lookup_lt_is_Some_2 (pad_odd l) (2 * q)%nat ltac:(lia)) as [y Hy].
    rewrite Hy. replace ((2 * q + 1) / 2)%nat with q by (rewrite Nat.mul_comm, Nat.div_add_l; [cbn; lia|lia]).
    by apply hash_chunks_lookup.
Qed.

Lemma branch_loop_spec fuel : forall l idx x br k,
  l !! idx = Some x -> (length l <= fuel)%nat -> height_ok k (length l) ->
  exists path, branch_loop fuel l idx br = (root_loop fuel l, br ++ path) /\
    fold_branch idx x path = root_loop fuel l /\ length path = k.
Proof.
  induction fuel as [|f IH]; intros l idx x br k Hx Hf Hk.
  { apply lookup_lt_Some in Hx. lia. }
  pose proof (lookup_lt_Some _ _ _ Hx) as Hlt. cbn [branch_loop root_loop].
  destruct Hk as [Hk1 Hk2]. destruct (Nat.ltb_spec 1 (length l)) as [Hlen|Hlen].
  - pose proof (branch_level l idx x Hx) as Hlev. cbn zeta in Hlev.
    pose proof (length_next_level l) as Hn.
    destruct k as [|k]; [cbn in Hk1; lia|]. rewrite Nat.pow_succ_r' in Hk1.
    edestruct (IH (hash_chunks (pad_odd l)) (idx / 2)%nat) as (path & -> & Hfold & Hpl);
      [exact Hlev| | |].
    + unfold next_level in Hn. lia.
    + unfold next_level in Hn. instantiate (1 := k). split; [lia|].
      destruct k as [|k]; [by left|right]. replace (S (S k) - 1)%nat with (S k) in Hk2 by lia.
      replace (S k - 1)%nat with k by lia. rewrite Nat.pow_succ_r' in Hk2. lia.
    + eexists. rewrite <- app_assoc. split; [reflexivity|]. cbn [app fold_branch length].
      split; [exact Hfold|lia].
  - destruct l as [|y [|]]; cbn in Hlt, Hlen; [lia| |lia].
    destruct idx as [|]; [|lia]. cbn in Hx. injection Hx as ->.
    exists []. rewrite app_nil_r. split_and!; [done|done|].
    destruct k as [|k]; [done|]. cbn in Hk2. rewrite Nat.sub_0_r in Hk2.
    pose proof (Nat.pow_nonzero 2 k ltac:(lia)). lia.
Qed.
End Merkle.

(** ** Theorems *)

(** C11: the one-pass [root_detecting_mutation] computes exactly the root of the
    level-by-level [root], and its flag is exactly "two real sibling subtrees
    of the tree are equal": the padding of odd levels is never reported, and
    no equal pair is missed.  The bound is what the 32-bit counter supports. *)
Theorem root_detecting_mutation_correct `{Hashes} (leaves : list bytes) :
  leaves <> [] -> len leaves <= 2 ^ 31 ->
  root_detecting_mutation leaves =
    (Some (root leaves), tree_mutated (height_of (length leaves)) leaves).
Proof.
  intros Hne Hlen.
  assert (Hk : height_ok (height_of (length leaves)) (length leaves)).
  { apply height_of_ok. destruct leaves; [done|cbn; lia]. }
  by rewrite (root_detecting_mutation_tree leaves _ Hne Hlen Hk), (root_tree leaves _ Hne Hk).
Qed.

(** Three leaves: an odd level, not flagged. *)
Lemma root_detecting_mutation_correct_witness :
  let _ := Sample.hashes in
  let leaves := [zero32; ff32; u256_one] in
  root_detecting_mutation leaves = (Some (root leaves), false).
Proof.
  intros h leaves.
  rewrite (root_detecting_mutation_correct leaves); [|done|vm_compute; done].
  vm_compute. reflexivity.
Defined.

(** CVE-2012-2459.  Two transaction lists whose trees have the same height
    and the same root, both reported unmutated, are the same list, or else
    they exhibit two different inputs with the same double SHA-256: an
    accepted root commits to one list of transactions. *)
Theorem merkle_unmutated_unique `{Hashes} (leaves leaves' : list bytes) (r : bytes) :
  (forall x, length (sha256d x) = 32%nat) ->
  Forall (fun x => length x = 32%nat) leaves -> Forall (fun x => length x = 32%nat) leaves' ->
  len leaves <= 2 ^ 31 -> len leaves' <= 2 ^ 31 ->
  height_of (length leaves) = height_of (length leaves') ->
  root_detecting_mutation leaves = (Some r, false) ->
  root_detecting_mutation leaves' = (Some r, false) ->
  leaves = leaves' \/ sha256d_collision.
Proof.
  intros H32 Hl Hl' Hn Hn' Hh Hr Hr'.
  destruct leaves as [|x l] eqn:El; [done|]. rewrite <- El in *.
  destruct leaves' as [|x' l'] eqn:El'; [done|]. rewrite <- El' in *.
  assert (leaves <> [] /\ leaves' <> []) as [Hne Hne'] by (by subst).
  assert (Hk : height_ok (height_of (length leaves)) (length leaves))
    by (apply height_of_ok; subst; cbn; lia).
  assert (Hk' : height_ok (height_of (length leaves)) (length leaves'))
    by (rewrite Hh; apply height_of_ok; subst; cbn; lia).
  rewrite (root_detecting_mutation_tree leaves _ Hne Hn Hk) in Hr.
  rewrite (root_detecting_mutation_tree leaves' _ Hne' Hn' Hk') in Hr'.
  injection Hr as Hr1 Hr2. injection Hr' as Hr1' Hr2'.
  apply (tree_inj H32 (height_of (length leaves))); try done; [apply Hk|apply Hk'|congruence].
Qed.

Lemma merkle_unmutated_unique_witness :
  let _ := Sample.hashes in
  [zero32; ff32] = [zero32; u256_one] \/ sha256d_collision.
Proof.
  intros h. apply (merkle_unmutated_unique _ _ zero32).
  - intros x. apply Sample.length_pad_to.
  - repeat constructor.
  - repeat constructor.
  - vm_compute; done.
  - vm_compute; done.
  - reflexivity.
  - vm_compute. reflexivity.
  - vm_compute. reflexivity.
Defined.

(** [branch] returns the same root as [root], and its path has one hash per
    level of the tree and folds the leaf at [index] to that root. *)
Theorem branch_verifies `{Hashes} (leaves : list bytes) (index : nat) (leaf : bytes) :
  leaves !! index = Some leaf ->
  exists path, branch leaves index = (root leaves, path) /\
    fold_branch index leaf path = root leaves /\
    length path = height_of (length leaves).
Proof.
  intros Hx. pose proof (lookup_lt_Some _ _ _ Hx) as Hlt.
  destruct (branch_loop_spec (length leaves) leaves index leaf [] (height_of (length leaves)) Hx)
    as (path & Hb & Hf & Hl); [lia|apply height_of_ok; lia|].
  unfold branch, root. destruct leaves as [|y l]; [done|]. by exists path.
Qed.

Lemma branch_verifies_witness :
  let _ := Sample.hashes in
  exists path, branch [zero32; ff32; u256_one] 2 = (root [zero32; ff32; u256_one], path) /\
    fold_branch 2 u256_one path = root [zero32; ff32; u256_one] /\ length path = 2%nat.
Proof. intros h. apply (branch_verifies [zero32; ff32; u256_one] 2 u256_one). reflexivity. Defined.
