(* ===== verification/ScriptBytes.v ===== *)
(** * Raw script helpers

    The byte-level helpers of [bitcoinpr-core/src/script.rs]: push
    serialisation, [FindAndDelete], removal of [OP_CODESEPARATOR], the
    recognisers of script templates and of opcode classes, and the signature
    operation counters. *)

From Stdlib Require Import ZArith Lia.
From stdpp Require Import base option numbers list.
From S2P Require Import Prelude Bytes Types.

(** ** Recognisers *)

(** [parse_witness_program]: the version and the program. *)
Definition parse_witness_program (script : bytes) : option (Z * bytes) :=
  if (len script <? 4) || (len script >? 42) then None
  else match script with
       | b0 :: b1 :: prog =>
           version ← (if b0 =? 0x00 then Some 0
                      else if (0x51 <=? b0) && (b0 <=? 0x60) then Some (b0 - 0x50)
                      else None);
           if negb (len script =? 2 + b1) then None
           else if negb ((2 <=? b1) && (b1 <=? 40)) then None
           else Some (version, prog)
       | _ => None
       end.

Definition byte_at (script : bytes) (i : nat) : Z := default 0 (script !! i).

Definition is_p2sh (script : bytes) : bool :=
  (len script =? 23) && (byte_at script 0 =? 0xa9) && (byte_at script 1 =? 0x14)
  && (byte_at script 22 =? 0x87).

Definition is_disabled_opcode (op_byte : Z) : bool :=
  bool_decide (op_byte ∈ [0x7e; 0x7f; 0x80; 0x81; 0x83; 0x84; 0x85; 0x86; 0x8d; 0x8e;
                          0x95; 0x96; 0x97; 0x98; 0x99]).

Definition in_range (lo hi op : Z) : bool := (lo <=? op) && (op <=? hi).

Definition is_tapscript_success_opcode (op : Z) : bool :=
  (op =? 0x50) || (op =? 0x62) || in_range 0x7e 0x81 op || in_range 0x83 0x86 op
  || (op =? 0x89) || (op =? 0x8a) || (op =? 0x8d) || (op =? 0x8e)
  || in_range 0x95 0x99 op || in_range 0xbb 0xfe op.

(** ** Push serialisation, [FindAndDelete], [OP_CODESEPARATOR] *)

Definition serialize_script_push (data : bytes) : bytes :=
  let n := len data in
  (if n <? 76 then [u8 n]
   else if n <? 256 then [0x4c; u8 n]
   else if n <? 65536 then [0x4d; u8 (Z.land n 0xff); u8 (Z.land (Z.shiftr n 8) 0xff)]
   else [0x4e; u8 (Z.land n 0xff); u8 (Z.land (Z.shiftr n 8) 0xff);
         u8 (Z.land (Z.shiftr n 16) 0xff); u8 (Z.land (Z.shiftr n 24) 0xff)])
  ++ data.

(** The scan of [find_and_delete]; [rest] is [script[i..]].  Every iteration
    consumes at least one byte, so [length script] iterations are enough. *)
Fixpoint find_and_delete_loop (fuel : nat) (rest pattern : bytes) : bytes :=
  match fuel, rest with
  | S f, b :: r =>
      if decide (take (length pattern) rest = pattern)
      then find_and_delete_loop f (drop (length pattern) rest) pattern
      else b :: find_and_delete_loop f r pattern
  | _, _ => []
  end.

Definition find_and_delete (script pattern : bytes) : bytes :=
  if (len pattern =? 0) || (len pattern >? len script) then script
  else find_and_delete_loop (length script) script pattern.

(** What the head of [rest] is: a push whose payload has the given length and
    is announced by that many extra length bytes, a push whose length bytes
    are missing, or another opcode. *)
Inductive op_head :=
| PushHead (extra_len_bytes payload_len : Z)
| TruncatedHead
| OtherHead.

Definition head_of (op : Z) (rest : bytes) : op_head :=
  if in_range 0x01 0x4b op then PushHead 0 op
  else if op =? 0x4c then
    if 1 >=? len rest then TruncatedHead else PushHead 1 (byte_at rest 1)
  else if op =? 0x4d then
    if 2 >=? len rest then TruncatedHead else PushHead 2 (from_le (take 2 (drop 1 rest)))
  else if op =? 0x4e then
    if 4 >=? len rest then TruncatedHead else PushHead 4 (from_le (take 4 (drop 1 rest)))
  else OtherHead.

Fixpoint remove_codeseparators_loop (fuel : nat) (rest : bytes) : bytes :=
  match fuel, rest with
  | S f, op :: r =>
      match head_of op rest with
      | TruncatedHead => rest
      | OtherHead =>
          (if op =? 0xab then [] else [op]) ++ remove_codeseparators_loop f r
      | PushHead extra payload =>
          let total := 1 + extra + payload in
          if total >? len rest then rest
          else take (Z.to_nat total) rest ++ remove_codeseparators_loop f (drop (Z.to_nat total) rest)
      end
  | _, _ => []
  end.

Definition remove_codeseparators (script : bytes) : bytes :=
  remove_codeseparators_loop (length script) script.

(** ** Signature operation counting *)

Section Counting.
Context `{ScriptLib}.

Definition count_sigops_step (accurate : bool) (st : Z * Z) (i : Instruction) : Z * Z :=
  let '(count, last_op) := st in
  match i with
  | Op op_byte =>
      let count :=
        if (op_byte =? 0xac) || (op_byte =? 0xad) then u32 (count + 1)
        else if (op_byte =? 0xae) || (op_byte =? 0xaf) then
          if accurate && in_range 0x51 0x60 last_op then u32 (count + (last_op - 0x50))
          else u32 (count + 20)
        else count in
      (count, op_byte)
  | PushBytes _ => (count, 0)
  end.

(** The instructions up to the first parse error. *)
Fixpoint until_error (l : list (option Instruction)) : list Instruction :=
  match l with
  | Some i :: r => i :: until_error r
  | _ => []
  end.

Definition count_sigops (script : bytes) (accurate : bool) : Z :=
  fst (foldl (count_sigops_step accurate) (0, 0) (until_error (instructions script))).

Fixpoint redeem_loop (last : option bytes) (l : list (option Instruction)) : option bytes :=
  match l with
  | [] => last
  | Some (PushBytes b) :: r => redeem_loop (Some b) r
  | Some (Op op) :: r => if op >? 0x60 then None else redeem_loop last r
  | None :: _ => None
  end.

Definition p2sh_redeem_script (script_sig : bytes) : option bytes :=
  redeem_loop None (instructions script_sig).

Definition witness_sigop_cost (script_pubkey script_sig : bytes) (witness : list bytes) : Z :=
  match (if script_is_p2sh script_pubkey then p2sh_redeem_script script_sig
         else Some script_pubkey) with
  | None => 0
  | Some program =>
      if script_is_p2wpkh program then 1
      else if script_is_p2wsh program then
        match last witness with
        | Some ws => count_sigops ws true
        | None => 0
        end
      else 0
  end.

End Counting.

(** ** Serialised operations *)

(** The encodings of one script operation: a push in one of its four forms, or
    a single opcode byte. *)
Inductive op_chunk : bytes -> Prop :=
| chunk_other op : ~ 0x01 <= op <= 0x4e -> op_chunk [op]
| chunk_direct data : 0x01 <= len data <= 0x4b -> op_chunk (len data :: data)
| chunk_pushdata1 data : len data < 2 ^ 8 -> op_chunk (0x4c :: len data :: data)
| chunk_pushdata2 data : len data < 2 ^ 16 -> op_chunk (0x4d :: to_le 2 (len data) ++ data)
| chunk_pushdata4 data : len data < 2 ^ 32 -> op_chunk (0x4e :: to_le 4 (len data) ++ data).

Lemma in_range_spec lo hi op : in_range lo hi op = true <-> lo <= op <= hi.
Proof. unfold in_range. rewrite andb_true_iff, !Z.leb_le. done. Qed.

Lemma in_range_false lo hi op : ~ lo <= op <= hi -> in_range lo hi op = false.
Proof. intros Hn. apply Bool.not_true_iff_false. by rewrite in_range_spec. Qed.

(** A push whose head is recognised is copied whole. *)
Lemma remove_push f op r c rest extra :
  op :: r = c ++ rest -> head_of op (op :: r) = PushHead extra (len c - 1 - extra) ->
  remove_codeseparators_loop (S f) (op :: r) = c ++ remove_codeseparators_loop f rest.
Proof.
  intros Heq Hh. cbn [remove_codeseparators_loop]. rewrite Hh. cbv zeta.
  replace (1 + extra + (len c - 1 - extra)) with (len c) by lia.
  rewrite Heq, len_app, Z.gtb_ltb.
  destruct (Z.ltb_spec (len c + len rest) (len c)); [pose proof (len_nonneg rest); lia|].
  unfold len. rewrite Nat2Z.id, take_app_length, drop_app_length. done.
Qed.

Lemma from_le_take n z rest : 0 <= z < pow256 n -> from_le (take n (to_le n z ++ rest)) = z.
Proof.
  intros Hz. rewrite take_app_length' by (by rewrite length_to_le). apply from_to_le_small. exact Hz.
Qed.

(** One operation is copied, unless it is [OP_CODESEPARATOR]. *)
Lemma remove_chunk f c rest :
  op_chunk c ->
  remove_codeseparators_loop (S f) (c ++ rest) =
    (if decide (c = [0xab]) then [] else c) ++ remove_codeseparators_loop f rest.
Proof.
  assert (Hpush : forall op r extra, op <> 0xab -> head_of op ((op :: r) ++ rest) = PushHead extra (len (op :: r) - 1 - extra) ->
    remove_codeseparators_loop (S f) ((op :: r) ++ rest) =
      (if decide (op :: r = [0xab]) then [] else op :: r) ++ remove_codeseparators_loop f rest).
  { intros op r extra Hop Hh. destruct (decide _) as [Heq|_]; [congruence|].
    exact (remove_push f op (r ++ rest) (op :: r) rest extra eq_refl Hh). }
  intros [op Hop|data Hd|data Hd|data Hd|data Hd].
  - cbn [remove_codeseparators_loop app]. unfold head_of. rewrite in_range_false by lia.
    destruct (Z.eqb_spec op 0x4c), (Z.eqb_spec op 0x4d), (Z.eqb_spec op 0x4e); try lia.
    destruct (Z.eqb_spec op 0xab) as [->|Hne], (decide _) as [Heq|Hne']; try done; congruence.
  - apply (Hpush _ _ 0); [lia|]. unfold head_of. rewrite (proj2 (in_range_spec _ _ _)) by lia.
    f_equal. rewrite len_cons. lia.
  - pose proof (len_nonneg data). apply (Hpush _ _ 1); [lia|].
    unfold head_of. cbn [app]. rewrite !len_cons, len_app. cbn -[Z.add len].
    destruct (Z.geb_spec 1 (1 + (1 + (len data + len rest)))); [pose proof (len_nonneg rest); lia|].
    f_equal. lia.
  - pose proof (len_nonneg data). apply (Hpush _ _ 2); [lia|].
    unfold head_of. cbn [app]. rewrite !len_cons, !len_app.
    change (len (to_le 2 (len data))) with 2.
    destruct (Z.geb_spec 2 (1 + (2 + len data + len rest))); [pose proof (len_nonneg rest); lia|].
    cbn [Z.eqb in_range]. cbn -[Z.add len from_le take to_le].
    rewrite drop_0, <- app_assoc, from_le_take; [f_equal; lia|]. unfold pow256. cbn. lia.
  - pose proof (len_nonneg data). apply (Hpush _ _ 4); [lia|].
    unfold head_of. cbn [app]. rewrite !len_cons, !len_app.
    change (len (to_le 4 (len data))) with 4.
    destruct (Z.geb_spec 4 (1 + (4 + len data + len rest))); [pose proof (len_nonneg rest); lia|].
    cbn -[Z.add len from_le take to_le].
    rewrite drop_0, <- app_assoc, from_le_take; [f_equal; lia|]. unfold pow256. cbn. lia.
Qed.

Lemma op_chunk_length c : op_chunk c -> (1 <= length c)%nat.
Proof. intros []; cbn; lia. Qed.

Lemma remove_chunks cs : Forall op_chunk cs -> forall f,
  (length (concat cs) <= f)%nat ->
  remove_codeseparators_loop f (concat cs) = concat (filter (fun c => c <> [0xab]) cs).
Proof.
  induction 1 as [|c cs Hc Hcs IH]; intros f Hf.
  - by destruct f.
  - pose proof (op_chunk_length c Hc). cbn [concat] in *. rewrite length_app in Hf.
    destruct f as [|f]; [lia|]. rewrite remove_chunk, IH by (done || lia).
    rewrite filter_cons. destruct (decide (c = [0xab])), (decide (c <> [0xab])); done.
Qed.

Lemma land_255 n k : 0 <= k -> u8 (Z.land (Z.shiftr n k) 0xff) = Z.shiftr n k mod 256.
Proof.
  intros Hk. change 0xff with (Z.ones 8). rewrite Z.land_ones by lia. unfold wrap.
  change (2 ^ 8) with 256. by rewrite Z.mod_mod by lia.
Qed.

Lemma serialize_script_push_chunk data : len data < 2 ^ 32 -> op_chunk (serialize_script_push data).
Proof.
  intros Hl. pose proof (len_nonneg data) as Hn. unfold serialize_script_push. cbv zeta.
  destruct (Z.ltb_spec (len data) 76); [|destruct (Z.ltb_spec (len data) 256)].
  - rewrite wrap_small by (unfold fits; lia). destruct data as [|b data]; [apply (chunk_other 0); lia|].
    apply chunk_direct. rewrite len_cons in *. pose proof (len_nonneg data). lia.
  - rewrite wrap_small by (unfold fits; lia). apply chunk_pushdata1. done.
  - change (Z.land (len data) 0xff) with (Z.land (Z.shiftr (len data) 0) 0xff).
    rewrite !land_255, !Z.shiftr_div_pow2 by lia. rewrite Z.div_1_r.
    destruct (Z.ltb_spec (len data) 65536).
    + apply (chunk_pushdata2 data). lia.
    + pose proof (chunk_pushdata4 data Hl) as Hc. cbn [to_le app] in Hc.
      rewrite !Z.div_div in Hc by lia. exact Hc.
Qed.

(** ** Counting *)

Section CountingFacts.
Context `{ScriptLib}.

Lemma sigop_steps_le l : forall ca cr last k,
  0 <= ca <= cr -> cr <= 20 * k -> 20 * (k + len l) < 2 ^ 32 ->
  let a := foldl (count_sigops_step true) (ca, last) l in
  let r := foldl (count_sigops_step false) (cr, last) l in
  0 <= fst a <= fst r /\ fst r <= 20 * (k + len l).
Proof.
  induction l as [|i l IH]; intros ca cr last k Hc Hk Hb; cbn [foldl]; cbv zeta.
  - rewrite len_nil in *. cbn. lia.
  - rewrite len_cons in Hb |- *. pose proof (len_nonneg l).
    destruct i as [d|op]; cbn [count_sigops_step].
    { destruct (IH ca cr 0 (k + 1)) as [? ?]; [lia..|]. split; lia. }
    destruct ((op =? 0xac) || (op =? 0xad)).
    { rewrite !wrap_small by (unfold fits; lia).
      destruct (IH (ca + 1) (cr + 1) op (k + 1)) as [? ?]; [lia..|]. split; lia. }
    destruct ((op =? 0xae) || (op =? 0xaf)); cycle 1.
    { destruct (IH ca cr op (k + 1)) as [? ?]; [lia..|]. split; lia. }
    cbn [andb]. rewrite (wrap_small 32 (cr + 20)) by (unfold fits; lia).
    destruct (in_range 0x51 0x60 last) eqn:Hr.
    + apply in_range_spec in Hr. rewrite wrap_small by (unfold fits; lia).
      destruct (IH (ca + (last - 0x50)) (cr + 20) op (k + 1)) as [? ?]; [lia..|]. split; lia.
    + rewrite wrap_small by (unfold fits; lia).
      destruct (IH (ca + 20) (cr + 20) op (k + 1)) as [? ?]; [lia..|]. split; lia.
Qed.
End CountingFacts.

(** A concrete instruction iterator, for examples. *)
Module SampleScript.

Fixpoint parse (fuel : nat) (s : bytes) : list (option Instruction) :=
  match fuel, s with
  | S f, op :: r =>
      match head_of op s with
      | TruncatedHead => [None]
      | OtherHead => Some (if op =? 0 then PushBytes [] else Op op) :: parse f r
      | PushHead extra payload =>
          if 1 + extra + payload >? len s then [None]
          else Some (PushBytes (take (Z.to_nat payload) (drop (Z.to_nat (1 + extra)) s)))
               :: parse f (drop (Z.to_nat (1 + extra + payload)) s)
      end
  | _, _ => []
  end.

Definition script_lib : ScriptLib := {|
  instructions := fun s => parse (length s) s;
  script_is_p2sh := is_p2sh;
  script_is_p2wpkh := fun s => (len s =? 22) && (byte_at s 0 =? 0) && (byte_at s 1 =? 20);
  script_is_p2wsh := fun s => (len s =? 34) && (byte_at s 0 =? 0) && (byte_at s 1 =? 32);
  script_is_op_return := fun s => byte_at s 0 =? 0x6a |}.

End SampleScript.

(** ** Theorems *)

(** on a script made of well-formed operations, [remove_codeseparators]
    removes exactly the [OP_CODESEPARATOR] operations: a [0xab] byte inside a
    push payload or a length is untouched, and every other operation is kept
    in place. *)
Theorem remove_codeseparators_exact (cs : list bytes) :
  Forall op_chunk cs ->
  remove_codeseparators (concat cs) = concat (filter (fun c => c <> [0xab]) cs).
Proof. intros Hcs. by apply remove_chunks. Qed.

(** A push of the byte [0xab] between two separators. *)
Lemma remove_codeseparators_exact_witness :
  Forall op_chunk [[0xab]; [0x01; 0xab]; [0xac]; [0xab]] /\
  remove_codeseparators [0xab; 0x01; 0xab; 0xac; 0xab] = [0x01; 0xab; 0xac].
Proof.
  assert (Hc : Forall op_chunk [[0xab]; [0x01; 0xab]; [0xac]; [0xab]]).
  { constructor; [apply chunk_other; lia|]. constructor; [apply (chunk_direct [0xab]); cbv [len length]; lia|].
    constructor; [apply chunk_other; lia|]. constructor; [apply chunk_other; lia|]. constructor. }
  split; [exact Hc|].
  exact (remove_codeseparators_exact [[0xab]; [0x01; 0xab]; [0xac]; [0xab]] Hc).
Defined.

(** the accurate signature-operation count never exceeds the rough one, and
    both are at most 20 per instruction, so neither wraps for any script that
    fits in a block. *)
Theorem count_sigops_accurate_le `{ScriptLib} (script : bytes) :
  20 * len (until_error (instructions script)) < 2 ^ 32 ->
  0 <= count_sigops script true <= count_sigops script false /\
  count_sigops script false <= 20 * len (until_error (instructions script)).
Proof.
  intros Hl. unfold count_sigops.
  pose proof (sigop_steps_le (until_error (instructions script)) 0 0 0 0) as Hs.
  cbv zeta in Hs. rewrite Z.add_0_l in Hs. apply Hs; lia.
Qed.

(** A 2-of-3 bare multisig counts 3 accurately and 20 roughly. *)
Lemma count_sigops_accurate_le_witness :
  let _ := SampleScript.script_lib in
  let script := [0x52; 0x01; 0x07; 0x01; 0x08; 0x01; 0x09; 0x53; 0xae] in
  count_sigops script true = 3 /\ count_sigops script false = 20 /\
  0 <= count_sigops script true <= count_sigops script false.
Proof.
  intros lib script. split; [reflexivity|]. split; [reflexivity|].
  apply (count_sigops_accurate_le script). vm_compute. reflexivity.
Defined.
