(* ===== verification/Signatures.v ===== *)
(** * Flags, signature checks and the signature cache

    The rule flags of a script verification ([ScriptFlags]), the ECDSA and
    Schnorr checks that the interpreters call, and the sharded cache of
    successful verifications ([SigCache]).  Everything is from
    [bitcoinpr-core/src/script.rs]; parsing and verifying a signature and
    computing a sighash are operations of [SigLib]. *)

From Stdlib Require Import ZArith Lia.
From stdpp Require Import base option numbers list gmap strings.
From S2P Require Import Prelude Bytes Types ScriptBytes.

(** Errors of this component carry the constant part of the message. *)
Definition bad_script {A} (msg : string) : CoreResult A := Err (InvalidScript msg).

(** [if cond { return Err(CoreError::InvalidScript(msg)) }] *)
Definition fail_if (b : bool) (msg : string) : CoreResult unit := guard_err b (InvalidScript msg).

(** [opt.map_err(|e| CoreError::InvalidScript(msg))?] *)
Definition or_bad {A} (o : option A) (msg : string) : CoreResult A := ok_or o (InvalidScript msg).

(** ** Flags *)

Record ScriptFlags := mkFlags {
  verify_p2sh : bool;
  verify_witness : bool;
  verify_strictenc : bool;
  verify_checklocktimeverify : bool;
  verify_checksequenceverify : bool;
  verify_taproot : bool;
  verify_nulldummy : bool;
  verify_bip110 : bool }.

#[global] Instance ScriptFlags_eq_dec : EqDecision ScriptFlags.
Proof. solve_decision. Defined.

Definition flags_all : ScriptFlags := mkFlags true true true true true true true false.
Definition flags_none : ScriptFlags := mkFlags false false false false false false false false.

Definition set_bip110 (f : ScriptFlags) (b : bool) : ScriptFlags :=
  mkFlags (verify_p2sh f) (verify_witness f) (verify_strictenc f)
    (verify_checklocktimeverify f) (verify_checksequenceverify f) (verify_taproot f)
    (verify_nulldummy f) b.

Definition flags_bits (f : ScriptFlags) : Z :=
  Z.lor (Z.lor (Z.lor (Z.lor (Z.lor (Z.lor (Z.lor
    (b2z (verify_p2sh f))
    (Z.shiftl (b2z (verify_witness f)) 1))
    (Z.shiftl (b2z (verify_strictenc f)) 2))
    (Z.shiftl (b2z (verify_checklocktimeverify f)) 3))
    (Z.shiftl (b2z (verify_checksequenceverify f)) 4))
    (Z.shiftl (b2z (verify_taproot f)) 5))
    (Z.shiftl (b2z (verify_bip110 f)) 6))
    (Z.shiftl (b2z (verify_nulldummy f)) 7).

Definition for_height (height block_time bip16_time segwit_height bip65_height csv_height
    bip66_height taproot_height : Z) : ScriptFlags := {|
  verify_p2sh := block_time >=? bip16_time;
  verify_witness := height >=? segwit_height;
  verify_strictenc := height >=? bip66_height;
  verify_checklocktimeverify := height >=? bip65_height;
  verify_checksequenceverify := height >=? csv_height;
  verify_taproot := height >=? taproot_height;
  verify_nulldummy := height >=? segwit_height;
  verify_bip110 := false |}.

(** ** ECDSA *)

Section Checks.
Context `{Hashes} `{SigLib}.

(** Everything before the last byte, and the last byte (the sighash type). *)
Definition split_sig (sig : bytes) : bytes * Z :=
  (take (length sig - 1) sig, default 0 (last sig)).

(** P2WPKH: strict DER, BIP 143 sighash of the implied script code. *)
Definition verify_ecdsa_signature (tx : Transaction) (input_index : nat) (amount : Z)
    (sig_bytes pubkey_bytes : bytes) : CoreResult unit :=
  _ ← fail_if (len sig_bytes =? 0) "empty signature";
  pubkey ← or_bad (pubkey_from_slice pubkey_bytes) "invalid pubkey";
  let '(sig_der, sighash_type_byte) := split_sig sig_bytes in
  let sighash_type := ecdsa_sighash_from_consensus sighash_type_byte in
  signature ← or_bad (ecdsa_from_der sig_der) "invalid DER signature";
  sighash ← or_bad (p2wpkh_signature_hash tx input_index
                      (new_p2wpkh (hash160 pubkey_bytes)) amount sighash_type) "sighash error";
  fail_if (negb (verify_ecdsa sighash signature pubkey)) "signature verification failed".

(** [OP_CHECKSIG] and its variants outside tapscript. *)
Definition check_sig (tx : Transaction) (input_index : nat) (amount : Z)
    (sig_data pubkey_data script_code : bytes) (flags : ScriptFlags) (segwit : bool) : bool :=
  if (len sig_data =? 0) || (len pubkey_data =? 0) then false
  else match pubkey_from_slice pubkey_data with
  | None => false
  | Some pubkey =>
      let '(sig_der, sighash_type_byte) := split_sig sig_data in
      match (if verify_strictenc flags then ecdsa_from_der sig_der else ecdsa_from_der_lax sig_der) with
      | None => false
      | Some sig =>
          let signature := normalize_s sig in
          let sighash_type := ecdsa_sighash_from_consensus sighash_type_byte in
          match (if segwit
                 then p2wsh_signature_hash tx input_index script_code amount sighash_type
                 else legacy_signature_hash tx input_index (remove_codeseparators script_code)
                        sighash_type_byte) with
          | None => false
          | Some sighash => verify_ecdsa sighash signature pubkey
          end
      end
  end.

(** ** Schnorr *)

Definition parse_schnorr_sig (sig_bytes : bytes) : CoreResult (SchnorrSignature * TapSighashType) :=
  if len sig_bytes =? 64 then
    sig ← or_bad (schnorr_from_slice sig_bytes) "invalid Schnorr signature";
    Ok (sig, tap_sighash_default)
  else if len sig_bytes =? 65 then
    sighash_type ← or_bad (tap_sighash_from_u8 (byte_at sig_bytes 64)) "invalid taproot sighash type";
    sig ← or_bad (schnorr_from_slice (take 64 sig_bytes)) "invalid Schnorr signature";
    Ok (sig, sighash_type)
  else if len sig_bytes =? 0 then bad_script "empty signature"
  else bad_script "invalid Schnorr signature length".

Definition verify_taproot_key_spend (tx : Transaction) (input_index : nat)
    (all_prevouts : list TxOut) (output_key : XOnlyPublicKey) (sig_bytes : bytes)
    (annex : option Annex) : CoreResult unit :=
  '(sig, sighash_type) ← parse_schnorr_sig sig_bytes;
  sighash ← or_bad (taproot_sighash tx input_index all_prevouts annex None sighash_type)
              "taproot sighash error";
  fail_if (negb (verify_schnorr sig sighash output_key)) "Schnorr signature verification failed".

Definition verify_taproot_script_sig (tx : Transaction) (input_index : nat)
    (all_prevouts : list TxOut) (pubkey : XOnlyPublicKey) (sig_bytes : bytes)
    (tap_leaf : TapLeafHash) (codesep_pos : Z) (annex : option Annex) : CoreResult unit :=
  '(sig, sighash_type) ← parse_schnorr_sig sig_bytes;
  sighash ← or_bad (taproot_sighash tx input_index all_prevouts annex
                      (Some (tap_leaf, codesep_pos)) sighash_type) "tapscript sighash error";
  fail_if (negb (verify_schnorr sig sighash pubkey)) "Schnorr signature verification failed".

Definition tapscript_check_sig (tx : Transaction) (input_index : nat)
    (all_prevouts : list TxOut) (sig_data pubkey_data : bytes)
    (tap_leaf : TapLeafHash) (codesep_pos : Z) (annex : option Annex) : bool :=
  if (len sig_data =? 0) || negb (len pubkey_data =? 32) then false
  else match xonly_from_slice pubkey_data with
  | None => false
  | Some pubkey =>
      is_ok (verify_taproot_script_sig tx input_index all_prevouts pubkey sig_data
               tap_leaf codesep_pos annex)
  end.
End Checks.

(** ** The signature cache

    A shard is a [HashSet<[u8; 40]>].  The order in which a [HashSet] is
    iterated is unspecified: [iter] stands for it, and it may depend on the
    set in any way as long as it lists the elements. *)

Section SigCache.
Context (iter : gset bytes -> list bytes).

Definition SIG_CACHE_SHARDS : Z := 64.

Record SigCache := mkSigCache { shards : list (gset bytes); max_per_shard : Z }.

Definition cache_new (max_size : Z) : SigCache :=
  mkSigCache (replicate (Z.to_nat SIG_CACHE_SHARDS) ∅) (Z.max (max_size / SIG_CACHE_SHARDS) 1).

Definition cache_key (wtxid : bytes) (input_index : Z) (flags : ScriptFlags) : bytes :=
  take 32 wtxid ++ to_le 4 (u32 input_index) ++ to_le 4 (flags_bits flags).

Definition shard_index (k : bytes) : nat := Z.to_nat (byte_at k 0 mod SIG_CACHE_SHARDS).
Definition shard (c : SigCache) (k : bytes) : gset bytes := default ∅ (shards c !! shard_index k).

Definition cache_contains (c : SigCache) (wtxid : bytes) (input_index : Z) (flags : ScriptFlags) : bool :=
  let k := cache_key wtxid input_index flags in bool_decide (k ∈ shard c k).

Definition cache_insert (c : SigCache) (wtxid : bytes) (input_index : Z) (flags : ScriptFlags) : SigCache :=
  let k := cache_key wtxid input_index flags in
  let set := shard c k in
  let set :=
    if Z.of_nat (size set) >=? max_per_shard c then
      let idx := from_le (take 4 (drop 1 k)) mod Z.of_nat (size set) in
      match iter set !! Z.to_nat idx with
      | Some victim => set ∖ {[ victim ]}
      | None => set
      end
    else set in
  mkSigCache (<[shard_index k := {[ k ]} ∪ set]> (shards c)) (max_per_shard c).

Definition cache_len (c : SigCache) : Z := foldr (fun s n => Z.of_nat (size s) + n) 0 (shards c).

Definition cache_clear (c : SigCache) : SigCache :=
  mkSigCache (map (fun _ => ∅) (shards c)) (max_per_shard c).

(** ** Facts *)

Lemma flags_bits_range f : 0 <= flags_bits f < 256.
Proof. destruct f as [[] [] [] [] [] [] [] []]; vm_compute; split; congruence. Qed.

Lemma flags_bits_inj f g : flags_bits f = flags_bits g -> f = g.
Proof.
  assert (Hbit : forall h,
    h = mkFlags (Z.testbit (flags_bits h) 0) (Z.testbit (flags_bits h) 1)
          (Z.testbit (flags_bits h) 2) (Z.testbit (flags_bits h) 3) (Z.testbit (flags_bits h) 4)
          (Z.testbit (flags_bits h) 5) (Z.testbit (flags_bits h) 7) (Z.testbit (flags_bits h) 6)).
  { intros [[] [] [] [] [] [] [] []]; reflexivity. }
  intros Heq. rewrite (Hbit f), (Hbit g), Heq. done.
Qed.

Lemma cache_key_inj w i f w' i' f' :
  length w = 32%nat -> length w' = 32%nat -> fits 32 i -> fits 32 i' ->
  cache_key w i f = cache_key w' i' f' -> w = w' /\ i = i' /\ f = f'.
Proof.
  intros Hw Hw' Hi Hi'. unfold cache_key. rewrite !take_ge by lia. rewrite !wrap_small by done.
  intros Heq. apply app_inj_1 in Heq as [Hww Heq]; [|lia].
  apply app_inj_1 in Heq as [Hii Hff]; [|by rewrite !length_to_le].
  split; [done|]. pose proof (flags_bits_range f). pose proof (flags_bits_range f').
  split.
  - apply (f_equal from_le) in Hii. rewrite !from_to_le_small in Hii by exact Hi || exact Hi'. done.
  - apply flags_bits_inj. apply (f_equal from_le) in Hff.
    rewrite !from_to_le_small in Hff by (unfold pow256; cbn; lia). done.
Qed.

Definition cache_wf (c : SigCache) : Prop :=
  length (shards c) = 64%nat /\ 1 <= max_per_shard c /\
  Forall (fun s => Z.of_nat (size s) <= max_per_shard c) (shards c).

Lemma shard_index_lt k : (shard_index k < 64)%nat.
Proof.
  unfold shard_index, SIG_CACHE_SHARDS. pose proof (Z.mod_pos_bound (byte_at k 0) 64). lia.
Qed.

(** What a shard contains after an insertion. *)
Lemma elem_of_shard_insert c w i f k :
  length (shards c) = 64%nat -> k ∈ shard (cache_insert c w i f) k ->
  k = cache_key w i f \/ k ∈ shard c k.
Proof.
  intros Hl. unfold shard at 1, cache_insert. cbn [shards max_per_shard].
  destruct (decide (shard_index (cache_key w i f) = shard_index k)) as [He|Hne].
  - rewrite He, list_lookup_insert_eq by (rewrite Hl; apply shard_index_lt). cbn [default].
    assert (Hs : shard c k = shard c (cache_key w i f)) by (unfold shard; by rewrite He).
    rewrite Hs. unfold id. destruct (_ >=? _); [destruct (iter _ !! _)|];
      rewrite elem_of_union, ?elem_of_difference, elem_of_singleton; tauto.
  - rewrite list_lookup_insert_ne by done. by right.
Qed.

Lemma cache_insert_contains c w i f :
  length (shards c) = 64%nat -> cache_contains (cache_insert c w i f) w i f = true.
Proof.
  intros Hl. unfold cache_contains. apply bool_decide_eq_true.
  unfold shard at 1, cache_insert. cbn [shards].
  rewrite list_lookup_insert_eq by (rewrite Hl; apply shard_index_lt). cbn [default]. set_solver.
Qed.

Context (iter_elements : forall s, iter s ≡ₚ elements s).

(** Evicting keeps a shard within its cap. *)
Lemma cache_insert_wf c w i f : cache_wf c -> cache_wf (cache_insert c w i f).
Proof.
  intros (Hl & Hm & Hc). set (k := cache_key w i f).
  assert (Hs : Z.of_nat (size (shard c k)) <= max_per_shard c).
  { unfold shard. destruct (shards c !! shard_index k) as [s|] eqn:Hk; cbn; [|rewrite size_empty; lia].
    apply (proj1 (Forall_lookup _ _) Hc _ _ Hk). }
  split_and!; [by cbn; rewrite length_insert|done|].
  change (max_per_shard (cache_insert c w i f)) with (max_per_shard c).
  apply Forall_insert; [done|]. fold k. cbv beta zeta.
  assert (Hadd : forall s : gset bytes, (size ({[k]} ∪ s) <= 1 + size s)%nat).
  { intros s. rewrite size_union_alt, size_singleton.
    pose proof (subseteq_size (s ∖ {[k]}) s (subseteq_difference_l _ _ _ (reflexivity s))). lia. }
  destruct (Z.geb_spec (Z.of_nat (size (shard c k))) (max_per_shard c)) as [Hge|Hlt];
    [|pose proof (Hadd (shard c k)); lia].
  set (idx := from_le (take 4 (drop 1 k)) mod Z.of_nat (size (shard c k))).
  assert (Hidx : 0 <= idx < Z.of_nat (size (shard c k))) by (apply Z.mod_pos_bound; lia).
  destruct (lookup_lt_is_Some_2 (iter (shard c k)) (Z.to_nat idx)) as [v Hv].
  { rewrite (iter_elements (shard c k)). change (length (elements (shard c k))) with (size (shard c k)). lia. }
  rewrite Hv. assert (Hin : v ∈ shard c k).
  { apply elem_of_elements. rewrite <- (iter_elements (shard c k)). by eapply list_elem_of_lookup_2. }
  pose proof (Hadd (shard c k ∖ {[v]})) as Ha.
  assert (size (shard c k ∖ {[v]}) = (size (shard c k) - 1)%nat).
  { rewrite size_difference, size_singleton; [done|]. by apply singleton_subseteq_l. }
  lia.
Qed.

(** Sequences of cache operations. *)
Inductive cache_op :=
| CInsert (wtxid : bytes) (input_index : Z) (flags : ScriptFlags)
| CClear.

Definition cache_step (c : SigCache) (o : cache_op) : SigCache :=
  match o with
  | CInsert w i f => cache_insert c w i f
  | CClear => cache_clear c
  end.

Definition cache_run (max_size : Z) (ops : list cache_op) : SigCache :=
  foldl cache_step (cache_new max_size) ops.

(** The arguments of an operation have their Rust types. *)
Definition cache_op_ok (o : cache_op) : Prop :=
  match o with CInsert w i _ => length w = 32%nat /\ fits 32 i | CClear => True end.

Lemma cache_clear_wf c : cache_wf c -> cache_wf (cache_clear c).
Proof.
  intros (Hl & Hm & _). split_and!; [by cbn; rewrite length_map|done|].
  cbn. apply Forall_map, Forall_true. intros s. cbn. rewrite size_empty. lia.
Qed.

Lemma cache_run_snoc max_size ops o :
  cache_run max_size (ops ++ [o]) = cache_step (cache_run max_size ops) o.
Proof. unfold cache_run. by rewrite foldl_app. Qed.

Lemma cache_run_wf max_size ops : cache_wf (cache_run max_size ops).
Proof.
  induction ops as [|o ops IH] using rev_ind.
  - split_and!; [done|cbn; lia|]. apply Forall_replicate. rewrite size_empty. cbn. lia.
  - rewrite cache_run_snoc. destruct o; [by apply cache_insert_wf|by apply cache_clear_wf].
Qed.

Lemma cache_run_contains max_size ops w i f :
  Forall cache_op_ok ops -> length w = 32%nat -> fits 32 i ->
  cache_contains (cache_run max_size ops) w i f = true ->
  exists pre post, ops = pre ++ CInsert w i f :: post /\ CClear ∉ post.
Proof.
  intros Hops Hw Hi. unfold cache_contains. rewrite bool_decide_eq_true.
  induction ops as [|o ops IH] using rev_ind; intros Hin.
  - exfalso. revert Hin. unfold shard. cbn [cache_run foldl cache_new shards].
    destruct (replicate _ _ !! _) eqn:Hr; [apply lookup_replicate in Hr as [-> _]|]; set_solver.
  - apply Forall_app in Hops as [Hops Ho]. apply Forall_cons in Ho as [Ho _]. rewrite cache_run_snoc in Hin.
    destruct o as [w' i' f'|]; cbn [cache_step] in Hin.
    + apply elem_of_shard_insert in Hin; [|apply cache_run_wf].
      destruct Hin as [Hk|Hin].
      * cbn [cache_op_ok] in Ho. destruct Ho as [Hw' Hi']. apply cache_key_inj in Hk as (-> & -> & ->); [|done..].
        exists ops, []. split; [done|]. apply not_elem_of_nil.
      * destruct (IH Hops Hin) as (pre & post & -> & Hno).
        exists pre, (post ++ [CInsert w' i' f']). rewrite <- app_assoc. split; [done|].
        rewrite elem_of_app, list_elem_of_singleton. by intros [|].
    + exfalso. revert Hin. unfold shard, cache_clear. cbn [shards].
      rewrite list_lookup_fmap. destruct (_ !! _); cbn; apply not_elem_of_empty.
Qed.
End SigCache.

(** ** Theorems *)

(** C19: the cache never vouches for a check that was not performed.  Whatever
    the iteration order of the hash sets and whatever was evicted, a hit for
    (wtxid, input, flags) means that exactly this triple was inserted after
    the last clear; and no shard exceeds its cap. *)
Theorem sigcache_sound (iter : gset bytes -> list bytes) (max_size : Z) (ops : list cache_op)
    (wtxid : bytes) (input_index : Z) (flags : ScriptFlags) :
  (forall s, iter s ≡ₚ elements s) ->
  Forall cache_op_ok ops -> length wtxid = 32%nat -> fits 32 input_index ->
  (cache_contains (cache_run iter max_size ops) wtxid input_index flags = true ->
   exists pre post, ops = pre ++ CInsert wtxid input_index flags :: post /\ CClear ∉ post) /\
  Forall (fun s => Z.of_nat (size s) <= Z.max (max_size / 64) 1) (shards (cache_run iter max_size ops)).
Proof.
  intros Hiter Hops Hw Hi. split; [by apply cache_run_contains|].
  destruct (cache_run_wf iter Hiter max_size ops) as (_ & _ & Hcap).
  assert (Hmax : max_per_shard (cache_run iter max_size ops) = Z.max (max_size / 64) 1).
  { induction ops as [|o ops IH] using rev_ind; [done|]. rewrite cache_run_snoc.
    apply Forall_app in Hops as [Hops _]. destruct (cache_run_wf iter Hiter max_size ops) as (_ & _ & Hc).
    destruct o; cbn; by apply IH. }
  by rewrite <- Hmax.
Qed.

(** One entry inserted under [flags_all]: a lookup under [flags_none] misses. *)
Lemma sigcache_sound_witness :
  let c := cache_run elements 64 [CClear; CInsert (replicate 32 7) 1 flags_all] in
  cache_contains c (replicate 32 7) 1 flags_all = true /\
  cache_contains c (replicate 32 7) 1 flags_none = false /\
  Forall (fun s => Z.of_nat (size s) <= Z.max (64 / 64) 1) (shards c).
Proof.
  intros c. split; [vm_compute; reflexivity|]. split; [vm_compute; reflexivity|].
  apply (sigcache_sound elements 64 [CClear; CInsert (replicate 32 7) 1 flags_all]
           (replicate 32 7) 1 flags_all).
  - intros s. reflexivity.
  - apply Forall_cons. split; [exact I|]. apply Forall_cons. split; [|apply Forall_nil; exact I].
    split; [reflexivity|]. unfold fits. lia.
  - reflexivity.
  - unfold fits. lia.
Defined.

(** a 65-byte Schnorr signature whose hash-type byte is [0x00] is accepted
    exactly when its 64-byte prefix is: the code does not reject the explicit
    default hash type, which BIP 341 makes invalid, so every default-type
    signature has a second valid encoding. *)
Theorem schnorr_explicit_default_accepted `{SigLib} (tx : Transaction) (input_index : nat)
    (all_prevouts : list TxOut) (key : XOnlyPublicKey) (sig : bytes) (annex : option Annex) :
  tap_sighash_from_u8 0 = Some tap_sighash_default ->
  len sig = 64 ->
  verify_taproot_key_spend tx input_index all_prevouts key (sig ++ [0]) annex =
  verify_taproot_key_spend tx input_index all_prevouts key sig annex.
Proof.
  intros Hdef Hlen. unfold verify_taproot_key_spend. f_equal. unfold parse_schnorr_sig.
  assert (Hl : length sig = 64%nat) by (unfold len in Hlen; lia).
  rewrite len_app, Hlen. cbn [Z.eqb Z.add len length Z.of_nat].
  change (64 + len [0] =? 64) with false. change (64 + len [0] =? 65) with true.
  change (64 =? 64) with true. cbn iota.
  unfold byte_at. rewrite lookup_app_r, Hl by lia. cbn [Nat.sub lookup list_lookup default].
  unfold id. rewrite Hdef, take_app_length' by lia. cbn [or_bad ok_or].
  unfold mbind, result_bind. by destruct (or_bad _ _).
Qed.

Lemma schnorr_explicit_default_accepted_witness :
  let _ := Sample.sig_lib in
  let tx := Sample.tx 0 0 [] [] in
  let key := replicate 32 5 : @XOnlyPublicKey Sample.sig_lib in
  verify_taproot_key_spend tx 0 [] key (replicate 64 5 ++ [0]) None = Ok tt.
Proof.
  intros lib tx key.
  rewrite (schnorr_explicit_default_accepted tx 0 [] key (replicate 64 5) None); reflexivity.
Defined.
