(* ===== verification/Opcodes.v ===== *)
(** * Script opcodes

    The opcode bodies of [bitcoinpr-core/src/script.rs] that work on the
    stacks alone.  A stack is the [Vec] of the code: its last element is the
    top.  The two interpreters of the source write these bodies twice; a body
    that is the same text in both is one definition here, and the dispatch
    tables of [Interp] and [Tapscript] follow their own source lines. *)

From Stdlib Require Import ZArith Lia.
From stdpp Require Import base option numbers list strings.
From S2P Require Import Prelude Bytes Types ScriptNum ScriptBytes Signatures.

(** The stacks of a running script. *)
Record machine := mkM {
  stack : list bytes;
  alt_stack : list bytes;
  exec_stack : list bool }.

Definition MAX_STACK_SIZE : Z := 1000.
Definition MAX_SCRIPT_ELEMENT_SIZE : Z := 520.
Definition MAX_SCRIPT_SIZE : Z := 10000.

Definition with_stack (m : machine) (s : list bytes) : machine :=
  mkM s (alt_stack m) (exec_stack m).

Definition with_exec (m : machine) (e : list bool) : machine :=
  mkM (stack m) (alt_stack m) e.

(** [exec_stack.iter().all(|&b| b)] *)
Definition executing (m : machine) : bool := forallb (fun b => b) (exec_stack m).

(** [stack.len() + alt_stack.len() > MAX_STACK_SIZE] *)
Definition stack_overflow (m : machine) : bool :=
  len (stack m) + len (alt_stack m) >? MAX_STACK_SIZE.

Definition stack_pop (s : list bytes) : CoreResult (bytes * list bytes) :=
  or_bad (vec_pop s) "stack underflow".

(** [vec![1]] or [vec![]] *)
Definition bool_item (b : bool) : bytes := if b then [1] else [].

(** [stack[i]], [stack.remove(i)] and [stack.swap(i, j)], used below a length
    guard that keeps the index in range. *)
Definition item (s : list bytes) (i : nat) : bytes := default [] (s !! i).
Definition remove_item (s : list bytes) (i : nat) : bytes * list bytes := (item s i, delete i s).
Definition swap_items (s : list bytes) (i j : nat) : list bytes :=
  <[i := item s j]> (<[j := item s i]> s).

(** ** Bodies on the main stack *)

Abbreviation stack_op := (list bytes -> CoreResult (list bytes)).

Definition op_push (x : bytes) : stack_op := fun s => Ok (s ++ [x]).

Definition op_verify : stack_op := fun s =>
  '(val, s) ← stack_pop s;
  _ ← fail_if (negb (cast_to_bool val)) "OP_VERIFY failed";
  Ok s.

Definition op_2drop : stack_op := fun s =>
  '(_, s) ← stack_pop s; '(_, s) ← stack_pop s; Ok s.

Definition op_2dup : stack_op := fun s =>
  let n := length s in
  _ ← fail_if (n <? 2)%nat "stack too small for 2DUP";
  Ok (s ++ [item s (n - 2)] ++ [item s (n - 1)]).

Definition op_3dup : stack_op := fun s =>
  let n := length s in
  _ ← fail_if (n <? 3)%nat "stack too small for 3DUP";
  Ok (s ++ [item s (n - 3)] ++ [item s (n - 2)] ++ [item s (n - 1)]).

Definition op_2over : stack_op := fun s =>
  let n := length s in
  _ ← fail_if (n <? 4)%nat "stack too small for 2OVER";
  Ok (s ++ [item s (n - 4)] ++ [item s (n - 3)]).

Definition op_2rot : stack_op := fun s =>
  let n := length s in
  _ ← fail_if (n <? 6)%nat "stack too small for 2ROT";
  let '(a, s) := remove_item s (n - 6) in
  let '(b, s) := remove_item s (n - 6) in
  Ok (s ++ [a] ++ [b]).

Definition op_2swap : stack_op := fun s =>
  let n := length s in
  _ ← fail_if (n <? 4)%nat "stack too small for 2SWAP";
  Ok (swap_items (swap_items s (n - 4) (n - 2)) (n - 3) (n - 1)).

Definition op_ifdup : stack_op := fun s =>
  top ← or_bad (last s) "empty stack";
  Ok (if cast_to_bool top then s ++ [top] else s).

Definition op_depth : stack_op := fun s => Ok (s ++ [encode_num (len s)]).

Definition op_drop : stack_op := fun s => '(_, s) ← stack_pop s; Ok s.

Definition op_dup (msg : string) : stack_op := fun s =>
  val ← or_bad (last s) msg;
  Ok (s ++ [val]).

Definition op_nip : stack_op := fun s =>
  let n := length s in
  _ ← fail_if (n <? 2)%nat "stack too small for NIP";
  Ok (snd (remove_item s (n - 2))).

Definition op_over : stack_op := fun s =>
  let n := length s in
  _ ← fail_if (n <? 2)%nat "stack too small for OVER";
  Ok (s ++ [item s (n - 2)]).

(** [n as usize] makes a negative index huge. *)
Definition op_pick : stack_op := fun s =>
  '(v, s) ← stack_pop s;
  k ← decode_num v;
  let n := usize k in
  _ ← fail_if (n >=? len s) "stack too small for PICK";
  Ok (s ++ [item s (length s - 1 - Z.to_nat n)]).

Definition op_roll : stack_op := fun s =>
  '(v, s) ← stack_pop s;
  k ← decode_num v;
  let n := usize k in
  _ ← fail_if (n >=? len s) "stack too small for ROLL";
  let '(val, s) := remove_item s (length s - 1 - Z.to_nat n) in
  Ok (s ++ [val]).

Definition op_rot : stack_op := fun s =>
  let n := length s in
  _ ← fail_if (n <? 3)%nat "stack too small for ROT";
  let '(val, s) := remove_item s (n - 3) in
  Ok (s ++ [val]).

Definition op_swap : stack_op := fun s =>
  let n := length s in
  _ ← fail_if (n <? 2)%nat "stack too small for SWAP";
  Ok (swap_items s (n - 1) (n - 2)).

Definition op_tuck : stack_op := fun s =>
  let n := length s in
  _ ← fail_if (n <? 2)%nat "stack too small for TUCK";
  Ok (vec_insert s (n - 2) (item s (n - 1))).

Definition op_size : stack_op := fun s =>
  top ← or_bad (last s) "empty stack for SIZE";
  Ok (s ++ [encode_num (len top)]).

Definition op_equal : stack_op := fun s =>
  '(b, s) ← stack_pop s;
  '(a, s) ← stack_pop s;
  Ok (s ++ [bool_item (bool_decide (a = b))]).

Definition op_equalverify : stack_op := fun s =>
  '(b, s) ← stack_pop s;
  '(a, s) ← stack_pop s;
  _ ← fail_if (negb (bool_decide (a = b))) "OP_EQUALVERIFY failed";
  Ok s.

(** [decode_num(&stack_pop(stack)?)?] *)
Definition pop_num (s : list bytes) : CoreResult (Z * list bytes) :=
  '(v, s) ← stack_pop s;
  n ← decode_num v;
  Ok (n, s).

Definition op_unary (f : Z -> Z) : stack_op := fun s =>
  '(a, s) ← pop_num s;
  Ok (s ++ [encode_num (f a)]).

Definition op_binary (f : Z -> Z -> Z) : stack_op := fun s =>
  '(b, s) ← pop_num s;
  '(a, s) ← pop_num s;
  Ok (s ++ [encode_num (f a b)]).

(** The tapscript [OP_NUMEQUAL] pushes the item directly. *)
Definition op_numequal_item : stack_op := fun s =>
  '(b, s) ← pop_num s;
  '(a, s) ← pop_num s;
  Ok (s ++ [bool_item (a =? b)]).

Definition op_numequalverify : stack_op := fun s =>
  '(b, s) ← pop_num s;
  '(a, s) ← pop_num s;
  _ ← fail_if (negb (a =? b)) "OP_NUMEQUALVERIFY failed";
  Ok s.

Definition op_within : stack_op := fun s =>
  '(max, s) ← pop_num s;
  '(min, s) ← pop_num s;
  '(x, s) ← pop_num s;
  Ok (s ++ [encode_num (b2z ((x >=? min) && (x <? max)))]).

Definition op_hash (h : bytes -> bytes) : stack_op := fun s =>
  '(data, s) ← stack_pop s;
  Ok (s ++ [h data]).

(** ** Locktime bodies *)

(** [tx.input[input_index].sequence.0] *)
Definition input_sequence (tx : Transaction) (input_index : nat) : Z :=
  match input tx !! input_index with Some i => sequence i | None => 0 end.

Definition op_checklocktimeverify (tx : Transaction) (input_index : nat) : stack_op := fun s =>
  top ← or_bad (last s) "empty stack for CLTV";
  locktime ← decode_num_bounded top 5;
  _ ← fail_if (locktime <? 0) "negative locktime";
  let locktime := u64 locktime in
  let tx_locktime := lock_time tx in
  _ ← fail_if (negb (Bool.eqb (locktime >=? 500000000) (tx_locktime >=? 500000000)))
        "CLTV: locktime type mismatch";
  _ ← fail_if (locktime >? tx_locktime) "CLTV: locktime > tx locktime";
  _ ← fail_if (input_sequence tx input_index =? 0xffffffff) "CLTV: input sequence is final";
  Ok s.

(** [v & (1 << k) != 0] *)
Definition has_bit (v k : Z) : bool := negb (Z.land v (Z.shiftl 1 k) =? 0).

Definition op_checksequenceverify (tx : Transaction) (input_index : nat) : stack_op := fun s =>
  top ← or_bad (last s) "empty stack for CSV";
  sequence ← decode_num_bounded top 5;
  _ ← fail_if (sequence <? 0) "negative sequence";
  let sequence := u32 sequence in
  if has_bit sequence 31 then Ok s
  else
    let tx_sequence := input_sequence tx input_index in
    _ ← fail_if (has_bit tx_sequence 31) "CSV: tx sequence has disable flag";
    _ ← fail_if (negb (Bool.eqb (has_bit sequence 22) (has_bit tx_sequence 22)))
          "CSV: sequence type mismatch";
    _ ← fail_if (Z.land sequence 0xffff >? Z.land tx_sequence 0xffff) "CSV: required > tx sequence";
    Ok s.

(** ** Dispatch

    [match op_byte { lo..=hi => .. }]: an arm covers a range of opcodes. *)
Record arm (A : Type) := Arm { arm_lo : Z; arm_hi : Z; arm_body : Z -> A }.
Arguments Arm {A}.
Arguments arm_lo {A}.
Arguments arm_hi {A}.
Arguments arm_body {A}.

Definition case {A} (op : Z) (f : A) : arm A := Arm op op (fun _ => f).

Fixpoint dispatch {A} (op : Z) (arms : list (arm A)) : option A :=
  match arms with
  | [] => None
  | a :: r => if in_range (arm_lo a) (arm_hi a) op then Some (arm_body a op) else dispatch op r
  end.

Abbreviation machine_op := (machine -> CoreResult machine).

Definition on_stack (f : stack_op) : machine_op := fun m =>
  s ← f (stack m); Ok (with_stack m s).

Definition op_toaltstack : machine_op := fun m =>
  '(val, s) ← stack_pop (stack m);
  Ok (mkM s (alt_stack m ++ [val]) (exec_stack m)).

Definition op_fromaltstack : machine_op := fun m =>
  '(val, alt) ← or_bad (vec_pop (alt_stack m)) "alt stack empty";
  Ok (mkM (stack m ++ [val]) alt (exec_stack m)).

Definition op_return : machine_op := fun _ => bad_script "OP_RETURN".

Definition op_nop : machine_op := fun m => Ok m.

(** The property [P] of every arm's body holds of the body dispatched to. *)
Lemma dispatch_arms {A} (P : Z -> A -> Prop) (arms : list (arm A)) op a :
  Forall (fun x => forall o, arm_lo x <= o <= arm_hi x -> P o (arm_body x o)) arms ->
  dispatch op arms = Some a -> P op a.
Proof.
  induction 1 as [|x r Hx Hr IH]; cbn; [done|].
  destruct (in_range (arm_lo x) (arm_hi x) op) eqn:Hin; [|done].
  intros [= <-]. by apply Hx, in_range_spec.
Qed.

Lemma dispatch_app {A} op (a b : list (arm A)) :
  dispatch op (a ++ b) = match dispatch op a with Some x => Some x | None => dispatch op b end.
Proof. induction a as [|x a IH]; cbn; [done|]. by destruct (in_range _ _ op). Qed.

(** Two tables with the same opcodes and related bodies. *)
Definition arms_rel {A B} (R : A -> B -> Prop) (a : arm A) (b : arm B) : Prop :=
  arm_lo a = arm_lo b /\ arm_hi a = arm_hi b /\
  forall op, arm_lo a <= op <= arm_hi a -> R (arm_body a op) (arm_body b op).

Lemma case_rel {A B} (R : A -> B -> Prop) op (a : A) (b : B) :
  R a b -> arms_rel R (case op a) (case op b).
Proof. by intros HR. Qed.

Lemma dispatch_rel {A B} (R : A -> B -> Prop) op (l : list (arm A)) (l' : list (arm B)) :
  Forall2 (arms_rel R) l l' -> option_Forall2 R (dispatch op l) (dispatch op l').
Proof.
  induction 1 as [|a b l l' (Hlo & Hhi & Hb) Hl IH]; cbn; [constructor|].
  rewrite <- Hlo, <- Hhi. destruct (in_range (arm_lo a) (arm_hi a) op) eqn:Hr; [|done].
  constructor. by apply Hb, in_range_spec.
Qed.
