(* ===== verification/Interp.v ===== *)
(** * The legacy and SegWit v0 interpreter

    [execute_script_inner] of [bitcoinpr-core/src/script.rs] with its wrappers
    [execute_script] and [execute_script_segwit]: one definition per group of
    opcode arms, the step of the instruction loop, and the loop. *)

From Stdlib Require Import ZArith Lia.
From stdpp Require Import base option numbers list strings.
From S2P Require Import Prelude Bytes Types ScriptNum ScriptBytes Signatures Opcodes.

Definition BIP110_MAX_PUSH_SIZE : Z := 256.

(** The variables of the loop: the stacks, the opcode count, the start of the
    current script code and the read position. *)
Record istate := mkI {
  im : machine;
  op_count : Z;
  codesep_pos : Z;
  byte_pos : Z }.

Definition set_machine (st : istate) (m : machine) : istate :=
  mkI m (op_count st) (codesep_pos st) (byte_pos st).
Definition set_op_count (st : istate) (n : Z) : istate :=
  mkI (im st) n (codesep_pos st) (byte_pos st).

(** The size the loop assumes an instruction to have. *)
Definition advance (i : Instruction) : Z :=
  match i with
  | PushBytes data =>
      let n := len data in
      if n =? 0 then 1 else if n <=? 75 then 1 + n else if n <=? 255 then 2 + n
      else if n <=? 65535 then 3 + n else 5 + n
  | Op _ => 1
  end.

(** [OP_IF] .. [OP_ENDIF], handled whether or not the branch executes. *)
Definition flow_arms : list (arm machine_op) :=
  [ case 0x63 (fun m =>
      if executing m then
        '(val, s) ← stack_pop (stack m);
        Ok (mkM s (alt_stack m) (exec_stack m ++ [cast_to_bool val]))
      else Ok (with_exec m (exec_stack m ++ [false])));
    case 0x64 (fun m =>
      if executing m then
        '(val, s) ← stack_pop (stack m);
        Ok (mkM s (alt_stack m) (exec_stack m ++ [negb (cast_to_bool val)]))
      else Ok (with_exec m (exec_stack m ++ [false])));
    case 0x67 (fun m =>
      match vec_pop (exec_stack m) with
      | Some (b, e) => Ok (with_exec m (e ++ [negb b]))
      | None => bad_script "OP_ELSE without OP_IF"
      end);
    case 0x68 (fun m =>
      match vec_pop (exec_stack m) with
      | Some (_, e) => Ok (with_exec m e)
      | None => bad_script "OP_ENDIF without OP_IF"
      end) ].

(** Push-number opcodes and stack manipulation, up to [OP_DEPTH]. *)
Definition push_arms : list (arm machine_op) :=
  [ case 0x00 (on_stack (op_push []));
    case 0x4f (on_stack (op_push [0x81]));
    Arm 0x51 0x60 (fun op_byte => on_stack (op_push [op_byte - 0x50])) ].

Definition stack_arms_1 : list (arm machine_op) :=
  [ case 0x69 (on_stack op_verify);
    case 0x6a op_return;
    case 0x6b op_toaltstack;
    case 0x6c op_fromaltstack;
    case 0x6d (on_stack op_2drop);
    case 0x6e (on_stack op_2dup);
    case 0x6f (on_stack op_3dup);
    case 0x70 (on_stack op_2over);
    case 0x71 (on_stack op_2rot);
    case 0x72 (on_stack op_2swap);
    case 0x73 (on_stack op_ifdup);
    case 0x74 (on_stack op_depth) ].

Definition stack_arms_2 : list (arm machine_op) :=
  [ case 0x75 (on_stack op_drop);
    case 0x76 (on_stack (op_dup "empty stack for DUP"));
    case 0x77 (on_stack op_nip);
    case 0x78 (on_stack op_over);
    case 0x79 (on_stack op_pick);
    case 0x7a (on_stack op_roll);
    case 0x7b (on_stack op_rot);
    case 0x7c (on_stack op_swap);
    case 0x7d (on_stack op_tuck);
    case 0x82 (on_stack op_size);
    case 0x87 (on_stack op_equal);
    case 0x88 (on_stack op_equalverify) ].

(** [if c { 1 } else { 0 }] is [b2z]. *)
Definition arith_arms : list (arm machine_op) :=
  [ case 0x8b (on_stack (op_unary (fun a => a + 1)));
    case 0x8c (on_stack (op_unary (fun a => a - 1)));
    case 0x8f (on_stack (op_unary (fun a => - a)));
    case 0x90 (on_stack (op_unary (fun a => Z.abs a)));
    case 0x91 (on_stack (op_unary (fun a => b2z (a =? 0))));
    case 0x92 (on_stack (op_unary (fun a => b2z (negb (a =? 0)))));
    case 0x93 (on_stack (op_binary (fun a b => a + b)));
    case 0x94 (on_stack (op_binary (fun a b => a - b)));
    case 0x9a (on_stack (op_binary (fun a b => b2z (negb (a =? 0) && negb (b =? 0)))));
    case 0x9b (on_stack (op_binary (fun a b => b2z (negb (a =? 0) || negb (b =? 0)))));
    case 0x9c (on_stack (op_binary (fun a b => b2z (a =? b))));
    case 0x9d (on_stack op_numequalverify);
    case 0x9e (on_stack (op_binary (fun a b => b2z (negb (a =? b)))));
    case 0x9f (on_stack (op_binary (fun a b => b2z (a <? b))));
    case 0xa0 (on_stack (op_binary (fun a b => b2z (a >? b))));
    case 0xa1 (on_stack (op_binary (fun a b => b2z (a <=? b))));
    case 0xa2 (on_stack (op_binary (fun a b => b2z (a >=? b))));
    case 0xa3 (on_stack (op_binary (fun a b => Z.min a b)));
    case 0xa4 (on_stack (op_binary (fun a b => Z.max a b)));
    case 0xa5 (on_stack op_within) ].

Section Interp.
Context `{Hashes} `{ScriptLib} `{SigLib}.

Definition hash_arms : list (arm machine_op) :=
  [ case 0xa6 (on_stack (op_hash ripemd160));
    case 0xa7 (on_stack (op_hash sha1));
    case 0xa8 (on_stack (op_hash sha256));
    case 0xa9 (on_stack (op_hash hash160));
    case 0xaa (on_stack (op_hash sha256d)) ].

(** The arguments of [execute_script_inner] that do not change. *)
Record ienv := mkEnv {
  e_script : bytes;
  e_tx : Transaction;
  e_input : nat;
  e_amount : Z;
  e_flags : ScriptFlags;
  e_segwit : bool }.

Section WithEnv.
Context (env : ienv).

(** The lock-time opcodes are no-ops without their flag. *)
Definition locktime_arms : list (arm machine_op) :=
  [ case 0xb1 (fun m =>
      if verify_checklocktimeverify (e_flags env)
      then on_stack (op_checklocktimeverify (e_tx env) (e_input env)) m else Ok m);
    case 0xb2 (fun m =>
      if verify_checksequenceverify (e_flags env)
      then on_stack (op_checksequenceverify (e_tx env) (e_input env)) m else Ok m) ].

Definition nop_arms : list (arm machine_op) :=
  [ case 0x61 op_nop; case 0xb0 op_nop; Arm 0xb3 0xb9 (fun _ => op_nop) ].

(** [script_bytes[codesep_pos..]] *)
Definition script_code (st : istate) : bytes := drop (Z.to_nat (codesep_pos st)) (e_script env).

Definition run_check_sig (sig key code : bytes) : bool :=
  check_sig (e_tx env) (e_input env) (e_amount env) sig key code (e_flags env) (e_segwit env).

(** The script code of [OP_CHECKSIG]: the signature's push is deleted in
    legacy scripts. *)
Definition checksig_code (st : istate) (sig_data : bytes) : bytes :=
  if negb (e_segwit env) && negb (len sig_data =? 0)
  then find_and_delete (script_code st) (serialize_script_push sig_data)
  else script_code st.

Definition op_checksig (st : istate) : CoreResult istate :=
  '(pubkey_data, s) ← stack_pop (stack (im st));
  '(sig_data, s) ← stack_pop s;
  let result := run_check_sig sig_data pubkey_data (checksig_code st sig_data) in
  Ok (set_machine st (with_stack (im st) (s ++ [bool_item result]))).

Definition op_checksigverify (st : istate) : CoreResult istate :=
  '(pubkey_data, s) ← stack_pop (stack (im st));
  '(sig_data, s) ← stack_pop s;
  _ ← fail_if (negb (run_check_sig sig_data pubkey_data (checksig_code st sig_data)))
        "OP_CHECKSIGVERIFY failed";
  Ok (set_machine st (with_stack (im st) s)).

(** [for _ in 0..n { v.push(stack_pop(stack)?); }] *)
Fixpoint pop_n (n : nat) (s : list bytes) : CoreResult (list bytes * list bytes) :=
  match n with
  | O => Ok ([], s)
  | S n => '(x, s) ← stack_pop s; '(xs, s) ← pop_n n s; Ok (x :: xs, s)
  end.

(** The inner [while key_idx < n_keys] loop; the list is [keys[key_idx..]]. *)
Fixpoint next_key (check : bytes -> bool) (keys : list bytes) : option (list bytes) :=
  match keys with
  | [] => None
  | k :: r => if check k then Some r else next_key check r
  end.

(** The outer [for sig in &sigs] loop. *)
Fixpoint match_sigs (check : bytes -> bytes -> bool) (sigs keys : list bytes) : bool :=
  match sigs with
  | [] => true
  | sig :: r =>
      match next_key (check sig) keys with
      | Some keys => match_sigs check r keys
      | None => false
      end
  end.

(** [FindAndDelete] of every signature, in legacy scripts. *)
Definition multisig_code (st : istate) (sigs : list bytes) : bytes :=
  if e_segwit env then script_code st
  else foldl (fun sc sig => find_and_delete sc (serialize_script_push sig)) (script_code st) sigs.

(** The common text of [OP_CHECKMULTISIG] and [OP_CHECKMULTISIGVERIFY]: the
    outcome and the state with the arguments popped. *)
Definition multisig (dummy_msg : string) (st : istate) : CoreResult (bool * istate) :=
  '(k, s) ← pop_num (stack (im st));
  let n_keys := usize k in
  _ ← fail_if (n_keys >? 20) "too many keys";
  let count := u32 (op_count st + u32 n_keys) in
  _ ← fail_if (count >? 201) "op count exceeded";
  '(keys, s) ← pop_n (Z.to_nat n_keys) s;
  '(k, s) ← pop_num s;
  let n_sigs := usize k in
  _ ← fail_if (n_sigs >? n_keys) "more sigs than keys";
  '(sigs, s) ← pop_n (Z.to_nat n_sigs) s;
  '(dummy, s) ← stack_pop s;
  _ ← fail_if (verify_nulldummy (e_flags env) && negb (len dummy =? 0)) dummy_msg;
  let code := multisig_code st sigs in
  let success := match_sigs (fun sig key => run_check_sig sig key code) sigs keys in
  Ok (success, set_op_count (set_machine st (with_stack (im st) s)) count).

Definition op_checkmultisig (st : istate) : CoreResult istate :=
  '(success, st) ← multisig "BIP 147: CHECKMULTISIG dummy element must be empty (NULLDUMMY)" st;
  Ok (set_machine st (with_stack (im st) (stack (im st) ++ [bool_item success]))).

Definition op_checkmultisigverify (st : istate) : CoreResult istate :=
  '(success, st) ← multisig "BIP 147: CHECKMULTISIGVERIFY dummy element must be empty (NULLDUMMY)" st;
  _ ← fail_if (negb success) "OP_CHECKMULTISIGVERIFY failed";
  Ok st.

Definition op_codeseparator (st : istate) : CoreResult istate :=
  Ok (mkI (im st) (op_count st) (byte_pos st) (byte_pos st)).

Definition sig_arms : list (arm (istate -> CoreResult istate)) :=
  [ case 0xac op_checksig;
    case 0xad op_checksigverify;
    case 0xae op_checkmultisig;
    case 0xaf op_checkmultisigverify;
    case 0xab op_codeseparator ].

(** The arms that only touch the stacks. *)
Definition machine_arms : list (arm machine_op) :=
  push_arms ++ stack_arms_1 ++ stack_arms_2 ++ arith_arms ++ hash_arms ++ locktime_arms ++ nop_arms.

(** An executed opcode. *)
Definition run_opcode (op_byte : Z) (st : istate) : CoreResult istate :=
  match dispatch op_byte machine_arms with
  | Some f => m ← f (im st); Ok (set_machine st m)
  | None =>
      match dispatch op_byte sig_arms with
      | Some f => f st
      | None => bad_script "unsupported opcode"
      end
  end.

(** A data push. *)
Definition step_push (data : bytes) (st : istate) : CoreResult istate :=
  _ ← fail_if (len data >? MAX_SCRIPT_ELEMENT_SIZE) "push data size exceeds limit";
  _ ← fail_if (verify_bip110 (e_flags env) && (len data >? BIP110_MAX_PUSH_SIZE))
        "BIP-110: push exceeds limit";
  if executing (im st) then
    let m := with_stack (im st) (stack (im st) ++ [data]) in
    _ ← fail_if (stack_overflow m) "stack size exceeded";
    Ok (set_machine st m)
  else Ok st.

(** [if op_byte > 0x60 { op_count += 1; .. }] *)
Definition count_op (op_byte : Z) (st : istate) : CoreResult istate :=
  if op_byte >? 0x60 then
    let st := set_op_count st (u32 (op_count st + 1)) in
    _ ← fail_if (op_count st >? 201) "op count exceeded";
    Ok st
  else Ok st.

(** An opcode, executed or not. *)
Definition step_op (op_byte : Z) (st : istate) : CoreResult istate :=
  st ← count_op op_byte st;
  _ ← fail_if ((op_byte =? 0x65) || (op_byte =? 0x66)) "bad opcode";
  _ ← fail_if (is_disabled_opcode op_byte) "disabled opcode";
  match dispatch op_byte flow_arms with
  | Some f => m ← f (im st); Ok (set_machine st m)
  | None =>
      if negb (executing (im st)) then Ok st
      else
        st ← run_opcode op_byte st;
        _ ← fail_if (stack_overflow (im st)) "stack size exceeded";
        Ok st
  end.

(** One iteration of the loop. *)
Definition step (st : istate) (i : option Instruction) : CoreResult istate :=
  instruction ← or_bad i "script parse error";
  let st := mkI (im st) (op_count st) (codesep_pos st) (byte_pos st + advance instruction) in
  match instruction with
  | PushBytes data => step_push data st
  | Op op_byte => step_op op_byte st
  end.

Definition init_state (s : list bytes) : istate := mkI (mkM s [] []) 0 0 0.

(** The final stack, which the code leaves in its [&mut] argument. *)
Definition execute_script_inner (s : list bytes) : CoreResult (list bytes) :=
  _ ← fail_if (len (e_script env) >? MAX_SCRIPT_SIZE) "script size exceeds limit";
  st ← foldM step (init_state s) (instructions (e_script env));
  _ ← fail_if (negb (bool_decide (exec_stack (im st) = []))) "unbalanced IF/ENDIF";
  Ok (stack (im st)).
End WithEnv.

Definition execute_script (script : bytes) (s : list bytes) (tx : Transaction)
    (input_index : nat) (amount : Z) (flags : ScriptFlags) : CoreResult (list bytes) :=
  execute_script_inner (mkEnv script tx input_index amount flags false) s.

Definition execute_script_segwit (script : bytes) (s : list bytes) (tx : Transaction)
    (input_index : nat) (amount : Z) (flags : ScriptFlags) : CoreResult (list bytes) :=
  execute_script_inner (mkEnv script tx input_index amount flags true) s.
End Interp.
