(* ===== verification/InterpProofs.v ===== *)
(** * Properties of the legacy and SegWit v0 interpreter

    What a successful run of [execute_script_inner] implies about the script,
    the limits that hold throughout a run, the meaning of the control-flow and
    stack opcodes, the matching performed by [OP_CHECKMULTISIG], and the
    soft-fork property of the flags. *)

From Stdlib Require Import ZArith Lia.
From stdpp Require Import base option numbers list strings.
From S2P Require Import Prelude Bytes Types ScriptNum ScriptBytes Signatures Opcodes Interp.

(** ** Inversion of the helpers *)

Lemma fail_if_Ok b msg u : fail_if b msg = Ok u -> b = false.
Proof. apply guard_err_Ok. Qed.

Lemma fail_if_false b msg : b = false -> fail_if b msg = Ok tt.
Proof. by intros ->. Qed.

Lemma or_bad_Ok {A} (o : option A) msg a : or_bad o msg = Ok a -> o = Some a.
Proof. intros Ho. by apply ok_or_Ok in Ho. Qed.

Lemma stack_pop_Ok s x s' : stack_pop s = Ok (x, s') -> s = s' ++ [x].
Proof. intros Hp. by apply or_bad_Ok, vec_pop_inv in Hp. Qed.

Lemma stack_pop_snoc s x : stack_pop (s ++ [x]) = Ok (x, s).
Proof. unfold stack_pop. by rewrite vec_pop_snoc. Qed.

Lemma pop_num_Ok s n s' : pop_num s = Ok (n, s') -> exists x, s = s' ++ [x] /\ decode_num x = Ok n.
Proof.
  unfold pop_num. intros Hp. apply bind_Ok_inv in Hp as ([v t] & Hv & Hp). cbn in Hp.
  apply bind_Ok_inv in Hp as (k & Hk & Hp). injection Hp as -> ->.
  apply stack_pop_Ok in Hv. eauto.
Qed.

(** [run_inv] decomposes a successful run of an opcode body. *)
Ltac run_inv_step :=
  match goal with
  | H : fail_if _ _ = Ok _ |- _ => apply fail_if_Ok in H
  | H : or_bad _ _ = Ok _ |- _ => apply or_bad_Ok in H
  | H : stack_pop _ = Ok (_, _) |- _ => apply stack_pop_Ok in H
  | H : pop_num _ = Ok (_, _) |- _ => apply pop_num_Ok in H as (? & ? & ?)
  | H : bad_script _ = Ok _ |- _ => discriminate H
  | H : (let '(_, _) := ?p in _) = Ok _ |- _ =>
      let a := fresh "a" in let b := fresh "b" in destruct p as [a b]
  | _ => res_inv_step
  end.
Ltac run_inv := repeat (run_inv_step; cbn beta iota in *).

(** [each_arm Hs] proves a property of every stack opcode body, with [Hs] for
    the bodies that only touch the main stack, and leaves the others. *)
Ltac each_arm Hs :=
  unfold machine_arms, push_arms, stack_arms_1, stack_arms_2, arith_arms, hash_arms,
    locktime_arms, nop_arms;
  repeat (apply Forall_cons; split); try apply Forall_nil_2; cbn -[on_stack];
  intros o Ho m m' Hrun;
  try match type of Hrun with (if ?b then _ else _) = _ => destruct b eqn:? end;
  lazymatch type of Hrun with
  | on_stack ?g m = _ => try exact (Hs g m m' Hrun)
  | _ => unfold op_return, op_toaltstack, op_fromaltstack, op_nop in Hrun
  end.

(** ** What a successful script looks like *)

(** The nesting depth after an instruction; [None] is an [OP_ELSE] or
    [OP_ENDIF] outside any [OP_IF]. *)
Definition depth_after (d : nat) (i : Instruction) : option nat :=
  match i with
  | PushBytes _ => Some d
  | Op op =>
      if (op =? 0x63) || (op =? 0x64) then Some (S d)
      else if op =? 0x67 then match d with O => None | S _ => Some d end
      else if op =? 0x68 then match d with O => None | S d' => Some d' end
      else Some d
  end.

Fixpoint nesting (d : nat) (l : list Instruction) : option nat :=
  match l with
  | [] => Some d
  | i :: r => d' ← depth_after d i; nesting d' r
  end.

(** The opcodes that count towards the limit of 201. *)
Definition counted (i : Instruction) : bool :=
  match i with PushBytes _ => false | Op op => op >? 0x60 end.
Definition counted_ops (l : list Instruction) : Z := len (filter (fun i => counted i = true) l).

Lemma counted_ops_cons i l : counted_ops (i :: l) = b2z (counted i) + counted_ops l.
Proof.
  unfold counted_ops. rewrite filter_cons. destruct (decide (counted i = true)) as [Ht|Hf].
  - rewrite Ht, len_cons. done.
  - destruct (counted i); [done|]. cbn. lia.
Qed.

(** An instruction that no script may contain, executed or not. *)
Definition instruction_ok (bip110 : bool) (i : Instruction) : Prop :=
  match i with
  | PushBytes data => len data <= 520 /\ (bip110 = true -> len data <= 256)
  | Op op => op <> 0x65 /\ op <> 0x66 /\ is_disabled_opcode op = false
  end.

Record well_formed_script (bip110 : bool) (script : bytes) (items : list (option Instruction)) : Prop := {
  wf_size : len script <= 10000;
  wf_items : exists l, items = map Some l /\ Forall (instruction_ok bip110) l /\
                       counted_ops l <= 201 /\ nesting 0 l = Some 0%nat }.

Section Proofs.
Context `{Hashes} `{ScriptLib} `{SigLib}.
Context (env : ienv).

Abbreviation m_ops := (machine_arms env).

(** Opcode bodies leave the control-flow stack alone. *)
Lemma machine_arms_exec op f m m' :
  dispatch op m_ops = Some f -> f m = Ok m' -> exec_stack m' = exec_stack m.
Proof.
  intros Hd. revert m m'.
  apply (dispatch_arms (fun _ g => forall m m', g m = Ok m' -> exec_stack m' = exec_stack m) m_ops op f);
    [clear f op Hd|exact Hd].
  assert (Hs : forall g m m', on_stack g m = Ok m' -> exec_stack m' = exec_stack m).
  { unfold on_stack. intros. run_inv. done. }
  each_arm Hs; run_inv; done.
Qed.

Lemma multisig_Ok msg st b st' :
  0 <= op_count st <= 201 -> multisig env msg st = Ok (b, st') ->
  exec_stack (im st') = exec_stack (im st) /\ op_count st <= op_count st' <= 201.
Proof.
  unfold multisig. intros Hc Hrun. run_inv. bool_to_prop. cbn.
  split; [done|].
  match goal with
  | Hk : wrap 64 ?k <= 20 |- _ =>
      pose proof (wrap_fits 64 k ltac:(lia)) as Hf; unfold fits in Hf;
      rewrite (wrap_small 32 (usize k)) in * by (unfold fits; lia);
      rewrite (wrap_small 32 (op_count st + usize k)) in * by (unfold fits; lia)
  end. lia.
Qed.

Lemma run_opcode_Ok op st st' :
  0 <= op_count st <= 201 -> run_opcode env op st = Ok st' ->
  exec_stack (im st') = exec_stack (im st) /\ op_count st <= op_count st' <= 201.
Proof.
  unfold run_opcode. intros Hc.
  destruct (dispatch op m_ops) as [f|] eqn:Hd.
  { intros Hrun. run_inv. cbn. split; [by eapply machine_arms_exec|lia]. }
  destruct (dispatch op (sig_arms env)) as [f|] eqn:Hd'; [|done].
  intros Hrun. revert Hc Hrun.
  apply (dispatch_arms (fun _ g => 0 <= op_count st <= 201 -> g st = Ok st' ->
    exec_stack (im st') = exec_stack (im st) /\ op_count st <= op_count st' <= 201) (sig_arms env) op f);
    [clear f op Hd Hd'|exact Hd'].
  unfold sig_arms. repeat (apply Forall_cons; split); try apply Forall_nil_2; cbn; intros o _ Hc Hrun;
    unfold op_checksig, op_checksigverify, op_checkmultisig, op_checkmultisigverify, op_codeseparator in Hrun;
    run_inv; cbn; try (by split; [|lia]).
  all: match goal with Hm : multisig _ _ _ = Ok _ |- _ => exact (multisig_Ok _ _ _ _ Hc Hm) end.
Qed.

Lemma flow_arms_depth op f m m' :
  dispatch op flow_arms = Some f -> f m = Ok m' ->
  depth_after (length (exec_stack m)) (Op op) = Some (length (exec_stack m')).
Proof.
  intros Hd. revert m m'.
  apply (dispatch_arms (fun o g => forall m m', g m = Ok m' ->
    depth_after (length (exec_stack m)) (Op o) = Some (length (exec_stack m'))) flow_arms op f);
    [clear f op Hd|exact Hd].
  assert (Hsnoc : forall (e : list bool) b, length (e ++ [b]) = S (length e)).
  { intros. rewrite length_app. cbn. lia. }
  unfold flow_arms. repeat (apply Forall_cons; split); try apply Forall_nil_2; cbn -[depth_after];
    intros o Ho m m' Hrun; [assert (o = 0x63) as -> by lia|assert (o = 0x64) as -> by lia|
    assert (o = 0x67) as -> by lia|assert (o = 0x68) as -> by lia].
  1-2: destruct (executing m); run_inv; cbn; by rewrite Hsnoc.
  all: destruct (vec_pop (exec_stack m)) as [[b e]|] eqn:Hp; [|done];
    apply vec_pop_inv in Hp; injection Hrun as <-; cbn; by rewrite Hp, ?Hsnoc.
Qed.

Lemma no_flow_depth op d : dispatch op flow_arms = None -> depth_after d (Op op) = Some d.
Proof.
  unfold flow_arms. cbn [dispatch arm_lo arm_hi case]. unfold in_range, depth_after.
  repeat match goal with |- context [(?a <=? op) && (op <=? ?a)] =>
    destruct (Z.eqb_spec op a); [subst; cbn; done|];
    replace ((a <=? op) && (op <=? a)) with false by (symmetry; apply andb_false_iff; rewrite !Z.leb_gt; lia) end.
  done.
Qed.

Lemma step_Ok st i st' :
  0 <= op_count st <= 201 -> step env st i = Ok st' ->
  exists ins, i = Some ins /\ instruction_ok (verify_bip110 (e_flags env)) ins /\
    depth_after (length (exec_stack (im st))) ins = Some (length (exec_stack (im st'))) /\
    op_count st + b2z (counted ins) <= op_count st' <= 201.
Proof.
  intros Hc Hstep. unfold step in Hstep. run_inv. destruct x as [data|op]; eexists; (split; [done|]).
  - unfold step_push in Hstep. run_inv. bool_to_prop. unfold MAX_SCRIPT_ELEMENT_SIZE, BIP110_MAX_PUSH_SIZE in *.
    cbn [im] in Hstep. split.
    + split; [lia|]. intros H110. rewrite H110 in *. cbn in *. bool_to_prop. lia.
    + destruct (executing (im st)); run_inv; cbn; (split; [done|lia]).
  - unfold step_op in Hstep. run_inv. bool_to_prop. cbn [instruction_ok counted].
    assert (Hx : im x = im st /\ op_count x = op_count st + b2z (op >? 0x60) /\ op_count x <= 201).
    { unfold count_op in *. destruct (op >? 0x60); run_inv; cbn in *; [|split_and!; [done|lia..]].
      bool_to_prop. rewrite wrap_small in * by (unfold fits; lia). split_and!; [done|lia..]. }
    destruct Hx as (Him & Hcount & H201). split; [by split_and!|].
    destruct (dispatch op flow_arms) as [f|] eqn:Hd.
    + run_inv. cbn. rewrite Him in *. split; [by eapply flow_arms_depth|lia].
    + rewrite (no_flow_depth op _ Hd). rewrite Him in *.
      destruct (executing (im st)); cbn in Hstep; run_inv; [|rewrite Him; split; [done|lia]].
      match goal with Hr : run_opcode _ _ _ = Ok _ |- _ => apply run_opcode_Ok in Hr as [He Hcnt] end;
        [|destruct (op >? 0x60); cbn in *; lia].
      rewrite He, Him. split; [done|lia].
Qed.

Lemma run_Ok items : forall st st',
  0 <= op_count st <= 201 -> foldM (step env) st items = Ok st' ->
  exists l, items = map Some l /\ Forall (instruction_ok (verify_bip110 (e_flags env))) l /\
    nesting (length (exec_stack (im st))) l = Some (length (exec_stack (im st'))) /\
    op_count st + counted_ops l <= op_count st' <= 201.
Proof.
  induction items as [|i items IH]; intros st st' Hc Hrun; cbn in Hrun.
  - injection Hrun as <-. exists []. split_and!; try done; unfold counted_ops; rewrite ?len_nil; cbn; lia.
  - run_inv. match goal with Hs : step _ _ _ = Ok ?s |- _ => 
      pose proof (step_Ok _ _ _ Hc Hs) as (ins & -> & Hok & Hd & Hcnt); rename s into st1 end.
    destruct (IH st1 st') as (l & -> & Hl & Hn & Hcl); [destruct (counted ins); cbn in *; lia|done|].
    exists (ins :: l). split_and!; try done.
    + by constructor.
    + cbn. rewrite Hd. exact Hn.
    + rewrite counted_ops_cons. lia.
    + lia.
Qed.
End Proofs.

(** ** Limits

    A property [P] of stack items that holds of every item an opcode can
    create is kept by every opcode. *)

Section Items.
Context (P : bytes -> Prop).
Hypothesis P_bool : forall b, P (bool_item b).
Hypothesis P_num : forall v, P (encode_num v).
Hypothesis P_one : forall b, P [b].

Lemma P_item s i : Forall P s -> P (item s i).
Proof.
  intros Hs. unfold item. destruct (s !! i) eqn:Hi; cbn; [|apply (P_bool false)].
  by eapply Forall_lookup_1.
Qed.

Lemma P_last s x : Forall P s -> last s = Some x -> P x.
Proof. intros Hs Hl. apply last_Some in Hl as [l ->]. apply Forall_app in Hs as [_ Hx]. by inversion Hx. Qed.

Lemma Forall_snoc_iff (s : list bytes) x : Forall P (s ++ [x]) <-> Forall P s /\ P x.
Proof. rewrite Forall_app, Forall_cons, Forall_nil. tauto. Qed.

Definition keeps_items (f : stack_op) : Prop := forall s s', Forall P s -> f s = Ok s' -> Forall P s'.

Create HintDb items.
Hint Resolve P_item P_bool P_num P_one Forall_delete Forall_insert : items.

(** [items_inv] splits the hypothesis on the popped items. *)
Ltac items :=
  intros s s' Hs Hrun; unfold remove_item in Hrun; cbn [snd] in Hrun; run_inv; subst;
  repeat match goal with H : Forall P (_ ++ [_]) |- _ => apply Forall_snoc_iff in H as [? ?] end;
  unfold swap_items, vec_insert;
  rewrite ?Forall_app, ?Forall_cons, ?Forall_nil; split_and?; eauto 6 with items.

Lemma op_push_items x : P x -> keeps_items (op_push x).
Proof. intros Hx. unfold op_push. items. Qed.
Lemma op_verify_items : keeps_items op_verify.
Proof. unfold op_verify. items. Qed.
Lemma op_drops_items : keeps_items op_drop /\ keeps_items op_2drop /\ keeps_items op_nip.
Proof. split_and!; [unfold op_drop|unfold op_2drop|unfold op_nip]; items. Qed.
Lemma op_dups_items msg :
  keeps_items (op_dup msg) /\ keeps_items op_2dup /\ keeps_items op_3dup /\
  keeps_items op_2over /\ keeps_items op_over /\ keeps_items op_ifdup.
Proof.
  split_and!; [unfold op_dup|unfold op_2dup|unfold op_3dup|unfold op_2over|unfold op_over|unfold op_ifdup].
  all: items.
  - eauto using P_last.
  - destruct (cast_to_bool x); [|done]. apply Forall_snoc_iff. split; [done|eauto using P_last].
Qed.
Lemma op_moves_items :
  keeps_items op_2rot /\ keeps_items op_2swap /\ keeps_items op_rot /\ keeps_items op_swap /\ keeps_items op_tuck.
Proof.
  split_and!; [unfold op_2rot|unfold op_2swap|unfold op_rot|unfold op_swap|unfold op_tuck].
  all: items; try (by apply Forall_take); try (by apply Forall_drop).
  all: repeat (apply Forall_insert || apply P_item || apply Forall_delete); done.
Qed.
Lemma op_pick_roll_items : keeps_items op_pick /\ keeps_items op_roll.
Proof. split; [unfold op_pick|unfold op_roll]; items. Qed.
Lemma op_makes_items h :
  (forall x, P (h x)) ->
  keeps_items op_depth /\ keeps_items op_size /\ keeps_items op_equal /\ keeps_items op_equalverify /\
  keeps_items (op_hash h).
Proof.
  intros Hh. split_and!; [unfold op_depth|unfold op_size|unfold op_equal|unfold op_equalverify|unfold op_hash].
  all: items.
Qed.
Lemma op_arith_items f g :
  keeps_items (op_unary f) /\ keeps_items (op_binary g) /\ keeps_items op_numequal_item /\
  keeps_items op_numequalverify /\ keeps_items op_within.
Proof.
  split_and!; [unfold op_unary|unfold op_binary|unfold op_numequal_item|unfold op_numequalverify|unfold op_within].
  all: items.
Qed.
Lemma op_lock_items tx i : keeps_items (op_checklocktimeverify tx i) /\ keeps_items (op_checksequenceverify tx i).
Proof.
  split; [unfold op_checklocktimeverify|unfold op_checksequenceverify]; items.
  destruct (has_bit _ 31) in *; run_inv; done.
Qed.

Definition items_ok (m : machine) : Prop := Forall P (stack m) /\ Forall P (alt_stack m).

Lemma on_stack_items f m m' : keeps_items f -> items_ok m -> on_stack f m = Ok m' -> items_ok m'.
Proof. unfold on_stack. intros Hf [Hs Ha] Hrun. run_inv. split; cbn; [exact (Hf _ _ Hs Hb)|done]. Qed.

Lemma alt_ops_items m m' :
  items_ok m -> op_toaltstack m = Ok m' \/ op_fromaltstack m = Ok m' -> items_ok m'.
Proof.
  unfold op_toaltstack, op_fromaltstack, items_ok. intros [Hs Ha] [Hrun|Hrun]; run_inv; cbn in *.
  - rewrite Hb in Hs. rewrite Forall_snoc_iff in *. tauto.
  - apply vec_pop_inv in Hb. rewrite Hb in Ha. rewrite Forall_snoc_iff in *. tauto.
Qed.

Context `{Hashes} `{ScriptLib} `{SigLib}.
Hypothesis P_hash : forall x,
  P (ripemd160 x) /\ P (sha1 x) /\ P (sha256 x) /\ P (hash160 x) /\ P (sha256d x).

(** Closes a goal [keeps_items op]. *)
Ltac keeps :=
  solve [apply op_push_items; apply (P_bool false) || apply P_one || apply P_num
        |apply op_verify_items|apply op_drops_items|apply op_dups_items|apply (op_dups_items EmptyString)|apply op_moves_items
        |apply op_pick_roll_items
        |apply (op_makes_items (fun _ => bool_item false)); intros; apply P_bool
        |apply op_makes_items; apply P_hash
        |apply (op_arith_items (fun a => a))
        |apply (op_arith_items (fun a => a) (fun a _ => a))
        |apply op_arith_items; exact (fun a _ => a)
        |apply op_lock_items].

Lemma machine_arms_items env op f m m' :
  dispatch op (machine_arms env) = Some f -> items_ok m -> f m = Ok m' -> items_ok m'.
Proof.
  intros Hd. revert m m'.
  apply (dispatch_arms (fun _ g => forall m m', items_ok m -> g m = Ok m' -> items_ok m')
    (machine_arms env) op f); [clear f op Hd|exact Hd].
  unfold machine_arms, push_arms, stack_arms_1, stack_arms_2, arith_arms, hash_arms, locktime_arms, nop_arms.
  repeat (apply Forall_cons; split); try apply Forall_nil_2; cbn -[on_stack]; intros o Ho m m' Hm Hrun;
    try match type of Hrun with (if ?b then _ else _) = _ => destruct b end;
    lazymatch type of Hrun with
    | on_stack _ _ = _ => revert Hm Hrun; apply on_stack_items; keeps
    | op_toaltstack _ = _ => eapply alt_ops_items; [exact Hm|by left]
    | op_fromaltstack _ = _ => eapply alt_ops_items; [exact Hm|by right]
    | _ => unfold op_return, op_nop in Hrun; run_inv; done
    end.
Qed.

Lemma pop_n_Ok n : forall s xs s', pop_n n s = Ok (xs, s') -> s = s' ++ reverse xs /\ length xs = n.
Proof.
  induction n as [|n IH]; cbn; intros s xs s' Hp; run_inv; [by rewrite app_nil_r|].
  match goal with Hx : pop_n n _ = Ok _ |- _ => apply IH in Hx as [-> <-] end.
  rewrite reverse_cons, app_assoc. done.
Qed.

Lemma Forall_app_l (a b : list bytes) : Forall P (a ++ b) -> Forall P a.
Proof. intros Hf. by apply Forall_app in Hf as [? _]. Qed.

Lemma multisig_stack_ne env msg st b st' :
  multisig env msg st = Ok (b, st') ->
  (exists r, stack (im st) = stack (im st') ++ r /\ r <> []) /\ alt_stack (im st') = alt_stack (im st).
Proof.
  unfold multisig. intros Hrun. run_inv.
  repeat match goal with Hx : pop_n _ _ = Ok _ |- _ => apply pop_n_Ok in Hx as [? _] end.
  subst. cbn in *. split; [|done].
  match goal with Hx : stack (im st) = _ |- _ => rewrite Hx, <- !app_assoc end.
  eexists. split; [done|]. destruct b4; done.
Qed.

(** A signature opcode pops, and pushes at most one boolean. *)
Definition sig_effect (m m' : machine) : Prop :=
  alt_stack m' = alt_stack m /\
  exists s r, stack m = s ++ r /\
    (stack m' = s \/ exists b, stack m' = s ++ [bool_item b] /\ r <> []).

Lemma sig_arms_effect env op f st st' :
  dispatch op (sig_arms env) = Some f -> f st = Ok st' -> sig_effect (im st) (im st').
Proof.
  intros Hd. revert st st'.
  apply (dispatch_arms (fun _ g => forall st st', g st = Ok st' -> sig_effect (im st) (im st'))
    (sig_arms env) op f); [clear f op Hd|exact Hd].
  unfold sig_arms. repeat (apply Forall_cons; split); try apply Forall_nil_2; cbn; intros o _ st st' Hrun.
  - unfold op_checksig in Hrun. run_inv. split; [done|]. cbn. subst.
    rewrite <- app_assoc in *. exists b0, ([a0] ++ [a]). split; [exact Hb|]. right. eexists. split; [reflexivity|done].
  - unfold op_checksigverify in Hrun. run_inv. split; [done|]. cbn. subst.
    rewrite <- app_assoc in *. exists b0, ([a0] ++ [a]). split; [exact Hb|]. by left.
  - unfold op_checkmultisig in Hrun. run_inv. 
    match goal with Hm : multisig _ _ _ = Ok _ |- _ => apply multisig_stack_ne in Hm as ((r & Hr & Hne) & Ha) end.
    split; [done|]. cbn. eexists _, r. split; [exact Hr|]. right. eauto.
  - unfold op_checkmultisigverify in Hrun. run_inv.
    match goal with Hm : multisig _ _ _ = Ok _ |- _ => apply multisig_stack_ne in Hm as ((r & Hr & Hne) & Ha) end.
    split; [done|]. eexists _, _. eauto.
  - unfold op_codeseparator in Hrun. run_inv. split; [done|]. cbn. exists (stack (im st)), [].
    rewrite app_nil_r. eauto.
Qed.

Hypothesis P_push : forall data, len data <= 520 -> P data.

Definition limits_ok (m : machine) : Prop := items_ok m /\ len (stack m) + len (alt_stack m) <= 1000.

Lemma overflow_false m : stack_overflow m = false <-> len (stack m) + len (alt_stack m) <= 1000.
Proof. unfold stack_overflow, MAX_STACK_SIZE. rewrite Z.gtb_ltb, Z.ltb_ge. done. Qed.

Lemma flow_arms_limits op f m m' :
  dispatch op flow_arms = Some f -> limits_ok m -> f m = Ok m' -> limits_ok m'.
Proof.
  intros Hd. revert m m'.
  apply (dispatch_arms (fun _ g => forall m m', limits_ok m -> g m = Ok m' -> limits_ok m')
    flow_arms op f); [clear f op Hd|exact Hd].
  assert (Hpop : forall m e x s, limits_ok m -> stack m = s ++ [x] -> limits_ok (mkM s (alt_stack m) e)).
  { intros m e x s [[Hs Ha] Hl] He. rewrite He in *. apply Forall_app_l in Hs.
    rewrite len_app, len_cons, len_nil in Hl. split; [done|cbn; lia]. }
  unfold flow_arms. repeat (apply Forall_cons; split); try apply Forall_nil_2;
    cbn [arm_lo arm_hi arm_body case]; intros o _ m m' Hm Hrun;
    repeat case_match; run_inv; first [exact Hm|eauto].
Qed.

Lemma run_opcode_items env op st st' :
  items_ok (im st) -> run_opcode env op st = Ok st' -> items_ok (im st').
Proof.
  unfold run_opcode. intros Hm.
  destruct (dispatch op (machine_arms env)) as [f|] eqn:Hd.
  { intros Hrun. run_inv. cbn. by eapply machine_arms_items. }
  destruct (dispatch op (sig_arms env)) as [f|] eqn:Hd'; [|done].
  intros Hrun. destruct (sig_arms_effect _ _ _ _ _ Hd' Hrun) as (Ha & s & r & Hs & Hs').
  destruct Hm as [Hm1 Hm2]. rewrite Hs in Hm1. apply Forall_app_l in Hm1.
  split; [|by rewrite Ha]. destruct Hs' as [->|(b & -> & _)]; [done|]. apply Forall_snoc_iff. eauto.
Qed.

Lemma step_limits env st i st' :
  limits_ok (im st) -> step env st i = Ok st' -> limits_ok (im st').
Proof.
  intros Hm Hstep. unfold step in Hstep. run_inv. destruct x as [data|op].
  - unfold step_push in Hstep. run_inv. bool_to_prop. cbn [im] in Hstep.
    destruct (executing (im st)); run_inv; [|done]. cbn.
    match goal with Ho : stack_overflow _ = false |- _ => apply overflow_false in Ho end.
    destruct Hm as [[Hs Ha] _]. split; [|done]. split; [|done]. cbn. apply Forall_snoc_iff.
    split; [done|]. apply P_push. unfold MAX_SCRIPT_ELEMENT_SIZE in *. lia.
  - unfold step_op in Hstep. run_inv.
    assert (Him : im x = im st) by (unfold count_op in *; destruct (op >? 0x60); run_inv; done).
    destruct (dispatch op flow_arms) as [f|] eqn:Hd.
    { run_inv. cbn. rewrite Him in *. by eapply flow_arms_limits. }
    rewrite Him in Hstep. destruct (executing (im st)); cbn in Hstep; run_inv; [|by rewrite Him].
    match goal with Ho : stack_overflow _ = false |- _ => apply overflow_false in Ho end.
    split; [|done]. eapply run_opcode_items; [|done]. rewrite Him. apply Hm.
Qed.

Lemma run_limits env items st st' :
  limits_ok (im st) -> foldM (step env) st items = Ok st' -> limits_ok (im st').
Proof.
  intros Hm. apply (foldM_inv (fun s => limits_ok (im s))); [|done].
  intros s i s' Hs _. by apply step_limits.
Qed.
End Items.

Lemma encode_loop_length f a : (length (encode_loop f a) <= f)%nat.
Proof. revert a. induction f as [|f IH]; intros a; cbn; [lia|]. case_match; cbn; [|lia]. specialize (IH (Z.shiftr a 8)). lia. Qed.

Lemma encode_num_len v : len (encode_num v) <= 9.
Proof.
  unfold encode_num. destruct (v =? 0); [rewrite len_nil; lia|]. cbv zeta.
  pose proof (encode_loop_length 8 (Z.abs v)) as Hl.
  repeat case_match; unfold len; rewrite ?length_app, ?length_insert; cbn [length]; lia.
Qed.

(** An opcode that passes the checks made before the execution gate. *)
Lemma step_op_eq `{Hashes} `{ScriptLib} `{SigLib} (env : ienv) st op :
  instruction_ok false (Op op) -> 0 <= op_count st -> op_count st + b2z (op >? 0x60) <= 201 ->
  step_op env op st =
    match dispatch op flow_arms with
    | Some f => m ← f (im st); Ok (set_machine (set_op_count st (op_count st + b2z (op >? 0x60))) m)
    | None =>
        if negb (executing (im st)) then Ok (set_op_count st (op_count st + b2z (op >? 0x60)))
        else st ← run_opcode env op (set_op_count st (op_count st + b2z (op >? 0x60)));
             _ ← fail_if (stack_overflow (im st)) "stack size exceeded"; Ok st
    end.
Proof.
  intros (H65 & H66 & Hdis) Hpos Hc. unfold step_op.
  assert (Hcount : count_op op st = Ok (set_op_count st (op_count st + b2z (op >? 0x60)))).
  { unfold count_op. destruct (op >? 0x60); cbn [b2z] in *; [|rewrite Z.add_0_r; by destruct st].
    rewrite wrap_small by (unfold fits; lia). rewrite fail_if_false; [done|].
    cbn [set_op_count op_count]. rewrite Z.gtb_ltb. apply Z.ltb_ge. lia. }
  rewrite Hcount. cbn [mbind result_bind].
  rewrite (fail_if_false (_ || _)), Hdis by (apply orb_false_iff; by rewrite !Z.eqb_neq). done.
Qed.

(** ** Branches that are not taken *)

Section Skip.
Context `{Hashes} `{ScriptLib} `{SigLib}.
Context (env : ienv).

Abbreviation ok_here := (instruction_ok (verify_bip110 (e_flags env))).

Lemma executing_app m E X : exec_stack m = E ++ X -> forallb (fun b => b) E = false -> executing m = false.
Proof. intros He Hf. unfold executing. rewrite He, forallb_app, Hf. done. Qed.

(** The control-flow arms in a branch that is not executing. *)
Lemma flow_skip op f m E X d :
  dispatch op flow_arms = Some f -> exec_stack m = E ++ X -> forallb (fun b => b) E = false ->
  depth_after (length X) (Op op) = Some d ->
  exists X', f m = Ok (with_exec m (E ++ X')) /\ length X' = d.
Proof.
  intros Hd He HE. pose proof (executing_app m E X He HE) as Hx. revert d.
  apply (dispatch_arms (fun o g => forall d, depth_after (length X) (Op o) = Some d ->
    exists X', g m = Ok (with_exec m (E ++ X')) /\ length X' = d) flow_arms op f);
    [clear f op Hd|exact Hd].
  assert (Hlast : forall d, match length X with O => None | S _ => Some d end = Some (length X) \/
    (exists d', length X = S d') -> exists b e, X = e ++ [b]).
  { intros d Hl. destruct X as [|b e _] using rev_ind; [|eauto].
    destruct Hl as [?|[? ?]]; done. }
  unfold flow_arms. repeat (apply Forall_cons; split); try apply Forall_nil_2;
    cbn [arm_lo arm_hi arm_body case]; intros o Ho d Hdep; unfold depth_after in Hdep;
    [assert (o = 0x63) as -> by lia|assert (o = 0x64) as -> by lia|
     assert (o = 0x67) as -> by lia|assert (o = 0x68) as -> by lia]; cbn in Hdep.
  1-2: rewrite Hx, He, <- app_assoc; exists (X ++ [false]); rewrite length_app; cbn;
    split; [done|injection Hdep as <-; lia].
  all: destruct X as [|b X' _] using rev_ind; [done|];
    rewrite He, app_assoc, vec_pop_snoc, <- ?app_assoc; rewrite length_app in Hdep; cbn in Hdep;
    rewrite Nat.add_1_r in Hdep; injection Hdep as <-.
  - exists (X' ++ [negb b]). rewrite length_app. cbn. split; [done|lia].
  - exists X'. done.
Qed.

Lemma step_skip st i E X d :
  exec_stack (im st) = E ++ X -> forallb (fun b => b) E = false ->
  depth_after (length X) i = Some d -> ok_here i ->
  0 <= op_count st -> op_count st + b2z (counted i) <= 201 ->
  exists st' X', step env st (Some i) = Ok st' /\ im st' = with_exec (im st) (E ++ X') /\
    length X' = d /\ op_count st' = op_count st + b2z (counted i) /\
    codesep_pos st' = codesep_pos st.
Proof.
  intros He HE Hd Hok Hpos Hc. pose proof (executing_app _ E X He HE) as Hx.
  destruct i as [data|op]; unfold step; cbn [or_bad ok_or mbind result_bind].
  - cbn in Hd. injection Hd as <-. destruct Hok as [Hl Hb].
    exists (mkI (im st) (op_count st) (codesep_pos st) (byte_pos st + advance (PushBytes data))), X.
    unfold step_push, MAX_SCRIPT_ELEMENT_SIZE, BIP110_MAX_PUSH_SIZE.
    rewrite (fail_if_false (len data >? 520)) by (rewrite Z.gtb_ltb; by apply Z.ltb_ge).
    rewrite (fail_if_false (verify_bip110 _ && _)); cycle 1.
    { destruct (verify_bip110 (e_flags env)); [|done]. cbn. rewrite Z.gtb_ltb. apply Z.ltb_ge. auto. }
    cbn [mbind result_bind im]. rewrite Hx.
    cbn. rewrite <- He. split_and!; try done; [by destruct (im st)|lia].
  - destruct Hok as (H65 & H66 & Hdis). cbn [counted] in Hc |- *. unfold step_op.
    set (st0 := mkI (im st) (op_count st) (codesep_pos st) (byte_pos st + advance (Op op))).
    set (st1 := set_op_count st0 (op_count st + b2z (op >? 0x60))).
    assert (Hcount : count_op op st0 = Ok st1).
    { unfold count_op, st1. destruct (op >? 0x60); cbn [b2z] in *; [|by rewrite Z.add_0_r].
      cbn [op_count st0]. rewrite wrap_small by (unfold fits; lia).
      rewrite fail_if_false; [done|]. cbn. rewrite Z.gtb_ltb. apply Z.ltb_ge. lia. }
    rewrite Hcount. cbn [mbind result_bind].
    rewrite (fail_if_false (_ || _)), Hdis; cycle 1.
    { apply orb_false_iff. by rewrite !Z.eqb_neq. }
    cbn [fail_if guard_err mbind result_bind].
    destruct (dispatch op flow_arms) as [f|] eqn:Hf.
    + destruct (flow_skip op f (im st) E X d Hf He HE Hd) as (X' & Hrun & Hl).
      change (im st1) with (im st). rewrite Hrun. cbn [mbind result_bind].
      eexists _, X'. split; [done|]. cbn. done.
    + rewrite (no_flow_depth op (length X) Hf) in Hd. injection Hd as <-.
      change (im st1) with (im st). rewrite Hx. cbn [negb].
      exists st1, X. cbn. rewrite <- He. destruct (im st). done.
Qed.

(** A balanced piece of a branch that is not executing has no effect but on the
    opcode count. *)
Lemma run_skip body : forall st E X d,
  exec_stack (im st) = E ++ X -> forallb (fun b => b) E = false ->
  nesting (length X) body = Some d -> Forall ok_here body ->
  0 <= op_count st -> op_count st + counted_ops body <= 201 ->
  exists st' X', foldM (step env) st (map Some body) = Ok st' /\
    im st' = with_exec (im st) (E ++ X') /\ length X' = d /\
    op_count st' = op_count st + counted_ops body /\ codesep_pos st' = codesep_pos st.
Proof.
  induction body as [|i body IH]; intros st E X d He HE Hn Hok Hpos Hc.
  - cbn in Hn. injection Hn as <-. exists st, X. unfold counted_ops. cbn. rewrite <- He.
    split_and!; try done; [by destruct (im st)|rewrite len_nil; lia].
  - apply Forall_cons in Hok as [Hi Hok]. cbn [nesting] in Hn.
    destruct (depth_after (length X) i) as [d1|] eqn:Hd1; [|done]. cbn in Hn.
    assert (Hcnt : counted_ops (i :: body) = b2z (counted i) + counted_ops body).
    { apply counted_ops_cons. }
    assert (0 <= counted_ops body) by apply len_nonneg.
    destruct (step_skip st i E X d1) as (st1 & X1 & Hrun & Him & Hl1 & Ho1 & Hc1); [done..|lia|].
    subst d1. destruct (IH st1 E X1 d) as (st2 & X2 & Hrun2 & Him2 & Hl2 & Ho2 & Hc2);
      [by rewrite Him|done|done|done|destruct (counted i); cbn in *; lia|lia|].
    exists st2, X2. cbn [map foldM]. rewrite Hrun. cbn [mbind result_bind].
    split_and!; [done|by rewrite Him2, Him|done|lia|congruence].
Qed.

(** A control-flow opcode within the opcode limit. *)
Lemma step_flow st op f m :
  dispatch op flow_arms = Some f -> f (im st) = Ok m -> op = 0x63 \/ op = 0x64 \/ op = 0x67 \/ op = 0x68 ->
  0 <= op_count st < 201 ->
  exists st', step env st (Some (Op op)) = Ok st' /\ im st' = m /\ op_count st' = op_count st + 1.
Proof.
  intros Hd Hf Hop Hc. unfold step. cbn [or_bad ok_or mbind result_bind]. unfold step_op, count_op.
  assert (Hcases : (op >? 0x60) = true /\ (op =? 0x65) || (op =? 0x66) = false /\ is_disabled_opcode op = false).
  { destruct Hop as [->|[->|[->| ->]]]; done. }
  destruct Hcases as (-> & -> & ->). cbn [op_count]. rewrite wrap_small by (unfold fits; lia).
  rewrite (fail_if_false (_ >? 201)); cycle 1. { cbn [set_op_count op_count]. rewrite Z.gtb_ltb. apply Z.ltb_ge. lia. }
  cbn [mbind result_bind fail_if guard_err]. rewrite Hd. cbn [im set_op_count]. rewrite Hf.
  eexists. split; [done|]. done.
Qed.

Lemma run_app st l1 l2 st1 :
  foldM (step env) st (map Some l1) = Ok st1 ->
  foldM (step env) st (map Some (l1 ++ l2)) = foldM (step env) st1 (map Some l2).
Proof. intros Hrun. rewrite map_app, foldM_app, Hrun. done. Qed.

Lemma not_taken st E A :
  exec_stack (im st) = E ++ [false] -> nesting 0 A = Some 0%nat -> Forall ok_here A ->
  0 <= op_count st -> op_count st + counted_ops A <= 201 ->
  exists st', foldM (step env) st (map Some A) = Ok st' /\ im st' = im st /\
    op_count st' = op_count st + counted_ops A.
Proof.
  intros He Hn Hok Hpos Hc.
  destruct (run_skip A st (E ++ [false]) [] 0) as (st' & X & Hrun & Him & Hl & Ho & _);
    [by rewrite app_nil_r|rewrite forallb_app; apply andb_false_r|done..|].
  destruct X; [|done]. rewrite app_nil_r in Him. exists st'. split_and!; [done| |done].
  rewrite Him, <- He. by destruct (im st).
Qed.
End Skip.

(** ** Multisignature matching *)

Lemma next_key_sublist check keys rest :
  next_key check keys = Some rest ->
  exists pre k, keys = pre ++ k :: rest /\ check k = true /\ Forall (fun x => check x = false) pre.
Proof.
  revert rest. induction keys as [|k keys IH]; cbn; intros rest Hn; [done|].
  destruct (check k) eqn:Hc; [injection Hn as <-; by exists [], k|].
  destruct (IH rest Hn) as (pre & k' & -> & Hk & Hp). exists (k :: pre), k'.
  split_and!; [done|done|by constructor].
Qed.

Lemma next_key_None check keys : next_key check keys = None -> Forall (fun x => check x = false) keys.
Proof.
  induction keys as [|k keys IH]; cbn; [constructor|].
  destruct (check k) eqn:Hc; [done|]. constructor; auto.
Qed.

(** Dropping keys that do not match the first signature loses no assignment. *)
Lemma match_sigs_spec check sigs : forall keys,
  match_sigs check sigs keys = true <->
  exists ks, sublist ks keys /\ Forall2 (fun s k => check s k = true) sigs ks.
Proof.
  induction sigs as [|s sigs IH]; intros keys; cbn.
  - split; [intros _; exists []; split; [apply sublist_nil_l|constructor]|done].
  - split.
    + destruct (next_key (check s) keys) as [rest|] eqn:Hn; [|done]. intros Hm.
      apply IH in Hm as (ks & Hsub & Hf). apply next_key_sublist in Hn as (pre & k & -> & Hk & _).
      exists (k :: ks). split; [|by constructor]. by apply sublist_inserts_l, sublist_skip.
    + intros (ks & Hsub & Hf). inversion Hf as [|? k ? ks' Hk Hks]; subst.
      apply sublist_cons_l in Hsub as (pre & rest & -> & Hsub).
      assert (Hn : exists rest', next_key (check s) (pre ++ k :: rest) = Some rest' /\ sublist rest rest').
      { clear -Hk. induction pre as [|x pre IHp]; cbn.
        - rewrite Hk. by exists rest.
        - destruct (check s x); [|done]. eexists. split; [done|]. by apply sublist_inserts_l, sublist_cons. }
      destruct Hn as (rest' & -> & Hr). apply IH. exists ks'. split; [by etrans|done].
Qed.

(** ** Soft-fork flags

    [relaxes g f]: [g] enforces no more of the lock-time, NULLDUMMY and BIP-110
    rules than [f], and parses signatures in the same way. *)

Definition relaxes (g f : ScriptFlags) : Prop :=
  verify_strictenc g = verify_strictenc f /\
  (verify_checklocktimeverify g = true -> verify_checklocktimeverify f = true) /\
  (verify_checksequenceverify g = true -> verify_checksequenceverify f = true) /\
  (verify_nulldummy g = true -> verify_nulldummy f = true) /\
  (verify_bip110 g = true -> verify_bip110 f = true).

Section Relax.
Context `{Hashes} `{ScriptLib} `{SigLib}.

Definition with_flags (env : ienv) (f : ScriptFlags) : ienv :=
  mkEnv (e_script env) (e_tx env) (e_input env) (e_amount env) f (e_segwit env).

Context (env : ienv) (f g : ScriptFlags) (Hrel : relaxes g f).
Abbreviation ef := (with_flags env f).
Abbreviation eg := (with_flags env g).

Lemma check_sig_relax tx i amount sig key code segwit :
  check_sig tx i amount sig key code f segwit = check_sig tx i amount sig key code g segwit.
Proof. unfold check_sig. destruct Hrel as (-> & _). done. Qed.

Lemma guard_relax a b c msg u :
  (b = true -> a = true) -> fail_if (a && c) msg = Ok u -> fail_if (b && c) msg = Ok u.
Proof. destruct b; cbn; [intros Hab; rewrite Hab by done; done|]. destruct u. done. Qed.

Lemma match_sigs_ext c1 c2 sigs keys :
  (forall s k, c1 s k = c2 s k) -> match_sigs c1 sigs keys = match_sigs c2 sigs keys.
Proof.
  intros Hext. revert keys. induction sigs as [|s sigs IH]; intros keys; cbn; [done|].
  assert (Hn : forall ks, next_key (c1 s) ks = next_key (c2 s) ks).
  { induction ks as [|k ks IHk]; cbn; [done|]. by rewrite Hext, IHk. }
  rewrite Hn. destruct (next_key (c2 s) keys); [apply IH|done].
Qed.

(** Peels one bind off both sides; the first link is the same or a guard. *)
Ltac mono :=
  repeat first
  [ apply bind_mono; [first [by intros | intros ?; apply guard_relax; apply Hrel
                         | intros ?; by rewrite check_sig_relax]|]
  | intros [? ?] | intros ? ].

Lemma multisig_relax msg st r : multisig ef msg st = Ok r -> multisig eg msg st = Ok r.
Proof.
  unfold multisig. mono.
  match goal with Hx : Ok _ = Ok r |- _ => rewrite <- Hx end.
  do 2 f_equal. apply match_sigs_ext. intros s k. symmetry. apply check_sig_relax.
Qed.

Definition relaxed {S} (F G : S -> CoreResult S) : Prop := forall s s', F s = Ok s' -> G s = Ok s'.

Lemma relaxed_refl {S} (F : S -> CoreResult S) : relaxed F F.
Proof. by intros s s'. Qed.

Lemma sig_arms_relax : Forall2 (arms_rel relaxed) (sig_arms ef) (sig_arms eg).
Proof.
  unfold sig_arms. repeat (apply Forall2_cons; split; [apply case_rel; intros st st'|]); [..|by constructor].
  - unfold op_checksig, run_check_sig, checksig_code, script_code. cbn [with_flags e_flags e_tx e_input e_amount e_segwit e_script].
    mono. by rewrite check_sig_relax in *.
  - unfold op_checksigverify, run_check_sig, checksig_code, script_code. cbn [with_flags e_flags e_tx e_input e_amount e_segwit e_script].
    mono. done.
  - unfold op_checkmultisig. apply bind_mono; [apply multisig_relax|done].
  - unfold op_checkmultisigverify. apply bind_mono; [apply multisig_relax|done].
  - done.
Qed.

(** On success the lock-time opcodes leave the stack as it was. *)
Lemma locktime_same tx i m m' :
  on_stack (op_checklocktimeverify tx i) m = Ok m' \/ on_stack (op_checksequenceverify tx i) m = Ok m' ->
  m' = m.
Proof.
  unfold on_stack, op_checklocktimeverify, op_checksequenceverify.
  intros [Hr|Hr]; run_inv; [by destruct m|].
  destruct (has_bit _ 31) in *; run_inv; by destruct m.
Qed.

Lemma machine_arms_relax : Forall2 (arms_rel relaxed) (machine_arms ef) (machine_arms eg).
Proof.
  assert (Hsame : forall l : list (arm machine_op), Forall2 (arms_rel relaxed) l l).
  { intros l. apply Forall_Forall2_diag, Forall_true. intros a. split_and!; try done. intros op _. apply relaxed_refl. }
  unfold machine_arms. repeat (apply Forall2_app; [try apply Hsame|]); try apply Hsame.
  destruct Hrel as (_ & Hcltv & Hcsv & _). unfold locktime_arms.
  repeat (apply Forall2_cons; split; [apply case_rel; intros m m'|]); [..|by constructor];
    cbn [with_flags e_flags e_tx e_input].
  - destruct (verify_checklocktimeverify g); [by rewrite Hcltv|].
    destruct (verify_checklocktimeverify f); [|done]. intros Hr.
    by rewrite (locktime_same _ _ _ _ (or_introl Hr)).
  - destruct (verify_checksequenceverify g); [by rewrite Hcsv|].
    destruct (verify_checksequenceverify f); [|done]. intros Hr.
    by rewrite (locktime_same _ _ _ _ (or_intror Hr)).
Qed.

Lemma run_opcode_relax op : relaxed (run_opcode ef op) (run_opcode eg op).
Proof.
  intros st st'. unfold run_opcode.
  pose proof (dispatch_rel _ op _ _ machine_arms_relax) as Hm.
  destruct Hm as [F G HR|]; [apply bind_mono; [apply HR|done]|].
  pose proof (dispatch_rel _ op _ _ sig_arms_relax) as Hs.
  destruct Hs as [F G HR|]; [apply HR|done].
Qed.

Lemma step_relax st i st' : step ef st i = Ok st' -> step eg st i = Ok st'.
Proof.
  unfold step. apply bind_mono; [done|]. intros [data|op].
  - unfold step_push. mono. done.
  - unfold step_op. apply bind_mono; [done|]. intros st1. apply bind_mono; [done|]. intros _.
    apply bind_mono; [done|]. intros _. destruct (dispatch op flow_arms); [done|].
    destruct (negb _); [done|]. apply bind_mono; [apply run_opcode_relax|done].
Qed.
End Relax.

Lemma execute_relax `{Hashes} `{ScriptLib} `{SigLib} (env : ienv) (f g : ScriptFlags) s s' :
  relaxes g f -> execute_script_inner (with_flags env f) s = Ok s' ->
  execute_script_inner (with_flags env g) s = Ok s'.
Proof.
  intros Hrel. unfold execute_script_inner. apply bind_mono; [done|]. intros _.
  apply bind_mono; [|done]. cbn [with_flags e_script].
  intros st Hrun. destruct (foldM_sim eq _ (step (with_flags env g)) (instructions (e_script env))
    (fun b c x b' Hbc _ Hstep => ex_intro _ b' (conj (eq_rect b (fun c => step (with_flags env g) c x = Ok b')
       (step_relax env f g Hrel b x b' Hstep) c Hbc) eq_refl)) _ _ _ eq_refl Hrun) as (c' & Hc & ->).
  done.
Qed.

(** ** Stack layouts *)

Lemma pop_n_reverse xs : forall s, pop_n (length xs) (s ++ reverse xs) = Ok (xs, s).
Proof.
  induction xs as [|x xs IH]; intros s; cbn [length pop_n]; [by rewrite app_nil_r|].
  rewrite reverse_cons, app_assoc, stack_pop_snoc. cbn [mbind result_bind].
  rewrite IH. done.
Qed.

Lemma decode_num_len n : 0 <= n <= 1000 -> decode_num (encode_num n) = Ok n.
Proof.
  intros Hn. unfold decode_num. rewrite decode_encode_num; [done|lia|].
  eapply Z.le_lt_trans; [|apply (Z.pow_lt_mono_r 2 10 (8 * 4 - 1)); lia]. cbn. lia.
Qed.

Lemma pop_num_encode s n : 0 <= n <= 20 -> pop_num (s ++ [encode_num n]) = Ok (n, s).
Proof.
  intros Hn. unfold pop_num. rewrite stack_pop_snoc. cbn [mbind result_bind].
  rewrite decode_num_len by lia. done.
Qed.

(** Items counted from the top of a stack whose last items are [t]. *)
Lemma item_end s t n i :
  length t = n -> (i < n)%nat -> item (s ++ t) (length (s ++ t) - n + i) = item t i.
Proof. intros Ht Hi. unfold item. by rewrite lookup_from_end. Qed.

Lemma item_app s t i : item (s ++ t) (length s + i) = item t i.
Proof. unfold item. rewrite lookup_app_r by lia. by replace (length s + i - length s)%nat with i by lia. Qed.

Lemma delete_app_r (s t : list bytes) i : delete (length s + i)%nat (s ++ t) = s ++ delete i t.
Proof.
  induction s as [|x s IH]; cbn; [done|]. f_equal. apply IH.
Qed.

Lemma insert_app_end (s t : list bytes) i x : <[(length s + i)%nat := x]> (s ++ t) = s ++ <[i := x]> t.
Proof. by rewrite insert_app_r. Qed.

(** ** Theorems *)

Section Theorems.
Context `{Hashes} `{ScriptLib} `{SigLib}.

Lemma success_well_formed env s s' :
  execute_script_inner env s = Ok s' ->
  well_formed_script (verify_bip110 (e_flags env)) (e_script env) (instructions (e_script env)).
Proof.
  unfold execute_script_inner. intros Hrun. run_inv. bool_to_prop. unfold MAX_SCRIPT_SIZE in *.
  match goal with Hf : foldM _ _ _ = Ok _ |- _ => apply run_Ok in Hf; [|cbn; lia] end.
  match goal with Hf : exists _, _ |- _ => destruct Hf as (l & Hl & Hok & Hn & Hc) end.
  split; [lia|]. exists l. cbn in Hn, Hc. split_and!; [done|done|lia|].
  match goal with He : bool_decide _ = true |- _ => apply bool_decide_eq_true in He; rewrite He in Hn end.
  done.
Qed.

(** C26: a script that executes successfully is at most 10,000 bytes, decodes
    completely, contains no disabled opcode and no OP_VERIF/OP_VERNOTIF even in
    a branch that is not executed, pushes no item above 520 bytes (256 under
    BIP-110), has at most 201 counted opcodes, and its OP_IF/OP_ENDIF are
    balanced. *)
Theorem script_success_well_formed (env : ienv) (s s' : list bytes) :
  execute_script_inner env s = Ok s' ->
  well_formed_script (verify_bip110 (e_flags env)) (e_script env) (instructions (e_script env)).
Proof. apply success_well_formed. Qed.

(** at every point of every run (after any prefix of the instructions) the
    two stacks together hold at most 1,000 items, none above 520 bytes, and
    the opcode count is at most 201, provided this held of the initial stack
    and hashes are at most 520 bytes long. *)
Theorem script_limits_throughout (env : ienv) (s : list bytes) (prefix : list (option Instruction))
    (st : istate) :
  (forall x, len (ripemd160 x) <= 520 /\ len (sha1 x) <= 520 /\ len (sha256 x) <= 520 /\
             len (hash160 x) <= 520 /\ len (sha256d x) <= 520) ->
  len s <= 1000 -> Forall (fun x => len x <= 520) s ->
  foldM (step env) (init_state s) prefix = Ok st ->
  len (stack (im st)) + len (alt_stack (im st)) <= 1000 /\
  Forall (fun x => len x <= 520) (stack (im st)) /\
  Forall (fun x => len x <= 520) (alt_stack (im st)) /\
  0 <= op_count st <= 201.
Proof.
  intros Hh Hl Hs Hrun.
  destruct (run_Ok env prefix (init_state s) st ltac:(cbn; lia) Hrun) as (l & _ & _ & _ & Hc).
  apply (run_limits (fun x => len x <= 520)) in Hrun as [[H1' H2'] H3'].
  - pose proof (len_nonneg (filter (fun i => counted i = true) l)) as Hp.
    unfold counted_ops in Hc. cbn [init_state op_count] in Hc. split_and!; [exact H3'|exact H1'|exact H2'|lia|lia].
  - intros []; cbn; rewrite ?len_cons, len_nil; lia.
  - intros v. pose proof (encode_num_len v). lia.
  - intros b. rewrite len_cons, len_nil. lia.
  - exact Hh.
  - done.
  - split; [by split|]. cbn. rewrite len_nil. lia.
Qed.

(** OP_IF selects its branch.  When the condition is false the first branch
    is skipped without any effect on the stacks and OP_ELSE starts executing;
    when the first branch ran, OP_ELSE skips the second branch without effect
    and OP_ENDIF leaves the block. *)
Theorem if_else_semantics (env : ienv) (st : istate) (s : list bytes) (v : bytes)
    (A B : list Instruction) :
  executing (im st) = true -> stack (im st) = s ++ [v] ->
  nesting 0 A = Some 0%nat -> nesting 0 B = Some 0%nat ->
  Forall (instruction_ok (verify_bip110 (e_flags env))) (A ++ B) ->
  0 <= op_count st -> op_count st + counted_ops A + counted_ops B + 3 <= 201 ->
  (cast_to_bool v = false ->
   exists st', foldM (step env) st (map Some (Op 0x63 :: A ++ [Op 0x67])) = Ok st' /\
     im st' = mkM s (alt_stack (im st)) (exec_stack (im st) ++ [true])) /\
  (forall st2 E, exec_stack (im st2) = E ++ [true] ->
   0 <= op_count st2 -> op_count st2 + counted_ops B + 2 <= 201 ->
   exists st', foldM (step env) st2 (map Some (Op 0x67 :: B ++ [Op 0x68])) = Ok st' /\
     im st' = with_exec (im st2) E).
Proof.
  intros Hx Hs HA HB Hok Hpos Hc. apply Forall_app in Hok as [HokA HokB].
  pose proof (len_nonneg (filter (fun i => counted i = true) A)) as HlA.
  pose proof (len_nonneg (filter (fun i => counted i = true) B)) as HlB.
  fold (counted_ops A) in HlA. fold (counted_ops B) in HlB. split.
  - intros Hv.
    destruct (step_flow env st 0x63 _ (mkM s (alt_stack (im st)) (exec_stack (im st) ++ [false])) eq_refl)
      as (st1 & Hst1 & Him1 & Ho1); [cbn [arm_body case]; rewrite Hx, Hs, stack_pop_snoc; cbn; by rewrite Hv|by left|lia|].
    destruct (not_taken env st1 (exec_stack (im st)) A) as (st2 & Hst2 & Him2 & Ho2);
      [by rewrite Him1|done|done|lia..|].
    destruct (step_flow env st2 0x67 _ (mkM s (alt_stack (im st)) (exec_stack (im st) ++ [true])) eq_refl)
      as (st3 & Hst3 & Him3 & Ho3); [|by auto|lia|].
    { cbn [arm_body case]. rewrite Him2, Him1. cbn [exec_stack]. by rewrite vec_pop_snoc. }
    exists st3. split; [|done]. cbn [map foldM]. rewrite Hst1. cbn [mbind result_bind].
    rewrite (run_app _ _ _ _ _ Hst2). cbn [map foldM]. by rewrite Hst3.
  - intros st2 E HE Hpos2 Hc2.
    destruct (step_flow env st2 0x67 _ (with_exec (im st2) (E ++ [false])) eq_refl)
      as (st3 & Hst3 & Him3 & Ho3); [cbn [arm_body case]; by rewrite HE, vec_pop_snoc|by auto|lia|].
    destruct (not_taken env st3 E B) as (st4 & Hst4 & Him4 & Ho4); [by rewrite Him3|done|done|lia..|].
    destruct (step_flow env st4 0x68 _ (with_exec (im st2) E) eq_refl)
      as (st5 & Hst5 & Him5 & Ho5); [|by auto|lia|].
    { cbn [arm_body case]. rewrite Him4, Him3. cbn [exec_stack with_exec]. by rewrite vec_pop_snoc. }
    exists st5. split; [|done]. cbn [map foldM]. rewrite Hst3. cbn [mbind result_bind].
    rewrite (run_app _ _ _ _ _ Hst4). cbn [map foldM]. by rewrite Hst5.
Qed.

(** C12: OP_CHECKMULTISIG pops its [n] keys, [m <= n] signatures and the dummy,
    and pushes true exactly when the signatures can be assigned, in order, to
    a subsequence of the keys with every signature valid for its key: the
    greedy scan of the code neither misses nor invents an assignment. *)
Theorem checkmultisig_matches (env : ienv) (st : istate) (s : list bytes) (dummy : bytes)
    (sigs keys : list bytes) :
  stack (im st) = s ++ [dummy] ++ reverse sigs ++ [encode_num (len sigs)]
                    ++ reverse keys ++ [encode_num (len keys)] ->
  len keys <= 20 -> len sigs <= len keys ->
  0 <= op_count st -> op_count st + len keys <= 201 ->
  (verify_nulldummy (e_flags env) = true -> dummy = []) ->
  exists b, op_checkmultisig env st =
      Ok (mkI (with_stack (im st) (s ++ [bool_item b])) (op_count st + len keys)
              (codesep_pos st) (byte_pos st)) /\
    (b = true <-> exists ks, sublist ks keys /\
       Forall2 (fun sig key => run_check_sig env sig key (multisig_code env st sigs) = true) sigs ks).
Proof.
  intros Hst Hk Hsk Hpos Hc Hdummy.
  pose proof (len_nonneg keys) as Hk0. pose proof (len_nonneg sigs) as Hs0.
  exists (match_sigs (fun sig key => run_check_sig env sig key (multisig_code env st sigs)) sigs keys).
  split; [|apply match_sigs_spec].
  unfold op_checkmultisig, multisig. rewrite Hst, !app_assoc, pop_num_encode by lia.
  cbn [mbind result_bind]. rewrite (wrap_small 64 (len keys)) by (unfold fits; lia).
  rewrite (fail_if_false (len keys >? 20)) by (rewrite Z.gtb_ltb; apply Z.ltb_ge; lia).
  cbn [mbind result_bind]. rewrite (wrap_small 32 (len keys)) by (unfold fits; lia).
  rewrite (wrap_small 32 (op_count st + len keys)) by (unfold fits; lia).
  rewrite fail_if_false by (rewrite Z.gtb_ltb; apply Z.ltb_ge; lia).
  cbn [mbind result_bind]. rewrite to_nat_len, pop_n_reverse.
  cbn [mbind result_bind]. rewrite pop_num_encode by lia. cbn [mbind result_bind].
  rewrite (wrap_small 64 (len sigs)) by (unfold fits; lia).
  rewrite fail_if_false by (rewrite Z.gtb_ltb; apply Z.ltb_ge; lia).
  cbn [mbind result_bind]. rewrite to_nat_len, pop_n_reverse.
  cbn [mbind result_bind]. rewrite stack_pop_snoc. cbn [mbind result_bind].
  rewrite fail_if_false; [done|].
  destruct (verify_nulldummy (e_flags env)); [|done]. by rewrite Hdummy.
Qed.

(** the soft-fork property.  Switching off any of CLTV, CSV, NULLDUMMY and
    the BIP-110 push limit never invalidates a script: what executes under the
    stricter flags executes under the weaker ones, with the same final stack. *)
Theorem softfork_flags_relax (env : ienv) (f g : ScriptFlags) (s s' : list bytes) :
  relaxes g f ->
  execute_script_inner (with_flags env f) s = Ok s' ->
  execute_script_inner (with_flags env g) s = Ok s'.
Proof.
  intros Hrel. by apply execute_relax.
Qed.
End Theorems.

(** the stack opcodes rearrange the top of the stack as specified and leave
    everything below it alone: OP_2DUP, OP_3DUP, OP_2OVER, OP_2ROT, OP_2SWAP,
    OP_NIP, OP_OVER, OP_ROT, OP_SWAP, OP_TUCK, and OP_PICK and OP_ROLL at the
    depth given by the number on top. *)
Theorem stack_opcodes_rearrange (s t : list bytes) (a b c d e f : bytes) :
  len t <= 1000 ->
  op_2dup (s ++ [a; b]) = Ok (s ++ [a; b; a; b]) /\
  op_3dup (s ++ [a; b; c]) = Ok (s ++ [a; b; c; a; b; c]) /\
  op_2over (s ++ [a; b; c; d]) = Ok (s ++ [a; b; c; d; a; b]) /\
  op_2rot (s ++ [a; b; c; d; e; f]) = Ok (s ++ [c; d; e; f; a; b]) /\
  op_2swap (s ++ [a; b; c; d]) = Ok (s ++ [c; d; a; b]) /\
  op_nip (s ++ [a; b]) = Ok (s ++ [b]) /\
  op_over (s ++ [a; b]) = Ok (s ++ [a; b; a]) /\
  op_rot (s ++ [a; b; c]) = Ok (s ++ [b; c; a]) /\
  op_swap (s ++ [a; b]) = Ok (s ++ [b; a]) /\
  op_tuck (s ++ [a; b]) = Ok (s ++ [b; a; b]) /\
  op_pick (s ++ a :: t ++ [encode_num (len t)]) = Ok (s ++ a :: t ++ [a]) /\
  op_roll (s ++ a :: t ++ [encode_num (len t)]) = Ok (s ++ t ++ [a]).
Proof.
  intros Ht. pose proof (len_nonneg t) as Ht0.
  assert (Hguard : forall (u : list bytes) n, (n <= length u)%nat -> (length (s ++ u) <? n)%nat = false).
  { intros u n Hu. apply Nat.ltb_ge. rewrite length_app. lia. }
  assert (Hidx : forall (u : list bytes) n, (n <= length u)%nat -> (length (s ++ u) - n = length s + (length u - n))%nat).
  { intros u n Hu. rewrite length_app. lia. }
  split_and!.
  1-10: unfold op_2dup, op_3dup, op_2over, op_2rot, op_2swap, op_nip, op_over, op_rot, op_swap, op_tuck,
      remove_item, swap_items;
    rewrite Hguard by (cbn; lia); cbn [fail_if guard_err mbind result_bind];
    repeat (rewrite Hidx by (cbn; lia)); cbn [length Nat.sub];
    repeat (rewrite ?item_app, ?delete_app_r, ?insert_app_end; cbn [item lookup list_lookup default delete list_delete insert list_insert fst snd]);
    rewrite <- ?app_assoc; try done.
  all: try (unfold vec_insert; rewrite take_app_add, drop_app_add; by rewrite <- ?app_assoc).
  all: unfold op_pick, op_roll; rewrite app_comm_cons, app_assoc, stack_pop_snoc; cbn [mbind result_bind];
    rewrite decode_num_len by lia; cbn [mbind result_bind]; rewrite wrap_small by (unfold fits; lia);
    rewrite fail_if_false by (rewrite Z.geb_leb, len_app, len_cons; apply Z.leb_gt; pose proof (len_nonneg s); lia);
    cbn [mbind result_bind remove_item]; rewrite to_nat_len;
    replace (length (s ++ a :: t) - 1 - length t)%nat with (length s + 0)%nat
      by (rewrite length_app; cbn; lia);
    rewrite item_app, ?delete_app_r; cbn; by rewrite <- app_assoc.
Qed.

(** ** Examples *)

Section Examples.
#[local] Existing Instance Sample.hashes.
#[local] Existing Instance Sample.sig_lib.
#[local] Existing Instance SampleScript.script_lib.

(** [OP_1 OP_IF OP_2 OP_ELSE OP_3 OP_ENDIF] *)
Definition sample_env : ienv :=
  mkEnv [0x51; 0x63; 0x52; 0x67; 0x53; 0x68] (Sample.tx 100 0 [] []) 0 0 flags_all false.

Lemma script_success_well_formed_witness :
  execute_script_inner sample_env [] = Ok [[2]] /\
  well_formed_script false (e_script sample_env) (instructions (e_script sample_env)).
Proof.
  split; [vm_compute; reflexivity|].
  apply (script_success_well_formed sample_env [] [[2]]). vm_compute. reflexivity.
Defined.

Lemma script_limits_throughout_witness :
  exists st, foldM (step sample_env) (init_state []) (instructions (e_script sample_env)) = Ok st /\
    len (stack (im st)) + len (alt_stack (im st)) <= 1000.
Proof.
  eexists. split; [vm_compute; reflexivity|].
  eapply (script_limits_throughout sample_env [] (instructions (e_script sample_env))).
  - intros x. cbn. unfold len. rewrite !Sample.length_pad_to. lia.
  - rewrite len_nil. lia.
  - constructor.
  - vm_compute. reflexivity.
Defined.

Lemma if_else_semantics_witness :
  exists st', foldM (step sample_env) (init_state [[5]; []]) (map Some [Op 0x63; Op 0x52; Op 0x67]) = Ok st' /\
    im st' = mkM [[5]] [] [true].
Proof.
  destruct (if_else_semantics sample_env (init_state [[5]; []]) [[5]] [] [Op 0x52] [Op 0x53]) as [Hif _];
    [reflexivity..| |cbn; lia|vm_compute; congruence|exact (Hif eq_refl)].
  constructor; [|constructor; [|constructor]]; vm_compute; split_and!; congruence.
Defined.

Lemma checkmultisig_matches_witness :
  let st := init_state ([[]] ++ reverse [[8; 1]; [7; 1]] ++ [encode_num 2] ++ reverse [[8]; [9]; [7]] ++ [encode_num 3]) in
  exists b, op_checkmultisig sample_env st =
    Ok (mkI (with_stack (im st) ([] ++ [bool_item b])) 3 0 0) /\
    (b = true <-> exists ks, sublist ks [[8]; [9]; [7]] /\
       Forall2 (fun sig key => run_check_sig sample_env sig key
                  (multisig_code sample_env st [[8; 1]; [7; 1]]) = true) [[8; 1]; [7; 1]] ks).
Proof.
  intros st. apply (checkmultisig_matches sample_env st [] [] [[8; 1]; [7; 1]] [[8]; [9]; [7]]);
    [reflexivity|vm_compute; congruence..|reflexivity].
Defined.

(** [OP_1 OP_CHECKLOCKTIMEVERIFY]: valid with the flag, and without it. *)
Lemma softfork_flags_relax_witness :
  let env := mkEnv [0x51; 0xb1] (Sample.tx 100 0 [] []) 0 0 flags_all false in
  let g := mkFlags true true true false false true false false in
  execute_script_inner (with_flags env g) [] = Ok [[1]].
Proof.
  intros env g. apply (softfork_flags_relax env flags_all g [] [[1]]).
  - unfold relaxes. cbn. split_and!; congruence.
  - vm_compute. reflexivity.
Defined.

Lemma stack_opcodes_rearrange_witness :
  op_roll [[1]; [2]; [3]; [4]; encode_num 2] = Ok [[1]; [3]; [4]; [2]].
Proof.
  destruct (stack_opcodes_rearrange [[1]] [[3]; [4]] [2] [] [] [] [] [])
    as (_ & _ & _ & _ & _ & _ & _ & _ & _ & _ & _ & Hroll); [vm_compute; congruence|exact Hroll].
Defined.
End Examples.
