(* ===== verification/Tapscript.v ===== *)
(** * The tapscript interpreter

    [execute_tapscript] of [bitcoinpr-core/src/script.rs] (BIP 342): the
    BIP-110 pre-scan, the signature opcodes with their budget, the opcode
    tables, the step of the loop and the loop, which [OP_SUCCESS] leaves early. *)

From Stdlib Require Import ZArith Lia.
From stdpp Require Import base option numbers list strings.
From S2P Require Import Prelude Bytes Types ScriptNum ScriptBytes Signatures Opcodes Interp InterpProofs.

Section Tapscript.
Context `{Hashes} `{ScriptLib} `{SigLib}.

(** The arguments of [execute_tapscript] that do not change. *)
Record tenv := mkTenv {
  t_script : bytes;
  t_tx : Transaction;
  t_input : nat;
  t_prevouts : list TxOut;
  t_leaf : TapLeafHash;
  t_annex : option Annex;
  t_bip110 : bool }.

(** The variables of the loop. *)
Record tstate := mkT {
  tm : machine;
  sigops_budget : Z;
  tap_codesep : Z;
  opcode_pos : Z }.

Definition set_tm (st : tstate) (m : machine) : tstate :=
  mkT m (sigops_budget st) (tap_codesep st) (opcode_pos st).
Definition next_pos (st : tstate) : tstate :=
  mkT (tm st) (sigops_budget st) (tap_codesep st) (u32 (opcode_pos st + 1)).

(** The BIP-110 scan of the whole leaf script. *)
Definition prescan_step (_ : unit) (i : option Instruction) : CoreResult unit :=
  instruction ← or_bad i "tapscript parse error";
  match instruction with
  | PushBytes data =>
      fail_if (len data >? BIP110_MAX_PUSH_SIZE) "BIP-110: tapscript push exceeds limit"
  | Op op => fail_if (is_tapscript_success_opcode op) "BIP-110: tapscript contains OP_SUCCESS opcode"
  end.

Definition bip110_prescan (script : bytes) : CoreResult unit :=
  foldM prescan_step tt (instructions script).

(** [50 + witness bytes] *)
Definition initial_budget (tx : Transaction) (input_index : nat) : Z :=
  50 + match input tx !! input_index with
       | Some i => foldr (fun w n => len w + n) 0 (witness i)
       | None => 0
       end.

(** [OP_IF] .. [OP_ENDIF], as in the legacy interpreter. *)
Definition tap_flow_arms : list (arm machine_op) :=
  [ case 0x63 (fun m =>
      if executing m then
        '(val, s) ← stack_pop (stack m);
        Ok (mkM s (alt_stack m) (exec_stack m ++ [cast_to_bool val]))
      else Ok (with_exec m (exec_stack m ++ [false])));
    case 0x64 (fun m =>
      if executing m then
        '(val, s) ← stack_pop (stack m);
        Ok (mkM s (alt_stack m) (exec_stack m ++ [negb (cast_to_bool val)]))
      else Ok (with_exec m (exec_stack m ++ [false])));
    case 0x67 (fun m =>
      match vec_pop (exec_stack m) with
      | Some (b, e) => Ok (with_exec m (e ++ [negb b]))
      | None => bad_script "OP_ELSE without OP_IF"
      end);
    case 0x68 (fun m =>
      match vec_pop (exec_stack m) with
      | Some (_, e) => Ok (with_exec m e)
      | None => bad_script "OP_ENDIF without OP_IF"
      end) ].

Section WithEnv.
Context (env : tenv).

Definition tap_check (st : tstate) (sig_data pubkey_data : bytes) : bool :=
  tapscript_check_sig (t_tx env) (t_input env) (t_prevouts env) sig_data pubkey_data
    (t_leaf env) (tap_codesep st) (t_annex env).

(** Charge one signature check. *)
Definition charge (st : tstate) : CoreResult tstate :=
  let st := mkT (tm st) (sigops_budget st - 50) (tap_codesep st) (opcode_pos st) in
  _ ← fail_if (sigops_budget st <? 0) "tapscript sigops budget exceeded";
  Ok st.

Definition push_result (st : tstate) (s : list bytes) (x : bytes) : tstate :=
  set_tm st (with_stack (tm st) (s ++ [x])).

Definition tap_checksig (st : tstate) : CoreResult tstate :=
  '(pubkey_data, s) ← stack_pop (stack (tm st));
  '(sig_data, s) ← stack_pop s;
  _ ← fail_if (len pubkey_data =? 0) "tapscript: empty pubkey";
  if len sig_data =? 0 then Ok (push_result st s [])
  else
    st ← charge st;
    if negb (len pubkey_data =? 32) then Ok (push_result st s [1])
    else if tap_check st sig_data pubkey_data then Ok (push_result st s [1])
    else bad_script "OP_CHECKSIG: Schnorr signature verification failed".

Definition tap_checksigverify (st : tstate) : CoreResult tstate :=
  '(pubkey_data, s) ← stack_pop (stack (tm st));
  '(sig_data, s) ← stack_pop s;
  _ ← fail_if (len pubkey_data =? 0) "tapscript: empty pubkey";
  if len sig_data =? 0 then bad_script "OP_CHECKSIGVERIFY failed: empty signature"
  else
    st ← charge st;
    if negb (len pubkey_data =? 32) then Ok (set_tm st (with_stack (tm st) s))
    else if tap_check st sig_data pubkey_data then Ok (set_tm st (with_stack (tm st) s))
    else bad_script "OP_CHECKSIGVERIFY failed in tapscript".

Definition tap_checkmultisig (_ : tstate) : CoreResult tstate :=
  bad_script "OP_CHECKMULTISIG disabled in tapscript (use OP_CHECKSIGADD)".

Definition tap_checksigadd (st : tstate) : CoreResult tstate :=
  '(pubkey_data, s) ← stack_pop (stack (tm st));
  '(n_data, s) ← stack_pop s;
  '(sig_data, s) ← stack_pop s;
  n ← decode_num n_data;
  _ ← fail_if (len pubkey_data =? 0) "tapscript: empty pubkey";
  if len sig_data =? 0 then Ok (push_result st s (encode_num n))
  else
    st ← charge st;
    if negb (len pubkey_data =? 32) then Ok (push_result st s (encode_num (n + 1)))
    else if tap_check st sig_data pubkey_data then Ok (push_result st s (encode_num (n + 1)))
    else bad_script "OP_CHECKSIGADD: non-empty signature failed verification".

Definition tap_codeseparator (st : tstate) : CoreResult tstate :=
  Ok (mkT (tm st) (sigops_budget st) (opcode_pos st) (opcode_pos st)).

Definition tap_sig_arms : list (arm (tstate -> CoreResult tstate)) :=
  [ case 0xac tap_checksig;
    case 0xad tap_checksigverify;
    Arm 0xae 0xaf (fun _ => tap_checkmultisig);
    case 0xba tap_checksigadd;
    case 0xab tap_codeseparator ].

(** Constants and stack manipulation. *)
Definition tap_push_arms : list (arm machine_op) :=
  [ case 0x00 (on_stack (op_push []));
    case 0x4f (on_stack (op_push (encode_num (-1))));
    Arm 0x51 0x60 (fun v => on_stack (op_push (encode_num (v - 0x50)))) ].

Definition tap_stack_arms_1 : list (arm machine_op) :=
  [ case 0x69 (on_stack op_verify);
    case 0x6a op_return;
    case 0x6b op_toaltstack;
    case 0x6c op_fromaltstack;
    case 0x6d (on_stack op_2drop);
    case 0x6e (on_stack op_2dup);
    case 0x6f (on_stack op_3dup);
    case 0x70 (on_stack op_2over);
    case 0x71 (on_stack op_2rot);
    case 0x72 (on_stack op_2swap);
    case 0x73 (on_stack op_ifdup);
    case 0x74 (on_stack op_depth) ].

Definition tap_stack_arms_2 : list (arm machine_op) :=
  [ case 0x75 (on_stack op_drop);
    case 0x76 (on_stack (op_dup "stack underflow"));
    case 0x77 (on_stack op_nip);
    case 0x78 (on_stack op_over);
    case 0x79 (on_stack op_pick);
    case 0x7a (on_stack op_roll);
    case 0x7b (on_stack op_rot);
    case 0x7c (on_stack op_swap);
    case 0x7d (on_stack op_tuck);
    case 0x82 (on_stack op_size);
    case 0x87 (on_stack op_equal);
    case 0x88 (on_stack op_equalverify) ].

Definition tap_arith_arms : list (arm machine_op) :=
  [ case 0x8b (on_stack (op_unary (fun a => a + 1)));
    case 0x8c (on_stack (op_unary (fun a => a - 1)));
    case 0x8f (on_stack (op_unary (fun a => - a)));
    case 0x90 (on_stack (op_unary (fun a => Z.abs a)));
    case 0x91 (on_stack (op_unary (fun a => b2z (a =? 0))));
    case 0x92 (on_stack (op_unary (fun a => b2z (negb (a =? 0)))));
    case 0x93 (on_stack (op_binary (fun a b => a + b)));
    case 0x94 (on_stack (op_binary (fun a b => a - b)));
    case 0x9a (on_stack (op_binary (fun a b => b2z (negb (a =? 0) && negb (b =? 0)))));
    case 0x9b (on_stack (op_binary (fun a b => b2z (negb (a =? 0) || negb (b =? 0)))));
    case 0x9c (on_stack op_numequal_item);
    case 0x9d (on_stack op_numequalverify);
    case 0x9e (on_stack (op_binary (fun a b => b2z (negb (a =? b)))));
    case 0x9f (on_stack (op_binary (fun a b => b2z (a <? b))));
    case 0xa0 (on_stack (op_binary (fun a b => b2z (a >? b))));
    case 0xa1 (on_stack (op_binary (fun a b => b2z (a <=? b))));
    case 0xa2 (on_stack (op_binary (fun a b => b2z (a >=? b))));
    case 0xa3 (on_stack (op_binary (fun a b => Z.min a b)));
    case 0xa4 (on_stack (op_binary (fun a b => Z.max a b)));
    case 0xa5 (on_stack op_within) ].

Definition tap_hash_arms : list (arm machine_op) :=
  [ case 0xa6 (on_stack (op_hash ripemd160));
    case 0xa7 (on_stack (op_hash sha1));
    case 0xa8 (on_stack (op_hash sha256));
    case 0xa9 (on_stack (op_hash hash160));
    case 0xaa (on_stack (op_hash sha256d)) ].

Definition tap_nop_arms : list (arm machine_op) :=
  [ case 0x61 op_nop; case 0xb0 op_nop; Arm 0xb3 0xb9 (fun _ => op_nop) ].

(** The lock-time opcodes are always enforced. *)
Definition tap_locktime_arms : list (arm machine_op) :=
  [ case 0xb1 (on_stack (op_checklocktimeverify (t_tx env) (t_input env)));
    case 0xb2 (on_stack (op_checksequenceverify (t_tx env) (t_input env))) ].

Definition tap_machine_arms : list (arm machine_op) :=
  tap_push_arms ++ tap_stack_arms_1 ++ tap_stack_arms_2 ++ tap_arith_arms ++ tap_hash_arms
  ++ tap_locktime_arms ++ tap_nop_arms.

(** An executed opcode. *)
Definition tap_run_opcode (op_byte : Z) (st : tstate) : CoreResult tstate :=
  match dispatch op_byte tap_machine_arms with
  | Some f => m ← f (tm st); Ok (set_tm st m)
  | None =>
      match dispatch op_byte tap_sig_arms with
      | Some f => f st
      | None => bad_script "unknown tapscript opcode"
      end
  end.

(** A data push. *)
Definition tap_push (data : bytes) (st : tstate) : CoreResult tstate :=
  if executing (tm st) then
    _ ← fail_if (len data >? MAX_SCRIPT_ELEMENT_SIZE) "push data size exceeds limit";
    let m := with_stack (tm st) (stack (tm st) ++ [data]) in
    _ ← fail_if (stack_overflow m) "stack size exceeded";
    Ok (set_tm st m)
  else Ok st.

(** An opcode other than [OP_SUCCESS]. *)
Definition tap_op (op_byte : Z) (st : tstate) : CoreResult tstate :=
  _ ← fail_if (t_bip110 env && executing (tm st) && ((op_byte =? 0x63) || (op_byte =? 0x64)))
        "BIP-110: tapscript executes OP_IF/OP_NOTIF";
  match dispatch op_byte tap_flow_arms with
  | Some f => m ← f (tm st); Ok (set_tm st m)
  | None =>
      if negb (executing (tm st)) then Ok st
      else
        st ← tap_run_opcode op_byte st;
        _ ← fail_if (stack_overflow (tm st)) "stack size exceeded";
        Ok st
  end.

(** The loop: [inl] is the stack at an [OP_SUCCESS] ([return Ok(())]), [inr]
    the state at the end of the script.  Every path of an iteration that
    continues increments [opcode_pos]. *)
Fixpoint tap_loop (st : tstate) (l : list (option Instruction)) : CoreResult (list bytes + tstate) :=
  match l with
  | [] => Ok (inr st)
  | i :: r =>
      instruction ← or_bad i "tapscript parse error";
      match instruction with
      | PushBytes data => st ← tap_push data st; tap_loop (next_pos st) r
      | Op op_byte =>
          if is_tapscript_success_opcode op_byte then Ok (inl (stack (tm st)))
          else st ← tap_op op_byte st; tap_loop (next_pos st) r
      end
  end.

Definition tap_init (s : list bytes) : tstate :=
  mkT (mkM s [] []) (initial_budget (t_tx env) (t_input env)) 0xFFFFFFFF 0.

(** The final stack, which the code leaves in its [&mut] argument. *)
Definition execute_tapscript (s : list bytes) : CoreResult (list bytes) :=
  _ ← (if t_bip110 env then bip110_prescan (t_script env) else Ok tt);
  res ← tap_loop (tap_init s) (instructions (t_script env));
  match res with
  | inl s => Ok s
  | inr st =>
      _ ← fail_if (negb (bool_decide (exec_stack (tm st) = []))) "unbalanced IF/ENDIF in tapscript";
      Ok (stack (tm st))
  end.
End WithEnv.
End Tapscript.
