(* ===== verification/TapscriptProofs.v ===== *)
(** * Properties of the tapscript interpreter

    Agreement with the legacy interpreter on the opcodes they share, the limits
    and the signature budget, and the BIP-110 rules. *)

From Stdlib Require Import ZArith Lia.
From stdpp Require Import base option numbers list strings.
From S2P Require Import Prelude Bytes Types ScriptNum ScriptBytes Signatures Opcodes Interp InterpProofs Tapscript.

(** The outcome of a run, without the error message. *)
Definition outcome {E A B} (f : A -> B) (r : result E A) : option B :=
  match r with Ok a => Some (f a) | Err _ => None end.

Lemma outcome_bind {E A B C D} (r : result E A) (r' : result E B) (f : A -> C) (g : B -> C)
    (k : A -> result E D) (k' : B -> result E D) {X} (h : D -> X) :
  outcome f r = outcome g r' ->
  (forall a b, r = Ok a -> r' = Ok b -> f a = g b -> outcome h (k a) = outcome h (k' b)) ->
  outcome h (r ≫= k) = outcome h (r' ≫= k').
Proof. intros Hr Hk. destruct r, r'; cbn in *; try done. apply Hk; congruence. Qed.

Section TapProofs.
Context `{Hashes} `{ScriptLib} `{SigLib}.

(** ** The shared opcodes *)

Definition same_outcome (F G : machine_op) : Prop :=
  forall m, outcome (fun x => x) (F m) = outcome (fun x => x) (G m).

Lemma same_outcome_refl F : same_outcome F F.
Proof. by intros m. Qed.

Section Shared.
Context (env : ienv) (tenv : tenv).
Hypothesis Htx : t_tx tenv = e_tx env.
Hypothesis Hin : t_input tenv = e_input env.
Hypothesis Hcltv : verify_checklocktimeverify (e_flags env) = true.
Hypothesis Hcsv : verify_checksequenceverify (e_flags env) = true.

Lemma small_num v : 0x51 <= v <= 0x60 -> encode_num (v - 0x50) = [v - 0x50].
Proof.
  intros Hv. assert (exists k, (k < 16)%nat /\ v = 0x51 + Z.of_nat k) as (k & Hk & ->).
  { exists (Z.to_nat (v - 0x51)). lia. }
  do 16 (destruct k as [|k]; [reflexivity|]). lia.
Qed.

Lemma numequal_same : same_outcome (on_stack (op_binary (fun a b => b2z (a =? b)))) (on_stack op_numequal_item).
Proof.
  intros m. unfold on_stack, op_binary, op_numequal_item.
  destruct (pop_num (stack m)) as [[b s]|]; cbn; [|done].
  destruct (pop_num s) as [[a s']|]; cbn; [|done]. by destruct (a =? b).
Qed.

Lemma dup_same msg msg' : same_outcome (on_stack (op_dup msg)) (on_stack (op_dup msg')).
Proof. intros m. unfold on_stack, op_dup. by destruct (last (stack m)). Qed.

Lemma arms_shared : Forall2 (arms_rel same_outcome) (machine_arms env) (tap_machine_arms tenv).
Proof.
  unfold machine_arms, tap_machine_arms, push_arms, tap_push_arms, stack_arms_1, tap_stack_arms_1,
    stack_arms_2, tap_stack_arms_2, arith_arms, tap_arith_arms, hash_arms, tap_hash_arms,
    locktime_arms, tap_locktime_arms, nop_arms, tap_nop_arms.
  rewrite Hcltv, Hcsv, Htx, Hin. cbn [app].
  repeat (apply Forall2_cons; split;
    [first [apply case_rel; first [apply same_outcome_refl|apply numequal_same|apply dup_same]|idtac]|]);
    try apply Forall2_nil; try done.
  all: split_and!; try done; intros op Hop; cbn [arm_body arm_lo arm_hi] in *;
    rewrite ?(small_num op) by done; apply same_outcome_refl.
Qed.

Hypothesis Hbip : verify_bip110 (e_flags env) = false.
Hypothesis Htbip : t_bip110 tenv = false.

(** An instruction both interpreters treat alike: not a signature opcode,
    OP_CODESEPARATOR or OP_SUCCESS. *)
Definition shared (i : Instruction) : Prop :=
  match i with
  | PushBytes _ => True
  | Op op => is_tapscript_success_opcode op = false /\ ~ 0xab <= op <= 0xaf /\ op <> 0xba
  end.

Lemma dispatch_none {A} op (l : list (arm A)) :
  Forall (fun a => ~ arm_lo a <= op <= arm_hi a) l -> dispatch op l = None.
Proof.
  induction 1 as [|a l Ha Hl IH]; cbn; [done|]. by rewrite in_range_false.
Qed.

Lemma shared_no_sig op :
  shared (Op op) -> dispatch op (sig_arms env) = None /\ dispatch op (tap_sig_arms tenv) = None.
Proof.
  intros (_ & Hs & Hba). split; apply dispatch_none; unfold sig_arms, tap_sig_arms;
    repeat (apply Forall_cons; split); try apply Forall_nil_2; cbn; lia.
Qed.

Lemma run_opcode_same op st tst :
  shared (Op op) -> im st = tm tst ->
  outcome im (run_opcode env op st) = outcome tm (tap_run_opcode tenv op tst).
Proof.
  intros Hop Heq. unfold run_opcode, tap_run_opcode. destruct (shared_no_sig op Hop) as [-> ->].
  destruct (dispatch_rel _ op _ _ arms_shared) as [F G HFG|]; [|done].
  rewrite Heq. specialize (HFG (tm tst)). destruct (F (tm tst)), (G (tm tst)); cbn in *; congruence.
Qed.

Lemma run_opcode_count op st st' :
  shared (Op op) -> run_opcode env op st = Ok st' -> op_count st' = op_count st.
Proof.
  intros Hop. unfold run_opcode. destruct (shared_no_sig op Hop) as [-> _].
  destruct (dispatch op (machine_arms env)); [|done]. intros Hr. run_inv. done.
Qed.

(** One iteration of the tapscript loop on a shared instruction. *)
Definition tap_iter (i : Instruction) (tst : tstate) : CoreResult tstate :=
  match i with PushBytes data => tap_push data tst | Op op => tap_op tenv op tst end.

Lemma step_same st tst i :
  im st = tm tst -> instruction_ok false i -> shared i ->
  0 <= op_count st -> op_count st + b2z (counted i) <= 201 ->
  outcome (fun s => (im s, op_count s)) (step env st (Some i)) =
  outcome (fun t => (tm t, op_count st + b2z (counted i))) (tap_iter i tst).
Proof.
  intros Heq Hok Hsh Hpos Hc. unfold step. cbn [or_bad ok_or mbind result_bind].
  destruct i as [data|op]; cbn [tap_iter counted] in *.
  - destruct Hok as [Hl _]. unfold step_push, tap_push, MAX_SCRIPT_ELEMENT_SIZE. rewrite Hbip.
    rewrite !(fail_if_false (len data >? 520)) by (rewrite Z.gtb_ltb; by apply Z.ltb_ge).
    cbn [andb fail_if guard_err mbind result_bind im]. rewrite Heq, Z.add_0_r.
    destruct (executing (tm tst)); [|cbn; by rewrite ?Heq].
    destruct (stack_overflow _); done.
  - rewrite step_op_eq by done. unfold tap_op. rewrite Htbip. cbn [andb fail_if guard_err mbind result_bind im].
    change tap_flow_arms with flow_arms. cbn [op_count]. rewrite Heq.
    destruct (dispatch op flow_arms) as [f|] eqn:Hd.
    { destruct (f (tm tst)); done. }
    destruct (executing (tm tst)); [|cbn; by rewrite ?Heq]. cbn [negb].
    set (st1 := set_op_count _ _).
    assert (Hst1 : im st1 = tm tst) by done.
    pose proof (run_opcode_same op st1 tst Hsh Hst1) as Hrun.
    destruct (run_opcode env op st1) as [st2|] eqn:H2, (tap_run_opcode tenv op tst) as [tst2|]; cbn in *;
      try done. injection Hrun as Hrun. rewrite Hrun.
    apply run_opcode_count in H2; [|done]. cbn in H2. destruct (stack_overflow (tm tst2)); cbn; [done|].
    by rewrite Hrun, H2.
Qed.

Lemma run_same l : forall st tst,
  im st = tm tst -> Forall (instruction_ok false) l -> Forall shared l ->
  0 <= op_count st -> op_count st + counted_ops l <= 201 ->
  outcome (fun s => Some (im s)) (foldM (step env) st (map Some l)) =
  outcome (fun r => match r with inr t => Some (tm t) | inl _ => None end) (tap_loop tenv tst (map Some l)).
Proof.
  induction l as [|i l IH]; intros st tst Heq Hok Hsh Hpos Hc; [cbn; by rewrite Heq|].
  apply Forall_cons in Hok as [Hi Hok]. apply Forall_cons in Hsh as [Hs Hsh].
  rewrite counted_ops_cons in Hc. pose proof (len_nonneg (filter (fun i => counted i = true) l)) as Hl.
  fold (counted_ops l) in Hl.
  pose proof (step_same st tst i Heq Hi Hs Hpos ltac:(lia)) as Hstep.
  assert (Hloop : tap_loop tenv tst (map Some (i :: l)) =
    tst' ← tap_iter i tst; tap_loop tenv (next_pos tst') (map Some l)).
  { destruct i as [data|op]; [done|]. cbn [map tap_loop or_bad ok_or mbind result_bind].
    destruct Hs as [-> _]. done. }
  rewrite Hloop. cbn [map foldM].
  destruct (step env st (Some i)) as [st1|], (tap_iter i tst) as [tst1|]; cbn in Hstep |- *; try done.
  injection Hstep as Him Hcnt. apply IH; [done|done|done| |]; destruct (counted i); cbn in Hcnt, Hc; lia.
Qed.
End Shared.

(** ** Limits and budget *)

Section TapLimits.
Context (tenv : tenv) (P : bytes -> Prop).
Hypothesis P_bool : forall b, P (bool_item b).
Hypothesis P_num : forall v, P (encode_num v).
Hypothesis P_one : forall b, P [b].
Hypothesis P_hash : forall x,
  P (ripemd160 x) /\ P (sha1 x) /\ P (sha256 x) /\ P (hash160 x) /\ P (sha256d x).
Hypothesis P_push : forall data, len data <= 520 -> P data.

(** The legacy environment with the same transaction. *)
Definition legacy_env : ienv := mkEnv (t_script tenv) (t_tx tenv) (t_input tenv) 0 flags_all false.

Lemma tap_machine_items op G m m' :
  dispatch op (tap_machine_arms tenv) = Some G -> items_ok P m -> G m = Ok m' -> items_ok P m'.
Proof.
  intros Hd Hm HG.
  pose proof (dispatch_rel _ op _ _ (arms_shared legacy_env tenv eq_refl eq_refl eq_refl eq_refl)) as Hr.
  rewrite Hd in Hr. destruct (dispatch op (machine_arms legacy_env)) as [F|] eqn:Hd'; [|inversion Hr].
  assert (HFG : same_outcome F G) by (by inversion Hr). specialize (HFG m). rewrite HG in HFG. destruct (F m) as [m1|] eqn:HF; cbn in HFG; [|done].
  injection HFG as ->. exact (machine_arms_items P P_bool P_num P_one P_hash _ _ _ _ _ Hd' Hm HF).
Qed.

(** A signature opcode: what it leaves of the stack, and what it charges. *)
Definition tap_sig_effect (st st' : tstate) : Prop :=
  (forall m, tm st = m -> items_ok P m -> items_ok P (tm st')) /\
  (0 <= sigops_budget st -> 0 <= sigops_budget st') /\
  exists k, 0 <= k <= 1 /\ sigops_budget st' = sigops_budget st - 50 * k.

Lemma charge_Ok st st' :
  charge st = Ok st' -> tm st' = tm st /\ 0 <= sigops_budget st' /\ sigops_budget st' = sigops_budget st - 50.
Proof. unfold charge. intros Hc. run_inv. bool_to_prop. cbn in *. done. Qed.

Lemma tap_sig_step op f st st' :
  dispatch op (tap_sig_arms tenv) = Some f -> f st = Ok st' -> tap_sig_effect st st'.
Proof.
  intros Hd. revert st st'.
  apply (dispatch_arms (fun _ g => forall st st', g st = Ok st' -> tap_sig_effect st st')
    (tap_sig_arms tenv) op f); [clear f op Hd|exact Hd].
  assert (Hres : forall st st1 s r x, stack (tm st) = s ++ r -> P x -> 
    st1 = st \/ charge st = Ok st1 -> tap_sig_effect st (push_result st1 s x) /\
    tap_sig_effect st (set_tm st1 (with_stack (tm st1) s))).
  { intros st st1 s r x Hs Hx Hc.
    assert (Hst1 : tm st1 = tm st /\ (0 <= sigops_budget st -> 0 <= sigops_budget st1) /\
      exists k, 0 <= k <= 1 /\ sigops_budget st1 = sigops_budget st - 50 * k).
    { destruct Hc as [->|Hc]; [split_and!; try done; exists 0; lia|].
      apply charge_Ok in Hc as (Ht & Hb & Hc). split_and!; [done|lia|exists 1; lia]. }
    destruct Hst1 as (Ht & Hb & Hk).
    split; (split; [|split; [exact Hb|exact Hk]]); intros m <- [Hms Hma]; rewrite Hs in Hms;
      apply Forall_app in Hms as [Hms _]; (split; cbn; [|by rewrite Ht]); [|done].
    rewrite Forall_app, Forall_cons, Forall_nil. done. }
  pose proof (fun st st1 s r x Hs Hx Hc => proj1 (Hres st st1 s r x Hs Hx Hc)) as Hpush.
  pose proof (fun st st1 s r x Hs Hx Hc => proj2 (Hres st st1 s r x Hs Hx Hc)) as Hpop.
  unfold tap_sig_arms. repeat (apply Forall_cons; split); try apply Forall_nil_2; cbn [arm_lo arm_hi arm_body case];
    intros o _ st st' Hrun.
  - unfold tap_checksig in Hrun. run_inv. subst. rewrite <- app_assoc in *.
    destruct (len a0 =? 0); run_inv; [by eapply Hpush; [exact Hb|apply (P_bool false)|left]|].
    repeat case_match; run_inv; by eapply Hpush; [exact Hb|apply P_one|right].
  - unfold tap_checksigverify in Hrun. run_inv. subst. rewrite <- app_assoc in *.
    destruct (len a0 =? 0); run_inv. repeat case_match; run_inv; by eapply Hpop; [exact Hb|apply (P_one 0)|right].
  - done.
  - unfold tap_checksigadd in Hrun. run_inv. subst. rewrite <- !app_assoc in *.
    destruct (len a1 =? 0); run_inv; [by eapply Hpush; [exact Hb|apply P_num|left]|].
    repeat case_match; run_inv; by eapply Hpush; [exact Hb|apply P_num|right].
  - unfold tap_codeseparator in Hrun. run_inv. split_and!; [by intros m ->|done|exists 0; cbn; lia].
Qed.

Definition tap_ok (b0 : Z) (st : tstate) : Prop :=
  limits_ok P (tm st) /\ 0 <= sigops_budget st /\
  exists k, 0 <= k /\ sigops_budget st = b0 - 50 * k.

Lemma tap_run_opcode_ok op st st' :
  tap_run_opcode tenv op st = Ok st' -> tap_sig_effect st st'.
Proof.
  unfold tap_run_opcode. destruct (dispatch op (tap_machine_arms tenv)) as [f|] eqn:Hd.
  - intros Hrun. run_inv. split_and!; [|done|exists 0; cbn; lia].
    intros m <- Hm. by eapply tap_machine_items.
  - destruct (dispatch op (tap_sig_arms tenv)) as [f|] eqn:Hd'; [|done].
    intros Hrun. by eapply tap_sig_step.
Qed.

Lemma tap_iter_ok b0 i st st' : tap_ok b0 st -> tap_iter tenv i st = Ok st' -> tap_ok b0 st'.
Proof.
  intros (Hm & Hb & k0 & Hk0 & Hbk) Hrun. destruct i as [data|op]; cbn in Hrun.
  - unfold tap_push, MAX_SCRIPT_ELEMENT_SIZE in Hrun.
    destruct (executing (tm st)); run_inv; [|split_and!; eauto].
    bool_to_prop. match goal with Ho : stack_overflow _ = false |- _ => apply overflow_false in Ho end.
    destruct Hm as [[Hs Ha] _]. split_and!; [|done|eauto]. split; [|done]. split; [|done]. cbn.
    rewrite Forall_app, Forall_cons, Forall_nil. split_and!; [done|apply P_push; lia|done].
  - unfold tap_op in Hrun. run_inv. change tap_flow_arms with flow_arms in Hrun.
    destruct (dispatch op flow_arms) as [f|] eqn:Hd.
    { run_inv. split_and!; [|done|eauto]. by eapply flow_arms_limits. }
    destruct (executing (tm st)); cbn in Hrun; run_inv; [|split_and!; eauto].
    match goal with Ho : stack_overflow _ = false |- _ => apply overflow_false in Ho end.
    match goal with Ho : tap_run_opcode _ _ _ = Ok _ |- _ => apply tap_run_opcode_ok in Ho as (Hi & Hbud & k & Hk & Hbk') end.
    split_and!; [split; [by eapply Hi; [|apply Hm]|done]|auto|]. exists (k0 + k). lia.
Qed.

Lemma tap_loop_ok b0 l : forall st r, tap_ok b0 st -> tap_loop tenv st l = Ok r ->
  match r with
  | inr st' => tap_ok b0 st'
  | inl s => Forall P s /\ len s <= 1000
  end.
Proof.
  induction l as [|i l IH]; intros st r Hok Hrun; cbn [tap_loop] in Hrun.
  - injection Hrun as <-. done.
  - assert (Hnext : forall st', tap_ok b0 st' -> tap_ok b0 (next_pos st')) by (by intros st').
    run_inv. destruct x as [data|op].
    + run_inv. eapply IH; [|exact Hrun]. apply Hnext. by apply (tap_iter_ok b0 (PushBytes data) st).
    + destruct (is_tapscript_success_opcode op).
      * injection Hrun as <-. destruct Hok as ([[Hs _] Hl] & _).
        split; [done|]. pose proof (len_nonneg (alt_stack (tm st))). lia.
      * run_inv. eapply IH; [|exact Hrun]. apply Hnext. by apply (tap_iter_ok b0 (Op op) st).
Qed.
End TapLimits.

(** ** BIP-110 *)

Definition tap_rule (i : Instruction) : Prop :=
  match i with
  | PushBytes data => len data <= 256
  | Op op => is_tapscript_success_opcode op = false
  end.

Lemma prescan_Ok script :
  bip110_prescan script = Ok tt -> exists l, instructions script = map Some l /\ Forall tap_rule l.
Proof.
  unfold bip110_prescan. induction (instructions script) as [|i l IH]; cbn; intros Hrun.
  - by exists [].
  - destruct i as [i|]; [|done]. cbn in Hrun. apply bind_Ok_inv in Hrun as ([] & Hi & Hl).
    destruct (IH Hl) as (l' & -> & Hf). exists (i :: l'). split; [done|]. constructor; [|done].
    destruct i; apply fail_if_Ok in Hi; cbn; [|done]. unfold BIP110_MAX_PUSH_SIZE in Hi. bool_to_prop. lia.
Qed.

Definition set_tbip110 (env : tenv) (b : bool) : tenv :=
  mkTenv (t_script env) (t_tx env) (t_input env) (t_prevouts env) (t_leaf env) (t_annex env) b.

Lemma tap_loop_relax env l : forall st r,
  tap_loop (set_tbip110 env true) st l = Ok r -> tap_loop (set_tbip110 env false) st l = Ok r.
Proof.
  induction l as [|i l IH]; intros st r; cbn [tap_loop]; [done|].
  apply bind_mono; [done|]. intros [data|op]; [apply bind_mono; [done|auto]|].
  destruct (is_tapscript_success_opcode op); [done|].
  apply bind_mono; [|auto]. intros st'. unfold tap_op. apply bind_mono; [|done].
  intros [] _. done.
Qed.

Lemma execute_tapscript_relax te s s' :
  execute_tapscript (set_tbip110 te true) s = Ok s' ->
  execute_tapscript (set_tbip110 te false) s = Ok s' /\
  exists l, instructions (t_script te) = map Some l /\ Forall tap_rule l.
Proof.
  unfold execute_tapscript. cbn [t_bip110 set_tbip110 t_script]. intros Hrun.
  apply bind_Ok_inv in Hrun as ([] & Hscan & Hrun). split; [|by apply prescan_Ok].
  cbn [mbind result_bind]. revert Hrun. apply bind_mono; [|done]. intros r. apply tap_loop_relax.
Qed.
End TapProofs.

(** ** Theorems *)

Section Theorems.
Context `{Hashes} `{ScriptLib} `{SigLib}.

Lemma tap_loop_cons te st i r st' :
  match i with PushBytes _ => true | Op op => negb (is_tapscript_success_opcode op) end = true ->
  tap_iter te i st = Ok st' -> tap_loop te st (map Some (i :: r)) = tap_loop te (next_pos st') (map Some r).
Proof.
  intros Hs Hi. destruct i as [data|op]; cbn [map tap_loop or_bad ok_or mbind result_bind tap_iter] in *.
  - by rewrite Hi.
  - apply negb_true_iff in Hs. by rewrite Hs, Hi.
Qed.

Lemma well_formed_agree env te s s' :
  t_script te = e_script env -> t_tx te = e_tx env -> t_input te = e_input env ->
  verify_checklocktimeverify (e_flags env) = true ->
  verify_checksequenceverify (e_flags env) = true ->
  verify_bip110 (e_flags env) = false -> t_bip110 te = false ->
  (forall i, Some i ∈ instructions (e_script env) -> shared i) ->
  well_formed_script false (e_script env) (instructions (e_script env)) ->
  execute_script_inner env s = Ok s' <-> execute_tapscript te s = Ok s'.
Proof.
  intros Hscr Htx Hin Hcltv Hcsv Hbip Htbip Hall [Hlen (l & Hl & Hok & Hc & _)].
  assert (Hsh : Forall shared l).
  { apply Forall_forall. intros i Hi. apply Hall. rewrite Hl. by apply list_elem_of_fmap_2. }
  unfold execute_script_inner, execute_tapscript. rewrite Htbip, Hscr, Hl. cbn [mbind result_bind].
  rewrite fail_if_false by (unfold MAX_SCRIPT_SIZE; rewrite Z.gtb_ltb; by apply Z.ltb_ge).
  cbn [mbind result_bind].
  pose proof (run_same env te Htx Hin Hcltv Hcsv Hbip Htbip l (init_state s) (tap_init te s)
    eq_refl Hok Hsh ltac:(cbn; lia) ltac:(cbn; lia)) as Hrun.
  destruct (foldM (step env) (init_state s) (map Some l)) as [st|],
           (tap_loop te (tap_init te s) (map Some l)) as [[?|tst]|]; cbn in Hrun |- *; try done.
  injection Hrun as Hm. rewrite Hm. by destruct (bool_decide _).
Qed.

(** C27: the two interpreters agree up to the limits of legacy scripts.  Take
    the same script, transaction and input, CHECKLOCKTIMEVERIFY and
    CHECKSEQUENCEVERIFY enforced, the BIP-110 rules off in both, and a script
    without signature opcode (0xac to 0xaf, 0xba), OP_CODESEPARATOR (0xab) or
    OP_SUCCESS opcode.  Then [execute_script_inner] succeeds with a final stack
    exactly when [execute_tapscript] succeeds with the same final stack and the
    script meets the rules only legacy scripts have: at most 10,000 bytes, at
    most 201 counted opcodes, and neither OP_VERIF nor OP_VERNOTIF, even in a
    branch that is not executed; [well_formed_script] states with them that it
    decodes completely, pushes at most 520 bytes at once, has no disabled
    opcode and balances its conditionals. *)
Theorem interpreters_agree (env : ienv) (te : tenv) (s s' : list bytes) :
  t_script te = e_script env -> t_tx te = e_tx env -> t_input te = e_input env ->
  verify_checklocktimeverify (e_flags env) = true ->
  verify_checksequenceverify (e_flags env) = true ->
  verify_bip110 (e_flags env) = false -> t_bip110 te = false ->
  (forall i, Some i ∈ instructions (e_script env) -> shared i) ->
  execute_script_inner env s = Ok s' <->
  well_formed_script false (e_script env) (instructions (e_script env)) /\
  execute_tapscript te s = Ok s'.
Proof.
  intros Hscr Htx Hin Hcltv Hcsv Hbip Htbip Hsh. split.
  - intros Hrun. pose proof (success_well_formed _ _ _ Hrun) as Hwf. rewrite Hbip in Hwf.
    split; [done|]. by apply (well_formed_agree env te).
  - intros [Hwf Hrun]. by apply (well_formed_agree env te).
Qed.

(** limits and signature budget of tapscript.  After any prefix of the
    instructions the stacks together hold at most 1,000 items, none above 520
    bytes, and the budget is what 50 plus the witness size leaves after some
    number of 50-unit charges, and never negative. *)
Theorem tapscript_limits_throughout (te : tenv) (s : list bytes) (prefix : list (option Instruction))
    (st : tstate) :
  (forall x, len (ripemd160 x) <= 520 /\ len (sha1 x) <= 520 /\ len (sha256 x) <= 520 /\
             len (hash160 x) <= 520 /\ len (sha256d x) <= 520) ->
  len s <= 1000 -> Forall (fun x => len x <= 520) s ->
  tap_loop te (tap_init te s) prefix = Ok (inr st) ->
  len (stack (tm st)) + len (alt_stack (tm st)) <= 1000 /\
  Forall (fun x => len x <= 520) (stack (tm st)) /\
  Forall (fun x => len x <= 520) (alt_stack (tm st)) /\
  0 <= sigops_budget st /\
  exists charges, 0 <= charges /\
    sigops_budget st = initial_budget (t_tx te) (t_input te) - 50 * charges.
Proof.
  intros Hh Hl Hs Hrun.
  assert (Hb : 0 <= initial_budget (t_tx te) (t_input te)).
  { unfold initial_budget. destruct (input (t_tx te) !! t_input te) as [i|]; [|lia].
    induction (witness i) as [|w ws IH]; cbn; [lia|]. pose proof (len_nonneg w). lia. }
  apply (tap_loop_ok te (fun x => len x <= 520)) with (b0 := initial_budget (t_tx te) (t_input te)) in Hrun
    as ([[Hst Halt] Hlen] & Hbud & Hk).
  - split_and!; done.
  - intros []; cbn; rewrite ?len_cons, len_nil; lia.
  - intros v. pose proof (encode_num_len v). lia.
  - intros b. rewrite len_cons, len_nil. lia.
  - exact Hh.
  - done.
  - split_and!; [split; [by split|cbn; rewrite len_nil; lia]|exact Hb|exists 0; cbn; lia].
Qed.

(** BIP-110 is a soft fork of tapscript, and enforces its leaf rules.  A
    leaf script that executes under BIP-110 executes without it with the same
    stack, decodes completely, has no OP_SUCCESS anywhere and no push above
    256 bytes. *)
Theorem bip110_tapscript_softfork (te : tenv) (s s' : list bytes) :
  execute_tapscript (set_tbip110 te true) s = Ok s' ->
  execute_tapscript (set_tbip110 te false) s = Ok s' /\
  exists l, instructions (t_script te) = map Some l /\ Forall tap_rule l.
Proof.
  apply execute_tapscript_relax.
Qed.

(** the interpreters differ on a branch that is not executed: OP_VERIF in
    one makes a legacy script fail, and is skipped in tapscript, although
    neither OP_VERIF nor the conditional was changed by BIP 342. *)
Theorem unexecuted_verif_diverges (env : ienv) (te : tenv) (s : list bytes) :
  t_script te = e_script env -> t_bip110 te = false -> len s < 1000 ->
  instructions (e_script env) = map Some [PushBytes []; Op 0x63; Op 0x65; Op 0x68; Op 0x51] ->
  (forall s', execute_script_inner env s <> Ok s') /\
  execute_tapscript te s = Ok (s ++ [[1]]).
Proof.
  intros Hscr Hb Hs Hi. split.
  - intros s' Hrun. unfold execute_script_inner in Hrun. run_inv.
    match goal with Hf : foldM _ _ _ = Ok _ |- _ => apply run_Ok in Hf; [|cbn; lia] end.
    match goal with Hf : exists _, _ |- _ => destruct Hf as (l & Hl & Hok & _) end.
    rewrite Hi in Hl. apply (inj (map Some)) in Hl. subst l.
    do 2 (apply Forall_cons in Hok as [_ Hok]). apply Forall_cons in Hok as [[Hv _] _]. done.
  - unfold execute_tapscript. rewrite Hb, Hscr, Hi. cbn [mbind result_bind].
    assert (Hov : forall x, stack_overflow (with_stack (mkM s [] []) (s ++ [x])) = false).
    { intros x. apply overflow_false. cbn. rewrite len_app, len_cons, !len_nil. lia. }
    set (b0 := initial_budget (t_tx te) (t_input te)).
    rewrite (tap_loop_cons te _ (PushBytes []) _ (mkT (mkM (s ++ [[]]) [] []) b0 0xFFFFFFFF 0)); [|done|].
    2: { cbn [tap_iter]. unfold tap_push. cbn [tap_init tm executing exec_stack forallb stack]. by rewrite Hov. }
    rewrite (tap_loop_cons te _ (Op 0x63) _ (mkT (mkM s [] [false]) b0 0xFFFFFFFF 1)); [|done|].
    2: { cbn [tap_iter]. unfold tap_op. rewrite Hb. cbn -[stack_pop app]. by rewrite stack_pop_snoc. }
    rewrite (tap_loop_cons te _ (Op 0x65) _ (mkT (mkM s [] [false]) b0 0xFFFFFFFF 2)); [|done|].
    2: { cbn [tap_iter]. unfold tap_op. by rewrite Hb. }
    rewrite (tap_loop_cons te _ (Op 0x68) _ (mkT (mkM s [] []) b0 0xFFFFFFFF 3)); [|done|].
    2: { cbn [tap_iter]. unfold tap_op. by rewrite Hb. }
    rewrite (tap_loop_cons te _ (Op 0x51) _ (mkT (mkM (s ++ [[1]]) [] []) b0 0xFFFFFFFF 4)); [done|done|].
    set (st4 := next_pos _).
    assert (Hr : tap_run_opcode te 0x51 st4 = Ok (set_tm st4 (with_stack (mkM s [] []) (s ++ [[1]])))) by done.
    cbn [tap_iter]. unfold tap_op. rewrite Hb, Hr.
    cbn [dispatch tap_flow_arms in_range arm_lo arm_hi case Z.leb Z.compare Pos.compare Pos.compare_cont andb
      fail_if guard_err mbind result_bind st4 next_pos tm executing exec_stack forallb negb set_tm].
    by rewrite Hov.
Qed.
End Theorems.

(** ** Examples *)

Section Examples.
#[local] Existing Instance Sample.hashes.
#[local] Existing Instance Sample.sig_lib.
#[local] Existing Instance SampleScript.script_lib.

Definition sample_tenv (script : bytes) : tenv :=
  mkTenv script (Sample.tx 100 0 [] [[1]; [2]]) 0 [] [] None false.

Definition sample_legacy (script : bytes) : ienv :=
  mkEnv script (Sample.tx 100 0 [] [[1]; [2]]) 0 0 flags_all false.

(** [OP_1 OP_2 OP_ADD OP_3 OP_NUMEQUAL] *)
Lemma interpreters_agree_witness :
  execute_tapscript (sample_tenv [0x51; 0x52; 0x93; 0x53; 0x9c]) [] = Ok [[1]].
Proof.
  apply (interpreters_agree (sample_legacy [0x51; 0x52; 0x93; 0x53; 0x9c])
    (sample_tenv [0x51; 0x52; 0x93; 0x53; 0x9c]) [] [[1]]); try reflexivity.
  intros i Hi. change (Some i ∈ map Some [Op 0x51; Op 0x52; Op 0x93; Op 0x53; Op 0x9c]) in Hi.
  apply list_elem_of_fmap in Hi as (j & [= <-] & Hi). revert i Hi. apply Forall_forall.
  repeat (apply Forall_cons; split); try apply Forall_nil_2; cbn; (split; [reflexivity|lia]).
Defined.

(** Two checks with non-empty signatures against keys of an unknown type. *)
Lemma tapscript_limits_throughout_witness :
  exists st, tap_loop (sample_tenv [0x51; 0x51; 0xac]) (tap_init (sample_tenv [0x51; 0x51; 0xac]) [])
               (instructions [0x51; 0x51; 0xac]) = Ok (inr st) /\
    sigops_budget st = 2 /\ 0 <= sigops_budget st.
Proof.
  eexists. split; [vm_compute; reflexivity|]. split; [reflexivity|].
  eapply (tapscript_limits_throughout (sample_tenv [0x51; 0x51; 0xac]) [] (instructions [0x51; 0x51; 0xac])).
  - intros x. cbn. unfold len. rewrite !Sample.length_pad_to. lia.
  - vm_compute. congruence.
  - constructor.
  - vm_compute. reflexivity.
Defined.

Lemma bip110_tapscript_softfork_witness :
  execute_tapscript (set_tbip110 (sample_tenv [0x51; 0x76]) false) [] = Ok [[1]; [1]].
Proof.
  apply (bip110_tapscript_softfork (sample_tenv [0x51; 0x76]) [] [[1]; [1]]). vm_compute. reflexivity.
Defined.

Lemma unexecuted_verif_diverges_witness :
  execute_tapscript (sample_tenv [0x00; 0x63; 0x65; 0x68; 0x51]) [] = Ok [[1]].
Proof.
  destruct (unexecuted_verif_diverges (sample_legacy [0x00; 0x63; 0x65; 0x68; 0x51])
    (sample_tenv [0x00; 0x63; 0x65; 0x68; 0x51]) []) as [_ Hrun]; [reflexivity..|exact Hrun].
Defined.
End Examples.
