(* ===== verification/VerifyScript.v ===== *)
(** * Input verification

    [verify_script] of [bitcoinpr-core/src/script.rs] with the witness-program
    verifiers it dispatches to, and the BIP-110 checks on outputs, pushes and
    witness items. *)

From Stdlib Require Import ZArith Lia.
From stdpp Require Import base option numbers list strings.
From S2P Require Import Prelude Bytes Types ScriptNum ScriptBytes Signatures Opcodes Interp InterpProofs Tapscript TapscriptProofs.

Definition BIP110_MAX_SCRIPTPUBKEY_SIZE : Z := 34.
Definition BIP110_MAX_OP_RETURN_SIZE : Z := 83.
Definition BIP110_MAX_CONTROL_BLOCK_SIZE : Z := 257.
Definition P2A_WITNESS_PROGRAM : bytes := [0x4e; 0x73].

(** One output of the rule 1 loop. *)
Definition check_output_script (_ : unit) (o : TxOut) : CoreResult unit :=
  let spk := script_pubkey o in
  let is_op_return := bool_decide (head spk = Some 0x6a) in
  let limit := if is_op_return then BIP110_MAX_OP_RETURN_SIZE else BIP110_MAX_SCRIPTPUBKEY_SIZE in
  fail_if (len spk >? limit) "BIP-110: output scriptPubKey exceeds limit".

Definition check_bip110_output_scripts (tx : Transaction) : CoreResult unit :=
  foldM check_output_script tt (output tx).

Definition check_witness_item (_ : unit) (w : bytes) : CoreResult unit :=
  fail_if (len w >? BIP110_MAX_PUSH_SIZE) "BIP-110: witness item exceeds limit".

Definition bip110_check_witness_items (items : list bytes) : CoreResult unit :=
  foldM check_witness_item tt items.

Section Verify.
Context `{Hashes} `{ScriptLib} `{SigLib}.

(** The push lengths of a script, which must decode. *)
Definition push_len_step (acc : list Z) (i : option Instruction) : CoreResult (list Z) :=
  instruction ← or_bad i "script parse error";
  Ok (match instruction with PushBytes data => acc ++ [len data] | Op _ => acc end).

Definition check_push_len (_ : unit) (n : Z) : CoreResult unit :=
  fail_if (n >? BIP110_MAX_PUSH_SIZE) "BIP-110: push exceeds limit".

Definition bip110_check_pushes (script : bytes) (exempt_last_push : bool) : CoreResult unit :=
  push_lens ← foldM push_len_step [] (instructions script);
  foldM check_push_len tt
    (if exempt_last_push then take (length push_lens - 1) push_lens else push_lens).

(** [stack.is_empty() || !cast_to_bool(top)] *)
Definition top_is_false (s : list bytes) : bool :=
  match last s with None => true | Some top => negb (cast_to_bool top) end.

Definition verify_witness_v0 (tx : Transaction) (input_index : nat) (amount : Z)
    (program : bytes) (wit : list bytes) (enforce_bip110 : bool) : CoreResult unit :=
  if len program =? 20 then
    match wit with
    | [sig; pubkey] =>
        _ ← (if enforce_bip110 then bip110_check_witness_items [sig; pubkey] else Ok tt);
        _ ← fail_if (negb (bool_decide (hash160 pubkey = program))) "P2WPKH pubkey hash mismatch";
        verify_ecdsa_signature tx input_index amount sig pubkey
    | _ => bad_script "P2WPKH requires exactly 2 witness items"
    end
  else if len program =? 32 then
    match last wit with
    | None => bad_script "P2WSH: empty witness"
    | Some witness_script =>
        _ ← fail_if (negb (bool_decide (sha256 witness_script = program))) "P2WSH script hash mismatch";
        let args := take (length wit - 1) wit in
        _ ← (if enforce_bip110 then bip110_check_witness_items args else Ok tt);
        s ← execute_script_segwit witness_script args tx input_index amount
              (set_bip110 flags_all enforce_bip110);
        fail_if (top_is_false s) "P2WSH script evaluation failed"
    end
  else bad_script "invalid witness program length".

(** The taproot script path. *)
Definition verify_taproot_script_path (tx : Transaction) (input_index : nat)
    (all_prevouts : list TxOut) (output_key : XOnlyPublicKey) (wit : list bytes)
    (annex : option Annex) (enforce_bip110 : bool) : CoreResult unit :=
  let control_bytes := default [] (wit !! (length wit - 1)%nat) in
  let script_bytes := default [] (wit !! (length wit - 2)%nat) in
  _ ← fail_if (enforce_bip110 && (len control_bytes >? BIP110_MAX_CONTROL_BLOCK_SIZE))
        "BIP-110: control block exceeds limit";
  control_block ← or_bad (control_block_decode control_bytes) "invalid control block";
  _ ← fail_if (negb (verify_taproot_commitment control_block output_key script_bytes))
        "Taproot script path merkle proof verification failed";
  if control_leaf_is_tapscript control_block then
    let args := take (length wit - 2) wit in
    _ ← (if enforce_bip110 then bip110_check_witness_items args else Ok tt);
    s ← execute_tapscript
          (mkTenv script_bytes tx input_index all_prevouts (tap_leaf_hash script_bytes) annex enforce_bip110)
          args;
    fail_if (top_is_false s) "Tapscript evaluation failed"
  else if enforce_bip110 then bad_script "BIP-110: spending undefined Tapleaf version"
  else Ok tt.

Definition has_annex (wit : list bytes) : bool :=
  (2 <=? length wit)%nat &&
  match last wit with Some w => bool_decide (head w = Some 0x50) | None => false end.

Definition verify_witness_v1 (tx : Transaction) (input_index : nat) (all_prevouts : list TxOut)
    (program : bytes) (wit : list bytes) (enforce_bip110 : bool) : CoreResult unit :=
  _ ← fail_if (bool_decide (wit = [])) "Taproot: empty witness";
  _ ← fail_if (enforce_bip110 && has_annex wit) "BIP-110: Taproot annex is invalid";
  annex ← (if has_annex wit
           then a ← or_bad (annex_new (default [] (last wit))) "invalid annex"; Ok (Some a)
           else Ok None);
  (* witness[..effective_len] *)
  let wit := if has_annex wit then take (length wit - 1) wit else wit in
  output_key ← or_bad (xonly_from_slice program) "invalid taproot output key";
  if (length wit =? 1)%nat then
    let sig := default [] (head wit) in
    _ ← (if enforce_bip110 then bip110_check_witness_items [sig] else Ok tt);
    verify_taproot_key_spend tx input_index all_prevouts output_key sig annex
  else verify_taproot_script_path tx input_index all_prevouts output_key wit annex enforce_bip110.

(** Spending a witness program of an undefined version: rule 3 of BIP-110. *)
Definition undefined_witness (bip110 : bool) (version : Z) (program : bytes) : CoreResult unit :=
  fail_if (bip110 && negb ((version =? 1) && bool_decide (program = P2A_WITNESS_PROGRAM)))
    "BIP-110: spending undefined witness version".

(** The P2SH branch; [saved_stack] is the stack left by the scriptSig.  [Ok true]
    is an early return of [verify_script]. *)
Definition verify_p2sh_redeem (tx : Transaction) (input_index : nat) (spk : bytes) (amount : Z)
    (wit : list bytes) (flags : ScriptFlags) (saved_stack : list bytes) : CoreResult bool :=
  match vec_pop saved_stack with
  | None => Ok false
  | Some (redeem_script, p2sh_stack) =>
      _ ← fail_if (negb (bool_decide (hash160 redeem_script = take 20 (drop 2 spk)))) "P2SH hash mismatch";
      match (if verify_witness flags then parse_witness_program redeem_script else None) with
      | Some (version, program) =>
          _ ← (if version =? 0
               then verify_witness_v0 tx input_index amount program wit (verify_bip110 flags)
               else undefined_witness (verify_bip110 flags) version program);
          Ok true
      | None =>
          s ← execute_script redeem_script p2sh_stack tx input_index amount flags;
          _ ← fail_if (top_is_false s) "P2SH script evaluation failed";
          Ok false
      end
  end.

(** A native witness program. *)
Definition verify_native_witness (tx : Transaction) (input_index : nat) (all_prevouts : list TxOut)
    (amount : Z) (txin : TxIn) (flags : ScriptFlags) (version : Z) (program : bytes) : CoreResult unit :=
  _ ← fail_if (negb (bool_decide (script_sig txin = []))) "witness malleated";
  if version =? 0 then
    verify_witness_v0 tx input_index amount program (witness txin) (verify_bip110 flags)
  else if (version =? 1) && verify_taproot flags && (len program =? 32) then
    verify_witness_v1 tx input_index all_prevouts program (witness txin) (verify_bip110 flags)
  else undefined_witness (verify_bip110 flags) version program.

(** Everything that is not a native witness program. *)
Definition verify_legacy (tx : Transaction) (input_index : nat) (spk : bytes) (amount : Z)
    (txin : TxIn) (flags : ScriptFlags) : CoreResult unit :=
  let is_p2sh_spend := verify_p2sh flags && is_p2sh spk in
  _ ← (if verify_bip110 flags then bip110_check_pushes (script_sig txin) is_p2sh_spend else Ok tt);
  saved ← execute_script (script_sig txin) [] tx input_index amount (set_bip110 flags false);
  s ← execute_script spk saved tx input_index amount flags;
  _ ← fail_if (top_is_false s) "script evaluation failed";
  returned ← (if is_p2sh_spend
              then verify_p2sh_redeem tx input_index spk amount (witness txin) flags saved
              else Ok false);
  if returned : bool then Ok tt
  else fail_if (verify_witness flags && negb (bool_decide (witness txin = []))) "witness unexpected".

(** An out-of-range [input_index] panics in the code; no caller passes one, and
    it is an error value here. *)
Definition verify_script (tx : Transaction) (input_index : nat) (all_prevouts : list TxOut)
    (flags : ScriptFlags) : CoreResult unit :=
  match all_prevouts !! input_index, input tx !! input_index with
  | Some prev_output, Some txin =>
      let spk := script_pubkey prev_output in
      let amount := value prev_output in
      match (if verify_witness flags then parse_witness_program spk else None) with
      | Some (version, program) =>
          verify_native_witness tx input_index all_prevouts amount txin flags version program
      | None => verify_legacy tx input_index spk amount txin flags
      end
  | _, _ => bad_script "index out of bounds"
  end.
End Verify.
