(* ===== verification/VerifyProofs.v ===== *)
(** * Properties of input verification *)

From Stdlib Require Import ZArith Lia.
From stdpp Require Import base option numbers list strings.
From S2P Require Import Prelude Bytes Types ScriptNum ScriptBytes Signatures Opcodes Interp InterpProofs Tapscript TapscriptProofs VerifyScript.

Section VerifyProofs.
Context `{Hashes} `{ScriptLib} `{SigLib}.

(** ** BIP-110 only adds rules *)

Lemma relaxes_bip110 f : relaxes (set_bip110 f false) (set_bip110 f true).
Proof. by destruct f. Qed.

Lemma execute_script_bip110 script s tx i amount f s' :
  execute_script script s tx i amount (set_bip110 f true) = Ok s' ->
  execute_script script s tx i amount (set_bip110 f false) = Ok s'.
Proof.
  intros Hrun.
  exact (execute_relax (mkEnv script tx i amount f false) _ _ _ _ (relaxes_bip110 f) Hrun).
Qed.

Lemma execute_segwit_bip110 script s tx i amount f s' :
  execute_script_segwit script s tx i amount (set_bip110 f true) = Ok s' ->
  execute_script_segwit script s tx i amount (set_bip110 f false) = Ok s'.
Proof.
  intros Hrun.
  exact (execute_relax (mkEnv script tx i amount f true) _ _ _ _ (relaxes_bip110 f) Hrun).
Qed.

Lemma witness_v0_bip110 tx i amount program wit :
  verify_witness_v0 tx i amount program wit true = Ok tt ->
  verify_witness_v0 tx i amount program wit false = Ok tt.
Proof.
  unfold verify_witness_v0. repeat case_match; try done.
  - apply bind_mono; [intros [] _; done|done].
  - apply bind_mono; [done|]. intros _. apply bind_mono; [intros [] _; done|]. intros _.
    apply bind_mono; [|done]. intros s. apply execute_segwit_bip110.
Qed.

Lemma script_path_bip110 tx i prevs key wit annex :
  verify_taproot_script_path tx i prevs key wit annex true = Ok tt ->
  verify_taproot_script_path tx i prevs key wit annex false = Ok tt.
Proof.
  unfold verify_taproot_script_path. apply bind_mono; [intros [] _; done|]. intros _.
  apply bind_mono; [done|]. intros cb. apply bind_mono; [done|]. intros _.
  destruct (control_leaf_is_tapscript cb); [|done].
  apply bind_mono; [intros [] _; done|]. intros _. apply bind_mono; [|done]. intros s Hrun.
  set (script := default [] _) in *.
  exact (proj1 (execute_tapscript_relax (mkTenv script tx i prevs (tap_leaf_hash script) annex true) _ _ Hrun)).
Qed.

Lemma witness_v1_bip110 tx i prevs program wit :
  verify_witness_v1 tx i prevs program wit true = Ok tt ->
  verify_witness_v1 tx i prevs program wit false = Ok tt.
Proof.
  unfold verify_witness_v1. apply bind_mono; [done|]. intros _. apply bind_mono; [intros [] _; done|]. intros _.
  apply bind_mono; [done|]. intros annex. apply bind_mono; [done|]. intros key.
  destruct (_ =? 1)%nat; [|apply script_path_bip110].
  apply bind_mono; [intros [] _; done|done].
Qed.

Lemma p2sh_redeem_bip110 tx i spk amount wit f saved b :
  verify_p2sh_redeem tx i spk amount wit (set_bip110 f true) saved = Ok b ->
  verify_p2sh_redeem tx i spk amount wit (set_bip110 f false) saved = Ok b.
Proof.
  unfold verify_p2sh_redeem. destruct (vec_pop saved) as [[redeem rest]|]; [|done].
  apply bind_mono; [done|]. intros _. cbn [verify_witness verify_bip110 set_bip110].
  destruct (if verify_witness f then _ else _) as [[version program]|].
  - apply bind_mono; [|done]. intros []. destruct (version =? 0); [apply witness_v0_bip110|done].
  - apply bind_mono; [|done]. intros s. apply execute_script_bip110.
Qed.

Lemma verify_script_bip110 tx i prevs f :
  verify_script tx i prevs (set_bip110 f true) = Ok tt ->
  verify_script tx i prevs (set_bip110 f false) = Ok tt.
Proof.
  unfold verify_script. destruct (prevs !! i) as [o|], (input tx !! i) as [txin|]; try done.
  cbn [verify_witness set_bip110].
  destruct (if verify_witness f then _ else _) as [[version program]|].
  - unfold verify_native_witness. cbn [verify_bip110 verify_taproot set_bip110].
    apply bind_mono; [done|]. intros _. repeat case_match; [apply witness_v0_bip110|apply witness_v1_bip110|done].
  - unfold verify_legacy. cbn [verify_bip110 verify_p2sh verify_witness set_bip110].
    apply bind_mono; [intros [] _; done|]. intros _. apply bind_mono; [done|]. intros saved.
    apply bind_mono; [intros s; apply execute_script_bip110|]. intros s. apply bind_mono; [done|]. intros _.
    apply bind_mono; [|done]. intros b. destruct (_ && _); [apply p2sh_redeem_bip110|done].
Qed.

(** ** Running short scripts *)

Lemma no_overflow m : len (stack m) + len (alt_stack m) <= 1000 -> stack_overflow m = false.
Proof. apply overflow_false. Qed.

Definition pushable (f : ScriptFlags) (d : bytes) : Prop :=
  len d <= 520 /\ (verify_bip110 f = true -> len d <= 256).

(** A push-only script appends its items. *)
Lemma run_pushes env ds : forall st,
  exec_stack (im st) = [] -> Forall (pushable (e_flags env)) ds ->
  len (stack (im st)) + len (alt_stack (im st)) + len ds <= 1000 ->
  exists b, foldM (step env) st (map Some (map PushBytes ds)) =
    Ok (mkI (with_stack (im st) (stack (im st) ++ ds)) (op_count st) (codesep_pos st) b).
Proof.
  induction ds as [|d ds IH]; intros st Hx Hp Hl.
  - exists (byte_pos st). rewrite app_nil_r. by destruct st as [[]].
  - apply Forall_cons in Hp as [[Hd Hd'] Hp]. rewrite len_cons in Hl. cbn [map foldM].
    assert (Hstep : exists b, step env st (Some (PushBytes d)) =
      Ok (mkI (with_stack (im st) (stack (im st) ++ [d])) (op_count st) (codesep_pos st) b)).
    { eexists. unfold step, step_push, MAX_SCRIPT_ELEMENT_SIZE, BIP110_MAX_PUSH_SIZE.
      cbn [or_bad ok_or mbind result_bind im].
      rewrite (fail_if_false (len d >? 520)) by (rewrite Z.gtb_ltb; by apply Z.ltb_ge).
      rewrite (fail_if_false (verify_bip110 _ && _)).
      2: { destruct (verify_bip110 (e_flags env)); [|done]. cbn. rewrite Z.gtb_ltb. apply Z.ltb_ge. auto. }
      cbn [mbind result_bind]. unfold executing. rewrite Hx. cbn [forallb].
      rewrite no_overflow; [reflexivity|].
      cbn. rewrite len_app, len_cons, len_nil. pose proof (len_nonneg ds). lia. }
    destruct Hstep as [b Hstep]. rewrite Hstep. cbn [mbind result_bind].
    edestruct IH as [b' Hrun]; [| | |exists b'; rewrite Hrun]; cbn; try done.
    + rewrite len_app, len_cons, len_nil. lia.
    + by rewrite <- app_assoc.
Qed.

(** An executed opcode above OP_16 that is not control flow. *)
Lemma step_exec env st op :
  exec_stack (im st) = [] -> dispatch op flow_arms = None ->
  instruction_ok false (Op op) -> (op >? 0x60) = true -> 0 <= op_count st < 201 ->
  step env st (Some (Op op)) =
    st' ← run_opcode env op (mkI (im st) (op_count st + 1) (codesep_pos st) (byte_pos st + 1));
    _ ← fail_if (stack_overflow (im st')) "stack size exceeded"; Ok st'.
Proof.
  intros Hx Hf Hok Hop Hc. unfold step. cbn [or_bad ok_or mbind result_bind].
  rewrite step_op_eq; [|done|cbn; lia|rewrite Hop; cbn; lia].
  rewrite Hf, Hop. unfold executing. cbn [im]. rewrite Hx. cbn. done.
Qed.

(** An executed opcode on the main stack only. *)
Lemma step_stack env s n c b op g :
  dispatch op (machine_arms env) = Some (on_stack g) ->
  dispatch op flow_arms = None -> instruction_ok false (Op op) -> (op >? 0x60) = true ->
  0 <= n < 201 ->
  step env (mkI (mkM s [] []) n c b) (Some (Op op)) =
    s' ← g s; _ ← fail_if (stack_overflow (mkM s' [] [])) "stack size exceeded";
    Ok (mkI (mkM s' [] []) (n + 1) c (b + 1)).
Proof.
  intros Hd Hf Hok Hop Hn. rewrite step_exec by done. unfold run_opcode. rewrite Hd.
  unfold on_stack. cbn [im stack op_count codesep_pos byte_pos]. by destruct (g s).
Qed.

Lemma fits_stack s : len s <= 1000 -> stack_overflow (mkM s [] []) = false.
Proof. intros Hs. apply no_overflow. cbn. rewrite len_nil. lia. Qed.

Lemma overflow_len s : stack_overflow (mkM s [] []) = false -> len s <= 1000.
Proof. intros Ho. apply overflow_false in Ho. cbn in Ho. rewrite len_nil in Ho. lia. Qed.

Lemma execute_push_only script s tx i amount f ds :
  len script <= 10000 -> instructions script = map Some (map PushBytes ds) ->
  Forall (pushable f) ds -> len s + len ds <= 1000 ->
  execute_script script s tx i amount f = Ok (s ++ ds).
Proof.
  intros Hl Hi Hp Hn. unfold execute_script, execute_script_inner. cbn [e_script].
  rewrite fail_if_false by (unfold MAX_SCRIPT_SIZE; rewrite Z.gtb_ltb; by apply Z.ltb_ge).
  cbn [mbind result_bind]. rewrite Hi.
  destruct (run_pushes (mkEnv script tx i amount f false) ds (init_state s)) as [b Hrun];
    [done|done|cbn; rewrite len_nil; lia|].
  rewrite Hrun. done.
Qed.

(** ** P2PKH *)

Definition p2pkh (h : bytes) : bytes := [0x76; 0xa9; 0x14] ++ h ++ [0x88; 0xac].
Definition p2pkh_items (h : bytes) : list Instruction := [Op 0x76; Op 0xa9; PushBytes h; Op 0x88; Op 0xac].

(** The script code an OP_CHECKSIG of a legacy script signs. *)
Definition signed_code (script sig : bytes) : bytes :=
  if len sig =? 0 then script else find_and_delete script (serialize_script_push sig).

(** What [p2pkh h] computes, opcode by opcode. *)
Definition p2pkh_run (env : ienv) (h : bytes) (s : list bytes) : CoreResult (list bytes) :=
  let room s := fail_if (stack_overflow (mkM s [] [])) "stack size exceeded" in
  s1 ← op_dup "empty stack for DUP" s; _ ← room s1;
  s2 ← op_hash hash160 s1; _ ← room s2;
  _ ← room (s2 ++ [h]);
  s3 ← op_equalverify (s2 ++ [h]); _ ← room s3;
  '(pk, s4) ← stack_pop s3; '(sig, s5) ← stack_pop s4;
  let ok := check_sig (e_tx env) (e_input env) (e_amount env) sig pk (signed_code (p2pkh h) sig) (e_flags env) false in
  _ ← room (s5 ++ [bool_item ok]);
  Ok (s5 ++ [bool_item ok]).

Lemma step_h env h s n c b :
  len h = 20 ->
  step env (mkI (mkM s [] []) n c b) (Some (PushBytes h)) =
    _ ← fail_if (stack_overflow (mkM (s ++ [h]) [] [])) "stack size exceeded";
    Ok (mkI (mkM (s ++ [h]) [] []) n c (b + advance (PushBytes h))).
Proof.
  intros Hh. unfold step, step_push, MAX_SCRIPT_ELEMENT_SIZE, BIP110_MAX_PUSH_SIZE.
  cbn [or_bad ok_or mbind result_bind]. rewrite Hh.
  rewrite (fail_if_false (verify_bip110 _ && _)) by apply andb_false_r. done.
Qed.

Lemma p2pkh_exec_run tx i amount f h s :
  len h = 20 -> instructions (p2pkh h) = map Some (p2pkh_items h) ->
  execute_script (p2pkh h) s tx i amount f = p2pkh_run (mkEnv (p2pkh h) tx i amount f false) h s.
Proof.
  intros Hh Hi. unfold execute_script, execute_script_inner. cbn [e_script].
  rewrite fail_if_false.
  2: { unfold p2pkh, MAX_SCRIPT_SIZE. rewrite !len_app, Hh. done. }
  rewrite Hi. unfold init_state, p2pkh_run. cbn [mbind result_bind p2pkh_items map foldM].
  set (env := mkEnv _ _ _ _ _ _). cbv zeta.
  rewrite (step_stack env s 0 0 0 0x76 (op_dup "empty stack for DUP")) by (done || lia).
  destruct (op_dup _ s) as [s1|]; [|done]. cbn [mbind result_bind].
  destruct (fail_if (stack_overflow (mkM s1 _ _)) _); [|done]. cbn [mbind result_bind]. cbv beta.
  rewrite (step_stack env s1 _ 0 _ 0xa9 (op_hash hash160)) by (done || lia).
  destruct (op_hash _ s1) as [s2|]; [|done]. cbn [mbind result_bind].
  destruct (fail_if (stack_overflow (mkM s2 _ _)) _); [|done]. cbn [mbind result_bind]. cbv beta.
  rewrite step_h by done.
  destruct (fail_if (stack_overflow (mkM (s2 ++ [h]) _ _)) _); [|done]. cbn [mbind result_bind]. cbv beta.
  rewrite (step_stack env _ _ 0 _ 0x88 op_equalverify) by (done || lia).
  destruct (op_equalverify _) as [s3|]; [|done]. cbn [mbind result_bind].
  destruct (fail_if (stack_overflow (mkM s3 _ _)) _); [|done]. cbn [mbind result_bind]. cbv beta.
  rewrite step_exec by (done || lia).
  unfold run_opcode. change (dispatch 0xac (machine_arms env)) with (@None machine_op).
  change (dispatch 0xac (sig_arms env)) with (Some (op_checksig env)).
  unfold op_checksig. cbn [im stack].
  destruct (stack_pop s3) as [[pk s4]|]; [|done]. cbn [mbind result_bind].
  destruct (stack_pop s4) as [[sig s5]|]; [|done]. cbn [mbind result_bind].
  unfold checksig_code, script_code, run_check_sig, signed_code. cbn -[check_sig p2pkh fail_if stack_overflow].
  change (drop (Z.to_nat 0) (p2pkh h)) with (p2pkh h).
  destruct (len sig =? 0); by destruct (fail_if _ _).
Qed.

(** [p2pkh h] succeeds exactly on a stack that ends with a signature and a key
    hashing to [h], and replaces them by the outcome of the signature check;
    four items of room are needed above the rest of the stack. *)
Lemma p2pkh_exec tx i amount f h s s' :
  len h = 20 -> instructions (p2pkh h) = map Some (p2pkh_items h) ->
  execute_script (p2pkh h) s tx i amount f = Ok s' <->
  exists t sig pk, s = t ++ [sig; pk] /\ len t <= 996 /\ hash160 pk = h /\
    s' = t ++ [bool_item (check_sig tx i amount sig pk (signed_code (p2pkh h) sig) f false)].
Proof.
  intros Hh Hi. rewrite p2pkh_exec_run by done. unfold p2pkh_run. cbv zeta. cbn [e_tx e_input e_amount e_flags].
  split.
  - unfold op_dup, op_hash, op_equalverify. intros Hrun. run_inv.
    repeat match goal with
    | Hs : last (_ ++ [_]) = Some _ |- _ => rewrite last_snoc in Hs; injection Hs as ->
    | Hs : _ ++ [_] = _ ++ [_] |- _ => apply app_inj_tail in Hs as [? ?]; subst
    | Hs : negb _ = false |- _ => apply negb_false_iff, bool_decide_eq_true in Hs
    | Hs : stack_overflow _ = false |- _ => apply overflow_len in Hs; rewrite ?len_app, ?len_cons, ?len_nil in Hs
    end.
    eexists _, _, _. split; [by rewrite <- app_assoc|]. split; [lia|done].
  - intros (t & sig & pk & -> & Ht & Hk & ->). unfold op_dup, op_hash, op_equalverify.
    change [sig; pk] with ([sig] ++ [pk]). rewrite app_assoc, last_snoc. cbn [or_bad ok_or mbind result_bind].
    repeat (rewrite fail_if_false by (apply fits_stack; rewrite ?len_app, ?len_cons, ?len_nil; lia);
      cbn [mbind result_bind]; rewrite ?stack_pop_snoc; cbn [mbind result_bind]; cbv beta iota).
    rewrite bool_decide_eq_true_2 by done. cbn [negb fail_if guard_err mbind result_bind].
    repeat (rewrite fail_if_false by (apply fits_stack; rewrite ?len_app, ?len_cons, ?len_nil; lia);
      cbn [mbind result_bind]; rewrite ?stack_pop_snoc; cbn [mbind result_bind]; cbv beta iota).
    rewrite stack_pop_snoc. cbn [mbind result_bind]. cbv beta iota.
    rewrite fail_if_false by (apply fits_stack; rewrite ?len_app, ?len_cons, ?len_nil; lia). done.
Qed.


Lemma top_bool_item s c : top_is_false (s ++ [bool_item c]) = negb c.
Proof. unfold top_is_false. rewrite last_snoc. by destruct c. Qed.

(** The path of [verify_script] a pay-to-pubkey-hash output takes. *)
Lemma verify_script_p2pkh tx i prevs f prev txin h :
  prevs !! i = Some prev -> input tx !! i = Some txin ->
  script_pubkey prev = p2pkh h -> len h = 20 ->
  verify_script tx i prevs f =
    _ ← (if verify_bip110 f then bip110_check_pushes (script_sig txin) false else Ok tt);
    saved ← execute_script (script_sig txin) [] tx i (value prev) (set_bip110 f false);
    s ← execute_script (p2pkh h) saved tx i (value prev) f;
    _ ← fail_if (top_is_false s) "script evaluation failed";
    fail_if (verify_witness f && negb (bool_decide (witness txin = []))) "witness unexpected".
Proof.
  intros Hp Hin Hspk Hh. unfold verify_script. rewrite Hp, Hin. cbv zeta. rewrite Hspk.
  assert (Hw : (if verify_witness f then parse_witness_program (p2pkh h) else None) = None).
  { destruct (verify_witness f); [|done]. unfold parse_witness_program, p2pkh. cbn [app].
    by destruct (_ || _). }
  rewrite Hw. unfold verify_legacy. cbv zeta.
  assert (Hnp : is_p2sh (p2pkh h) = false).
  { unfold is_p2sh, p2pkh. by rewrite !len_app, Hh. }
  by rewrite Hnp, !andb_false_r.
Qed.
End VerifyProofs.

(** ** Theorems *)

Section Theorems.
Context `{Hashes} `{ScriptLib} `{SigLib}.

(** C20: an input spending a pay-to-pubkey-hash output is accepted exactly when
    all of this holds: the scriptSig, whatever it contains, executes from the
    empty stack and leaves at least two items, the last of which hashes to the
    committed hash and the one before it is a signature valid for that key over
    the output's script (the signature itself deleted from it), with at most
    996 items below them (the script needs four more, of 1,000); with the
    witness rules on, the input has no witness; and with BIP-110 on, the
    scriptSig passes [bip110_check_pushes].  The decoder is assumed to read the
    25 bytes of the output script as its five instructions. *)
Theorem p2pkh_spend_iff (tx : Transaction) (i : nat) (prevs : list TxOut) (f : ScriptFlags)
    (prev : TxOut) (txin : TxIn) (h : bytes) :
  prevs !! i = Some prev -> input tx !! i = Some txin ->
  script_pubkey prev = p2pkh h -> len h = 20 ->
  instructions (p2pkh h) = map Some (p2pkh_items h) ->
  verify_script tx i prevs f = Ok tt <->
  (verify_bip110 f = true -> bip110_check_pushes (script_sig txin) false = Ok tt) /\
  (verify_witness f = true -> witness txin = []) /\
  exists s sig pk,
    execute_script (script_sig txin) [] tx i (value prev) (set_bip110 f false) = Ok (s ++ [sig; pk]) /\
    len s <= 996 /\ hash160 pk = h /\
    check_sig tx i (value prev) sig pk (signed_code (p2pkh h) sig) f false = true.
Proof.
  intros Hp Hin Hspk Hh Hih. rewrite (verify_script_p2pkh tx i prevs f prev txin h) by done. split.
  - intros Hrun. run_inv.
    match goal with Hx : execute_script (p2pkh h) _ _ _ _ _ = Ok _ |- _ =>
      apply p2pkh_exec in Hx as (s & sig & pk & -> & Hs & Hk & ->); [|done|done] end.
    match goal with Ht : top_is_false _ = false |- _ => rewrite top_bool_item in Ht; apply negb_false_iff in Ht end.
    split_and!; [intros Hbip|intros Hw|by exists s, sig, pk].
    + match goal with Hx : context [bip110_check_pushes] |- _ = Ok ?u => rewrite Hbip in Hx; rewrite Hx end.
      by destruct x.
    + rewrite Hw in Hrun. by apply negb_false_iff, bool_decide_eq_true in Hrun.
  - intros (Hb & Hw & s & sig & pk & Hrun & Hs & Hk & Hc).
    assert (Hb' : (if verify_bip110 f then bip110_check_pushes (script_sig txin) false else Ok tt) = Ok tt).
    { destruct (verify_bip110 f); auto. }
    rewrite Hb'. cbn [mbind result_bind]. rewrite Hrun. cbn [mbind result_bind].
    rewrite (proj2 (p2pkh_exec tx i (value prev) f h (s ++ [sig; pk]) _ Hh Hih)) by eauto 10.
    cbn [mbind result_bind]. rewrite top_bool_item, Hc. cbn [negb fail_if guard_err mbind result_bind].
    destruct (verify_witness f); [|done]. by rewrite bool_decide_eq_true_2 by auto.
Qed.

(** BIP-110 is a soft fork: an input accepted under the BIP-110 rules is
    accepted without them, whatever the other flags. *)
Theorem bip110_input_softfork (tx : Transaction) (i : nat) (prevs : list TxOut) (f : ScriptFlags) :
  verify_script tx i prevs (set_bip110 f true) = Ok tt ->
  verify_script tx i prevs (set_bip110 f false) = Ok tt.
Proof. apply verify_script_bip110. Qed.

(** The items of a taproot witness before its annex, and the annex. *)
Definition annex_split (wit items : list bytes) (annex : option Annex) : Prop :=
  (has_annex wit = false /\ items = wit /\ annex = None) \/
  (exists a, has_annex wit = true /\ wit = items ++ [a] /\ annex = annex_new a /\ is_Some annex).

Lemma has_annex_snoc wit :
  has_annex wit = true -> exists items a, wit = items ++ [a] /\ items <> [].
Proof.
  unfold has_annex. destruct (Nat.leb_spec 2 (length wit)) as [Hl|]; [|done].
  destruct wit as [|a items _] using rev_ind; [done|]. intros _. exists items, a. split; [done|].
  intros ->. cbn in Hl. lia.
Qed.

(** What a successful script path verified. *)
Lemma script_path_inv tx i prevs key w annex b :
  (2 <= length w)%nat -> verify_taproot_script_path tx i prevs key w annex b = Ok tt ->
  exists args script cb control, w = args ++ [script; cb] /\ control_block_decode cb = Some control /\
    verify_taproot_commitment control key script = true /\
    ((control_leaf_is_tapscript control = true /\ exists s top,
        execute_tapscript (mkTenv script tx i prevs (tap_leaf_hash script) annex b) args = Ok (s ++ [top]) /\
        cast_to_bool top = true) \/
     (control_leaf_is_tapscript control = false /\ b = false)).
Proof.
  intros Hl Hrun. destruct w as [|cb w _] using rev_ind; [cbn in Hl; lia|].
  destruct w as [|script args _] using rev_ind; [cbn in Hl; lia|].
  unfold verify_taproot_script_path in Hrun. rewrite <- app_assoc in Hrun |- *. cbn [app] in *.
  assert (Hn : length (args ++ [script; cb]) = S (S (length args))) by (rewrite length_app; cbn; lia).
  rewrite Hn in Hrun. cbv zeta in Hrun.
  rewrite (lookup_app_r args _ (S (S (length args)) - 1)), (lookup_app_r args _ (S (S (length args)) - 2)) in Hrun by lia.
  replace (S (S (length args)) - 1 - length args)%nat with 1%nat in Hrun by lia.
  replace (S (S (length args)) - 2 - length args)%nat with 0%nat in Hrun by lia.
  replace (S (S (length args)) - 2)%nat with (length args) in Hrun by lia.
  rewrite take_app_length in Hrun. cbn [lookup list_lookup default] in Hrun. unfold id in Hrun.
  run_inv.
  match goal with Hc : negb _ = false |- _ => apply negb_false_iff in Hc end.
  eexists args, script, cb, _. split_and!; [done|eassumption|done|].
  destruct (control_leaf_is_tapscript _) eqn:Hv.
  - left. split; [done|]. run_inv. unfold top_is_false in *.
    destruct (last _) as [top|] eqn:Hlast; [|done]. apply last_Some in Hlast as [s ->].
    match goal with Hc : negb _ = false |- _ => apply negb_false_iff in Hc end. eauto.
  - right. split; [done|]. by destruct b.
Qed.

(** C28: no taproot output is spent without authorisation.  When
    [verify_witness_v1] succeeds, the items of the witness before its annex are
    either one signature, valid under the output key for the transaction's
    signature hash (which covers the annex), or arguments, a leaf script and a
    control block such that the output key commits to the script and, for the
    leaf version of tapscript, the script ran on the arguments and left a true
    item on top of the stack; a leaf of another version is accepted without
    running it, only with BIP-110 off (the upgrade rule of BIP 341).  What a
    control block commits to is the library's [verify_taproot_commitment]. *)
Theorem taproot_spend_authorised (tx : Transaction) (i : nat) (prevs : list TxOut)
    (program : bytes) (wit : list bytes) (b : bool) :
  verify_witness_v1 tx i prevs program wit b = Ok tt ->
  exists key items annex, xonly_from_slice program = Some key /\ annex_split wit items annex /\
    ((exists item sig ty digest, items = [item] /\ parse_schnorr_sig item = Ok (sig, ty) /\
        taproot_sighash tx i prevs annex None ty = Some digest /\
        verify_schnorr sig digest key = true) \/
     (exists args script cb control, items = args ++ [script; cb] /\
        control_block_decode cb = Some control /\
        verify_taproot_commitment control key script = true /\
        ((control_leaf_is_tapscript control = true /\ exists s top,
            execute_tapscript (mkTenv script tx i prevs (tap_leaf_hash script) annex b) args = Ok (s ++ [top]) /\
            cast_to_bool top = true) \/
         (control_leaf_is_tapscript control = false /\ b = false)))).
Proof.
  intros Hrun. unfold verify_witness_v1 in Hrun.
  set (w := if has_annex wit then take (length wit - 1) wit else wit) in Hrun.
  apply bind_Ok_inv in Hrun as ([] & Hne & Hrun). apply fail_if_Ok, bool_decide_eq_false in Hne.
  apply bind_Ok_inv in Hrun as ([] & _ & Hrun).
  apply bind_Ok_inv in Hrun as (annex & Hannex & Hrun).
  assert (Hw : annex_split wit w annex /\ (1 <= length w)%nat).
  { subst w. unfold annex_split. destruct (has_annex wit) eqn:Ha.
    - destruct (has_annex_snoc wit Ha) as (items & a & -> & Hi).
      rewrite last_snoc, length_app in *. cbn [length default] in *.
      rewrite Nat.add_sub, take_app_length. run_inv.
      split; [right; exists a; eauto|]. destruct items; cbn; [done|lia].
    - injection Hannex as <-. split; [by left|]. destruct wit; cbn; [done|lia]. }
  destruct Hw as [Hsplit Hlen]. apply bind_Ok_inv in Hrun as (key & Hkey & Hrun).
  apply or_bad_Ok in Hkey. exists key, w, annex. split; [done|]. split; [done|].
  destruct (Nat.eqb_spec (length w) 1) as [Hone|Hmore].
  - left. run_inv. unfold verify_taproot_key_spend in Hrun. run_inv. apply negb_false_iff in Hrun.
    destruct w as [|item [|]]; cbn in Hone; try lia. cbn [head default] in *. eauto 10.
  - right. apply script_path_inv in Hrun; [done|lia].
Qed.

(** a pay-to-script-hash output is spent only by revealing, as the last
    item pushed by the scriptSig, a redeem script that hashes to the committed
    hash; and when it is not itself a witness program it was executed and left
    a true value. *)
Theorem p2sh_spend_reveals_script (tx : Transaction) (i : nat) (prevs : list TxOut) (f : ScriptFlags)
    (prev : TxOut) (txin : TxIn) (h : bytes) :
  prevs !! i = Some prev -> input tx !! i = Some txin ->
  script_pubkey prev = [0xa9; 0x14] ++ h ++ [0x87] -> len h = 20 ->
  instructions (script_pubkey prev) = map Some [Op 0xa9; PushBytes h; Op 0x87] ->
  verify_p2sh f = true ->
  verify_script tx i prevs f = Ok tt ->
  exists s redeem,
    execute_script (script_sig txin) [] tx i (value prev) (set_bip110 f false) = Ok (s ++ [redeem]) /\
    hash160 redeem = h /\
    ((if verify_witness f then parse_witness_program redeem else None) = None ->
     exists s', execute_script redeem s tx i (value prev) f = Ok s' /\ top_is_false s' = false).
Proof.
  intros Hp Hin Hspk Hh Hi Hf Hrun. unfold verify_script in Hrun. rewrite Hp, Hin in Hrun.
  assert (Hw : (if verify_witness f then parse_witness_program (script_pubkey prev) else None) = None).
  { destruct (verify_witness f); [|done]. rewrite Hspk. unfold parse_witness_program. cbn [app].
    by destruct (_ || _). }
  assert (Hp2 : is_p2sh (script_pubkey prev) = true).
  { assert (Hl : length h = 20%nat) by (unfold len in Hh; lia).
    assert (H22 : ([0xa9; 0x14] ++ h ++ [0x87]) !! 22%nat = Some 0x87).
    { rewrite !lookup_app_r by (cbn; lia). by rewrite Hl. }
    rewrite Hspk. unfold is_p2sh, byte_at. by rewrite H22, !len_app, Hh. }
  assert (Hdrop : take 20 (drop 2 (script_pubkey prev)) = h).
  { rewrite Hspk. change (drop 2 _) with (h ++ [0x87]). apply take_app_length'. unfold len in Hh. lia. }
  rewrite Hw in Hrun. unfold verify_legacy in Hrun. cbv zeta in Hrun. rewrite Hp2, Hf in Hrun.
  cbn [andb] in Hrun. run_inv.
  match goal with Hs : execute_script (script_sig txin) _ _ _ _ _ = Ok ?s |- _ => rename s into saved, Hs into Hsaved end.
  match goal with Hr : verify_p2sh_redeem _ _ _ _ _ _ _ = Ok _ |- _ =>
    unfold verify_p2sh_redeem in Hr; rename Hr into Hredeem end.
  destruct (vec_pop saved) as [[redeem s]|] eqn:Hpop.
  - apply vec_pop_inv in Hpop as ->. exists s, redeem. split; [done|]. run_inv.
    match goal with Hn : negb (bool_decide _) = false |- _ => apply negb_false_iff, bool_decide_eq_true in Hn end.
    rewrite Hdrop in *. split; [done|]. intros Hn. rewrite Hn in Hredeem. run_inv. eauto.
  - apply vec_pop_None in Hpop. subst saved. exfalso.
    match goal with Hx : execute_script _ [] _ _ _ f = Ok _ |- _ => revert Hx end.
    unfold execute_script, execute_script_inner. set (env := mkEnv _ _ _ _ _ _). cbn [e_script env].
    rewrite Hi. cbn [map foldM]. unfold init_state.
    rewrite (step_stack env [] 0 0 0 0xa9 (op_hash hash160)) by (done || lia).
    destruct (fail_if (len _ >? _) _); cbn [mbind result_bind]; discriminate.
Qed.
End Theorems.

(** ** The theorems at concrete inputs *)

Section Examples.
#[local] Existing Instance Sample.hashes.
#[local] Existing Instance SampleScript.script_lib.
#[local] Existing Instance Sample.sig_lib.

Definition ex_key : bytes := replicate 33 7.
Definition ex_sig : bytes := ex_key ++ [1].
Definition ex_sigscript : bytes := [34] ++ ex_sig ++ [33] ++ ex_key.
Definition ex_tx : Transaction := Sample.tx 0 0xffffffff ex_sigscript [].

Definition ex_prev : TxOut := mkTxOut 5 (p2pkh (replicate 20 7)).
Definition ex_txin : TxIn := mkTxIn (mkOutPoint (replicate 32 1) 0) ex_sigscript 0xffffffff [].

(** A P2PKH spend with a valid signature. *)
Lemma p2pkh_spend_iff_witness : verify_script ex_tx 0 [ex_prev] flags_all = Ok tt.
Proof.
  apply (p2pkh_spend_iff ex_tx 0 [ex_prev] flags_all ex_prev ex_txin (replicate 20 7)); try reflexivity.
  split; [intros _; reflexivity|]. split; [intros _; reflexivity|].
  exists [], ex_sig, ex_key. split; [vm_compute; reflexivity|].
  split; [vm_compute; congruence|]. split; reflexivity.
Defined.

(** The same spend under BIP-110. *)
Lemma bip110_input_softfork_witness :
  verify_script ex_tx 0 [mkTxOut 5 (p2pkh (replicate 20 7))] (set_bip110 flags_all false) = Ok tt.
Proof. apply bip110_input_softfork. reflexivity. Defined.

(** A script-path spend of the leaf script [OP_1 OP_ADD] with the argument 1. *)
Lemma taproot_spend_authorised_witness :
  verify_witness_v1 (Sample.tx 0 0 [] []) 0 [mkTxOut 5 ([0x51; 0x20] ++ replicate 32 9)]
    (replicate 32 9) [[1]; [0x51; 0x93]; replicate 33 0xc0] true = Ok tt /\
  exists key : bytes, Some (replicate 32 9) = Some key.
Proof.
  assert (Hrun : verify_witness_v1 (Sample.tx 0 0 [] []) 0 [mkTxOut 5 ([0x51; 0x20] ++ replicate 32 9)]
    (replicate 32 9) [[1]; [0x51; 0x93]; replicate 33 0xc0] true = Ok tt) by (vm_compute; reflexivity).
  split; [exact Hrun|].
  destruct (taproot_spend_authorised _ _ _ _ _ _ Hrun) as (key & items & annex & Hk & _).
  exists key. exact Hk.
Defined.

(** A P2SH output whose redeem script is [OP_1], padded. *)
Lemma p2sh_spend_reveals_script_witness :
  exists s redeem,
    execute_script [0x01; 0x51] [] (Sample.tx 0 0 [0x01; 0x51] []) 0 5 (set_bip110 flags_all false)
      = Ok (s ++ [redeem]) /\
    hash160 redeem = 0x51 :: replicate 19 0.
Proof.
  edestruct (p2sh_spend_reveals_script (Sample.tx 0 0 [0x01; 0x51] []) 0
    [mkTxOut 5 ([0xa9; 0x14] ++ (0x51 :: replicate 19 0) ++ [0x87])] flags_all
    (mkTxOut 5 ([0xa9; 0x14] ++ (0x51 :: replicate 19 0) ++ [0x87]))
    (mkTxIn (mkOutPoint (replicate 32 1) 0) [0x01; 0x51] 0 []) (0x51 :: replicate 19 0))
    as (s & redeem & Hrun & Hh & _); try (vm_compute; reflexivity).
  exists s, redeem. split; [exact Hrun|exact Hh].
Defined.
End Examples.
