(* ===== verification/Consensus.v ===== *)
(** * Consensus parameters

    [ConsensusParams] of [bitcoinpr-core/src/consensus.rs] for the five
    networks, the buried-deployment test, the difficulty interval and the block
    subsidy, with the theorem that bounds the money supply.  The genesis block
    (built by the [bitcoin] crate) and the DNS seeds of the record are left
    out; the locators of header sync take the genesis hash as an argument. *)

From Stdlib Require Import ZArith Lia.
From stdpp Require Import base option numbers list strings.
From S2P Require Import Prelude Bytes.

(** ** Data *)

Inductive Network : Type := Bitcoin | Testnet | Testnet4 | Regtest | Signet.

#[global] Instance Network_eq_dec : EqDecision Network.
Proof. solve_decision. Defined.

(** [bip110::Bip110Deployment], a field of the parameters. *)
Record Bip110Deployment := mkBip110Deployment {
  period : Z;
  bit : Z;
  start_time : Z;
  threshold : Z;
  lock_in_floor_height : Z;
  mandatory_window : Z * Z;
  active_duration : Z }.

Definition RETARGET_PERIOD : Z := 2016.

Definition bip110_mainnet : Bip110Deployment := {|
  period := RETARGET_PERIOD; bit := 4; start_time := 1764547200; threshold := 1109;
  lock_in_floor_height := 963648; mandatory_window := (961632, 963647); active_duration := 52416 |}.

Record ConsensusParams := mkConsensusParams {
  network : Network;
  magic : bytes;
  default_port : Z;
  pow_limit : bytes;
  pow_target_timespan : Z;
  pow_target_spacing : Z;
  subsidy_halving_interval : Z;
  bip16_time : Z;
  bip34_height : Z;
  bip65_height : Z;
  csv_height : Z;
  bip66_height : Z;
  segwit_height : Z;
  taproot_height : Z;
  assume_valid : option bytes;
  min_chain_work : bytes;
  pow_no_retargeting : bool;
  pow_allow_min_difficulty_blocks : bool;
  coinbase_maturity : Z;
  max_block_weight : Z;
  max_datacarrier_size : Z;
  datacarrier : bool;
  permit_bare_multisig : bool;
  reject_parasites : bool;
  reject_tokens : bool;
  bip110_activation_height : option Z;
  bip110_deployment : option Bip110Deployment;
  signet_challenge : option bytes }.

(** A 64-digit hexadecimal literal as big-endian bytes. *)
Definition chain_work_from_hex (n : Z) : bytes := to_be 32 n.

(** [BlockHash::from_str]: hashes are displayed byte-reversed. *)
Definition hash_from_hex (n : Z) : bytes := to_le 32 n.

Definition pow_limit_mainnet : bytes := <[4%nat := 0xff]> (<[5%nat := 0xff]> (replicate 32 0)).
Definition pow_limit_testnet : bytes := pow_limit_mainnet.
Definition pow_limit_signet : bytes := [0x00; 0x00; 0x03; 0x77; 0xae] ++ replicate 27 0.
Definition pow_limit_regtest : bytes := <[0%nat := 0x7f]> (replicate 32 0xff).

(** ** The networks *)

Definition mainnet : ConsensusParams := {|
  network := Bitcoin; magic := [0xf9; 0xbe; 0xb4; 0xd9]; default_port := 8333;
  pow_limit := pow_limit_mainnet; pow_target_timespan := 14 * 24 * 60 * 60;
  pow_target_spacing := 10 * 60; subsidy_halving_interval := 210000;
  bip16_time := 1333238400; bip34_height := 227931; bip65_height := 388381;
  csv_height := 419328; bip66_height := 363725; segwit_height := 481824;
  taproot_height := 709632;
  assume_valid := Some (hash_from_hex 0x0000000000000000000320283a032748cef8227873ff4872689bf23f1cda83a5);
  min_chain_work := chain_work_from_hex 0x0000000000000000000000000000000000000001128750f82f4c366153a3a030;
  pow_no_retargeting := false; pow_allow_min_difficulty_blocks := false;
  coinbase_maturity := 100; max_block_weight := 4000000; max_datacarrier_size := 83;
  datacarrier := true; permit_bare_multisig := false; reject_parasites := true;
  reject_tokens := true; bip110_activation_height := None;
  bip110_deployment := Some bip110_mainnet; signet_challenge := None |}.

Definition testnet : ConsensusParams := {|
  network := Testnet; magic := [0x0b; 0x11; 0x09; 0x07]; default_port := 18333;
  pow_limit := pow_limit_testnet; pow_target_timespan := 14 * 24 * 60 * 60;
  pow_target_spacing := 10 * 60; subsidy_halving_interval := 210000;
  bip16_time := 1333238400; bip34_height := 21111; bip65_height := 581885;
  csv_height := 770112; bip66_height := 330776; segwit_height := 834624;
  taproot_height := 2011000; assume_valid := None;
  min_chain_work := chain_work_from_hex 0x0000000000000000000000000000000000000000000017dde1c649f3708d14b6;
  pow_no_retargeting := false; pow_allow_min_difficulty_blocks := true;
  coinbase_maturity := 100; max_block_weight := 4000000; max_datacarrier_size := 83;
  datacarrier := true; permit_bare_multisig := false; reject_parasites := true;
  reject_tokens := true; bip110_activation_height := None;
  bip110_deployment := None; signet_challenge := None |}.

Definition testnet4 : ConsensusParams := {|
  network := Testnet4; magic := [0x1c; 0x16; 0x3f; 0x28]; default_port := 48333;
  pow_limit := pow_limit_testnet; pow_target_timespan := 14 * 24 * 60 * 60;
  pow_target_spacing := 10 * 60; subsidy_halving_interval := 210000;
  bip16_time := 1333238400; bip34_height := 1; bip65_height := 1;
  csv_height := 1; bip66_height := 1; segwit_height := 1;
  taproot_height := 1; assume_valid := None;
  min_chain_work := chain_work_from_hex 0x0000000000000000000000000000000000000000000009a0fe15d0177d086304;
  pow_no_retargeting := false; pow_allow_min_difficulty_blocks := true;
  coinbase_maturity := 100; max_block_weight := 4000000; max_datacarrier_size := 83;
  datacarrier := true; permit_bare_multisig := false; reject_parasites := true;
  reject_tokens := true; bip110_activation_height := None;
  bip110_deployment := None; signet_challenge := None |}.

Definition regtest : ConsensusParams := {|
  network := Regtest; magic := [0xfa; 0xbf; 0xb5; 0xda]; default_port := 18444;
  pow_limit := pow_limit_regtest; pow_target_timespan := 14 * 24 * 60 * 60;
  pow_target_spacing := 10 * 60; subsidy_halving_interval := 150;
  bip16_time := 0; bip34_height := 1; bip65_height := 1;
  csv_height := 1; bip66_height := 1; segwit_height := 0;
  taproot_height := 0; assume_valid := None; min_chain_work := replicate 32 0;
  pow_no_retargeting := true; pow_allow_min_difficulty_blocks := true;
  coinbase_maturity := 100; max_block_weight := 4000000; max_datacarrier_size := 83;
  datacarrier := true; permit_bare_multisig := false; reject_parasites := true;
  reject_tokens := true; bip110_activation_height := None;
  bip110_deployment := None; signet_challenge := None |}.

(** [OP_1 <33 bytes> <33 bytes> OP_2 OP_CHECKMULTISIG] *)
Definition signet_default_challenge : bytes :=
  [0x51; 0x21] ++ to_be 33 0x03ad5e0edad18cb1f0fc0d28a3d4f1f3e445640337489abb10404f2d1e086be430
  ++ [0x21] ++ to_be 33 0x0359ef5021964fe22d6f8e05b2463c9540ce96883fe3b278760f048f5189f2e6c4
  ++ [0x52; 0xae].

Definition signet : ConsensusParams := {|
  network := Signet; magic := [0x0a; 0x03; 0xcf; 0x40]; default_port := 38333;
  pow_limit := pow_limit_signet; pow_target_timespan := 14 * 24 * 60 * 60;
  pow_target_spacing := 10 * 60; subsidy_halving_interval := 210000;
  bip16_time := 0; bip34_height := 1; bip65_height := 1;
  csv_height := 1; bip66_height := 1; segwit_height := 1;
  taproot_height := 1; assume_valid := None; min_chain_work := replicate 32 0;
  pow_no_retargeting := false; pow_allow_min_difficulty_blocks := true;
  coinbase_maturity := 100; max_block_weight := 4000000; max_datacarrier_size := 83;
  datacarrier := true; permit_bare_multisig := false; reject_parasites := true;
  reject_tokens := true; bip110_activation_height := None;
  bip110_deployment := None; signet_challenge := Some signet_default_challenge |}.

Definition for_network (n : Network) : ConsensusParams :=
  match n with
  | Bitcoin => mainnet
  | Testnet => testnet
  | Testnet4 => testnet4
  | Regtest => regtest
  | Signet => signet
  end.

(** ** Operations *)

Definition deployment_active (p : ConsensusParams) (name : string) (height : Z) : bool :=
  if bool_decide (name = "bip34"%string) then height >=? bip34_height p
  else if bool_decide (name = "bip66"%string) then height >=? bip66_height p
  else if bool_decide (name = "bip65"%string) || bool_decide (name = "cltv"%string)
  then height >=? bip65_height p
  else if bool_decide (name = "csv"%string) then height >=? csv_height p
  else if bool_decide (name = "segwit"%string) then height >=? segwit_height p
  else if bool_decide (name = "taproot"%string) then height >=? taproot_height p
  else false.

Definition difficulty_adjustment_interval (p : ConsensusParams) : Z :=
  u32 (pow_target_timespan p / pow_target_spacing p).

Definition INITIAL_SUBSIDY : Z := 5000000000.

(** A zero halving interval panics in the code; every network has a positive
    one. *)
Definition block_subsidy (p : ConsensusParams) (height : Z) : Z :=
  let halvings := height / subsidy_halving_interval p in
  if halvings >=? 64 then 0 else Z.shiftr INITIAL_SUBSIDY halvings.

(** [validation::MAX_MONEY] *)
Definition MAX_MONEY : Z := 21000000 * 100000000.

(** ** The money supply *)

(** The sum of the subsidies of the blocks at heights below [n]. *)
Fixpoint total_subsidy (p : ConsensusParams) (n : nat) : Z :=
  match n with
  | O => 0
  | S n => total_subsidy p n + block_subsidy p (Z.of_nat n)
  end.

(** The subsidies of the first [q] halving epochs, one block each. *)
Fixpoint epochs (q : nat) : Z :=
  match q with O => 0 | S q => epochs q + Z.shiftr INITIAL_SUBSIDY (Z.of_nat q) end.

Lemma subsidy_late k : 33 <= k -> Z.shiftr INITIAL_SUBSIDY k = 0.
Proof. intros Hk. apply Z.shiftr_eq_0; [done|]. vm_compute Z.log2. lia. Qed.

Lemma subsidy_nonneg k : 0 <= Z.shiftr INITIAL_SUBSIDY k.
Proof. by apply Z.shiftr_nonneg. Qed.

(** The cut-off at 64 halvings never changes the result. *)
Lemma block_subsidy_eq p h :
  0 < subsidy_halving_interval p -> 0 <= h ->
  block_subsidy p h = Z.shiftr INITIAL_SUBSIDY (h / subsidy_halving_interval p).
Proof.
  intros Hi Hh. unfold block_subsidy. destruct (_ >=? 64) eqn:Hge; [|done].
  bool_to_prop. by rewrite subsidy_late by lia.
Qed.

Lemma block_subsidy_bounds p h :
  0 < subsidy_halving_interval p -> 0 <= h -> 0 <= block_subsidy p h <= INITIAL_SUBSIDY.
Proof.
  intros Hi Hh. rewrite block_subsidy_eq by done. split; [apply subsidy_nonneg|].
  assert (0 <= h / subsidy_halving_interval p) by (apply Z.div_pos; lia).
  rewrite Z.shiftr_div_pow2 by done. apply Z.div_le_upper_bound; [apply Z.pow_pos_nonneg; lia|].
  pose proof (Z.pow_pos_nonneg 2 (h / subsidy_halving_interval p) ltac:(lia) ltac:(done)).
  assert (0 <= INITIAL_SUBSIDY) by (by compute). nia.
Qed.

Lemma epochs_late q : (33 <= q)%nat -> epochs q = 9999999989.
Proof.
  induction 1 as [|q Hq IH]; [reflexivity|]. cbn [epochs]. rewrite IH, subsidy_late by lia. lia.
Qed.

Lemma epochs_mono q : epochs q <= epochs (S q).
Proof. cbn [epochs]. pose proof (subsidy_nonneg (Z.of_nat q)). lia. Qed.

Lemma epochs_bound q : epochs q <= 9999999989.
Proof.
  destruct (Nat.le_gt_cases 33 q) as [Hq|Hq]; [by rewrite epochs_late|].
  rewrite <- (epochs_late 33) by lia. induction Hq as [|m Hm IH]; [apply epochs_mono|].
  etransitivity; [exact IH|apply epochs_mono].
Qed.

Lemma total_subsidy_eq p n :
  let i := subsidy_halving_interval p in
  let q := Z.of_nat n / i in
  0 < i ->
  total_subsidy p n = i * epochs (Z.to_nat q) + (Z.of_nat n mod i) * Z.shiftr INITIAL_SUBSIDY q.
Proof.
  cbv zeta. intros Hi. set (i := subsidy_halving_interval p) in *.
  induction n as [|n IH]; [change (Z.of_nat 0) with 0; rewrite Z.div_0_l, Z.mod_0_l by lia; change (epochs (Z.to_nat 0)) with 0; cbn [total_subsidy]; lia|].
  cbn [total_subsidy]. rewrite IH, block_subsidy_eq by lia. fold i.
  pose proof (Z.div_mod (Z.of_nat n) i ltac:(lia)) as Hd.
  pose proof (Z.mod_pos_bound (Z.of_nat n) i Hi) as Hm.
  set (q := Z.of_nat n / i) in *. set (r := Z.of_nat n mod i) in *.
  assert (Hq : 0 <= q) by (apply Z.div_pos; lia).
  rewrite Nat2Z.inj_succ. destruct (Z.eq_dec (r + 1) i) as [Hr|Hr].
  - replace (Z.succ (Z.of_nat n)) with ((q + 1) * i) by nia.
    rewrite Z.div_mul, Z.mod_mul by lia. replace (Z.to_nat (q + 1)) with (S (Z.to_nat q)) by lia.
    cbn [epochs]. rewrite Z2Nat.id by lia. nia.
  - replace (Z.succ (Z.of_nat n)) with (r + 1 + q * i) by nia.
    rewrite Z.div_add, Z.mod_add, Z.div_small, Z.mod_small by lia. rewrite Z.add_0_l. nia.
Qed.

Lemma total_subsidy_bound p n :
  0 < subsidy_halving_interval p ->
  total_subsidy p n <= subsidy_halving_interval p * 9999999989.
Proof.
  intros Hi. rewrite total_subsidy_eq by done.
  set (i := subsidy_halving_interval p) in *. set (q := Z.of_nat n / i).
  pose proof (Z.mod_pos_bound (Z.of_nat n) i Hi) as Hm.
  assert (Hq : 0 <= q) by (apply Z.div_pos; lia).
  pose proof (epochs_bound (S (Z.to_nat q))) as He. cbn [epochs] in He. rewrite Z2Nat.id in He by done.
  pose proof (subsidy_nonneg q). nia.
Qed.

(** C24: the subsidies of any number of blocks sum to at most the halving
    interval times 9999999989 satoshi, reached exactly after 33 halvings; with
    the interval of any of the networks that is below [MAX_MONEY]. *)
Theorem supply_bounded (p : ConsensusParams) (n : nat) :
  0 < subsidy_halving_interval p <= 210000 ->
  total_subsidy p n <= subsidy_halving_interval p * 9999999989 < MAX_MONEY /\
  (33 * subsidy_halving_interval p <= Z.of_nat n ->
   total_subsidy p n = subsidy_halving_interval p * 9999999989).
Proof.
  intros Hi. split.
  - split; [apply total_subsidy_bound; lia|]. unfold MAX_MONEY. lia.
  - intros Hn. rewrite total_subsidy_eq by lia.
    assert (Hq : 33 <= Z.of_nat n / subsidy_halving_interval p) by (apply Z.div_le_lower_bound; lia).
    rewrite epochs_late, subsidy_late by lia. lia.
Qed.

(** Every network is covered; mainnet stops at 20999999.9769 BTC. *)
Lemma supply_bounded_witness :
  (forall net, 0 < subsidy_halving_interval (for_network net) <= 210000) /\
  total_subsidy mainnet (Z.to_nat 7000000) = 2099999997690000.
Proof.
  split; [intros []; vm_compute; split; congruence|].
  destruct (supply_bounded mainnet (Z.to_nat 7000000)) as [_ He]; [cbn; lia|].
  rewrite He; [reflexivity|]. rewrite Z2Nat.id by lia. cbn. lia.
Defined.
