(* ===== verification/Validation.v ===== *)
(** * Block and transaction validation

    The context-free and header-context checks of
    [bitcoinpr-core/src/validation.rs]: header, merkle root, transaction
    sanity, weight, difficulty retarget, coinbase, witness commitment,
    median-time-past and the lock-time rules.  The header index is read
    through a lookup function; the network-adjusted clock is an argument. *)

From Stdlib Require Import ZArith Lia.
From stdpp Require Import base option numbers list gmap strings sorting.
From S2P Require Import Prelude Bytes U256 Types Merkle Consensus.

(** [bitcoinpr_storage::StoredHeader] *)
Record StoredHeader := mkStored {
  sh_header : Header;
  sh_height : Z;
  chain_work : bytes }.

#[global] Instance StoredHeader_eq_dec : EqDecision StoredHeader.
Proof. solve_decision. Defined.

(** [HeaderIndex::get_header] *)
Abbreviation header_lookup := (hash256 -> StorageResult (option StoredHeader)).

(** [get_header(hash).ok().flatten()] *)
Definition lookup_ok (get_header : header_lookup) (h : hash256) : option StoredHeader :=
  match get_header h with Ok o => o | Err _ => None end.

(** The derived order on [OutPoint] that [sort_unstable] uses. *)
Class OutPointOrd := {
  outpoint_le : relation OutPoint;
  outpoint_le_dec :: RelDecision outpoint_le }.

Definition HASH_ZERO : hash256 := replicate 32 0.

(** ** Headers *)

(** A loop that may fail to terminate on a corrupt index. *)
Inductive outcome (A : Type) : Type := Done (a : A) | OutOfFuel.
Arguments Done {A} a.
Arguments OutOfFuel {A}.

Section Headers.
Context `{TxLib}.

(** [Target > Target] on the big-endian representation. *)
Definition target_gt (a b : bytes) : bool :=
  match lex_cmp a b with Gt => true | _ => false end.

Definition header_target (h : Header) : bytes := target_of_bits (bits h).

(** [now] is [time::adjusted_time_secs()]; the casts to [u32] wrap. *)
Definition validate_block_header (header : Header) (height : Z) (prev_header : option Header)
    (params : ConsensusParams) (now : Z) : CoreResult unit :=
  let is_signet := bool_decide (is_Some (signet_challenge params)) in
  _ ← guard_err (negb is_signet && negb (header_pow_ok header)) InvalidProofOfWork;
  _ ← guard_err (target_gt (header_target header) (pow_limit params))
        (InvalidDifficultyTarget "target exceeds pow limit");
  _ ← match prev_header with
      | Some prev =>
          guard_err (negb (bool_decide (prev_blockhash header = block_hash prev)))
            (InvalidBlockHash (block_hash prev) (prev_blockhash header))
      | None =>
          if height =? 0 then
            guard_err (negb (bool_decide (prev_blockhash header = HASH_ZERO)))
              (InvalidBlockHash HASH_ZERO (prev_blockhash header))
          else Ok tt
      end;
  let now := u32 (Z.max now 0) in
  let max_future_time := u32 (now + 2 * 60 * 60) in
  guard_err (time header >? max_future_time)
    (InvalidTimestamp "block time is more than 2 hours in the future").

Definition validate_block_weight (block : Block) (params : ConsensusParams) : CoreResult unit :=
  guard_err (block_weight block >? max_block_weight params)
    (BlockWeightExceeded (block_weight block) (max_block_weight params)).

(** [current - last], clamped to a quarter and four times the timespan. *)
Definition clamped_timespan (last current : Header) (params : ConsensusParams) : Z :=
  let min_timespan := pow_target_timespan params / 4 in
  let max_timespan := pow_target_timespan params * 4 in
  Z.min (Z.max (time current - time last) min_timespan) max_timespan.

Definition calculate_next_work_required (last_retarget_header current_header : Header)
    (params : ConsensusParams) : Z :=
  if pow_no_retargeting params then bits current_header
  else
    let actual_timespan := clamped_timespan last_retarget_header current_header params in
    let old_bytes := header_target current_header in
    let new_target :=
      multiply_target_by_ratio old_bytes actual_timespan (pow_target_timespan params) in
    let final_target :=
      if target_gt new_target (pow_limit params) then pow_limit params else new_target in
    to_compact_lossy final_target.

Section Lookup.
Context (lookup : hash256 -> option StoredHeader).

(** The min-difficulty scan of the test networks. *)
Fixpoint scan_min_difficulty (fuel : nat) (interval limit_bits : Z) (scan : StoredHeader) : outcome StoredHeader :=
  if negb (sh_height scan mod interval =? 0) && (bits (sh_header scan) =? limit_bits) then
    match fuel with
    | O => OutOfFuel
    | S f =>
        match lookup (prev_blockhash (sh_header scan)) with
        | Some h => scan_min_difficulty f interval limit_bits h
        | None => Done scan
        end
    end
  else Done scan.

(** The walk back to the first block of the period; [fuel] is an upper bound
    on the height of [start], which strictly decreases. *)
Fixpoint walk_to_height (fuel : nat) (target : Z) (start : StoredHeader) : option StoredHeader :=
  if sh_height start >? target then
    match fuel, lookup (prev_blockhash (sh_header start)) with
    | S f, Some parent =>
        if sh_height parent <? sh_height start then walk_to_height f target parent else None
    | _, _ => None
    end
  else Some start.

Definition get_next_work_required_with (fuel : nat) (params : ConsensusParams) (prev_hash : hash256)
    (prev_height candidate_time : Z) : outcome (option Z) :=
  match lookup prev_hash with
  | None => Done None
  | Some prev =>
      let next_height := u32 (prev_height + 1) in
      if pow_no_retargeting params then Done (Some (bits (sh_header prev)))
      else
        let interval := difficulty_adjustment_interval params in
        if negb (next_height mod interval =? 0) then
          if pow_allow_min_difficulty_blocks params then
            let pow_limit_bits := to_compact_lossy (pow_limit params) in
            if candidate_time >? u32 (time (sh_header prev) + u32 (u32 (pow_target_spacing params) * 2))
            then Done (Some pow_limit_bits)
            else
              match scan_min_difficulty fuel interval pow_limit_bits prev with
              | Done scan => Done (Some (bits (sh_header scan)))
              | OutOfFuel => OutOfFuel
              end
          else Done (Some (bits (sh_header prev)))
        else
          let period_start_height := u32 (next_height - interval) in
          match walk_to_height (Z.to_nat (sh_height prev)) period_start_height prev with
          | Some start =>
              if negb (sh_height start =? period_start_height) then Done None
              else Done (Some (calculate_next_work_required (sh_header start) (sh_header prev) params))
          | None => Done None
          end
  end.
End Lookup.

Definition get_next_work_required (get_header : header_lookup) (fuel : nat) (params : ConsensusParams)
    (prev_hash : hash256) (prev_height candidate_time : Z) : outcome (option Z) :=
  get_next_work_required_with (lookup_ok get_header) fuel params prev_hash prev_height candidate_time.

(** The timestamps of up to [n] headers ending at [current_hash]. *)
Fixpoint collect_times (get_header : header_lookup) (n : nat) (current_hash : hash256) : list Z :=
  match n with
  | O => []
  | S n =>
      match get_header current_hash with
      | Ok (Some stored) =>
          time (sh_header stored) :: collect_times get_header n (prev_blockhash (sh_header stored))
      | _ => []
      end
  end.

(** [v.sort_unstable(); v[v.len() / 2]] *)
Definition median (times : list Z) : option Z :=
  merge_sort Z.le times !! (length times / 2)%nat.

Definition get_median_time_past (get_header : header_lookup) (tip_hash : hash256) : option Z :=
  let times := collect_times get_header 11 tip_hash in
  match times with [] => None | _ => median times end.
End Headers.

(** ** Merkle root *)

Section MerkleChecks.
Context `{Hashes} `{TxLib}.

Definition compute_merkle_root (tx_hashes : list hash256) : option bytes :=
  match tx_hashes with [] => None | _ => Some (root tx_hashes) end.

Definition verify_merkle_root_with_txids (block : Block) (txids : list hash256) : CoreResult unit :=
  let '(computed, mutated) := root_detecting_mutation txids in
  computed ← ok_or computed InvalidMerkleRoot;
  _ ← guard_err mutated
        (InvalidTransaction "bad-txns-duplicate (CVE-2012-2459: mutated merkle tree)");
  guard_err (negb (bool_decide (computed = merkle_root (header block)))) InvalidMerkleRoot.

Definition verify_merkle_root (block : Block) : CoreResult unit :=
  verify_merkle_root_with_txids block (map compute_txid (txdata block)).

(** ** Witness commitment *)

Definition tx_has_witness (tx : Transaction) : bool :=
  existsb (fun i => negb (bool_decide (witness i = []))) (input tx).

Definition block_has_witness (block : Block) : bool := existsb tx_has_witness (drop 1 (txdata block)).

Definition is_commitment_script (script : bytes) : bool :=
  (len script >=? 38) && bool_decide (take 6 script = [0x6a; 0x24; 0xaa; 0x21; 0xa9; 0xed]).

(** [coinbase.output.iter().rev().find(..)] *)
Definition find_commitment (coinbase : Transaction) : option bytes :=
  head (filter (fun s => is_commitment_script s = true) (reverse (map script_pubkey (output coinbase)))).

(** The coinbase's first witness item when it has 32 bytes, else zeros. *)
Definition witness_nonce (coinbase : Transaction) : bytes :=
  match input coinbase with
  | i :: _ =>
      match witness i with
      | item :: _ => if len item =? 32 then item else replicate 32 0
      | [] => replicate 32 0
      end
  | [] => replicate 32 0
  end.

Definition witness_commitment (coinbase : Transaction) (wtxids : list hash256) : bytes :=
  sha256d (root (HASH_ZERO :: drop 1 wtxids) ++ witness_nonce coinbase).

Definition validate_witness_commitment_with_wtxids (block : Block) (wtxids : list hash256) : CoreResult unit :=
  if negb (block_has_witness block) then Ok tt
  else
    match txdata block with
    | [] => Ok tt
    | coinbase :: _ =>
        script ← ok_or (find_commitment coinbase)
                   (InvalidTransaction "BIP 141: missing witness commitment in coinbase");
        guard_err (negb (bool_decide (witness_commitment coinbase wtxids = take 32 (drop 6 script))))
          (InvalidTransaction "BIP 141: witness commitment mismatch")
    end.

Definition validate_witness_commitment (block : Block) : CoreResult unit :=
  if negb (block_has_witness block) then Ok tt
  else validate_witness_commitment_with_wtxids block (map compute_wtxid (txdata block)).
End MerkleChecks.

(** ** Transactions *)

Section Transactions.
Context `{TxLib} `{OutPointOrd}.

(** [total.checked_add(v).filter(|t| *t <= MAX_MONEY)] *)
Definition add_output (total : Z) (out : TxOut) : CoreResult Z :=
  let v := value out in
  _ ← guard_err (v >? MAX_MONEY) (InvalidTransaction "bad-txns-vout-toolarge");
  let t := total + v in
  if (t <? 2 ^ 64) && (t <=? MAX_MONEY) then Ok t
  else Err (InvalidTransaction "bad-txns-txouttotal-toolarge").

(** [windows(2).any(|w| w[0] == w[1])] *)
Fixpoint adjacent_dup (l : list OutPoint) : bool :=
  match l with
  | a :: ((b :: _) as r) => bool_decide (a = b) || adjacent_dup r
  | _ => false
  end.

(** [iter().any(|inp| !seen.insert(..))] *)
Fixpoint any_seen (seen : gset OutPoint) (l : list OutPoint) : bool :=
  match l with
  | [] => false
  | o :: r => bool_decide (o ∈ seen) || any_seen ({[o]} ∪ seen) r
  end.

Definition SORT_SCAN_MAX : nat := 32.

Definition has_duplicate_inputs (prevouts : list OutPoint) : bool :=
  match prevouts with
  | [] | [_] => false
  | [a; b] => bool_decide (a = b)
  | _ => if (length prevouts <=? SORT_SCAN_MAX)%nat
         then adjacent_dup (merge_sort outpoint_le prevouts)
         else any_seen ∅ prevouts
  end.

Definition check_transaction (tx : Transaction) : CoreResult unit :=
  _ ← guard_err (bool_decide (input tx = [])) (InvalidTransaction "bad-txns-vin-empty");
  _ ← guard_err (bool_decide (output tx = [])) (InvalidTransaction "bad-txns-vout-empty");
  _ ← foldM add_output 0 (output tx);
  let prevouts := map previous_output (input tx) in
  _ ← guard_err (negb (is_coinbase tx) && bool_decide (null_outpoint ∈ prevouts))
        (InvalidTransaction "bad-txns-prevout-null");
  guard_err (has_duplicate_inputs prevouts) (InvalidTransaction "bad-txns-inputs-duplicate").

(** ** Coinbase *)

(** The height an accepted BIP 34 prefix encodes. *)
Definition encoded_height (script : bytes) : CoreResult Z :=
  match script with
  | [] => Err (InvalidCoinbase "BIP 34: coinbase scriptSig is empty")
  | first :: rest =>
      if first =? 0 then Ok 0
      else if (0x51 <=? first) && (first <=? 0x60) then Ok (first - 0x50)
      else if (0x01 <=? first) && (first <=? 0x09) then
        let push_len := Z.to_nat first in
        if (length script <? 1 + push_len)%nat
        then Err (InvalidCoinbase "BIP 34: invalid height encoding (truncated push)")
        else
          let data := take push_len rest in
          let value_bytes :=
            if bool_decide (last data = Some 0) && (1 <? push_len)%nat
            then take (push_len - 1) data else data in
          if (4 <? length value_bytes)%nat
          then Err (InvalidCoinbase "BIP 34: height too large")
          else Ok (from_le value_bytes)
      else Err (InvalidCoinbase "BIP 34: unsupported height encoding")
  end.

Definition coinbase_script (coinbase : Transaction) : bytes :=
  match input coinbase with i :: _ => script_sig i | [] => [] end.

Definition validate_coinbase (block : Block) (height : Z) (params : ConsensusParams) : CoreResult unit :=
  match txdata block with
  | [] => Err (InvalidCoinbase "block has no transactions")
  | coinbase :: _ =>
      _ ← guard_err (negb (is_coinbase coinbase)) (InvalidCoinbase "first transaction is not coinbase");
      let script := coinbase_script coinbase in
      _ ← guard_err (negb ((2 <=? len script) && (len script <=? 100)))
            (InvalidCoinbase "coinbase script too small or large");
      if height >=? bip34_height params then
        encoded ← encoded_height script;
        guard_err (negb (encoded =? height)) (InvalidCoinbase "BIP 34: height mismatch")
      else Ok tt
  end.

(** ** Lock times *)

Definition LOCKTIME_THRESHOLD : Z := 500000000.

Definition is_final_tx (tx : Transaction) (height block_time : Z) : bool :=
  let lt := lock_time tx in
  if lt =? 0 then true
  else
    let threshold := if lt <? LOCKTIME_THRESHOLD then height else block_time in
    if lt <? threshold then true
    else forallb (fun i => sequence i =? 0xffffffff) (input tx).

(** [sequence & (1 << k) != 0] *)
Definition seq_bit (sequence k : Z) : bool := negb (Z.land sequence (Z.shiftl 1 k) =? 0).

(** [input_times.get(i).copied().unwrap_or(0) + masked_value * 512] *)
Definition required_time (input_times : list Z) (i : nat) (seq : Z) : Z :=
  u32 (default 0 (input_times !! i) + u32 (Z.land seq 0xffff * 512)).

Definition required_height (input_heights : list Z) (i : nat) (seq : Z) : Z :=
  u32 (default 0 (input_heights !! i) + Z.land seq 0xffff).

Section Locks.
Context (input_heights input_times : list Z).

Definition check_input_lock (block_height block_mtp : Z) (i : nat) (seq : Z) : CoreResult unit :=
  if seq_bit seq 31 then Ok tt
  else if seq_bit seq 22 then
    guard_err (block_mtp <? required_time input_times i seq)
      (InvalidTransaction "BIP 68: input time lock not satisfied")
  else
    guard_err (block_height <? required_height input_heights i seq)
      (InvalidTransaction "BIP 68: input height lock not satisfied").

Definition validate_sequence_locks (tx : Transaction) (block_height block_mtp : Z) : CoreResult unit :=
  if tx_version tx <? 2 then Ok tt
  else foldM (fun (_ : unit) '(i, inp) => check_input_lock block_height block_mtp i (sequence inp)) tt
         (imap pair (input tx)).

Definition add_lock_point (acc : Z * Z) (i : nat) (seq : Z) : Z * Z :=
  let '(min_height, min_time) := acc in
  if seq_bit seq 31 then (min_height, min_time)
  else if seq_bit seq 22 then (min_height, Z.max min_time (required_time input_times i seq))
  else (Z.max min_height (required_height input_heights i seq), min_time).

Definition sequence_lock_points (tx : Transaction) : Z * Z :=
  if tx_version tx <? 2 then (0, 0)
  else foldl (fun acc '(i, inp) => add_lock_point acc i (sequence inp)) (0, 0) (imap pair (input tx)).
End Locks.
End Transactions.
