(* ===== verification/ValidationProofs.v ===== *)
(** * Properties of block and transaction validation *)

From Stdlib Require Import ZArith Lia.
From stdpp Require Import base option numbers list gmap strings sorting.
From S2P Require Import Prelude Bytes U256 Types ScriptNum Merkle Consensus Validation.

(** ** Medians *)

Abbreviation count_ge m l := (length (filter (fun x : Z => m <= x) l)).
Abbreviation count_le m l := (length (filter (fun x : Z => x <= m) l)).
Abbreviation count_in lo hi l := (length (filter (fun x : Z => lo <= x <= hi) l)).

Lemma merge_sort_sorted (l : list Z) : StronglySorted Z.le (merge_sort Z.le l).
Proof. apply (StronglySorted_merge_sort Z.le). Qed.

Lemma merge_sort_perm (l : list Z) : merge_sort Z.le l ≡ₚ l.
Proof. apply merge_sort_Permutation. Qed.

Lemma count_perm (P : Z -> Prop) `{forall x, Decision (P x)} l :
  length (filter P (merge_sort Z.le l)) = length (filter P l).
Proof. apply Permutation_length. by rewrite merge_sort_perm. Qed.

Lemma sorted_lookup_le (l : list Z) i j x y :
  StronglySorted Z.le l -> l !! i = Some x -> l !! j = Some y -> (i <= j)%nat -> x <= y.
Proof.
  intros Hs. revert i j. induction Hs as [|a l Hs IH Ha]; intros [|i] [|j] Hi Hj Hle; cbn in *; try lia; try done.
  - simplify_eq. done.
  - simplify_eq. rewrite Forall_forall in Ha. apply Ha. by eapply list_elem_of_lookup_2.
  - eapply IH; eauto. lia.
Qed.

Lemma filter_all (P : Z -> Prop) `{forall x, Decision (P x)} l : Forall P l -> filter P l = l.
Proof. induction 1 as [|x l Hx _ IH]; [done|]. by rewrite filter_cons_True, IH. Qed.

Lemma filter_none (P : Z -> Prop) `{forall x, Decision (P x)} l :
  (forall x, x ∈ l -> ~ P x) -> filter P l = [].
Proof.
  induction l as [|x l IH]; [done|]. intros Hl. rewrite filter_cons_False.
  - apply IH. intros y Hy. apply Hl. by right.
  - apply Hl. by left.
Qed.

(** At least [n - k] elements of a sorted list are at least its [k]-th. *)
Lemma sorted_ge_iff (l : list Z) k v m :
  StronglySorted Z.le l -> l !! k = Some v ->
  m <= v <-> (length l - k <= count_ge m l)%nat.
Proof.
  intros Hs Hk. pose proof (lookup_lt_Some _ _ _ Hk) as Hlt. split.
  - intros Hm. rewrite <- (take_drop k l) at 2. rewrite filter_app, length_app.
    assert (Hall : filter (fun x => m <= x) (drop k l) = drop k l).
    { apply filter_all, Forall_lookup_2. intros i x Hi. rewrite lookup_drop in Hi.
      pose proof (sorted_lookup_le l k (k + i) v x Hs Hk Hi ltac:(lia)). lia. }
    rewrite Hall, length_drop. lia.
  - intros Hc. destruct (Z.le_gt_cases m v) as [|Hgt]; [done|]. exfalso.
    assert (Hd : filter (fun x => m <= x) l = filter (fun x => m <= x) (drop (S k) l)).
    { rewrite <- (take_drop (S k) l) at 1. rewrite filter_app, (filter_none _ (take (S k) l)); [done|].
      intros x Hx. apply list_elem_of_lookup in Hx as [i Hi]. apply lookup_take_Some in Hi as [Hi Hik].
      pose proof (sorted_lookup_le l i k x v Hs Hi Hk ltac:(lia)). lia. }
    rewrite Hd in Hc. pose proof (length_filter (fun x => m <= x) (drop (S k) l)) as Hf.
    rewrite length_drop in Hf. lia.
Qed.

Lemma length_sort (l : list Z) : length (merge_sort Z.le l) = length l.
Proof. by rewrite merge_sort_perm. Qed.

(** The median is at least [m] exactly when at least half of the elements are. *)
Lemma median_ge_iff l v m :
  median l = Some v ->
  m <= v <-> (length l - length l / 2 <= count_ge m l)%nat.
Proof.
  unfold median. intros Hv. rewrite (sorted_ge_iff _ _ _ _ (merge_sort_sorted l) Hv).
  by rewrite length_sort, count_perm.
Qed.

Lemma count_complement (m : Z) l :
  (count_ge (m + 1)%Z l + count_le m l = length l)%nat.
Proof.
  induction l as [|x l IH]; [done|]. destruct (decide (x <= m)).
  - rewrite filter_cons_False, filter_cons_True by lia. cbn [length]. lia.
  - rewrite filter_cons_True, filter_cons_False by lia. cbn [length]. lia.
Qed.

Lemma median_le_iff l v m :
  median l = Some v -> v <= m <-> (length l / 2 < count_le m l)%nat.
Proof.
  intros Hv. pose proof (median_ge_iff l v (m + 1) Hv) as Hge.
  pose proof (count_complement m l). pose proof (Nat.div_lt_upper_bound (length l) 2 (S (length l))).
  split.
  - intros Hle. assert (Hn : ~ (length l - length l / 2 <= count_ge (m + 1)%Z l)%nat)
      by (rewrite <- Hge; lia). lia.
  - intros Hc. destruct (Z.le_gt_cases v m) as [|Hgt]; [done|].
    assert (length l - length l / 2 <= count_ge (m + 1)%Z l)%nat by (apply Hge; lia).
    pose proof (Nat.div_le_upper_bound (length l) 2 (length l) ltac:(lia) ltac:(lia)). lia.
Qed.

Lemma median_Some l : l <> [] -> exists v, median l = Some v.
Proof.
  intros Hl. destruct (lookup_lt_is_Some_2 (merge_sort Z.le l) (length l / 2)) as [v Hv]; [|eauto].
  rewrite length_sort. destruct l; [done|]. apply Nat.div_lt; cbn [length]; lia.
Qed.

Lemma median_elem l v : median l = Some v -> v ∈ l.
Proof. intros Hv. apply list_elem_of_lookup_2 in Hv. by rewrite merge_sort_perm in Hv. Qed.

Lemma count_weaken (P Q : Z -> Prop) `{forall x, Decision (P x)} `{forall x, Decision (Q x)} l :
  (forall x, P x -> Q x) -> (length (filter P l) <= length (filter Q l))%nat.
Proof.
  intros Hpq. induction l as [|x l IH]; [done|]. rewrite !filter_cons.
  destruct (decide (P x)), (decide (Q x)); cbn [length]; [lia|naive_solver|lia|lia].
Qed.

(** A majority in an interval keeps the median in it. *)
Lemma median_majority l v lo hi :
  median l = Some v -> (length l < 2 * count_in lo hi l)%nat -> lo <= v <= hi.
Proof.
  intros Hv Hm. split.
  - apply (median_ge_iff l v lo Hv).
    pose proof (count_weaken (fun x => lo <= x <= hi) (fun x => lo <= x) l (fun x Hx => proj1 Hx)).
    pose proof (Nat.div_mod_eq (length l) 2). pose proof (Nat.mod_upper_bound (length l) 2). lia.
  - apply (median_le_iff l v hi Hv).
    pose proof (count_weaken (fun x => lo <= x <= hi) (fun x => x <= hi) l (fun x Hx => proj2 Hx)).
    pose proof (Nat.div_mod_eq (length l) 2). lia.
Qed.

(** ** Median time past *)

Lemma collect_times_take get n k h : collect_times get n h = take n (collect_times get (n + k) h).
Proof.
  revert h. induction n as [|n IH]; intros h; [done|]. cbn [collect_times Nat.add].
  destruct (get h) as [[stored|]|]; [|done..]. cbn [take]. f_equal. apply IH.
Qed.

Lemma length_collect_times get n h : (length (collect_times get n h) <= n)%nat.
Proof.
  revert h. induction n as [|n IH]; intros h; [done|]. cbn [collect_times].
  destruct (get h) as [[stored|]|]; cbn [length]; [|lia..].
  specialize (IH (prev_blockhash (sh_header stored))). lia.
Qed.

Lemma mtp_median get h m : get_median_time_past get h = Some m -> median (collect_times get 11 h) = Some m.
Proof. unfold get_median_time_past. destruct (collect_times get 11 h); done. Qed.

Lemma count_ge_take m k l : (count_ge m l <= count_ge m (take k l) + (length l - k))%nat.
Proof.
  rewrite <- (take_drop k l) at 1. rewrite filter_app, length_app.
  pose proof (length_filter (fun x => m <= x) (drop k l)) as Hf. rewrite length_drop in Hf. lia.
Qed.

(** A block later than the median-time-past of its parent does not lower it. *)
Lemma mtp_step get h stored m :
  get h = Ok (Some stored) ->
  get_median_time_past get (prev_blockhash (sh_header stored)) = Some m ->
  m < time (sh_header stored) ->
  exists m', get_median_time_past get h = Some m' /\ m <= m'.
Proof.
  intros Hh Hm Ht. apply mtp_median in Hm.
  set (hp := prev_blockhash (sh_header stored)) in *.
  assert (Hl : collect_times get 11 h = time (sh_header stored) :: take 10 (collect_times get 11 hp)).
  { cbn [collect_times]. rewrite Hh. fold hp. f_equal. apply (collect_times_take get 10 1). }
  destruct (median_Some (collect_times get 11 h)) as [m' Hm']; [by rewrite Hl|].
  exists m'. split; [unfold get_median_time_past; destruct (collect_times get 11 h); done|].
  apply (median_ge_iff _ _ m Hm'). rewrite Hl.
  pose proof (proj1 (median_ge_iff _ _ m Hm) ltac:(lia)) as Hc.
  pose proof (length_collect_times get 11 hp) as H11. pose proof (count_ge_take m 10 (collect_times get 11 hp)) as Htk.
  rewrite filter_cons_True by lia. cbn [length]. rewrite length_take.
  set (n := length (collect_times get 11 hp)) in *. clearbody n.
  do 12 (destruct n as [|n]; [cbn in *; lia|]). lia.
Qed.

(** ** Transaction sanity *)

Section CheckTransaction.
Context `{TxLib} `{OutPointOrd}.

Definition sum_values (outs : list TxOut) : Z := foldr (fun o n => value o + n) 0 outs.

Lemma sum_values_nonneg outs : Forall (fun o => 0 <= value o) outs -> 0 <= sum_values outs.
Proof. induction 1 as [|x l Hx _ IH]; cbn; [lia|]. unfold sum_values in IH. lia. Qed.

Lemma sum_values_cons o outs : sum_values (o :: outs) = value o + sum_values outs.
Proof. done. Qed.

Lemma add_outputs_Ok outs : forall total t,
  0 <= total <= MAX_MONEY -> Forall (fun o => 0 <= value o) outs ->
  foldM add_output total outs = Ok t <-> t = total + sum_values outs /\ t <= MAX_MONEY.
Proof.
  induction outs as [|o outs IH]; intros total t Ht Hp; cbn [foldM].
  - rewrite Z.add_0_r. split; [intros [= <-]; lia|by intros [-> _]].
  - apply Forall_cons in Hp as [Ho Hp]. pose proof (sum_values_nonneg outs Hp) as Hs.
    rewrite sum_values_cons. unfold add_output.
    destruct (Z.gtb_spec (value o) MAX_MONEY) as [Hg|Hg]; cbn [guard_err mbind result_bind].
    { split; [done|]. lia. }
    destruct ((total + value o <? 2 ^ 64) && (total + value o <=? MAX_MONEY)) eqn:Hc; cbn [mbind result_bind].
    + bool_to_prop. rewrite IH by (done || lia). rewrite Z.add_assoc. done.
    + split; [done|]. apply andb_false_iff in Hc as [Hc|Hc]; bool_to_prop; unfold MAX_MONEY in *; lia.
Qed.

Lemma adjacent_dup_sorted (l : list OutPoint) :
  TotalOrder outpoint_le -> StronglySorted outpoint_le l -> adjacent_dup l = false <-> NoDup l.
Proof.
  intros Hto. induction 1 as [|a l Hl IH Ha]; [split; [constructor|done]|].
  rewrite NoDup_cons. destruct l as [|b l]; [split; [intros _; split; [apply not_elem_of_nil|constructor]|done]|].
  cbn [adjacent_dup]. rewrite orb_false_iff, bool_decide_eq_false, IH. split; intros [Hab Hnd]; (split; [|done]).
  - intros [->|Hin]%elem_of_cons; [done|]. apply Hab.
    apply (anti_symm outpoint_le); [by apply Forall_cons in Ha as [? _]|].
    apply StronglySorted_cons in Hl as [Hb _]. rewrite Forall_forall in Hb. by apply Hb.
  - intros ->. apply Hab. by left.
Qed.

Lemma any_seen_spec (seen : gset OutPoint) l :
  any_seen seen l = false <-> NoDup l /\ forall o, o ∈ l -> o ∉ seen.
Proof.
  revert seen. induction l as [|o l IH]; intros seen; cbn [any_seen].
  - split; [intros _; split; [constructor|set_solver]|done].
  - rewrite orb_false_iff, bool_decide_eq_false, IH, NoDup_cons. clear. set_solver.
Qed.

(** All three duplicate tests decide the same property. *)
Lemma has_duplicate_inputs_spec l :
  TotalOrder outpoint_le -> has_duplicate_inputs l = false <-> NoDup l.
Proof.
  intros Hto. destruct l as [|a [|b [|c l]]].
  - split; [constructor|done].
  - split; [intros _; apply NoDup_singleton|done].
  - cbn [has_duplicate_inputs]. rewrite bool_decide_eq_false, NoDup_cons, list_elem_of_singleton.
    split; [intros Hab; split; [done|apply NoDup_singleton]|by intros [? _]].
  - set (l0 := a :: b :: c :: l).
    change (has_duplicate_inputs l0) with (if (length l0 <=? SORT_SCAN_MAX)%nat
      then adjacent_dup (merge_sort outpoint_le l0) else any_seen ∅ l0).
    destruct (_ <=? _)%nat.
    + rewrite adjacent_dup_sorted; [|done|by apply (StronglySorted_merge_sort outpoint_le)].
      by rewrite merge_sort_Permutation.
    + rewrite any_seen_spec. set_solver.
Qed.

Definition tx_sane (tx : Transaction) : Prop :=
  input tx <> [] /\ output tx <> [] /\ sum_values (output tx) <= MAX_MONEY /\
  (is_coinbase tx = false -> null_outpoint ∉ map previous_output (input tx)) /\
  NoDup (map previous_output (input tx)).

Lemma check_transaction_spec tx :
  TotalOrder outpoint_le -> Forall (fun o => 0 <= value o) (output tx) ->
  check_transaction tx = Ok tt <-> tx_sane tx.
Proof.
  intros Hto Hv. unfold check_transaction, tx_sane.
  destruct (bool_decide (input tx = [])) eqn:Hi; cbn [guard_err mbind result_bind].
  { apply bool_decide_eq_true in Hi. split; [done|by intros (? & _)]. }
  destruct (bool_decide (output tx = [])) eqn:Ho; cbn [guard_err mbind result_bind].
  { apply bool_decide_eq_true in Ho. split; [done|]. intros (Hi' & Ho' & _). congruence. }
  apply bool_decide_eq_false in Hi, Ho.
  pose proof (fun t => add_outputs_Ok (output tx) 0 t ltac:(unfold MAX_MONEY; lia) Hv) as Hsum.
  destruct (foldM add_output 0 (output tx)) as [t|e] eqn:Hf; cbn [mbind result_bind].
  2: { split; [done|]. intros (_ & _ & Hm & _). specialize (Hsum (sum_values (output tx))).
       rewrite Z.add_0_l in Hsum. destruct Hsum as [_ Hsum]. discriminate (Hsum (conj eq_refl Hm)). }
  destruct (proj1 (Hsum t) eq_refl) as [-> Hm]. rewrite Z.add_0_l in Hm.
  rewrite <- has_duplicate_inputs_spec by done. set (d := has_duplicate_inputs _).
  destruct (is_coinbase tx); cbn [negb andb guard_err mbind result_bind].
  { destruct d; cbn; naive_solver. }
  destruct (bool_decide (null_outpoint ∈ _)) eqn:Hn; cbn [guard_err mbind result_bind].
  - apply bool_decide_eq_true in Hn. naive_solver.
  - apply bool_decide_eq_false in Hn. destruct d; cbn; naive_solver.
Qed.
End CheckTransaction.

(** ** Relative lock times *)

Section Locks.
Context (input_heights input_times : list Z) (block_height block_mtp : Z).

Abbreviation points := (foldl (fun acc '(i, inp) => add_lock_point input_heights input_times acc i (sequence inp))).

Lemma add_lock_point_le acc i seq :
  (add_lock_point input_heights input_times acc i seq).1 <= block_height /\
  (add_lock_point input_heights input_times acc i seq).2 <= block_mtp <->
  (acc.1 <= block_height /\ acc.2 <= block_mtp) /\
  check_input_lock input_heights input_times block_height block_mtp i seq = Ok tt.
Proof.
  destruct acc as [h t]. unfold add_lock_point, check_input_lock.
  destruct (seq_bit seq 31); cbn [fst snd]; [naive_solver|].
  destruct (seq_bit seq 22); cbn [fst snd].
  - destruct (Z.ltb_spec block_mtp (required_time input_times i seq)); cbn.
    + split; [intros ?; exfalso; lia|by intros [_ ?]].
    + split; [intros ?; split; [lia|done]|intros [? _]; lia].
  - destruct (Z.ltb_spec block_height (required_height input_heights i seq)); cbn.
    + split; [intros ?; exfalso; lia|by intros [_ ?]].
    + split; [intros ?; split; [lia|done]|intros [? _]; lia].
Qed.

Lemma lock_points_fold (l : list (nat * TxIn)) : forall acc,
  (points acc l).1 <= block_height /\ (points acc l).2 <= block_mtp <->
  (acc.1 <= block_height /\ acc.2 <= block_mtp) /\
  foldM (fun (_ : unit) '(i, inp) =>
    check_input_lock input_heights input_times block_height block_mtp i (sequence inp)) tt l = Ok tt.
Proof.
  induction l as [|[i inp] l IH]; intros acc; cbn [foldl foldM]; [naive_solver|].
  rewrite IH, add_lock_point_le.
  destruct (check_input_lock _ _ _ _ i (sequence inp)) as [[]|]; cbn [mbind result_bind]; naive_solver.
Qed.
End Locks.

(** ** Difficulty *)

Section Difficulty.
Context `{TxLib}.

Lemma target_gt_spec a b : arr32 a -> arr32 b -> target_gt a b = (from_be b <? from_be a).
Proof.
  intros [La Ha] [Lb Hb]. unfold target_gt. rewrite lex_cmp_spec by (done || by rewrite La, Lb).
  destruct (Z.compare_spec (from_be a) (from_be b)); symmetry; [apply Z.ltb_ge|apply Z.ltb_ge|apply Z.ltb_lt]; lia.
Qed.

(** The networks that retarget keep the product of a permitted target and the
    longest timespan below [2^256]. *)
Definition retarget_params (p : ConsensusParams) : Prop :=
  arr32 (pow_limit p) /\ 0 < pow_target_timespan p /\ pow_target_timespan p * 4 < 2 ^ 64 /\
  from_be (pow_limit p) * (pow_target_timespan p * 4) < 2 ^ 256.

Lemma network_retarget_params net :
  pow_no_retargeting (for_network net) = false -> retarget_params (for_network net).
Proof.
  intros Hn. destruct net; try done;
    (split; [split; [reflexivity|apply bytes_okb_ok; reflexivity]|vm_compute; split_and!; congruence]).
Qed.

Lemma clamped_bounds last current p :
  0 < pow_target_timespan p ->
  0 <= clamped_timespan last current p <= pow_target_timespan p * 4.
Proof.
  intros Ht. unfold clamped_timespan.
  pose proof (Z.div_pos (pow_target_timespan p) 4 ltac:(lia) ltac:(lia)).
  pose proof (Z.div_le_upper_bound (pow_target_timespan p) 4 (pow_target_timespan p) ltac:(lia) ltac:(lia)). lia.
Qed.

Lemma retarget_value last current p :
  retarget_params p -> pow_no_retargeting p = false ->
  arr32 (header_target current) -> from_be (header_target current) <= from_be (pow_limit p) ->
  calculate_next_work_required last current p =
  to_compact_lossy (to_be 32 (Z.min (from_be (pow_limit p))
    (from_be (header_target current) * clamped_timespan last current p / pow_target_timespan p))).
Proof.
  intros (Hl & Ht & Ht4 & Hfit) Hr Hc Hle. unfold calculate_next_work_required. rewrite Hr.
  pose proof (clamped_bounds last current p Ht) as Hb.
  destruct (multiply_target_by_ratio_value (header_target current) (clamped_timespan last current p)
    (pow_target_timespan p) Hc ltac:(unfold fits; lia) ltac:(lia)) as [Ha Hv].
  pose proof (arr32_bound _ Hc) as Bc. rewrite Z.mod_small in Hv by nia.
  f_equal. rewrite target_gt_spec, <- Hv by done.
  set (x := multiply_target_by_ratio _ _ _) in *.
  destruct (Z.ltb_spec (from_be (pow_limit p)) (from_be x)).
  - rewrite Z.min_l by lia. destruct Hl as [L B]. symmetry. rewrite <- L. by apply to_from_be.
  - rewrite Z.min_r by lia. destruct Ha as [L B]. symmetry. rewrite <- L. by apply to_from_be.
Qed.

(** [chain lookup a n b]: [b] is the ancestor of [a] that is [n] links back,
    each link one height lower. *)
Inductive chain (lookup : hash256 -> option StoredHeader) : StoredHeader -> nat -> StoredHeader -> Prop :=
| chain_here a : chain lookup a 0 a
| chain_link a p n b :
    lookup (prev_blockhash (sh_header a)) = Some p -> sh_height p = sh_height a - 1 ->
    chain lookup p n b -> chain lookup a (S n) b.

Lemma chain_height lookup a n b : chain lookup a n b -> sh_height b = sh_height a - Z.of_nat n.
Proof. induction 1; lia. Qed.

Lemma walk_chain lookup fuel target a n b :
  chain lookup a n b -> sh_height b = target -> (n <= fuel)%nat ->
  walk_to_height lookup fuel target a = Some b.
Proof.
  intros Hc. revert fuel. induction Hc as [a|a p n b Hp Hh Hc IH]; intros fuel Hb Hf.
  - destruct fuel; cbn [walk_to_height]; rewrite Z.gtb_ltb; destruct (Z.ltb_spec target (sh_height a)); done || lia.
  - pose proof (chain_height _ _ _ _ Hc). destruct fuel as [|fuel]; [lia|]. cbn [walk_to_height].
    rewrite Z.gtb_ltb. destruct (Z.ltb_spec target (sh_height a)); [|lia]. rewrite Hp.
    destruct (Z.ltb_spec (sh_height p) (sh_height a)); [|lia]. apply IH; [done|lia].
Qed.

(** With enough fuel, the walk only fails for a missing or non-decreasing link. *)
Lemma walk_Some lookup target : forall fuel a b,
  walk_to_height lookup fuel target a = Some b -> sh_height b <= target.
Proof.
  induction fuel as [|fuel IH]; intros a b; cbn [walk_to_height]; rewrite Z.gtb_ltb;
    destruct (Z.ltb_spec target (sh_height a)); try done.
  - by intros [= <-].
  - destruct (lookup _) as [p|]; [|done]. destruct (_ <? _); [apply IH|done].
  - by intros [= <-].
Qed.

(** Every stored parent is one height below its stored child. *)
Definition heights_linked (lookup : hash256 -> option StoredHeader) : Prop :=
  forall x h p, lookup x = Some h -> lookup (prev_blockhash (sh_header h)) = Some p ->
    sh_height p = sh_height h - 1.

(** The min-difficulty scan ends within one period. *)
Lemma scan_terminates lookup interval lb fuel x a :
  0 < interval -> heights_linked lookup -> lookup x = Some a ->
  sh_height a mod interval <= Z.of_nat fuel ->
  exists b, scan_min_difficulty lookup fuel interval lb a = Done b.
Proof.
  intros Hi Hdec. revert x a. induction fuel as [|fuel IH]; intros x a Hx Hf; cbn [scan_min_difficulty];
    pose proof (Z.mod_pos_bound (sh_height a) interval Hi);
    destruct (Z.eqb_spec (sh_height a mod interval) 0) as [Hz|Hz]; cbn [negb andb]; eauto; [lia|].
  destruct (_ =? lb); [|eauto].
  destruct (lookup (prev_blockhash _)) as [p|] eqn:Hp; [|eauto].
  apply (IH _ _ Hp). rewrite (Hdec _ _ _ Hx Hp).
  replace ((sh_height a - 1) mod interval) with (sh_height a mod interval - 1); [lia|].
  apply (Z.mod_unique_pos _ _ (sh_height a / interval)); [lia|].
  pose proof (Z.div_mod (sh_height a) interval ltac:(lia)). lia.
Qed.
End Difficulty.

(** ** Coinbase heights *)

(** [CScript() << height] *)
Definition push_height (h : Z) : bytes :=
  if h =? 0 then [0]
  else if h <=? 16 then [0x50 + h]
  else len (encode_num h) :: encode_num h.

Lemma encoded_height_push h rest : fits 32 h -> encoded_height (push_height h ++ rest) = Ok h.
Proof.
  intros Hh. unfold fits in Hh. unfold push_height.
  destruct (Z.eqb_spec h 0) as [->|H0]; [done|].
  destruct (Z.leb_spec h 16) as [H16|H16].
  { cbn [app encoded_height]. destruct (Z.eqb_spec (0x50 + h) 0); [lia|].
    rewrite !(proj2 (Z.leb_le _ _)) by lia. cbn [andb]. f_equal. lia. }
  destruct (encode_num_shape h H0 ltac:(lia)) as (l & b & Hl & Hb & Hv & He).
  assert (Hlen : (length l <= 3)%nat).
  { destruct (Nat.le_gt_cases (length l) 3) as [|Hgt]; [done|]. exfalso.
    pose proof (from_le_bound l Hl).
    assert (pow256 4 <= pow256 (length l)) by (unfold pow256; apply Z.pow_le_mono_r; lia).
    change (pow256 4) with (2 ^ 32) in *. nia. }
  rewrite (proj2 (Z.ltb_ge h 0)) in He by lia.
  set (e := encode_num h) in *.
  assert (Hel : (1 <= length e <= 5)%nat /\ (b < 0x80 -> e = l ++ [b]) /\ (0x80 <= b -> e = (l ++ [b]) ++ [0])).
  { rewrite He. destruct (Z.ltb_spec b 0x80); rewrite !length_app; cbn [length]; split_and!; try lia; done. }
  destruct Hel as (Hel & Hlo & Hhi). cbn [app encoded_height].
  unfold len. set (n := length e) in *.
  destruct (Z.eqb_spec (Z.of_nat n) 0); [lia|].
  rewrite (proj2 (Z.leb_gt 0x51 (Z.of_nat n))) by lia. cbn [andb].
  rewrite !(proj2 (Z.leb_le _ _)) by lia. cbn [andb]. rewrite Nat2Z.id.
  rewrite (proj2 (Nat.ltb_ge _ _)) by (cbn [length]; rewrite length_app; fold n; lia).
  rewrite (take_app_length' e rest n) by done. destruct (Z.lt_ge_cases b 0x80) as [Hb8|Hb8].
  - assert (Hn : n = S (length l)) by (unfold n; rewrite Hlo, length_app by lia; cbn; lia).
    rewrite (Hlo Hb8). rewrite last_snoc, bool_decide_eq_false_2 by (intros [=]; lia). cbn [andb].
    rewrite length_app, (proj2 (Nat.ltb_ge _ _)) by (cbn; lia). f_equal. rewrite from_le_snoc. lia.
  - assert (Hn : n = S (S (length l))) by (unfold n; rewrite Hhi, !length_app by lia; cbn; lia).
    rewrite (Hhi Hb8). rewrite last_snoc, bool_decide_eq_true_2 by done.
    rewrite (proj2 (Nat.ltb_lt 1 n)) by lia. cbn [andb].
    rewrite take_app_length' by (rewrite length_app; cbn; lia).
    rewrite length_app, (proj2 (Nat.ltb_ge _ _)) by (cbn; lia). f_equal. rewrite from_le_snoc. lia.
Qed.

(** ** Theorems *)

Section Theorems.
Context `{Hashes} `{TxLib} `{OutPointOrd}.

(** C29: [check_transaction] accepts exactly the sane transactions: non-empty
    inputs and outputs, a total of at most [MAX_MONEY], no null prevout
    outside a coinbase, and pairwise distinct prevouts; the pairwise, sorted
    and hashed duplicate tests all decide the last property. *)
Theorem check_transaction_exact (tx : Transaction) :
  TotalOrder outpoint_le -> Forall (fun o => 0 <= value o) (output tx) ->
  check_transaction tx = Ok tt <->
  input tx <> [] /\ output tx <> [] /\ sum_values (output tx) <= MAX_MONEY /\
  (is_coinbase tx = false -> null_outpoint ∉ map previous_output (input tx)) /\
  NoDup (map previous_output (input tx)).
Proof. apply check_transaction_spec. Qed.

(** the lock points computed once per transaction decide BIP 68 for every
    later block: the sequence locks hold at a height and median time exactly
    when both reach the lock points. *)
Theorem sequence_locks_by_points (tx : Transaction) (input_heights input_times : list Z)
    (block_height block_mtp : Z) :
  0 <= block_height -> 0 <= block_mtp ->
  validate_sequence_locks input_heights input_times tx block_height block_mtp = Ok tt <->
  (sequence_lock_points input_heights input_times tx).1 <= block_height /\
  (sequence_lock_points input_heights input_times tx).2 <= block_mtp.
Proof.
  intros Hh Ht. unfold validate_sequence_locks, sequence_lock_points.
  destruct (tx_version tx <? 2); [done|]. rewrite lock_points_fold. cbn [fst snd]. tauto.
Qed.

(** C30: at a retarget boundary the required difficulty of the block after
    [prev] is the previous target scaled by the clamped duration of the whole
    period, capped at the limit; the 256-bit product does not overflow on any
    network that retargets. *)
Theorem retarget_exact (lookup : hash256 -> option StoredHeader) (fuel : nat) (net : Network)
    (prev_hash : hash256) (prev start : StoredHeader) (candidate_time : Z) :
  pow_no_retargeting (for_network net) = false ->
  lookup prev_hash = Some prev -> 0 <= sh_height prev < 2 ^ 32 - 1 ->
  (sh_height prev + 1) mod 2016 = 0 -> chain lookup prev 2015 start ->
  arr32 (header_target (sh_header prev)) ->
  from_be (header_target (sh_header prev)) <= from_be (pow_limit (for_network net)) ->
  get_next_work_required_with lookup fuel (for_network net) prev_hash (sh_height prev) candidate_time =
  Done (Some (to_compact_lossy (to_be 32 (Z.min (from_be (pow_limit (for_network net)))
    (from_be (header_target (sh_header prev))
     * Z.min (Z.max (time (sh_header prev) - time (sh_header start)) 302400) 4838400 / 1209600))))).
Proof.
  intros Hr Hp Hh Hm Hc Ha Hle. unfold get_next_work_required_with. rewrite Hp, Hr.
  assert (Hi : difficulty_adjustment_interval (for_network net) = 2016) by by destruct net.
  rewrite Hi. rewrite (wrap_small 32 (sh_height prev + 1)) by (unfold fits; lia).
  rewrite Hm. cbn [Z.eqb negb].
  pose proof (Z.div_mod (sh_height prev + 1) 2016 ltac:(lia)) as Hd.
  pose proof (chain_height _ _ _ _ Hc) as Hs.
  rewrite (wrap_small 32 (sh_height prev + 1 - 2016)) by (unfold fits; lia).
  rewrite (walk_chain _ _ _ _ _ _ Hc) by lia.
  rewrite (proj2 (Z.eqb_eq _ _)) by lia. cbn [negb].
  rewrite retarget_value; [|by apply network_retarget_params|done..].
  by destruct net.
Qed.

(** C31: computing the required difficulty terminates: on an index whose parent
    links go down one height at a time, one period of fuel is always enough. *)
Theorem next_work_total (lookup : hash256 -> option StoredHeader) (net : Network)
    (prev_hash : hash256) (prev_height candidate_time : Z) :
  heights_linked lookup ->
  exists r, get_next_work_required_with lookup 2016 (for_network net) prev_hash prev_height candidate_time = Done r.
Proof.
  intros Hdec. unfold get_next_work_required_with. destruct (lookup prev_hash) as [prev|] eqn:Hprev; [|eauto].
  assert (Hi : difficulty_adjustment_interval (for_network net) = 2016) by by destruct net. rewrite Hi.
  destruct (scan_terminates lookup 2016 (to_compact_lossy (pow_limit (for_network net))) 2016 prev_hash prev) as [b Hb];
    [lia|done|done|pose proof (Z.mod_pos_bound (sh_height prev) 2016); lia|].
  rewrite Hb. repeat case_match; eauto.
Qed.

(** from BIP 34 on, a coinbase script determines its height: two accepted
    blocks with the same coinbase script are at the same height, and the
    script that [CScript() << height] writes is accepted at every height. *)
Theorem coinbase_commits_to_height (b1 b2 : Block) (h1 h2 : Z) (p : ConsensusParams) :
  bip34_height p <= h1 -> bip34_height p <= h2 ->
  (coinbase_script <$> head (txdata b1)) = (coinbase_script <$> head (txdata b2)) ->
  validate_coinbase b1 h1 p = Ok tt -> validate_coinbase b2 h2 p = Ok tt ->
  h1 = h2 /\ forall h rest, fits 32 h -> encoded_height (push_height h ++ rest) = Ok h.
Proof.
  intros Hh1 Hh2 Hs V1 V2. split; [|intros; by apply encoded_height_push].
  unfold validate_coinbase in V1, V2.
  destruct (txdata b1) as [|c1 r1], (txdata b2) as [|c2 r2]; try done.
  cbn in Hs. injection Hs as Hs. res_inv. bool_to_prop.
  rewrite !(proj2 (Z.geb_le _ _)) in * by lia. res_inv. bool_to_prop. congruence.
Qed.

(** median-time-past never decreases along a chain whose blocks satisfy
    the timestamp rule: a block later than its parent's median time has a
    median time at least as late. *)
Theorem mtp_monotone (get_header : header_lookup) (h : hash256) (stored : StoredHeader) (m : Z) :
  get_header h = Ok (Some stored) ->
  get_median_time_past get_header (prev_blockhash (sh_header stored)) = Some m ->
  m < time (sh_header stored) ->
  exists m', get_median_time_past get_header h = Some m' /\ m <= m'.
Proof. apply mtp_step. Qed.
End Theorems.

(** ** The theorems at concrete inputs *)

Section Examples.
#[local] Existing Instance Sample.hashes.
#[local] Existing Instance Sample.tx_lib.

#[local] Instance sample_ord : OutPointOrd := {|
  outpoint_le := fun a b => (encode a <= encode b)%positive;
  outpoint_le_dec := fun a b => Pos.le_dec (encode a) (encode b) |}.

Lemma sample_ord_total : TotalOrder outpoint_le.
Proof.
  split; [split; [split|]|].
  - intros x. apply Pos.le_refl.
  - intros x y z. apply Pos.le_trans.
  - intros x y Hxy Hyx. apply (inj encode). by apply Pos.le_antisym.
  - intros x y. unfold strict, outpoint_le, sample_ord.
    destruct (Pos.lt_total (encode x) (encode y)) as [Hlt|[Heq|Hgt]]; [left; lia| |right; right; lia].
    right. left. by apply (inj encode).
Qed.

Definition ex_in (n : Z) : TxIn := mkTxIn (mkOutPoint (replicate 32 n) 0) [] 0 [].

(** Three distinct inputs pass, a repeated one does not. *)
Lemma check_transaction_exact_witness :
  check_transaction (mkTransaction 2 0 [ex_in 1; ex_in 2; ex_in 3] [mkTxOut 7 []]) = Ok tt /\
  ~ NoDup (map previous_output [ex_in 1; ex_in 2; ex_in 1]).
Proof.
  split.
  - apply check_transaction_exact; [apply sample_ord_total|repeat constructor; cbn; lia|].
    split_and!; [done|done|vm_compute; congruence|intros _; cbn; set_solver|].
    apply (bool_decide_unpack _). vm_compute. exact I.
  - intros Hnd. pose proof (proj2 (check_transaction_exact
      (mkTransaction 2 0 [ex_in 1; ex_in 2; ex_in 1] [mkTxOut 7 []]) sample_ord_total
      ltac:(repeat constructor; cbn; lia))) as Hok.
    discriminate Hok. split_and!; [done|done|vm_compute; congruence|intros _; cbn; set_solver|exact Hnd].
Defined.

(** A two-block lock on a coin of height 10 is met at height 12. *)
Lemma sequence_locks_by_points_witness :
  validate_sequence_locks [10] [0] (mkTransaction 2 0 [mkTxIn (mkOutPoint [] 0) [] 2 []] []) 12 0 = Ok tt.
Proof. apply sequence_locks_by_points; [lia|lia|]. vm_compute. split; congruence. Defined.

(** A chain of equal headers one second apart; the hash is the height. *)
Definition ex_header (h : Z) : StoredHeader :=
  mkStored (mkHeader 1 [h - 1] [] h 1000 0) h [].
Definition ex_lookup (hash : hash256) : option StoredHeader :=
  match hash with [h] => if (0 <=? h) && (h <? 4032) then Some (ex_header h) else None | _ => None end.

Lemma ex_chain n h : 0 <= h - Z.of_nat n -> h < 4032 -> chain ex_lookup (ex_header h) n (ex_header (h - Z.of_nat n)).
Proof.
  revert h. induction n as [|n IH]; intros h Hh Hl; [rewrite Z.sub_0_r; constructor|].
  apply (chain_link _ _ (ex_header (h - 1))); [|done|].
  - cbn. destruct (Z.leb_spec 0 (h - 1)); [|lia]. destruct (Z.ltb_spec (h - 1) 4032); [done|lia].
  - replace (h - Z.of_nat (S n)) with (h - 1 - Z.of_nat n) by lia. apply IH; lia.
Qed.

(** Blocks a second apart quarter the target. *)
Lemma retarget_exact_witness :
  get_next_work_required_with ex_lookup 0 mainnet [4031] 4031 0 = Done (Some 250).
Proof.
  rewrite (retarget_exact ex_lookup 0 Bitcoin [4031] (ex_header 4031) (ex_header 2016) 0).
  - vm_compute. reflexivity.
  - reflexivity.
  - reflexivity.
  - cbn. lia.
  - reflexivity.
  - exact (ex_chain 2015 4031 ltac:(lia) ltac:(lia)).
  - split; [reflexivity|apply bytes_ok_to_be].
  - vm_compute. congruence.
Defined.

Lemma next_work_total_witness :
  exists r, get_next_work_required_with ex_lookup 2016 testnet [17] 17 0 = Done r.
Proof.
  apply (next_work_total ex_lookup Testnet [17] 17 0). intros x h p Hx Hp.
  destruct x as [|k [|]]; cbn [ex_lookup] in Hx; try done. destruct (_ && _); [|done]. simplify_eq.
  cbn in Hp. destruct (_ && _); [|done]. by simplify_eq.
Defined.

Definition ex_coinbase (h : Z) : Block :=
  mkBlock (mkHeader 1 [] [] 0 0 0)
    [mkTransaction 1 0 [mkTxIn (mkOutPoint (replicate 32 0) 0xffffffff) (push_height h ++ [0]) 0 []] []].

(** Height 300000 is written as a three-byte push. *)
Lemma coinbase_commits_to_height_witness :
  validate_coinbase (ex_coinbase 300000) 300000 mainnet = Ok tt /\
  encoded_height [0x03; 0xe0; 0x93; 0x04] = Ok 300000.
Proof.
  assert (Hv : validate_coinbase (ex_coinbase 300000) 300000 mainnet = Ok tt) by reflexivity.
  split; [exact Hv|].
  destruct (coinbase_commits_to_height (ex_coinbase 300000) (ex_coinbase 300000) 300000 300000 mainnet)
    as [_ He]; [cbn; lia|cbn; lia|reflexivity|exact Hv|exact Hv|].
  exact (He 300000 [] ltac:(unfold fits; lia)).
Defined.

Definition ex_get : header_lookup := fun hash => Ok (ex_lookup hash).

Lemma mtp_monotone_witness :
  exists m', get_median_time_past ex_get [21] = Some m' /\ 15 <= m'.
Proof. apply (mtp_monotone ex_get [21] (ex_header 21) 15); reflexivity. Defined.
End Examples.
