(* ===== verification/TimeOffset.v ===== *)
(** * Network-adjusted time

    The median filter over peer clock offsets of [bitcoinpr-core/src/time.rs].
    The three process-wide variables are the state; the local clock is an
    argument.  Offsets are [i64]. *)

From Stdlib Require Import ZArith Lia.
From stdpp Require Import base option numbers list sorting.
From S2P Require Import Prelude Types Validation ValidationProofs.

Definition MAX_SAMPLES : Z := 200.
Definition MIN_SAMPLES : Z := 5.
Definition MAX_TIME_OFFSET_SECS : Z := 70 * 60.

Definition I64_MIN : Z := - 2 ^ 63.

(** [i64::abs], which maps the least value to itself when it wraps. *)
Definition i64_abs (z : Z) : Z := if z =? I64_MIN then I64_MIN else Z.abs z.

(** [OFFSET_SECS], [SAMPLES] and [CLOCK_WARNED]. *)
Record time_state := mkTime {
  offset_secs : Z;
  samples : list Z;
  clock_warned : bool }.

Definition reset : time_state := mkTime 0 [] false.

Definition time_offset_secs (st : time_state) : Z := offset_secs st.

Definition adjusted_time_secs (local_time_secs : Z) (st : time_state) : Z :=
  local_time_secs + offset_secs st.

Definition add_time_sample (st : time_state) (offset : Z) : time_state :=
  if len (samples st) >=? MAX_SAMPLES then st
  else
    let samples := samples st ++ [offset] in
    if (len samples >=? MIN_SAMPLES) && Nat.odd (length samples) then
      let median := default 0 (median samples) in
      if i64_abs median <=? MAX_TIME_OFFSET_SECS
      then mkTime median samples (clock_warned st)
      else mkTime 0 samples true
    else mkTime (offset_secs st) samples (clock_warned st).

Definition add_time_samples (l : list Z) : time_state := foldl add_time_sample reset l.

(** ** Invariant *)

Definition time_ok (st : time_state) : Prop :=
  len (samples st) <= 200 /\
  (len (samples st) < 5 -> offset_secs st = 0) /\
  (offset_secs st = I64_MIN \/ Z.abs (offset_secs st) <= 4200) /\
  (I64_MIN ∉ samples st -> offset_secs st <> I64_MIN).

Lemma add_time_sample_ok st x : time_ok st -> time_ok (add_time_sample st x).
Proof.
  intros (Hl & H0 & Hb & Hm). unfold add_time_sample, MAX_SAMPLES, MIN_SAMPLES, MAX_TIME_OFFSET_SECS.
  destruct (Z.geb_spec (len (samples st)) 200) as [Hfull|Hfull]; [done|].
  assert (Hlen : len (samples st ++ [x]) = len (samples st) + 1) by (rewrite len_app, len_cons, len_nil; lia).
  destruct ((len (samples st ++ [x]) >=? 5) && _) eqn:Hc.
  - bool_to_prop. destruct (median_Some (samples st ++ [x])) as [v Hv]; [by destruct (samples st)|].
    rewrite Hv. cbn [default]. unfold id. destruct (Z.leb_spec (i64_abs v) (70 * 60)) as [Hab|Hab].
    + split_and!; cbn [samples offset_secs]; [lia|lia| |].
      * unfold i64_abs in Hab. destruct (Z.eqb_spec v I64_MIN); [by left|right; lia].
      * intros Hnin ->. apply Hnin. by apply median_elem.
    + split_and!; cbn [samples offset_secs]; [lia|lia|right; lia|intros _; by vm_compute].
  - split_and!; cbn [samples offset_secs]; [lia|intros ?; apply H0; lia|done|].
    intros Hnin. apply Hm. intros Hin. apply Hnin. by apply elem_of_app; left.
Qed.

Lemma time_ok_run l st : time_ok st -> time_ok (foldl add_time_sample st l).
Proof. revert st. induction l as [|x l IH]; intros st Hst; [done|]. apply IH. by apply add_time_sample_ok. Qed.

Lemma time_ok_reset : time_ok reset.
Proof. split_and!; cbn [reset samples offset_secs]; [rewrite len_nil; lia|done|right; lia|by vm_compute]. Qed.

Lemma samples_run l st :
  (length (samples st) + length l <= 200)%nat -> samples (foldl add_time_sample st l) = samples st ++ l.
Proof.
  revert st. induction l as [|x l IH]; intros st Hl; cbn [foldl]; [by rewrite app_nil_r|].
  assert (Hs : samples (add_time_sample st x) = samples st ++ [x]).
  { unfold add_time_sample, MAX_SAMPLES. cbn [length] in Hl.
    destruct (Z.geb_spec (len (samples st)) 200) as [Hg|Hg]; [unfold len in Hg; lia|].
    repeat case_match; done. }
  rewrite IH, Hs; [by rewrite <- app_assoc|]. rewrite Hs, length_app. cbn [length] in *. lia.
Qed.

(** The offset right after an odd number of samples. *)
Lemma offset_after l x :
  (length (l ++ [x]) <= 200)%nat -> (5 <= length (l ++ [x]))%nat -> Nat.odd (length (l ++ [x])) = true ->
  exists v, median (l ++ [x]) = Some v /\
    offset_secs (add_time_samples (l ++ [x])) = if i64_abs v <=? 4200 then v else 0.
Proof.
  intros H200 H5 Hodd. destruct (median_Some (l ++ [x])) as [v Hv]; [by destruct l|].
  exists v. split; [done|]. unfold add_time_samples. rewrite foldl_app. cbn [foldl].
  unfold add_time_sample at 1. rewrite length_app in H200. cbn [length] in H200.
  rewrite (samples_run l reset) by (cbn; lia). cbn [reset samples app]. unfold MAX_SAMPLES, MIN_SAMPLES.
  destruct (Z.geb_spec (len l) 200) as [Hg|Hg]; [unfold len in Hg; lia|].
  rewrite Hodd, (proj2 (Z.geb_le _ _)) by (unfold len; lia). cbn [andb]. rewrite Hv. cbn [default]. unfold id.
  change MAX_TIME_OFFSET_SECS with 4200. by destruct (_ <=? _).
Qed.

(** ** Theorems *)

(** whatever peers report, at most 200 samples are kept, nothing is
    applied before five of them, and the applied offset stays within 70
    minutes as long as no sample is the least 64-bit integer. *)
Theorem time_offset_bounded (l : list Z) :
  len (samples (add_time_samples l)) <= 200 /\
  (len (samples (add_time_samples l)) < 5 -> time_offset_secs (add_time_samples l) = 0) /\
  (I64_MIN ∉ samples (add_time_samples l) -> Z.abs (time_offset_secs (add_time_samples l)) <= 4200).
Proof.
  destruct (time_ok_run l reset time_ok_reset) as (Hl & H0 & Hb & Hm). fold (add_time_samples l) in *.
  unfold time_offset_secs. split_and!; [done|done|]. intros Hnin. destruct Hb as [Hb|Hb]; [|done].
  destruct (Hm Hnin Hb).
Qed.

(** a minority of lying peers cannot move the clock: when an odd number of
    at least five and at most 200 samples has been received and more than half
    of them lie in an interval inside the 70-minute bound, the applied offset
    lies in that interval. *)
Theorem time_offset_robust (l : list Z) (lo hi : Z) :
  (5 <= length l <= 200)%nat -> Nat.odd (length l) = true ->
  - 4200 <= lo -> hi <= 4200 -> (length l < 2 * count_in lo hi l)%nat ->
  lo <= time_offset_secs (add_time_samples l) <= hi.
Proof.
  intros [H5 H200] Hodd Hlo Hhi Hmaj. destruct l as [|x l _] using rev_ind; [cbn in H5; lia|].
  destruct (offset_after l x H200 H5 Hodd) as (v & Hv & Ho).
  pose proof (median_majority _ _ _ _ Hv Hmaj) as Hin. unfold time_offset_secs. rewrite Ho.
  unfold i64_abs, I64_MIN. destruct (Z.eqb_spec v (- 2 ^ 63)); [lia|].
  destruct (Z.leb_spec (Z.abs v) 4200); lia.
Qed.

(** Two wild samples out of five are ignored. *)
Lemma time_offset_robust_witness :
  -5 <= time_offset_secs (add_time_samples [10; -5; 5; 3000; -9000]) <= 10.
Proof. apply (time_offset_robust [10; -5; 5; 3000; -9000] (-5) 10); [cbn; lia|reflexivity|lia|lia|vm_compute; lia]. Defined.
