(* ===== verification/Versionbits.v ===== *)
(** * Version-bits deployments

    The BIP 9 / BIP 8 deployment tracker of
    [bitcoinpr-core/src/versionbits.rs], used for block templates and status
    display.  The theorem shows that a deployment the tracker reports as active
    went through the whole signalling procedure. *)

From Stdlib Require Import ZArith Lia.
From stdpp Require Import base option numbers list strings.
From S2P Require Import Prelude Types Consensus.

Inductive DeploymentState : Type := Defined | Started | LockedIn | Active | Failed.

#[global] Instance DeploymentState_eq_dec : EqDecision DeploymentState.
Proof. solve_decision. Defined.

Record Deployment := mkDeployment {
  d_name : string;
  d_bit : Z;
  d_start_time : Z;
  d_timeout : Z;
  d_min_activation_height : Z;
  d_threshold : Z }.

Record VersionBitsTracker := mkTracker {
  deployments : list Deployment;
  states : list DeploymentState }.

Definition vb_new (ds : list Deployment) : VersionBitsTracker :=
  mkTracker ds (replicate (length ds) Defined).

Definition vb_mainnet : VersionBitsTracker :=
  vb_new
    [ mkDeployment "csv" 0 1462060800 1493596800 0 1916;
      mkDeployment "segwit" 1 1479168000 1510704000 0 1916;
      mkDeployment "taproot" 2 1619222400 1628640000 709632 1815 ].

Definition vb_regtest : VersionBitsTracker := mkTracker (deployments (vb_new [])) [].

(** [iter().position(|d| d.name == name).map(|i| self.states[i])] *)
Definition vb_state (t : VersionBitsTracker) (name : string) : option DeploymentState :=
  '(i, _) ← list_find (fun d => d_name d = name) (deployments t); states t !! i.

Definition all_states (t : VersionBitsTracker) : list (string * DeploymentState) :=
  zip_with (fun d s => (d_name d, s)) (deployments t) (states t).

Definition next_state (current : DeploymentState) (d : Deployment) (height median_time signal_count : Z) : DeploymentState :=
  match current with
  | Defined => if median_time >=? d_start_time d then Started else Defined
  | Started =>
      if signal_count >=? d_threshold d then LockedIn
      else if median_time >=? d_timeout d then Failed
      else Started
  | LockedIn => if height >=? d_min_activation_height d then Active else LockedIn
  | Active => Active
  | Failed => Failed
  end.

(** The body of the loop of [update_states], which overwrites [states[i]]. *)
Definition update_state (height median_time : Z) (signal_counts : list Z)
    (sts : list DeploymentState) (entry : nat * Deployment) : list DeploymentState :=
  let '(i, d) := entry in
  let signal_count := default 0 (signal_counts !! i) in
  match sts !! i with
  | Some s => <[i := next_state s d height median_time signal_count]> sts
  | None => sts
  end.

Definition update_states (t : VersionBitsTracker) (height median_time : Z) (signal_counts : list Z) : VersionBitsTracker :=
  if negb (height mod RETARGET_PERIOD =? 0) then t
  else mkTracker (deployments t)
         (foldl (update_state height median_time signal_counts) (states t) (imap pair (deployments t))).

(** [version] is the [i32] of the header, cast to [u32]. *)
Definition count_signals (headers : list Header) (bit : Z) : Z :=
  let version_mask := u32 (Z.shiftl 1 bit) in
  let version_top := 0x20000000 in
  u32 (len (filter (fun h =>
    let v := u32 (version h) in
    Z.land v version_top = version_top /\ Z.land v version_mask <> 0) headers)).

(** ** Histories *)

(** One call of [update_states]. *)
Record vb_event := mkEvent { ev_height : Z; ev_time : Z; ev_counts : list Z }.

Definition vb_run (t : VersionBitsTracker) (evs : list vb_event) : VersionBitsTracker :=
  foldl (fun t e => update_states t (ev_height e) (ev_time e) (ev_counts e)) t evs.

(** The history of one deployment. *)
Definition boundary (e : vb_event) : bool := ev_height e mod RETARGET_PERIOD =? 0.
Definition signals_for (i : nat) (e : vb_event) : Z := default 0 (ev_counts e !! i).
Definition dep_step (d : Deployment) (i : nat) (s : DeploymentState) (e : vb_event) : DeploymentState :=
  if boundary e then next_state s d (ev_height e) (ev_time e) (signals_for i e) else s.

Lemma length_update_all h mt cs l sts : length (foldl (update_state h mt cs) sts l) = length sts.
Proof.
  revert sts. induction l as [|[i d] l IH]; intros sts; cbn [foldl]; [done|].
  rewrite IH. unfold update_state. destruct (sts !! i); [apply length_insert|done].
Qed.

Lemma update_all_lookup h mt cs ds : forall k sts i,
  length sts = (k + length ds)%nat ->
  foldl (update_state h mt cs) sts (imap (fun j d => (k + j, d)%nat) ds) !! i =
  if decide (k <= i < k + length ds)%nat
  then s ← sts !! i; d ← ds !! (i - k)%nat; Some (next_state s d h mt (default 0 (cs !! i)))
  else sts !! i.
Proof.
  induction ds as [|d ds IH]; intros k sts i Hl; cbn [imap foldl length].
  { rewrite decide_False by lia. done. }
  rewrite Nat.add_0_r. destruct (lookup_lt_is_Some_2 sts k) as [s Hs]; [cbn in Hl; lia|].
  cbn [update_state]. rewrite Hs.
  assert (Himap : imap ((fun j d => (k + j, d)%nat) ∘ S) ds = imap (fun j d => (S k + j, d)%nat) ds).
  { apply imap_ext. intros j x _. cbn. f_equal. lia. }
  rewrite Himap, IH by (rewrite length_insert; cbn in Hl; lia).
  destruct (decide (i = k)) as [->|Hne].
  - rewrite decide_False, decide_True by lia. rewrite list_lookup_insert_eq by (eapply lookup_lt_Some; eauto).
    by rewrite Hs, Nat.sub_diag.
  - rewrite list_lookup_insert_ne by done. destruct (decide (S k <= i < S k + length ds)%nat).
    + rewrite decide_True by lia. replace (i - k)%nat with (S (i - S k)) by lia. done.
    + by rewrite decide_False by lia.
Qed.

Lemma update_states_lookup t h mt cs i d s :
  length (states t) = length (deployments t) -> deployments t !! i = Some d -> states t !! i = Some s ->
  states (update_states t h mt cs) !! i =
  Some (if h mod RETARGET_PERIOD =? 0 then next_state s d h mt (default 0 (cs !! i)) else s).
Proof.
  intros Hl Hd Hs. unfold update_states. destruct (_ =? 0); cbn [negb states]; [|done].
  rewrite (update_all_lookup h mt cs (deployments t) 0) by done.
  rewrite decide_True by (split; [lia|by eapply lookup_lt_Some]). rewrite Hs, Nat.sub_0_r, Hd. done.
Qed.

Lemma update_states_wf t h mt cs :
  length (states t) = length (deployments t) ->
  length (states (update_states t h mt cs)) = length (deployments (update_states t h mt cs)).
Proof. intros Hl. unfold update_states. destruct (negb _); [done|]. cbn. by rewrite length_update_all. Qed.

Lemma vb_run_lookup evs : forall t i d s,
  length (states t) = length (deployments t) -> deployments t !! i = Some d -> states t !! i = Some s ->
  states (vb_run t evs) !! i = Some (foldl (dep_step d i) s evs).
Proof.
  induction evs as [|e evs IH]; intros t i d s Hl Hd Hs; cbn [vb_run foldl]; [done|].
  apply (IH (update_states t (ev_height e) (ev_time e) (ev_counts e))).
  - by apply update_states_wf.
  - unfold update_states. by destruct (negb _).
  - rewrite (update_states_lookup t _ _ _ i d s) by done. done.
Qed.

(** [followed evs ps]: the events [evs] contain, in order, events that satisfy
    the predicates [ps]. *)
Fixpoint followed (evs : list vb_event) (ps : list (vb_event -> Prop)) : Prop :=
  match ps with
  | [] => True
  | p :: r => exists l1 e l2, evs = l1 ++ e :: l2 /\ p e /\ followed l2 r
  end.

Lemma followed_app evs e ps : followed evs ps -> followed (evs ++ [e]) ps.
Proof.
  revert evs. induction ps as [|p ps IH]; intros evs; cbn; [done|].
  intros (l1 & x & l2 & -> & Hp & Hf). exists l1, x, (l2 ++ [e]). rewrite <- app_assoc. auto.
Qed.

Lemma followed_snoc evs e ps (p : vb_event -> Prop) : followed evs ps -> p e -> followed (evs ++ [e]) (ps ++ [p]).
Proof.
  revert evs. induction ps as [|q ps IH]; intros evs; cbn [followed app].
  - intros _ Hp. by exists evs, e, [].
  - intros (l1 & x & l2 & -> & Hq & Hf) Hp. exists l1, x, (l2 ++ [e]). rewrite <- app_assoc. auto.
Qed.

Definition start_event (d : Deployment) (e : vb_event) : Prop := boundary e = true /\ d_start_time d <= ev_time e.
Definition lock_event (d : Deployment) (i : nat) (e : vb_event) : Prop :=
  boundary e = true /\ d_threshold d <= signals_for i e.
Definition activate_event (d : Deployment) (e : vb_event) : Prop :=
  boundary e = true /\ d_min_activation_height d <= ev_height e.

(** What the state of a deployment says about its history. *)
Definition history (d : Deployment) (i : nat) (s : DeploymentState) (evs : list vb_event) : Prop :=
  match s with
  | Defined => True
  | Started => followed evs [start_event d]
  | LockedIn => followed evs [start_event d; lock_event d i]
  | Active => followed evs [start_event d; lock_event d i; activate_event d]
  | Failed => followed evs [start_event d; fun e => boundary e = true /\ d_timeout d <= ev_time e]
  end.

Lemma history_run d i evs : history d i (foldl (dep_step d i) Defined evs) evs.
Proof.
  induction evs as [|e evs IH] using rev_ind; [done|]. rewrite foldl_app. cbn [foldl].
  set (s := foldl (dep_step d i) Defined evs) in *. clearbody s. unfold dep_step.
  destruct (boundary e) eqn:Hb.
  2: { destruct s; cbn [history] in *; try (by apply followed_app); done. }
  destruct s; cbn [next_state].
  - destruct (Z.geb_spec (ev_time e) (d_start_time d)); [|done].
    apply (followed_snoc _ _ [] (start_event d)); [done|]. split; [done|lia].
  - destruct (Z.geb_spec (signals_for i e) (d_threshold d));
      [|destruct (Z.geb_spec (ev_time e) (d_timeout d)); [|by apply followed_app]].
    + apply (followed_snoc _ _ [start_event d] (lock_event d i)); [done|]. split; [done|lia].
    + apply (followed_snoc _ _ [start_event d]); [done|]. split; [done|lia].
  - destruct (Z.geb_spec (ev_height e) (d_min_activation_height d)); [|by apply followed_app].
    apply (followed_snoc _ _ [start_event d; lock_event d i] (activate_event d)); [done|]. split; [done|lia].
  - by apply followed_app.
  - by apply followed_app.
Qed.

(** a deployment reported active was signalled: its history contains, in
    this order and at period boundaries, a median time past the start, a period
    with at least the threshold of signals, and a height at or above the
    minimum activation height; an active deployment stays active. *)
Theorem deployment_activation_sound (ds : list Deployment) (evs more : list vb_event) (i : nat) (d : Deployment) :
  ds !! i = Some d -> states (vb_run (vb_new ds) evs) !! i = Some Active ->
  followed evs [start_event d; lock_event d i; activate_event d] /\
  states (vb_run (vb_new ds) (evs ++ more)) !! i = Some Active.
Proof.
  intros Hd Ha. assert (Hs : states (vb_new ds) !! i = Some Defined).
  { cbn. apply lookup_replicate. split; [done|by eapply lookup_lt_Some]. }
  pose proof (fun l => vb_run_lookup l (vb_new ds) i d Defined (length_replicate _ _) Hd Hs) as Hrun.
  rewrite Hrun in *. injection Ha as Ha. split.
  - pose proof (history_run d i evs) as Hh. by rewrite Ha in Hh.
  - rewrite foldl_app, Ha. f_equal. induction more as [|e more IH] using rev_ind; [done|].
    rewrite foldl_app. cbn [foldl]. rewrite IH. unfold dep_step. by destruct (boundary e).
Qed.

(** The taproot deployment on its historical schedule. *)
Lemma deployment_activation_sound_witness :
  let evs := [mkEvent 681408 1619222400 [0; 0; 0]; mkEvent 687456 1623500000 [0; 0; 1900];
              mkEvent 709632 1636900000 [0; 0; 0]] in
  states (vb_run (vb_new (deployments vb_mainnet)) (evs ++ [])) !! 2%nat = Some Active.
Proof.
  intros evs.
  destruct (deployment_activation_sound (deployments vb_mainnet) evs [] 2
    (mkDeployment "taproot" 2 1619222400 1628640000 709632 1815) eq_refl) as [_ Ha]; [reflexivity|exact Ha].
Defined.
