(* ===== verification/Store.v ===== *)
(** * Persistent state

    What the storage components share: stateful computations that may fail,
    and the interface to the RocksDB key-value store.  A computation returns
    the new state also when it fails, because the code keeps whatever it had
    changed before an early return.  The laws of the store are a class of
    their own, assumed by the theorems that need them: a successful read
    returns the contents, a batch is applied completely or not at all. *)

From Stdlib Require Import ZArith Lia Ascii String.
From stdpp Require Import base option numbers list gmap strings.
From S2P Require Import Prelude Types.

(** ** State and errors *)

Definition stm (S E A : Type) : Type := S -> S * result E A.

#[global] Instance stm_ret {S E} : MRet (stm S E) := fun A a s => (s, Ok a).
#[global] Instance stm_bind {S E} : MBind (stm S E) :=
  fun A B f m s => match m s with
                   | (s', Ok a) => f a s'
                   | (s', Err e) => (s', Err e)
                   end.

Definition gets {S E A} (f : S -> A) : stm S E A := fun s => (s, Ok (f s)).
Definition modify {S E} (f : S -> S) : stm S E unit := fun s => (f s, Ok tt).
Definition lift {S E A} (r : result E A) : stm S E A := fun s => (s, r).

(** A [for] loop over a stateful body. *)
Fixpoint foldS {S E A B} (f : B -> A -> stm S E B) (b : B) (l : list A) : stm S E B :=
  match l with
  | [] => mret b
  | x :: r => b' ← f b x; foldS f b' r
  end.

(** [wp m Q s]: running [m] from [s] ends in a state and a result that satisfy
    [Q]. *)
Definition wp {S E A} (m : stm S E A) (Q : S -> result E A -> Prop) (s : S) : Prop :=
  Q (m s).1 (m s).2.

Lemma wp_ret {S E A} (a : A) (Q : S -> result E A -> Prop) s : Q s (Ok a) -> wp (mret a) Q s.
Proof. done. Qed.

Lemma wp_bind {S E A B} (m : stm S E A) (f : A -> stm S E B) Q s :
  wp m (fun s' r => match r with Ok a => wp (f a) Q s' | Err e => Q s' (Err e) end) s ->
  wp (m ≫= f) Q s.
Proof. unfold wp. cbn. unfold mbind, stm_bind. destruct (m s) as [s' [a|e]]; done. Qed.

Lemma wp_mono {S E A} (m : stm S E A) (Q R : S -> result E A -> Prop) s :
  (forall s' r, Q s' r -> R s' r) -> wp m Q s -> wp m R s.
Proof. intros HQR. apply HQR. Qed.

Lemma wp_gets {S E A} (f : S -> A) (Q : S -> result E A -> Prop) s : Q s (Ok (f s)) -> wp (gets f) Q s.
Proof. done. Qed.
Lemma wp_modify {S E} (f : S -> S) (Q : S -> result E unit -> Prop) s : Q (f s) (Ok tt) -> wp (modify f) Q s.
Proof. done. Qed.
Lemma wp_lift {S E A} (x : result E A) (Q : S -> result E A -> Prop) s : Q s x -> wp (lift x) Q s.
Proof. done. Qed.

(** Loop rule: an invariant that every iteration keeps, also when it fails. *)
Lemma wp_foldS {S E A B} (I : S -> result E B -> Prop) (f : B -> A -> stm S E B) l : forall b s,
  (forall b x s, x ∈ l -> I s (Ok b) -> wp (f b x) I s) ->
  I s (Ok b) -> wp (foldS f b l) I s.
Proof.
  induction l as [|x l IH]; intros b s Hstep Hb; [done|]. cbn [foldS]. apply wp_bind.
  eapply wp_mono; [|apply Hstep; [by left|done]]. cbn. intros s' [b'|e] HI; [|done].
  apply IH; [|done]. intros b0 y s0 Hy. apply Hstep. by right.
Qed.

(** [steps R m P]: from a state in [R], [m] ends in a state in [R], and a
    successful result satisfies [P]. *)
Definition steps {S E A} (R : S -> Prop) (m : stm S E A) (P : A -> Prop) : Prop :=
  forall s, R s -> wp m (fun s' r => R s' /\ forall a, r = Ok a -> P a) s.

Section Steps.
Context {S E : Type} (R : S -> Prop).

Lemma steps_ret {A} (a : A) (P : A -> Prop) : P a -> steps (E := E) R (mret a) P.
Proof. intros HP s Hs. apply wp_ret. split; [done|]. by intros ? [= <-]. Qed.

Lemma steps_bind {A B} (m : stm S E A) (f : A -> stm S E B) (P : A -> Prop) (Q : B -> Prop) :
  steps R m P -> (forall a, P a -> steps R (f a) Q) -> steps R (m ≫= f) Q.
Proof.
  intros Hm Hf s Hs. apply wp_bind. eapply wp_mono; [|by apply Hm]. cbv beta. intros s' [a|e] [Hs' HP]; [|split; [done|]].
  - by apply Hf; [apply HP|].
  - by intros ? [=].
Qed.

Lemma steps_lift {A} (r : result E A) (P : A -> Prop) : (forall a, r = Ok a -> P a) -> steps R (lift r) P.
Proof. intros HP s Hs. apply wp_lift. by split. Qed.

Lemma steps_mono {A} (m : stm S E A) (P Q : A -> Prop) : (forall a, P a -> Q a) -> steps R m P -> steps R m Q.
Proof. intros HPQ Hm s Hs. eapply wp_mono; [|by apply Hm]. cbv beta. intros s' r [Hs' HP]. split; [done|]. intros a Ha. by apply HPQ, HP. Qed.

Lemma steps_foldS {A B} (I : list A -> B -> Prop) (f : B -> A -> stm S E B) (l : list A) (b : B) :
  (forall pre x suf b, l = pre ++ x :: suf -> I pre b -> steps R (f b x) (I (pre ++ [x]))) ->
  I [] b -> steps R (foldS f b l) (I l).
Proof.
  intros Hf. assert (Hgen : forall pre suf b, l = pre ++ suf -> I pre b -> steps R (foldS f b suf) (I l)).
  { intros pre suf. revert pre. induction suf as [|x suf IH]; intros pre b0 Hl HI; cbn [foldS].
    - rewrite app_nil_r in Hl. subst pre. by apply steps_ret.
    - eapply steps_bind; [by eapply Hf|]. intros b1 HI1. apply (IH (pre ++ [x])); [|done].
      by rewrite <- app_assoc. }
  by apply (Hgen []).
Qed.
End Steps.

(** Loop rule with the position in the list. *)
Lemma wp_foldS_split {S E A B} (I : list A -> S -> B -> Prop) (Er : S -> E -> Prop) (f : B -> A -> stm S E B) l b s :
  (forall pre x suf b s, l = pre ++ x :: suf -> I pre s b ->
    wp (f b x) (fun s' r => match r with Ok b' => I (pre ++ [x]) s' b' | Err e => Er s' e end) s) ->
  I [] s b -> wp (foldS f b l) (fun s' r => match r with Ok b' => I l s' b' | Err e => Er s' e end) s.
Proof.
  intros Hstep. assert (Hgen : forall suf pre b s, l = pre ++ suf -> I pre s b ->
    wp (foldS f b suf) (fun s' r => match r with Ok b' => I l s' b' | Err e => Er s' e end) s); [|by apply (Hgen l [])].
  induction suf as [|x suf IH]; intros pre b0 s0 Hl HI; cbn [foldS].
  - apply wp_ret. by rewrite Hl, app_nil_r.
  - apply wp_bind. eapply wp_mono; [|by eapply Hstep]. cbn. intros s' [b'|e] HI'; [|done].
    apply (IH (pre ++ [x])); [|done]. by rewrite <- app_assoc.
Qed.

(** Loop rule with the processed prefix in the invariant. *)
Lemma wp_foldS_prefix {S E A B} (I : list A -> S -> B -> Prop) (Er : S -> E -> Prop)
    (f : B -> A -> stm S E B) l : forall done b s,
  (forall done b x s, I done s b ->
    wp (f b x) (fun s' r => match r with Ok b' => I (done ++ [x]) s' b' | Err e => Er s' e end) s) ->
  I done s b ->
  wp (foldS f b l) (fun s' r => match r with Ok b' => I (done ++ l) s' b' | Err e => Er s' e end) s.
Proof.
  induction l as [|x l IH]; intros done b s Hstep Hb; cbn [foldS].
  - apply wp_ret. by rewrite app_nil_r.
  - apply wp_bind. eapply wp_mono; [|by apply Hstep]. cbn. intros s' [b'|e] HI; [|done].
    eapply wp_mono; [|by apply (IH (done ++ [x]))]. cbn. intros s'' [b''|e]; by rewrite <- ?app_assoc.
Qed.

(** ** The key-value store *)

(** The bytes of an ASCII literal [b".."]. *)
Definition ascii_bytes (s : string) : bytes :=
  map (fun a => Z.of_N (N_of_ascii a)) (list_ascii_of_string s).

Inductive batch_op : Type :=
| Put (cf : string) (key value : bytes)
| Delete (cf : string) (key : bytes).

Definition op_cf (o : batch_op) : string := match o with Put c _ _ => c | Delete c _ => c end.
Definition op_key (o : batch_op) : bytes := match o with Put _ k _ => k | Delete _ k => k end.
Definition op_value (o : batch_op) : option bytes := match o with Put _ _ v => Some v | Delete _ _ => None end.

(** The operations of [rocksdb::DB] the code calls.  [write] applies a
    [WriteBatch]; [put_cf] and [delete_cf] write a batch of one operation. *)
Class RocksDb := {
  DB : Type;
  cf_handle : DB -> string -> bool;
  get_cf : DB -> string -> bytes -> StorageResult (option bytes);
  write : DB -> list batch_op -> DB * StorageResult unit }.

Abbreviation store_contents := (string -> bytes -> option bytes).

Definition apply_op (c : store_contents) (o : batch_op) : store_contents := fun cf k =>
  if bool_decide (cf = op_cf o /\ k = op_key o) then op_value o else c cf k.
Definition apply_ops (c : store_contents) (ops : list batch_op) : store_contents := foldl apply_op c ops.

(** Documented behaviour of RocksDB. *)
Class RocksLaws `{RocksDb} := {
  contents : DB -> store_contents;
  get_cf_contents d cf k v : get_cf d cf k = Ok v -> v = contents d cf k;
  write_applies d ops d' : write d ops = (d', Ok tt) -> forall cf k, contents d' cf k = apply_ops (contents d) ops cf k;
  write_atomic d ops d' e : write d ops = (d', Err e) -> forall cf k, contents d' cf k = contents d cf k;
  write_handles d ops cf : cf_handle (write d ops).1 cf = cf_handle d cf }.

(** The last operation on a key decides its value. *)
Lemma apply_ops_app c a b cf k : apply_ops c (a ++ b) cf k = apply_ops (apply_ops c a) b cf k.
Proof. unfold apply_ops. by rewrite foldl_app. Qed.

Lemma apply_ops_ext c c' ops cf k : c cf k = c' cf k -> apply_ops c ops cf k = apply_ops c' ops cf k.
Proof.
  revert c c'. induction ops as [|o ops IH]; intros c c' Hc; [done|]. cbn. apply IH.
  unfold apply_op. by destruct (bool_decide _).
Qed.

Lemma apply_ops_other c ops cf k :
  Forall (fun o => ~ (op_cf o = cf /\ op_key o = k)) ops -> apply_ops c ops cf k = c cf k.
Proof.
  intros Ho. revert c. induction Ho as [|o ops Ho _ IH]; intros c; [done|]. cbn. rewrite IH.
  unfold apply_op. rewrite bool_decide_eq_false_2; [done|]. intros [-> ->]. by apply Ho.
Qed.

Lemma apply_ops_snoc c ops o cf k : apply_ops c (ops ++ [o]) cf k = apply_op (apply_ops c ops) o cf k.
Proof. unfold apply_ops. by rewrite foldl_app. Qed.

(** A key keeps its value or takes that of an operation on it. *)
Lemma apply_ops_cases c ops cf k :
  apply_ops c ops cf k = c cf k \/
  exists o, o ∈ ops /\ op_cf o = cf /\ op_key o = k /\ apply_ops c ops cf k = op_value o.
Proof.
  induction ops as [|o ops IH] using rev_ind; [by left|]. rewrite apply_ops_snoc. unfold apply_op.
  case_bool_decide as Hd.
  - destruct Hd as [-> ->]. right. exists o. split_and!; [|done..]. apply elem_of_app. right. by left.
  - destruct IH as [IH|(x & Hx & H1 & H2 & H3)]; [by left|right].
    exists x. split_and!; [|done..]. apply elem_of_app. by left.
Qed.

(** When every operation on a key has the same effect, that is its value. *)
Lemma apply_ops_agree c ops cf k v :
  (exists o, o ∈ ops /\ op_cf o = cf /\ op_key o = k) ->
  (forall o, o ∈ ops -> op_cf o = cf -> op_key o = k -> op_value o = v) ->
  apply_ops c ops cf k = v.
Proof.
  induction ops as [|o ops IH] using rev_ind; intros (x & Hx & Hcf & Hk) Hall.
  { by apply not_elem_of_nil in Hx. }
  rewrite apply_ops_snoc. unfold apply_op. case_bool_decide as Hd.
  - destruct Hd as [-> ->]. apply Hall; [|done|done]. apply elem_of_app. right. by left.
  - apply IH.
    + apply elem_of_app in Hx as [Hx|Hx]; [eauto|]. apply list_elem_of_singleton in Hx as ->.
      exfalso. by apply Hd.
    + intros y Hy. apply Hall. apply elem_of_app. by left.
Qed.

(** ** A concrete store

    A finite map that never fails, for the closed examples. *)
Module SampleDb.

Definition write_op (d : gmap (string * bytes) bytes) (o : batch_op) : gmap (string * bytes) bytes :=
  match o with
  | Put c k v => <[(c, k) := v]> d
  | Delete c k => delete (c, k) d
  end.

Definition rocks : RocksDb := {|
  DB := gmap (string * bytes) bytes;
  cf_handle := fun _ _ => true;
  get_cf := fun d c k => Ok (d !! (c, k));
  write := fun d ops => (foldl write_op d ops, Ok tt) |}.

Lemma write_op_contents d o cf k :
  write_op d o !! (cf, k) = apply_op (fun c k => d !! (c, k)) o cf k.
Proof.
  unfold apply_op. destruct o as [c k' v|c k']; cbn [write_op op_cf op_key op_value];
    case_bool_decide as Hd; destruct_and?; subst.
  - apply lookup_insert_eq.
  - apply lookup_insert_ne. naive_solver.
  - apply lookup_delete_eq.
  - apply lookup_delete_ne. naive_solver.
Qed.

Lemma write_ops_contents ops d cf k :
  foldl write_op d ops !! (cf, k) = apply_ops (fun c k => d !! (c, k)) ops cf k.
Proof.
  revert d. induction ops as [|o ops IH]; intros d; [done|]. cbn. rewrite IH.
  apply apply_ops_ext. apply write_op_contents.
Qed.

Definition laws : @RocksLaws rocks.
Proof.
  refine {| contents := (fun (d : @DB rocks) c k => (d : gmap (string * bytes) bytes) !! (c, k)) |}.
  - by intros d cf k v [= <-].
  - intros d ops d' [= <-] cf k. apply write_ops_contents.
  - done.
  - done.
Defined.
End SampleDb.
