(* ===== verification/HeaderIndex.v ===== *)
(** * The header index

    The RocksDB-backed index of [bitcoinpr-storage/src/header_index.rs]:
    stored headers, the height index of the active chain, the tips, block
    positions and the invalid-block markers, with the ancestor walk and the
    restoration of the height index after a failed reorganisation.  The
    80-byte header encoding of the [bitcoin] crate is a parameter. *)

From Stdlib Require Import ZArith Lia.
From stdpp Require Import base option numbers list gmap strings.
From S2P Require Import Prelude Bytes Types Consensus Validation Store.

Definition CF_HEADERS : string := "headers".
Definition CF_HEIGHT_INDEX : string := "height_index".
Definition CF_HMETA : string := "meta".
Definition CF_BLOCK_POS : string := "block_pos".
Definition CF_INVALID : string := "invalid_blocks".

Definition META_BEST_HASH : bytes := ascii_bytes "best_hash".
Definition META_BEST_HEIGHT : bytes := ascii_bytes "best_height".
Definition META_VALIDATED_HEIGHT : bytes := ascii_bytes "validated_height".
Definition META_HEADER_TIP_HASH : bytes := ascii_bytes "header_tip_hash".
Definition META_HEADER_TIP_HEIGHT : bytes := ascii_bytes "header_tip_height".
Definition META_PRUNED_HEIGHT : bytes := ascii_bytes "pruned_height".

Definition INVALID_REASON_BIP110 : Z := 1.
Definition INVALID_REASON_CONSENSUS : Z := 2.
Definition INVALID_REASON_SIGNALING : Z := 3.
Definition INVALID_REASON_MANUAL : Z := 4.

(** [DB::flush_wal(true)], which changes no contents. *)
Class RocksWal `{RocksDb} := { db_flush_wal : DB -> StorageResult unit }.

(** [consensus_encode] and [consensus_decode] of a header. *)
Class HeaderCodec := {
  encode_header : Header -> bytes;
  decode_header : bytes -> option Header }.

Definition header_ok (h : Header) : Prop :=
  fits 32 (version h) /\ length (prev_blockhash h) = 32%nat /\ length (merkle_root h) = 32%nat /\
  fits 32 (time h) /\ fits 32 (bits h) /\ fits 32 (nonce h).

(** Documented behaviour of the encoding. *)
Class HeaderCodecLaws `{HeaderCodec} := {
  encode_header_length h : header_ok h -> length (encode_header h) = 80%nat;
  decode_encode_header h : header_ok h -> decode_header (encode_header h) = Some h }.

(** [BlockPos] of the block files. *)
Record BlockPos := mkBlockPos { file_num : Z; offset : Z; block_size : Z }.

Definition serialize_pos (p : BlockPos) : bytes :=
  to_le 4 (file_num p) ++ to_le 8 (offset p) ++ to_le 4 (block_size p).
Definition deserialize_pos (data : bytes) : BlockPos :=
  mkBlockPos (from_le (take 4 data)) (from_le (take 8 (drop 4 data))) (from_le (take 4 (drop 12 data))).

Section Index.
Context `{HR : RocksDb} `{HW : !RocksWal} `{HC : HeaderCodec}.

Record HeaderIndex := mkHeaderIndex {
  hi_db : DB;
  invalid_set : gset hash256;
  invalid_generation : Z }.

Abbreviation HM := (stm HeaderIndex StorageError).

Definition set_hi_db (hi : HeaderIndex) (d : DB) : HeaderIndex :=
  mkHeaderIndex d (invalid_set hi) (invalid_generation hi).

(** [BlockHash::from_slice] *)
Definition hash_from_bytes (data : bytes) : StorageResult hash256 :=
  if (length data =? 32)%nat then Ok data else Err (Serialization "invalid slice length").

(** [self.cf(name)?] followed by [get_cf]. *)
Definition hi_get (hi : HeaderIndex) (name : string) (key : bytes) : StorageResult (option bytes) :=
  _ ← guard_err (negb (cf_handle (hi_db hi) name)) (MissingColumnFamily name);
  get_cf (hi_db hi) name key.

Definition hi_cf (name : string) : HM unit :=
  fun hi => (hi, guard_err (negb (cf_handle (hi_db hi) name)) (MissingColumnFamily name)).
Definition hi_write (ops : list batch_op) : HM unit :=
  fun hi => let '(d, r) := write (hi_db hi) ops in (set_hi_db hi d, r).

(** ** Headers *)

Definition serialize_stored (s : StoredHeader) : bytes :=
  encode_header (sh_header s) ++ to_le 4 (sh_height s) ++ chain_work s.

Definition deserialize_stored (data : bytes) : StorageResult StoredHeader :=
  _ ← guard_err (len data <? 80 + 4 + 32) (Serialization "stored header too short");
  h ← ok_or (decode_header (take 80 data)) (Serialization "header decode error");
  Ok (mkStored h (from_le (take 4 (drop 80 data))) (take 32 (drop 84 data))).

Definition header_put (p : hash256 * StoredHeader) : batch_op := Put CF_HEADERS p.1 (serialize_stored p.2).
Definition height_put (p : hash256 * StoredHeader) : batch_op :=
  Put CF_HEIGHT_INDEX (to_be 4 (sh_height p.2)) p.1.

Definition insert_header (hash : hash256) (stored : StoredHeader) : HM unit :=
  _ ← hi_cf CF_HEADERS; _ ← hi_cf CF_HEIGHT_INDEX;
  hi_write [header_put (hash, stored); height_put (hash, stored)].

Definition insert_headers_batch (headers : list (hash256 * StoredHeader)) : HM unit :=
  _ ← hi_cf CF_HEADERS; _ ← hi_cf CF_HEIGHT_INDEX;
  hi_write (concat (map (fun p => [header_put p; height_put p]) headers)).

Definition insert_headers_hash_only (headers : list (hash256 * StoredHeader)) : HM unit :=
  _ ← hi_cf CF_HEADERS; hi_write (map header_put headers).

Definition update_height_index_batch (headers : list (hash256 * StoredHeader)) : HM unit :=
  _ ← hi_cf CF_HEIGHT_INDEX; hi_write (map height_put headers).

Definition set_height_hash (height : Z) (hash : hash256) : HM unit :=
  _ ← hi_cf CF_HEIGHT_INDEX; hi_write [Put CF_HEIGHT_INDEX (to_be 4 height) hash].

Definition get_header (hi : HeaderIndex) : header_lookup := fun hash =>
  data ← hi_get hi CF_HEADERS hash;
  match data with
  | Some data => s ← deserialize_stored data; Ok (Some s)
  | None => Ok None
  end.

(** [while current.height > target_height]; the height strictly decreases. *)
Fixpoint ancestor_loop (get : header_lookup) (fuel : nat) (target_height : Z) (current : StoredHeader) :
    StorageResult (option StoredHeader) :=
  if sh_height current >? target_height then
    match fuel with
    | O => Ok None
    | S f =>
        parent ← get (prev_blockhash (sh_header current));
        match parent with
        | Some parent =>
            if sh_height parent <? sh_height current then ancestor_loop get f target_height parent else Ok None
        | None => Ok None
        end
    end
  else Ok (Some current).

Definition get_ancestor (get : header_lookup) (from : hash256) (target_height : Z) : StorageResult (option StoredHeader) :=
  current ← get from;
  match current with
  | Some current =>
      if sh_height current <? target_height then Ok None
      else ancestor_loop get (Z.to_nat (sh_height current)) target_height current
  | None => Ok None
  end.

Definition get_hash_at_height (hi : HeaderIndex) (height : Z) : StorageResult (option hash256) :=
  data ← hi_get hi CF_HEIGHT_INDEX (to_be 4 height);
  match data with
  | Some data => h ← hash_from_bytes data; Ok (Some h)
  | None => Ok None
  end.

Definition delete_height_entry (height : Z) : HM unit :=
  _ ← hi_cf CF_HEIGHT_INDEX; hi_write [Delete CF_HEIGHT_INDEX (to_be 4 height)].

(** ** Tips and markers *)

Definition read_hash (hi : HeaderIndex) (key : bytes) : StorageResult (option hash256) :=
  data ← hi_get hi CF_HMETA key;
  match data with
  | Some data => h ← hash_from_bytes data; Ok (Some h)
  | None => Ok None
  end.

Definition read_height (hi : HeaderIndex) (key : bytes) (msg : string) : StorageResult (option Z) :=
  data ← hi_get hi CF_HMETA key;
  match data with
  | Some data => if (length data =? 4)%nat then Ok (Some (from_le data)) else Err (Serialization msg)
  | None => Ok None
  end.

Definition get_best_tip (hi : HeaderIndex) : StorageResult (option hash256) := read_hash hi META_BEST_HASH.
Definition get_best_height (hi : HeaderIndex) : StorageResult (option Z) :=
  read_height hi META_BEST_HEIGHT "invalid height bytes".

Definition set_best_tip (hash : hash256) (height : Z) : HM unit :=
  _ ← hi_cf CF_HMETA;
  hi_write [Put CF_HMETA META_BEST_HASH hash; Put CF_HMETA META_BEST_HEIGHT (to_le 4 height)].

Definition get_header_tip (hi : HeaderIndex) : StorageResult (option hash256) :=
  tip ← read_hash hi META_HEADER_TIP_HASH;
  match tip with Some h => Ok (Some h) | None => get_best_tip hi end.

Definition get_header_tip_height (hi : HeaderIndex) : StorageResult (option Z) :=
  h ← read_height hi META_HEADER_TIP_HEIGHT "invalid height bytes";
  match h with Some h => Ok (Some h) | None => get_best_height hi end.

Definition set_header_tip (hash : hash256) (height : Z) : HM unit :=
  _ ← hi_cf CF_HMETA;
  hi_write [Put CF_HMETA META_HEADER_TIP_HASH hash; Put CF_HMETA META_HEADER_TIP_HEIGHT (to_le 4 height)].

Definition set_block_pos (hash : hash256) (pos : BlockPos) : HM unit :=
  _ ← hi_cf CF_BLOCK_POS; hi_write [Put CF_BLOCK_POS hash (serialize_pos pos)].
Definition remove_block_pos (hash : hash256) : HM unit :=
  _ ← hi_cf CF_BLOCK_POS; hi_write [Delete CF_BLOCK_POS hash].
Definition get_block_pos (hi : HeaderIndex) (hash : hash256) : StorageResult (option BlockPos) :=
  data ← hi_get hi CF_BLOCK_POS hash;
  match data with
  | Some data =>
      _ ← guard_err (negb (length data =? 16)%nat) (Serialization "invalid block pos data length");
      Ok (Some (deserialize_pos data))
  | None => Ok None
  end.

Definition set_validated_height (height : Z) : HM unit :=
  _ ← hi_cf CF_HMETA; hi_write [Put CF_HMETA META_VALIDATED_HEIGHT (to_le 4 height)].
Definition get_validated_height (hi : HeaderIndex) : StorageResult (option Z) :=
  read_height hi META_VALIDATED_HEIGHT "invalid validated_height bytes".
Definition clear_validated_height : HM unit :=
  _ ← hi_cf CF_HMETA; hi_write [Delete CF_HMETA META_VALIDATED_HEIGHT].
Definition set_pruned_height (height : Z) : HM unit :=
  _ ← hi_cf CF_HMETA; hi_write [Put CF_HMETA META_PRUNED_HEIGHT (to_le 4 height)].
Definition get_pruned_height (hi : HeaderIndex) : StorageResult (option Z) :=
  read_height hi META_PRUNED_HEIGHT "invalid pruned_height bytes".

Definition flush_wal : HM unit := fun hi => (hi, db_flush_wal (hi_db hi)).

(** The heights [lo..=hi]. *)
Definition heights_between (lo hi : Z) : list Z :=
  map (fun i => lo + Z.of_nat i) (seq 0 (Z.to_nat (hi + 1 - lo))).

Definition height_delete (h : Z) : batch_op := Delete CF_HEIGHT_INDEX (to_be 4 h).

Definition truncate_to (keep_height : Z) : HM unit :=
  hi ← gets id;
  best ← lift (get_best_height hi);
  let best_height := default 0 best in
  if keep_height >=? best_height then mret tt
  else
    _ ← hi_cf CF_HEIGHT_INDEX;
    _ ← hi_write (map height_delete (heights_between (keep_height + 1) best_height));
    hi ← gets id;
    hash ← lift (get_hash_at_height hi keep_height);
    match hash with Some hash => set_best_tip hash keep_height | None => mret tt end.

Definition reset_fork_header_tip (canonical_height : Z) (canonical_hash : hash256) : HM unit :=
  hi ← gets id;
  tip ← lift (get_header_tip_height hi);
  let current_tip := default 0 tip in
  _ ← hi_cf CF_HEIGHT_INDEX;
  _ ← hi_write
    ((if current_tip >? canonical_height
      then map height_delete (heights_between (canonical_height + 1) current_tip) else [])
     ++ [Put CF_HEIGHT_INDEX (to_be 4 canonical_height) canonical_hash]);
  set_header_tip canonical_hash canonical_height.

(** ** Invalid blocks *)

Definition set_invalid (hi : HeaderIndex) (s : gset hash256) (g : Z) : HeaderIndex :=
  mkHeaderIndex (hi_db hi) s g.

Definition mark_invalid (hash : hash256) (height reason : Z) : HM unit :=
  _ ← hi_cf CF_INVALID;
  _ ← hi_write [Put CF_INVALID hash (reason :: to_le 4 height)];
  _ ← flush_wal;
  modify (fun hi => set_invalid hi ({[hash]} ∪ invalid_set hi) (u64 (invalid_generation hi + 1))).

Definition clear_invalid (hash : hash256) : HM unit :=
  _ ← hi_cf CF_INVALID;
  _ ← hi_write [Delete CF_INVALID hash];
  _ ← flush_wal;
  modify (fun hi =>
    if bool_decide (hash ∈ invalid_set hi)
    then set_invalid hi (invalid_set hi ∖ {[hash]}) (u64 (invalid_generation hi + 1)) else hi).

Definition is_invalid (hi : HeaderIndex) (hash : hash256) : bool := bool_decide (hash ∈ invalid_set hi).
Definition invalid_count (hi : HeaderIndex) : Z := Z.of_nat (size (invalid_set hi)).

Definition get_invalid (hi : HeaderIndex) (hash : hash256) : StorageResult (option (Z * Z)) :=
  data ← hi_get hi CF_INVALID hash;
  match data with
  | Some data =>
      _ ← guard_err (negb (length data =? 5)%nat) (Serialization "invalid marker data length");
      Ok (Some (from_le (drop 1 data), default 0 (head data)))
  | None => Ok None
  end.

(** The bounded walk of [first_invalid_ancestor]. *)
Fixpoint invalid_walk (hi : HeaderIndex) (n : nat) (validated_height : Z) (current_hash : hash256)
    (found : option (hash256 * Z)) : StorageResult (option (hash256 * Z)) :=
  match n with
  | O => Ok found
  | S n =>
      stored ← get_header hi current_hash;
      match stored with
      | None => Ok found
      | Some stored =>
          let found := if is_invalid hi current_hash then Some (current_hash, sh_height stored) else found in
          canonical ← (if sh_height stored <=? validated_height
                       then get_hash_at_height hi (sh_height stored) else Ok None);
          if bool_decide (canonical = Some current_hash) then Ok found
          else if sh_height stored =? 0 then Ok found
          else invalid_walk hi n validated_height (prev_blockhash (sh_header stored)) found
      end
  end.

Definition first_invalid_ancestor (hi : HeaderIndex) (tip : hash256) (validated_height max_walk : Z) :
    StorageResult (option (hash256 * Z)) :=
  if bool_decide (invalid_set hi = ∅) then Ok None
  else invalid_walk hi (Z.to_nat max_walk) validated_height tip None.

(** ** Restoring the height index *)

(** The loop of [restore_branch_height_index]: the puts and their number. *)
Fixpoint restore_loop (hi : HeaderIndex) (fuel : nat) (current_hash : hash256) (current : StoredHeader)
    (batch : list batch_op) (fixed : Z) : StorageResult (list batch_op * Z) :=
  existing ← get_hash_at_height hi (sh_height current);
  if bool_decide (existing = Some current_hash) then Ok (batch, fixed)
  else
    let batch := batch ++ [Put CF_HEIGHT_INDEX (to_be 4 (sh_height current)) current_hash] in
    let fixed := u32 (fixed + 1) in
    if sh_height current =? 0 then Ok (batch, fixed)
    else
      let current_hash := prev_blockhash (sh_header current) in
      parent ← get_header hi current_hash;
      match parent, fuel with
      | Some parent, S f =>
          if sh_height parent <? sh_height current
          then restore_loop hi f current_hash parent batch fixed
          else Err (Serialization "restore_branch_height_index: broken prev link")
      | _, _ => Err (Serialization "restore_branch_height_index: broken prev link")
      end.

Definition restore_branch_height_index (tip_hash : hash256) : HM (Z * Z) :=
  hi ← gets id;
  tip ← lift (get_header hi tip_hash);
  tip ← lift (ok_or tip (Serialization "restore_branch_height_index: unknown tip"));
  _ ← hi_cf CF_HEIGHT_INDEX;
  '(batch, fixed) ← lift (restore_loop hi (Z.to_nat (sh_height tip)) tip_hash tip [] 0);
  _ ← hi_write batch;
  mret (sh_height tip, fixed).
End Index.

(** A concrete encoding, for the closed examples. *)
Module SampleCodec.

Definition codec : HeaderCodec := {|
  encode_header := fun h =>
    to_le 4 (version h) ++ prev_blockhash h ++ merkle_root h ++ to_le 4 (time h) ++ to_le 4 (bits h) ++ to_le 4 (nonce h);
  decode_header := fun d =>
    Some (mkHeader (from_le (take 4 d)) (take 32 (drop 4 d)) (take 32 (drop 36 d)) (from_le (take 4 (drop 68 d)))
            (from_le (take 4 (drop 72 d))) (from_le (take 4 (drop 76 d)))) |}.

Lemma field (pre a rest : bytes) i n : length pre = i -> length a = n -> take n (drop i (pre ++ a ++ rest)) = a.
Proof. intros <- <-. by rewrite drop_app_length, take_app_length. Qed.

Definition laws : @HeaderCodecLaws codec.
Proof.
  split; intros [v p m t b n] (Hv & Hp & Hm & Ht & Hb & Hn); cbn [encode_header decode_header codec version prev_blockhash merkle_root time bits nonce] in *.
  { by rewrite !length_app, !length_to_le, Hp, Hm. }
  pose proof (field [] (to_le 4 v) (p ++ m ++ to_le 4 t ++ to_le 4 b ++ to_le 4 n) 0 4) as F1.
  pose proof (field (to_le 4 v) p (m ++ to_le 4 t ++ to_le 4 b ++ to_le 4 n) 4 32) as F2.
  pose proof (field (to_le 4 v ++ p) m (to_le 4 t ++ to_le 4 b ++ to_le 4 n) 36 32) as F3.
  pose proof (field (to_le 4 v ++ p ++ m) (to_le 4 t) (to_le 4 b ++ to_le 4 n) 68 4) as F4.
  pose proof (field (to_le 4 v ++ p ++ m ++ to_le 4 t) (to_le 4 b) (to_le 4 n) 72 4) as F5.
  pose proof (field (to_le 4 v ++ p ++ m ++ to_le 4 t ++ to_le 4 b) (to_le 4 n) [] 76 4) as F6.
  rewrite <- ?app_assoc, ?app_nil_r, ?length_app, ?length_to_le, ?Hp, ?Hm in *. cbn [app] in F1. rewrite drop_0 in F1.
  rewrite F1, F2, F3, F4, F5, F6 by done. by rewrite !from_to_le_small.
Qed.

Definition wal : @RocksWal SampleDb.rocks := {| db_flush_wal := fun _ => Ok tt |}.
End SampleCodec.
