(* ===== verification/HeaderProofs.v ===== *)
(** * Properties of the header index

    Stored headers read back unchanged, the ancestor walk finds the block of
    the branch at the requested height, and restoring the height index after a
    failed reorganisation makes it describe the given branch again. *)

From Stdlib Require Import ZArith Lia.
From stdpp Require Import base option numbers list gmap strings.
From S2P Require Import Prelude Bytes Types Consensus Validation Store HeaderIndex.

(** A branch of the header tree: the blocks from genesis, by height. *)
Definition branch (get : header_lookup) (hs : list (hash256 * StoredHeader)) : Prop :=
  forall i x b, hs !! i = Some (x, b) ->
    get x = Ok (Some b) /\ sh_height b = Z.of_nat i /\
    forall j, i = S j -> fst <$> hs !! j = Some (prev_blockhash (sh_header b)).

Lemma branch_prev get hs j x b :
  branch get hs -> hs !! S j = Some (x, b) ->
  exists p, hs !! j = Some (prev_blockhash (sh_header b), p) /\ get (prev_blockhash (sh_header b)) = Ok (Some p) /\
    sh_height p = Z.of_nat j.
Proof.
  intros Hb Hi. destruct (Hb _ _ _ Hi) as (_ & _ & Hp). specialize (Hp j eq_refl).
  destruct (hs !! j) as [[y p]|] eqn:Hj; [|done]. injection Hp as <-. exists p. split; [done|].
  destruct (Hb _ _ _ Hj) as (? & ? & _). done.
Qed.

Lemma ancestor_loop_branch get hs h : forall i fuel x b,
  branch get hs -> hs !! i = Some (x, b) -> 0 <= h <= Z.of_nat i -> (i <= fuel)%nat ->
  ancestor_loop get fuel h b = Ok (snd <$> hs !! Z.to_nat h).
Proof.
  induction i as [|i IH]; intros fuel x b Hb Hi Hh Hf; pose proof (Hb _ _ _ Hi) as (_ & Hht & _).
  - assert (h = 0) as -> by lia. change (Z.to_nat 0) with 0%nat. rewrite Hi.
    destruct fuel; cbn [ancestor_loop]; by rewrite Hht.
  - destruct fuel as [|fuel]; [lia|]. cbn [ancestor_loop]. rewrite Z.gtb_ltb, Hht.
    destruct (Z.ltb_spec h (Z.of_nat (S i))) as [Hlt|Hge].
    + destruct (branch_prev _ _ _ _ _ Hb Hi) as (p & Hp & Hg & Hph). rewrite Hg. cbn [mbind result_bind].
      rewrite Hph. destruct (Z.ltb_spec (Z.of_nat i) (Z.of_nat (S i))); [|lia]. apply (IH _ _ _ Hb Hp); lia.
    + assert (Z.to_nat h = S i) as -> by lia. by rewrite Hi.
Qed.

(** The ancestor walk on a branch. *)
Lemma get_ancestor_branch get hs i x b h :
  branch get hs -> hs !! i = Some (x, b) -> 0 <= h ->
  get_ancestor get x h = if h <=? Z.of_nat i then Ok (snd <$> hs !! Z.to_nat h) else Ok None.
Proof.
  intros Hb Hi Hh. unfold get_ancestor. destruct (Hb _ _ _ Hi) as (Hg & Hht & _). rewrite Hg.
  cbn [mbind result_bind]. rewrite Hht. rewrite Z.leb_antisym.
  destruct (Z.ltb_spec (Z.of_nat i) h); cbn [negb]; [done|].
  apply (ancestor_loop_branch get hs h i _ x b Hb Hi); lia.
Qed.

Section Proofs.
Context `{HR : RocksDb} `{HL : !RocksLaws} `{HW : !RocksWal} `{HC : HeaderCodec} `{HCL : !HeaderCodecLaws}.
Implicit Types hi : HeaderIndex.

Lemma stored_roundtrip s :
  header_ok (sh_header s) -> fits 32 (sh_height s) -> length (chain_work s) = 32%nat ->
  deserialize_stored (serialize_stored s) = Ok s.
Proof.
  intros Hok Hh Hw. unfold deserialize_stored, serialize_stored.
  assert (Hlen : len (encode_header (sh_header s) ++ to_le 4 (sh_height s) ++ chain_work s) = 116).
  { unfold len. by rewrite !length_app, encode_header_length, length_to_le, Hw. }
  rewrite Hlen. change (116 <? 80 + 4 + 32) with false. cbn [guard_err mbind result_bind].
  rewrite take_app_length' by by rewrite encode_header_length. rewrite decode_encode_header by done. cbn [ok_or mbind result_bind].
  rewrite drop_app_length' by by rewrite encode_header_length.
  rewrite take_app_length' by by rewrite length_to_le. rewrite from_to_le, Z.mod_small by exact Hh.
  rewrite app_assoc, drop_app_length', take_ge; [by destruct s|by rewrite Hw|].
  by rewrite length_app, encode_header_length, length_to_le.
Qed.

(** ** The height index *)

Definition index_at hi (h : Z) : option hash256 := contents (hi_db hi) CF_HEIGHT_INDEX (to_be 4 h).

Lemma get_hash_contents hi h v : get_hash_at_height hi h = Ok v -> v = index_at hi h.
Proof.
  unfold get_hash_at_height, hi_get. destruct (cf_handle _ _); cbn; [|done].
  destruct (get_cf (hi_db hi) CF_HEIGHT_INDEX (to_be 4 h)) as [d|] eqn:Hg; cbn; [|done].
  apply get_cf_contents in Hg. unfold index_at. rewrite <- Hg. destruct d as [d|]; [|congruence].
  unfold hash_from_bytes. destruct (_ =? _)%nat; cbn; congruence.
Qed.

(** The index describes one chain: below an entry is its parent. *)
Definition index_linked hi : Prop :=
  forall h x b, 0 < h < 2 ^ 32 -> index_at hi h = Some x -> get_header hi x = Ok (Some b) ->
    index_at hi (h - 1) = Some (prev_blockhash (sh_header b)).

Lemma index_below hi hs i x b :
  branch (get_header hi) hs -> index_linked hi -> Z.of_nat i < 2 ^ 32 ->
  hs !! i = Some (x, b) -> index_at hi (Z.of_nat i) = Some x ->
  forall k y c, (k <= i)%nat -> hs !! k = Some (y, c) -> index_at hi (Z.of_nat k) = Some y.
Proof.
  intros Hb Hl. revert x b. induction i as [|i IH]; intros x b Hlim Hi Hx k y c Hk Hy.
  { assert (k = 0)%nat as -> by lia. congruence. }
  destruct (decide (k = S i)) as [->|Hne]; [congruence|].
  destruct (branch_prev _ _ _ _ _ Hb Hi) as (p & Hp & _ & _). destruct (Hb _ _ _ Hi) as (Hg & _).
  apply (IH (prev_blockhash (sh_header b)) p) with (k := k) (c := c); [lia|done| |lia|done].
  pose proof (Hl (Z.of_nat (S i)) x b ltac:(lia) Hx Hg) as Hprev.
  by replace (Z.of_nat (S i) - 1) with (Z.of_nat i) in Hprev by lia.
Qed.

Definition height_write (p : nat * (hash256 * StoredHeader)) : batch_op :=
  Put CF_HEIGHT_INDEX (to_be 4 (Z.of_nat p.1)) p.2.1.

(** The loop writes the entries of the branch above the block where the index
    agrees with it. *)
Lemma restore_loop_branch hi hs : forall i fuel x b batch fixed,
  branch (get_header hi) hs -> hs !! i = Some (x, b) -> (i <= fuel)%nat ->
  (forall h, exists v, get_hash_at_height hi h = Ok v) ->
  exists m ops n, restore_loop hi fuel x b batch fixed = Ok (batch ++ ops, n) /\ (m <= S i)%nat /\
    (forall o, o ∈ ops <-> exists k p, (m <= k <= i)%nat /\ hs !! k = Some p /\ o = height_write (k, p)) /\
    (forall j, m = S j -> fst <$> hs !! j = index_at hi (Z.of_nat j)).
Proof.
  induction i as [|i IH]; intros fuel x b batch fixed Hb Hi Hf Hr; pose proof (Hb _ _ _ Hi) as (_ & Hht & _);
    destruct (Hr (sh_height b)) as [v Hv]; pose proof (get_hash_contents _ _ _ Hv) as Hix; rewrite Hht in Hix;
    destruct fuel as [|fuel]; try lia; cbn [restore_loop]; rewrite Hv; cbn [mbind result_bind];
    (case_bool_decide as Hx;
      [eexists (S _), [], _; rewrite app_nil_r; split_and!; [done|done| |by intros ? [= <-]; rewrite Hi, <- Hix];
       intros o; rewrite elem_of_nil; split; [done|intros (k & p & ? & _); lia]|]).
  1,2: rewrite Hht; exists 0%nat, [height_write (0%nat, (x, b))], (u32 (fixed + 1));
    (split_and!; [done|lia| |done]); intros o; rewrite list_elem_of_singleton; split;
    [intros ->; exists 0%nat, (x, b); split_and!; [lia|lia|done|done]|intros (k & p & ? & Hp & ->); assert (k = 0%nat) as -> by lia; congruence].
  rewrite Hht. destruct (Z.eqb_spec (Z.of_nat (S i)) 0); [lia|].
  destruct (branch_prev _ _ _ _ _ Hb Hi) as (p & Hp & Hg & Hph). rewrite Hg. cbn [mbind result_bind].
  rewrite Hph. destruct (Z.ltb_spec (Z.of_nat i) (Z.of_nat (S i))); [|lia].
  edestruct (IH fuel (prev_blockhash (sh_header b)) p (batch ++ [Put CF_HEIGHT_INDEX (to_be 4 (Z.of_nat (S i))) x]) (u32 (fixed + 1))) as (m & ops & nf & -> & Hm & Hops & Hlast); [done|exact Hp|lia|done|].
  exists m, (height_write (S i, (x, b)) :: ops), nf. split_and!; [by rewrite <- app_assoc|lia| |done].
  intros o. rewrite elem_of_cons, Hops. split.
  - intros [->|(k & q & ? & ? & ->)]; [exists (S i), (x, b)|exists k, q]; (split_and!; [lia|lia|done|done]).
  - intros (k & q & Hk & Hq & ->). destruct (decide (k = S i)) as [->|]; [left; congruence|right].
    exists k, q. split_and!; [lia|lia|done|done].
Qed.

Lemma to_be4_inj a b : fits 32 a -> fits 32 b -> to_be 4 a = to_be 4 b -> a = b.
Proof.
  intros Ha Hb Heq. apply (f_equal from_be) in Heq. rewrite !from_to_be in Heq.
  by rewrite !Z.mod_small in Heq by done.
Qed.

(** What a successful write of those entries leaves in the index. *)
Lemma restored_index hi hs i x b m ops d :
  branch (get_header hi) hs -> index_linked hi -> hs !! i = Some (x, b) -> Z.of_nat i < 2 ^ 32 -> (m <= S i)%nat ->
  (forall o, o ∈ ops <-> exists k p, (m <= k <= i)%nat /\ hs !! k = Some p /\ o = height_write (k, p)) ->
  (forall j, m = S j -> fst <$> hs !! j = index_at hi (Z.of_nat j)) ->
  (forall c k, contents d c k = apply_ops (contents (hi_db hi)) ops c k) ->
  forall k y c, (k <= i)%nat -> hs !! k = Some (y, c) -> contents d CF_HEIGHT_INDEX (to_be 4 (Z.of_nat k)) = Some y.
Proof.
  intros Hb Hl Hi Hlim Hm Hops Hlast Hd k y c Hk Hy. rewrite Hd.
  assert (Hinj : forall j, (j <= i)%nat -> to_be 4 (Z.of_nat j) = to_be 4 (Z.of_nat k) -> j = k).
  { intros j Hj Heq. apply to_be4_inj in Heq; unfold fits; lia. }
  destruct (decide (m <= k)%nat) as [Hmk|Hmk].
  - apply apply_ops_agree.
    + exists (height_write (k, (y, c))). split_and!; [|done..]. apply Hops. eauto 10.
    + intros o (j & p & Hj & Hp & ->)%Hops _ Hkey. cbn in Hkey. apply Hinj in Hkey; [|lia]. subst. rewrite Hy in Hp.
      by injection Hp as <-.
  - rewrite apply_ops_other.
    + destruct m as [|m]; [lia|]. specialize (Hlast m eq_refl).
      destruct (lookup_lt_is_Some_2 hs m) as [[z e] Hz]; [apply lookup_lt_Some in Hi; lia|].
      rewrite Hz in Hlast. symmetry in Hlast. apply (index_below hi hs m z e Hb Hl) with (c := c); [lia|done|done|lia|done].
    + apply Forall_forall. intros o (j & p & Hj & _ & ->)%Hops [_ Hkey]. cbn in Hkey. apply Hinj in Hkey; lia.
Qed.
End Proofs.

(** ** Theorems *)

Section Theorems.
Context `{HR : RocksDb} `{HL : !RocksLaws} `{HW : !RocksWal} `{HC : HeaderCodec}.

(** restoring the height index after a failed reorganisation: the call
    fails only if its one batch cannot be written, and then changes nothing;
    when it succeeds, the index names the block of our branch at every height
    up to the tip, although it is only rewritten down to the first block it
    still agreed on. *)
Theorem restore_height_index_exact (hi hi' : HeaderIndex) (hs : list (hash256 * StoredHeader)) (n : nat)
    (tip_hash : hash256) (tip : StoredHeader) (r : StorageResult (Z * Z)) :
  branch (get_header hi) hs -> hs !! n = Some (tip_hash, tip) -> Z.of_nat n < 2 ^ 32 ->
  index_linked hi -> (forall h, exists v, get_hash_at_height hi h = Ok v) ->
  cf_handle (hi_db hi) CF_HEIGHT_INDEX = true ->
  restore_branch_height_index tip_hash hi = (hi', r) ->
  match r with
  | Ok (height, _) =>
      height = Z.of_nat n /\
      forall k x b, (k <= n)%nat -> hs !! k = Some (x, b) -> index_at hi' (Z.of_nat k) = Some x
  | Err e => (exists ops, (write (hi_db hi) ops).2 = Err e) /\ forall h, index_at hi' h = index_at hi h
  end.
Proof.
  intros Hb Hn Hlim Hl Hr Hcf. pose proof (Hb _ _ _ Hn) as (Hg & Hht & _).
  destruct (restore_loop_branch hi hs n (Z.to_nat (sh_height tip)) tip_hash tip [] 0)
    as (m & ops & f & Hloop & Hm & Hops & Hlast); [done|done|lia|done|].
  unfold restore_branch_height_index, mbind, stm_bind, gets, lift, hi_cf, hi_write, mret, stm_ret.
  cbn [id]. rewrite Hg. cbn [ok_or]. rewrite Hcf. cbn [negb guard_err]. rewrite Hloop. cbn [app].
  destruct (write (hi_db hi) ops) as [d [[]|e]] eqn:Hw; intros [= <- <-].
  - split; [done|]. intros k x b Hk Hx. unfold index_at. cbn [hi_db set_hi_db].
    apply (restored_index hi hs n tip_hash tip m ops d) with (c := b); try done. by apply write_applies.
  - split; [exists ops; by rewrite Hw|]. intros h. unfold index_at. cbn [hi_db set_hi_db].
    by eapply write_atomic.
Qed.
End Theorems.

Section Examples.
#[local] Existing Instance SampleDb.rocks.
#[local] Existing Instance SampleDb.laws.
#[local] Existing Instance SampleCodec.codec.
#[local] Existing Instance SampleCodec.wal.

Definition ex_hash (n : Z) : hash256 := replicate 32 n.
Definition ex_stored (prev height : Z) : StoredHeader :=
  mkStored (mkHeader 1 (ex_hash prev) (replicate 32 0) height 0 0) height (replicate 32 0).

(** Blocks 1, 2 and 3 are our chain; a rival block 4 took height 2. *)
Definition ex_index : HeaderIndex :=
  ((insert_header (ex_hash 1) (ex_stored 0 0) ≫= fun _ =>
   insert_header (ex_hash 2) (ex_stored 1 1) ≫= fun _ =>
   insert_headers_hash_only [(ex_hash 3, ex_stored 2 2)] ≫= fun _ =>
   insert_header (ex_hash 4) (ex_stored 2 2)) (mkHeaderIndex (∅ : gmap _ _) ∅ 0)).1.

Definition ex_branch : list (hash256 * StoredHeader) :=
  [(ex_hash 1, ex_stored 0 0); (ex_hash 2, ex_stored 1 1); (ex_hash 3, ex_stored 2 2)].

Lemma ex_branch_ok : branch (get_header ex_index) ex_branch.
Proof.
  intros [|[|[|i]]] x b [= <- <-]; (split_and!; [vm_compute; reflexivity|done|]);
    intros j [= <-]; vm_compute; reflexivity.
Qed.

(** The entries of the example index. *)
Lemma ex_index_at h v :
  index_at ex_index h = Some v -> length v = 32%nat /\ (to_be 4 h = to_be 4 0 \/ to_be 4 h = to_be 4 1 \/ to_be 4 h = to_be 4 2).
Proof.
  intros Hx. unfold index_at in Hx.
  change (hi_db ex_index) with (foldl SampleDb.write_op ∅
    [header_put (ex_hash 1, ex_stored 0 0); height_put (ex_hash 1, ex_stored 0 0);
     header_put (ex_hash 2, ex_stored 1 1); height_put (ex_hash 2, ex_stored 1 1);
     header_put (ex_hash 3, ex_stored 2 2);
     header_put (ex_hash 4, ex_stored 2 2); height_put (ex_hash 4, ex_stored 2 2)]) in Hx.
  cbn [foldl] in Hx. cbn [SampleDb.write_op header_put height_put fst snd] in Hx.
  change (contents ?d ?c ?k) with (@lookup _ _ (gmap (string * bytes) bytes) _ (c, k) d) in Hx.
  repeat first [rewrite lookup_insert_ne in Hx by (intros [=])
    |apply lookup_insert_Some in Hx as [[[_ Hk]%pair_eq <-]|[_ Hx]]; [by auto|]].
  by rewrite lookup_empty in Hx.
Qed.

Lemma ex_index_linked : index_linked ex_index.
Proof.
  intros h x b Hh Hx Hb. destruct (ex_index_at h x Hx) as [_ Hk].
  assert (Hcases : h = 1 \/ h = 2).
  { destruct Hk as [Hk|[Hk|Hk]]; apply to_be4_inj in Hk; unfold fits in *; lia. }
  destruct Hcases as [-> | ->]; vm_compute in Hx; injection Hx as <-; vm_compute in Hb; injection Hb as <-;
    vm_compute; reflexivity.
Qed.

Lemma ex_index_reads h : exists v, get_hash_at_height ex_index h = Ok v.
Proof.
  unfold get_hash_at_height, hi_get. cbn [negb cf_handle SampleDb.rocks guard_err mbind result_bind get_cf].
  destruct (_ !! _) as [d|] eqn:Hd; [|by eexists]. destruct (ex_index_at h d Hd) as [Hl _].
  unfold hash_from_bytes. rewrite Hl. by eexists.
Qed.

Lemma restore_height_index_exact_witness :
  exists n, (restore_branch_height_index (ex_hash 3) ex_index).2 = Ok (2, n) /\
  index_at ex_index 2 = Some (ex_hash 4) /\
  index_at (restore_branch_height_index (ex_hash 3) ex_index).1 2 = Some (ex_hash 3).
Proof.
  exists 1. split_and!; [vm_compute; reflexivity|vm_compute; reflexivity|].
  pose proof (restore_height_index_exact ex_index (restore_branch_height_index (ex_hash 3) ex_index).1 ex_branch 2
    (ex_hash 3) (ex_stored 2 2) (Ok (2, 1))) as Ht.
  destruct Ht as [_ Ht]; [apply ex_branch_ok|reflexivity|lia|apply ex_index_linked|apply ex_index_reads|reflexivity| |].
  - assert (Hr : (restore_branch_height_index (ex_hash 3) ex_index).2 = Ok (2, 1)) by (vm_compute; reflexivity).
    by rewrite <- Hr, <- surjective_pairing.
  - apply (Ht 2%nat _ (ex_stored 2 2)); [lia|reflexivity].
Defined.
End Examples.
