(* ===== verification/TxIndex.v ===== *)
(** * The transaction index

    [bitcoinpr-storage/src/tx_index.rs]: the map from transaction ids to the
    block and the position that hold them, with its two entry formats, and the
    computation of the byte range of each transaction in a raw block. *)

From Stdlib Require Import ZArith Lia.
From stdpp Require Import base option numbers list gmap strings.
From S2P Require Import Prelude Bytes Types Store.

(** [Transaction::total_size] and [VarInt::size]. *)
Class TxSizes := { total_size : Transaction -> Z; varint_size : Z -> Z }.

(** The column family of [DB::put] and [DB::get]. *)
Definition CF_DEFAULT : string := "default".
Definition META_INDEXED_HEIGHT : bytes := ascii_bytes "__meta__indexed_height__".

Record TxIndexEntry := mkTxIndexEntry {
  te_block_hash : hash256;
  tx_pos : Z;
  tx_loc : option (Z * Z) }.

Definition serialize_tx_entry (e : TxIndexEntry) : bytes :=
  te_block_hash e ++ to_le 4 (tx_pos e) ++
  match tx_loc e with Some (offset, l) => to_le 4 offset ++ to_le 4 l | None => [] end.

Definition deserialize_tx_entry (data : bytes) : StorageResult TxIndexEntry :=
  _ ← guard_err (len data <? 36) (Serialization "tx index entry too short");
  Ok (mkTxIndexEntry (take 32 data) (from_le (take 4 (drop 32 data)))
        (if len data >=? 44 then Some (from_le (take 4 (drop 36 data)), from_le (take 4 (drop 40 data))) else None)).

Definition compute_tx_locations `{TxSizes} (block : Block) : list (Z * Z) :=
  (foldl (fun '(locs, offset) tx => (locs ++ [(u32 offset, u32 (total_size tx))], usize (offset + total_size tx)))
     ([], usize (80 + varint_size (len (txdata block)))) (txdata block)).1.

Section Index.
Context `{RocksDb}.

Record TxIndex := mkTxIndex { ti_db : DB }.

Abbreviation TI := (stm TxIndex StorageError).

Definition ti_write (ops : list batch_op) : TI unit :=
  fun t => let '(d, r) := write (ti_db t) ops in (mkTxIndex d, r).

Definition tx_index_get (t : TxIndex) (txid : hash256) : StorageResult (option TxIndexEntry) :=
  data ← get_cf (ti_db t) CF_DEFAULT txid;
  match data with
  | Some data => e ← deserialize_tx_entry data; Ok (Some e)
  | None => Ok None
  end.

Definition tx_index_contains (t : TxIndex) (txid : hash256) : StorageResult bool :=
  data ← get_cf (ti_db t) CF_DEFAULT txid; Ok (bool_decide (is_Some data)).

Definition get_indexed_height (t : TxIndex) : StorageResult (option Z) :=
  data ← get_cf (ti_db t) CF_DEFAULT META_INDEXED_HEIGHT;
  match data with
  | Some data => if len data >=? 4 then Ok (Some (from_le (take 4 data))) else Ok None
  | None => Ok None
  end.

Definition set_indexed_height (height : Z) : TI unit :=
  ti_write [Put CF_DEFAULT META_INDEXED_HEIGHT (to_le 4 height)].

Definition tx_put (block_hash : hash256) (tx_locs : option (list (Z * Z))) (pos : nat) (txid : hash256) : batch_op :=
  Put CF_DEFAULT txid
    (serialize_tx_entry (mkTxIndexEntry block_hash (u32 (Z.of_nat pos)) (l ← tx_locs; l !! pos))).

Definition index_block (block_hash : hash256) (txids : list hash256) : TI unit :=
  ti_write (imap (tx_put block_hash None) txids).

Definition upgrade_tx_locations (updates : list (hash256 * TxIndexEntry)) : TI unit :=
  match updates with
  | [] => mret tt
  | _ => ti_write (map (fun '(txid, e) => Put CF_DEFAULT txid (serialize_tx_entry e)) updates)
  end.

Definition deindex_block (txids : list hash256) : TI unit :=
  ti_write (map (Delete CF_DEFAULT) txids).

Definition index_block_at_height (block_hash : hash256) (txids : list hash256) (height : Z)
    (tx_locs : option (list (Z * Z))) : TI unit :=
  ti_write (imap (tx_put block_hash tx_locs) txids ++ [Put CF_DEFAULT META_INDEXED_HEIGHT (to_le 4 height)]).
End Index.

(** ** Properties *)

(** Entry round trip, in both formats. *)
Lemma tx_entry_roundtrip (e : TxIndexEntry) :
  length (te_block_hash e) = 32%nat -> fits 32 (tx_pos e) ->
  (forall o l, tx_loc e = Some (o, l) -> fits 32 o /\ fits 32 l) ->
  deserialize_tx_entry (serialize_tx_entry e) = Ok e.
Proof.
  destruct e as [h p loc]. cbn [te_block_hash tx_pos tx_loc]. intros Hh Hp Hl.
  unfold deserialize_tx_entry, serialize_tx_entry. cbn [te_block_hash tx_pos tx_loc].
  assert (Hlen : forall t : bytes, len (h ++ to_le 4 p ++ t) = 36 + len t)
    by (intros t; unfold len; rewrite !length_app, Hh, length_to_le; lia).
  assert (H32 : forall t, drop 32 (h ++ to_le 4 p ++ t) = to_le 4 p ++ t) by (intros; by rewrite drop_app_length').
  assert (H36 : forall t, drop 36 (h ++ to_le 4 p ++ t) = t)
    by (intros; rewrite app_assoc, drop_app_length'; [done|rewrite length_app, Hh, length_to_le; lia]).
  rewrite Hlen, take_app_length', H32, H36, take_app_length', from_to_le by (by rewrite ?length_to_le).
  rewrite Z.mod_small by exact Hp. destruct loc as [[o l]|].
  - destruct (Hl o l eq_refl) as [Ho Hll].
    change (36 + len (to_le 4 o ++ to_le 4 l)) with 44. cbn [Z.ltb Z.geb Z.compare guard_err mbind result_bind].
    replace (drop 40 (h ++ to_le 4 p ++ to_le 4 o ++ to_le 4 l)) with (to_le 4 l).
    2: { rewrite !app_assoc, drop_app_length'; [done|]. rewrite !length_app, Hh, !length_to_le. lia. }
    rewrite take_app_length', !from_to_le by by rewrite length_to_le.
    rewrite (take_ge (to_le 4 l)), from_to_le by by rewrite length_to_le.
    by rewrite !Z.mod_small by done.
  - done.
Qed.

Section Proofs.
Context `{HR : RocksDb} `{HL : !RocksLaws}.

(** indexing a block makes each of its transactions resolve to the block,
    its position and its byte range, and removing the block makes none of them
    resolve. *)
Theorem tx_index_exact (t t' : TxIndex) (block_hash : hash256) (txids : list hash256) (height : Z)
    (locs : list (Z * Z)) :
  length block_hash = 32%nat -> NoDup txids -> Forall (fun x => length x = 32%nat) txids ->
  len txids < 2 ^ 32 -> length locs = length txids -> Forall (fun l => fits 32 l.1 /\ fits 32 l.2) locs ->
  index_block_at_height block_hash txids height (Some locs) t = (t', Ok tt) ->
  (forall i txid r, txids !! i = Some txid -> tx_index_get t' txid = Ok r ->
     exists l, locs !! i = Some l /\ r = Some (mkTxIndexEntry block_hash (Z.of_nat i) (Some l))) /\
  (forall t'', deindex_block txids t' = (t'', Ok tt) ->
     forall txid r, txid ∈ txids -> tx_index_get t'' txid = Ok r -> r = None).
Proof.
  intros Hb Hnd Htx Hlen Hll Hfit Hrun. split.
  - intros i txid r Hi. destruct (lookup_lt_is_Some_2 locs i) as [l Hl].
    { apply lookup_lt_Some in Hi. lia. }
    assert (Hcont : contents (ti_db t') CF_DEFAULT txid =
      Some (serialize_tx_entry (mkTxIndexEntry block_hash (Z.of_nat i) (Some l)))).
    { unfold index_block_at_height, ti_write in Hrun. destruct (write _ _) as [d rr] eqn:Hw. injection Hrun as <- ->.
      rewrite (write_applies _ _ _ Hw). cbn [ti_db].
      assert (Hne : txid <> META_INDEXED_HEIGHT).
      { intros ->. rewrite Forall_forall in Htx. specialize (Htx _ (list_elem_of_lookup_2 _ _ _ Hi)). done. }
      rewrite apply_ops_app, apply_ops_other by (apply Forall_singleton; intros [_ Hk]; by apply Hne).
      assert (Hw32 : u32 (Z.of_nat i) = Z.of_nat i).
      { apply wrap_small. apply lookup_lt_Some in Hi. unfold fits, len in *. lia. }
      apply apply_ops_agree.
      - exists (tx_put block_hash (Some locs) i txid). split_and!; [|done..].
        apply list_elem_of_lookup. exists i. rewrite list_lookup_imap, Hi. done.
      - intros o (j & Ho)%list_elem_of_lookup _ Hk. rewrite list_lookup_imap in Ho.
        destruct (txids !! j) as [x|] eqn:Hj; [|done]. injection Ho as <-. cbn in Hk. subst x.
        rewrite (NoDup_lookup _ _ _ _ Hnd Hj Hi). cbn. rewrite Hw32, Hl. done. }
    unfold tx_index_get. destruct (get_cf _ _ _) as [v|] eqn:Hg; cbn [mbind result_bind]; [|done].
    apply get_cf_contents in Hg as ->. rewrite Hcont, tx_entry_roundtrip.
    + intros [= <-]. eauto.
    + done.
    + cbn. apply lookup_lt_Some in Hi. unfold fits, len in *. lia.
    + intros o ll [= ->]. by apply (Forall_lookup_1 _ _ _ _ Hfit Hl).
  - intros t'' Hrun2 txid r Hin. unfold deindex_block, ti_write in Hrun2. destruct (write _ _) as [d rr] eqn:Hw.
    injection Hrun2 as <- ->. unfold tx_index_get. cbn [ti_db].
    destruct (get_cf _ _ _) as [v|] eqn:Hg; cbn [mbind result_bind]; [|done]. apply get_cf_contents in Hg as ->.
    rewrite (write_applies _ _ _ Hw), (apply_ops_agree _ _ _ _ None); [by intros [= <-]|..].
    + exists (Delete CF_DEFAULT txid). split_and!; [|done..]. apply list_elem_of_fmap. eauto.
    + by intros o (x & -> & _)%list_elem_of_fmap.
Qed.
End Proofs.

Section Examples.
#[local] Existing Instance SampleDb.rocks.
#[local] Existing Instance SampleDb.laws.

Definition ex_tx_index : TxIndex := mkTxIndex (∅ : gmap (string * bytes) bytes).

Lemma tx_index_exact_witness :
  let ids := [replicate 32 1; replicate 32 2] in
  let locs := [(81, 100); (181, 200)] in
  let t' := (index_block_at_height (replicate 32 9) ids 7 (Some locs) ex_tx_index).1 in
  exists l, locs !! 1%nat = Some l /\
    tx_index_get t' (replicate 32 2) = Ok (Some (mkTxIndexEntry (replicate 32 9) 1 (Some l))).
Proof.
  intros ids locs t'.
  assert (Hg : exists r, tx_index_get t' (replicate 32 2) = Ok r) by (eexists; vm_compute; reflexivity).
  destruct Hg as [r Hg].
  destruct (tx_index_exact ex_tx_index t' (replicate 32 9) ids 7 locs) as [Hi _].
  - done.
  - apply (bool_decide_unpack _). vm_compute. done.
  - repeat constructor.
  - done.
  - done.
  - repeat constructor; done.
  - apply surjective_pairing.
  - destruct (Hi 1%nat (replicate 32 2) r eq_refl Hg) as (l & Hl & ->). by exists l.
Defined.
End Examples.
