(* ===== verification/BlockStore.v ===== *)
(** * The block files

    [bitcoinpr-storage/src/block_store.rs]: append-only block files with
    reserved positions, the queue to the background writer and its coalescing,
    and positional reads that wait for the writer and retry.  The files of the
    operating system are a parameter; the writer runs between any two
    operations and while one waits for it, on however many queued commands it
    finds, and a wait may end before the writer is done. *)

From Stdlib Require Import ZArith Lia.
From stdpp Require Import base option numbers list gmap strings.
From S2P Require Import Prelude Bytes Types Store HeaderIndex.

(** Opening a block file in append mode and [write_all], [sync_data] on it, and
    the scheduling of the writer thread: the rounds it makes while a caller
    waits for it, each with the number of commands it finds to join. *)
Class BlockFiles := {
  Files : Type;
  file_bytes : Files -> Z -> option bytes;
  append : Files -> Z -> bytes -> Files * StorageResult unit;
  sync_data : Files -> Z -> StorageResult unit;
  writer_rounds : Files -> list nat }.

(** A successful append adds the bytes at the end of that file only. *)
Class BlockFilesLaws `{BlockFiles} := {
  append_applies f n data f' : append f n data = (f', Ok tt) ->
    forall m, file_bytes f' m = if bool_decide (m = n) then Some (default [] (file_bytes f n) ++ data) else file_bytes f m }.

Definition MAX_BLOCK_FILE_SIZE : Z := 128 * 1024 * 1024.

Inductive WriteCmd : Type :=
| WBlock (file : Z) (data : bytes)
| WFlush.

Section Store.
Context `{BlockFiles}.

(** [write_tx] is the queue of the background writer, if it runs.
    [lost_writes] records that an append has failed; the code only logs it, and
    no operation reads it. *)
Record BlockStore := mkBlockStore {
  max_file_size : Z;
  cur_file : Z;
  cur_offset : Z;
  write_tx : option (list WriteCmd);
  bs_files : Files;
  lost_writes : bool }.

Abbreviation B := (stm BlockStore StorageError).

Definition set_current (b : BlockStore) (file offset : Z) : BlockStore :=
  mkBlockStore (max_file_size b) file offset (write_tx b) (bs_files b) (lost_writes b).
Definition set_files (b : BlockStore) (f : Files) : BlockStore :=
  mkBlockStore (max_file_size b) (cur_file b) (cur_offset b) (write_tx b) f (lost_writes b).
Definition set_queue (b : BlockStore) (q : option (list WriteCmd)) : BlockStore :=
  mkBlockStore (max_file_size b) (cur_file b) (cur_offset b) q (bs_files b) (lost_writes b).

Definition send (b : BlockStore) (c : WriteCmd) : BlockStore := set_queue b (fmap (fun q => q ++ [c]) (write_tx b)).

Definition file_append (n : Z) (data : bytes) : B unit :=
  fun b => let '(f, r) := append (bs_files b) n data in
    (mkBlockStore (max_file_size b) (cur_file b) (cur_offset b) (write_tx b) f (lost_writes b || negb (is_ok r)), r).

Definition start_background_writer (b : BlockStore) : BlockStore := set_queue b (Some []).

Definition must_rotate (b : BlockStore) (raw_block : bytes) : bool :=
  (0 <? cur_offset b) && (u64 (cur_offset b + len raw_block) >? max_file_size b).

Definition frame (raw_block : bytes) : bytes := to_le 4 (len raw_block) ++ raw_block.

(** The synchronous path: the size, then the block; the offset moves last. *)
Definition store_block (raw_block : bytes) : B BlockPos :=
  _ ← modify (fun b => if must_rotate b raw_block then set_current b (u32 (cur_file b + 1)) 0 else b);
  n ← gets cur_file;
  _ ← file_append n (to_le 4 (len raw_block));
  _ ← file_append n raw_block;
  o ← gets cur_offset;
  _ ← modify (fun b => set_current b (cur_file b) (u64 (cur_offset b + (4 + len raw_block))));
  mret (mkBlockPos n o (u32 (len raw_block))).

(** Queued writes to the same file are joined, as long as [avail] more
    commands are in the channel. *)
Fixpoint coalesce (avail : nat) (file : Z) (data : bytes) (q : list WriteCmd) : bytes * list WriteCmd :=
  match avail, q with
  | S a, WBlock next_file next_data :: r =>
      if next_file =? file then coalesce a file (data ++ next_data) r else (data, q)
  | _, _ => (data, q)
  end.

(** One round of the writer's loop; a failed write is logged and dropped. *)
Definition writer_step (avail : nat) (b : BlockStore) : BlockStore :=
  match write_tx b with
  | Some (WBlock file data :: q) =>
      let '(data, rest) := coalesce avail file data q in
      set_queue (file_append file data b).1 (Some rest)
  | Some (WFlush :: q) => set_queue b (Some q)
  | _ => b
  end.

(** A caller waits for the writer to answer a flush command, at most for the
    time it allows. *)
Definition wait_for_writer (b : BlockStore) : BlockStore :=
  foldl (fun b avail => writer_step avail b) b (writer_rounds (bs_files b)).

(** Before a new file: a flush command and a wait; without a writer the old
    file is synced, and a failure is logged. *)
Definition rotate_flush (b : BlockStore) : BlockStore :=
  match write_tx b with Some _ => wait_for_writer (send b WFlush) | None => b end.

(** The position is reserved first; the bytes follow through the queue. *)
Definition store_block_async (raw_block : bytes) : B BlockPos :=
  _ ← modify (fun b =>
    if must_rotate b raw_block then set_current (rotate_flush b) (u32 (cur_file b + 1)) 0 else b);
  n ← gets cur_file;
  o ← gets cur_offset;
  _ ← modify (fun b => set_current b n (u64 (o + (4 + len raw_block))));
  q ← gets write_tx;
  _ ← match q with
      | Some _ => modify (fun b => send b (WBlock n (frame raw_block)))
      | None => file_append n (frame raw_block)
      end;
  mret (mkBlockPos n o (u32 (len raw_block))).

(** [flush]: a flush command and a wait, whose end is ignored; without a writer
    the current file is synced, if there is one. *)
Definition bs_flush : B unit := fun b =>
  match write_tx b with
  | Some _ => (wait_for_writer (send b WFlush), Ok tt)
  | None => (b, if file_bytes (bs_files b) (cur_file b) then sync_data (bs_files b) (cur_file b) else Ok tt)
  end.

(** [read_exact_at] on an opened file. *)
Definition read_exact_at (b : BlockStore) (file offset n : Z) : StorageResult bytes :=
  match file_bytes (bs_files b) file with
  | None => Err (Io "No such file")
  | Some data =>
      if offset + n <=? len data then Ok (take (Z.to_nat n) (drop (Z.to_nat offset) data))
      else Err (Io "failed to fill whole buffer")
  end.

Definition read_block_at (b : BlockStore) (pos : BlockPos) : StorageResult bytes :=
  size_buf ← read_exact_at b (file_num pos) (offset pos) 4;
  _ ← guard_err (negb (from_le size_buf =? block_size pos)) (Serialization "block size mismatch");
  read_exact_at b (file_num pos) (u64 (offset pos + 4)) (block_size pos).

Definition read_block (pos : BlockPos) : B bytes := fun b =>
  match read_block_at b pos with
  | Ok data => (b, Ok data)
  | Err first_err =>
      let '(b, r) := bs_flush b in
      (b, match r with
          | Ok _ => match read_block_at b pos with Ok data => Ok data | Err _ => Err first_err end
          | Err _ => Err first_err
          end)
  end.

Definition read_block_slice_at (b : BlockStore) (pos : BlockPos) (o n : Z) : StorageResult bytes :=
  read_exact_at b (file_num pos) (u64 (offset pos + 4 + o)) n.

Definition read_block_slice (pos : BlockPos) (o n : Z) : B bytes := fun b =>
  if o + n >=? 2 ^ 32 then (b, Err (Serialization "block slice range overflow"))
  else if o + n >? block_size pos then (b, Err (Serialization "block slice out of range"))
  else
    match read_block_slice_at b pos o n with
    | Ok data => (b, Ok data)
    | Err first_err =>
        let '(b, r) := bs_flush b in
        (b, match r with
            | Ok _ => match read_block_slice_at b pos o n with Ok data => Ok data | Err _ => Err first_err end
            | Err _ => Err first_err
            end)
    end.
End Store.

(** ** Properties *)

Section Proofs.
Context `{HF : BlockFiles} `{HL : !BlockFilesLaws}.
Implicit Types b : BlockStore.

(** The bytes queued for file [n]. *)
Definition pending (n : Z) (q : list WriteCmd) : bytes :=
  concat (omap (fun c => match c with WBlock f data => if f =? n then Some data else None | WFlush => None end) q).

(** A file as it is, and as it will be once the queue is written. *)
Definition on_file b (n : Z) : bytes := default [] (file_bytes (bs_files b) n).
Definition view b (n : Z) : bytes := on_file b n ++ pending n (default [] (write_tx b)).

Lemma pending_app n q r : pending n (q ++ r) = pending n q ++ pending n r.
Proof. unfold pending. by rewrite omap_app, concat_app. Qed.

Lemma pending_block n f data : pending n [WBlock f data] = if f =? n then data else [].
Proof. unfold pending. cbn. destruct (f =? n); cbn; by rewrite ?app_nil_r. Qed.

Lemma coalesce_pending a : forall f data q n,
  (if f =? n then (coalesce a f data q).1 else []) ++ pending n (coalesce a f data q).2 =
  (if f =? n then data else []) ++ pending n q.
Proof.
  induction a as [|a IH]; intros f data q n; [by destruct q|]. destruct q as [|[f' data'|] q]; [done| |done].
  cbn [coalesce]. destruct (Z.eqb_spec f' f) as [->|]; [|done]. rewrite IH.
  change (WBlock f data' :: q) with ([WBlock f data'] ++ q). rewrite pending_app, pending_block.
  destruct (f =? n); [by rewrite <- app_assoc|done].
Qed.

(** An append that is not lost. *)
Lemma file_append_kept n data b :
  lost_writes (file_append n data b).1 = false ->
  (file_append n data b).2 = Ok tt /\ lost_writes b = false /\
  forall m, on_file (file_append n data b).1 m = on_file b m ++ (if n =? m then data else []).
Proof.
  unfold file_append, on_file. destruct (append (bs_files b) n data) as [f r] eqn:Ha. cbn [fst snd lost_writes bs_files].
  intros [Hl Hr]%orb_false_iff. destruct r as [[]|e]; [|done]. split_and!; [done|done|]. intros m.
  rewrite (append_applies _ _ _ _ Ha). case_bool_decide as Hm.
  - subst. by rewrite Z.eqb_refl.
  - destruct (Z.eqb_spec n m); [congruence|]. by rewrite app_nil_r.
Qed.

Lemma file_append_rest n data b :
  cur_file (file_append n data b).1 = cur_file b /\ cur_offset (file_append n data b).1 = cur_offset b /\
  write_tx (file_append n data b).1 = write_tx b.
Proof. unfold file_append. by destruct (append _ _ _). Qed.

(** What the writer and the waits for it do: no view changes, unless a write is
    lost, and the position for the next block stays. *)
Definition same_views b b' : Prop :=
  cur_file b' = cur_file b /\ cur_offset b' = cur_offset b /\
  (lost_writes b' = false -> lost_writes b = false /\ forall n, view b' n = view b n).

Lemma same_views_refl b : same_views b b.
Proof. by split_and!. Qed.
Lemma same_views_trans b1 b2 b3 : same_views b1 b2 -> same_views b2 b3 -> same_views b1 b3.
Proof.
  intros (F1 & O1 & V1) (F2 & O2 & V2). split_and!; [congruence|congruence|]. intros Hl. destruct (V2 Hl) as [Hl2 E2].
  destruct (V1 Hl2) as [Hl1 E1]. split; [done|]. intros n. by rewrite E2.
Qed.

Lemma writer_step_views a b : same_views b (writer_step a b).
Proof.
  unfold writer_step. destruct (write_tx b) as [[|[f data|] q]|] eqn:Hq; [apply same_views_refl| | |apply same_views_refl].
  - pose proof (coalesce_pending a f data q) as Hc. destruct (coalesce a f data q) as [data' rest].
    destruct (file_append_rest f data' b) as (Hf & Ho & _). split_and!; [done|done|]. intros Hl.
    destruct (file_append_kept f data' b Hl) as (_ & Hl' & Hv). split; [done|]. intros n. unfold view.
    change (on_file (set_queue (file_append f data' b).1 (Some rest)) n) with (on_file (file_append f data' b).1 n).
    rewrite Hv, Hq, <- app_assoc. f_equal. cbn [set_queue write_tx default from_option id]. specialize (Hc n). cbn [fst snd] in Hc.
    rewrite Hc. change (WBlock f data :: q) with ([WBlock f data] ++ q). by rewrite pending_app, pending_block.
  - split_and!; [done|done|]. intros Hl. split; [done|]. intros n. unfold view. rewrite Hq. done.
Qed.

Lemma send_flush_views b : same_views b (send b WFlush).
Proof.
  split_and!; [done|done|]. intros Hl. split; [done|]. intros n. unfold view, send, on_file.
  destruct (write_tx b) as [q|] eqn:Hq; cbn -[pending]; [|done]. by rewrite pending_app, app_nil_r.
Qed.

Lemma wait_views b : same_views b (wait_for_writer b).
Proof.
  unfold wait_for_writer. generalize (writer_rounds (bs_files b)) as rounds. intros rounds. revert b.
  induction rounds as [|a rounds IH]; intros b; cbn [foldl]; [apply same_views_refl|].
  eapply same_views_trans; [apply writer_step_views|apply IH].
Qed.

Lemma flush_wait_views b : same_views b (wait_for_writer (send b WFlush)).
Proof. eapply same_views_trans; [apply send_flush_views|apply wait_views]. Qed.

Lemma rotate_flush_views b : same_views b (rotate_flush b).
Proof. unfold rotate_flush. destruct (write_tx b); [apply flush_wait_views|apply same_views_refl]. Qed.

Lemma bs_flush_views b : same_views b (bs_flush b).1.
Proof. unfold bs_flush. destruct (write_tx b); [apply flush_wait_views|apply same_views_refl]. Qed.

Lemma read_block_views pos b : same_views b (read_block pos b).1.
Proof.
  unfold read_block. destruct (read_block_at b pos); [apply same_views_refl|]. pose proof (bs_flush_views b) as Hv.
  by destruct (bs_flush b).
Qed.

Lemma read_block_slice_views pos o n b : same_views b (read_block_slice pos o n b).1.
Proof.
  unfold read_block_slice. destruct (_ >=? _); [apply same_views_refl|]. destruct (_ >? _); [apply same_views_refl|].
  destruct (read_block_slice_at b pos o n); [apply same_views_refl|]. pose proof (bs_flush_views b) as Hv. by destruct (bs_flush b).
Qed.

(** The next position is the end of the current file; later files are empty. *)
Definition store_inv b : Prop :=
  len (view b (cur_file b)) = cur_offset b /\ forall n, cur_file b < n -> view b n = [].

(** The block at a position, in the bytes [v] of the files. *)
Definition holds_in (v : Z -> bytes) (pos : BlockPos) (raw : bytes) : Prop :=
  exists pre post, v (file_num pos) = pre ++ frame raw ++ post /\ len pre = offset pos /\
    block_size pos = len raw /\ len raw < 2 ^ 32 /\ offset pos + 4 < 2 ^ 64.

(** It is there, or will be once the queue is written. *)
Definition on_disk b : BlockPos -> bytes -> Prop := holds_in (on_file b).
Definition holds b : BlockPos -> bytes -> Prop := holds_in (view b).

Lemma holds_in_extends (v v' : Z -> bytes) pos raw :
  (forall n, exists suf, v' n = v n ++ suf) -> holds_in v pos raw -> holds_in v' pos raw.
Proof.
  intros He (pre & post & Hv & Hrest). destruct (He (file_num pos)) as [suf Hs]. exists pre, (post ++ suf).
  split; [|done]. by rewrite Hs, Hv, <- !app_assoc.
Qed.

Lemma holds_extends b b' pos raw :
  (forall n, exists suf, view b' n = view b n ++ suf) -> holds b pos raw -> holds b' pos raw.
Proof. apply holds_in_extends. Qed.

Lemma on_disk_holds b pos raw : on_disk b pos raw -> holds b pos raw.
Proof. apply holds_in_extends. intros n. by eexists. Qed.

Lemma holds_drained b pos raw : default [] (write_tx b) = [] -> holds b pos raw -> on_disk b pos raw.
Proof. intros Hq. apply holds_in_extends. intros n. exists []. unfold view. by rewrite Hq, !app_nil_r. Qed.

(** Room for [k] more stores without wrap-around. *)
Definition room (k : nat) b : Prop :=
  0 <= cur_file b /\ cur_file b + Z.of_nat k < 2 ^ 32 /\ cur_offset b + Z.of_nat k * 2 ^ 33 < 2 ^ 64.

Lemma same_views_inv b b' : same_views b b' -> lost_writes b' = false -> store_inv b -> store_inv b'.
Proof.
  intros (Hf & Ho & Hv) Hl [H1 H2]. destruct (Hv Hl) as [_ Hvw]. split; [by rewrite Hf, Ho, Hvw|]. intros n. rewrite Hf, Hvw. apply H2.
Qed.

Definition rotated b (raw : bytes) : BlockStore :=
  if must_rotate b raw then set_current (rotate_flush b) (u32 (cur_file b + 1)) 0 else b.

Lemma rotated_spec b raw k :
  store_inv b -> room (S k) b -> lost_writes (rotated b raw) = false ->
  store_inv (rotated b raw) /\ lost_writes b = false /\ (forall n, view (rotated b raw) n = view b n) /\ 0 <= cur_file (rotated b raw) /\
  cur_file (rotated b raw) + Z.of_nat k < 2 ^ 32 /\ 0 <= cur_offset (rotated b raw) /\
  cur_offset (rotated b raw) + Z.of_nat (S k) * 2 ^ 33 < 2 ^ 64.
Proof.
  intros [Hlen Hlater] (H0 & H1 & H2) Hl. pose proof (len_nonneg (view b (cur_file b))).
  unfold rotated in *. destruct (must_rotate b raw); [|split_and!; try lia; try done; by split].
  destruct (rotate_flush_views b) as (_ & _ & Hv). destruct (Hv Hl) as [Hl0 Hvw]. rewrite wrap_small by (unfold fits; lia).
  split_and!; try (cbn; lia); [|done|exact Hvw]. split; cbn [set_current cur_file cur_offset].
  - change (len (view (rotate_flush b) (cur_file b + 1)) = 0). by rewrite Hvw, Hlater by lia.
  - intros n Hn. change (view (rotate_flush b) n = []). rewrite Hvw. apply Hlater. lia.
Qed.

(** Queueing the bytes, or writing them when there is no writer. *)
Definition put_frame (n : Z) (raw : bytes) : stm BlockStore StorageError unit :=
  q ← gets write_tx;
  match q with
  | Some _ => modify (fun b => send b (WBlock n (frame raw)))
  | None => file_append n (frame raw)
  end.

Lemma put_frame_spec n raw b :
  let '(b', r) := put_frame n raw b in
  cur_file b' = cur_file b /\ cur_offset b' = cur_offset b /\
  (lost_writes b' = false -> r = Ok tt /\ lost_writes b = false /\ forall m, view b' m = view b m ++ (if n =? m then frame raw else [])).
Proof.
  unfold put_frame, mbind, stm_bind, gets, modify. destruct (write_tx b) as [q|] eqn:Hq.
  - split_and!; [done|done|]. intros Hl. split_and!; [done|done|]. intros m. unfold view, send. rewrite Hq. cbn -[pending on_file].
    by rewrite pending_app, pending_block, app_assoc.
  - destruct (file_append_rest n (frame raw) b) as (Hf & Ho & Hw). pose proof (file_append_kept n (frame raw) b) as Hk.
    destruct (file_append n (frame raw) b) as [b' r]. cbn [fst snd] in *. split_and!; [done|done|]. intros Hl.
    destruct (Hk Hl) as (-> & Hl' & Hv). split_and!; [done|done|]. intros m. unfold view. rewrite Hw, Hq, Hv. cbn. by rewrite !app_nil_r.
Qed.

Lemma store_async_unfold raw b :
  store_block_async raw b =
  let b1 := rotated b raw in
  let b2 := set_current b1 (cur_file b1) (u64 (cur_offset b1 + (4 + len raw))) in
  match put_frame (cur_file b1) raw b2 with
  | (b3, Ok _) => (b3, Ok (mkBlockPos (cur_file b1) (cur_offset b1) (u32 (len raw))))
  | (b3, Err e) => (b3, Err e)
  end.
Proof.
  unfold store_block_async, put_frame, mbind, stm_bind, modify, gets, rotated. cbn zeta. cbn [set_current write_tx].
  destruct (write_tx _); [done|]. by destruct (file_append _ _ _) as [b3 [[]|e]].
Qed.

(** A lost write stays on record. *)
Lemma store_async_lost raw b : lost_writes (store_block_async raw b).1 = false -> lost_writes b = false.
Proof.
  rewrite store_async_unfold. cbn zeta. set (b2 := set_current _ _ _). pose proof (put_frame_spec (cur_file (rotated b raw)) raw b2) as Hp.
  intros Hl. assert (Hr : lost_writes (rotated b raw) = false).
  { destruct (put_frame _ _ _) as [b3 [[]|e]]; destruct Hp as (_ & _ & Hp); by apply Hp. }
  unfold rotated in Hr. destruct (must_rotate b raw); [by apply (rotate_flush_views b)|done].
Qed.

Lemma store_async_spec raw k b b' r :
  store_inv b -> room (S k) b -> len raw < 2 ^ 32 -> store_block_async raw b = (b', r) -> lost_writes b' = false ->
  exists pos, r = Ok pos /\ lost_writes b = false /\ store_inv b' /\ room k b' /\ holds b' pos raw /\
    forall n, exists suf, view b' n = view b n ++ suf.
Proof.
  intros Hinv Hroom Hraw. rewrite store_async_unfold. cbn zeta. pose proof (rotated_spec b raw k Hinv Hroom) as Hrot.
  set (b1 := rotated b raw) in *. clearbody b1. pose proof (len_nonneg raw) as Hn.
  set (b2 := set_current b1 _ _). pose proof (put_frame_spec (cur_file b1) raw b2) as Hp.
  destruct (put_frame (cur_file b1) raw b2) as [b3 res]. destruct Hp as (Hf3 & Ho3 & Hv3). intros Hrun Hl.
  assert (b' = b3) as -> by by destruct res; injection Hrun as <- <-. destruct (Hv3 Hl) as (-> & Hl2 & Hv). injection Hrun as <-.
  destruct (Hrot Hl2) as ([Hl1 Hlater] & Hl0 & Hvb & Hr0 & Hr1 & Ho0 & Hr2).
  cbn [b2 set_current cur_file cur_offset] in Hf3, Ho3. rewrite wrap_small in Ho3 by (unfold fits; lia).
  change (forall m, view b3 m = view b1 m ++ (if cur_file b1 =? m then frame raw else [])) in Hv.
  exists (mkBlockPos (cur_file b1) (cur_offset b1) (len raw)). rewrite (wrap_small 32) by (unfold fits; lia).
  split_and!; [done|done| | | |].
  - split.
    + rewrite Hf3, Hv, Z.eqb_refl, len_app, Hl1, Ho3. unfold frame. rewrite len_app. unfold len at 1. by rewrite length_to_le.
    + intros n Hn'. rewrite Hf3 in Hn'. rewrite Hv, Hlater by done. by destruct (Z.eqb_spec (cur_file b1) n); [lia|].
  - unfold room. rewrite Hf3, Ho3. lia.
  - exists (view b1 (cur_file b1)), []. cbn. rewrite Hv, Z.eqb_refl, app_nil_r. split_and!; try done. lia.
  - intros n. eexists. by rewrite Hv, Hvb.
Qed.

(** *** Reading *)

Lemma read_exact_view b n o k x :
  0 <= o -> 0 <= k -> read_exact_at b n o k = Ok x -> x = take (Z.to_nat k) (drop (Z.to_nat o) (view b n)).
Proof.
  intros Ho Hk. unfold read_exact_at, view, on_file. destruct (file_bytes (bs_files b) n) as [data|]; [|done].
  cbn. destruct (Z.leb_spec (o + k) (len data)); [|done]. intros [= <-]. unfold len in *.
  rewrite drop_app_le by lia. rewrite take_app_le; [done|]. rewrite length_drop. lia.
Qed.

Lemma read_exact_ok b n o k :
  0 <= o -> 0 <= k -> on_file b n <> [] -> o + k <= len (on_file b n) ->
  read_exact_at b n o k = Ok (take (Z.to_nat k) (drop (Z.to_nat o) (on_file b n))).
Proof.
  intros Ho Hk. unfold read_exact_at, on_file. destruct (file_bytes (bs_files b) n) as [data|]; cbn; [|done].
  intros _ Hle. by destruct (Z.leb_spec (o + k) (len data)); [|lia].
Qed.

Lemma len_to_le4 z : len (to_le 4 z) = 4.
Proof. unfold len. by rewrite length_to_le. Qed.

(** The two reads of [read_block_at] on the bytes of the files. *)
Lemma holds_reads (v : Z -> bytes) pos raw :
  holds_in v pos raw ->
  take 4 (drop (Z.to_nat (offset pos)) (v (file_num pos))) = to_le 4 (len raw) /\
  take (Z.to_nat (block_size pos)) (drop (Z.to_nat (offset pos + 4)) (v (file_num pos))) = raw /\
  offset pos + 4 + len raw <= len (v (file_num pos)) /\ 0 <= offset pos.
Proof.
  intros (pre & post & -> & Hpre & Hsize & _ & _). unfold frame. rewrite Hsize, <- Hpre. pose proof (len_nonneg pre).
  split_and!; [..|rewrite !len_app, len_to_le4; pose proof (len_nonneg post); lia|lia].
  - rewrite to_nat_len, drop_app_length, <- app_assoc. by rewrite take_app_length' by by rewrite length_to_le.
  - rewrite <- app_assoc, app_assoc, drop_app_length', to_nat_len, take_app_length; [done|].
    rewrite length_app, length_to_le. unfold len. lia.
Qed.

Lemma read_block_at_holds b pos raw x : holds b pos raw -> read_block_at b pos = Ok x -> x = raw.
Proof.
  intros Hh. destruct (holds_reads _ _ _ Hh) as (_ & Hr2 & _ & Ho). destruct Hh as (? & ? & _ & _ & Hsize & _ & Hlim).
  unfold read_block_at. destruct (read_exact_at b (file_num pos) (offset pos) 4) as [sz|]; cbn [mbind result_bind]; [|done].
  destruct (negb _); cbn [guard_err mbind result_bind]; [done|].
  rewrite wrap_small by (unfold fits; lia). intros Hr. pose proof (len_nonneg raw).
  apply read_exact_view in Hr; [congruence|lia|lia].
Qed.

Lemma read_block_at_disk b pos raw : on_disk b pos raw -> read_block_at b pos = Ok raw.
Proof.
  intros Hh. destruct (holds_reads _ _ _ Hh) as (Hr1 & Hr2 & Hlen & Ho). pose proof (len_nonneg raw).
  destruct Hh as (? & ? & _ & _ & Hsize & Hl32 & Hlim). unfold read_block_at.
  assert (Hne : on_file b (file_num pos) <> []) by (intros He; rewrite He in Hlen; unfold len in *; cbn in *; lia).
  rewrite (read_exact_ok b (file_num pos) (offset pos) 4) by (done || lia). change (Z.to_nat 4) with 4%nat. rewrite Hr1. cbn [mbind result_bind].
  rewrite from_to_le, Z.mod_small by (split; [lia|exact Hl32]). rewrite Hsize, Z.eqb_refl. cbn [negb guard_err mbind result_bind].
  rewrite wrap_small by (unfold fits; lia). rewrite read_exact_ok by (done || lia). by rewrite <- Hsize, Hr2.
Qed.

(** What is on disk is read at once. *)
Lemma read_block_disk b pos raw : on_disk b pos raw -> read_block pos b = (b, Ok raw).
Proof. intros Hh. unfold read_block. by rewrite (read_block_at_disk b pos raw). Qed.

(** What is queued is read, unless the writer is still behind after the wait. *)
Lemma read_block_holds b b' pos raw x :
  holds b pos raw -> read_block pos b = (b', x) -> lost_writes b' = false ->
  x = Ok raw \/ (exists e, x = Err e) /\ default [] (write_tx b') <> [].
Proof.
  intros Hh. unfold read_block. destruct (read_block_at b pos) as [y|e] eqn:Hy.
  { intros [= <- <-] _. left. by rewrite (read_block_at_holds _ _ _ _ Hh Hy). }
  unfold bs_flush. destruct (write_tx b) as [q|] eqn:Hq.
  - intros [= <- <-] Hl. destruct (flush_wait_views b) as (_ & _ & Hv). destruct (Hv Hl) as [_ Hvw]. clear Hv.
    set (b2 := wait_for_writer (send b WFlush)) in *.
    assert (Hh2 : holds b2 pos raw) by (eapply holds_extends; [|exact Hh]; intros n; exists []; by rewrite Hvw, app_nil_r).
    destruct (read_block_at b2 pos) as [z|] eqn:Hz; [left; by rewrite (read_block_at_holds _ _ _ _ Hh2 Hz)|].
    right. split; [eauto|]. intros Hd. by rewrite (read_block_at_disk _ _ _ (holds_drained _ _ _ Hd Hh2)) in Hz.
  - intros _ _. exfalso. assert (Hd : on_disk b pos raw) by (apply holds_drained; [by rewrite Hq|done]).
    by rewrite (read_block_at_disk _ _ _ Hd) in Hy.
Qed.

(** *** Traces *)

Inductive store_op : Type := OStore (raw : bytes) | OWriter (avail : nat) | ORead (pos : BlockPos) | OFlush.

(** The stored blocks, with their positions. *)
Fixpoint run_store (ops : list store_op) : stm BlockStore StorageError (list (BlockPos * bytes)) :=
  match ops with
  | [] => mret []
  | OStore raw :: r => pos ← store_block_async raw; l ← run_store r; mret ((pos, raw) :: l)
  | OWriter a :: r => _ ← modify (writer_step a); run_store r
  | ORead pos :: r => _ ← modify (fun b => (read_block pos b).1); run_store r
  | OFlush :: r => _ ← modify (fun b => (bs_flush b).1); run_store r
  end.

Definition stored_blocks (ops : list store_op) : list bytes :=
  omap (fun o => match o with OStore raw => Some raw | _ => None end) ops.

Definition run_step (o : store_op) b : BlockStore :=
  match o with
  | OStore raw => (store_block_async raw b).1
  | OWriter a => writer_step a b
  | ORead pos => (read_block pos b).1
  | OFlush => (bs_flush b).1
  end.

Lemma run_step_views o b : (forall raw, o <> OStore raw) -> same_views b (run_step o b).
Proof.
  destruct o as [raw|a|pos|]; intros Ho; [by destruct (Ho raw)|apply writer_step_views|apply read_block_views|apply bs_flush_views].
Qed.

Lemma run_store_lost ops : forall b b' r, run_store ops b = (b', r) -> lost_writes b' = false -> lost_writes b = false.
Proof.
  induction ops as [|o ops IH]; intros b b' r; cbn [run_store]; [by intros [= <- _]|].
  assert (Hstep : lost_writes (run_step o b) = false -> lost_writes b = false).
  { assert (Hcase : (exists raw, o = OStore raw) \/ forall raw, o <> OStore raw) by (destruct o; eauto).
    destruct Hcase as [[raw ->]|Ho]; [apply store_async_lost|]. destruct (run_step_views o b Ho) as (_ & _ & Hv). intros Hl. by apply Hv. }
  intros Hrun Hl. apply Hstep. destruct o as [raw|a|pos|]; unfold mbind, stm_bind, modify in Hrun; cbn [run_step]; [|by eapply IH..].
  destruct (store_block_async raw b) as [b1 [pos|e]]; [|by injection Hrun as <- _]. specialize (IH b1).
  destruct (run_store ops b1) as [b2 [l|e]]; injection Hrun as <- _; by eapply IH; [reflexivity|].
Qed.

Definition run_result b b' (ops : list store_op) (r : StorageResult (list (BlockPos * bytes))) : Prop :=
  (forall n, exists suf, view b' n = view b n ++ suf) /\
  exists l, r = Ok l /\ map snd l = stored_blocks ops /\ forall pos raw, (pos, raw) ∈ l -> holds b' pos raw.

Lemma run_store_spec ops : forall b b' r,
  store_inv b -> room (length ops) b -> (forall raw, OStore raw ∈ ops -> len raw < 2 ^ 32) ->
  run_store ops b = (b', r) -> lost_writes b' = false -> run_result b b' ops r.
Proof.
  induction ops as [|o ops IH]; intros b b' r Hinv Hroom Hraw Hrun Hl.
  { injection Hrun as <- <-. split; [intros n; exists []; by rewrite app_nil_r|]. exists []. split_and!; [done|done|].
    by intros pos raw ?%not_elem_of_nil. }
  assert (Hraw' : forall raw, OStore raw ∈ ops -> len raw < 2 ^ 32) by (intros; apply Hraw; by right).
  assert (Hcase : (forall raw, o <> OStore raw) \/ exists raw, o = OStore raw) by (destruct o; eauto). destruct Hcase as [Ho|[raw ->]].
  - assert (Hrun' : run_store ops (run_step o b) = (b', r)) by by destruct o as [raw|a|pos|]; [destruct (Ho raw)|..].
    pose proof (run_store_lost _ _ _ _ Hrun' Hl) as Hl1. pose proof (run_step_views o b Ho) as Hs.
    destruct (IH (run_step o b) b' r) as (Hext & l & Hr); [by eapply same_views_inv| |done|done|done|].
    { unfold room in *. destruct Hs as (-> & -> & _). cbn [length] in Hroom. lia. }
    destruct Hs as (_ & _ & Hv). destruct (Hv Hl1) as [_ Hvw]. split.
    + intros n. destruct (Hext n) as [s Hs]. exists s. by rewrite Hs, Hvw.
    + exists l. by destruct o as [raw|a|pos|]; [destruct (Ho raw)|..].
  - cbn [run_store] in Hrun. unfold mbind, stm_bind in Hrun.
    destruct (store_block_async raw b) as [b1 res] eqn:Hs.
    assert (Hl1 : lost_writes b1 = false).
    { destruct res as [pos|e]; [|by injection Hrun as <- _]. destruct (run_store ops b1) as [b2 [l|e]] eqn:Hr2;
        injection Hrun as <- _; by eapply run_store_lost. }
    destruct (store_async_spec raw (length ops) b b1 res Hinv Hroom ltac:(apply Hraw; by left) Hs Hl1)
      as (pos & -> & _ & Hinv1 & Hroom1 & Hh & Hext).
    destruct (run_store ops b1) as [b2 res2] eqn:Hr2. assert (b2 = b') as -> by by destruct res2; injection Hrun as -> _.
    destruct (IH b1 b' res2 Hinv1 Hroom1 Hraw' Hr2 Hl) as (Hext2 & l & -> & Hmap & Hhold). injection Hrun as <-. split.
    + intros n. destruct (Hext n) as [s1 H1], (Hext2 n) as [s2 H2]. exists (s1 ++ s2). by rewrite H2, H1, app_assoc.
    + exists ((pos, raw) :: l). split_and!; [done|by cbn; rewrite Hmap|].
      intros p x [[= -> ->]|Hin]%elem_of_cons; [by apply (holds_extends b1)|by apply Hhold].
Qed.
End Proofs.

(** ** Theorems *)

Section Theorems.
Context `{HF : BlockFiles} `{HL : !BlockFilesLaws}.

End Theorems.

(** ** The theorem at a concrete input *)

Section Examples.
(** A writer that makes eight rounds during a wait. *)
#[local] Instance sample_files : BlockFiles := {|
  Files := gmap Z bytes;
  file_bytes := fun f n => f !! n;
  append := fun f n data => (<[n := default [] (f !! n) ++ data]> f, Ok tt);
  sync_data := fun _ _ => Ok tt;
  writer_rounds := fun _ => replicate 8 0%nat |}.

#[local] Instance sample_files_laws : BlockFilesLaws.
Proof.
  constructor. intros f n data f' [= <-] m. cbn. case_bool_decide as Hm; [subst; apply lookup_insert_eq|].
  by apply lookup_insert_ne.
Defined.

(** Two blocks and a rotation; the writer has seen only the first block. *)
Definition ex_store : BlockStore := mkBlockStore 8 0 0 (Some []) (∅ : gmap Z bytes) false.
Definition ex_ops : list store_op := [OStore [1; 2; 3]; OWriter 1; ORead (mkBlockPos 0 0 3); OStore [4; 5]].


(** The second block is still queued and is read all the same. *)
Lemma queued_block_read :
  write_tx (run_store ex_ops ex_store).1 <> Some [] /\
  (read_block (mkBlockPos 1 0 2) (run_store ex_ops ex_store).1).2 = Ok [4; 5].
Proof. split; [vm_compute; congruence|vm_compute; reflexivity]. Qed.
End Examples.
