(* ===== verification/Bip110.v ===== *)
(** * BIP-110 activation

    The signaling-driven deployment of [bitcoinpr-core/src/bip110.rs]: the
    threshold state of a block computed from its ancestors, with the memo table
    keyed by period boundary, the early stop and the median-time fast path; and
    the pure recursion over the periods of a branch that it implements. *)

From Stdlib Require Import ZArith Lia.
From stdpp Require Import base option numbers list gmap.
From S2P Require Import Prelude Bytes Types Consensus Validation ValidationProofs HeaderIndex HeaderProofs.

Definition signals (dep : Bip110Deployment) (version : Z) : bool :=
  (Z.land version 0xE0000000 =? 0x20000000) && negb (Z.land version (Z.shiftl 1 (bit dep mod 32)) =? 0).

Inductive ThresholdState : Type := Defined | Started | LockedIn | Active | Expired.

#[global] Instance ThresholdState_eq_dec : EqDecision ThresholdState.
Proof. solve_decision. Defined.

Record Bip110Activation := mkActivation { state : ThresholdState; activation_height : option Z }.

Definition INACTIVE : Bip110Activation := mkActivation Defined None.

Definition fixed (activation_height block_height : Z) : Bip110Activation :=
  mkActivation (if block_height >=? activation_height then Active else Started) (Some activation_height).

Definition enforcing (a : Bip110Activation) : bool := bool_decide (state a = Active).

Definition violates_mandatory_signaling (a : Bip110Activation) (dep : Bip110Deployment) (height version : Z) : bool :=
  let '(lo, hi) := mandatory_window dep in
  bool_decide (state a = Started) && (height >=? lo) && (height <=? hi) && negb (signals dep version).

(** The memo table: the state of the period after a boundary block. *)
Record Bip110Checker := mkChecker {
  dep : Bip110Deployment;
  memo : gmap hash256 (ThresholdState * option Z) }.

Definition checker_new (d : Bip110Deployment) : Bip110Checker := mkChecker d ∅.

Section Checker.
Context `{TxLib} (get_header : header_lookup).

Definition mtp_or_zero (h : hash256) : Z := default 0 (get_median_time_past get_header h).

(** The loop of [count_signals]; heights strictly decrease. *)
Fixpoint count_loop (dep : Bip110Deployment) (fuel : nat) (period_start : Z) (cur : StoredHeader) (count : Z) : Z :=
  let count := if signals dep (u32 (version (sh_header cur))) then u32 (count + 1) else count in
  if sh_height cur <=? period_start then count
  else match fuel with
       | O => count
       | S f =>
           match get_header (prev_blockhash (sh_header cur)) with
           | Ok (Some p) => if sh_height p <? sh_height cur then count_loop dep f period_start p count else count
           | _ => count
           end
       end.

Definition count_signals (dep : Bip110Deployment) (b : StoredHeader) : Z :=
  count_loop dep (Z.to_nat (sh_height b)) (u32 (sh_height b + 1 - period dep)) b 0.

Definition transition (dep : Bip110Deployment) (st : ThresholdState * option Z) (b : StoredHeader) :
    ThresholdState * option Z :=
  let '(state, activation) := st in
  let next_period_start := u32 (sh_height b + 1) in
  match state with
  | Defined =>
      if mtp_or_zero (block_hash (sh_header b)) >=? start_time dep then (Started, None) else (Defined, None)
  | Started =>
      if (count_signals dep b >=? threshold dep) || (next_period_start >=? lock_in_floor_height dep)
      then (LockedIn, Some (u32 (next_period_start + period dep)))
      else (Started, None)
  | LockedIn => (Active, activation)
  | Active =>
      match activation with
      | Some a =>
          if next_period_start >=? Z.min (2 ^ 32 - 1) (a + active_duration dep) then (Expired, activation)
          else (Active, activation)
      | None => (Active, activation)
      end
  | Expired => (Expired, activation)
  end.

(** The walk back to a known state: it and the stack of boundaries to replay,
    the earliest on top. *)
Fixpoint walk_back (c : Bip110Checker) (fuel : nat) (cur : StoredHeader) (to_compute : list StoredHeader) :
    (ThresholdState * option Z) * list StoredHeader :=
  match fuel with
  | O => ((Defined, None), to_compute)
  | S f =>
      let cur_hash := block_hash (sh_header cur) in
      match memo c !! cur_hash with
      | Some cached => (cached, to_compute)
      | None =>
          if mtp_or_zero cur_hash <? start_time (dep c) then ((Defined, None), to_compute)
          else if sh_height cur <? period (dep c) then ((Defined, None), cur :: to_compute)
          else
            match get_ancestor get_header (prev_blockhash (sh_header cur)) (sh_height cur - period (dep c)) with
            | Ok (Some pb) => walk_back c f pb (cur :: to_compute)
            | _ => ((Defined, None), cur :: to_compute)
            end
      end
  end.

(** [while let Some(b) = to_compute.pop()] *)
Fixpoint replay (c : Bip110Checker) (st : ThresholdState * option Z) (to_compute : list StoredHeader) :
    Bip110Checker * (ThresholdState * option Z) :=
  match to_compute with
  | [] => (c, st)
  | b :: r =>
      let st := transition (dep c) st b in
      replay (mkChecker (dep c) (<[block_hash (sh_header b) := st]> (memo c))) st r
  end.

Definition state_at_boundary (c : Bip110Checker) (boundary : StoredHeader) : Bip110Checker * (ThresholdState * option Z) :=
  let '(base, to_compute) := walk_back c (S (Z.to_nat (sh_height boundary))) boundary [] in
  replay c base to_compute.

Definition activation_for (c : Bip110Checker) (prev_hash : hash256) (height : Z) : Bip110Checker * Bip110Activation :=
  let period_index := height / period (dep c) in
  if period_index =? 0 then (c, INACTIVE)
  else if match get_median_time_past get_header prev_hash with
          | Some mtp => mtp <? start_time (dep c)
          | None => false
          end then (c, INACTIVE)
  else
    match get_ancestor get_header prev_hash (period_index * period (dep c) - 1) with
    | Ok (Some boundary) =>
        let '(c, (state, activation)) := state_at_boundary c boundary in (c, mkActivation state activation)
    | _ => (c, INACTIVE)
    end.

(** The precedence of [activation_at]: fixed height, checker, inactive. *)
Definition activation_at (params : ConsensusParams) (checker : option Bip110Checker) (prev_hash : hash256) (height : Z) :
    option Bip110Checker * Bip110Activation :=
  match bip110_activation_height params with
  | Some activation => (checker, fixed activation height)
  | None =>
      match checker with
      | Some c => let '(c, a) := activation_for c prev_hash height in (Some c, a)
      | None => (None, INACTIVE)
      end
  end.

Definition signaling_version (params : ConsensusParams) (checker : option Bip110Checker) (prev_hash : hash256)
    (height : Z) : Z :=
  match state (activation_at params checker prev_hash height).2, checker with
  | (Started | LockedIn), Some c => Z.lor 0x20000000 (Z.shiftl 1 (bit (dep c) mod 32))
  | _, _ => 0x20000000
  end.

Definition earliest_enforced_height (params : ConsensusParams) (tip_hash : hash256) (tip_height : Z) : option Z :=
  match bip110_activation_height params with
  | Some h => Some h
  | None =>
      d ← bip110_deployment params;
      activation_height (activation_for (checker_new d) tip_hash (u32 (tip_height + 1))).2
  end.
End Checker.
