(* ===== verification/Bip110Proofs.v ===== *)
(** * Properties of the BIP-110 activation

    The memoised computation with its early stop and fast path gives the state
    of the plain recursion over the periods of the branch; enforcement happens
    in one window that starts at a period boundary; the mandatory floor forces
    activation. *)

From Stdlib Require Import ZArith Lia.
From stdpp Require Import base option numbers list gmap.
From S2P Require Import Prelude Bytes Types Consensus Validation ValidationProofs HeaderIndex HeaderProofs Bip110.

(** ** The deployment on a branch *)

Section Branch.
Context `{TxLib} (get : header_lookup) (d : Bip110Deployment) (hs : list (hash256 * StoredHeader)).

Definition mtp_at (i : nat) : Z :=
  match hs !! i with Some (x, _) => mtp_or_zero get x | None => 0 end.

(** Signaling blocks among the [n] blocks from index [i]. *)
Definition signals_from (i n : nat) : Z :=
  Z.of_nat (length (filter (fun p => signals d (u32 (version (sh_header p.2))) = true) (take n (drop i hs)))).

(** The state of period [k]: no memo table, no early stop, no fast path. *)
Fixpoint deployment_at (k : nat) : ThresholdState * option Z :=
  match k with
  | O => (Defined, None)
  | S k' =>
      let start := Z.of_nat k * period d in
      match deployment_at k' with
      | (Defined, _) =>
          if mtp_at (Z.to_nat (start - 1)) >=? start_time d then (Started, None) else (Defined, None)
      | (Started, _) =>
          if (signals_from (Z.to_nat (start - period d)) (Z.to_nat (period d)) >=? threshold d)
             || (start >=? lock_in_floor_height d)
          then (LockedIn, Some (start + period d)) else (Started, None)
      | (LockedIn, a) => (Active, a)
      | (Active, Some a) => if start >=? a + active_duration d then (Expired, Some a) else (Active, Some a)
      | (s, a) => (s, a)
      end
  end.
End Branch.

(** ** The memo table *)

Section Memo.
Context `{TxLib} (get : header_lookup) (d : Bip110Deployment).

(** Headers are stored under their hash, with a natural height. *)
Definition keyed : Prop :=
  forall x b, get x = Ok (Some b) -> block_hash (sh_header b) = x /\ 0 <= sh_height b.

(** The recursion without the memo table. *)
Fixpoint boundary_state (fuel : nat) (cur : StoredHeader) : ThresholdState * option Z :=
  match fuel with
  | O => (Defined, None)
  | S f =>
      if mtp_or_zero get (block_hash (sh_header cur)) <? start_time d then (Defined, None)
      else
        let before :=
          if sh_height cur <? period d then (Defined, None)
          else
            match get_ancestor get (prev_blockhash (sh_header cur)) (sh_height cur - period d) with
            | Ok (Some pb) => boundary_state f pb
            | _ => (Defined, None)
            end in
        transition get d before cur
  end.

Definition ref_state (b : StoredHeader) : ThresholdState * option Z :=
  boundary_state (S (Z.to_nat (sh_height b))) b.

Definition memo_ok (c : Bip110Checker) : Prop :=
  dep c = d /\ forall x b v, get x = Ok (Some b) -> memo c !! x = Some v -> v = ref_state b.

Lemma ancestor_loop_stored fuel target : forall cur s,
  ancestor_loop get fuel target cur = Ok (Some s) ->
  sh_height s <= target /\ (s = cur \/ exists x, get x = Ok (Some s)).
Proof.
  induction fuel as [|f IH]; intros cur s; cbn [ancestor_loop]; rewrite Z.gtb_ltb;
    destruct (Z.ltb_spec target (sh_height cur)); try done; try (intros [= <-]; split; [lia|by left]).
  destruct (get _) as [[p|]|] eqn:Hg; cbn [mbind result_bind]; try done.
  destruct (_ <? _); [|done]. intros [Hle [->|Hs]]%IH; (split; [done|right]); eauto.
Qed.

Lemma get_ancestor_stored x target s :
  get_ancestor get x target = Ok (Some s) -> sh_height s <= target /\ exists y, get y = Ok (Some s).
Proof.
  unfold get_ancestor. destruct (get x) as [[c|]|] eqn:Hg; cbn [mbind result_bind]; try done.
  destruct (_ <? _); [done|]. intros [? [->|?]]%ancestor_loop_stored; eauto.
Qed.

(** More fuel than the height changes nothing. *)
Lemma boundary_state_fuel n : forall m b x,
  keyed -> 0 < period d -> get x = Ok (Some b) ->
  sh_height b < Z.of_nat n -> sh_height b < Z.of_nat m -> boundary_state n b = boundary_state m b.
Proof.
  induction n as [|n IH]; intros m b x Hk Hp Hx Hn Hm; destruct (Hk _ _ Hx) as [_ Hh]; [lia|].
  destruct m as [|m]; [lia|]. cbn [boundary_state]. destruct (_ <? start_time d); [done|].
  destruct (Z.ltb_spec (sh_height b) (period d)); [done|].
  destruct (get_ancestor _ _ _) as [[pb|]|] eqn:Hg; [|done..].
  apply get_ancestor_stored in Hg as [Hle [y Hy]]. f_equal. apply (IH m pb y); [done..|lia|lia].
Qed.

Lemma memo_insert c b v :
  keyed -> memo_ok c -> get (block_hash (sh_header b)) = Ok (Some b) -> v = ref_state b ->
  memo_ok (mkChecker d (<[block_hash (sh_header b) := v]> (memo c))).
Proof.
  intros Hk [_ Hm] Hb ->. split; [done|]. intros x b' v' Hx. cbn [memo].
  intros [[<- <-]|[_ Hv]]%lookup_insert_Some; [congruence|by apply (Hm x)].
Qed.

Lemma walk_back_replay fuel : forall c b x stk,
  keyed -> 0 < period d -> memo_ok c -> get x = Ok (Some b) -> sh_height b < Z.of_nat fuel ->
  exists c', memo_ok c' /\
    replay get c (walk_back get c fuel b stk).1 (walk_back get c fuel b stk).2 = replay get c' (ref_state b) stk.
Proof.
  induction fuel as [|f IH]; intros c b x stk Hk Hp Hc Hx Hf; destruct (Hk _ _ Hx) as [Hbx Hh]; [lia|].
  destruct Hc as [Hd Hm]. cbn [walk_back]. rewrite Hbx, Hd. subst x.
  destruct (memo c !! block_hash (sh_header b)) as [v|] eqn:Hv.
  { exists c. cbn [fst snd]. by rewrite (Hm _ _ _ Hx Hv). }
  assert (Href : forall v, v = ref_state b -> forall c stk, memo_ok c -> exists c', memo_ok c' /\
    replay get (mkChecker d (<[block_hash (sh_header b) := v]> (memo c))) v stk = replay get c' (ref_state b) stk).
  { intros v -> c0 stk0 Hc0. eexists. split; [|reflexivity]. by apply memo_insert. }
  unfold ref_state in Href at 1. cbn [boundary_state] in Href.
  destruct (_ <? start_time d) eqn:Hmtp.
  { exists c. split; [done|]. cbn [fst snd]. unfold ref_state. cbn [boundary_state]. by rewrite Hmtp. }
  destruct (Z.ltb_spec (sh_height b) (period d)) as [Hlt|Hge].
  { cbn [fst snd replay]. rewrite Hd. by apply Href. }
  destruct (get_ancestor _ _ _) as [[pb|]|] eqn:Hg; cbn [fst snd].
  - pose proof (get_ancestor_stored _ _ _ Hg) as [Hle [y Hy]].
    destruct (IH c pb y (b :: stk)) as (c1 & Hc1 & ->); [done..|lia|]. cbn [replay].
    pose proof Hc1 as [-> _]. apply Href; [|done]. f_equal. apply (boundary_state_fuel _ _ pb y); [done..|lia|lia].
  - cbn [replay]. rewrite Hd. by apply Href.
  - cbn [replay]. rewrite Hd. by apply Href.
Qed.

(** The memo table is transparent. *)
Lemma state_at_boundary_memo c b x :
  keyed -> 0 < period d -> memo_ok c -> get x = Ok (Some b) ->
  exists c', memo_ok c' /\ state_at_boundary get c b = (c', ref_state b).
Proof.
  intros Hk Hp Hc Hx. destruct (Hk _ _ Hx) as [_ Hh]. unfold state_at_boundary.
  destruct (walk_back_replay (S (Z.to_nat (sh_height b))) c b x []) as (c' & Hc' & Heq); [done..|lia|].
  exists c'. split; [done|]. by destruct (walk_back get c _ b []) as [base stk].
Qed.
End Memo.

(** ** The computation on a branch *)

(** Every block is later than the median-time-past of its parent. *)
Definition valid_times (get : header_lookup) (hs : list (hash256 * StoredHeader)) : Prop :=
  forall j x b m, hs !! S j = Some (x, b) ->
    get_median_time_past get (prev_blockhash (sh_header b)) = Some m -> m < time (sh_header b).

Section OnBranch.
Context `{TxLib} (get : header_lookup) (d : Bip110Deployment) (hs : list (hash256 * StoredHeader)).
Hypothesis Hbranch : branch get hs.
Hypothesis Hkeyed : keyed get.
Hypothesis Htimes : valid_times get hs.
Hypothesis Hperiod : 0 < period d.
Hypothesis Hwidth : Z.of_nat (length hs) + 2 * period d < 2 ^ 32.

Lemma mtp_branch i x b : hs !! i = Some (x, b) -> get_median_time_past get x = Some (mtp_at get hs i).
Proof.
  intros Hi. unfold mtp_at, mtp_or_zero. rewrite Hi.
  assert (Hs : is_Some (get_median_time_past get x)); [|by destruct Hs as [m ->]].
  destruct (Hbranch _ _ _ Hi) as (Hg & _). unfold get_median_time_past. cbn [collect_times]. rewrite Hg.
  apply median_Some. done.
Qed.

Lemma mtp_at_step i x b : hs !! S i = Some (x, b) -> mtp_at get hs i <= mtp_at get hs (S i).
Proof.
  intros Hi. destruct (branch_prev _ _ _ _ _ Hbranch Hi) as (p & Hp & _ & _).
  destruct (Hbranch _ _ _ Hi) as (Hg & _). pose proof (mtp_branch _ _ _ Hp) as Hm.
  destruct (mtp_step get x b _ Hg Hm) as (m' & Hm' & Hle); [by apply (Htimes i x b)|].
  rewrite (mtp_branch _ _ _ Hi) in Hm'. congruence.
Qed.

Lemma mtp_at_mono i j : (i <= j < length hs)%nat -> mtp_at get hs i <= mtp_at get hs j.
Proof.
  intros [Hij Hj]. induction Hij as [|j Hij IH]; [lia|].
  destruct (lookup_lt_is_Some_2 hs (S j)) as [[x b] Hx]; [lia|].
  pose proof (mtp_at_step _ _ _ Hx). specialize (IH ltac:(lia)). lia.
Qed.

Lemma signals_from_snoc s n x b :
  hs !! (s + n)%nat = Some (x, b) ->
  signals_from d hs s (S n) =
    signals_from d hs s n + (if signals d (u32 (version (sh_header b))) then 1 else 0).
Proof.
  intros Hi. unfold signals_from. rewrite (take_S_r _ _ (x, b)) by by rewrite lookup_drop.
  rewrite filter_app, length_app, filter_cons. cbn [snd filter].
  destruct (signals d _); [rewrite decide_True by done|rewrite decide_False by done]; rewrite filter_nil; cbn [length]; lia.
Qed.

Lemma count_loop_branch n : forall s fuel x b count,
  hs !! (s + n)%nat = Some (x, b) -> (n <= fuel)%nat -> 0 <= count -> count + Z.of_nat (S n) < 2 ^ 32 ->
  count_loop get d fuel (Z.of_nat s) b count = count + signals_from d hs s (S n).
Proof.
  induction n as [|n IH]; intros s fuel x b count Hi Hf Hc Hl; rewrite (signals_from_snoc _ _ x b Hi);
    destruct (Hbranch _ _ _ Hi) as (_ & Hh & _);
    destruct fuel as [|fuel]; try lia; cbn [count_loop]; rewrite Hh;
    set (k := if signals d _ then 1 else 0); set (count' := if signals d _ then _ else count);
    (assert (Hk : count' = count + k /\ 0 <= k <= 1)
      by (subst k count'; destruct (signals d _); rewrite ?wrap_small by (unfold fits; lia); lia));
    clearbody k count'; destruct Hk as [-> Hk].
  1,2: destruct (Z.leb_spec (Z.of_nat (s + 0)) (Z.of_nat s)); [|lia]; unfold signals_from; rewrite take_0; cbn; lia.
  destruct (Z.leb_spec (Z.of_nat (s + S n)) (Z.of_nat s)); [lia|].
  rewrite Nat.add_succ_r in Hi. destruct (branch_prev _ _ _ _ _ Hbranch Hi) as (p & Hp & Hg & Hph). rewrite Hg, Hph.
  destruct (Z.ltb_spec (Z.of_nat (s + n)) (Z.of_nat (s + S n))); [|lia].
  rewrite (IH s fuel _ p _ Hp); lia.
Qed.

(** The last block of period [k]. *)
Abbreviation boundary k := (Z.to_nat (Z.of_nat (S k) * period d - 1)).

Lemma count_signals_branch k x b :
  hs !! boundary k = Some (x, b) ->
  count_signals get d b = signals_from d hs (Z.to_nat (Z.of_nat k * period d)) (Z.to_nat (period d)).
Proof.
  intros Hb. destruct (Hbranch _ _ _ Hb) as (_ & Hh & _). pose proof (lookup_lt_Some _ _ _ Hb) as Hlt.
  unfold count_signals. rewrite Hh.
  rewrite wrap_small by (unfold fits; nia).
  replace (Z.of_nat (boundary k) + 1 - period d) with (Z.of_nat (Z.to_nat (Z.of_nat k * period d))) by nia.
  rewrite (count_loop_branch (Z.to_nat (period d) - 1) _ _ x b).
  - replace (S (Z.to_nat (period d) - 1)) with (Z.to_nat (period d)) by lia. lia.
  - rewrite <- Hb. f_equal. nia.
  - nia.
  - lia.
  - nia.
Qed.

Lemma deployment_activation k a : (deployment_at get d hs k).2 = Some a -> 0 <= a.
Proof.
  revert a. induction k as [|k IH]; intros a; cbn [deployment_at]; [done|]. cbv zeta.
  destruct (deployment_at get d hs k) as [[] [a'|]]; cbn [snd] in *;
    repeat case_match; cbn [snd]; intros [= <-]; try (by apply IH); nia.
Qed.

Lemma transition_branch k x b :
  hs !! boundary k = Some (x, b) ->
  transition get d (deployment_at get d hs k) b = deployment_at get d hs (S k).
Proof.
  intros Hb. destruct (Hbranch _ _ _ Hb) as (Hg & Hh & _). pose proof (lookup_lt_Some _ _ _ Hb) as Hlt.
  assert (Hnps : u32 (sh_height b + 1) = Z.of_nat (S k) * period d) by (rewrite Hh, wrap_small; unfold fits; nia).
  pose proof (deployment_activation k) as Ha. cbn [deployment_at]. unfold transition. cbv zeta. rewrite Hnps.
  destruct (deployment_at get d hs k) as [[] a]; [..|done].
  - destruct (Hkeyed _ _ Hg) as [-> _]. unfold mtp_at. rewrite Hb. done.
  - rewrite (count_signals_branch _ _ _ Hb). rewrite wrap_small by (unfold fits; nia).
    by replace (Z.of_nat (S k) * period d - period d) with (Z.of_nat k * period d) by nia.
  - done.
  - destruct a as [a|]; [|done]. f_equal. specialize (Ha a eq_refl).
    destruct (Z.geb_spec (Z.of_nat (S k) * period d) (a + active_duration d)),
      (Z.geb_spec (Z.of_nat (S k) * period d) (Z.min (2 ^ 32 - 1) (a + active_duration d))); try done; nia.
Qed.

(** Before the start time the deployment is DEFINED. *)
Lemma deployment_defined k :
  (boundary k < length hs)%nat -> mtp_at get hs (boundary k) < start_time d ->
  deployment_at get d hs (S k) = (Defined, None).
Proof.
  induction k as [|k IH]; intros Hlt Hm.
  - cbn [deployment_at]. rewrite Z.geb_leb. by rewrite (proj2 (Z.leb_gt _ _)).
  - cbn [deployment_at] in *. cbv zeta in *. rewrite IH.
    + rewrite Z.geb_leb. by rewrite (proj2 (Z.leb_gt _ _)).
    + nia.
    + pose proof (mtp_at_mono (boundary k) (boundary (S k)) ltac:(nia)). lia.
Qed.

Lemma ref_state_branch k : forall x b,
  hs !! boundary k = Some (x, b) -> ref_state get d b = deployment_at get d hs (S k).
Proof.
  induction k as [|k IH]; intros x b Hb; destruct (Hbranch _ _ _ Hb) as (Hg & Hh & _);
    destruct (Hkeyed _ _ Hg) as [Hkey _]; pose proof (lookup_lt_Some _ _ _ Hb) as Hlt;
    rewrite <- (transition_branch _ _ _ Hb); unfold ref_state; cbn [boundary_state]; rewrite Hkey;
    (assert (Hm : mtp_or_zero get x = mtp_at get hs (boundary _)) by (unfold mtp_at; rewrite Hb; reflexivity));
    rewrite Hm; match goal with |- context [?a <? start_time d] => destruct (Z.ltb_spec a (start_time d)) as [Hlow|Hhigh] end;
    try (rewrite (transition_branch _ _ _ Hb); symmetry; by apply deployment_defined); rewrite Hh.
  - destruct (Z.ltb_spec (Z.of_nat (boundary 0)) (period d)); [done|lia].
  - destruct (Z.ltb_spec (Z.of_nat (boundary (S k))) (period d)); [nia|]. f_equal.
    assert (Hj : boundary (S k) = S (Z.to_nat (Z.of_nat (S (S k)) * period d - 2))) by nia.
    rewrite Hj in Hb. destruct (branch_prev _ _ _ _ _ Hbranch Hb) as (p & Hp & _ & _).
    rewrite (get_ancestor_branch _ _ _ _ _ _ Hbranch Hp) by nia.
    destruct (Z.leb_spec (Z.of_nat (boundary (S k)) - period d) (Z.of_nat (Z.to_nat (Z.of_nat (S (S k)) * period d - 2)))); [|nia].
    replace (Z.to_nat (Z.of_nat (boundary (S k)) - period d)) with (boundary k) by nia.
    destruct (lookup_lt_is_Some_2 hs (boundary k)) as [[y pb] Hpb]; [nia|]. rewrite Hpb. cbn [fmap option_fmap option_map snd].
    rewrite <- (IH y pb Hpb). destruct (Hbranch _ _ _ Hpb) as (Hgy & Hhy & _).
    apply (boundary_state_fuel get d _ _ pb y Hkeyed Hperiod Hgy); rewrite Hhy; nia.
Qed.

Lemma activation_for_branch c n x b :
  memo_ok get d c -> hs !! n = Some (x, b) ->
  exists c', memo_ok get d c' /\
    activation_for get c x (Z.of_nat (S n)) =
      (c', let '(s, a) := deployment_at get d hs (Z.to_nat (Z.of_nat (S n) / period d)) in mkActivation s a).
Proof.
  intros Hc Hn. pose proof (lookup_lt_Some _ _ _ Hn) as Hlt. unfold activation_for. pose proof Hc as [-> _].
  set (q := Z.of_nat (S n) / period d). pose proof (Z.mul_div_le (Z.of_nat (S n)) (period d) Hperiod) as Hq.
  pose proof (Z.div_pos (Z.of_nat (S n)) (period d) ltac:(lia) Hperiod) as Hq0. fold q in Hq, Hq0. clearbody q.
  destruct (Z.eqb_spec q 0) as [->|Hne]; [by exists c|].
  assert (exists k, Z.to_nat q = S k) as [k Hk] by (destruct (Z.to_nat q) eqn:?; [lia|eauto]).
  assert (q = Z.of_nat (S k)) as -> by lia. rewrite Nat2Z.id. rewrite (mtp_branch _ _ _ Hn).
  destruct (Z.ltb_spec (mtp_at get hs n) (start_time d)) as [Hlow|Hhigh].
  { exists c. split; [done|]. rewrite deployment_defined; [done|nia|].
    pose proof (mtp_at_mono (boundary k) n ltac:(nia)). lia. }
  rewrite (get_ancestor_branch _ _ _ _ _ _ Hbranch Hn) by nia.
  destruct (Z.leb_spec (Z.of_nat (S k) * period d - 1) (Z.of_nat n)); [|nia].
  destruct (lookup_lt_is_Some_2 hs (boundary k)) as [[y pb] Hpb]; [nia|]. rewrite Hpb. cbn [fmap option_fmap option_map snd].
  destruct (Hbranch _ _ _ Hpb) as (Hgy & _).
  destruct (state_at_boundary_memo get d c pb y Hkeyed Hperiod Hc Hgy) as (c' & Hc' & ->).
  exists c'. split; [done|]. rewrite (ref_state_branch k y pb Hpb). by destruct (deployment_at get d hs (S k)).
Qed.
End OnBranch.

(** ** The schedule *)

Section Schedule.
Context `{TxLib} (get : header_lookup) (d : Bip110Deployment) (hs : list (hash256 * StoredHeader)).
Hypothesis Hperiod : 0 < period d.

(** What the state of period [k] says about the activation height. *)
Definition schedule (k : nat) (st : ThresholdState * option Z) : Prop :=
  match st with
  | (Defined, a) | (Started, a) => a = None
  | (LockedIn, a) => a = Some (Z.of_nat (S k) * period d)
  | (Active, a) => exists j, a = Some (j * period d) /\ j * period d <= Z.of_nat k * period d /\
      (Z.of_nat k * period d = j * period d \/ Z.of_nat k * period d < j * period d + active_duration d)
  | (Expired, a) => exists j, a = Some (j * period d) /\ j * period d <= Z.of_nat k * period d /\
      j * period d + active_duration d <= Z.of_nat k * period d
  end.

Lemma deployment_schedule k : schedule k (deployment_at get d hs k).
Proof.
  induction k as [|k IH]; [done|]. cbn [deployment_at]. cbv zeta.
  destruct (deployment_at get d hs k) as [[] a]; cbn [schedule] in IH.
  - case_match; done.
  - case_match; [|done]. cbn [schedule]. f_equal. lia.
  - subst. cbn [schedule]. exists (Z.of_nat (S k)). split_and!; [done|lia|by left].
  - destruct IH as (j & -> & Hle & _). rewrite Z.geb_leb. destruct (Z.leb_spec (j * period d + active_duration d) (Z.of_nat (S k) * period d)) as [Hd|Hd].
    + exists j. split_and!; [done|nia|lia].
    + exists j. split_and!; [done|nia|by right].
  - destruct IH as (j & -> & Hle & ?). exists j. split_and!; [done|nia|nia].
Qed.

(** Once left, DEFINED and STARTED are not entered again. *)
Definition rank (s : ThresholdState) : Z :=
  match s with Defined => 0 | Started => 1 | LockedIn => 2 | Active => 3 | Expired => 4 end.

Lemma deployment_rank_step k :
  rank (deployment_at get d hs k).1 <= rank (deployment_at get d hs (S k)).1.
Proof.
  cbn [deployment_at]. cbv zeta.
  destruct (deployment_at get d hs k) as [[] [a|]]; cbn [fst rank]; repeat case_match; cbn [fst rank]; lia.
Qed.

Lemma deployment_rank_mono i j : (i <= j)%nat -> rank (deployment_at get d hs i).1 <= rank (deployment_at get d hs j).1.
Proof. induction 1 as [|j _ IH]; [lia|]. pose proof (deployment_rank_step j). lia. Qed.

Lemma deployment_activation_keeps k a :
  (deployment_at get d hs k).2 = Some a -> (deployment_at get d hs (S k)).2 = Some a.
Proof.
  pose proof (deployment_schedule k) as Hs. cbn [deployment_at]. cbv zeta.
  destruct (deployment_at get d hs k) as [[] a']; cbn [schedule snd] in *; intros ->; try done. by case_match.
Qed.

(** The floor forces lock-in. *)
Lemma deployment_floor f k :
  lock_in_floor_height d = Z.of_nat (S f) * period d -> (0 < f)%nat ->
  start_time d <= mtp_at get hs (Z.to_nat (Z.of_nat f * period d - 1)) -> (S (S f) <= k)%nat ->
  exists a, (deployment_at get d hs k).2 = Some a /\ a <= Z.of_nat (S (S f)) * period d /\
    3 <= rank (deployment_at get d hs k).1.
Proof.
  intros Hf Hf0 Hm Hk.
  assert (H1 : 1 <= rank (deployment_at get d hs f).1).
  { destruct f as [|f]; [lia|]. cbn [deployment_at]. cbv zeta.
    destruct (deployment_at get d hs f) as [[] [a|]]; repeat case_match; cbn; try lia;
      match goal with Hx : _ >=? _ = false |- _ => rewrite Z.geb_leb in Hx; apply Z.leb_gt in Hx; lia end. }
  assert (H2 : 2 <= rank (deployment_at get d hs (S f)).1).
  { pose proof (deployment_rank_step f) as Hstep. revert H1 Hstep. cbn [deployment_at]. cbv zeta.
    rewrite Hf, Z.geb_leb, Z.geb_leb, Z.geb_leb, (Z.leb_refl (Z.of_nat (S f) * period d)), orb_true_r.
    destruct (deployment_at get d hs f) as [[] [a|]]; cbn; repeat case_match; cbn; lia. }
  assert (H3 : exists a, (deployment_at get d hs (S (S f))).2 = Some a /\ a <= Z.of_nat (S (S f)) * period d /\
    3 <= rank (deployment_at get d hs (S (S f))).1).
  { pose proof (deployment_schedule (S f)) as Hs. revert H2 Hs. cbn [deployment_at]. cbv zeta.
    set (st := match deployment_at get d hs f with (Defined, _) => _ | _ => _ end). clearbody st.
    destruct st as [[] a]; cbn [fst rank schedule]; try lia; intros _ Hs.
    - subst. eexists. cbn. split_and!; [reflexivity|lia|lia].
    - destruct Hs as (j & -> & Hle & _). destruct (_ >=? _); exists (j * period d); cbn; (split_and!; [done|nia|lia]).
    - destruct Hs as (j & -> & Hle & _). exists (j * period d). cbn. split_and!; [done|nia|lia]. }
  destruct H3 as (a & Ha & Hle & Hr). exists a. induction Hk as [|k Hk IH]; [done|].
  destruct IH as (Ha' & _ & Hr'). split_and!; [by apply deployment_activation_keeps|done|].
  pose proof (deployment_rank_step k). lia.
Qed.
End Schedule.

(** ** Theorems *)

Section Theorems.
Context `{TxLib} (get : header_lookup) (d : Bip110Deployment) (hs : list (hash256 * StoredHeader)).

(** C23: the BIP-110 state of a block is the plain period-by-period recursion
    over its ancestors: the memo table shared between branches, the early stop
    of the walk at the start time and the median-time fast path never change
    the answer, and the memo table stays correct. *)
Theorem bip110_state_exact (c : Bip110Checker) (n : nat) (x : hash256) (b : StoredHeader) :
  branch get hs -> keyed get -> valid_times get hs ->
  0 < period d -> Z.of_nat (length hs) + 2 * period d < 2 ^ 32 ->
  memo_ok get d c -> hs !! n = Some (x, b) ->
  exists c', memo_ok get d c' /\
    activation_for get c x (Z.of_nat (S n)) =
      (c', let '(s, a) := deployment_at get d hs (Z.to_nat (Z.of_nat (S n) / period d)) in mkActivation s a).
Proof. intros. by apply (activation_for_branch get d hs) with (b := b). Qed.

(** the rules are enforced in one window: a block that enforces them has
    an activation height that is a multiple of the period, and lies at or
    after it and before the end of the active duration. *)
Theorem bip110_enforcement_window (c : Bip110Checker) (n : nat) (x : hash256) (b : StoredHeader) :
  branch get hs -> keyed get -> valid_times get hs ->
  0 < period d -> Z.of_nat (length hs) + 2 * period d < 2 ^ 32 ->
  (period d | active_duration d) -> 0 < active_duration d ->
  memo_ok get d c -> hs !! n = Some (x, b) ->
  let a := (activation_for get c x (Z.of_nat (S n))).2 in
  enforcing a = true ->
  exists h, activation_height a = Some h /\ (period d | h) /\
    h <= Z.of_nat (S n) < h + active_duration d.
Proof.
  intros Hb Hk Ht Hp Hw [q Hq] Hd Hc Hn.
  destruct (activation_for_branch get d hs Hb Hk Ht Hp Hw c n x b Hc Hn) as (c' & _ & ->). cbn [snd].
  pose proof (deployment_schedule get d hs Hp (Z.to_nat (Z.of_nat (S n) / period d))) as Hs.
  pose proof (Z.mul_div_le (Z.of_nat (S n)) (period d) Hp). pose proof (Z.mul_succ_div_gt (Z.of_nat (S n)) (period d) Hp).
  pose proof (Z.div_pos (Z.of_nat (S n)) (period d) ltac:(lia) Hp).
  destruct (deployment_at get d hs _) as [s a]. intros [= ->]%bool_decide_eq_true. cbn [schedule activation_height] in *.
  destruct Hs as (j & -> & Hle & Hlt). exists (j * period d). split_and!; [done|by exists j|nia|].
  rewrite Z2Nat.id in Hle, Hlt by done. set (k := Z.of_nat (S n) / period d) in *. clearbody k.
  rewrite Hq in *. assert (k + 1 <= j + q); [|nia].
  destruct Hlt as [Heq|Hlt]; [apply Z.mul_cancel_r in Heq; nia|]. nia.
Qed.

(** the mandatory floor forces activation: if the deployment had started
    one period before the floor, every block from one period after the floor
    on is ACTIVE or EXPIRED, with an activation height no later than that. *)
Theorem bip110_forced_activation (c : Bip110Checker) (n f : nat) (x : hash256) (b : StoredHeader) :
  branch get hs -> keyed get -> valid_times get hs ->
  0 < period d -> Z.of_nat (length hs) + 2 * period d < 2 ^ 32 ->
  memo_ok get d c -> hs !! n = Some (x, b) ->
  lock_in_floor_height d = Z.of_nat (S f) * period d -> (0 < f)%nat ->
  start_time d <= mtp_at get hs (Z.to_nat (Z.of_nat f * period d - 1)) ->
  lock_in_floor_height d + period d <= Z.of_nat (S n) ->
  let a := (activation_for get c x (Z.of_nat (S n))).2 in
  (state a = Active \/ state a = Expired) /\
  exists h, activation_height a = Some h /\ h <= lock_in_floor_height d + period d.
Proof.
  intros Hb Hk Ht Hp Hw Hc Hn Hf Hf0 Hm Hh.
  destruct (activation_for_branch get d hs Hb Hk Ht Hp Hw c n x b Hc Hn) as (c' & _ & ->). cbn [snd].
  destruct (deployment_floor get d hs Hp f (Z.to_nat (Z.of_nat (S n) / period d)) Hf Hf0 Hm) as (h & Ha & Hle & Hr).
  { apply Nat2Z.inj_le. rewrite Z2Nat.id by (apply Z.div_pos; lia). apply Z.div_le_lower_bound; lia. }
  destruct (deployment_at get d hs _) as [s a]. cbn in Ha, Hr |- *. subst a.
  split; [destruct s; cbn in Hr; lia || auto|]. exists h. split; [done|lia].
Qed.
End Theorems.

(** ** The theorems at concrete inputs *)

Section Examples.
#[local] Existing Instance Sample.tx_lib.

(** Periods of two blocks; nobody signals and the floor is at height 8. *)
Definition ex_dep : Bip110Deployment := mkBip110Deployment 2 4 15 2 8 (6, 7) 4.

Definition ex_id (i : Z) : hash256 := [i; 10 * (i + 1)] ++ replicate 30 0.
Definition ex_block (i : Z) : StoredHeader :=
  mkStored (mkHeader 0x20000000 (ex_id (i - 1)) (replicate 32 0) (10 * (i + 1)) 0 i) i (replicate 32 0).
Definition ex_headers : header_lookup := fun x =>
  let i := default 0 (head x) in
  if (0 <=? i) && (i <? 12) && bool_decide (x = ex_id i) then Ok (Some (ex_block i)) else Ok None.
Definition ex_chain : list (hash256 * StoredHeader) := map (fun i => (ex_id (Z.of_nat i), ex_block (Z.of_nat i))) (seq 0 12).

Lemma ex_keyed : keyed ex_headers.
Proof.
  intros x b. unfold ex_headers. destruct (_ && _) eqn:Hx; [|done]. apply andb_prop in Hx as [Hr Hx%bool_decide_eq_true].
  intros [= <-]. split; [|cbn [ex_block sh_height]; lia]. rewrite Hx at 2. reflexivity.
Qed.

Lemma ex_chain_lookup i x b :
  ex_chain !! i = Some (x, b) -> (i < 12)%nat /\ x = ex_id (Z.of_nat i) /\ b = ex_block (Z.of_nat i).
Proof.
  unfold ex_chain. rewrite list_lookup_fmap_Some. intros (j & Hj & Hi). apply lookup_seq in Hi as [-> Hi].
  cbn [Nat.add] in Hj. by injection Hj as -> ->.
Qed.

Lemma ex_chain_branch : branch ex_headers ex_chain.
Proof.
  intros i x b Hi. apply ex_chain_lookup in Hi as (Hlt & -> & ->).
  do 12 (destruct i as [|i]; [split_and!; [vm_compute; reflexivity|reflexivity|intros j [= <-]; vm_compute; reflexivity]|]).
  lia.
Qed.

Lemma ex_chain_times : valid_times ex_headers ex_chain.
Proof.
  intros i x b m Hi. apply ex_chain_lookup in Hi as (Hlt & -> & ->).
  do 12 (destruct i as [|i]; [vm_compute; intros [= <-]; reflexivity|]). lia.
Qed.

Lemma ex_memo : memo_ok ex_headers ex_dep (checker_new ex_dep).
Proof. done. Qed.

Lemma bip110_state_exact_witness :
  exists c', memo_ok ex_headers ex_dep c' /\
    activation_for ex_headers (checker_new ex_dep) (ex_id 9) 10 = (c', mkActivation Active (Some 10)).
Proof.
  pose proof (bip110_state_exact ex_headers ex_dep ex_chain (checker_new ex_dep) 9 (ex_id 9) (ex_block 9)
    ex_chain_branch ex_keyed ex_chain_times eq_refl eq_refl ex_memo eq_refl) as Ht.
  exact Ht.
Defined.

Lemma bip110_enforcement_window_witness :
  ((period bip110_mainnet | active_duration bip110_mainnet) /\ 0 < active_duration bip110_mainnet) /\
  exists h, activation_height (activation_for ex_headers (checker_new ex_dep) (ex_id 10) 11).2 = Some h /\
    (2 | h) /\ h <= 11 < h + 4.
Proof.
  split; [split; [by exists 26|done]|].
  apply (bip110_enforcement_window ex_headers ex_dep ex_chain (checker_new ex_dep) 10 (ex_id 10) (ex_block 10)
    ex_chain_branch ex_keyed ex_chain_times eq_refl eq_refl); [by exists 2|done|apply ex_memo|done|vm_compute; reflexivity].
Defined.

Lemma bip110_forced_activation_witness :
  lock_in_floor_height bip110_mainnet = Z.of_nat 478 * period bip110_mainnet /\
  exists h, activation_height (activation_for ex_headers (checker_new ex_dep) (ex_id 10) 11).2 = Some h /\ h <= 10.
Proof.
  split; [done|].
  apply (bip110_forced_activation ex_headers ex_dep ex_chain (checker_new ex_dep) 10 3 (ex_id 10) (ex_block 10)
    ex_chain_branch ex_keyed ex_chain_times eq_refl eq_refl ex_memo eq_refl); [done|lia|vm_compute; done|done].
Defined.
End Examples.
