(* ===== verification/UtxoSet.v ===== *)
(** * The UTXO set

    [bitcoinpr-storage/src/utxo_set.rs]: the coin and undo record formats, the
    compact cache representation, and the write-back store made of a RocksDB
    database, a read cache and a write buffer.  Locks and the memory-usage
    reports are not modelled; the iteration orders of the hash maps are
    parameters. *)

From Stdlib Require Import ZArith Lia.
From stdpp Require Import base option numbers list gmap strings.
From S2P Require Import Prelude Bytes Types Store.

Definition CF_UTXO : string := "utxo".
Definition CF_UNDO : string := "undo".
Definition CF_META : string := "utxo_meta".

(** ** Records *)

Record UtxoEntry := mkUtxoEntry {
  amount : Z;
  entry_script : bytes;
  entry_height : Z;
  entry_coinbase : bool }.

#[global] Instance UtxoEntry_eq_dec : EqDecision UtxoEntry.
Proof. solve_decision. Defined.

Definition serialize_entry (e : UtxoEntry) : bytes :=
  to_le 8 (amount e) ++ to_le 4 (entry_height e) ++ [b2z (entry_coinbase e)]
  ++ to_le 4 (u32 (len (entry_script e))) ++ entry_script e.

Definition deserialize_entry (data : bytes) : StorageResult UtxoEntry :=
  _ ← guard_err (len data <? 17) (Serialization "UTXO entry too short");
  let script_len := from_le (take 4 (drop 13 data)) in
  _ ← guard_err (len data <? 17 + script_len) (Serialization "UTXO entry script truncated");
  Ok {| amount := from_le (take 8 data);
        entry_script := take (Z.to_nat script_len) (drop 17 data);
        entry_height := from_le (take 4 (drop 8 data));
        entry_coinbase := negb (default 0 (data !! 12%nat) =? 0) |}.

Definition outpoint_key (o : OutPoint) : bytes := op_txid o ++ to_le 4 (op_vout o).

(** [OutPoint::new(Txid::from_byte_array(key[0..32]), ..)] *)
Definition outpoint_of_key (key : bytes) : OutPoint :=
  mkOutPoint (take 32 key) (from_le (take 4 (drop 32 key))).

Record SpentUtxo := mkSpent { spent_outpoint : OutPoint; spent_entry : UtxoEntry }.

Record UndoData := mkUndo {
  spent_utxos : list SpentUtxo;
  created_outpoints : list OutPoint;
  prev_block_hash : option bytes }.

Record UtxoBatch := mkBatch {
  inserts : list (OutPoint * UtxoEntry);
  removals : list OutPoint;
  batch_spent : list SpentUtxo }.

Definition batch_new : UtxoBatch := mkBatch [] [] [].

(** ** Undo records *)

Definition serialize_spent (s : SpentUtxo) : bytes :=
  let entry_bytes := serialize_entry (spent_entry s) in
  outpoint_key (spent_outpoint s) ++ to_le 4 (u32 (len entry_bytes)) ++ entry_bytes.

(** The record [store_undo] buffers. *)
Definition serialize_undo (spent : list SpentUtxo) (created : list OutPoint) (prev_hash : bytes) : bytes :=
  to_le 4 (u32 (len spent)) ++ concat (map serialize_spent spent)
  ++ to_le 4 (u32 (len created)) ++ concat (map outpoint_key created) ++ prev_hash.

(** The loops of [deserialize_undo]; the list is [data[offset..]]. *)
Fixpoint read_spent (count : nat) (data : bytes) : StorageResult (list SpentUtxo * bytes) :=
  match count with
  | O => Ok ([], data)
  | S count =>
      _ ← guard_err (len data <? 36) (Serialization "undo data truncated");
      let outpoint := outpoint_of_key (take 36 data) in
      let data := drop 36 data in
      _ ← guard_err (len data <? 4) (Serialization "undo data truncated");
      let entry_len := from_le (take 4 data) in
      let data := drop 4 data in
      _ ← guard_err (len data <? entry_len) (Serialization "undo entry truncated");
      entry ← deserialize_entry (take (Z.to_nat entry_len) data);
      '(rest, data) ← read_spent count (drop (Z.to_nat entry_len) data);
      Ok (mkSpent outpoint entry :: rest, data)
  end.

Fixpoint read_created (count : nat) (data : bytes) : StorageResult (list OutPoint * bytes) :=
  match count with
  | O => Ok ([], data)
  | S count =>
      _ ← guard_err (len data <? 36) (Serialization "undo data: created outpoints truncated");
      '(rest, data') ← read_created count (drop 36 data);
      Ok (outpoint_of_key (take 36 data) :: rest, data')
  end.

Definition deserialize_undo (data : bytes) : StorageResult UndoData :=
  _ ← guard_err (len data <? 4) (Serialization "undo data too short");
  '(spent, data) ← read_spent (Z.to_nat (from_le (take 4 data))) (drop 4 data);
  if 4 <=? len data then
    '(created, data) ← read_created (Z.to_nat (from_le (take 4 data))) (drop 4 data);
    Ok (mkUndo spent created (if 32 <=? len data then Some (take 32 data) else None))
  else Ok (mkUndo spent [] None).

(** ** Cached coins *)

Definition INLINE_SCRIPT_MAX : nat := 36.

Inductive CoinScript : Type :=
| Inline (l : Z) (buf : bytes)
| Heap (b : bytes).

Definition coin_script_new (script : bytes) : CoinScript :=
  if (length script <=? INLINE_SCRIPT_MAX)%nat
  then Inline (u8 (len script)) (script ++ replicate (INLINE_SCRIPT_MAX - length script) 0)
  else Heap script.

Definition coin_script_bytes (s : CoinScript) : bytes :=
  match s with Inline l buf => take (Z.to_nat l) buf | Heap b => b end.

Record CompactCoin := mkCoin {
  coin_amount : Z;
  height_and_coinbase : Z;
  coin_script : CoinScript }.

Definition coin_new (e : UtxoEntry) : CompactCoin :=
  mkCoin (amount e) (Z.lor (u32 (Z.shiftl (entry_height e) 1)) (b2z (entry_coinbase e)))
    (coin_script_new (entry_script e)).

Definition to_entry (c : CompactCoin) : UtxoEntry :=
  mkUtxoEntry (coin_amount c) (coin_script_bytes (coin_script c))
    (Z.shiftr (height_and_coinbase c) 1) (negb (Z.land (height_and_coinbase c) 1 =? 0)).

(** ** The write-back store *)

Definition DEFAULT_CACHE_SIZE : Z := 2000000.
Definition DEFAULT_BLOCK_CACHE_MB : Z := 1024.
Definition FLUSH_INTERVAL : Z := 10000.
Definition DEFAULT_WRITE_BUFFER_BUDGET : Z := 256 * 1024 * 1024.
Definition INSERT_BASE_COST : Z := 36 + 17 + 64.
Definition DELETION_COST : Z := 36 + 48.
Definition UNDO_BASE_COST : Z := 32 + 48.
Definition CHUNK_TARGET_BYTES : Z := 128 * 1024 * 1024.

Definition insert_cost (e : UtxoEntry) : Z := INSERT_BASE_COST + len (entry_script e).

(** [Some e] is a pending insert, [None] a tombstone. *)
Record WriteBuffer := mkBuffer {
  entries : gmap bytes (option UtxoEntry);
  insert_count : Z;
  deletion_count : Z;
  undo_buffer : list (bytes * bytes);
  buffer_bytes : Z;
  blocks_since_flush : Z;
  pending_flush_height : option Z;
  pending_flush_hash : option bytes }.

Definition buffer_new : WriteBuffer := mkBuffer ∅ 0 0 [] 0 0 None None.

Definition buffer_is_empty (wb : WriteBuffer) : bool := bool_decide (entries wb = ∅).

(** The iteration orders of [HashMap] and [DashMap]. *)
Class MapIter := {
  iter_entries : gmap bytes (option UtxoEntry) -> list (bytes * option UtxoEntry);
  iter_cache : gmap bytes CompactCoin -> list bytes }.

Class MapIterLaws `{MapIter} := { iter_entries_perm m : iter_entries m ≡ₚ map_to_list m }.

Section Store.
Context `{RocksDb} `{MapIter}.

Record UtxoSet := mkUtxoSet {
  us_db : DB;
  cache : gmap bytes CompactCoin;
  cache_capacity : Z;
  write_buffer : WriteBuffer;
  write_buffer_budget : Z }.

Abbreviation U := (stm UtxoSet StorageError).

Definition set_db (u : UtxoSet) (d : DB) : UtxoSet :=
  mkUtxoSet d (cache u) (cache_capacity u) (write_buffer u) (write_buffer_budget u).
Definition set_cache (u : UtxoSet) (c : gmap bytes CompactCoin) : UtxoSet :=
  mkUtxoSet (us_db u) c (cache_capacity u) (write_buffer u) (write_buffer_budget u).
Definition set_buffer (u : UtxoSet) (wb : WriteBuffer) : UtxoSet :=
  mkUtxoSet (us_db u) (cache u) (cache_capacity u) wb (write_buffer_budget u).

Definition update_cache (f : gmap bytes CompactCoin -> gmap bytes CompactCoin) : U unit :=
  modify (fun u => set_cache u (f (cache u))).
Definition update_buffer (f : WriteBuffer -> WriteBuffer) : U unit :=
  modify (fun u => set_buffer u (f (write_buffer u))).

(** [self.cf(name)?] *)
Definition cf (name : string) : U unit :=
  fun u => (u, guard_err (negb (cf_handle (us_db u) name)) (MissingColumnFamily name)).
Definition db_get (name : string) (key : bytes) : U (option bytes) :=
  fun u => (u, get_cf (us_db u) name key).
Definition db_write (ops : list batch_op) : U unit :=
  fun u => let '(d, r) := write (us_db u) ops in (set_db u d, r).

(** The memory budget of [open]: block cache, cache entries, write buffer. *)
Definition split_dbcache (dbcache_mb : option Z) : Z * Z * Z :=
  match dbcache_mb with
  | Some mb =>
      let total := mb * 1024 * 1024 in
      (total * 25 / 100, total * 15 / 100 / 135, total * 60 / 100)
  | None => (DEFAULT_BLOCK_CACHE_MB * 1024 * 1024, DEFAULT_CACHE_SIZE, DEFAULT_WRITE_BUFFER_BUDGET)
  end.

(** [open] on an opened database. *)
Definition utxo_open (d : DB) (dbcache_mb : option Z) : UtxoSet :=
  let '(_, lru_entries, wb) := split_dbcache dbcache_mb in
  mkUtxoSet d ∅ lru_entries buffer_new wb.

Definition from_db (d : DB) : UtxoSet :=
  mkUtxoSet d ∅ DEFAULT_CACHE_SIZE buffer_new DEFAULT_WRITE_BUFFER_BUDGET.

Definition utxo_get (outpoint : OutPoint) : U (option UtxoEntry) :=
  let key := outpoint_key outpoint in
  buffered ← gets (fun u => entries (write_buffer u) !! key);
  match buffered with
  | Some o => mret o
  | None =>
      cached ← gets (fun u => cache u !! key);
      match cached with
      | Some c => mret (Some (to_entry c))
      | None =>
          _ ← cf CF_UTXO;
          data ← db_get CF_UTXO key;
          match data with
          | Some data =>
              entry ← lift (deserialize_entry data);
              _ ← update_cache (fun c => <[key := coin_new entry]> c);
              mret (Some entry)
          | None => mret None
          end
      end
  end.

Definition utxo_contains (outpoint : OutPoint) : U bool :=
  let key := outpoint_key outpoint in
  buffered ← gets (fun u => entries (write_buffer u) !! key);
  match buffered with
  | Some None => mret false
  | Some (Some _) => mret true
  | None =>
      cached ← gets (fun u => cache u !! key);
      match cached with
      | Some _ => mret true
      | None =>
          _ ← cf CF_UTXO;
          data ← db_get CF_UTXO key;
          mret (bool_decide (is_Some data))
      end
  end.

(** One result of the batched read; read errors are skipped. *)
Definition prefetch_key (_ : unit) (key : bytes) : U unit :=
  d ← gets us_db;
  match get_cf d CF_UTXO key with
  | Ok (Some data) =>
      match deserialize_entry data with
      | Ok entry => update_cache (fun c => <[key := coin_new entry]> c)
      | Err _ => mret tt
      end
  | _ => mret tt
  end.

Definition prefetch (outpoints : list OutPoint) : U unit :=
  disk_keys ← gets (fun u =>
    filter (fun key => entries (write_buffer u) !! key = None /\ cache u !! key = None)
      (map outpoint_key outpoints));
  match disk_keys with
  | [] => mret tt
  | _ => _ ← cf CF_UTXO; foldS prefetch_key tt disk_keys
  end.

Definition utxo_insert (outpoint : OutPoint) (entry : UtxoEntry) : U unit :=
  let key := outpoint_key outpoint in
  _ ← cf CF_UTXO;
  _ ← db_write [Put CF_UTXO key (serialize_entry entry)];
  update_cache (fun c => <[key := coin_new entry]> c).

Definition utxo_remove (outpoint : OutPoint) : U unit :=
  let key := outpoint_key outpoint in
  _ ← cf CF_UTXO;
  _ ← db_write [Delete CF_UTXO key];
  update_cache (fun c => delete key c).

(** *** Buffering a batch *)

Definition buffer_insert (wb : WriteBuffer) (i : OutPoint * UtxoEntry) : WriteBuffer :=
  let '(outpoint, entry) := i in
  let key := outpoint_key outpoint in
  let '(b, ins, del) :=
    match entries wb !! key with
    | Some (Some old) => (sat_sub (buffer_bytes wb) (insert_cost old), insert_count wb, deletion_count wb)
    | Some None => (sat_sub (buffer_bytes wb) DELETION_COST, insert_count wb + 1, deletion_count wb - 1)
    | None => (buffer_bytes wb, insert_count wb + 1, deletion_count wb)
    end in
  mkBuffer (<[key := Some entry]> (entries wb)) ins del (undo_buffer wb) (b + insert_cost entry)
    (blocks_since_flush wb) (pending_flush_height wb) (pending_flush_hash wb).

Definition buffer_remove (wb : WriteBuffer) (outpoint : OutPoint) : WriteBuffer :=
  let key := outpoint_key outpoint in
  let '(b, ins, del) :=
    match entries wb !! key with
    | Some (Some old) =>
        (sat_sub (buffer_bytes wb) (insert_cost old) + DELETION_COST, insert_count wb - 1, deletion_count wb + 1)
    | Some None => (buffer_bytes wb, insert_count wb, deletion_count wb)
    | None => (buffer_bytes wb + DELETION_COST, insert_count wb, deletion_count wb + 1)
    end in
  mkBuffer (<[key := None]> (entries wb)) ins del (undo_buffer wb) b
    (blocks_since_flush wb) (pending_flush_height wb) (pending_flush_hash wb).

Definition count_block (wb : WriteBuffer) : WriteBuffer :=
  mkBuffer (entries wb) (insert_count wb) (deletion_count wb) (undo_buffer wb) (buffer_bytes wb)
    (u32 (blocks_since_flush wb + 1)) (pending_flush_height wb) (pending_flush_hash wb).

Definition maybe_evict_cache : U unit :=
  modify (fun u =>
    let n := Z.of_nat (size (cache u)) in
    if n <=? cache_capacity u then u
    else
      let to_evict := Z.to_nat (n - cache_capacity u) in
      set_cache u (foldl (fun c k => delete k c) (cache u) (take to_evict (iter_cache (cache u))))).

(** *** Flushing *)

(** [put_cf] into the current chunk, which is written when it is full. *)
Definition chunk_put (acc : list batch_op * Z) (put : batch_op * Z) : U (list batch_op * Z) :=
  let '(rocks_batch, batch_bytes) := acc in
  let '(op, size) := put in
  let batch_bytes := batch_bytes + size in
  let rocks_batch := rocks_batch ++ [op] in
  if batch_bytes >=? CHUNK_TARGET_BYTES
  then _ ← db_write rocks_batch; mret ([], 0)
  else mret (rocks_batch, batch_bytes).

(** The pending inserts, with their sizes. *)
Definition insert_puts (l : list (bytes * option UtxoEntry)) : list (batch_op * Z) :=
  omap (fun '(key, e) =>
    match e with
    | Some e => let val := serialize_entry e in Some (Put CF_UTXO key val, 36 + len val)
    | None => None
    end) l.

Definition undo_puts (l : list (bytes * bytes)) : list (batch_op * Z) :=
  map (fun '(hash, data) => (Put CF_UNDO hash data, 32 + len data)) l.

Definition deletions (l : list (bytes * option UtxoEntry)) : list batch_op :=
  omap (fun '(key, e) => match e with None => Some (Delete CF_UTXO key) | Some _ => None end) l.

Definition meta_puts (wb : WriteBuffer) : list batch_op :=
  match pending_flush_height wb with
  | Some h => [Put CF_META (ascii_bytes "flush_height") (to_le 4 h)]
  | None => []
  end ++
  match pending_flush_hash wb with
  | Some h => [Put CF_META (ascii_bytes "flush_hash") h]
  | None => []
  end.

(** [for (key, entry) in wb.entries.drain()], stopping at the capacity. *)
Fixpoint promote (cap : Z) (l : list (bytes * option UtxoEntry)) (c : gmap bytes CompactCoin) : gmap bytes CompactCoin :=
  match l with
  | [] => c
  | (key, e) :: r =>
      if Z.of_nat (size c) >=? cap then c
      else promote cap r (match e with Some e => <[key := coin_new e]> c | None => c end)
  end.

Definition buffer_cleared (wb : WriteBuffer) : WriteBuffer :=
  mkBuffer ∅ 0 0 [] 0 0 (pending_flush_height wb) (pending_flush_hash wb).

Definition reset_blocks (wb : WriteBuffer) : WriteBuffer :=
  mkBuffer (entries wb) (insert_count wb) (deletion_count wb) (undo_buffer wb) (buffer_bytes wb)
    0 (pending_flush_height wb) (pending_flush_hash wb).

Definition flush_to_disk : U unit :=
  wb ← gets write_buffer;
  if buffer_is_empty wb && bool_decide (undo_buffer wb = []) && bool_decide (pending_flush_height wb = None)
  then update_buffer reset_blocks
  else
    _ ← cf CF_UTXO; _ ← cf CF_UNDO; _ ← cf CF_META;
    let l := iter_entries (entries wb) in
    acc ← foldS chunk_put ([], 0) (insert_puts l);
    acc ← foldS chunk_put acc (undo_puts (undo_buffer wb));
    _ ← db_write (acc.1 ++ deletions l ++ meta_puts wb);
    _ ← modify (fun u => set_cache u (promote (cache_capacity u) l (cache u)));
    update_buffer buffer_cleared.

(** [true] when the buffer was flushed. *)
Definition apply_batch (batch : UtxoBatch) : U bool :=
  _ ← update_buffer (fun wb => foldl buffer_insert wb (inserts batch));
  _ ← update_buffer (fun wb => foldl buffer_remove wb (removals batch));
  _ ← update_buffer count_block;
  should_flush ← gets (fun u =>
    (blocks_since_flush (write_buffer u) >=? FLUSH_INTERVAL)
    || (buffer_bytes (write_buffer u) >? write_buffer_budget u));
  _ ← update_cache (fun c => foldl (fun c o => delete (outpoint_key o) c) c (removals batch));
  _ ← maybe_evict_cache;
  if should_flush : bool then _ ← flush_to_disk; mret true else mret false.

Definition set_pending_flush_height (height : Z) (hash : bytes) : U unit :=
  update_buffer (fun wb =>
    mkBuffer (entries wb) (insert_count wb) (deletion_count wb) (undo_buffer wb) (buffer_bytes wb)
      (blocks_since_flush wb) (Some height) (Some hash)).

Definition get_flush_height : U (option Z) :=
  _ ← cf CF_META;
  data ← db_get CF_META (ascii_bytes "flush_height");
  match data with
  | Some d => if len d =? 4 then mret (Some (from_le d))
              else lift (Err (Serialization "flush_height has unexpected length"))
  | None => mret None
  end.

Definition get_flush_hash : U (option bytes) :=
  _ ← cf CF_META;
  data ← db_get CF_META (ascii_bytes "flush_hash");
  match data with
  | Some d => if len d =? 32 then mret (Some d)
              else lift (Err (Serialization "flush_hash has unexpected length"))
  | None => mret None
  end.

(** *** Undo data *)

Definition store_undo (block_hash : bytes) (spent : list SpentUtxo) (created : list OutPoint)
    (prev_hash : bytes) : U unit :=
  let buf := serialize_undo spent created prev_hash in
  update_buffer (fun wb =>
    mkBuffer (entries wb) (insert_count wb) (deletion_count wb) (undo_buffer wb ++ [(block_hash, buf)])
      (buffer_bytes wb + (UNDO_BASE_COST + len buf)) (blocks_since_flush wb)
      (pending_flush_height wb) (pending_flush_hash wb)).

(** The first buffered record of the block. *)
Definition find_undo (l : list (bytes * bytes)) (block_hash : bytes) : option bytes :=
  snd <$> head (filter (fun p => p.1 = block_hash) l).

Definition load_undo (block_hash : bytes) : U (option UndoData) :=
  buffered ← gets (fun u => find_undo (undo_buffer (write_buffer u)) block_hash);
  match buffered with
  | Some data => undo ← lift (deserialize_undo data); mret (Some undo)
  | None =>
      _ ← cf CF_UNDO;
      data ← db_get CF_UNDO block_hash;
      match data with
      | Some data => undo ← lift (deserialize_undo data); mret (Some undo)
      | None => mret None
      end
  end.

Definition delete_undo (block_hash : bytes) : U unit :=
  _ ← update_buffer (fun wb =>
    mkBuffer (entries wb) (insert_count wb) (deletion_count wb)
      (filter (fun p => p.1 <> block_hash) (undo_buffer wb)) (buffer_bytes wb)
      (blocks_since_flush wb) (pending_flush_height wb) (pending_flush_hash wb));
  _ ← cf CF_UNDO;
  db_write [Delete CF_UNDO block_hash].

(** The batch of [rollback_block]: deletions of the created outputs, then the
    spent coins. *)
Definition rollback_ops (undo : UndoData) : list batch_op :=
  map (fun o => Delete CF_UTXO (outpoint_key o)) (created_outpoints undo)
  ++ map (fun s => Put CF_UTXO (outpoint_key (spent_outpoint s)) (serialize_entry (spent_entry s))) (spent_utxos undo).

Definition rollback_cache (undo : UndoData) (c : gmap bytes CompactCoin) : gmap bytes CompactCoin :=
  let c := foldl (fun c o => delete (outpoint_key o) c) c (created_outpoints undo) in
  foldl (fun c s => <[outpoint_key (spent_outpoint s) := coin_new (spent_entry s)]> c) c (spent_utxos undo).

Definition rollback_block (block_hash : bytes) : U bytes :=
  undo ← load_undo block_hash;
  undo ← lift (ok_or undo (Serialization "no undo data for block"));
  prev_hash ← lift (ok_or (prev_block_hash undo)
    (Serialization "undo data missing prev_block_hash (old format)"));
  _ ← (if (length (created_outpoints undo) =? 0)%nat && (length (spent_utxos undo) =? 0)%nat then mret tt
       else
         _ ← cf CF_UTXO;
         _ ← update_cache (rollback_cache undo);
         db_write (rollback_ops undo));
  _ ← delete_undo block_hash;
  mret prev_hash.

(** [while current_height > target_height]; one iteration per height. *)
Fixpoint rollback_loop (n : nat) (current_hash : bytes) : U bytes :=
  match n with
  | O => mret current_hash
  | S n => prev ← rollback_block current_hash; rollback_loop n prev
  end.

Definition rollback_to (target_height : Z) : U unit :=
  _ ← flush_to_disk;
  h ← get_flush_height;
  current_height ← lift (ok_or h (Serialization "cannot rollback: no flush height stored"));
  h ← get_flush_hash;
  current_hash ← lift (ok_or h (Serialization "cannot rollback: no flush hash stored"));
  if current_height <=? target_height then mret tt
  else
    hash ← rollback_loop (Z.to_nat (current_height - target_height)) current_hash;
    _ ← cf CF_META;
    _ ← db_write [Put CF_META (ascii_bytes "flush_height") (to_le 4 target_height);
                  Put CF_META (ascii_bytes "flush_hash") hash];
    set_pending_flush_height target_height hash.
End Store.
