(* ===== verification/UtxoProofs.v ===== *)
(** * Properties of the UTXO set

    Record formats round-trip; the database, cache and write buffer together
    implement one map from outpoints to coins, whatever fails underneath; and
    a flush interrupted at any point leaves a database from which the blocks
    since the last flush can be replayed. *)

From Stdlib Require Import ZArith Lia.
From stdpp Require Import base option numbers list gmap strings.
From S2P Require Import Prelude Bytes Types Store UtxoSet.

(** ** Formats *)

(** The last bound leaves room for the entry in an undo record. *)
Definition entry_ok (e : UtxoEntry) : Prop :=
  fits 64 (amount e) /\ fits 31 (entry_height e) /\ bytes_ok (entry_script e) /\ len (entry_script e) < 2 ^ 32 - 17.

Definition outpoint_ok (o : OutPoint) : Prop :=
  length (op_txid o) = 32%nat /\ bytes_ok (op_txid o) /\ fits 32 (op_vout o).

Lemma from_to_le4 z : fits 32 z -> from_le (to_le 4 z) = z.
Proof. intros Hz. by apply from_to_le_small. Qed.

Lemma guard_lt_ok {E} a b (e : E) : b <= a -> guard_err (a <? b) e = Ok tt.
Proof. intros Hab. by rewrite (proj2 (Z.ltb_ge a b)). Qed.

Lemma take_le_app n z r : take n (to_le n z ++ r) = to_le n z.
Proof. apply take_app_length'. by rewrite length_to_le. Qed.
Lemma drop_le_app n z r : drop n (to_le n z ++ r) = r.
Proof. apply drop_app_length'. by rewrite length_to_le. Qed.

Lemma len_serialize_entry e : len (serialize_entry e) = 17 + len (entry_script e).
Proof. unfold serialize_entry. rewrite !len_app. unfold len. rewrite !length_to_le. cbn [length]. lia. Qed.

Lemma entry_roundtrip e :
  fits 64 (amount e) -> fits 32 (entry_height e) -> len (entry_script e) < 2 ^ 32 ->
  deserialize_entry (serialize_entry e) = Ok e.
Proof.
  intros Ha Hh Hs. unfold deserialize_entry. rewrite len_serialize_entry.
  pose proof (len_nonneg (entry_script e)) as Hn.
  rewrite (proj2 (Z.ltb_ge (17 + len (entry_script e)) 17)) by lia. cbn [guard_err mbind result_bind].
  unfold serialize_entry. set (s := entry_script e) in *.
  assert (Hd8 : drop 8 (to_le 8 (amount e) ++ to_le 4 (entry_height e) ++ [b2z (entry_coinbase e)] ++ to_le 4 (u32 (len s)) ++ s)
    = to_le 4 (entry_height e) ++ [b2z (entry_coinbase e)] ++ to_le 4 (u32 (len s)) ++ s) by apply (drop_le_app 8).
  set (d := to_le 8 _ ++ _) in *.
  assert (Hd12 : drop 12 d = b2z (entry_coinbase e) :: to_le 4 (u32 (len s)) ++ s).
  { replace 12%nat with (8 + 4)%nat by lia. rewrite <- drop_drop, Hd8. apply (drop_le_app 4). }
  assert (Hd13 : drop 13 d = to_le 4 (u32 (len s)) ++ s).
  { replace 13%nat with (12 + 1)%nat by lia. by rewrite <- drop_drop, Hd12. }
  assert (Hd17 : drop 17 d = s).
  { replace 17%nat with (13 + 4)%nat by lia. rewrite <- drop_drop, Hd13. apply (drop_le_app 4). }
  assert (H12 : d !! 12%nat = Some (b2z (entry_coinbase e))).
  { replace 12%nat with (12 + 0)%nat by lia. by rewrite <- lookup_drop, Hd12. }
  rewrite Hd13, Hd17, H12, Hd8, !take_le_app, (from_to_le4 (u32 _)) by (apply wrap_fits; lia).
  rewrite wrap_small by (unfold fits; lia). rewrite Z.ltb_irrefl. cbn [guard_err mbind result_bind].
  unfold d. rewrite take_le_app, from_to_le_small, from_to_le4, to_nat_len, firstn_all by done.
  destruct e as [a sc h []]; done.
Qed.

Lemma length_outpoint_key o : length (op_txid o) = 32%nat -> length (outpoint_key o) = 36%nat.
Proof. intros Ho. unfold outpoint_key. rewrite length_app, length_to_le, Ho. done. Qed.

Lemma outpoint_roundtrip o : outpoint_ok o -> outpoint_of_key (outpoint_key o) = o.
Proof.
  intros (Hl & _ & Hv). unfold outpoint_of_key, outpoint_key.
  rewrite take_app_length', drop_app_length' by done.
  rewrite <- (app_nil_r (to_le 4 (op_vout o))), take_le_app, from_to_le4 by done. by destruct o.
Qed.

(** [outpoint_key] is injective on well-formed outpoints. *)
Lemma outpoint_key_inj a b : outpoint_ok a -> outpoint_ok b -> outpoint_key a = outpoint_key b -> a = b.
Proof. intros Ha Hb Hk. rewrite <- (outpoint_roundtrip a Ha), <- (outpoint_roundtrip b Hb). by rewrite Hk. Qed.

Lemma coin_script_roundtrip s : coin_script_bytes (coin_script_new s) = s.
Proof.
  unfold coin_script_new. destruct (Nat.leb_spec (length s) INLINE_SCRIPT_MAX) as [Hl|Hl]; [|done].
  unfold INLINE_SCRIPT_MAX in Hl. cbn [coin_script_bytes].
  rewrite wrap_small by (unfold fits, len; lia). rewrite to_nat_len. apply take_app_length.
Qed.

Lemma lor_shift_bit h b : 0 <= h -> Z.lor (Z.shiftl h 1) (b2z b) = 2 * h + b2z b.
Proof.
  intros Hh. rewrite Z.shiftl_mul_pow2, Z.mul_comm by lia. change (2 ^ 1) with 2.
  destruct b; cbn [b2z]; [|by rewrite Z.lor_0_r, Z.add_0_r].
  destruct h; try lia; done.
Qed.

(** The cache representation is lossless for heights below [2^31]. *)
Lemma coin_roundtrip e : fits 31 (entry_height e) -> to_entry (coin_new e) = e.
Proof.
  intros Hh. unfold to_entry, coin_new. cbn [coin_amount coin_script height_and_coinbase].
  unfold fits in Hh. rewrite coin_script_roundtrip.
  rewrite wrap_small by (unfold fits; rewrite Z.shiftl_mul_pow2 by lia; lia).
  rewrite lor_shift_bit by lia.
  assert (Hs : Z.shiftr (2 * entry_height e + b2z (entry_coinbase e)) 1 = entry_height e).
  { rewrite Z.shiftr_div_pow2 by lia. change (2 ^ 1) with 2. symmetry.
    apply (Z.div_unique_pos _ _ _ (b2z (entry_coinbase e))); [destruct (entry_coinbase e); cbn; lia|lia]. }
  assert (Hb : Z.land (2 * entry_height e + b2z (entry_coinbase e)) 1 = b2z (entry_coinbase e)).
  { change 1 with (Z.ones 1). rewrite Z.land_ones by lia. change (2 ^ 1) with 2.
    rewrite Z.add_comm, Z.mul_comm, Z.mod_add by lia. by destruct (entry_coinbase e). }
  rewrite Hs, Hb. by destruct e as [a s h []].
Qed.

(** ** Undo records *)

Definition spent_ok (s : SpentUtxo) : Prop := outpoint_ok (spent_outpoint s) /\ entry_ok (spent_entry s).

Lemma entry_ok_roundtrip e : entry_ok e -> deserialize_entry (serialize_entry e) = Ok e.
Proof. intros (Ha & Hh & _ & Hs). apply entry_roundtrip; [done|by apply (fits_le 31)|lia]. Qed.

Lemma read_spent_serialized spent : forall rest,
  Forall spent_ok spent ->
  read_spent (length spent) (concat (map serialize_spent spent) ++ rest) = Ok (spent, rest).
Proof.
  induction spent as [|s spent IH]; intros rest Hs; [done|].
  apply Forall_cons in Hs as [(Ho & He & Hl) Hs]. cbn [length read_spent map concat].
  rewrite <- app_assoc. set (tail := concat _ ++ rest). set (eb := serialize_entry (spent_entry s)).
  pose proof (length_outpoint_key _ (proj1 Ho)) as Hk.
  assert (Heb : len eb = 17 + len (entry_script (spent_entry s))) by apply len_serialize_entry.
  pose proof (len_nonneg (entry_script (spent_entry s))). pose proof (len_nonneg tail).
  assert (Hd : serialize_spent s ++ tail = outpoint_key (spent_outpoint s) ++ to_le 4 (u32 (len eb)) ++ eb ++ tail)
    by (unfold serialize_spent; by rewrite <- !app_assoc).
  set (data := serialize_spent s ++ tail) in *.
  assert (Hlen : len data = 40 + len eb + len tail).
  { rewrite Hd, !len_app. unfold len at 1 2. rewrite Hk, length_to_le. lia. }
  assert (Hdrop : drop 36 data = to_le 4 (u32 (len eb)) ++ eb ++ tail) by (rewrite Hd; by apply drop_app_length').
  assert (Htake : take 36 data = outpoint_key (spent_outpoint s)) by (rewrite Hd; by apply take_app_length').
  rewrite (guard_lt_ok (len data) 36) by lia. cbn [mbind result_bind]. rewrite Htake, Hdrop.
  rewrite (guard_lt_ok (len (to_le 4 (u32 (len eb)) ++ eb ++ tail)) 4)
    by (rewrite !len_app; unfold len at 1; rewrite length_to_le; lia).
  cbn [mbind result_bind].
  rewrite take_le_app, drop_le_app, from_to_le4, wrap_small by (unfold fits; lia || (apply wrap_fits; lia)).
  rewrite (guard_lt_ok (len (eb ++ tail)) (len eb)) by (rewrite len_app; lia).
  cbn [mbind result_bind]. rewrite to_nat_len, take_app_length, drop_app_length.
  unfold eb. rewrite entry_ok_roundtrip by done. cbn [mbind result_bind]. unfold tail.
  rewrite IH by done. cbn [mbind result_bind]. rewrite outpoint_roundtrip by done. by destruct s.
Qed.

Lemma read_created_serialized created : forall rest,
  Forall outpoint_ok created ->
  read_created (length created) (concat (map outpoint_key created) ++ rest) = Ok (created, rest).
Proof.
  induction created as [|o created IH]; intros rest Hs; [done|].
  apply Forall_cons in Hs as [Ho Hs]. cbn [length read_created map concat]. rewrite <- app_assoc.
  pose proof (length_outpoint_key _ (proj1 Ho)) as Hk.
  rewrite len_app, guard_lt_ok by (pose proof (len_nonneg (concat (map outpoint_key created) ++ rest));
    unfold len at 1; rewrite Hk; lia).
  cbn [mbind result_bind]. rewrite take_app_length', drop_app_length' by done.
  rewrite IH by done. cbn [mbind result_bind]. by rewrite outpoint_roundtrip.
Qed.

Lemma undo_roundtrip_lemma spent created prev :
  Forall spent_ok spent -> Forall outpoint_ok created -> length prev = 32%nat ->
  len spent < 2 ^ 32 -> len created < 2 ^ 32 ->
  deserialize_undo (serialize_undo spent created prev) = Ok (mkUndo spent created (Some prev)).
Proof.
  intros Hs Hc Hp Hls Hlc. unfold deserialize_undo, serialize_undo.
  pose proof (len_nonneg spent). pose proof (len_nonneg created).
  assert (H4 : forall z r, len (to_le 4 z ++ r) = 4 + len r) by (intros; rewrite len_app; unfold len; by rewrite length_to_le).
  rewrite H4, guard_lt_ok by (match goal with |- _ <= 4 + len ?r => pose proof (len_nonneg r) end; lia).
  cbn [mbind result_bind]. rewrite take_le_app, drop_le_app.
  rewrite from_to_le4, wrap_small by (unfold fits; lia || (apply wrap_fits; lia)).
  rewrite to_nat_len, read_spent_serialized by done. cbn [mbind result_bind].
  rewrite H4, (proj2 (Z.leb_le _ _)) by (match goal with |- _ <= 4 + len ?r => pose proof (len_nonneg r) end; lia).
  rewrite take_le_app, drop_le_app.
  rewrite from_to_le4, wrap_small by (unfold fits; lia || (apply wrap_fits; lia)).
  rewrite to_nat_len, read_created_serialized by done. cbn [mbind result_bind].
  rewrite (proj2 (Z.leb_le 32 (len prev))) by (unfold len; lia). by rewrite firstn_all2 by lia.
Qed.

(** ** One map from outpoints to coins *)

Abbreviation coin_map := (bytes -> option UtxoEntry).

Section Store.
Context `{HR : RocksDb} `{HL : !RocksLaws} `{HM : MapIter} `{HI : !MapIterLaws}.
Implicit Types u : UtxoSet.

Definition disk_coin (d : DB) (k : bytes) : option UtxoEntry :=
  match contents d CF_UTXO k with
  | Some data => match deserialize_entry data with Ok e => Some e | Err _ => None end
  | None => None
  end.

(** The coin an outpoint key denotes: the buffer shadows the database. *)
Definition coins u (k : bytes) : option UtxoEntry :=
  match entries (write_buffer u) !! k with Some o => o | None => disk_coin (us_db u) k end.

Definition disk_ok (d : DB) : Prop :=
  forall k data, contents d CF_UTXO k = Some data -> exists e, data = serialize_entry e /\ entry_ok e.

Definition pending_ok (m : gmap bytes (option UtxoEntry)) : Prop :=
  forall k e, m !! k = Some (Some e) -> entry_ok e.

Definition counts_ok (wb : WriteBuffer) : Prop :=
  insert_count wb = Z.of_nat (size (omap id (entries wb) : gmap bytes UtxoEntry)) /\
  insert_count wb + deletion_count wb = Z.of_nat (size (entries wb)).

(** The cache holds only coins that exist, with their current value. *)
Definition cache_ok u : Prop := forall k c, cache u !! k = Some c -> coins u k = Some (to_entry c).

Definition utxo_inv u : Prop :=
  disk_ok (us_db u) /\ pending_ok (entries (write_buffer u)) /\ counts_ok (write_buffer u) /\ cache_ok u.

Lemma disk_coin_Some d k data :
  disk_ok d -> contents d CF_UTXO k = Some data ->
  exists e, deserialize_entry data = Ok e /\ disk_coin d k = Some e /\ entry_ok e /\ data = serialize_entry e.
Proof.
  intros Hd Hk. destruct (Hd k data Hk) as (e & -> & He). exists e.
  pose proof (entry_ok_roundtrip e He) as Hr. split_and!; [done| |done|done].
  unfold disk_coin. by rewrite Hk, Hr.
Qed.

Lemma disk_coin_None d k : contents d CF_UTXO k = None -> disk_coin d k = None.
Proof. intros Hk. unfold disk_coin. by rewrite Hk. Qed.

(** *** Reading *)

Lemma wp_cf name (Q : UtxoSet -> StorageResult unit -> Prop) u :
  (forall r, Q u r) -> wp (cf name) Q u.
Proof. intros HQ. apply HQ. Qed.

Lemma wp_db_get name k (Q : UtxoSet -> StorageResult (option bytes) -> Prop) u :
  Q u (Ok (contents (us_db u) name k)) -> (forall e, Q u (Err e)) -> wp (db_get name k) Q u.
Proof.
  intros Hok Herr. unfold wp, db_get. cbn. destruct (get_cf (us_db u) name k) as [v|e] eqn:Hg; [|done].
  by rewrite (get_cf_contents _ _ _ _ Hg).
Qed.

(** Caching a coin read from disk. *)
Lemma cache_insert_inv u k e :
  utxo_inv u -> entries (write_buffer u) !! k = None -> disk_coin (us_db u) k = Some e -> entry_ok e ->
  utxo_inv (set_cache u (<[k := coin_new e]> (cache u))).
Proof.
  intros (Hd & Hp & Hc & Hcache) Hk He Hok. split_and!; [done|done|done|].
  intros k' c Hk'. change (coins u k' = Some (to_entry c)). cbn in Hk'.
  destruct (decide (k' = k)) as [->|Hne].
  - rewrite lookup_insert_eq in Hk'. simplify_eq. unfold coins. rewrite Hk, He.
    rewrite coin_roundtrip; [done|apply Hok].
  - rewrite lookup_insert_ne in Hk' by done. by apply Hcache.
Qed.

(** What a read-only operation may change. *)
Definition same_view u u' : Prop :=
  us_db u' = us_db u /\ write_buffer u' = write_buffer u /\ forall k, coins u' k = coins u k.

Lemma same_view_refl u : same_view u u.
Proof. done. Qed.

Lemma same_view_cache u c : same_view u (set_cache u c).
Proof. done. Qed.

Lemma utxo_get_spec o u :
  utxo_inv u ->
  wp (utxo_get o) (fun u' r => utxo_inv u' /\ same_view u u' /\
    forall x, r = Ok x -> x = coins u (outpoint_key o)) u.
Proof.
  intros Hinv. pose proof Hinv as (Hd & Hp & Hc & Hcache). unfold utxo_get. cbv zeta. set (k := outpoint_key o).
  apply wp_bind, wp_gets. destruct (entries (write_buffer u) !! k) as [x|] eqn:Hb.
  { apply wp_ret. split_and!; [done..|]. intros y [= <-]. unfold coins. by rewrite Hb. }
  apply wp_bind, wp_gets. destruct (cache u !! k) as [c|] eqn:Hcc.
  { apply wp_ret. split_and!; [done..|]. intros y [= <-]. by rewrite (Hcache _ _ Hcc). }
  apply wp_bind, wp_cf. intros [[]|e]; [|done].
  apply wp_bind, wp_db_get; [|done]. destruct (contents (us_db u) CF_UTXO k) as [data|] eqn:Hdata.
  - destruct (disk_coin_Some _ _ _ Hd Hdata) as (e & He & Hdisk & Hok & _). rewrite He.
    apply wp_bind, wp_lift. apply wp_bind, wp_modify, wp_ret.
    split_and!; [by apply cache_insert_inv|done..|]. intros y [= <-]. unfold coins. by rewrite Hb.
  - apply wp_ret. split_and!; [done..|]. intros y [= <-]. unfold coins. by rewrite Hb, disk_coin_None.
Qed.

Lemma utxo_contains_spec o u :
  utxo_inv u ->
  wp (utxo_contains o) (fun u' r => u' = u /\
    forall b, r = Ok b -> b = bool_decide (is_Some (coins u (outpoint_key o)))) u.
Proof.
  intros (Hd & Hp & Hc & Hcache). unfold utxo_contains. cbv zeta. set (k := outpoint_key o).
  apply wp_bind, wp_gets. destruct (entries (write_buffer u) !! k) as [[x|]|] eqn:Hb.
  - apply wp_ret. split; [done|]. intros y [= <-]. unfold coins. by rewrite Hb.
  - apply wp_ret. split; [done|]. intros y [= <-]. unfold coins. by rewrite Hb.
  - apply wp_bind, wp_gets. destruct (cache u !! k) as [c|] eqn:Hcc.
    { apply wp_ret. split; [done|]. intros y [= <-]. by rewrite (Hcache _ _ Hcc). }
    apply wp_bind, wp_cf. intros [[]|e]; [|done].
    apply wp_bind, wp_db_get; [|done]. apply wp_ret. split; [done|]. intros y [= <-].
    unfold coins. rewrite Hb. destruct (contents (us_db u) CF_UTXO k) as [data|] eqn:Hdata.
    + destruct (disk_coin_Some _ _ _ Hd Hdata) as (e & _ & -> & _). done.
    + by rewrite disk_coin_None.
Qed.

Lemma prefetch_spec os u :
  utxo_inv u -> wp (prefetch os) (fun u' _ => utxo_inv u' /\ same_view u u') u.
Proof.
  intros Hinv. unfold prefetch. apply wp_bind, wp_gets.
  set (keys := filter _ _). assert (Hkeys : forall k, k ∈ keys -> entries (write_buffer u) !! k = None).
  { intros k Hk. apply list_elem_of_filter in Hk. tauto. }
  clearbody keys. destruct keys as [|k0 keys]; [by apply wp_ret|].
  apply wp_bind, wp_cf. intros [[]|e]; [|done].
  apply (wp_foldS (fun u' _ => utxo_inv u' /\ same_view u u')); [|done].
  intros [] k u' Hk (Hinv' & Hdb & Hwb & Hv). unfold prefetch_key. apply wp_bind, wp_gets.
  destruct (get_cf (us_db u') CF_UTXO k) as [[data|]|] eqn:Hg; [|by apply wp_ret..].
  pose proof (get_cf_contents _ _ _ _ Hg) as Hdata. symmetry in Hdata.
  destruct (disk_coin_Some _ _ _ (proj1 Hinv') Hdata) as (e & He & Hdisk & Hok & _). rewrite He.
  apply wp_modify. split; [|done]. apply cache_insert_inv; [done| |done|done]. rewrite Hwb. by apply Hkeys.
Qed.

(** *** Buffering *)

Definition spec_insert (m : coin_map) (i : OutPoint * UtxoEntry) : coin_map := fun k =>
  if bool_decide (k = outpoint_key i.1) then Some i.2 else m k.
Definition spec_remove (m : coin_map) (o : OutPoint) : coin_map := fun k =>
  if bool_decide (k = outpoint_key o) then None else m k.
Definition spec_batch (m : coin_map) (b : UtxoBatch) : coin_map :=
  foldl spec_remove (foldl spec_insert m (inserts b)) (removals b).

(** The map denoted by buffered entries over a base map. *)
Definition overlay (m : gmap bytes (option UtxoEntry)) (base : coin_map) : coin_map := fun k =>
  match m !! k with Some o => o | None => base k end.

Lemma buffer_insert_entries wb i :
  entries (buffer_insert wb i) = <[outpoint_key i.1 := Some i.2]> (entries wb) /\
  undo_buffer (buffer_insert wb i) = undo_buffer wb /\
  pending_flush_height (buffer_insert wb i) = pending_flush_height wb /\
  pending_flush_hash (buffer_insert wb i) = pending_flush_hash wb.
Proof. destruct i as [o e]. unfold buffer_insert. by repeat case_match. Qed.

Lemma buffer_remove_entries wb o :
  entries (buffer_remove wb o) = <[outpoint_key o := None]> (entries wb) /\
  undo_buffer (buffer_remove wb o) = undo_buffer wb /\
  pending_flush_height (buffer_remove wb o) = pending_flush_height wb /\
  pending_flush_hash (buffer_remove wb o) = pending_flush_hash wb.
Proof. unfold buffer_remove. by repeat case_match. Qed.

Lemma size_insert_Some {A} (m : gmap bytes A) k x y : m !! k = Some y -> size (<[k := x]> m) = size m.
Proof. intros Hk. apply map_size_insert_Some. eauto. Qed.

Lemma omap_lookup (m : gmap bytes (option UtxoEntry)) k :
  (omap id m : gmap bytes UtxoEntry) !! k = m !! k ≫= id.
Proof. apply lookup_omap. Qed.

Lemma size_delete_Some {A} (m : gmap bytes A) k y :
  m !! k = Some y -> Z.of_nat (size (delete k m)) = Z.of_nat (size m) - 1.
Proof.
  intros Hk. rewrite map_size_delete_Some by eauto.
  destruct (size m) eqn:Hs; [|lia]. apply map_size_empty_inv in Hs. subst. by rewrite lookup_empty in Hk.
Qed.

Lemma counts_insert wb i : counts_ok wb -> counts_ok (buffer_insert wb i).
Proof.
  destruct i as [o e]. intros [Hi Hd]. unfold counts_ok, buffer_insert. set (k := outpoint_key o).
  assert (Ho : (omap id (<[k := Some e]> (entries wb)) : gmap bytes UtxoEntry) = <[k := e]> (omap id (entries wb))).
  { by rewrite (omap_insert_Some _ _ _ (Some e) e). }
  destruct (entries wb !! k) as [[old|]|] eqn:Hk; cbn [entries insert_count deletion_count]; rewrite Ho.
  - rewrite (size_insert_Some (omap id (entries wb)) k e old) by (by rewrite omap_lookup, Hk).
    by rewrite (size_insert_Some _ _ _ (Some old)).
  - rewrite (map_size_insert_None k e (omap id (entries wb))) by (by rewrite omap_lookup, Hk).
    rewrite (size_insert_Some _ _ _ None) by done. lia.
  - rewrite (map_size_insert_None k e (omap id (entries wb))) by (by rewrite omap_lookup, Hk).
    rewrite map_size_insert_None by done. lia.
Qed.

Lemma counts_remove wb o : counts_ok wb -> counts_ok (buffer_remove wb o).
Proof.
  intros [Hi Hd]. unfold counts_ok, buffer_remove. set (k := outpoint_key o).
  assert (Ho : (omap id (<[k := None]> (entries wb)) : gmap bytes UtxoEntry) = delete k (omap id (entries wb))).
  { by rewrite (omap_insert_None _ _ _ None). }
  destruct (entries wb !! k) as [[old|]|] eqn:Hk; cbn [entries insert_count deletion_count]; rewrite Ho.
  - rewrite (size_delete_Some _ _ old) by (by rewrite omap_lookup, Hk).
    rewrite (size_insert_Some _ _ _ (Some old)) by done. lia.
  - rewrite delete_id by (by rewrite omap_lookup, Hk). by rewrite (size_insert_Some _ _ _ None).
  - rewrite delete_id by (by rewrite omap_lookup, Hk). rewrite map_size_insert_None by done. lia.
Qed.

(** Buffering the inserts and then the removals of a batch. *)
Definition buffered (wb : WriteBuffer) (b : UtxoBatch) : WriteBuffer :=
  count_block (foldl buffer_remove (foldl buffer_insert wb (inserts b)) (removals b)).

Lemma overlay_insert m base k o k' :
  overlay (<[k := o]> m) base k' = if bool_decide (k' = k) then o else overlay m base k'.
Proof.
  unfold overlay. case_bool_decide as Hk; [subst; by rewrite lookup_insert_eq|by rewrite lookup_insert_ne].
Qed.

Lemma foldl_insert_overlay l base : forall wb k,
  overlay (entries (foldl buffer_insert wb l)) base k = foldl spec_insert (overlay (entries wb) base) l k.
Proof.
  induction l as [|i l IH]; intros wb k; cbn [foldl]; [done|]. rewrite IH.
  destruct (buffer_insert_entries wb i) as (-> & _).
  assert (Hext : forall (m m' : coin_map), (forall k, m k = m' k) -> foldl spec_insert m l k = foldl spec_insert m' l k).
  { clear. revert k. induction l as [|j l IH]; intros k m m' Hm; cbn; [done|]. apply IH. intros x.
    unfold spec_insert. by rewrite Hm. }
  apply Hext. intros x. rewrite overlay_insert. done.
Qed.

Lemma foldl_remove_overlay l base : forall wb k,
  overlay (entries (foldl buffer_remove wb l)) base k = foldl spec_remove (overlay (entries wb) base) l k.
Proof.
  induction l as [|i l IH]; intros wb k; cbn [foldl]; [done|]. rewrite IH.
  destruct (buffer_remove_entries wb i) as (-> & _).
  assert (Hext : forall (m m' : coin_map), (forall k, m k = m' k) -> foldl spec_remove m l k = foldl spec_remove m' l k).
  { clear. revert k. induction l as [|j l IH]; intros k m m' Hm; cbn; [done|]. apply IH. intros x.
    unfold spec_remove. by rewrite Hm. }
  apply Hext. intros x. rewrite overlay_insert. done.
Qed.

Lemma spec_insert_fold_other l : forall (m : coin_map) k,
  (forall i, i ∈ l -> outpoint_key i.1 <> k) -> foldl spec_insert m l k = m k.
Proof.
  induction l as [|i l IH]; intros m k Hk; cbn [foldl]; [done|].
  rewrite IH by (intros j Hj; apply Hk; by right). unfold spec_insert.
  rewrite bool_decide_eq_false_2; [done|]. intros ->. by apply (Hk i); [left|].
Qed.

Lemma spec_remove_fold l : forall (m : coin_map) k,
  foldl spec_remove m l k = if bool_decide (k ∈ map outpoint_key l) then None else m k.
Proof.
  induction l as [|o l IH]; intros m k; cbn [foldl map]; [done|]. rewrite IH. unfold spec_remove.
  destruct (decide (k = outpoint_key o)) as [->|Hne].
  - rewrite (bool_decide_eq_true_2 (outpoint_key o ∈ _ :: _)) by by left.
    rewrite (bool_decide_eq_true_2 (outpoint_key o = _)) by done. by destruct (bool_decide _).
  - rewrite (bool_decide_eq_false_2 (k = _)) by done.
    rewrite (bool_decide_ext (k ∈ map outpoint_key l) (k ∈ outpoint_key o :: map outpoint_key l)); [done|].
    rewrite elem_of_cons. tauto.
Qed.

Lemma overlay_buffered wb b base k :
  overlay (entries (buffered wb b)) base k = spec_batch (overlay (entries wb) base) b k.
Proof.
  unfold buffered, spec_batch. cbn [count_block entries]. rewrite foldl_remove_overlay, !spec_remove_fold.
  by rewrite foldl_insert_overlay.
Qed.

Lemma foldl_buffer_ok l wb :
  Forall (fun i => entry_ok i.2) l -> pending_ok (entries wb) -> counts_ok wb ->
  pending_ok (entries (foldl buffer_insert wb l)) /\ counts_ok (foldl buffer_insert wb l).
Proof.
  intros Hl. revert wb. induction Hl as [|i l Hi _ IH]; intros wb Hp Hc; cbn [foldl]; [done|].
  apply IH; [|by apply counts_insert]. destruct (buffer_insert_entries wb i) as (-> & _).
  intros k e. destruct (decide (k = outpoint_key i.1)) as [->|Hne].
  - rewrite lookup_insert_eq. by intros [= <-].
  - rewrite lookup_insert_ne by done. apply Hp.
Qed.

Lemma foldl_remove_ok l wb :
  pending_ok (entries wb) -> counts_ok wb ->
  pending_ok (entries (foldl buffer_remove wb l)) /\ counts_ok (foldl buffer_remove wb l).
Proof.
  revert wb. induction l as [|o l IH]; intros wb Hp Hc; cbn [foldl]; [done|].
  apply IH; [|by apply counts_remove]. destruct (buffer_remove_entries wb o) as (-> & _).
  intros k e. destruct (decide (k = outpoint_key o)) as [->|Hne].
  - rewrite lookup_insert_eq. by intros [=].
  - rewrite lookup_insert_ne by done. apply Hp.
Qed.

(** *** Flushing *)

Lemma elem_of_insert_puts (op : batch_op) l :
  op ∈ (insert_puts l).*1 <-> exists k e, (k, Some e) ∈ l /\ op = Put CF_UTXO k (serialize_entry e).
Proof.
  rewrite list_elem_of_fmap. split.
  - intros ([o n] & -> & Hin). apply list_elem_of_omap in Hin as ([k [e|]] & Hin & [= <- <-]). eauto.
  - intros (k & e & Hin & ->). eexists (_, _). split; [done|].
    apply list_elem_of_omap. eexists. split; [exact Hin|done].
Qed.

Lemma elem_of_undo_puts (op : batch_op) l : op ∈ (undo_puts l).*1 -> op_cf op = CF_UNDO.
Proof.
  intros ([o n] & -> & Hin)%list_elem_of_fmap. unfold undo_puts in Hin.
  apply list_elem_of_fmap in Hin as ([h d] & [= -> ->] & _). done.
Qed.

Lemma elem_of_deletions (op : batch_op) l :
  op ∈ deletions l <-> exists k, (k, None) ∈ l /\ op = Delete CF_UTXO k.
Proof.
  unfold deletions. rewrite list_elem_of_omap. split.
  - intros ([k [e|]] & Hin & [= <-]). eauto.
  - intros (k & Hin & ->). by exists (k, None).
Qed.

Lemma elem_of_meta_puts (op : batch_op) wb : op ∈ meta_puts wb -> op_cf op = CF_META.
Proof.
  unfold meta_puts. destruct (pending_flush_height wb), (pending_flush_hash wb); cbn [app];
    rewrite ?elem_of_cons, ?elem_of_nil; naive_solver.
Qed.

Definition all_puts (wb : WriteBuffer) : list batch_op :=
  (insert_puts (iter_entries (entries wb)) ++ undo_puts (undo_buffer wb)).*1.
Definition flush_ops (wb : WriteBuffer) : list batch_op :=
  all_puts wb ++ deletions (iter_entries (entries wb)) ++ meta_puts wb.

Lemma elem_of_iter m k o : (k, o) ∈ iter_entries m <-> m !! k = Some o.
Proof. rewrite (iter_entries_perm m). apply elem_of_map_to_list. Qed.

(** Puts into the coin family come from pending inserts. *)
Lemma all_puts_utxo wb op :
  op ∈ all_puts wb -> op_cf op = CF_UTXO ->
  exists e, entries wb !! op_key op = Some (Some e) /\ op_value op = Some (serialize_entry e).
Proof.
  unfold all_puts. rewrite fmap_app, elem_of_app. intros [Hin|Hin] Hcf.
  - apply elem_of_insert_puts in Hin as (k & e & Hin & ->). exists e. split; [|done]. by apply elem_of_iter.
  - apply elem_of_undo_puts in Hin. by rewrite Hin in Hcf.
Qed.

Lemma all_puts_meta wb op : op ∈ all_puts wb -> op_cf op <> CF_META.
Proof.
  unfold all_puts. rewrite fmap_app, elem_of_app. intros [Hin|Hin].
  - apply elem_of_insert_puts in Hin as (k & e & _ & ->). done.
  - apply elem_of_undo_puts in Hin. by rewrite Hin.
Qed.

(** A complete flush. *)
Lemma flush_ops_utxo c wb k :
  apply_ops c (flush_ops wb) CF_UTXO k =
  match entries wb !! k with
  | Some (Some e) => Some (serialize_entry e)
  | Some None => None
  | None => c CF_UTXO k
  end.
Proof.
  assert (Hops : forall o, o ∈ flush_ops wb -> op_cf o = CF_UTXO -> op_key o = k ->
    entries wb !! k = Some (match op_value o with None => None | Some _ => default None (entries wb !! k) end) /\
    op_value o = match entries wb !! k with Some (Some e) => Some (serialize_entry e) | _ => None end).
  { intros o Ho Hcf Hk. unfold flush_ops in Ho. rewrite !elem_of_app in Ho. destruct Ho as [Ho|[Ho|Ho]].
    - destruct (all_puts_utxo _ _ Ho Hcf) as (e & He & Hv). rewrite Hk in He. rewrite He, Hv. done.
    - apply elem_of_deletions in Ho as (k' & Hin & ->). cbn in Hk. subst k'. apply elem_of_iter in Hin.
      by rewrite Hin.
    - apply elem_of_meta_puts in Ho. by rewrite Ho in Hcf. }
  destruct (entries wb !! k) as [[e|]|] eqn:Hk.
  - apply apply_ops_agree.
    + exists (Put CF_UTXO k (serialize_entry e)). split_and!; [|done..]. unfold flush_ops, all_puts.
      rewrite fmap_app, !elem_of_app. left. left. apply elem_of_insert_puts. exists k, e.
      split; [by apply elem_of_iter|done].
    + intros o Ho Hcf Hko. by destruct (Hops o Ho Hcf Hko) as [_ ->].
  - apply apply_ops_agree.
    + exists (Delete CF_UTXO k). split_and!; [|done..]. unfold flush_ops. rewrite !elem_of_app.
      right. left. apply elem_of_deletions. exists k. split; [by apply elem_of_iter|done].
    + intros o Ho Hcf Hko. by destruct (Hops o Ho Hcf Hko) as [_ ->].
  - apply apply_ops_other. apply Forall_forall. intros o Ho [Hcf Hko].
    destruct (Hops o Ho Hcf Hko) as [Hbad _]. done.
Qed.

(** An interrupted flush: some puts happened, nothing was deleted and the
    recorded height did not move. *)
Lemma prefix_utxo c wb w k :
  w `prefix_of` all_puts wb ->
  apply_ops c w CF_UTXO k = c CF_UTXO k \/
  exists e, entries wb !! k = Some (Some e) /\ apply_ops c w CF_UTXO k = Some (serialize_entry e).
Proof.
  intros [r Hr]. destruct (apply_ops_cases c w CF_UTXO k) as [|(o & Ho & Hcf & Hk & Hv)]; [by left|right].
  assert (Ho' : o ∈ all_puts wb) by (rewrite Hr; apply elem_of_app; by left).
  destruct (all_puts_utxo _ _ Ho' Hcf) as (e & He & Hve). exists e. rewrite Hk in He. split; [done|congruence].
Qed.

Lemma prefix_meta c wb w k : w `prefix_of` all_puts wb -> apply_ops c w CF_META k = c CF_META k.
Proof.
  intros [r Hr]. apply apply_ops_other. apply Forall_forall. intros o Ho [Hcf _].
  apply (all_puts_meta wb o); [|done]. rewrite Hr. apply elem_of_app. by left.
Qed.

(** The state after writing the prefix [w] of the puts. *)
Definition wrote u (w : list batch_op) u' : Prop :=
  (exists d, u' = set_db u d) /\
  (forall c k, contents (us_db u') c k = apply_ops (contents (us_db u)) w c k).

Lemma wrote_nil u : wrote u [] u.
Proof. split; [|done]. exists (us_db u). by destruct u. Qed.

Lemma db_write_wrote u w ops u' :
  wrote u w u' ->
  wp (db_write ops) (fun u'' r => match r with Ok _ => wrote u (w ++ ops) u'' | Err _ => wrote u w u'' end) u'.
Proof.
  intros [[d ->] Hc]. unfold wp, db_write. cbn.
  destruct (write d ops) as [d' [[]|e]] eqn:Hw; cbn [fst snd]; (split; [by exists d'|]); intros c k; cbn in *.
  - rewrite (write_applies _ _ _ Hw). rewrite apply_ops_app. by apply apply_ops_ext.
  - by rewrite (write_atomic _ _ _ _ Hw).
Qed.

Lemma db_write_spec ops u :
  wp (db_write ops) (fun u' r => match r with Ok _ => wrote u ops u' | Err _ => wrote u [] u' end) u.
Proof. exact (db_write_wrote u [] ops u (wrote_nil u)). Qed.

Lemma chunk_put_spec u puts l : forall w acc u',
  wrote u w u' -> w ++ acc.1 = (puts).*1 ->
  wp (foldS chunk_put acc l) (fun u'' r =>
    match r with
    | Ok acc' => exists w', wrote u w' u'' /\ w' ++ acc'.1 = (puts ++ l).*1
    | Err _ => exists w', wrote u w' u'' /\ w' `prefix_of` (puts ++ l).*1
    end) u'.
Proof.
  revert puts. induction l as [|[op n] l IH]; intros puts w acc u' Hw Hacc; cbn [foldS].
  { apply wp_ret. exists w. by rewrite app_nil_r. }
  apply wp_bind. destruct acc as [batch bytes]. cbn [fst] in Hacc. cbn [chunk_put].
  assert (Hsnoc : (puts ++ [(op, n)]).*1 = w ++ (batch ++ [op])) by (rewrite fmap_app, <- Hacc, app_assoc; done).
  assert (Hcons : puts ++ (op, n) :: l = (puts ++ [(op, n)]) ++ l) by (by rewrite <- app_assoc).
  destruct (_ >=? _).
  - apply wp_bind. eapply wp_mono; [|apply db_write_wrote, Hw]. intros u'' [[]|e] Hw''; cbv beta iota in *.
    + apply wp_ret. cbn beta iota. rewrite Hcons.
      apply (IH (puts ++ [(op, n)]) (w ++ batch ++ [op])); [done|]. cbn. by rewrite app_nil_r.
    + exists w. split; [done|]. rewrite Hcons, fmap_app, Hsnoc, <- app_assoc. by apply prefix_app_r.
  - apply wp_ret. rewrite Hcons. apply (IH (puts ++ [(op, n)]) w); [done|]. by rewrite Hsnoc.
Qed.

Lemma promote_lookup cap l c k x :
  promote cap l c !! k = Some x -> c !! k = Some x \/ exists e, (k, Some e) ∈ l /\ x = coin_new e.
Proof.
  revert c. induction l as [|[k' [e|]] l IH]; intros c Hx; cbn [promote] in Hx; [by left| |];
    destruct (_ >=? cap); [by left| |by left|].
  - destruct (IH _ Hx) as [Hc|(e' & Hin & ->)]; [|right; exists e'; split; [by right|done]].
    destruct (decide (k = k')) as [->|Hne].
    + rewrite lookup_insert_eq in Hc. simplify_eq. right. exists e. split; [by left|done].
    + rewrite lookup_insert_ne in Hc by done. by left.
  - destruct (IH _ Hx) as [Hc|(e' & Hin & ->)]; [by left|right; exists e'; split; [by right|done]].
Qed.

(** An outcome of a flush. *)
Definition flushed u u' : Prop :=
  entries (write_buffer u') = ∅ /\
  (forall k, contents (us_db u') CF_UTXO k = serialize_entry <$> coins u k) /\
  (forall h, pending_flush_height (write_buffer u) = Some h ->
    contents (us_db u') CF_META (ascii_bytes "flush_height") = Some (to_le 4 h)).

Definition interrupted u u' : Prop :=
  write_buffer u' = write_buffer u /\ cache u' = cache u /\
  (forall k, contents (us_db u') CF_META k = contents (us_db u) CF_META k) /\
  (forall k, contents (us_db u') CF_UTXO k = contents (us_db u) CF_UTXO k \/
    exists e, entries (write_buffer u) !! k = Some (Some e) /\
      contents (us_db u') CF_UTXO k = Some (serialize_entry e)).

(** The database holds the serialised coins where the buffer is silent. *)
Lemma disk_serialized d k : disk_ok d -> contents d CF_UTXO k = serialize_entry <$> disk_coin d k.
Proof.
  intros Hd. destruct (contents d CF_UTXO k) as [data|] eqn:Hk.
  - destruct (disk_coin_Some _ _ _ Hd Hk) as (e & _ & -> & _ & ->). done.
  - by rewrite disk_coin_None.
Qed.

Lemma disk_coin_serialized d k e : entry_ok e -> contents d CF_UTXO k = Some (serialize_entry e) -> disk_coin d k = Some e.
Proof. intros He Hk. unfold disk_coin. by rewrite Hk, entry_ok_roundtrip. Qed.

Lemma interrupted_inv u u' :
  utxo_inv u -> interrupted u u' -> utxo_inv u' /\ forall k, coins u' k = coins u k.
Proof.
  intros (Hd & Hp & Hc & Hcache) (Hwb & Hca & _ & Hcont).
  assert (Hcoins : forall k, coins u' k = coins u k).
  { intros k. unfold coins. rewrite Hwb. destruct (entries (write_buffer u) !! k) as [o|] eqn:Hk; [done|].
    destruct (Hcont k) as [Hsame|(e & He & _)]; [|congruence]. unfold disk_coin. by rewrite Hsame. }
  split; [|done]. split_and!.
  - intros k data Hk. destruct (Hcont k) as [Hsame|(e & He & Hval)].
    + rewrite Hsame in Hk. eauto.
    + rewrite Hval in Hk. simplify_eq. exists e. split; [done|]. by eapply Hp.
  - by rewrite Hwb.
  - by rewrite Hwb.
  - intros k c. rewrite Hca, Hcoins. apply Hcache.
Qed.

Lemma wrote_interrupted u w u' : wrote u w u' -> w `prefix_of` all_puts (write_buffer u) -> interrupted u u'.
Proof.
  intros [[d ->] Hc] Hw. split_and!; [done|done|..].
  - intros k. rewrite Hc. by apply (prefix_meta _ (write_buffer u)).
  - intros k. rewrite Hc. by apply prefix_utxo.
Qed.

(** The contents of the coin family after all operations. *)
Lemma wrote_all_contents u u' k :
  disk_ok (us_db u) -> wrote u (flush_ops (write_buffer u)) u' ->
  contents (us_db u') CF_UTXO k = serialize_entry <$> coins u k.
Proof.
  intros Hd [_ Hc]. rewrite Hc, flush_ops_utxo. unfold coins.
  destruct (entries (write_buffer u) !! k) as [[e|]|]; [done|done|]. by apply disk_serialized.
Qed.

Lemma coins_entry_ok u k e : utxo_inv u -> coins u k = Some e -> entry_ok e.
Proof.
  intros (Hd & Hp & _) Hk. unfold coins in Hk. destruct (entries (write_buffer u) !! k) as [o|] eqn:Hb.
  - subst. by eapply Hp.
  - unfold disk_coin in Hk. destruct (contents (us_db u) CF_UTXO k) as [data|] eqn:Hc; [|done].
    destruct (disk_coin_Some _ _ _ Hd Hc) as (e' & He' & _ & Hok & _). rewrite He' in Hk. congruence.
Qed.

(** The final state of a successful flush. *)
Lemma flushed_inv u u' cap :
  utxo_inv u -> wrote u (flush_ops (write_buffer u)) u' ->
  let u'' := set_buffer (set_cache u' (promote cap (iter_entries (entries (write_buffer u))) (cache u')))
               (buffer_cleared (write_buffer u)) in
  utxo_inv u'' /\ forall k, coins u'' k = coins u k.
Proof.
  intros Hinv Hw u''. pose proof Hinv as (Hd & Hp & Hc & Hcache).
  pose proof (fun k => wrote_all_contents u u' k Hd Hw) as Hcont. destruct Hw as [[d ->] _].
  assert (Hcoins : forall k, coins u'' k = coins u k).
  { intros k. unfold coins at 1. cbn [u'' set_buffer write_buffer buffer_cleared entries]. rewrite lookup_empty.
    specialize (Hcont k). cbn in *. destruct (coins u k) as [e|] eqn:Hk.
    - apply disk_coin_serialized; [by eapply coins_entry_ok|done].
    - by apply disk_coin_None. }
  split; [|done]. split_and!.
  - intros k data Hk. change (contents (us_db (set_db u d)) CF_UTXO k = Some data) in Hk. rewrite Hcont in Hk.
    destruct (coins u k) as [e|] eqn:Hk'; [|done]. cbn in Hk. simplify_eq. exists e.
    split; [done|]. by eapply coins_entry_ok.
  - intros k e Hk. cbn in Hk. by rewrite lookup_empty in Hk.
  - split; [|done]. cbn. by rewrite omap_empty.
  - intros k c Hk. rewrite Hcoins. cbn in Hk. apply promote_lookup in Hk as [Hk|(e & Hin & ->)].
    + by apply Hcache.
    + apply elem_of_iter in Hin. unfold coins. rewrite Hin, coin_roundtrip; [done|]. apply (Hp _ _ Hin).
Qed.

Lemma flush_meta_height c wb h :
  pending_flush_height wb = Some h ->
  apply_ops c (flush_ops wb) CF_META (ascii_bytes "flush_height") = Some (to_le 4 h).
Proof.
  intros Hh. apply apply_ops_agree.
  - exists (Put CF_META (ascii_bytes "flush_height") (to_le 4 h)). split_and!; [|done..].
    unfold flush_ops, meta_puts. rewrite Hh, !elem_of_app. right. right. left. by left.
  - intros o Ho Hcf Hk. unfold flush_ops in Ho. rewrite !elem_of_app in Ho. destruct Ho as [Ho|[Ho|Ho]].
    + by apply all_puts_meta in Ho.
    + apply elem_of_deletions in Ho as (k & _ & ->). done.
    + unfold meta_puts in Ho. rewrite Hh in Ho.
      destruct (pending_flush_hash wb); cbn [app] in Ho; rewrite ?elem_of_cons, ?elem_of_nil in Ho;
        destruct Ho as [->|Ho]; try done; destruct Ho as [->|[]]; done.
Qed.

(** The undo record of a block: a buffered one shadows the stored one. *)
Definition undo_data u (h : bytes) : option bytes :=
  match find_undo (undo_buffer (write_buffer u)) h with Some d => Some d | None => contents (us_db u) CF_UNDO h end.

(** At most one record of the block is buffered. *)
Definition undo_single u (h : bytes) : Prop :=
  (length (filter (fun p => p.1 = h) (undo_buffer (write_buffer u))) <= 1)%nat.

Definition undo_flushed u u' : Prop :=
  undo_buffer (write_buffer u') = [] /\
  forall h, undo_single u h -> contents (us_db u') CF_UNDO h = undo_data u h.

(** Records move from the buffer to the database at most. *)
Definition undo_kept u u' : Prop :=
  (undo_buffer (write_buffer u') = undo_buffer (write_buffer u) \/ undo_buffer (write_buffer u') = []) /\
  forall h, undo_single u h -> undo_data u' h = undo_data u h.

Lemma undo_flushed_kept u u' : undo_flushed u u' -> undo_kept u u'.
Proof.
  intros [Hn Hd]. split; [by right|]. intros h Hh. unfold undo_data at 1. rewrite Hn. cbn. by apply Hd.
Qed.

Lemma elem_of_flush_undo wb op :
  op ∈ flush_ops wb -> op_cf op = CF_UNDO -> exists h d, (h, d) ∈ undo_buffer wb /\ op = Put CF_UNDO h d.
Proof.
  unfold flush_ops, all_puts. rewrite fmap_app, !elem_of_app. intros Hop Hcf. destruct Hop as [[Hop|Hop]|[Hop|Hop]].
  - apply elem_of_insert_puts in Hop as (k & e & _ & ->). done.
  - apply list_elem_of_fmap in Hop as ([op' n] & -> & Hop). apply list_elem_of_fmap in Hop as ([h d] & [= -> ->] & Hin). eauto.
  - apply elem_of_deletions in Hop as (k & _ & ->). done.
  - apply elem_of_meta_puts in Hop. rewrite Hop in Hcf. done.
Qed.

Lemma flush_ops_undo u h : undo_single u h ->
  apply_ops (contents (us_db u)) (flush_ops (write_buffer u)) CF_UNDO h = undo_data u h.
Proof.
  unfold undo_single, undo_data, find_undo. intros Hs.
  assert (Hin : forall d, (h, d) ∈ undo_buffer (write_buffer u) <->
    (h, d) ∈ filter (fun p => p.1 = h) (undo_buffer (write_buffer u))).
  { intros d. rewrite list_elem_of_filter. cbn. tauto. }
  destruct (filter _ _) as [|[h' d] [|? ?]] eqn:Hf; [| |cbn in Hs; lia].
  - cbn. apply apply_ops_other, Forall_forall. intros op Hop [Hcf Hk].
    destruct (elem_of_flush_undo _ _ Hop Hcf) as (h1 & d & Hd & ->). cbn in Hk. subst h1.
    apply Hin in Hd. by apply not_elem_of_nil in Hd.
  - assert (Hd : (h', d) ∈ filter (fun p => p.1 = h) (undo_buffer (write_buffer u))) by (rewrite Hf; by left).
    apply list_elem_of_filter in Hd as [Hh Hd]. cbn in Hh. subst h'. cbn. apply apply_ops_agree.
    + exists (Put CF_UNDO h d). split_and!; [|done..]. unfold flush_ops, all_puts. rewrite fmap_app, !elem_of_app.
      left. right. apply list_elem_of_fmap. exists (Put CF_UNDO h d, 32 + len d). split; [done|].
      apply list_elem_of_fmap. by exists (h, d).
    + intros op Hop Hcf Hk. destruct (elem_of_flush_undo _ _ Hop Hcf) as (h1 & d1 & Hd1 & ->). cbn in Hk. subst h1.
      apply Hin, list_elem_of_singleton in Hd1. injection Hd1 as ->. done.
Qed.

Lemma flush_spec u :
  utxo_inv u ->
  wp flush_to_disk (fun u' r => utxo_inv u' /\ (forall k, coins u' k = coins u k) /\
    match r with Ok _ => flushed u u' /\ undo_flushed u u' | Err _ => interrupted u u' end) u.
Proof.
  intros Hinv. pose proof Hinv as (Hd & Hp & Hc & Hcache).
  assert (Hint : forall u', interrupted u u' -> utxo_inv u' /\ (forall k, coins u' k = coins u k) /\ interrupted u u').
  { intros u' Hi. destruct (interrupted_inv u u' Hinv Hi). auto. }
  unfold flush_to_disk. apply wp_bind, wp_gets.
  destruct (buffer_is_empty _ && _ && _) eqn:He.
  { bool_to_prop. apply wp_modify. split; [done|]. split; [done|].
    apply bool_decide_eq_true in H. apply bool_decide_eq_true in H0. apply bool_decide_eq_true in H1.
    split; [split_and!; [done| |intros h Hh; cbn in Hh; congruence]|split; [exact H1|]].
    - intros k. unfold coins. rewrite H, lookup_empty. by apply disk_serialized.
    - intros h _. unfold undo_data. by rewrite H1. }
  assert (Hself : interrupted u u) by (split_and!; [done..|intros; by left]).
  do 3 (apply wp_bind, wp_cf; intros [[]|?]; [|by apply Hint]). cbv zeta.
  apply wp_bind. eapply wp_mono; [|apply (chunk_put_spec u [] _ []); [apply wrote_nil|done]].
  intros u1 [acc1|e] H1; cbv beta iota in *.
  2: { destruct H1 as (w & Hw & Hpre). apply Hint, (wrote_interrupted u w); [done|].
       unfold all_puts. rewrite fmap_app. by apply prefix_app_r. }
  destruct H1 as (w1 & Hw1 & Ha1).
  apply wp_bind. eapply wp_mono; [|exact (chunk_put_spec u _ (undo_puts (undo_buffer (write_buffer u))) w1 acc1 u1 Hw1 Ha1)].
  intros u2 [acc2|e] H2; cbv beta iota in *.
  2: { destruct H2 as (w & Hw & Hpre). by apply Hint, (wrote_interrupted u w). }
  destruct H2 as (w2 & Hw2 & Ha2). rewrite app_nil_l in Ha2. fold (all_puts (write_buffer u)) in Ha2.
  apply wp_bind. eapply wp_mono; [|apply db_write_wrote, Hw2].
  intros u3 [[]|e] Hw3; cbv beta iota in *.
  2: { apply Hint, (wrote_interrupted u w2); [done|]. rewrite <- Ha2. by apply prefix_app_r. }
  rewrite app_assoc, Ha2 in Hw3. fold (flush_ops (write_buffer u)) in Hw3.
  apply wp_bind, wp_modify, wp_modify.
  assert (Hwb : write_buffer u3 = write_buffer u) by (destruct Hw3 as [[d ->] _]; done).
  cbn [set_cache write_buffer]. rewrite Hwb.
  destruct (flushed_inv u u3 (cache_capacity u3) Hinv Hw3) as [Hinv' Hcoins].
  refine (conj Hinv' (conj Hcoins _)).
  split; [split_and!; [done| |]|split; [done|]; intros h Hs; destruct Hw3 as [_ Hcont]; cbn; rewrite Hcont; by apply flush_ops_undo].
  - intros k. exact (wrote_all_contents u u3 k Hd Hw3).
  - intros h Hh. destruct Hw3 as [_ Hcont]. cbn. rewrite Hcont. by apply flush_meta_height.
Qed.

(** *** Applying a batch *)

(** Inserted coins are well-formed and new. *)
Definition batch_ok (m : coin_map) (b : UtxoBatch) : Prop :=
  forall i, i ∈ inserts b -> entry_ok i.2 /\ m (outpoint_key i.1) = None.

Lemma coins_overlay u k : coins u k = overlay (entries (write_buffer u)) (disk_coin (us_db u)) k.
Proof. done. Qed.

Lemma foldl_delete_lookup {A} (ks : list bytes) (c : gmap bytes A) k x :
  foldl (fun c k => delete k c) c ks !! k = Some x -> c !! k = Some x /\ k ∉ ks.
Proof.
  revert c. induction ks as [|k' ks IH]; intros c Hx; cbn [foldl] in Hx; [split; [done|apply not_elem_of_nil]|].
  destruct (IH _ Hx) as [Hc Hnin]. apply lookup_delete_Some in Hc as [Hne Hc]. split; [done|].
  rewrite elem_of_cons. intros [->|Hin]; done.
Qed.

Lemma foldl_delete_keys (os : list OutPoint) (c : gmap bytes CompactCoin) :
  foldl (fun c o => delete (outpoint_key o) c) c os = foldl (fun c k => delete k c) c (map outpoint_key os).
Proof. revert c. induction os as [|o os IH]; intros c; cbn; [done|apply IH]. Qed.

(** The state just before the flush decision takes effect. *)
Lemma buffered_inv u b c :
  utxo_inv u -> batch_ok (coins u) b ->
  (forall k x, c !! k = Some x -> cache u !! k = Some x /\ k ∉ map outpoint_key (removals b)) ->
  let u' := set_cache (set_buffer u (buffered (write_buffer u) b)) c in
  utxo_inv u' /\ forall k, coins u' k = spec_batch (coins u) b k.
Proof.
  intros (Hd & Hp & Hc & Hcache) Hb Hsub u'.
  assert (Hcoins : forall k, coins u' k = spec_batch (coins u) b k).
  { intros k. rewrite coins_overlay. cbn [u' set_cache set_buffer write_buffer us_db].
    rewrite overlay_buffered. done. }
  split; [|done].
  assert (Hins : Forall (fun i => entry_ok i.2) (inserts b)).
  { apply Forall_forall. intros i Hi. by apply Hb. }
  destruct (foldl_buffer_ok (inserts b) (write_buffer u) Hins Hp Hc) as [Hp1 Hc1].
  destruct (foldl_remove_ok (removals b) _ Hp1 Hc1) as [Hp2 Hc2].
  split_and!; [done|exact Hp2|exact Hc2|].
  intros k x Hk. rewrite Hcoins. cbn in Hk. destruct (Hsub k x Hk) as [Hk' Hnin].
  pose proof (Hcache _ _ Hk') as Hv. unfold spec_batch. rewrite spec_remove_fold, bool_decide_eq_false_2 by done.
  rewrite spec_insert_fold_other; [done|]. intros i Hi Heq. destruct (Hb i Hi) as [_ Hnone]. rewrite Heq in Hnone.
  congruence.
Qed.

Lemma buffered_undo wb b : undo_buffer (buffered wb b) = undo_buffer wb.
Proof.
  assert (Hi : forall l wb, undo_buffer (foldl buffer_insert wb l) = undo_buffer wb).
  { intros l. induction l as [|i l IH]; intros w; cbn [foldl]; [done|]. rewrite IH. apply buffer_insert_entries. }
  assert (Hr : forall l wb, undo_buffer (foldl buffer_remove wb l) = undo_buffer wb).
  { intros l. induction l as [|o l IH]; intros w; cbn [foldl]; [done|]. rewrite IH. apply buffer_remove_entries. }
  unfold buffered. cbn [count_block undo_buffer]. by rewrite Hr, Hi.
Qed.

Lemma apply_batch_spec u b :
  utxo_inv u -> batch_ok (coins u) b ->
  wp (apply_batch b) (fun u' r => utxo_inv u' /\ (forall k, coins u' k = spec_batch (coins u) b k) /\
    (is_ok r = true -> undo_kept u u')) u.
Proof.
  intros Hinv Hb. unfold apply_batch.
  do 3 (apply wp_bind, wp_modify). apply wp_bind, wp_gets. apply wp_bind, wp_modify. apply wp_bind, wp_modify.
  cbn [set_buffer set_cache write_buffer cache cache_capacity us_db].
  set (ev := if _ <=? _ then _ else _).
  assert (Hev : exists c, ev = set_cache (set_buffer u (buffered (write_buffer u) b)) c /\
    forall k x, c !! k = Some x -> cache u !! k = Some x /\ k ∉ map outpoint_key (removals b)).
  { unfold ev. rewrite foldl_delete_keys. set (c1 := foldl _ (cache u) _).
    assert (H1 : forall k x, c1 !! k = Some x -> cache u !! k = Some x /\ k ∉ map outpoint_key (removals b))
      by (intros k x; apply foldl_delete_lookup).
    destruct (Z.of_nat (size c1) <=? cache_capacity u); [exists c1; split; [reflexivity|exact H1]|].
    eexists. split; [reflexivity|].
    intros k x Hx. apply foldl_delete_lookup in Hx as [Hx _]. by apply H1. }
  destruct Hev as (c & -> & Hsub).
  destruct (buffered_inv u b c Hinv Hb Hsub) as [Hinv' Hcoins].
  assert (Hundo : undo_buffer (buffered (write_buffer u) b) = undo_buffer (write_buffer u)) by apply buffered_undo.
  destruct (_ || _).
  2: { apply wp_ret. refine (conj Hinv' (conj Hcoins _)). intros _. split; [by left|]. intros h _. unfold undo_data.
       cbn [set_cache set_buffer write_buffer us_db]. by rewrite Hundo. }
  apply wp_bind. eapply wp_mono; [|apply flush_spec, Hinv'].
  intros u' [[]|e] (Hi & Hco & Hfl); cbv beta iota; [apply wp_ret|]; (split_and!; [done|intros k; by rewrite Hco|done || intros _]).
  destruct Hfl as [_ [Hb' Hd]%undo_flushed_kept]. unfold undo_kept, undo_single, undo_data in *.
  cbn [set_cache set_buffer write_buffer us_db] in *. by rewrite Hundo in *.
Qed.

(** *** Operations that leave the coins alone *)

Lemma same_coins_inv u u' :
  utxo_inv u -> cache u' = cache u -> entries (write_buffer u') = entries (write_buffer u) ->
  insert_count (write_buffer u') = insert_count (write_buffer u) ->
  deletion_count (write_buffer u') = deletion_count (write_buffer u) ->
  (forall k, contents (us_db u') CF_UTXO k = contents (us_db u) CF_UTXO k) ->
  utxo_inv u' /\ forall k, coins u' k = coins u k.
Proof.
  intros (Hd & Hp & [Hc1 Hc2] & Hcache) Hca He Hi Hdel Hdb.
  assert (Hcoins : forall k, coins u' k = coins u k).
  { intros k. unfold coins, disk_coin. by rewrite He, Hdb. }
  split; [|done]. split_and!.
  - intros k data. rewrite Hdb. apply Hd.
  - by rewrite He.
  - split; by rewrite ?Hi, ?Hdel, He.
  - intros k c. rewrite Hca, Hcoins. apply Hcache.
Qed.

Lemma delete_undo_spec h u :
  utxo_inv u -> wp (delete_undo h) (fun u' _ => utxo_inv u' /\ forall k, coins u' k = coins u k) u.
Proof.
  intros Hinv. unfold delete_undo. apply wp_bind, wp_modify. set (u1 := set_buffer u _).
  destruct (same_coins_inv u u1 Hinv) as [Hinv1 Hc1]; [done..|].
  apply wp_bind, wp_cf. intros [[]|e]; [|done].
  eapply wp_mono; [|apply db_write_spec].
  intros u2 r Hr. cbv beta in Hr.
  assert (Hw : exists w, wrote u1 w u2 /\ Forall (fun o => op_cf o = CF_UNDO) w).
  { destruct r as [[]|e]; [exists [Delete CF_UNDO h]|exists []]; (split; [exact Hr|]); repeat constructor. }
  destruct Hw as (w & [[d ->] Hcont] & Hw).
  destruct (same_coins_inv u1 (set_db u1 d) Hinv1) as [Hinv2 Hc2]; [done..| |].
  { intros k. rewrite Hcont. apply apply_ops_other. eapply Forall_impl; [exact Hw|]. intros o Ho [Hbad _].
    rewrite Ho in Hbad. done. }
  split; [done|]. intros k. by rewrite Hc2, Hc1.
Qed.

Lemma load_undo_spec h u : wp (load_undo h) (fun u' _ => u' = u) u.
Proof.
  unfold load_undo. apply wp_bind, wp_gets. destruct (find_undo _ _) as [data|].
  - apply wp_bind, wp_lift. destruct (deserialize_undo data); [|done]. by apply wp_ret.
  - apply wp_bind, wp_cf. intros [[]|e]; [|done]. apply wp_bind, wp_db_get; [|done].
    destruct (contents _ _ _) as [data|]; [|by apply wp_ret].
    apply wp_bind, wp_lift. destruct (deserialize_undo data); [|done]. by apply wp_ret.
Qed.

Lemma load_undo_data h u :
  wp (load_undo h) (fun u' r => u' = u /\ forall x, r = Ok x -> match x with
    | Some undo => exists d, undo_data u h = Some d /\ deserialize_undo d = Ok undo
    | None => undo_data u h = None
    end) u.
Proof.
  unfold load_undo, undo_data. apply wp_bind, wp_gets. destruct (find_undo _ _) as [data|].
  - apply wp_bind, wp_lift. destruct (deserialize_undo data) eqn:Hd; [|done]. apply wp_ret. split; [done|].
    intros x [= <-]. eauto.
  - apply wp_bind, wp_cf. intros [[]|e]; [|done]. apply wp_bind, wp_db_get; [|done].
    destruct (contents _ _ _) as [data|]; [|apply wp_ret; split; [done|by intros x [= <-]]].
    apply wp_bind, wp_lift. destruct (deserialize_undo data) eqn:Hd; [|done]. apply wp_ret. split; [done|].
    intros x [= <-]. eauto.
Qed.

(** *** Traces *)

Inductive utxo_op : Type :=
| GetCoin (o : OutPoint)
| HasCoin (o : OutPoint)
| Prefetch (os : list OutPoint)
| ApplyBatch (b : UtxoBatch)
| Flush
| SetPending (height : Z) (hash : bytes)
| StoreUndo (block_hash : bytes) (spent : list SpentUtxo) (created : list OutPoint) (prev : bytes)
| LoadUndo (block_hash : bytes)
| DeleteUndo (block_hash : bytes).

Inductive answer : Type := ACoin (c : option UtxoEntry) | ABool (b : bool) | ADone.

Definition run_op (op : utxo_op) : stm UtxoSet StorageError answer :=
  match op with
  | GetCoin o => c ← utxo_get o; mret (ACoin c)
  | HasCoin o => b ← utxo_contains o; mret (ABool b)
  | Prefetch os => _ ← prefetch os; mret ADone
  | ApplyBatch b => _ ← apply_batch b; mret ADone
  | Flush => _ ← flush_to_disk; mret ADone
  | SetPending height hash => _ ← set_pending_flush_height height hash; mret ADone
  | StoreUndo h spent created prev => _ ← store_undo h spent created prev; mret ADone
  | LoadUndo h => _ ← load_undo h; mret ADone
  | DeleteUndo h => _ ← delete_undo h; mret ADone
  end.

Fixpoint run_trace (ops : list utxo_op) : stm UtxoSet StorageError (list answer) :=
  match ops with
  | [] => mret []
  | op :: r => a ← run_op op; rest ← run_trace r; mret (a :: rest)
  end.

(** The abstract map. *)
Definition spec_step (m : coin_map) (op : utxo_op) : coin_map :=
  match op with ApplyBatch b => spec_batch m b | _ => m end.
Definition spec_answer (m : coin_map) (op : utxo_op) : answer :=
  match op with
  | GetCoin o => ACoin (m (outpoint_key o))
  | HasCoin o => ABool (bool_decide (is_Some (m (outpoint_key o))))
  | _ => ADone
  end.
Definition op_ok (m : coin_map) (op : utxo_op) : Prop :=
  match op with ApplyBatch b => batch_ok m b | _ => True end.

Fixpoint trace_ok (m : coin_map) (ops : list utxo_op) : Prop :=
  match ops with [] => True | op :: r => op_ok m op /\ trace_ok (spec_step m op) r end.
Fixpoint spec_answers (m : coin_map) (ops : list utxo_op) : list answer :=
  match ops with [] => [] | op :: r => spec_answer m op :: spec_answers (spec_step m op) r end.
Definition spec_final (m : coin_map) (ops : list utxo_op) : coin_map := foldl spec_step m ops.

(** An operation whose answer carries no information. *)
Lemma wp_answer {A} (m : stm UtxoSet StorageError A) (ans : answer) (P : UtxoSet -> Prop) u :
  wp m (fun u' _ => P u') u ->
  wp (m ≫= fun _ => mret ans) (fun u' r => P u' /\ forall a, r = Ok a -> a = ans) u.
Proof.
  intros Hm. apply wp_bind. eapply wp_mono; [|exact Hm]. intros u' [x|e] HP; cbv beta iota.
  - apply wp_ret. split; [done|]. by intros a [= <-].
  - split; [done|]. by intros a [=].
Qed.

Lemma run_op_spec op u :
  utxo_inv u -> op_ok (coins u) op ->
  wp (run_op op) (fun u' r => (utxo_inv u' /\ forall k, coins u' k = spec_step (coins u) op k) /\
    forall a, r = Ok a -> a = spec_answer (coins u) op) u.
Proof.
  intros Hinv Hok. destruct op; cbn [run_op spec_step spec_answer op_ok] in *; try apply wp_answer.
  - apply wp_bind. eapply wp_mono; [|by apply utxo_get_spec]. intros u' [x|e] (Hi & (_ & _ & Hv) & Hx).
    + apply wp_ret. split_and!; [done|done|]. intros a [= <-]. by rewrite (Hx x).
    + split_and!; [done|done|]. by intros a [=].
  - apply wp_bind. eapply wp_mono; [|by apply utxo_contains_spec]. intros u' [x|e] [-> Hx].
    + apply wp_ret. split_and!; [done|done|]. intros a [= <-]. by rewrite (Hx x).
    + split_and!; [done|done|]. by intros a [=].
  - eapply wp_mono; [|by apply prefetch_spec]. by intros u' _ (Hi & (_ & _ & Hv)).
  - eapply wp_mono; [|by apply apply_batch_spec]. by intros u' r (Hi & Hv & _).
  - eapply wp_mono; [|by apply flush_spec]. by intros u' _ (Hi & Hv & _).
  - apply wp_modify. by apply (same_coins_inv u).
  - apply wp_modify. by apply (same_coins_inv u).
  - eapply wp_mono; [|by apply load_undo_spec]. by intros u' _ ->.
  - by apply delete_undo_spec.
Qed.

(** The abstract definitions respect pointwise equality of maps. *)
Lemma spec_batch_ext (m m' : coin_map) b k : (forall k, m k = m' k) -> spec_batch m b k = spec_batch m' b k.
Proof.
  intros Hm. unfold spec_batch. rewrite !spec_remove_fold. destruct (bool_decide _); [done|].
  revert m m' Hm. induction (inserts b) as [|i l IH]; intros m m' Hm; cbn [foldl]; [done|].
  apply IH. intros x. unfold spec_insert. by rewrite Hm.
Qed.

Lemma spec_step_ext (m m' : coin_map) op k : (forall k, m k = m' k) -> spec_step m op k = spec_step m' op k.
Proof. intros Hm. destruct op; cbn [spec_step]; try done. by apply spec_batch_ext. Qed.

Lemma trace_ok_ext ops : forall (m m' : coin_map), (forall k, m k = m' k) -> trace_ok m ops -> trace_ok m' ops.
Proof.
  induction ops as [|op ops IH]; intros m m' Hm; cbn; [done|]. intros [Hop Htr]. split.
  - destruct op; cbn in *; try done. intros i Hi. rewrite <- Hm. by apply Hop.
  - eapply IH; [|exact Htr]. intros k. by apply spec_step_ext.
Qed.

Lemma spec_answers_ext ops : forall (m m' : coin_map), (forall k, m k = m' k) -> spec_answers m ops = spec_answers m' ops.
Proof.
  induction ops as [|op ops IH]; intros m m' Hm; cbn; [done|]. f_equal.
  - destruct op; cbn; by rewrite ?Hm.
  - apply IH. intros k. by apply spec_step_ext.
Qed.

Lemma spec_final_ext ops : forall (m m' : coin_map) k, (forall k, m k = m' k) -> spec_final m ops k = spec_final m' ops k.
Proof.
  induction ops as [|op ops IH]; intros m m' k Hm; cbn; [done|]. apply IH. intros x. by apply spec_step_ext.
Qed.

Lemma run_trace_spec ops : forall u,
  utxo_inv u -> trace_ok (coins u) ops ->
  wp (run_trace ops) (fun u' r => utxo_inv u' /\
    forall l, r = Ok l -> l = spec_answers (coins u) ops /\ forall k, coins u' k = spec_final (coins u) ops k) u.
Proof.
  induction ops as [|op ops IH]; intros u Hinv Hok; cbn [run_trace].
  { apply wp_ret. split; [done|]. by intros l [= <-]. }
  destruct Hok as [Hop Hok]. apply wp_bind. eapply wp_mono; [|by apply run_op_spec].
  intros u1 [a|e] [[Hi1 Hc1] Ha]; cbv beta iota; [|split; [done|by intros l [=]]].
  apply wp_bind. eapply wp_mono; [|apply (IH u1 Hi1)].
  2: { eapply trace_ok_ext; [|exact Hok]. intros k. by rewrite Hc1. }
  intros u2 [l|e] [Hi2 Hl]; cbv beta iota; [|split; [done|by intros ? [=]]].
  apply wp_ret. split; [done|]. intros ? [= <-]. destruct (Hl l eq_refl) as [-> Hc2]. cbn [spec_answers]. split.
  - rewrite (Ha a eq_refl). f_equal. by apply spec_answers_ext.
  - intros k. rewrite Hc2. cbn [spec_final foldl]. by apply spec_final_ext.
Qed.

(** *** Rolling back *)

Lemma rollback_ops_spent c undo s :
  s ∈ spent_utxos undo ->
  (forall s', s' ∈ spent_utxos undo -> outpoint_key (spent_outpoint s') = outpoint_key (spent_outpoint s) -> s' = s) ->
  apply_ops c (rollback_ops undo) CF_UTXO (outpoint_key (spent_outpoint s)) = Some (serialize_entry (spent_entry s)).
Proof.
  intros Hs Huniq. unfold rollback_ops. rewrite apply_ops_app. apply apply_ops_agree.
  - eexists. split; [apply list_elem_of_fmap; eexists; split; [reflexivity|exact Hs]|done].
  - intros o (s' & -> & Hs')%list_elem_of_fmap _ Hk. by rewrite (Huniq s' Hs' Hk).
Qed.

Lemma rollback_block_spent u h undo s u' prev :
  (load_undo h u).2 = Ok (Some undo) -> rollback_block h u = (u', Ok prev) ->
  s ∈ spent_utxos undo ->
  (forall s', s' ∈ spent_utxos undo -> outpoint_key (spent_outpoint s') = outpoint_key (spent_outpoint s) -> s' = s) ->
  contents (us_db u') CF_UTXO (outpoint_key (spent_outpoint s)) = Some (serialize_entry (spent_entry s)).
Proof.
  intros Hl Hrun Hs Huniq.
  assert (Hload : load_undo h u = (u, Ok (Some undo))).
  { pose proof (load_undo_spec h u) as Hu. unfold wp in Hu. rewrite (surjective_pairing (load_undo h u)). congruence. }
  assert (Hwp : wp (rollback_block h) (fun u' r => is_ok r = true ->
    contents (us_db u') CF_UTXO (outpoint_key (spent_outpoint s)) = Some (serialize_entry (spent_entry s))) u);
    [|unfold wp in Hwp; rewrite Hrun in Hwp; by apply Hwp].
  unfold rollback_block. apply wp_bind. unfold wp at 1. rewrite Hload. cbn [fst snd].
  apply wp_bind, wp_lift. cbn [ok_or]. apply wp_bind, wp_lift.
  destruct (prev_block_hash undo) as [ph|]; cbn [ok_or]; [|done]. apply wp_bind.
  assert (Hne : (length (spent_utxos undo) =? 0)%nat = false) by (destruct (spent_utxos undo); [by apply not_elem_of_nil in Hs|done]).
  rewrite Hne, andb_false_r. apply wp_bind, wp_cf. intros [[]|e]; [|done].
  apply wp_bind, wp_modify. eapply wp_mono; [|apply db_write_spec].
  intros u1 [[]|e] Hw; cbv beta iota; [|done]. destruct Hw as [_ Hc1].
  unfold delete_undo. apply wp_bind. apply wp_bind, wp_modify. apply wp_bind, wp_cf. intros [[]|e]; [|done].
  eapply wp_mono; [|apply db_write_spec].
  intros u2 [[]|e] Hw2; cbv beta iota; [|done]. destruct Hw2 as [_ Hc2]. apply wp_ret. intros _.
  rewrite Hc2. rewrite apply_ops_other by (constructor; [by intros [? _]|constructor]).
  cbn [set_buffer us_db]. rewrite Hc1. cbn [set_cache us_db]. by apply rollback_ops_spent.
Qed.
End Store.

(** ** Theorems *)

Section Theorems.
Context `{HR : RocksDb} `{HL : !RocksLaws} `{HM : MapIter} `{HI : !MapIterLaws}.

(** undo data survives storage: reading back the record [store_undo]
    writes returns the spent coins, the created outpoints and the previous
    block hash it was given. *)
Theorem undo_roundtrip (spent : list SpentUtxo) (created : list OutPoint) (prev : bytes) :
  Forall spent_ok spent -> Forall outpoint_ok created -> length prev = 32%nat ->
  len spent < 2 ^ 32 -> len created < 2 ^ 32 ->
  deserialize_undo (serialize_undo spent created prev) = Ok (mkUndo spent created (Some prev)).
Proof. apply undo_roundtrip_lemma. Qed.

(** C18: the database, the read cache and the write buffer implement one map:
    from any consistent state, a sequence of reads, prefetches, batches, flushes
    and operations on undo records either answers exactly as the abstract map
    and ends in it, or stops at a storage error; the state stays consistent in
    both cases.  Condition: the coins a batch inserts have fields of their
    widths and are not in the map at that moment, as BIP 30 demands of blocks;
    inserting over a coin that is cached leaves the old one in a cache that is
    full, where it is read after the next flush. *)
Theorem utxo_refinement (u u' : UtxoSet) (ops : list utxo_op) (r : StorageResult (list answer)) :
  utxo_inv u -> trace_ok (coins u) ops -> run_trace ops u = (u', r) ->
  utxo_inv u' /\
  forall l, r = Ok l -> l = spec_answers (coins u) ops /\ forall k, coins u' k = spec_final (coins u) ops k.
Proof.
  intros Hinv Hok Hrun. pose proof (run_trace_spec ops u Hinv Hok) as Hwp. unfold wp in Hwp.
  by rewrite Hrun in Hwp.
Qed.

(** C22: a flush is safe against a crash at any write: when it completes, the
    database holds exactly the coins of the set and the new flush height; when
    any of its writes fails, the recorded flush height is unchanged, no coin
    has been deleted, and replaying the buffered changes over what is on disk
    gives the same coins. *)
Theorem flush_crash_safe (u u' : UtxoSet) (r : StorageResult unit) :
  utxo_inv u -> flush_to_disk u = (u', r) ->
  match r with
  | Ok _ =>
      (forall k, contents (us_db u') CF_UTXO k = serialize_entry <$> coins u k) /\
      (forall h, pending_flush_height (write_buffer u) = Some h ->
        contents (us_db u') CF_META (ascii_bytes "flush_height") = Some (to_le 4 h))
  | Err _ =>
      (forall k, contents (us_db u') CF_META k = contents (us_db u) CF_META k) /\
      (forall k, is_Some (contents (us_db u) CF_UTXO k) -> is_Some (contents (us_db u') CF_UTXO k)) /\
      (forall k, overlay (entries (write_buffer u)) (disk_coin (us_db u')) k = coins u k)
  end.
Proof.
  intros Hinv Hrun. pose proof (flush_spec u Hinv) as Hwp. unfold wp in Hwp. rewrite Hrun in Hwp.
  cbn [fst snd] in Hwp. destruct Hwp as (_ & Hcoins & Hr). destruct r as [[]|e].
  - destruct Hr as [(_ & Hc & Hm) _]. done.
  - destruct Hr as (Hwb & _ & Hmeta & Hc). split_and!; [done| |].
    + intros k Hk. destruct (Hc k) as [->|(e' & _ & ->)]; [done|eauto].
    + intros k. rewrite <- Hcoins. unfold coins. by rewrite Hwb.
Qed.

(** [rollback_block] brings back a coin that the block itself created and
    spent, because it deletes the created outputs before it restores the spent
    ones; the batch [disconnect_block] applies for the same undo data removes
    it. *)
Theorem rollback_resurrects (u u' : UtxoSet) (h prev : bytes) (undo : UndoData) (s : SpentUtxo) (m : coin_map) :
  (load_undo h u).2 = Ok (Some undo) -> rollback_block h u = (u', Ok prev) ->
  s ∈ spent_utxos undo -> spent_outpoint s ∈ created_outpoints undo ->
  (forall s', s' ∈ spent_utxos undo -> outpoint_key (spent_outpoint s') = outpoint_key (spent_outpoint s) -> s' = s) ->
  contents (us_db u') CF_UTXO (outpoint_key (spent_outpoint s)) = Some (serialize_entry (spent_entry s)) /\
  spec_batch m (mkBatch (map (fun s => (spent_outpoint s, spent_entry s)) (spent_utxos undo))
                  (created_outpoints undo) []) (outpoint_key (spent_outpoint s)) = None.
Proof.
  intros Hload Hrun Hs Hc Huniq. split; [by eapply rollback_block_spent|].
  unfold spec_batch. cbn [inserts removals]. rewrite spec_remove_fold, bool_decide_eq_true_2; [done|].
  apply list_elem_of_fmap. eauto.
Qed.
End Theorems.

(** ** The theorems at concrete inputs *)

Section Examples.
#[local] Existing Instance SampleDb.rocks.
#[local] Existing Instance SampleDb.laws.

#[local] Instance sample_iter : MapIter := {|
  iter_entries := map_to_list;
  iter_cache := fun m => (map_to_list m).*1 |}.
#[local] Instance sample_iter_laws : MapIterLaws := {| iter_entries_perm := fun m => reflexivity _ |}.

Definition ex_outpoint (n : Z) : OutPoint := mkOutPoint (replicate 32 n) 0.
Definition ex_entry : UtxoEntry := mkUtxoEntry 5000 [0x51] 100 true.
Definition ex_spent (n : Z) : SpentUtxo := mkSpent (ex_outpoint n) ex_entry.

Lemma ex_outpoint_ok n : byte_ok n -> outpoint_ok (ex_outpoint n).
Proof. intros Hn. split_and!; [done|by apply Forall_replicate|unfold fits; cbn; lia]. Qed.

Lemma ex_entry_ok : entry_ok ex_entry.
Proof. split_and!; [unfold fits; cbn; lia..|by apply bytes_okb_ok|vm_compute; congruence]. Qed.

Lemma undo_roundtrip_witness :
  deserialize_undo (serialize_undo [ex_spent 1; ex_spent 2] [ex_outpoint 3] (replicate 32 9))
  = Ok (mkUndo [ex_spent 1; ex_spent 2] [ex_outpoint 3] (Some (replicate 32 9))).
Proof.
  assert (Hs : forall n, byte_ok n -> spent_ok (ex_spent n)).
  { intros n Hn. exact (conj (ex_outpoint_ok n Hn) ex_entry_ok). }
  apply undo_roundtrip; [| |done|vm_compute; congruence..].
  - constructor; [apply Hs; unfold fits; lia|]. constructor; [apply Hs; unfold fits; lia|constructor].
  - constructor; [apply ex_outpoint_ok; unfold fits; lia|constructor].
Defined.

Definition ex_db : UtxoSet := from_db (∅ : gmap (string * bytes) bytes).

Lemma ex_db_inv : utxo_inv ex_db.
Proof. split_and!; [done|done|split; reflexivity|done]. Qed.

(** A coin is created, survives a flush, and is spent. *)
Definition ex_trace : list utxo_op :=
  [ApplyBatch (mkBatch [(ex_outpoint 1, ex_entry)] [] []); SetPending 7 (replicate 32 4); Flush;
   GetCoin (ex_outpoint 1); ApplyBatch (mkBatch [] [ex_outpoint 1] []); HasCoin (ex_outpoint 1)].

Lemma utxo_refinement_witness :
  (run_trace ex_trace ex_db).2 = Ok [ADone; ADone; ADone; ACoin (Some ex_entry); ADone; ABool false].
Proof.
  destruct (run_trace ex_trace ex_db) as [u' r] eqn:Hrun.
  destruct (utxo_refinement ex_db u' ex_trace r ex_db_inv) as [_ Hl]; [|exact Hrun|].
  - refine (conj _ (conj I (conj I (conj I (conj _ (conj I I)))))); intros i Hi.
    + apply list_elem_of_singleton in Hi as ->. split; [apply ex_entry_ok|reflexivity].
    + destruct (not_elem_of_nil i Hi).
  - assert (Hok : exists l, r = Ok l).
    { pose proof (f_equal snd Hrun) as Hr. cbn [snd] in Hr. rewrite <- Hr. eexists. vm_compute. reflexivity. }
    destruct Hok as [l ->]. destruct (Hl l eq_refl) as [-> _]. vm_compute. reflexivity.
Defined.

(** Why inserted coins must be new: after a flush a full cache still answers
    with the coin that was overwritten. *)
Definition ex_small : UtxoSet := mkUtxoSet (∅ : gmap (string * bytes) bytes) ∅ 1 buffer_new 1000000.
Definition ex_other : UtxoEntry := mkUtxoEntry 7000 [0x51] 200 true.
Lemma overwritten_coin_read_stale :
  let ops := [ApplyBatch (mkBatch [(ex_outpoint 1, ex_entry)] [] []); Flush; GetCoin (ex_outpoint 1);
              ApplyBatch (mkBatch [(ex_outpoint 1, ex_other)] [] []); Flush; GetCoin (ex_outpoint 1)] in
  last <$> match (run_trace ops ex_small).2 with Ok l => Some l | Err _ => None end = Some (Some (ACoin (Some ex_entry))) /\
  last (spec_answers (coins ex_small) ops) = Some (ACoin (Some ex_other)).
Proof. vm_compute. auto. Qed.

Definition ex_buffered : UtxoSet :=
  (run_trace [ApplyBatch (mkBatch [(ex_outpoint 1, ex_entry)] [] []); SetPending 7 (replicate 32 4)] ex_db).1.

Lemma flush_crash_safe_witness :
  contents (us_db (flush_to_disk ex_buffered).1) CF_META (ascii_bytes "flush_height") = Some [7; 0; 0; 0].
Proof.
  assert (Hinv : utxo_inv ex_buffered).
  { eapply (run_trace_spec [_; _] ex_db ex_db_inv). split; [|done].
    intros i Hi. apply list_elem_of_singleton in Hi as ->. split; [apply ex_entry_ok|reflexivity]. }
  destruct (flush_to_disk ex_buffered) as [u' r] eqn:Hrun.
  pose proof (flush_crash_safe ex_buffered u' r Hinv Hrun) as Hsafe.
  pose proof (f_equal snd Hrun) as Hr. cbn [snd] in Hr.
  assert (Hok : (flush_to_disk ex_buffered).2 = Ok tt) by (vm_compute; reflexivity).
  rewrite Hok in Hr. subst r. destruct Hsafe as [_ Hm].
  exact (Hm 7 ltac:(vm_compute; reflexivity)).
Defined.

(** A block that creates and spends outpoint 1, connected and flushed. *)
Definition ex_connected : UtxoSet :=
  (run_trace [StoreUndo (replicate 32 8) [ex_spent 1] [ex_outpoint 1] (replicate 32 9);
              ApplyBatch (mkBatch [(ex_outpoint 1, ex_entry)] [ex_outpoint 1] []); Flush] ex_db).1.

Lemma rollback_resurrects_witness :
  (utxo_get (ex_outpoint 1) ex_connected).2 = Ok None /\
  contents (us_db (rollback_block (replicate 32 8) ex_connected).1) CF_UTXO (outpoint_key (ex_outpoint 1))
  = Some (serialize_entry ex_entry).
Proof.
  split; [vm_compute; reflexivity|].
  destruct (rollback_block (replicate 32 8) ex_connected) as [u' r] eqn:Hrun.
  assert (Hr : r = Ok (replicate 32 9)).
  { pose proof (f_equal snd Hrun) as Hr. cbn [snd] in Hr. rewrite <- Hr. vm_compute. reflexivity. }
  subst r.
  destruct (rollback_resurrects ex_connected u' (replicate 32 8) (replicate 32 9)
    (mkUndo [ex_spent 1] [ex_outpoint 1] (Some (replicate 32 9))) (ex_spent 1) (fun _ => None)) as [Hc _].
  - vm_compute. reflexivity.
  - exact Hrun.
  - by left.
  - by left.
  - intros s' Hs' _. by apply list_elem_of_singleton in Hs'.
  - exact Hc.
Defined.
End Examples.
