(* ===== verification/ChainState.v ===== *)
(** * The chain state

    [bitcoinpr-core/src/chain.rs]: connecting a block (all the checks, the
    UTXO batch, the block file, the indexes, the undo record and the tip) and
    disconnecting it.  The state holds the header index, the UTXO set, the
    block files, the transaction index, the signature cache and the BIP-110
    memo table; every call into one of them is run on that part of it.  The
    clock is an argument.  The rayon pool runs the script checks in an order
    of its own: the order is a parameter. *)

From Stdlib Require Import ZArith Lia.
From stdpp Require Import base option numbers list gmap strings.
From S2P Require Import Prelude Bytes U256 Types ScriptBytes Signatures VerifyScript Consensus Validation Store HeaderIndex TxIndex BlockStore Bip110 UtxoSet.

(** Orders the runtime chooses: of a hash set, and of the parallel checks. *)
Class Runtime := {
  sig_iter : gset bytes -> list bytes;
  par_order : forall {A : Type}, list A -> list A }.

Class RuntimeLaws `{Runtime} := { par_order_perm {A} (l : list A) : par_order l ≡ₚ l }.

Definition WITNESS_SCALE_FACTOR : Z := 4.
Definition MAX_BLOCK_SIGOPS_COST : Z := 80000.

(** The fuel of the difficulty walk: one retarget period. *)
Definition WORK_FUEL : nat := 2016.

Definition set_verify_bip110 (f : ScriptFlags) (b : bool) : ScriptFlags :=
  mkFlags (verify_p2sh f) (verify_witness f) (verify_strictenc f) (verify_checklocktimeverify f)
    (verify_checksequenceverify f) (verify_taproot f) (verify_nulldummy f) b.

Record ScriptCheck := mkCheck {
  sc_tx : Transaction;
  sc_vin : nat;
  sc_prevouts : list TxOut;
  sc_wtxid : hash256;
  sc_enforce : bool }.

(** The locals of [validate_transactions]. *)
Record TxAcc := mkAcc {
  acc_batch : UtxoBatch;
  spent_in_block : gset OutPoint;
  total_fees : Z;
  total_sigop_cost : Z;
  intra_block_utxos : gmap OutPoint UtxoEntry;
  script_checks : list ScriptCheck }.

Definition acc_new : TxAcc := mkAcc batch_new ∅ 0 0 ∅ [].

(** The locals of the loop over the inputs of one transaction. *)
Record InAcc := mkInAcc {
  in_outer : TxAcc;
  input_sum : Z;
  tx_prevouts : list TxOut;
  input_heights : list Z }.

Definition sum_outputs (tx : Transaction) : Z := foldl (fun s o => u64 (s + value o)) 0 (output tx).

Section Chain.
Context `{Hashes} `{ScriptLib} `{SigLib} `{TxLib} `{OutPointOrd} `{TxSizes} `{HR : RocksDb} `{HW : !RocksWal}
  `{HeaderCodec} `{BlockFiles} `{MapIter} `{Runtime}.

Record ChainState := mkChain {
  params : ConsensusParams;
  header_index : HeaderIndex;
  utxo_set : UtxoSet;
  block_store : BlockStore;
  tx_index : option TxIndex;
  sig_cache : SigCache;
  best_height : Z;
  best_hash : hash256;
  peer_best_height : option Z;
  bip110_checker : option Bip110Checker }.

Abbreviation CM := (stm ChainState CoreError).

Definition chain_new (params : ConsensusParams) (hi : HeaderIndex) (u : UtxoSet) (bs : BlockStore) (best_height : Z)
    (best_hash : hash256) : ChainState :=
  mkChain params hi u bs None (cache_new 100000) best_height best_hash None
    (match bip110_deployment params, bip110_activation_height params with
     | Some d, None => Some (checker_new d)
     | _, _ => None
     end).

Definition set_index (c : ChainState) (hi : HeaderIndex) : ChainState :=
  mkChain (params c) hi (utxo_set c) (block_store c) (tx_index c) (sig_cache c) (best_height c) (best_hash c)
    (peer_best_height c) (bip110_checker c).
Definition set_utxo (c : ChainState) (u : UtxoSet) : ChainState :=
  mkChain (params c) (header_index c) u (block_store c) (tx_index c) (sig_cache c) (best_height c) (best_hash c)
    (peer_best_height c) (bip110_checker c).
Definition set_blocks (c : ChainState) (bs : BlockStore) : ChainState :=
  mkChain (params c) (header_index c) (utxo_set c) bs (tx_index c) (sig_cache c) (best_height c) (best_hash c)
    (peer_best_height c) (bip110_checker c).
Definition set_tx_index (c : ChainState) (t : option TxIndex) : ChainState :=
  mkChain (params c) (header_index c) (utxo_set c) (block_store c) t (sig_cache c) (best_height c) (best_hash c)
    (peer_best_height c) (bip110_checker c).
Definition set_sig_cache (c : ChainState) (s : SigCache) : ChainState :=
  mkChain (params c) (header_index c) (utxo_set c) (block_store c) (tx_index c) s (best_height c) (best_hash c)
    (peer_best_height c) (bip110_checker c).
Definition set_tip (c : ChainState) (height : Z) (hash : hash256) : ChainState :=
  mkChain (params c) (header_index c) (utxo_set c) (block_store c) (tx_index c) (sig_cache c) height hash
    (peer_best_height c) (bip110_checker c).
Definition set_checker (c : ChainState) (k : option Bip110Checker) : ChainState :=
  mkChain (params c) (header_index c) (utxo_set c) (block_store c) (tx_index c) (sig_cache c) (best_height c) (best_hash c)
    (peer_best_height c) k.

Definition on_index {A} (m : stm HeaderIndex StorageError A) : CM A :=
  fun c => let '(hi, r) := m (header_index c) in (set_index c hi, lift_storage r).
Definition on_utxo {A} (m : stm UtxoSet StorageError A) : CM A :=
  fun c => let '(u, r) := m (utxo_set c) in (set_utxo c u, lift_storage r).
Definition on_blocks {A} (m : stm BlockStore StorageError A) : CM A :=
  fun c => let '(b, r) := m (block_store c) in (set_blocks c b, lift_storage r).

(** [if let Some(ref tx_index) = self.tx_index]. *)
Definition on_tx_index (m : stm TxIndex StorageError unit) : CM unit :=
  fun c => match tx_index c with
           | Some t => let '(t, r) := m t in (set_tx_index c (Some t), lift_storage r)
           | None => (c, Ok tt)
           end.

(** A pure read of the header index. *)
Definition read_index {A} (f : HeaderIndex -> StorageResult A) : CM A :=
  fun c => (c, lift_storage (f (header_index c))).

Definition bip110_activation (prev_hash : hash256) (height : Z) : CM Bip110Activation := fun c =>
  let '(k, a) := activation_at (get_header (header_index c)) (params c) (bip110_checker c) prev_hash height in
  (set_checker c k, Ok a).

(** ** The transactions of a block *)

Definition invalid_tx {A} (msg : string) : CoreResult A := Err (InvalidTransaction msg).

(** BIP 30, for one output of the transaction. *)
Definition check_no_coin (txid : hash256) (_ : unit) (vout : nat) : CM unit :=
  present ← on_utxo (utxo_contains (mkOutPoint txid (u32 (Z.of_nat vout))));
  lift (guard_err present (InvalidTransaction "BIP 30: duplicate txid has unspent outputs")).

Definition bip30_checked (p : ConsensusParams) (height : Z) : bool :=
  negb (((height =? 91842) || (height =? 91880)) && bool_decide (network p = Bitcoin))
  && negb (height >=? bip34_height p).

Definition check_bip30 (height : Z) (txid : hash256) (tx : Transaction) : CM unit :=
  p ← gets params;
  if bip30_checked p height then foldS (check_no_coin txid) tt (seq 0 (length (output tx))) else mret tt.

Definition legacy_sigops (tx : Transaction) : Z :=
  let outs := foldl (fun n o => u32 (n + count_sigops (script_pubkey o) false)) 0 (output tx) in
  foldl (fun n i => u32 (n + count_sigops (script_sig i) false)) outs (input tx).

Definition add_sigops (acc : TxAcc) (n : Z) : TxAcc :=
  mkAcc (acc_batch acc) (spent_in_block acc) (total_fees acc) (u64 (total_sigop_cost acc + n))
    (intra_block_utxos acc) (script_checks acc).

(** The outputs of a transaction that are not OP_RETURN, as coins. *)
Definition created_coins (txid : hash256) (height : Z) (is_cb : bool) (tx : Transaction) : list (OutPoint * UtxoEntry) :=
  omap (fun '(vout, o) =>
    if script_is_op_return (script_pubkey o) then None
    else Some (mkOutPoint txid (u32 (Z.of_nat vout)), mkUtxoEntry (value o) (script_pubkey o) height is_cb))
    (imap pair (output tx)).

Definition add_created (acc : TxAcc) (coin : OutPoint * UtxoEntry) : TxAcc :=
  let b := acc_batch acc in
  mkAcc (mkBatch (inserts b ++ [coin]) (removals b) (batch_spent b)) (spent_in_block acc) (total_fees acc)
    (total_sigop_cost acc) (<[coin.1 := coin.2]> (intra_block_utxos acc)) (script_checks acc).

(** The sigop cost of spending a coin. *)
Definition spend_sigops (flags : ScriptFlags) (prev : TxOut) (txin : TxIn) (cost : Z) : Z :=
  let cost :=
    if verify_p2sh flags && script_is_p2sh (script_pubkey prev) then
      match p2sh_redeem_script (script_sig txin) with
      | Some redeem => u64 (cost + count_sigops redeem true * WITNESS_SCALE_FACTOR)
      | None => cost
      end
    else cost in
  if verify_witness flags
  then u64 (cost + witness_sigop_cost (script_pubkey prev) (script_sig txin) (witness txin)) else cost.

Definition add_spent (acc : TxAcc) (o : OutPoint) (utxo : UtxoEntry) (cost : Z) : TxAcc :=
  let b := acc_batch acc in
  mkAcc (mkBatch (inserts b) (removals b ++ [o]) (batch_spent b ++ [mkSpent o utxo])) (spent_in_block acc)
    (total_fees acc) cost (intra_block_utxos acc) (script_checks acc).

Definition mark_spent (acc : TxAcc) (o : OutPoint) : TxAcc :=
  mkAcc (acc_batch acc) ({[o]} ∪ spent_in_block acc) (total_fees acc) (total_sigop_cost acc)
    (intra_block_utxos acc) (script_checks acc).

Definition spend_input (height : Z) (flags : ScriptFlags) (ia : InAcc) (txin : TxIn) : CM InAcc :=
  let acc := in_outer ia in
  let o := previous_output txin in
  _ ← lift (guard_err (bool_decide (o ∈ spent_in_block acc)) (DoubleSpend "outpoint spent twice in block"));
  let acc := mark_spent acc o in
  stored ← on_utxo (utxo_get o);
  utxo ← lift (ok_or (match stored with Some u => Some u | None => intra_block_utxos acc !! o end) (MissingUtxo "outpoint"));
  p ← gets params;
  _ ← lift (guard_err (entry_coinbase utxo && (sat_sub height (entry_height utxo) <? coinbase_maturity p))
              (InvalidTransaction "spending immature coinbase"));
  let prev := mkTxOut (amount utxo) (entry_script utxo) in
  mret (mkInAcc (add_spent acc o utxo (spend_sigops flags prev txin (total_sigop_cost acc)))
          (u64 (input_sum ia + amount utxo)) (tx_prevouts ia ++ [prev]) (input_heights ia ++ [entry_height utxo])).

(** The median-time-past before the block that confirmed a coin. *)
Definition coin_time (c : ChainState) (coin_height : Z) : CoreResult Z :=
  let h := sat_sub coin_height 1 in
  ok_or (hash ← match get_hash_at_height (header_index c) h with Ok o => o | Err _ => None end;
         get_median_time_past (get_header (header_index c)) hash)
    (ChainContext "cannot compute BIP 68 time reference").

Definition needs_time_mtp (tx : Transaction) : bool :=
  (2 <=? tx_version tx) && existsb (fun i => negb (seq_bit (sequence i) 31) && seq_bit (sequence i) 22) (input tx).

Definition check_sequence_locks (height block_mtp : Z) (tx : Transaction) (heights : list Z) : CM unit :=
  c ← gets id;
  if height >=? csv_height (params c) then
    times ← lift (if needs_time_mtp tx
                  then foldM (fun acc h => t ← coin_time c h; Ok (acc ++ [t])) [] heights
                  else Ok (replicate (length (input tx)) 0));
    lift (validate_sequence_locks heights times tx height block_mtp)
  else mret tt.

(** BIP-110 grandfathers the coins created before the activation height. *)
Definition input_enforces (a : Bip110Activation) (coin_height : Z) : bool :=
  enforcing a && match activation_height a with Some h => coin_height >=? h | None => false end.

Definition queue_checks (acc : TxAcc) (tx : Transaction) (prevouts : list TxOut) (heights : list Z) (wtxid : hash256)
    (a : Bip110Activation) : TxAcc :=
  mkAcc (acc_batch acc) (spent_in_block acc) (total_fees acc) (total_sigop_cost acc) (intra_block_utxos acc)
    (script_checks acc ++ imap (fun vin h => mkCheck tx vin prevouts wtxid (input_enforces a h)) heights).

Definition add_fees (acc : TxAcc) (fee : Z) : TxAcc :=
  mkAcc (acc_batch acc) (spent_in_block acc) (u64 (total_fees acc + fee)) (total_sigop_cost acc) (intra_block_utxos acc)
    (script_checks acc).

Record TxContext := mkTxContext {
  tc_block : Block;
  tc_height : Z;
  tc_txids : list hash256;
  tc_wtxids : option (list hash256);
  tc_flags : ScriptFlags;
  tc_verify_scripts : bool;
  tc_mtp : Z;
  tc_bip110 : Bip110Activation }.

(** A transaction other than the coinbase. *)
Definition validate_spend (k : TxContext) (tx_idx : nat) (txid : hash256) (tx : Transaction) (acc : TxAcc) : CM TxAcc :=
  let height := tc_height k in
  p ← gets params;
  let locktime_time := if height >=? csv_height p then tc_mtp k else time (header (tc_block k)) in
  _ ← lift (guard_err (negb (is_final_tx tx height locktime_time)) (InvalidTransaction "bad-txns-nonfinal"));
  ia ← foldS (spend_input height (tc_flags k)) (mkInAcc acc 0 [] []) (input tx);
  _ ← check_sequence_locks height (tc_mtp k) tx (input_heights ia);
  let acc := in_outer ia in
  let acc :=
    if tc_verify_scripts k then
      let wtxid := match tc_wtxids k with Some w => default [] (w !! tx_idx) | None => compute_wtxid tx end in
      queue_checks acc tx (tx_prevouts ia) (input_heights ia) wtxid (tc_bip110 k)
    else acc in
  let output_sum := sum_outputs tx in
  _ ← lift (guard_err (output_sum >? input_sum ia) (InvalidTransaction "outputs exceed inputs"));
  mret (foldl add_created (add_fees acc (u64 (input_sum ia - output_sum))) (created_coins txid height false tx)).

Definition validate_tx (k : TxContext) (acc : TxAcc) (item : nat * Transaction) : CM TxAcc :=
  let '(tx_idx, tx) := item in
  let txid := default [] (tc_txids k !! tx_idx) in
  _ ← lift (check_transaction tx);
  _ ← lift (if enforcing (tc_bip110 k) then check_bip110_output_scripts tx else Ok tt);
  _ ← check_bip30 (tc_height k) txid tx;
  let acc := add_sigops acc (legacy_sigops tx * WITNESS_SCALE_FACTOR) in
  match tx_idx with
  | O => mret (foldl add_created acc (created_coins txid (tc_height k) true tx))
  | S _ => validate_spend k tx_idx txid tx acc
  end.

(** The reads behind the fee samples of the failure log. *)
Definition probe_input (_ : unit) (txin : TxIn) : CM unit := fun c =>
  let '(c, _) := on_utxo (utxo_get (previous_output txin)) c in (c, Ok tt).

Definition check_coinbase_value (k : TxContext) (fees : Z) : CM unit :=
  match txdata (tc_block k) with
  | [] => mret tt
  | coinbase :: rest =>
      p ← gets params;
      let max_value := u64 (block_subsidy p (tc_height k) + fees) in
      if sum_outputs coinbase >? max_value then
        _ ← foldS probe_input tt (concat (map input (take 3 rest)));
        lift (Err (InvalidSubsidy max_value (sum_outputs coinbase)))
      else mret tt
  end.

(** One parallel script check, through the signature cache. *)
Definition run_check (flags : ScriptFlags) (_ : unit) (s : ScriptCheck) : CM unit :=
  let flags := set_verify_bip110 flags (sc_enforce s) in
  let vin := Z.of_nat (sc_vin s) in
  cached ← gets (fun c => cache_contains (sig_cache c) (sc_wtxid s) vin flags);
  if cached : bool then mret tt
  else
    _ ← lift (match verify_script (sc_tx s) (sc_vin s) (sc_prevouts s) flags with
              | Ok _ => Ok tt
              | Err e => Err (InvalidScript ("script check failed: " +:+ display e))
              end);
    modify (fun c => set_sig_cache c (cache_insert sig_iter (sig_cache c) (sc_wtxid s) vin flags)).

Definition validate_transactions (k : TxContext) : CM UtxoBatch :=
  let txs := txdata (tc_block k) in
  _ ← on_utxo (prefetch (concat (map (fun tx => map previous_output (input tx)) (drop 1 txs))));
  acc ← foldS (validate_tx k) acc_new (imap pair txs);
  _ ← lift (guard_err (total_sigop_cost acc >? MAX_BLOCK_SIGOPS_COST) (InvalidTransaction "block sigop cost exceeds limit"));
  _ ← check_coinbase_value k (total_fees acc);
  _ ← foldS (run_check (tc_flags k)) tt (par_order (script_checks acc));
  mret (acc_batch acc).

(** ** Connecting a block *)

(** Scripts up to the assume-valid block are trusted. *)
Definition must_verify_scripts (hash : hash256) (height : Z) : CM bool :=
  c ← gets id;
  mret match assume_valid (params c) with
       | None => true
       | Some av =>
           if bool_decide (hash = av) then false
           else match get_header (header_index c) av with
                | Ok (Some h) => height >? sh_height h
                | _ => true
                end
       end.

(** The checks that precede the transactions.  [None] of the difficulty walk
    means missing headers; the walk always ends on an index whose heights go
    down by one along the parent links. *)
Definition check_context (block : Block) (height : Z) : CM Z :=
  c ← gets id;
  let get := get_header (header_index c) in
  let prev := prev_blockhash (header block) in
  block_mtp ← lift (if 0 <? height
                    then ok_or (get_median_time_past get prev) (ChainContext "cannot compute median-time-past")
                    else Ok 0);
  _ ← lift (guard_err ((0 <? height) && (time (header block) <=? block_mtp))
              (InvalidTimestamp "block time is not after median-time-past"));
  _ ← (if (0 <? height) && bool_decide (signet_challenge (params c) = None) then
         expected ← lift (ok_or (match get_next_work_required get WORK_FUEL (params c) prev (height - 1) (time (header block)) with
                                 | Done r => r
                                 | OutOfFuel => None
                                 end) (ChainContext "cannot compute required nBits"));
         lift (guard_err (negb (bits (header block) =? expected)) (InvalidDifficultyTarget "nBits mismatch"))
       else mret tt);
  mret block_mtp.

Definition block_flags (p : ConsensusParams) (block : Block) (height : Z) : ScriptFlags :=
  for_height height (time (header block)) (bip16_time p) (segwit_height p) (bip65_height p) (csv_height p)
    (bip66_height p) (taproot_height p).

Definition check_signaling (block : Block) (height : Z) (a : Bip110Activation) : CM unit :=
  k ← gets bip110_checker;
  match k with
  | Some k =>
      lift (guard_err (violates_mandatory_signaling a (dep k) height (u32 (version (header block))))
              (InvalidBlock "BIP-110: block in the mandatory-signaling window must signal"))
  | None => mret tt
  end.

(** Steps 1 to 7 of [connect_block_with_raw]: everything that can reject the
    block, up to the UTXO batch. *)
Definition validate_block (now : Z) (block : Block) (height : Z) (hash : hash256) (txids : list hash256) : CM UtxoBatch :=
  let prev := prev_blockhash (header block) in
  prev_header ← (if 0 <? height then read_index (fun hi => get_header hi prev) else mret None);
  p ← gets params;
  _ ← lift (validate_block_header (header block) height (sh_header <$> prev_header) p now);
  _ ← lift (verify_merkle_root_with_txids block txids);
  _ ← lift (validate_block_weight block p);
  _ ← lift (validate_coinbase block height p);
  verify_scripts ← must_verify_scripts hash height;
  let need_commitment := (height >=? segwit_height p) && block_has_witness block in
  let wtxids := if verify_scripts || need_commitment then Some (map compute_wtxid (txdata block)) else None in
  _ ← lift (if need_commitment then validate_witness_commitment_with_wtxids block (default [] wtxids) else Ok tt);
  block_mtp ← check_context block height;
  bip110 ← bip110_activation prev height;
  _ ← check_signaling block height bip110;
  validate_transactions (mkTxContext block height txids wtxids (block_flags p block height) verify_scripts block_mtp bip110).

(** The header of a connected block is stored if it was not yet. *)
Definition ensure_header (block : Block) (height : Z) (hash : hash256) : CM unit :=
  own ← read_index (fun hi => get_header hi hash);
  match own with
  | Some _ => mret tt
  | None =>
      parent ← read_index (fun hi => get_header hi (prev_blockhash (header block)));
      match parent with
      | Some parent =>
          on_index (insert_header hash
            (mkStored (header block) height (add_chain_work (chain_work parent) (calculate_work (header_target (header block))))))
      | None => mret tt
      end
  end.

Definition connect_block_with_raw (now : Z) (block : Block) (height : Z) (raw_bytes : option bytes) : CM (list hash256) :=
  let hash := block_hash (header block) in
  let txids := map compute_txid (txdata block) in
  utxo_batch ← validate_block now block height hash txids;
  let raw_block := match raw_bytes with Some b => b | None => serialize_block block end in
  block_pos ← on_blocks (store_block_async raw_block);
  _ ← on_index (set_block_pos hash block_pos);
  _ ← on_index (set_height_hash height hash);
  _ ← ensure_header block height hash;
  _ ← on_utxo (store_undo hash (batch_spent utxo_batch) (map fst (inserts utxo_batch)) (prev_blockhash (header block)));
  _ ← on_utxo (set_pending_flush_height height hash);
  flushed ← on_utxo (apply_batch utxo_batch);
  _ ← on_tx_index (index_block_at_height hash txids height (Some (compute_tx_locations block)));
  _ ← modify (fun c => set_tip c height hash);
  _ ← (if flushed : bool then
         _ ← on_index (set_best_tip hash height);
         _ ← on_index (set_validated_height height);
         on_index flush_wal
       else mret tt);
  _ ← (if height mod 10000 =? 0 then modify (fun c => set_sig_cache c (cache_clear (sig_cache c))) else mret tt);
  mret txids.

Definition connect_block (now : Z) (block : Block) (height : Z) : CM (list hash256) :=
  connect_block_with_raw now block height None.

(** ** Disconnecting a block *)

Definition created_outputs (tx : Transaction) : list OutPoint :=
  let txid := compute_txid tx in
  omap (fun '(vout, o) =>
    if script_is_op_return (script_pubkey o) then None else Some (mkOutPoint txid (u32 (Z.of_nat vout))))
    (imap pair (output tx)).

Definition undo_batch (block : Block) (undo : UndoData) : UtxoBatch :=
  mkBatch (map (fun s => (spent_outpoint s, spent_entry s)) (spent_utxos undo))
    (concat (map created_outputs (reverse (txdata block)))) [].

Definition disconnect_block (block : Block) (height : Z) : CM unit :=
  let hash := block_hash (header block) in
  let prev := prev_blockhash (header block) in
  c ← gets id;
  _ ← lift (guard_err (negb (bool_decide (hash = best_hash c))) (InvalidTransaction "cannot disconnect: not the current tip"));
  _ ← lift (guard_err (negb (height =? best_height c)) (InvalidTransaction "height mismatch"));
  undo ← on_utxo (load_undo hash);
  undo ← lift (ok_or undo (UndoMissing hash height));
  _ ← on_utxo (set_pending_flush_height (sat_sub height 1) prev);
  _ ← on_utxo (apply_batch (undo_batch block undo));
  _ ← on_utxo (delete_undo hash);
  _ ← on_tx_index (deindex_block (map compute_txid (txdata block)));
  _ ← modify (fun c => set_tip c (sat_sub height 1) prev);
  c ← gets id;
  _ ← match get_hash_at_height (header_index c) height with
      | Ok (Some h) => if bool_decide (h = hash) then on_index (delete_height_entry height) else mret tt
      | _ => on_index (delete_height_entry height)
      end;
  _ ← on_utxo flush_to_disk;
  c ← gets id;
  on_index (set_best_tip (best_hash c) (best_height c)).
End Chain.
