(* ===== verification/ChainProofs.v ===== *)
(** * Validation of a block

    [validate_block] changes caches only, and the batch it returns spends
    available coins once each, creates the outputs of the block, and leaves at
    most the subsidy more value than there was. *)

From Stdlib Require Import ZArith Lia.
From stdpp Require Import base option numbers list gmap strings.
From S2P Require Import Prelude Bytes U256 Types ScriptBytes Signatures VerifyScript Consensus Validation ValidationProofs Store HeaderIndex TxIndex BlockStore Bip110 UtxoSet UtxoProofs ChainState.

(** ** Value *)

(** A finite map of coins and their total. *)
Abbreviation coin_set := (gmap bytes UtxoEntry).

Definition total (M : coin_set) : Z := map_fold (fun _ e s => amount e + s) 0 M.

Definition represents (M : coin_set) (m : coin_map) : Prop := forall k, M !! k = m k.

Definition amounts_ok (M : coin_set) : Prop := forall k e, M !! k = Some e -> 0 <= amount e.

Lemma total_insert_fresh M k e : M !! k = None -> total (<[k := e]> M) = amount e + total M.
Proof. intros Hk. unfold total. rewrite map_fold_insert_L; [done| |done]. intros. lia. Qed.

Lemma total_delete M k e : M !! k = Some e -> total (delete k M) = total M - amount e.
Proof.
  intros Hk. rewrite <- (insert_delete_id M k e Hk) at 2. rewrite total_insert_fresh by apply lookup_delete_eq. lia.
Qed.

Lemma amounts_ok_delete M k : amounts_ok M -> amounts_ok (delete k M).
Proof. intros HM k' e [_ Hk]%lookup_delete_Some. by apply (HM k'). Qed.
Lemma amounts_ok_insert M k e : 0 <= amount e -> amounts_ok M -> amounts_ok (<[k := e]> M).
Proof. intros He HM k' e' [[_ <-]|[_ Hk]]%lookup_insert_Some; [done|by apply (HM k')]. Qed.

Lemma total_nonneg M : amounts_ok M -> 0 <= total M.
Proof.
  induction M as [|k e M Hk IH] using map_ind; intros HM; [done|]. rewrite total_insert_fresh by done.
  pose proof (HM k e (lookup_insert_eq _ _ _)). assert (amounts_ok M); [|specialize (IH ltac:(done)); lia].
  intros k' e' Hk'. apply (HM k'). rewrite lookup_insert_ne; [done|congruence].
Qed.

Lemma total_insert_le M k e : amounts_ok M -> 0 <= amount e -> total (<[k := e]> M) <= total M + amount e.
Proof.
  intros HM He. destruct (M !! k) as [e'|] eqn:Hk.
  - rewrite <- insert_delete_eq, total_insert_fresh by apply lookup_delete_eq. rewrite (total_delete _ _ _ Hk).
    pose proof (HM _ _ Hk). lia.
  - rewrite total_insert_fresh by done. lia.
Qed.

Lemma total_subseteq M N : amounts_ok N -> M ⊆ N -> total M <= total N.
Proof.
  revert N. induction M as [|k e M Hk IH] using map_ind; intros N HN Hsub.
  - by apply total_nonneg.
  - assert (HkN : N !! k = Some e) by (eapply lookup_weaken; [apply lookup_insert_eq|exact Hsub]).
    rewrite total_insert_fresh by done.
    assert (Hle : total M <= total (delete k N)).
    { apply IH; [by apply amounts_ok_delete|]. apply map_subseteq_spec. intros k' e' Hk'.
      rewrite lookup_delete_ne by congruence. eapply lookup_weaken; [|exact Hsub]. by rewrite lookup_insert_ne by congruence. }
    rewrite (total_delete _ _ _ HkN) in Hle. lia.
Qed.

(** ** The state outside the coins *)

Section Chain.
Context `{Hashes} `{ScriptLib} `{SigLib} `{TxLib} `{OutPointOrd} `{TxSizes} `{HR : RocksDb} `{HL : !RocksLaws}
  `{HW : !RocksWal} `{HeaderCodec} `{BlockFiles} `{HM : MapIter} `{HMI : !MapIterLaws} `{HRun : Runtime} `{HRL : !RuntimeLaws}.
Implicit Types c : ChainState.

(** Two states that may differ in the caches only. *)
Definition same_chain c c' : Prop :=
  params c' = params c /\ header_index c' = header_index c /\ block_store c' = block_store c /\
  tx_index c' = tx_index c /\ best_height c' = best_height c /\ best_hash c' = best_hash c /\
  utxo_inv (utxo_set c') /\ same_view (utxo_set c) (utxo_set c').

Lemma same_chain_refl c : utxo_inv (utxo_set c) -> same_chain c c.
Proof. intros Hu. unfold same_chain. split_and!; try done; apply same_view_refl. Qed.

Lemma same_view_trans (u1 u2 u3 : UtxoSet) : same_view u1 u2 -> same_view u2 u3 -> same_view u1 u3.
Proof. intros (? & ? & Hv) (? & ? & Hv'). split_and!; [congruence..|]. intros k. by rewrite Hv', Hv. Qed.

Lemma same_chain_trans c1 c2 c3 : same_chain c1 c2 -> same_chain c2 c3 -> same_chain c1 c3.
Proof.
  intros (? & ? & ? & ? & ? & ? & _ & ?) (? & ? & ? & ? & ? & ? & ? & ?). unfold same_chain.
  split_and!; try congruence; by eapply same_view_trans.
Qed.

(** A computation that changes caches only, and whose result satisfies [P]. *)
Definition reads {A} (m : stm ChainState CoreError A) (c0 : ChainState) (P : A -> Prop) : Prop := steps (same_chain c0) m P.

Lemma reads_ret {A} c0 (a : A) (P : A -> Prop) : P a -> reads (mret a) c0 P.
Proof. apply steps_ret. Qed.

Lemma reads_bind {A B} c0 (m : stm ChainState CoreError A) (f : A -> stm ChainState CoreError B) (P : A -> Prop) (Q : B -> Prop) :
  reads m c0 P -> (forall a, P a -> reads (f a) c0 Q) -> reads (m ≫= f) c0 Q.
Proof. apply steps_bind. Qed.

Lemma reads_lift {A} c0 (r : CoreResult A) (P : A -> Prop) : (forall a, r = Ok a -> P a) -> reads (lift r) c0 P.
Proof. apply steps_lift. Qed.

Lemma reads_mono {A} c0 (m : stm ChainState CoreError A) (P Q : A -> Prop) : (forall a, P a -> Q a) -> reads m c0 P -> reads m c0 Q.
Proof. apply steps_mono. Qed.

Lemma reads_params c0 : reads (gets params) c0 (fun p => p = params c0).
Proof. intros c Hc. apply wp_gets. split; [done|]. intros p [= <-]. by destruct Hc. Qed.

Lemma reads_foldS {A B} c0 (I : list A -> B -> Prop) (f : B -> A -> stm ChainState CoreError B) (l : list A) (b : B) :
  (forall pre x suf b, l = pre ++ x :: suf -> I pre b -> reads (f b x) c0 (I (pre ++ [x]))) ->
  I [] b -> reads (foldS f b l) c0 (I l).
Proof. apply steps_foldS. Qed.

Lemma set_utxo_same c0 c u :
  same_chain c0 c -> utxo_inv u -> same_view (utxo_set c) u -> same_chain c0 (set_utxo c u).
Proof.
  intros (? & ? & ? & ? & ? & ? & ? & ?) Hu Hv. unfold same_chain, set_utxo. cbn.
  split_and!; try congruence; try done. by eapply same_view_trans.
Qed.

Lemma reads_on_utxo {A} c0 (m : stm UtxoSet StorageError A) (P : A -> Prop) :
  (forall u, utxo_inv u -> (forall k, coins u k = coins (utxo_set c0) k) ->
    wp m (fun u' r => utxo_inv u' /\ same_view u u' /\ forall a, r = Ok a -> P a) u) ->
  reads (on_utxo m) c0 P.
Proof.
  intros Hm c Hc. pose proof Hc as (_ & _ & _ & _ & _ & _ & Hu & (_ & _ & Hv)).
  specialize (Hm (utxo_set c) Hu Hv). unfold wp, on_utxo in *.
  destruct (m (utxo_set c)) as [u' r]. cbn [fst snd] in *. destruct Hm as (Hi & Hs & HP). split.
  - by apply set_utxo_same.
  - intros a Ha. destruct r as [x|e]; [|done]. cbn in Ha. injection Ha as ->. by apply HP.
Qed.

Lemma reads_coin c0 o : reads (on_utxo (utxo_get o)) c0 (fun x => x = coins (utxo_set c0) (outpoint_key o)).
Proof.
  apply reads_on_utxo. intros u Hu Hv. eapply wp_mono; [|by apply utxo_get_spec]. cbv beta.
  intros u' r (Hi & Hs & Hx). split_and!; [done|done|]. intros a Ha. rewrite (Hx a Ha). apply Hv.
Qed.

Lemma reads_contains c0 o :
  reads (on_utxo (utxo_contains o)) c0 (fun b => b = bool_decide (is_Some (coins (utxo_set c0) (outpoint_key o)))).
Proof.
  apply reads_on_utxo. intros u Hu Hv. eapply wp_mono; [|by apply utxo_contains_spec]. cbv beta.
  intros u' r [-> Hx]. split_and!; [done|apply same_view_refl|]. intros a Ha. by rewrite (Hx a Ha), Hv.
Qed.

Lemma reads_prefetch c0 os : reads (on_utxo (prefetch os)) c0 (fun _ => True).
Proof.
  apply reads_on_utxo. intros u Hu Hv. eapply wp_mono; [|by apply prefetch_spec]. cbv beta.
  intros u' r (Hi & Hs). by split_and!.
Qed.

(** ** Value through a block *)

Section Value.
Context (c0 : ChainState).
Abbreviation U0 := (coins (utxo_set c0)).

(** The coins available while the block is processed: [W] holds the coins of
    the set and of the outputs created so far, without those spent so far. *)
Record acc_inv (W : coin_set) (b : UtxoBatch) (spent : gset OutPoint) (intra : gmap OutPoint UtxoEntry) : Prop := {
  inv_spent o : o ∈ spent <-> o ∈ removals b;
  inv_amounts : amounts_ok W;
  inv_rest k : k ∉ map outpoint_key (removals b) -> W !! k = foldl spec_insert U0 (inserts b) k;
  inv_intra o : outpoint_ok o ->
    foldl spec_insert U0 (inserts b) (outpoint_key o) = match intra !! o with Some e => Some e | None => U0 (outpoint_key o) end;
  inv_created o e : intra !! o = Some e -> (o, e) ∈ inserts b;
  inv_inserts i : i ∈ inserts b -> outpoint_ok i.1 /\ entry_ok i.2 /\ U0 (outpoint_key i.1) = None;
  inv_removals : removals b = map spent_outpoint (batch_spent b) /\ NoDup (removals b);
  inv_origin s : s ∈ batch_spent b -> outpoint_ok (spent_outpoint s) /\
    (U0 (outpoint_key (spent_outpoint s)) = Some (spent_entry s) \/
     U0 (outpoint_key (spent_outpoint s)) = None /\ (spent_outpoint s, spent_entry s) ∈ inserts b) }.

Lemma removal_ok W b spent intra o : acc_inv W b spent intra -> o ∈ removals b -> outpoint_ok o.
Proof.
  intros Hi Ho. destruct (inv_removals _ _ _ _ Hi) as [Hr _]. rewrite Hr in Ho.
  apply list_elem_of_fmap in Ho as (s & -> & Hs). by apply (inv_origin _ _ _ _ Hi).
Qed.

(** Spending an available coin. *)
Lemma acc_inv_spend W b spent intra o e :
  acc_inv W b spent intra -> outpoint_ok o -> o ∉ spent ->
  match U0 (outpoint_key o) with Some u => Some u | None => intra !! o end = Some e ->
  W !! outpoint_key o = Some e /\
  acc_inv (delete (outpoint_key o) W) (mkBatch (inserts b) (removals b ++ [o]) (batch_spent b ++ [mkSpent o e]))
    ({[o]} ∪ spent) intra.
Proof.
  intros Hi Ho Hn He.
  assert (Hkey : outpoint_key o ∉ map outpoint_key (removals b)).
  { intros (o' & Heq & Ho')%list_elem_of_fmap. apply Hn, (inv_spent _ _ _ _ Hi).
    by rewrite (outpoint_key_inj o o' Ho (removal_ok _ _ _ _ _ Hi Ho') Heq). }
  assert (Hcoin : match intra !! o with Some x => Some x | None => U0 (outpoint_key o) end = Some e /\
    (U0 (outpoint_key o) = Some e \/ U0 (outpoint_key o) = None /\ (o, e) ∈ inserts b)).
  { destruct (intra !! o) as [x|] eqn:Hx.
    - pose proof (inv_created _ _ _ _ Hi _ _ Hx) as Hin. destruct (inv_inserts _ _ _ _ Hi _ Hin) as (_ & _ & Hnone).
      cbn in Hnone. rewrite Hnone in He |- *. injection He as <-. auto.
    - destruct (U0 (outpoint_key o)); [injection He as <-; auto|done]. }
  destruct Hcoin as [Hval Horig]. split; [by rewrite (inv_rest _ _ _ _ Hi _ Hkey), (inv_intra _ _ _ _ Hi)|].
  destruct (inv_removals _ _ _ _ Hi) as [Hr Hnd]. constructor; cbn [inserts removals batch_spent].
  - intros o'. rewrite elem_of_union, elem_of_singleton, elem_of_app, list_elem_of_singleton, (inv_spent _ _ _ _ Hi). tauto.
  - apply amounts_ok_delete, (inv_amounts _ _ _ _ Hi).
  - intros k Hk. rewrite fmap_app in Hk. apply not_elem_of_app in Hk as [Hk1 Hk2].
    rewrite lookup_delete_ne by (intros <-; by apply Hk2, list_elem_of_singleton). by apply (inv_rest _ _ _ _ Hi).
  - apply (inv_intra _ _ _ _ Hi).
  - apply (inv_created _ _ _ _ Hi).
  - apply (inv_inserts _ _ _ _ Hi).
  - rewrite map_app, Hr. split; [done|]. apply NoDup_app. rewrite <- Hr. split_and!; [done| |apply NoDup_singleton].
    intros x Hx ->%list_elem_of_singleton. by apply Hn, (inv_spent _ _ _ _ Hi).
  - intros s [Hs| ->%list_elem_of_singleton]%elem_of_app; [by apply (inv_origin _ _ _ _ Hi)|done].
Qed.

(** Creating a fresh coin. *)
Lemma acc_inv_create W b spent intra i :
  acc_inv W b spent intra -> outpoint_ok i.1 -> entry_ok i.2 -> U0 (outpoint_key i.1) = None ->
  exists W', acc_inv W' (mkBatch (inserts b ++ [i]) (removals b) (batch_spent b)) spent (<[i.1 := i.2]> intra) /\
    total W' <= total W + amount i.2.
Proof.
  intros Hi Ho He Hnone. exists (<[outpoint_key i.1 := i.2]> W).
  split; [|apply total_insert_le; [apply (inv_amounts _ _ _ _ Hi)|by destruct He as [[? _] _]]].
  destruct (inv_removals _ _ _ _ Hi) as [Hr Hnd]. constructor; cbn [inserts removals batch_spent].
  - apply (inv_spent _ _ _ _ Hi).
  - apply amounts_ok_insert; [by destruct He as [[? _] _]|apply (inv_amounts _ _ _ _ Hi)].
  - intros k Hk. rewrite foldl_snoc. unfold spec_insert at 1. case_bool_decide as Heq.
    + subst. apply lookup_insert_eq.
    + rewrite lookup_insert_ne by congruence. by apply (inv_rest _ _ _ _ Hi).
  - intros o Hoo. rewrite foldl_snoc. unfold spec_insert at 1. case_bool_decide as Heq.
    + apply outpoint_key_inj in Heq; [|done|done]. subst. by rewrite lookup_insert_eq.
    + rewrite lookup_insert_ne by congruence. by apply (inv_intra _ _ _ _ Hi).
  - intros o e. rewrite lookup_insert_Some, elem_of_app, list_elem_of_singleton. intros [[<- <-]|[_ Hx]].
    + right. by destruct i.
    + left. by apply (inv_created _ _ _ _ Hi).
  - intros j [Hj| ->%list_elem_of_singleton]%elem_of_app; [by apply (inv_inserts _ _ _ _ Hi)|done].
  - done.
  - intros s Hs. destruct (inv_origin _ _ _ _ Hi s Hs) as [? [?|[? ?]]]; (split; [done|]); [by left|right].
    split; [done|]. apply elem_of_app. by left.
Qed.

Abbreviation acc_ok W acc := (acc_inv W (acc_batch acc) (spent_in_block acc) (intra_block_utxos acc)).

Lemma add_created_inv l : forall W acc,
  acc_ok W acc -> Forall (fun i => outpoint_ok i.1 /\ entry_ok i.2 /\ U0 (outpoint_key i.1) = None) l ->
  exists W', acc_ok W' (foldl add_created acc l) /\
    total W' <= total W + foldr (fun i n => amount i.2 + n) 0 l /\
    inserts (acc_batch (foldl add_created acc l)) = inserts (acc_batch acc) ++ l /\
    removals (acc_batch (foldl add_created acc l)) = removals (acc_batch acc) /\
    total_fees (foldl add_created acc l) = total_fees acc.
Proof.
  induction l as [|i l IH]; intros W acc Ha Hl; cbn [foldl foldr].
  { exists W. rewrite app_nil_r. split_and!; [done|lia|done..]. }
  apply Forall_cons in Hl as [(Ho & He & Hn) Hl].
  destruct (acc_inv_create _ _ _ _ i Ha Ho He Hn) as (W1 & Ha1 & Ht1).
  destruct (IH W1 (add_created acc i) Ha1 Hl) as (W2 & Ha2 & Ht2 & Hins & Hrem & Hf).
  exists W2. split_and!; [done|lia| |done|done]. rewrite Hins. cbn. by rewrite <- app_assoc.
Qed.

(** *** Inputs *)

Definition in_inv (W0 : coin_set) (acc0 : TxAcc) (pre : list TxIn) (ia : InAcc) : Prop :=
  exists W, acc_ok W (in_outer ia) /\ total W = total W0 - input_sum ia /\ 0 <= input_sum ia /\
    inserts (acc_batch (in_outer ia)) = inserts (acc_batch acc0) /\
    removals (acc_batch (in_outer ia)) = removals (acc_batch acc0) ++ map previous_output pre /\
    total_fees (in_outer ia) = total_fees acc0.

Lemma spend_input_inv W0 acc0 height flags pre ia txin :
  total W0 < 2 ^ 64 -> outpoint_ok (previous_output txin) -> in_inv W0 acc0 pre ia ->
  reads (spend_input height flags ia txin) c0 (in_inv W0 acc0 (pre ++ [txin])).
Proof.
  intros Hlim Ho (W & Ha & Ht & Hs & Hins & Hrem & Hf). unfold spend_input.
  eapply reads_bind; [apply (reads_lift _ _ (fun _ => previous_output txin ∉ spent_in_block (in_outer ia)))|].
  { intros [] Hg. apply guard_err_Ok in Hg. by apply bool_decide_eq_false in Hg. }
  intros [] Hn. cbv beta in Hn. eapply reads_bind; [apply reads_coin|]. cbv beta. intros stored ->.
  eapply reads_bind; [apply (reads_lift _ _ (fun u => match U0 (outpoint_key (previous_output txin)) with
    Some u => Some u | None => intra_block_utxos (in_outer ia) !! previous_output txin end = Some u))|].
  { intros u Hu. by apply ok_or_Ok in Hu. }
  intros u Hu. eapply reads_bind; [apply reads_params|]. cbv beta. intros p ->.
  eapply reads_bind; [apply (reads_lift _ _ (fun _ => True)); done|]. intros ? _.
  destruct (acc_inv_spend _ _ _ _ _ _ Ha Ho Hn Hu) as [HWo Ha'].
  pose proof (total_delete _ _ _ HWo) as Hd. pose proof (total_nonneg _ (inv_amounts _ _ _ _ Ha')) as Hnn.
  pose proof (inv_amounts _ _ _ _ Ha _ _ HWo) as Hamt.
  apply reads_ret. exists (delete (outpoint_key (previous_output txin)) W).
  cbn [in_outer input_sum add_spent mark_spent acc_batch spent_in_block intra_block_utxos total_fees inserts removals batch_spent].
  rewrite wrap_small by (unfold fits; lia). rewrite Hrem, map_app, app_assoc.
  split_and!; [rewrite <- Hrem; exact Ha'|lia|lia|done|done|done].
Qed.

Lemma spend_inputs_inv W0 acc0 height flags l :
  total W0 < 2 ^ 64 -> Forall (fun i => outpoint_ok (previous_output i)) l -> acc_ok W0 acc0 ->
  reads (foldS (spend_input height flags) (mkInAcc acc0 0 [] []) l) c0 (in_inv W0 acc0 l).
Proof.
  intros Hlim Hl Ha. apply (reads_foldS c0 (in_inv W0 acc0)).
  - intros pre x suf ia -> Hia. apply spend_input_inv; [done| |done].
    rewrite Forall_forall in Hl. apply Hl. apply elem_of_app. right. by left.
  - exists W0. cbn [in_outer input_sum map]. rewrite app_nil_r. split_and!; [done|lia|lia|done..].
Qed.

(** *** Outputs *)

Definition tx_wf (tx : Transaction) : Prop :=
  Forall (fun i => outpoint_ok (previous_output i)) (input tx) /\
  Forall (fun o => fits 64 (value o) /\ bytes_ok (script_pubkey o) /\ len (script_pubkey o) < 2 ^ 32 - 17) (output tx) /\
  len (output tx) < 2 ^ 32 /\ length (compute_txid tx) = 32%nat /\ bytes_ok (compute_txid tx).

Lemma tx_wf_values tx : tx_wf tx -> Forall (fun o => 0 <= value o) (output tx).
Proof. intros (_ & Ho & _). eapply Forall_impl; [exact Ho|]. by intros o ((? & _) & _). Qed.

Lemma elem_of_created txid height cb tx i :
  i ∈ created_coins txid height cb tx -> exists vout o, output tx !! vout = Some o /\
    i = (mkOutPoint txid (u32 (Z.of_nat vout)), mkUtxoEntry (value o) (script_pubkey o) height cb).
Proof.
  unfold created_coins. intros ([vout o] & Hin & Hsome)%list_elem_of_omap.
  destruct (script_is_op_return _); [done|]. injection Hsome as <-.
  apply list_elem_of_lookup in Hin as [j Hj]. rewrite list_lookup_imap in Hj.
  destruct (output tx !! j) as [o'|] eqn:Ho; [|done]. injection Hj as <- <-. eauto.
Qed.

Lemma created_sum_le txid height cb tx :
  Forall (fun o => 0 <= value o) (output tx) ->
  foldr (fun i n => amount i.2 + n) 0 (created_coins txid height cb tx) <= sum_values (output tx).
Proof.
  unfold created_coins. intros Hv. assert (Hp : forall i o, snd (@pair nat TxOut i o) = o) by done. revert Hp.
  generalize (@pair nat TxOut) as f. induction Hv as [|o l Ho Hv IH]; intros f Hf; [done|].
  rewrite imap_cons, sum_values_cons. specialize (IH (f ∘ S) (fun i o => Hf (S i) o)).
  cbn [omap list_omap]. specialize (Hf 0%nat o). destruct (f 0%nat o) as [j o']. cbn in Hf. subst o'.
  destruct (script_is_op_return _); cbn [foldr snd amount]; lia.
Qed.

Lemma created_ok height cb tx :
  tx_wf tx -> fits 31 height ->
  Forall (fun i => outpoint_ok i.1 /\ entry_ok i.2) (created_coins (compute_txid tx) height cb tx).
Proof.
  intros (_ & Ho & Hl & Ht1 & Ht2) Hh. apply Forall_forall. intros i (vout & o & Hvo & ->)%elem_of_created.
  apply (Forall_lookup_1 _ _ _ _ Ho) in Hvo as (Hv & Hb & Hs). unfold outpoint_ok, entry_ok. cbn.
  split_and!; try done; by apply wrap_fits.
Qed.

Lemma sum_outputs_eq tx :
  Forall (fun o => 0 <= value o) (output tx) -> sum_values (output tx) <= MAX_MONEY ->
  sum_outputs tx = sum_values (output tx).
Proof.
  unfold sum_outputs. intros Hv Hm. assert (Hgen : forall l n, Forall (fun o => 0 <= value o) l -> 0 <= n ->
    n + sum_values l <= MAX_MONEY -> foldl (fun s o => u64 (s + value o)) n l = n + sum_values l).
  { intros l. induction l as [|o l IH]; intros n Hl Hn Hle; cbn [foldl]; [by rewrite Z.add_0_r|].
    apply Forall_cons in Hl as [Ho Hl]. pose proof (sum_values_nonneg l Hl). rewrite sum_values_cons in *.
    rewrite wrap_small by (unfold fits, MAX_MONEY in *; lia). rewrite IH; [lia|done|lia|lia]. }
  by apply (Hgen (output tx) 0).
Qed.

Lemma check_transaction_sum tx u :
  Forall (fun o => 0 <= value o) (output tx) -> check_transaction tx = Ok u -> sum_values (output tx) <= MAX_MONEY.
Proof.
  intros Hv Hc. unfold check_transaction in Hc. apply bind_Ok_inv in Hc as (? & _ & Hc).
  apply bind_Ok_inv in Hc as (? & _ & Hc). apply bind_Ok_inv in Hc as (t & Hsum & _).
  apply (proj1 (add_outputs_Ok _ 0 t ltac:(unfold MAX_MONEY; lia) Hv)) in Hsum. lia.
Qed.

Lemma check_bip30_reads height txid tx :
  reads (check_bip30 height txid tx) c0 (fun _ => bip30_checked (params c0) height = true ->
    forall vout, (vout < length (output tx))%nat -> U0 (outpoint_key (mkOutPoint txid (u32 (Z.of_nat vout)))) = None).
Proof.
  unfold check_bip30. eapply reads_bind; [apply reads_params|]. cbv beta. intros p ->.
  destruct (bip30_checked (params c0) height); [|by apply reads_ret].
  eapply reads_mono; [|apply (reads_foldS c0 (fun pre _ => forall vout, vout ∈ pre ->
    U0 (outpoint_key (mkOutPoint txid (u32 (Z.of_nat vout)))) = None))].
  - intros [] Hall _ vout Hv. apply Hall. apply elem_of_seq. lia.
  - intros pre x suf [] _ Hpre. unfold check_no_coin. eapply reads_bind; [apply reads_contains|]. cbv beta.
    intros b ->. apply reads_lift. intros [] Hg. apply guard_err_Ok, bool_decide_eq_false in Hg.
    intros vout [Hv| ->%list_elem_of_singleton]%elem_of_app; [by apply Hpre|].
    by apply eq_None_not_Some.
  - intros vout Hv. by apply not_elem_of_nil in Hv.
Qed.

(** *** Transactions *)

Lemma reads_gets_id : reads (gets id) c0 (fun c => same_chain c0 c).
Proof. intros c Hc. apply wp_gets. split; [done|]. by intros ? [= <-]. Qed.

Lemma check_sequence_locks_reads height mtp tx heights : reads (check_sequence_locks height mtp tx heights) c0 (fun _ => True).
Proof.
  unfold check_sequence_locks. eapply reads_bind; [apply reads_gets_id|]. intros c Hc.
  destruct (_ >=? _); [|by apply reads_ret].
  eapply reads_bind; [apply (reads_lift _ _ (fun _ => True)); done|]. intros ? _. by apply reads_lift.
Qed.

Lemma run_checks_reads flags l : reads (foldS (run_check flags) tt l) c0 (fun _ => True).
Proof.
  apply (reads_foldS c0 (fun _ _ => True)); [|done]. intros pre s suf [] _ _ c Hc. unfold run_check.
  apply wp_bind, wp_gets. destruct (cache_contains _ _ _ _); [by apply wp_ret|].
  apply wp_bind, wp_lift. destruct (verify_script _ _ _ _); [|done]. by apply wp_modify.
Qed.

(** The coins the transactions create. *)
Definition block_coins (height : Z) (pre : list (nat * Transaction)) : list (OutPoint * UtxoEntry) :=
  concat (map (fun '(i, tx) => created_coins (compute_txid tx) height (i =? 0)%nat tx) pre).

(** The outpoints they spend. *)
Definition block_spends (pre : list (nat * Transaction)) : list OutPoint :=
  concat (map (fun '(i, tx) => if (i =? 0)%nat then [] else map previous_output (input tx)) pre).

(** The value that may be around after some transactions. *)
Definition coinbase_out (pre : list (nat * Transaction)) : Z :=
  match pre with [] => 0 | (_, cb) :: _ => sum_values (output cb) end.

Lemma block_coins_snoc height pre i tx :
  block_coins height (pre ++ [(i, tx)]) = block_coins height pre ++ created_coins (compute_txid tx) height (i =? 0)%nat tx.
Proof. unfold block_coins. rewrite map_app, concat_app. cbn. by rewrite app_nil_r. Qed.

Lemma block_spends_snoc pre i tx :
  block_spends (pre ++ [(i, tx)]) = block_spends pre ++ (if (i =? 0)%nat then [] else map previous_output (input tx)).
Proof. unfold block_spends. rewrite map_app, concat_app. cbn. by rewrite app_nil_r. Qed.

(** The batch of a valid block: the coins [W] that remain hold at most the
    subsidy more than the coins [M] before it. *)
Definition batch_inv (M : coin_set) (block : Block) (height : Z) (b : UtxoBatch) : Prop :=
  exists W spent intra, acc_inv W b spent intra /\ inserts b = block_coins height (imap pair (txdata block)) /\
    removals b = block_spends (imap pair (txdata block)) /\ total W <= total M + block_subsidy (params c0) height.

(** The block creates no coin that exists already. *)
Definition new_coins (block : Block) : Prop :=
  forall tx vout, tx ∈ txdata block -> (vout < length (output tx))%nat ->
    U0 (outpoint_key (mkOutPoint (compute_txid tx) (u32 (Z.of_nat vout)))) = None.

Section Block.
Context (M : coin_set) (k : TxContext).
Abbreviation txs := (txdata (tc_block k)).
Hypothesis Hrep : represents M U0.
Hypothesis HMa : amounts_ok M.
Hypothesis HMt : total M <= MAX_MONEY.
Hypothesis Hwf : Forall tx_wf txs.
Hypothesis Hheight : fits 31 (tc_height k).
Hypothesis Htxids : tc_txids k = map compute_txid txs.

Hypothesis Hnew : bip30_checked (params c0) (tc_height k) = false -> new_coins (tc_block k).

Definition tx_inv (pre : list (nat * Transaction)) (acc : TxAcc) : Prop :=
  exists W, acc_ok W acc /\ 0 <= total_fees acc /\ total W + total_fees acc <= total M + coinbase_out pre /\
    coinbase_out pre <= MAX_MONEY /\ inserts (acc_batch acc) = block_coins (tc_height k) pre /\
    removals (acc_batch acc) = block_spends pre.

Lemma tx_inv_start : tx_inv [] acc_new.
Proof.
  exists M. cbn [acc_new acc_batch spent_in_block intra_block_utxos total_fees coinbase_out block_coins].
  split_and!; [|lia|lia|unfold MAX_MONEY; lia|done|done]. constructor; cbn [batch_new inserts removals batch_spent].
  - intros o. rewrite elem_of_empty, elem_of_nil. done.
  - done.
  - intros x _. apply Hrep.
  - intros o _. by rewrite lookup_empty.
  - intros o e. by rewrite lookup_empty.
  - intros i Hi. by apply not_elem_of_nil in Hi.
  - split; [done|constructor].
  - intros s Hs. by apply not_elem_of_nil in Hs.
Qed.

Lemma imap_pair_split {A} (l : list A) pre i x suf :
  imap pair l = pre ++ (i, x) :: suf -> i = length pre /\ l !! i = Some x.
Proof.
  intros Hl. assert (Hi : imap pair l !! length pre = Some (i, x)) by by rewrite Hl, list_lookup_middle.
  rewrite list_lookup_imap in Hi. destruct (l !! length pre) as [y|] eqn:Hy; [|done]. by injection Hi as <- <-.
Qed.

(** The coins a transaction creates are well-formed and new. *)
Lemma created_new tx cb :
  tx ∈ txs -> tx_wf tx ->
  (bip30_checked (params c0) (tc_height k) = true -> forall vout, (vout < length (output tx))%nat ->
    U0 (outpoint_key (mkOutPoint (compute_txid tx) (u32 (Z.of_nat vout)))) = None) ->
  Forall (fun i => outpoint_ok i.1 /\ entry_ok i.2 /\ U0 (outpoint_key i.1) = None)
    (created_coins (compute_txid tx) (tc_height k) cb tx).
Proof.
  intros Hin Htx Hb30. pose proof (created_ok (tc_height k) cb tx Htx Hheight) as Hok.
  rewrite Forall_forall in *. intros c Hc. destruct (Hok c Hc) as [H1' H2']. split_and!; [done|done|].
  apply elem_of_created in Hc as (vout & o & Hvo & ->). cbn [fst]. apply lookup_lt_Some in Hvo.
  destruct (bip30_checked (params c0) (tc_height k)); [by apply Hb30|by apply Hnew].
Qed.

Lemma validate_spend_inv pre tx_idx tx acc :
  pre <> [] -> tx_idx <> 0%nat -> tx ∈ txs -> tx_wf tx -> tx_inv pre acc -> sum_values (output tx) <= MAX_MONEY ->
  (bip30_checked (params c0) (tc_height k) = true -> forall vout, (vout < length (output tx))%nat ->
    U0 (outpoint_key (mkOutPoint (compute_txid tx) (u32 (Z.of_nat vout)))) = None) ->
  reads (validate_spend k tx_idx (compute_txid tx) tx acc) c0 (tx_inv (pre ++ [(tx_idx, tx)])).
Proof.
  intros Hpre Hidx Hin Htx (W & Ha & Hf0 & Hft & Hcb & Hins & Hrem) Hsum Hb30. unfold validate_spend.
  eapply reads_bind; [apply reads_params|]. cbv beta. intros p ->.
  eapply reads_bind; [apply (reads_lift _ _ (fun _ => True)); done|]. intros ? _.
  assert (HW64 : total W < 2 ^ 64) by (unfold MAX_MONEY in *; lia).
  eapply reads_bind; [apply (spend_inputs_inv W acc); [done|by destruct Htx|done]|].
  intros ia (W1 & Ha1 & Ht1 & His & Hins1 & Hrem1 & Hfe1).
  eapply reads_bind; [apply check_sequence_locks_reads|]. intros ? _.
  eapply reads_bind; [apply (reads_lift _ _ (fun _ => sum_outputs tx <= input_sum ia))|].
  { intros [] Hg. apply guard_err_Ok in Hg. rewrite Z.gtb_ltb in Hg. by apply Z.ltb_ge in Hg. }
  intros [] Hle. cbv beta in Hle. pose proof (tx_wf_values tx Htx) as Hv.
  rewrite (sum_outputs_eq tx Hv Hsum) in *.
  pose proof (total_nonneg _ (inv_amounts _ _ _ _ Ha1)) as Hnn. pose proof (sum_values_nonneg _ Hv) as Hsv.
  pose proof (created_sum_le (compute_txid tx) (tc_height k) false tx Hv) as Hcs.
  assert (Hlim : total_fees acc + (input_sum ia - sum_values (output tx)) < 2 ^ 64) by (unfold MAX_MONEY in *; lia).
  set (acc1 := add_fees _ _). assert (Hacc1 : acc_ok W1 acc1 /\ inserts (acc_batch acc1) = block_coins (tc_height k) pre /\
    removals (acc_batch acc1) = block_spends pre ++ map previous_output (input tx) /\
    total_fees acc1 = total_fees acc + (input_sum ia - sum_values (output tx))).
  { subst acc1. rewrite (wrap_small 64 (input_sum ia - _)) by (unfold fits; lia).
    destruct (tc_verify_scripts k); cbn [add_fees queue_checks acc_batch spent_in_block intra_block_utxos total_fees];
      rewrite Hfe1, wrap_small by (unfold fits; lia); (split_and!; [done|congruence|congruence|done]). }
  clearbody acc1. destruct Hacc1 as (Hok1 & Hins2 & Hrem2 & Hf1).
  destruct (add_created_inv _ W1 acc1 Hok1 (created_new tx false Hin Htx Hb30)) as (W2 & Hok2 & Ht2 & Hins3 & Hrem3 & Hf2).
  apply reads_ret. exists W2. rewrite Hf2, Hf1, Hins3, Hins2, Hrem3, Hrem2, block_coins_snoc, block_spends_snoc.
  destruct pre as [|[i0 cb] pre]; [done|]. apply Nat.eqb_neq in Hidx. rewrite Hidx.
  cbn [coinbase_out app] in *. split_and!; [done|lia|lia|done..].
Qed.

Lemma validate_tx_inv pre tx_idx tx suf acc :
  imap pair txs = pre ++ (tx_idx, tx) :: suf -> tx_inv pre acc ->
  reads (validate_tx k acc (tx_idx, tx)) c0 (tx_inv (pre ++ [(tx_idx, tx)])).
Proof.
  intros Hsplit Hinv. apply imap_pair_split in Hsplit as [Hidx Hlook]. unfold validate_tx.
  assert (Hin : tx ∈ txs) by by eapply list_elem_of_lookup_2.
  assert (Htx : tx_wf tx) by by eapply Forall_forall in Hwf.
  assert (Hid : default [] (tc_txids k !! tx_idx) = compute_txid tx) by by rewrite Htxids, list_lookup_fmap, Hlook.
  rewrite Hid. eapply reads_bind; [apply (reads_lift _ _ (fun _ => sum_values (output tx) <= MAX_MONEY))|].
  { intros u. apply check_transaction_sum. by apply tx_wf_values. }
  intros ? Hsum. cbv beta in Hsum. eapply reads_bind; [apply (reads_lift _ _ (fun _ => True)); done|]. intros ? _.
  eapply reads_bind; [apply check_bip30_reads|]. cbv beta. intros ? Hb30.
  set (acc1 := add_sigops _ _). assert (Hinv1 : tx_inv pre acc1) by exact Hinv. clearbody acc1. clear Hinv.
  destruct tx_idx as [|n].
  - destruct pre; [|done]. destruct Hinv1 as (W & Ha & Hf0 & Hft & Hcb & Hins & Hrem). cbn [coinbase_out] in *.
    destruct (add_created_inv _ W acc1 Ha (created_new tx true Hin Htx Hb30)) as (W2 & Hok2 & Ht2 & Hins2 & Hrem2 & Hf2).
    pose proof (created_sum_le (compute_txid tx) (tc_height k) true tx (tx_wf_values tx Htx)) as Hcs.
    apply reads_ret. exists W2. rewrite Hf2, Hins2, Hins, Hrem2, Hrem, block_coins_snoc, block_spends_snoc.
    cbn [coinbase_out app]. split_and!; [done|lia|lia|done..].
  - apply validate_spend_inv; try done. by destruct pre.
Qed.

Lemma probe_inputs_reads l : reads (foldS probe_input tt l) c0 (fun _ => True).
Proof.
  apply (reads_foldS c0 (fun _ _ => True)); [|done]. intros pre x suf [] _ _ c Hc.
  pose proof (reads_coin c0 (previous_output x) c Hc) as Hr. unfold wp, probe_input in *.
  destruct (on_utxo _ c) as [c' r]. by destruct Hr.
Qed.

Lemma check_coinbase_value_reads fees :
  0 < subsidy_halving_interval (params c0) -> 0 <= fees <= 2 * MAX_MONEY -> coinbase_out (imap pair txs) <= MAX_MONEY ->
  reads (check_coinbase_value k fees) c0
    (fun _ => coinbase_out (imap pair txs) <= block_subsidy (params c0) (tc_height k) + fees).
Proof.
  intros Hint Hf Hsum. pose proof (block_subsidy_bounds (params c0) (tc_height k) Hint (proj1 Hheight)) as Hs.
  unfold check_coinbase_value. destruct txs as [|cb rest]; [apply reads_ret; cbn; lia|].
  apply Forall_cons in Hwf as [Hcb _]. cbn [imap coinbase_out] in *. eapply reads_bind; [apply reads_params|].
  cbv beta. intros p ->. rewrite (sum_outputs_eq cb (tx_wf_values cb Hcb) Hsum).
  rewrite wrap_small by (unfold fits, MAX_MONEY, INITIAL_SUBSIDY in *; lia).
  destruct (_ >? _) eqn:Hgt.
  - eapply reads_bind; [apply probe_inputs_reads|]. intros ? _. apply reads_lift. by intros ? [=].
  - apply reads_ret. rewrite Z.gtb_ltb in Hgt. by apply Z.ltb_ge in Hgt.
Qed.

Lemma validate_transactions_inv :
  0 < subsidy_halving_interval (params c0) -> reads (validate_transactions k) c0 (batch_inv M (tc_block k) (tc_height k)).
Proof.
  intros Hint. unfold validate_transactions. eapply reads_bind; [apply reads_prefetch|]. intros ? _.
  eapply reads_bind; [apply (reads_foldS c0 tx_inv)|].
  { intros pre [i tx] suf acc. apply validate_tx_inv. }
  { apply tx_inv_start. }
  intros acc (W & Hok & Hf0 & Hft & Hcb & Hins & Hrem). pose proof (total_nonneg _ (inv_amounts _ _ _ _ Hok)) as Hnn.
  eapply reads_bind; [apply (reads_lift _ _ (fun _ => True)); done|]. intros ? _.
  eapply reads_bind; [apply check_coinbase_value_reads; [done|lia|done]|]. cbv beta. intros ? Hval.
  eapply reads_bind; [apply run_checks_reads|]. intros ? _. apply reads_ret.
  exists W, (spent_in_block acc), (intra_block_utxos acc). split_and!; [done..|lia].
Qed.
End Block.

(** *** Blocks *)

Lemma bip110_activation_reads prev height : reads (bip110_activation prev height) c0 (fun _ => True).
Proof.
  intros c Hc. unfold wp, bip110_activation. destruct (activation_at _ _ _ _ _) as [k a]. cbn [fst snd]. by split.
Qed.

Lemma read_index_reads {A} (f : HeaderIndex -> StorageResult A) : reads (read_index f) c0 (fun _ => True).
Proof. intros c Hc. by split. Qed.

Lemma check_context_reads block height : reads (check_context block height) c0 (fun _ => True).
Proof.
  unfold check_context. eapply reads_bind; [apply reads_gets_id|]. intros c Hc.
  do 2 (eapply reads_bind; [apply (reads_lift _ _ (fun _ => True)); done|]; intros ? _).
  eapply (reads_bind _ _ _ (fun _ => True)); [|intros ? _; by apply reads_ret].
  destruct (_ && _); [|by apply reads_ret].
  eapply reads_bind; [apply (reads_lift _ _ (fun _ => True)); done|]. intros ? _. by apply reads_lift.
Qed.

Lemma check_signaling_reads block height a : reads (check_signaling block height a) c0 (fun _ => True).
Proof.
  intros c Hc. unfold check_signaling. apply wp_bind, wp_gets. destruct (bip110_checker c); [by apply wp_lift|by apply wp_ret].
Qed.

(** Validation up to the transactions only reads. *)
Lemma validate_block_reads now block height hash txids (P : UtxoBatch -> Prop) :
  (forall wtxids vs mtp a,
    reads (validate_transactions (mkTxContext block height txids wtxids (block_flags (params c0) block height) vs mtp a)) c0 P) ->
  reads (validate_block now block height hash txids) c0 P.
Proof.
  intros HP. unfold validate_block.
  eapply (reads_bind _ _ _ (fun _ => True)); [destruct (0 <? height); [apply read_index_reads|by apply reads_ret]|].
  intros prev _. eapply reads_bind; [apply reads_params|]. cbv beta. intros p ->.
  do 4 (eapply reads_bind; [apply (reads_lift _ _ (fun _ => True)); done|]; intros ? _).
  eapply (reads_bind _ _ _ (fun _ => True)).
  { unfold must_verify_scripts. eapply reads_bind; [apply reads_gets_id|]. intros ? _. by apply reads_ret. }
  intros vs _. eapply reads_bind; [apply (reads_lift _ _ (fun _ => True)); done|]. intros ? _.
  eapply reads_bind; [apply check_context_reads|]. intros mtp _.
  eapply reads_bind; [apply bip110_activation_reads|]. intros act _.
  eapply reads_bind; [apply check_signaling_reads|]. intros ? _. apply HP.
Qed.
End Value.

(** *** Rejection *)

Lemma reads_any {A} c0 (m : stm ChainState CoreError A) (P : A -> Prop) : reads m c0 P -> reads m c0 (fun _ => True).
Proof. apply reads_mono. done. Qed.

Lemma reads_bind_any {A B} c0 (m : stm ChainState CoreError A) (f : A -> stm ChainState CoreError B) :
  reads m c0 (fun _ => True) -> (forall a, reads (f a) c0 (fun _ => True)) -> reads (m ≫= f) c0 (fun _ => True).
Proof. intros Hm Hf. eapply reads_bind; [exact Hm|]. intros a _. apply Hf. Qed.

Lemma reads_foldS_any {A B} c0 (f : B -> A -> stm ChainState CoreError B) l b :
  (forall b x, reads (f b x) c0 (fun _ => True)) -> reads (foldS f b l) c0 (fun _ => True).
Proof. intros Hf. by apply (reads_foldS c0 (fun _ _ => True)). Qed.

Ltac reads_any :=
  repeat (cbv zeta; match goal with
  | |- reads (foldS _ _ _) _ _ => first [by eapply reads_any, run_checks_reads|by eapply reads_any, probe_inputs_reads|apply reads_foldS_any; intros ? ?]
  | |- reads (lift _) _ _ => by apply reads_lift
  | |- reads (mret _) _ _ => by apply reads_ret
  | |- reads (gets params) _ _ => by eapply reads_any, reads_params
  | |- reads (on_utxo (utxo_get _)) _ _ => by eapply reads_any, reads_coin
  | |- reads (on_utxo (prefetch _)) _ _ => by eapply reads_any, reads_prefetch
  | |- reads (check_bip30 _ _ _) _ _ => by eapply reads_any, check_bip30_reads
  | |- reads (check_sequence_locks _ _ _ _) _ _ => apply check_sequence_locks_reads
  | |- reads (if ?b then _ else _) _ _ => destruct b
  | |- reads (match ?x with _ => _ end) _ _ => destruct x
  | |- reads (_ ≫= _) _ _ => apply reads_bind_any; [|intros ?]
  end).

Lemma check_coinbase_value_any c0 k fees : reads (check_coinbase_value k fees) c0 (fun _ => True).
Proof. unfold check_coinbase_value. reads_any. Qed.

Lemma validate_transactions_reads c0 k : reads (validate_transactions k) c0 (fun _ => True).
Proof.
  assert (Hin : forall height flags ia txin, reads (spend_input height flags ia txin) c0 (fun _ => True))
    by (intros; unfold spend_input; reads_any).
  assert (Hspend : forall i txid tx acc, reads (validate_spend k i txid tx acc) c0 (fun _ => True))
    by (intros; unfold validate_spend; reads_any; apply Hin).
  assert (Htx : forall acc it, reads (validate_tx k acc it) c0 (fun _ => True)).
  { intros acc [i tx]. unfold validate_tx. reads_any; apply Hspend. }
  unfold validate_transactions. reads_any; [apply Htx|apply check_coinbase_value_any].
Qed.

Lemma validate_block_only_reads c now block height hash txids :
  reads (validate_block now block height hash txids) c (fun _ => True).
Proof. apply validate_block_reads. intros. apply validate_transactions_reads. Qed.

(** ** Connecting *)

(** The code checks this (BIP 30) below the BIP 34 height only, where it leaves
    out two blocks of the main network; above it relies on coinbases committing
    to their height.  Where it does not check, it is a condition: a coin created
    again overwrites the one that exists, whose copy may stay in the cache, and
    disconnecting the block removes it altogether. *)
Definition unique_ids c (block : Block) (height : Z) : Prop :=
  bip30_checked (params c) height = false -> new_coins c block.

(** What a block must satisfy besides passing validation: the widths of its
    fields and counts, and unique ids. *)
Definition block_wf c (block : Block) (height : Z) : Prop :=
  Forall tx_wf (txdata block) /\ fits 31 height /\ 0 < subsidy_halving_interval (params c) /\
  unique_ids c block height /\
  length (prev_blockhash (header block)) = 32%nat /\
  len (block_spends (imap pair (txdata block))) < 2 ^ 32 /\ len (block_coins height (imap pair (txdata block))) < 2 ^ 32.

Lemma represents_amounts c M : utxo_inv (utxo_set c) -> represents M (coins (utxo_set c)) -> amounts_ok M.
Proof. intros Hu Hr k e Hk. rewrite Hr in Hk. by destruct (coins_entry_ok _ _ _ Hu Hk) as [[? _] _]. Qed.

Lemma validate_block_inv c M now block height :
  utxo_inv (utxo_set c) -> represents M (coins (utxo_set c)) -> total M <= MAX_MONEY -> block_wf c block height ->
  reads (validate_block now block height (block_hash (header block)) (map compute_txid (txdata block))) c
    (batch_inv c M block height).
Proof.
  intros Hu Hr Ht (Hwf & Hh & Hint & Hnew & _). apply validate_block_reads. intros wtxids vs mtp a.
  apply (validate_transactions_inv c M (mkTxContext block height (map compute_txid (txdata block)) wtxids
    (block_flags (params c) block height) vs mtp a)); try done. by eapply represents_amounts.
Qed.

End Chain.
