(* ===== verification/ReorgProofs.v ===== *)
(** * Connecting, disconnecting and reorganising

    A connected block changes the coins by exactly its inputs and outputs and
    creates no more value than its subsidy; disconnecting it restores the
    coins; after any history of connected, rejected and disconnected blocks
    the coins are those of the active chain alone. *)

From Stdlib Require Import ZArith Lia.
From stdpp Require Import base option numbers list gmap strings.
From S2P Require Import Prelude Bytes U256 Types ScriptBytes Signatures VerifyScript Consensus Validation Store HeaderIndex TxIndex BlockStore Bip110 UtxoSet UtxoProofs ChainState ChainProofs.

Section Chain.
Context `{Hashes} `{ScriptLib} `{SigLib} `{TxLib} `{OutPointOrd} `{TxSizes} `{HR : RocksDb} `{HL : !RocksLaws}
  `{HW : !RocksWal} `{HeaderCodec} `{BlockFiles} `{HM : MapIter} `{HMI : !MapIterLaws} `{HRun : Runtime} `{HRL : !RuntimeLaws}.
Implicit Types c : ChainState.

(** ** Steps outside the UTXO set *)

Definition same_frame c c' : Prop :=
  utxo_set c' = utxo_set c /\ params c' = params c /\ best_height c' = best_height c /\ best_hash c' = best_hash c.

Definition is_storage (e : CoreError) : Prop := exists se, e = Storage se.

(** Such a step fails with a storage error only. *)
Definition keeps {A} (m : stm ChainState CoreError A) : Prop :=
  forall c, same_frame c (m c).1 /\ forall e, (m c).2 = Err e -> is_storage e.

Lemma lift_storage_err {A} (r : StorageResult A) e : lift_storage r = Err e -> is_storage e.
Proof. destruct r; [done|]. intros [= <-]. by eexists. Qed.

Lemma keeps_ret {A} (a : A) : keeps (mret a).
Proof. done. Qed.
Lemma keeps_read_index {A} (f : HeaderIndex -> StorageResult A) : keeps (read_index f).
Proof. intros c. split; [done|]. intros e. apply lift_storage_err. Qed.
Lemma keeps_on_blocks {A} (m : stm BlockStore StorageError A) : keeps (on_blocks m).
Proof. intros c. unfold on_blocks. destruct (m _). split; [done|]. intros e. apply lift_storage_err. Qed.
Lemma keeps_on_index {A} (m : stm HeaderIndex StorageError A) : keeps (on_index m).
Proof. intros c. unfold on_index. destruct (m _). split; [done|]. intros e. apply lift_storage_err. Qed.
Lemma keeps_on_tx_index m : keeps (on_tx_index m).
Proof.
  intros c. unfold on_tx_index. destruct (tx_index c); [|done]. destruct (m _). split; [done|].
  intros e. apply lift_storage_err.
Qed.
Lemma keeps_bind {A B} (m : stm ChainState CoreError A) (f : A -> stm ChainState CoreError B) :
  keeps m -> (forall a, keeps (f a)) -> keeps (m ≫= f).
Proof.
  intros Hm Hf c. specialize (Hm c). unfold mbind, stm_bind. destruct (m c) as [c' [a|e]].
  2: { split; [apply Hm|]. intros e' [= <-]. by apply Hm. }
  cbn in Hm. destruct (Hf a c') as [(? & ? & ? & ?) ?]. destruct Hm as [(? & ? & ? & ?) ?].
  split; [|done]. unfold same_frame. split_and!; congruence.
Qed.
Lemma keeps_ensure_header block height hash : keeps (ensure_header block height hash).
Proof.
  unfold ensure_header. apply keeps_bind; [apply keeps_read_index|]. intros [?|]; [done|].
  apply keeps_bind; [apply keeps_read_index|]. intros [?|]; [apply keeps_on_index|done].
Qed.

Lemma wp_keeps {A B} (m : stm ChainState CoreError A) (f : A -> stm ChainState CoreError B)
    (Q : ChainState -> result CoreError B -> Prop) c :
  keeps m -> (forall c' e, is_storage e -> Q c' (Err e)) -> (forall c' a, same_frame c c' -> wp (f a) Q c') ->
  wp (m ≫= f) Q c.
Proof.
  intros Hm He Hf. apply wp_bind. unfold wp at 1. specialize (Hm c). destruct (m c) as [c' [a|e]]; cbn in *.
  - apply Hf, Hm.
  - by apply He, Hm.
Qed.

Lemma wp_keeps_last {A} (m : stm ChainState CoreError A) (Q : ChainState -> result CoreError A -> Prop) c :
  keeps m -> (forall c' e, is_storage e -> Q c' (Err e)) -> (forall c' a, same_frame c c' -> Q c' (Ok a)) -> wp m Q c.
Proof.
  intros Hm He Hq. unfold wp. specialize (Hm c). destruct (m c) as [c' [a|e]]; cbn in *.
  - apply Hq, Hm.
  - by apply He, Hm.
Qed.

Lemma wp_on_utxo {A} (m : stm UtxoSet StorageError A) (Q : ChainState -> result CoreError A -> Prop) c :
  wp m (fun u r => Q (set_utxo c u) (lift_storage r)) (utxo_set c) -> wp (on_utxo m) Q c.
Proof. unfold wp, on_utxo. by destruct (m (utxo_set c)). Qed.

(** ** Undo records *)

(** The buffered records belong to distinct blocks among [hs]. *)
Definition undo_ready (u : UtxoSet) (hs : list bytes) : Prop :=
  NoDup (undo_buffer (write_buffer u)).*1 /\ forall h, h ∈ (undo_buffer (write_buffer u)).*1 -> h ∈ hs.

Lemma records_nil (l : list (bytes * bytes)) h : h ∉ l.*1 -> filter (fun p => p.1 = h) l = [].
Proof.
  intros Hn. induction l as [|[h' d] l IH]; [done|]. cbn in Hn. apply not_elem_of_cons in Hn as [Hne Hn].
  rewrite filter_cons_False by (cbn; congruence). by apply IH.
Qed.

Lemma records_single (l : list (bytes * bytes)) h : NoDup l.*1 -> (length (filter (fun p => p.1 = h) l) <= 1)%nat.
Proof.
  induction l as [|[h' d] l IH]; intros Hnd; [cbn; lia|]. cbn in Hnd. apply NoDup_cons in Hnd as [Hn Hnd].
  destruct (decide (h' = h)) as [->|Hne].
  - rewrite filter_cons_True by done. rewrite (records_nil l h Hn). cbn. lia.
  - rewrite filter_cons_False by done. by apply IH.
Qed.

Lemma undo_ready_single u hs h : undo_ready u hs -> undo_single u h.
Proof. intros [Hnd _]. by apply records_single. Qed.

Lemma undo_kept_ready u u' hs :
  undo_ready u hs -> undo_kept u u' -> undo_ready u' hs /\ forall h, undo_data u' h = undo_data u h.
Proof.
  intros Hr [Hb Hd]. split; [|intros h; by eapply Hd, undo_ready_single].
  unfold undo_ready in *. destruct Hb as [->| ->]; [done|]. cbn. split; [constructor|]. by intros h ?%not_elem_of_nil.
Qed.

(** ** Connecting *)

Definition block_record (block : Block) (b : UtxoBatch) : bytes :=
  serialize_undo (batch_spent b) (map fst (inserts b)) (prev_blockhash (header block)).

Abbreviation hash_of block := (block_hash (header block)).

(** What a connected block leaves in the UTXO set. *)
Definition connected (u : UtxoSet) (block : Block) (b : UtxoBatch) (u' : UtxoSet) : Prop :=
  utxo_inv u' /\ (forall k, coins u' k = spec_batch (coins u) b k) /\
  forall hs, undo_ready u hs -> hash_of block ∉ hs ->
    undo_ready u' (hash_of block :: hs) /\ undo_data u' (hash_of block) = Some (block_record block b) /\
    forall h, h <> hash_of block -> undo_data u' h = undo_data u h.

(** Recording the undo data and the pending tip, then applying the batch. *)
Lemma apply_block_spec u b block height :
  utxo_inv u -> batch_ok (coins u) b ->
  wp (apply_batch b) (fun u' r => is_ok r = true -> connected u block b u')
    (set_pending_flush_height height (hash_of block)
      (store_undo (hash_of block) (batch_spent b) (map fst (inserts b)) (prev_blockhash (header block)) u).1).1.
Proof.
  intros Hu Hb. set (u1 := fst _). destruct (same_coins_inv u u1 Hu) as [Hu1 Hc1]; [done..|].
  assert (Hb1 : batch_ok (coins u1) b) by (intros i Hi; rewrite Hc1; by apply Hb).
  eapply wp_mono; [|by apply apply_batch_spec]. cbv beta. intros u2 r (Hu2 & Hc2 & Hundo) Hok.
  split_and!; [done|intros k; rewrite Hc2; by apply spec_batch_ext|]. intros hs [Hnd Hsub] Hnin.
  assert (Hbuf : undo_buffer (write_buffer u1) = undo_buffer (write_buffer u) ++ [(hash_of block, block_record block b)]) by done.
  assert (Hnew : hash_of block ∉ (undo_buffer (write_buffer u)).*1) by (intros Hin; by apply Hnin, Hsub).
  assert (Hr1 : undo_ready u1 (hash_of block :: hs)).
  { unfold undo_ready. rewrite Hbuf, fmap_app. cbn [fmap list_fmap fst]. split.
    - apply NoDup_app. split_and!; [done| |apply NoDup_singleton]. by intros h Hh ->%list_elem_of_singleton.
    - intros h [Hh| ->%list_elem_of_singleton]%elem_of_app; [right; by apply Hsub|by left]. }
  destruct (undo_kept_ready u1 u2 _ Hr1 (Hundo Hok)) as [Hr2 Hd2]. split_and!; [done| |].
  - rewrite Hd2. unfold undo_data, find_undo. rewrite Hbuf, filter_app, (records_nil _ _ Hnew).
    by rewrite filter_cons_True by done.
  - intros h Hne. rewrite Hd2. unfold undo_data, find_undo. rewrite Hbuf, filter_app.
    rewrite (filter_cons_False _ (hash_of block, _)) by (cbn; congruence). by rewrite filter_nil, app_nil_r.
Qed.

Lemma batch_inv_ok c M block height b : batch_inv c M block height b -> batch_ok (coins (utxo_set c)) b.
Proof. intros (W & spent & intra & Hi & _) i Hin. by destruct (inv_inserts _ _ _ _ _ Hi i Hin) as (_ & ? & ?). Qed.

Lemma connected_view u u1 block b u' :
  undo_buffer (write_buffer u1) = undo_buffer (write_buffer u) -> (forall h, undo_data u1 h = undo_data u h) ->
  (forall k, coins u1 k = coins u k) -> connected u1 block b u' -> connected u block b u'.
Proof.
  intros Hb Hd Hc (Hi & Hco & Hun). split_and!; [done|intros k; rewrite Hco; by apply spec_batch_ext|].
  intros hs Hr Hn. destruct (Hun hs) as (? & ? & Ho); [unfold undo_ready; by rewrite Hb|done|].
  split_and!; [done|done|]. intros h Hh. by rewrite Ho, Hd.
Qed.

Lemma connect_spec c M now block height raw :
  utxo_inv (utxo_set c) -> represents M (coins (utxo_set c)) -> total M <= MAX_MONEY -> block_wf c block height ->
  wp (connect_block_with_raw now block height raw) (fun c' r => forall txids, r = Ok txids ->
    txids = map compute_txid (txdata block) /\ params c' = params c /\
    best_height c' = height /\ best_hash c' = hash_of block /\
    exists b, batch_inv c M block height b /\ connected (utxo_set c) block b (utxo_set c')) c.
Proof.
  intros Hu Hr Ht Hwf. unfold connect_block_with_raw. apply wp_bind.
  eapply wp_mono; [|apply (validate_block_inv c M now block height Hu Hr Ht Hwf c), same_chain_refl, Hu].
  cbv beta. intros c1 [b|e] [Hc1 Hb]; [|done]. specialize (Hb b eq_refl).
  destruct Hc1 as (Hp1 & _ & _ & _ & _ & _ & Hu1 & Hv1 & Hwb1 & Hco1).
  apply wp_keeps; [apply keeps_on_blocks|done|]. intros c2 pos (Hs2 & Hp2 & _).
  apply wp_keeps; [apply keeps_on_index|done|]. intros c3 ? (Hs3 & Hp3 & _).
  apply wp_keeps; [apply keeps_on_index|done|]. intros c4 ? (Hs4 & Hp4 & _).
  apply wp_keeps; [apply keeps_ensure_header|done|]. intros c5 ? (Hs5 & Hp5 & _).
  assert (Hu5 : utxo_set c5 = utxo_set c1 /\ params c5 = params c) by (split; congruence). destruct Hu5 as [Hu5 Hpc].
  apply wp_bind, wp_on_utxo, wp_modify. apply wp_bind, wp_on_utxo, wp_modify. apply wp_bind, wp_on_utxo.
  cbn [set_utxo utxo_set]. rewrite Hu5.
  assert (Hbo : batch_ok (coins (utxo_set c1)) b).
  { intros i Hi. rewrite Hco1. by apply (batch_inv_ok c M block height b). }
  eapply wp_mono; [|apply (apply_block_spec (utxo_set c1) b block height Hu1 Hbo)].
  cbv beta. intros u6 [fl|e] Hcn; cbn [lift_storage]; [|done]. specialize (Hcn eq_refl).
  apply wp_keeps; [apply keeps_on_tx_index|done|]. intros c7 ? (Hs7 & Hp7 & _). cbn [set_utxo utxo_set params] in Hs7, Hp7.
  apply wp_bind, wp_modify. apply wp_keeps; [|done|].
  { destruct fl; [|done]. do 2 (apply keeps_bind; [apply keeps_on_index|intros ?]). apply keeps_on_index. }
  intros c8 ? (Hs8 & Hp8 & Hh8 & Hb8). cbn [set_tip utxo_set best_height best_hash params] in Hs8, Hh8, Hb8, Hp8.
  apply wp_keeps; [by destruct (_ =? 0)|done|].
  intros c9 ? (Hs9 & Hp9 & Hh9 & Hb9). apply wp_ret. intros txids [= <-].
  split_and!; [done|congruence|congruence|congruence|]. exists b. split; [done|]. rewrite Hs9, Hs8, Hs7.
  apply (connected_view _ (utxo_set c1)); [by rewrite Hwb1| |done|done]. intros h. unfold undo_data. by rewrite Hwb1, Hv1.
Qed.

(** ** Disconnecting *)

(** A batch whose record undoes it on [m]. *)
Record undoable (m : coin_map) (block : Block) (height : Z) (b : UtxoBatch) : Prop := {
  ua_inserts : inserts b = block_coins height (imap pair (txdata block));
  ua_removals : removals b = map spent_outpoint (batch_spent b);
  ua_fresh i : i ∈ inserts b -> outpoint_ok i.1 /\ entry_ok i.2 /\ m (outpoint_key i.1) = None;
  ua_spent s : s ∈ batch_spent b -> spent_ok s /\
    (m (outpoint_key (spent_outpoint s)) = Some (spent_entry s) \/
     m (outpoint_key (spent_outpoint s)) = None /\ (spent_outpoint s, spent_entry s) ∈ inserts b);
  ua_prev : length (prev_blockhash (header block)) = 32%nat;
  ua_counts : len (batch_spent b) < 2 ^ 32 /\ len (inserts b) < 2 ^ 32 }.

Lemma batch_inv_undoable c M block height b :
  utxo_inv (utxo_set c) -> block_wf c block height -> batch_inv c M block height b ->
  undoable (coins (utxo_set c)) block height b.
Proof.
  intros Hu (_ & _ & _ & _ & Hp & Hl1 & Hl2) (W & spent & intra & Hi & Hins & Hrem & _).
  destruct (inv_removals _ _ _ _ _ Hi) as [Hr _]. constructor; [done|done|apply (inv_inserts _ _ _ _ _ Hi)| |done|].
  - intros s Hs. destruct (inv_origin _ _ _ _ _ Hi s Hs) as [Ho Horig]. split; [|done]. split; [done|].
    destruct Horig as [Hc|[_ Hin]]; [by eapply coins_entry_ok|]. by destruct (inv_inserts _ _ _ _ _ Hi _ Hin) as (_ & ? & _).
  - rewrite <- Hins in Hl2. rewrite <- Hrem, Hr in Hl1. unfold len in *. by rewrite length_map in Hl1.
Qed.

Lemma undoable_ext (m m' : coin_map) block height b :
  (forall k, m k = m' k) -> undoable m block height b -> undoable m' block height b.
Proof.
  intros Hm Hu. constructor; try apply Hu.
  - intros i Hi. rewrite <- Hm. by apply (ua_fresh _ _ _ _ Hu).
  - intros s Hs. rewrite <- Hm. by apply (ua_spent _ _ _ _ Hu).
Qed.

Lemma undo_record_reads m block height b :
  undoable m block height b ->
  deserialize_undo (block_record block b) = Ok (mkUndo (batch_spent b) (map fst (inserts b)) (Some (prev_blockhash (header block)))).
Proof.
  intros Hu. apply undo_roundtrip_lemma.
  - apply Forall_forall. intros s Hs. by apply (ua_spent _ _ _ _ Hu).
  - apply Forall_forall. intros o (i & -> & Hi)%list_elem_of_fmap. by apply (ua_fresh _ _ _ _ Hu).
  - apply (ua_prev _ _ _ _ Hu).
  - apply (ua_counts _ _ _ _ Hu).
  - unfold len. rewrite length_map. apply (ua_counts _ _ _ _ Hu).
Qed.

Lemma spec_insert_fold_agree l : forall (m : coin_map) k v,
  (exists i, i ∈ l /\ outpoint_key i.1 = k) -> (forall i, i ∈ l -> outpoint_key i.1 = k -> Some i.2 = v) ->
  foldl spec_insert m l k = v.
Proof.
  induction l as [|i l IH] using rev_ind; intros m k v Hex Hall; [destruct Hex as (i & Hi & _); by apply not_elem_of_nil in Hi|].
  rewrite foldl_snoc. unfold spec_insert at 1. case_bool_decide as Hk.
  - apply Hall; [|done]. apply elem_of_app. right. by left.
  - apply IH; [|intros j Hj; apply Hall, elem_of_app; by left].
    destruct Hex as (j & [Hj| ->%list_elem_of_singleton]%elem_of_app & Hjk); [eauto|congruence].
Qed.

Lemma elem_of_coins_outputs height block o :
  o ∈ concat (map created_outputs (reverse (txdata block))) <->
  o ∈ map fst (block_coins height (imap pair (txdata block))).
Proof.
  assert (Hone : forall cb tx, created_outputs tx = map fst (created_coins (compute_txid tx) height cb tx)).
  { intros cb tx. unfold created_outputs, created_coins. generalize (imap pair (output tx)) as l.
    induction l as [|[v x] l IH]; [done|]. cbn [omap list_omap]. destruct (script_is_op_return _); cbn [map fst]; by rewrite IH. }
  rewrite !list_elem_of_In, in_concat, in_map_iff. unfold block_coins. split.
  - intros (l & Hl & Ho). apply in_map_iff in Hl as (tx & <- & Htx). rewrite <- list_elem_of_In, elem_of_reverse in Htx.
    apply list_elem_of_lookup in Htx as [i Hi]. rewrite (Hone (i =? 0)%nat) in Ho.
    apply in_map_iff in Ho as (x & <- & Hx). exists x. split; [done|]. apply in_concat. eexists. split; [|exact Hx].
    apply in_map_iff. exists (i, tx). split; [done|]. apply list_elem_of_In, list_elem_of_lookup. exists i.
    by rewrite list_lookup_imap, Hi.
  - intros (x & <- & Hx). apply in_concat in Hx as (l & Hl & Hx). apply in_map_iff in Hl as ([i tx] & <- & Htx).
    exists (created_outputs tx). rewrite (Hone (i =? 0)%nat). split; [|by apply in_map].
    rewrite <- (Hone (i =? 0)%nat). apply in_map, list_elem_of_In, elem_of_reverse.
    apply list_elem_of_In, list_elem_of_lookup in Htx as [j Hj]. rewrite list_lookup_imap in Hj.
    destruct (txdata block !! j) eqn:Ht; [|done]. injection Hj as <- ->. by eapply list_elem_of_lookup_2.
Qed.

(** The batch of [disconnect_block] takes the coins back. *)
Lemma undo_inverts m block height b k :
  undoable m block height b ->
  spec_batch (spec_batch m b) (undo_batch block (mkUndo (batch_spent b) (map fst (inserts b)) (Some (prev_blockhash (header block))))) k
  = m k.
Proof.
  intros Hu. unfold spec_batch at 1. cbn [undo_batch inserts removals spent_utxos]. rewrite spec_remove_fold.
  assert (Hcre : k ∈ map outpoint_key (concat (map created_outputs (reverse (txdata block)))) <->
    exists i, i ∈ inserts b /\ outpoint_key i.1 = k).
  { rewrite list_elem_of_fmap. setoid_rewrite (elem_of_coins_outputs height). rewrite <- (ua_inserts _ _ _ _ Hu).
    split; [intros (o & -> & Ho); apply list_elem_of_fmap in Ho as (i & -> & Hi); eauto|].
    intros (i & Hi & <-). exists i.1. split; [done|]. apply list_elem_of_fmap. eauto. }
  case_bool_decide as Hin; rewrite Hcre in Hin.
  { destruct Hin as (i & Hi & <-). by destruct (ua_fresh _ _ _ _ Hu i Hi) as (_ & _ & ->). }
  destruct (decide (k ∈ map outpoint_key (removals b))) as [Hrem|Hrem].
  - rewrite (ua_removals _ _ _ _ Hu), map_map in Hrem. apply list_elem_of_fmap in Hrem as (s & -> & Hs).
    apply spec_insert_fold_agree.
    + exists (spent_outpoint s, spent_entry s). split; [|done]. apply list_elem_of_fmap. eauto.
    + intros i (s' & -> & Hs')%list_elem_of_fmap Hk. cbn [fst snd] in *.
      destruct (ua_spent _ _ _ _ Hu s' Hs') as [_ [<-|[_ Hbad]]]; [by rewrite Hk|]. exfalso. apply Hin. by eexists.
  - rewrite spec_insert_fold_other.
    + unfold spec_batch. rewrite spec_remove_fold, bool_decide_eq_false_2 by done.
      apply spec_insert_fold_other. intros i Hi Hk. apply Hin. eauto.
    + intros i (s & -> & Hs)%list_elem_of_fmap Hk. cbn [fst] in Hk. apply Hrem.
      rewrite (ua_removals _ _ _ _ Hu), map_map. apply list_elem_of_fmap. eauto.
Qed.

(** Its insertions are of coins that the block removed. *)
Lemma undo_batch_ok m block height b :
  undoable m block height b ->
  batch_ok (spec_batch m b) (undo_batch block (mkUndo (batch_spent b) (map fst (inserts b)) (Some (prev_blockhash (header block))))).
Proof.
  intros Hu i (s & -> & Hs)%list_elem_of_fmap. cbn [fst snd]. destruct (ua_spent _ _ _ _ Hu s Hs) as [[_ ?] _].
  split; [done|]. unfold spec_batch. rewrite spec_remove_fold, bool_decide_eq_true_2; [done|].
  rewrite (ua_removals _ _ _ _ Hu), map_map. apply list_elem_of_fmap. eauto.
Qed.

Lemma records_filter_ne (l : list (bytes * bytes)) h h' :
  h' <> h -> filter (fun p => p.1 = h') (filter (fun p => p.1 <> h) l) = filter (fun p => p.1 = h') l.
Proof.
  intros Hne. rewrite list_filter_filter. apply list_filter_iff. intros [x d]. cbn. split; [tauto|]. intros ->. done.
Qed.

Lemma records_filter_keys (l : list (bytes * bytes)) h :
  (filter (fun p => p.1 <> h) l).*1 = filter (fun x => x <> h) l.*1.
Proof.
  induction l as [|[x d] l IH]; [done|]. cbn [fmap list_fmap fst]. destruct (decide (x = h)) as [->|Hne].
  - rewrite !filter_cons_False by (cbn; tauto). exact IH.
  - rewrite !filter_cons_True by done. cbn [fmap list_fmap fst]. by rewrite <- IH.
Qed.

Lemma delete_undo_records u h hs :
  utxo_inv u -> undo_ready u (h :: hs) ->
  wp (delete_undo h) (fun u' r => utxo_inv u' /\ (forall k, coins u' k = coins u k) /\
    (is_ok r = true -> undo_ready u' hs /\ forall h', h' <> h -> undo_data u' h' = undo_data u h')) u.
Proof.
  intros Hu [Hnd Hsub]. set (u1 := set_buffer u (mkBuffer (entries (write_buffer u)) (insert_count (write_buffer u))
    (deletion_count (write_buffer u)) (filter (fun p => p.1 <> h) (undo_buffer (write_buffer u)))
    (buffer_bytes (write_buffer u)) (blocks_since_flush (write_buffer u)) (pending_flush_height (write_buffer u))
    (pending_flush_hash (write_buffer u)))).
  pose proof (delete_undo_spec h u Hu) as Hspec.
  assert (Hw : wp (delete_undo h) (fun u' r => is_ok r = true -> wrote u1 [Delete CF_UNDO h] u') u).
  { unfold delete_undo. apply wp_bind, wp_modify. apply wp_bind, wp_cf. intros [[]|e]; [|done].
    eapply wp_mono; [|apply db_write_spec]. by intros u' [[]|e]. }
  unfold wp in *. destruct (delete_undo h u) as [u' r]. cbn [fst snd] in *. destruct Hspec as [Hi Hc].
  split_and!; [done|done|]. intros Hok. destruct (Hw Hok) as [[d ->] Hcont].
  unfold undo_ready, undo_data, find_undo. cbn [set_db write_buffer us_db u1 set_buffer undo_buffer] in *. split; [split|].
  - rewrite records_filter_keys. by apply NoDup_filter.
  - intros h' (p & -> & [Hp Hin]%list_elem_of_filter)%list_elem_of_fmap.
    assert (Hx : p.1 ∈ h :: hs) by (apply Hsub, list_elem_of_fmap; eauto). apply elem_of_cons in Hx as [?|?]; done.
  - intros h' Hne. rewrite (records_filter_ne _ _ _ Hne). destruct (head _); [done|]. cbn. rewrite Hcont.
    apply apply_ops_other. constructor; [|constructor]. cbn. by intros [_ ?].
Qed.

(** [m] is the coins before the block. *)
Definition disconnected (m : coin_map) (block : Block) (height : Z) (hs : list bytes) c c' : Prop :=
  utxo_inv (utxo_set c') /\ (forall k, coins (utxo_set c') k = m k) /\ params c' = params c /\
  best_height c' = sat_sub height 1 /\ best_hash c' = prev_blockhash (header block) /\
  undo_ready (utxo_set c') hs /\ forall h, h <> hash_of block -> undo_data (utxo_set c') h = undo_data (utxo_set c) h.

(** Disconnecting the tip succeeds unless the storage fails. *)
Lemma disconnect_spec c m block height b hs :
  utxo_inv (utxo_set c) -> (forall k, coins (utxo_set c) k = spec_batch m b k) -> undoable m block height b ->
  undo_data (utxo_set c) (hash_of block) = Some (block_record block b) -> undo_ready (utxo_set c) (hash_of block :: hs) ->
  best_hash c = hash_of block -> best_height c = height ->
  wp (disconnect_block block height)
    (fun c' r => match r with Ok _ => disconnected m block height hs c c' | Err e => is_storage e end) c.
Proof.
  intros Hu Hco Hua Hrec Hready Hbh Hh. unfold disconnect_block. apply wp_bind, wp_gets. cbn [id].
  rewrite Hbh, Hh, (bool_decide_eq_true_2 _ eq_refl), Z.eqb_refl. do 2 (apply wp_bind, wp_lift; cbn [negb guard_err]).
  apply wp_bind, wp_on_utxo. eapply wp_mono; [|apply load_undo_data]. cbv beta. intros u1 r [-> Hload].
  destruct r as [x|e]; cbn [lift_storage]; [|by eexists]. specialize (Hload x eq_refl). rewrite Hrec in Hload.
  destruct x as [undo|]; [|done]. destruct Hload as (d & [= <-] & Hd).
  rewrite (undo_record_reads m block height b Hua) in Hd. injection Hd as <-.
  apply wp_bind, wp_lift. cbn [ok_or]. apply wp_bind, wp_on_utxo, wp_modify. cbn [lift_storage].
  apply wp_bind, wp_on_utxo. cbn [set_utxo utxo_set]. set (u2 := set_buffer _ _).
  destruct (same_coins_inv (utxo_set c) u2 Hu) as [Hu2 Hc2]; [done..|].
  assert (Hbo : batch_ok (coins u2) (undo_batch block (mkUndo (batch_spent b) (map fst (inserts b)) (Some (prev_blockhash (header block)))))).
  { intros i Hi. rewrite Hc2, Hco. by apply (undo_batch_ok m block height b). }
  eapply wp_mono; [|by apply apply_batch_spec]. cbv beta. intros u3 r (Hu3 & Hc3 & Hk3).
  destruct r as [fl|e]; cbn [lift_storage]; [|by eexists].
  destruct (undo_kept_ready u2 u3 (hash_of block :: hs) Hready (Hk3 eq_refl)) as [Hr3 Hd3].
  apply wp_bind, wp_on_utxo. cbn [set_utxo utxo_set]. eapply wp_mono; [|by apply (delete_undo_records u3 (hash_of block) hs)].
  cbv beta. intros u4 r (Hu4 & Hc4 & Hk4). destruct r as [[]|e]; cbn [lift_storage]; [|by eexists].
  destruct (Hk4 eq_refl) as [Hr4 Hd4].
  apply wp_keeps; [apply keeps_on_tx_index|done|]. intros c5 ? (Hs5 & Hp5 & _). cbn [set_utxo utxo_set params] in Hs5, Hp5.
  apply wp_bind, wp_modify. apply wp_bind, wp_gets. apply wp_keeps; [|done|].
  { repeat case_match; apply keeps_on_index || done. }
  intros c6 ? (Hs6 & Hp6 & Hh6 & Hb6). cbn [id set_tip utxo_set params best_height best_hash] in Hs6, Hp6, Hh6, Hb6.
  rewrite Hs5 in Hs6. apply wp_bind, wp_on_utxo. rewrite Hs6. eapply wp_mono; [|by apply flush_spec].
  cbv beta. intros u7 r (Hu7 & Hc7 & Hf7). destruct r as [[]|e]; cbn [lift_storage]; [|by eexists].
  destruct Hf7 as [_ Hf7%undo_flushed_kept]. destruct (undo_kept_ready u4 u7 hs Hr4 Hf7) as [Hr7 Hd7].
  apply wp_bind, wp_gets. eapply (wp_keeps_last _ _ _ (keeps_on_index _)); [done|].
  intros c8 ? (Hs8 & Hp8 & Hh8 & Hb8). cbn [set_utxo utxo_set params best_height best_hash] in Hs8, Hp8, Hh8, Hb8.
  unfold disconnected. rewrite Hs8. split_and!; [done| |congruence|congruence|congruence|done|].
  - intros k. rewrite Hc7, Hc4, Hc3, <- (undo_inverts m block height b k Hua). apply spec_batch_ext. intros. by rewrite Hc2, Hco.
  - intros h Hne. rewrite Hd7, Hd4, Hd3 by done. done.
Qed.

(** ** Value after a block *)

Lemma connected_value c M block height b u' :
  batch_inv c M block height b -> (forall k, coins u' k = spec_batch (coins (utxo_set c)) b k) ->
  exists M', represents M' (coins u') /\ total M' <= total M + block_subsidy (params c) height.
Proof.
  intros (W & spent & intra & Hi & _ & _ & Ht) Hc.
  set (M' := filter (fun x : bytes * UtxoEntry => x.1 ∉ map outpoint_key (removals b)) W).
  exists M'. split.
  - intros k. rewrite Hc. unfold spec_batch. rewrite spec_remove_fold. case_bool_decide as Hk.
    + apply map_lookup_filter_None. right. intros x _ Hx. by apply Hx.
    + rewrite <- (inv_rest _ _ _ _ _ Hi k Hk). destruct (W !! k) as [x|] eqn:HWk.
      * by apply map_lookup_filter_Some.
      * apply map_lookup_filter_None. by left.
  - etransitivity; [|exact Ht]. apply total_subseteq; [apply (inv_amounts _ _ _ _ _ Hi)|apply map_filter_subseteq].
Qed.

(** ** Histories *)

(** Any interleaving of blocks connected on the tip, blocks rejected by
    validation, disconnections of the tip, and whatever the rest of the node
    does to the header index, the block files, the transaction index and the
    caches in between; the list is the active chain above [c0], the tip
    first. *)
Inductive history (c0 : ChainState) : ChainState -> list Block -> Prop :=
| history_start : history c0 c0 []
| history_connect c chain c' now block raw txids :
    history c0 c chain -> block_wf c block (best_height c + 1) ->
    prev_blockhash (header block) = best_hash c -> hash_of block ∉ map (fun b => hash_of b) chain ->
    connect_block_with_raw now block (best_height c + 1) raw c = (c', Ok txids) ->
    history c0 c' (block :: chain)
| history_reject c chain c' now block height raw e :
    history c0 c chain -> (validate_block now block height (hash_of block) (map compute_txid (txdata block)) c).2 = Err e ->
    connect_block_with_raw now block height raw c = (c', Err e) ->
    history c0 c' chain
| history_disconnect c chain c' block :
    history c0 c (block :: chain) -> disconnect_block block (best_height c) c = (c', Ok tt) ->
    history c0 c' chain
| history_other c chain c' :
    history c0 c chain -> same_frame c c' -> history c0 c' chain.

(** The coins of a chain, the tip first, over the coins [m] at [height]. *)
Fixpoint chain_coins (m : coin_map) (height : Z) (chain : list Block) : coin_map :=
  match chain with
  | [] => m
  | block :: rest =>
      let txs := imap pair (txdata block) in
      spec_batch (chain_coins m height rest)
        (mkBatch (block_coins (height + len chain) txs) (block_spends txs) [])
  end.

Section History.
Context (c0 : ChainState).
Abbreviation base := (coins (utxo_set c0)).
Abbreviation h0 := (best_height c0).

(** The state at the start: no undo record is buffered, and there is no more
    value than the blocks up to its height have issued. *)
Definition base_ok : Prop :=
  utxo_inv (utxo_set c0) /\ undo_buffer (write_buffer (utxo_set c0)) = [] /\ 0 <= h0 /\
  0 < subsidy_halving_interval (params c0) <= 210000 /\
  exists M, represents M base /\ total M <= total_subsidy (params c0) (S (Z.to_nat h0)).
Hypothesis Hbase : base_ok.

Definition tip_hash (chain : list Block) : bytes := match chain with b :: _ => hash_of b | [] => best_hash c0 end.

Definition chain_value (chain : list Block) : Prop :=
  exists M, represents M (chain_coins base h0 chain) /\
    total M <= total_subsidy (params c0) (S (Z.to_nat h0) + length chain).

(** Each block of the chain is backed by its undo record. *)
Fixpoint chain_backed (u : UtxoSet) (chain : list Block) : Prop :=
  chain_value chain /\
  match chain with
  | [] => True
  | block :: rest =>
      prev_blockhash (header block) = tip_hash rest /\ hash_of block ∉ map (fun b => hash_of b) rest /\
      (exists b, undoable (chain_coins base h0 rest) block (h0 + len chain) b /\
         removals b = block_spends (imap pair (txdata block)) /\ undo_data u (hash_of block) = Some (block_record block b)) /\
      chain_backed u rest
  end.

Record history_inv c (chain : list Block) : Prop := {
  hi_utxo : utxo_inv (utxo_set c);
  hi_params : params c = params c0;
  hi_height : best_height c = h0 + len chain;
  hi_hash : best_hash c = tip_hash chain;
  hi_coins k : coins (utxo_set c) k = chain_coins base h0 chain k;
  hi_undo : undo_ready (utxo_set c) (map (fun b => hash_of b) chain);
  hi_backed : chain_backed (utxo_set c) chain }.

Lemma chain_backed_ext u u' chain :
  (forall h, h ∈ map (fun b => hash_of b) chain -> undo_data u' h = undo_data u h) -> chain_backed u chain -> chain_backed u' chain.
Proof.
  induction chain as [|block rest IH]; intros Hd; [done|]. cbn [chain_backed].
  intros (Hv & Hp & Hn & (b & Hua & Hr & Hrec) & Hrest). split_and!; [done|done|done| |].
  - exists b. split_and!; [done|done|]. by rewrite Hd by by left.
  - apply IH; [|done]. intros h Hh. apply Hd. by right.
Qed.

Lemma chain_backed_value u chain : chain_backed u chain -> chain_value chain.
Proof. destruct chain; by intros [? _]. Qed.

Lemma spec_batch_same m b b' k :
  inserts b = inserts b' -> removals b = removals b' -> spec_batch m b k = spec_batch m b' k.
Proof. unfold spec_batch. by intros -> ->. Qed.

Lemma history_inv_start : history_inv c0 [].
Proof.
  destruct Hbase as (Hu & Hb & Hh & Hi & M & Hr & Ht). constructor; [done|done|unfold len; cbn [length]; lia|done|done| |].
  - unfold undo_ready. rewrite Hb. cbn. split; [constructor|]. by intros h ?%not_elem_of_nil.
  - split; [|done]. exists M. cbn [chain_coins length]. by rewrite Nat.add_0_r.
Qed.

Lemma chain_supply (chain : list Block) M : total M <= total_subsidy (params c0) (S (Z.to_nat h0) + length chain) -> total M <= MAX_MONEY.
Proof.
  intros Ht. destruct Hbase as (_ & _ & _ & Hi & _). pose proof (total_subsidy_bound (params c0) (S (Z.to_nat h0) + length chain) (proj1 Hi)).
  unfold MAX_MONEY. lia.
Qed.

Lemma history_inv_connect c chain c' now block raw txids :
  history_inv c chain -> block_wf c block (best_height c + 1) ->
  prev_blockhash (header block) = best_hash c -> hash_of block ∉ map (fun b => hash_of b) chain ->
  connect_block_with_raw now block (best_height c + 1) raw c = (c', Ok txids) -> history_inv c' (block :: chain).
Proof.
  intros [Hu Hp Hh Hb Hco Hun Hbk] Hwf Hprev Hnin Hrun.
  destruct (chain_backed_value _ _ Hbk) as (M & Hr & Ht).
  assert (HrM : represents M (coins (utxo_set c))) by (intros k; by rewrite Hco).
  pose proof (connect_spec c M now block (best_height c + 1) raw Hu HrM (chain_supply _ _ Ht) Hwf) as Hspec.
  unfold wp in Hspec. rewrite Hrun in Hspec. cbn [fst snd] in Hspec.
  destruct (Hspec _ eq_refl) as (_ & Hp' & Hh' & Hb' & b & Hbi & Hu' & Hc' & Hundo).
  destruct (Hundo _ Hun Hnin) as (Hun' & Hrec & Hoth).
  pose proof (batch_inv_undoable _ _ _ _ _ Hu Hwf Hbi) as Hua.
  destruct (connected_value _ _ _ _ _ _ Hbi Hc') as (M' & HrM' & Ht').
  assert (Hlen : best_height c + 1 = h0 + len (block :: chain)) by (rewrite Hh, len_cons; lia).
  assert (Hrem : removals b = block_spends (imap pair (txdata block))) by by destruct Hbi as (? & ? & ? & _ & _ & ? & _).
  assert (Hcoins : forall k, coins (utxo_set c') k = chain_coins base h0 (block :: chain) k).
  { intros k. rewrite Hc', (spec_batch_ext _ (chain_coins base h0 chain) _ _ Hco). cbn [chain_coins].
    apply spec_batch_same; [|done]. rewrite (ua_inserts _ _ _ _ Hua). cbn [inserts]. by rewrite Hlen. }
  constructor; [done|congruence|congruence|done|done|done|]. cbn [chain_backed]. split_and!.
  - exists M'. split; [intros k; by rewrite HrM', Hcoins|]. rewrite Hp in Ht'. etransitivity; [exact Ht'|].
    cbn [length]. rewrite Nat.add_succ_r. cbn [total_subsidy].
    replace (Z.of_nat (S (Z.to_nat h0) + length chain)) with (best_height c + 1); [lia|].
    destruct Hbase as (_ & _ & Hpos & _). rewrite Hlen, len_cons. unfold len. lia.
  - congruence.
  - done.
  - exists b. rewrite <- Hlen. split_and!; [|done|done]. by apply (undoable_ext _ _ _ _ _ Hco).
  - apply (chain_backed_ext (utxo_set c)); [|done]. intros h Hin. apply Hoth. by intros ->.
Qed.

Lemma connect_rejected now block height raw e c :
  (validate_block now block height (hash_of block) (map compute_txid (txdata block)) c).2 = Err e ->
  connect_block_with_raw now block height raw c =
    ((validate_block now block height (hash_of block) (map compute_txid (txdata block)) c).1, Err e).
Proof.
  intros Hv. unfold connect_block_with_raw, mbind at 1, stm_bind at 1.
  destruct (validate_block _ _ _ _ _ c) as [c1 r]. cbn in *. by subst r.
Qed.

Lemma history_inv_same c c' chain : history_inv c chain -> same_chain c c' -> history_inv c' chain.
Proof.
  intros [Hu Hp Hh Hb Hco Hun Hbk] (Hp' & _ & _ & _ & Hh' & Hb' & Hu' & Hdb & Hwb & Hco').
  constructor; [done|congruence|congruence|congruence|intros k; by rewrite Hco'| |].
  - unfold undo_ready. by rewrite Hwb.
  - apply (chain_backed_ext (utxo_set c)); [|done]. intros h _. unfold undo_data. by rewrite Hwb, Hdb.
Qed.

Lemma history_inv_disconnect c chain block :
  history_inv c (block :: chain) ->
  wp (disconnect_block block (best_height c))
    (fun c' r => match r with Ok _ => history_inv c' chain | Err e => is_storage e end) c.
Proof.
  intros [Hu Hp Hh Hb Hco Hun Hbk]. cbn [chain_backed] in Hbk.
  destruct Hbk as (_ & Hprev & Hnin & (b & Hua & Hrem & Hrec) & Hrest).
  assert (Hlen : best_height c - 1 = h0 + len chain) by (rewrite Hh, len_cons; lia).
  eapply wp_mono; [|apply (disconnect_spec c (chain_coins base h0 chain) block (best_height c) b (map (fun b => hash_of b) chain)); try done].
  - cbv beta. intros c' [[]|e]; [|done]. intros (Hu' & Hc' & Hp' & Hh' & Hb' & Hr' & Hd').
    constructor; [done|congruence| |congruence|done|done|].
    + rewrite Hh', <- Hlen. destruct Hbase as (_ & _ & Hpos & _). unfold sat_sub, len in *. lia.
    + apply (chain_backed_ext (utxo_set c)); [|done]. intros h Hin. apply Hd'. by intros ->.
  - intros k. rewrite Hco. cbn [chain_coins]. apply spec_batch_same; [|done].
    rewrite (ua_inserts _ _ _ _ Hua). done.
  - by rewrite Hh.
Qed.

Lemma history_inv_frame c c' chain : same_frame c c' -> history_inv c chain -> history_inv c' chain.
Proof.
  intros (Hu & Hp & Hh & Hb) [I1 I2 I3 I4 I5 I6 I7].
  split; [by rewrite Hu|by rewrite Hp|by rewrite Hh|by rewrite Hb|intros k; by rewrite Hu|by rewrite Hu|by rewrite Hu].
Qed.

Lemma history_sound c chain : history c0 c chain -> history_inv c chain.
Proof.
  induction 1 as [|? ? ? ? ? ? ? _ IH Hwf Hp Hn Hrun|? ? ? ? ? ? ? ? _ IH Hv Hrun|? ? ? ? _ IH Hrun|? ? ? _ IH Hf].
  - apply history_inv_start.
  - by eapply history_inv_connect.
  - rewrite (connect_rejected _ _ _ _ _ _ Hv) in Hrun. injection Hrun as <-. eapply history_inv_same; [exact IH|].
    apply (validate_block_only_reads c now block height (hash_of block) (map compute_txid (txdata block)) c).
    by apply same_chain_refl, IH.
  - pose proof (history_inv_disconnect _ _ _ IH) as Hd. unfold wp in Hd. by rewrite Hrun in Hd.
  - by eapply history_inv_frame.
Qed.
End History.

(** ** Theorems *)

(** C1: reorganisations are sound: after any history of connected, rejected
    and disconnected blocks, interleaved with any changes to the header index,
    the block files and the caches, the UTXO set holds exactly the coins that the
    active chain creates and does not spend, the tip is its last block, and
    the total value is at most what the subsidies up to the tip have issued,
    hence below 21 million bitcoin.  Conditions: the start is a consistent set
    without buffered undo records; connected blocks have fields of their widths
    and, at heights where the code skips the BIP 30 check (the BIP 34 height and
    above, and 91842 and 91880 on the main network), create no coin that still
    exists; connecting and disconnecting are not stopped half-way by a storage
    error. *)
Theorem active_chain_determines_coins c0 c (chain : list Block) :
  base_ok c0 -> history c0 c chain ->
  utxo_inv (utxo_set c) /\ best_height c = best_height c0 + len chain /\ best_hash c = tip_hash c0 chain /\
  (forall k, coins (utxo_set c) k = chain_coins (coins (utxo_set c0)) (best_height c0) chain k) /\
  exists M, represents M (coins (utxo_set c)) /\
    total M <= total_subsidy (params c0) (S (Z.to_nat (best_height c))) /\ total M <= MAX_MONEY.
Proof.
  intros Hbase Hh. destruct (history_sound c0 Hbase c chain Hh) as [Hu Hp Hht Hb Hco Hun Hbk].
  destruct (chain_backed_value _ _ _ Hbk) as (M & Hr & Ht). split_and!; [done..|].
  exists M. split_and!; [intros k; by rewrite Hr, Hco| |by eapply chain_supply].
  replace (S (Z.to_nat (best_height c))) with (S (Z.to_nat (best_height c0)) + length chain)%nat; [done|].
  destruct Hbase as (_ & _ & Hpos & _). rewrite Hht. unfold len. lia.
Qed.


(** C2: connecting a block is exact: every input of a non-coinbase transaction
    spends a coin of the set or an output of the block, no outpoint is spent
    twice, afterwards the set holds the old coins and the block's outputs
    without the spent ones, and the total value grows by the subsidy at
    most.  The fields of the block have their widths, and its coins are new
    where the code does not check that. *)
Theorem connect_block_exact c c' M now (block : Block) height raw txids :
  utxo_inv (utxo_set c) -> represents M (coins (utxo_set c)) -> total M <= MAX_MONEY -> block_wf c block height ->
  connect_block_with_raw now block height raw c = (c', Ok txids) ->
  let created := block_coins height (imap pair (txdata block)) in
  let spent := block_spends (imap pair (txdata block)) in
  NoDup spent /\
  (forall o, o ∈ spent -> is_Some (coins (utxo_set c) (outpoint_key o)) \/ exists e, (o, e) ∈ created) /\
  (forall k, coins (utxo_set c') k =
    if bool_decide (k ∈ map outpoint_key spent) then None else foldl spec_insert (coins (utxo_set c)) created k) /\
  exists M', represents M' (coins (utxo_set c')) /\ total M' <= total M + block_subsidy (params c) height.
Proof.
  intros Hu Hr Ht Hwf Hrun created spent. pose proof (connect_spec c M now block height raw Hu Hr Ht Hwf) as Hspec.
  unfold wp in Hspec. rewrite Hrun in Hspec. destruct (Hspec _ eq_refl) as (_ & _ & _ & _ & b & Hbi & _ & Hc & _).
  pose proof (connected_value _ _ _ _ _ _ Hbi Hc) as HM'. destruct Hbi as (W & sp & intra & Hi & Hins & Hrem & _).
  destruct (inv_removals _ _ _ _ _ Hi) as [Hr' Hnd]. unfold created, spent. rewrite <- Hins, <- Hrem. split_and!; [done| | |done].
  - intros o Ho. rewrite Hr' in Ho. apply list_elem_of_fmap in Ho as (s & -> & Hs).
    destruct (inv_origin _ _ _ _ _ Hi s Hs) as [_ [->|[_ Hin]]]; [by left; eexists|right; eauto].
  - intros k. rewrite Hc. unfold spec_batch. by rewrite spec_remove_fold.
Qed.

(** C7: a block that fails validation is rejected without a trace: the error
    is returned, and the coins, the header index, the block files, the
    transaction index and the tip are unchanged; only caches may differ. *)
Theorem rejected_block_changes_nothing c now (block : Block) height raw e :
  utxo_inv (utxo_set c) ->
  (validate_block now block height (hash_of block) (map compute_txid (txdata block)) c).2 = Err e ->
  exists c', connect_block_with_raw now block height raw c = (c', Err e) /\ same_chain c c'.
Proof.
  intros Hu Hv. eexists. split; [by apply connect_rejected|].
  by apply (validate_block_only_reads c now block height (hash_of block) (map compute_txid (txdata block)) c), same_chain_refl.
Qed.
End Chain.

(** ** The theorems at concrete inputs *)

Section Examples.
#[local] Existing Instance Sample.hashes.
#[local] Existing Instance Sample.tx_lib.
#[local] Existing Instance Sample.sig_lib.
#[local] Existing Instance SampleScript.script_lib.
#[local] Existing Instance SampleDb.rocks.
#[local] Existing Instance SampleDb.laws.
#[local] Existing Instance SampleCodec.codec.
#[local] Existing Instance SampleCodec.wal.
#[local] Existing Instance ValidationProofs.sample_ord.
#[local] Existing Instance UtxoProofs.sample_iter.
#[local] Existing Instance UtxoProofs.sample_iter_laws.
#[local] Existing Instance BlockStore.sample_files.

#[local] Instance sample_sizes : TxSizes := {| total_size := fun _ => 60; varint_size := fun _ => 1 |}.
#[local] Instance sample_runtime : Runtime := {| sig_iter := elements; par_order := fun _ l => l |}.
#[local] Instance sample_runtime_laws : RuntimeLaws := {| par_order_perm := fun _ l => reflexivity l |}.

(** A regtest node at height 0 whose set holds one coin. *)
Definition rx_outpoint : OutPoint := mkOutPoint (replicate 32 7) 0.
Definition rx_coin : UtxoEntry := mkUtxoEntry 5000 [0x51] 0 false.
Definition rx_genesis : Header := mkHeader 1 (replicate 32 0) (replicate 32 0) 100 5 1.
Definition rx_index : HeaderIndex :=
  (insert_header (block_hash rx_genesis) (mkStored rx_genesis 0 (replicate 32 0)) (mkHeaderIndex (∅ : gmap (string * bytes) bytes) ∅ 0)).1.
Definition rx_utxo : UtxoSet :=
  from_db (<[(CF_UTXO, outpoint_key rx_outpoint) := serialize_entry rx_coin]> (∅ : gmap (string * bytes) bytes)).
Definition rx_state : ChainState :=
  chain_new regtest rx_index rx_utxo (mkBlockStore 1000000 0 0 (Some []) (∅ : gmap Z bytes) false) 0 (block_hash rx_genesis).

(** A block that spends the coin and collects a fee of 100. *)
Definition rx_coinbase : Transaction :=
  mkTransaction 2 0 [mkTxIn null_outpoint [0x51; 0x00] 0xffffffff []] [mkTxOut 5000000100 [0x51]].
Definition rx_spend : Transaction :=
  mkTransaction 2 0 [mkTxIn rx_outpoint [] 0xffffffff []] [mkTxOut 4900 [0x51]].
Definition rx_txs : list Transaction := [rx_coinbase; rx_spend].
Definition rx_block : Block := mkBlock (mkHeader 4 (block_hash rx_genesis) (compute_txid rx_coinbase) 200 5 2) rx_txs.
Definition rx_run := connect_block_with_raw 1000 rx_block 1 None rx_state.
Definition rx_undone := disconnect_block rx_block 1 rx_run.1.

(** The same block with one satoshi too much. *)
Definition rx_inflating : Block :=
  mkBlock (header rx_block)
    [mkTransaction 2 0 (input rx_coinbase) [mkTxOut 5000000101 [0x51]]; rx_spend].

Definition rx_set : coin_set := {[outpoint_key rx_outpoint := rx_coin]}.

Lemma rx_contents k : contents (us_db rx_utxo) CF_UTXO k = if bool_decide (k = outpoint_key rx_outpoint) then Some (serialize_entry rx_coin) else None.
Proof.
  change (contents (us_db rx_utxo) CF_UTXO k) with
    ((<[(CF_UTXO, outpoint_key rx_outpoint) := serialize_entry rx_coin]> (∅ : gmap (string * bytes) bytes)) !! (CF_UTXO, k)).
  case_bool_decide as Hk; [subst; apply lookup_insert_eq|]. rewrite lookup_insert_ne; [apply lookup_empty|].
  intros [_ ?]%pair_eq. congruence.
Qed.

Lemma rx_coin_ok : entry_ok rx_coin.
Proof. unfold entry_ok, fits, len. cbn. split_and!; try lia. repeat constructor; unfold fits; lia. Qed.

Lemma rx_utxo_inv : utxo_inv rx_utxo.
Proof.
  split_and!; [|done|done|done].
  intros k data. rewrite rx_contents. case_bool_decide; [|done]. intros [= <-]. exists rx_coin. split; [done|apply rx_coin_ok].
Qed.

Lemma rx_represents : represents rx_set (coins rx_utxo).
Proof.
  intros k. unfold coins, disk_coin. change (entries (write_buffer rx_utxo) !! k) with (@None (option UtxoEntry)).
  rewrite rx_contents. unfold rx_set. case_bool_decide as Hk.
  - subst. rewrite lookup_singleton_eq, entry_ok_roundtrip; [done|apply rx_coin_ok].
  - by rewrite lookup_singleton_ne by congruence.
Qed.

Lemma rx_total : total rx_set = 5000.
Proof. by vm_compute. Qed.

Lemma rx_base_ok : base_ok rx_state.
Proof.
  unfold base_ok. split_and!; [apply rx_utxo_inv|done|done|done|cbn; lia|]. exists rx_set. split; [apply rx_represents|].
  rewrite rx_total. vm_compute. congruence.
Qed.

Lemma rx_tx_wf tx : tx ∈ rx_txs -> tx_wf tx.
Proof.
  intros Htx. unfold rx_txs in Htx. apply elem_of_cons in Htx as [->|Htx]; [|apply list_elem_of_singleton in Htx as ->];
  (unfold tx_wf, outpoint_ok; split_and!; cbn;
   [apply Forall_singleton; cbn; split_and!; [done|by apply bytes_okb_ok|unfold fits; lia]
   |apply Forall_singleton; cbn; split_and!; [unfold fits; lia|by repeat constructor; unfold fits; lia|unfold len; cbn; lia]
   |unfold len; cbn; lia|done|by apply bytes_okb_ok]).
Qed.

Lemma rx_new_coins : new_coins rx_state rx_block.
Proof.
  intros tx vout Htx Hv. change (txdata rx_block) with rx_txs in Htx. rewrite <- rx_represents. unfold rx_set.
  apply lookup_singleton_ne. unfold rx_txs in Htx.
  apply elem_of_cons in Htx as [->|Htx]; [|apply list_elem_of_singleton in Htx as ->];
    (cbn in Hv; destruct vout; [|lia]; vm_compute; congruence).
Qed.

Lemma rx_block_wf : block_wf rx_state rx_block 1.
Proof.
  unfold block_wf. split_and!; [|unfold fits; lia|done| |done|vm_compute; congruence|vm_compute; congruence].
  - apply Forall_forall, rx_tx_wf.
  - intros _. apply rx_new_coins.
Qed.

Lemma rx_connects : connect_block_with_raw 1000 rx_block 1 None rx_state = (rx_run.1, Ok (map compute_txid rx_txs)).
Proof.
  assert (Hr : rx_run.2 = Ok (map compute_txid rx_txs)) by (vm_compute; reflexivity).
  rewrite <- Hr. apply surjective_pairing.
Qed.

Lemma rx_history : history rx_state rx_run.1 [rx_block].
Proof.
  apply (history_connect rx_state rx_state [] rx_run.1 1000 rx_block None (map compute_txid rx_txs)).
  - apply history_start.
  - apply rx_block_wf.
  - reflexivity.
  - apply not_elem_of_nil.
  - apply rx_connects.
Qed.

(** The block is connected and disconnected again. *)
Lemma active_chain_determines_coins_witness :
  rx_undone.2 = Ok tt /\ forall k, coins (utxo_set rx_undone.1) k = coins rx_utxo k.
Proof.
  assert (Hd : rx_undone.2 = Ok tt) by (vm_compute; reflexivity). split; [exact Hd|].
  apply (active_chain_determines_coins rx_state rx_undone.1 []); [exact rx_base_ok|].
  apply (history_disconnect rx_state rx_run.1 [] rx_undone.1 rx_block); [exact rx_history|].
  assert (Hh : best_height rx_run.1 = 1) by (vm_compute; reflexivity). rewrite Hh.
  rewrite <- Hd. apply surjective_pairing.
Defined.


Lemma connect_block_exact_witness :
  exists M', represents M' (coins (utxo_set rx_run.1)) /\ total M' <= 5000 + block_subsidy regtest 1.
Proof.
  rewrite <- rx_total.
  apply (connect_block_exact rx_state rx_run.1 rx_set 1000 rx_block 1 None (map compute_txid rx_txs)
    rx_utxo_inv rx_represents); [rewrite rx_total; vm_compute; congruence|exact rx_block_wf|exact rx_connects].
Defined.

(** Why created coins must be new: the set has the coin that the coinbase of the
    block creates; the check is skipped at this height, the block is connected
    and disconnected, and the coin is gone. *)
Definition rx_twice : OutPoint := mkOutPoint (compute_txid rx_coinbase) 0.
Definition rx_twice_state : ChainState :=
  chain_new regtest rx_index
    (from_db (<[(CF_UTXO, outpoint_key rx_twice) := serialize_entry rx_coin]> (us_db rx_utxo : gmap (string * bytes) bytes) : @DB SampleDb.rocks))
    (mkBlockStore 1000000 0 0 (Some []) (∅ : gmap Z bytes) false) 0 (block_hash rx_genesis).

Lemma overwritten_coin_lost :
  let connected := connect_block_with_raw 1000 rx_block 1 None rx_twice_state in
  let undone := disconnect_block rx_block 1 connected.1 in
  connected.2 = Ok (map compute_txid rx_txs) /\ undone.2 = Ok tt /\
  coins (utxo_set rx_twice_state) (outpoint_key rx_twice) = Some rx_coin /\ coins (utxo_set undone.1) (outpoint_key rx_twice) = None.
Proof. vm_compute. auto. Qed.

(** One satoshi too much is rejected. *)
Lemma rejected_block_changes_nothing_witness :
  exists c', connect_block_with_raw 1000 rx_inflating 1 None rx_state = (c', Err (InvalidSubsidy 5000000100 5000000101)) /\
    same_chain rx_state c'.
Proof.
  apply (rejected_block_changes_nothing rx_state 1000 rx_inflating 1 None); [exact rx_utxo_inv|vm_compute; reflexivity].
Defined.
End Examples.
