(* ===== verification/BlockScripts.v ===== *)
(** * The scripts of a connected block

    With scripts verified, a block is accepted only when every input of every
    transaction after the coinbase runs its script against the coin it
    spends, or hits the signature cache. *)

From Stdlib Require Import ZArith Lia.
From stdpp Require Import base option numbers list gmap strings.
From S2P Require Import Prelude Bytes U256 Types ScriptBytes Signatures VerifyScript Consensus Validation Store HeaderIndex TxIndex BlockStore Bip110 UtxoSet UtxoProofs ChainState ChainProofs ReorgProofs.

Section Chain.
Context `{Hashes} `{ScriptLib} `{SigLib} `{TxLib} `{OutPointOrd} `{TxSizes} `{HR : RocksDb} `{HL : !RocksLaws}
  `{HW : !RocksWal} `{HeaderCodec} `{BlockFiles} `{HM : MapIter} `{HMI : !MapIterLaws} `{HRun : Runtime} `{HRL : !RuntimeLaws}.
Implicit Types c : ChainState.

(** ** Running the checks *)

Definition check_flags (flags : ScriptFlags) (s : ScriptCheck) : ScriptFlags := set_verify_bip110 flags (sc_enforce s).

Definition hit (cache : SigCache) (flags : ScriptFlags) (s : ScriptCheck) : Prop :=
  cache_contains cache (sc_wtxid s) (Z.of_nat (sc_vin s)) (check_flags flags s) = true.

Definition verifies (flags : ScriptFlags) (s : ScriptCheck) : Prop :=
  exists u, verify_script (sc_tx s) (sc_vin s) (sc_prevouts s) (check_flags flags s) = Ok u.

Definition check_id (s : ScriptCheck) : hash256 * nat := (sc_wtxid s, sc_vin s).
Definition check_ok (s : ScriptCheck) : Prop := length (sc_wtxid s) = 32%nat /\ fits 32 (Z.of_nat (sc_vin s)).

Lemma hit_insert cache flags s s' :
  length (shards cache) = 64%nat -> check_ok s -> check_ok s' ->
  hit (cache_insert sig_iter cache (sc_wtxid s') (Z.of_nat (sc_vin s')) (check_flags flags s')) flags s ->
  check_id s = check_id s' \/ hit cache flags s.
Proof.
  intros Hl [Hw Hv] [Hw' Hv']. unfold hit, cache_contains. rewrite !bool_decide_eq_true.
  intros Hin. apply elem_of_shard_insert in Hin as [Hk|Hin]; [left|by right|done].
  apply cache_key_inj in Hk as (Hww & Hvv & _); [|done..]. unfold check_id. f_equal; [done|lia].
Qed.

(** The cache after the checks [pre]. *)
Definition cache_from (cache0 cache : SigCache) (flags : ScriptFlags) (pre : list ScriptCheck) : Prop :=
  length (shards cache) = 64%nat /\
  forall s, check_ok s -> hit cache flags s -> hit cache0 flags s \/ check_id s ∈ map check_id pre.

Lemma run_checks_spec flags l c :
  length (shards (sig_cache c)) = 64%nat -> NoDup (map check_id l) -> Forall check_ok l ->
  wp (foldS (run_check flags) tt l)
    (fun _ r => r = Ok tt -> forall s, s ∈ l -> hit (sig_cache c) flags s \/ verifies flags s) c.
Proof.
  intros Hlen Hnd Hok.
  eapply wp_mono; [|apply (wp_foldS_split (fun pre c' _ => cache_from (sig_cache c) (sig_cache c') flags pre /\
    forall s, s ∈ pre -> hit (sig_cache c) flags s \/ verifies flags s) (fun _ _ => True) (run_check flags) l tt c)].
  - cbv beta. intros c' [[]|e]; [|done]. by intros [_ Hall] _.
  - intros pre s suf [] c' Hl [[Hl' Hfrom] Hpre]. subst l. rewrite map_app in Hnd. cbn [map] in Hnd.
    assert (Hs : check_ok s) by (rewrite Forall_forall in Hok; apply Hok, elem_of_app; right; by left).
    assert (Hnew : check_id s ∉ map check_id pre).
    { intros Hin. apply NoDup_app in Hnd as (_ & Hd & _). apply (Hd _ Hin). by left. }
    assert (Hnext : hit (sig_cache c) flags s \/ verifies flags s -> forall s', s' ∈ pre ++ [s] -> hit (sig_cache c) flags s' \/ verifies flags s').
    { intros Hv s' [Hin| ->%list_elem_of_singleton]%elem_of_app; [by apply Hpre|done]. }
    assert (Hweak : forall x, x ∈ map check_id pre -> x ∈ map check_id (pre ++ [s])).
    { intros x Hx. rewrite map_app. apply elem_of_app. by left. }
    unfold run_check. apply wp_bind, wp_gets. destruct (cache_contains _ _ _ _) eqn:Hhit.
    + apply wp_ret. split; [split; [done|]|].
      * intros s' Hs' Hh. destruct (Hfrom s' Hs' Hh); auto.
      * apply Hnext. left. by destruct (Hfrom s Hs Hhit).
    + apply wp_bind, wp_lift. destruct (verify_script _ _ _ _) as [u|e] eqn:Hver; [|done].
      apply wp_modify. cbn [set_sig_cache sig_cache]. split; [split; [by cbn; rewrite length_insert|]|].
      * intros s' Hs' Hh. destruct (hit_insert _ flags s' s Hl' Hs' Hs Hh) as [Heq|Hh'].
        -- right. rewrite map_app, Heq. apply elem_of_app. right. by left.
        -- destruct (Hfrom s' Hs' Hh'); auto.
      * apply Hnext. right. by exists u.
  - split; [split; [done|by left]|]. by intros s ?%not_elem_of_nil.
Qed.

(** ** Queueing the checks *)

Section Queue.
Context (c0 : ChainState) (k : TxContext).
Abbreviation U0 := (coins (utxo_set c0)).
Abbreviation txs := (txdata (tc_block k)).
Hypothesis Hverify : tc_verify_scripts k = true.
Hypothesis Hwtxids : tc_wtxids k = Some (map compute_wtxid txs).

Definition as_prevout (e : UtxoEntry) : TxOut := mkTxOut (amount e) (entry_script e).

(** The inputs [pre] of a transaction have been resolved, to the coins [es]. *)
Definition in_resolved (acc0 : TxAcc) (pre : list TxIn) (ia : InAcc) : Prop :=
  script_checks (in_outer ia) = script_checks acc0 /\ intra_block_utxos (in_outer ia) = intra_block_utxos acc0 /\
  inserts (acc_batch (in_outer ia)) = inserts (acc_batch acc0) /\
  exists es, tx_prevouts ia = map as_prevout es /\ input_heights ia = map entry_height es /\
    Forall2 (fun txin e => U0 (outpoint_key (previous_output txin)) = Some e \/ intra_block_utxos acc0 !! previous_output txin = Some e) pre es.

Lemma spend_input_resolved acc0 height flags pre ia txin :
  in_resolved acc0 pre ia -> reads (spend_input height flags ia txin) c0 (in_resolved acc0 (pre ++ [txin])).
Proof.
  intros (Hsc & Hin & Hins & es & Hp & Hh & Hall). unfold spend_input.
  eapply reads_bind; [apply (reads_lift _ _ (fun _ => True)); done|]. intros ? _.
  eapply reads_bind; [apply reads_coin|]. cbv beta. intros stored ->. cbn [mark_spent intra_block_utxos].
  eapply reads_bind; [apply (reads_lift _ _ (fun u => U0 (outpoint_key (previous_output txin)) = Some u \/
    intra_block_utxos acc0 !! previous_output txin = Some u))|].
  { intros u Hu. apply ok_or_Ok in Hu. rewrite Hin in Hu. destruct (U0 _); [left; congruence|by right]. }
  intros u Hu. eapply reads_bind; [apply reads_params|]. intros p _.
  eapply reads_bind; [apply (reads_lift _ _ (fun _ => True)); done|]. intros ? _. apply reads_ret.
  unfold in_resolved. cbn [tx_prevouts input_heights in_outer add_spent mark_spent script_checks intra_block_utxos acc_batch inserts].
  split_and!; [done..|]. exists (es ++ [u]). rewrite Hp, Hh, !map_app. split_and!; [done|done|].
  apply Forall2_app; [done|]. by constructor.
Qed.

(** The input has its check in the queue: with the coins that the transaction
    spends, and under the BIP-110 rules when they apply to its own coin. *)
Definition queued (acc : TxAcc) (tx : Transaction) (vin : nat) : Prop :=
  exists es e,
    Forall2 (fun txin e => U0 (outpoint_key (previous_output txin)) = Some e \/ (previous_output txin, e) ∈ inserts (acc_batch acc)) (input tx) es /\
    es !! vin = Some e /\
    mkCheck tx vin (map as_prevout es) (compute_wtxid tx) (input_enforces (tc_bip110 k) (entry_height e)) ∈ script_checks acc.

Definition tx_ids (item : nat * Transaction) : list (hash256 * nat) :=
  if (item.1 =? 0)%nat then [] else map (pair (compute_wtxid item.2)) (seq 0 (length (input item.2))).

Definition checks_inv (pre : list (nat * Transaction)) (acc : TxAcc) : Prop :=
  (forall o e, intra_block_utxos acc !! o = Some e -> (o, e) ∈ inserts (acc_batch acc)) /\
  map check_id (script_checks acc) = concat (map tx_ids pre) /\
  forall i tx vin, (i, tx) ∈ pre -> i <> 0%nat -> (vin < length (input tx))%nat -> queued acc tx vin.

Lemma queued_mono acc acc' tx vin :
  (forall s, s ∈ script_checks acc -> s ∈ script_checks acc') ->
  (forall x, x ∈ inserts (acc_batch acc) -> x ∈ inserts (acc_batch acc')) -> queued acc tx vin -> queued acc' tx vin.
Proof.
  intros Hs Hi (es & e & Hall & He & Hin). exists es, e. split_and!; [|done|by apply Hs].
  eapply Forall2_impl; [exact Hall|]. cbv beta. intros txin e' [?|Ho]; [by left|right; by apply Hi].
Qed.

Lemma add_created_checks l : forall acc,
  (forall o e, intra_block_utxos acc !! o = Some e -> (o, e) ∈ inserts (acc_batch acc)) ->
  let acc' := foldl add_created acc l in
  (forall o e, intra_block_utxos acc' !! o = Some e -> (o, e) ∈ inserts (acc_batch acc')) /\
  script_checks acc' = script_checks acc /\ forall x, x ∈ inserts (acc_batch acc) -> x ∈ inserts (acc_batch acc').
Proof.
  induction l as [|[o1 e1] l IH]; intros acc Hacc; [done|]. cbn [foldl]. destruct (IH (add_created acc (o1, e1))) as (H1' & H2' & H3').
  - cbn. intros o e [[<- <-]|[_ Ho]]%lookup_insert_Some; apply elem_of_app; [right; by left|left; by apply Hacc].
  - cbv zeta. split_and!; [done|by rewrite H2'|]. intros x Hx. apply H3'. cbn. apply elem_of_app. by left.
Qed.

Lemma imap_ids (f : nat -> Z -> ScriptCheck) (heights : list Z) w :
  (forall i h, check_id (f i h) = (w, i)) -> map check_id (imap f heights) = map (pair w) (seq 0 (length heights)).
Proof.
  intros Hf. apply list_eq. intros i. rewrite !list_lookup_fmap, list_lookup_imap.
  destruct (heights !! i) as [h|] eqn:Hi; cbn.
  - rewrite Hf, lookup_seq_lt by by eapply lookup_lt_Some. done.
  - rewrite lookup_seq_ge by by apply lookup_ge_None. done.
Qed.

Lemma checks_inv_snoc pre item acc acc' :
  checks_inv pre acc -> (forall o e, intra_block_utxos acc' !! o = Some e -> (o, e) ∈ inserts (acc_batch acc')) ->
  map check_id (script_checks acc') = map check_id (script_checks acc) ++ tx_ids item ->
  (forall s, s ∈ script_checks acc -> s ∈ script_checks acc') ->
  (forall x, x ∈ inserts (acc_batch acc) -> x ∈ inserts (acc_batch acc')) ->
  (item.1 <> 0%nat -> forall vin, (vin < length (input item.2))%nat -> queued acc' item.2 vin) ->
  checks_inv (pre ++ [item]) acc'.
Proof.
  intros (_ & Hids & Hq) Hi Hids' Hs Hins Hnew. split_and!; [done| |].
  - rewrite Hids', Hids, map_app, concat_app. cbn. by rewrite app_nil_r.
  - intros i tx vin [Hin|Heq%list_elem_of_singleton]%elem_of_app Hz Htx.
    + eapply queued_mono; [done|done|by eapply Hq].
    + subst item. by apply Hnew.
Qed.

Lemma validate_spend_checks pre i tx acc :
  txs !! i = Some tx -> i <> 0%nat -> checks_inv pre acc ->
  reads (validate_spend k i (compute_txid tx) tx acc) c0 (checks_inv (pre ++ [(i, tx)])).
Proof.
  intros Htx Hi Hinv. pose proof Hinv as (Hintra & Hids & Hq). unfold validate_spend.
  eapply reads_bind; [apply reads_params|]. intros p _.
  eapply reads_bind; [apply (reads_lift _ _ (fun _ => True)); done|]. intros ? _.
  eapply reads_bind; [apply (reads_foldS c0 (in_resolved acc))|].
  { intros l x suf ia _. apply spend_input_resolved. }
  { split_and!; [done..|]. by exists []. }
  intros ia (Hsc & Hin & Hins & es & Hpre & Hhs & Hall). pose proof (Forall2_length _ _ _ Hall) as Hlen.
  eapply reads_bind; [apply check_sequence_locks_reads|]. intros ? _. rewrite Hverify, Hwtxids, list_lookup_fmap, Htx.
  eapply reads_bind; [apply (reads_lift _ _ (fun _ => True)); done|]. intros ? _. apply reads_ret.
  set (acc1 := add_fees _ _).
  assert (Hsc1 : script_checks acc1 = script_checks acc ++ imap (fun vin h =>
    mkCheck tx vin (tx_prevouts ia) (compute_wtxid tx) (input_enforces (tc_bip110 k) h)) (input_heights ia)) by (cbn; by rewrite Hsc).
  assert (Hin1 : intra_block_utxos acc1 = intra_block_utxos acc) by done.
  assert (Hins1 : inserts (acc_batch acc1) = inserts (acc_batch acc)) by done. clearbody acc1.
  destruct (add_created_checks (created_coins (compute_txid tx) (tc_height k) false tx) acc1) as (Ha & Hb & Hc).
  { intros o e. rewrite Hin1, Hins1. apply Hintra. }
  rewrite Hsc1 in Hb. apply (checks_inv_snoc _ _ acc); [done|done| | | |].
  - rewrite Hb, map_app. f_equal. unfold tx_ids. cbn [fst snd]. apply Nat.eqb_neq in Hi. rewrite Hi, Hlen, Hhs.
    rewrite <- (length_map entry_height es). by apply imap_ids.
  - intros s Hs. rewrite Hb. apply elem_of_app. by left.
  - intros x Hx. apply Hc. by rewrite Hins1.
  - intros _ vin Hvin. cbn [fst snd] in *. destruct (lookup_lt_is_Some_2 es vin) as [e He]; [by rewrite <- Hlen|].
    exists es, e. split_and!; [|done|].
    + eapply Forall2_impl; [exact Hall|]. cbv beta. intros txin e' [Ho|Ho]; [by left|right]. apply Hc. rewrite Hins1. by apply Hintra.
    + rewrite Hb. apply elem_of_app. right. apply list_elem_of_lookup. exists vin.
      by rewrite list_lookup_imap, Hhs, list_lookup_fmap, He, Hpre.
Qed.

Lemma validate_txs_checks :
  tc_txids k = map compute_txid txs ->
  reads (foldS (validate_tx k) acc_new (imap pair txs)) c0 (checks_inv (imap pair txs)).
Proof.
  intros Htxids. apply (reads_foldS c0 checks_inv).
  2: { split_and!; [intros o e; cbn [acc_new intra_block_utxos]; by rewrite lookup_empty|done|]. by intros i tx vin ?%not_elem_of_nil. }
  intros pre [i tx] suf acc Hsplit Hinv. apply imap_pair_split in Hsplit as [_ Hlook]. unfold validate_tx.
  assert (Hid : default [] (tc_txids k !! i) = compute_txid tx) by by rewrite Htxids, list_lookup_fmap, Hlook. rewrite Hid.
  eapply reads_bind; [apply (reads_lift _ _ (fun _ => True)); done|]. intros ? _.
  eapply reads_bind; [apply (reads_lift _ _ (fun _ => True)); done|]. intros ? _.
  eapply reads_bind; [eapply reads_any, check_bip30_reads|]. intros ? _.
  set (acc1 := add_sigops _ _). assert (Hinv1 : checks_inv pre acc1) by exact Hinv. clearbody acc1.
  destruct i as [|i]; [|by apply validate_spend_checks].
  destruct Hinv1 as (Hintra & Hids & Hq).
  destruct (add_created_checks (created_coins (compute_txid tx) (tc_height k) true tx) acc1 Hintra) as (Ha & Hb & Hc).
  apply reads_ret. apply (checks_inv_snoc _ _ acc1); [by split_and!|done| | |done|done].
  - rewrite Hb. cbn. by rewrite app_nil_r.
  - intros s. by rewrite Hb.
Qed.
End Queue.

(** ** The caches before the checks run *)

Section Keeps.
Context {X : Type} (f : ChainState -> X) (Hf : forall c u, f (ChainState.set_utxo c u) = f c).

Definition keeps_part {A} (m : stm ChainState CoreError A) : Prop := forall c, f (m c).1 = f c.

Lemma keeps_part_bind {A B} (m : stm ChainState CoreError A) (g : A -> stm ChainState CoreError B) :
  keeps_part m -> (forall a, keeps_part (g a)) -> keeps_part (m ≫= g).
Proof.
  intros Hm Hg c. specialize (Hm c). unfold mbind, stm_bind. destruct (m c) as [c' [a|e]]; [|done]. rewrite <- Hm. apply Hg.
Qed.
Lemma keeps_part_foldS {A B} (g : B -> A -> stm ChainState CoreError B) l : forall b,
  (forall b x, keeps_part (g b x)) -> keeps_part (foldS g b l).
Proof. induction l as [|x l IH]; intros b Hg; cbn [foldS]; [done|]. apply keeps_part_bind; [done|]. intros b'. by apply IH. Qed.
Lemma keeps_part_utxo {A} (m : stm UtxoSet StorageError A) : keeps_part (on_utxo m).
Proof. intros c. unfold on_utxo. destruct (m _). apply Hf. Qed.

Ltac keeps_part :=
  repeat (cbv zeta; match goal with
  | |- keeps_part (foldS _ _ _) => apply keeps_part_foldS; intros ? ?
  | |- keeps_part (lift _) => done
  | |- keeps_part (mret _) => done
  | |- keeps_part (gets _) => done
  | |- keeps_part (on_utxo _) => apply keeps_part_utxo
  | |- keeps_part (if ?b then _ else _) => destruct b
  | |- keeps_part (match ?x with _ => _ end) => destruct x
  | |- keeps_part (_ ≫= _) => apply keeps_part_bind; [|intros ?]
  end).

Lemma keeps_part_validate_tx k acc item : keeps_part (validate_tx k acc item).
Proof.
  destruct item as [i tx]. unfold validate_tx, check_bip30, check_no_coin, validate_spend, spend_input, check_sequence_locks. keeps_part.
Qed.

Lemma keeps_part_coinbase_value k fees : keeps_part (check_coinbase_value k fees).
Proof.
  assert (Hp : forall a b, keeps_part (probe_input a b)).
  { intros a b c. unfold probe_input. pose proof (keeps_part_utxo (utxo_get (previous_output b)) c).
    by destruct (on_utxo _ c). }
  unfold check_coinbase_value. keeps_part. apply Hp.
Qed.

Lemma keeps_part_context block height : keeps_part (check_context block height).
Proof. unfold check_context. keeps_part. Qed.

Lemma keeps_part_signaling block height a : keeps_part (check_signaling block height a).
Proof. unfold check_signaling. keeps_part. Qed.

(** A step of the validation. *)
Lemma wp_step {A B} (m : stm ChainState CoreError A) (g : A -> stm ChainState CoreError B) (P : A -> Prop)
    (Q : ChainState -> result CoreError B -> Prop) c0 c :
  reads m c0 P -> keeps_part m -> same_chain c0 c -> f c = f c0 -> (forall c' e, Q c' (Err e)) ->
  (forall c' a, same_chain c0 c' -> f c' = f c0 -> P a -> wp (g a) Q c') -> wp (m ≫= g) Q c.
Proof.
  intros Hr Hk Hc Hs He Hg. apply wp_bind. specialize (Hr c Hc). specialize (Hk c). unfold wp at 1. unfold wp in Hr.
  destruct (m c) as [c' [a|e]]; cbn in *; [|done]. destruct Hr as [Hc' HP]. apply Hg; [done|congruence|by apply HP].
Qed.
End Keeps.

(** ** A validated block *)

(** The deployment state that a block is validated under. *)
Definition bip110_of c (block : Block) (height : Z) : Bip110Activation :=
  (activation_at (get_header (header_index c)) (params c) (bip110_checker c) (prev_blockhash (header block)) height).2.

(** Every input ran its script with the coins the transaction spends, or hit
    the cache; the BIP-110 rules apply to coins from the activation on. *)
Definition scripts_checked c (block : Block) (height : Z) (b : UtxoBatch) : Prop :=
  forall i tx, txdata block !! S i = Some tx ->
  forall vin, (vin < length (input tx))%nat ->
  exists es e enforce,
    Forall2 (fun txin e => coins (utxo_set c) (outpoint_key (previous_output txin)) = Some e \/ (previous_output txin, e) ∈ inserts b) (input tx) es /\
    es !! vin = Some e /\
    (enforce = true <-> state (bip110_of c block height) = Active /\
      exists h, activation_height (bip110_of c block height) = Some h /\ h <= entry_height e) /\
    let flags := set_verify_bip110 (block_flags (params c) block height) enforce in
    cache_contains (sig_cache c) (compute_wtxid tx) (Z.of_nat vin) flags = true \/
    exists u, verify_script tx vin (map as_prevout es) flags = Ok u.

Lemma input_enforces_spec a h :
  input_enforces a h = true <-> state a = Active /\ exists h0, activation_height a = Some h0 /\ h0 <= h.
Proof.
  unfold input_enforces, enforcing. rewrite andb_true_iff, bool_decide_eq_true. apply and_iff_compat_l.
  destruct (activation_height a) as [h0|]; [|naive_solver]. rewrite Z.geb_leb, Z.leb_le. naive_solver.
Qed.

(** The operator trusts the block: it is the assume-valid block, or not above
    it, when that one's header is stored. *)
Definition trusted c (hash : hash256) (height : Z) : Prop :=
  exists av, assume_valid (params c) = Some av /\
    (hash = av \/ exists h, get_header (header_index c) av = Ok (Some h) /\ height <= sh_height h).

Definition ids_ok (block : Block) : Prop :=
  NoDup (map compute_wtxid (txdata block)) /\
  Forall (fun tx => length (compute_wtxid tx) = 32%nat /\ len (input tx) <= 2 ^ 32) (txdata block).

Lemma imap_pair_snd {A} (l : list A) : (imap pair l).*2 = l.
Proof.
  apply list_eq. intros i. rewrite list_lookup_fmap, list_lookup_imap. by destruct (l !! i).
Qed.

Lemma elem_of_tx_ids x items :
  x ∈ concat (map tx_ids items) ->
  exists i tx, (i, tx) ∈ items /\ i <> 0%nat /\ x.1 = compute_wtxid tx /\ (x.2 < length (input tx))%nat.
Proof.
  rewrite list_elem_of_In, in_concat. intros (l & Hl & Hx). apply in_map_iff in Hl as ([i tx] & <- & Hin).
  unfold tx_ids in Hx. cbn [fst snd] in Hx. destruct (i =? 0)%nat eqn:Hi; [done|]. apply Nat.eqb_neq in Hi.
  apply in_map_iff in Hx as (v & <- & Hv). apply in_seq in Hv. exists i, tx. rewrite list_elem_of_In. split_and!; [done..|cbn; lia].
Qed.

Lemma tx_ids_NoDup items : NoDup (map compute_wtxid items.*2) -> NoDup (concat (map tx_ids items)).
Proof.
  induction items as [|[i tx] items IH]; intros Hnd; [constructor|]. cbn in Hnd. apply NoDup_cons in Hnd as [Hn Hnd].
  cbn [map concat]. apply NoDup_app. split_and!; [| |by apply IH].
  - unfold tx_ids. destruct (_ =? 0)%nat; [constructor|]. apply (NoDup_fmap_2 (pair _)), NoDup_seq.
  - intros x Hx Hx'. apply elem_of_tx_ids in Hx' as (j & tx' & Hin & _ & Hw & _). apply Hn.
    assert (Hx1 : x.1 = compute_wtxid tx).
    { unfold tx_ids in Hx. destruct (_ =? 0)%nat; [by apply not_elem_of_nil in Hx|]. by apply list_elem_of_fmap in Hx as (v & -> & _). }
    rewrite <- Hx1, Hw. apply list_elem_of_fmap. exists tx'. split; [done|]. apply list_elem_of_fmap. by exists (j, tx').
Qed.

Lemma validate_transactions_scripts c0 k c :
  same_chain c0 c -> sig_cache c = sig_cache c0 -> length (shards (sig_cache c0)) = 64%nat ->
  tc_verify_scripts k = true -> tc_wtxids k = Some (map compute_wtxid (txdata (tc_block k))) ->
  tc_txids k = map compute_txid (txdata (tc_block k)) -> tc_flags k = block_flags (params c0) (tc_block k) (tc_height k) ->
  tc_bip110 k = bip110_of c0 (tc_block k) (tc_height k) ->
  ids_ok (tc_block k) ->
  wp (validate_transactions k) (fun _ r => forall b, r = Ok b -> scripts_checked c0 (tc_block k) (tc_height k) b) c.
Proof.
  intros Hc Hs Hlen Hv Hw Ht Hfl Hact [Hnd Hids]. unfold validate_transactions.
  eapply (wp_step sig_cache _ _ _ _ c0); [apply reads_prefetch|by apply keeps_part_utxo|done|done|done|]. intros c1 ? Hc1 Hs1 _.
  eapply (wp_step sig_cache _ _ _ _ c0); [by apply validate_txs_checks| |done|done|done|].
  { apply keeps_part_foldS. intros. by apply keeps_part_validate_tx. }
  intros c2 acc Hc2 Hs2 (_ & Hcid & Hq).
  eapply (wp_step sig_cache _ _ (fun _ => True) _ c0); [by apply reads_lift|done|done|done|done|]. intros c3 ? Hc3 Hs3 _.
  eapply (wp_step sig_cache _ _ (fun _ => True) _ c0); [apply check_coinbase_value_any|by apply keeps_part_coinbase_value|done|done|done|].
  intros c4 ? Hc4 Hs4 _. apply wp_bind.
  assert (Hperm : par_order (script_checks acc) ≡ₚ script_checks acc) by apply par_order_perm.
  eapply wp_mono; [|apply run_checks_spec].
  - cbv beta. intros c5 [[]|e] Hall; [|done]. apply wp_ret. intros b [= <-] i tx Htx vin Hvin.
    destruct (Hq (S i) tx vin) as (es & e & Hcoins & He & Hin); [|done|done|].
    { apply list_elem_of_lookup. exists (S i). by rewrite list_lookup_imap, Htx. }
    exists es, e, (input_enforces (tc_bip110 k) (entry_height e)). split_and!; [done|done|rewrite <- Hact; apply input_enforces_spec|].
    rewrite <- Hfl, <- Hs4. rewrite <- Hperm in Hin. by destruct (Hall eq_refl _ Hin) as [Hh|Hver]; [left|right].
  - by rewrite Hs4.
  - rewrite Hperm, Hcid. apply tx_ids_NoDup. rewrite imap_pair_snd. done.
  - rewrite Hperm. apply Forall_forall. intros s Hin.
    assert (Hid : check_id s ∈ concat (map tx_ids (imap pair (txdata (tc_block k))))) by (rewrite <- Hcid; apply list_elem_of_fmap; eauto).
    apply elem_of_tx_ids in Hid as (i & tx & Hit & _ & Hw' & Hv'). apply list_elem_of_lookup in Hit as [j Hj].
    rewrite list_lookup_imap in Hj. destruct (_ !! j) as [tx'|] eqn:Hx; [|done]. injection Hj as <- ->.
    apply (Forall_lookup_1 _ _ _ _ Hids) in Hx as [Hl1 Hl2]. cbn in Hw', Hv'. unfold check_ok. rewrite Hw'. split; [done|].
    unfold fits, len in *. lia.
Qed.

Definition both_caches c : SigCache * option Bip110Checker := (sig_cache c, bip110_checker c).

Ltac next :=
  repeat match goal with
  | Hx : same_chain _ _ |- _ => clear Hx
  | Hx : both_caches _ = both_caches _ |- _ => clear Hx
  | Hx : sig_cache _ = sig_cache _ |- _ => clear Hx
  end; intros ? ? ? ? ?; cbv beta in *.

Lemma must_verify_untrusted c0 hash height :
  ~ trusted c0 hash height -> reads (must_verify_scripts hash height) c0 (fun vs => vs = true).
Proof.
  intros Hno. unfold must_verify_scripts. eapply reads_bind; [apply reads_gets_id|]. cbv beta. intros c Hc. apply reads_ret.
  destruct Hc as (Hp & Hi & _). rewrite Hp, Hi. destruct (assume_valid (params c0)) as [av|] eqn:Hav; [|done].
  case_bool_decide as Hh; [destruct Hno; exists av; auto|].
  destruct (get_header (header_index c0) av) as [[h|]|] eqn:Hg; [|done..]. rewrite Z.gtb_ltb. apply Z.ltb_lt.
  destruct (Z.lt_ge_cases (sh_height h) height) as [|Hle]; [done|]. destruct Hno. exists av. split; [done|]. right. eauto.
Qed.

(** The part of the validation from the BIP-110 state on. *)
Lemma validate_rest_scripts c0 c block height wtxids mtp :
  length (shards (sig_cache c0)) = 64%nat -> ids_ok block -> same_chain c0 c -> both_caches c = both_caches c0 ->
  wtxids = Some (map compute_wtxid (txdata block)) ->
  wp (bip110 ← bip110_activation (prev_blockhash (header block)) height;
      _ ← check_signaling block height bip110;
      validate_transactions (mkTxContext block height (map compute_txid (txdata block)) wtxids
        (block_flags (params c0) block height) true mtp bip110))
    (fun (_ : ChainState) r => forall b, r = Ok b -> scripts_checked c0 block height b) c.
Proof.
  intros Hlen Hids Hc Hb Hw. assert (Hch : bip110_checker c = bip110_checker c0) by by injection Hb. assert (Hs : sig_cache c = sig_cache c0) by by injection Hb.
  apply wp_bind. pose proof (bip110_activation_reads c0 (prev_blockhash (header block)) height c Hc) as Hr.
  unfold wp, bip110_activation in Hr. unfold wp at 1, bip110_activation. destruct Hc as (Hp & Hi & _).
  destruct (activation_at _ _ _ _ _) as [ck a] eqn:Ha. cbn [fst snd] in *. destruct Hr as [Hc1 _].
  assert (Hact : a = bip110_of c0 block height) by (unfold bip110_of; rewrite <- Hp, <- Hi, <- Hch, Ha; done).
  eapply (wp_step sig_cache _ _ (fun _ => True) _ c0); [apply check_signaling_reads|by apply keeps_part_signaling|exact Hc1|exact Hs|done|].
  intros c2 ? Hc2 Hs2 _. set (k := mkTxContext _ _ _ _ _ _ _ _). by apply (validate_transactions_scripts c0 k).
Qed.

Lemma validate_block_scripts c now block height :
  utxo_inv (utxo_set c) -> length (shards (sig_cache c)) = 64%nat -> ~ trusted c (block_hash (header block)) height -> ids_ok block ->
  wp (validate_block now block height (block_hash (header block)) (map compute_txid (txdata block)))
    (fun _ r => forall b, r = Ok b -> scripts_checked c block height b) c.
Proof.
  intros Hu Hlen Hav Hids. unfold validate_block. pose proof (same_chain_refl c Hu) as Hc.
  pose proof (eq_refl (both_caches c)) as Hs.
  eapply (wp_step both_caches _ _ (fun _ => True) _ c); [|by destruct (0 <? height)|done|done|done|].
  { destruct (0 <? height); [apply read_index_reads|by apply reads_ret]. }
  next. eapply (wp_step both_caches _ _ _ _ c); [apply reads_params|done|done|done|done|]. next. subst.
  do 4 (eapply (wp_step both_caches _ _ (fun _ => True) _ c); [by apply reads_lift|done|done|done|done|]; next).
  eapply (wp_step both_caches _ _ (fun vs => vs = true) _ c); [by apply must_verify_untrusted|done|done|done|done|].
  next. subst. eapply (wp_step both_caches _ _ (fun _ => True) _ c); [by apply reads_lift|done|done|done|done|]. next.
  eapply (wp_step both_caches _ _ (fun _ => True) _ c); [apply check_context_reads|by apply keeps_part_context|done|done|done|].
  next. by apply validate_rest_scripts.
Qed.

(** ** Theorem *)

(** C6: no coin is spent without its script: when validation accepts a block,
    every input of every transaction after the coinbase had [verify_script]
    succeed, with the coins that its transaction really spends and the flags of
    the block's height, or was found in the signature cache as it was before the
    block under these flags.  The BIP-110 rules are among the flags exactly when
    the deployment is active and the coin is not older than its activation.
    The block is none that the operator trusts: the assume-valid block, or a
    block at most as high while the header of that one is stored.  Witness ids
    are 32 bytes and differ within the block, and the cache has its 64 shards. *)
Theorem block_scripts_verified c now (block : Block) height b :
  utxo_inv (utxo_set c) -> length (shards (sig_cache c)) = 64%nat -> ~ trusted c (block_hash (header block)) height -> ids_ok block ->
  (validate_block now block height (block_hash (header block)) (map compute_txid (txdata block)) c).2 = Ok b ->
  scripts_checked c block height b.
Proof. intros Hu Hl Hav Hids Hrun. by apply (validate_block_scripts c now block height Hu Hl Hav Hids). Qed.
End Chain.

(** ** The theorem at a concrete input *)

Section Examples.
#[local] Existing Instance Sample.hashes.
#[local] Existing Instance Sample.tx_lib.
#[local] Existing Instance Sample.sig_lib.
#[local] Existing Instance SampleScript.script_lib.
#[local] Existing Instance SampleDb.rocks.
#[local] Existing Instance SampleDb.laws.
#[local] Existing Instance SampleCodec.codec.
#[local] Existing Instance SampleCodec.wal.
#[local] Existing Instance ValidationProofs.sample_ord.
#[local] Existing Instance UtxoProofs.sample_iter.
#[local] Existing Instance UtxoProofs.sample_iter_laws.
#[local] Existing Instance BlockStore.sample_files.
#[local] Existing Instance ReorgProofs.sample_sizes.
#[local] Existing Instance ReorgProofs.sample_runtime.
#[local] Existing Instance ReorgProofs.sample_runtime_laws.

(** The node of the previous examples, trusting a block. *)
Definition trusting (av : hash256) : ConsensusParams :=
  let p := regtest in
  mkConsensusParams (network p) (magic p) (default_port p) (pow_limit p) (pow_target_timespan p) (pow_target_spacing p)
    (subsidy_halving_interval p) (bip16_time p) (bip34_height p) (bip65_height p) (csv_height p) (bip66_height p) (segwit_height p)
    (taproot_height p) (Some av) (min_chain_work p) (pow_no_retargeting p) (pow_allow_min_difficulty_blocks p)
    (coinbase_maturity p) (max_block_weight p) (max_datacarrier_size p) (datacarrier p) (permit_bare_multisig p) (reject_parasites p)
    (reject_tokens p) (bip110_activation_height p) (bip110_deployment p) (signet_challenge p).
Definition bx_state (av : hash256) (hi : HeaderIndex) (u : UtxoSet) : ChainState :=
  chain_new (trusting av) hi u (mkBlockStore 1000000 0 0 (Some []) (∅ : gmap Z bytes) false) 0 (block_hash rx_genesis).
Definition bx_validated (c : ChainState) := validate_block 1000 rx_block 1 (block_hash (header rx_block)) (map compute_txid rx_txs) c.

(** The genesis block is trusted, and this block is above it. *)
Definition bx_above : ChainState := bx_state (block_hash rx_genesis) rx_index rx_utxo.
Definition bx_batch : UtxoBatch := match (bx_validated bx_above).2 with Ok b => b | Err _ => batch_new end.

(** The input of the second transaction spends the coin of the set. *)
Lemma block_scripts_verified_witness :
  (bx_validated bx_above).2 = Ok bx_batch /\ map spent_entry (batch_spent bx_batch) = [rx_coin] /\ scripts_checked bx_above rx_block 1 bx_batch.
Proof.
  assert (Hv : (bx_validated bx_above).2 = Ok bx_batch) by (vm_compute; reflexivity).
  split; [exact Hv|]. split; [vm_compute; reflexivity|].
  apply (block_scripts_verified bx_above 1000 rx_block 1 bx_batch); [exact rx_utxo_inv|reflexivity| | |exact Hv].
  - intros (av & [= <-] & [Hh|(h & Hg & Hle)]); [vm_compute in Hh; discriminate|].
    assert (Hg' : get_header rx_index (block_hash rx_genesis) = Ok (Some (mkStored rx_genesis 0 (replicate 32 0)))) by (vm_compute; reflexivity).
    change (get_header rx_index (block_hash rx_genesis) = Ok (Some h)) in Hg. rewrite Hg' in Hg. injection Hg as <-. cbn in Hle. lia.
  - split.
    + apply NoDup_cons. split; [|apply NoDup_singleton]. intros Hin%list_elem_of_singleton. vm_compute in Hin. congruence.
    + apply Forall_cons. split; [split; [reflexivity|vm_compute; congruence]|]. apply Forall_singleton.
      split; [reflexivity|vm_compute; congruence].
Defined.

(** Only the height is compared: a block that is not an ancestor of the
    assume-valid block is accepted although the script of its input fails. *)
Definition bx_trusted : Header := mkHeader 4 (replicate 32 4) (replicate 32 0) 300 5 7.
Definition bx_index : HeaderIndex := (insert_header (block_hash bx_trusted) (mkStored bx_trusted 5 (replicate 32 0)) rx_index).1.
Definition bx_coin : UtxoEntry := mkUtxoEntry 5000 [0x00] 0 false.
Definition bx_utxo : UtxoSet :=
  from_db (<[(CF_UTXO, outpoint_key rx_outpoint) := serialize_entry bx_coin]> (∅ : gmap (string * bytes) bytes)).

Lemma other_branch_trusted :
  prev_blockhash bx_trusted <> block_hash (header rx_block) /\
  is_ok (bx_validated (bx_state (block_hash bx_trusted) bx_index bx_utxo)).2 = true /\
  is_ok (verify_script rx_spend 0 [as_prevout bx_coin] (block_flags regtest rx_block 1)) = false.
Proof. split; [vm_compute; congruence|]. vm_compute. auto. Qed.
End Examples.
