(* ===== verification/RelayPolicy.v ===== *)
(** * Relay policy

    The detectors of data-carrying transactions ([script.rs]) and the output
    rules ([mempool.rs]) that the mempool applies and block validation does
    not: inscription envelopes, dead NOTIF branches, push/drop runs, dropped
    witness arguments, token markers, data carriers, bare multisig, dust. *)

From Stdlib Require Import ZArith Lia.
From stdpp Require Import base option numbers list strings.
From S2P Require Import Prelude Bytes Types ScriptBytes Consensus Store.

Definition OP_PUSHNUM_1 : Z := 0x51.
Definition OP_IF : Z := 0x63.
Definition OP_NOTIF : Z := 0x64.
Definition OP_ENDIF : Z := 0x68.
Definition OP_2DROP : Z := 0x6d.
Definition OP_DROP : Z := 0x75.

Abbreviation items := (list (option Instruction)).

(** [slice.iter().position(f)] *)
Fixpoint position {A} (f : A -> bool) (l : list A) : option nat :=
  match l with
  | [] => None
  | x :: r => if f x then Some 0%nat else S <$> position f r
  end.

(** ** Taproot leaves *)

(** The number of witness elements without the annex. *)
Definition without_annex (witness : list bytes) : nat :=
  let n := length witness in
  if (2 <=? n)%nat && bool_decide ((witness !! (n - 1)%nat ≫= head) = Some 0x50) then (n - 1)%nat else n.

Definition taproot_leaf_script (witness : list bytes) : option bytes :=
  let n := without_annex witness in
  if (n <? 2)%nat then None
  else
    control ← witness !! (n - 1)%nat;
    if (len control <? 33) || negb ((len control - 33) mod 32 =? 0) || negb (Z.land (byte_at control 0) 0xfe =? 0xc0)
    then None
    else witness !! (n - 2)%nat.

Definition taproot_arg_count (witness : list bytes) : option nat :=
  let n := without_annex witness in
  if (n <? 2)%nat then None else Some (n - 2)%nat.

(** ** Inscription envelopes *)

Fixpoint envelope_body (l : items) (payload : bytes) : option bytes :=
  match l with
  | [] => Some payload
  | None :: _ => None
  | Some (PushBytes data) :: r => envelope_body r (payload ++ data)
  | Some (Op op) :: r => if op =? OP_ENDIF then Some payload else envelope_body r payload
  end.

Fixpoint find_envelope (prev_push_empty : bool) (l : items) : option bytes :=
  match l with
  | Some (PushBytes []) :: r => find_envelope true r
  | Some (Op op) :: r =>
      if prev_push_empty && (op =? OP_IF) then envelope_body r [] else find_envelope false r
  | Some (PushBytes _) :: r => find_envelope false r
  | None :: _ | [] => None
  end.

(** ** Dead NOTIF branches *)

Fixpoint notif_body (l : items) (payload : bytes) (full_push_count : nat) : option bytes :=
  match l with
  | Some (PushBytes data) :: r =>
      if len data =? 255 then notif_body r (payload ++ data) (S full_push_count)
      else if negb (bool_decide (data = [])) && (2 <=? full_push_count)%nat then
        match r with
        | Some (Op op) :: r =>
            if op =? OP_ENDIF then
              match r with
              | Some (Op op) :: _ => if op =? OP_PUSHNUM_1 then Some (payload ++ data) else None
              | _ => None
              end
            else None
        | _ => None
        end
      else None
  | Some (Op op) :: r =>
      if op =? OP_ENDIF then
        if (full_push_count <? 2)%nat then None
        else match r with
             | Some (Op op) :: _ => if op =? OP_PUSHNUM_1 then Some payload else None
             | _ => None
             end
      else None
  | None :: _ | [] => None
  end.

(** After an [OP_1] the next item is consumed whatever it is. *)
Fixpoint find_notif (l : items) : option bytes :=
  match l with
  | Some inst :: r =>
      if bool_decide (inst = Op OP_PUSHNUM_1) then
        match r with
        | Some (Op op) :: r => if op =? OP_NOTIF then notif_body r [] 0 else find_notif r
        | _ :: r => find_notif r
        | [] => None
        end
      else find_notif r
  | None :: _ | [] => None
  end.

(** ** Push/drop runs *)

Definition ADVENT_MIN_RUN : nat := 16.
Definition WITNESS_ARG_DROP_MIN_RUN : nat := 8.

Fixpoint advent_scan (l : items) (payload : bytes) (pending drops : nat) : option bytes :=
  match l with
  | Some (PushBytes data) :: r => advent_scan r (payload ++ data) (S pending) drops
  | Some (Op op) :: r =>
      if (op =? OP_DROP) && (0 <? pending)%nat then advent_scan r payload (pending - 1) (drops + 1)
      else if (op =? OP_2DROP) && (2 <=? pending)%nat then advent_scan r payload (pending - 2) (drops + 2)
      else if (ADVENT_MIN_RUN <=? drops)%nat then Some payload
      else advent_scan r [] 0 0
  | None :: _ | [] => if (ADVENT_MIN_RUN <=? drops)%nat then Some payload else None
  end.

Fixpoint drop_scan (l : items) (prev_was_push : bool) (run max_run : nat) : nat :=
  match l with
  | Some (Op op) :: r =>
      if (op =? OP_DROP) && negb prev_was_push then drop_scan r false (run + 1) (max_run `max` (run + 1))
      else if (op =? OP_2DROP) && negb prev_was_push then drop_scan r false (run + 2) (max_run `max` (run + 2))
      else drop_scan r false 0 max_run
  | Some (PushBytes _) :: r => drop_scan r true 0 max_run
  | None :: _ | [] => max_run
  end.

(** ** Tokens *)

(** [payload.windows(6).any(|w| w == word)] *)
Definition has_window (word payload : bytes) : bool :=
  existsb (fun i => bool_decide (take (length word) (drop i payload) = word)) (seq 0 (length payload)).

Fixpoint first_push (l : items) : option bytes :=
  match l with
  | Some (PushBytes (b :: data)) :: _ => Some (b :: data)
  | Some _ :: r => first_push r
  | None :: _ | [] => None
  end.

Section Detectors.
Context `{ScriptLib}.

Definition inscription_envelope_payload (script : bytes) : option bytes := find_envelope false (instructions script).

Definition tx_first_inscription_input (tx : Transaction) : option nat :=
  position (fun i => bool_decide (is_Some (leaf ← taproot_leaf_script (witness i); inscription_envelope_payload leaf))) (input tx).

Definition notif_envelope_payload (script : bytes) : option bytes := find_notif (instructions script).

Definition tx_first_notif_envelope_input (tx : Transaction) : option nat :=
  position (fun i => bool_decide (is_Some (s ← last (witness i); notif_envelope_payload s))) (input tx).

Definition advent_payload (script : bytes) : option bytes := advent_scan (instructions script) [] 0 0.

Definition tx_first_advent_input (tx : Transaction) : option nat :=
  position (fun i =>
    bool_decide (is_Some (leaf ← taproot_leaf_script (witness i); advent_payload leaf))
    || bool_decide (is_Some (s ← last (witness i); advent_payload s))) (input tx).

Definition bare_drop_run (script : bytes) : option nat :=
  let max_run := drop_scan (instructions script) false 0 0 in
  if (WITNESS_ARG_DROP_MIN_RUN <=? max_run)%nat then Some max_run else None.

Definition tx_first_witness_arg_drop_input (tx : Transaction) : option nat :=
  position (fun i =>
    match taproot_leaf_script (witness i) with
    | Some leaf =>
        match bare_drop_run leaf, taproot_arg_count (witness i) with
        | Some run, Some args => (run <=? args)%nat
        | _, _ => false
        end
    | None => false
    end
    || (2 <=? length (witness i))%nat
       && match last (witness i) with
          | Some leaf => match bare_drop_run leaf with Some run => (run <? length (witness i))%nat | None => false end
          | None => false
          end) (input tx).

Definition op_return_payload (script : bytes) : option bytes := first_push (instructions script).

Definition output_token (o : TxOut) : option string :=
  let spk := script_pubkey o in
  if negb (bool_decide (head spk = Some 0x6a)) then None
  else if bool_decide (spk !! 1%nat = Some 0x5d) then Some "runes"%string
  else match op_return_payload spk with
       | Some payload =>
           if bool_decide (take 4 payload = ascii_bytes "omni") then Some "omni"%string
           else if bool_decide (take 8 payload = ascii_bytes "CNTRPRTY") then Some "counterparty"%string
           else None
       | None => None
       end.

Definition input_token (i : TxIn) : option string :=
  payload ← (leaf ← taproot_leaf_script (witness i); inscription_envelope_payload leaf);
  if has_window (ascii_bytes "brc-20") payload then Some "brc-20"%string else None.

Definition tx_token_protocol (tx : Transaction) : option string :=
  match head (omap output_token (output tx)) with
  | Some p => Some p
  | None => head (omap input_token (input tx))
  end.
End Detectors.

(** ** Outputs *)

(** Script helpers of the [bitcoin] crate that policy uses. *)
Class PolicyLib := {
  script_is_multisig : bytes -> bool;
  script_is_witness_program : bytes -> bool }.

Definition DUST_RELAY_FEE_RATE : Z := 3.

Section Policy.
Context `{ScriptLib} `{PolicyLib}.

Definition dust_threshold (o : TxOut) : Z :=
  let spk := script_pubkey o in
  if script_is_op_return spk then 0
  else
    let script_len_prefix := if len spk <? 253 then 1 else if len spk <? 0x10000 then 3 else 5 in
    let spend_size := 8 + script_len_prefix + len spk in
    let spend_size :=
      if script_is_witness_program spk then spend_size + (32 + 4 + 1 + 107 / 4 + 4)
      else spend_size + (32 + 4 + 1 + 107 + 4) in
    u64 (DUST_RELAY_FEE_RATE * spend_size).

Definition check_output (params : ConsensusParams) (_ : unit) (o : TxOut) : CoreResult unit :=
  let spk := script_pubkey o in
  if script_is_op_return spk then
    _ ← guard_err (negb (datacarrier params)) (InvalidTransaction "datacarrier disabled");
    guard_err (len spk >? max_datacarrier_size params) (InvalidTransaction "OP_RETURN output size exceeds datacarriersize limit")
  else
    _ ← guard_err (negb (permit_bare_multisig params) && script_is_multisig spk)
          (InvalidTransaction "bare multisig output rejected");
    guard_err (value o <? dust_threshold o) (InvalidTransaction "dust").

Definition check_output_policy (tx : Transaction) (params : ConsensusParams) : CoreResult unit :=
  foldM (check_output params) tt (output tx).

Definition check_relay_policy (tx : Transaction) (params : ConsensusParams) : CoreResult unit :=
  let found {A} (o : option A) := bool_decide (is_Some o) in
  _ ← check_output_policy tx params;
  _ ← (if reject_parasites params then
         _ ← guard_err (found (tx_first_inscription_input tx)) (InvalidTransaction "parasite: inscription envelope");
         _ ← guard_err (found (tx_first_notif_envelope_input tx)) (InvalidTransaction "parasite: NOTIF dead-branch envelope");
         _ ← guard_err (found (tx_first_advent_input tx)) (InvalidTransaction "parasite: ADVENT push/drop envelope");
         guard_err (found (tx_first_witness_arg_drop_input tx)) (InvalidTransaction "parasite: dropped witness arguments")
       else Ok tt);
  if reject_tokens params then guard_err (found (tx_token_protocol tx)) (InvalidTransaction "token marker") else Ok tt.
End Policy.

(** ** Properties of the detectors *)

Definition pushes (l : list Instruction) : bytes :=
  concat (map (fun i => match i with PushBytes d => d | Op _ => [] end) l).

Definition ends_branch (tail : items) : Prop := tail = [] \/ exists t, tail = Some (Op OP_ENDIF) :: t.

Lemma envelope_body_spec l acc p :
  envelope_body l acc = Some p <->
  exists body tail, l = map Some body ++ tail /\ Op OP_ENDIF ∉ body /\ ends_branch tail /\ p = acc ++ pushes body.
Proof.
  split.
  - revert acc. induction l as [|[[d|op]|] l IH]; intros acc Hp; cbn [envelope_body] in Hp.
    + injection Hp as <-. exists [], []. unfold ends_branch, pushes. cbn. rewrite app_nil_r. split_and!; auto. apply not_elem_of_nil.
    + apply IH in Hp as (body & tail & -> & Hn & Ht & ->). exists (PushBytes d :: body), tail. unfold pushes. cbn.
      rewrite <- app_assoc. split_and!; [done| |done|done]. by apply not_elem_of_cons.
    + destruct (Z.eqb_spec op OP_ENDIF) as [->|Hne].
      * injection Hp as <-. exists [], (Some (Op OP_ENDIF) :: l). unfold ends_branch, pushes. cbn. rewrite app_nil_r.
        split_and!; eauto. apply not_elem_of_nil.
      * apply IH in Hp as (body & tail & -> & Hn & Ht & ->). exists (Op op :: body), tail. unfold pushes. cbn.
        split_and!; [done| |done|done]. apply not_elem_of_cons. split; [congruence|done].
    + done.
  - intros (body & tail & -> & Hn & Ht & ->). revert acc. induction body as [|[d|op] body IH]; intros acc; cbn.
    + rewrite app_nil_r. by destruct Ht as [->|[t ->]].
    + apply not_elem_of_cons in Hn as [_ Hn]. rewrite IH by done. unfold pushes. cbn. by rewrite <- app_assoc.
    + apply not_elem_of_cons in Hn as [Hne Hn]. destruct (Z.eqb_spec op OP_ENDIF); [congruence|]. by apply IH.
Qed.

(** An empty push directly followed by [OP_IF]; [b] says that an empty push
    came just before. *)
Fixpoint opens (b : bool) (l : list Instruction) : bool :=
  match l with
  | [] => false
  | x :: r => (b && bool_decide (x = Op OP_IF)) || opens (bool_decide (x = PushBytes [])) r
  end.

Lemma find_envelope_cons b x l :
  find_envelope b (Some x :: l) =
  if b && bool_decide (x = Op OP_IF) then envelope_body l [] else find_envelope (bool_decide (x = PushBytes [])) l.
Proof.
  destruct x as [[|y d]|op]; cbn [find_envelope]; rewrite ?andb_false_r; try done.
  rewrite (bool_decide_ext (Op op = Op OP_IF) (op = OP_IF)) by (split; congruence).
  by destruct (Z.eqb_spec op OP_IF); [rewrite bool_decide_eq_true_2|rewrite bool_decide_eq_false_2].
Qed.

Lemma find_envelope_open l : forall b pre,
  opens b pre = false ->
  find_envelope b (map Some pre ++ Some (PushBytes []) :: Some (Op OP_IF) :: l) = envelope_body l [].
Proof.
  intros b pre. revert b. induction pre as [|x pre IH]; intros b Ho; cbn [map app]; [done|].
  cbn [opens] in Ho. apply orb_false_iff in Ho as [Hx Ho]. rewrite find_envelope_cons, Hx. by apply IH.
Qed.

Lemma find_envelope_found p : forall l b,
  find_envelope b l = Some p ->
  (b = true /\ exists r, l = Some (Op OP_IF) :: r /\ envelope_body r [] = Some p) \/
  exists pre r, l = map Some pre ++ Some (PushBytes []) :: Some (Op OP_IF) :: r /\ opens b pre = false /\ envelope_body r [] = Some p.
Proof.
  induction l as [|[x|] l IH]; intros b Hf; [done| |done]. rewrite find_envelope_cons in Hf.
  destruct (b && bool_decide (x = Op OP_IF)) eqn:Hx.
  - apply andb_true_iff in Hx as [-> ->%bool_decide_eq_true]. left. eauto.
  - right. destruct (IH _ Hf) as [[Hb (r & -> & Hr)]|(pre & r & -> & Ho & Hr)].
    + apply bool_decide_eq_true in Hb as ->. exists [], r. done.
    + exists (x :: pre), r. cbn [opens]. by rewrite Hx, Ho.
Qed.

(** ADVENT: a run of at least 16 drops is final. *)
Lemma advent_scan_done l : forall payload pending drops,
  (ADVENT_MIN_RUN <= drops)%nat -> is_Some (advent_scan l payload pending drops).
Proof.
  induction l as [|[[d|op]|] l IH]; intros payload pending drops Hd; cbn [advent_scan];
    try (by apply IH); rewrite ?(proj2 (Nat.leb_le _ _) Hd); try (by eexists).
  destruct (_ && _); [apply IH; lia|]. destruct (_ && _); [apply IH; lia|by eexists].
Qed.

Definition is_push (i : option Instruction) : bool := match i with Some (PushBytes _) => true | _ => false end.
Definition push_count (l : items) : nat := length (List.filter is_push l).

Lemma advent_scan_pushes l : forall payload pending drops,
  is_Some (advent_scan l payload pending drops) -> (ADVENT_MIN_RUN <= pending + drops + push_count l)%nat.
Proof.
  induction l as [|[[d|op]|] l IH]; intros payload pending drops Hs; cbn [advent_scan] in Hs;
    unfold push_count in *; cbn [List.filter is_push length].
  - destruct (Nat.leb_spec ADVENT_MIN_RUN drops); [lia|by destruct Hs].
  - apply IH in Hs. lia.
  - destruct ((op =? OP_DROP) && _) eqn:H1.
    { apply IH in Hs. apply andb_true_iff in H1 as [_ H1%Nat.ltb_lt]. lia. }
    destruct ((op =? OP_2DROP) && _) eqn:H2.
    { apply IH in Hs. apply andb_true_iff in H2 as [_ H2%Nat.leb_le]. lia. }
    destruct (Nat.leb_spec ADVENT_MIN_RUN drops); [lia|]. apply IH in Hs. lia.
  - destruct (Nat.leb_spec ADVENT_MIN_RUN drops); [lia|by destruct Hs].
Qed.

Definition interleaved (ds : list bytes) : items := concat (map (fun d => [Some (PushBytes d); Some (Op OP_DROP)]) ds).
Definition batched (ds : list bytes) : items :=
  map (fun d => Some (PushBytes d)) ds ++ map (fun _ => Some (Op OP_DROP)) ds.

Lemma advent_interleaved ds l : forall payload pending drops,
  exists p', advent_scan (interleaved ds ++ l) payload pending drops = advent_scan l p' pending (drops + length ds).
Proof.
  induction ds as [|d ds IH]; intros payload pending drops; [exists payload; by rewrite Nat.add_0_r|].
  cbn [interleaved map concat app advent_scan]. cbn [Nat.sub Nat.ltb Nat.leb Z.eqb andb]. rewrite Nat.sub_0_r.
  destruct (IH (payload ++ d) pending (drops + 1)%nat) as [p' Hp]. exists p'. unfold interleaved in Hp. rewrite Hp.
  f_equal. cbn [length]. lia.
Qed.

Lemma advent_pushes ds l : forall payload pending drops,
  exists p', advent_scan (map (fun d => Some (PushBytes d)) ds ++ l) payload pending drops =
    advent_scan l p' (pending + length ds) drops.
Proof.
  induction ds as [|d ds IH]; intros payload pending drops; [exists payload; by rewrite Nat.add_0_r|].
  cbn [map app advent_scan]. destruct (IH (payload ++ d) (S pending) drops) as [p' ->]. exists p'. f_equal. cbn [length]. lia.
Qed.

Lemma advent_drops {A} (ds : list A) l : forall payload pending drops,
  (length ds <= pending)%nat ->
  advent_scan (map (fun _ => Some (Op OP_DROP)) ds ++ l) payload pending drops =
  advent_scan l payload (pending - length ds) (drops + length ds).
Proof.
  induction ds as [|d ds IH]; intros payload pending drops Hp; cbn [length] in *; [by rewrite Nat.sub_0_r, Nat.add_0_r|].
  cbn [map app advent_scan]. rewrite (proj2 (Nat.ltb_lt 0 pending)) by lia. change (OP_DROP =? OP_DROP) with true. cbn [andb].
  rewrite IH by lia. f_equal; lia.
Qed.

(** ** Theorems *)

Section Theorems.
Context `{ScriptLib}.

(** The inscription detector is exact: it reports a payload
    precisely when the decoded script has an empty push directly followed by
    [OP_IF], and the payload is the concatenation of the pushes up to the
    first [OP_ENDIF] or the end of the script. *)
Theorem inscription_envelope_exact (script p : bytes) :
  inscription_envelope_payload script = Some p <->
  exists pre body tail,
    instructions script = map Some pre ++ Some (PushBytes []) :: Some (Op OP_IF) :: map Some body ++ tail /\
    opens false pre = false /\ Op OP_ENDIF ∉ body /\ ends_branch tail /\ p = pushes body.
Proof.
  unfold inscription_envelope_payload. split.
  - intros Hf. apply find_envelope_found in Hf as [[? _]|(pre & r & -> & Ho & Hr)]; [done|].
    apply envelope_body_spec in Hr as (body & tail & -> & Hn & Ht & ->). exists pre, body, tail. done.
  - intros (pre & body & tail & -> & Ho & Hn & Ht & ->). rewrite find_envelope_open by done.
    apply envelope_body_spec. eauto 10.
Qed.

(** The push/drop detector finds both published shapes whatever
    follows them, and never fires on a script with fewer than 16 pushes. *)
Theorem advent_detector_sound (script : bytes) :
  (forall ds l, (16 <= length ds)%nat ->
     instructions script = interleaved ds ++ l \/ instructions script = batched ds ++ l -> is_Some (advent_payload script)) /\
  (is_Some (advent_payload script) -> (16 <= push_count (instructions script))%nat).
Proof.
  unfold advent_payload. split; [|apply advent_scan_pushes].
  intros ds l Hd [->| ->].
  - destruct (advent_interleaved ds l [] 0 0) as [p' ->]. by apply advent_scan_done.
  - unfold batched. rewrite <- app_assoc. destruct (advent_pushes ds (map (fun _ => Some (Op OP_DROP)) ds ++ l) [] 0 0) as [p' ->].
    rewrite advent_drops by lia. by apply advent_scan_done.
Qed.

(** A spare [OP_1] hides a dead NOTIF branch: after an [OP_1] the
    detector consumes the next instruction without looking at it as the start
    of a branch, so the branch after [OP_1 OP_1] is not examined, while the
    same branch after one [OP_1] is. *)
Theorem notif_detector_misses_doubled_one (script script' : bytes) (branch : items) :
  instructions script = Some (Op OP_PUSHNUM_1) :: Some (Op OP_NOTIF) :: branch ->
  instructions script' = Some (Op OP_PUSHNUM_1) :: Some (Op OP_PUSHNUM_1) :: Some (Op OP_NOTIF) :: branch ->
  notif_envelope_payload script = notif_body branch [] 0 /\ notif_envelope_payload script' = find_notif branch.
Proof. unfold notif_envelope_payload. by intros -> ->. Qed.
End Theorems.

(** ** The theorems at concrete inputs *)

Section Examples.
#[local] Existing Instance SampleScript.script_lib.

Definition ex_chunk : bytes := [0x4c; 0xff] ++ replicate 255 7.
Definition ex_branch : bytes := ex_chunk ++ ex_chunk ++ [0x68; 0x51].

(** The branch carries 510 bytes; behind two [OP_1] they go unseen. *)
Lemma notif_detector_misses_doubled_one_witness :
  notif_envelope_payload ([0x51; 0x64] ++ ex_branch) = Some (replicate 510 7) /\
  notif_envelope_payload ([0x51; 0x51; 0x64] ++ ex_branch) = None.
Proof.
  destruct (notif_detector_misses_doubled_one ([0x51; 0x64] ++ ex_branch) ([0x51; 0x51; 0x64] ++ ex_branch)
    (instructions ex_branch)) as [-> ->]; vm_compute; done.
Defined.

(** Sixteen chunks pushed and then dropped, followed by a signature check. *)
Lemma advent_detector_sound_witness :
  is_Some (advent_payload (concat (replicate 16 [0x01; 0x09]) ++ replicate 16 0x75 ++ [0xac])).
Proof.
  apply (advent_detector_sound (concat (replicate 16 [0x01; 0x09]) ++ replicate 16 0x75 ++ [0xac]))
    with (ds := replicate 16 [9]) (l := [Some (Op 0xac)]); [cbn; lia|]. right. vm_compute. reflexivity.
Defined.
End Examples.
