(* ===== verification/Mempool.v ===== *)
(** * The mempool: entries, graph walks, removal, selection, persistence

    The pool of [mempool.rs]: entries by txid, the index of spent outpoints,
    the walks over descendants and ancestors, removal for blocks, conflicts
    and expiry, block template selection, the on-disk format, and the fee
    estimator.  Acceptance is in [MempoolAccept]. *)

From Stdlib Require Import ZArith Lia.
From stdpp Require Import base option numbers list gmap strings.
From S2P Require Import Prelude F64 Bytes Types Validation.

Definition MAX_RBF_REPLACEMENTS : nat := 100.
Definition DEFAULT_MEMPOOL_EXPIRY : Z := 14 * 24 * 60 * 60.
Definition MAX_ANCESTORS : nat := 25.
Definition MAX_DESCENDANTS : nat := 25.
Definition DEFAULT_MAX_MEMPOOL_BYTES : Z := 64 * 1024 * 1024.
Definition MIN_RELAY_FEE_RATE : f64 := f64_of_u64 1.
Definition INCREMENTAL_RELAY_FEE_RATE : f64 := f64_of_u64 1.
Definition EVICTION_FLOOR_HALFLIFE_SECS : Z := 12 * 60 * 60.
Definition HASHMAP_ENTRY_OVERHEAD : Z := 56.

Record MempoolEntry := mkEntry {
  me_tx : Transaction;
  me_txid : hash256;
  me_fee : Z;
  me_size : Z;
  me_weight : Z;
  me_fee_rate : f64;
  me_time : Z;
  me_lock_height : Z;
  me_lock_time : Z }.

Record Mempool := mkPool {
  txs : gmap hash256 MempoolEntry;
  spent_outpoints : gmap OutPoint hash256;
  max_memory_bytes : Z;
  total_tx_bytes : Z;
  eviction_fee_floor : f64;
  eviction_floor_time : Z }.

Definition pool_new (max_memory_bytes : Z) : Mempool := mkPool ∅ ∅ max_memory_bytes 0 (f64_of_u64 0) 0.

(** [std::mem::size_of] of the key, the entry, and a slot of the index. *)
Class SizeOf := { size_of_txid : Z; size_of_entry : Z; size_of_slot : Z }.

(** The iteration order of the hash map of entries. *)
Class PoolIter := { iter_pool : gmap hash256 MempoolEntry -> list (hash256 * MempoolEntry) }.
Class PoolIterLaws `{PoolIter} := { iter_pool_perm m : iter_pool m ≡ₚ map_to_list m }.

(** Encoding and weight of a transaction in the [bitcoin] crate. *)
Class TxCodec := {
  serialize_tx : Transaction -> bytes;
  deserialize_tx : bytes -> option Transaction;
  tx_weight : Transaction -> Z }.

(** ** Entries *)

Definition final_for_block (e : MempoolEntry) (height mtp : Z) : bool :=
  is_final_tx (me_tx e) height mtp && (height >=? me_lock_height e) && (mtp >=? me_lock_time e).

Definition signals_rbf (tx : Transaction) : bool := existsb (fun i => sequence i <? 0xfffffffe) (input tx).

(** The txids whose transactions spend outputs of the entry, by output. *)
Definition children (mp : Mempool) (id : hash256) (e : MempoolEntry) : list hash256 :=
  omap (fun vout => spent_outpoints mp !! mkOutPoint id (u32 (Z.of_nat vout))) (seq 0 (length (output (me_tx e)))).

Definition children_of (mp : Mempool) (id : hash256) : list hash256 :=
  match txs mp !! id with Some e => children mp id e | None => [] end.

Definition parents_of (mp : Mempool) (id : hash256) : list hash256 :=
  match txs mp !! id with Some e => map (fun i => op_txid (previous_output i)) (input (me_tx e)) | None => [] end.

(** ** Walks

    [while let Some(id) = queue.pop()] with a visited set.  The head of the
    list is the end of the Rust vector. *)
Fixpoint walk (next : hash256 -> list hash256) (fuel : nat) (queue : list hash256) (visited : gset hash256)
    (order : list hash256) : list hash256 * gset hash256 :=
  match fuel, queue with
  | S fuel, id :: queue =>
      if bool_decide (id ∈ visited) then walk next fuel queue visited order
      else walk next fuel (reverse (next id) ++ queue) ({[id]} ∪ visited) (order ++ [id])
  | _, _ => (order, visited)
  end.

(** Pops are bounded by the initial queue and the pushes of each entry, which
    are at most [w]. *)
Definition walk_fuel (w : MempoolEntry -> nat) (mp : Mempool) (queue : list hash256) : nat :=
  (length queue + foldr (fun x n => w x.2 + n) 0 (map_to_list (txs mp)))%nat.
Definition n_outputs (e : MempoolEntry) : nat := length (output (me_tx e)).
Definition n_inputs (e : MempoolEntry) : nat := length (input (me_tx e)).

(** The given transactions and all their in-mempool descendants. *)
Definition with_descendants (mp : Mempool) (ids : list hash256) (visited : gset hash256) : list hash256 * gset hash256 :=
  walk (children_of mp) (walk_fuel n_outputs mp ids) (reverse ids) visited [].

Definition in_mempool_ancestors (mp : Mempool) (tx : Transaction) : gset hash256 :=
  let queue := map (fun i => op_txid (previous_output i)) (input tx) in
  let '(_, visited) := walk (parents_of mp) (walk_fuel n_inputs mp queue) (reverse queue) ∅ [] in
  filter (fun id => is_Some (txs mp !! id)) visited.

(** One output of [count_descendants]: a new child is counted and queued. *)
Definition count_child (acc : gset hash256 * nat * list hash256) (child : hash256) : gset hash256 * nat * list hash256 :=
  let '(visited, count, queue) := acc in
  if bool_decide (child ∈ visited) then acc else ({[child]} ∪ visited, S count, child :: queue).

Fixpoint count_loop (mp : Mempool) (fuel : nat) (visited : gset hash256) (count : nat) (queue : list hash256) : nat :=
  match fuel, queue with
  | S fuel, current :: queue =>
      let '(visited, count, queue) := foldl count_child (visited, count, queue) (children_of mp current) in
      count_loop mp fuel visited count queue
  | _, _ => count
  end.

Definition count_descendants (mp : Mempool) (txid : hash256) : nat :=
  count_loop mp (S (size (spent_outpoints mp))) {[txid]} 0 [txid].

Section Pool.
Context `{SizeOf} `{PoolIter} `{TxCodec}.

(** ** Memory *)

(** In-memory sizes stay below the address space. *)
Definition entry_cost (inputs serialized_size : Z) : Z :=
  size_of_txid + size_of_entry + HASHMAP_ENTRY_OVERHEAD + inputs * (size_of_slot + HASHMAP_ENTRY_OVERHEAD) + serialized_size.

Definition cost_of (e : MempoolEntry) : Z := entry_cost (len (input (me_tx e))) (me_size e).

Definition memory_usage (mp : Mempool) : Z :=
  Z.of_nat (size (txs mp)) * (size_of_txid + size_of_entry + HASHMAP_ENTRY_OVERHEAD)
  + Z.of_nat (size (spent_outpoints mp)) * (size_of_slot + HASHMAP_ENTRY_OVERHEAD) + total_tx_bytes mp.

Definition fee_floor (mp : Mempool) (now : Z) : f64 :=
  if f64_le (eviction_fee_floor mp) MIN_RELAY_FEE_RATE then MIN_RELAY_FEE_RATE
  else
    let elapsed := sat_sub now (eviction_floor_time mp) in
    let halvings := Z.min (elapsed / EVICTION_FLOOR_HALFLIFE_SECS) 63 in
    f64_max (f64_div (eviction_fee_floor mp) (f64_pow2 halvings)) MIN_RELAY_FEE_RATE.

Definition pool_total_fees (mp : Mempool) : Z := foldl (fun s x => u64 (s + me_fee x.2)) 0 (iter_pool (txs mp)).
End Pool.

(** ** Removal *)

Definition remove_entry (mp : Mempool) (txid : hash256) : Mempool * option MempoolEntry :=
  match txs mp !! txid with
  | None => (mp, None)
  | Some entry =>
      (mkPool (delete txid (txs mp))
         (foldl (fun s i => delete (previous_output i) s) (spent_outpoints mp) (input (me_tx entry)))
         (max_memory_bytes mp) (sat_sub (total_tx_bytes mp) (me_size entry)) (eviction_fee_floor mp)
         (eviction_floor_time mp), Some entry)
  end.

Definition remove_transaction (mp : Mempool) (txid : hash256) : Mempool := (remove_entry mp txid).1.

Fixpoint remove_loop (fuel : nat) (mp : Mempool) (queue : list hash256) (removed : nat) : Mempool * nat :=
  match fuel, queue with
  | S fuel, current :: queue =>
      match remove_entry mp current with
      | (mp, Some entry) => remove_loop fuel mp (reverse (children mp current entry) ++ queue) (S removed)
      | (mp, None) => remove_loop fuel mp queue removed
      end
  | _, _ => (mp, removed)
  end.

Definition remove_with_descendants (mp : Mempool) (txid : hash256) : Mempool * nat :=
  remove_loop (walk_fuel n_outputs mp [txid]) mp [txid] 0.

Definition remove_conflict (txid : hash256) (acc : Mempool * nat) (txin : TxIn) : Mempool * nat :=
  let '(mp, removed) := acc in
  match spent_outpoints mp !! previous_output txin with
  | Some conflicting =>
      if bool_decide (conflicting <> txid) then
        let '(mp, n) := remove_with_descendants mp conflicting in (mp, (removed + n)%nat)
      else acc
  | None => acc
  end.

Definition remove_confirmed (acc : Mempool * nat) (item : Transaction * hash256) : Mempool * nat :=
  let '(mp, removed) := acc in
  let '(tx, txid) := item in
  let '(mp, gone) := remove_entry mp txid in
  foldl (remove_conflict txid) (mp, match gone with Some _ => S removed | None => removed end) (input tx).

Definition remove_for_block (mp : Mempool) (block : Block) (txids : list hash256) : Mempool :=
  if bool_decide (txs mp = ∅) && bool_decide (spent_outpoints mp = ∅) then mp
  else (foldl remove_confirmed (mp, 0%nat) (zip (txdata block) txids)).1.

Section Views.
Context `{SizeOf} `{PoolIter} `{TxCodec}.

Definition expire_old_transactions (now : Z) (mp : Mempool) : Mempool :=
  let expired := map fst (filter (fun x => sat_sub now (me_time x.2) > DEFAULT_MEMPOOL_EXPIRY) (iter_pool (txs mp))) in
  foldl (fun mp txid => (remove_with_descendants mp txid).1) mp expired.

(** ** Block templates *)

(** [b] sorts strictly before [a]: a higher fee rate, then an earlier arrival. *)
Definition before (b a : MempoolEntry) : bool :=
  match f64_total_cmp (me_fee_rate a) (me_fee_rate b) with
  | Lt => true
  | Eq => me_time b <? me_time a
  | Gt => false
  end.

(** [sort_by] is stable. *)
Fixpoint insert_sorted (x : MempoolEntry) (l : list MempoolEntry) : list MempoolEntry :=
  match l with
  | [] => [x]
  | y :: r => if before x y then x :: y :: r else y :: insert_sorted x r
  end.
Definition sort_candidates (l : list MempoolEntry) : list MempoolEntry := foldl (fun acc x => insert_sorted x acc) [] l.

Record Template := mkTemplate { selected : list MempoolEntry; selected_ids : gset hash256; total_weight : Z }.

(** One candidate of [retain]; the flag says whether it is kept for the next
    pass. *)
Definition consider (mp : Mempool) (max_weight : Z) (max_count : nat) (acc : Template * list MempoolEntry) (e : MempoolEntry) :
    Template * list MempoolEntry :=
  let '(t, kept) := acc in
  if (max_count <=? length (selected t))%nat || (u64 (total_weight t + me_weight e) >? max_weight) then acc
  else
    let parents_ready := forallb (fun i =>
      let parent := op_txid (previous_output i) in
      negb (bool_decide (is_Some (txs mp !! parent))) || bool_decide (parent ∈ selected_ids t)) (input (me_tx e)) in
    if parents_ready
    then (mkTemplate (selected t ++ [e]) ({[me_txid e]} ∪ selected_ids t) (u64 (total_weight t + me_weight e)), kept)
    else (t, kept ++ [e]).

Fixpoint select_loop (mp : Mempool) (max_weight : Z) (max_count : nat) (fuel : nat) (t : Template)
    (candidates : list MempoolEntry) : Template :=
  match fuel with
  | O => t
  | S fuel =>
      let '(t', kept) := foldl (consider mp max_weight max_count) (t, []) candidates in
      if (length (selected t') =? length (selected t))%nat || bool_decide (kept = []) then t'
      else select_loop mp max_weight max_count fuel t' kept
  end.

Definition select_for_block (mp : Mempool) (height mtp max_weight : Z) (max_count : nat) : list MempoolEntry :=
  let candidates := sort_candidates (filter (fun e => final_for_block e height mtp = true) (map snd (iter_pool (txs mp)))) in
  selected (select_loop mp max_weight max_count (S (length candidates)) (mkTemplate [] ∅ 0) candidates).

(** ** Persistence *)

Definition save_to_bytes (mp : Mempool) : bytes :=
  let l := map (fun x => serialize_tx (me_tx x.2)) (iter_pool (txs mp)) in
  to_le 4 (u32 (len l)) ++ concat (map (fun b => to_le 4 (u32 (len b)) ++ b) l).

(** The list is [data[offset..]]. *)
Fixpoint parse_loop (count : nat) (data : bytes) : list Transaction :=
  match count with
  | O => []
  | S count =>
      if len data <? 4 then []
      else
        let tx_len := from_le (take 4 data) in
        let data := drop 4 data in
        if len data <? tx_len then []
        else
          let rest := parse_loop count (drop (Z.to_nat tx_len) data) in
          match deserialize_tx (take (Z.to_nat tx_len) data) with Some tx => tx :: rest | None => rest end
  end.

Definition parse_persisted_txs (data : bytes) : list Transaction :=
  if len data <? 4 then [] else parse_loop (Z.to_nat (from_le (take 4 data))) (drop 4 data).
End Views.
