(* ===== verification/FeeEstimator.v ===== *)
(** * The fee estimator

    The bucket-based [FeeEstimator] of [mempool.rs]: recording, the estimate
    for a target, and the histogram of the pool. *)

From Stdlib Require Import ZArith Lia.
From stdpp Require Import base option numbers list gmap.
From S2P Require Import Prelude F64 Bytes Types Mempool.

Definition FEE_BUCKETS : list f64 :=
  map f64_of_u64 [1; 2; 3; 5; 7; 10; 15; 20; 30; 50; 75; 100; 150; 200; 300; 500; 1000; 2000; 5000; 10000].

Record FeeBucket := mkBucket { fb_fee_rate : f64; confirmed_count : Z; total_count : Z }.
Record FeeEstimator := mkEstimator { buckets : list FeeBucket; blocks_processed : Z }.

Definition estimator_new : FeeEstimator := mkEstimator (map (fun fee_rate => mkBucket fee_rate 0 0) FEE_BUCKETS) 0.

(** The last boundary that is at most the rate. *)
Definition bucket_index (fee_rate : f64) : nat :=
  match list_find (fun x => f64_le x.2 fee_rate = true) (reverse (imap pair FEE_BUCKETS)) with
  | Some (_, (i, _)) => i
  | None => 0
  end.

Definition record_mempool_tx (fee_rate : f64) (est : FeeEstimator) : FeeEstimator :=
  mkEstimator (alter (fun b => mkBucket (fb_fee_rate b) (confirmed_count b) (u64 (total_count b + 1))) (bucket_index fee_rate) (buckets est))
    (blocks_processed est).

Definition confirm (l : list FeeBucket) (fee_rate : f64) : list FeeBucket :=
  alter (fun b => mkBucket (fb_fee_rate b) (u64 (confirmed_count b + 1)) (total_count b)) (bucket_index fee_rate) l.

Definition process_block (confirmed_fee_rates : list f64) (est : FeeEstimator) : FeeEstimator :=
  mkEstimator (foldl confirm (buckets est) confirmed_fee_rates) (u32 (blocks_processed est + 1)).

(** The literals 0.95, 0.85 and 0.60 are correctly rounded quotients. *)
Definition adjusted_threshold (target : Z) : f64 :=
  let pct := if target <=? 2 then 95 else if target <=? 6 then 85 else 60 in f64_div (f64_of_u64 pct) (f64_of_u64 100).

Record Walk := mkWalk { cumulative_confirmed : Z; cumulative_total : Z; best_fee : option f64 }.

Definition visit (threshold : f64) (w : Walk) (b : FeeBucket) : Walk :=
  let confirmed := u64 (cumulative_confirmed w + confirmed_count b) in
  let total := u64 (cumulative_total w + total_count b) in
  mkWalk confirmed total
    (if (total >=? 10) && f64_le threshold (f64_div (f64_of_u64 confirmed) (f64_of_u64 total))
     then Some (fb_fee_rate b) else best_fee w).

Definition estimate_fee (target : Z) (est : FeeEstimator) : option f64 :=
  if blocks_processed est <? 2 then None
  else best_fee (foldl (visit (adjusted_threshold target)) (mkWalk 0 0 None) (reverse (buckets est))).

Section Histogram.
Context `{PoolIter}.

Definition mempool_histogram (mp : Mempool) : list (f64 * Z) :=
  filter (fun x => x.2 > 0)
    (foldl (fun l e => alter (fun x => (x.1, u64 (x.2 + me_weight e / 4))) (bucket_index (me_fee_rate e)) l)
       (map (fun rate => (rate, 0)) FEE_BUCKETS) (map snd (iter_pool (txs mp)))).
End Histogram.

(** ** The estimate *)

(** Enough of the transactions at or above a bucket's rate were confirmed. *)
Definition sufficient (threshold : f64) (suffix : list FeeBucket) : bool :=
  let confirmed := u64 (foldr (fun b n => confirmed_count b + n) 0 suffix) in
  let total := u64 (foldr (fun b n => total_count b + n) 0 suffix) in
  (total >=? 10) && f64_le threshold (f64_div (f64_of_u64 confirmed) (f64_of_u64 total)).

Lemma visit_all threshold l :
  let w := foldl (visit threshold) (mkWalk 0 0 None) (reverse l) in
  cumulative_confirmed w = u64 (foldr (fun b n => confirmed_count b + n) 0 l) /\
  cumulative_total w = u64 (foldr (fun b n => total_count b + n) 0 l) /\
  forall f, best_fee w = Some f <->
    exists i b, l !! i = Some b /\ fb_fee_rate b = f /\ sufficient threshold (drop i l) = true /\
      forall j, (j < i)%nat -> sufficient threshold (drop j l) = false.
Proof.
  induction l as [|b l IH]; cbn zeta.
  { split_and!; [done|done|]. intros f. split; [done|]. by intros (i & b & Hi & _). }
  rewrite reverse_cons, foldl_snoc. destruct IH as (IHc & IHt & IHf). set (w := foldl _ _ (reverse l)) in *.
  assert (Hc : u64 (cumulative_confirmed w + confirmed_count b) = u64 (foldr (fun b n => confirmed_count b + n) 0 (b :: l))).
  { rewrite IHc. unfold wrap. cbn [foldr]. rewrite Z.add_mod_idemp_l by done. f_equal. lia. }
  assert (Ht : u64 (cumulative_total w + total_count b) = u64 (foldr (fun b n => total_count b + n) 0 (b :: l))).
  { rewrite IHt. unfold wrap. cbn [foldr]. rewrite Z.add_mod_idemp_l by done. f_equal. lia. }
  split_and!; [exact Hc|exact Ht|]. intros f. unfold visit. cbn [best_fee]. rewrite Hc, Ht.
  change (_ && _) with (sufficient threshold (b :: l)). destruct (sufficient threshold (b :: l)) eqn:Hs.
  - split.
    + intros [= <-]. exists 0%nat, b. split_and!; [done|done|done|]. lia.
    + intros (i & b' & Hi & <- & _ & Hmin). destruct i as [|i]; [by injection Hi as ->|]. specialize (Hmin 0%nat ltac:(lia)).
      cbn [drop] in Hmin. congruence.
  - rewrite IHf. split.
    + intros (i & b' & Hi & Hf & Hg & Hmin). exists (S i), b'. split_and!; [done|done|done|]. intros [|j] Hj; [done|]. apply Hmin. lia.
    + intros (i & b' & Hi & Hf & Hg & Hmin). destruct i as [|i]; [cbn [drop] in Hg; congruence|]. exists i, b'.
      split_and!; [done|done|done|]. intros j Hj. apply (Hmin (S j)). lia.
Qed.

(** The fee estimate is exact: after two blocks it is the lowest bucket rate
    such that, among the transactions seen at that rate or above, there are at
    least ten and the confirmed share reaches the target's threshold. *)
Theorem estimate_fee_exact target est f :
  estimate_fee target est = Some f <->
  2 <= blocks_processed est /\ exists i b, buckets est !! i = Some b /\ fb_fee_rate b = f /\
    sufficient (adjusted_threshold target) (drop i (buckets est)) = true /\
    forall j, (j < i)%nat -> sufficient (adjusted_threshold target) (drop j (buckets est)) = false.
Proof.
  unfold estimate_fee. destruct (blocks_processed est <? 2) eqn:Hb.
  - apply Z.ltb_lt in Hb. split; [done|]. intros [? _]. lia.
  - apply Z.ltb_ge in Hb. destruct (visit_all (adjusted_threshold target) (buckets est)) as (_ & _ & Hf). rewrite Hf. tauto.
Qed.
