(* ===== verification/MempoolAccept.v ===== *)
(** * Mempool acceptance

    [Mempool::add_transaction] with its checks in order, replacement,
    ancestor and descendant limits, script verification, the memory budget,
    and the final update of the pool; loading from disk replays it. *)

From Stdlib Require Import ZArith Lia.
From stdpp Require Import base option numbers list gmap strings.
From S2P Require Import Prelude F64 Bytes Types ScriptBytes Signatures VerifyScript Consensus Validation Store HeaderIndex Bip110 UtxoSet ChainState RelayPolicy Mempool.

Record MempoolChainContext `{RocksDb} := mkContext {
  tip_height : Z;
  tip_mtp : Z;
  cx_index : HeaderIndex;
  cx_bip110 : Bip110Activation }.

Section Accept.
Context `{Hashes} `{ScriptLib} `{PolicyLib} `{SigLib} `{TxLib} `{OutPointOrd} `{HR : RocksDb} `{HeaderCodec} `{MapIter}
  `{Runtime} `{SizeOf} `{PoolIter} `{TxCodec}.

Definition at_tip (hi : HeaderIndex) (tip_height : Z) (tip_hash : hash256) : MempoolChainContext :=
  mkContext _ tip_height (default 0 (get_median_time_past (get_header hi) tip_hash)) hi INACTIVE.

Definition with_bip110 (c : MempoolChainContext) (a : Bip110Activation) : MempoolChainContext :=
  mkContext _ (tip_height c) (tip_mtp c) (cx_index c) a.

(** The pool, and what the call borrows: the UTXO set and the signature cache. *)
Record MpEnv := mkEnv {
  pool : Mempool;
  mp_utxo : UtxoSet;
  mp_sig : option SigCache }.

Abbreviation EM := (stm MpEnv CoreError).

Definition on_coins {A} (m : stm UtxoSet StorageError A) : EM A :=
  fun s => let '(u, r) := m (mp_utxo s) in (mkEnv (pool s) u (mp_sig s), lift_storage r).
Definition set_pool (s : MpEnv) (mp : Mempool) : MpEnv := mkEnv mp (mp_utxo s) (mp_sig s).
Definition set_sig (s : MpEnv) (c : option SigCache) : MpEnv := mkEnv (pool s) (mp_utxo s) c.

(** ** Inputs *)

Record Resolved := mkResolved {
  rs_sum : Z;
  conflicts : list hash256;
  all_prevouts : list TxOut;
  rs_heights : list Z }.

Definition add_conflict (mp : Mempool) (o : OutPoint) (conflicts : list hash256) : CoreResult (list hash256) :=
  match spent_outpoints mp !! o with
  | None => Ok conflicts
  | Some existing =>
      match txs mp !! existing with
      | Some entry =>
          if signals_rbf (me_tx entry)
          then Ok (if bool_decide (existing ∈ conflicts) then conflicts else conflicts ++ [existing])
          else Err (DoubleSpend "outpoint already spent by non-RBF tx")
      | None => Err (DoubleSpend "outpoint already spent by mempool tx")
      end
  end.

(** The output of an unconfirmed parent. *)
Definition parent_output (mp : Mempool) (o : OutPoint) : option TxOut :=
  parent ← txs mp !! op_txid o; output (me_tx parent) !! Z.to_nat (op_vout o).

Definition resolve_input (mp : Mempool) (next_height : Z) (rs : Resolved) (txin : TxIn) : EM Resolved :=
  let o := previous_output txin in
  conflicts ← lift (add_conflict mp o (conflicts rs));
  stored ← on_coins (utxo_get o);
  '(amt, script, prev_height) ← lift (match stored with
    | Some u => Ok (amount u, entry_script u, entry_height u)
    | None => out ← ok_or (parent_output mp o) (MissingUtxo "outpoint"); Ok (value out, script_pubkey out, next_height)
    end);
  mret (mkResolved (u64 (rs_sum rs + amt)) conflicts (all_prevouts rs ++ [mkTxOut amt script]) (rs_heights rs ++ [prev_height])).

(** ** Relative locks *)

Definition coin_mtp (chain : MempoolChainContext) (coin_height : Z) : CoreResult Z :=
  if coin_height >? tip_height chain then Ok (tip_mtp chain)
  else
    ok_or (hash ← match get_hash_at_height (cx_index chain) (sat_sub coin_height 1) with Ok o => o | Err _ => None end;
           get_median_time_past (get_header (cx_index chain)) hash)
      (InvalidTransaction "bip68-time-reference-unavailable").

Definition check_locks (tx : Transaction) (params : ConsensusParams) (chain : MempoolChainContext) (next_height : Z)
    (heights : list Z) : CoreResult (list Z) :=
  let zeros := replicate (length (input tx)) 0 in
  if next_height >=? csv_height params then
    times ← (if needs_time_mtp tx then foldM (fun acc h => t ← coin_mtp chain h; Ok (acc ++ [t])) [] heights else Ok zeros);
    _ ← match validate_sequence_locks heights times tx next_height (tip_mtp chain) with
        | Err (InvalidTransaction _) => Err (InvalidTransaction "non-BIP68-final")
        | r => r
        end;
    Ok times
  else Ok zeros.

(** ** Limits and scripts *)

Definition check_descendants (mp : Mempool) (_ : unit) (ancestor : hash256) : CoreResult unit :=
  guard_err (MAX_DESCENDANTS <? count_descendants mp ancestor + 1)%nat (InvalidTransaction "too many descendants").

Definition verify_one (tx : Transaction) (prevouts : list TxOut) (heights : list Z) (flags : ScriptFlags)
    (a : Bip110Activation) (_ : unit) (vin : nat) : EM unit :=
  let flags := set_verify_bip110 flags (input_enforces a (default 0 (heights !! vin))) in
  let wtxid := compute_wtxid tx in
  cache ← gets mp_sig;
  if match cache with Some c => cache_contains c wtxid (Z.of_nat vin) flags | None => false end then mret tt
  else
    _ ← lift (verify_script tx vin prevouts flags);
    modify (fun s => match mp_sig s with
                     | Some c => set_sig s (Some (cache_insert sig_iter c wtxid (Z.of_nat vin) flags))
                     | None => s
                     end).

Definition verify_inputs (tx : Transaction) (prevouts : list TxOut) (heights : list Z) (flags : ScriptFlags)
    (a : Bip110Activation) : EM unit :=
  let vins := seq 0 (length (input tx)) in
  foldS (verify_one tx prevouts heights flags a) tt (if (length vins <=? 1)%nat then vins else par_order vins).

(** ** The memory budget *)

Record Trim := mkTrim {
  planned_freed : Z;
  victim_set : gset hash256;
  trimmed : list hash256;
  new_floor : f64 }.

(** [min_by]: the first of the least elements. *)
Definition cheaper (best : option MempoolEntry) (e : MempoolEntry) : option MempoolEntry :=
  match best with
  | None => Some e
  | Some b => match f64_total_cmp (me_fee_rate b) (me_fee_rate e) with Gt => Some e | _ => Some b end
  end.
Definition cheapest (l : list MempoolEntry) : option MempoolEntry := foldl cheaper None l.

Definition cost_of_ids (mp : Mempool) (ids : list hash256) : Z :=
  foldr (fun e n => cost_of e + n) 0 (omap (fun id => txs mp !! id) ids).

Fixpoint plan_trim (mp : Mempool) (fee_rate : f64) (ancestors : gset hash256) (new_entry_cost : Z) (fuel : nat) (t : Trim) :
    CoreResult Trim :=
  if memory_usage mp + new_entry_cost >? max_memory_bytes mp + planned_freed t then
    match fuel, cheapest (filter (fun e => me_txid e ∉ victim_set t) (map snd (iter_pool (txs mp)))) with
    | S fuel, Some victim =>
        _ ← guard_err (f64_le fee_rate (me_fee_rate victim)) (InvalidTransaction "mempool full: fee rate too low");
        _ ← guard_err (bool_decide (me_txid victim ∈ ancestors)) (InvalidTransaction "mempool full: would evict an ancestor");
        let '(ids, victims) := with_descendants mp [me_txid victim] (victim_set t) in
        plan_trim mp fee_rate ancestors new_entry_cost fuel
          (mkTrim (planned_freed t + cost_of_ids mp ids) victims (trimmed t ++ ids)
             (f64_max (new_floor t) (f64_add (me_fee_rate victim) INCREMENTAL_RELAY_FEE_RATE)))
    | _, _ => Err (InvalidTransaction "mempool full: tx exceeds the mempool budget")
    end
  else Ok t.

(** ** Acceptance *)

Definition check_replacement (mp : Mempool) (evict : list hash256) (fee : Z) (fee_rate : f64) : CoreResult unit :=
  match evict with
  | [] => Ok tt
  | _ =>
      let entries := omap (fun id => txs mp !! id) evict in
      let total_conflicting_fee := foldl (fun s e => u64 (s + me_fee e)) 0 entries in
      let max_rate := foldl (fun m e => f64_max m (me_fee_rate e)) (f64_of_u64 0) entries in
      _ ← guard_err (fee <=? total_conflicting_fee) (InvalidTransaction "RBF: replacement fee too low");
      guard_err (f64_le fee_rate max_rate) (InvalidTransaction "RBF: replacement fee rate too low")
  end.

(** The mutation after all checks. *)
Definition admit_entry (now : Z) (evict : list hash256) (t : Trim) (entry : MempoolEntry) (mp : Mempool) : Mempool :=
  let mp := foldl remove_transaction mp evict in
  let mp :=
    match trimmed t with
    | [] => mp
    | _ =>
        let mp := foldl remove_transaction mp (trimmed t) in
        mkPool (txs mp) (spent_outpoints mp) (max_memory_bytes mp) (total_tx_bytes mp) (new_floor t) now
    end in
  mkPool (<[me_txid entry := entry]> (txs mp))
    (foldl (fun s i => <[previous_output i := me_txid entry]> s) (spent_outpoints mp) (input (me_tx entry)))
    (max_memory_bytes mp) (total_tx_bytes mp + me_size entry) (eviction_fee_floor mp) (eviction_floor_time mp).

(** Every check on a transaction that is not in the pool yet; the result is
    the set to evict, the budget plan and the new entry. *)
Definition accept (now : Z) (tx : Transaction) (flags : ScriptFlags) (params : ConsensusParams) (chain : MempoolChainContext) :
    EM (list hash256 * Trim * MempoolEntry) :=
  mp ← gets pool;
  let txid := compute_txid tx in
  _ ← lift (guard_err (is_coinbase tx) (InvalidTransaction "coinbase transactions cannot be in mempool"));
  _ ← lift (check_transaction tx);
  _ ← lift (check_relay_policy tx params);
  let next_height := u32 (tip_height chain + 1) in
  _ ← lift (if enforcing (cx_bip110 chain) then check_bip110_output_scripts tx else Ok tt);
  _ ← lift (guard_err (negb (is_final_tx tx next_height (tip_mtp chain))) (InvalidTransaction "non-final"));
  rs ← foldS (resolve_input mp next_height) (mkResolved 0 [] [] []) (input tx);
  input_times ← lift (check_locks tx params chain next_height (rs_heights rs));
  let '(lock_height, lock_time) := sequence_lock_points (rs_heights rs) input_times tx in
  let '(evict, evict_set) := with_descendants mp (conflicts rs) ∅ in
  _ ← lift (guard_err (existsb (fun i => bool_decide (op_txid (previous_output i) ∈ evict_set)) (input tx))
              (InvalidTransaction "bad-txns-spends-conflicting-tx"));
  _ ← lift (guard_err (MAX_RBF_REPLACEMENTS <? length evict)%nat (InvalidTransaction "RBF: too many conflicts"));
  let output_sum := sum_outputs tx in
  _ ← lift (guard_err (output_sum >? rs_sum rs) (InvalidTransaction "outputs exceed inputs"));
  let fee := rs_sum rs - output_sum in
  let weight := tx_weight tx in
  let vsize := (weight + 3) / 4 in
  let size := len (serialize_tx tx) in
  let fee_rate := f64_div (f64_of_u64 fee) (f64_of_u64 vsize) in
  _ ← lift (guard_err (f64_lt fee_rate MIN_RELAY_FEE_RATE) (InvalidTransaction "min relay fee not met"));
  _ ← lift (guard_err (f64_lt fee_rate (fee_floor mp now)) (InvalidTransaction "mempool min fee not met"));
  _ ← lift (check_replacement mp evict fee fee_rate);
  let ancestors := in_mempool_ancestors mp tx in
  _ ← lift (guard_err (MAX_ANCESTORS <? base.size ancestors)%nat (InvalidTransaction "too many ancestors"));
  _ ← lift (foldM (check_descendants mp) tt (elements ancestors));
  _ ← verify_inputs tx (all_prevouts rs) (rs_heights rs) flags (cx_bip110 chain);
  t ← lift (plan_trim mp fee_rate ancestors (entry_cost (len (input tx)) size) (S (base.size (txs mp)))
              (mkTrim (cost_of_ids mp evict) evict_set [] (eviction_fee_floor mp)));
  mret (evict, t, mkEntry tx txid fee size weight fee_rate now lock_height lock_time).

Definition add_transaction (now : Z) (tx : Transaction) (flags : ScriptFlags) (params : ConsensusParams)
    (chain : MempoolChainContext) : EM hash256 :=
  let txid := compute_txid tx in
  present ← gets (fun s => bool_decide (is_Some (txs (pool s) !! txid)));
  if present : bool then mret txid
  else
    '(evict, t, entry) ← accept now tx flags params chain;
    _ ← modify (fun s => set_pool s (admit_entry now evict t entry (pool s)));
    mret txid.

(** ** Loading *)

(** One pass of [retain]: the rejected transactions stay pending. *)
Fixpoint load_pass (now : Z) (flags : ScriptFlags) (params : ConsensusParams) (chain : MempoolChainContext)
    (pending : list Transaction) (s : MpEnv) : MpEnv * nat * list Transaction :=
  match pending with
  | [] => (s, 0%nat, [])
  | tx :: r =>
      let '(s, res) := add_transaction now tx flags params chain s in
      let '(s, n, kept) := load_pass now flags params chain r s in
      if is_ok res then (s, S n, kept) else (s, n, tx :: kept)
  end.

Fixpoint load_loop (fuel : nat) (now : Z) (flags : ScriptFlags) (params : ConsensusParams) (chain : MempoolChainContext)
    (pending : list Transaction) (loaded : nat) (s : MpEnv) : MpEnv * nat :=
  match fuel with
  | O => (s, loaded)
  | S fuel =>
      let '(s, n, kept) := load_pass now flags params chain pending s in
      if (n =? 0)%nat || bool_decide (kept = []) then (s, (loaded + n)%nat)
      else load_loop fuel now flags params chain kept (loaded + n) s
  end.

Definition load_from_bytes (now : Z) (data : bytes) (flags : ScriptFlags) (params : ConsensusParams)
    (chain : MempoolChainContext) (s : MpEnv) : MpEnv * nat :=
  let pending := parse_persisted_txs data in
  let '(s', loaded) := load_loop (S (length pending)) now flags params chain pending 0 (set_sig s None) in
  (set_sig s' (mp_sig s), loaded).
End Accept.
