(* ===== verification/MempoolProofs.v ===== *)
(** * Properties of the mempool

    The walks over the transaction graph end and are closed; the pool stays
    consistent with itself and with the UTXO set through acceptance, eviction,
    expiry and confirmed blocks; the memory budget holds; block templates are
    valid. *)

From Stdlib Require Import ZArith Lia.
From stdpp Require Import base option numbers list gmap strings.
From S2P Require Import Prelude F64 Bytes Types ScriptBytes Signatures VerifyScript Consensus Validation ValidationProofs Store HeaderIndex Bip110 UtxoSet UtxoProofs ChainState RelayPolicy Mempool MempoolAccept.

(** ** Sums over a map *)

Definition map_sum {A} (f : A -> Z) (m : gmap hash256 A) : Z := map_fold (fun _ e s => f e + s) 0 m.

Lemma map_sum_insert {A} (f : A -> Z) m k e : m !! k = None -> map_sum f (<[k := e]> m) = f e + map_sum f m.
Proof. intros Hk. unfold map_sum. rewrite map_fold_insert_L; [done| |done]. intros. lia. Qed.

Lemma map_sum_delete {A} (f : A -> Z) m k e : m !! k = Some e -> map_sum f (delete k m) = map_sum f m - f e.
Proof. intros Hk. rewrite <- (insert_delete_id m k e Hk) at 2. rewrite map_sum_insert by apply lookup_delete_eq. lia. Qed.

Lemma map_sum_list {A} (w : A -> nat) (m : gmap hash256 A) :
  Z.of_nat (foldr (fun x n => (w x.2 + n)%nat) 0%nat (map_to_list m)) = map_sum (fun e => Z.of_nat (w e)) m.
Proof.
  induction m as [|k e m Hk IH] using map_ind; [by rewrite map_to_list_empty|].
  rewrite map_sum_insert by done. rewrite <- IH.
  assert (Hp : forall l l' : list (hash256 * A), l ≡ₚ l' ->
    foldr (fun x n => (w x.2 + n)%nat) 0%nat l = foldr (fun x n => (w x.2 + n)%nat) 0%nat l').
  { induction 1; cbn; lia. }
  rewrite (Hp _ _ (map_to_list_insert m k e Hk)). cbn. lia.
Qed.

Lemma map_sum_nonneg {A} (f : A -> Z) (m : gmap hash256 A) : (forall k e, m !! k = Some e -> 0 <= f e) -> 0 <= map_sum f m.
Proof.
  induction m as [|k e m Hk IH] using map_ind; intros Hf; [done|]. rewrite map_sum_insert by done.
  pose proof (Hf k e (lookup_insert_eq _ _ _)). assert (0 <= map_sum f m); [|lia].
  apply IH. intros k' e' Hk'. apply (Hf k'). rewrite lookup_insert_ne; [done|congruence].
Qed.

(** ** Walks *)

(** What remains to be pushed. *)
Definition unvisited (w : MempoolEntry -> nat) (mp : Mempool) (visited : gset hash256) : Z :=
  map_sum (fun e => Z.of_nat (w e)) (filter (fun x => x.1 ∉ visited) (txs mp)).

Section Walk.
Context (next : hash256 -> list hash256) (w : MempoolEntry -> nat) (mp : Mempool).
Hypothesis Hnext : forall id, match txs mp !! id with Some e => (length (next id) <= w e)%nat | None => next id = [] end.

Lemma unvisited_insert id visited :
  id ∉ visited -> Z.of_nat (length (next id)) + unvisited w mp ({[id]} ∪ visited) <= unvisited w mp visited.
Proof.
  intros Hn. unfold unvisited. specialize (Hnext id). set (m := filter (fun x => x.1 ∉ visited) (txs mp)).
  assert (Hf : filter (fun x => x.1 ∉ {[id]} ∪ visited) (txs mp) = delete id m).
  { apply map_eq. intros k. apply option_eq. intros e. unfold m.
    rewrite lookup_delete_Some, !map_lookup_filter_Some. cbn. set_solver. }
  rewrite Hf. destruct (txs mp !! id) as [e|] eqn:He.
  - assert (Hm : m !! id = Some e) by (by apply map_lookup_filter_Some). rewrite (map_sum_delete _ _ _ _ Hm). lia.
  - rewrite Hnext. rewrite delete_id; [cbn; lia|]. apply map_lookup_filter_None. by left.
Qed.

(** The walk visits the queue and is closed under [next]; each transaction
    comes once. *)
Lemma walk_spec fuel : forall queue visited order,
  Z.of_nat (length queue) + unvisited w mp visited <= Z.of_nat fuel ->
  NoDup order -> (forall id, id ∈ order -> id ∈ visited) ->
  (forall id, id ∈ order -> forall x, x ∈ next id -> x ∈ visited \/ x ∈ queue) ->
  let '(order', visited') := walk next fuel queue visited order in
  NoDup order' /\ (forall id, id ∈ visited' <-> id ∈ visited \/ id ∈ order') /\
  (forall id, id ∈ queue -> id ∈ visited') /\ (forall id, id ∈ order -> id ∈ order') /\
  (forall id, id ∈ order' -> id ∈ order \/ id ∉ visited) /\
  (forall id, id ∈ order' -> forall x, x ∈ next id -> x ∈ visited').
Proof.
  induction fuel as [|fuel IH]; intros queue visited order Hf Hnd Hsub Hcl.
  { assert (Hu : 0 <= unvisited w mp visited) by (apply map_sum_nonneg; lia).
    destruct queue; [|cbn in Hf; lia]. cbn. split_and!; [done|set_solver|set_solver|done|set_solver|].
    intros id Hid x Hx. destruct (Hcl id Hid x Hx); [done|set_solver]. }
  destruct queue as [|id queue]; cbn [walk].
  { split_and!; [done|set_solver|set_solver|done|set_solver|].
    intros id Hid x Hx. destruct (Hcl id Hid x Hx); [done|set_solver]. }
  case_bool_decide as Hin.
  - specialize (IH queue visited order). destruct (walk next fuel queue visited order) as [order' visited'].
    destruct IH as (H1 & H2 & H3 & H4 & H5 & H6); [cbn in Hf; lia|done|done| |].
    { intros y Hy x Hx. destruct (Hcl y Hy x Hx) as [?|[->|?]%elem_of_cons]; auto. }
    split_and!; try done. intros x [->|Hx]%elem_of_cons; [|by apply H3]. apply H2. by left.
  - pose proof (unvisited_insert id visited Hin) as Hu.
    specialize (IH (reverse (next id) ++ queue) ({[id]} ∪ visited) (order ++ [id])).
    destruct (walk next fuel _ _ _) as [order' visited'].
    destruct IH as (H1 & H2 & H3 & H4 & H5 & H6).
    + rewrite length_app, length_reverse. cbn [length] in Hf. lia.
    + apply NoDup_app. split_and!; [done| |apply NoDup_singleton].
      intros x Hx ->%list_elem_of_singleton. by apply Hin, Hsub.
    + intros x [Hx| ->%list_elem_of_singleton]%elem_of_app; [|set_solver]. specialize (Hsub x Hx). set_solver.
    + intros y [Hy| ->%list_elem_of_singleton]%elem_of_app x Hx.
      * destruct (Hcl y Hy x Hx) as [?|[->|?]%elem_of_cons]; [left; set_solver|left; set_solver|right].
        apply elem_of_app. by right.
      * right. apply elem_of_app. left. by rewrite elem_of_reverse.
    + assert (Hid : id ∈ order') by (apply H4; set_solver). split_and!; [done| | | | |done].
      * intros x. rewrite H2. split; [|set_solver]. intros [Hx|Hx]; [|by right]. apply elem_of_union in Hx as [->%elem_of_singleton|Hx]; auto.
      * intros x [->|Hx]%elem_of_cons; [apply H2; by right|]. apply H3. apply elem_of_app. by right.
      * intros x Hx. apply H4. set_solver.
      * intros x Hx. destruct (H5 x Hx) as [[Hx'| ->%list_elem_of_singleton]%elem_of_app|Hx']; [by left|by right|right; set_solver].
Qed.

(** A property kept by [next] holds of everything visited. *)
Lemma walk_forall (P : hash256 -> Prop) fuel : forall queue visited order,
  (forall id, P id -> Forall P (next id)) -> Forall P queue -> Forall P order ->
  Forall P (walk next fuel queue visited order).1.
Proof.
  induction fuel as [|fuel IH]; intros queue visited order HP Hq Ho; [done|].
  destruct queue as [|id queue]; cbn [walk]; [done|]. apply Forall_cons in Hq as [Hid Hq].
  case_bool_decide; [by apply IH|]. apply IH; [exact HP| |].
  - apply Forall_app. split; [|done]. rewrite Forall_forall in *. intros x. rewrite elem_of_reverse.
    specialize (HP id Hid). rewrite Forall_forall in HP. apply HP.
  - apply Forall_app. split; [done|by constructor].
Qed.
End Walk.

(** ** Consistency of the pool *)

Abbreviation spends e := (map previous_output (input (me_tx e))).

Section Pool.
Context `{TxLib}.

Record pool_ok (mp : Mempool) : Prop := {
  po_key t e : txs mp !! t = Some e -> me_txid e = t /\ compute_txid (me_tx e) = t;
  po_index o t : spent_outpoints mp !! o = Some t <-> exists e, txs mp !! t = Some e /\ o ∈ spends e;
  po_inputs t e : txs mp !! t = Some e -> NoDup (spends e) /\ Forall outpoint_ok (spends e) /\ 0 <= me_size e;
  po_bytes : total_tx_bytes mp = map_sum me_size (txs mp);
  po_slots : Z.of_nat (size (spent_outpoints mp)) = map_sum (fun e => len (input (me_tx e))) (txs mp) }.

Lemma pool_new_ok max : pool_ok (pool_new max).
Proof.
  constructor; cbn; [by intros t e; rewrite lookup_empty| |by intros t e; rewrite lookup_empty|done|done].
  intros o t. rewrite lookup_empty. split; [done|]. intros (e & He & _). by rewrite lookup_empty in He.
Qed.

(** No outpoint has two spenders. *)
Lemma pool_ok_unique mp t e t' e' o :
  pool_ok mp -> txs mp !! t = Some e -> txs mp !! t' = Some e' -> o ∈ spends e -> o ∈ spends e' -> t = t'.
Proof.
  intros Hok He He' Ho Ho'. assert (spent_outpoints mp !! o = Some t) by (apply (po_index _ Hok); eauto).
  assert (spent_outpoints mp !! o = Some t') by (apply (po_index _ Hok); eauto). congruence.
Qed.

Lemma delete_all_lookup {A B} `{Countable A} (l : list A) : forall (m : gmap A B) k,
  foldl (fun m x => delete x m) m l !! k = if bool_decide (k ∈ l) then None else m !! k.
Proof.
  induction l as [|x l IH]; intros m k; cbn [foldl]; [by rewrite bool_decide_eq_false_2 by apply not_elem_of_nil|].
  rewrite IH. destruct (decide (k = x)) as [->|Hne].
  - rewrite (bool_decide_eq_true_2 (x ∈ x :: l)) by by left. case_bool_decide; [done|apply lookup_delete_eq].
  - rewrite lookup_delete_ne by congruence.
    rewrite (bool_decide_ext (k ∈ x :: l) (k ∈ l)) by (rewrite elem_of_cons; tauto). done.
Qed.

Lemma delete_all_size {A B} `{Countable A} (l : list A) : forall (m : gmap A B),
  NoDup l -> (forall x, x ∈ l -> is_Some (m !! x)) ->
  Z.of_nat (size (foldl (fun m x => delete x m) m l)) = Z.of_nat (size m) - len l.
Proof.
  induction l as [|x l IH]; intros m Hnd Hin; cbn [foldl]; [unfold len; cbn; lia|]. apply NoDup_cons in Hnd as [Hn Hnd].
  rewrite IH; [|done|].
  - destruct (Hin x ltac:(by left)) as [v Hv]. rewrite <- (insert_delete_id m x v Hv) at 2.
    rewrite map_size_insert_None by apply lookup_delete_eq. rewrite len_cons. lia.
  - intros y Hy. rewrite lookup_delete_ne by congruence. apply Hin. by right.
Qed.

Lemma removed_slots (l : list TxIn) (m : gmap OutPoint hash256) :
  foldl (fun s i => delete (previous_output i) s) m l = foldl (fun s o => delete o s) m (map previous_output l).
Proof. revert m. induction l as [|i l IH]; intros m; cbn; [done|apply IH]. Qed.

(** Removing one entry. *)
Lemma remove_entry_spec mp t e :
  pool_ok mp -> txs mp !! t = Some e ->
  let mp' := remove_transaction mp t in
  pool_ok mp' /\ txs mp' = delete t (txs mp) /\ max_memory_bytes mp' = max_memory_bytes mp /\
  (forall o, spent_outpoints mp' !! o = if bool_decide (o ∈ spends e) then None else spent_outpoints mp !! o).
Proof.
  intros Hok He. unfold remove_transaction, remove_entry. rewrite He. cbn [fst]. rewrite removed_slots.
  destruct (po_inputs _ Hok t e He) as (Hnd & Hv & Hsz).
  set (mp' := mkPool _ _ _ _ _ _).
  assert (Hsp : forall o, spent_outpoints mp' !! o = if bool_decide (o ∈ spends e) then None else spent_outpoints mp !! o)
    by (intros o; apply delete_all_lookup).
  assert (Htx : txs mp' = delete t (txs mp)) by done.
  split_and!; [|done|done|done]. constructor; rewrite ?Htx.
  - intros t' e' [_ He']%lookup_delete_Some. by apply (po_key _ Hok).
  - intros o t'. rewrite Hsp. case_bool_decide as Ho.
    + split; [done|]. intros (e' & [Hne He']%lookup_delete_Some & Ho'). by destruct (Hne (pool_ok_unique mp t e t' e' o Hok He He' Ho Ho')).
    + rewrite (po_index _ Hok). split; intros (e' & He' & Ho').
      * exists e'. split; [|done]. apply lookup_delete_Some. split; [|done]. intros <-. congruence.
      * exists e'. by apply lookup_delete_Some in He' as [_ He'].
  - intros t' e' [_ He']%lookup_delete_Some. by apply (po_inputs _ Hok t').
  - cbn. rewrite (map_sum_delete _ _ _ _ He), (po_bytes _ Hok). unfold sat_sub.
    assert (me_size e <= map_sum me_size (txs mp)); [|lia].
    rewrite <- (insert_delete_id _ _ _ He), map_sum_insert by apply lookup_delete_eq.
    assert (0 <= map_sum me_size (delete t (txs mp))); [|lia]. apply map_sum_nonneg. intros t' e' [_ He']%lookup_delete_Some.
    by destruct (po_inputs _ Hok t' e' He') as (_ & _ & ?).
  - cbn. rewrite (map_sum_delete _ _ _ _ He), <- (po_slots _ Hok), delete_all_size; [unfold len; by rewrite length_map|done|].
    intros o Ho. exists t. apply (po_index _ Hok). eauto.
Qed.

Lemma remove_absent mp t : txs mp !! t = None -> remove_transaction mp t = mp.
Proof. intros Ht. unfold remove_transaction, remove_entry. by rewrite Ht. Qed.

(** ** Every input has its coin *)

(** [U o]: the coin is in the UTXO set. *)
Definition parents_ok (U : OutPoint -> Prop) (mp : Mempool) : Prop :=
  forall t e o, txs mp !! t = Some e -> o ∈ spends e -> U o \/ is_Some (parent_output mp o).

Lemma parent_output_Some mp o :
  is_Some (parent_output mp o) <->
  exists p, txs mp !! op_txid o = Some p /\ (Z.to_nat (op_vout o) < length (output (me_tx p)))%nat.
Proof.
  unfold parent_output. destruct (txs mp !! op_txid o) as [p|]; cbn.
  - rewrite lookup_lt_is_Some. split; [eauto|]. by intros (? & [= <-] & ?).
  - split; [by intros [? ?]|]. by intros (? & ? & _).
Qed.

(** A spender of an output is among the children of its owner. *)
Lemma spender_is_child mp t e o p :
  pool_ok mp -> txs mp !! t = Some e -> o ∈ spends e -> (Z.to_nat (op_vout o) < length (output (me_tx p)))%nat ->
  t ∈ children mp (op_txid o) p.
Proof.
  intros Hok He Ho Hv. destruct (po_inputs _ Hok t e He) as (_ & Hf & _). rewrite Forall_forall in Hf.
  unfold children. apply list_elem_of_omap. exists (Z.to_nat (op_vout o)). split; [apply elem_of_seq; lia|].
  destruct (Hf o Ho) as (_ & _ & Hfo). rewrite Z2Nat.id by apply Hfo. rewrite wrap_small by done.
  apply (po_index _ Hok). exists e. split; [done|]. by destruct o.
Qed.

Lemma child_spends mp x y p :
  pool_ok mp -> txs mp !! x = Some p -> y ∈ children mp x p -> exists e, txs mp !! y = Some e /\ x ∈ map op_txid (spends e).
Proof.
  intros Hok Hp (vout & _ & Hs)%list_elem_of_omap. apply (po_index _ Hok) in Hs as (e & He & Ho).
  exists e. split; [done|]. apply list_elem_of_fmap. exists (mkOutPoint x (u32 (Z.of_nat vout))). done.
Qed.

Lemma children_bound mp id e : (length (children mp id e) <= n_outputs e)%nat.
Proof.
  unfold children, n_outputs. rewrite <- (length_seq (length (output (me_tx e))) 0) at 2.
  generalize (seq 0 (length (output (me_tx e)))) as l.
  induction l as [|x l IH]; cbn; [done|]. destruct (spent_outpoints mp !! _); cbn; lia.
Qed.

Lemma children_of_bound mp id :
  match txs mp !! id with Some e => (length (children_of mp id) <= n_outputs e)%nat | None => children_of mp id = [] end.
Proof. unfold children_of. destruct (txs mp !! id); [apply children_bound|done]. Qed.

Lemma parents_of_bound mp id :
  match txs mp !! id with Some e => (length (parents_of mp id) <= n_inputs e)%nat | None => parents_of mp id = [] end.
Proof. unfold parents_of, n_inputs. destruct (txs mp !! id); [|done]. by rewrite length_map. Qed.

(** *** Removing a closed set *)

Definition remove_all (mp : Mempool) (ids : list hash256) : Mempool := foldl remove_transaction mp ids.

Lemma remove_all_spec ids : forall mp,
  pool_ok mp ->
  let mp' := remove_all mp ids in
  pool_ok mp' /\ max_memory_bytes mp' = max_memory_bytes mp /\
  (forall t, txs mp' !! t = if bool_decide (t ∈ ids) then None else txs mp !! t) /\
  (forall o t, spent_outpoints mp' !! o = Some t <-> spent_outpoints mp !! o = Some t /\ t ∉ ids).
Proof.
  induction ids as [|id ids IH]; intros mp Hok mp'.
  { split_and!; [done|done|intros t; by rewrite bool_decide_eq_false_2 by apply not_elem_of_nil|].
    intros o t. split; [|tauto]. split; [done|apply not_elem_of_nil]. }
  assert (Hstep : pool_ok (remove_transaction mp id) /\ txs (remove_transaction mp id) = delete id (txs mp) /\
    max_memory_bytes (remove_transaction mp id) = max_memory_bytes mp).
  { destruct (txs mp !! id) as [e|] eqn:He.
    - destruct (remove_entry_spec mp id e Hok He) as (? & ? & ? & _). done.
    - rewrite remove_absent by done. by rewrite delete_id. }
  destruct Hstep as (Hok1 & Htx1 & Hmax1). destruct (IH _ Hok1) as (Hok' & Hmax' & Htx' & Hsp').
  assert (Htx : forall t, txs mp' !! t = if bool_decide (t ∈ id :: ids) then None else txs mp !! t).
  { intros t. unfold mp', remove_all. cbn [foldl]. rewrite Htx', Htx1. destruct (decide (t = id)) as [->|Hne].
    - rewrite lookup_delete_eq, (bool_decide_eq_true_2 (id ∈ id :: ids)) by by left. by case_bool_decide.
    - rewrite lookup_delete_ne by congruence. by rewrite (bool_decide_ext (t ∈ id :: ids) (t ∈ ids)) by (rewrite elem_of_cons; tauto). }
  split_and!; [done|by etransitivity|done|].
  intros o t. rewrite (po_index mp' Hok'), (po_index _ Hok). split.
  - intros (e & He & Ho). rewrite Htx in He. case_bool_decide; [done|]. eauto.
  - intros [(e & He & Ho) Hn]. exists e. split; [|done]. rewrite Htx. by rewrite bool_decide_eq_false_2.
Qed.

Lemma remove_closed_parents U mp ids :
  pool_ok mp -> parents_ok U mp -> (forall id, id ∈ ids -> forall x, x ∈ children_of mp id -> x ∈ ids) ->
  parents_ok U (remove_all mp ids).
Proof.
  intros Hok Hp Hcl t e o He Ho. destruct (remove_all_spec ids mp Hok) as (_ & _ & Htx & _).
  rewrite Htx in He. case_bool_decide as Ht; [done|]. destruct (Hp t e o He Ho) as [?|Hpar]; [by left|right].
  apply parent_output_Some in Hpar as (p & Hpp & Hv). apply parent_output_Some. exists p. split; [|done].
  rewrite Htx, bool_decide_eq_false_2; [done|]. intros Hin. apply Ht, (Hcl _ Hin). unfold children_of. rewrite Hpp.
  by apply (spender_is_child mp t e).
Qed.

(** *** Removing with descendants *)

Lemma remove_entry_pair mp t :
  remove_entry mp t = (remove_transaction mp t, txs mp !! t).
Proof. unfold remove_transaction, remove_entry. by destruct (txs mp !! t). Qed.

(** Every input has its coin, except in transactions still queued. *)
Definition parents_but (U : OutPoint -> Prop) (mp : Mempool) (queue : list hash256) : Prop :=
  forall t e o, txs mp !! t = Some e -> o ∈ spends e -> U o \/ is_Some (parent_output mp o) \/ t ∈ queue.

Lemma remove_loop_spec U fuel : forall mp queue n,
  pool_ok mp -> parents_but U mp queue ->
  Z.of_nat (length queue) + map_sum (fun e => Z.of_nat (n_outputs e)) (txs mp) <= Z.of_nat fuel ->
  let mp' := (remove_loop fuel mp queue n).1 in
  pool_ok mp' /\ parents_ok U mp' /\ max_memory_bytes mp' = max_memory_bytes mp /\
  (forall t e, txs mp' !! t = Some e -> txs mp !! t = Some e) /\ (forall t, t ∈ queue -> txs mp' !! t = None).
Proof.
  induction fuel as [|fuel IH]; intros mp queue n Hok Hp Hf.
  { assert (0 <= map_sum (fun e => Z.of_nat (n_outputs e)) (txs mp)) by (apply map_sum_nonneg; lia).
    destruct queue; [|cbn in Hf; lia]. cbn. split_and!; [done| |done|done|by intros t ?%not_elem_of_nil].
    intros t e o He Ho. destruct (Hp t e o He Ho) as [?|[?|Hx]]; [by left|by right|by apply not_elem_of_nil in Hx]. }
  destruct queue as [|x queue]; cbn [remove_loop].
  { split_and!; [done| |done|done|by intros t ?%not_elem_of_nil].
    intros t e o He Ho. destruct (Hp t e o He Ho) as [?|[?|Hx]]; [by left|by right|by apply not_elem_of_nil in Hx]. }
  cbn [length] in Hf. rewrite remove_entry_pair. destruct (txs mp !! x) as [ex|] eqn:Hx.
  - destruct (remove_entry_spec mp x ex Hok Hx) as (Hok1 & Htx1 & Hmax1 & Hsp1).
    assert (Hbut : parents_but U (remove_transaction mp x) (reverse (children (remove_transaction mp x) x ex) ++ queue)).
    { intros t e o He Ho. rewrite Htx1 in He. apply lookup_delete_Some in He as [Hne He].
      destruct (Hp t e o He Ho) as [?|[Hpar|Hq]]; [by left| |].
      - apply parent_output_Some in Hpar as (p & Hpp & Hv). destruct (decide (op_txid o = x)) as [Heq|Hneq].
        + right. right. apply elem_of_app. left. rewrite elem_of_reverse. rewrite <- Heq in *. rewrite Hx in Hpp. injection Hpp as <-.
          apply (spender_is_child _ t e); [done| |done|done]. rewrite Htx1. by rewrite lookup_delete_ne.
        + right. left. apply parent_output_Some. exists p. rewrite Htx1, lookup_delete_ne by congruence. done.
      - right. right. apply elem_of_app. right. apply elem_of_cons in Hq as [->|]; [congruence|done]. }
    destruct (IH _ _ (S n) Hok1 Hbut) as (H1 & H2 & H3 & H4 & H5).
    + rewrite length_app, length_reverse, Htx1, (map_sum_delete _ _ _ _ Hx).
      pose proof (children_bound (remove_transaction mp x) x ex). lia.
    + split_and!; [done|done|by etransitivity| |].
      * intros t e Ht. apply H4 in Ht. rewrite Htx1 in Ht. by apply lookup_delete_Some in Ht as [_ ?].
      * intros t [->|Ht]%elem_of_cons; [|apply H5, elem_of_app; by right].
        apply eq_None_not_Some. intros [e He]. apply H4 in He. rewrite Htx1, lookup_delete_eq in He. done.
  - rewrite remove_absent by done. destruct (IH mp queue n Hok) as (H1 & H2 & H3 & H4 & H5); [|lia|].
    + intros t e o He Ho. destruct (Hp t e o He Ho) as [?|[?|[->|?]%elem_of_cons]]; [by left|by auto|congruence|by auto].
    + split_and!; [done|done|done|done|]. intros t [->|Ht]%elem_of_cons; [|by apply H5].
      apply eq_None_not_Some. intros [e He]. apply H4 in He. congruence.
Qed.

Lemma remove_with_descendants_spec U mp x :
  pool_ok mp -> parents_but U mp [x] ->
  let mp' := (remove_with_descendants mp x).1 in
  pool_ok mp' /\ parents_ok U mp' /\ max_memory_bytes mp' = max_memory_bytes mp /\
  (forall t e, txs mp' !! t = Some e -> txs mp !! t = Some e) /\ txs mp' !! x = None.
Proof.
  intros Hok Hp. unfold remove_with_descendants, walk_fuel.
  destruct (remove_loop_spec U (length [x] + foldr (fun x n => n_outputs x.2 + n) 0 (map_to_list (txs mp)))%nat mp [x] 0 Hok Hp)
    as (H1 & H2 & H3 & H4 & H5).
  - rewrite Nat2Z.inj_add, map_sum_list. lia.
  - split_and!; [done..|apply H5; by left].
Qed.

Lemma parents_ok_but U mp queue : parents_ok U mp -> parents_but U mp queue.
Proof. intros Hp t e o He Ho. destruct (Hp t e o He Ho); auto. Qed.

(** *** Confirmed blocks *)

Definition no_spender (mp : Mempool) (o : OutPoint) : Prop := forall t e, txs mp !! t = Some e -> o ∉ spends e.

Definition sub_pool (mp' mp : Mempool) : Prop := forall t e, txs mp' !! t = Some e -> txs mp !! t = Some e.

(** The outpoint is an output of one of the transactions. *)
Definition created_by (l : list Transaction) (o : OutPoint) : Prop :=
  exists tx, tx ∈ l /\ op_txid o = compute_txid tx /\ (Z.to_nat (op_vout o) < length (output tx))%nat.

Lemma parents_ok_weaken (U V : OutPoint -> Prop) mp : (forall o, U o -> V o) -> parents_ok U mp -> parents_ok V mp.
Proof. intros HUV Hp t e o He Ho. destruct (Hp t e o He Ho); auto. Qed.

Lemma remove_conflict_spec V txid mp n txin :
  pool_ok mp -> parents_ok V mp -> txs mp !! txid = None ->
  let mp' := (remove_conflict txid (mp, n) txin).1 in
  pool_ok mp' /\ parents_ok V mp' /\ sub_pool mp' mp /\ max_memory_bytes mp' = max_memory_bytes mp /\
  no_spender mp' (previous_output txin).
Proof.
  intros Hok Hp Hn. unfold remove_conflict. destruct (spent_outpoints mp !! previous_output txin) as [t|] eqn:Hs.
  - apply (po_index _ Hok) in Hs as (e & He & Ho). rewrite bool_decide_eq_true_2 by congruence.
    destruct (remove_with_descendants mp t) as [mp' k] eqn:Hr. cbn [fst].
    pose proof (remove_with_descendants_spec V mp t Hok (parents_ok_but V mp [t] Hp)) as Hspec. rewrite Hr in Hspec.
    destruct Hspec as (H1 & H2 & H3 & H4 & H5). split_and!; [done..|].
    intros t' e' He' Ho'. pose proof (pool_ok_unique mp t' e' t e _ Hok (H4 _ _ He') He Ho' Ho). subst t'. cbn in H5. congruence.
  - cbn. split_and!; [done|done|by intros ?|done|]. intros t e He Ho.
    assert (spent_outpoints mp !! previous_output txin = Some t) by (apply (po_index _ Hok); eauto). congruence.
Qed.

Lemma remove_conflicts_spec V txid l : forall mp n,
  pool_ok mp -> parents_ok V mp -> txs mp !! txid = None ->
  let mp' := (foldl (remove_conflict txid) (mp, n) l).1 in
  pool_ok mp' /\ parents_ok V mp' /\ sub_pool mp' mp /\ max_memory_bytes mp' = max_memory_bytes mp /\
  forall i, i ∈ l -> no_spender mp' (previous_output i).
Proof.
  induction l as [|i l IH]; intros mp n Hok Hp Hn; cbn [foldl].
  { split_and!; [done|done|by intros ?|done|]. by intros i ?%not_elem_of_nil. }
  pose proof (remove_conflict_spec V txid mp n i Hok Hp Hn) as H1. destruct (remove_conflict txid (mp, n) i) as [mp1 n1].
  destruct H1 as (Hok1 & Hp1 & Hsub1 & Hmax1 & Hns1). cbn [fst] in *.
  assert (Hn1 : txs mp1 !! txid = None) by (apply eq_None_not_Some; intros [e He]; apply Hsub1 in He; congruence).
  destruct (IH mp1 n1 Hok1 Hp1 Hn1) as (H1 & H2 & H3 & H4 & H5). split_and!; [done|done| |by etransitivity|].
  - intros t e He. by apply Hsub1, H3.
  - intros j [->|Hj]%elem_of_cons; [|by apply H5]. intros t e He. by apply (Hns1 t), H3.
Qed.

Lemma remove_one_parents V mp tx :
  pool_ok mp -> parents_ok V mp -> (forall e, txs mp !! compute_txid tx = Some e -> output (me_tx e) = output tx) ->
  let mp' := remove_transaction mp (compute_txid tx) in
  pool_ok mp' /\ parents_ok (fun o => V o \/ created_by [tx] o) mp' /\ sub_pool mp' mp /\
  max_memory_bytes mp' = max_memory_bytes mp /\ txs mp' !! compute_txid tx = None.
Proof.
  intros Hok Hp Hout. destruct (txs mp !! compute_txid tx) as [e|] eqn:He.
  - destruct (remove_entry_spec mp _ e Hok He) as (H1 & H2 & H3 & _). split_and!; [done| | |done|].
    + intros t e' o. rewrite H2. intros [Hne He']%lookup_delete_Some Ho. destruct (Hp t e' o He' Ho) as [?|Hpar]; [by left; left|].
      apply parent_output_Some in Hpar as (p & Hpp & Hv). destruct (decide (op_txid o = compute_txid tx)) as [Heq|Hneq].
      * left. right. exists tx. rewrite Heq in Hpp. split_and!; [by left|done|]. rewrite <- (Hout p); congruence.
      * right. apply parent_output_Some. exists p. rewrite H2, lookup_delete_ne by congruence. done.
    + intros t e'. rewrite H2. by intros [_ ?]%lookup_delete_Some.
    + rewrite H2. apply lookup_delete_eq.
  - rewrite remove_absent by done. split_and!; [done| |by intros ?|done|done].
    eapply parents_ok_weaken; [|exact Hp]. auto.
Qed.

Lemma remove_confirmed_spec V mp n tx :
  pool_ok mp -> parents_ok V mp -> (forall e, txs mp !! compute_txid tx = Some e -> output (me_tx e) = output tx) ->
  let mp' := (remove_confirmed (mp, n) (tx, compute_txid tx)).1 in
  pool_ok mp' /\ parents_ok (fun o => V o \/ created_by [tx] o) mp' /\ sub_pool mp' mp /\
  max_memory_bytes mp' = max_memory_bytes mp /\ forall i, i ∈ input tx -> no_spender mp' (previous_output i).
Proof.
  intros Hok Hp Hout. unfold remove_confirmed. rewrite remove_entry_pair.
  destruct (remove_one_parents V mp tx Hok Hp Hout) as (H1 & H2 & H3 & H4 & H5).
  destruct (remove_conflicts_spec _ (compute_txid tx) (input tx) _
    (match txs mp !! compute_txid tx with Some _ => S n | None => n end) H1 H2 H5) as (G1 & G2 & G3 & G4 & G5).
  split_and!; [done|done| |by etransitivity|done]. intros t e He. by apply H3, G3.
Qed.

Lemma remove_confirmed_all l : forall V mp n,
  pool_ok mp -> parents_ok V mp ->
  (forall tx e, tx ∈ l -> txs mp !! compute_txid tx = Some e -> output (me_tx e) = output tx) ->
  let mp' := (foldl remove_confirmed (mp, n) (zip l (map compute_txid l))).1 in
  pool_ok mp' /\ parents_ok (fun o => V o \/ created_by l o) mp' /\ sub_pool mp' mp /\
  max_memory_bytes mp' = max_memory_bytes mp /\
  forall tx i, tx ∈ l -> i ∈ input tx -> no_spender mp' (previous_output i).
Proof.
  induction l as [|tx l IH]; intros V mp n Hok Hp Hout; cbn [zip zip_with map foldl].
  { cbn. split_and!; [done| |by intros ?|done|by intros tx i ?%not_elem_of_nil]. eapply parents_ok_weaken; [|exact Hp]. auto. }
  pose proof (remove_confirmed_spec V mp n tx Hok Hp (fun e => Hout tx e ltac:(by left))) as H1.
  destruct (remove_confirmed (mp, n) (tx, compute_txid tx)) as [mp1 n1]. cbn [fst] in H1.
  destruct H1 as (Hok1 & Hp1 & Hsub1 & Hmax1 & Hns1).
  destruct (IH _ mp1 n1 Hok1 Hp1) as (H1 & H2 & H3 & H4 & H5).
  { intros tx' e Htx' He. apply (Hout tx' e); [by right|by apply Hsub1]. }
  split_and!; [done| | |by etransitivity|].
  - eapply parents_ok_weaken; [|exact H2]. intros o [[HV|Hc]|Hc]; [by left|right|right];
      destruct Hc as (tx' & Hin & Hc); exists tx'; (split; [|done]).
    + apply list_elem_of_singleton in Hin as ->. by left.
    + by right.
  - intros t e He. by apply Hsub1, H3.
  - intros tx' i [->|Htx']%elem_of_cons Hi; [|by eapply H5]. intros t e He. apply (Hns1 i Hi t). by apply H3.
Qed.

(** The UTXO set before and after a block, seen from the pool. *)
Definition block_applied (U U' : OutPoint -> Prop) (mp : Mempool) (block : Block) : Prop :=
  forall t e o, txs mp !! t = Some e -> o ∈ spends e -> U o \/ created_by (txdata block) o ->
  (forall tx i, tx ∈ txdata block -> i ∈ input tx -> previous_output i <> o) -> U' o.

Lemma remove_for_block_spec U U' mp block :
  pool_ok mp -> parents_ok U mp ->
  (forall tx e, tx ∈ txdata block -> txs mp !! compute_txid tx = Some e -> output (me_tx e) = output tx) ->
  block_applied U U' mp block ->
  let mp' := remove_for_block mp block (map compute_txid (txdata block)) in
  pool_ok mp' /\ parents_ok U' mp' /\ sub_pool mp' mp /\ max_memory_bytes mp' = max_memory_bytes mp.
Proof.
  intros Hok Hp Hout Hap. unfold remove_for_block. destruct (_ && _) eqn:He.
  { apply andb_true_iff in He as [He%bool_decide_eq_true _]. split_and!; [done| |by intros ?|done].
    intros t e o Ht. rewrite He, lookup_empty in Ht. done. }
  destruct (remove_confirmed_all (txdata block) U mp 0 Hok Hp Hout) as (H1 & H2 & H3 & H4 & H5).
  split_and!; [done| |done|done]. intros t e o Ht Ho. destruct (H2 t e o Ht Ho) as [HU|?]; [left|by right].
  apply (Hap t e o); [by apply H3|done|done|]. intros tx i Htx Hi <-. by apply (H5 tx i Htx Hi t e).
Qed.
End Pool.
