(* ===== verification/AcceptProofs.v ===== *)
(** * Properties of mempool acceptance

    An accepted transaction leaves the pool consistent, within its memory
    budget, with every input backed by a coin or a parent; replacement pays
    for what it evicts; a rejected one leaves the pool as it was. *)

From Stdlib Require Import ZArith Lia.
From stdpp Require Import base option numbers list gmap strings.
From S2P Require Import Prelude F64 Bytes Types ScriptBytes Signatures VerifyScript Consensus Validation ValidationProofs Store HeaderIndex Bip110 UtxoSet UtxoProofs ChainState RelayPolicy Mempool MempoolAccept MempoolProofs.

(** ** Walks over the pool *)

Lemma map_sum_filter {A} (f : A -> Z) (P : hash256 * A -> Prop) `{forall x, Decision (P x)} (m : gmap hash256 A) :
  (forall e, 0 <= f e) -> map_sum f (filter P m) <= map_sum f m.
Proof.
  intros Hf. induction m as [|k e m Hk IH] using map_ind; [done|]. rewrite map_sum_insert by done.
  destruct (decide (P (k, e))) as [HP|HP].
  - rewrite map_filter_insert_True by done. rewrite map_sum_insert; [lia|]. apply map_lookup_filter_None. by left.
  - rewrite map_filter_insert_not' by (try done; intros; congruence). specialize (Hf e). lia.
Qed.

Lemma walk_fuel_enough w mp queue visited :
  Z.of_nat (length (reverse queue)) + unvisited w mp visited <= Z.of_nat (walk_fuel w mp queue).
Proof.
  unfold walk_fuel, unvisited. rewrite length_reverse, Nat2Z.inj_add, map_sum_list.
  pose proof (map_sum_filter (fun e => Z.of_nat (w e)) (fun x => x.1 ∉ visited) (txs mp) (fun e => Nat2Z.is_nonneg (w e))). lia.
Qed.

Lemma with_descendants_spec mp ids visited :
  let '(order, visited') := with_descendants mp ids visited in
  NoDup order /\ (forall id, id ∈ visited' <-> id ∈ visited \/ id ∈ order) /\ (forall id, id ∈ ids -> id ∈ visited') /\
  (forall id, id ∈ order -> id ∉ visited) /\ (forall id, id ∈ order -> forall x, x ∈ children_of mp id -> x ∈ visited').
Proof.
  unfold with_descendants.
  pose proof (walk_spec (children_of mp) n_outputs mp (children_of_bound mp) (walk_fuel n_outputs mp ids) (reverse ids) visited []
    (walk_fuel_enough _ _ _ _) ltac:(constructor) ltac:(by intros ? ?%not_elem_of_nil) ltac:(by intros ? ?%not_elem_of_nil)) as Hw.
  destruct (walk _ _ _ _ _) as [order visited']. destruct Hw as (H1 & H2 & H3 & _ & H5 & H6). split_and!; [done|done| | |done].
  - intros id Hid. apply H3. by rewrite elem_of_reverse.
  - intros id Hid. destruct (H5 id Hid) as [Hx|]; [by apply not_elem_of_nil in Hx|done].
Qed.

Lemma with_descendants_forall (P : hash256 -> Prop) mp ids visited :
  (forall id, P id -> Forall P (children_of mp id)) -> Forall P ids -> Forall P (with_descendants mp ids visited).1.
Proof.
  intros HP Hids. apply walk_forall; [done| |constructor]. rewrite Forall_forall in *. intros x. rewrite elem_of_reverse. apply Hids.
Qed.

(** The ancestors contain the in-mempool parents of the transaction and of
    every ancestor. *)
Lemma ancestors_spec mp tx :
  let A := in_mempool_ancestors mp tx in
  (forall i, i ∈ input tx -> is_Some (txs mp !! op_txid (previous_output i)) -> op_txid (previous_output i) ∈ A) /\
  (forall y x, y ∈ A -> x ∈ parents_of mp y -> is_Some (txs mp !! x) -> x ∈ A).
Proof.
  unfold in_mempool_ancestors. set (queue := map _ (input tx)).
  pose proof (walk_spec (parents_of mp) n_inputs mp (parents_of_bound mp) (walk_fuel n_inputs mp queue) (reverse queue) ∅ []
    (walk_fuel_enough _ _ _ _) ltac:(constructor) ltac:(by intros ? ?%not_elem_of_nil) ltac:(by intros ? ?%not_elem_of_nil)) as Hw.
  destruct (walk _ _ _ _ _) as [order visited]. destruct Hw as (_ & H2 & H3 & _ & _ & H6). cbv zeta. split.
  - intros i Hi Hs. apply elem_of_filter. split; [done|]. apply H3. rewrite elem_of_reverse. apply list_elem_of_fmap. by exists i.
  - intros y x [_ Hy]%elem_of_filter Hx Hs. apply elem_of_filter. split; [done|]. apply (H6 y); [|done].
    apply H2 in Hy as [Hy|Hy]; [by apply not_elem_of_empty in Hy|done].
Qed.

Section Accept.
Context `{Hashes} `{ScriptLib} `{PolicyLib} `{SigLib} `{TxLib} `{OutPointOrd} `{HR : RocksDb} `{HL : !RocksLaws} `{HeaderCodec}
  `{HM : MapIter} `{HMI : !MapIterLaws} `{HRun : Runtime} `{HS : SizeOf} `{HP : PoolIter} `{HPL : !PoolIterLaws} `{HT : TxCodec}.

(** ** Memory *)

Lemma map_sum_add {A} (f g : A -> Z) (m : gmap hash256 A) : map_sum (fun e => f e + g e) m = map_sum f m + map_sum g m.
Proof. induction m as [|k e m Hk IH] using map_ind; [done|]. rewrite !map_sum_insert, IH by done. lia. Qed.
Lemma map_sum_scale {A} (c : Z) (f : A -> Z) (m : gmap hash256 A) : map_sum (fun e => f e * c) m = map_sum f m * c.
Proof. induction m as [|k e m Hk IH] using map_ind; [done|]. rewrite !map_sum_insert, IH by done. lia. Qed.
Lemma map_sum_const {A} (c : Z) (m : gmap hash256 A) : map_sum (fun _ => c) m = Z.of_nat (size m) * c.
Proof.
  induction m as [|k e m Hk IH] using map_ind; [done|]. rewrite map_sum_insert, IH, map_size_insert_None by done. lia.
Qed.

Lemma memory_usage_sum mp : pool_ok mp -> memory_usage mp = map_sum cost_of (txs mp).
Proof.
  intros Hok. unfold memory_usage, cost_of, entry_cost. rewrite (po_slots _ Hok), (po_bytes _ Hok).
  rewrite !map_sum_add, map_sum_scale, !map_sum_const. lia.
Qed.

Lemma cost_of_ids_cons mp id ids :
  cost_of_ids mp (id :: ids) = match txs mp !! id with Some e => cost_of e | None => 0 end + cost_of_ids mp ids.
Proof. unfold cost_of_ids. cbn. by destruct (txs mp !! id). Qed.

Lemma cost_of_ids_app mp l l' : cost_of_ids mp (l ++ l') = cost_of_ids mp l + cost_of_ids mp l'.
Proof. induction l as [|id l IH]; [done|]. cbn [app]. rewrite !cost_of_ids_cons, IH. lia. Qed.

Lemma cost_of_ids_ext mp mp' ids : (forall id, id ∈ ids -> txs mp' !! id = txs mp !! id) -> cost_of_ids mp' ids = cost_of_ids mp ids.
Proof.
  intros Hx. induction ids as [|id ids IH]; [done|]. rewrite !cost_of_ids_cons, Hx by by left. rewrite IH; [done|].
  intros x Hin. apply Hx. by right.
Qed.

Lemma memory_remove_all ids : forall mp,
  pool_ok mp -> NoDup ids -> memory_usage (remove_all mp ids) = memory_usage mp - cost_of_ids mp ids.
Proof.
  induction ids as [|id ids IH]; intros mp Hok Hnd; [unfold cost_of_ids; cbn; lia|]. apply NoDup_cons in Hnd as [Hn Hnd].
  cbn [remove_all foldl]. change (foldl remove_transaction (remove_transaction mp id) ids) with (remove_all (remove_transaction mp id) ids).
  rewrite cost_of_ids_cons. destruct (txs mp !! id) as [e|] eqn:He.
  - destruct (remove_entry_spec mp id e Hok He) as (Hok1 & Htx1 & _). rewrite IH by done.
    rewrite (cost_of_ids_ext mp) by (intros x Hx; rewrite Htx1, lookup_delete_ne; congruence).
    rewrite (memory_usage_sum _ Hok1), (memory_usage_sum _ Hok), Htx1, (map_sum_delete _ _ _ _ He). lia.
  - rewrite remove_absent, IH by done. lia.
Qed.

(** ** The budget plan *)

(** The transactions slated for removal: [evict] and the trimmed ones. *)
Record trim_inv (mp : Mempool) (evict : list hash256) (A : gset hash256) (t : Trim) : Prop := {
  ti_nodup : NoDup (evict ++ trimmed t);
  ti_set id : id ∈ victim_set t <-> id ∈ evict ++ trimmed t;
  ti_closed id : id ∈ evict ++ trimmed t -> forall x, x ∈ children_of mp id -> x ∈ evict ++ trimmed t;
  ti_freed : planned_freed t = cost_of_ids mp (evict ++ trimmed t);
  ti_keep id : id ∈ trimmed t -> id ∉ A }.

Lemma cheapest_elem l e : cheapest l = Some e -> e ∈ l.
Proof.
  assert (Hgen : forall l best, foldl cheaper best l = Some e -> best = Some e \/ e ∈ l).
  { clear. induction l as [|x l IH]; intros best He; cbn [foldl] in He; [by left|].
    apply IH in He as [He|He]; [|right; by right]. unfold cheaper in He.
    destruct best as [b|]; [destruct (f64_total_cmp _ _)|]; auto; injection He as ->; right; by left. }
  intros He. by destruct (Hgen l None He).
Qed.

Lemma elem_of_pool_values mp e : e ∈ map snd (iter_pool (txs mp)) <-> exists t, txs mp !! t = Some e.
Proof.
  rewrite iter_pool_perm. rewrite list_elem_of_fmap. split.
  - intros ([t e'] & -> & Hin). exists t. by apply elem_of_map_to_list.
  - intros [t Ht]. exists (t, e). split; [done|]. by apply elem_of_map_to_list.
Qed.

Lemma plan_trim_inv mp rate tx cost evict fuel : forall t t',
  pool_ok mp -> trim_inv mp evict (in_mempool_ancestors mp tx) t ->
  plan_trim mp rate (in_mempool_ancestors mp tx) cost fuel t = Ok t' ->
  trim_inv mp evict (in_mempool_ancestors mp tx) t' /\ memory_usage mp + cost <= max_memory_bytes mp + planned_freed t'.
Proof.
  set (A := in_mempool_ancestors mp tx). destruct (ancestors_spec mp tx) as [_ HA].
  induction fuel as [|fuel IH]; intros t t' Hok Hi; cbn [plan_trim]; destruct (_ >? _) eqn:Hgt; try done.
  1, 3: intros [= <-]; split; [done|]; rewrite Z.gtb_ltb in Hgt; by apply Z.ltb_ge in Hgt.
  destruct (cheapest _) as [victim|] eqn:Hch; [|done].
  destruct (f64_le _ _); [done|]. cbn [guard_err mbind result_bind]. destruct (bool_decide _) eqn:Hva; [done|].
  apply bool_decide_eq_false in Hva. cbn [guard_err mbind result_bind].
  apply cheapest_elem, list_elem_of_filter in Hch as [Hv Hin]. apply elem_of_pool_values in Hin as [tv Htv].
  pose proof (with_descendants_spec mp [me_txid victim] (victim_set t)) as Hw.
  assert (Hall : Forall (fun id => id ∉ A) (with_descendants mp [me_txid victim] (victim_set t)).1).
  { apply with_descendants_forall; [|by apply Forall_singleton]. intros id Hid. apply Forall_forall. intros y Hy HyA.
    unfold children_of in Hy. destruct (txs mp !! id) as [p|] eqn:Hp; [|by apply not_elem_of_nil in Hy].
    destruct (child_spends mp id y p Hok Hp Hy) as (e & He & Hs). apply Hid, (HA y id HyA); [|by eexists].
    unfold parents_of. rewrite He. by rewrite map_map in Hs. }
  destruct (with_descendants mp [me_txid victim] (victim_set t)) as [ids victims]. destruct Hw as (W1 & W2 & W3 & W4 & W5).
  intros Hrun. apply (IH _ _ Hok) in Hrun; [done|]. destruct Hi as [I1 I2 I3 I4 I5].
  constructor; cbn [trimmed victim_set planned_freed]; rewrite ?app_assoc.
  - apply NoDup_app. split_and!; [done| |done]. intros x Hx Hx'. by apply (W4 x Hx'), I2.
  - intros id. rewrite W2, I2, (elem_of_app (evict ++ trimmed t)). done.
  - intros id [Hid|Hid]%elem_of_app x Hx; apply elem_of_app; [left; by eapply I3|].
    apply (W5 id Hid) in Hx. apply W2 in Hx as [Hx|Hx]; [left; by apply I2|by right].
  - rewrite cost_of_ids_app, <- I4. done.
  - intros id [Hid|Hid]%elem_of_app; [by apply I5|]. rewrite Forall_forall in Hall. by apply Hall.
Qed.

(** *** Fuel *)

Lemma length_filter_impl {A} (P Q : A -> Prop) `{forall x, Decision (P x)} `{forall x, Decision (Q x)} (l : list A) :
  (forall x, x ∈ l -> Q x -> P x) -> (length (filter Q l) <= length (filter P l))%nat.
Proof.
  induction l as [|x l IH]; intros HQ; [done|]. rewrite !filter_cons.
  assert (IH' : (length (filter Q l) <= length (filter P l))%nat) by (apply IH; intros y Hy; apply HQ; by right).
  destruct (decide (Q x)) as [Hq|], (decide (P x)) as [|Hn]; cbn; try lia. destruct Hn. apply HQ; [by left|done].
Qed.

Lemma length_filter_strict {A} (P Q : A -> Prop) `{forall x, Decision (P x)} `{forall x, Decision (Q x)} (l : list A) y :
  (forall x, x ∈ l -> Q x -> P x) -> y ∈ l -> P y -> ~ Q y -> (length (filter Q l) < length (filter P l))%nat.
Proof.
  induction l as [|x l IH]; intros HQ Hy HPy HnQ; [by apply not_elem_of_nil in Hy|]. rewrite !filter_cons.
  assert (Hl : forall z, z ∈ l -> Q z -> P z) by (intros z Hz; apply HQ; by right).
  apply elem_of_cons in Hy as [<-|Hy].
  - rewrite decide_False by done. rewrite decide_True by done. cbn. pose proof (length_filter_impl P Q l Hl). lia.
  - specialize (IH Hl Hy HPy HnQ). destruct (decide (Q x)) as [Hq|]; [rewrite decide_True by (apply HQ; [by left|done]); cbn; lia|].
    destruct (decide (P x)); cbn; lia.
Qed.

(** The entries a plan may still evict. *)
Definition evictable (mp : Mempool) (t : Trim) : list MempoolEntry :=
  filter (fun e => me_txid e ∉ victim_set t) (map snd (iter_pool (txs mp))).

(** The plan ends by itself: more fuel than entries changes nothing. *)
Lemma plan_trim_fuel mp rate A cost fuel : forall t,
  (length (evictable mp t) <= fuel)%nat -> plan_trim mp rate A cost (S fuel) t = plan_trim mp rate A cost fuel t.
Proof.
  induction fuel as [|fuel IH]; intros t Hf.
  - cbn [plan_trim]. destruct (_ >? _); [|done]. fold (evictable mp t). by destruct (evictable mp t); [|cbn in Hf; lia].
  - cbn [plan_trim] in IH |- *. destruct (_ >? _); [|done]. destruct (cheapest _) as [victim|] eqn:Hch; [|done].
    destruct (guard_err _ _); [|done]. cbn [mbind result_bind]. destruct (guard_err _ _); [|done]. cbn [mbind result_bind].
    apply cheapest_elem, list_elem_of_filter in Hch as [Hv Hin].
    pose proof (with_descendants_spec mp [me_txid victim] (victim_set t)) as Hw.
    destruct (with_descendants mp [me_txid victim] (victim_set t)) as [ids victims]. destruct Hw as (_ & W2 & W3 & _).
    apply IH. unfold evictable in *. cbn [victim_set]. apply Nat.lt_succ_r.
    eapply Nat.lt_le_trans; [|exact Hf]. apply (length_filter_strict _ _ _ victim); [|done|done|].
    + intros x _ Hx Hx'. apply Hx, W2. by left.
    + intros Hx. apply Hx, W3. by left.
Qed.

(** The spenders not counted yet. *)
Definition uncounted (mp : Mempool) (visited : gset hash256) : gset hash256 :=
  list_to_set (map_to_list (spent_outpoints mp)).*2 ∖ visited.

Lemma count_child_measure mp l : forall visited n queue,
  (forall x, x ∈ l -> exists o, spent_outpoints mp !! o = Some x) ->
  let '(visited', _, queue') := foldl count_child (visited, n, queue) l in
  (length queue' + size (uncounted mp visited') = length queue + size (uncounted mp visited))%nat.
Proof.
  induction l as [|x l IH]; intros visited n queue Hl; cbn [foldl]; [done|].
  assert (Hl' : forall y, y ∈ l -> exists o, spent_outpoints mp !! o = Some y) by (intros y Hy; apply Hl; by right).
  unfold count_child at 2. case_bool_decide as Hx; [by apply IH|]. specialize (IH ({[x]} ∪ visited) (S n) (x :: queue) Hl').
  destruct (foldl _ _ _) as [[visited' n'] queue']. rewrite IH. cbn [length].
  assert (Hin : x ∈ uncounted mp visited).
  { destruct (Hl x) as [o Ho]; [by left|]. unfold uncounted. apply elem_of_difference. split; [|done]. apply elem_of_list_to_set, list_elem_of_fmap.
    exists (o, x). split; [done|]. by apply elem_of_map_to_list. }
  replace (uncounted mp ({[x]} ∪ visited)) with (uncounted mp visited ∖ {[x]}) by (unfold uncounted; set_solver).
  rewrite size_difference, size_singleton by set_solver.
  assert (size (uncounted mp visited) <> 0%nat); [|lia]. intros Hz. apply size_empty_inv in Hz. set_solver.
Qed.

(** Counting the descendants ends by itself. *)
Lemma count_loop_fuel mp fuel : forall visited n queue,
  (length queue + size (uncounted mp visited) <= fuel)%nat ->
  count_loop mp (S fuel) visited n queue = count_loop mp fuel visited n queue.
Proof.
  induction fuel as [|fuel IH]; intros visited n queue Hf; [by destruct queue; [|cbn in Hf; lia]|].
  destruct queue as [|x queue]; [done|]. cbn [count_loop] in IH |- *.
  pose proof (count_child_measure mp (children_of mp x) visited n queue) as Hm.
  destruct (foldl _ _ _) as [[visited' n'] queue']. apply IH. rewrite Hm; [cbn in Hf; lia|].
  intros y Hy. unfold children_of, children in Hy. destruct (txs mp !! x); [|by apply not_elem_of_nil in Hy].
  apply list_elem_of_omap in Hy as (v & _ & Hv). eauto.
Qed.

(** ** Admission *)

Lemma insert_all_lookup (id : hash256) (l : list TxIn) : forall (m : gmap OutPoint hash256) o,
  foldl (fun s i => <[previous_output i := id]> s) m l !! o = if bool_decide (o ∈ map previous_output l) then Some id else m !! o.
Proof.
  induction l as [|i l IH]; intros m o; cbn [foldl map]; [by rewrite bool_decide_eq_false_2 by apply not_elem_of_nil|].
  rewrite IH. destruct (decide (o = previous_output i)) as [->|Hne].
  - rewrite (bool_decide_eq_true_2 (_ ∈ _ :: _)) by by left. case_bool_decide; [done|apply lookup_insert_eq].
  - rewrite lookup_insert_ne by congruence.
    by rewrite (bool_decide_ext (o ∈ previous_output i :: _) (o ∈ map previous_output l)) by (rewrite elem_of_cons; tauto).
Qed.

Lemma insert_all_size (id : hash256) (l : list TxIn) : forall (m : gmap OutPoint hash256),
  NoDup (map previous_output l) -> (forall o, o ∈ map previous_output l -> m !! o = None) ->
  Z.of_nat (size (foldl (fun s i => <[previous_output i := id]> s) m l)) = Z.of_nat (size m) + len l.
Proof.
  induction l as [|i l IH]; intros m Hnd Hm; cbn [foldl]; [unfold len; cbn; lia|]. apply NoDup_cons in Hnd as [Hn Hnd].
  rewrite IH; [|done|].
  - rewrite map_size_insert_None by (apply Hm; by left). rewrite len_cons. lia.
  - intros o Ho. rewrite lookup_insert_ne by (intros <-; done). apply Hm. by right.
Qed.

(** The pool after the removals and before the insertion. *)
Abbreviation cleared mp evict t := (remove_all mp (evict ++ trimmed t)).

Lemma admit_entry_fields now evict t entry mp :
  let mp' := admit_entry now evict t entry mp in let b := cleared mp evict t in
  txs mp' = <[me_txid entry := entry]> (txs b) /\
  spent_outpoints mp' = foldl (fun s i => <[previous_output i := me_txid entry]> s) (spent_outpoints b) (input (me_tx entry)) /\
  total_tx_bytes mp' = total_tx_bytes b + me_size entry /\ max_memory_bytes mp' = max_memory_bytes b.
Proof.
  unfold remove_all. rewrite foldl_app. unfold admit_entry. by destruct (trimmed t).
Qed.

(** What acceptance establishes about the transaction. *)
Record admissible (U : OutPoint -> Prop) (mp : Mempool) (evict : list hash256) (tx : Transaction) (entry : MempoolEntry) : Prop := {
  ad_tx : me_tx entry = tx /\ me_txid entry = compute_txid tx /\ 0 <= me_size entry;
  ad_new : txs mp !! compute_txid tx = None;
  ad_inputs : NoDup (spends entry) /\ Forall outpoint_ok (spends entry);
  ad_backed o : o ∈ spends entry -> U o \/ is_Some (parent_output mp o);
  ad_kept o : o ∈ spends entry -> op_txid o ∉ evict;
  ad_conflicts o t : o ∈ spends entry -> spent_outpoints mp !! o = Some t -> t ∈ evict }.

Lemma admit_pool_ok U mp evict t tx entry now :
  pool_ok mp -> admissible U mp evict tx entry -> pool_ok (admit_entry now evict t entry mp) /\
  memory_usage (admit_entry now evict t entry mp) = memory_usage (cleared mp evict t) + cost_of entry.
Proof.
  intros Hok [[Htx [Hid Hsz]] Hnew [Hnd Hoo] _ _ Hconf].
  destruct (admit_entry_fields now evict t entry mp) as (F1 & F2 & F3 & F4).
  destruct (remove_all_spec (evict ++ trimmed t) mp Hok) as (Hokb & _ & Htxb & Hspb).
  set (mp' := admit_entry now evict t entry mp) in *. set (b := cleared mp evict t) in *.
  assert (Hfree : forall o, o ∈ spends entry -> spent_outpoints b !! o = None).
  { intros o Ho. apply eq_None_not_Some. intros [x Hx]. apply Hspb in Hx as [Hx Hn]. apply Hn, elem_of_app. left. by eapply Hconf. }
  assert (Hnewb : txs b !! me_txid entry = None) by (rewrite Htxb, Hid, Hnew; by case_bool_decide).
  assert (Hok' : pool_ok mp').
  { constructor; rewrite ?F1, ?F2, ?F3.
    - intros x e [[<- <-]|[_ He]]%lookup_insert_Some; [by rewrite Htx|by apply (po_key _ Hokb)].
    - intros o x. rewrite insert_all_lookup. case_bool_decide as Ho.
      + split; [intros [= <-]; exists entry; by rewrite lookup_insert_eq|].
        intros (e & [[-> _]|[_ He]]%lookup_insert_Some & Ho'); [done|].
        assert (spent_outpoints b !! o = Some x) by (apply (po_index _ Hokb); eauto). rewrite (Hfree o Ho) in *. done.
      + rewrite (po_index _ Hokb). split; intros (e & He & Ho'); exists e; (split; [|done]).
        * rewrite lookup_insert_ne; [done|]. intros <-. congruence.
        * apply lookup_insert_Some in He as [[_ <-]|[_ He]]; [done|done].
    - intros x e [[_ <-]|[_ He]]%lookup_insert_Some; [done|by apply (po_inputs _ Hokb x)].
    - rewrite map_sum_insert, (po_bytes _ Hokb) by done. lia.
    - rewrite map_sum_insert, <- (po_slots _ Hokb), insert_all_size by done. lia. }
  split; [done|]. rewrite (memory_usage_sum _ Hok'), (memory_usage_sum _ Hokb), F1, map_sum_insert by done. lia.
Qed.

Lemma parent_output_mono mp mp' o :
  (forall p, txs mp !! op_txid o = Some p -> txs mp' !! op_txid o = Some p) -> is_Some (parent_output mp o) -> is_Some (parent_output mp' o).
Proof. rewrite !parent_output_Some. intros Hm (p & Hp & Hv). exists p. auto. Qed.

Lemma admit_parents U mp evict t tx entry now :
  pool_ok mp -> parents_ok U mp -> trim_inv mp evict (in_mempool_ancestors mp tx) t -> admissible U mp evict tx entry ->
  parents_ok U (admit_entry now evict t entry mp).
Proof.
  intros Hok Hp Ht [[Htx [Hid _]] Hnew _ Hback Hkept _].
  destruct (admit_entry_fields now evict t entry mp) as (F1 & _).
  destruct (remove_all_spec (evict ++ trimmed t) mp Hok) as (_ & _ & Htxb & _).
  pose proof (remove_closed_parents U mp (evict ++ trimmed t) Hok Hp (ti_closed _ _ _ _ Ht)) as Hpb.
  assert (Hnewb : txs (cleared mp evict t) !! me_txid entry = None) by (rewrite Htxb, Hid, Hnew; by case_bool_decide).
  assert (Hup : forall o, is_Some (parent_output (cleared mp evict t) o) -> is_Some (parent_output (admit_entry now evict t entry mp) o)).
  { intros o. apply parent_output_mono. intros p Hpp. rewrite F1, lookup_insert_ne; [done|]. intros Heq. congruence. }
  intros x e o. rewrite F1. intros [[_ <-]|[_ He]]%lookup_insert_Some Ho.
  - destruct (Hback o Ho) as [HU|Hpar]; [by left|right]. apply Hup. revert Hpar. apply parent_output_mono.
    intros p Hpp. rewrite Htxb, bool_decide_eq_false_2; [done|]. intros [Hin|Hin]%elem_of_app; [by apply (Hkept o)|].
    apply (ti_keep _ _ _ _ Ht _ Hin). apply list_elem_of_fmap in Ho as (i & -> & Hi). rewrite Htx in Hi.
    apply (ancestors_spec mp tx); [done|by eexists].
  - destruct (Hpb x e o He Ho) as [?|Hpar]; [by left|right]. by apply Hup.
Qed.

(** ** Running the checks *)

Definition same_env (s0 s : MpEnv) : Prop :=
  pool s = pool s0 /\ utxo_inv (mp_utxo s) /\ forall k, coins (mp_utxo s) k = coins (mp_utxo s0) k.

Abbreviation in_set s0 o := (is_Some (coins (mp_utxo s0) (outpoint_key o))).

Lemma steps_pool s0 : steps (E := CoreError) (same_env s0) (gets pool) (fun mp => mp = pool s0).
Proof. intros s Hs. apply wp_gets. split; [done|]. intros mp [= <-]. by destruct Hs. Qed.

Lemma steps_coin s0 o : steps (same_env s0) (on_coins (utxo_get o)) (fun x => x = coins (mp_utxo s0) (outpoint_key o)).
Proof.
  intros s (Hp & Hu & Hc). pose proof (utxo_get_spec o (mp_utxo s) Hu) as Hg. unfold wp, on_coins in *.
  destruct (utxo_get o (mp_utxo s)) as [u r]. cbn [fst snd] in *. destruct Hg as (Hi & (_ & _ & Hv) & Hx). split.
  - split_and!; [done|done|]. intros k. cbn. by rewrite Hv.
  - intros a Ha. destruct r as [x|e]; [|done]. injection Ha as <-. rewrite (Hx x eq_refl). apply Hc.
Qed.

(** The value an input spends. *)
Definition spent_value (s : MpEnv) (i : TxIn) : Z :=
  match coins (mp_utxo s) (outpoint_key (previous_output i)) with
  | Some u => amount u
  | None => match parent_output (pool s) (previous_output i) with Some out => value out | None => 0 end
  end.
Definition input_value (s : MpEnv) (l : list TxIn) : Z := foldr (fun i n => spent_value s i + n) 0 l.

Lemma input_value_snoc s l i : input_value s (l ++ [i]) = input_value s l + spent_value s i.
Proof. induction l as [|j l IH]; cbn; [lia|]. unfold input_value in *. cbn. rewrite IH. lia. Qed.

(** The inputs [pre] have been resolved against the coins and the pool, and
    the conflicts collected so far may be replaced. *)
Definition resolved_inv (s0 : MpEnv) (pre : list TxIn) (rs : Resolved) : Prop :=
  (forall i, i ∈ pre -> (in_set s0 (previous_output i) \/ is_Some (parent_output (pool s0) (previous_output i))) /\
    forall t, spent_outpoints (pool s0) !! previous_output i = Some t -> t ∈ conflicts rs) /\
  (forall t, t ∈ conflicts rs -> exists e, txs (pool s0) !! t = Some e /\ signals_rbf (me_tx e) = true) /\
  rs_sum rs = u64 (input_value s0 pre).

Lemma add_conflict_spec mp o l l' :
  add_conflict mp o l = Ok l' -> (forall t, t ∈ l -> t ∈ l') /\ (forall t, spent_outpoints mp !! o = Some t -> t ∈ l') /\
  (forall t, t ∈ l' -> t ∈ l \/ exists e, txs mp !! t = Some e /\ signals_rbf (me_tx e) = true).
Proof.
  unfold add_conflict. destruct (spent_outpoints mp !! o) as [x|]; [|intros [= <-]; by split_and!; [| |left]].
  destruct (txs mp !! x) as [e|] eqn:He; [|done]. destruct (signals_rbf _) eqn:Hs; [|done]. intros [= <-].
  case_bool_decide as Hx; (split_and!; [intros y Hy|intros y [= <-]|intros y]); rewrite ?elem_of_app, ?list_elem_of_singleton; auto.
  intros [?| ->]; eauto.
Qed.

Lemma resolve_input_inv s0 next_height pre rs txin :
  resolved_inv s0 pre rs -> steps (same_env s0) (resolve_input (pool s0) next_height rs txin) (resolved_inv s0 (pre ++ [txin])).
Proof.
  intros Hpre. unfold resolve_input.
  eapply steps_bind; [apply (steps_lift _ _ (fun l => add_conflict (pool s0) (previous_output txin) (conflicts rs) = Ok l)); done|].
  cbv beta. intros l Hl. apply add_conflict_spec in Hl as (Hl1 & Hl2 & Hl3). destruct Hpre as (Hpre & Hrbf & Hsum).
  eapply steps_bind; [apply steps_coin|]. cbv beta. intros stored ->.
  eapply steps_bind; [apply (steps_lift _ _ (fun x => x.1.1 = spent_value s0 txin /\
    (in_set s0 (previous_output txin) \/ is_Some (parent_output (pool s0) (previous_output txin)))))|].
  { intros x Hx. unfold spent_value. destruct (coins _ _) as [u|]; [injection Hx as <-; split; [done|by left; eexists]|].
    destruct (parent_output _ _) as [out|]; [injection Hx as <-; split; [done|by right; eexists]|done]. }
  intros [[amt script] h] [Hamt Hb]. cbn in Hamt. apply steps_ret. split_and!; cbn [conflicts rs_sum].
  - intros i [Hi| ->%list_elem_of_singleton]%elem_of_app; [|split; [done|]; intros t Ht; by apply Hl2].
    destruct (Hpre i Hi) as [Hb' Hc']. split; [done|]. intros t Ht. by apply Hl1, Hc'.
  - intros t [Ht|Ht]%Hl3; [by apply Hrbf|done].
  - rewrite Hsum, Hamt, input_value_snoc. unfold wrap. by rewrite Z.add_mod_idemp_l by done.
Qed.

Lemma verify_inputs_steps s0 tx prevouts heights flags a :
  steps (same_env s0) (verify_inputs tx prevouts heights flags a) (fun _ => True).
Proof.
  unfold verify_inputs. apply (steps_foldS _ (fun _ _ => True)); [|done]. intros pre vin suf [] _ _ s Hs. unfold verify_one.
  apply wp_bind, wp_gets. destruct (match mp_sig s with Some _ => _ | None => _ end); [by apply wp_ret|].
  apply wp_bind, wp_lift. destruct (verify_script _ _ _ _); [|done]. apply wp_modify. split; [|done].
  by destruct (mp_sig s).
Qed.

Lemma start_trim_inv mp A conflicts evict evict_set floor :
  with_descendants mp conflicts ∅ = (evict, evict_set) -> trim_inv mp evict A (mkTrim (cost_of_ids mp evict) evict_set [] floor).
Proof.
  intros Hw. pose proof (with_descendants_spec mp conflicts ∅) as Hs. rewrite Hw in Hs. destruct Hs as (W1 & W2 & _ & _ & W5).
  constructor; cbn [trimmed victim_set planned_freed]; rewrite ?app_nil_r; [done| | |done|by intros id ?%not_elem_of_nil].
  - intros id. rewrite W2. set_solver.
  - intros id Hid x Hx. apply (W5 id Hid), W2 in Hx. set_solver.
Qed.

(** What replacement requires: the conflicts signal it, few transactions go,
    and the fee, which is the value spent less the outputs, pays for them. *)
Record replaces (s0 : MpEnv) (evict : list hash256) (tx : Transaction) (entry : MempoolEntry) : Prop := {
  rp_present id : id ∈ evict -> is_Some (txs (pool s0) !! id);
  rp_closed id x : id ∈ evict -> x ∈ children_of (pool s0) id -> x ∈ evict;
  rp_few : (length evict <= MAX_RBF_REPLACEMENTS)%nat;
  rp_signal o t : o ∈ spends entry -> spent_outpoints (pool s0) !! o = Some t ->
    exists e, txs (pool s0) !! t = Some e /\ signals_rbf (me_tx e) = true;
  rp_fee : me_fee entry = u64 (input_value s0 (input tx)) - sum_outputs tx /\ 0 <= me_fee entry;
  rp_rate : me_fee_rate entry = f64_div (f64_of_u64 (me_fee entry)) (f64_of_u64 ((tx_weight tx + 3) / 4));
  rp_pays : check_replacement (pool s0) evict (me_fee entry) (me_fee_rate entry) = Ok tt }.

Lemma evict_present mp l visited :
  pool_ok mp -> (forall t, t ∈ l -> is_Some (txs mp !! t)) -> forall id, id ∈ (with_descendants mp l visited).1 -> is_Some (txs mp !! id).
Proof.
  intros Hok Hl. assert (Hall : Forall (fun id => is_Some (txs mp !! id)) (with_descendants mp l visited).1).
  { apply with_descendants_forall; [|by apply Forall_forall]. intros id [p Hp]. apply Forall_forall. intros y Hy.
    unfold children_of in Hy. rewrite Hp in Hy. destruct (child_spends mp id y p Hok Hp Hy) as (e & He & _). by eexists. }
  by apply Forall_forall.
Qed.

(** The outcome of acceptance. *)
Definition accepted (s0 : MpEnv) (tx : Transaction) (res : list hash256 * Trim * MempoolEntry) : Prop :=
  let '(evict, t, entry) := res in
  admissible (fun o => in_set s0 o) (pool s0) evict tx entry /\ trim_inv (pool s0) evict (in_mempool_ancestors (pool s0) tx) t /\
  memory_usage (pool s0) + cost_of entry <= max_memory_bytes (pool s0) + planned_freed t /\ replaces s0 evict tx entry.

Definition tx_ok (tx : Transaction) : Prop :=
  Forall (fun o => 0 <= value o) (output tx) /\ Forall (fun i => outpoint_ok (previous_output i)) (input tx).

Lemma admissible_intro s0 tx rs evict evict_set entry :
  txs (pool s0) !! compute_txid tx = None -> tx_ok tx -> NoDup (map previous_output (input tx)) ->
  resolved_inv s0 (input tx) rs -> with_descendants (pool s0) (conflicts rs) ∅ = (evict, evict_set) ->
  existsb (fun i => bool_decide (op_txid (previous_output i) ∈ evict_set)) (input tx) = false ->
  me_tx entry = tx -> me_txid entry = compute_txid tx -> 0 <= me_size entry ->
  admissible (fun o => in_set s0 o) (pool s0) evict tx entry.
Proof.
  intros Hnew [_ Hoo] Hnd Hrs Hw Hex He1 He2 He3.
  pose proof (with_descendants_spec (pool s0) (conflicts rs) ∅) as Hs. rewrite Hw in Hs. destruct Hs as (_ & W2 & W3 & _).
  constructor; rewrite ?He1; [done|done| | | |].
  - split; [done|]. by apply Forall_fmap.
  - intros o (i & -> & Hi)%list_elem_of_fmap. by apply (proj1 Hrs).
  - intros o (i & -> & Hi)%list_elem_of_fmap Hin.
    assert (Hbad : existsb (fun i => bool_decide (op_txid (previous_output i) ∈ evict_set)) (input tx) = true); [|congruence].
    apply existsb_exists. exists i. split; [by apply list_elem_of_In|]. apply bool_decide_eq_true, W2. by right.
  - intros o t (i & -> & Hi)%list_elem_of_fmap Ht. apply (proj1 Hrs) in Ht; [|done]. apply W3, W2 in Ht. set_solver.
Qed.

Lemma accept_spec s0 now tx flags params chain :
  TotalOrder outpoint_le -> tx_ok tx -> pool_ok (pool s0) -> txs (pool s0) !! compute_txid tx = None ->
  steps (same_env s0) (accept now tx flags params chain) (accepted s0 tx).
Proof.
  intros Hto Htx Hok Hnew. unfold accept.
  eapply steps_bind; [apply steps_pool|]. cbv beta. intros mp ->.
  eapply steps_bind; [apply (steps_lift _ _ (fun _ => True)); done|]. intros ? _.
  eapply steps_bind; [apply (steps_lift _ _ (fun _ => NoDup (map previous_output (input tx))))|].
  { intros [] Hc. apply check_transaction_spec in Hc; [|done|by destruct Htx]. by destruct Hc as (_ & _ & _ & _ & ?). }
  intros [] Hnd. cbv beta in Hnd.
  do 3 (eapply steps_bind; [apply (steps_lift _ _ (fun _ => True)); done|]; intros ? _).
  eapply steps_bind; [apply (steps_foldS _ (resolved_inv s0))|].
  { intros pre x suf rs _. apply resolve_input_inv. }
  { by split_and!; [intros i ?%not_elem_of_nil|intros t ?%not_elem_of_nil|]. }
  intros rs Hrs. eapply steps_bind; [apply (steps_lift _ _ (fun _ => True)); done|]. intros times _.
  destruct (sequence_lock_points _ _ _) as [lh lt]. destruct (with_descendants (pool s0) (conflicts rs) ∅) as [evict evict_set] eqn:Hw.
  eapply steps_bind; [apply (steps_lift _ _ (fun _ =>
    existsb (fun i => bool_decide (op_txid (previous_output i) ∈ evict_set)) (input tx) = false))|].
  { intros [] Hg. by apply guard_err_Ok in Hg. }
  intros [] Hex. cbv beta in Hex.
  eapply steps_bind; [apply (steps_lift _ _ (fun _ => (length evict <= MAX_RBF_REPLACEMENTS)%nat))|].
  { intros [] Hg. apply guard_err_Ok in Hg. by apply Nat.ltb_ge in Hg. }
  intros [] Hfew. cbv beta in Hfew.
  eapply steps_bind; [apply (steps_lift _ _ (fun _ => sum_outputs tx <= rs_sum rs))|].
  { intros [] Hg. apply guard_err_Ok in Hg. rewrite Z.gtb_ltb in Hg. by apply Z.ltb_ge in Hg. }
  intros [] Hpos. cbv beta in Hpos.
  do 2 (eapply steps_bind; [apply (steps_lift _ _ (fun _ => True)); done|]; intros ? _).
  eapply steps_bind; [apply (steps_lift _ _ (fun _ => check_replacement (pool s0) evict (rs_sum rs - sum_outputs tx)
    (f64_div (f64_of_u64 (rs_sum rs - sum_outputs tx)) (f64_of_u64 ((tx_weight tx + 3) / 4))) = Ok tt))|].
  { by intros [] Hg. }
  intros [] Hrep. cbv beta in Hrep.
  do 2 (eapply steps_bind; [apply (steps_lift _ _ (fun _ => True)); done|]; intros ? _).
  eapply steps_bind; [apply verify_inputs_steps|]. intros ? _.
  eapply steps_bind; [apply (steps_lift _ _ (fun t => trim_inv (pool s0) evict (in_mempool_ancestors (pool s0) tx) t /\
    memory_usage (pool s0) + entry_cost (len (input tx)) (len (serialize_tx tx)) <= max_memory_bytes (pool s0) + planned_freed t))|].
  { intros t. apply plan_trim_inv; [done|]. by eapply start_trim_inv. }
  intros t [Hti Hmem]. apply steps_ret. split; [|split; [done|split; [done|]]].
  { eapply admissible_intro; try done. unfold len. cbn. lia. }
  destruct Hrs as (Hrs1 & Hrs2 & Hrs3). constructor; cbn [me_tx me_fee me_fee_rate]; [| |done| |rewrite <- Hrs3; lia|done|done].
  - replace evict with (with_descendants (pool s0) (conflicts rs) ∅).1 by by rewrite Hw. apply evict_present; [done|].
    intros x (e & He & _)%Hrs2. by eexists.
  - intros id x Hid Hx. pose proof (start_trim_inv (pool s0) ∅ (conflicts rs) evict evict_set (f64_of_u64 0) Hw) as Hst.
    pose proof (ti_closed _ _ _ _ Hst id) as Hcl. cbn [trimmed] in Hcl. rewrite app_nil_r in Hcl. by eapply Hcl.
  - intros o x (i & -> & Hi)%list_elem_of_fmap Hx. by apply Hrs2, (Hrs1 i Hi).
Qed.

(** ** The invariant of the pool *)

(** [linked]: the pool has been told of every change of the UTXO set.  Otherwise
    nothing is claimed of the coins. *)
Definition available (linked : bool) (s : MpEnv) (o : OutPoint) : Prop := linked = true -> in_set s o.

Definition pool_inv (linked : bool) (s : MpEnv) : Prop :=
  utxo_inv (mp_utxo s) /\ pool_ok (pool s) /\ parents_ok (available linked s) (pool s) /\
  memory_usage (pool s) <= max_memory_bytes (pool s).

(** The three outcomes: known already, rejected, or admitted. *)
Lemma add_transaction_cases s s' r now tx flags params chain :
  TotalOrder outpoint_le -> tx_ok tx -> utxo_inv (mp_utxo s) -> pool_ok (pool s) ->
  add_transaction now tx flags params chain s = (s', r) ->
  (is_Some (txs (pool s) !! compute_txid tx) /\ s' = s /\ r = Ok (compute_txid tx)) \/
  (same_env s s' /\ exists e, r = Err e) \/
  (txs (pool s) !! compute_txid tx = None /\ r = Ok (compute_txid tx) /\
    exists evict t entry, accepted s tx (evict, t, entry) /\ same_env s (set_pool s' (pool s)) /\
      pool s' = admit_entry now evict t entry (pool s)).
Proof.
  intros Hto Htx Hu Hok. unfold add_transaction, mbind, stm_bind, gets. cbv beta iota. case_bool_decide as Hin.
  { intros [= <- <-]. by left. }
  apply eq_None_not_Some in Hin. intros Hrun. right.
  pose proof (accept_spec s now tx flags params chain Hto Htx Hok Hin s
    (conj eq_refl (conj Hu (fun _ => eq_refl)))) as [Hs1 Hacc].
  destruct (accept now tx flags params chain s) as [s1 [[[evict t] entry]|e]]; cbn in Hs1, Hacc; injection Hrun as <- <-; [right|left; eauto].
  destruct Hs1 as (Hps & Hus & Hcs). split_and!; [done|done|]. exists evict, t, entry. split_and!; [by apply Hacc|done|].
  cbn [modify set_pool pool]. by rewrite Hps.
Qed.

Lemma admissible_weaken (U V : OutPoint -> Prop) mp evict tx entry :
  (forall o, U o -> V o) -> admissible U mp evict tx entry -> admissible V mp evict tx entry.
Proof. intros HUV [A1 A2 A3 A4 A5 A6]. split; try done. intros o Ho. destruct (A4 o Ho); auto. Qed.

Lemma admitted_inv linked s s' now tx evict t entry :
  pool_inv linked s -> accepted s tx (evict, t, entry) -> same_env s (set_pool s' (pool s)) ->
  pool s' = admit_entry now evict t entry (pool s) -> pool_inv linked s'.
Proof.
  intros (Hu & Hok & Hp & Hm) (Had & Hti & Hmem & _) (_ & Hus & Hcs) Heq. unfold pool_inv. rewrite Heq.
  destruct (admit_pool_ok _ _ _ t _ _ now Hok Had) as [Hok' Hmem']. split_and!; [done|done| |].
  - apply (admissible_weaken _ (available linked s)) in Had; [|by intros o Ho _].
    eapply parents_ok_weaken; [|exact (admit_parents _ _ _ _ _ _ now Hok Hp Hti Had)]. intros o. unfold available.
    specialize (Hcs (outpoint_key o)). cbn [set_pool mp_utxo] in Hcs. by rewrite Hcs.
  - rewrite Hmem', memory_remove_all by (try done; apply Hti). destruct (admit_entry_fields now evict t entry (pool s)) as (_ & _ & _ & ->).
    destruct (remove_all_spec (evict ++ trimmed t) (pool s) Hok) as (_ & -> & _). rewrite (ti_freed _ _ _ _ Hti) in Hmem. lia.
Qed.

Lemma same_env_inv linked s s' : pool_inv linked s -> same_env s s' -> pool_inv linked s'.
Proof.
  intros (Hu & Hok & Hp & Hm) (Hps & Hus & Hcs). unfold pool_inv. rewrite Hps. split_and!; [done|done| |done].
  eapply parents_ok_weaken; [|exact Hp]. intros o. unfold available. by rewrite Hcs.
Qed.

Lemma add_transaction_inv linked s s' r now tx flags params chain :
  TotalOrder outpoint_le -> tx_ok tx -> pool_inv linked s -> add_transaction now tx flags params chain s = (s', r) -> pool_inv linked s'.
Proof.
  intros Hto Htx Hi Hrun. pose proof Hi as (Hu & Hok & _).
  destruct (add_transaction_cases s s' r now tx flags params chain Hto Htx Hu Hok Hrun) as [(_ & -> & _)|[[Hs _]|(_ & _ & evict & t & entry & Ha & Hs & Hp)]].
  - done.
  - by eapply same_env_inv.
  - by eapply admitted_inv.
Qed.

Hypothesis sizes_nonneg : 0 <= size_of_txid /\ 0 <= size_of_entry /\ 0 <= size_of_slot.

Lemma map_sum_sub {A} (f : A -> Z) (m' : gmap hash256 A) : forall m,
  (forall k e, m !! k = Some e -> 0 <= f e) -> m' ⊆ m -> map_sum f m' <= map_sum f m.
Proof.
  induction m' as [|k e m' Hk IH] using map_ind; intros m Hf Hsub; [by apply map_sum_nonneg|].
  assert (Hkm : m !! k = Some e) by (eapply lookup_weaken; [apply lookup_insert_eq|exact Hsub]).
  rewrite map_sum_insert by done. assert (Hle : map_sum f m' <= map_sum f (delete k m)).
  { apply IH.
    - intros k' e' [_ He']%lookup_delete_Some. by eapply Hf.
    - apply map_subseteq_spec. intros k' e' Hk'. rewrite lookup_delete_ne by congruence.
      eapply lookup_weaken; [|exact Hsub]. by rewrite lookup_insert_ne by congruence. }
  rewrite (map_sum_delete _ _ _ _ Hkm) in Hle. lia.
Qed.

Lemma memory_sub mp mp' : pool_ok mp -> pool_ok mp' -> sub_pool mp' mp -> memory_usage mp' <= memory_usage mp.
Proof.
  intros Hok Hok' Hsub. rewrite !memory_usage_sum by done. apply map_sum_sub; [|by apply map_subseteq_spec].
  intros k e He. destruct (po_inputs _ Hok k e He) as (_ & _ & Hs). unfold cost_of, entry_cost, HASHMAP_ENTRY_OVERHEAD, len. nia.
Qed.

Lemma expire_inv U ids : forall mp,
  pool_ok mp -> parents_ok U mp ->
  let mp' := foldl (fun mp txid => (remove_with_descendants mp txid).1) mp ids in
  pool_ok mp' /\ parents_ok U mp' /\ max_memory_bytes mp' = max_memory_bytes mp /\ sub_pool mp' mp.
Proof.
  induction ids as [|id ids IH]; intros mp Hok Hp; cbn [foldl]; [by split_and!; [..|intros ?]|].
  destruct (remove_with_descendants_spec U mp id Hok (parents_ok_but U mp [id] Hp)) as (Q1 & Q2 & Q3 & Q4 & _).
  destruct (IH _ Q1 Q2) as (R1 & R2 & R3 & R4). split_and!; [done|done|by etransitivity|]. intros t e He. by apply Q4, R4.
Qed.
End Accept.
