(* ===== verification/Template.v ===== *)
(** * Block templates

    [Mempool::select_for_block] yields transactions that can be mined in
    order, within the weight and count budgets, and leaves out nothing that
    still fits and is ready. *)

From Stdlib Require Import ZArith Lia.
From stdpp Require Import base option numbers list gmap strings.
From S2P Require Import Prelude F64 Bytes Types Validation Mempool MempoolAccept MempoolProofs AcceptProofs.

Section Select.
Context `{TxLib} `{HP : PoolIter} `{HPL : !PoolIterLaws}.
Variables (mp : Mempool) (max_weight : Z) (max_count : nat) (all : list MempoolEntry).

Hypothesis budget : 0 <= max_weight.
Hypothesis weights : forall e, e ∈ all -> 0 <= me_weight e /\ max_weight + me_weight e < 2 ^ 64.

Definition weight_sum (l : list MempoolEntry) : Z := foldr (fun e n => me_weight e + n) 0 l.

Lemma weight_sum_snoc l e : weight_sum (l ++ [e]) = weight_sum l + me_weight e.
Proof. induction l as [|x l IH]; cbn; [lia|]. unfold weight_sum in *. cbn. lia. Qed.

(** Every in-mempool parent is in [ids]. *)
Definition ready (ids : gset hash256) (e : MempoolEntry) : bool :=
  forallb (fun i => let parent := op_txid (previous_output i) in
    negb (bool_decide (is_Some (txs mp !! parent))) || bool_decide (parent ∈ ids)) (input (me_tx e)).

Lemma ready_spec ids e :
  ready ids e = true <->
  forall o, o ∈ spends e -> is_Some (txs mp !! op_txid o) -> op_txid o ∈ ids.
Proof.
  unfold ready. rewrite forallb_forall. setoid_rewrite <- list_elem_of_In. split.
  - intros Hr o (i & -> & Hi)%list_elem_of_fmap Hs. specialize (Hr i Hi). apply orb_true_iff in Hr as [Hr|Hr].
    + apply negb_true_iff, bool_decide_eq_false in Hr. done.
    + by apply bool_decide_eq_true in Hr.
  - intros Hr i Hi. apply orb_true_iff. destruct (decide (is_Some (txs mp !! op_txid (previous_output i)))) as [Hs|Hs].
    + right. apply bool_decide_eq_true, Hr; [|done]. apply list_elem_of_fmap. eauto.
    + left. by rewrite bool_decide_eq_false_2.
Qed.

Definition parents_first (l : list MempoolEntry) : Prop :=
  forall pre e suf o, l = pre ++ e :: suf -> o ∈ spends e -> is_Some (txs mp !! op_txid o) -> op_txid o ∈ map me_txid pre.

Lemma parents_first_snoc l e :
  parents_first l -> (forall o, o ∈ spends e -> is_Some (txs mp !! op_txid o) -> op_txid o ∈ map me_txid l) -> parents_first (l ++ [e]).
Proof.
  intros Hl He pre x suf o Heq Ho Hs. destruct suf as [|y suf _] using rev_ind.
  - apply app_inj_tail in Heq as [-> ->]. by apply He.
  - rewrite app_comm_cons, app_assoc in Heq. apply app_inj_tail in Heq as [-> _]. by eapply Hl.
Qed.

Definition no_room (t : Template) (e : MempoolEntry) : Prop :=
  (max_count <= length (selected t))%nat \/ max_weight < total_weight t + me_weight e.

Record tpl_inv (t : Template) (pend : list MempoolEntry) : Prop := {
  tp_nodup : NoDup (map me_txid (selected t ++ pend));
  tp_ids id : id ∈ selected_ids t <-> id ∈ map me_txid (selected t);
  tp_count : (length (selected t) <= max_count)%nat;
  tp_weight : total_weight t = weight_sum (selected t) /\ 0 <= total_weight t <= max_weight;
  tp_order : parents_first (selected t);
  tp_sub e : e ∈ selected t ++ pend -> e ∈ all;
  tp_rest e : e ∈ all -> e ∈ selected t \/ e ∈ pend \/ no_room t e }.

(** One candidate. *)
Lemma consider_spec t kept e rest :
  tpl_inv t (kept ++ e :: rest) ->
  exists t' kept', consider mp max_weight max_count (t, kept) e = (t', kept') /\ tpl_inv t' (kept' ++ rest) /\
    (t' = t /\ (kept' = kept \/ kept' = kept ++ [e] /\ ready (selected_ids t) e = false) \/
     length (selected t') = S (length (selected t)) /\ kept' = kept).
Proof.
  intros [I1 I2 I3 [I4 I5] I6 I7 I8]. assert (Hin : e ∈ all) by (apply I7; rewrite !elem_of_app, elem_of_cons; auto).
  assert (Hmid : map me_txid (selected t ++ kept ++ e :: rest) ≡ₚ me_txid e :: map me_txid (selected t ++ kept ++ rest)).
  { rewrite !map_app, map_cons. solve_Permutation. }
  destruct (weights e Hin) as [Hw0 Hw1]. unfold consider. rewrite (wrap_small 64 (total_weight t + _)) by (unfold fits; lia).
  destruct (_ || _) eqn:Hroom.
  - exists t, kept. split; [done|]. split; [|by left; auto].
    assert (Hno : no_room t e).
    { apply orb_true_iff in Hroom as [Hc|Hc]; [left; by apply Nat.leb_le in Hc|right]. rewrite Z.gtb_ltb in Hc. by apply Z.ltb_lt in Hc. }
    constructor; [|done..| | ].
    + rewrite Hmid in I1. by apply NoDup_cons in I1 as [_ ?].
    + intros x Hx. apply I7. rewrite !elem_of_app in *. rewrite elem_of_cons. tauto.
    + intros x Hx. destruct (I8 x Hx) as [?|[Hp|?]]; auto. rewrite elem_of_app, elem_of_cons in Hp. rewrite elem_of_app.
      destruct Hp as [?|[->|?]]; auto.
  - apply orb_false_iff in Hroom as [Hc Hw]. apply Nat.leb_gt in Hc. rewrite Z.gtb_ltb in Hw. apply Z.ltb_ge in Hw.
    change (forallb _ (input (me_tx e))) with (ready (selected_ids t) e). destruct (ready (selected_ids t) e) eqn:Hr.
    + eexists _, kept. split; [done|]. split; [|right; cbn; rewrite length_app; cbn; split; [lia|done]].
      constructor; cbn [selected selected_ids total_weight].
      * rewrite Hmid in I1. rewrite <- app_assoc, map_app. cbn [app map]. by rewrite <- Permutation_middle, <- map_app.
      * intros id. rewrite map_app. cbn [map]. rewrite elem_of_union, elem_of_singleton, I2, elem_of_app, list_elem_of_singleton. tauto.
      * rewrite length_app. cbn. lia.
      * rewrite weight_sum_snoc. split; [lia|lia].
      * apply parents_first_snoc; [done|]. intros o Ho Hs. apply I2. by eapply ready_spec.
      * intros x Hx. apply I7. rewrite !elem_of_app in *. rewrite elem_of_cons. rewrite list_elem_of_singleton in Hx. tauto.
      * intros x Hx. unfold no_room. cbn [selected total_weight]. rewrite length_app, elem_of_app, list_elem_of_singleton.
        destruct (I8 x Hx) as [?|[Hp|Hn]]; [auto| |right; right; unfold no_room in Hn; lia].
        rewrite elem_of_app, elem_of_cons in Hp. rewrite elem_of_app. tauto.
    + exists t, (kept ++ [e]). split; [done|]. split; [|left; auto]. by rewrite <- app_assoc.
Qed.

(** One pass: what stays was not ready, unless something was selected. *)
Lemma pass_spec rest : forall t kept t0,
  tpl_inv t (kept ++ rest) ->
  (length (selected t0) <= length (selected t))%nat ->
  (length (selected t) = length (selected t0) -> t = t0 /\ Forall (fun e => ready (selected_ids t0) e = false) kept) ->
  let '(t', kept') := foldl (consider mp max_weight max_count) (t, kept) rest in
  tpl_inv t' kept' /\ (length (selected t0) <= length (selected t'))%nat /\
  (length kept' + length (selected t') <= length kept + length rest + length (selected t))%nat /\
  (length (selected t') = length (selected t0) -> t' = t0 /\ Forall (fun e => ready (selected_ids t0) e = false) kept').
Proof.
  induction rest as [|e rest IH]; intros t kept t0 Hi Hle Hsame; cbn [foldl].
  { rewrite app_nil_r in Hi. by split_and!; [| |cbn; lia|]. }
  destruct (consider_spec t kept e rest Hi) as (t' & kept' & -> & Hi' & Hstep).
  assert (Hk : (length kept' + length (selected t') <= length kept + 1 + length (selected t))%nat).
  { destruct Hstep as [[-> [->|[-> _]]]|[-> ->]]; rewrite ?length_app; cbn; lia. }
  specialize (IH t' kept' t0 Hi').
  destruct (foldl _ _ _) as [t'' kept'']. destruct IH as (Q1 & Q2 & Q3 & Q4).
  - destruct Hstep as [[-> _]|[-> _]]; lia.
  - intros Hl. destruct Hstep as [[-> Hk']|[Hl' ->]]; [|lia]. destruct (Hsame Hl) as [-> Hf]. split; [done|].
    destruct Hk' as [->|[-> Hr]]; [done|]. apply Forall_app. split; [done|by constructor].
  - split_and!; [done|done|cbn [length]; lia|done].
Qed.

(** Enough passes: the result is final. *)
Definition complete (t : Template) : Prop :=
  forall e, e ∈ all -> e ∈ selected t \/ no_room t e \/ ready (selected_ids t) e = false.

Lemma select_loop_spec fuel : forall t cands,
  (length cands < fuel)%nat -> tpl_inv t cands ->
  let t' := select_loop mp max_weight max_count fuel t cands in (exists pend, tpl_inv t' pend) /\ complete t'.
Proof.
  induction fuel as [|fuel IH]; intros t cands Hf Hi; [lia|]. cbn [select_loop].
  pose proof (pass_spec cands t [] t Hi ltac:(done) ltac:(done)) as Hp.
  destruct (foldl _ _ _) as [t' kept]. destruct Hp as (Q1 & Q2 & Q3 & Q4). cbn [length] in Q3.
  destruct (_ || _) eqn:Hend; cbv zeta.
  - split; [by exists kept|]. intros e He. destruct (tp_rest _ _ Q1 e He) as [?|[Hk|?]]; auto.
    apply orb_true_iff in Hend as [Hl|Hnil].
    + apply Nat.eqb_eq in Hl. destruct (Q4 Hl) as [-> Hfa]. right. right. rewrite Forall_forall in Hfa. by apply Hfa.
    + apply bool_decide_eq_true in Hnil as ->. by apply not_elem_of_nil in Hk.
  - apply orb_false_iff in Hend as [Hl _]. apply Nat.eqb_neq in Hl. apply IH; [lia|done].
Qed.
End Select.

Lemma insert_sorted_perm x l : insert_sorted x l ≡ₚ x :: l.
Proof. induction l as [|y l IH]; cbn; [done|]. destruct (before x y); [done|]. rewrite IH. solve_Permutation. Qed.

Lemma sort_candidates_perm l : sort_candidates l ≡ₚ l.
Proof.
  assert (Hgen : forall acc, foldl (fun acc x => insert_sorted x acc) acc l ≡ₚ acc ++ l); [|apply (Hgen [])].
  induction l as [|x l IH]; intros acc; cbn; [by rewrite app_nil_r|]. rewrite IH, insert_sorted_perm. solve_Permutation.
Qed.

Section Valid.
Context `{TxLib} `{HP : PoolIter} `{HPL : !PoolIterLaws}.

Lemma pool_values_nodup mp : pool_ok mp -> NoDup (map me_txid (map snd (iter_pool (txs mp)))).
Proof.
  intros Hok. rewrite iter_pool_perm. replace (map me_txid (map snd (map_to_list (txs mp)))) with (map_to_list (txs mp)).*1; [apply NoDup_fst_map_to_list|].
  rewrite map_map. apply list_fmap_ext. intros i [t e] Hi. apply list_elem_of_lookup_2, elem_of_map_to_list in Hi. symmetry. by apply (po_key _ Hok).
Qed.

(** The candidates: the entries that are final for the block. *)
Definition candidates (mp : Mempool) (height mtp : Z) : list MempoolEntry :=
  sort_candidates (filter (fun e => final_for_block e height mtp = true) (map snd (iter_pool (txs mp)))).

Lemma elem_of_candidates mp height mtp e :
  e ∈ candidates mp height mtp <-> (exists t, txs mp !! t = Some e) /\ final_for_block e height mtp = true.
Proof. unfold candidates. rewrite sort_candidates_perm, list_elem_of_filter, elem_of_pool_values. tauto. Qed.

Lemma candidates_nodup mp height mtp : pool_ok mp -> NoDup (map me_txid (candidates mp height mtp)).
Proof.
  intros Hok. unfold candidates. rewrite sort_candidates_perm. pose proof (pool_values_nodup mp Hok) as Hnd. revert Hnd.
  generalize (map snd (iter_pool (txs mp))) as l. induction l as [|e l IH]; [done|]. cbn [map]. intros [Hn Hnd]%NoDup_cons.
  rewrite filter_cons. destruct (decide _); [|by apply IH]. cbn [map]. apply NoDup_cons. split; [|by apply IH].
  intros (x & Hx & [_ Hin]%list_elem_of_filter)%list_elem_of_fmap. apply Hn, list_elem_of_fmap. eauto.
Qed.

Lemma select_spec mp height mtp max_weight max_count :
  pool_ok mp -> 0 <= max_weight ->
  (forall t e, txs mp !! t = Some e -> 0 <= me_weight e /\ max_weight + me_weight e < 2 ^ 64) ->
  let all := candidates mp height mtp in
  exists t pend, select_for_block mp height mtp max_weight max_count = selected t /\
    tpl_inv mp max_weight max_count all t pend /\ complete mp max_weight max_count all t.
Proof.
  intros Hok Hb Hw all. set (t0 := mkTemplate [] ∅ 0).
  destruct (select_loop_spec mp max_weight max_count all) with (fuel := S (length all)) (t := t0) (cands := all) as [[pend Hi] Hc]; [|lia| |].
  - intros e He. apply elem_of_candidates in He as [[t Ht] _]. by eapply Hw.
  - constructor; cbn [t0 selected selected_ids total_weight app].
    + by apply candidates_nodup.
    + intros id. cbn. rewrite elem_of_nil. set_solver.
    + cbn. lia.
    + cbn. lia.
    + intros pre e suf o Heq. by destruct pre.
    + done.
    + auto.
  - eexists _, pend. split; [done|]. split; [exact Hi|exact Hc].
Qed.
End Valid.
