(* ===== verification/PoolTheorems.v ===== *)
(** * The mempool beside the chain

    The pool stays consistent through acceptance, expiry, removal and whatever
    the chain does, and with the UTXO set as long as it is told of the blocks;
    replacement pays for what it evicts; block templates follow the budgets and
    the dependencies; the file written at shutdown is read back. *)

From Stdlib Require Import ZArith Lia.
From stdpp Require Import base option numbers list gmap strings.
From S2P Require Import Prelude F64 Bytes Types ScriptBytes Signatures VerifyScript Consensus Validation ValidationProofs Store HeaderIndex TxIndex BlockStore Bip110 UtxoSet UtxoProofs ChainState ChainProofs ReorgProofs RelayPolicy Mempool MempoolAccept MempoolProofs AcceptProofs Template.

Section Pool.
Context `{Hashes} `{ScriptLib} `{PolicyLib} `{SigLib} `{TxLib} `{OutPointOrd} `{HR : RocksDb} `{HL : !RocksLaws} `{HW : !RocksWal}
  `{HeaderCodec} `{HM : MapIter} `{HMI : !MapIterLaws} `{BlockFiles} `{HRun : Runtime} `{HRL : !RuntimeLaws} `{TxSizes}
  `{HS : SizeOf} `{HP : PoolIter} `{HPL : !PoolIterLaws} `{HT : TxCodec}.

(** ** Connected blocks *)

Lemma spec_insert_fold_some l : forall (m : coin_map) k,
  is_Some (m k) \/ k ∈ map (fun i => outpoint_key i.1) l -> is_Some (foldl spec_insert m l k).
Proof.
  induction l as [|i l IH]; intros m k Hk; cbn [foldl].
  - destruct Hk as [?|Hk]; [done|by apply not_elem_of_nil in Hk].
  - apply IH. unfold spec_insert. case_bool_decide as Hi; [by left; eexists|]. destruct Hk as [?|Hk]; [by left|right].
    cbn [map] in Hk. apply elem_of_cons in Hk as [Hk|Hk]; [by destruct Hi|done].
Qed.

(** The pool spends no OP_RETURN output of the block. *)
Definition spendable (mp : Mempool) (block : Block) : Prop :=
  forall t e o tx out, txs mp !! t = Some e -> o ∈ spends e -> tx ∈ txdata block -> op_txid o = compute_txid tx ->
    output tx !! Z.to_nat (op_vout o) = Some out -> script_is_op_return (script_pubkey out) = false.

Lemma block_spends_elem l o :
  o ∈ block_spends (imap pair l) -> exists tx i, tx ∈ l /\ i ∈ input tx /\ previous_output i = o.
Proof.
  unfold block_spends. rewrite list_elem_of_In, in_concat. intros (x & Hx & Ho). apply in_map_iff in Hx as ([n tx] & <- & Htx).
  destruct (n =? 0)%nat; [done|]. apply in_map_iff in Ho as (i & Hi & Hin).
  apply list_elem_of_In, list_elem_of_lookup in Htx as [j Hj]. rewrite list_lookup_imap in Hj.
  destruct (l !! j) eqn:Hl; [|done]. injection Hj as <- <-. exists t, i. split_and!; [by eapply list_elem_of_lookup_2|by apply list_elem_of_In|done].
Qed.

Lemma created_output_elem tx o out :
  op_txid o = compute_txid tx -> fits 32 (op_vout o) -> output tx !! Z.to_nat (op_vout o) = Some out ->
  script_is_op_return (script_pubkey out) = false -> o ∈ created_outputs tx.
Proof.
  intros Hid Hv Hout Hop. unfold created_outputs. apply list_elem_of_omap. exists (Z.to_nat (op_vout o), out). split.
  - apply list_elem_of_lookup. exists (Z.to_nat (op_vout o)). by rewrite list_lookup_imap, Hout.
  - rewrite Hop, <- Hid, Z2Nat.id by (unfold fits in Hv; lia). rewrite wrap_small by done. by destruct o.
Qed.

(** The coins after a connected block, seen from the pool. *)
Lemma connect_applied c c' M now block height raw txids mp :
  utxo_inv (utxo_set c) -> represents M (coins (utxo_set c)) -> total M <= MAX_MONEY -> block_wf c block height ->
  connect_block_with_raw now block height raw c = (c', Ok txids) -> pool_ok mp -> spendable mp block ->
  txids = map compute_txid (txdata block) /\ utxo_inv (utxo_set c') /\
  block_applied (fun o => is_Some (coins (utxo_set c) (outpoint_key o))) (fun o => is_Some (coins (utxo_set c') (outpoint_key o))) mp block.
Proof.
  intros Hu Hr Ht Hwf Hrun Hok Hsp. pose proof (connect_spec c M now block height raw Hu Hr Ht Hwf) as Hspec.
  unfold wp in Hspec. rewrite Hrun in Hspec. destruct (Hspec _ eq_refl) as (-> & _ & _ & _ & b & Hbi & Hu' & Hc & _).
  destruct Hbi as (W & sp & intra & Hi & Hins & Hrem & _). split_and!; [done|done|].
  intros t e o He Ho Hsrc Hun. rewrite Hc. unfold spec_batch. rewrite spec_remove_fold.
  assert (Hoo : outpoint_ok o) by (destruct (po_inputs _ Hok t e He) as (_ & Hf & _); by eapply Forall_forall).
  rewrite bool_decide_eq_false_2.
  - apply spec_insert_fold_some. destruct Hsrc as [HU|(tx & Htx & Hid & Hv)]; [by left|right].
    apply lookup_lt_is_Some in Hv as [out Hout]. rewrite Hins, <- map_map. apply list_elem_of_fmap. exists o. split; [done|].
    apply elem_of_coins_outputs, list_elem_of_In, in_concat. exists (created_outputs tx). split.
    + apply in_map, list_elem_of_In. by rewrite elem_of_reverse.
    + apply list_elem_of_In. eapply created_output_elem; [done|by destruct Hoo as (_ & _ & ?)|done|by eapply Hsp].
  - intros (o' & Heq & Ho')%list_elem_of_fmap. apply outpoint_key_inj in Heq as <-; [|done|by eapply removal_ok].
    rewrite Hrem in Ho'. apply block_spends_elem in Ho' as (tx & i & Htx & Hii & Hpo). by apply (Hun tx i).
Qed.

(** ** Reachable pools *)

(** Entries with the id of a transaction of the block have its outputs. *)
Definition same_outputs (mp : Mempool) (block : Block) : Prop :=
  forall tx e, tx ∈ txdata block -> txs mp !! compute_txid tx = Some e -> output (me_tx e) = output tx.

(** The states of a node's pool and UTXO set: acceptance with whichever
    signature cache, expiry, removals, connected blocks of which the pool is
    told, and any other change of the UTXO set, such as disconnections, replayed
    blocks and blocks submitted over RPC, of which it is not.  The flag says
    that the latter has not happened. *)
Inductive reach : bool -> MpEnv -> Prop :=
| reach_new u sig max : utxo_inv u -> 0 <= max -> reach true (mkEnv (pool_new max) u sig)
| reach_add linked s s' r now tx flags params chain :
    reach linked s -> tx_ok tx -> add_transaction now tx flags params chain s = (s', r) -> reach linked s'
| reach_sig linked s sig : reach linked s -> reach linked (set_sig s sig)
| reach_expire linked s now : reach linked s -> reach linked (set_pool s (expire_old_transactions now (pool s)))
| reach_evict linked s t : reach linked s -> reach linked (set_pool s (remove_with_descendants (pool s) t).1)
| reach_connect linked s c c' M now block height raw txids sig :
    reach linked s -> utxo_set c = mp_utxo s -> represents M (coins (utxo_set c)) -> total M <= MAX_MONEY ->
    block_wf c block height -> spendable (pool s) block -> same_outputs (pool s) block ->
    connect_block_with_raw now block height raw c = (c', Ok txids) ->
    reach linked (mkEnv (remove_for_block (pool s) block txids) (utxo_set c') sig)
| reach_remove linked s u block sig :
    reach linked s -> utxo_inv u -> same_outputs (pool s) block ->
    reach false (mkEnv (remove_for_block (pool s) block (map compute_txid (txdata block))) u sig)
| reach_chain linked s u sig : reach linked s -> utxo_inv u -> reach false (mkEnv (pool s) u sig).

Lemma reach_inv linked s :
  TotalOrder outpoint_le -> 0 <= size_of_txid /\ 0 <= size_of_entry /\ 0 <= size_of_slot -> reach linked s -> pool_inv linked s.
Proof.
  intros Hto Hsz. induction 1 as [u sig max Hu Hmax|linked s s' r now tx flags params chain _ IH Htx Hrun|linked s sig _ IH|linked s now _ IH|linked s t _ IH
    |linked s c c' M now block height raw txids sig _ IH Hcu Hr Ht Hwf Hsp Hout Hrun|linked s u block sig _ IH Hu' Hout|linked s u sig _ IH Hu'].
  - split_and!; [done|apply pool_new_ok| |done]. intros t e o. cbn. by rewrite lookup_empty.
  - by eapply add_transaction_inv.
  - done.
  - destruct IH as (Hu & Hok & Hp & Hm).
    destruct (expire_inv (available linked s) (map fst (filter (fun x => sat_sub now (me_time x.2) > DEFAULT_MEMPOOL_EXPIRY) (iter_pool (txs (pool s))))) _ Hok Hp) as (Q1 & Q2 & Q3 & Q4).
    split_and!; [done|done|done|]. cbn [set_pool pool]. unfold expire_old_transactions. rewrite Q3.
    etransitivity; [|exact Hm]. by apply memory_sub.
  - destruct IH as (Hu & Hok & Hp & Hm).
    destruct (remove_with_descendants_spec _ (pool s) t Hok (parents_ok_but _ _ _ Hp)) as (Q1 & Q2 & Q3 & Q4 & _).
    split_and!; [done|done|done|]. cbn [set_pool pool]. rewrite Q3. etransitivity; [|exact Hm]. by apply memory_sub.
  - destruct IH as (Hu & Hok & Hp & Hm). rewrite <- Hcu in Hu.
    destruct (connect_applied c c' M now block height raw txids (pool s) Hu Hr Ht Hwf Hrun Hok Hsp) as (-> & Hu' & Hap).
    rewrite Hcu in Hap.
    destruct (remove_for_block_spec (available linked s) (available linked (mkEnv (pool s) (utxo_set c') None)) (pool s) block Hok Hp Hout) as (Q1 & Q2 & Q3 & Q4).
    { intros t e o He Ho Hsrc Hno Hl. apply (Hap t e o He Ho); [|done]. destruct Hsrc as [Hsrc|Hsrc]; [left; by apply Hsrc|by right]. }
    split_and!; [done|done|done|]. cbn [pool]. rewrite Q4. etransitivity; [|exact Hm]. by apply memory_sub.
  - destruct IH as (Hu & Hok & Hp & Hm).
    destruct (remove_for_block_spec (available linked s) (available false (mkEnv (pool s) u None)) (pool s) block Hok Hp Hout) as (Q1 & Q2 & Q3 & Q4); [done|].
    split_and!; [done|done|done|]. cbn [pool]. rewrite Q4. etransitivity; [|exact Hm]. by apply memory_sub.
  - destruct IH as (Hu & Hok & Hp & Hm). split_and!; [done|done|by left|done].
Qed.

(** C8: The mempool is consistent at all times: after any sequence of accepted
    and rejected transactions, expiries, removals and changes of the chain,
    every entry is filed under its txid, no two entries spend the same outpoint
    and the index of spent outpoints is exact, and the memory accounted for is
    within the budget.  As long as the pool is told of every connected block
    and nothing is disconnected, every input is a coin of the UTXO set or an
    output of another entry; this does not cover blocks connected by the
    submitblock call and by replays, which do not tell it.  Those blocks are as
    in the theorem on histories, and the pool spends no OP_RETURN output of
    them.  Transactions are decoded ones, a txid determines the outputs, sizes
    are not negative and the order on outpoints is total. *)
Theorem mempool_always_consistent linked s :
  TotalOrder outpoint_le -> 0 <= size_of_txid /\ 0 <= size_of_entry /\ 0 <= size_of_slot -> reach linked s ->
  (forall t e, txs (pool s) !! t = Some e -> compute_txid (me_tx e) = t) /\
  (forall o t, spent_outpoints (pool s) !! o = Some t <-> exists e, txs (pool s) !! t = Some e /\ o ∈ spends e) /\
  (memory_usage (pool s) = map_sum cost_of (txs (pool s)) /\ memory_usage (pool s) <= max_memory_bytes (pool s)) /\
  (linked = true -> forall t e o, txs (pool s) !! t = Some e -> o ∈ spends e ->
    is_Some (coins (mp_utxo s) (outpoint_key o)) \/ is_Some (parent_output (pool s) o)).
Proof.
  intros Hto Hsz Hreach. destruct (reach_inv linked s Hto Hsz Hreach) as (_ & Hok & Hp & Hm).
  split_and!; [intros t e He; by apply (po_key _ Hok)|apply (po_index _ Hok)|by apply memory_usage_sum|done|].
  intros Hl t e o He Ho. destruct (Hp t e o He Ho) as [Ha|?]; [left; by apply Ha|by right].
Qed.

(** ** Replacement *)

Lemma max_rate_above l : forall m x,
  (f64_le x m = true \/ exists e, e ∈ l /\ f64_le x (me_fee_rate e) = true) ->
  f64_le x (foldl (fun m e => f64_max m (me_fee_rate e)) m l) = true.
Proof.
  assert (Hnan : forall x y, f64_le x y = true -> f64_is_nan y = false).
  { intros x y (kx & ky & _ & Hy & _)%f64_le_key. apply f64_key_nan. by eexists. }
  induction l as [|e l IH]; intros m x Hx; cbn [foldl].
  - destruct Hx as [?|(? & ?%not_elem_of_nil & _)]; done.
  - apply IH. destruct (f64_max_spec m (me_fee_rate e)) as [Hl Hr]. destruct Hx as [Hx|(e' & [->|Hin]%elem_of_cons & Hx)].
    + left. eapply f64_le_trans; [exact Hx|]. by eapply Hl, Hnan.
    + left. eapply f64_le_trans; [exact Hx|]. by eapply Hr, Hnan.
    + right. eauto.
Qed.

Definition fees_of (mp : Mempool) (ids : list hash256) : Z :=
  foldr (fun e n => me_fee e + n) 0 (omap (fun id => txs mp !! id) ids).

Lemma fee_sum_exact l : forall acc,
  0 <= acc -> Forall (fun e => 0 <= me_fee e <= MAX_MONEY) l -> acc + len l * MAX_MONEY < 2 ^ 64 ->
  foldl (fun s e => u64 (s + me_fee e)) acc l = acc + foldr (fun e n => me_fee e + n) 0 l.
Proof.
  induction l as [|e l IH]; intros acc Hacc Hall Hb; cbn [foldl foldr]; [lia|].
  apply Forall_cons in Hall as [He Hall]. rewrite len_cons in Hb. assert (0 <= len l * MAX_MONEY) by (unfold len, MAX_MONEY; lia).
  rewrite wrap_small by (unfold fits; lia). rewrite IH; [lia|lia|done|lia].
Qed.

Lemma length_omap_le {A B} (f : A -> option B) l : (length (omap f l) <= length l)%nat.
Proof. induction l as [|x l IH]; cbn; [done|]. destruct (f x); cbn; lia. Qed.

Lemma check_replacement_spec mp evict fee rate :
  (forall t e, txs mp !! t = Some e -> 0 <= me_fee e <= MAX_MONEY) -> (length evict <= MAX_RBF_REPLACEMENTS)%nat ->
  check_replacement mp evict fee rate = Ok tt ->
  (evict <> [] -> fees_of mp evict < fee) /\
  forall id e, id ∈ evict -> txs mp !! id = Some e -> f64_le rate (me_fee_rate e) = false.
Proof.
  intros Hfees Hfew. unfold check_replacement. destruct evict as [|x evict]; [by intros _; split; [|intros id e ?%not_elem_of_nil]|].
  set (ids := x :: evict) in *. set (l := omap (fun id => txs mp !! id) ids).
  destruct (fee <=? _) eqn:Hfee; [done|]. cbn [guard_err mbind result_bind]. destruct (f64_le rate _) eqn:Hrate; [done|]. intros _. split.
  - intros _. apply Z.leb_gt in Hfee. rewrite fee_sum_exact in Hfee; [done|done| |].
    + apply Forall_forall. intros e (id & _ & He)%list_elem_of_omap. by eapply Hfees.
    + assert (len l <= 100); [|unfold MAX_MONEY; lia]. unfold len. pose proof (length_omap_le (fun id => txs mp !! id) ids). unfold l, MAX_RBF_REPLACEMENTS in *. lia.
  - intros id e Hid He. destruct (f64_le rate (me_fee_rate e)) eqn:Hle; [|done].
    rewrite max_rate_above in Hrate; [done|]. right. exists e. split; [|done]. apply list_elem_of_omap. eauto.
Qed.

(** C10: Replacement pays: when a new transaction is accepted, the entries that
    spend one of its inputs had signalled replacement and are gone with all
    their descendants, at most 100 of them; its fee, the value it spends less
    its outputs, is above the sum of their fees, and its fee rate is above
    each of theirs. *)
Theorem replacement_pays linked s s' now tx flags params chain txid :
  TotalOrder outpoint_le -> reach linked s -> 0 <= size_of_txid /\ 0 <= size_of_entry /\ 0 <= size_of_slot -> tx_ok tx ->
  (forall t e, txs (pool s) !! t = Some e -> 0 <= me_fee e <= MAX_MONEY) ->
  txs (pool s) !! compute_txid tx = None ->
  add_transaction now tx flags params chain s = (s', Ok txid) ->
  exists entry evict,
    txs (pool s') !! txid = Some entry /\ me_tx entry = tx /\
    me_fee entry = u64 (input_value s (input tx)) - sum_outputs tx /\
    (forall i t, i ∈ input tx -> spent_outpoints (pool s) !! previous_output i = Some t ->
      t ∈ evict /\ exists e, txs (pool s) !! t = Some e /\ signals_rbf (me_tx e) = true) /\
    (forall t x, t ∈ evict -> x ∈ children_of (pool s) t -> x ∈ evict) /\
    (length evict <= MAX_RBF_REPLACEMENTS)%nat /\
    (evict <> [] -> fees_of (pool s) evict < me_fee entry) /\
    forall t, t ∈ evict -> txs (pool s') !! t = None /\
      exists e, txs (pool s) !! t = Some e /\ f64_le (me_fee_rate entry) (me_fee_rate e) = false.
Proof.
  intros Hto Hreach Hsz Htx Hfees Hnew Hrun. destruct (reach_inv linked s Hto Hsz Hreach) as (Hu & Hok & _).
  destruct (add_transaction_cases _ _ _ _ _ _ _ _ Hto Htx Hu Hok Hrun) as [([? ?] & _)|[[_ [? ?]]|(_ & Hid & evict & t & entry & Ha & _ & Hp)]];
    [congruence|done|]. injection Hid as ->.
  destruct Ha as (Had & Hti & _ & [R1 R0 R2 R3 [R4 _] _ R6]). exists entry, evict.
  destruct (check_replacement_spec _ _ _ _ Hfees R2 R6) as [Hpay Hrate].
  destruct (admit_entry_fields now evict t entry (pool s)) as (F1 & _).
  destruct (remove_all_spec (evict ++ trimmed t) (pool s) Hok) as (_ & _ & Htxb & _).
  destruct Had as [[A1 [A2 _]] _ _ _ _ A6]. rewrite Hp, F1, A2. split_and!; [apply lookup_insert_eq|done|done| |done|done|done|].
  - intros i x Hi Hx. split; [apply (A6 (previous_output i))|apply (R3 (previous_output i))]; try done;
      rewrite A1; apply list_elem_of_fmap; eauto.
  - intros x Hx. destruct (R1 x Hx) as [e He]. split; [|eauto]. rewrite lookup_insert_ne by congruence. rewrite Htxb.
    rewrite bool_decide_eq_true_2; [done|]. apply elem_of_app. by left.
Qed.

(** ** Templates *)

Lemma selected_unique mp (l : list MempoolEntry) :
  pool_ok mp -> NoDup (map me_txid l) -> (forall e, e ∈ l -> exists t, txs mp !! t = Some e) -> NoDup (concat (map (fun e => spends e) l)).
Proof.
  intros Hok. induction l as [|e l IH]; intros Hnd Hin; cbn [map concat]; [constructor|]. cbn [map] in Hnd. apply NoDup_cons in Hnd as [Hn Hnd].
  destruct (Hin e ltac:(by left)) as [t Ht]. destruct (po_inputs _ Hok t e Ht) as [Hs _]. apply NoDup_app. split_and!; [done| |].
  - intros o Ho Ho'. apply list_elem_of_In, in_concat in Ho' as (x & Hx & Ho'). apply in_map_iff in Hx as (e' & <- & He').
    apply list_elem_of_In in He', Ho'. destruct (Hin e' ltac:(by right)) as [t' Ht'].
    assert (t = t') as <- by exact (pool_ok_unique mp t e t' e' o Hok Ht Ht' Ho Ho').
    apply Hn, list_elem_of_fmap. exists e'. split; [congruence|done].
  - apply IH; [done|]. intros x Hx. apply Hin. by right.
Qed.

(** C9: What is selected for a block template fits together: the entries are
    final for the block, within the weight and count budgets, no outpoint is
    spent twice, and a parent in the pool is selected before its child; as long
    as the pool is told of every connected block and nothing is disconnected,
    each input is a coin of the UTXO set or an output of an entry selected
    before.  An entry that is final and left out has an unselected parent in the
    pool or does not fit.  The states are those of the theorem on the mempool;
    weights are not negative and do not overflow.  The code does not check here
    that the entries could be confirmed: an immature coinbase spend can be
    selected. *)
Theorem template_valid linked s height mtp max_weight max_count :
  TotalOrder outpoint_le -> 0 <= size_of_txid /\ 0 <= size_of_entry /\ 0 <= size_of_slot -> reach linked s -> 0 <= max_weight ->
  (forall t e, txs (pool s) !! t = Some e -> 0 <= me_weight e /\ max_weight + me_weight e < 2 ^ 64) ->
  let l := select_for_block (pool s) height mtp max_weight max_count in
  (length l <= max_count)%nat /\ weight_sum l <= max_weight /\ NoDup (concat (map (fun e => spends e) l)) /\
  (forall e, e ∈ l -> final_for_block e height mtp = true) /\
  (forall pre e suf o, l = pre ++ e :: suf -> o ∈ spends e -> is_Some (txs (pool s) !! op_txid o) ->
    exists p, p ∈ pre /\ compute_txid (me_tx p) = op_txid o) /\
  (linked = true -> forall pre e suf o, l = pre ++ e :: suf -> o ∈ spends e ->
    is_Some (coins (mp_utxo s) (outpoint_key o)) \/
    exists p, p ∈ pre /\ compute_txid (me_tx p) = op_txid o /\ is_Some (output (me_tx p) !! Z.to_nat (op_vout o))) /\
  (forall t e, txs (pool s) !! t = Some e -> final_for_block e height mtp = true -> e ∉ l ->
    (max_count <= length l)%nat \/ max_weight < weight_sum l + me_weight e \/
    exists o p, o ∈ spends e /\ txs (pool s) !! op_txid o = Some p /\ p ∉ l).
Proof.
  intros Hto Hsz Hreach Hb Hw. destruct (reach_inv linked s Hto Hsz Hreach) as (_ & Hok & Hp & _).
  destruct (select_spec (pool s) height mtp max_weight max_count Hok Hb Hw) as (t & pend & Hl & [I1 I2 I3 [I4 I5] I6 I7 I8] & Hc).
  cbv zeta. rewrite Hl. assert (Hsel : forall e, e ∈ selected t -> (exists x, txs (pool s) !! x = Some e) /\ final_for_block e height mtp = true).
  { intros e He. apply elem_of_candidates, I7, elem_of_app. by left. }
  assert (Hbefore : forall pre e suf o, selected t = pre ++ e :: suf -> o ∈ spends e -> is_Some (txs (pool s) !! op_txid o) ->
    exists q, q ∈ pre /\ compute_txid (me_tx q) = op_txid o /\ txs (pool s) !! op_txid o = Some q).
  { intros pre e suf o Heq Ho Hpar. pose proof (I6 pre e suf o Heq Ho Hpar) as (q & Hq1 & Hq2)%list_elem_of_fmap. exists q.
    destruct (Hsel q) as [[y Hy] _]; [rewrite Heq; apply elem_of_app; by left|]. destruct (po_key _ Hok y q Hy) as [K1 K2].
    assert (y = op_txid o) as -> by congruence. done. }
  split_and!; [done|lia| |intros e He; by apply Hsel| | |].
  - apply (selected_unique (pool s)); [done| |intros e He; by apply Hsel]. rewrite map_app in I1. by apply NoDup_app in I1 as [? _].
  - intros pre e suf o Heq Ho Hpar. destruct (Hbefore pre e suf o Heq Ho Hpar) as (q & Hq & Hid & _). eauto.
  - intros Hl' pre e suf o Heq Ho. destruct (Hsel e) as [[x Hx] _]; [rewrite Heq; apply elem_of_app; right; by left|].
    destruct (Hp x e o Hx Ho) as [Ha|Hpar]; [left; by apply Ha|right]. apply parent_output_Some in Hpar as (p & Hpp & Hv).
    destruct (Hbefore pre e suf o Heq Ho ltac:(by eexists)) as (q & Hq & Hid & Hy). exists q. split_and!; [done|done|].
    rewrite Hpp in Hy. injection Hy as <-. by apply lookup_lt_is_Some.
  - intros x e Hx Hf Hn. destruct (Hc e) as [?|[[?|?]|Hr]]; [by apply elem_of_candidates; eauto|done|by left|right; left; lia|right; right].
    destruct (decide (Exists (fun o => is_Some (txs (pool s) !! op_txid o) /\ op_txid o ∉ selected_ids t) (spends e))) as [Hex|Hex].
    2: { exfalso. apply not_true_iff_false in Hr. apply Hr, ready_spec. intros o Ho Hs.
      destruct (decide (op_txid o ∈ selected_ids t)) as [|Hni]; [done|]. destruct Hex. apply Exists_exists. eauto. }
    apply Exists_exists in Hex as (o & Ho & [p Hpp] & Hni). exists o, p. split_and!; [done|done|]. intros Hin.
    apply Hni, I2, list_elem_of_fmap. exists p. split; [|done]. symmetry. by apply (po_key _ Hok).
Qed.

(** ** Persistence *)

Lemma pow256_4 : pow256 4 = 2 ^ 32.
Proof. reflexivity. Qed.

Lemma parse_loop_spec l : forall rest,
  Forall (fun b => len b < 2 ^ 32) l ->
  parse_loop (length l) (concat (map (fun b => to_le 4 (u32 (len b)) ++ b) l) ++ rest) = omap deserialize_tx l.
Proof.
  induction l as [|b l IH]; intros rest Hl; [done|]. apply Forall_cons in Hl as [Hb Hl]. specialize (IH rest Hl).
  cbn [map concat length parse_loop]. rewrite <- !app_assoc. set (tail := concat _ ++ rest) in *.
  assert (Hb' : 0 <= len b < pow256 4) by (rewrite pow256_4; unfold len in *; lia).
  rewrite (wrap_small 32) by (unfold fits; unfold len in *; lia).
  rewrite take_app_length', drop_app_length', from_to_le_small by (try done; apply length_to_le).
  rewrite (proj2 (Z.ltb_ge (len (_ ++ _)) 4)) by (unfold len; rewrite length_app, length_to_le; lia).
  rewrite (proj2 (Z.ltb_ge (len (b ++ tail)) (len b))) by (unfold len; rewrite length_app; lia).
  rewrite take_app_length', drop_app_length' by (unfold len; lia). cbn [omap list_omap]. rewrite IH. by destruct (deserialize_tx b).
Qed.

Lemma load_pass_reach linked now flags params chain pending : forall s,
  reach linked s -> Forall tx_ok pending -> let '(s', _, kept) := load_pass now flags params chain pending s in reach linked s' /\ Forall tx_ok kept.
Proof.
  induction pending as [|tx r IH]; intros s Hs Hall; cbn [load_pass]; [done|]. apply Forall_cons in Hall as [Htx Hall].
  destruct (add_transaction now tx flags params chain s) as [s1 res] eqn:Hadd.
  specialize (IH s1 (reach_add _ _ _ _ _ _ _ _ _ Hs Htx Hadd) Hall).
  destruct (load_pass now flags params chain r s1) as [[s2 n] kept]. destruct IH as [H1' H2']. destruct (is_ok res); [done|]. split; [done|by constructor].
Qed.

Lemma load_loop_reach linked now flags params chain fuel : forall pending loaded s,
  reach linked s -> Forall tx_ok pending -> reach linked (load_loop fuel now flags params chain pending loaded s).1.
Proof.
  induction fuel as [|fuel IH]; intros pending loaded s Hs Hall; cbn [load_loop]; [done|].
  pose proof (load_pass_reach linked now flags params chain pending s Hs Hall) as Hp.
  destruct (load_pass _ _ _ _ _ _) as [[s1 n] kept]. destruct Hp as [H1' H2']. destruct (_ || _); [done|]. by apply IH.
Qed.

(** The mempool file: reading back what was written yields the transactions
    of the pool, and loading a file, whatever it holds, leaves the pool in a
    reachable state. *)
Theorem mempool_file_roundtrip linked mp s now data flags params chain :
  (forall t e, txs mp !! t = Some e -> deserialize_tx (serialize_tx (me_tx e)) = Some (me_tx e)) ->
  Z.of_nat (size (txs mp)) < 2 ^ 32 -> (forall t e, txs mp !! t = Some e -> len (serialize_tx (me_tx e)) < 2 ^ 32) ->
  reach linked s -> Forall tx_ok (parse_persisted_txs data) ->
  (forall tx, tx ∈ parse_persisted_txs (save_to_bytes mp) <-> exists t e, txs mp !! t = Some e /\ me_tx e = tx) /\
  reach linked (load_from_bytes now data flags params chain s).1.
Proof.
  intros Hcodec Hn Hlen Hs Hall. split.
  - set (l := map (fun x => serialize_tx (me_tx x.2)) (iter_pool (txs mp))).
    assert (Hl : Z.of_nat (length l) = Z.of_nat (size (txs mp))).
    { unfold l. rewrite length_map, iter_pool_perm. by rewrite length_map_to_list. }
    assert (Hparse : parse_persisted_txs (save_to_bytes mp) = omap deserialize_tx l).
    { unfold parse_persisted_txs, save_to_bytes. fold l. rewrite (proj2 (Z.ltb_ge _ 4)) by (unfold len; rewrite length_app, length_to_le; lia).
      rewrite (wrap_small 32) by (unfold fits, len; lia).
      rewrite take_app_length', drop_app_length', from_to_le_small by (rewrite ?length_to_le, ?pow256_4; unfold len; lia).
      unfold len. rewrite Nat2Z.id, <- (app_nil_r (concat _)). apply parse_loop_spec. apply Forall_forall.
      intros b ([t e] & -> & Hin)%list_elem_of_fmap. rewrite iter_pool_perm in Hin. apply elem_of_map_to_list in Hin. by eapply Hlen. }
    intros tx. rewrite Hparse, list_elem_of_omap. split.
    + intros (b & ([t e] & -> & Hin)%list_elem_of_fmap & Hd). rewrite iter_pool_perm in Hin. apply elem_of_map_to_list in Hin.
      cbn [snd] in Hd. rewrite (Hcodec t e Hin) in Hd. injection Hd as <-. eauto.
    + intros (t & e & He & <-). exists (serialize_tx (me_tx e)). split; [|by eapply Hcodec]. apply list_elem_of_fmap. exists (t, e).
      split; [done|]. rewrite iter_pool_perm. by apply elem_of_map_to_list.
  - unfold load_from_bytes. pose proof (load_loop_reach linked now flags params chain (S (length (parse_persisted_txs data))) _ 0 _ (reach_sig linked s None Hs) Hall) as Hr.
    destruct (load_loop _ _ _ _ _ _ _ _) as [s' n]. by apply reach_sig.
Qed.
End Pool.

(** ** The theorems at concrete inputs *)

Section Examples.
#[local] Existing Instance Sample.hashes.
#[local] Existing Instance Sample.tx_lib.
#[local] Existing Instance Sample.sig_lib.
#[local] Existing Instance SampleScript.script_lib.
#[local] Existing Instance SampleDb.rocks.
#[local] Existing Instance SampleDb.laws.
#[local] Existing Instance SampleCodec.codec.
#[local] Existing Instance SampleCodec.wal.
#[local] Existing Instance ValidationProofs.sample_ord.
#[local] Existing Instance UtxoProofs.sample_iter.
#[local] Existing Instance UtxoProofs.sample_iter_laws.
#[local] Existing Instance BlockStore.sample_files.
#[local] Existing Instance ReorgProofs.sample_sizes.
#[local] Existing Instance ReorgProofs.sample_runtime.
#[local] Existing Instance ReorgProofs.sample_runtime_laws.

(** A transaction that spends one output for anyone to spend. *)
Definition px_tx (o : OutPoint) (tag amount : Z) : Transaction :=
  mkTransaction 2 0 [mkTxIn o [tag] 0xfffffffd []] [mkTxOut amount [0x51]].

(** The transactions of the example: a payment, its child, a replacement. *)
Definition px_a : Transaction := px_tx rx_outpoint 0x51 4000.
Definition px_b : Transaction := px_tx (mkOutPoint (compute_txid px_a) 0) 0x52 3500.
Definition px_c : Transaction := px_tx rx_outpoint 0x53 3000.
Definition px_code (tx : Transaction) : bytes := to_le 60 (foldr (fun o n => value o + n) 0 (output tx)).

#[local] Instance sample_policy : PolicyLib :=
  {| script_is_multisig := fun _ => false; script_is_witness_program := fun s => (len s =? 22) || (len s =? 34) |}.
#[local] Instance sample_size_of : SizeOf := {| size_of_txid := 32; size_of_entry := 200; size_of_slot := 68 |}.
#[local] Instance sample_pool_iter : PoolIter := {| iter_pool := map_to_list |}.
#[local] Instance sample_pool_iter_laws : PoolIterLaws := {| iter_pool_perm := fun m => reflexivity _ |}.
#[local] Instance sample_tx_codec : TxCodec := {|
  serialize_tx := px_code;
  deserialize_tx := fun b => head (filter (fun tx => px_code tx = b) [px_a; px_b; px_c]);
  tx_weight := fun _ => 400 |}.

Definition px_chain : MempoolChainContext := at_tip rx_index 0 (block_hash rx_genesis).
Definition px_add (tx : Transaction) (s : MpEnv) : MpEnv * CoreResult hash256 := add_transaction 1000 tx flags_all regtest px_chain s.
Definition px_0 : MpEnv := mkEnv (pool_new 100000) rx_utxo (Some (cache_new 10)).
Definition px_1 : MpEnv := (px_add px_a px_0).1.
Definition px_2 : MpEnv := (px_add px_b px_1).1.
Definition px_3 : MpEnv := (px_add px_c px_2).1.

(** The chain goes on: the block is connected, and its outputs are spent. *)
Definition px_d : Transaction := px_tx (mkOutPoint (compute_txid rx_spend) 0) 0x54 4000.
Definition px_e : Transaction := px_tx (mkOutPoint (compute_txid rx_coinbase) 0) 0x55 4999990000.
Definition px_tip : MempoolChainContext := at_tip (header_index rx_run.1) 1 (block_hash (header rx_block)).
Definition px_4 : MpEnv := mkEnv (remove_for_block (pool px_0) rx_block (map compute_txid rx_txs)) (utxo_set rx_run.1) None.
Definition px_5 : MpEnv := (add_transaction 1000 px_d flags_all regtest px_tip px_4).1.
Definition px_6 : MpEnv * CoreResult hash256 := add_transaction 1000 px_e flags_all regtest px_tip px_5.
Definition px_coinbase : Transaction :=
  mkTransaction 2 0 [mkTxIn null_outpoint [0x52; 0x00] 0xffffffff []] [mkTxOut 5000000000 [0x51]].
Definition px_block : Block :=
  mkBlock (mkHeader 4 (block_hash (header rx_block)) (compute_txid px_coinbase) 300 5 3) [px_coinbase; px_e].

Lemma px_tx_ok o tag n : outpoint_ok o -> 0 <= n -> tx_ok (px_tx o tag n).
Proof. intros Ho Hn. split; cbn; apply Forall_singleton; [cbn; lia|done]. Qed.

Lemma px_outpoint_ok txid : bytes_okb txid = true -> length txid = 32%nat -> outpoint_ok (mkOutPoint txid 0).
Proof. intros Hb Hl. unfold outpoint_ok. cbn. split_and!; [done|by apply bytes_okb_ok|unfold fits; lia]. Qed.

Lemma px_sizes : 0 <= size_of_txid /\ 0 <= size_of_entry /\ 0 <= size_of_slot.
Proof. cbn. lia. Qed.

Lemma px_reach_add now tx flags params chain s :
  reach true s -> tx_ok tx -> reach true (add_transaction now tx flags params chain s).1.
Proof. intros Hs Htx. eapply reach_add; [exact Hs|exact Htx|apply surjective_pairing]. Qed.

Lemma px_reach_0 : reach true px_0.
Proof. apply reach_new; [apply rx_utxo_inv|lia]. Qed.

Lemma px_reach_2 : reach true px_2.
Proof.
  unfold px_2, px_1, px_add. do 2 (apply px_reach_add; [|by apply px_tx_ok; [apply px_outpoint_ok|]]). apply px_reach_0.
Qed.

Lemma px_reach_5 : reach true px_5.
Proof.
  unfold px_5. apply px_reach_add; [|by apply px_tx_ok; [apply px_outpoint_ok|]].
  apply (reach_connect true px_0 rx_state rx_run.1 rx_set 1000 rx_block 1 None (map compute_txid rx_txs) None px_reach_0).
  - reflexivity.
  - apply rx_represents.
  - rewrite rx_total. unfold MAX_MONEY. lia.
  - apply rx_block_wf.
  - intros t e o tx out He. cbn in He. by rewrite lookup_empty in He.
  - intros tx e _ He. cbn in He. by rewrite lookup_empty in He.
  - apply rx_connects.
Qed.

(** After a connected block and an accepted spend of one of its outputs. *)
Lemma mempool_always_consistent_witness :
  size (txs (pool px_5)) = 1%nat /\ memory_usage (pool px_5) <= 100000 /\
  forall t e o, txs (pool px_5) !! t = Some e -> o ∈ spends e ->
    is_Some (coins (mp_utxo px_5) (outpoint_key o)) \/ is_Some (parent_output (pool px_5) o).
Proof.
  pose proof (mempool_always_consistent true px_5 sample_ord_total px_sizes px_reach_5) as (_ & _ & [_ Hb] & Hin).
  assert (Hx : size (txs (pool px_5)) = 1%nat /\ max_memory_bytes (pool px_5) = 100000) by (split; vm_compute; reflexivity).
  destruct Hx as [Hx Hmax]. rewrite Hmax in Hb. split; [exact Hx|split; [exact Hb|exact (Hin eq_refl)]].
Defined.

Lemma px_entries t e : txs (pool px_2) !! t = Some e -> e ∈ map snd (map_to_list (txs (pool px_2))).
Proof. intros He. apply list_elem_of_fmap. exists (t, e). split; [done|]. by apply elem_of_map_to_list. Qed.

Definition px_fine (e : MempoolEntry) : bool :=
  (0 <=? me_fee e) && (me_fee e <=? MAX_MONEY) && (me_weight e =? 400) && (len (serialize_tx (me_tx e)) =? 60) &&
  bool_decide (deserialize_tx (serialize_tx (me_tx e)) = Some (me_tx e)).

Lemma px_fields t e :
  txs (pool px_2) !! t = Some e ->
  0 <= me_fee e <= MAX_MONEY /\ me_weight e = 400 /\ len (serialize_tx (me_tx e)) = 60 /\
  deserialize_tx (serialize_tx (me_tx e)) = Some (me_tx e).
Proof.
  intros He. assert (Hall : forallb px_fine (map snd (map_to_list (txs (pool px_2)))) = true) by (vm_compute; reflexivity).
  rewrite forallb_forall in Hall. specialize (Hall e). rewrite <- list_elem_of_In in Hall. specialize (Hall (px_entries t e He)).
  unfold px_fine in Hall. apply andb_true_iff in Hall as [Hall H5']. apply andb_true_iff in Hall as [Hall H4'].
  apply andb_true_iff in Hall as [Hall H3']. apply andb_true_iff in Hall as [H1' H2'].
  apply Z.leb_le in H1', H2'. apply Z.eqb_eq in H3', H4'. apply bool_decide_eq_true in H5'.
  exact (conj (conj H1' H2') (conj H3' (conj H4' H5'))).
Qed.

(** The payment and its child give way to the replacement. *)
Lemma replacement_pays_witness :
  exists entry, txs (pool px_3) !! compute_txid px_c = Some entry /\ me_tx entry = px_c /\
    me_fee entry = u64 (input_value px_2 (input px_c)) - sum_outputs px_c.
Proof.
  destruct (replacement_pays true px_2 px_3 1000 px_c flags_all regtest px_chain (compute_txid px_c)) as (entry & evict & Q1 & Q2 & Q3 & _).
  - exact sample_ord_total.
  - exact px_reach_2.
  - exact px_sizes.
  - apply px_tx_ok; [by apply px_outpoint_ok|lia].
  - intros t e He. apply (px_fields t e He).
  - vm_compute. reflexivity.
  - assert (Hr : (px_add px_c px_2).2 = Ok (compute_txid px_c)) by (vm_compute; reflexivity). rewrite <- Hr. apply surjective_pairing.
  - exists entry. split; [exact Q1|split; [exact Q2|exact Q3]].
Defined.

(** The payment and its child fill a template in that order. *)
Lemma template_valid_witness :
  map (fun e => me_tx e) (select_for_block (pool px_2) 1 100 4000 10) = [px_a; px_b] /\
  weight_sum (select_for_block (pool px_2) 1 100 4000 10) <= 4000.
Proof.
  split; [vm_compute; reflexivity|]. apply (template_valid true px_2 1 100 4000 10 sample_ord_total px_sizes px_reach_2 ltac:(lia)).
  intros t e He. destruct (px_fields t e He) as (_ & -> & _). lia.
Defined.

(** The two transactions are written, read back and loaded again. *)
Lemma mempool_file_roundtrip_witness :
  (forall tx, tx ∈ parse_persisted_txs (save_to_bytes (pool px_2)) <-> exists t e, txs (pool px_2) !! t = Some e /\ me_tx e = tx) /\
  reach true (load_from_bytes 1000 (save_to_bytes (pool px_2)) flags_all regtest px_chain px_0).1.
Proof.
  apply mempool_file_roundtrip.
  - intros t e He. apply (px_fields t e He).
  - vm_compute. reflexivity.
  - intros t e He. destruct (px_fields t e He) as (_ & _ & -> & _). lia.
  - exact px_reach_0.
  - assert (Hp : parse_persisted_txs (save_to_bytes (pool px_2)) = [px_a; px_b] \/ parse_persisted_txs (save_to_bytes (pool px_2)) = [px_b; px_a])
      by (vm_compute; auto).
    destruct Hp as [-> | ->]; repeat constructor; cbn; try lia; by apply px_outpoint_ok.
Defined.

(** Coinbase maturity is not checked on acceptance: a spend of the coinbase of
    the tip is accepted and selected for the next block, and a block with it
    is rejected. *)
Theorem immature_coinbase_in_template :
  px_6.2 = Ok (compute_txid px_e) /\
  px_e ∈ map me_tx (select_for_block (pool px_6.1) 2 (tip_mtp px_tip) 4000 10) /\
  (connect_block_with_raw 1000 px_block 2 None rx_run.1).2 = Err (InvalidTransaction "spending immature coinbase").
Proof. split_and!; [vm_compute; reflexivity|apply (bool_decide_unpack _); vm_compute; exact I|vm_compute; reflexivity]. Qed.

(** The pool is not told of a block submitted over RPC: a transaction that the
    block conflicts with stays selectable, although its input is spent. *)
Theorem submitted_block_strands_mempool :
  reach false (mkEnv (pool px_1) (utxo_set rx_run.1) None) /\
  map me_tx (select_for_block (pool px_1) 2 (tip_mtp px_tip) 4000 10) = [px_a] /\
  map previous_output (input px_a) = [rx_outpoint] /\
  coins (utxo_set rx_run.1) (outpoint_key rx_outpoint) = None /\ parent_output (pool px_1) rx_outpoint = None.
Proof.
  split; [|split_and!; vm_compute; reflexivity]. apply (reach_chain true px_1).
  - unfold px_1, px_add. apply px_reach_add; [apply px_reach_0|by apply px_tx_ok; [apply px_outpoint_ok|]].
  - destruct (connect_applied rx_state rx_run.1 rx_set 1000 rx_block 1 None (map compute_txid rx_txs) (pool px_0)) as (_ & Hu & _);
      [apply rx_utxo_inv|apply rx_represents|rewrite rx_total; unfold MAX_MONEY; lia|apply rx_block_wf|apply rx_connects|apply pool_new_ok| |exact Hu].
    intros t e o tx out He. cbn in He. by rewrite lookup_empty in He.
Qed.

(** A disconnected block strands the pool: a transaction that spends one of
    its outputs stays selectable while its input is neither a coin nor an
    output of another entry. *)
Theorem reorg_strands_mempool :
  let o := mkOutPoint (compute_txid rx_spend) 0 in
  rx_undone.2 = Ok tt /\ map me_tx (select_for_block (pool px_5) 1 (tip_mtp px_chain) 4000 10) = [px_d] /\
  map previous_output (input px_d) = [o] /\
  coins (utxo_set rx_undone.1) (outpoint_key o) = None /\ parent_output (pool px_5) o = None.
Proof. split_and!; vm_compute; reflexivity. Qed.
End Examples.
