(* ===== verification/BlockFilter.v ===== *)
(** * Compact block filters

    [block_filter.rs]: SipHash-2-4, the range reduction, Golomb-Rice coding on
    bit streams, the basic filter of a block and matching against it.  The
    filter matches a query exactly when a queried element collides with an
    element of the block, so it has no false negatives. *)

From Stdlib Require Import ZArith Lia.
From stdpp Require Import base option numbers list gmap sorting.
From S2P Require Import Prelude Bytes Types Validation.

Definition GOLOMB_P : nat := 19.
Definition BASIC_FILTER_TYPE : Z := 0.

Record BlockFilter := mkFilter { filter_type : Z; filter_block : hash256; filter_data : bytes }.

(** ** SipHash-2-4 *)

Definition rotate_left (x r : Z) : Z := Z.lor (u64 (Z.shiftl x r)) (Z.shiftr x (64 - r)).

Record SipState := mkSip { v0 : Z; v1 : Z; v2 : Z; v3 : Z }.

Definition sip_round (s : SipState) : SipState :=
  let a := u64 (v0 s + v1 s) in
  let b := Z.lxor (rotate_left (v1 s) 13) a in
  let a := rotate_left a 32 in
  let c := u64 (v2 s + v3 s) in
  let d := Z.lxor (rotate_left (v3 s) 16) c in
  let a := u64 (a + d) in
  let d := Z.lxor (rotate_left d 21) a in
  let c := u64 (c + b) in
  let b := Z.lxor (rotate_left b 17) c in
  let c := rotate_left c 32 in
  mkSip a b c d.

(** One message word. *)
Definition sip_word (s : SipState) (m : Z) : SipState :=
  let s := sip_round (sip_round (mkSip (v0 s) (v1 s) (v2 s) (Z.lxor (v3 s) m))) in
  mkSip (Z.lxor (v0 s) m) (v1 s) (v2 s) (v3 s).

Definition siphash_2_4 (key data : bytes) : Z :=
  let k0 := from_le (take 8 key) in
  let k1 := from_le (take 8 (drop 8 key)) in
  let s := mkSip (Z.lxor 0x736f6d6570736575 k0) (Z.lxor 0x646f72616e646f6d k1)
                 (Z.lxor 0x6c7967656e657261 k0) (Z.lxor 0x7465646279746573 k1) in
  let chunks := (length data / 8)%nat in
  let s := foldl (fun s i => sip_word s (from_le (take 8 (drop (i * 8) data)))) s (seq 0 chunks) in
  let last := Z.shiftl (Z.land (len data) 0xff) 56 in
  let last := foldl (fun last '(i, byte) => Z.lor last (Z.shiftl byte (Z.of_nat i * 8))) last
                (imap pair (drop (chunks * 8) data)) in
  let s := sip_word s last in
  let s := mkSip (v0 s) (v1 s) (Z.lxor (v2 s) 0xff) (v3 s) in
  let s := sip_round (sip_round (sip_round (sip_round s))) in
  Z.lxor (Z.lxor (Z.lxor (v0 s) (v1 s)) (v2 s)) (v3 s).

Definition siphash_key_from_block_hash (block_hash : hash256) : bytes := take 16 block_hash.

Definition fast_range (hash n : Z) : Z := u64 (Z.shiftr (u128 (hash * n)) 64).

Definition hash_to_range (element : bytes) (f : Z) (key : bytes) : Z := fast_range (siphash_2_4 key element) f.

(** ** Compact sizes *)

Definition write_compact_size (n : Z) : bytes :=
  if n <? 0xfd then [n]
  else if n <=? 0xffff then 0xfd :: to_le 2 n
  else if n <=? 0xffffffff then 0xfe :: to_le 4 n
  else 0xff :: to_le 8 n.

(** [None]: the slice is out of range and the code panics. *)
Definition read_compact_size (data : bytes) : option (Z * nat) :=
  let field (n : nat) := if (length data <? S n)%nat then None else Some (from_le (take n (drop 1 data)), S n) in
  match data with
  | [] => Some (0, 0%nat)
  | b :: _ => if b =? 0xff then field 8%nat else if b =? 0xfe then field 4%nat else if b =? 0xfd then field 2%nat else Some (b, 1%nat)
  end.

(** ** Bit streams *)

Record BitWriter := mkWriter { w_bytes : bytes; w_current : Z; w_used : nat }.

Definition writer_new : BitWriter := mkWriter [] 0 0.

Definition write_bit (w : BitWriter) (bit : bool) : BitWriter :=
  let current := if bit then Z.lor (w_current w) (Z.shiftl 1 (7 - Z.of_nat (w_used w))) else w_current w in
  if (S (w_used w) =? 8)%nat then mkWriter (w_bytes w ++ [current]) 0 0 else mkWriter (w_bytes w) current (S (w_used w)).

Definition write_bits (w : BitWriter) (value : Z) (n_bits : nat) : BitWriter :=
  foldl (fun w i => write_bit w (Z.land (Z.shiftr value (Z.of_nat i)) 1 =? 1)) w (reverse (seq 0 n_bits)).

(** The quotient in unary, [q] zeros and a one, then the remainder. *)
Definition write_golomb_rice (w : BitWriter) (value : Z) (p : nat) : BitWriter :=
  let q := Z.shiftr value (Z.of_nat p) in
  let r := Z.land value (Z.shiftl 1 (Z.of_nat p) - 1) in
  write_bits (write_bit (foldl (fun w _ => write_bit w false) w (seq 0 (Z.to_nat q))) true) r p.

Definition finish (w : BitWriter) : bytes := if (0 <? w_used w)%nat then w_bytes w ++ [w_current w] else w_bytes w.

Record BitReader := mkReader { r_data : bytes; byte_idx : nat; bit_idx : nat }.

Definition reader_new (data : bytes) : BitReader := mkReader data 0 0.

Definition read_bit (r : BitReader) : bool * BitReader :=
  match r_data r !! byte_idx r with
  | None => (false, r)
  | Some b =>
      (Z.land (Z.shiftr b (7 - Z.of_nat (bit_idx r))) 1 =? 1,
       if (S (bit_idx r) =? 8)%nat then mkReader (r_data r) (S (byte_idx r)) 0 else mkReader (r_data r) (byte_idx r) (S (bit_idx r)))
  end.

Fixpoint read_bits (n_bits : nat) (value : Z) (r : BitReader) : Z * BitReader :=
  match n_bits with
  | O => (value, r)
  | S n => let '(bit, r) := read_bit r in read_bits n (Z.lor (u64 (Z.shiftl value 1)) (b2z bit)) r
  end.

(** [while !self.read_bit() { q += 1 }] *)
Fixpoint read_unary (fuel : nat) (q : Z) (r : BitReader) : outcome (Z * BitReader) :=
  match fuel with
  | O => OutOfFuel
  | S fuel => let '(bit, r) := read_bit r in if bit : bool then Done (q, r) else read_unary fuel (u64 (q + 1)) r
  end.

Definition read_golomb_rice (fuel p : nat) (r : BitReader) : outcome (Z * BitReader) :=
  match read_unary fuel 0 r with
  | OutOfFuel => OutOfFuel
  | Done (q, r) => let '(rem, r) := read_bits p 0 r in Done (Z.lor (u64 (Z.shiftl q (Z.of_nat p))) rem, r)
  end.

(** ** Filters *)

(** The iteration order of a hash set of byte strings. *)
Class SetIter := { iter_set : gset bytes -> list bytes }.
Class SetIterLaws `{SetIter} := { iter_set_perm X : iter_set X ≡ₚ elements X }.

Section Filter.
Context `{ScriptLib} `{TxLib} `{SetIter}.

(** [sort_unstable] on integers. *)
Definition sort_u64 (l : list Z) : list Z := merge_sort Z.le l.

Definition write_delta (acc : BitWriter * Z) (val : Z) : BitWriter * Z :=
  (write_golomb_rice acc.1 (u64 (val - acc.2)) GOLOMB_P, val).

Definition gcs_encode (items : gset bytes) (key : bytes) : bytes :=
  let n := Z.of_nat (size items) in
  let f := u64 (n * Z.shiftl 1 (Z.of_nat GOLOMB_P)) in
  let hashed := sort_u64 (map (fun e => hash_to_range e f key) (iter_set items)) in
  write_compact_size n ++ finish (foldl write_delta (writer_new, 0) hashed).1.

Definition indexed (script : bytes) : bool := negb (script_is_op_return script) && negb (bool_decide (script = [])).

(** The elements of one transaction. *)
Definition add_elements (prev_scripts : list (list bytes)) (items : gset bytes) (item : nat * Transaction) : gset bytes :=
  let '(tx_idx, tx) := item in
  let items := foldl (fun s o => if indexed (script_pubkey o) then {[script_pubkey o]} ∪ s else s) items (output tx) in
  if is_coinbase tx then items
  else match prev_scripts !! tx_idx with
       | Some prev => foldl (fun s b => if indexed b then {[b]} ∪ s else s) items prev
       | None => items
       end.

Definition block_elements (block : Block) (prev_scripts : list (list bytes)) : gset bytes :=
  foldl (add_elements prev_scripts) ∅ (imap pair (txdata block)).

Definition build_basic_filter (block : Block) (block_hash : hash256) (prev_scripts : list (list bytes)) : BlockFilter :=
  let items := block_elements block prev_scripts in
  mkFilter BASIC_FILTER_TYPE block_hash
    (if bool_decide (items = ∅) then [0] else gcs_encode items (siphash_key_from_block_hash block_hash)).

(** [Vec::dedup]: consecutive equal elements. *)
Fixpoint dedup (l : list Z) : list Z :=
  match l with
  | x :: ((y :: _) as r) => if x =? y then dedup r else x :: dedup r
  | _ => l
  end.

Fixpoint skip_below (filter_val : Z) (queries : list Z) : list Z :=
  match queries with
  | q :: r => if q <? filter_val then skip_below filter_val r else queries
  | [] => []
  end.

(** [queries] is [query_hashes[query_idx..]]. *)
Fixpoint match_loop (fuel n : nat) (r : BitReader) (filter_val : Z) (queries : list Z) : outcome bool :=
  match n with
  | O => Done false
  | S n =>
      match read_golomb_rice fuel GOLOMB_P r with
      | OutOfFuel => OutOfFuel
      | Done (delta, r) =>
          let filter_val := u64 (filter_val + delta) in
          match skip_below filter_val queries with
          | [] => Done false
          | q :: rest => if q =? filter_val then Done true else match_loop fuel n r filter_val (q :: rest)
          end
      end
  end.

(** [Done None]: the code panics. *)
Definition match_any (fuel : nat) (filter_data : bytes) (block_hash : hash256) (query_elements : list bytes) : outcome (option bool) :=
  if bool_decide (query_elements = []) then Done (Some false)
  else if bool_decide (filter_data = []) || bool_decide (filter_data = [0]) then Done (Some false)
  else
    let key := siphash_key_from_block_hash block_hash in
    match read_compact_size filter_data with
    | None => Done None
    | Some (n, data_offset) =>
        if n =? 0 then Done (Some false)
        else
          let f := u64 (n * Z.shiftl 1 (Z.of_nat GOLOMB_P)) in
          let query_hashes := dedup (sort_u64 (map (fun e => hash_to_range e f key) query_elements)) in
          match match_loop fuel (Z.to_nat n) (reader_new (drop data_offset filter_data)) 0 query_hashes with
          | OutOfFuel => OutOfFuel
          | Done b => Done (Some b)
          end
    end.
End Filter.

Section Headers.
Context `{Hashes}.
Definition filter_hash (filter_data : bytes) : hash256 := sha256d filter_data.
Definition genesis_filter_header : hash256 := replicate 32 0.
Definition next_filter_header (prev filter_hash : hash256) : hash256 := sha256d (filter_hash ++ prev).
End Headers.

(** The reference vector of SipHash-2-4: key and message count up from zero. *)
Lemma siphash_reference_vector :
  siphash_2_4 (map Z.of_nat (seq 0 16)) (map Z.of_nat (seq 0 15)) = 0xa129ca6149be45e5.
Proof. vm_compute. reflexivity. Qed.
