(* ===== verification/FilterProofs.v ===== *)
(** * Properties of compact block filters

    The bit streams refine lists of bits, Golomb-Rice coding is undone by the
    reader, and matching a filter is exactly a comparison of hashes. *)

From Stdlib Require Import ZArith Lia.
From stdpp Require Import base option numbers list gmap sorting.
From S2P Require Import Prelude Bytes Types ScriptBytes Validation BlockFilter.

(** ** Bits of a byte *)

Definition byte_bits (b : Z) : list bool := map (fun i => Z.testbit b (7 - Z.of_nat i)) (seq 0 8).
Definition bits (l : bytes) : list bool := concat (map byte_bits l).

Lemma land1_testbit x i : 0 <= i -> (Z.land (Z.shiftr x i) 1 =? 1) = Z.testbit x i.
Proof.
  intros Hi. replace (Z.testbit x i) with (Z.testbit (Z.shiftr x i) 0) by (rewrite Z.shiftr_spec by lia; f_equal; lia).
  generalize (Z.shiftr x i) as y. intros y. change (Z.land y 1) with (Z.land y (Z.ones 1)). rewrite Z.land_ones by lia.
  rewrite Z.bit0_odd. change (2 ^ 1) with 2. rewrite Zmod_odd. by destruct (Z.odd y).
Qed.

Lemma length_byte_bits b : length (byte_bits b) = 8%nat.
Proof. done. Qed.

Lemma bits_app a b : bits (a ++ b) = bits a ++ bits b.
Proof. unfold bits. by rewrite map_app, concat_app. Qed.

Lemma bits_single b : bits [b] = byte_bits b.
Proof. unfold bits. cbn [map concat]. apply app_nil_r. Qed.

Lemma byte_bits_lookup b i : (i < 8)%nat -> byte_bits b !! i = Some (Z.testbit b (7 - Z.of_nat i)).
Proof. intros Hi. do 8 (destruct i as [|i]; [done|]). lia. Qed.

(** ** Writing *)

Definition w_bits (w : BitWriter) : list bool := bits (w_bytes w) ++ take (w_used w) (byte_bits (w_current w)).
Definition w_inv (w : BitWriter) : Prop :=
  (w_used w < 8)%nat /\ drop (w_used w) (byte_bits (w_current w)) = replicate (8 - w_used w) false.

Lemma set_bit_bits c u : (u < 8)%nat -> byte_bits (Z.lor c (Z.shiftl 1 (7 - Z.of_nat u))) = <[u := true]> (byte_bits c).
Proof.
  intros Hu. apply list_eq_same_length with 8%nat; [by rewrite length_insert|done|]. intros i x y Hi Hx Hy.
  rewrite byte_bits_lookup in Hx by done. injection Hx as <-. rewrite Z.lor_spec, Z.shiftl_spec by lia.
  destruct (decide (i = u)) as [->|Hne].
  - rewrite list_lookup_insert_eq in Hy by done. injection Hy as <-. rewrite Z.sub_diag. by rewrite orb_true_r.
  - rewrite list_lookup_insert_ne in Hy by done. rewrite byte_bits_lookup in Hy by done. injection Hy as <-.
    destruct (decide (i < u)%nat).
    + rewrite (Z.bits_above_log2 1) by (cbn; lia). apply orb_false_r.
    + rewrite (Z.testbit_neg_r 1) by lia. apply orb_false_r.
Qed.

Lemma write_bit_spec w b : w_inv w -> w_inv (write_bit w b) /\ w_bits (write_bit w b) = w_bits w ++ [b].
Proof.
  intros [Hu Hz]. set (c := if b then Z.lor (w_current w) (Z.shiftl 1 (7 - Z.of_nat (w_used w))) else w_current w).
  assert (Hc : byte_bits c = <[w_used w := b]> (byte_bits (w_current w))).
  { unfold c. destruct b; [by apply set_bit_bits|]. symmetry. apply list_insert_id.
    rewrite <- (Nat.add_0_r (w_used w)), <- lookup_drop, Hz. apply lookup_replicate_2. lia. }
  assert (Ht : take (S (w_used w)) (byte_bits c) = take (w_used w) (byte_bits (w_current w)) ++ [b]).
  { rewrite Hc. rewrite (take_S_r _ _ b) by (apply list_lookup_insert_eq; rewrite length_byte_bits; lia). by rewrite take_insert_ge by lia. }
  assert (Hd : drop (S (w_used w)) (byte_bits c) = replicate (8 - S (w_used w)) false).
  { rewrite Hc, drop_insert_lt by lia. rewrite <- Nat.add_1_r, <- drop_drop, Hz.
    rewrite drop_replicate. f_equal. lia. }
  unfold write_bit. fold c. destruct (Nat.eqb_spec (S (w_used w)) 8) as [H8|H8].
  - split; [split; [cbn; lia|done]|]. unfold w_bits. cbn [w_bytes w_used w_current]. rewrite bits_app, bits_single, <- !app_assoc, <- Ht, H8.
    rewrite (take_ge (byte_bits c)) by done. f_equal.
  - split; [split; [cbn; lia|done]|]. unfold w_bits. cbn [w_bytes w_used w_current]. by rewrite Ht, app_assoc.
Qed.

(** A sequence of writes appends the bits. *)
Lemma write_fold_spec {A} (f : A -> bool) l : forall w,
  w_inv w -> w_inv (foldl (fun w x => write_bit w (f x)) w l) /\ w_bits (foldl (fun w x => write_bit w (f x)) w l) = w_bits w ++ map f l.
Proof.
  induction l as [|x l IH]; intros w Hw; cbn [foldl map]; [by rewrite app_nil_r|].
  destruct (write_bit_spec w (f x) Hw) as [Hw1 Hb1]. destruct (IH _ Hw1) as [Hw2 Hb2]. split; [done|]. by rewrite Hb2, Hb1, <- app_assoc.
Qed.

Lemma writer_finish_spec w : w_inv w -> exists k, bits (finish w) = w_bits w ++ replicate k false.
Proof.
  intros [Hu Hz]. unfold finish, w_bits. destruct (Nat.ltb_spec 0 (w_used w)) as [Hp|Hp].
  - exists (8 - w_used w)%nat. rewrite bits_app, bits_single, <- app_assoc, <- Hz. by rewrite take_drop.
  - exists 0%nat. assert (w_used w = 0%nat) as -> by lia. by rewrite !app_nil_r.
Qed.

(** ** Golomb-Rice codes *)

Definition rem_bits (r : Z) (p : nat) : list bool := map (fun i => Z.testbit r (Z.of_nat i)) (reverse (seq 0 p)).
Definition golomb_bits (v : Z) (p : nat) : list bool :=
  replicate (Z.to_nat (v / 2 ^ Z.of_nat p)) false ++ true :: rem_bits (v mod 2 ^ Z.of_nat p) p.

Lemma write_golomb_spec w v p :
  w_inv w -> w_inv (write_golomb_rice w v p) /\ w_bits (write_golomb_rice w v p) = w_bits w ++ golomb_bits v p.
Proof.
  intros Hw. unfold write_golomb_rice, write_bits.
  replace (Z.shiftl 1 (Z.of_nat p) - 1) with (Z.ones (Z.of_nat p)) by (unfold Z.ones; lia).
  rewrite Z.land_ones, Z.shiftr_div_pow2 by lia. set (q := v / _). set (r := v mod _).
  destruct (write_fold_spec (fun _ : nat => false) (seq 0 (Z.to_nat q)) w Hw) as [H1 B1].
  destruct (write_bit_spec _ true H1) as [H2 B2].
  destruct (write_fold_spec (fun i => Z.land (Z.shiftr r (Z.of_nat i)) 1 =? 1) (reverse (seq 0 p)) _ H2) as [H3 B3].
  split; [exact H3|]. rewrite B3, B2, B1. unfold golomb_bits. fold q r. rewrite <- !app_assoc. f_equal. cbn [app].
  replace (map (fun _ : nat => false) (seq 0 (Z.to_nat q))) with (replicate (Z.to_nat q) false).
  - f_equal. f_equal. apply map_ext. intros i. apply land1_testbit. lia.
  - generalize (Z.to_nat q) at 1 2 as n. intros n. generalize 0%nat as a. induction n as [|n IH]; intros a; cbn; [done|]. f_equal. apply IH.
Qed.

(** ** Reading *)

Definition r_bits (r : BitReader) : list bool := drop (bit_idx r) (bits (drop (byte_idx r) (r_data r))).
Definition r_inv (r : BitReader) : Prop := (bit_idx r < 8)%nat /\ (bit_idx r = 0%nat \/ (byte_idx r < length (r_data r))%nat).

Lemma reader_new_spec data : r_inv (reader_new data) /\ r_bits (reader_new data) = bits data.
Proof. split; [split; [cbn; lia|by left]|done]. Qed.

(** At the end the reader stays where it is and yields zeros. *)
Lemma read_bit_end r : r_inv r -> r_bits r = [] -> read_bit r = (false, r).
Proof.
  intros [Hb Hi] He. unfold read_bit. destruct (r_data r !! byte_idx r) as [b|] eqn:Hl; [|done].
  unfold r_bits in He. rewrite (drop_S _ _ _ Hl) in He. unfold bits in He. cbn [map concat] in He.
  apply (f_equal length) in He. rewrite length_drop, length_app, length_byte_bits in He. cbn in He. lia.
Qed.

Lemma read_bit_spec r b rest :
  r_inv r -> r_bits r = b :: rest -> exists r', read_bit r = (b, r') /\ r_inv r' /\ r_bits r' = rest.
Proof.
  intros [Hb Hi] He. unfold read_bit. destruct (r_data r !! byte_idx r) as [x|] eqn:Hl.
  - assert (Hlt : (byte_idx r < length (r_data r))%nat) by by eapply lookup_lt_Some.
    unfold r_bits in He. rewrite (drop_S _ _ _ Hl) in He. unfold bits in He. cbn [map concat] in He.
    change (concat (map byte_bits (drop (S (byte_idx r)) (r_data r)))) with (bits (drop (S (byte_idx r)) (r_data r))) in He.
    rewrite drop_app_le in He by (rewrite length_byte_bits; lia).
    rewrite (drop_S _ _ _ (byte_bits_lookup x (bit_idx r) Hb)) in He. cbn [app] in He.
    remember (drop (S (bit_idx r)) (byte_bits x)) as tl eqn:Htl. injection He as Hbit Hrest.
    rewrite land1_testbit, Hbit by lia. eexists. split; [done|]. destruct (Nat.eqb_spec (S (bit_idx r)) 8) as [H8|H8].
    + split; [split; [cbn; lia|by left]|]. unfold r_bits. cbn [bit_idx byte_idx r_data drop]. rewrite <- Hrest, Htl, H8. by rewrite (drop_ge (byte_bits x)) by done.
    + split; [split; [cbn; lia|by right]|]. unfold r_bits. cbn [bit_idx byte_idx r_data]. rewrite (drop_S _ _ _ Hl). unfold bits. cbn [map concat].
      rewrite drop_app_le by (rewrite length_byte_bits; lia). by rewrite <- Hrest, Htl.
  - exfalso. apply lookup_ge_None in Hl. unfold r_bits in He. rewrite (drop_ge (r_data r)) in He by done.
    change (bits []) with (@nil bool) in He. by rewrite drop_nil in He.
Qed.

Lemma read_unary_spec q rest : forall fuel r acc,
  r_inv r -> r_bits r = replicate q false ++ true :: rest -> (q < fuel)%nat -> 0 <= acc -> acc + Z.of_nat q < 2 ^ 64 ->
  exists r', read_unary fuel acc r = Done (acc + Z.of_nat q, r') /\ r_inv r' /\ r_bits r' = rest.
Proof.
  induction q as [|q IH]; intros fuel r acc Hr He Hf Hacc Hlim; (destruct fuel as [|fuel]; [lia|]); cbn [read_unary].
  - destruct (read_bit_spec r true rest Hr He) as (r' & -> & Hr' & Hb). exists r'. split; [|done]. f_equal. f_equal. lia.
  - destruct (read_bit_spec r false _ Hr He) as (r' & -> & Hr' & Hb). rewrite wrap_small by (unfold fits; lia).
    destruct (IH fuel r' (acc + 1) Hr' Hb) as (r'' & -> & Hr'' & Hb''); [lia|lia|lia|]. exists r''. split; [|done]. f_equal. f_equal. lia.
Qed.

Lemma mod_pow2_S r n : r mod 2 ^ Z.of_nat (S n) = r mod 2 ^ Z.of_nat n + b2z (Z.testbit r (Z.of_nat n)) * 2 ^ Z.of_nat n.
Proof.
  rewrite Nat2Z.inj_succ, Z.pow_succ_r by lia. rewrite (Z.mul_comm 2), Z.rem_mul_r by (try apply Z.pow_nonzero; lia).
  rewrite <- Z.testbit_spec' by lia. destruct (Z.testbit r (Z.of_nat n)); cbn; lia.
Qed.

Lemma read_bits_spec v p rest : forall r acc,
  r_inv r -> r_bits r = rem_bits v p ++ rest -> 0 <= acc -> (acc + 1) * 2 ^ Z.of_nat p <= 2 ^ 64 ->
  exists r', read_bits p acc r = (acc * 2 ^ Z.of_nat p + v mod 2 ^ Z.of_nat p, r') /\ r_inv r' /\ r_bits r' = rest.
Proof.
  induction p as [|p IH]; intros r acc Hr He Hacc Hlim; cbn [read_bits].
  - exists r. split; [|done]. f_equal. change (2 ^ Z.of_nat 0) with 1. rewrite Z.mod_1_r. lia.
  - unfold rem_bits in He. rewrite seq_S, reverse_snoc in He. cbn [map app] in He. fold (rem_bits v p) in He.
    destruct (read_bit_spec r _ _ Hr He) as (r' & -> & Hr' & Hb). set (b := Z.testbit v (Z.of_nat (0 + p))) in *.
    assert (Hpow : 2 ^ Z.of_nat (S p) = 2 * 2 ^ Z.of_nat p) by (rewrite Nat2Z.inj_succ, Z.pow_succ_r; lia).
    assert (Hp : 0 < 2 ^ Z.of_nat p) by (apply Z.pow_pos_nonneg; lia).
    assert (Hstep : Z.lor (u64 (Z.shiftl acc 1)) (b2z b) = 2 * acc + b2z b).
    { rewrite Z.shiftl_mul_pow2 by lia. change (2 ^ 1) with 2. rewrite wrap_small by (unfold fits; nia).
      replace (acc * 2) with (2 * acc) by lia.
      destruct b; cbn [b2z]; [|rewrite Z.lor_0_r; lia]. destruct acc; [done| |lia]. done. }
    rewrite Hstep. destruct (IH r' (2 * acc + b2z b) Hr' Hb) as (r'' & -> & Hr'' & Hb''); [destruct b; cbn; lia|destruct b; cbn [b2z]; nia|].
    exists r''. split; [|done]. f_equal. rewrite mod_pow2_S, Hpow. fold b. unfold b. cbn [Nat.add]. lia.
Qed.

Lemma lor_add q r p : 0 <= p -> 0 <= q -> 0 <= r < 2 ^ p -> Z.lor (q * 2 ^ p) r = q * 2 ^ p + r.
Proof.
  intros Hp Hq Hr. rewrite <- Z.shiftl_mul_pow2 by done. symmetry. apply Z.add_nocarry_lor. apply Z.bits_inj'. intros i Hi.
  rewrite Z.land_spec, Z.bits_0, Z.shiftl_spec by done. destruct (Z.lt_ge_cases i p) as [Hlt|Hge].
  - by rewrite Z.testbit_neg_r by lia.
  - destruct (decide (r = 0)) as [->|Hn]; [by rewrite Z.bits_0, andb_false_r|].
    rewrite (Z.bits_above_log2 r), andb_false_r; [done|lia|]. apply Z.log2_lt_pow2; [lia|].
    apply Z.lt_le_trans with (2 ^ p); [lia|]. by apply Z.pow_le_mono_r.
Qed.

Lemma read_golomb_spec v p rest fuel r :
  r_inv r -> r_bits r = golomb_bits v p ++ rest -> fits 64 v -> (p <= 63)%nat -> v / 2 ^ Z.of_nat p < Z.of_nat fuel ->
  exists r', read_golomb_rice fuel p r = Done (v, r') /\ r_inv r' /\ r_bits r' = rest.
Proof.
  intros Hr He Hv Hp Hf. unfold fits in Hv. assert (Hpp : 0 < 2 ^ Z.of_nat p) by (apply Z.pow_pos_nonneg; lia).
  assert (Hp64 : 2 ^ Z.of_nat p <= 2 ^ 63) by (apply Z.pow_le_mono_r; lia).
  pose proof (Z.div_mod v (2 ^ Z.of_nat p) ltac:(lia)) as Hdm. pose proof (Z.mod_pos_bound v (2 ^ Z.of_nat p) Hpp) as Hm.
  set (q := v / 2 ^ Z.of_nat p) in *. assert (Hq : 0 <= q) by (apply Z.div_pos; lia).
  unfold golomb_bits in He. fold q in He. rewrite <- app_assoc in He. cbn [app] in He. unfold read_golomb_rice.
  destruct (read_unary_spec (Z.to_nat q) _ fuel r 0 Hr He) as (r1 & -> & Hr1 & Hb1); [lia|lia|nia|]. rewrite Z2Nat.id, Z.add_0_l by done.
  destruct (read_bits_spec (v mod 2 ^ Z.of_nat p) p rest r1 0 Hr1 Hb1) as (r2 & -> & Hr2 & Hb2); [lia|lia|].
  exists r2. split; [|done]. f_equal. f_equal. rewrite Z.mod_mod, Z.mul_0_l, Z.add_0_l by lia.
  rewrite Z.shiftl_mul_pow2 by lia. rewrite wrap_small by (unfold fits; nia). rewrite lor_add by lia. lia.
Qed.

(** ** Differences *)

Fixpoint delta_bits (prev : Z) (l : list Z) : list bool :=
  match l with
  | [] => []
  | x :: r => golomb_bits (x - prev) GOLOMB_P ++ delta_bits x r
  end.

Definition ascending (prev : Z) (l : list Z) : Prop := StronglySorted Z.le (prev :: l).

Lemma ascending_cons prev x l : ascending prev (x :: l) <-> prev <= x /\ ascending x l.
Proof.
  unfold ascending. split.
  - intros [Hs Hf]%StronglySorted_inv. apply Forall_cons in Hf as [Hx _]. done.
  - intros [Hx Hs]. constructor; [done|]. constructor; [done|]. apply StronglySorted_inv in Hs as [_ Hf].
    eapply Forall_impl; [exact Hf|]. cbn. lia.
Qed.

Lemma write_deltas_spec l : forall w prev,
  w_inv w -> ascending prev l -> 0 <= prev -> Forall (fits 64) l ->
  w_inv (foldl write_delta (w, prev) l).1 /\ w_bits (foldl write_delta (w, prev) l).1 = w_bits w ++ delta_bits prev l.
Proof.
  induction l as [|x l IH]; intros w prev Hw Ha Hp Hl; cbn [foldl delta_bits]; [by rewrite app_nil_r|].
  apply ascending_cons in Ha as [Hx Ha]. apply Forall_cons in Hl as [Hfx Hl]. unfold fits in Hfx. unfold write_delta at 2 4. cbn [fst snd].
  rewrite wrap_small by (unfold fits; lia). destruct (write_golomb_spec w (x - prev) GOLOMB_P Hw) as [Hw1 Hb1].
  destruct (IH _ x Hw1 Ha ltac:(lia) Hl) as [Hw2 Hb2]. split; [done|]. by rewrite Hb2, Hb1, <- app_assoc.
Qed.

(** ** Matching *)

Lemma skip_below_spec v qs :
  StronglySorted Z.le qs -> StronglySorted Z.le (skip_below v qs) /\
  (forall x, v <= x -> x ∈ skip_below v qs <-> x ∈ qs) /\ (forall x, x ∈ skip_below v qs -> v <= x).
Proof.
  induction qs as [|q qs IH]; intros Hs; cbn [skip_below]; [by split_and!; [|done|intros x ?%not_elem_of_nil]|].
  pose proof Hs as Hs'. apply StronglySorted_inv in Hs' as [Hs' Hf]. destruct (Z.ltb_spec q v) as [Hlt|Hge].
  - destruct (IH Hs') as (I1 & I2 & I3). split_and!; [done| |done]. intros x Hx. rewrite I2, elem_of_cons by done. split; [auto|]. intros [->|?]; [lia|done].
  - split_and!; [done|done|]. intros x [->|Hx]%elem_of_cons; [done|]. rewrite Forall_forall in Hf. specialize (Hf x Hx). lia.
Qed.

Lemma match_loop_spec l fuel rest : forall r prev qs,
  r_inv r -> r_bits r = delta_bits prev l ++ rest -> ascending prev l -> 0 <= prev -> Forall (fits 64) l ->
  Forall (fun x => x < Z.of_nat fuel * 2 ^ Z.of_nat GOLOMB_P) l -> StronglySorted Z.le qs ->
  match_loop fuel (length l) r prev qs = Done (existsb (fun x => bool_decide (x ∈ qs)) l).
Proof.
  induction l as [|x l IH]; intros r prev qs Hr He Ha Hp Hl Hf Hs; cbn [match_loop length existsb]; [done|].
  apply ascending_cons in Ha as [Hx Ha]. apply Forall_cons in Hl as [Hfx Hl]. apply Forall_cons in Hf as [Hfu Hf]. unfold fits in Hfx.
  cbn [delta_bits] in He. rewrite <- app_assoc in He.
  destruct (read_golomb_spec (x - prev) GOLOMB_P _ fuel r Hr He) as (r' & -> & Hr' & Hb'); [unfold fits; lia|unfold GOLOMB_P; lia| |].
  { apply Z.div_lt_upper_bound; [done|]. lia. }
  replace (u64 (prev + (x - prev))) with x by (rewrite wrap_small; unfold fits; lia).
  destruct (skip_below_spec x qs Hs) as (S1 & S2 & S3).
  assert (Hrest : existsb (fun y => bool_decide (y ∈ qs)) l = existsb (fun y => bool_decide (y ∈ skip_below x qs)) l).
  { unfold ascending in Ha. apply StronglySorted_inv in Ha as [_ Hall]. clear -Hall S2. induction Hall as [|y l Hy _ IH]; [done|]. cbn [existsb].
    rewrite IH. f_equal. apply bool_decide_ext. by rewrite S2. }
  assert (Hhere : bool_decide (x ∈ qs) = bool_decide (x ∈ skip_below x qs)) by (apply bool_decide_ext; by rewrite S2).
  rewrite Hrest, Hhere. destruct (skip_below x qs) as [|q qs'] eqn:Hq.
  - assert (Hno : forall (y : Z), bool_decide (y ∈ []) = false) by (intros y; apply bool_decide_eq_false; apply not_elem_of_nil).
    rewrite Hno. cbn [orb]. f_equal. symmetry. clear -Hno. induction l as [|y l IH]; [done|]. cbn [existsb]. by rewrite Hno, IH.
  - destruct (Z.eqb_spec q x) as [->|Hne]; [by rewrite bool_decide_eq_true_2 by by left|].
    rewrite (bool_decide_eq_false_2 (x ∈ q :: qs')).
    + cbn [orb]. by apply IH; [| | |lia| | |].
    + intros [->|Hin]%elem_of_cons; [done|]. pose proof (S3 q ltac:(by left)). apply StronglySorted_inv in S1 as [_ S1].
      rewrite Forall_forall in S1. specialize (S1 x Hin). lia.
Qed.

Lemma dedup_cons a b l : dedup (a :: b :: l) = if a =? b then dedup (b :: l) else a :: dedup (b :: l).
Proof. done. Qed.

Lemma dedup_elem l : forall x, x ∈ dedup l <-> x ∈ l.
Proof.
  induction l as [|a l IH]; intros x; [done|]. destruct l as [|b l]; [done|]. rewrite dedup_cons.
  destruct (Z.eqb_spec a b) as [->|Hne]; rewrite ?elem_of_cons, IH, ?elem_of_cons; tauto.
Qed.

Lemma dedup_sorted l : StronglySorted Z.le l -> StronglySorted Z.le (dedup l).
Proof.
  induction l as [|a l IH]; intros Hs; [done|]. destruct l as [|b l]; [done|]. rewrite dedup_cons.
  apply StronglySorted_inv in Hs as [Hs Hf]. specialize (IH Hs). destruct (a =? b); [done|]. constructor; [done|].
  apply Forall_forall. intros x Hx. rewrite dedup_elem in Hx. rewrite Forall_forall in Hf. by apply Hf.
Qed.

Lemma sort_u64_sorted l : StronglySorted Z.le (sort_u64 l).
Proof. apply (StronglySorted_merge_sort Z.le). Qed.
Lemma sort_u64_perm l : sort_u64 l ≡ₚ l.
Proof. apply merge_sort_Permutation. Qed.

Lemma compact_size_roundtrip n rest :
  0 <= n < 2 ^ 64 -> read_compact_size (write_compact_size n ++ rest) = Some (n, length (write_compact_size n)).
Proof.
  intros Hn. unfold write_compact_size.
  assert (Hfield : forall k v, 0 <= v < pow256 k -> from_le (take k (to_le k v ++ rest)) = v).
  { intros k v Hv. rewrite take_app_length' by (symmetry; apply length_to_le). by apply from_to_le_small. }
  destruct (Z.ltb_spec n 0xfd).
  { cbn [app read_compact_size]. by destruct (Z.eqb_spec n 0xff), (Z.eqb_spec n 0xfe), (Z.eqb_spec n 0xfd); try lia. }
  assert (H2 : pow256 2 = 2 ^ 16) by done. assert (H4 : pow256 4 = 2 ^ 32) by done. assert (H8 : pow256 8 = 2 ^ 64) by done.
  destruct (Z.leb_spec n 0xffff); [|destruct (Z.leb_spec n 0xffffffff)]; cbn [app read_compact_size Z.eqb drop Pos.eqb];
    rewrite drop_0, Hfield by (rewrite ?H2, ?H4, ?H8; lia); cbn [length]; rewrite length_app, length_to_le;
    (rewrite (proj2 (Nat.ltb_ge _ _)); [done|lia]).
Qed.

(** ** Hashes are 64 bits wide *)

Lemma fits_bits w x : 0 <= w -> fits w x <-> 0 <= x /\ forall i, w <= i -> Z.testbit x i = false.
Proof.
  intros Hw. split.
  - intros [Hx Hlt]. split; [done|]. intros i Hi. destruct (decide (x = 0)) as [->|Hn]; [apply Z.bits_0|].
    apply Z.bits_above_log2; [done|]. apply Z.log2_lt_pow2; [lia|]. eapply Z.lt_le_trans; [exact Hlt|]. by apply Z.pow_le_mono_r.
  - intros [Hx Hb]. split; [done|]. destruct (decide (x = 0)) as [->|Hn]; [by apply Z.pow_pos_nonneg|].
    apply Z.log2_lt_pow2; [lia|]. destruct (Z.lt_ge_cases (Z.log2 x) w) as [|Hge]; [done|].
    pose proof (Z.bit_log2 x ltac:(lia)) as Hbit. rewrite Hb in Hbit by done. done.
Qed.

Lemma fits_lxor w a b : 0 <= w -> fits w a -> fits w b -> fits w (Z.lxor a b).
Proof.
  intros Hw Ha Hb. rewrite fits_bits in Ha, Hb |- * by done. destruct Ha as [Ha Ha'], Hb as [Hb Hb']. split; [by apply Z.lxor_nonneg|].
  intros i Hi. by rewrite Z.lxor_spec, Ha', Hb'.
Qed.

Lemma fits_lor w a b : 0 <= w -> fits w a -> fits w b -> fits w (Z.lor a b).
Proof.
  intros Hw Ha Hb. rewrite fits_bits in Ha, Hb |- * by done. destruct Ha as [Ha Ha'], Hb as [Hb Hb']. split; [by apply Z.lor_nonneg|].
  intros i Hi. by rewrite Z.lor_spec, Ha', Hb'.
Qed.

Lemma fits_rotate x r : 0 <= r <= 64 -> fits 64 x -> fits 64 (rotate_left x r).
Proof.
  intros Hr [Hx Hlt]. apply fits_lor; [done|by apply wrap_fits|]. rewrite Z.shiftr_div_pow2 by lia. split; [apply Z.div_pos; [lia|apply Z.pow_pos_nonneg; lia]|].
  apply Z.le_lt_trans with x; [|done]. apply Z.div_le_upper_bound; [apply Z.pow_pos_nonneg; lia|]. pose proof (Z.pow_pos_nonneg 2 (64 - r)). nia.
Qed.

Definition sip_ok (s : SipState) : Prop := fits 64 (v0 s) /\ fits 64 (v1 s) /\ fits 64 (v2 s) /\ fits 64 (v3 s).

Ltac fits64 := repeat first [apply fits_lxor; [done| |]|apply fits_rotate; [lia|]|by apply wrap_fits|assumption|unfold fits; lia].

Lemma sip_round_ok s : sip_ok s -> sip_ok (sip_round s).
Proof. intros (Q0 & Q1 & Q2 & Q3). unfold sip_round, sip_ok. cbn [v0 v1 v2 v3]. split_and!; fits64. Qed.

Lemma sip_word_ok s m : sip_ok s -> fits 64 m -> sip_ok (sip_word s m).
Proof.
  intros (Q0 & Q1 & Q2 & Q3) Hm. unfold sip_word.
  assert (Hs : sip_ok (sip_round (sip_round (mkSip (v0 s) (v1 s) (v2 s) (Z.lxor (v3 s) m))))).
  { do 2 apply sip_round_ok. unfold sip_ok. cbn [v0 v1 v2 v3]. split_and!; fits64. }
  revert Hs. generalize (sip_round (sip_round (mkSip (v0 s) (v1 s) (v2 s) (Z.lxor (v3 s) m)))) as s'. intros s' (S0 & S1 & S2 & S3).
  unfold sip_ok. cbn [v0 v1 v2 v3]. split_and!; fits64.
Qed.

Lemma fits_from_le l : bytes_ok l -> (length l <= 8)%nat -> fits 64 (from_le l).
Proof.
  intros Hl Hn. pose proof (from_le_bound l Hl) as [Hlo Hhi]. split; [done|]. eapply Z.lt_le_trans; [exact Hhi|].
  unfold pow256. apply Z.pow_le_mono_r; lia.
Qed.

Lemma siphash_fits key data : bytes_ok key -> bytes_ok data -> fits 64 (siphash_2_4 key data).
Proof.
  intros Hk Hd. unfold siphash_2_4. set (chunks := (length data / 8)%nat).
  assert (Hslice : forall n l, bytes_ok l -> fits 64 (from_le (take 8 (drop n l)))).
  { intros n l Hl. apply fits_from_le; [by apply Forall_take, Forall_drop|]. rewrite length_take. lia. }
  pose proof (Hslice 0%nat key Hk) as Hk0. pose proof (Hslice 8%nat key Hk) as Hk1. rewrite drop_0 in Hk0.
  set (s0 := mkSip (Z.lxor 0x736f6d6570736575 _) _ _ _). assert (Hs0 : sip_ok s0) by (unfold s0, sip_ok; cbn [v0 v1 v2 v3]; split_and!; fits64).
  clearbody s0. set (s1 := foldl _ s0 _). assert (Hs1 : sip_ok s1).
  { unfold s1. clear s1. revert s0 Hs0. generalize (seq 0 chunks) as l. induction l as [|i l IH]; intros s0 Hs0; [done|]. cbn [foldl].
    apply IH, sip_word_ok; [done|]. by apply Hslice. }
  clearbody s1. set (last := foldl _ (Z.shiftl _ _) _). assert (Hlast : fits 64 last).
  { assert (Hgen : forall (l : bytes) (k : nat) acc, bytes_ok l -> (k + length l <= 8)%nat -> fits 64 acc ->
      fits 64 (foldl (fun last '(i, byte) => Z.lor last (Z.shiftl byte (Z.of_nat i * 8))) acc (imap (fun i b => ((k + i)%nat, b)) l))).
    { induction l as [|b l IH]; intros k acc Hl Hlen Hacc; [done|]. apply Forall_cons in Hl as [Hb Hl]. cbn [imap foldl length] in *.
      rewrite (imap_ext _ (fun i b => ((S k + i)%nat, b))) by (intros; cbn; f_equal; lia).
      apply IH; [done|lia|]. apply fits_lor; [done|done|]. rewrite Nat.add_0_r, Z.shiftl_mul_pow2 by lia. unfold fits in Hb |- *.
      assert (2 ^ (Z.of_nat k * 8) <= 2 ^ 56) by (apply Z.pow_le_mono_r; lia). assert (0 < 2 ^ (Z.of_nat k * 8)) by (apply Z.pow_pos_nonneg; lia). nia. }
    apply (Hgen _ 0%nat); [by apply Forall_drop| |].
    - rewrite length_drop. unfold chunks. pose proof (Nat.div_mod_eq (length data) 8). pose proof (Nat.mod_upper_bound (length data) 8). lia.
    - change 0xff with (Z.ones 8). rewrite Z.land_ones, Z.shiftl_mul_pow2 by lia. pose proof (Z.mod_pos_bound (len data) (2 ^ 8)). unfold fits. lia. }
  clearbody last. pose proof (sip_word_ok s1 last Hs1 Hlast) as Hs2. revert Hs2. generalize (sip_word s1 last) as s2.
  intros s2 (S0 & S1 & S2 & S3).
  assert (Hs3 : sip_ok (mkSip (v0 s2) (v1 s2) (Z.lxor (v2 s2) 0xff) (v3 s2))) by (unfold sip_ok; cbn [v0 v1 v2 v3]; split_and!; fits64).
  revert Hs3. generalize (mkSip (v0 s2) (v1 s2) (Z.lxor (v2 s2) 0xff) (v3 s2)) as s3. intros s3 Hs3. do 4 apply sip_round_ok in Hs3.
  revert Hs3. generalize (sip_round (sip_round (sip_round (sip_round s3)))) as s4. intros s4 (T0 & T1 & T2 & T3). fits64.
Qed.

Lemma fast_range_bound hash n : fits 64 hash -> 0 < n < 2 ^ 64 -> 0 <= fast_range hash n < n.
Proof.
  unfold fits. intros Hh Hn. unfold fast_range. rewrite (wrap_small 128) by (unfold fits; nia). rewrite Z.shiftr_div_pow2 by lia.
  assert (0 <= hash * n / 2 ^ 64 < n); [|rewrite wrap_small; [done|unfold fits; lia]].
  split; [apply Z.div_pos; nia|]. apply Z.div_lt_upper_bound; [lia|]. nia.
Qed.

(** ** Filters of blocks *)

Section Filter.
Context `{ScriptLib} `{TxLib} `{SetIter} `{HSI : !SetIterLaws}.

Lemma add_indexed l : forall (s : gset bytes) x,
  x ∈ foldl (fun s b => if indexed b then {[b]} ∪ s else s) s l <-> x ∈ s \/ x ∈ l /\ indexed x = true.
Proof.
  induction l as [|b l IH]; intros s x; cbn [foldl]; [rewrite elem_of_nil; tauto|]. rewrite IH, elem_of_cons.
  destruct (indexed b) eqn:Hb; [rewrite elem_of_union, elem_of_singleton|]; (split; [|intros [?|[[->|?] ?]]]); try tauto; try congruence.
  intros [[->|?]|?]; tauto.
Qed.

(** The scripts a block creates and spends. *)
Definition touches (block : Block) (prev_scripts : list (list bytes)) (x : bytes) : Prop :=
  exists i tx, txdata block !! i = Some tx /\
    ((exists o, o ∈ output tx /\ script_pubkey o = x) \/
     is_coinbase tx = false /\ exists prev, prev_scripts !! i = Some prev /\ x ∈ prev).

Lemma add_elements_spec prev_scripts s i tx x :
  x ∈ add_elements prev_scripts s (i, tx) <-> x ∈ s \/ indexed x = true /\
    ((exists o, o ∈ output tx /\ script_pubkey o = x) \/
     is_coinbase tx = false /\ exists prev, prev_scripts !! i = Some prev /\ x ∈ prev).
Proof.
  unfold add_elements.
  assert (Hout : forall s : gset bytes, foldl (fun s o => if indexed (script_pubkey o) then {[script_pubkey o]} ∪ s else s) s (output tx) =
    foldl (fun s b => if indexed b then {[b]} ∪ s else s) s (map script_pubkey (output tx))).
  { generalize (output tx) as l. induction l as [|o l IH]; intros s'; [done|]. cbn [foldl map]. apply IH. }
  rewrite Hout. assert (Hin : x ∈ map script_pubkey (output tx) <-> exists o, o ∈ output tx /\ script_pubkey o = x).
  { rewrite list_elem_of_fmap. naive_solver. }
  assert (Hprev : forall prev, prev_scripts !! i = Some prev -> (exists p, prev_scripts !! i = Some p /\ x ∈ p) <-> x ∈ prev).
  { intros prev Hp. rewrite Hp. split; [by intros (p & [= ->] & ?)|eauto]. }
  destruct (is_coinbase tx); [rewrite add_indexed, Hin; intuition congruence|].
  destruct (prev_scripts !! i) as [prev|] eqn:Hp; rewrite !add_indexed, Hin; [rewrite (Hprev prev eq_refl); tauto|].
  split; [tauto|]. intros [?|[? [?|[_ (p & ? & _)]]]]; [tauto|tauto|done].
Qed.

Lemma block_elements_spec block prev_scripts x :
  x ∈ block_elements block prev_scripts <-> indexed x = true /\ touches block prev_scripts x.
Proof.
  unfold block_elements, touches. assert (Hgen : forall l (k : nat) s,
    x ∈ foldl (add_elements prev_scripts) s (imap (fun i tx => ((k + i)%nat, tx)) l) <-> x ∈ s \/ indexed x = true /\ exists i tx, l !! i = Some tx /\
      ((exists o, o ∈ output tx /\ script_pubkey o = x) \/ is_coinbase tx = false /\ exists prev, prev_scripts !! (k + i)%nat = Some prev /\ x ∈ prev)).
  { induction l as [|tx l IH]; intros k s; cbn [imap foldl]; [naive_solver|].
    rewrite (imap_ext _ (fun i tx => ((S k + i)%nat, tx))) by (intros; cbn; f_equal; lia). rewrite IH, add_elements_spec, Nat.add_0_r. split.
    - intros [[?|[Hi Ht]]|[Hi (i & t & Ht & Hc)]]; [by left|right|right]; (split; [done|]).
      + exists 0%nat, tx. by rewrite Nat.add_0_r.
      + exists (S i), t. by rewrite Nat.add_succ_r.
    - intros [?|[Hi (i & t & Ht & Hc)]]; [by left; left|]. destruct i as [|i].
      + injection Ht as ->. rewrite Nat.add_0_r in Hc. left. by right.
      + right. split; [done|]. exists i, t. by rewrite Nat.add_succ_r in Hc. }
  rewrite (Hgen (txdata block) 0%nat ∅). set_solver.
Qed.

Lemma gcs_match items block_hash query fuel :
  items <> ∅ -> bytes_ok block_hash -> (forall e, e ∈ items -> bytes_ok e) -> Z.of_nat (size items) < 2 ^ 45 -> (size items <= fuel)%nat ->
  let key := siphash_key_from_block_hash block_hash in let f := Z.of_nat (size items) * 2 ^ 19 in
  exists b, match_any fuel (gcs_encode items key) block_hash query = Done (Some b) /\
    (b = true <-> exists q e, q ∈ query /\ e ∈ items /\ hash_to_range q f key = hash_to_range e f key).
Proof.
  intros Hne Hh Hok Hsz Hfuel key f. destruct query as [|q0 query'] eqn:Hquery.
  { exists false. split; [done|]. split; [done|]. by intros (q & e & ?%not_elem_of_nil & _). }
  rewrite <- Hquery. assert (Hqne : query <> []) by congruence. clear Hquery q0 query'.
  assert (Hn : 0 < Z.of_nat (size items)). { assert (size items <> 0%nat); [|lia]. by rewrite size_non_empty_iff_L || (intros Hz; apply size_empty_inv in Hz; apply Hne; by apply leibniz_equiv). }
  assert (Hf : u64 (Z.of_nat (size items) * Z.shiftl 1 (Z.of_nat GOLOMB_P)) = f).
  { change (Z.shiftl 1 (Z.of_nat GOLOMB_P)) with (2 ^ 19). apply wrap_small. unfold fits. lia. }
  set (hashed := sort_u64 (map (fun e => hash_to_range e f key) (iter_set items))).
  set (w := (foldl write_delta (writer_new, 0) hashed).1).
  assert (Henc : gcs_encode items key = write_compact_size (Z.of_nat (size items)) ++ finish w).
  { unfold gcs_encode. by rewrite Hf. }
  assert (Hbound : Forall (fun x => 0 <= x < f) hashed).
  { unfold hashed. rewrite sort_u64_perm. apply Forall_fmap, Forall_forall. intros e He. rewrite iter_set_perm in He. apply elem_of_elements in He.
    unfold compose. apply (fast_range_bound (siphash_2_4 key e) f); [|unfold f; lia]. apply siphash_fits; [by apply Forall_take|by apply Hok]. }
  assert (Hasc : ascending 0 hashed).
  { constructor; [apply sort_u64_sorted|]. eapply Forall_impl; [exact Hbound|]. cbn. lia. }
  assert (Hlen : length hashed = size items).
  { unfold hashed. rewrite sort_u64_perm, length_map, iter_set_perm. done. }
  assert (Hfit : Forall (fits 64) hashed).
  { eapply Forall_impl; [exact Hbound|]. unfold fits, f. cbn. lia. }
  destruct (write_deltas_spec hashed writer_new 0) as [Hw Hwb]; [split; [cbn; lia|reflexivity]|done|done|done|]. fold w in Hw, Hwb.
  destruct (writer_finish_spec w Hw) as [k Hk]. rewrite Hwb in Hk. change (w_bits writer_new) with (@nil bool) in Hk. cbn [app] in Hk.
  set (qs := dedup (sort_u64 (map (fun e => hash_to_range e f key) query))).
  exists (existsb (fun x => bool_decide (x ∈ qs)) hashed). split.
  - unfold match_any. fold key. rewrite (bool_decide_eq_false_2 _ Hqne), Henc.
    assert (Hn64 : 0 <= Z.of_nat (size items) < 2 ^ 64) by lia.
    pose proof (compact_size_roundtrip (Z.of_nat (size items)) (finish w) Hn64) as Hcs.
    rewrite bool_decide_eq_false_2, bool_decide_eq_false_2; [cbn [orb]| |].
    + rewrite Hcs, (proj2 (Z.eqb_neq _ 0)) by lia. rewrite Hf, drop_app_length. fold qs. rewrite Nat2Z.id, <- Hlen.
      destruct (reader_new_spec (finish w)) as [Hr Hrb]. rewrite (match_loop_spec hashed fuel (replicate k false)); [done|done|by rewrite Hrb|done|done|done| |].
      * eapply Forall_impl; [exact Hbound|]. intros x Hx. unfold f in Hx. cbv beta. change (Z.of_nat GOLOMB_P) with 19. nia.
      * apply dedup_sorted, sort_u64_sorted.
    + intros Heq. rewrite Heq in Hcs. cbn in Hcs. injection Hcs as Hcs. lia.
    + intros Heq. rewrite Heq in Hcs. cbn in Hcs. injection Hcs as Hcs. lia.
  - rewrite existsb_exists. setoid_rewrite <- list_elem_of_In. setoid_rewrite bool_decide_eq_true. unfold qs, hashed. split.
    + intros (x & Hx & Hq). rewrite dedup_elem, sort_u64_perm in Hq. rewrite sort_u64_perm in Hx.
      apply list_elem_of_fmap in Hx as (e & -> & He). apply list_elem_of_fmap in Hq as (q & Heq & Hq).
      rewrite iter_set_perm in He. apply elem_of_elements in He. eauto.
    + intros (q & e & Hq & He & Heq). exists (hash_to_range e f key). rewrite dedup_elem, !sort_u64_perm. split.
      * apply list_elem_of_fmap. exists e. split; [done|]. rewrite iter_set_perm. by apply elem_of_elements.
      * apply list_elem_of_fmap. eauto.
Qed.

(** C17: A block filter matches exactly: its elements are the scripts the block
    creates or spends, without OP_RETURN and empty ones; matching a filter
    against a query always ends, and answers yes if and only if some queried
    script has the hash of an element, so a script of the block is never
    missed. *)
Theorem block_filter_exact block block_hash prev_scripts query fuel :
  bytes_ok block_hash -> (forall x, touches block prev_scripts x -> bytes_ok x) ->
  let items := block_elements block prev_scripts in
  Z.of_nat (size items) < 2 ^ 45 -> (size items <= fuel)%nat ->
  let key := siphash_key_from_block_hash block_hash in let f := Z.of_nat (size items) * 2 ^ 19 in
  (forall x, x ∈ items <-> indexed x = true /\ touches block prev_scripts x) /\
  exists b, match_any fuel (filter_data (build_basic_filter block block_hash prev_scripts)) block_hash query = Done (Some b) /\
    (b = true <-> exists q e, q ∈ query /\ e ∈ items /\ hash_to_range q f key = hash_to_range e f key).
Proof.
  intros Hh Hok items Hsz Hfuel key f. split; [intros x; apply block_elements_spec|]. unfold build_basic_filter. fold items key.
  cbn [filter_data]. case_bool_decide as He.
  - exists false. split.
    + unfold match_any. case_bool_decide; [done|]. rewrite (bool_decide_eq_true_2 ([0] = [0])) by done. by rewrite orb_true_r.
    + split; [done|]. intros (q & e & _ & Hin & _). rewrite He in Hin. by apply elem_of_empty in Hin.
  - apply gcs_match; [done|done| |done|done]. intros e Hin. apply block_elements_spec in Hin as [_ Hin]. by apply Hok.
Qed.

(** A truncated filter never ends: with data that stops before the unary part
    of a code, the reader yields zeros forever and matching has no result. *)
Theorem truncated_filter_diverges block_hash q fuel : match_any fuel [1] block_hash [q] = OutOfFuel.
Proof.
  unfold match_any. cbn [bool_decide]. rewrite !bool_decide_eq_false_2 by done. cbn [orb read_compact_size Z.eqb Pos.eqb drop].
  change (Z.to_nat 1) with 1%nat. cbn [match_loop]. unfold read_golomb_rice.
  assert (Hu : forall fuel acc, read_unary fuel acc (reader_new []) = OutOfFuel).
  { clear. induction fuel as [|fuel IH]; intros acc; [done|]. cbn [read_unary]. apply IH. }
  by rewrite Hu.
Qed.
End Filter.

(** ** The theorems at concrete inputs *)

Section Examples.
#[local] Existing Instance SampleScript.script_lib.
#[local] Existing Instance Sample.tx_lib.
#[local] Instance sample_set_iter : SetIter := {| iter_set := elements |}.
#[local] Instance sample_set_iter_laws : SetIterLaws := {| iter_set_perm := fun X => reflexivity _ |}.

Definition fx_block : Block :=
  mkBlock (mkHeader 4 (replicate 32 0) (replicate 32 0) 200 5 2)
    [mkTransaction 2 0 [mkTxIn null_outpoint [] 0xffffffff []] [mkTxOut 10 [0x51]; mkTxOut 0 [0x6a; 0x01]; mkTxOut 7 [0x52; 0x53]]].

Lemma fx_touches x : touches fx_block [] x -> bytes_ok x.
Proof.
  intros (i & tx & Hi & [(o & Ho & <-)|(_ & prev & Hp & _)]); [|by destruct i].
  destruct i as [|i]; [|by destruct i]. injection Hi as <-. cbn in Ho.
  repeat (apply elem_of_cons in Ho as [->|Ho]; [apply bytes_okb_ok; reflexivity|]). by apply not_elem_of_nil in Ho.
Qed.

(** The script of an output is found. *)
Lemma block_filter_exact_witness :
  match_any 2 (filter_data (build_basic_filter fx_block (replicate 32 9) [])) (replicate 32 9) [[0x52; 0x53]] = Done (Some true).
Proof.
  destruct (block_filter_exact fx_block (replicate 32 9) [] [[0x52; 0x53]] 2) as (Hin & b & Hb & Hiff).
  - apply bytes_okb_ok. reflexivity.
  - exact fx_touches.
  - vm_compute. reflexivity.
  - vm_compute. lia.
  - rewrite Hb. assert (b = true) as ->; [|reflexivity]. apply Hiff. exists [0x52; 0x53], [0x52; 0x53]. split_and!; [by left| |reflexivity].
    apply Hin. split; [reflexivity|]. exists 0%nat. eexists. split; [reflexivity|]. left. exists (mkTxOut 7 [0x52; 0x53]). split; [|reflexivity].
    do 2 right. by left.
Defined.
End Examples.
