(* ===== verification/BlockSync.v ===== *)
(** * Block download

    The [BlockSync] of [sync.rs]: the queue of blocks to fetch, the requests in
    flight with each peer, assignment weighted by bandwidth, deliveries,
    [notfound] answers, stale peers and disconnections. *)

From Stdlib Require Import ZArith Lia SpecFloat.
From stdpp Require Import base option numbers list gmap.
From S2P Require Import Prelude F64 Bytes Types.

Abbreviation PeerId := Z.

(** ** Bandwidth *)

(** Instants are nanoseconds; [Duration::as_secs_f64] of a difference. *)
Definition as_secs_f64 (nanos : Z) : f64 :=
  f64_add (f64_of_u64 (nanos / 1000000000)) (f64_div (f64_of_u64 (nanos mod 1000000000)) (f64_of_u64 1000000000)).

Record PeerBandwidth := mkBandwidth { ewma_bps : f64; blocks_delivered : Z; last_delivery : Z }.

Definition DEFAULT_BPS : f64 := f64_of_u64 500000.
(** The literals 0.3 and 0.001. *)
Definition ALPHA : f64 := f64_div (f64_of_u64 3) (f64_of_u64 10).
Definition MIN_ELAPSED : f64 := f64_div (f64_of_u64 1) (f64_of_u64 1000).

Definition bandwidth_new (now : Z) : PeerBandwidth := mkBandwidth DEFAULT_BPS 0 now.

Definition record_delivery (now block_size : Z) (bw : PeerBandwidth) : PeerBandwidth :=
  let elapsed := as_secs_f64 (sat_sub now (last_delivery bw)) in
  let ewma :=
    if f64_lt MIN_ELAPSED elapsed then
      let instantaneous_bps := f64_div (f64_of_u64 block_size) elapsed in
      f64_add (f64_mul ALPHA instantaneous_bps) (f64_mul (f64_sub (f64_of_u64 1) ALPHA) (ewma_bps bw))
    else ewma_bps bw in
  mkBandwidth ewma (u32 (blocks_delivered bw + 1)) now.

(** ** State *)

Record BlockSync := mkSync {
  queue : list hash256;
  in_flight : gmap hash256 PeerId;
  peer_requests : gmap PeerId (gset hash256);
  max_in_flight : nat;
  peer_last_recv : gmap PeerId Z;
  peer_bandwidth : gmap PeerId PeerBandwidth;
  peer_notfound_count : gmap PeerId Z;
  peer_stale_cycles : gmap PeerId Z;
  block_notfound_peers : gmap hash256 (gset PeerId);
  received : gset hash256;
  excluded_peer : option PeerId;
  download_paused : bool;
  last_recv : option Z }.

Definition sync_new : BlockSync := mkSync [] ∅ ∅ 128 ∅ ∅ ∅ ∅ ∅ ∅ None false None.

(** The download state proper, and the statistics around it. *)
Definition set_core (s : BlockSync) (q : list hash256) (f : gmap hash256 PeerId) (r : gmap PeerId (gset hash256)) : BlockSync :=
  mkSync q f r (max_in_flight s) (peer_last_recv s) (peer_bandwidth s) (peer_notfound_count s) (peer_stale_cycles s)
    (block_notfound_peers s) (received s) (excluded_peer s) (download_paused s) (last_recv s).
Definition set_notfound (s : BlockSync) (nf : gmap hash256 (gset PeerId)) : BlockSync :=
  mkSync (queue s) (in_flight s) (peer_requests s) (max_in_flight s) (peer_last_recv s) (peer_bandwidth s)
    (peer_notfound_count s) (peer_stale_cycles s) nf (received s) (excluded_peer s) (download_paused s) (last_recv s).
Definition set_received (s : BlockSync) (r : gset hash256) : BlockSync :=
  mkSync (queue s) (in_flight s) (peer_requests s) (max_in_flight s) (peer_last_recv s) (peer_bandwidth s)
    (peer_notfound_count s) (peer_stale_cycles s) (block_notfound_peers s) r (excluded_peer s) (download_paused s) (last_recv s).
Definition set_stats (s : BlockSync) (lr : gmap PeerId Z) (bw : gmap PeerId PeerBandwidth) (nfc stale : gmap PeerId Z) (last : option Z) :
    BlockSync :=
  mkSync (queue s) (in_flight s) (peer_requests s) (max_in_flight s) lr bw nfc stale (block_notfound_peers s) (received s)
    (excluded_peer s) (download_paused s) last.

Record GetBlocks := mkGetBlocks { gb_peer : PeerId; gb_hashes : list hash256 }.

(** The iteration orders of the hash maps and sets. *)
Class SyncIter := {
  iter_requests : gmap PeerId (gset hash256) -> list (PeerId * gset hash256);
  iter_hashes : gset hash256 -> list hash256;
  iter_bandwidth : gmap PeerId PeerBandwidth -> list (PeerId * PeerBandwidth) }.
Class SyncIterLaws `{SyncIter} := {
  iter_requests_perm m : iter_requests m ≡ₚ map_to_list m;
  iter_hashes_perm X : iter_hashes X ≡ₚ elements X;
  iter_bandwidth_perm m : iter_bandwidth m ≡ₚ map_to_list m }.

(** ** Scheduling and assignment *)

Definition schedule_one (s : BlockSync) (h : hash256) : BlockSync :=
  if negb (bool_decide (is_Some (in_flight s !! h))) && negb (bool_decide (h ∈ received s))
  then set_core s (queue s ++ [h]) (in_flight s) (peer_requests s) else s.

Definition schedule (hashes : list hash256) (s : BlockSync) : BlockSync := foldl schedule_one s hashes.

Definition MAX_PER_PEER : nat := 16.
Definition PROBE_PER_PEER : nat := 2.

Definition eligible (s : BlockSync) (peer_ids : list PeerId) : list PeerId :=
  match excluded_peer s with
  | Some ex =>
      if (1 <? length peer_ids)%nat && bool_decide (ex ∈ peer_ids) then filter (fun p => p <> ex) peer_ids else peer_ids
  | None => peer_ids
  end.

(** Proven peers with their rates, and unproven ones. *)
Definition classify (s : BlockSync) (force_all_proven : bool) (acc : list (PeerId * f64) * list PeerId) (pid : PeerId) :
    list (PeerId * f64) * list PeerId :=
  let '(proven, unproven) := acc in
  if negb force_all_proven && (default 0 (peer_stale_cycles s !! pid) >? 0) then acc
  else
    let delivered := default 0 (blocks_delivered <$> peer_bandwidth s !! pid) in
    if (delivered >? 0) || force_all_proven
    then (proven ++ [(pid, default DEFAULT_BPS (ewma_bps <$> peer_bandwidth s !! pid))], unproven)
    else (proven, unproven ++ [pid]).

Definition clamp_share (n : Z) : nat := Nat.min (Nat.max (Z.to_nat n) 1) MAX_PER_PEER.

Definition allocate (peer_ids : list PeerId) (proven : list (PeerId * f64)) (unproven : list PeerId) (available_slots : nat) :
    list (PeerId * nat) :=
  let probe_slots := Nat.min (length unproven * PROBE_PER_PEER) (available_slots / 4) in
  let bulk_slots := (available_slots - probe_slots)%nat in
  match proven with
  | [] => map (fun pid => (pid, Nat.min (Nat.max (available_slots / length peer_ids) 1) MAX_PER_PEER)) peer_ids
  | _ =>
      let total_weight := foldl (fun t x => f64_add t x.2) (f64_of_u64 0) proven in
      map (fun '(pid, w) =>
             (pid, clamp_share (f64_floor_u64 (f64_mul (f64_div w total_weight) (f64_of_u64 (Z.of_nat bulk_slots)))))) proven
      ++ map (fun pid => (pid, PROBE_PER_PEER)) unproven
  end.

(** [sort_by] on the allotment is stable. *)
Fixpoint insert_alloc (x : PeerId * nat) (l : list (PeerId * nat)) : list (PeerId * nat) :=
  match l with
  | [] => [x]
  | y :: r => if (x.2 <? y.2)%nat then x :: y :: r else y :: insert_alloc x r
  end.
Definition sort_allocs (l : list (PeerId * nat)) : list (PeerId * nat) := foldl (fun acc x => insert_alloc x acc) [] l.

Fixpoint reduce_allocs (excess : nat) (l : list (PeerId * nat)) : list (PeerId * nat) :=
  match l with
  | [] => []
  | (pid, n) :: r =>
      if (excess =? 0)%nat then l
      else let reduce := Nat.min (n - 1) excess in (pid, (n - reduce)%nat) :: reduce_allocs (excess - reduce) r
  end.

Definition total_alloc (l : list (PeerId * nat)) : nat := foldr (fun x n => (x.2 + n)%nat) 0%nat l.

Definition trim_allocs (available_slots : nat) (l : list (PeerId * nat)) : list (PeerId * nat) :=
  if (available_slots <? total_alloc l)%nat then reduce_allocs (total_alloc l - available_slots) (sort_allocs l) else l.

Definition request (s : BlockSync) (peer : PeerId) (h : hash256) (rest : list hash256) : BlockSync :=
  set_core s rest (<[h := peer]> (in_flight s)) (<[peer := {[h]} ∪ default ∅ (peer_requests s !! peer)]> (peer_requests s)).

(** [count] pops for one peer; what it has declined is deferred. *)
Fixpoint pop_batch (count : nat) (peer : PeerId) (s : BlockSync) (batch deferred : list hash256) : BlockSync * list hash256 * list hash256 :=
  match count, queue s with
  | S count, h :: rest =>
      if bool_decide (peer ∈ default ∅ (block_notfound_peers s !! h))
      then pop_batch count peer (set_core s rest (in_flight s) (peer_requests s)) batch (deferred ++ [h])
      else pop_batch count peer (request s peer h rest) (batch ++ [h]) deferred
  | _, _ => (s, batch, deferred)
  end.

Definition assign_peer (now : Z) (acc : BlockSync * list GetBlocks) (alloc : PeerId * nat) : BlockSync * list GetBlocks :=
  let '(s, commands) := acc in
  let '(peer, count) := alloc in
  if bool_decide (queue s = []) then acc
  else
    let '(s, batch, deferred) := pop_batch count peer s [] [] in
    let s := set_core s (deferred ++ queue s) (in_flight s) (peer_requests s) in
    if bool_decide (batch = []) then (s, commands)
    else
      (set_stats s (match peer_last_recv s !! peer with Some _ => peer_last_recv s | None => <[peer := now]> (peer_last_recv s) end)
         (peer_bandwidth s) (peer_notfound_count s) (peer_stale_cycles s) (last_recv s),
       commands ++ [mkGetBlocks peer batch]).

Definition assign_to_peers_inner (now : Z) (peer_ids : list PeerId) (force_all_proven : bool) (s : BlockSync) : BlockSync * list GetBlocks :=
  if download_paused s then (s, [])
  else
    let peer_ids := eligible s peer_ids in
    if bool_decide (peer_ids = []) || bool_decide (queue s = []) then (s, [])
    else
      let available_slots := (max_in_flight s - size (in_flight s))%nat in
      if (available_slots =? 0)%nat then (s, [])
      else
        let '(proven, unproven) := foldl (classify s force_all_proven) ([], []) peer_ids in
        foldl (assign_peer now) (s, []) (trim_allocs available_slots (allocate peer_ids proven unproven available_slots)).

Definition assign_to_peers (now : Z) (peer_ids : list PeerId) (s : BlockSync) := assign_to_peers_inner now peer_ids false s.
Definition assign_to_peers_emergency (now : Z) (peer_ids : list PeerId) (s : BlockSync) := assign_to_peers_inner now peer_ids true s.

(** ** Deliveries *)

(** [t1], [t2], [t3] are the successive readings of the clock. *)
Definition block_received (t1 t2 t3 : Z) (h : hash256) (peer : PeerId) (block_size : Z) (s : BlockSync) : BlockSync :=
  let s := set_core s (queue s) (delete h (in_flight s)) ((fun X => X ∖ {[h]}) <$> peer_requests s) in
  let s := set_notfound (set_received s ({[h]} ∪ received s)) (delete h (block_notfound_peers s)) in
  let bw := default (bandwidth_new t2) (peer_bandwidth s !! peer) in
  set_stats s (<[peer := t1]> (peer_last_recv s)) (<[peer := record_delivery t3 block_size bw]> (peer_bandwidth s))
    (peer_notfound_count s) (delete peer (peer_stale_cycles s)) (Some t1).

Definition block_connected (h : hash256) (s : BlockSync) : BlockSync := set_received s (received s ∖ {[h]}).

Definition has_pending (s : BlockSync) : bool := negb (bool_decide (queue s = [])) || negb (bool_decide (in_flight s = ∅)).

Section Sync.
Context `{SyncIter}.

(** ** Requests that fail *)

Definition refresh_primary_in_flight (h : hash256) (s : BlockSync) : BlockSync :=
  match list_find (fun x => h ∈ x.2) (iter_requests (peer_requests s)) with
  | Some (_, (pid, _)) => set_core s (queue s) (<[h := pid]> (in_flight s)) (peer_requests s)
  | None => set_core s (queue s) (delete h (in_flight s)) (peer_requests s)
  end.

Definition outstanding (h : hash256) (s : BlockSync) : bool := existsb (fun x : PeerId * gset hash256 => bool_decide (h ∈ x.2)) (map_to_list (peer_requests s)).

(** A request of a peer is gone: another peer may still hold one, else the
    block goes back to the queue. *)
Definition release (front : bool) (h : hash256) (s : BlockSync) : BlockSync :=
  if outstanding h s then refresh_primary_in_flight h s
  else set_core s (if front then h :: queue s else queue s ++ [h]) (delete h (in_flight s)) (peer_requests s).

(** No peer is left to ask: the block is dropped. *)
Definition abandon (h : hash256) (s : BlockSync) : BlockSync :=
  set_notfound (set_core s (filter (fun x => x <> h) (queue s)) (delete h (in_flight s)) ((fun X => X ∖ {[h]}) <$> peer_requests s))
    (delete h (block_notfound_peers s)).

Definition not_found_one (peer : PeerId) (threshold : nat) (acc : BlockSync * nat * list hash256) (h : hash256) :
    BlockSync * nat * list hash256 :=
  let '(s, requeued, abandoned) := acc in
  match peer_requests s !! peer with
  | None => acc
  | Some hashes =>
      if bool_decide (h ∈ hashes) then
        let s := set_core s (queue s) (in_flight s) (<[peer := hashes ∖ {[h]}]> (peer_requests s)) in
        let nf_peers := {[peer]} ∪ default ∅ (block_notfound_peers s !! h) in
        let s := set_notfound s (<[h := nf_peers]> (block_notfound_peers s)) in
        if bool_decide (h ∈ received s) then (s, S requeued, abandoned)
        else if (threshold <=? size nf_peers)%nat then (abandon h s, S requeued, abandoned ++ [h])
        else (release true h s, S requeued, abandoned)
      else acc
  end.

Definition blocks_not_found (peer : PeerId) (hashes : list hash256) (live_peer_count : nat) (s : BlockSync) :
    BlockSync * nat * list hash256 :=
  let '(s, requeued, abandoned) := foldl (not_found_one peer (Nat.max live_peer_count 1)) (s, 0%nat, []) hashes in
  (set_stats s (peer_last_recv s) (peer_bandwidth s)
     (<[peer := u32 (default 0 (peer_notfound_count s !! peer) + u32 (Z.of_nat requeued))]> (peer_notfound_count s))
     (peer_stale_cycles s) (last_recv s), requeued, abandoned).

(** The blocks a peer was to deliver are asked for again. *)
Definition release_peer (peer : PeerId) (s : BlockSync) : BlockSync :=
  match peer_requests s !! peer with
  | None => s
  | Some hashes =>
      foldl (fun s h => if bool_decide (h ∈ received s) then s else release false h s)
        (set_core s (queue s) (in_flight s) (delete peer (peer_requests s))) (iter_hashes hashes)
  end.

Definition clear_stale (track_cycles : bool) (acc : BlockSync * nat) (peer : PeerId) : BlockSync * nat :=
  let '(s, num_stale) := acc in
  let num_stale := (num_stale + default 0%nat (size <$> peer_requests s !! peer))%nat in
  let s := release_peer peer s in
  (set_stats s (delete peer (peer_last_recv s)) (peer_bandwidth s) (peer_notfound_count s)
     (if track_cycles then <[peer := u32 (default 0 (peer_stale_cycles s !! peer) + 1)]> (peer_stale_cycles s) else peer_stale_cycles s)
     (last_recv s), num_stale).

Definition is_stale (now base_timeout : Z) (s : BlockSync) (x : PeerId * gset hash256) : bool :=
  negb (bool_decide (x.2 = ∅)) &&
  match peer_last_recv s !! x.1 with
  | Some t => sat_sub now t >? base_timeout + 200000000 * u32 (Z.of_nat (size x.2))
  | None => true
  end.

Definition clear_stale_peers (now base_timeout : Z) (track_cycles : bool) (s : BlockSync) : BlockSync * nat * nat :=
  let stale_peers := map fst (List.filter (is_stale now base_timeout s) (iter_requests (peer_requests s))) in
  let '(s, num_stale) := foldl (clear_stale track_cycles) (s, 0%nat) stale_peers in
  (s, num_stale, length stale_peers).

Definition peer_disconnected (peer : PeerId) (s : BlockSync) : BlockSync :=
  let s := release_peer peer s in
  set_stats s (delete peer (peer_last_recv s)) (delete peer (peer_bandwidth s)) (delete peer (peer_notfound_count s))
    (delete peer (peer_stale_cycles s)) (last_recv s).

(** ** Peer statistics *)

Definition chronic_non_deliverers (nf_threshold stale_threshold : Z) (s : BlockSync) : gset PeerId :=
  dom (filter (fun x => x.2 >= nf_threshold) (peer_notfound_count s)) ∪ dom (filter (fun x => x.2 >= stale_threshold) (peer_stale_cycles s)).

(** [sort_by] with [total_cmp] is stable. *)
Fixpoint insert_rate (x : PeerId * f64) (l : list (PeerId * f64)) : list (PeerId * f64) :=
  match l with
  | [] => [x]
  | y :: r => match f64_total_cmp x.2 y.2 with Lt => x :: y :: r | _ => y :: insert_rate x r end
  end.
Definition sort_rates (l : list (PeerId * f64)) : list (PeerId * f64) := foldl (fun acc x => insert_rate x acc) [] l.

Fixpoint take_while {A} (f : A -> bool) (l : list A) : list A :=
  match l with x :: r => if f x then x :: take_while f r else [] | [] => [] end.

Definition slow_deliverers (min_delivered : Z) (frac : f64) (min_keep max_evict : nat) (s : BlockSync) : list PeerId :=
  let proven := map (fun x => (x.1, ewma_bps x.2))
    (filter (fun x => blocks_delivered x.2 >= min_delivered) (iter_bandwidth (peer_bandwidth s))) in
  if (length proven <=? min_keep)%nat then []
  else
    let proven := sort_rates proven in
    let median := default (f64_of_u64 0) (snd <$> proven !! (length proven / 2)%nat) in
    let threshold := f64_mul median frac in
    let evictable := (length proven - min_keep)%nat in
    map fst (take (Nat.min max_evict evictable) (take_while (fun x => f64_lt x.2 threshold) proven)).
End Sync.
