(* ===== verification/SyncProofs.v ===== *)
(** * Properties of block download

    No scheduled block is lost: until it is connected or given up, it is
    queued, asked for from a peer that is still expected to deliver it, or
    received.  Assignment keeps the number of requests bounded. *)

From Stdlib Require Import ZArith Lia.
From stdpp Require Import base option numbers list gmap.
From S2P Require Import Prelude F64 Bytes Types BlockSync.

Section Sync.
Context `{SyncIter} `{HSI : !SyncIterLaws}.

(** A peer is expected to deliver the block. *)
Definition held (s : BlockSync) (h : hash256) : Prop := exists p X, peer_requests s !! p = Some X /\ h ∈ X.

Definition tracked (s : BlockSync) (h : hash256) : Prop := h ∈ queue s \/ held s h \/ h ∈ received s.

(** Every request has its in-flight entry, and conversely, but for [E]. *)
Definition held_ok (s : BlockSync) : Prop := forall h, held s h -> is_Some (in_flight s !! h).
Definition flight_ok (E : list hash256) (s : BlockSync) : Prop :=
  forall h, h ∉ E -> is_Some (in_flight s !! h) -> held s h \/ h ∈ received s.

Definition sync_ok (s : BlockSync) : Prop := held_ok s /\ flight_ok [] s.

(** From [s] to [s'] every block stays tracked, but for [L]. *)
Definition keeps_track (L : list hash256) (s s' : BlockSync) : Prop := forall h, tracked s h -> tracked s' h \/ h ∈ L.

Lemma keeps_track_trans L L' s1 s2 s3 : keeps_track L s1 s2 -> keeps_track L' s2 s3 -> keeps_track (L ++ L') s1 s3.
Proof. intros H1 H2 h Hh. rewrite elem_of_app. destruct (H1 h Hh) as [Ht|?]; [destruct (H2 h Ht)|]; auto. Qed.

Lemma keeps_track_refl s : keeps_track [] s s.
Proof. intros h Hh. by left. Qed.

Lemma outstanding_spec h s : outstanding h s = true <-> held s h.
Proof.
  unfold outstanding, held. rewrite existsb_exists. split.
  - intros ([p X] & Hin & Hh). apply list_elem_of_In, elem_of_map_to_list in Hin. apply bool_decide_eq_true in Hh. eauto.
  - intros (p & X & Hp & Hh). exists (p, X). split; [by apply list_elem_of_In, elem_of_map_to_list|]. by apply bool_decide_eq_true.
Qed.

Lemma refresh_spec h s :
  held s h -> let s' := refresh_primary_in_flight h s in
  queue s' = queue s /\ peer_requests s' = peer_requests s /\ received s' = received s /\ is_Some (in_flight s' !! h) /\
  forall h', h' <> h -> in_flight s' !! h' = in_flight s !! h'.
Proof.
  intros (p & X & Hp & Hh). unfold refresh_primary_in_flight.
  destruct (list_find _ _) as [[i [pid Y]]|] eqn:Hf.
  - cbn. split_and!; [done|done|done|by rewrite lookup_insert_eq|]. intros h' Hne. by rewrite lookup_insert_ne.
  - exfalso. apply list_find_None in Hf. rewrite Forall_forall in Hf. apply (Hf (p, X)); [|done].
    rewrite iter_requests_perm. by apply elem_of_map_to_list.
Qed.

Lemma held_requests s s' : peer_requests s' = peer_requests s -> forall h, held s' h <-> held s h.
Proof. intros Heq h. unfold held. by rewrite Heq. Qed.

(** Releasing a block that no longer is asked of some peer. *)
Lemma release_spec front h E s :
  held_ok s -> flight_ok (h :: E) s ->
  let s' := release front h s in
  held_ok s' /\ flight_ok E s' /\ (forall x, tracked s x -> tracked s' x) /\ tracked s' h /\
  peer_requests s' = peer_requests s /\ received s' = received s.
Proof.
  intros Hh Hf. unfold release. destruct (outstanding h s) eqn:Ho.
  - apply outstanding_spec in Ho. destruct (refresh_spec h s Ho) as (Q1 & Q2 & Q3 & Q4 & Q5).
    set (s' := refresh_primary_in_flight h s) in *. pose proof (held_requests s s' Q2) as Hr. cbv zeta. split_and!; [| | | |done|done].
    + intros x Hx. apply Hr in Hx. destruct (decide (x = h)) as [->|Hne]; [done|]. rewrite Q5 by done. by apply Hh.
    + intros x Hx Hs. rewrite Hr, Q3. destruct (decide (x = h)) as [->|Hne]; [by left|]. rewrite Q5 in Hs by done.
      apply Hf; [|done]. by apply not_elem_of_cons.
    + intros x Hx. unfold tracked in *. by rewrite Q1, Q3, Hr.
    + right. left. by apply Hr.
  - assert (Hn : ~ held s h) by (rewrite <- outstanding_spec; congruence). cbv zeta.
    split_and!; [| | | |done|done].
    + intros x Hx. cbn. destruct (decide (x = h)) as [->|Hne]; [done|]. rewrite lookup_delete_ne by congruence. by apply Hh.
    + intros x Hx Hs. cbn in Hs. apply lookup_delete_is_Some in Hs as [Hne Hs]. apply Hf; [|done]. apply not_elem_of_cons. by split.
    + intros x [Hx|Hx]; [left|by right]. cbn. destruct front; [by right|]. apply elem_of_app. by left.
    + left. cbn. destruct front; [by left|]. apply elem_of_app. right. by left.
Qed.

Lemma release_all_spec l : forall s,
  held_ok s -> flight_ok l s ->
  let s' := foldl (fun s h => if bool_decide (h ∈ received s) then s else release false h s) s l in
  held_ok s' /\ flight_ok [] s' /\ (forall x, tracked s x \/ x ∈ l -> tracked s' x) /\ peer_requests s' = peer_requests s /\ received s' = received s.
Proof.
  induction l as [|h l IH]; intros s Hh Hf; cbn [foldl].
  { cbv zeta. split_and!; [done|done| |done|done]. intros x [?|?%not_elem_of_nil]; done. }
  case_bool_decide as Hr.
  - destruct (IH s Hh) as (I1 & I2 & I3 & I4 & I5).
    { intros x Hx Hs. destruct (decide (x = h)) as [->|Hne]; [by right|]. apply Hf; [|done]. by apply not_elem_of_cons. }
    split_and!; [done|done| |done|done]. intros x [Hx|[->|Hx]%elem_of_cons]; apply I3; auto. left. right. by right.
  - destruct (release_spec false h l s Hh Hf) as (R1 & R2 & R3 & R4 & R5 & R6).
    destruct (IH _ R1 R2) as (I1 & I2 & I3 & I4 & I5). split_and!; [done|done| |congruence|congruence].
    intros x [Hx|[->|Hx]%elem_of_cons]; apply I3; auto.
Qed.

(** Deleting a peer's requests leaves only its blocks to be released. *)
Lemma release_peer_spec p s :
  sync_ok s -> let s' := release_peer p s in sync_ok s' /\ keeps_track [] s s' /\ received s' = received s.
Proof.
  intros [Hh Hf]. unfold release_peer. destruct (peer_requests s !! p) as [X|] eqn:Hp.
  2: { split; [done|]. split; [apply keeps_track_refl|done]. }
  set (s1 := set_core s (queue s) (in_flight s) (delete p (peer_requests s))).
  assert (Hheld : forall h, held s h -> held s1 h \/ h ∈ X).
  { intros h (q & Y & Hq & Hin). destruct (decide (q = p)) as [->|Hne]; [right; congruence|left]. exists q, Y.
    cbn. by rewrite lookup_delete_ne by congruence. }
  destruct (release_all_spec (iter_hashes X) s1) as (R1 & R2 & R3 & R4 & R5).
  - intros h (q & Y & Hq & Hin). cbn in Hq. apply lookup_delete_Some in Hq as [_ Hq]. apply Hh. by exists q, Y.
  - intros h Hn Hs. cbn in Hs. destruct (Hf h ltac:(apply not_elem_of_nil) Hs) as [Hx|Hx]; [|by right].
    destruct (Hheld h Hx) as [?|Hin]; [by left|]. exfalso. apply Hn. rewrite iter_hashes_perm. by apply elem_of_elements.
  - split; [by split|]. split; [|done]. intros h Hh'. left. apply R3. destruct Hh' as [?|[Hx|?]]; [left; by left| |left; by right; right].
    destruct (Hheld h Hx) as [?|?]; [left; by right; left|right]. rewrite iter_hashes_perm. by apply elem_of_elements.
Qed.

(** ** Operations *)

(** An operation that leaves the blocks [L]. *)
Definition sound (L : list hash256) (s s' : BlockSync) : Prop := sync_ok s -> sync_ok s' /\ keeps_track L s s'.

Lemma sound_trans L L' s1 s2 s3 : sound L s1 s2 -> sound L' s2 s3 -> sound (L ++ L') s1 s3.
Proof. intros H1 H2 Hok. destruct (H1 Hok) as [Hok2 K1]. destruct (H2 Hok2) as [Hok3 K2]. split; [done|by eapply keeps_track_trans]. Qed.

(** Statistics do not matter. *)
Lemma sound_stats s lr bw nfc stale last : sound [] s (set_stats s lr bw nfc stale last).
Proof. intros Hok. split; [done|]. intros h Hh. by left. Qed.

Lemma sound_stats_r L s s' lr bw nfc stale last : sound L s s' -> sound L s (set_stats s' lr bw nfc stale last).
Proof. intros H1. rewrite <- (app_nil_r L). eapply sound_trans; [exact H1|apply sound_stats]. Qed.

Lemma release_peer_sound p s : sound [] s (release_peer p s).
Proof. intros Hok. destruct (release_peer_spec p s Hok) as (? & ? & _). done. Qed.

Lemma disconnected_sound p s : sound [] s (peer_disconnected p s).
Proof. apply sound_stats_r, release_peer_sound. Qed.

Lemma clear_stale_sound now base track s : sound [] s (clear_stale_peers now base track s).1.1.
Proof.
  unfold clear_stale_peers. generalize (map fst (List.filter (is_stale now base s) (iter_requests (peer_requests s)))) as l. intros l.
  assert (Hgen : forall s n, sound [] s (foldl (clear_stale track) (s, n) l).1).
  { clear s. induction l as [|p l IH]; intros s n; cbn [foldl]; [intros Hok; split; [done|apply keeps_track_refl]|].
    apply (sound_trans [] []) with (clear_stale track (s, n) p).1; [apply sound_stats_r, release_peer_sound|].
    destruct (clear_stale track (s, n) p) as [s1 n1]. apply IH. }
  specialize (Hgen s 0%nat). by destruct (foldl _ _ _).
Qed.

Lemma held_minus s p X h x : peer_requests s !! p = Some X ->
  held (set_core s (queue s) (in_flight s) (<[p := X ∖ {[h]}]> (peer_requests s))) x -> held s x.
Proof.
  intros Hp (q & Y & Hq & Hin). cbn in Hq. apply lookup_insert_Some in Hq as [[<- <-]|[_ Hq]]; [exists p, X|by exists q, Y].
  split; [done|set_solver].
Qed.

Lemma minus_held s p X h x : peer_requests s !! p = Some X -> x <> h ->
  held s x -> held (set_core s (queue s) (in_flight s) (<[p := X ∖ {[h]}]> (peer_requests s))) x.
Proof.
  intros Hp Hne (q & Y & Hq & Hin). destruct (decide (q = p)) as [->|Hqp].
  - exists p, (X ∖ {[h]}). cbn. rewrite lookup_insert_eq. split; [done|]. rewrite Hp in Hq. injection Hq as <-. set_solver.
  - exists q, Y. cbn. by rewrite lookup_insert_ne by congruence.
Qed.

Lemma held_all_minus s h x f :
  held (set_core s (queue s) f ((fun X => X ∖ {[h]}) <$> peer_requests s)) x <-> held s x /\ x <> h.
Proof.
  unfold held. cbn. split.
  - intros (p & X & Hp & Hin). rewrite lookup_fmap in Hp. destruct (peer_requests s !! p) as [Y|] eqn:Hq; [|done]. injection Hp as <-.
    split; [|set_solver]. exists p, Y. set_solver.
  - intros [(p & X & Hp & Hin) Hne]. exists p, (X ∖ {[h]}). rewrite lookup_fmap, Hp. set_solver.
Qed.

Lemma not_found_one_sound p threshold s n ab h :
  exists ab', (not_found_one p threshold (s, n, ab) h).2 = ab ++ ab' /\ sound ab' s (not_found_one p threshold (s, n, ab) h).1.1.
Proof.
  unfold not_found_one. destruct (peer_requests s !! p) as [X|] eqn:Hp.
  2: { exists []. rewrite app_nil_r. split; [done|]. intros Hok. split; [done|apply keeps_track_refl]. }
  case_bool_decide as Hin.
  2: { exists []. rewrite app_nil_r. split; [done|]. intros Hok. split; [done|apply keeps_track_refl]. }
  set (s1 := set_core s (queue s) (in_flight s) (<[p := X ∖ {[h]}]> (peer_requests s))).
  set (nf := {[p]} ∪ _). set (s2 := set_notfound s1 _).
  assert (Hh2 : held_ok s -> held_ok s2) by (intros Hh x Hx; by apply Hh, (held_minus s p X h)).
  assert (Hf2 : flight_ok [] s -> flight_ok [h] s2).
  { intros Hf x Hx Hs. destruct (Hf x ltac:(apply not_elem_of_nil) Hs) as [Hy|Hy]; [left|by right].
    apply (minus_held s p X h); [done|set_solver|done]. }
  assert (Ht2 : forall x, x <> h -> tracked s x -> tracked s2 x).
  { intros x Hne [?|[Hy|?]]; [by left|right; left; by apply (minus_held s p X h)|by right; right]. }
  case_bool_decide as Hr; [|destruct (threshold <=? size nf)%nat].
  - exists []. rewrite app_nil_r. split; [done|]. intros [Hh Hf]. split; [split; [by apply Hh2|]|].
    + intros x _ Hs. destruct (decide (x = h)) as [->|Hne]; [by right|]. apply (Hf2 Hf); [set_solver|done].
    + intros x Hx. left. destruct (decide (x = h)) as [->|Hne]; [by right; right|by apply Ht2].
  - exists [h]. split; [done|]. intros [Hh Hf]. unfold abandon. split; [split|].
    + intros x Hx. apply (held_all_minus s2 h x (delete h (in_flight s2))) in Hx as [Hx Hne].
      change (is_Some (delete h (in_flight s2) !! x)). rewrite lookup_delete_ne by congruence. by apply (Hh2 Hh).
    + intros x _ Hs. change (is_Some (delete h (in_flight s2) !! x)) in Hs. apply lookup_delete_is_Some in Hs as [Hne Hs].
      destruct (Hf2 Hf x ltac:(set_solver) Hs) as [Hy|Hy]; [left|by right]. by apply (held_all_minus s2 h x (delete h (in_flight s2))).
    + intros x Hx. destruct (decide (x = h)) as [->|Hne]; [right; by left|left]. destruct (Ht2 x Hne Hx) as [Hq|[Hy|Hy]].
      * left. cbn. apply list_elem_of_filter. done.
      * right. left. by apply (held_all_minus s2 h x (delete h (in_flight s2))).
      * by right; right.
  - exists []. rewrite app_nil_r. split; [done|]. intros [Hh Hf].
    destruct (release_spec true h [] s2 (Hh2 Hh) (Hf2 Hf)) as (R1 & R2 & R3 & R4 & _). split; [by split|].
    intros x Hx. left. destruct (decide (x = h)) as [->|Hne]; [done|]. by apply R3, Ht2.
Qed.

Lemma blocks_not_found_sound p hs live s :
  sound (blocks_not_found p hs live s).2 s (blocks_not_found p hs live s).1.1.
Proof.
  unfold blocks_not_found. generalize (Nat.max live 1) as threshold. intros threshold.
  assert (Hgen : forall s n ab, exists ab', (foldl (not_found_one p threshold) (s, n, ab) hs).2 = ab ++ ab' /\
    sound ab' s (foldl (not_found_one p threshold) (s, n, ab) hs).1.1).
  { clear s. induction hs as [|h hs IH]; intros s n ab; cbn [foldl].
    - exists []. rewrite app_nil_r. split; [done|]. intros Hok. split; [done|apply keeps_track_refl].
    - destruct (not_found_one_sound p threshold s n ab h) as (ab1 & Hab1 & Hs1).
      destruct (not_found_one p threshold (s, n, ab) h) as [[s1 n1] ab1']. cbn in Hab1, Hs1. subst ab1'.
      destruct (IH s1 n1 (ab ++ ab1)) as (ab2 & Hab2 & Hs2). exists (ab1 ++ ab2). rewrite Hab2, <- app_assoc. split; [done|].
      by eapply sound_trans. }
  destruct (Hgen s 0%nat []) as (ab & Hab & Hs). destruct (foldl _ _ _) as [[s1 n1] ab1]. cbn in Hab, Hs |- *. subst ab1. by apply sound_stats_r.
Qed.

Lemma schedule_sound hs : forall s,
  sound [] s (schedule hs s) /\ (sync_ok s -> forall h, h ∈ hs -> tracked (schedule hs s) h).
Proof.
  induction hs as [|h hs IH]; intros s; cbn [schedule foldl].
  { split; [intros Hok; split; [done|apply keeps_track_refl]|]. by intros _ h ?%not_elem_of_nil. }
  set (s1 := schedule_one s h). assert (H1 : sound [] s s1 /\ (sync_ok s -> tracked s1 h)).
  { unfold s1, schedule_one. destruct (_ && _) eqn:Hc.
    - split; [intros Hok; split; [done|]|intros _; left; cbn; apply elem_of_app; right; by left].
      intros x [Hx|Hx]; left; [left|by right]. cbn. apply elem_of_app. by left.
    - split; [intros Hok; split; [done|apply keeps_track_refl]|]. intros [_ Hf]. right.
      apply andb_false_iff in Hc as [Hc|Hc]; apply negb_false_iff, bool_decide_eq_true in Hc; [|by right].
      apply (Hf h); [apply not_elem_of_nil|done]. }
  destruct H1 as [H1 Ht]. destruct (IH s1) as [H2 Ht2]. change (foldl schedule_one s1 hs) with (schedule hs s1). split.
  - by apply (sound_trans [] []) with s1.
  - intros Hok x [->|Hx]%elem_of_cons; [|by apply Ht2; [apply H1|]]. destruct (H2 ltac:(by apply H1)) as [_ Hk].
    destruct (Hk h (Ht Hok)) as [?|?%not_elem_of_nil]; done.
Qed.

Lemma received_sound t1 t2 t3 h p sz s : sound [] s (block_received t1 t2 t3 h p sz s).
Proof.
  apply sound_stats_r. intros [Hh Hf].
  pose proof (fun x => held_all_minus s h x (delete h (in_flight s))) as Hm.
  set (s1 := set_core s (queue s) (delete h (in_flight s)) ((fun X => X ∖ {[h]}) <$> peer_requests s)) in *. split; [split|].
  - intros x Hx. change (is_Some (delete h (in_flight s) !! x)). apply Hm in Hx as [Hx Hne].
    rewrite lookup_delete_ne by congruence. by apply Hh.
  - intros x _ Hs. change (is_Some (delete h (in_flight s) !! x)) in Hs. apply lookup_delete_is_Some in Hs as [Hne Hs].
    destruct (Hf x ltac:(apply not_elem_of_nil) Hs) as [Hx|Hx]; [left; by apply Hm|right]. cbn. set_solver.
  - intros x Hx. left. destruct (decide (x = h)) as [->|Hne]; [right; right; cbn; set_solver|].
    destruct Hx as [?|[Hx|?]]; [by left|right; left; by apply Hm|right; right; cbn; set_solver].
Qed.

Lemma connected_sound h s : in_flight s !! h = None -> sound [h] s (block_connected h s).
Proof.
  intros Hn [Hh Hf]. split; [split; [done|]|].
  - intros x _ Hs. destruct (Hf x ltac:(apply not_elem_of_nil) Hs) as [?|?]; [by left|right]. cbn in Hs |- *.
    assert (x <> h) by (intros ->; rewrite Hn in Hs; by destruct Hs). set_solver.
  - intros x Hx. destruct (decide (x = h)) as [->|Hne]; [right; by left|left].
    destruct Hx as [?|[?|?]]; [by left|by right; left|right; right; cbn; set_solver].
Qed.

(** *** Assignment *)

Lemma held_request s p h rest x : held (request s p h rest) x <-> held s x \/ x = h.
Proof.
  unfold held, request. cbn. split.
  - intros (q & X & Hq & Hin). apply lookup_insert_Some in Hq as [[<- <-]|[_ Hq]]; [|left; eauto].
    apply elem_of_union in Hin as [->%elem_of_singleton|Hin]; [by right|left].
    destruct (peer_requests s !! p) as [Y|] eqn:Hp; [|by apply elem_of_empty in Hin]. eauto.
  - intros [(q & X & Hq & Hin)| ->].
    + destruct (decide (q = p)) as [->|Hne].
      * exists p, ({[h]} ∪ X). rewrite lookup_insert_eq, Hq. set_solver.
      * exists q, X. by rewrite lookup_insert_ne by congruence.
    + eexists p, _. rewrite lookup_insert_eq. split; [done|]. set_solver.
Qed.

Lemma pop_batch_spec p count : forall s batch deferred,
  sync_ok s ->
  let '(s', batch', deferred') := pop_batch count p s batch deferred in
  sync_ok s' /\ (forall x, tracked s x \/ x ∈ deferred -> tracked s' x \/ x ∈ deferred') /\
  (size (in_flight s') <= size (in_flight s) + count)%nat.
Proof.
  induction count as [|count IH]; intros s batch deferred Hok; cbn [pop_batch]; [split_and!; [done|done|lia]|].
  destruct (queue s) as [|h rest] eqn:Hq; [split_and!; [done|done|lia]|]. case_bool_decide as Hd.
  - set (s1 := set_core s rest (in_flight s) (peer_requests s)). specialize (IH s1 batch (deferred ++ [h]) Hok).
    destruct (pop_batch count p s1 batch (deferred ++ [h])) as [[s' b'] d']. destruct IH as (I1 & I2 & I3). split_and!; [done| |cbn in I3; lia].
    intros x Hx. apply I2. rewrite elem_of_app, list_elem_of_singleton. unfold tracked in Hx |- *. rewrite Hq, elem_of_cons in Hx. cbn.
    destruct Hx as [[[->|?]|[?|?]]|?]; auto.
  - set (s1 := request s p h rest). assert (Hok1 : sync_ok s1).
    { destruct Hok as [Hh Hf]. split.
      - intros x Hx. apply held_request in Hx as [Hx| ->]; cbn; [|by rewrite lookup_insert_eq]. apply lookup_insert_is_Some'. right. by apply Hh.
      - intros x _ Hs. cbn in Hs. apply lookup_insert_is_Some' in Hs as [<-|Hs]; [left; apply held_request; by right|].
        destruct (Hf x ltac:(apply not_elem_of_nil) Hs); [left; apply held_request; by left|by right]. }
    specialize (IH s1 (batch ++ [h]) deferred Hok1). destruct (pop_batch count p s1 (batch ++ [h]) deferred) as [[s' b'] d'].
    destruct IH as (I1 & I2 & I3). split_and!; [done| |].
    + intros x Hx. apply I2. destruct Hx as [Hx|?]; [left|by right]. unfold tracked in Hx |- *. rewrite Hq, elem_of_cons in Hx.
      unfold s1. rewrite held_request. cbn. tauto.
    + assert (size (in_flight s1) <= S (size (in_flight s)))%nat; [|lia]. cbn. rewrite map_size_insert. destruct (in_flight s !! h); cbn; lia.
Qed.

Lemma assign_peer_spec now s cmds alloc :
  sync_ok s -> let s' := (assign_peer now (s, cmds) alloc).1 in
  sync_ok s' /\ keeps_track [] s s' /\ (size (in_flight s') <= size (in_flight s) + alloc.2)%nat.
Proof.
  intros Hok. destruct alloc as [p count]. cbn [assign_peer snd]. case_bool_decide as Hq.
  { split_and!; [done|apply keeps_track_refl|cbn; lia]. }
  pose proof (pop_batch_spec p count s [] [] Hok) as Hp. destruct (pop_batch count p s [] []) as [[s1 batch] deferred].
  destruct Hp as (Hok1 & Ht & Hs). set (s2 := set_core s1 (deferred ++ queue s1) (in_flight s1) (peer_requests s1)).
  assert (Hk : keeps_track [] s s2).
  { intros x Hx. left. destruct (Ht x (or_introl Hx)) as [[Hx1|Hx1]|Hx1]; [left|by right|left]; cbn; apply elem_of_app; auto. }
  destruct (bool_decide (batch = [])); cbn [fst]; (split_and!; [done|exact Hk|exact Hs]).
Qed.

Lemma assign_allocs_spec now l : forall s cmds,
  sync_ok s -> let s' := (foldl (assign_peer now) (s, cmds) l).1 in
  sync_ok s' /\ keeps_track [] s s' /\ (size (in_flight s') <= size (in_flight s) + total_alloc l)%nat.
Proof.
  induction l as [|a l IH]; intros s cmds Hok; cbn [foldl total_alloc foldr].
  { split_and!; [done|apply keeps_track_refl|cbn; lia]. }
  destruct (assign_peer_spec now s cmds a Hok) as (H1 & H2 & H3). destruct (assign_peer now (s, cmds) a) as [s1 c1]. cbn [fst] in *.
  destruct (IH s1 c1 H1) as (I1 & I2 & I3). split_and!; [done|by apply (keeps_track_trans [] []) with s1|]. unfold total_alloc in I3. lia.
Qed.

Lemma assign_sound now peers force s : sound [] s (assign_to_peers_inner now peers force s).1.
Proof.
  intros Hok. unfold assign_to_peers_inner. destruct (download_paused s); [split; [done|apply keeps_track_refl]|].
  destruct (_ || _); [split; [done|apply keeps_track_refl]|]. destruct (_ =? 0)%nat; [split; [done|apply keeps_track_refl]|].
  destruct (foldl (classify _ _) _ _) as [proven unproven]. by destruct (assign_allocs_spec now
    (trim_allocs (max_in_flight s - size (in_flight s)) (allocate (eligible s peers) proven unproven (max_in_flight s - size (in_flight s)))) s [] Hok) as (? & ? & _).
Qed.

(** *** Bounds *)

Lemma insert_alloc_perm x l : insert_alloc x l ≡ₚ x :: l.
Proof. induction l as [|y l IH]; cbn; [done|]. case_match; [done|]. rewrite IH. solve_Permutation. Qed.

Lemma sort_allocs_perm l : sort_allocs l ≡ₚ l.
Proof.
  assert (Hgen : forall acc, foldl (fun acc x => insert_alloc x acc) acc l ≡ₚ acc ++ l); [|apply (Hgen [])].
  induction l as [|x l IH]; intros acc; cbn; [by rewrite app_nil_r|]. rewrite IH, insert_alloc_perm. solve_Permutation.
Qed.

Lemma total_alloc_perm l l' : l ≡ₚ l' -> total_alloc l = total_alloc l'.
Proof. unfold total_alloc. induction 1; cbn; lia. Qed.

Lemma total_alloc_length l : Forall (fun x => (1 <= x.2)%nat) l -> (length l <= total_alloc l)%nat.
Proof. unfold total_alloc. induction 1; cbn in *; lia. Qed.

Lemma reduce_allocs_bound l : forall e,
  Forall (fun x => (1 <= x.2)%nat) l -> (total_alloc (reduce_allocs e l) <= Nat.max (total_alloc l - e) (length l))%nat.
Proof.
  induction l as [|[p n] l IH]; intros e Hl; [cbn; lia|].
  apply Forall_cons in Hl as [Hn Hl]. cbn in Hn. pose proof (total_alloc_length l Hl).
  cbn [reduce_allocs]. destruct (Nat.eqb_spec e 0) as [->|He]; unfold total_alloc in *; cbn [foldr snd length]; [lia|].
  specialize (IH (e - Nat.min (n - 1) e)%nat Hl). lia.
Qed.

Lemma trim_allocs_bound slots l :
  Forall (fun x => (1 <= x.2)%nat) l -> (total_alloc (trim_allocs slots l) <= Nat.max slots (length l))%nat.
Proof.
  intros Hl. unfold trim_allocs. destruct (Nat.ltb_spec slots (total_alloc l)) as [Hlt|]; [|lia].
  etransitivity; [apply reduce_allocs_bound; by rewrite sort_allocs_perm|]. rewrite (total_alloc_perm _ _ (sort_allocs_perm l)), sort_allocs_perm. lia.
Qed.

Lemma classify_length s force l : forall proven unproven,
  let '(p', u') := foldl (classify s force) (proven, unproven) l in (length p' + length u' <= length proven + length unproven + length l)%nat.
Proof.
  induction l as [|x l IH]; intros proven unproven; cbn [foldl length]; [lia|].
  destruct (classify s force (proven, unproven) x) as [p1 u1] eqn:Hc.
  assert (length p1 + length u1 <= length proven + length unproven + 1)%nat.
  { unfold classify in Hc. destruct (_ && _); [|destruct (_ || _)]; injection Hc as <- <-; rewrite ?length_app; cbn; lia. }
  specialize (IH p1 u1). destruct (foldl _ _ _). lia.
Qed.

Lemma allocate_spec peers proven unproven slots :
  (length proven + length unproven <= length peers)%nat ->
  Forall (fun x => (1 <= x.2)%nat) (allocate peers proven unproven slots) /\ (length (allocate peers proven unproven slots) <= length peers)%nat.
Proof.
  intros Hl. unfold allocate. destruct proven as [|x proven].
  - rewrite length_map. split; [|lia]. apply Forall_fmap, Forall_forall. intros p _. unfold MAX_PER_PEER. cbn. lia.
  - rewrite length_app, !length_map. split; [|cbn in *; lia]. apply Forall_app. split; apply Forall_fmap, Forall_forall.
    + intros [p w] _. unfold clamp_share, MAX_PER_PEER. cbn. lia.
    + intros p _. unfold PROBE_PER_PEER. cbn. lia.
Qed.

Lemma assign_bound now peers force s :
  sync_ok s -> (size (in_flight (assign_to_peers_inner now peers force s).1) <=
    Nat.max (size (in_flight s)) (Nat.max (max_in_flight s) (size (in_flight s) + length (eligible s peers))))%nat.
Proof.
  intros Hok. unfold assign_to_peers_inner. destruct (download_paused s); [cbn; lia|]. destruct (_ || _); [cbn; lia|].
  set (slots := (max_in_flight s - size (in_flight s))%nat). destruct (Nat.eqb_spec slots 0); [cbn; lia|].
  pose proof (classify_length s force (eligible s peers) [] []) as Hc. destruct (foldl (classify _ _) _ _) as [proven unproven].
  destruct (allocate_spec (eligible s peers) proven unproven slots ltac:(cbn in Hc; lia)) as [Ha Hl].
  destruct (assign_allocs_spec now (trim_allocs slots (allocate (eligible s peers) proven unproven slots)) s [] Hok) as (_ & _ & Hsz).
  pose proof (trim_allocs_bound slots _ Ha). lia.
Qed.

(** ** Runs *)

(** The node sets which peer to spare and whether to download at all. *)
Definition settings (ex : option PeerId) (paused : bool) (s : BlockSync) : BlockSync :=
  mkSync (queue s) (in_flight s) (peer_requests s) (max_in_flight s) (peer_last_recv s) (peer_bandwidth s)
    (peer_notfound_count s) (peer_stale_cycles s) (block_notfound_peers s) (received s) ex paused (last_recv s).

(** The states reached by any sequence of calls, with the blocks that were
    scheduled and those that were connected or abandoned.  A block is
    connected once it is no longer in flight. *)
Inductive run : BlockSync -> list hash256 -> list hash256 -> Prop :=
| run_new : run sync_new [] []
| run_schedule s A G hs : run s A G -> run (schedule hs s) (A ++ hs) G
| run_assign s A G now peers force : run s A G -> run (assign_to_peers_inner now peers force s).1 A G
| run_received s A G t1 t2 t3 h p sz : run s A G -> run (block_received t1 t2 t3 h p sz s) A G
| run_connected s A G h : run s A G -> in_flight s !! h = None -> run (block_connected h s) A (G ++ [h])
| run_not_found s A G p hs live : run s A G -> run (blocks_not_found p hs live s).1.1 A (G ++ (blocks_not_found p hs live s).2)
| run_stale s A G now base track : run s A G -> run (clear_stale_peers now base track s).1.1 A G
| run_disconnected s A G p : run s A G -> run (peer_disconnected p s) A G
| run_settings s A G ex paused : run s A G -> run (settings ex paused s) A G.

Lemma sound_run L s s' (A G : list hash256) :
  sound L s s' -> sync_ok s /\ (forall h, h ∈ A -> tracked s h \/ h ∈ G) -> sync_ok s' /\ (forall h, h ∈ A -> tracked s' h \/ h ∈ G ++ L).
Proof.
  intros Hs [Hok Ht]. destruct (Hs Hok) as [Hok' Hk]. split; [done|]. intros h Hh. rewrite elem_of_app.
  destruct (Ht h Hh) as [Hx|?]; [destruct (Hk h Hx)|]; auto.
Qed.

Lemma run_inv s A G : run s A G -> sync_ok s /\ forall h, h ∈ A -> tracked s h \/ h ∈ G.
Proof.
  induction 1 as [|s A G hs _ IH|s A G now peers force _ IH|s A G t1 t2 t3 h p sz _ IH|s A G h _ IH Hn|s A G p hs live _ IH|s A G now base track _ IH|s A G p _ IH|s A G ex paused _ IH].
  - split; [split|]; [by intros h (p & X & Hp & _)|by intros h _ [? ?]|by intros h ?%not_elem_of_nil].
  - destruct (schedule_sound hs s) as [H1 H2]. destruct (sound_run _ _ _ _ _ H1 IH) as [Hok Ht]. split; [done|].
    intros h [Hh|Hh]%elem_of_app; [rewrite <- (app_nil_r G); by apply Ht|left]. apply H2; [by apply IH|done].
  - rewrite <- (app_nil_r G). by eapply sound_run; [apply assign_sound|].
  - rewrite <- (app_nil_r G). by eapply sound_run; [apply received_sound|].
  - by eapply sound_run; [apply connected_sound|].
  - by eapply sound_run; [apply blocks_not_found_sound|].
  - rewrite <- (app_nil_r G). by eapply sound_run; [apply clear_stale_sound|].
  - rewrite <- (app_nil_r G). by eapply sound_run; [apply disconnected_sound|].
  - exact IH.
Qed.

(** C13: No block is lost: after any sequence of scheduling, assignment,
    deliveries, refusals, timeouts and disconnections, every scheduled block
    is queued, or asked of a peer with an in-flight entry, or received, or has
    been connected or reported as abandoned; and the next assignment keeps the
    requests in flight within the limit, or at one more per eligible peer. *)
Theorem no_block_lost s scheduled gone :
  run s scheduled gone ->
  (forall h, h ∈ scheduled ->
    h ∈ queue s \/ (is_Some (in_flight s !! h) /\ exists p X, peer_requests s !! p = Some X /\ h ∈ X) \/ h ∈ received s \/ h ∈ gone) /\
  (forall h, is_Some (in_flight s !! h) -> (exists p X, peer_requests s !! p = Some X /\ h ∈ X) \/ h ∈ received s) /\
  forall now peers force, (size (in_flight (assign_to_peers_inner now peers force s).1) <=
    Nat.max (max_in_flight s) (size (in_flight s) + length (eligible s peers)))%nat.
Proof.
  intros Hrun. destruct (run_inv s scheduled gone Hrun) as [[Hh Hf] Ht]. split_and!.
  - intros h Hs. destruct (Ht h Hs) as [[?|[Hx|?]]|?]; auto.
  - intros h Hs. apply (Hf h); [apply not_elem_of_nil|done].
  - intros now peers force. pose proof (assign_bound now peers force s (conj Hh Hf)). lia.
Qed.
End Sync.

(** ** Traces *)

#[local] Instance sample_sync_iter : SyncIter := { iter_requests := map_to_list; iter_hashes := elements; iter_bandwidth := map_to_list }.
#[local] Instance sample_sync_iter_laws : SyncIterLaws.
Proof. by split. Qed.

(** Peer 1 declines a block and leaves, peer 2 delivers one, peer 3 stalls. *)
Definition trace1 : BlockSync := (assign_to_peers_inner 0 [1; 2; 3] false (schedule [[10]; [11]; [12]; [13]] sync_new)).1.
Definition trace2 : BlockSync := (blocks_not_found 1 [[10]] 3 trace1).1.1.
Definition trace3 : BlockSync := block_received 10 10 10 [11] 2 500 (peer_disconnected 1 trace2).
Definition trace4 : BlockSync := (clear_stale_peers 100000000000 1000000000 true trace3).1.1.

Lemma no_block_lost_witness :
  run trace4 [[10]; [11]; [12]; [13]] [] /\
  (forall h, h ∈ [[10]; [11]; [12]; [13]] ->
    h ∈ queue trace4 \/ (is_Some (in_flight trace4 !! h) /\ exists p X, peer_requests trace4 !! p = Some X /\ h ∈ X) \/ h ∈ received trace4 \/ h ∈ []).
Proof.
  assert (Hrun : run trace4 [[10]; [11]; [12]; [13]] []).
  { apply (run_stale _ _ _ 100000000000 1000000000 true), (run_received _ _ _ 10 10 10 [11] 2 500), (run_disconnected _ _ _ 1).
    apply (run_not_found trace1 _ [] 1 [[10]] 3), (run_assign _ _ _ 0 [1; 2; 3] false), (run_schedule _ [] _ [[10]; [11]; [12]; [13]]), run_new. }
  split; [exact Hrun|]. exact (proj1 (no_block_lost trace4 [[10]; [11]; [12]; [13]] [] Hrun)).
Defined.

(** Peer 1 declines the only block and leaves; peer 2 is asked. *)
Definition declined1 : BlockSync := (blocks_not_found 1 [[10]] 2 (assign_to_peers_inner 0 [1] true (schedule [[10]] sync_new)).1).1.1.
Definition declined2 : BlockSync := (assign_to_peers_inner 1 [2] true (peer_disconnected 1 declined1)).1.

(** A block can be abandoned although a live peer was never asked for it:
    peer 1 declines it and leaves, peer 3 joins, and when peer 2 declines the
    refusal of the departed peer is still counted against the two live ones. *)
Theorem abandoned_without_asking :
  queue declined1 = [[10]] /\ (assign_to_peers_inner 1 [2] true (peer_disconnected 1 declined1)).2 = [mkGetBlocks 2 [[10]]] /\
  (blocks_not_found 2 [[10]] 2 declined2).2 = [[10]] /\
  (assign_to_peers_inner 2 [2; 3] true (peer_disconnected 1 declined1)).2 = [mkGetBlocks 2 [[10]]] /\
  (assign_to_peers_inner 2 [3] true (peer_disconnected 1 declined1)).2 = [mkGetBlocks 3 [[10]]].
Proof. vm_compute. split_and!; reflexivity. Qed.

(** Nine peers, none of which has delivered yet. *)
Definition crowd : list PeerId := [1; 2; 3; 4; 5; 6; 7; 8; 9].
Definition crowd1 : BlockSync := (assign_to_peers_inner 0 crowd false (schedule (map (fun i => [Z.of_nat i]) (seq 0 150)) sync_new)).1.

(** The in-flight limit is exceeded when more peers are eligible than slots
    are free: with nine peers, 126 requests in flight become 135. *)
Theorem in_flight_limit_exceeded :
  max_in_flight crowd1 = 128%nat /\ size (in_flight crowd1) = 126%nat /\
  size (in_flight (assign_to_peers_inner 1 crowd false crowd1).1) = 135%nat.
Proof. vm_compute. split_and!; reflexivity. Qed.

(** A block is delivered while it is still queued. *)
Definition unasked1 : BlockSync := block_received 1 1 1 [10] 1 500 (schedule [[10]] sync_new).
Definition unasked2 : BlockSync := block_connected [10] (blocks_not_found 2 [[10]] 2 (assign_to_peers_inner 2 [2] true unasked1).1).1.1.

(** A queued block that arrives unasked leaks an in-flight entry: it is still
    asked of a peer, and when that peer declines and the block is connected it
    stays in flight with no peer asked for it, is not scheduled again, and
    keeps the download pending. *)
Theorem unasked_block_leaks :
  queue unasked1 = [[10]] /\ queue unasked2 = [] /\ in_flight unasked2 = {[ [10] := 2 ]} /\ outstanding [10] unasked2 = false /\
  has_pending unasked2 = true /\ schedule [[10]] unasked2 = unasked2.
Proof. vm_compute. split_and!; reflexivity. Qed.
