(* ===== verification/SplitMonitor.v ===== *)
(** * The chain-split monitor

    [bitcoinpr-core/src/splitmon.rs]: the tips of rival branches that hold an
    invalid block, their fork points with the cache, the picture given to the
    operator and the alarm, and the persistence of the tips in the header
    index.  The rendering of hashes and work as text and the time stamp of a
    picture are left out.  Iteration over the hash map of tips is a
    parameter. *)

From Stdlib Require Import ZArith Lia.
From stdpp Require Import base option numbers list gmap strings.
From S2P Require Import Prelude Bytes U256 Types Consensus Validation Store HeaderIndex Bip110.

Definition CAPITULATION_THRESHOLD_BLOCKS : nat := 6.
Definition FORK_WALK_MAX : Z := 100000.
Definition META_SPLIT_RIVAL_TIPS : bytes := ascii_bytes "split_rival_tips".
Definition RIVAL_TIP_BYTES : nat := 68.

Record TipInfo := mkTip { tip_hash : hash256; tip_height : Z; tip_work : bytes }.

#[global] Instance TipInfo_eq_dec : EqDecision TipInfo.
Proof. solve_decision. Defined.

Record InvalidBlockJson := mkInvalidBlock { ib_hash : hash256; ib_height : Z; ib_reason : string }.
Record SignalStats := mkSignalStats { ss_period_start : Z; ss_signals : Z; ss_period : Z; ss_threshold : Z }.

Record SplitSnapshot := mkSnapshot {
  fork_height : Z;
  fork_hash : hash256;
  ours : TipInfo;
  rival : TipInfo;
  block_deficit : Z;
  work_deficit : bytes;
  rival_first_invalid : option InvalidBlockJson;
  rival_signaling : option SignalStats;
  capitulation_armed : bool }.

Record MonitorState := mkMonitor {
  rival_tips : gmap hash256 TipInfo;
  fork_cache : gmap hash256 (Z * hash256);
  last_published : option (Z * Z * bool);
  our_tip_pushed : option TipInfo }.

Definition monitor_default : MonitorState := mkMonitor ∅ ∅ None None.

(** [NodeNotification::ChainSplit] *)
Record ChainSplit := mkChainSplit {
  cs_fork_height : Z; cs_our_height : Z; cs_rival_height : Z; cs_block_deficit : Z; cs_armed : bool }.

(** The order in which the tips are visited. *)
Class TipIter := { iter_tips : gmap hash256 TipInfo -> list TipInfo }.
Class TipIterLaws `{TipIter} := { iter_tips_perm m : iter_tips m ≡ₚ (map_to_list m).*2 }.

Definition set_rivals (st : MonitorState) (tips : gmap hash256 TipInfo) (cache : gmap hash256 (Z * hash256)) : MonitorState :=
  mkMonitor tips cache (last_published st) (our_tip_pushed st).

(** [slice.chunks_exact(n)] *)
Fixpoint chunks_exact (fuel n : nat) (data : bytes) : list bytes :=
  match fuel with
  | O => []
  | S f => if (length data <? n)%nat then [] else take n data :: chunks_exact f n (drop n data)
  end.

Section Monitor.
Context `{HR : RocksDb} `{HW : !RocksWal} `{HC : HeaderCodec} `{HI : TipIter} `{HT : TxLib}.

(** ** Persistence *)

Definition set_split_rival_tips (blob : bytes) : stm HeaderIndex StorageError unit :=
  _ ← hi_cf CF_HMETA; hi_write [Put CF_HMETA META_SPLIT_RIVAL_TIPS blob].
Definition get_split_rival_tips (hi : HeaderIndex) : StorageResult (option bytes) := hi_get hi CF_HMETA META_SPLIT_RIVAL_TIPS.
Definition clear_split_rival_tips : stm HeaderIndex StorageError unit :=
  _ ← hi_cf CF_HMETA; hi_write [Delete CF_HMETA META_SPLIT_RIVAL_TIPS].

Definition encode_tip (t : TipInfo) : bytes := tip_hash t ++ to_le 4 (tip_height t) ++ tip_work t.
Definition decode_tip (chunk : bytes) : TipInfo := mkTip (take 32 chunk) (from_le (take 4 (drop 32 chunk))) (take 32 (drop 36 chunk)).

(** Errors of the write are ignored. *)
Definition persist_rivals (hi : HeaderIndex) (st : MonitorState) : HeaderIndex :=
  if bool_decide (rival_tips st = ∅) then (clear_split_rival_tips hi).1
  else (set_split_rival_tips (concat (map encode_tip (iter_tips (rival_tips st)))) hi).1.

Definition known_header (hi : HeaderIndex) (h : hash256) : option StoredHeader := lookup_ok (get_header hi) h.

Definition load_tip (hi : HeaderIndex) (st : MonitorState) (chunk : bytes) : MonitorState :=
  let t := decode_tip chunk in
  match known_header hi (tip_hash t) with
  | Some _ => set_rivals st (<[tip_hash t := t]> (rival_tips st)) (fork_cache st)
  | None => st
  end.

Definition load_persisted_rivals (hi : HeaderIndex) (st : MonitorState) : MonitorState :=
  match get_split_rival_tips hi with
  | Ok (Some blob) => foldl (load_tip hi) st (chunks_exact (length blob) RIVAL_TIP_BYTES blob)
  | _ => st
  end.

Definition monitor_new (hi : HeaderIndex) : MonitorState := load_persisted_rivals hi monitor_default.

(** ** Events *)

Definition on_tainted_tip (tip : TipInfo) (extended_from : option hash256) (hi : HeaderIndex) (st : MonitorState) :
    HeaderIndex * MonitorState :=
  let st :=
    match extended_from with
    | Some prev =>
        set_rivals st (delete prev (rival_tips st))
          (match fork_cache st !! prev with
           | Some fp => <[tip_hash tip := fp]> (delete prev (fork_cache st))
           | None => fork_cache st
           end)
    | None => st
    end in
  let st := set_rivals st (<[tip_hash tip := tip]> (rival_tips st)) (fork_cache st) in
  (persist_rivals hi st, st).

Definition on_invalid_marked (hash : hash256) (height : Z) (hi : HeaderIndex) (st : MonitorState) : HeaderIndex * MonitorState :=
  let work := default (replicate 32 0) (chain_work <$> known_header hi hash) in
  match rival_tips st !! hash with
  | Some _ => (hi, st)
  | None =>
      let st := set_rivals st (<[hash := mkTip hash height work]> (rival_tips st)) (fork_cache st) in
      (persist_rivals hi st, st)
  end.

Definition has_rival (st : MonitorState) : bool := negb (bool_decide (rival_tips st = ∅)).

Definition work_ge (a b : bytes) : bool := match cmp_work a b with Lt => false | _ => true end.

Definition rival_leads (st : MonitorState) : bool :=
  if bool_decide (rival_tips st = ∅) then false
  else match our_tip_pushed st with
       | None => true
       | Some o => existsb (fun t => work_ge (tip_work t) (tip_work o)) (iter_tips (rival_tips st))
       end.

Definition set_our_tip (hash : hash256) (height : Z) (hi : HeaderIndex) (st : MonitorState) : MonitorState :=
  mkMonitor (rival_tips st) (fork_cache st) (last_published st)
    (Some (mkTip hash height (default (replicate 32 0) (chain_work <$> known_header hi hash)))).

Definition our_tip (hi : HeaderIndex) (st : MonitorState) : option TipInfo :=
  match our_tip_pushed st with
  | Some t => Some t
  | None =>
      hash ← (match get_best_tip hi with Ok o => o | Err _ => None end);
      stored ← known_header hi hash;
      Some (mkTip hash (sh_height stored) (chain_work stored))
  end.

(** ** The picture *)

(** The canonical hash at a height, errors read as absent. *)
Definition canonical_at (hi : HeaderIndex) (h : Z) : option hash256 :=
  match get_hash_at_height hi h with Ok o => o | Err _ => None end.

(** [fuel] is what is left of [FORK_WALK_MAX]. *)
Fixpoint fork_walk (hi : HeaderIndex) (fuel : nat) (trust_height : Z) (hash : hash256) : option (Z * hash256) :=
  match fuel with
  | O => None
  | S f =>
      stored ← known_header hi hash;
      if (sh_height stored <=? trust_height) && bool_decide (canonical_at hi (sh_height stored) = Some hash)
      then Some (sh_height stored, hash)
      else if sh_height stored =? 0 then None
      else fork_walk hi f trust_height (prev_blockhash (sh_header stored))
  end.

Definition find_fork_point (hi : HeaderIndex) (tip : TipInfo) (trust_height : Z) : option (Z * hash256) :=
  fork_walk hi (Z.to_nat FORK_WALK_MAX) trust_height (tip_hash tip).

Definition first_invalid_on (hi : HeaderIndex) (r : TipInfo) (fork_height : Z) : option InvalidBlockJson :=
  '(hash, height) ← (match first_invalid_ancestor hi (tip_hash r) fork_height FORK_WALK_MAX with Ok o => o | Err _ => None end);
  let marker := match get_invalid hi hash with Ok o => o | Err _ => None end in
  let reason :=
    match marker with
    | Some (_, why) =>
        if why =? INVALID_REASON_BIP110 then "consensus-bip110"%string
        else if why =? INVALID_REASON_SIGNALING then "mandatory-signaling"%string
        else "consensus"%string
    | None => "consensus"%string
    end in
  Some (mkInvalidBlock hash height reason).

(** The signaling count of the rival's period; the loop has no bound of its
    own, [fuel] covers the heights it goes through. *)
Fixpoint signal_walk (hi : HeaderIndex) (d : Bip110Deployment) (fuel : nat) (period_start : Z) (hash : hash256) (n : Z) :
    outcome (option Z) :=
  match fuel with
  | O => OutOfFuel
  | S f =>
      match known_header hi hash with
      | None => Done None
      | Some stored =>
          if sh_height stored <? period_start then Done (Some n)
          else
            let n := if signals d (u32 (version (sh_header stored))) then u32 (n + 1) else n in
            if sh_height stored =? 0 then Done (Some n)
            else signal_walk hi d f period_start (prev_blockhash (sh_header stored)) n
      end
  end.

Definition signal_stats (hi : HeaderIndex) (d : option Bip110Deployment) (fuel : nat) (r : TipInfo) : outcome (option SignalStats) :=
  match d with
  | None => Done None
  | Some d =>
      let period := Z.max (period d) 1 in
      let period_start := tip_height r - tip_height r mod period in
      match signal_walk hi d fuel period_start (tip_hash r) 0 with
      | Done n => Done ((fun n => mkSignalStats period_start n period (threshold d)) <$> n)
      | OutOfFuel => OutOfFuel
      end
  end.

(** One tip of the loop of [snapshot_against]. *)
Record Survey := mkSurvey {
  sv_cache : gmap hash256 (Z * hash256);
  sv_stale : list hash256;
  sv_best : option (TipInfo * (Z * hash256)) }.

Definition survey_tip (hi : HeaderIndex) (o : TipInfo) (acc : Survey) (tip : TipInfo) : Survey :=
  if (tip_height tip <=? tip_height o) && bool_decide (canonical_at hi (tip_height tip) = Some (tip_hash tip))
  then mkSurvey (sv_cache acc) (sv_stale acc ++ [tip_hash tip]) (sv_best acc)
  else
    let '(cache, fork) :=
      match sv_cache acc !! tip_hash tip with
      | Some f => (sv_cache acc, Some f)
      | None =>
          match find_fork_point hi tip (tip_height o) with
          | Some f => (<[tip_hash tip := f]> (sv_cache acc), Some f)
          | None => (sv_cache acc, None)
          end
      end in
    match fork with
    | None => mkSurvey cache (sv_stale acc ++ [tip_hash tip]) (sv_best acc)
    | Some fork =>
        mkSurvey cache (sv_stale acc)
          (match sv_best acc with
           | Some (b, fb) => if match cmp_work (tip_work tip) (tip_work b) with Gt => false | _ => true end
                             then Some (b, fb) else Some (tip, fork)
           | None => Some (tip, fork)
           end)
    end.

Definition drop_tips (st : MonitorState) (stale : list hash256) (cache : gmap hash256 (Z * hash256)) : MonitorState :=
  set_rivals st (foldl (fun m h => delete h m) (rival_tips st) stale) (foldl (fun m h => delete h m) cache stale).

Definition block_work (hi : HeaderIndex) (h : hash256) : bytes :=
  default (replicate 32 0) ((fun s => calculate_work (header_target (sh_header s))) <$> known_header hi h).

Definition work_threshold (w : bytes) : bytes :=
  Nat.iter CAPITULATION_THRESHOLD_BLOCKS (fun acc => add_chain_work acc w) (replicate 32 0).

Definition armed (hi : HeaderIndex) (o r : TipInfo) : bool :=
  (tip_height r - tip_height o >=? Z.of_nat CAPITULATION_THRESHOLD_BLOCKS)
  && work_ge (sub_work (tip_work r) (tip_work o)) (work_threshold (block_work hi (tip_hash r))).

Definition snapshot_against (d : option Bip110Deployment) (fuel : nat) (o : TipInfo) (hi : HeaderIndex) (st : MonitorState) :
    HeaderIndex * MonitorState * outcome (option SplitSnapshot) :=
  if bool_decide (rival_tips st = ∅) then (hi, st, Done None)
  else
    let sv := foldl (survey_tip hi o) (mkSurvey (fork_cache st) [] None) (iter_tips (rival_tips st)) in
    let st := drop_tips st (sv_stale sv) (sv_cache sv) in
    let hi := if bool_decide (sv_stale sv = []) then hi else persist_rivals hi st in
    match sv_best sv with
    | None => (hi, st, Done None)
    | Some (r, (fh, fhash)) =>
        match signal_stats hi d fuel r with
        | OutOfFuel => (hi, st, OutOfFuel)
        | Done stats =>
            (hi, st, Done (Some (mkSnapshot fh fhash o r (tip_height r - tip_height o) (sub_work (tip_work r) (tip_work o))
               (first_invalid_on hi r fh) stats (armed hi o r))))
        end
    end.

Definition snapshot (d : option Bip110Deployment) (fuel : nat) (hi : HeaderIndex) (st : MonitorState) :
    HeaderIndex * MonitorState * outcome (option SplitSnapshot) :=
  match our_tip hi st with
  | None => (hi, st, Done None)
  | Some o => snapshot_against d fuel o hi st
  end.

Definition set_published (st : MonitorState) (p : option (Z * Z * bool)) : MonitorState :=
  mkMonitor (rival_tips st) (fork_cache st) p (our_tip_pushed st).

(** [snapshot], and a notification when the picture changed. *)
Definition refresh (d : option Bip110Deployment) (fuel : nat) (hi : HeaderIndex) (st : MonitorState) :
    HeaderIndex * MonitorState * outcome (option SplitSnapshot) * list ChainSplit :=
  let '(hi, st, snap) := snapshot d fuel hi st in
  match snap with
  | OutOfFuel => (hi, st, snap, [])
  | Done None => (hi, set_published st None, snap, [])
  | Done (Some s) =>
      let key := (tip_height (rival s), tip_height (ours s), capitulation_armed s) in
      if bool_decide (last_published st = Some key) then (hi, st, snap, [])
      else (hi, set_published st (Some key), snap,
            [mkChainSplit (fork_height s) (tip_height (ours s)) (tip_height (rival s)) (block_deficit s) (capitulation_armed s)])
  end.
End Monitor.
