(* ===== verification/SplitProofs.v ===== *)
(** * Properties of the chain-split monitor

    The alarm is raised exactly when the strongest tracked rival leads by six
    blocks and by six times the work of its tip block, and the tracked tips
    survive a restart. *)

From Stdlib Require Import ZArith Lia.
From stdpp Require Import base option numbers list gmap strings.
From S2P Require Import Prelude Bytes U256 Types Consensus Validation Store HeaderIndex HeaderProofs Bip110 SplitMonitor.

(** ** Work arithmetic *)

Lemma sub_work_value a b : arr32 a -> arr32 b -> arr32 (sub_work a b) /\ from_be (sub_work a b) = Z.max 0 (from_be a - from_be b).
Proof.
  intros Ha Hb. pose proof (arr32_bound a Ha). pose proof (arr32_bound b Hb). unfold sub_work.
  pose proof (sub_loop_be a b Ha Hb) as Hs. destruct (sub_loop _ _ _) as [r bo]. destruct Hs as (H1 & H2 & H3). rewrite H3.
  destruct (Z.leb_spec (from_be b) (from_be a)); cbn [negb].
  - split; [done|]. rewrite H2, Z.mod_small by lia. lia.
  - split; [apply arr32_zero|]. rewrite from_be_zero32. lia.
Qed.

Lemma cmp_work_value a b : arr32 a -> arr32 b -> cmp_work a b = (from_be a ?= from_be b).
Proof. intros Ha Hb. apply lex_cmp_spec; [apply Ha|apply Hb|destruct Ha as [-> _]; by destruct Hb as [-> _]]. Qed.

Lemma work_ge_value a b : arr32 a -> arr32 b -> work_ge a b = (from_be b <=? from_be a).
Proof.
  intros Ha Hb. unfold work_ge. rewrite cmp_work_value by done.
  destruct (Z.compare_spec (from_be a) (from_be b)); symmetry; [apply Z.leb_le|apply Z.leb_gt|apply Z.leb_le]; lia.
Qed.

Lemma work_threshold_value w : arr32 w -> 6 * from_be w < 2 ^ 256 -> arr32 (work_threshold w) /\ from_be (work_threshold w) = 6 * from_be w.
Proof.
  intros Hw Hlim. pose proof (arr32_bound w Hw).
  assert (Hn : forall n, (n <= 6)%nat -> arr32 (Nat.iter n (fun acc => add_chain_work acc w) (replicate 32 0)) /\
    from_be (Nat.iter n (fun acc => add_chain_work acc w) (replicate 32 0)) = Z.of_nat n * from_be w).
  { induction n as [|n IH]; intros Hle; [split; [apply arr32_zero|apply from_be_zero32]|]. cbn [Nat.iter nat_rect].
    destruct (IH ltac:(lia)) as [H1 H2]. destruct (add_chain_work_value _ w H1 Hw) as [H3 H4]. split; [exact H3|].
    unfold Nat.iter in *. rewrite H4, H2, Z.mod_small; nia. }
  apply (Hn 6%nat). lia.
Qed.

Section Proofs.
Context `{HR : RocksDb} `{HL : !RocksLaws} `{HW : !RocksWal} `{HC : HeaderCodec} `{HI : TipIter} `{HIL : !TipIterLaws} `{HT : TxLib}.

Lemma armed_iff hi o r :
  arr32 (tip_work o) -> arr32 (tip_work r) -> arr32 (block_work hi (tip_hash r)) ->
  0 < from_be (block_work hi (tip_hash r)) -> 6 * from_be (block_work hi (tip_hash r)) < 2 ^ 256 ->
  armed hi o r = true <->
  tip_height o + 6 <= tip_height r /\ from_be (tip_work o) + 6 * from_be (block_work hi (tip_hash r)) <= from_be (tip_work r).
Proof.
  intros Ho Hr Hw Hpos Hlim. unfold armed. destruct (sub_work_value _ _ Hr Ho) as [H1 H2]. destruct (work_threshold_value _ Hw Hlim) as [H3 H4].
  rewrite work_ge_value by done. rewrite H2, H4, andb_true_iff, Z.geb_le, Z.leb_le. change (Z.of_nat CAPITULATION_THRESHOLD_BLOCKS) with 6. lia.
Qed.

(** ** Fork points *)

(** From a block down to the first one that is on our chain, at most at the
    height [trust], along headers that are known. *)
Inductive fork_from (hi : HeaderIndex) (trust : Z) : hash256 -> nat -> Z * hash256 -> Prop :=
| fork_here h x : known_header hi h = Some x -> sh_height x <= trust -> canonical_at hi (sh_height x) = Some h ->
    fork_from hi trust h 0 (sh_height x, h)
| fork_below h x n f : known_header hi h = Some x -> ~ (sh_height x <= trust /\ canonical_at hi (sh_height x) = Some h) ->
    sh_height x <> 0 -> fork_from hi trust (prev_blockhash (sh_header x)) n f -> fork_from hi trust h (S n) f.

Lemma fork_walk_spec hi trust f : forall fuel h,
  fork_walk hi fuel trust h = Some f <-> exists n, (n < fuel)%nat /\ fork_from hi trust h n f.
Proof.
  induction fuel as [|fuel IH]; intros h; cbn [fork_walk]; [split; [done|intros (n & ? & _); lia]|].
  destruct (known_header hi h) as [x|] eqn:Hx; [|split; [done|intros (n & _ & Hf); inversion Hf; congruence]]. cbn [mbind option_bind].
  destruct (decide (sh_height x <= trust /\ canonical_at hi (sh_height x) = Some h)) as [[Hle Hc]|Hno].
  { rewrite (proj2 (Z.leb_le _ _) Hle), bool_decide_eq_true_2 by done. cbn [andb]. split.
    - intros [= <-]. exists 0%nat. split; [lia|by constructor].
    - intros (n & _ & Hf). inversion Hf as [? x0 Hx0 _ _|? x0 m ? Hx0 Hn _ _]; subst; rewrite Hx in Hx0; injection Hx0 as <-; [done|by destruct Hn]. }
  replace ((sh_height x <=? trust) && _) with false
    by (symmetry; apply not_true_iff_false; rewrite andb_true_iff, Z.leb_le, bool_decide_eq_true; exact Hno).
  destruct (Z.eqb_spec (sh_height x) 0) as [Hz|Hz].
  { split; [done|]. intros (n & _ & Hf). inversion Hf as [? x0 Hx0 Hle Hc|? x0 m ? Hx0 _ Hz' _]; subst; rewrite Hx in Hx0; injection Hx0 as <-; [by destruct Hno|done]. }
  rewrite IH. split.
  - intros (n & Hn & Hf). exists (S n). split; [lia|by econstructor].
  - intros (n & Hn & Hf). inversion Hf as [? x0 Hx0 Hle Hc|? x0 m ? Hx0 _ _ Hm]; subst; rewrite Hx in Hx0; injection Hx0 as <-; [by destruct Hno|].
    exists m. split; [lia|done].
Qed.

(** A tip that our chain has adopted, and the fork point of a tip: the one
    remembered from an earlier survey, or the one found now. *)
Definition adopted (hi : HeaderIndex) (o t : TipInfo) : Prop :=
  tip_height t <= tip_height o /\ canonical_at hi (tip_height t) = Some (tip_hash t).
Definition forks_at (hi : HeaderIndex) (o : TipInfo) (cache : gmap hash256 (Z * hash256)) (t : TipInfo) (f : Z * hash256) : Prop :=
  cache !! tip_hash t = Some f \/
  cache !! tip_hash t = None /\ exists n, (n < Z.to_nat FORK_WALK_MAX)%nat /\ fork_from hi (tip_height o) (tip_hash t) n f.

Lemma forks_at_spec hi o cache t f :
  match cache !! tip_hash t with Some f => Some f | None => find_fork_point hi t (tip_height o) end = Some f <-> forks_at hi o cache t f.
Proof.
  unfold forks_at, find_fork_point. destruct (cache !! tip_hash t) as [g|]; [naive_solver|]. rewrite fork_walk_spec. naive_solver.
Qed.

(** ** The survey of the tips *)

(** A tip is dropped exactly when our chain has adopted it or it has no fork
    point; every other one is no stronger than the best, which is not dropped. *)
Record survey_ok (hi : HeaderIndex) (o : TipInfo) (cache0 : gmap hash256 (Z * hash256)) (seen : list TipInfo) (sv : Survey) : Prop := {
  so_all t : t ∈ seen -> tip_hash t ∈ sv_stale sv \/ exists b f, sv_best sv = Some (b, f) /\ from_be (tip_work t) <= from_be (tip_work b);
  so_best b f : sv_best sv = Some (b, f) -> b ∈ seen /\ tip_hash b ∉ sv_stale sv /\ forks_at hi o cache0 b f;
  so_stale h : h ∈ sv_stale sv -> exists t, t ∈ seen /\ tip_hash t = h /\ (adopted hi o t \/ ~ exists f, forks_at hi o cache0 t f);
  so_kept t : t ∈ seen -> tip_hash t ∉ sv_stale sv -> ~ adopted hi o t /\ exists f, forks_at hi o cache0 t f;
  so_cache h : h ∉ map tip_hash seen -> sv_cache sv !! h = cache0 !! h }.

Lemma survey_drop hi o cache0 seen sv t c :
  survey_ok hi o cache0 seen sv -> (forall u, u ∈ seen -> tip_hash u <> tip_hash t) ->
  adopted hi o t \/ (~ exists f, forks_at hi o cache0 t f) -> (forall h, h <> tip_hash t -> c !! h = sv_cache sv !! h) ->
  survey_ok hi o cache0 (seen ++ [t]) (mkSurvey c (sv_stale sv ++ [tip_hash t]) (sv_best sv)).
Proof.
  intros [Sa Sb Ss Sk Sc] Hne Hwhy Hc. split; cbn [sv_stale sv_best sv_cache].
  - intros u [Hu| ->%list_elem_of_singleton]%elem_of_app; [|left; apply elem_of_app; right; by left].
    destruct (Sa u Hu) as [?|?]; [left; apply elem_of_app; by left|by right].
  - intros b f Hb. destruct (Sb b f Hb) as (H1 & H2 & H3). split_and!; [apply elem_of_app; by left| |done].
    intros [?|Heq%list_elem_of_singleton]%elem_of_app; [done|]. by apply (Hne b).
  - intros h [Hh| ->%list_elem_of_singleton]%elem_of_app; [destruct (Ss h Hh) as (u & Hu & <- & Hw); exists u|exists t];
      (split_and!; [apply elem_of_app|done|done]); [by left|right; by left].
  - intros u [Hu| ->%list_elem_of_singleton]%elem_of_app Hn; [apply Sk; [done|]|]; [|destruct Hn]; [intros ?; apply Hn|]; apply elem_of_app; [by left|right; by left].
  - intros h Hh. rewrite map_app, not_elem_of_app in Hh. destruct Hh as [Hh Hn]. rewrite Hc; [by apply Sc|]. intros ->. apply Hn. by left.
Qed.

Lemma survey_step hi o cache0 seen sv t :
  survey_ok hi o cache0 seen sv -> (forall u, u ∈ seen ++ [t] -> arr32 (tip_work u)) -> (forall u, u ∈ seen -> tip_hash u <> tip_hash t) ->
  survey_ok hi o cache0 (seen ++ [t]) (survey_tip hi o sv t).
Proof.
  intros Hs Harr Hne. pose proof Hs as [Sa Sb Ss Sk Sc].
  assert (Hfresh : tip_hash t ∉ sv_stale sv) by (intros (u & Hu & Heq & _)%Ss; by apply (Hne u)).
  assert (Hcache : sv_cache sv !! tip_hash t = cache0 !! tip_hash t).
  { apply Sc. intros (u & Heq & Hu)%list_elem_of_fmap. by apply (Hne u). }
  pose proof (forks_at_spec hi o cache0 t) as Hfork. rewrite <- Hcache in Hfork. unfold survey_tip.
  destruct (decide (adopted hi o t)) as [[Ha1 Ha2]|Hna].
  { rewrite (proj2 (Z.leb_le _ _) Ha1), bool_decide_eq_true_2 by done. by apply survey_drop; [..|left|]. }
  replace ((tip_height t <=? tip_height o) && _) with false
    by (symmetry; apply not_true_iff_false; rewrite andb_true_iff, Z.leb_le, bool_decide_eq_true; exact Hna).
  assert (Hpair : exists cache, (match sv_cache sv !! tip_hash t with
      | Some f => (sv_cache sv, Some f)
      | None => match find_fork_point hi t (tip_height o) with Some f => (<[tip_hash t := f]> (sv_cache sv), Some f) | None => (sv_cache sv, None) end
      end) = (cache, match sv_cache sv !! tip_hash t with Some f => Some f | None => find_fork_point hi t (tip_height o) end) /\
    forall h, h <> tip_hash t -> cache !! h = sv_cache sv !! h).
  { destruct (sv_cache sv !! tip_hash t); [by eexists|]. destruct (find_fork_point hi t (tip_height o)); eexists; (split; [done|]); [|done].
    intros h Hh. by apply lookup_insert_ne. }
  destruct Hpair as (cache & -> & Hc).
  destruct (match sv_cache sv !! tip_hash t with Some f => Some f | None => _ end) as [fork|].
  2: { apply survey_drop; [done|done| |done]. right. intros [f Hf]. by apply Hfork in Hf. }
  pose proof (proj1 (Hfork fork) eq_refl) as Hft.
  assert (Hkeep : forall b f, (forall u, u ∈ seen -> tip_hash u ∈ sv_stale sv \/ from_be (tip_work u) <= from_be (tip_work b)) ->
    from_be (tip_work t) <= from_be (tip_work b) -> b ∈ seen ++ [t] -> tip_hash b ∉ sv_stale sv -> forks_at hi o cache0 b f ->
    survey_ok hi o cache0 (seen ++ [t]) (mkSurvey cache (sv_stale sv) (Some (b, f)))).
  { intros b f Hall Ht Hb Hbs Hf. split; cbn [sv_stale sv_best sv_cache].
    - intros u [Hu| ->%list_elem_of_singleton]%elem_of_app; [|right; eauto]. destruct (Hall u Hu); [by left|right; eauto].
    - by intros ? ? [= <- <-].
    - intros h (u & Hu & <- & Hw)%Ss. exists u. split_and!; [apply elem_of_app; by left|done|done].
    - intros u [Hu| ->%list_elem_of_singleton]%elem_of_app Hn; [by apply Sk|eauto].
    - intros h Hh. rewrite map_app, not_elem_of_app in Hh. destruct Hh as [Hh Hn]. rewrite Hc; [by apply Sc|]. intros ->. apply Hn. by left. }
  assert (Ht : t ∈ seen ++ [t]) by (apply elem_of_app; right; by left).
  destruct (sv_best sv) as [[b fb]|] eqn:Hb.
  - destruct (Sb b fb eq_refl) as (Hbin & Hbs & Hbf). assert (Hb' : b ∈ seen ++ [t]) by (apply elem_of_app; by left).
    rewrite cmp_work_value by by apply Harr.
    assert (Hold : forall u, u ∈ seen -> tip_hash u ∈ sv_stale sv \/ from_be (tip_work u) <= from_be (tip_work b)).
    { intros u Hu. destruct (Sa u Hu) as [?|(b' & f' & [= <- <-] & ?)]; auto. }
    destruct (Z.compare_spec (from_be (tip_work t)) (from_be (tip_work b))); [apply Hkeep; [done|lia|done..]|apply Hkeep; [done|lia|done..]|].
    apply Hkeep; [|lia|done..]. intros u Hu. destruct (Hold u Hu); [by left|right; lia].
  - apply Hkeep; [|lia|done..]. intros u Hu. destruct (Sa u Hu) as [?|(? & ? & [=] & _)]. by left.
Qed.

Lemma survey_all hi o cache0 : forall rest seen sv,
  survey_ok hi o cache0 seen sv -> (forall u, u ∈ seen ++ rest -> arr32 (tip_work u)) -> NoDup (map tip_hash (seen ++ rest)) ->
  survey_ok hi o cache0 (seen ++ rest) (foldl (survey_tip hi o) sv rest).
Proof.
  induction rest as [|t rest IH]; intros seen sv Hs Harr Hnd; [by rewrite app_nil_r|]. cbn [foldl].
  rewrite (app_assoc seen [t] rest : seen ++ t :: rest = (seen ++ [t]) ++ rest) in *. apply IH; [|done|done].
  apply survey_step; [done|intros u Hu; apply Harr, elem_of_app; by left|].
  intros u Hu Heq. rewrite <- app_assoc, map_app in Hnd. apply NoDup_app in Hnd as (_ & Hd & _).
  apply (Hd (tip_hash u)); [by apply list_elem_of_fmap_2|]. rewrite Heq. by left.
Qed.

(** The tips are stored under their hashes and carry 256-bit work. *)
Definition tips_ok (m : gmap hash256 TipInfo) : Prop := forall h t, m !! h = Some t -> tip_hash t = h /\ arr32 (tip_work t).

Lemma iter_tips_elem m t : tips_ok m -> t ∈ iter_tips m <-> m !! tip_hash t = Some t.
Proof.
  intros Hm. rewrite iter_tips_perm. rewrite list_elem_of_fmap. split.
  - intros ([h u] & -> & Hu%elem_of_map_to_list). cbn. by destruct (Hm h u Hu) as [-> _].
  - intros Ht. exists (tip_hash t, t). split; [done|]. by apply elem_of_map_to_list.
Qed.

Lemma iter_tips_nodup m : tips_ok m -> NoDup (map tip_hash (iter_tips m)).
Proof.
  intros Hm. rewrite (iter_tips_perm m : iter_tips m ≡ₚ _). change (map tip_hash ?l) with (tip_hash <$> l).
  rewrite <- list_fmap_compose. rewrite (list_fmap_ext _ fst); [apply NoDup_fst_map_to_list|].
  intros i [h t] Hi. apply list_elem_of_lookup_2, elem_of_map_to_list in Hi. cbn. by destruct (Hm h t Hi) as [-> _].
Qed.

Lemma drop_tips_lookup (m : gmap hash256 TipInfo) stale h :
  foldl (fun m h => delete h m) m stale !! h = if bool_decide (h ∈ stale) then None else m !! h.
Proof.
  induction stale as [|k stale IH] using rev_ind; [done|]. rewrite foldl_snoc. destruct (decide (h = k)) as [->|Hne].
  - rewrite lookup_delete_eq, bool_decide_eq_true_2; [done|]. apply elem_of_app. right. by left.
  - rewrite lookup_delete_ne, IH by done. rewrite (bool_decide_ext (h ∈ stale) (h ∈ stale ++ [k])); [done|].
    rewrite elem_of_app, list_elem_of_singleton. naive_solver.
Qed.

(** ** Persistence *)

Lemma chunks_concat (n : nat) (l : list bytes) : (0 < n)%nat -> Forall (fun x => length x = n) l ->
  forall fuel, (length (concat l) <= fuel)%nat -> chunks_exact fuel n (concat l) = l.
Proof.
  intros Hn. induction 1 as [|x l Hx Hl IH]; intros fuel Hf; cbn [concat].
  - destruct fuel; [done|]. cbn [chunks_exact length]. rewrite (proj2 (Nat.ltb_lt 0 n) Hn). done.
  - cbn [concat] in Hf. rewrite length_app in Hf. destruct fuel as [|fuel]; [lia|]. cbn [chunks_exact].
    destruct (Nat.ltb_spec (length (x ++ concat l)) n) as [Hlt|_]; [rewrite length_app in Hlt; lia|].
    rewrite take_app_length', drop_app_length' by done. by rewrite IH by lia.
Qed.

Definition tip_wf (t : TipInfo) : Prop := length (tip_hash t) = 32%nat /\ fits 32 (tip_height t) /\ length (tip_work t) = 32%nat.

Lemma decode_encode_tip t : tip_wf t -> decode_tip (encode_tip t) = t /\ length (encode_tip t) = RIVAL_TIP_BYTES.
Proof.
  intros (Hh & Hf & Hw). unfold decode_tip, encode_tip. split; [|by rewrite !length_app, length_to_le, Hh, Hw].
  rewrite take_app_length', drop_app_length' by done. rewrite take_app_length' by by rewrite length_to_le.
  rewrite from_to_le_small by done. rewrite app_assoc, drop_app_length' by by rewrite length_app, length_to_le, Hh.
  rewrite take_ge by by rewrite Hw. by destruct t.
Qed.

Lemma load_tips hi (l : list TipInfo) : forall st,
  Forall tip_wf l -> NoDup (map tip_hash l) ->
  forall h, rival_tips (foldl (load_tip hi) st (map encode_tip l)) !! h =
    match list_find (fun t => tip_hash t = h) l with
    | Some (_, t) => if known_header hi h then Some t else rival_tips st !! h
    | None => rival_tips st !! h
    end.
Proof.
  induction l as [|t l IH]; intros st Hwf Hnd h; [done|]. cbn [map foldl list_find].
  apply Forall_cons in Hwf as [Ht Hwf]. cbn [map] in Hnd. apply NoDup_cons in Hnd as [Hnt Hnd]. rewrite IH by done.
  assert (Hload : rival_tips (load_tip hi st (encode_tip t)) =
    match known_header hi (tip_hash t) with Some _ => <[tip_hash t := t]> (rival_tips st) | None => rival_tips st end).
  { unfold load_tip. rewrite (proj1 (decode_encode_tip t Ht)). by destruct (known_header hi (tip_hash t)). }
  rewrite Hload. destruct (decide (tip_hash t = h)) as [Heq|Hne].
  - subst h. destruct (list_find _ l) as [[i u]|] eqn:Hf.
    + exfalso. apply list_find_Some in Hf as (Hu & Heq & _). apply Hnt. rewrite <- Heq. apply list_elem_of_fmap_2. by eapply list_elem_of_lookup_2.
    + cbn. destruct (known_header hi (tip_hash t)); [by rewrite lookup_insert_eq|done].
  - assert (Hskip : forall k, match known_header hi (tip_hash t) with Some _ => <[tip_hash t := t]> (rival_tips st) | None => rival_tips st end !! k =
      rival_tips st !! k \/ k = tip_hash t).
    { intros k. destruct (known_header hi (tip_hash t)); [|by left]. destruct (decide (k = tip_hash t)); [by right|left; by rewrite lookup_insert_ne]. }
    destruct (Hskip h) as [->|]; [|congruence]. destruct (list_find _ l) as [[i u]|]; done.
Qed.

(** Heights fall from a known header to its parent. *)
Definition heights_fall (hi : HeaderIndex) : Prop :=
  forall h x y, known_header hi h = Some x -> known_header hi (prev_blockhash (sh_header x)) = Some y ->
    sh_height x <> 0 -> 0 <= sh_height y < sh_height x.

Lemma signal_walk_ends hi d start : heights_fall hi -> forall fuel hash n,
  (forall x, known_header hi hash = Some x -> 0 <= sh_height x < Z.of_nat fuel) -> (0 < fuel)%nat ->
  exists r, signal_walk hi d fuel start hash n = Done r.
Proof.
  intros Hfall. induction fuel as [|f IH]; intros hash n Hx Hf; [lia|]. cbn [signal_walk].
  destruct (known_header hi hash) as [x|] eqn:Hk; [|eauto]. specialize (Hx x eq_refl).
  destruct (_ <? _); [eauto|]. destruct (Z.eqb_spec (sh_height x) 0); [eauto|]. apply IH; [|lia].
  intros y Hy. pose proof (Hfall _ _ _ Hk Hy). lia.
Qed.

Lemma snapshot_ends d fuel o hi st :
  let hi' := (snapshot_against d fuel o hi st).1.1 in
  heights_fall hi' -> (0 < fuel)%nat -> (forall h x, known_header hi' h = Some x -> 0 <= sh_height x < Z.of_nat fuel) ->
  exists r, (snapshot_against d fuel o hi st).2 = Done r.
Proof.
  cbv zeta. unfold snapshot_against. case_bool_decide; [eauto|].
  destruct (sv_best _) as [[r [fh fhash]]|]; [|eauto]. unfold signal_stats. destruct d as [d|]; [|cbn; eauto].
  set (hi' := if bool_decide _ then _ else _). set (start := tip_height r - _).
  destruct (signal_walk hi' d fuel start (tip_hash r) 0) eqn:Hw; cbn [fst snd]; [eauto|].
  intros Hfall Hf Hx. destruct (signal_walk_ends hi' d start Hfall fuel (tip_hash r) 0 (Hx _) Hf) as [n Hn]. congruence.
Qed.

(** ** Theorems *)

(** C16: The picture of a split is right.  Of the tracked tips exactly those are
    dropped that our chain has adopted (not above our tip, and the canonical
    block at their height) or that have no fork point; none appears; and no
    picture means that none is left.  The rival shown is the strongest of the
    tips kept, with its fork point: the first block on the way down from it
    that is canonical and not above our tip, within 100000 known headers,
    unless a fork point was remembered for this tip from an earlier picture.
    The deficits are the differences in height and, if positive, in work, and
    abandoning our chain is offered exactly when the rival is at least six
    blocks higher and leads by at least six times the work of its tip block
    (which is positive and does not overflow).  Tips are stored under their
    hashes and carry 256-bit work.  The call returns when heights fall along
    the parents of known headers (fuel above every height is enough). *)
Theorem split_alarm_exact (d : option Bip110Deployment) (fuel : nat) (o : TipInfo) (hi : HeaderIndex) (st : MonitorState) :
  tips_ok (rival_tips st) -> arr32 (tip_work o) ->
  (let hi' := (snapshot_against d fuel o hi st).1.1 in
   heights_fall hi' -> (0 < fuel)%nat -> (forall h x, known_header hi' h = Some x -> 0 <= sh_height x < Z.of_nat fuel) ->
   exists r, (snapshot_against d fuel o hi st).2 = Done r) /\
  forall hi' st' r, snapshot_against d fuel o hi st = (hi', st', Done r) ->
  (forall h t, rival_tips st !! h = Some t ->
    (rival_tips st' !! h = Some t /\ ~ adopted hi o t /\ exists f, forks_at hi o (fork_cache st) t f) \/
    (rival_tips st' !! h = None /\ (adopted hi o t \/ ~ exists f, forks_at hi o (fork_cache st) t f))) /\
  (forall h, rival_tips st !! h = None -> rival_tips st' !! h = None) /\
  match r with
  | None => rival_tips st' = ∅
  | Some s =>
      ours s = o /\ rival_tips st' !! tip_hash (rival s) = Some (rival s) /\
      forks_at hi o (fork_cache st) (rival s) (fork_height s, fork_hash s) /\
      (forall h t, rival_tips st' !! h = Some t -> from_be (tip_work t) <= from_be (tip_work (rival s))) /\
      block_deficit s = tip_height (rival s) - tip_height o /\
      from_be (work_deficit s) = Z.max 0 (from_be (tip_work (rival s)) - from_be (tip_work o)) /\
      let w := block_work hi' (tip_hash (rival s)) in
      (arr32 w -> 0 < from_be w -> 6 * from_be w < 2 ^ 256 ->
       capitulation_armed s = true <->
         tip_height o + 6 <= tip_height (rival s) /\ from_be (tip_work o) + 6 * from_be w <= from_be (tip_work (rival s)))
  end.
Proof.
  intros Hok Ho. split; [apply snapshot_ends|]. intros hi' st' r. unfold snapshot_against. case_bool_decide as Hempty.
  { intros [= <- <- <-]. rewrite Hempty. split_and!; [intros h t; by rewrite lookup_empty|done|done]. }
  pose proof (survey_all hi o (fork_cache st) (iter_tips (rival_tips st)) [] (mkSurvey (fork_cache st) [] None)) as Hsv.
  destruct Hsv as [Sa Sb Ss Sk _]; cbn [app] in *.
  { split; [by intros t ?%not_elem_of_nil|done|by intros h ?%not_elem_of_nil|by intros t ?%not_elem_of_nil|done]. }
  { intros t Ht. by apply (Hok (tip_hash t)), iter_tips_elem. }
  { by apply iter_tips_nodup. }
  destruct (foldl (survey_tip hi o) _ _) as [cache stale best]. cbn [sv_cache sv_stale sv_best] in *.
  set (st1 := drop_tips st stale cache).
  assert (Htips : forall h, rival_tips st1 !! h = if bool_decide (h ∈ stale) then None else rival_tips st !! h) by (intros h; apply drop_tips_lookup).
  assert (Hdrop : (forall h t, rival_tips st !! h = Some t ->
      (rival_tips st1 !! h = Some t /\ ~ adopted hi o t /\ exists f, forks_at hi o (fork_cache st) t f) \/
      (rival_tips st1 !! h = None /\ (adopted hi o t \/ ~ exists f, forks_at hi o (fork_cache st) t f))) /\
    (forall h, rival_tips st !! h = None -> rival_tips st1 !! h = None)).
  { split; [|intros h Hh; rewrite Htips, Hh; by case_bool_decide]. intros h t Ht. destruct (Hok h t Ht) as [<- _]. rewrite Htips.
    assert (Hin : t ∈ iter_tips (rival_tips st)) by by apply iter_tips_elem.
    case_bool_decide as Hst; [right|left; split; [done|by apply Sk]]. split; [done|]. destruct (Ss _ Hst) as (u & Hu & Heq & Hw).
    apply iter_tips_elem in Hu; [|done]. rewrite Heq, Ht in Hu. by injection Hu as ->. }
  assert (Hstrong : forall h t, rival_tips st1 !! h = Some t -> exists b f, best = Some (b, f) /\ from_be (tip_work t) <= from_be (tip_work b)).
  { intros h t. rewrite Htips. case_bool_decide as Hst; [done|]. intros Ht. destruct (Hok h t Ht) as [<- _].
    destruct (Sa t) as [?|?]; [by apply iter_tips_elem|done|done]. }
  clearbody st1. destruct best as [[r0 [fh fhash]]|].
  2: { intros [= _ <- <-]. split_and!; [apply Hdrop..|]. apply map_empty. intros h. destruct (rival_tips st1 !! h) eqn:Hh; [|done].
    by destruct (Hstrong h _ Hh) as (? & ? & [=] & _). }
  destruct (signal_stats _ _ _ _) as [stats|]; [|done]. intros [= <- <- <-].
  destruct (Sb r0 _ eq_refl) as (Hr & Hrs & Hrf). apply iter_tips_elem in Hr; [|done]. destruct (Hok _ _ Hr) as [_ Harr].
  cbn [rival capitulation_armed ours fork_height fork_hash block_deficit work_deficit]. split_and!; [apply Hdrop..|done| |done| |done| |].
  - rewrite Htips. by rewrite bool_decide_eq_false_2.
  - intros h t Ht. by destruct (Hstrong h t Ht) as (? & ? & [= <- _] & ?).
  - by apply sub_work_value.
  - intros Hw Hpos Hlim. by apply armed_iff.
Qed.

(** Tracked rivals survive a restart: after the tips were written, a new
    monitor tracks exactly those whose headers are still known. *)
Theorem rivals_survive_restart (hi : HeaderIndex) (st : MonitorState)
    (reads_succeed : forall d cf k, exists v, get_cf d cf k = Ok v) (handles_exist : forall d cf, cf_handle d cf = true)
    (writes_succeed : forall d ops, (write d ops).2 = Ok tt) :
  tips_ok (rival_tips st) -> (forall h t, rival_tips st !! h = Some t -> tip_wf t) ->
  forall h, rival_tips (monitor_new (persist_rivals hi st)) !! h =
    match rival_tips st !! h with
    | Some t => if known_header (persist_rivals hi st) h then Some t else None
    | None => None
    end.
Proof.
  intros Hok Hwf h. set (l := iter_tips (rival_tips st)).
  assert (Hl : Forall tip_wf l) by (apply Forall_forall; intros t Ht; apply (Hwf (tip_hash t)); by apply iter_tips_elem in Ht).
  assert (Hread : get_split_rival_tips (persist_rivals hi st) = Ok (if bool_decide (rival_tips st = ∅) then None else Some (concat (map encode_tip l)))).
  { unfold get_split_rival_tips, hi_get. rewrite handles_exist. cbn [negb guard_err mbind result_bind].
    destruct (reads_succeed (hi_db (persist_rivals hi st)) CF_HMETA META_SPLIT_RIVAL_TIPS) as [v Hv]. rewrite Hv. f_equal. apply get_cf_contents in Hv as ->.
    unfold persist_rivals, clear_split_rival_tips, set_split_rival_tips, mbind, stm_bind, hi_cf, hi_write. rewrite !handles_exist. cbn [negb guard_err].
    case_bool_decide;
      (destruct (write (hi_db hi) _) as [d' r] eqn:Hw; pose proof (writes_succeed (hi_db hi)) as Hr;
       match type of Hw with write _ ?ops = _ => specialize (Hr ops) end; rewrite Hw in Hr; cbn in Hr; subst r;
       cbn [fst hi_db set_hi_db]; rewrite (write_applies _ _ _ Hw); cbn; unfold apply_op; by rewrite bool_decide_eq_true_2). }
  unfold monitor_new, load_persisted_rivals. rewrite Hread. case_bool_decide as He.
  { rewrite He. cbn. by rewrite lookup_empty. }
  rewrite chunks_concat; [|unfold RIVAL_TIP_BYTES; lia| |done].
  2: { apply Forall_fmap. eapply Forall_impl; [exact Hl|]. intros t Ht. by apply decode_encode_tip. }
  rewrite load_tips; [|done|by apply iter_tips_nodup]. cbn [rival_tips monitor_default].
  destruct (list_find (fun t => tip_hash t = h) l) as [[i t]|] eqn:Hf.
  - apply list_find_Some in Hf as (Ht & <- & _). apply list_elem_of_lookup_2, iter_tips_elem in Ht; [|done]. by rewrite Ht.
  - destruct (rival_tips st !! h) as [t|] eqn:Ht; [|done]. exfalso. apply list_find_None in Hf. rewrite Forall_forall in Hf.
    destruct (Hok h t Ht) as [Hh _]. apply (Hf t); [|done]. apply iter_tips_elem; [done|by rewrite Hh].
Qed.
End Proofs.

Section Examples.
#[local] Existing Instance Sample.tx_lib.
#[local] Existing Instance SampleDb.rocks.
#[local] Existing Instance SampleDb.laws.
#[local] Existing Instance SampleCodec.codec.
#[local] Existing Instance SampleCodec.wal.
#[local] Instance split_iter : TipIter := { iter_tips m := (map_to_list m).*2 }.
#[local] Instance split_iter_laws : TipIterLaws.
Proof. by split. Qed.

(** Our chain is one block; the rival's tip is six blocks and their work ahead. *)
Definition rx_header (prev : hash256) (n : Z) : Header := mkHeader 4 prev (replicate 32 0) 7 (2 ^ 32 - 1) n.
Definition rx_hash (n : Z) : hash256 := block_hash (rx_header [] n).
Definition rx_work (n : Z) : bytes := to_be 32 (n * 2 ^ 224).
Definition rx_index : HeaderIndex :=
  ((insert_header (rx_hash 0) (mkStored (rx_header (replicate 32 0) 0) 0 (rx_work 0)) ≫= fun _ =>
    insert_headers_hash_only [(rx_hash 7, mkStored (rx_header (rx_hash 0) 7) 6 (rx_work 6))]) (mkHeaderIndex (∅ : gmap _ _) ∅ 0)).1.
Definition rx_tip : TipInfo := mkTip (rx_hash 7) 6 (rx_work 6).
Definition rx_ours : TipInfo := mkTip (rx_hash 0) 0 (rx_work 0).
Definition rx_state : MonitorState := mkMonitor {[ rx_hash 7 := rx_tip ]} ∅ None (Some rx_ours).
(** A tip that our chain has adopted is still tracked. *)
Definition rx_old : MonitorState := mkMonitor (<[rx_hash 0 := rx_ours]> {[ rx_hash 7 := rx_tip ]}) ∅ None (Some rx_ours).
Definition rx_picture : HeaderIndex * MonitorState * outcome (option SplitSnapshot) := snapshot_against None 0 rx_ours rx_index rx_old.
Definition rx_snapshot : SplitSnapshot :=
  mkSnapshot 0 (rx_hash 0) rx_ours rx_tip 6 (rx_work 6) None None true.

Lemma rx_tips h t : rival_tips rx_state !! h = Some t -> rx_hash 7 = h /\ rx_tip = t.
Proof. unfold rx_state. cbn [rival_tips]. apply lookup_singleton_Some. Qed.

Lemma rx_tips_ok : tips_ok (rival_tips rx_state).
Proof. intros h t [<- <-]%rx_tips. split; [done|]. split; [apply length_to_be|apply bytes_ok_to_be]. Qed.

Lemma rx_old_ok : tips_ok (rival_tips rx_old).
Proof.
  intros h t. unfold rx_old. cbn [rival_tips]. intros [[<- <-]|[_ Ht]]%lookup_insert_Some; [|by apply rx_tips_ok]. split; [done|]. split; [apply length_to_be|apply bytes_ok_to_be].
Qed.

Lemma rx_picture_value : rx_picture.2 = Done (Some rx_snapshot).
Proof. vm_compute. reflexivity. Qed.

Lemma rx_picture_work : block_work rx_picture.1.1 (rx_hash 7) = rx_work 1.
Proof. vm_compute. reflexivity. Qed.

Lemma split_alarm_exact_witness :
  rx_picture.2 = Done (Some rx_snapshot) /\ rival_tips rx_picture.1.2 !! rx_hash 0 = None /\
  forks_at rx_index rx_ours ∅ rx_tip (0, rx_hash 0) /\
  (capitulation_armed rx_snapshot = true <-> tip_height rx_ours + 6 <= 6 /\ from_be (tip_work rx_ours) + 6 * 2 ^ 224 <= from_be (rx_work 6)).
Proof.
  pose proof rx_picture_value as Hv. pose proof rx_picture_work as Hw. split; [exact Hv|].
  assert (Hp : rx_picture = (rx_picture.1.1, rx_picture.1.2, Done (Some rx_snapshot)))
    by (rewrite <- Hv; by destruct rx_picture as [[? ?] ?]).
  destruct (split_alarm_exact None 0 rx_ours rx_index rx_old) as [_ Hright];
    [exact rx_old_ok|split; [apply length_to_be|apply bytes_ok_to_be]|].
  destruct (Hright rx_picture.1.1 rx_picture.1.2 (Some rx_snapshot) Hp) as (Hdrop & _ & _ & _ & Hfork & _ & _ & _ & Harm).
  cbn [rival rx_snapshot tip_hash rx_tip] in Harm. rewrite Hw in Harm. split_and!.
  - destruct (Hdrop (rx_hash 0) rx_ours) as [(_ & Hno & _)|[Hn _]]; [apply lookup_insert_eq| |exact Hn].
    destruct Hno. split; [cbn; lia|vm_compute; reflexivity].
  - exact Hfork.
  - apply Harm; [split; [apply length_to_be|apply bytes_ok_to_be]|vm_compute; reflexivity|vm_compute; reflexivity].
Defined.

Lemma rivals_survive_restart_witness :
  rival_tips (monitor_new (persist_rivals rx_index rx_state)) !! rx_hash 7 = Some rx_tip.
Proof.
  rewrite (rivals_survive_restart rx_index rx_state);
    [|by eexists|done|done|exact rx_tips_ok|intros h t [<- <-]%rx_tips; split_and!; [reflexivity|vm_compute; split; congruence|apply length_to_be]].
  vm_compute. reflexivity.
Defined.
End Examples.
