(* ===== verification/HeaderSync.v ===== *)
(** * Header synchronisation

    [HeaderSync] of [bitcoinpr-p2p/src/sync.rs]: how a [headers] message is
    checked, stored and allowed to move the best header tip, with the taint
    memo over invalid branches, the mandatory-signaling markers, the split
    monitor and the locators; and the catch-up rule of
    [bitcoinpr-p2p/src/ibd.rs].  The texts of errors are kept as the data they
    are formatted from.  The BIP-110 checker and the monitor, which the code
    shares by reference, are part of the state here. *)

From Stdlib Require Import ZArith Lia.
From stdpp Require Import base option numbers list gmap strings.
From S2P Require Import Prelude Bytes U256 Types Consensus Validation Store HeaderIndex Bip110 SplitMonitor BlockSync.

(** ** Catching up (ibd.rs) *)

Definition IBD_CATCH_UP_MARGIN : Z := 4.
Definition NETWORK_LIMITED_GAP : Z := 10000.

Definition is_catching_up (block_height header_tip : Z) : bool := sat_sub header_tip block_height >? IBD_CATCH_UP_MARGIN.

(** What the eligibility rule reads of a [PeerInfo]. *)
Record DownloadPeer := mkDownloadPeer { dp_id : PeerId; dp_start_height : Z; dp_network : bool; dp_network_limited : bool }.

Definition peer_eligible_for_download (peer : DownloadPeer) (block_height header_tip : Z) : bool :=
  if dp_start_height peer <=? 0 then false
  else if dp_network peer then true
  else dp_network_limited peer && is_catching_up block_height header_tip
       && (sat_sub header_tip block_height >? NETWORK_LIMITED_GAP).

Definition eligible_download_peer_ids (peers : list DownloadPeer) (block_height header_tip : Z) : list PeerId :=
  map dp_id (List.filter (fun p => peer_eligible_for_download p block_height header_tip) peers).

Definition count_eligible_download_peers (peers : list DownloadPeer) (block_height header_tip : Z) : nat :=
  length (List.filter (fun p => peer_eligible_for_download p block_height header_tip) peers).

(** In seconds. *)
Definition stale_base_timeout (block_height : Z) : Z :=
  if block_height >=? 700000 then 300 else if block_height >=? 400000 then 120 else 30.

(** ** Header sync *)

Inductive InvalidHeader : Type :=
| BadPow (height : Z)
| BitsMismatch (height expected got : Z).

Inductive HeaderSyncError : Type :=
| Invalid (why : InvalidHeader)
| StorageFailed (what : string) (e : StorageError)
| Unconnected (prev : hash256).

Definition MAX_UNCONNECTING_HEADERS : Z := 10.
Definition TAINT_MEMO_MAX : nat := 4096.
Definition TAINT_WALK_MAX : Z := 10000.
Definition MAX_HEADERS : nat := 2000.

(** One period bounds the minimum-difficulty scan. *)
Definition SCAN_FUEL : nat := 2016.

(** A stored branch that a message walked over: tip, height and work. *)
Abbreviation WalkTip := (hash256 * Z * bytes)%type.

(** The local variables of the loop over the headers. *)
Record Scan := mkScan {
  sc_batch : list (hash256 * StoredHeader);
  sc_map : gmap hash256 StoredHeader;
  sc_prev : hash256;
  sc_height : Z;
  sc_accepted : Z;
  sc_walk_tip : option WalkTip }.

Definition move_to (sc : Scan) (h : hash256) (height : Z) : Scan :=
  mkScan (sc_batch sc) (sc_map sc) h height (sc_accepted sc) (sc_walk_tip sc).
Definition walk_to (sc : Scan) (h : hash256) (stored : StoredHeader) : Scan :=
  mkScan (sc_batch sc) (sc_map sc) h (sh_height stored) (sc_accepted sc) (Some (h, sh_height stored, chain_work stored)).
Definition push (sc : Scan) (h : hash256) (s : StoredHeader) : Scan :=
  mkScan (sc_batch sc ++ [(h, s)]) (<[h := s]> (sc_map sc)) h (sh_height s) (u32 (sc_accepted sc + 1)) (sc_walk_tip sc).

Section HSync.
Context `{HR : RocksDb} `{HW : !RocksWal} `{HC : HeaderCodec} `{HI : TipIter} `{HT : TxLib}.

Record HeaderSync := mkHeaderSync {
  hs_params : ConsensusParams;
  header_index : HeaderIndex;
  best_height : Z;
  best_hash : hash256;
  best_chain_work : bytes;
  synced : bool;
  unconnecting : gmap PeerId Z;
  branch_tainted : gmap hash256 bool;
  taint_memo_generation : Z;
  split_monitor : option MonitorState;
  hs_bip110 : option (Bip110Deployment * Bip110Checker) }.

(** An [Err None] stands for a scan that runs out of fuel. *)
Abbreviation SM := (stm HeaderSync (option HeaderSyncError)).

Definition hsync_new (params : ConsensusParams) (hi : HeaderIndex) (height : Z) (hash : hash256) : HeaderSync :=
  mkHeaderSync params hi height hash (default (replicate 32 0) (chain_work <$> known_header hi hash)) false ∅ ∅ 0 None None.

Definition set_index (s : HeaderSync) (hi : HeaderIndex) : HeaderSync :=
  mkHeaderSync (hs_params s) hi (best_height s) (best_hash s) (best_chain_work s) (synced s) (unconnecting s) (branch_tainted s)
    (taint_memo_generation s) (split_monitor s) (hs_bip110 s).
Definition set_best (s : HeaderSync) (height : Z) (hash : hash256) (work : bytes) : HeaderSync :=
  mkHeaderSync (hs_params s) (header_index s) height hash work (synced s) (unconnecting s) (branch_tainted s)
    (taint_memo_generation s) (split_monitor s) (hs_bip110 s).
Definition set_synced (s : HeaderSync) (b : bool) : HeaderSync :=
  mkHeaderSync (hs_params s) (header_index s) (best_height s) (best_hash s) (best_chain_work s) b (unconnecting s) (branch_tainted s)
    (taint_memo_generation s) (split_monitor s) (hs_bip110 s).
Definition set_unconnecting (s : HeaderSync) (m : gmap PeerId Z) : HeaderSync :=
  mkHeaderSync (hs_params s) (header_index s) (best_height s) (best_hash s) (best_chain_work s) (synced s) m (branch_tainted s)
    (taint_memo_generation s) (split_monitor s) (hs_bip110 s).
Definition set_memo (s : HeaderSync) (m : gmap hash256 bool) (g : Z) : HeaderSync :=
  mkHeaderSync (hs_params s) (header_index s) (best_height s) (best_hash s) (best_chain_work s) (synced s) (unconnecting s) m
    g (split_monitor s) (hs_bip110 s).
Definition set_monitor (s : HeaderSync) (m : option MonitorState) : HeaderSync :=
  mkHeaderSync (hs_params s) (header_index s) (best_height s) (best_hash s) (best_chain_work s) (synced s) (unconnecting s) (branch_tainted s)
    (taint_memo_generation s) m (hs_bip110 s).
Definition set_checker (s : HeaderSync) (b : option (Bip110Deployment * Bip110Checker)) : HeaderSync :=
  mkHeaderSync (hs_params s) (header_index s) (best_height s) (best_hash s) (best_chain_work s) (synced s) (unconnecting s) (branch_tainted s)
    (taint_memo_generation s) (split_monitor s) b.

(** An operation of the index: [?] with a message, or with the error dropped. *)
Definition run_index {A} (m : stm HeaderIndex StorageError A) (what : string) : SM A := fun s =>
  let '(hi, r) := m (header_index s) in
  (set_index s hi, match r with Ok a => Ok a | Err e => Err (Some (StorageFailed what e)) end).
Definition try_index {A} (m : stm HeaderIndex StorageError A) : SM (option A) := fun s =>
  let '(hi, r) := m (header_index s) in
  (set_index s hi, Ok (match r with Ok a => Some a | Err _ => None end)).

(** ** Memo, counters, locators *)

Definition refresh_taint_memo (s : HeaderSync) : HeaderSync :=
  let gen := invalid_generation (header_index s) in
  if negb (gen =? taint_memo_generation s) then set_memo s ∅ gen else s.

Definition note_branch_taint (tip : hash256) (tainted : bool) (s : HeaderSync) : HeaderSync :=
  let m := if (TAINT_MEMO_MAX <=? size (branch_tainted s))%nat then ∅ else branch_tainted s in
  set_memo s (<[tip := tainted]> m) (taint_memo_generation s).

Definition branch_is_tainted (tip : hash256) (validated_floor : Z) (s : HeaderSync) : HeaderSync * bool :=
  match branch_tainted s !! tip with
  | Some t => (s, t)
  | None =>
      let tainted :=
        if is_invalid (header_index s) tip then true
        else match first_invalid_ancestor (header_index s) tip validated_floor TAINT_WALK_MAX with
             | Ok found => bool_decide (is_Some found)
             | Err _ => false
             end in
      (note_branch_taint tip tainted s, tainted)
  end.

Definition clear_taint_memo (s : HeaderSync) : HeaderSync := set_memo s ∅ (taint_memo_generation s).

Definition note_unconnecting (peer : PeerId) (s : HeaderSync) : HeaderSync * Z :=
  let count := Z.min (default 0 (unconnecting s !! peer) + 1) (2 ^ 32 - 1) in
  (set_unconnecting s (<[peer := count]> (unconnecting s)), count).
Definition reset_unconnecting (peer : PeerId) (s : HeaderSync) : HeaderSync := set_unconnecting s (delete peer (unconnecting s)).

Definition has_min_chain_work (s : HeaderSync) : bool := work_ge (best_chain_work s) (min_chain_work (hs_params s)).

(** The loop of both locators; [skip] is a hash already placed. *)
Fixpoint locator_loop (hi : HeaderIndex) (skip : option hash256) (fuel : nat) (height step : Z) (locator : list hash256) : list hash256 :=
  match fuel with
  | O => locator
  | S f =>
      if height <? 0 then locator
      else
        let locator := match canonical_at hi height with
                       | Some h => if bool_decide (Some h = skip) then locator else locator ++ [h]
                       | None => locator
                       end in
        let step := if (10 <=? length locator)%nat then step * 2 else step in
        locator_loop hi skip f (height - step) step locator
  end.

Definition close_locator (genesis_hash : hash256) (locator : list hash256) : list hash256 :=
  if bool_decide (last locator = Some genesis_hash) then locator else locator ++ [genesis_hash].

Definition build_locator (genesis_hash : hash256) (s : HeaderSync) : list hash256 :=
  close_locator genesis_hash (locator_loop (header_index s) None (S (Z.to_nat (best_height s))) (best_height s) 1 []).

Definition build_locator_from (genesis_hash tip_hash : hash256) (tip_height : Z) (s : HeaderSync) : list hash256 :=
  close_locator genesis_hash
    (locator_loop (header_index s) (Some tip_hash) (S (Z.to_nat tip_height)) (tip_height - 1) 1 [tip_hash]).

(** ** One header of a message *)

Inductive Flow : Type := Continue (sc : Scan) | Break (sc : Scan).

(** [batch_map.get(h).cloned().or_else(|| header_index.get_header(h).ok().flatten())] *)
Definition batch_lookup (hi : HeaderIndex) (sc : Scan) (h : hash256) : option StoredHeader :=
  match sc_map sc !! h with Some s => Some s | None => known_header hi h end.

Definition check_bits (s : HeaderSync) (sc : Scan) (header : Header) (height : Z) : result (option HeaderSyncError) unit :=
  if bool_decide (signet_challenge (hs_params s) = None) then
    match get_next_work_required_with (batch_lookup (header_index s) sc) SCAN_FUEL (hs_params s) (prev_blockhash header)
            (u32 (height - 1)) (time header) with
    | Done (Some expected_bits) =>
        guard_err (negb (bits header =? expected_bits)) (Some (Invalid (BitsMismatch height expected_bits (bits header))))
    | Done None => Ok tt
    | OutOfFuel => Err None
    end
  else Ok tt.

Definition prev_work (s : HeaderSync) (sc : Scan) (header : Header) (height : Z) : result (option HeaderSyncError) bytes :=
  if height =? 1 then Ok (replicate 32 0)
  else match last (sc_batch sc) with
       | Some (_, prev_stored) => Ok (chain_work prev_stored)
       | None =>
           match known_header (header_index s) (prev_blockhash header) with
           | Some prev_stored => Ok (chain_work prev_stored)
           | None => Err (Some (Unconnected (prev_blockhash header)))
           end
       end.

(** The header-level marker for a violation of mandatory signaling. *)
Definition mark_signaling (header : Header) (hash : hash256) (height : Z) : SM unit := fun s =>
  match hs_bip110 s with
  | Some (dep, checker) =>
      let '(lo, hi) := mandatory_window dep in
      if (height >=? lo) && (height <=? hi) && negb (signals dep (u32 (version header)))
         && negb (is_invalid (header_index s) hash)
      then
        let '(checker, act) := activation_for (get_header (header_index s)) checker (prev_blockhash header) height in
        let s := set_checker s (Some (dep, checker)) in
        if bool_decide (state act = Started)
        then (_ ← try_index (mark_invalid hash height INVALID_REASON_SIGNALING); mret tt) s
        else (s, Ok tt)
      else (s, Ok tt)
  | None => (s, Ok tt)
  end.

(** The checks and the bookkeeping of a header that extends [sc_prev] or a
    known fork parent at [sc_height]. *)
Definition accept_header (header : Header) (hash : hash256) (sc : Scan) : SM Flow :=
  let height := u32 (sc_height sc + 1) in
  s ← gets id;
  _ ← lift (guard_err (negb (header_pow_ok header)) (Some (Invalid (BadPow height))));
  _ ← lift (check_bits s sc header height);
  work ← lift (prev_work s sc header height);
  let chain_work := add_chain_work work (calculate_work (header_target header)) in
  _ ← mark_signaling header hash height;
  mret (Continue (push sc hash (mkStored header height chain_work))).

Definition scan_header (block_height : Z) (header : Header) (sc : Scan) : SM Flow :=
  s ← gets id;
  let hash := block_hash header in
  let known := known_header (header_index s) hash in
  match known with
  | Some stored =>
      if sh_height stored <=? best_height s then mret (Continue (move_to sc hash (sh_height stored)))
      else if negb (bool_decide (prev_blockhash header = sc_prev sc)) then mret (Continue (walk_to sc hash stored))
      else accept_header header hash sc
  | None =>
      if negb (bool_decide (prev_blockhash header = sc_prev sc)) then
        match known_header (header_index s) (prev_blockhash header) with
        | Some fork_parent =>
            if is_catching_up block_height (best_height s) then mret (Break sc)
            else accept_header header hash (move_to sc (sc_prev sc) (sh_height fork_parent))
        | None =>
            if bool_decide (sc_batch sc = []) && (sc_accepted sc =? 0)
            then lift (Err (Some (Unconnected (prev_blockhash header))))
            else mret (Break sc)
        end
      else accept_header header hash sc
  end.

Fixpoint scan_headers (block_height : Z) (headers : list Header) (sc : Scan) : SM Scan :=
  match headers with
  | [] => mret sc
  | h :: r =>
      flow ← scan_header block_height h sc;
      match flow with Continue sc => scan_headers block_height r sc | Break sc => mret sc end
  end.

(** ** Fork choice *)

Definition notify_monitor (tip : TipInfo) (parent : hash256) (s : HeaderSync) : HeaderSync :=
  match split_monitor s with
  | Some m => let '(hi, m) := on_tainted_tip tip (Some parent) (header_index s) m in set_monitor (set_index s hi) (Some m)
  | None => s
  end.

Definition adopt_batch (batch : list (hash256 * StoredHeader)) (tip : hash256) (height : Z) (work : bytes) : SM unit :=
  _ ← run_index (update_height_index_batch batch) "failed to update height index";
  _ ← try_index (restore_branch_height_index tip);
  _ ← modify (fun s => set_best s height tip work);
  run_index (set_header_tip tip height) "failed to update header tip".

(** Storing the batch, and the choice between it and the best chain. *)
Definition store_batch (block_height : Z) (sc : Scan) : SM unit :=
  match head (sc_batch sc), last (sc_batch sc) with
  | Some (_, first_stored), Some (_, last_stored) =>
      _ ← run_index (insert_headers_hash_only (sc_batch sc)) "failed to store headers";
      s ← gets id;
      let new_chain_work := chain_work last_stored in
      let current_best_work := default (replicate 32 0) (chain_work <$> known_header (header_index s) (best_hash s)) in
      let batch_parent := prev_blockhash (sh_header first_stored) in
      tainted ← (fun s => let '(s, t) := branch_is_tainted batch_parent block_height s in (s, Ok t));
      let tainted := tainted || existsb (fun p => is_invalid (header_index s) p.1) (sc_batch sc) in
      _ ← modify (note_branch_taint (sc_prev sc) tainted);
      _ ← (if tainted then modify (notify_monitor (mkTip (sc_prev sc) (sc_height sc) new_chain_work) batch_parent) else mret tt);
      if negb tainted && work_ge new_chain_work current_best_work
      then adopt_batch (sc_batch sc) (sc_prev sc) (sc_height sc) new_chain_work
      else mret tt
  | _, _ => mret tt
  end.

(** [tip_work > best] on big-endian arrays. *)
Definition work_gt (a b : bytes) : bool := match cmp_work a b with Gt => true | _ => false end.

(** A stored branch that was announced again. *)
Definition reconsider (block_height : Z) (walk_tip : option WalkTip) : SM unit :=
  match walk_tip with
  | None => mret tt
  | Some (tip, height, work) =>
      s ← gets id;
      if negb (bool_decide (tip = best_hash s)) && work_gt work (best_chain_work s)
         && negb (is_catching_up block_height (best_height s))
      then
        tainted ← (fun s => let '(s, t) := branch_is_tainted tip block_height s in (s, Ok t));
        if (tainted : bool) then mret tt
        else
          restored ← try_index (restore_branch_height_index tip);
          match restored with
          | None => mret tt
          | Some _ =>
              reset ← try_index (reset_fork_header_tip height tip);
              match reset with
              | None => mret tt
              | Some _ => modify (fun s => set_best s height tip work)
              end
          end
      else mret tt
  end.

Definition process_headers (headers : list Header) (block_height : Z) : SM Z :=
  match headers with
  | [] => mret 0
  | _ =>
      _ ← modify refresh_taint_memo;
      s ← gets id;
      sc ← scan_headers block_height headers (mkScan [] ∅ (best_hash s) (best_height s) 0 None);
      _ ← store_batch block_height sc;
      _ ← reconsider block_height (sc_walk_tip sc);
      _ ← modify (fun s => if (length headers <? MAX_HEADERS)%nat && has_min_chain_work s then set_synced s true else s);
      mret (sc_accepted sc)
  end.
End HSync.
