(* ===== verification/HeaderSyncProofs.v ===== *)
(** * Properties of header synchronisation

    A contiguous [headers] message, whatever else it holds, keeps the index a
    tree of headers with valid proof of work, the required difficulty and the
    exact cumulative work, and only moves the best tip to at least as much
    work; a message that is not contiguous breaks this. *)

From Stdlib Require Import ZArith Lia.
From stdpp Require Import base option numbers list gmap strings.
From S2P Require Import Prelude Bytes U256 Types Consensus Validation ValidationProofs Store HeaderIndex HeaderProofs Bip110 SplitMonitor SplitProofs BlockSync HeaderSync.

(** ** Trees of headers *)

(** A lookup found in a smaller index is found in a larger one. *)
Definition extends (L L' : hash256 -> option StoredHeader) : Prop := forall h x, L h = Some x -> L' h = Some x.

Section Tree.
Context `{HT : TxLib} (net : Network).

(** [x] has the difficulty its parent [p] asks for. *)
Definition bits_ok (L : hash256 -> option StoredHeader) (p x : StoredHeader) : Prop :=
  signet_challenge (for_network net) = None ->
  get_next_work_required_with L SCAN_FUEL (for_network net) (prev_blockhash (sh_header x)) (sh_height p) (time (sh_header x)) =
  Done (Some (bits (sh_header x))).

(** What header sync may rely on and keeps: every header is under its hash;
    above height 0 its parent is stored one height below, and it has valid
    proof of work, the required difficulty and the work of its parent plus its
    own. *)
Record header_tree (L : hash256 -> option StoredHeader) : Prop := {
  ht_key h x : L h = Some x -> block_hash (sh_header x) = h;
  ht_wf h x : L h = Some x -> header_ok (sh_header x) /\ fits 32 (sh_height x) /\ arr32 (chain_work x);
  ht_root h x : L h = Some x -> sh_height x = 0 -> chain_work x = replicate 32 0;
  ht_link h x : L h = Some x -> sh_height x <> 0 ->
    exists p, L (prev_blockhash (sh_header x)) = Some p /\ sh_height x = sh_height p + 1 /\
      header_pow_ok (sh_header x) = true /\ bits_ok L p x /\
      chain_work x = add_chain_work (chain_work p) (calculate_work (header_target (sh_header x))) }.

Lemma interval_2016 : difficulty_adjustment_interval (for_network net) = 2016.
Proof. by destruct net. Qed.

Lemma tree_chain L : header_tree L -> forall n h x,
  L h = Some x -> Z.of_nat n <= sh_height x -> exists y h', chain L x n y /\ L h' = Some y.
Proof.
  intros Ht. induction n as [|n IH]; intros h x Hx Hn; [exists x, h; split; [constructor|done]|].
  destruct (ht_link L Ht h x Hx) as (p & Hp & Hh & _); [lia|].
  destruct (IH _ p Hp) as (y & h' & Hc & Hy); [lia|]. exists y, h'. split; [|done]. apply (chain_link _ _ p); [done|lia|done].
Qed.

Lemma chain_extends L L' x n y : extends L L' -> chain L x n y -> chain L' x n y.
Proof. intros He. induction 1 as [|x p n y Hp Hh _ IH]; econstructor; [by apply He|done|done]. Qed.

(** The minimum-difficulty scan ends, and ends the same in a larger index. *)
Lemma scan_tree L L' lb : header_tree L -> extends L L' -> forall fuel h x,
  L h = Some x -> sh_height x mod 2016 <= Z.of_nat fuel ->
  exists y, scan_min_difficulty L fuel 2016 lb x = Done y /\ scan_min_difficulty L' fuel 2016 lb x = Done y.
Proof.
  intros Ht He. induction fuel as [|fuel IH]; intros h x Hx Hf; cbn [scan_min_difficulty];
    pose proof (Z.mod_pos_bound (sh_height x) 2016 ltac:(lia));
    destruct (Z.eqb_spec (sh_height x mod 2016) 0) as [Hz|Hz]; cbn [negb andb]; eauto; [lia|].
  destruct (_ =? lb); [|eauto].
  destruct (ht_link L Ht h x Hx) as (p & Hp & Hh & _); [by intros H0; rewrite H0 in Hz|].
  rewrite Hp, (He _ _ Hp). apply (IH _ _ Hp). replace (sh_height p) with (sh_height x - 1) by lia.
  replace ((sh_height x - 1) mod 2016) with (sh_height x mod 2016 - 1); [lia|].
  apply (Z.mod_unique_pos _ _ (sh_height x / 2016)); [lia|]. pose proof (Z.div_mod (sh_height x) 2016 ltac:(lia)). lia.
Qed.

(** The required difficulty is always found, and does not depend on headers
    outside the branch. *)
Lemma next_work_tree L L' h p ct :
  header_tree L -> extends L L' -> L h = Some p -> sh_height p < 2 ^ 32 - 1 ->
  exists b, get_next_work_required_with L SCAN_FUEL (for_network net) h (sh_height p) ct = Done (Some b) /\
    get_next_work_required_with L' SCAN_FUEL (for_network net) h (sh_height p) ct = Done (Some b).
Proof.
  intros Ht He Hp Hlim. unfold get_next_work_required_with. rewrite Hp, (He _ _ Hp), interval_2016.
  destruct (pow_no_retargeting _); [eauto|]. destruct (ht_wf L Ht h p Hp) as (_ & Hfit & _). unfold fits in Hfit.
  rewrite (wrap_small 32 (sh_height p + 1)) by (unfold fits; lia).
  destruct (Z.eqb_spec ((sh_height p + 1) mod 2016) 0) as [Hm|Hm]; cbn [negb].
  - pose proof (Z.div_mod (sh_height p + 1) 2016 ltac:(lia)) as Hd.
    assert (1 <= (sh_height p + 1) / 2016) by (apply Z.div_le_lower_bound; lia).
    rewrite (wrap_small 32 (sh_height p + 1 - 2016)) by (unfold fits; lia).
    destruct (tree_chain L Ht 2015 h p Hp ltac:(lia)) as (y & h' & Hc & Hy). pose proof (chain_height _ _ _ _ Hc).
    rewrite (walk_chain L _ _ _ _ _ Hc), (walk_chain L' _ _ _ _ _ (chain_extends _ _ _ _ _ He Hc)) by lia.
    rewrite (proj2 (Z.eqb_eq _ _)) by lia. cbn [negb]. eauto.
  - destruct (pow_allow_min_difficulty_blocks _); [|eauto]. destruct (_ >? _); [eauto|].
    destruct (scan_tree L L' (to_compact_lossy (pow_limit (for_network net))) Ht He SCAN_FUEL h p Hp) as (y & -> & ->); [|eauto].
    pose proof (Z.mod_pos_bound (sh_height p) 2016 ltac:(lia)). unfold SCAN_FUEL. lia.
Qed.

(** Adding a header that fits on a stored parent. *)
Lemma tree_insert L L' h x p :
  header_tree L -> extends L L' -> (forall k, k <> h -> L' k = L k) -> L' h = Some x ->
  L (prev_blockhash (sh_header x)) = Some p -> sh_height x = sh_height p + 1 -> fits 32 (sh_height x) ->
  block_hash (sh_header x) = h -> header_ok (sh_header x) -> arr32 (chain_work x) ->
  header_pow_ok (sh_header x) = true -> bits_ok L p x ->
  chain_work x = add_chain_work (chain_work p) (calculate_work (header_target (sh_header x))) ->
  header_tree L'.
Proof.
  intros Ht He Hk Hx Hp Hh Hfit Hhash Hok Harr Hpow Hbits Hw.
  assert (Hb : forall k q y, L k = Some q -> sh_height q < 2 ^ 32 - 1 -> prev_blockhash (sh_header y) = k -> bits_ok L q y -> bits_ok L' q y).
  { intros k q y Hq Hlim <- Hy Hs. specialize (Hy Hs).
    destruct (next_work_tree L L' _ q (time (sh_header y)) Ht He Hq Hlim) as (b & H1 & H2). congruence. }
  destruct (ht_wf L Ht _ _ Hp) as (_ & Hpf & _). unfold fits in *.
  split; intros k y Hy; (destruct (decide (k = h)) as [->|Hne]; [rewrite Hx in Hy; injection Hy as <-|rewrite Hk in Hy by done]).
  - done.
  - by apply (ht_key L Ht).
  - done.
  - by apply (ht_wf L Ht k).
  - lia.
  - by apply (ht_root L Ht k).
  - intros _. exists p. split_and!; [by apply He|done|done| |done]. by eapply Hb; [exact Hp|lia| |].
  - intros H0. destruct (ht_link L Ht k y Hy H0) as (q & Hq & Hqh & Hqp & Hqb & Hqw). exists q.
    split_and!; [by apply He|done|done| |done]. destruct (ht_wf L Ht _ _ Hy) as (_ & Hyf & _). unfold fits in Hyf.
    by eapply Hb; [exact Hq|lia| |].
Qed.

Lemma tree_ext L L' : header_tree L -> (forall h, L' h = L h) -> header_tree L'.
Proof.
  intros Ht He. assert (Hx : extends L L') by (intros h x; by rewrite He).
  split; intros h x; rewrite He; intros Hh; [by apply (ht_key L Ht)|by apply (ht_wf L Ht h)|by apply (ht_root L Ht h)|].
  intros H0. destruct (ht_link L Ht h x Hh H0) as (p & Hp & Hn & Hpow & Hb & Hw). exists p. split_and!; [by apply Hx|done|done| |done].
  intros Hs. specialize (Hb Hs). destruct (ht_wf L Ht h x Hh) as (_ & Hf & _). unfold fits in Hf.
  destruct (next_work_tree L L' _ p (time (sh_header x)) Ht Hx Hp ltac:(lia)) as (b & H1 & H2). congruence.
Qed.

(** A stored header cannot be stored differently. *)
Lemma tree_unique L h x y p :
  header_tree L -> L h = Some y -> sh_header y = sh_header x -> sh_height y <> 0 ->
  L (prev_blockhash (sh_header x)) = Some p -> sh_height x = sh_height p + 1 ->
  chain_work x = add_chain_work (chain_work p) (calculate_work (header_target (sh_header x))) -> y = x.
Proof.
  intros Ht Hy Heq H0 Hp Hh Hw. destruct (ht_link L Ht h y Hy H0) as (q & Hq & Hqh & _ & _ & Hqw). rewrite Heq in *.
  assert (q = p) as -> by congruence. destruct x, y; cbn in *. congruence.
Qed.
End Tree.

(** ** The stored headers *)

Section Sync.
Context `{HR : RocksDb} `{HL : !RocksLaws} `{HW : !RocksWal} `{HC : HeaderCodec} `{HCL : !HeaderCodecLaws} `{HI : TipIter} `{HT : TxLib}.

(** The database answers: reads succeed and the column families exist. *)
Hypothesis reads_succeed : forall d cf k, exists v, get_cf d cf k = Ok v.
Hypothesis handles_exist : forall d cf, cf_handle d cf = true.
(** [Target::to_be_bytes] is an array of 32 bytes. *)
Hypothesis target_bytes : forall b, arr32 (target_of_bits b).

Implicit Types hi : HeaderIndex.

Definition header_at hi (h : hash256) : option StoredHeader :=
  match contents (hi_db hi) CF_HEADERS h with
  | Some d => match deserialize_stored d with Ok x => Some x | Err _ => None end
  | None => None
  end.

Lemma known_header_at hi h : known_header hi h = header_at hi h.
Proof.
  unfold known_header, lookup_ok, get_header, hi_get, header_at. rewrite handles_exist. cbn [negb guard_err mbind result_bind].
  destruct (reads_succeed (hi_db hi) CF_HEADERS h) as [v Hv]. rewrite Hv. apply get_cf_contents in Hv as <-. cbn [mbind result_bind].
  destruct v as [d|]; [|done]. by destruct (deserialize_stored d).
Qed.

(** Operations that leave the headers alone. *)
Definition keeps_headers {A} (m : stm HeaderIndex StorageError A) : Prop :=
  forall hi h, header_at (m hi).1 h = header_at hi h.

Lemma keeps_headers_bind {A B} (m : stm HeaderIndex StorageError A) (f : A -> stm HeaderIndex StorageError B) :
  keeps_headers m -> (forall a, keeps_headers (f a)) -> keeps_headers (m ≫= f).
Proof.
  intros Hm Hf hi h. unfold mbind, stm_bind. specialize (Hm hi h). destruct (m hi) as [hi' [a|e]]; cbn in Hm; [|done].
  by rewrite Hf.
Qed.

Lemma keeps_headers_ret {A} (a : A) : keeps_headers (mret a).
Proof. done. Qed.
Lemma keeps_gets {A} (f : HeaderIndex -> A) : keeps_headers (gets f).
Proof. done. Qed.
Lemma keeps_lift {A} (r : StorageResult A) : keeps_headers (lift r).
Proof. done. Qed.
Lemma keeps_cf n : keeps_headers (hi_cf n).
Proof. done. Qed.

Lemma keeps_write ops : Forall (fun o => op_cf o <> CF_HEADERS) ops -> keeps_headers (hi_write ops).
Proof.
  intros Ho hi h. unfold hi_write, header_at. destruct (write (hi_db hi) ops) as [d r] eqn:Hw. cbn [fst hi_db set_hi_db].
  destruct r as [[]|e]; [rewrite (write_applies _ _ _ Hw)|by rewrite (write_atomic _ _ _ _ Hw)].
  rewrite apply_ops_other; [done|]. eapply Forall_impl; [exact Ho|]. naive_solver.
Qed.

Lemma keeps_set_header_tip h n : keeps_headers (set_header_tip h n).
Proof. apply keeps_headers_bind; [apply keeps_cf|intros _]. apply keeps_write. by repeat constructor. Qed.

Lemma keeps_mark_invalid h n r : keeps_headers (mark_invalid h n r).
Proof.
  apply keeps_headers_bind; [apply keeps_cf|intros _]. apply keeps_headers_bind; [apply keeps_write; by repeat constructor|intros _].
  by apply keeps_headers_bind.
Qed.

Lemma keeps_update_height_index l : keeps_headers (update_height_index_batch l).
Proof. apply keeps_headers_bind; [apply keeps_cf|intros _]. apply keeps_write, Forall_forall. by intros o (x & -> & _)%list_elem_of_fmap. Qed.

Lemma restore_loop_ops hi : forall fuel h x batch n ops n',
  Forall (fun o => op_cf o <> CF_HEADERS) batch -> restore_loop hi fuel h x batch n = Ok (ops, n') ->
  Forall (fun o => op_cf o <> CF_HEADERS) ops.
Proof.
  assert (Hput : forall batch h x, Forall (fun o => op_cf o <> CF_HEADERS) batch ->
    Forall (fun o => op_cf o <> CF_HEADERS) (batch ++ [Put CF_HEIGHT_INDEX (to_be 4 (sh_height x)) h])).
  { intros. apply Forall_app. split; [done|]. by repeat constructor. }
  induction fuel as [|fuel IH]; intros h x batch n ops n' Hb; cbn [restore_loop];
    destruct (get_hash_at_height hi (sh_height x)); cbn [mbind result_bind]; try done;
    (case_bool_decide; [by intros [= <- <-]|]); (destruct (_ =? 0); [intros [= <- <-]; by apply Hput|]);
    destruct (get_header hi _) as [[p|]|]; cbn [mbind result_bind]; try done.
  destruct (_ <? _); [|done]. apply IH. by apply Hput.
Qed.

Lemma keeps_restore h : keeps_headers (restore_branch_height_index h).
Proof.
  intros hi k. unfold restore_branch_height_index, mbind, stm_bind, gets, lift, hi_cf. cbn [id].
  destruct (get_header hi h) as [[x|]|]; [|done|done]. cbn [ok_or]. destruct (guard_err _ _); [|done].
  destruct (restore_loop _ _ _ _ _ _) as [[ops n]|] eqn:Hr; [|done]. apply restore_loop_ops in Hr; [|done].
  pose proof (keeps_write ops Hr hi k) as Hk. by destruct (hi_write ops hi) as [hi' [[]|]].
Qed.

Lemma keeps_reset_fork h n : keeps_headers (reset_fork_header_tip n h).
Proof.
  apply keeps_headers_bind; [apply keeps_gets|intros hi]. apply keeps_headers_bind; [apply keeps_lift|intros t].
  apply keeps_headers_bind; [apply keeps_cf|intros _]. apply keeps_headers_bind; [|intros _; apply keeps_set_header_tip].
  apply keeps_write, Forall_app. split; [|by repeat constructor]. destruct (_ >? _); [|done].
  apply Forall_forall. by intros o (x & -> & _)%list_elem_of_fmap.
Qed.

Lemma keeps_persist hi st h : header_at (persist_rivals hi st) h = header_at hi h.
Proof.
  unfold persist_rivals. case_bool_decide.
  - apply (keeps_headers_bind (hi_cf CF_HMETA) (fun _ => hi_write _)); [apply keeps_cf|intros _]. apply keeps_write. by repeat constructor.
  - apply (keeps_headers_bind (hi_cf CF_HMETA) (fun _ => hi_write _)); [apply keeps_cf|intros _]. apply keeps_write. by repeat constructor.
Qed.
(** ** Storing a batch *)

Definition batch_map (batch : list (hash256 * StoredHeader)) : gmap hash256 StoredHeader :=
  foldl (fun m p => <[p.1 := p.2]> m) ∅ batch.

Lemma batch_map_snoc batch h x : batch_map (batch ++ [(h, x)]) = <[h := x]> (batch_map batch).
Proof. unfold batch_map. by rewrite foldl_snoc. Qed.

Lemma batch_contents c batch h :
  apply_ops c (map header_put batch) CF_HEADERS h =
  match batch_map batch !! h with Some x => Some (serialize_stored x) | None => c CF_HEADERS h end.
Proof.
  induction batch as [|[k x] batch IH] using rev_ind; [done|].
  rewrite map_app; cbn [map]; rewrite apply_ops_snoc, batch_map_snoc. unfold apply_op. cbn [header_put op_cf op_key op_value fst snd].
  case_bool_decide as Hk; [destruct Hk as [_ ->]; by rewrite lookup_insert_eq|].
  rewrite lookup_insert_ne by naive_solver. apply IH.
Qed.

Lemma insert_batch hi hi' batch r :
  (forall h x, batch_map batch !! h = Some x -> header_ok (sh_header x) /\ fits 32 (sh_height x) /\ arr32 (chain_work x)) ->
  insert_headers_hash_only batch hi = (hi', r) ->
  match r with
  | Ok _ => forall h, header_at hi' h = match batch_map batch !! h with Some x => Some x | None => header_at hi h end
  | Err _ => forall h, header_at hi' h = header_at hi h
  end.
Proof.
  intros Hok. unfold insert_headers_hash_only, mbind, stm_bind, hi_cf, hi_write. rewrite handles_exist. cbn [negb guard_err].
  destruct (write (hi_db hi) (map header_put batch)) as [d [[]|e]] eqn:Hw; intros [= <- <-] h; unfold header_at; cbn [hi_db set_hi_db].
  - rewrite (write_applies _ _ _ Hw), batch_contents. destruct (batch_map batch !! h) as [x|] eqn:Hx; [|done].
    destruct (Hok h x Hx) as (H1 & H2 & H3). by rewrite stored_roundtrip by (done || apply H3).
  - by rewrite (write_atomic _ _ _ _ Hw).
Qed.

(** ** The loop over a message *)

Lemma arr32_work h : arr32 (calculate_work (header_target h)).
Proof.
  destruct (decide (from_be (header_target h) = 0)) as [H0|H0].
  - unfold calculate_work. rewrite decide_True; [apply arr32_ff|]. by apply arr32_eq_zero; [apply target_bytes|].
  - by apply calculate_work_value; [apply target_bytes|].
Qed.

Context (net : Network).

(** The steps of the loop change neither the best tip nor the headers. *)
Record frame (s0 s : HeaderSync) : Prop := {
  fr_params : hs_params s = hs_params s0;
  fr_height : best_height s = best_height s0;
  fr_hash : best_hash s = best_hash s0;
  fr_work : best_chain_work s = best_chain_work s0;
  fr_headers h : header_at (header_index s) h = header_at (header_index s0) h }.

Lemma frame_refl s : frame s s.
Proof. by split. Qed.
Lemma frame_trans s1 s2 s3 : frame s1 s2 -> frame s2 s3 -> frame s1 s3.
Proof. intros [] []. split; try congruence. Qed.

Lemma frame_try {A} (m : stm HeaderIndex StorageError A) s : keeps_headers m -> frame s (try_index m s).1 /\ exists o, (try_index m s).2 = Ok o.
Proof. intros Hm. unfold try_index. specialize (Hm (header_index s)). destruct (m (header_index s)) as [hi r]. split; [by split|eauto]. Qed.

Lemma mark_signaling_frame h hash n s : frame s (mark_signaling h hash n s).1 /\ (mark_signaling h hash n s).2 = Ok tt.
Proof.
  unfold mark_signaling. destruct (hs_bip110 s) as [[d c]|]; [|split; [apply frame_refl|done]].
  destruct (mandatory_window d) as [lo hi]. destruct (_ && _); [|split; [apply frame_refl|done]].
  destruct (activation_for _ _ _ _) as [c' act]. case_bool_decide; [|split; [by split|done]].
  unfold mbind, stm_bind. destruct (frame_try (mark_invalid hash n INVALID_REASON_SIGNALING) (set_checker s (Some (d, c')))) as [Hf [o Ho]];
    [apply keeps_mark_invalid|]. destruct (try_index _ _) as [s' r]. cbn in Hf, Ho. subst r. split; [|done]. cbn.
  eapply frame_trans; [|exact Hf]. by split.
Qed.

Definition view (s0 : HeaderSync) (sc : Scan) (h : hash256) : option StoredHeader :=
  match sc_map sc !! h with Some x => Some x | None => header_at (header_index s0) h end.

Lemma batch_view s0 s sc h : frame s0 s -> batch_lookup (header_index s) sc h = view s0 sc h.
Proof. intros Hf. unfold batch_lookup, view. by rewrite known_header_at, (fr_headers _ _ Hf). Qed.
(** [D] holds the headers in play, no two of which have the same hash. *)
Context (D : Header -> Prop) (no_collision : forall a b, D a -> D b -> block_hash a = block_hash b -> a = b).

Record scan_inv (s0 : HeaderSync) (rest : list Header) (sc : Scan) : Prop := {
  si_map : sc_map sc = batch_map (sc_batch sc);
  si_tree : header_tree net (view s0 sc);
  si_ext : extends (header_at (header_index s0)) (view s0 sc);
  si_pos : exists x, view s0 sc (sc_prev sc) = Some x /\ sh_height x = sc_height sc;
  si_last b : last (sc_batch sc) = Some b -> b.1 = sc_prev sc /\ view s0 sc (sc_prev sc) = Some b.2;
  si_new h x : sc_map sc !! h = Some x ->
    sh_height x <> 0 /\ forall y, header_at (header_index s0) h = Some y -> best_height s0 < sh_height y;
  si_room h x : view s0 sc h = Some x -> sh_height x + Z.of_nat (length rest) < 2 ^ 32;
  si_src h x : view s0 sc h = Some x -> D (sh_header x);
  si_cont h : sc_batch sc <> [] -> head rest = Some h -> prev_blockhash h = sc_prev sc;
  si_walk t n w : sc_walk_tip sc = Some (t, n, w) ->
    exists x, header_at (header_index s0) t = Some x /\ sh_height x = n /\ chain_work x = w }.

Lemma view_push s0 sc h x k : view s0 (push sc h x) k = if bool_decide (k = h) then Some x else view s0 sc k.
Proof.
  unfold view, push. cbn [sc_map]. case_bool_decide as Hk; [subst; by rewrite lookup_insert_eq|by rewrite lookup_insert_ne].
Qed.

(** A header that extends the parent [p] is pushed. *)
Lemma push_inv s0 h rest sc p x :
  0 <= best_height s0 -> scan_inv s0 (h :: rest) sc -> D h -> header_ok h ->
  (forall h', head rest = Some h' -> prev_blockhash h' = block_hash h) ->
  view s0 sc (prev_blockhash h) = Some p ->
  (forall y, header_at (header_index s0) (block_hash h) = Some y -> best_height s0 < sh_height y) ->
  sh_header x = h -> sh_height x = sh_height p + 1 ->
  chain_work x = add_chain_work (chain_work p) (calculate_work (header_target h)) ->
  header_pow_ok h = true -> bits_ok net (view s0 sc) p x ->
  scan_inv s0 rest (push sc (block_hash h) x).
Proof.
  intros Hbest [Smap Stree Sext Spos Slast Snew Sroom Ssrc _ Swalk] HD Hok Hcont Hp Hnew Hxh Hxn Hxw Hpow Hbits.
  destruct (ht_wf net _ Stree _ _ Hp) as (_ & Hpf & Hpw). unfold fits in Hpf. pose proof (Sroom _ _ Hp) as Hroom. cbn [length] in Hroom.
  assert (Hsame : forall y, view s0 sc (block_hash h) = Some y -> y = x).
  { intros y Hy. assert (Hyh : sh_header y = h).
    { apply no_collision; [by apply (Ssrc (block_hash h))|done|by apply (ht_key net _ Stree)]. }
    apply (tree_unique net (view s0 sc) (block_hash h) x y p); [done|done|by rewrite Hyh|..|by rewrite Hxh|done|by rewrite Hxh].
    unfold view in Hy. destruct (sc_map sc !! block_hash h) as [z|] eqn:Hz; [injection Hy as ->; by apply (Snew _ _ Hz)|].
    pose proof (Hnew y Hy). lia. }
  assert (Hext : extends (view s0 sc) (view s0 (push sc (block_hash h) x))).
  { intros k y Hy. rewrite view_push. case_bool_decide; [subst k; by rewrite (Hsame y Hy)|done]. }
  split.
  - unfold push. cbn [sc_map sc_batch]. by rewrite batch_map_snoc, Smap.
  - apply (tree_insert net (view s0 sc) _ (block_hash h) x p); rewrite ?Hxh; try done.
    + intros k Hk. rewrite view_push. by rewrite bool_decide_eq_false_2.
    + rewrite view_push. by rewrite bool_decide_eq_true_2.
    + unfold fits. lia.
    + rewrite Hxw. apply add_chain_work_value; [done|apply arr32_work].
  - intros k y Hy. by apply Hext, Sext.
  - exists x. rewrite view_push, bool_decide_eq_true_2 by done. split; [done|]. by cbn.
  - unfold push. cbn [sc_batch sc_prev]. intros b. rewrite last_snoc. intros [= <-]. split; [done|].
    fold (push sc (block_hash h) x). rewrite view_push. by rewrite bool_decide_eq_true_2.
  - unfold push. cbn [sc_map]. intros k y [[<- <-]|[_ Hy]]%lookup_insert_Some; [split; [lia|done]|by apply (Snew k)].
  - intros k y. rewrite view_push. case_bool_decide; [intros [= <-]; lia|]. intros Hy. pose proof (Sroom _ _ Hy) as Hr. cbn [length] in Hr. lia.
  - intros k y. rewrite view_push. case_bool_decide; [intros [= <-]; by rewrite Hxh|]. by apply Ssrc.
  - intros h' _ Hh. by apply Hcont.
  - by cbn.
Qed.

(** A stored header is walked over: nothing was accepted before it. *)
Lemma move_inv s0 h rest sc y w :
  scan_inv s0 (h :: rest) sc -> sc_batch sc = [] -> header_at (header_index s0) (block_hash h) = Some y ->
  (forall t n v, w = Some (t, n, v) -> exists x, header_at (header_index s0) t = Some x /\ sh_height x = n /\ chain_work x = v) ->
  scan_inv s0 rest (mkScan (sc_batch sc) (sc_map sc) (block_hash h) (sh_height y) (sc_accepted sc) w).
Proof.
  intros [Smap Stree Sext Spos Slast Snew Sroom Ssrc _ Swalk] Hb Hy Hw. split; try done.
  - exists y. split; [|done]. by apply Sext.
  - cbn [sc_batch]. rewrite Hb. done.
  - intros k x Hx. pose proof (Sroom k x Hx) as Hr. cbn [length] in Hr. lia.
Qed.
(** What a step of the loop ends in. *)
Definition step_ok (s0 : HeaderSync) (rest : list Header) (sc : Scan) (r : HeaderSync * result (option HeaderSyncError) Flow) : Prop :=
  frame s0 r.1 /\
  match r.2 with
  | Ok (Continue sc') => scan_inv s0 rest sc'
  | Ok (Break sc') => sc' = sc
  | Err e => e <> None
  end.

Lemma check_bits_spec s0 s sc h p :
  hs_params s = for_network net -> frame s0 s -> header_tree net (view s0 sc) ->
  view s0 sc (prev_blockhash h) = Some p -> sh_height p + 1 < 2 ^ 32 ->
  check_bits s sc h (u32 (sh_height p + 1)) <> Err None /\
  (check_bits s sc h (u32 (sh_height p + 1)) = Ok tt -> forall n w, bits_ok net (view s0 sc) p (mkStored h n w)).
Proof.
  intros Hpar Hf Ht Hp Hlim. destruct (ht_wf net _ Ht _ _ Hp) as (_ & Hpf & _). unfold fits in Hpf.
  unfold check_bits. rewrite Hpar. case_bool_decide as Hs; [|split; [done|by intros _ n w ?]].
  rewrite (wrap_small 32 (sh_height p + 1)) by (unfold fits; lia). replace (sh_height p + 1 - 1) with (sh_height p) by lia.
  rewrite (wrap_small 32 (sh_height p)) by (unfold fits; lia).
  destruct (next_work_tree net (view s0 sc) (batch_lookup (header_index s) sc) (prev_blockhash h) p (time h) Ht) as (b & Hb & ->);
    [intros k x; by rewrite (batch_view s0)|done|lia|].
  destruct (Z.eqb_spec (bits h) b) as [Heq|Hne]; cbn [negb guard_err]; [|done].
  split; [done|]. intros _ n w _. cbn [sh_header]. by rewrite Heq.
Qed.

Lemma prev_work_spec s0 s h rest sc p :
  frame s0 s -> scan_inv s0 (h :: rest) sc -> view s0 sc (prev_blockhash h) = Some p -> sh_height p + 1 < 2 ^ 32 ->
  prev_work s sc h (u32 (sh_height p + 1)) = Ok (chain_work p).
Proof.
  intros Hf Hi Hp Hlim. destruct (ht_wf net _ (si_tree _ _ _ Hi) _ _ Hp) as (_ & Hpf & _). unfold fits in Hpf.
  unfold prev_work. rewrite (wrap_small 32 (sh_height p + 1)) by (unfold fits; lia).
  destruct (Z.eqb_spec (sh_height p + 1) 1) as [H1|H1].
  { by rewrite (ht_root net _ (si_tree _ _ _ Hi) _ _ Hp) by lia. }
  destruct (last (sc_batch sc)) as [[k x]|] eqn:Hl.
  - destruct (si_last _ _ _ Hi _ Hl) as [_ Hx]. cbn [snd] in Hx.
    rewrite (si_cont _ _ _ Hi h) in Hp; [congruence| |done]. intros Hn. by rewrite Hn in Hl.
  - apply last_None in Hl. rewrite known_header_at, (fr_headers _ _ Hf).
    unfold view in Hp. rewrite (si_map _ _ _ Hi), Hl in Hp. cbn in Hp. rewrite lookup_empty in Hp. by rewrite Hp.
Qed.

Lemma accept_header_spec s0 s h rest sc p :
  0 <= best_height s0 -> hs_params s0 = for_network net -> frame s0 s -> scan_inv s0 (h :: rest) sc -> D h -> header_ok h ->
  (forall h', head rest = Some h' -> prev_blockhash h' = block_hash h) ->
  view s0 sc (prev_blockhash h) = Some p ->
  (forall y, header_at (header_index s0) (block_hash h) = Some y -> best_height s0 < sh_height y) ->
  step_ok s0 rest sc (accept_header h (block_hash h) (move_to sc (sc_prev sc) (sh_height p)) s).
Proof.
  intros Hbest Hpar Hf Hi HD Hok Hcont Hp Hnew. pose proof (si_room _ _ _ Hi _ _ Hp) as Hroom. cbn [length] in Hroom.
  destruct (ht_wf net _ (si_tree _ _ _ Hi) _ _ Hp) as (_ & Hpf & _). unfold fits in Hpf.
  assert (Hpar' : hs_params s = for_network net) by (rewrite (fr_params _ _ Hf); done).
  destruct (check_bits_spec s0 s sc h p) as [Hc1 Hc2]; [done|done|apply Hi|done|lia|].
  pose proof (prev_work_spec s0 s h rest sc p Hf Hi Hp ltac:(lia)) as Hw.
  unfold accept_header, mbind, stm_bind, gets, lift, mret, stm_ret. cbn [id sc_height move_to].
  destruct (header_pow_ok h) eqn:Hpow; cbn [negb guard_err]; [|by split].
  change (check_bits s (move_to _ _ _) h) with (check_bits s sc h).
  destruct (check_bits s sc h _) as [[]|e]; [|split; [exact Hf|cbn; congruence]]. specialize (Hc2 eq_refl).
  change (prev_work s (move_to _ _ _) h) with (prev_work s sc h). rewrite Hw.
  destruct (mark_signaling_frame h (block_hash h) (u32 (sh_height p + 1)) s) as [Hf' Hr].
  destruct (mark_signaling _ _ _ s) as [s' r]. cbn [fst snd] in Hf', Hr. subst r. split; [by eapply frame_trans|]. cbn [snd].
  rewrite (wrap_small 32 (sh_height p + 1)) by (unfold fits; lia). by apply (push_inv s0 h rest sc p).
Qed.
(** A header at or below the best tip is not found after an accepted one. *)
Lemma skip_first s0 h rest sc y :
  header_tree net (header_at (header_index s0)) ->
  (forall k x a, header_at (header_index s0) k = Some x -> sh_height x = 0 -> D a -> block_hash a <> prev_blockhash (sh_header x)) ->
  scan_inv s0 (h :: rest) sc -> D h -> header_at (header_index s0) (block_hash h) = Some y -> sh_height y <= best_height s0 ->
  sc_batch sc = [].
Proof.
  intros Ht Hroot Hi HD Hy Hle. destruct (sc_batch sc) as [|b0 batch] eqn:Hb; [done|exfalso].
  destruct (last (sc_batch sc)) as [b|] eqn:Hl; [|by apply last_None in Hl; rewrite Hl in Hb].
  destruct (si_last _ _ _ Hi b Hl) as [Hb1 Hv]. pose proof (si_cont _ _ _ Hi h ltac:(by rewrite Hb) eq_refl) as Hprev.
  assert (Hyh : sh_header y = h).
  { apply no_collision; [apply (si_src _ _ _ Hi (block_hash h)); by apply (si_ext _ _ _ Hi)|done|by apply (ht_key net _ Ht)]. }
  destruct (decide (sh_height y = 0)) as [H0|H0].
  - apply (Hroot _ y (sh_header b.2) Hy H0); [by apply (si_src _ _ _ Hi (sc_prev sc))|].
    rewrite Hyh, Hprev. by apply (ht_key net _ (si_tree _ _ _ Hi)).
  - destruct (ht_link net _ Ht _ y Hy H0) as (p & Hp & Hh & _). rewrite Hyh, Hprev in Hp.
    assert (Hm : sc_map sc !! sc_prev sc = Some b.2).
    { rewrite (si_map _ _ _ Hi), <- Hb1. apply last_Some in Hl as [l' ->]. destruct b as [k x].
      rewrite batch_map_snoc. apply lookup_insert_eq. }
    pose proof (proj2 (si_new _ _ _ Hi _ _ Hm) p Hp). lia.
Qed.

Lemma move_to_self sc x : sh_height x = sc_height sc -> move_to sc (sc_prev sc) (sh_height x) = sc.
Proof. intros ->. by destruct sc. Qed.

Lemma scan_header_spec bh s0 s h rest sc :
  header_tree net (header_at (header_index s0)) ->
  (forall k x a, header_at (header_index s0) k = Some x -> sh_height x = 0 -> D a -> block_hash a <> prev_blockhash (sh_header x)) ->
  0 <= best_height s0 -> hs_params s0 = for_network net -> frame s0 s -> scan_inv s0 (h :: rest) sc -> D h -> header_ok h ->
  (forall h', head rest = Some h' -> prev_blockhash h' = block_hash h) ->
  step_ok s0 rest sc (scan_header bh h sc s).
Proof.
  intros Ht Hroot Hbest Hpar Hf Hi HD Hok Hcont. unfold scan_header, mbind, stm_bind, gets, mret, stm_ret, lift. cbn [id].
  rewrite !known_header_at, !(fr_headers _ _ Hf), (fr_height _ _ Hf). destruct (si_pos _ _ _ Hi) as (x & Hx & Hxh).
  assert (Hdirect : prev_blockhash h = sc_prev sc ->
    (forall y, header_at (header_index s0) (block_hash h) = Some y -> best_height s0 < sh_height y) ->
    step_ok s0 rest sc (accept_header h (block_hash h) sc s)).
  { intros Hp Hnew. pose proof (accept_header_spec s0 s h rest sc x Hbest Hpar Hf Hi HD Hok Hcont ltac:(by rewrite Hp) Hnew) as Ha.
    by rewrite move_to_self in Ha. }
  destruct (header_at (header_index s0) (block_hash h)) as [y|] eqn:Hy.
  - destruct (Z.leb_spec (sh_height y) (best_height s0)) as [Hle|Hgt].
    { split; [done|]. apply move_inv; [done|by eapply skip_first|done|apply (si_walk _ _ _ Hi)]. }
    case_bool_decide as Hp; cbn [negb]; [apply Hdirect; [done|by intros ? [= <-]]|].
    split; [done|]. apply move_inv; [done| |done|].
    + destruct (sc_batch sc) as [|b0 batch] eqn:Hb; [done|]. exfalso. apply Hp, (si_cont _ _ _ Hi h); [by rewrite Hb|done].
    + intros t n w [= <- <- <-]. by exists y.
  - case_bool_decide as Hp; cbn [negb]; [by apply Hdirect|].
    destruct (header_at (header_index s0) (prev_blockhash h)) as [fp|] eqn:Hfp.
    + destruct (is_catching_up bh (best_height s0)); [by split|].
      apply accept_header_spec; try done; [by apply (si_ext _ _ _ Hi)|]. intros y. by rewrite Hy.
    + by destruct (_ && _).
Qed.

(** Each header builds on the one before it. *)
Definition contiguous (headers : list Header) : Prop :=
  forall i a b, headers !! i = Some a -> headers !! S i = Some b -> prev_blockhash b = block_hash a.

Lemma scan_headers_spec bh s0 headers : forall s sc,
  header_tree net (header_at (header_index s0)) ->
  (forall k x a, header_at (header_index s0) k = Some x -> sh_height x = 0 -> D a -> block_hash a <> prev_blockhash (sh_header x)) ->
  0 <= best_height s0 -> hs_params s0 = for_network net -> frame s0 s -> scan_inv s0 headers sc ->
  Forall D headers -> Forall header_ok headers -> contiguous headers ->
  frame s0 (scan_headers bh headers sc s).1 /\
  match (scan_headers bh headers sc s).2 with Ok sc' => scan_inv s0 [] sc' | Err e => e <> None end.
Proof.
  induction headers as [|h rest IH]; intros s sc Ht Hroot Hbest Hpar Hf Hi HD Hok Hc; [done|].
  apply Forall_cons in HD as [HDh HD]. apply Forall_cons in Hok as [Hokh Hok].
  destruct (scan_header_spec bh s0 s h rest sc) as [Hf' Hr]; try done.
  { intros h' Hh. apply (Hc 0%nat h h'); [done|]. by destruct rest. }
  cbn [scan_headers]. unfold mbind, stm_bind. destruct (scan_header bh h sc s) as [s' [[sc'|sc']|e]]; cbn [fst snd] in *; [|split; [done|]|done].
  - apply IH; try done. intros i a b Ha Hb. by apply (Hc (S i) a b).
  - subst sc'. destruct Hi. split; try done. intros k x Hx. pose proof (si_room0 k x Hx) as Hr. cbn [length] in *. lia.
Qed.
(** ** Fork choice *)

(** The tip is a stored header, with its height and its work. *)
Record sync_inv (s : HeaderSync) : Prop := {
  sy_params : hs_params s = for_network net;
  sy_tree : header_tree net (header_at (header_index s));
  sy_best : exists x, header_at (header_index s) (best_hash s) = Some x /\ sh_height x = best_height s /\ chain_work x = best_chain_work s }.

(** From [s0] to [s] headers are only added, from [D], and the work of the
    tip does not decrease. *)
Record advance (s0 s : HeaderSync) : Prop := {
  ad_inv : sync_inv s;
  ad_ext : extends (header_at (header_index s0)) (header_at (header_index s));
  ad_src h x : header_at (header_index s) h = Some x -> D (sh_header x);
  ad_work : from_be (best_chain_work s0) <= from_be (best_chain_work s) }.

Definition advances {A} (s0 : HeaderSync) (r : HeaderSync * result (option HeaderSyncError) A) : Prop :=
  advance s0 r.1 /\ r.2 <> Err None.

Lemma advance_frame s0 s s' : advance s0 s -> frame s s' -> advance s0 s'.
Proof.
  intros [[Ap At Ab] Ae As Aw] [Fp Fh Fb Fw Fx]. split; [split| | |].
  - congruence.
  - by eapply tree_ext.
  - destruct Ab as (x & Hx & H1 & H2). exists x. rewrite Fx, Fb. split_and!; [done|congruence|congruence].
  - intros h x Hx. rewrite Fx. by apply Ae.
  - intros h x. rewrite Fx. apply As.
  - by rewrite Fw.
Qed.

(** The best tip moves to a stored header with at least the work. *)
Lemma advance_best s0 s h n w x :
  advance s0 s -> header_at (header_index s) h = Some x -> sh_height x = n -> chain_work x = w ->
  from_be (best_chain_work s) <= from_be w -> advance s0 (set_best s n h w).
Proof.
  intros [[Ap At Ab] Ae As Aw] Hx Hn Hw Hle. split; [split| | |]; cbn; try done; [by exists x|lia].
Qed.

Lemma work_ge_le a b : arr32 a -> arr32 b -> work_ge a b = true -> from_be b <= from_be a.
Proof. intros Ha Hb. rewrite work_ge_value by done. apply Z.leb_le. Qed.
Lemma work_gt_le a b : arr32 a -> arr32 b -> work_gt a b = true -> from_be b <= from_be a.
Proof. intros Ha Hb. unfold work_gt. rewrite cmp_work_value by done. destruct (Z.compare_spec (from_be a) (from_be b)); done || lia. Qed.

Lemma tainted_frame t bh s : frame s (branch_is_tainted t bh s).1.
Proof. unfold branch_is_tainted. destruct (branch_tainted s !! t); by split. Qed.

Lemma notify_frame t p s : frame s (notify_monitor t p s).
Proof.
  unfold notify_monitor. destruct (split_monitor s) as [m|]; [|apply frame_refl].
  unfold on_tainted_tip. split; try done. intros h. cbn. apply keeps_persist.
Qed.

Lemma frame_run {A} (m : stm HeaderIndex StorageError A) what s :
  keeps_headers m -> frame s (run_index m what s).1 /\ (run_index m what s).2 <> Err None.
Proof. intros Hm. unfold run_index. specialize (Hm (header_index s)). destruct (m (header_index s)) as [hi [a|e]]; by split. Qed.

Lemma adopt_spec s0 s batch tip n w x :
  advance s0 s -> header_at (header_index s) tip = Some x -> sh_height x = n -> chain_work x = w ->
  from_be (best_chain_work s) <= from_be w ->
  advances s0 (adopt_batch batch tip n w s).
Proof.
  intros Ha Hx Hn Hw Hle. unfold adopt_batch, mbind, stm_bind, modify.
  destruct (frame_run (update_height_index_batch batch) "failed to update height index" s) as [F1 N1]; [apply keeps_update_height_index|].
  destruct (run_index _ _ s) as [s1 [[]|e]]; cbn [fst snd] in *; [|split; [by eapply advance_frame|cbn; congruence]].
  destruct (frame_try (restore_branch_height_index tip) s1) as [F2 [o O2]]; [apply keeps_restore|].
  destruct (try_index _ s1) as [s2 r2]. cbn [fst snd] in *. subst r2.
  pose proof (frame_trans _ _ _ F1 F2) as F. pose proof (advance_frame _ _ _ Ha F) as A2.
  destruct (frame_run (set_header_tip tip n) "failed to update header tip" (set_best s2 n tip w)) as [F3 N3]; [apply keeps_set_header_tip|].
  split; [|done]. eapply advance_frame; [|exact F3]. apply (advance_best s0 s2 tip n w x); [done| |done|done|].
  - by rewrite (fr_headers _ _ F).
  - by rewrite (fr_work _ _ F).
Qed.
(** The batch, once written. *)
Lemma inserted_advance s0 s sc :
  sync_inv s0 -> scan_inv s0 [] sc -> frame s0 s ->
  let '(s', r) := run_index (insert_headers_hash_only (sc_batch sc)) "failed to store headers" s in
  advance s0 s' /\ best_hash s' = best_hash s0 /\ best_chain_work s' = best_chain_work s0 /\ r <> Err None /\
  (r = Ok tt -> forall h, header_at (header_index s') h = view s0 sc h).
Proof.
  intros [Ip It Ib] Hi Hf. unfold run_index.
  destruct (insert_headers_hash_only (sc_batch sc) (header_index s)) as [hi r] eqn:Hins.
  assert (Hadv : forall s', hs_params s' = hs_params s0 -> best_height s' = best_height s0 -> best_hash s' = best_hash s0 ->
    best_chain_work s' = best_chain_work s0 ->
    ((forall h, header_at (header_index s') h = view s0 sc h) \/ (forall h, header_at (header_index s') h = header_at (header_index s0) h)) -> advance s0 s').
  { intros s' E1 E2 E3 E4 Hx. assert (Hv : forall h x, header_at (header_index s') h = Some x -> view s0 sc h = Some x).
    { intros h x. destruct Hx as [Hx|Hx]; rewrite Hx; [done|]. by apply (si_ext _ _ _ Hi). }
    assert (He : extends (header_at (header_index s0)) (header_at (header_index s'))).
    { intros h x Hh. destruct Hx as [Hx|Hx]; rewrite Hx; [by apply (si_ext _ _ _ Hi)|done]. }
    split; [split| | |]; try done.
    - congruence.
    - destruct Hx as [Hx|Hx]; eapply tree_ext; [apply (si_tree _ _ _ Hi)|done|exact It|done].
    - destruct Ib as (x & Hb & H1 & H2). exists x. rewrite E3. split_and!; [by apply He|congruence|congruence].
    - intros h x Hh. apply (si_src _ _ _ Hi h). by apply Hv.
    - rewrite E4. done. }
  pose proof (insert_batch (header_index s) hi (sc_batch sc) r) as Hb. rewrite <- (si_map _ _ _ Hi) in Hb.
  destruct Hf as [F1 F2 F3 F4 F5].
  specialize (Hb ltac:(intros h x Hx; apply (ht_wf net _ (si_tree _ _ _ Hi) h); unfold view; by rewrite Hx) Hins).
  destruct r as [[]|e]; cbn [set_index best_hash best_chain_work header_index].
  - assert (Hv : forall h, header_at hi h = view s0 sc h) by (intros h; rewrite Hb, F5; done).
    split_and!; try done. apply Hadv; cbn; auto.
  - split_and!; try done. apply Hadv; cbn; auto. right. intros h. by rewrite Hb, F5.
Qed.

Lemma store_batch_spec bh s0 s sc :
  sync_inv s0 -> scan_inv s0 [] sc -> frame s0 s ->
  advance s0 s -> advances s0 (store_batch bh sc s).
Proof.
  intros Hs Hi Hf Ha. unfold store_batch.
  destruct (head (sc_batch sc)) as [[k0 x0]|]; [|done]. destruct (last (sc_batch sc)) as [[k x]|] eqn:Hl; [|done].
  destruct (si_last _ _ _ Hi _ Hl) as [_ Hx]. cbn [snd] in Hx. destruct (si_pos _ _ _ Hi) as (x' & Hx' & Hxh). rewrite Hx in Hx'. injection Hx' as <-.
  pose proof (inserted_advance s0 s sc Hs Hi Hf) as Hins. unfold mbind at 1, stm_bind at 1.
  destruct (run_index _ _ s) as [s1 r1]. destruct Hins as (A1 & B1 & W1 & N1 & V1).
  destruct r1 as [[]|e]; cbn [fst snd]; [|split; [exact A1|intros [= ->]; by apply N1]]. specialize (V1 eq_refl).
  unfold mbind, stm_bind, gets, modify, mret, stm_ret. cbn [id]. cbv beta.
  pose proof (tainted_frame (prev_blockhash (sh_header x0)) bh s1) as F2.
  destruct (branch_is_tainted _ _ s1) as [s2 t]. cbn [fst] in F2. cbv zeta.
  generalize (t || existsb (fun p : hash256 * StoredHeader => is_invalid (header_index s1) p.1) (sc_batch sc)). intros tainted.
  assert (F3 : frame s1 (note_branch_taint (sc_prev sc) tainted s2)) by (eapply frame_trans; [exact F2|by split]).
  destruct tainted; cbn [negb andb].
  - split; [|done]. eapply advance_frame; [exact A1|]. eapply frame_trans; [exact F3|apply notify_frame].
  - destruct (work_ge _ _) eqn:Hw; [|split; [by eapply advance_frame|done]].
    rewrite known_header_at, B1 in Hw. destruct (sy_best _ Hs) as (b & Hb & _ & Hbw).
    rewrite (ad_ext _ _ A1 _ _ Hb) in Hw. cbn in Hw. rewrite Hbw in Hw.
    assert (Harr : forall h y, view s0 sc h = Some y -> arr32 (chain_work y)) by (intros h y Hy; by apply (ht_wf net _ (si_tree _ _ _ Hi) h)).
    apply (adopt_spec s0 _ _ _ _ _ x); [by eapply advance_frame| |done|done|].
    + rewrite (fr_headers _ _ F3), V1. done.
    + rewrite (fr_work _ _ F3), W1. apply work_ge_le; [by eapply Harr| |done].
      rewrite <- Hbw. apply (Harr (best_hash s0)). by apply (si_ext _ _ _ Hi).
Qed.

Lemma reconsider_spec bh s0 s w :
  advance s0 s -> (forall t n v, w = Some (t, n, v) -> exists x, header_at (header_index s0) t = Some x /\ sh_height x = n /\ chain_work x = v) ->
  advances s0 (reconsider bh w s).
Proof.
  intros Ha Hw. unfold reconsider. destruct w as [[[t n] v]|]; [|done]. destruct (Hw t n v eq_refl) as (x & Hx & Hn & Hv).
  unfold mbind, stm_bind, gets, modify, mret, stm_ret. cbn [id].
  destruct (negb _ && work_gt v (best_chain_work s) && _) eqn:Hc; [|done].
  apply andb_true_iff in Hc as [[_ Hgt]%andb_true_iff _].
  pose proof (tainted_frame t bh s) as F1. destruct (branch_is_tainted t bh s) as [s1 tainted]. cbn [fst] in F1.
  destruct tainted; [split; [by eapply advance_frame|done]|].
  destruct (frame_try (restore_branch_height_index t) s1) as [F2 [o2 O2]]; [apply keeps_restore|].
  destruct (try_index _ s1) as [s2 r2]. cbn [fst snd] in *. subst r2. pose proof (frame_trans _ _ _ F1 F2) as F12.
  destruct o2 as [|]; [|split; [by eapply advance_frame|done]].
  destruct (frame_try (reset_fork_header_tip n t) s2) as [F3 [o3 O3]]; [apply keeps_reset_fork|].
  destruct (try_index _ s2) as [s3 r3]. cbn [fst snd] in *. subst r3. pose proof (frame_trans _ _ _ F12 F3) as F13.
  destruct o3 as [|]; (split; [|done]); [|by eapply advance_frame].
  apply (advance_best s0 s3 t n v x); [by eapply advance_frame| |done|done|].
  - rewrite (fr_headers _ _ F13). by apply (ad_ext _ _ Ha).
  - rewrite (fr_work _ _ F13). destruct (sy_best _ (ad_inv _ _ Ha)) as (b & Hb & _ & Hbw).
    pose proof (sy_tree _ (ad_inv _ _ Ha)) as Ht. apply work_gt_le; [| |done].
    + rewrite <- Hv. apply (ht_wf net _ Ht t). by apply (ad_ext _ _ Ha).
    + rewrite <- Hbw. by apply (ht_wf net _ Ht (best_hash s)).
Qed.
Lemma first_scan s0 headers :
  sync_inv s0 -> Forall D headers -> (forall h x, header_at (header_index s0) h = Some x -> D (sh_header x)) ->
  (forall h x, header_at (header_index s0) h = Some x -> sh_height x + Z.of_nat (length headers) < 2 ^ 32) ->
  scan_inv s0 headers (mkScan [] ∅ (best_hash s0) (best_height s0) 0 None).
Proof.
  intros [Ip It (x & Hx & Hn & Hw)] HD Hsrc Hroom. split; try done.
  - by intros h y Hy.
  - by exists x.
Qed.

Lemma process_spec bh s0 headers :
  sync_inv s0 -> Forall D headers -> (forall h x, header_at (header_index s0) h = Some x -> D (sh_header x)) ->
  (forall k x a, header_at (header_index s0) k = Some x -> sh_height x = 0 -> D a -> block_hash a <> prev_blockhash (sh_header x)) ->
  (forall h x, header_at (header_index s0) h = Some x -> sh_height x + Z.of_nat (length headers) < 2 ^ 32) ->
  Forall header_ok headers -> contiguous headers ->
  advances s0 (process_headers headers bh s0).
Proof.
  intros Hs HD Hsrc Hroot Hroom Hok Hc. assert (Ha : advance s0 s0) by (split; [done|by intros ? ?|done|done]).
  unfold process_headers. destruct headers as [|h0 headers]; [done|]. set (hs := h0 :: headers) in *.
  unfold mbind, stm_bind, modify, gets, mret, stm_ret. cbn [id].
  assert (F1 : frame s0 (refresh_taint_memo s0)) by (unfold refresh_taint_memo; destruct (negb _); by split).
  rewrite (fr_hash _ _ F1), (fr_height _ _ F1). pose proof (first_scan s0 hs Hs HD Hsrc Hroom) as Hi.
  destruct (sy_best _ Hs) as (x & Hx & Hn & _).
  assert (Hbest : 0 <= best_height s0) by (rewrite <- Hn; by apply (ht_wf net _ (sy_tree _ Hs) (best_hash s0))).
  destruct (scan_headers_spec bh s0 hs (refresh_taint_memo s0) _ (sy_tree _ Hs) Hroot Hbest (sy_params _ Hs) F1 Hi HD Hok Hc) as [F2 R2].
  destruct (scan_headers bh hs _ _) as [s2 [sc|e]]; cbn [fst snd] in F2, R2; [|split; [by eapply advance_frame|cbn; congruence]].
  destruct (store_batch_spec bh s0 s2 sc Hs R2 F2 ltac:(by eapply advance_frame)) as [A3 N3].
  destruct (store_batch bh sc s2) as [s3 [[]|e]]; cbn [fst snd] in A3, N3; [|split; [done|cbn; congruence]].
  destruct (reconsider_spec bh s0 s3 (sc_walk_tip sc) A3 (si_walk _ _ _ R2)) as [A4 N4].
  destruct (reconsider bh _ s3) as [s4 [[]|e]]; cbn [fst snd] in A4, N4; [|split; [done|cbn; congruence]].
  split; [|done]. cbn [fst]. eapply advance_frame; [exact A4|]. by destruct (_ && _).
Qed.
End Sync.

(** ** Theorems *)

Section Theorems.
Context `{HR : RocksDb} `{HL : !RocksLaws} `{HW : !RocksWal} `{HC : HeaderCodec} `{HCL : !HeaderCodecLaws} `{HI : TipIter} `{HT : TxLib}.

(** The headers of the message and of the index. *)
Definition in_play (s : HeaderSync) (headers : list Header) (a : Header) : Prop :=
  a ∈ headers \/ exists k x, header_at (header_index s) k = Some x /\ sh_header x = a.

(** Well-formed headers, each on the one before it, no two different headers in
    play with the same hash, none of which is the (zero) parent hash of the
    genesis block, and heights that fit. *)
Record message_ok (s : HeaderSync) (headers : list Header) : Prop := {
  mo_ok : Forall header_ok headers;
  mo_contiguous : contiguous headers;
  mo_collision a b : in_play s headers a -> in_play s headers b -> block_hash a = block_hash b -> a = b;
  mo_root k x a : header_at (header_index s) k = Some x -> sh_height x = 0 -> in_play s headers a -> block_hash a <> prev_blockhash (sh_header x);
  mo_room k x : header_at (header_index s) k = Some x -> sh_height x + Z.of_nat (length headers) < 2 ^ 32 }.

(** C15: Header sync is sound on contiguous messages, whatever headers they hold
    and however the call ends: the index stays a tree in which every header
    has valid proof of work, the difficulty required after its parent, its
    parent's height plus one and the exact cumulative work; stored headers do
    not change and new ones come from the message; the best tip is a stored
    header, whose work never decreases; and the call terminates.  Conditions:
    the column families exist and reads of the index succeed (writes may fail);
    when the read of an ancestor fails the code skips the difficulty check and
    stores the header.  The headers have fields of their widths, no two headers
    in play share a hash and none hashes to the parent of the genesis block,
    heights stay below 2^32, and the index is such a tree before the call. *)
Theorem header_sync_sound (net : Network) (s s' : HeaderSync) (headers : list Header) (block_height : Z)
    (r : result (option HeaderSyncError) Z)
    (reads_succeed : forall d cf k, exists v, get_cf d cf k = Ok v) (handles_exist : forall d cf, cf_handle d cf = true)
    (target_bytes : forall b, arr32 (target_of_bits b)) :
  sync_inv net s -> message_ok s headers -> process_headers headers block_height s = (s', r) ->
  sync_inv net s' /\ r <> Err None /\
  extends (header_at (header_index s)) (header_at (header_index s')) /\
  (forall h x, header_at (header_index s') h = Some x -> header_at (header_index s) h = Some x \/ sh_header x ∈ headers) /\
  from_be (best_chain_work s) <= from_be (best_chain_work s').
Proof.
  intros Hs [M1 M2 M3 M4 M5] Hp.
  destruct (process_spec reads_succeed handles_exist target_bytes net (in_play s headers) M3 block_height s headers Hs) as [[Ai Ae As Aw] N];
    [apply Forall_forall; by left|intros h x Hx; right; eauto|done|done|done|done|].
  rewrite Hp in *. cbn [fst snd] in *. split_and!; [done|done|done| |done].
  intros h x Hx. destruct (As h x Hx) as [Hh|(k & y & Hy & Hyx)]; [by right|left].
  assert (k = h) as ->; [|by rewrite Hy, (Ae _ _ Hy) in *; congruence].
  rewrite <- (ht_key net _ (sy_tree _ _ Hs) k y Hy), Hyx. by apply (ht_key net _ (sy_tree _ _ Ai)).
Qed.
End Theorems.

(** ** Messages that are not contiguous *)

Section Examples.
#[local] Existing Instance Sample.tx_lib.
#[local] Existing Instance SampleDb.rocks.
#[local] Existing Instance SampleDb.laws.
#[local] Existing Instance SampleCodec.codec.
#[local] Existing Instance SampleCodec.wal.
#[local] Existing Instance SampleCodec.laws.
#[local] Instance sample_tip_iter : TipIter := { iter_tips m := (map_to_list m).*2 }.

(** Header [n] on the header [prev], both named by their nonces. *)
Definition hx (prev n : Z) : Header := mkHeader 4 (block_hash (mkHeader 4 [] [] 7 0 prev)) (replicate 32 0) 7 (2 ^ 32 - 1) n.
Definition hx_hash (n : Z) : hash256 := block_hash (hx 0 n).
Definition hx_work (n : Z) : bytes := Nat.iter (Z.to_nat n) (fun w => add_chain_work w (calculate_work (header_target (hx 0 0)))) (replicate 32 0).
Definition hx_stored (prev n height : Z) : StoredHeader := mkStored (hx prev n) height (hx_work height).

(** Headers 0 to 3 are the best chain; header 22 is a rival of header 2. *)
Definition hx_index : HeaderIndex :=
  ((insert_headers_batch [(hx_hash 0, hx_stored 99 0 0); (hx_hash 1, hx_stored 0 1 1); (hx_hash 2, hx_stored 1 2 2); (hx_hash 3, hx_stored 2 3 3)] ≫= fun _ =>
    insert_headers_hash_only [(hx_hash 22, hx_stored 1 22 2)]) (mkHeaderIndex (∅ : gmap _ _) ∅ 0)).1.
Definition hx_sync : HeaderSync := hsync_new (for_network Regtest) hx_index 3 (hx_hash 3).
Definition hx_tainted_sync : HeaderSync := set_index hx_sync (mark_invalid (hx_hash 22) 2 INVALID_REASON_CONSENSUS hx_index).1.

(** A new tip followed by an old header moves the best tip back to the old
    header, under the work of the new one. *)
Theorem header_tip_regresses :
  let '(s, r) := process_headers [hx 3 4; hx 0 1] 3 hx_sync in
  r = Ok 1 /\ best_height hx_sync = 3 /\ best_height s = 1 /\ best_hash s = hx_hash 1 /\ best_chain_work s = hx_work 4 /\
  get_header (header_index s) (hx_hash 1) = Ok (Some (hx_stored 0 1 1)) /\
  get_header_tip (header_index s) = Ok (Some (hx_hash 1)).
Proof. vm_compute. split_and!; reflexivity. Qed.

(** A new tip followed by a child of an invalid block: alone the child is
    ignored, after the new tip it is adopted, with work it does not have. *)
Theorem invalid_branch_adopted :
  let '(s, r) := process_headers [hx 22 23] 3 hx_tainted_sync in
  let '(s', r') := process_headers [hx 3 4; hx 22 23] 3 hx_tainted_sync in
  r = Ok 1 /\ best_hash s = hx_hash 3 /\
  r' = Ok 2 /\ best_hash s' = hx_hash 23 /\ is_invalid (header_index s') (hx_hash 22) = true /\
  best_height s' = 3 /\ best_chain_work s' = hx_work 5.
Proof. vm_compute. split_and!; reflexivity. Qed.
Definition hx_list : list StoredHeader := [hx_stored 99 0 0; hx_stored 0 1 1; hx_stored 1 2 2; hx_stored 2 3 3; hx_stored 1 22 2].

Lemma hx_headers h x : header_at hx_index h = Some x -> x ∈ hx_list /\ block_hash (sh_header x) = h.
Proof.
  unfold header_at. destruct (contents (hi_db hx_index) CF_HEADERS h) as [d|] eqn:Hd; [|done].
  change (contents ?d ?c ?k) with (@lookup _ _ (gmap (string * bytes) bytes) _ (c, k) d) in Hd.
  apply (elem_of_map_to_list (M := gmap (string * bytes))) in Hd.
  assert (Hall : forallb (fun '(cf, k, v) => negb (bool_decide (cf = CF_HEADERS)) ||
    match deserialize_stored v with Ok x => bool_decide (x ∈ hx_list /\ block_hash (sh_header x) = k) | Err _ => false end)
    (map_to_list (M := gmap (string * bytes) bytes) (hi_db hx_index)) = true) by (vm_compute; reflexivity).
  rewrite forallb_forall in Hall. specialize (Hall (CF_HEADERS, h, d)). rewrite <- list_elem_of_In in Hall. specialize (Hall Hd).
  cbv beta iota in Hall. rewrite bool_decide_eq_true_2 in Hall by done. cbn [negb orb] in Hall.
  destruct (deserialize_stored d) as [y|]; [|done]. intros [= <-]. by apply bool_decide_eq_true in Hall.
Qed.

Lemma hx_tree : header_tree Regtest (header_at hx_index).
Proof.
  split; intros h x Hx; pose proof (hx_headers h x Hx) as [Hin Hh].
  - done.
  - assert (Hall : Forall (fun x => header_ok (sh_header x) /\ fits 32 (sh_height x)) hx_list) by (repeat constructor; cbn; lia).
    rewrite Forall_forall in Hall. destruct (Hall x Hin) as [H1 H2]. split_and!; [exact H1|exact H2|].
    assert (Hb : forallb (fun x => bool_decide (length (chain_work x) = 32%nat) && bytes_okb (chain_work x)) hx_list = true) by (vm_compute; reflexivity).
    rewrite forallb_forall in Hb. specialize (Hb x (proj1 (list_elem_of_In _ _) Hin)). apply andb_true_iff in Hb as [Hl Hb].
    split; [by apply bool_decide_eq_true in Hl|by apply bytes_okb_ok].
  - assert (Hb : forallb (fun x => negb (sh_height x =? 0) || bool_decide (chain_work x = replicate 32 0)) hx_list = true) by (vm_compute; reflexivity).
    rewrite forallb_forall in Hb. specialize (Hb x ltac:(by apply list_elem_of_In)). intros H0. rewrite H0 in Hb. by apply bool_decide_eq_true in Hb.
  - assert (Hb : forallb (fun x => (sh_height x =? 0) ||
      match header_at hx_index (prev_blockhash (sh_header x)) with
      | Some p => bool_decide (sh_height x = sh_height p + 1 /\ header_pow_ok (sh_header x) = true /\ bits (sh_header x) = bits (sh_header p) /\
                    chain_work x = add_chain_work (chain_work p) (calculate_work (header_target (sh_header x))))
      | None => false
      end) hx_list = true) by (vm_compute; reflexivity).
    rewrite forallb_forall in Hb. specialize (Hb x ltac:(by apply list_elem_of_In)). intros H0.
    rewrite (proj2 (Z.eqb_neq _ _) H0) in Hb. cbn [orb] in Hb.
    destruct (header_at hx_index (prev_blockhash (sh_header x))) as [p|] eqn:Hp; [|done]. apply bool_decide_eq_true in Hb as (H1 & H2 & H3 & H4).
    exists p. split_and!; [reflexivity|exact H1|exact H2| |exact H4].
    intros _. unfold get_next_work_required_with. rewrite Hp. cbn [pow_no_retargeting for_network regtest]. by rewrite H3.
Qed.

Definition hx_headers_in_play : list Header := hx 3 4 :: map sh_header hx_list.

Lemma hx_message_ok : message_ok hx_sync [hx 3 4].
Proof.
  assert (Hin : forall a, in_play hx_sync [hx 3 4] a -> a ∈ hx_headers_in_play).
  { intros a [->%list_elem_of_singleton|(k & x & Hx & <-)]; [by left|right]. apply list_elem_of_fmap. exists x. split; [done|by apply (hx_headers k)]. }
  split.
  - repeat constructor; cbn; lia.
  - intros i a b Ha. by destruct i.
  - intros a b Ha%Hin Hb%Hin Hab.
    assert (Hall : forallb (fun a => forallb (fun b => negb (bool_decide (block_hash a = block_hash b)) || bool_decide (a = b)) hx_headers_in_play)
      hx_headers_in_play = true) by (vm_compute; reflexivity).
    rewrite forallb_forall in Hall. specialize (Hall a ltac:(by apply list_elem_of_In)). rewrite forallb_forall in Hall.
    specialize (Hall b ltac:(by apply list_elem_of_In)). rewrite bool_decide_eq_true_2 in Hall by done. by apply bool_decide_eq_true in Hall.
  - intros k x a Hx H0 Ha%Hin. destruct (hx_headers k x Hx) as [Hxin _].
    assert (Hall : forallb (fun x => negb (sh_height x =? 0) || forallb (fun a => bool_decide (block_hash a <> prev_blockhash (sh_header x))) hx_headers_in_play)
      hx_list = true) by (vm_compute; reflexivity).
    rewrite forallb_forall in Hall. specialize (Hall x ltac:(by apply list_elem_of_In)). rewrite H0 in Hall. cbn [Z.eqb negb orb] in Hall.
    rewrite forallb_forall in Hall. specialize (Hall a ltac:(by apply list_elem_of_In)). by apply bool_decide_eq_true in Hall.
  - intros k x Hx. destruct (hx_headers k x Hx) as [Hxin _].
    assert (Hall : forallb (fun x => sh_height x <? 10) hx_list = true) by (vm_compute; reflexivity).
    rewrite forallb_forall in Hall. specialize (Hall x ltac:(by apply list_elem_of_In)). apply Z.ltb_lt in Hall. cbn [length]. lia.
Qed.

Lemma hx_sync_inv : sync_inv Regtest hx_sync.
Proof. split; [done|apply hx_tree|]. exists (hx_stored 2 3 3). vm_compute. split_and!; reflexivity. Qed.

Lemma header_sync_sound_witness :
  let s := (process_headers [hx 3 4] 3 hx_sync).1 in
  best_hash s = hx_hash 4 /\ best_height s = 4 /\ sync_inv Regtest s.
Proof.
  split_and!; [vm_compute; reflexivity|vm_compute; reflexivity|].
  destruct (header_sync_sound Regtest hx_sync (process_headers [hx 3 4] 3 hx_sync).1 [hx 3 4] 3 (process_headers [hx 3 4] 3 hx_sync).2)
    as [Hinv _]; [by eexists|done|intros b; split; [apply length_to_be|apply bytes_ok_to_be]|exact hx_sync_inv|exact hx_message_ok|apply surjective_pairing|].
  exact Hinv.
Defined.
End Examples.
