(* ===== verification/NodeChain.v ===== *)
(** * The node: received blocks, connection and reorganisation

    [bitcoinpr/src/node.rs]: the part of the event loop that owns the chain.
    Blocks are buffered until their parent is the tip, then connected; a block
    that breaks a consensus rule is marked and its branch abandoned; a headers
    message that moves the best header chain off the validated chain starts a
    reorganisation.  The node holds the chain state, header synchronisation and
    block download; the header index is one object that the first two share,
    so every call into header synchronisation starts from the index of the
    chain state and hands it back.  Clocks are arguments. *)

From Stdlib Require Import ZArith Lia.
From stdpp Require Import base option numbers list gmap strings.
From S2P Require Import Prelude Bytes U256 Types ScriptBytes Signatures Consensus Validation Store HeaderIndex TxIndex BlockStore Bip110 UtxoSet SplitMonitor BlockSync HeaderSync ChainState.

(** Operations of the [bitcoin] crate on whole blocks. *)
Class BlockLib := {
  deserialize_block : bytes -> option Block;
  block_total_size : Block -> Z }.

(** The iteration order of the hash maps of the node. *)
Class NodeIter := {
  iter_heights : gmap Z hash256 -> list (Z * hash256);
  iter_pending : gmap hash256 (list (Block * option bytes)) -> list (hash256 * list (Block * option bytes)) }.
Class NodeIterLaws `{NodeIter} := {
  iter_heights_perm m : iter_heights m ≡ₚ map_to_list m;
  iter_pending_perm m : iter_pending m ≡ₚ map_to_list m }.

Definition BLOCK_FETCH_HEIGHT_SPAN : Z := 96.
Definition MAX_PENDING_BYTES : Z := 256 * 1024 * 1024.
Definition MAX_BLOCK_RETRIES : Z := 5.
Definition MAX_DRAIN_PER_TICK : Z := 32.

(** What is sent to the peer manager. *)
Inductive Command : Type :=
| SendGetBlocks (c : GetBlocks)
| SendGetHeaders (peer : PeerId) (locator : list hash256).

(** ** Classification of failures *)

(** Errors that no later attempt can repair. *)
Definition is_consensus_invalid (e : CoreError) : bool :=
  match e with
  | InvalidProofOfWork | InvalidTimestamp _ | InvalidDifficultyTarget _ | InvalidBlock _ | InvalidTransaction _
  | InvalidScript _ | InvalidCoinbase _ | BlockWeightExceeded _ _ | InvalidSubsidy _ _ => true
  | _ => false
  end.

(** [str::contains]. *)
Definition str_contains (needle s : string) : bool :=
  match String.index 0 needle s with Some _ => true | None => false end.

Definition invalid_block_reason (error : string) : Z :=
  if str_contains "mandatory-signaling" error then INVALID_REASON_SIGNALING
  else if str_contains "BIP-110" error then INVALID_REASON_BIP110
  else INVALID_REASON_CONSENSUS.

Inductive DrainStep : Type :=
| Stale (expected_height : Z) (expected_hash : option hash256)
| Connected (txids : list hash256) (connected_height : Z) (connected_hash : hash256)
| Failed (expected_height : Z) (error : string) (consensus_invalid : bool).

(** The lines of the log of a reorganisation. *)
Inductive ReorgEvent : Type :=
| FlushFailed (e : StorageError)
| Disconnected (height : Z) (hash : hash256)
| DisconnectFailed (height : Z) (e : CoreError)
| RolledBack (height : Z) (hash new_tip : hash256)
| RollbackFailed (height : Z) (hash : hash256) (e : StorageError).

Section Node.
Context `{HH : Hashes} `{HSL : ScriptLib} `{HSg : SigLib} `{HT : TxLib} `{HO : OutPointOrd} `{HZ : TxSizes} `{HR : RocksDb} `{HW : !RocksWal}
  `{HC : HeaderCodec} `{HF : BlockFiles} `{HM : MapIter} `{HRt : Runtime} `{HTI : TipIter} `{HSI : SyncIter} `{HB : BlockLib} `{HNI : NodeIter}.

Abbreviation Pending := (gmap hash256 (list (Block * option bytes))).

Record Node := mkNode {
  chain_state : ChainState;
  header_sync : HeaderSync;
  block_sync : BlockSync;
  shared_peers : list DownloadPeer;
  pending_blocks : Pending;
  block_failure_counts : gmap hash256 Z;
  last_reorg_from : option (hash256 * Z);
  shared_best : Z * hash256;
  commands : list Command }.

Definition set_chain (n : Node) (c : ChainState) : Node :=
  mkNode c (header_sync n) (block_sync n) (shared_peers n) (pending_blocks n) (block_failure_counts n) (last_reorg_from n) (shared_best n) (commands n).
Definition set_headers (n : Node) (h : HeaderSync) : Node :=
  mkNode (chain_state n) h (block_sync n) (shared_peers n) (pending_blocks n) (block_failure_counts n) (last_reorg_from n) (shared_best n) (commands n).
Definition set_sync (n : Node) (s : BlockSync) : Node :=
  mkNode (chain_state n) (header_sync n) s (shared_peers n) (pending_blocks n) (block_failure_counts n) (last_reorg_from n) (shared_best n) (commands n).
Definition set_peers (n : Node) (p : list DownloadPeer) : Node :=
  mkNode (chain_state n) (header_sync n) (block_sync n) p (pending_blocks n) (block_failure_counts n) (last_reorg_from n) (shared_best n) (commands n).
Definition set_pending (n : Node) (p : Pending) : Node :=
  mkNode (chain_state n) (header_sync n) (block_sync n) (shared_peers n) p (block_failure_counts n) (last_reorg_from n) (shared_best n) (commands n).
Definition set_failures (n : Node) (f : gmap hash256 Z) : Node :=
  mkNode (chain_state n) (header_sync n) (block_sync n) (shared_peers n) (pending_blocks n) f (last_reorg_from n) (shared_best n) (commands n).
Definition set_reorg_from (n : Node) (r : option (hash256 * Z)) : Node :=
  mkNode (chain_state n) (header_sync n) (block_sync n) (shared_peers n) (pending_blocks n) (block_failure_counts n) r (shared_best n) (commands n).
Definition set_shared (n : Node) (b : Z * hash256) : Node :=
  mkNode (chain_state n) (header_sync n) (block_sync n) (shared_peers n) (pending_blocks n) (block_failure_counts n) (last_reorg_from n) b (commands n).
Definition add_commands (n : Node) (l : list Command) : Node :=
  mkNode (chain_state n) (header_sync n) (block_sync n) (shared_peers n) (pending_blocks n) (block_failure_counts n) (last_reorg_from n) (shared_best n) (commands n ++ l).

(** The shared header index. *)
Definition node_index (n : Node) : HeaderIndex := ChainState.header_index (chain_state n).
Definition set_node_index (n : Node) (hi : HeaderIndex) : Node :=
  set_headers (set_chain n (ChainState.set_index (chain_state n) hi)) (HeaderSync.set_index (header_sync n) hi).

(** [let _ = header_index.op(..)]. *)
Definition quiet_index {A} (m : stm HeaderIndex StorageError A) (n : Node) : Node := set_node_index n (m (node_index n)).1.

(** The tip of header synchronisation, its work left as it is. *)
Definition set_header_best (n : Node) (height : Z) (hash : hash256) : Node :=
  set_headers n (HeaderSync.set_best (header_sync n) height hash (HeaderSync.best_chain_work (header_sync n))).

Definition share_tip (n : Node) : Node :=
  set_shared n (ChainState.best_height (chain_state n), ChainState.best_hash (chain_state n)).

Definition index_hash (hi : HeaderIndex) (height : Z) : option hash256 :=
  match get_hash_at_height hi height with Ok o => o | Err _ => None end.
Definition header_work (hi : HeaderIndex) (hash : hash256) : bytes :=
  default (replicate 32 0) (chain_work <$> known_header hi hash).
Definition header_tip_or (n : Node) (d : Z) : Z :=
  match get_header_tip_height (node_index n) with Ok (Some h) => h | _ => d end.

(** [assign_to_peers] of the eligible peers, and its commands sent. *)
Definition assign_among (now : Z) (peer_ids : list PeerId) (n : Node) : Node :=
  let '(s, cmds) := assign_to_peers now peer_ids (block_sync n) in add_commands (set_sync n s) (map SendGetBlocks cmds).
Definition eligible_now (n : Node) : list PeerId :=
  let block_h := ChainState.best_height (chain_state n) in
  eligible_download_peer_ids (shared_peers n) block_h (header_tip_or n block_h).

(** [for h in from..=to] over the height index, with a map for its holes. *)
Definition hashes_between (hi : HeaderIndex) (holes : gmap Z hash256) (from upto : Z) : list hash256 :=
  omap (fun h => match index_hash hi h with Some x => Some x | None => holes !! h end) (heights_between from upto).

(** ** Blocks on disk *)

Definition read_raw (hash : hash256) (c : ChainState) : ChainState * option bytes :=
  match get_block_pos (ChainState.header_index c) hash with
  | Ok (Some pos) =>
      let '(bs, r) := read_block pos (block_store c) in
      (set_blocks c bs, match r with Ok raw => Some raw | Err _ => None end)
  | _ => (c, None)
  end.

(** ** Recovery from an invalid branch *)

(** The hashes from [hash] down to the tip of the chain, the lowest first, and
    the hash below them; [count] is the number of heights between. *)
Fixpoint replay_walk (hi : HeaderIndex) (count : nat) (hash : hash256) (height : Z) (acc : list hash256) : option (hash256 * list hash256) :=
  match count with
  | O => Some (hash, acc)
  | S count =>
      match get_header hi hash with
      | Ok (Some s) => if sh_height s =? height then replay_walk hi count (prev_blockhash (sh_header s)) (height - 1) (hash :: acc) else None
      | _ => None
      end
  end.

(** Blocks connected again from disk, until one fails. *)
Fixpoint replay_blocks (clock : nat -> Z) (hashes : list hash256) (c : ChainState) : ChainState :=
  match hashes with
  | [] => c
  | hash :: rest =>
      let '(c, raw) := read_raw hash c in
      match raw ≫= deserialize_block with
      | Some b =>
          match connect_block_with_raw (clock O) b (u32 (ChainState.best_height c + 1)) raw c with
          | (c, Ok _) => replay_blocks (fun i => clock (S i)) rest c
          | (c, Err _) => c
          end
      | None => c
      end
  end.

Definition quiet_chain {A} (m : stm HeaderIndex StorageError A) (c : ChainState) : ChainState :=
  ChainState.set_index c (m (ChainState.header_index c)).1.

(** Back on the node's own chain: the height index and the header tip are
    reset to the tip before the reorganisation, and the blocks it had
    disconnected are connected again. *)
Definition recover_from_invalid_branch (clock : nat -> Z) (reorg_from : option (hash256 * Z)) (c : ChainState) :
    ChainState * (hash256 * Z * bytes) :=
  let '(target_hash, target_height) :=
    match reorg_from with
    | Some (pre_hash, pre_height) =>
        if pre_height >? ChainState.best_height c then (pre_hash, pre_height) else (ChainState.best_hash c, ChainState.best_height c)
    | None => (ChainState.best_hash c, ChainState.best_height c)
    end in
  let c := quiet_chain (restore_branch_height_index target_hash) c in
  let c := quiet_chain (reset_fork_header_tip target_height target_hash) c in
  let c :=
    if target_height >? ChainState.best_height c then
      match replay_walk (ChainState.header_index c) (Z.to_nat (target_height - ChainState.best_height c)) target_hash target_height [] with
      | Some (below, replay) => if bool_decide (below = ChainState.best_hash c) then replay_blocks clock replay c else c
      | None => c
      end
    else c in
  (c, (ChainState.best_hash c, ChainState.best_height c, header_work (ChainState.header_index c) (ChainState.best_hash c))).

(** ** Connecting buffered blocks *)

Definition connect_attempt (now : Z) (block : Block) (raw : option bytes) (c : ChainState) : ChainState * DrainStep :=
  let hash := block_hash (header block) in
  let expected_height := u32 (ChainState.best_height c + 1) in
  let expected_hash := index_hash (ChainState.header_index c) expected_height in
  if bool_decide (is_Some expected_hash) && negb (bool_decide (expected_hash = Some hash)) then (c, Stale expected_height expected_hash)
  else if is_invalid (ChainState.header_index c) hash then (c, Stale expected_height None)
  else
    match connect_block_with_raw now block expected_height raw c with
    | (c, Ok txids) => (c, Connected txids (ChainState.best_height c) (ChainState.best_hash c))
    | (c, Err e) => (c, Failed expected_height (display e) (is_consensus_invalid e))
    end.

Definition clear_queues (s : BlockSync) : BlockSync := set_core s [] ∅ (peer_requests s).

(** The block is marked for good and its branch is abandoned. *)
Definition abandon_branch (clock : nat -> Z) (hash : hash256) (height : Z) (error : string) (n : Node) : Node :=
  let n := quiet_index (mark_invalid hash height (invalid_block_reason error)) n in
  let n := set_failures n (delete hash (block_failure_counts n)) in
  let n :=
    match split_monitor (header_sync n) with
    | Some m => let '(hi, m) := on_invalid_marked hash height (node_index n) m in
                let n := set_node_index n hi in set_headers n (set_monitor (header_sync n) (Some m))
    | None => n
    end in
  let '(c, (tip_hash, tip_height, tip_work)) := recover_from_invalid_branch clock (last_reorg_from n) (chain_state n) in
  let n := set_node_index (set_chain (set_reorg_from n None) c) (ChainState.header_index c) in
  let n := set_headers n (HeaderSync.set_best (header_sync n) tip_height tip_hash tip_work) in
  let n := set_pending (set_shared n (tip_height, tip_hash)) ∅ in
  set_sync n (clear_queues (block_sync n)).

(** A failure that may pass: the block is asked for again. *)
Definition retry_block (hash : hash256) (n : Node) : Node :=
  let count := default 0 (block_failure_counts n !! hash) + 1 in
  let n := set_failures n (<[hash := count]> (block_failure_counts n)) in
  if count >=? MAX_BLOCK_RETRIES then n
  else if download_paused (block_sync n) then n
  else
    match shared_peers n with
    | p :: _ =>
        let s := block_sync n in
        add_commands (set_sync n (set_core s (queue s) (<[hash := dp_id p]> (in_flight s)) (peer_requests s)))
          [SendGetBlocks (mkGetBlocks (dp_id p) [hash])]
    | [] => n
    end.

Definition block_was_connected (hash : hash256) (connected_height : Z) (connected_hash : hash256) (n : Node) : Node :=
  let n := set_sync n (block_connected hash (block_sync n)) in
  let n :=
    if connected_height >? HeaderSync.best_height (header_sync n)
    then quiet_index (set_header_tip connected_hash connected_height) (set_header_best n connected_height connected_hash)
    else n in
  set_shared n (connected_height, connected_hash).

Definition pop_pending (tip : hash256) (p : Pending) : option ((Block * option bytes) * Pending) :=
  match p !! tip with
  | Some (b :: rest) => Some (b, if bool_decide (rest = []) then delete tip p else <[tip := rest]> p)
  | _ => None
  end.

(** One round of the drain loop; the flag tells whether it goes on. *)
Definition drain_one (now : Z) (clock : nat -> Z) (n : Node) : Node * bool :=
  match pop_pending (ChainState.best_hash (chain_state n)) (pending_blocks n) with
  | None => (n, false)
  | Some ((block, raw), rest) =>
      let hash := block_hash (header block) in
      let n := set_pending n rest in
      let '(c, step) := connect_attempt now block raw (chain_state n) in
      let n := set_node_index (set_chain n c) (ChainState.header_index c) in
      match step with
      | Stale _ _ => (n, true)
      | Connected _ height tip => (block_was_connected hash height tip n, true)
      | Failed height error consensus_invalid =>
          (if consensus_invalid then abandon_branch clock hash height error n else retry_block hash n, false)
      end
  end.

(** ** Receiving a block *)

Definition pending_entry_size (e : Block * option bytes) : Z :=
  match e.2 with Some raw => len raw | None => block_total_size e.1 end.

Definition queue_bytes (q : list (Block * option bytes)) : Z := foldr (fun e s => pending_entry_size e + s) 0 q.
Definition pending_total_bytes (p : Pending) : Z := foldr (fun q s => queue_bytes q.2 + s) 0 (iter_pending p).

(** The place of a buffer key in the order of eviction: parents below the tip,
    then unknown parents, then those furthest above the tip. *)
Definition evict_rank (tip_height : Z) (height : option Z) : Z :=
  match height with
  | Some h => if h <? tip_height then 0 else 2 * 2 ^ 32 + (2 ^ 32 - 1 - h)
  | None => 2 ^ 32
  end.

Fixpoint insert_key (rank : hash256 * option Z -> Z) (k : hash256 * option Z) (l : list (hash256 * option Z)) : list (hash256 * option Z) :=
  match l with
  | [] => [k]
  | x :: r => if rank x <=? rank k then x :: insert_key rank k r else k :: l
  end.
Definition sort_keys (rank : hash256 * option Z -> Z) (l : list (hash256 * option Z)) : list (hash256 * option Z) :=
  foldl (fun acc k => insert_key rank k acc) [] l.

Definition evict_keys (hi : HeaderIndex) (tip : hash256) (tip_height : Z) (p : Pending) : list (hash256 * option Z) :=
  sort_keys (fun k => evict_rank tip_height k.2)
    (map (fun k => (k, sh_height <$> known_header hi k)) (filter (fun k => k <> tip) (map fst (iter_pending p)))).

(** An evicted block may be scheduled again. *)
Definition unmark_received (s : BlockSync) (e : Block * option bytes) : BlockSync :=
  set_received s (received s ∖ {[block_hash (header e.1)]}).

Definition evict_one (target : Z) (acc : Node * Z) (k : hash256 * option Z) : Node * Z :=
  let '(n, remaining) := acc in
  if remaining <=? target then acc
  else
    match pending_blocks n !! k.1 with
    | Some q =>
        (set_sync (set_pending n (delete k.1 (pending_blocks n))) (foldl unmark_received (block_sync n) q),
         foldl (fun r e => sat_sub r (pending_entry_size e)) remaining q)
    | None => acc
    end.

Definition evict_pending (n : Node) : Node :=
  let total := pending_total_bytes (pending_blocks n) in
  if total >? MAX_PENDING_BYTES then
    (foldl (evict_one (MAX_PENDING_BYTES * 3 / 4)) (n, total)
       (evict_keys (node_index n) (ChainState.best_hash (chain_state n)) (ChainState.best_height (chain_state n)) (pending_blocks n))).1
  else n.

(** The header of the block is on the active chain at or below the tip. *)
Definition already_connected (n : Node) (hash : hash256) : bool :=
  match known_header (node_index n) hash with
  | Some sh => (sh_height sh <=? ChainState.best_height (chain_state n)) && bool_decide (index_hash (node_index n) (sh_height sh) = Some hash)
  | None => false
  end.

(** [t1], [t2], [t3] are readings of the clock by the statistics;
    [orphan_due] tells that the last request for an orphan's headers is more
    than five seconds old. *)
Definition handle_received_block (t1 t2 t3 : Z) (orphan_due : bool) (genesis_hash : hash256) (peer : PeerId) (block : Block)
    (raw : option bytes) (n : Node) : Node :=
  let hash := block_hash (header block) in
  let n := set_sync n (block_received t1 t2 t3 hash peer (match raw with Some b => len b | None => 0 end) (block_sync n)) in
  let prev := prev_blockhash (header block) in
  let tip := ChainState.best_hash (chain_state n) in
  let tip_height := ChainState.best_height (chain_state n) in
  let n :=
    if negb (bool_decide (prev = tip)) && synced (header_sync n)
       && negb (is_catching_up tip_height (header_tip_or n (HeaderSync.best_height (header_sync n)))) && orphan_due
    then add_commands n [SendGetHeaders peer (build_locator_from genesis_hash tip tip_height (header_sync n))]
    else n in
  if already_connected n hash then n
  else
    let q := default [] (pending_blocks n !! prev) in
    if existsb (fun e => bool_decide (block_hash (header e.1) = hash)) q then n
    else evict_pending (set_pending n (<[prev := q ++ [(block, raw)]]> (pending_blocks n))).

(** ** Reorganisation *)

(** The walk from the best header down to the height of the tip. *)
Fixpoint ancestor_walk (hi : HeaderIndex) (count : nat) (hash : hash256) : option hash256 :=
  match count with
  | O => Some hash
  | S count =>
      match get_header hi hash with
      | Ok (Some s) => ancestor_walk hi count (prev_blockhash (sh_header s))
      | _ => None
      end
  end.

Definition on_best_chain (hi : HeaderIndex) (hs : HeaderSync) (c : ChainState) : bool :=
  if ChainState.best_height c <=? HeaderSync.best_height hs then
    bool_decide (ancestor_walk hi (Z.to_nat (HeaderSync.best_height hs - ChainState.best_height c)) (HeaderSync.best_hash hs)
                 = Some (ChainState.best_hash c))
  else false.

(** The hashes of the best header chain by height, down to just below
    [floor]; the last height reached is included. *)
Fixpoint best_chain_walk (hi : HeaderIndex) (floor : Z) (fuel : nat) (hash : hash256) (height : Z) (m : gmap Z hash256) : gmap Z hash256 :=
  if (floor <=? height) && (0 <? height) then
    let m := <[height := hash]> m in
    match fuel with
    | O => m
    | S fuel =>
        match get_header hi hash with
        | Ok (Some s) => best_chain_walk hi floor fuel (prev_blockhash (sh_header s)) (height - 1) m
        | _ => m
        end
    end
  else <[height := hash]> m.

(** The height of the best header bounds the number of steps. *)
Definition best_chain_hashes (hi : HeaderIndex) (hs : HeaderSync) (cs_height : Z) : gmap Z hash256 :=
  best_chain_walk hi (sat_sub cs_height 100) (Z.to_nat (HeaderSync.best_height hs)) (HeaderSync.best_hash hs) (HeaderSync.best_height hs) ∅.

Definition fix_mapping (hi : HeaderIndex) (p : Z * hash256) : HeaderIndex :=
  if bool_decide (index_hash hi p.1 = Some p.2) then hi
  else match get_header hi p.2 with
       | Ok (Some stored) => (insert_headers_batch [(p.2, stored)] hi).1
       | _ => hi
       end.

(** The block of the tip, if it can be read. *)
Definition read_tip (hash : hash256) (c : ChainState) : ChainState * option Block :=
  match get_header (ChainState.header_index c) hash with
  | Ok (Some _) => let '(c, raw) := read_raw hash c in (c, raw ≫= deserialize_block)
  | _ => (c, None)
  end.

(** The undo record alone takes the tip back. *)
Definition rollback_tip (hash : hash256) (height : Z) (c : ChainState) : ChainState * list ReorgEvent * bool :=
  match rollback_block hash (utxo_set c) with
  | (u, Ok prev_hash) =>
      let c := set_tip (set_utxo c u) (sat_sub height 1) prev_hash in
      ((on_utxo (set_pending_flush_height (ChainState.best_height c) prev_hash) c).1, [RolledBack height hash prev_hash], true)
  | (u, Err e) => (set_utxo c u, [RollbackFailed height hash e], false)
  end.

(** The tip is disconnected, by its block or else by its undo record; the
    flag is false when neither works. *)
Definition disconnect_tip (c : ChainState) : ChainState * list ReorgEvent * bool :=
  let hash := ChainState.best_hash c in
  let height := ChainState.best_height c in
  let '(c, block) := read_tip hash c in
  match block with
  | Some block =>
      match disconnect_block block height c with
      | (c, Ok _) => (c, [Disconnected height hash], true)
      | (c, Err e) => let '(c, log, ok) := rollback_tip hash height c in (c, DisconnectFailed height e :: log, ok)
      end
  | None => rollback_tip hash height c
  end.

(** [while reorg_height > 0]; every round that goes on lowers the height. *)
Fixpoint disconnect_loop (best_chain : gmap Z hash256) (fuel : nat) (reorg_height : Z) (c : ChainState) (log : list ReorgEvent) :
    outcome (ChainState * list ReorgEvent * bool) :=
  if 0 <? reorg_height then
    if bool_decide (best_chain !! reorg_height = Some (ChainState.best_hash c)) then Done (c, log, true)
    else
      match fuel with
      | O => OutOfFuel
      | S fuel =>
          let '(c, events, ok) := disconnect_tip c in
          if ok : bool then disconnect_loop best_chain fuel (ChainState.best_height c) c (log ++ events)
          else Done (c, log ++ events, false)
      end
  else Done (c, log, true).

Definition flush_logged (c : ChainState) : ChainState * list ReorgEvent :=
  match flush_to_disk (utxo_set c) with
  | (u, Ok _) => (set_utxo c u, [])
  | (u, Err e) => (set_utxo c u, [FlushFailed e])
  end.

(** Disconnects down to the best header chain; the fuel is the height. *)
Definition disconnect_to_fork (best_chain : gmap Z hash256) (c : ChainState) : outcome (ChainState * list ReorgEvent * bool) :=
  let height := ChainState.best_height c in
  let '(c, log) := flush_logged c in
  match disconnect_loop best_chain (Z.to_nat height) height c log with
  | Done (c, log, true) => let '(c, events) := flush_logged c in Done (c, log ++ events, true)
  | r => r
  end.

(** The next blocks of the new chain are scheduled. *)
Definition request_branch (now : Z) (best_chain : gmap Z hash256) (n : Node) : Node :=
  let start := ChainState.best_height (chain_state n) + 1 in
  let stop := HeaderSync.best_height (header_sync n) in
  let hashes := hashes_between (node_index n) best_chain start (Z.min stop (start + BLOCK_FETCH_HEIGHT_SPAN)) in
  if bool_decide (hashes = []) then n
  else
    let n := set_sync n (schedule hashes (block_sync n)) in
    assign_among now (eligible_now n) n.

(** The validated chain leaves its branch for the best header chain. *)
Definition reorganise (now : Z) (n : Node) : outcome (Node * list ReorgEvent) :=
  let c := chain_state n in
  let s := block_sync n in
  let n := set_sync n (set_core s (queue s) ∅ (peer_requests s)) in
  let n := set_reorg_from n (Some (ChainState.best_hash c, ChainState.best_height c)) in
  let best_chain := best_chain_hashes (node_index n) (header_sync n) (ChainState.best_height c) in
  let n := set_node_index n (foldl fix_mapping (node_index n) (iter_heights best_chain)) in
  match disconnect_to_fork best_chain (chain_state n) with
  | OutOfFuel => OutOfFuel
  | Done (c, log, ok) =>
      let n := set_node_index (set_chain n c) (ChainState.header_index c) in
      if ok : bool then
        let n := set_pending (share_tip n) ∅ in
        let n := set_sync n (clear_queues (block_sync n)) in
        Done (request_branch now best_chain n, log)
      else Done (n, log)
  end.

(** A best header chain with an invalid block is given up. *)
Definition reset_to_chain (n : Node) : Node :=
  let hash := ChainState.best_hash (chain_state n) in
  let height := ChainState.best_height (chain_state n) in
  let n := quiet_index (restore_branch_height_index hash) n in
  let n := quiet_index (reset_fork_header_tip height hash) n in
  let n := set_headers n (HeaderSync.set_best (header_sync n) height hash (header_work (node_index n) hash)) in
  let s := block_sync n in set_sync n (set_core s (queue s) ∅ (peer_requests s)).

(** The chain is ahead of header synchronisation after local mining. *)
Definition follow_local_chain (n : Node) : Node :=
  let hash := ChainState.best_hash (chain_state n) in
  let height := ChainState.best_height (chain_state n) in
  if height >? HeaderSync.best_height (header_sync n)
  then quiet_index (set_header_tip hash height) (set_header_best n height hash)
  else n.

(** After headers were accepted. *)
Definition check_reorg (now : Z) (n : Node) : outcome (Node * list ReorgEvent) :=
  let n := follow_local_chain n in
  let c := chain_state n in
  if on_best_chain (node_index n) (header_sync n) c || negb (0 <? ChainState.best_height c) then Done (n, [])
  else
    match first_invalid_ancestor (node_index n) (HeaderSync.best_hash (header_sync n)) (ChainState.best_height c) 10000 with
    | Ok (Some _) => Done (reset_to_chain n, [])
    | _ => reorganise now n
    end.

(** [if new_h > peer.start_height] on the first entry of the peer. *)
Fixpoint raise_start_height (peer : PeerId) (height : Z) (l : list DownloadPeer) : list DownloadPeer :=
  match l with
  | [] => []
  | p :: r =>
      if dp_id p =? peer
      then (if height >? dp_start_height p then mkDownloadPeer (dp_id p) height (dp_network p) (dp_network_limited p) else p) :: r
      else p :: raise_start_height peer height r
  end.

(** A headers message up to the reorganisation check; [Err] is the rejection
    of [process_headers]. *)
Definition handle_headers (now : Z) (peer : PeerId) (headers : list Header) (n : Node) :
    Node * result (option HeaderSyncError) (outcome (list ReorgEvent)) :=
  let block_height := ChainState.best_height (chain_state n) in
  let '(hs, r) := process_headers headers block_height (HeaderSync.set_index (header_sync n) (node_index n)) in
  let n := set_node_index (set_headers n hs) (HeaderSync.header_index hs) in
  match r with
  | Err e => (n, Err e)
  | Ok accepted =>
      if 0 <? accepted then
        let n := set_headers n (reset_unconnecting peer (header_sync n)) in
        let n := set_peers n (raise_start_height peer (HeaderSync.best_height (header_sync n)) (shared_peers n)) in
        match check_reorg now n with
        | Done (n, log) => (n, Ok (Done log))
        | OutOfFuel => (n, Ok OutOfFuel)
        end
      else (n, Ok (Done []))
  end.

(** ** Peers that leave or do not have a block *)

Definition handle_peer_disconnected (now : Z) (peer : PeerId) (n : Node) : Node :=
  let n := set_headers n (reset_unconnecting peer (header_sync n)) in
  let n := set_peers n (filter (fun p => dp_id p <> peer) (shared_peers n)) in
  let n := set_sync n (peer_disconnected peer (block_sync n)) in
  if bool_decide (queue (block_sync n) = []) || bool_decide (eligible_now n = []) then n
  else assign_among now (eligible_now n) n.

(** A refused block that nobody else has: asked for again if it is on the
    best header chain, forgotten otherwise. *)
Definition handle_abandoned (acc : Node * bool) (hash : hash256) : Node * bool :=
  let '(n, rescheduled) := acc in
  let on_chain :=
    match get_header (node_index n) hash with
    | Ok (Some stored) => bool_decide (index_hash (node_index n) (sh_height stored) = Some hash)
    | _ => false
    end in
  if on_chain then (set_sync n (schedule [hash] (block_sync n)), true)
  else (set_pending n (delete hash (pending_blocks n)), rescheduled).

Definition handle_notfound (now : Z) (peer : PeerId) (block_hashes : list hash256) (n : Node) : Node :=
  if bool_decide (block_hashes = []) then n
  else
    let block_h := ChainState.best_height (chain_state n) in
    let live_peers := count_eligible_download_peers (shared_peers n) block_h (header_tip_or n block_h) in
    let '(s, requeued, abandoned) := blocks_not_found peer block_hashes live_peers (block_sync n) in
    let '(n, rescheduled) := foldl handle_abandoned (set_sync n s, false) abandoned in
    if (length abandoned <? requeued)%nat || rescheduled then
      let peer_ids := filter (fun id => id <> peer) (eligible_now n) in
      if bool_decide (peer_ids = []) then n else assign_among now peer_ids n
    else n.
End Node.
