(* ===== verification/NodeProofs.v ===== *)
(** * Properties of the node

    A reorganisation disconnects exactly the blocks above the point where the
    validated chain meets the best header chain, and leaves the coins of the
    part they share.  A block that a peer delivers in a mutated form, or too
    early, is lost for good. *)

From Stdlib Require Import ZArith Lia.
From stdpp Require Import base option numbers list gmap strings sorting.
From S2P Require Import Prelude Bytes U256 Types ScriptBytes Signatures Merkle Consensus Validation Store HeaderIndex HeaderProofs TxIndex BlockStore Bip110 UtxoSet UtxoProofs SplitMonitor BlockSync HeaderSync HeaderSyncProofs ChainState ChainProofs ReorgProofs NodeChain.

Section Node.
Context `{HH : Hashes} `{HSL : ScriptLib} `{HSg : SigLib} `{HT : TxLib} `{HO : OutPointOrd} `{HZ : TxSizes} `{HR : RocksDb} `{HL : !RocksLaws}
  `{HW : !RocksWal} `{HC : HeaderCodec} `{HCL : !HeaderCodecLaws} `{HF : BlockFiles} `{HFL : !BlockFilesLaws} `{HM : MapIter} `{HMI : !MapIterLaws}
  `{HRt : Runtime} `{HRL : !RuntimeLaws} `{HTI : TipIter} `{HSI : SyncIter} `{HB : BlockLib} `{HNI : NodeIter} `{HNL : !NodeIterLaws}.
Implicit Types c : ChainState.
Abbreviation hash_of block := (block_hash (header block)).

(** ** Blocks that stay readable *)

Definition pos_at (hi : HeaderIndex) (h : hash256) : option bytes := contents (hi_db hi) CF_BLOCK_POS h.

Lemma get_block_pos_at hi h d p : pos_at hi h = Some d -> get_block_pos hi h = Ok (Some p) -> p = deserialize_pos d.
Proof.
  unfold pos_at, get_block_pos, hi_get. intros Hd. destruct (negb _); [done|]. cbn [guard_err mbind result_bind].
  destruct (get_cf _ _ _) as [v|] eqn:Hv; [|done]. apply get_cf_contents in Hv as ->. rewrite Hd. cbn [mbind result_bind].
  destruct (_ =? _)%nat; [|done]. by intros [= <-].
Qed.

Lemma get_header_at hi h x : get_header hi h = Ok (Some x) -> header_at hi h = Some x.
Proof.
  unfold get_header, hi_get, header_at. destruct (negb _); [done|]. cbn [guard_err mbind result_bind].
  destruct (get_cf _ _ _) as [v|] eqn:Hv; [|done]. apply get_cf_contents in Hv as ->. cbn [mbind result_bind].
  destruct (contents _ _ _) as [d|]; [|done]. destruct (deserialize_stored d); [|done]. by intros [= <-].
Qed.

(** Positions are kept, and no header is lost. *)
Record index_frame (hi hi' : HeaderIndex) : Prop := {
  if_pos h : pos_at hi' h = pos_at hi h;
  if_head h : is_Some (header_at hi h) -> is_Some (header_at hi' h) }.

Definition store_frame c c' : Prop :=
  index_frame (ChainState.header_index c) (ChainState.header_index c') /\ same_views (block_store c) (block_store c').

(** No write to a block file has failed. *)
Definition nothing_lost c : Prop := lost_writes (block_store c) = false.

(** The block is in the block files, or queued for them, under its hash. *)
Definition readable c (block : Block) : Prop :=
  exists d raw, pos_at (ChainState.header_index c) (hash_of block) = Some d /\
    holds (block_store c) (deserialize_pos d) raw /\ deserialize_block raw = Some block.

Lemma index_frame_refl hi : index_frame hi hi.
Proof. by split. Qed.
Lemma index_frame_trans h1 h2 h3 : index_frame h1 h2 -> index_frame h2 h3 -> index_frame h1 h3.
Proof. intros [P1 Q1] [P2 Q2]. split; intros h; [by rewrite P2|auto]. Qed.
Lemma store_frame_refl c : store_frame c c.
Proof. split; [apply index_frame_refl|apply same_views_refl]. Qed.
Lemma store_frame_trans c1 c2 c3 : store_frame c1 c2 -> store_frame c2 c3 -> store_frame c1 c3.
Proof. intros [I1 V1] [I2 V2]. split; [by eapply index_frame_trans|by eapply same_views_trans]. Qed.
Lemma store_frame_lost c c' : store_frame c c' -> nothing_lost c' -> nothing_lost c.
Proof. intros [_ (_ & _ & Hv)] Hl. by apply Hv. Qed.

Lemma readable_frame c c' block : store_frame c c' -> nothing_lost c' -> readable c block -> readable c' block.
Proof.
  intros [[Hp Hh] (_ & _ & Hv)] Hl (d & raw & Hd & Hho & Hdes). destruct (Hv Hl) as [_ Hvw]. exists d, raw. rewrite Hp.
  split_and!; [done| |done]. eapply holds_extends; [|exact Hho]. intros n. exists []. by rewrite Hvw, app_nil_r.
Qed.

(** Operations of the index that touch neither headers nor positions. *)
Lemma write_frame ops hi :
  Forall (fun o => op_cf o <> CF_HEADERS /\ op_cf o <> CF_BLOCK_POS) ops -> index_frame hi (hi_write ops hi).1.
Proof.
  intros Ho. assert (Hk : keeps_headers (hi_write ops)) by (apply keeps_write; eapply Forall_impl; [exact Ho|]; naive_solver).
  split; [|intros h; by rewrite Hk]. intros h. unfold hi_write, pos_at. destruct (write (hi_db hi) ops) as [d [[]|e]] eqn:Hw; cbn [fst hi_db set_hi_db].
  - rewrite (write_applies _ _ _ Hw). apply apply_ops_other. eapply Forall_impl; [exact Ho|]. naive_solver.
  - by rewrite (write_atomic _ _ _ _ Hw).
Qed.

Definition frames {A} (m : stm ChainState CoreError A) : Prop := forall c, store_frame c (m c).1.

Lemma frames_bind {A B} (m : stm ChainState CoreError A) (f : A -> stm ChainState CoreError B) :
  frames m -> (forall a, frames (f a)) -> frames (m ≫= f).
Proof.
  intros Hm Hf c. specialize (Hm c). unfold mbind, stm_bind. destruct (m c) as [c' [a|e]]; [|done].
  eapply store_frame_trans; [exact Hm|apply Hf].
Qed.
Lemma frames_gets {A} (f : ChainState -> A) : frames (gets f).
Proof. intros c. apply store_frame_refl. Qed.
Lemma frames_lift {A} (r : CoreResult A) : frames (lift r).
Proof. intros c. apply store_frame_refl. Qed.
Lemma frames_ret {A} (a : A) : frames (mret a).
Proof. intros c. apply store_frame_refl. Qed.
Lemma frames_on_utxo {A} (m : stm UtxoSet StorageError A) : frames (on_utxo m).
Proof. intros c. unfold on_utxo. destruct (m _). split; [apply index_frame_refl|apply same_views_refl]. Qed.
Lemma frames_on_tx_index m : frames (on_tx_index m).
Proof. intros c. unfold on_tx_index. destruct (tx_index c); [destruct (m _)|]; (split; [apply index_frame_refl|apply same_views_refl]). Qed.
Lemma frames_set_tip h x : frames (modify (fun c => set_tip c h x)).
Proof. intros c. split; [apply index_frame_refl|apply same_views_refl]. Qed.
Lemma frames_on_index {A} (m : stm HeaderIndex StorageError A) : (forall hi, index_frame hi (m hi).1) -> frames (on_index m).
Proof. intros Hm c. unfold on_index. specialize (Hm (ChainState.header_index c)). destruct (m _). split; [done|apply same_views_refl]. Qed.

Lemma delete_height_frame h hi : index_frame hi (delete_height_entry h hi).1.
Proof.
  unfold delete_height_entry, mbind, stm_bind, hi_cf. destruct (negb _); cbn [guard_err]; [apply index_frame_refl|].
  apply write_frame. by repeat constructor.
Qed.
Lemma set_best_tip_frame h n hi : index_frame hi (set_best_tip h n hi).1.
Proof.
  unfold set_best_tip, mbind, stm_bind, hi_cf. destruct (negb _); cbn [guard_err]; [apply index_frame_refl|].
  apply write_frame. by repeat constructor.
Qed.

Lemma disconnect_frames block height : frames (disconnect_block block height).
Proof.
  unfold disconnect_block. repeat (apply frames_bind; [|intros ?]);
    repeat first [apply frames_gets | apply frames_lift | apply frames_on_utxo | apply frames_on_tx_index | apply frames_set_tip].
  - repeat case_match; first [apply frames_ret | apply frames_on_index; apply delete_height_frame].
  - apply frames_on_index, set_best_tip_frame.
Qed.

(** ** Reading the block of the tip *)

Lemma read_tip_frame hash c : store_frame c (read_tip hash c).1 /\ same_frame c (read_tip hash c).1.
Proof.
  unfold read_tip, read_raw. destruct (get_header _ _) as [[x|]|]; [|by split; [apply store_frame_refl|]..].
  destruct (get_block_pos _ _) as [[p|]|]; [|by split; [apply store_frame_refl|]..].
  pose proof (read_block_views p (block_store c)) as Hv. destruct (read_block p (block_store c)) as [bs res]. cbn in *.
  split; [|done]. split; [apply index_frame_refl|done].
Qed.

(** What is read under the hash of a stored block is the block. *)
Lemma read_tip_readable c block c' x :
  readable c block -> read_tip (hash_of block) c = (c', x) -> nothing_lost c' -> x = Some block \/ x = None.
Proof.
  intros (d & raw & Hd & Hho & Hdes). unfold read_tip, read_raw. destruct (get_header _ _) as [[y|]|]; [|by intros [= _ <-]; right..].
  destruct (get_block_pos _ _) as [[p|]|] eqn:Hp; [|by intros [= _ <-]; right..]. rewrite (get_block_pos_at _ _ _ _ Hd Hp).
  destruct (read_block _ _) as [bs res] eqn:Hr. intros [= <- <-] Hl.
  destruct (read_block_holds _ _ _ _ _ Hho Hr Hl) as [->|[[e ->] _]]; [left|by right]. exact Hdes.
Qed.

(** ** The loop of a reorganisation *)

(** The log reports trouble with the storage: a flush or a disconnection
    failed, or a block could not be read and its undo record was used alone. *)
Definition is_trouble (ev : ReorgEvent) : bool :=
  match ev with
  | FlushFailed _ | DisconnectFailed _ (Storage _) | RolledBack _ _ _ | RollbackFailed _ _ _ => true
  | _ => false
  end.
Definition storage_trouble (log : list ReorgEvent) : Prop := exists ev, ev ∈ log /\ is_trouble ev = true.

Lemma storage_trouble_app l1 l2 : storage_trouble l1 \/ storage_trouble l2 -> storage_trouble (l1 ++ l2).
Proof. intros [(ev & Hin & Ht)|(ev & Hin & Ht)]; exists ev; (split; [|done]); apply elem_of_app; auto. Qed.
Lemma storage_trouble_head ev l : is_trouble ev = true -> storage_trouble (ev :: l).
Proof. intros Ht. exists ev. split; [by left|done]. Qed.

Lemma rollback_tip_frame hash height c :
  store_frame c (rollback_tip hash height c).1.1 /\ storage_trouble (rollback_tip hash height c).1.2.
Proof.
  unfold rollback_tip. destruct (rollback_block hash (utxo_set c)) as [u [prev|e]];
    (split; [|by apply storage_trouble_head]); (split; [apply index_frame_refl|apply same_views_refl]).
Qed.

Lemma disconnect_tip_frame c : store_frame c (disconnect_tip c).1.1.
Proof.
  unfold disconnect_tip. destruct (read_tip_frame (ChainState.best_hash c) c) as [Hsf _].
  destruct (read_tip (ChainState.best_hash c) c) as [c1 [block|]]; cbn [fst] in Hsf.
  - pose proof (disconnect_frames block (ChainState.best_height c) c1) as Hf.
    destruct (disconnect_block block (ChainState.best_height c) c1) as [c2 [[]|e]]; cbn [fst] in Hf |- *; [by eapply store_frame_trans|].
    destruct (rollback_tip_frame (ChainState.best_hash c) (ChainState.best_height c) c2) as [Hr _].
    destruct (rollback_tip _ _ c2) as [[c3 log] ok]. eapply store_frame_trans; [exact Hsf|]. by eapply store_frame_trans.
  - destruct (rollback_tip_frame (ChainState.best_hash c) (ChainState.best_height c) c1) as [Hr _]. by eapply store_frame_trans.
Qed.

Lemma disconnect_tip_spec c0 c block rest :
  base_ok c0 -> history_inv c0 c (block :: rest) -> readable c block ->
  let '(c', log, ok) := disconnect_tip c in
  nothing_lost c' ->
  (log = [Disconnected (ChainState.best_height c) (hash_of block)] /\ ok = true /\ history_inv c0 c' rest) \/
  storage_trouble log.
Proof.
  intros Hbase Hinv Hread. pose proof (disconnect_tip_frame c) as Hall. unfold disconnect_tip in *.
  pose proof (hi_hash _ _ _ Hinv) as Htip. cbn [tip_hash] in Htip. rewrite Htip in *.
  destruct (read_tip_frame (hash_of block) c) as [Hsf Hfr]. pose proof (read_tip_readable c block) as Hrd.
  destruct (read_tip (hash_of block) c) as [c1 x]. cbn [fst] in Hsf, Hfr.
  destruct x as [block'|].
  2: { destruct (rollback_tip_frame (hash_of block) (ChainState.best_height c) c1) as [_ Ht]. destruct (rollback_tip _ _ c1) as [[c3 log] ok].
    intros _. by right. }
  pose proof (history_inv_frame c0 c c1 _ Hfr Hinv) as Hinv1. pose proof (history_inv_disconnect c0 Hbase c1 rest block Hinv1) as Hd.
  replace (ChainState.best_height c1) with (ChainState.best_height c) in Hd by (symmetry; apply Hfr). unfold wp in Hd.
  pose proof (disconnect_frames block' (ChainState.best_height c) c1) as Hf.
  destruct (decide (nothing_lost c1)) as [Hl1|Hl1].
  - destruct (Hrd c1 (Some block') Hread eq_refl Hl1) as [[= ->]|?]; [|done].
    destruct (disconnect_block block (ChainState.best_height c) c1) as [c2 [[]|e]]; cbn [fst snd] in Hd, Hf; [by left|].
    destruct Hd as [se ->]. destruct (rollback_tip _ _ c2) as [[c3 log] ok]. intros _. right. by apply storage_trouble_head.
  - destruct (disconnect_block block' (ChainState.best_height c) c1) as [c2 [[]|e]]; cbn [fst snd] in Hf.
    + intros Hl. destruct Hl1. by eapply store_frame_lost.
    + destruct (rollback_tip_frame (hash_of block) (ChainState.best_height c) c2) as [Hr _]. destruct (rollback_tip _ _ c2) as [[c3 log] ok].
      intros Hl. destruct Hl1. eapply store_frame_lost; [exact Hf|]. by eapply store_frame_lost.
Qed.

(** Every round that goes on lowers the height. *)
Definition keeps_height {A} (m : stm ChainState CoreError A) : Prop := forall c, ChainState.best_height (m c).1 = ChainState.best_height c.

Lemma keeps_keeps_height {A} (m : stm ChainState CoreError A) : keeps m -> keeps_height m.
Proof. intros Hm c. apply (Hm c). Qed.
Lemma keeps_height_utxo {A} (m : stm UtxoSet StorageError A) : keeps_height (on_utxo m).
Proof. intros c. unfold on_utxo. by destruct (m _). Qed.

Definition lowers {A} (m : stm ChainState CoreError A) (h : Z) : Prop := forall c a, (m c).2 = Ok a -> ChainState.best_height (m c).1 = h.

Lemma lowers_later {A B} (m : stm ChainState CoreError A) (f : A -> stm ChainState CoreError B) h :
  (forall a, lowers (f a) h) -> lowers (m ≫= f) h.
Proof. intros Hf c b. unfold mbind, stm_bind. destruct (m c) as [c' [a|e]]; [|done]. apply Hf. Qed.
Lemma lowers_now {A B} (m : stm ChainState CoreError A) (f : A -> stm ChainState CoreError B) h :
  lowers m h -> (forall a, keeps_height (f a)) -> lowers (m ≫= f) h.
Proof.
  intros Hm Hf c b. specialize (Hm c). unfold mbind, stm_bind. destruct (m c) as [c' [a|e]]; [|done]. intros _. rewrite Hf. by eapply Hm.
Qed.
Lemma keeps_height_bind {A B} (m : stm ChainState CoreError A) (f : A -> stm ChainState CoreError B) :
  keeps_height m -> (forall a, keeps_height (f a)) -> keeps_height (m ≫= f).
Proof.
  intros Hm Hf c. specialize (Hm c). unfold mbind, stm_bind. destruct (m c) as [c' [a|e]]; [|done]. cbn in Hm. by rewrite Hf.
Qed.

Lemma disconnect_lowers block height : lowers (disconnect_block block height) (sat_sub height 1).
Proof.
  unfold disconnect_block. do 9 (apply lowers_later; intros ?). apply lowers_now; [by intros c []|intros _].
  apply keeps_height_bind; [done|intros c]. apply keeps_height_bind.
  { repeat case_match; first [done | apply keeps_keeps_height, keeps_on_index]. }
  intros _. apply keeps_height_bind; [apply keeps_height_utxo|intros _]. apply keeps_height_bind; [done|intros c'].
  apply keeps_keeps_height, keeps_on_index.
Qed.

Lemma disconnect_tip_lowers c c' log : disconnect_tip c = (c', log, true) -> ChainState.best_height c' = sat_sub (ChainState.best_height c) 1.
Proof.
  assert (Hr : forall h c1 c2 log, rollback_tip h (ChainState.best_height c) c1 = (c2, log, true) ->
    ChainState.best_height c2 = sat_sub (ChainState.best_height c) 1).
  { intros h c1 c2 l. unfold rollback_tip. destruct (rollback_block _ _) as [u [p|e]]; [|done]. by intros [= <- _]. }
  unfold disconnect_tip. destruct (read_tip _ c) as [c1 [block|]]; [|apply Hr].
  pose proof (disconnect_lowers block (ChainState.best_height c) c1) as Hl.
  destruct (disconnect_block _ _ c1) as [c2 [[]|e]]; [intros [= <- _]; by eapply Hl|].
  specialize (Hr (ChainState.best_hash c) c2). destruct (rollback_tip _ _ c2) as [[c3 l] ok]. intros [= <- _ ->]. by eapply Hr.
Qed.

(** The height is enough fuel. *)
Lemma disconnect_loop_total best_chain : forall fuel c log,
  ChainState.best_height c <= Z.of_nat fuel ->
  exists c' log' ok, disconnect_loop best_chain fuel (ChainState.best_height c) c log = Done (c', log ++ log', ok) /\ store_frame c c'.
Proof.
  induction fuel as [|fuel IH]; intros c log Hf; cbn [disconnect_loop];
    (destruct (Z.ltb_spec 0 (ChainState.best_height c)); [|exists c, [], true; rewrite app_nil_r; split; [done|apply store_frame_refl]]);
    (case_bool_decide; [exists c, [], true; rewrite app_nil_r; split; [done|apply store_frame_refl]|]); [lia|].
  pose proof (disconnect_tip_frame c) as Hsf.
  destruct (disconnect_tip c) as [[c1 ev] ok] eqn:Hd. destruct ok; [|by exists c1, ev, false].
  apply disconnect_tip_lowers in Hd. destruct (IH c1 (log ++ ev)) as (c2 & l & ok & -> & Hsf2).
  - rewrite Hd. unfold sat_sub. lia.
  - exists c2, (ev ++ l), ok. rewrite app_assoc. split; [done|]. by eapply store_frame_trans.
Qed.

Section Fork.
Context (c0 : ChainState) (Hbase : base_ok c0) (Hgenesis : ChainState.best_height c0 = 0).
Context (best_chain : gmap Z hash256).

(** The chain and the best header chain have the same block, [j] blocks below
    the tip. *)
Definition agree (height : Z) (ch : list Block) (j : nat) : Prop :=
  best_chain !! (height - Z.of_nat j) = Some (tip_hash c0 (drop j ch)).

Definition disconnections (height : Z) (l : list Block) : list ReorgEvent :=
  imap (fun j b => Disconnected (height - Z.of_nat j) (hash_of b)) l.

Lemma disconnections_cons height b l :
  disconnections height (b :: l) = Disconnected height (hash_of b) :: disconnections (height - 1) l.
Proof.
  unfold disconnections. cbn [imap]. f_equal; [f_equal; lia|]. apply imap_ext. intros j x _. cbn. f_equal. lia.
Qed.

Definition loop_done c c' (ch : list Block) (d : nat) (log : list ReorgEvent) (ok : bool) : Prop :=
  store_frame c c' /\
  (nothing_lost c' ->
   storage_trouble log \/ ok = true /\ history_inv c0 c' (drop d ch) /\ log = disconnections (ChainState.best_height c) (take d ch)).

(** After trouble the loop goes on or stops, but it ends. *)
Lemma loop_aborted c c1 ch d log ev ok fuel :
  disconnect_tip c = (c1, ev, ok) -> store_frame c c1 -> storage_trouble ev \/ ~ nothing_lost c1 -> ChainState.best_height c <= Z.of_nat (S fuel) ->
  exists c' log' ok', (if ok : bool then disconnect_loop best_chain fuel (ChainState.best_height c1) c1 (log ++ ev) else Done (c1, log ++ ev, false)) =
    Done (c', log ++ log', ok') /\ loop_done c c' ch d log' ok'.
Proof.
  intros Hdt Hsf Hbad Hf.
  assert (Hend : forall c' l ok', store_frame c1 c' -> loop_done c c' ch d (ev ++ l) ok').
  { intros c' l ok' Hsf'. split; [by eapply store_frame_trans|]. intros Hl. left. apply storage_trouble_app. left.
    destruct Hbad as [?|Hn]; [done|]. destruct Hn. by eapply store_frame_lost. }
  destruct ok.
  - apply disconnect_tip_lowers in Hdt. destruct (disconnect_loop_total best_chain fuel c1 (log ++ ev)) as (c2 & l & ok & -> & Hsf2);
      [rewrite Hdt; unfold sat_sub; lia|]. exists c2, (ev ++ l), ok. rewrite app_assoc. by split; [|apply Hend].
  - exists c1, ev, false. split; [done|]. rewrite <- (app_nil_r ev). apply Hend, store_frame_refl.
Qed.

Lemma loop_done_now c ch : history_inv c0 c ch -> loop_done c c ch 0 [] true.
Proof. intros Hinv. split; [apply store_frame_refl|]. intros _. by right. Qed.

Lemma disconnect_loop_spec : forall ch c log fuel d,
  history_inv c0 c ch -> Forall (readable c) ch -> (length ch <= fuel)%nat -> (d <= length ch)%nat ->
  d = length ch \/ agree (ChainState.best_height c) ch d -> (forall j, (j < d)%nat -> ~ agree (ChainState.best_height c) ch j) ->
  exists c' log' ok, disconnect_loop best_chain fuel (ChainState.best_height c) c log = Done (c', log ++ log', ok) /\
    loop_done c c' ch d log' ok.
Proof.
  induction ch as [|block rest IH]; intros c log fuel d Hinv Hread Hfuel Hd Hstop Hmin; pose proof (hi_height _ _ _ Hinv) as Hh; rewrite Hgenesis in Hh.
  - assert (d = 0%nat) as -> by (cbn in Hd; lia). exists c, [], true. rewrite app_nil_r. split; [|by apply loop_done_now].
    destruct fuel; cbn [disconnect_loop]; by rewrite (proj2 (Z.ltb_ge _ _)) by (unfold len in Hh; cbn in Hh; lia).
  - rewrite len_cons in Hh. pose proof (len_nonneg rest). destruct fuel as [|fuel]; [cbn in Hfuel; lia|]. cbn [disconnect_loop].
    rewrite (proj2 (Z.ltb_lt _ _)) by lia. apply Forall_cons in Hread as [Hrb Hrest]. destruct d as [|d].
    { destruct Hstop as [?|Hag]; [done|]. unfold agree in Hag. rewrite Z.sub_0_r in Hag. cbn [drop] in Hag.
      rewrite (hi_hash _ _ _ Hinv), bool_decide_eq_true_2 by done. exists c, [], true. rewrite app_nil_r. split; [done|by apply loop_done_now]. }
    rewrite bool_decide_eq_false_2.
    2: { intros Hag. apply (Hmin 0%nat); [lia|]. unfold agree. cbn [drop]. rewrite Z.sub_0_r, <- (hi_hash _ _ _ Hinv). done. }
    pose proof (disconnect_tip_spec c0 c block rest Hbase Hinv Hrb) as Hs. pose proof (disconnect_tip_frame c) as Hsf.
    destruct (disconnect_tip c) as [[c1 ev] ok] eqn:Hdt. cbn [fst] in Hsf.
    destruct (decide (nothing_lost c1)) as [Hl1|Hl1]; [destruct (Hs Hl1) as [(-> & -> & Hinv1)|Hbad]|].
    + assert (Hh1 : ChainState.best_height c1 = ChainState.best_height c - 1) by (rewrite (hi_height _ _ _ Hinv1); lia).
      assert (Hag : forall j, agree (ChainState.best_height c1) rest j <-> agree (ChainState.best_height c) (block :: rest) (S j)).
      { intros j. unfold agree. cbn [drop]. replace (ChainState.best_height c - Z.of_nat (S j)) with (ChainState.best_height c1 - Z.of_nat j) by lia. done. }
      destruct (IH c1 (log ++ [Disconnected (ChainState.best_height c) (hash_of block)]) fuel d Hinv1) as (c2 & l & ok & -> & Hsf2 & Hr).
      * eapply Forall_impl; [exact Hrest|]. intros b. by apply readable_frame.
      * cbn in Hfuel. lia.
      * cbn in Hd. lia.
      * destruct Hstop as [Heq|Hg]; [left; cbn in Heq; lia|right; by apply Hag].
      * intros j Hj Hg%Hag. apply (Hmin (S j)); [lia|done].
      * eexists c2, (_ :: l), ok. rewrite <- app_assoc. split; [done|]. split; [by eapply store_frame_trans|]. intros Hl.
        destruct (Hr Hl) as [Hb|(-> & Hi & ->)].
        -- left. apply (storage_trouble_app [_]). by right.
        -- right. split_and!; [done|done|]. cbn [take]. rewrite disconnections_cons. by rewrite Hh1.
    + eapply loop_aborted; [exact Hdt|exact Hsf|by left|]. cbn in Hfuel. unfold len in Hh. lia.
    + eapply loop_aborted; [exact Hdt|exact Hsf|by right|]. cbn in Hfuel. unfold len in Hh. lia.
Qed.
End Fork.

(** ** The best header chain *)

Lemma best_chain_walk_lookup hi floor : forall fuel hash height m z,
  0 <= height <= Z.of_nat fuel -> is_Some (ancestor_walk hi (Z.to_nat height) hash) ->
  best_chain_walk hi floor fuel hash height m !! z =
  if (Z.min height (Z.max 0 (floor - 1)) <=? z) && (z <=? height) then ancestor_walk hi (Z.to_nat (height - z)) hash else m !! z.
Proof.
  assert (Hone : forall hash height (m : gmap Z hash256) z,
    <[height := hash]> m !! z = if (height <=? z) && (z <=? height) then ancestor_walk hi (Z.to_nat (height - z)) hash else m !! z).
  { intros hash height m z. destruct (decide (z = height)) as [->|Hne].
    - rewrite lookup_insert_eq, Z.leb_refl, Z.sub_diag. done.
    - rewrite lookup_insert_ne by done. destruct (Z.leb_spec height z), (Z.leb_spec z height); cbn; try done. lia. }
  induction fuel as [|fuel IH]; intros hash height m z Hh Hw; cbn [best_chain_walk];
    destruct (Z.leb_spec floor height), (Z.ltb_spec 0 height); cbn [andb]; try (rewrite Z.min_l by lia; apply Hone).
  rewrite Z.min_r by lia. replace (Z.to_nat height) with (S (Z.to_nat (height - 1))) in Hw by lia. cbn [ancestor_walk] in Hw.
  destruct (get_header hi hash) as [[s|]|] eqn:Hg; [|by destruct Hw|by destruct Hw].
  rewrite IH by (done || lia). replace (Z.min (height - 1) (Z.max 0 (floor - 1))) with (Z.max 0 (floor - 1)) by lia.
  destruct (Z.leb_spec (Z.max 0 (floor - 1)) z); cbn [andb]; [|by rewrite lookup_insert_ne by lia].
  destruct (Z.leb_spec z (height - 1)), (Z.leb_spec z height); try lia.
  - replace (Z.to_nat (height - z)) with (S (Z.to_nat (height - 1 - z))) by lia. cbn [ancestor_walk]. by rewrite Hg.
  - assert (z = height) as -> by lia. by rewrite lookup_insert_eq, Z.sub_diag.
  - by rewrite lookup_insert_ne by lia.
Qed.

Definition headers_wf (hi : HeaderIndex) : Prop :=
  forall h x, header_at hi h = Some x -> header_ok (sh_header x) /\ fits 32 (sh_height x) /\ length (chain_work x) = 32%nat.

(** Repairing the height index changes no header. *)
Lemma fix_mapping_headers hi p : headers_wf hi ->
  (forall h, header_at (fix_mapping hi p) h = header_at hi h) /\ forall h, pos_at (fix_mapping hi p) h = pos_at hi h.
Proof.
  intros Hwf. unfold fix_mapping. case_bool_decide; [done|]. destruct (get_header hi p.2) as [[x|]|] eqn:Hg; [|done|done].
  pose proof (get_header_at _ _ _ Hg) as Hk.
  unfold insert_headers_batch, mbind, stm_bind, hi_cf, hi_write. do 2 (destruct (negb _); cbn [guard_err]; [done|]). cbn [map concat app].
  unfold header_at, pos_at. destruct (write (hi_db hi) _) as [d [[]|e]] eqn:Hw; cbn [fst hi_db set_hi_db];
    [|split; intros h; by rewrite (write_atomic _ _ _ _ Hw)].
  split; intros h; rewrite (write_applies _ _ _ Hw); [|by rewrite apply_ops_other by (repeat constructor; naive_solver)].
  destruct (decide (h = p.2)) as [->|Hne].
  - rewrite (apply_ops_agree _ _ _ _ (Some (serialize_stored x))).
    + fold (header_at hi p.2). rewrite Hk. destruct (Hwf p.2 x) as (H1 & H2 & H3); [done|]. by rewrite stored_roundtrip.
    + exists (header_put (p.2, x)). split_and!; [|done|done]. apply elem_of_cons. by left.
    + intros o [->|[->|[]%not_elem_of_nil]%elem_of_cons]%elem_of_cons; done.
  - rewrite apply_ops_other; [done|]. repeat constructor; cbn; naive_solver.
Qed.

Lemma fix_mappings_frame l : forall hi, headers_wf hi -> index_frame hi (foldl fix_mapping hi l).
Proof.
  induction l as [|p l IH]; intros hi Hwf; [apply index_frame_refl|]. cbn [foldl]. destruct (fix_mapping_headers hi p Hwf) as [Hh Hp].
  eapply index_frame_trans; [|apply IH; intros h x; rewrite Hh; apply Hwf]. split; intros h; [done|by rewrite Hh].
Qed.

Lemma flush_logged_spec c0 c ch :
  history_inv c0 c ch ->
  let '(c', log) := flush_logged c in ChainState.best_height c' = ChainState.best_height c /\ (storage_trouble log \/ log = [] /\ history_inv c0 c' ch).
Proof.
  intros [Hu Hp Hh Hb Hco Hun Hbk]. unfold flush_logged. pose proof (flush_spec (utxo_set c) Hu) as Hf. unfold wp in Hf.
  destruct (flush_to_disk (utxo_set c)) as [u [[]|e]]; cbn [fst snd] in Hf; (split; [done|]).
  - right. split; [done|]. destruct Hf as (Hu' & Hc' & _ & Hk%undo_flushed_kept).
    destruct (undo_kept_ready _ _ _ Hun Hk) as [Hr Hd]. split; [done|done|done|done|intros k; cbn; by rewrite Hc'|done|].
    apply (chain_backed_ext c0 (utxo_set c)); [|done]. intros h _. apply Hd.
  - left. by apply storage_trouble_head.
Qed.

Lemma flush_logged_frame c : store_frame c (flush_logged c).1 /\ ChainState.best_height (flush_logged c).1 = ChainState.best_height c.
Proof.
  unfold flush_logged. destruct (flush_to_disk (utxo_set c)) as [u [[]|e]]; (split; [|done]); (split; [apply index_frame_refl|apply same_views_refl]).
Qed.

(** The end is always reached. *)
Lemma disconnect_to_fork_total best_chain c :
  exists c' log ok, disconnect_to_fork best_chain c = Done (c', log, ok) /\ store_frame c c'.
Proof.
  unfold disconnect_to_fork. destruct (flush_logged_frame c) as [Hsf Hh]. destruct (flush_logged c) as [c1 log1]. cbn [fst] in *.
  destruct (disconnect_loop_total best_chain (Z.to_nat (ChainState.best_height c)) c1 log1) as (c2 & log2 & ok & Hrun & Hsf2); [lia|].
  rewrite Hh in Hrun. rewrite Hrun. destruct ok; [|eexists _, _, _; split; [done|]; by eapply store_frame_trans].
  destruct (flush_logged_frame c2) as [Hsf3 _]. destruct (flush_logged c2) as [c3 ev]. eexists _, _, _. split; [done|].
  eapply store_frame_trans; [exact Hsf|]. by eapply store_frame_trans.
Qed.

Definition fork_done c0 c c' (ch : list Block) (d : nat) (log : list ReorgEvent) (ok : bool) : Prop :=
  nothing_lost c' ->
  storage_trouble log \/ ok = true /\ history_inv c0 c' (drop d ch) /\ log = disconnections (ChainState.best_height c) (take d ch).

Lemma disconnect_to_fork_spec c0 best_chain c ch d :
  base_ok c0 -> ChainState.best_height c0 = 0 -> history_inv c0 c ch -> Forall (readable c) ch -> (d <= length ch)%nat ->
  d = length ch \/ agree c0 best_chain (ChainState.best_height c) ch d ->
  (forall j, (j < d)%nat -> ~ agree c0 best_chain (ChainState.best_height c) ch j) ->
  exists c' log ok, disconnect_to_fork best_chain c = Done (c', log, ok) /\ fork_done c0 c c' ch d log ok.
Proof.
  intros Hbase Hg Hinv Hread Hd Hstop Hmin. unfold disconnect_to_fork. pose proof (flush_logged_spec c0 c ch Hinv) as Hfl.
  destruct (flush_logged_frame c) as [Hsf Hh1]. pose proof (hi_height _ _ _ Hinv) as Hh. rewrite Hg in Hh. unfold len in Hh.
  destruct (flush_logged c) as [c1 log1]. cbn [fst] in *. destruct Hfl as (_ & Hfl).
  assert (Hlast : forall c2 log2 (ok : bool), exists c' log ok',
    match Done (c2, log1 ++ log2, ok) with
    | Done (c, log, true) => let '(c, events) := flush_logged c in Done (c, log ++ events, true)
    | r => r
    end = Done (c', (log1 ++ log2) ++ log, ok') /\ (ok = false -> log = [] /\ c' = c2 /\ ok' = false) /\
    (ok = true -> ok' = true /\ (c', log) = flush_logged c2)).
  { intros c2 log2 [|]; [destruct (flush_logged c2) as [c3 ev]; exists c3, ev, true; by split_and!|].
    exists c2, [], false. rewrite app_nil_r. by split_and!. }
  destruct (decide (nothing_lost c1)) as [Hl1|Hl1].
  2: { destruct (disconnect_loop_total best_chain (Z.to_nat (ChainState.best_height c)) c1 log1) as (c2 & log2 & ok & Hrun & Hsf2); [lia|].
    rewrite Hh1 in Hrun. rewrite Hrun. destruct (Hlast c2 log2 ok) as (c' & log & ok' & -> & Hn & Hy). eexists _, _, _. split; [done|].
    intros Hl. destruct Hl1. eapply store_frame_lost; [exact Hsf2|]. destruct ok; [|by destruct (Hn eq_refl) as (_ & -> & _)].
    destruct (Hy eq_refl) as [_ Hfl2]. destruct (flush_logged_frame c2) as [Hsf3 _]. rewrite <- Hfl2 in Hsf3. by eapply store_frame_lost. }
  destruct Hfl as [Hbad|[-> Hinv1]].
  - destruct (disconnect_loop_total best_chain (Z.to_nat (ChainState.best_height c)) c1 log1) as (c2 & log2 & ok & Hrun & _); [lia|].
    rewrite Hh1 in Hrun. rewrite Hrun. destruct (Hlast c2 log2 ok) as (c' & log & ok' & -> & _). eexists _, _, _. split; [done|].
    intros _. left. apply storage_trouble_app. left. apply storage_trouble_app. by left.
  - destruct (disconnect_loop_spec c0 Hbase Hg best_chain ch c1 [] (Z.to_nat (ChainState.best_height c)) d) as (c2 & log2 & ok & Hrun & Hsf2 & Hr).
    + done.
    + eapply Forall_impl; [exact Hread|]. intros b. by apply readable_frame.
    + lia.
    + done.
    + by rewrite Hh1.
    + by rewrite Hh1.
    + rewrite Hh1 in Hrun. rewrite Hrun. destruct (Hlast c2 log2 ok) as (c' & log & ok' & -> & Hn & Hy). eexists _, _, _. split; [done|]. cbn [app].
      intros Hl. destruct ok.
      * destruct (Hy eq_refl) as [-> Hfl2]. destruct (flush_logged_frame c2) as [Hsf3 _]. pose proof (flush_logged_spec c0 c2 (drop d ch)) as Hf2.
        rewrite <- Hfl2 in Hsf3, Hf2. destruct (Hr (store_frame_lost _ _ Hsf3 Hl)) as [Hbad|(_ & Hinv2 & ->)]; [left; apply storage_trouble_app; by left|].
        destruct (Hf2 Hinv2) as [_ [Hbad|[-> Hinv3]]]; [left; apply storage_trouble_app; by right|right]. by rewrite app_nil_r, Hh1.
      * destruct (Hn eq_refl) as (-> & -> & ->). destruct (Hr Hl) as [Hbad|[? _]]; [left; by rewrite app_nil_r|done].
Qed.

(** The chain of the node and the best header chain have the same block, [j]
    blocks below the tip of the chain. *)
Definition shared (c0 : ChainState) (n : Node) (ch : list Block) (j : nat) : Prop :=
  ancestor_walk (node_index n) (Z.to_nat (HeaderSync.best_height (header_sync n) - (ChainState.best_height (chain_state n) - Z.of_nat j)))
    (HeaderSync.best_hash (header_sync n)) = Some (tip_hash c0 (drop j ch)).

(** The node before a reorganisation: a validated history whose blocks are on
    disk, and headers down to the genesis block. *)
Record reorg_ready (c0 : ChainState) (n : Node) (ch : list Block) : Prop := {
  rr_base : base_ok c0;
  rr_genesis : ChainState.best_height c0 = 0;
  rr_history : history c0 (chain_state n) ch;
  rr_disk : Forall (readable (chain_state n)) ch;
  rr_headers : headers_wf (node_index n);
  rr_below : ChainState.best_height (chain_state n) <= HeaderSync.best_height (header_sync n);
  rr_walk : is_Some (ancestor_walk (node_index n) (Z.to_nat (HeaderSync.best_height (header_sync n))) (HeaderSync.best_hash (header_sync n))) }.

(** The node on the part [ch] of its chain. *)
Record reorganised (c0 : ChainState) (n n' : Node) (ch : list Block) : Prop := {
  rd_hash : ChainState.best_hash (chain_state n') = tip_hash c0 ch;
  rd_height : ChainState.best_height (chain_state n') = len ch;
  rd_coins k : coins (utxo_set (chain_state n')) k = chain_coins (coins (utxo_set c0)) 0 ch k;
  rd_shared : shared_best n' = (len ch, tip_hash c0 ch);
  rd_pending : pending_blocks n' = ∅;
  rd_from : last_reorg_from n' = Some (ChainState.best_hash (chain_state n), ChainState.best_height (chain_state n)) }.

Lemma agree_shared c0 n ch j :
  reorg_ready c0 n ch -> (j <= length ch)%nat ->
  agree c0 (best_chain_hashes (node_index n) (header_sync n) (ChainState.best_height (chain_state n))) (ChainState.best_height (chain_state n)) ch j
  <-> (j <= 101)%nat /\ shared c0 n ch j.
Proof.
  intros Hr Hj. pose proof (hi_height _ _ _ (history_sound c0 (rr_base _ _ _ Hr) _ _ (rr_history _ _ _ Hr))) as Hh.
  pose proof (rr_below _ _ _ Hr). rewrite (rr_genesis _ _ _ Hr) in Hh. unfold len in Hh. unfold agree, shared, best_chain_hashes.
  rewrite best_chain_walk_lookup by (apply (rr_walk _ _ _ Hr) || lia). rewrite lookup_empty. unfold sat_sub.
  destruct (Z.leb_spec (Z.min (HeaderSync.best_height (header_sync n)) (Z.max 0 (Z.max 0 (ChainState.best_height (chain_state n) - 100) - 1)))
    (ChainState.best_height (chain_state n) - Z.of_nat j)); cbn [andb].
  - rewrite (proj2 (Z.leb_le _ _)) by lia. split; [intros ->; split; [lia|done]|by intros [_ ->]].
  - split; [done|]. intros [? _]. lia.
Qed.

Lemma request_branch_chain now best_chain n :
  chain_state (request_branch now best_chain n) = chain_state n /\ shared_best (request_branch now best_chain n) = shared_best n /\
  pending_blocks (request_branch now best_chain n) = pending_blocks n /\ last_reorg_from (request_branch now best_chain n) = last_reorg_from n.
Proof. unfold request_branch. case_bool_decide; [done|]. unfold assign_among. by destruct (assign_to_peers _ _ _). Qed.

Lemma reorganise_spec c0 n ch d now :
  reorg_ready c0 n ch -> (d <= length ch)%nat -> d = length ch \/ (d <= 101)%nat /\ shared c0 n ch d ->
  (forall j, (j < d)%nat -> (j <= 101)%nat -> ~ shared c0 n ch j) ->
  exists n' log, reorganise now n = Done (n', log) /\
    (nothing_lost (chain_state n') ->
     storage_trouble log \/
     reorganised c0 n n' (drop d ch) /\ log = disconnections (ChainState.best_height (chain_state n)) (take d ch)).
Proof.
  intros Hr Hd Hstop Hmin. pose proof (history_sound c0 (rr_base _ _ _ Hr) _ _ (rr_history _ _ _ Hr)) as Hinv. unfold reorganise.
  set (bc := best_chain_hashes _ _ _). set (hi := foldl fix_mapping _ _).
  set (c1 := chain_state (set_node_index _ hi)).
  assert (Hsf : store_frame (chain_state n) c1) by (split; [apply fix_mappings_frame, Hr|apply same_views_refl]).
  destruct (decide (nothing_lost c1)) as [Hl1|Hl1].
  2: { destruct (disconnect_to_fork_total bc c1) as (c2 & log & ok & -> & Hsf2).
    destruct ok; eexists _, _; (split; [done|]); intros Hl; destruct Hl1; apply (store_frame_lost c1 c2 Hsf2); [|exact Hl].
    match type of Hl with nothing_lost (chain_state (request_branch ?nw ?b ?m)) => destruct (request_branch_chain nw b m) as (E1 & _) end.
    by rewrite E1 in Hl. }
  destruct (disconnect_to_fork_spec c0 bc c1 ch d) as (c2 & log & ok & -> & Hres).
  - apply Hr.
  - apply Hr.
  - by apply (history_inv_frame c0 (chain_state n)).
  - eapply Forall_impl; [exact (rr_disk _ _ _ Hr)|]. intros b. by apply readable_frame.
  - done.
  - destruct Hstop as [?|Hs]; [by left|right]. by apply (agree_shared c0 n ch d Hr Hd).
  - intros j Hj [H1 H2]%(agree_shared c0 n ch j Hr); [|lia]. by apply (Hmin j).
  - destruct ok; [|eexists _, _; (split; [done|]); intros Hl; destruct (Hres Hl) as [?|[? _]]; [by left|done]].
    eexists _, _. split; [done|].
    match goal with |- context [request_branch ?nw ?b ?m] => destruct (request_branch_chain nw b m) as (E1 & E2 & E3 & E4) end.
    intros Hl. rewrite E1 in Hl. destruct (Hres Hl) as [?|(_ & Hi & ->)]; [by left|right]. split; [|done].
    pose proof (hi_height _ _ _ Hi) as Hh. rewrite (rr_genesis _ _ _ Hr) in Hh. cbn [Z.add] in Hh.
    split; rewrite ?E1, ?E2, ?E3, ?E4; cbn; [apply Hi|done| | |done|done].
    + intros k. rewrite (hi_coins _ _ _ Hi). by rewrite (rr_genesis _ _ _ Hr).
    + by rewrite Hh, (hi_hash _ _ _ Hi).
Qed.


(** A fork deeper than 101 blocks is not found: the whole chain is
    disconnected, down to the genesis block, however much of it the best
    header chain shares. *)
Lemma deep_fork_disconnects_all c0 n ch now :
  reorg_ready c0 n ch -> (forall j, (j <= 101)%nat -> ~ shared c0 n ch j) ->
  exists n' log, reorganise now n = Done (n', log) /\
    (nothing_lost (chain_state n') -> storage_trouble log \/ reorganised c0 n n' [] /\ length log = length ch).
Proof.
  intros Hr Hmin. destruct (reorganise_spec c0 n ch (length ch) now Hr) as (n' & log & Hrun & Hres); [done|by left|by auto|].
  exists n', log. split; [done|]. intros Hl. destruct (Hres Hl) as [?|[Hd ->]]; [by left|right]. rewrite drop_all in Hd. split; [done|].
  unfold disconnections. rewrite length_imap, length_take. lia.
Qed.

(** ** Blocks that are refused *)

(** The markers of invalid blocks, in memory and on disk, stay. *)
Definition same_marks (hi hi' : HeaderIndex) : Prop :=
  invalid_set hi' = invalid_set hi /\ forall k, contents (hi_db hi') CF_INVALID k = contents (hi_db hi) CF_INVALID k.
Definition keeps_marks {A} (m : stm HeaderIndex StorageError A) : Prop := forall hi, same_marks hi (m hi).1.

Lemma same_marks_refl hi : same_marks hi hi.
Proof. done. Qed.
Lemma same_marks_trans h1 h2 h3 : same_marks h1 h2 -> same_marks h2 h3 -> same_marks h1 h3.
Proof. intros [S1 C1] [S2 C2]. split; [congruence|]. intros k. by rewrite C2. Qed.

Lemma keeps_marks_bind {A B} (m : stm HeaderIndex StorageError A) (f : A -> stm HeaderIndex StorageError B) :
  keeps_marks m -> (forall a, keeps_marks (f a)) -> keeps_marks (m ≫= f).
Proof.
  intros Hm Hf hi. specialize (Hm hi). unfold mbind, stm_bind. destruct (m hi) as [hi' [a|e]]; [|done].
  eapply same_marks_trans; [exact Hm|apply Hf].
Qed.
Lemma keeps_marks_pure {A} (g : HeaderIndex -> result StorageError A) : keeps_marks (fun hi => (hi, g hi)).
Proof. done. Qed.
Lemma keeps_marks_write ops : Forall (fun o => op_cf o <> CF_INVALID) ops -> keeps_marks (hi_write ops).
Proof.
  intros Ho hi. unfold hi_write. destruct (write (hi_db hi) ops) as [d [[]|e]] eqn:Hw; (split; [done|]); intros k; cbn.
  - rewrite (write_applies _ _ _ Hw). apply apply_ops_other. eapply Forall_impl; [exact Ho|]. naive_solver.
  - by rewrite (write_atomic _ _ _ _ Hw).
Qed.

Lemma restore_loop_cf hi : forall fuel h x batch fixed b f,
  restore_loop hi fuel h x batch fixed = Ok (b, f) -> Forall (fun o => op_cf o <> CF_INVALID) batch -> Forall (fun o => op_cf o <> CF_INVALID) b.
Proof.
  induction fuel as [|fuel IH]; intros h x batch fixed b f; cbn [restore_loop]; destruct (get_hash_at_height _ _) as [ex|]; cbn [mbind result_bind]; try done;
    (case_bool_decide; [by intros [= <- <-]|]);
    (assert (Hput : Forall (fun o => op_cf o <> CF_INVALID) batch ->
       Forall (fun o => op_cf o <> CF_INVALID) (batch ++ [Put CF_HEIGHT_INDEX (to_be 4 (sh_height x)) h]))
       by (intros Hb; apply Forall_app; split; [done|by repeat constructor]));
    (destruct (sh_height x =? 0); [intros [= <- <-]; exact Hput|]); destruct (get_header _ _) as [[y|]|]; cbn [mbind result_bind]; try done.
  destruct (_ <? _); [|done]. intros Hr Hb. by eapply IH, Hput.
Qed.

Lemma restore_keeps_marks h : keeps_marks (restore_branch_height_index h).
Proof.
  unfold restore_branch_height_index. do 4 (apply keeps_marks_bind; [apply keeps_marks_pure|intros ?]). intros hi.
  unfold mbind, stm_bind, lift. destruct (restore_loop _ _ _ _ _ _) as [[b f]|e] eqn:Hr; [|done].
  pose proof (keeps_marks_write b ltac:(by eapply restore_loop_cf) hi) as Hk. by destruct (hi_write b hi) as [hi' [[]|e]].
Qed.
Lemma set_header_tip_marks h n : keeps_marks (set_header_tip h n).
Proof. unfold set_header_tip. apply keeps_marks_bind; [apply keeps_marks_pure|intros _]. apply keeps_marks_write. by repeat constructor. Qed.
Lemma reset_keeps_marks h n : keeps_marks (reset_fork_header_tip n h).
Proof.
  unfold reset_fork_header_tip. do 3 (apply keeps_marks_bind; [apply keeps_marks_pure|intros ?]).
  apply keeps_marks_bind; [|intros _; apply set_header_tip_marks]. apply keeps_marks_write, Forall_app. split; [|by repeat constructor].
  destruct (_ >? _); [|constructor]. apply Forall_forall. by intros o (z & -> & _)%list_elem_of_fmap.
Qed.
Lemma marked_keeps_marks h n hi st : same_marks hi (on_invalid_marked h n hi st).1.
Proof.
  assert (H1 : forall b, keeps_marks (set_split_rival_tips b))
    by (intros b; unfold set_split_rival_tips; apply keeps_marks_bind; [apply keeps_marks_pure|intros _]; apply keeps_marks_write; by repeat constructor).
  assert (H2 : keeps_marks clear_split_rival_tips)
    by (unfold clear_split_rival_tips; apply keeps_marks_bind; [apply keeps_marks_pure|intros _]; apply keeps_marks_write; by repeat constructor).
  unfold on_invalid_marked, persist_rivals. destruct (rival_tips st !! h); [done|]. cbn [fst]. case_bool_decide; [apply H2|apply H1].
Qed.

(** The block is marked, in memory and on disk. *)
Definition marked (hi : HeaderIndex) (hash : hash256) : Prop :=
  is_invalid hi hash = true /\ is_Some (contents (hi_db hi) CF_INVALID hash).

Lemma marked_same hi hi' hash : same_marks hi hi' -> marked hi hash -> marked hi' hash.
Proof. intros [Hs Hc] [Hi Hd]. unfold marked, is_invalid. by rewrite Hs, Hc. Qed.

Lemma mark_invalid_marks h n r hi : (mark_invalid h n r hi).2 = Ok tt -> marked (mark_invalid h n r hi).1 h.
Proof.
  unfold mark_invalid, mbind, stm_bind, hi_cf, hi_write, flush_wal, modify. destruct (negb _); [done|]. cbn [guard_err].
  destruct (write (hi_db hi) _) as [d [[]|e]] eqn:Hw; [|done]. cbn [hi_db set_hi_db]. destruct (db_flush_wal d); [|done]. intros _. split.
  - apply bool_decide_eq_true_2. cbn. apply elem_of_union. left. by apply elem_of_singleton.
  - cbn. rewrite (write_applies _ _ _ Hw). unfold apply_ops. cbn. unfold apply_op. cbn. rewrite bool_decide_eq_true_2 by done. by eexists.
Qed.

(** The database takes a marker for the block. *)
Definition marker_written (n : Node) (hash : hash256) : Prop :=
  forall height reason, (mark_invalid hash height reason (node_index n)).2 = Ok tt.

Lemma recover_stays clock c :
  let c' := (recover_from_invalid_branch clock None c).1 in
  same_marks (ChainState.header_index c) (ChainState.header_index c') /\
  ChainState.best_hash c' = ChainState.best_hash c /\ ChainState.best_height c' = ChainState.best_height c /\ utxo_set c' = utxo_set c.
Proof.
  unfold recover_from_invalid_branch. set (c1 := quiet_chain _ (quiet_chain _ c)).
  assert (Hh : ChainState.best_height c1 = ChainState.best_height c) by done. rewrite Hh, Z.gtb_ltb, Z.ltb_irrefl. cbn [fst].
  split_and!; [|done|done|done]. unfold c1, quiet_chain. cbn [ChainState.header_index ChainState.set_index].
  eapply same_marks_trans; [apply restore_keeps_marks|apply reset_keeps_marks].
Qed.

Lemma abandon_marks clock hash height error n :
  last_reorg_from n = None -> marker_written n hash ->
  let n' := abandon_branch clock hash height error n in
  marked (node_index n') hash /\ ChainState.best_hash (chain_state n') = ChainState.best_hash (chain_state n) /\
  ChainState.best_height (chain_state n') = ChainState.best_height (chain_state n) /\ utxo_set (chain_state n') = utxo_set (chain_state n).
Proof.
  intros Hf Hw. unfold abandon_branch. set (n1 := quiet_index _ n). set (n2 := set_failures n1 _). set (n3 := match _ with Some _ => _ | None => _ end).
  assert (H3 : marked (node_index n3) hash /\ last_reorg_from n3 = None /\ chain_state n3 = ChainState.set_index (chain_state n) (node_index n3)).
  { assert (Hm : marked (node_index n1) hash) by (apply mark_invalid_marks, Hw).
    unfold n3. destruct (split_monitor (header_sync n2)) as [m|]; [|by split_and!].
    pose proof (marked_keeps_marks hash height (node_index n2) m) as Hk. destruct (on_invalid_marked _ _ _ m) as [hi m']. cbn in Hk.
    split_and!; [|done|done]. by eapply marked_same. }
  destruct H3 as (Hi & Hl & Hc). rewrite Hl. pose proof (recover_stays clock (chain_state n3)) as Hr.
  destruct (recover_from_invalid_branch clock None (chain_state n3)) as [c [[th hh] w]]. cbn in Hr |- *.
  destruct Hr as (R1 & R2 & R3 & R4). rewrite Hc in R2, R3, R4. split_and!; [|done|done|done]. by eapply marked_same.
Qed.

(** The next block of the chain is at the front of the buffer, its header is
    the expected one, and no reorganisation is under way. *)
Record next_up (n : Node) (block : Block) (raw : option bytes) : Prop := {
  nu_front : exists rest, pop_pending (ChainState.best_hash (chain_state n)) (pending_blocks n) = Some ((block, raw), rest);
  nu_expected : index_hash (node_index n) (u32 (ChainState.best_height (chain_state n) + 1)) ∈ [None; Some (hash_of block)];
  nu_fresh : is_invalid (node_index n) (hash_of block) = false;
  nu_settled : last_reorg_from n = None }.

(** The block of this hash is dropped, whatever its bytes and the time; the
    marker on disk has it dropped after a restart as well. *)
Definition refused (n : Node) (hash : hash256) : Prop :=
  (forall now block raw, hash_of block = hash -> exists h e, connect_attempt now block raw (chain_state n) = (chain_state n, Stale h e)) /\
  is_Some (contents (hi_db (node_index n)) CF_INVALID hash).

Lemma marked_refused n hash : marked (node_index n) hash -> refused n hash.
Proof.
  intros [Hi Hd]. split; [|done]. intros now block raw <-. unfold connect_attempt. destruct (_ && _); [eauto|]. unfold node_index in Hi. rewrite Hi. eauto.
Qed.

Lemma rejected_is_lost now clock n block raw e :
  next_up n block raw -> marker_written n (hash_of block) -> is_consensus_invalid e = true ->
  (connect_block_with_raw now block (u32 (ChainState.best_height (chain_state n) + 1)) raw (chain_state n)) = (chain_state n, Err e) ->
  let n' := (drain_one now clock n).1 in
  ChainState.best_hash (chain_state n') = ChainState.best_hash (chain_state n) /\ refused n' (hash_of block).
Proof.
  intros [[rest Hpop] Hexp Hfresh Hset] Hmark He Hrun. unfold drain_one. rewrite Hpop. unfold connect_attempt. cbn [chain_state set_pending].
  replace (bool_decide (is_Some _) && _) with false.
  2: { symmetry. unfold node_index in Hexp. apply andb_false_iff. apply elem_of_cons in Hexp as [->|Hexp]; [by left|].
       apply list_elem_of_singleton in Hexp as ->. right. by rewrite bool_decide_eq_true_2. }
  unfold node_index in Hfresh. rewrite Hfresh, Hrun, He. cbn [fst].
  match goal with |- context [abandon_branch _ _ ?h ?er ?m] => destruct (abandon_marks clock (hash_of block) h er m) as (H1 & H2 & _); [exact Hset|exact Hmark|] end.
  split; [exact H2|]. apply marked_refused, H1.
Qed.

(** The parent header that the validation of a block sees. *)
Definition parent_of c (block : Block) (height : Z) : CoreResult (option StoredHeader) :=
  if 0 <? height then lift_storage (get_header (ChainState.header_index c) (prev_blockhash (header block))) else Ok None.

Lemma connect_header_first now block height raw c :
  connect_block_with_raw now block height raw c =
  match parent_of c block height with
  | Ok p => match validate_block_header (header block) height (sh_header <$> p) (params c) now with
            | Ok _ => match verify_merkle_root_with_txids block (map compute_txid (txdata block)) with
                      | Ok _ => connect_block_with_raw now block height raw c
                      | Err e => (c, Err e)
                      end
            | Err e => (c, Err e)
            end
  | Err e => (c, Err e)
  end.
Proof.
  unfold parent_of, connect_block_with_raw, validate_block, mbind, stm_bind, read_index, gets, lift.
  destruct (0 <? height); [destruct (lift_storage _) as [p|]; [|done]|]; cbn [mret stm_ret]; (destruct (validate_block_header _ _ _ _ _); [|done]);
    by destruct (verify_merkle_root_with_txids _ _).
Qed.

(** A twice repeated transaction is taken for a mutated tree, whatever the
    root in the header. *)
Lemma repeated_tx_rejected h tx :
  exists msg, verify_merkle_root_with_txids (mkBlock h [tx; tx]) (map compute_txid [tx; tx]) = Err (InvalidTransaction msg).
Proof.
  unfold verify_merkle_root_with_txids. cbn [map].
  rewrite (root_detecting_mutation_tree [compute_txid tx; compute_txid tx] 1); [|done|unfold len; cbn; lia|split; cbn; lia].
  cbn. rewrite (bool_decide_eq_true_2 (compute_txid tx = compute_txid tx) eq_refl). eauto.
Qed.

Lemma repeated_body_lost now clock n block tx raw valid_raw c' txids :
  next_up n (mkBlock (header block) [tx; tx]) raw -> marker_written n (hash_of block) ->
  connect_block_with_raw now block (u32 (ChainState.best_height (chain_state n) + 1)) valid_raw (chain_state n) = (c', Ok txids) ->
  let n' := (drain_one now clock n).1 in
  ChainState.best_hash (chain_state n') = ChainState.best_hash (chain_state n) /\ refused n' (hash_of block).
Proof.
  intros Hn Hmark Hok. rewrite connect_header_first in Hok. destruct (repeated_tx_rejected (header block) tx) as [msg Hmsg].
  apply (rejected_is_lost now clock n (mkBlock (header block) [tx; tx]) raw (InvalidTransaction msg)); [exact Hn|exact Hmark|done|]. rewrite connect_header_first.
  change (parent_of (chain_state n) (mkBlock (header block) [tx; tx])) with (parent_of (chain_state n) block). cbn [header txdata].
  destruct (parent_of _ _ _) as [p|e]; [|done]. destruct (validate_block_header _ _ _ _ _); [|done]. cbn [map] in Hmsg |- *. by rewrite Hmsg.
Qed.

(** C40: A forged body makes the node refuse a valid block: when the header of the
    next block arrives first with a body of two copies of any transaction, and
    no reorganisation is under way, it is rejected as a consensus violation and
    the block hash is marked invalid in memory and on disk, if the database
    takes the marker.  In the state after that every block with this hash is
    dropped unread, the valid one included, and so it is until the marker is
    removed. *)
Theorem forged_body_poisons_block now clock n block tx raw valid_raw c' txids :
  next_up n (mkBlock (header block) [tx; tx]) raw -> marker_written n (hash_of block) ->
  connect_block_with_raw now block (u32 (ChainState.best_height (chain_state n) + 1)) valid_raw (chain_state n) = (c', Ok txids) ->
  let n' := (drain_one now clock n).1 in
  ChainState.best_hash (chain_state n') = ChainState.best_hash (chain_state n) /\ refused n' (hash_of block).
Proof. apply repeated_body_lost. Qed.

(** A block that arrives before its time is lost: the node finds its time stamp
    more than two hours ahead of its clock, marks the hash invalid, and drops
    the block later when its time has come. *)
Theorem early_block_lost now later clock n block raw c' txids :
  next_up n block raw -> marker_written n (hash_of block) -> fits 32 (now + 2 * 60 * 60) -> 0 <= now -> now + 2 * 60 * 60 < time (header block) ->
  connect_block_with_raw later block (u32 (ChainState.best_height (chain_state n) + 1)) raw (chain_state n) = (c', Ok txids) ->
  let n' := (drain_one now clock n).1 in
  ChainState.best_hash (chain_state n') = ChainState.best_hash (chain_state n) /\ refused n' (hash_of block).
Proof.
  intros Hn Hmark Hfit Hnow Htime Hok. rewrite connect_header_first in Hok.
  apply (rejected_is_lost now clock n block raw (InvalidTimestamp "block time is more than 2 hours in the future")); [done|done|done|].
  rewrite connect_header_first. destruct (parent_of _ _ _) as [p|e]; [|done]. destruct (validate_block_header _ _ _ _ later) eqn:Hv; [|done].
  unfold validate_block_header in *. destruct (negb _ && _); cbn [guard_err mbind result_bind] in *; [done|].
  destruct (target_gt _ _); cbn [guard_err mbind result_bind] in *; [done|]. destruct (match sh_header <$> p with Some _ => _ | None => _ end); [|done].
  cbn [mbind result_bind] in *. unfold fits in Hfit. rewrite (Z.max_l now), (wrap_small 32 now), (wrap_small 32 (now + _)) by (unfold fits; lia).
  by rewrite Z.gtb_ltb, (proj2 (Z.ltb_lt _ _) Htime).
Qed.

(** ** The buffer of blocks that wait for their parent *)

Section Buffer.
(** A size in memory. *)
Hypothesis size_nonneg : forall b, 0 <= block_total_size b.

Abbreviation Buffer := (gmap hash256 (list (Block * option bytes))).

Lemma entry_size_nonneg e : 0 <= pending_entry_size e.
Proof. unfold pending_entry_size. destruct e as [b [raw|]]; cbn; [apply len_nonneg|apply size_nonneg]. Qed.
Lemma queue_bytes_nonneg q : 0 <= queue_bytes q.
Proof. induction q as [|e q IH]; cbn; [lia|]. pose proof (entry_size_nonneg e). unfold queue_bytes in IH. lia. Qed.

Lemma buffer_sum_perm (l l' : list (hash256 * list (Block * option bytes))) :
  l ≡ₚ l' -> foldr (fun q s => queue_bytes q.2 + s) 0 l = foldr (fun q s => queue_bytes q.2 + s) 0 l'.
Proof. induction 1; cbn; lia. Qed.

Lemma pending_total_delete (p : Buffer) k q : p !! k = Some q -> pending_total_bytes p = queue_bytes q + pending_total_bytes (delete k p).
Proof.
  intros Hk. unfold pending_total_bytes. rewrite (buffer_sum_perm _ ((k, q) :: map_to_list (delete k p))).
  - cbn. f_equal. apply buffer_sum_perm. by rewrite iter_pending_perm.
  - rewrite iter_pending_perm. rewrite <- (insert_delete_id p k q Hk) at 1. apply map_to_list_insert, lookup_delete_eq.
Qed.

Lemma pending_total_nonneg (p : Buffer) : 0 <= pending_total_bytes p.
Proof.
  unfold pending_total_bytes. induction (iter_pending p) as [|x l IH]; cbn; [lia|]. pose proof (queue_bytes_nonneg x.2). lia.
Qed.

Lemma evicted_bytes q : forall r, queue_bytes q <= r -> foldl (fun r e => sat_sub r (pending_entry_size e)) r q = r - queue_bytes q.
Proof.
  induction q as [|e q IH]; intros r Hr; cbn in *; [lia|]. pose proof (entry_size_nonneg e). pose proof (queue_bytes_nonneg q).
  unfold queue_bytes in *. rewrite IH by (unfold sat_sub; lia). unfold sat_sub. lia.
Qed.

Lemma unmarked q : forall s h, h ∈ received (foldl unmark_received s q) <-> h ∈ received s /\ forall e, e ∈ q -> hash_of (e.1) <> h.
Proof.
  induction q as [|e q IH]; intros s h; cbn [foldl]; [split; [intros ?; split; [done|]; by intros e ?%not_elem_of_nil|by intros [? _]]|].
  rewrite IH. unfold unmark_received at 1. cbn. rewrite elem_of_difference, elem_of_singleton. split.
  - intros [[H1 H2] H3]. split; [done|]. intros e' [->|He']%elem_of_cons; [by intros <-|by apply H3].
  - intros [H1 H2]. split_and!; [done| |].
    + intros ->. by apply (H2 e); [apply elem_of_cons; left|].
    + intros e' He'. apply H2, elem_of_cons. by right.
Qed.

(** After the eviction over the keys [l]: [done] are the keys it took. *)
Record evicted (n : Node) (target : Z) (l done : list (hash256 * option Z)) (acc : Node * Z) : Prop := {
  ev_rest : acc.2 = pending_total_bytes (pending_blocks acc.1);
  ev_prefix : exists rest, l = done ++ rest /\ (rest = [] \/ acc.2 <= target);
  ev_map k : pending_blocks acc.1 !! k = if decide (k ∈ map fst done) then None else pending_blocks n !! k;
  ev_needed : pending_blocks acc.1 = pending_blocks n \/
    exists k q, pending_blocks n !! k = Some q /\ pending_blocks acc.1 !! k = None /\ target < acc.2 + queue_bytes q;
  ev_received h : h ∈ received (block_sync acc.1) ->
    forall k q e, k ∈ map fst done -> pending_blocks n !! k = Some q -> e ∈ q -> hash_of (e.1) <> h }.

Lemma evict_step n target l done acc x :
  evicted n target l done acc -> exists done', evicted n target (l ++ [x]) done' (evict_one target acc x).
Proof.
  destruct acc as [m r]. intros [E1 (rest & -> & Hrest) E3 E5 E4]. cbn [fst snd] in *. unfold evict_one.
  destruct (Z.leb_spec r target) as [Hr|Hr].
  { exists done. split; [done| |done|done|done]. exists (rest ++ [x]). rewrite app_assoc. auto. }
  destruct Hrest as [->|?]; [|lia]. exists (done ++ [x]).
  assert (Hin : forall k, k ∈ map fst (done ++ [x]) <-> k ∈ map fst done \/ k = x.1).
  { intros k. rewrite map_app, elem_of_app. cbn. by rewrite list_elem_of_singleton. }
  destruct (pending_blocks m !! x.1) as [q|] eqn:Hq.
  - split; cbn.
    + rewrite evicted_bytes; rewrite E1, (pending_total_delete _ _ _ Hq); pose proof (pending_total_nonneg (delete x.1 (pending_blocks m))); lia.
    + exists []. rewrite !app_nil_r. auto.
    + intros k. destruct (decide (k = x.1)) as [->|Hne]; [rewrite lookup_delete_eq, decide_True; [done|apply Hin; by right]|].
      rewrite lookup_delete_ne, E3 by done. destruct (decide (k ∈ map fst done)); [by rewrite decide_True by (apply Hin; by left)|].
      rewrite decide_False; [done|]. intros [?|?]%Hin; congruence.
    + right. exists x.1, q. rewrite lookup_delete_eq. split_and!; [|done|].
      * rewrite E3 in Hq. by destruct (decide _).
      * rewrite evicted_bytes; [lia|]. rewrite E1, (pending_total_delete _ _ _ Hq). pose proof (pending_total_nonneg (delete x.1 (pending_blocks m))). lia.
    + intros h [H1 H2]%unmarked k q' e [Hk| ->]%Hin Hq' He; [by apply (E4 h H1 k q')|]. apply H2.
      rewrite E3 in Hq. destruct (decide _); [done|]. congruence.
  - split; cbn; [done|exists []; rewrite !app_nil_r; auto| | |].
    + intros k. rewrite E3. destruct (decide (k ∈ map fst done)); [by rewrite decide_True by (apply Hin; by left)|].
      destruct (decide (k = x.1)) as [->|Hne]; [rewrite decide_True by (apply Hin; by right); by rewrite E3, decide_False in Hq|].
      rewrite decide_False; [done|]. intros [?|?]%Hin; congruence.
    + done.
    + intros h Hh k q' e [Hk| ->]%Hin Hq' He; [by apply (E4 h Hh k q')|]. rewrite E3, Hq' in Hq. destruct (decide _); [|done]. by apply (E4 h Hh x.1 q').
Qed.

Lemma evict_all n target l :
  exists done, evicted n target l done (foldl (evict_one target) (n, pending_total_bytes (pending_blocks n)) l).
Proof.
  induction l as [|x l [done IH]] using rev_ind.
  - exists []. split; cbn; [done|exists []; auto|done|by left|]. by intros h _ k q e ?%not_elem_of_nil.
  - rewrite foldl_snoc. by eapply evict_step.
Qed.

Lemma insert_key_perm rank k l : insert_key rank k l ≡ₚ k :: l.
Proof. induction l as [|x l IH]; cbn; [done|]. destruct (_ <=? _); [|done]. rewrite IH. apply Permutation_swap. Qed.
Lemma sort_keys_perm rank l : sort_keys rank l ≡ₚ l.
Proof.
  unfold sort_keys. assert (Hg : forall acc, foldl (fun acc k => insert_key rank k acc) acc l ≡ₚ l ++ acc); [|by rewrite Hg, app_nil_r].
  induction l as [|x l IH]; intros acc; cbn; [done|]. rewrite IH, insert_key_perm. by rewrite Permutation_middle.
Qed.
Lemma insert_key_sorted rank k l :
  StronglySorted (fun a b => rank a <= rank b) l -> StronglySorted (fun a b => rank a <= rank b) (insert_key rank k l).
Proof.
  induction 1 as [|x l Hs IH Hx]; cbn; [by repeat constructor|]. destruct (Z.leb_spec (rank x) (rank k)).
  - constructor; [done|]. rewrite insert_key_perm. by constructor.
  - constructor; [by constructor|]. constructor; [lia|]. eapply Forall_impl; [exact Hx|]. cbn. lia.
Qed.
Lemma sort_keys_sorted rank l : StronglySorted (fun a b => rank a <= rank b) (sort_keys rank l).
Proof.
  unfold sort_keys. assert (Hg : forall acc, StronglySorted (fun a b => rank a <= rank b) acc ->
    StronglySorted (fun a b => rank a <= rank b) (foldl (fun acc k => insert_key rank k acc) acc l)); [|apply Hg; constructor].
  induction l as [|x l IH]; intros acc Ha; cbn; [done|]. by apply IH, insert_key_sorted.
Qed.

Lemma elem_of_evict_keys (hi : HeaderIndex) (tip : hash256) (th : Z) (p : Buffer) (x : hash256 * option Z) :
  x ∈ evict_keys hi tip th p <-> x.1 <> tip /\ is_Some (p !! x.1) /\ x.2 = sh_height <$> known_header hi x.1.
Proof.
  unfold evict_keys. rewrite (sort_keys_perm _ _), list_elem_of_fmap. split.
  - intros (k & -> & Hk). apply list_elem_of_filter in Hk as [Hne Hk]. apply list_elem_of_fmap in Hk as ([k' q] & -> & Hin).
    rewrite iter_pending_perm in Hin. apply elem_of_map_to_list in Hin. cbn. eauto.
  - destruct x as [k h]. cbn. intros (Hne & [q Hq] & ->). exists k. split; [done|]. apply list_elem_of_filter. split; [done|].
    apply list_elem_of_fmap. exists (k, q). split; [done|]. rewrite iter_pending_perm. by apply elem_of_map_to_list.
Qed.

(** The order of eviction by the height of the parent, if it is known: blocks
    at or below the tip go first, then blocks with an unknown parent, then
    those furthest above the tip. *)
Definition goes_first (tip_height : Z) (gone kept : option Z) : Prop :=
  match gone with
  | Some g => g < tip_height \/ exists h, kept = Some h /\ tip_height <= h <= g
  | None => forall h, kept = Some h -> tip_height <= h
  end.
Definition parent_height (n : Node) (k : hash256) : option Z := sh_height <$> known_header (node_index n) k.

Lemma rank_goes_first tip_height gone kept :
  (forall h, gone = Some h \/ kept = Some h -> fits 32 h) ->
  evict_rank tip_height gone <= evict_rank tip_height kept -> goes_first tip_height gone kept.
Proof.
  intros Hf. unfold evict_rank, goes_first. destruct gone as [g|], kept as [h|]; unfold fits in Hf.
  - pose proof (Hf g (or_introl eq_refl)). pose proof (Hf h (or_intror eq_refl)).
    destruct (Z.ltb_spec g tip_height), (Z.ltb_spec h tip_height); intros Hle; [by left|by left|lia|right]. exists h. split; [done|lia].
  - pose proof (Hf g (or_introl eq_refl)). destruct (Z.ltb_spec g tip_height); intros Hle; [by left|lia].
  - intros Hle h' [= <-]. destruct (Z.ltb_spec h tip_height); lia.
  - by intros _ h' ?.
Qed.

(** C14: The buffer of waiting blocks is bounded and sheds the right ones.  Up to
    256 MiB nothing is evicted; beyond that, whole queues go until three
    quarters of it are left, or only the blocks that extend the tip, and not
    more than that takes; those blocks are never evicted; an evicted block can
    be scheduled again; and blocks at or below the tip go before those with an
    unknown parent, and these before the others, of which the highest go
    first.  Heights in the header index are 32-bit numbers and sizes are not
    negative. *)
Theorem pending_buffer_bounded n :
  (forall k x, known_header (node_index n) k = Some x -> fits 32 (sh_height x)) ->
  let n' := evict_pending n in
  let tip := ChainState.best_hash (chain_state n) in
  let target := MAX_PENDING_BYTES * 3 / 4 in
  (pending_total_bytes (pending_blocks n) <= MAX_PENDING_BYTES -> n' = n) /\
  (MAX_PENDING_BYTES < pending_total_bytes (pending_blocks n) ->
    (pending_total_bytes (pending_blocks n') <= target \/ forall k q, pending_blocks n' !! k = Some q -> k = tip) /\
    (pending_blocks n' = pending_blocks n \/ exists k q, pending_blocks n !! k = Some q /\ pending_blocks n' !! k = None /\
       target < pending_total_bytes (pending_blocks n') + queue_bytes q)) /\
  pending_blocks n' !! tip = pending_blocks n !! tip /\
  (forall k q e, pending_blocks n !! k = Some q -> pending_blocks n' !! k = None -> e ∈ q -> hash_of (e.1) ∉ received (block_sync n')) /\
  (forall k k' q q', k <> tip -> pending_blocks n' !! k = Some q -> pending_blocks n !! k' = Some q' -> pending_blocks n' !! k' = None ->
    goes_first (ChainState.best_height (chain_state n)) (parent_height n k') (parent_height n k)).
Proof.
  intros Hheights n' tip target. unfold n', evict_pending. rewrite Z.gtb_ltb.
  destruct (Z.ltb_spec MAX_PENDING_BYTES (pending_total_bytes (pending_blocks n))).
  2: { split_and!; [done|lia|done|intros; congruence|intros; congruence]. }
  set (keys := evict_keys _ _ _ _). fold target.
  destruct (evict_all n target keys) as [dn [E1 (rest & Hkeys & Hrest) E3 E5 E4]]. set (acc := foldl _ _ _) in *.
  assert (Hk : forall x, x ∈ keys <-> x.1 <> tip /\ is_Some (pending_blocks n !! x.1) /\ x.2 = sh_height <$> known_header (node_index n) x.1)
    by (intros x; apply elem_of_evict_keys).
  assert (Hgone : forall k q, pending_blocks n !! k = Some q -> pending_blocks acc.1 !! k = None -> k ∈ map fst dn).
  { intros k q Hq. rewrite E3. destruct (decide _); congruence. }
  assert (Hdn : forall k, k ∈ map fst dn -> exists x, x ∈ dn /\ x.1 = k /\ x ∈ keys).
  { intros k (x & -> & Hx)%list_elem_of_fmap. exists x. split_and!; [done|done|]. rewrite Hkeys. apply elem_of_app. by left. }
  split_and!; [lia| |..].
  - intros _. split; [|by rewrite <- E1]. destruct Hrest as [->|Hr]; [right|left; by rewrite <- E1]. intros k q. rewrite E3. destruct (decide _) as [|Hn]; [done|]. intros Hq.
    destruct (decide (k = tip)) as [|Hne]; [done|]. exfalso. apply Hn, list_elem_of_fmap.
    exists (k, sh_height <$> known_header (node_index n) k). split; [done|]. rewrite app_nil_r in Hkeys. rewrite <- Hkeys. apply Hk. eauto.
  - rewrite E3. destruct (decide _) as [(x & _ & Hx & Hin)%Hdn|]; [|done]. apply Hk in Hin as [Hne _]. congruence.
  - intros k q e Hq Hnone He Hrec. by apply (E4 _ Hrec k q e (Hgone _ _ Hq Hnone) Hq He).
  - intros k k' q q' Hne Hq Hq' Hnone. destruct (Hdn k' (Hgone _ _ Hq' Hnone)) as (x & Hx & <- & Hxk).
    rewrite E3 in Hq. destruct (decide _) as [|Hn]; [done|].
    assert (Hy : (k, sh_height <$> known_header (node_index n) k) ∈ keys) by (apply Hk; eauto).
    rewrite Hkeys in Hy. apply elem_of_app in Hy as [Hy|Hy]; [exfalso; apply Hn, list_elem_of_fmap; by exists (k, sh_height <$> known_header (node_index n) k)|].
    pose proof (sort_keys_sorted (fun k => evict_rank (ChainState.best_height (chain_state n)) k.2)
      (map (fun k => (k, sh_height <$> known_header (node_index n) k)) (filter (fun k => k <> tip) (map fst (iter_pending (pending_blocks n)))))) as Hs.
    change (sort_keys _ _) with keys in Hs. rewrite Hkeys in Hs.
    apply Hk in Hxk as (_ & _ & Hx2). unfold parent_height. rewrite <- Hx2. apply rank_goes_first.
    { intros h [Hh|Hh]; [rewrite Hx2 in Hh|]; apply fmap_Some in Hh as (z & Hz & ->); by eapply Hheights. }
    exact (StronglySorted_app_1_elem_of _ _ _ x (k, sh_height <$> known_header (node_index n) k) Hs Hx Hy).
Qed.
End Buffer.
End Node.

(** ** The theorems at concrete inputs *)

Section Examples.
#[local] Existing Instance Sample.hashes.
#[local] Existing Instance Sample.tx_lib.
#[local] Existing Instance Sample.sig_lib.
#[local] Existing Instance SampleScript.script_lib.
#[local] Existing Instance SampleDb.rocks.
#[local] Existing Instance SampleDb.laws.
#[local] Existing Instance SampleCodec.codec.
#[local] Existing Instance SampleCodec.laws.
#[local] Existing Instance SampleCodec.wal.
#[local] Existing Instance ValidationProofs.sample_ord.
#[local] Existing Instance UtxoProofs.sample_iter.
#[local] Existing Instance UtxoProofs.sample_iter_laws.
#[local] Existing Instance BlockStore.sample_files.
#[local] Existing Instance BlockStore.sample_files_laws.
#[local] Instance ex_sizes : TxSizes := {| total_size := fun _ => 60; varint_size := fun _ => 1 |}.
#[local] Instance ex_runtime : Runtime := {| sig_iter := elements; par_order := fun _ l => l |}.
#[local] Instance ex_runtime_laws : RuntimeLaws := {| par_order_perm := fun _ l => reflexivity l |}.
#[local] Instance ex_tips : TipIter := {| iter_tips := fun m => map snd (map_to_list m) |}.
#[local] Instance ex_sync : SyncIter := {| iter_requests := map_to_list; iter_hashes := elements; iter_bandwidth := map_to_list |}.
#[local] Instance ex_node : NodeIter := {| iter_heights := map_to_list; iter_pending := map_to_list |}.
#[local] Instance ex_node_laws : NodeIterLaws := {| iter_heights_perm := fun m => reflexivity _; iter_pending_perm := fun m => reflexivity _ |}.

(** Blocks with a coinbase only, by branch and height; branch 0 is the genesis
    block, and every branch starts above height [fork]. *)
Definition nx_coinbase (i : Z) : Transaction :=
  mkTransaction 2 0 [mkTxIn null_outpoint (if i <=? 16 then [0x50 + i; 0] else [1; i]) 0xffffffff []] [mkTxOut 1 [0x51]].
Definition nx_hash (branch i : Z) : hash256 := Sample.pad_to 32 [branch * 1000 + i; 100 + i].
Definition nx_prev (fork branch i : Z) : hash256 :=
  if i =? 1 then nx_hash 0 0 else if i =? fork + 1 then nx_hash 1 fork else nx_hash branch (i - 1).
Definition nx_header (fork branch i : Z) : Header :=
  mkHeader 4 (nx_prev fork branch i) (compute_txid (nx_coinbase i)) (100 + i) 0xffffffff (branch * 1000 + i).
Definition nx_block (fork branch i : Z) : Block := mkBlock (nx_header fork branch i) [nx_coinbase i].
Definition nx_genesis : Header := mkHeader 1 (replicate 32 0) (replicate 32 0) 100 0xffffffff 0.

#[local] Instance nx_lib : BlockLib := {|
  deserialize_block := fun raw => match raw with [b; i] => Some (nx_block 1 b i) | _ => None end;
  block_total_size := fun _ => 100 |}.

Definition nx_index : HeaderIndex :=
  (insert_header (block_hash nx_genesis) (mkStored nx_genesis 0 (replicate 32 0)) (mkHeaderIndex (∅ : gmap (string * bytes) bytes) ∅ 0)).1.
Definition nx_chain : ChainState :=
  chain_new regtest nx_index (from_db (∅ : gmap (string * bytes) bytes)) (mkBlockStore 1000000 0 0 (Some []) (∅ : gmap Z bytes) false) 0 (block_hash nx_genesis).
Definition nx_node : Node :=
  mkNode nx_chain (hsync_new regtest nx_index 0 (block_hash nx_genesis)) sync_new [mkDownloadPeer 7 1 true false] ∅ ∅ None (0, block_hash nx_genesis) [].

Definition nx_clock (i : nat) : Z := 1000.
Definition nx_headers (branch from : Z) (count : nat) (n : Node) : Node :=
  (handle_headers 0 7 (map (fun i => nx_header 1 branch (from + Z.of_nat i)) (seq 0 count)) n).1.
Definition nx_receive (branch i : Z) (n : Node) : Node :=
  handle_received_block 0 0 0 false (block_hash nx_genesis) 7 (nx_block 1 branch i) (Some [branch; i]) n.
Definition nx_drain (n : Node) : Node := (drain_one 1000 nx_clock n).1.

(** The headers of a branch, and its blocks delivered in order. *)
Definition nx_follow (branch from : Z) (count : nat) (n : Node) : Node :=
  foldl (fun n i => nx_drain (nx_receive branch (from + Z.of_nat i) n)) (nx_headers branch from count n) (seq 0 count).

Definition nx_tip (n : Node) : Z * hash256 := (ChainState.best_height (chain_state n), ChainState.best_hash (chain_state n)).

(** The third block of a rival branch arrives before the headers do. *)
Definition nx_early : Node := nx_receive 2 3 (nx_follow 1 1 2 nx_node).
Definition nx_switched : Node := nx_headers 2 2 3 nx_early.

(** A heavier branch behind a block marked invalid is stored; the mark is taken
    back and the tip of the branch is announced again. *)
Definition nx_marked : Node := quiet_index (mark_invalid (nx_hash 2 2) 2 INVALID_REASON_CONSENSUS) (nx_follow 1 1 3 nx_node).
Definition nx_cleared : Node := quiet_index (clear_invalid (nx_hash 2 2)) (nx_headers 2 2 4 nx_marked).
Definition nx_announced : Node := nx_headers 2 5 1 nx_cleared.

Definition nx_header_tip (n : Node) : Z * hash256 := (HeaderSync.best_height (header_sync n), HeaderSync.best_hash (header_sync n)).
Definition known_to (n : Node) (h : hash256) : bool :=
  bool_decide (h ∈ queue (block_sync n)) || bool_decide (is_Some (in_flight (block_sync n) !! h)) ||
  existsb (fun q => existsb (fun e => bool_decide (block_hash (header e.1) = h)) q.2) (map_to_list (pending_blocks n)).

(** A reorganisation loses buffered blocks: a block of the new branch that had
    already arrived is dropped from the buffer, but stays in [received], so
    the reorganisation requests the blocks around it and not the block
    itself; scheduling it again has no effect. *)
Theorem reorg_loses_buffered_block :
  known_to nx_early (nx_hash 2 3) = true /\ nx_tip nx_switched = (1, nx_hash 1 1) /\
  map (known_to nx_switched) [nx_hash 2 2; nx_hash 2 3; nx_hash 2 4] = [true; false; true] /\
  schedule [nx_hash 2 3] (block_sync nx_switched) = block_sync nx_switched.
Proof. vm_compute. by split_and!. Qed.

(** A branch adopted on re-announcement is not followed: header synchronisation
    moves to the heavier branch, but no new header was accepted, so the node
    does not reorganise and stays on its old chain. *)
Theorem readopted_branch_not_followed :
  nx_header_tip nx_announced = (5, nx_hash 2 5) /\ nx_tip nx_announced = (3, nx_hash 1 3) /\
  on_best_chain (node_index nx_announced) (header_sync nx_announced) (chain_state nx_announced) = false.
Proof. vm_compute. by split_and!. Qed.

(** One block of the node, and a rival branch of two headers. *)
Definition nx_first := connect_block_with_raw 1000 (nx_block 1 1 1) 1 (Some [1; 1]) nx_chain.
Definition nx_one : Node := set_node_index (set_header_best (set_chain nx_node nx_first.1) 1 (nx_hash 1 1)) (ChainState.header_index nx_first.1).
Definition nx_forked : Node :=
  let hs := (process_headers [nx_header 0 2 1; nx_header 0 2 2] 1 (header_sync nx_one)).1 in
  set_node_index (set_headers nx_one hs) (HeaderSync.header_index hs).

Lemma nx_base_ok : base_ok nx_chain.
Proof.
  unfold base_ok. split_and!; [|done|done|done|cbn; lia|].
  - split_and!; [|done|done|done]. by intros k data.
  - exists ∅. split; [done|]. vm_compute. congruence.
Qed.

Lemma node_frame n c h x hi hs hi' :
  same_frame c (chain_state (set_node_index (set_headers (set_node_index (set_header_best (set_chain n c) h x) hi) hs) hi')).
Proof. done. Qed.
Lemma nx_same_frame : same_frame nx_first.1 (chain_state nx_forked).
Proof. apply node_frame. Qed.

Lemma nx_history : history nx_chain (chain_state nx_forked) [nx_block 1 1 1].
Proof.
  apply (history_other nx_chain nx_first.1); [|apply nx_same_frame].
  apply (history_connect nx_chain nx_chain [] nx_first.1 1000 (nx_block 1 1 1) (Some [1; 1]) (map compute_txid [nx_coinbase 1])).
  - apply history_start.
  - unfold block_wf. split_and!; [|unfold fits; cbn; lia|done| |done|vm_compute; congruence|vm_compute; congruence].
    + apply Forall_singleton. unfold tx_wf, outpoint_ok. split_and!; cbn;
        [apply Forall_singleton; cbn; split_and!; [done|by apply bytes_okb_ok|unfold fits; lia]
        |apply Forall_singleton; cbn; split_and!; [unfold fits; lia|by repeat constructor; unfold fits; lia|unfold len; cbn; lia]
        |unfold len; cbn; lia|done|by apply bytes_okb_ok].
    + intros _ tx vout _ _. done.
  - reflexivity.
  - apply not_elem_of_nil.
  - assert (Hr : nx_first.2 = Ok (map compute_txid [nx_coinbase 1])) by (vm_compute; reflexivity). rewrite <- Hr. apply surjective_pairing.
Qed.

Definition nx_hi : HeaderIndex := node_index nx_forked.
Definition nx_keys : list hash256 := [nx_hash 0 0; nx_hash 1 1; nx_hash 2 1; nx_hash 2 2].

Lemma nx_header_at h x : header_at nx_hi h = Some x -> h ∈ nx_keys.
Proof.
  unfold header_at. destruct (contents (hi_db nx_hi) CF_HEADERS h) as [d|] eqn:Hc; [|done]. intros _.
  assert (Hin : (CF_HEADERS, h) ∈ map fst (map_to_list (hi_db nx_hi : gmap (string * bytes) bytes))).
  { apply list_elem_of_fmap. exists ((CF_HEADERS, h), d). split; [done|]. by apply elem_of_map_to_list. }
  assert (Hk : forallb (fun k => bool_decide (k.1 <> CF_HEADERS) || bool_decide (k.2 ∈ nx_keys))
    (map fst (map_to_list (hi_db nx_hi : gmap (string * bytes) bytes))) = true) by (vm_compute; reflexivity).
  rewrite forallb_forall in Hk. specialize (Hk _ (proj1 (list_elem_of_In _ _) Hin)). cbn [fst snd] in Hk. clear -Hk.
  apply orb_true_iff in Hk as [Hk|Hk]; apply bool_decide_eq_true in Hk; [by exfalso|exact Hk].
Qed.

Definition fitsb (w z : Z) : bool := (0 <=? z) && (z <? 2 ^ w).
Definition stored_ok (o : option StoredHeader) : bool :=
  match o with
  | Some x =>
      let h := sh_header x in
      forallb (fitsb 32) [version h; time h; bits h; nonce h; sh_height x]
      && forallb (fun l => (length l =? 32)%nat) [prev_blockhash h; merkle_root h; chain_work x]
  | None => true
  end.

Lemma stored_ok_wf x : stored_ok (Some x) = true -> header_ok (sh_header x) /\ fits 32 (sh_height x) /\ length (chain_work x) = 32%nat.
Proof.
  cbn. unfold fitsb, header_ok, fits. rewrite !andb_true_iff, !Z.leb_le, !Z.ltb_lt, !Nat.eqb_eq. intuition.
Qed.

Lemma nx_headers_wf : headers_wf nx_hi.
Proof.
  intros h x Hx. apply stored_ok_wf. rewrite <- Hx.
  assert (Hk : forallb (fun k => stored_ok (header_at nx_hi k)) nx_keys = true) by (vm_compute; reflexivity).
  rewrite forallb_forall in Hk. apply Hk, list_elem_of_In, (nx_header_at h x Hx).
Qed.

Lemma nx_reads (d : DB) cf k : exists v, get_cf d cf k = Ok v.
Proof. by eexists. Qed.
Lemma nx_handles (d : DB) cf : cf_handle d cf = true.
Proof. done. Qed.
Lemma nx_writes (d : DB) ops : (write d ops).2 = Ok tt.
Proof. done. Qed.
Lemma nx_wal (d : DB) : db_flush_wal d = Ok tt.
Proof. done. Qed.
Lemma nx_readable : readable (chain_state nx_forked) (nx_block 1 1 1).
Proof.
  exists (default [] (pos_at nx_hi (nx_hash 1 1))), [1; 1]. split_and!; [vm_compute; reflexivity| |done].
  exists [], []. split_and!; vm_compute; congruence.
Qed.

Lemma nx_ready : reorg_ready nx_chain nx_forked [nx_block 1 1 1].
Proof.
  split; [exact nx_base_ok|reflexivity|exact nx_history|apply Forall_singleton, nx_readable|exact nx_headers_wf| |].
  - vm_compute. congruence.
  - vm_compute. by eexists.
Qed.


(** A node that knows the header of a block, and the block with a forged body. *)
Definition nx_waiting : Node := nx_headers 1 1 1 nx_node.
Definition nx_forged_node : Node :=
  set_pending nx_waiting {[nx_hash 0 0 := [(mkBlock (nx_header 1 1 1) [nx_coinbase 5; nx_coinbase 5], None)]]}.
Definition nx_valid := connect_block_with_raw 1000 (nx_block 1 1 1) 1 (Some [1; 1]) (chain_state nx_forged_node).

Lemma forged_body_poisons_block_witness :
  refused (drain_one 1000 nx_clock nx_forged_node).1 (block_hash (header (nx_block 1 1 1))).
Proof.
  refine (proj2 (forged_body_poisons_block 1000 nx_clock nx_forged_node (nx_block 1 1 1) (nx_coinbase 5) None (Some [1; 1])
    nx_valid.1 [compute_txid (nx_coinbase 1)] _ _ _)).
  - split; [eexists; vm_compute; reflexivity|vm_compute; by right; left|vm_compute; reflexivity|reflexivity].
  - intros height reason. reflexivity.
  - assert (Hh : u32 (ChainState.best_height (chain_state nx_forged_node) + 1) = 1) by (vm_compute; reflexivity). rewrite Hh.
    assert (Hr : nx_valid.2 = Ok [compute_txid (nx_coinbase 1)]) by (vm_compute; reflexivity). rewrite <- Hr. apply surjective_pairing.
Defined.

(** The clock is two hours and 51 seconds behind the block. *)
Definition nx_early_header : Header := mkHeader 4 (nx_hash 0 0) (compute_txid (nx_coinbase 1)) 8000 0xffffffff 77.
Definition nx_early_block : Block := mkBlock nx_early_header [nx_coinbase 1].
Definition nx_early_node : Node := set_pending nx_node {[nx_hash 0 0 := [(nx_early_block, Some [9; 9; 9])]]}.
Definition nx_in_time := connect_block_with_raw 5000 nx_early_block 1 (Some [9; 9; 9]) (chain_state nx_early_node).

Lemma early_block_lost_witness : refused (drain_one 749 nx_clock nx_early_node).1 (block_hash (header nx_early_block)).
Proof.
  refine (proj2 (early_block_lost 749 5000 nx_clock nx_early_node nx_early_block (Some [9; 9; 9]) nx_in_time.1
    [compute_txid (nx_coinbase 1)] _ _ _ _ _ _)).
  - split; [eexists; vm_compute; reflexivity|vm_compute; by left|vm_compute; reflexivity|reflexivity].
  - intros height reason. reflexivity.
  - unfold fits. lia.
  - lia.
  - cbn. lia.
  - assert (Hh : u32 (ChainState.best_height (chain_state nx_early_node) + 1) = 1) by (vm_compute; reflexivity). rewrite Hh.
    assert (Hr : nx_in_time.2 = Ok [compute_txid (nx_coinbase 1)]) by (vm_compute; reflexivity). rewrite <- Hr. apply surjective_pairing.
Defined.

(** Blocks of 60 MiB: two that extend the tip, one at the height of the tip,
    one with an unknown parent, one on each of the two headers of the rival
    branch.  The dead one, the unknown one and the one furthest above the tip
    go; then 180 MiB are left. *)
Definition big_blocks : BlockLib := {| deserialize_block := fun _ => None; block_total_size := fun _ => 60 * 2 ^ 20 |}.
Definition nx_waits : list (hash256 * nat) :=
  [(nx_hash 1 1, 2%nat); (nx_hash 0 0, 1%nat); (replicate 32 99, 1%nat); (nx_hash 2 1, 1%nat); (nx_hash 2 2, 1%nat)].
Definition nx_full : Node :=
  set_pending nx_forked (list_to_map (map (fun p => (p.1, replicate p.2 (nx_block 1 1 1, None))) nx_waits)).
Definition nx_shed : Node := evict_pending (HB := big_blocks) nx_full.

Lemma node_index_pending n p : node_index (set_pending n p) = node_index n.
Proof. reflexivity. Qed.

Lemma known_heights hi k x : headers_wf hi -> known_header hi k = Some x -> fits 32 (sh_height x).
Proof.
  intros Hwf. unfold known_header, lookup_ok. destruct (get_header hi k) as [[y|]|] eqn:Hg; [|done|done]. intros [= <-].
  apply get_header_at in Hg. by destruct (Hwf k y Hg) as (_ & ? & _).
Qed.

Lemma nx_full_heights k x : known_header (node_index nx_full) k = Some x -> fits 32 (sh_height x).
Proof. unfold nx_full. rewrite node_index_pending. apply known_heights. exact nx_headers_wf. Qed.

Lemma pending_buffer_bounded_witness :
  map (fun p => bool_decide (is_Some (pending_blocks nx_shed !! p.1))) nx_waits = [true; false; false; true; false] /\
  goes_first (ChainState.best_height (chain_state nx_full)) (parent_height nx_full (nx_hash 2 2)) (parent_height nx_full (nx_hash 2 1)).
Proof.
  split; [vm_compute; reflexivity|].
  assert (Hsz : forall b, 0 <= block_total_size (BlockLib := big_blocks) b) by (intros b; cbn; lia).
  destruct (pending_buffer_bounded (HB := big_blocks) Hsz nx_full nx_full_heights) as (_ & _ & _ & _ & Hord).
  refine (Hord (nx_hash 2 1) (nx_hash 2 2) [(nx_block 1 1 1, None)] [(nx_block 1 1 1, None)] _ _ _ _).
  - apply (bool_decide_unpack (nx_hash 2 1 <> ChainState.best_hash (chain_state nx_full))). vm_compute. exact I.
  - vm_compute. reflexivity.
  - vm_compute. reflexivity.
  - vm_compute. reflexivity.
Defined.
End Examples.
