(* ===== verification/BlockDir.v ===== *)
(** * The directory of block files

    [bitcoinpr-storage/src/block_store.rs]: the names of the block files, the
    listing, the file a reopened store appends to, deletion, verification of
    stored blocks, the scan for missing blocks and the rebuilding of the
    position index from the files. *)

From Stdlib Require Import ZArith Lia.
From stdpp Require Import base option numbers list gmap strings sorting.
From S2P Require Import Prelude Bytes U256 Types Signatures Consensus Validation Store HeaderIndex BlockStore BlockFilter ChainState NodeChain.

(** [fs::read_dir] with each entry's [metadata().len()], and [fs::remove_file]. *)
Class BlockDir `{BlockFiles} := {
  read_dir : Files -> StorageResult (list (string * option Z));
  remove_file : Files -> Z -> Files * StorageResult unit }.

(** ** File names *)

(** [strip_prefix], [strip_suffix]. *)
Fixpoint strip_prefix (p s : string) : option string :=
  match p, s with
  | EmptyString, _ => Some s
  | String a p, String b s => if bool_decide (a = b) then strip_prefix p s else None
  | _, EmptyString => None
  end.
Fixpoint strip_suffix (suf s : string) : option string :=
  if bool_decide (s = suf) then Some EmptyString
  else match s with String a s => String a <$> strip_suffix suf s | EmptyString => None end.

Definition digit_value (a : Ascii.ascii) : option Z :=
  let c := Z.of_N (Ascii.N_of_ascii a) in if (48 <=? c) && (c <=? 57) then Some (c - 48) else None.

(** The digits of [str::parse::<u32>], with its overflow checks. *)
Fixpoint parse_digits (v : Z) (s : string) : option Z :=
  match s with
  | EmptyString => Some v
  | String a s =>
      d ← digit_value a;
      if v * 10 + d <? 2 ^ 32 then parse_digits (v * 10 + d) s else None
  end.
Definition parse_u32 (s : string) : option Z :=
  match s with
  | EmptyString => None
  | String a EmptyString => parse_digits 0 s
  | String a rest => if bool_decide (a = Ascii.ascii_of_N 43) then parse_digits 0 rest else parse_digits 0 s
  end.

(** [format!("{n:05}")]: at most ten digits, at least five. *)
Definition digit_char (d : Z) : Ascii.ascii := Ascii.ascii_of_N (Z.to_N (48 + d)).
Fixpoint dec_digits (fuel : nat) (n : Z) (acc : string) : string :=
  match fuel with
  | O => acc
  | S fuel =>
      let acc := String (digit_char (n mod 10)) acc in
      if n / 10 =? 0 then acc else dec_digits fuel (n / 10) acc
  end.
Fixpoint zeros (n : nat) (s : string) : string := match n with O => s | S n => String (digit_char 0) (zeros n s) end.
Definition format_05 (n : Z) : string :=
  let s := dec_digits 10 n EmptyString in zeros (5 - String.length s) s.

Definition block_file_path (file_num : Z) : string := "blk" +:+ format_05 file_num +:+ ".dat".

Definition block_file_num (name : string) : option Z :=
  name ← strip_prefix "blk" name; name ← strip_suffix ".dat" name; parse_u32 name.

(** [sort_unstable_by_key(|(num, _)| *num)] *)
Definition num_le (x y : Z * Z) : Prop := x.1 <= y.1.
#[global] Instance num_le_dec x y : Decision (num_le x y).
Proof. unfold num_le. apply _. Defined.
#[global] Instance num_le_total : Total num_le.
Proof. intros x y. unfold num_le. lia. Qed.
#[global] Instance num_le_trans : Transitive num_le.
Proof. intros x y z. unfold num_le. lia. Qed.

Section Dir.
Context `{HF : BlockFiles} `{HD : !BlockDir}.

(** [fs::metadata(path)?.len()] *)
Definition file_len (f : Files) (n : Z) : StorageResult Z :=
  match file_bytes f n with Some data => Ok (len data) | None => Err (Io "No such file") end.

Definition list_block_files (b : BlockStore) : StorageResult (list (Z * Z)) :=
  entries ← read_dir (bs_files b);
  Ok (merge_sort num_le
    (omap (fun e => num ← block_file_num e.1; size ← e.2; Some (num, size)) entries)).

Definition find_latest_file (f : Files) (max_file_size : Z) : Z * Z :=
  let names := match read_dir f with Ok entries => omap (fun e => block_file_num e.1) entries | Err _ => [] end in
  match names with
  | [] => (0, 0)
  | x :: r =>
      let file_num := foldl Z.max x r in
      let size := match file_len f file_num with Ok n => n | Err _ => 0 end in
      if size <? max_file_size then (file_num, size) else (u32 (file_num + 1), 0)
  end.

(** [open]: no background writer yet. *)
Definition open_with_max_file_size (f : Files) (max_file_size : Z) : BlockStore :=
  let '(file_num, offset) := find_latest_file f max_file_size in
  mkBlockStore max_file_size file_num offset None f false.

Definition delete_block_file (file_num : Z) : stm BlockStore StorageError Z := fun b =>
  if file_num >=? cur_file b
  then (b, Err (Serialization "refusing to prune block file: current write file"))
  else
    match file_len (bs_files b) file_num with
    | Err e => (b, Err e)
    | Ok size =>
        let '(f, r) := remove_file (bs_files b) file_num in
        (set_files b f, match r with Ok _ => Ok size | Err e => Err e end)
    end.
End Dir.

(** Documented behaviour of the file system: a listing shows every block file
    with its length, and removing a file touches no other. *)
Class BlockDirLaws `{BlockDir} := {
  read_dir_lists f l n data : read_dir f = Ok l -> fits 32 n -> file_bytes f n = Some data ->
    (block_file_path n, Some (len data)) ∈ l;
  remove_other f n f' r m : remove_file f n = (f', r) -> m <> n -> file_bytes f' m = file_bytes f m;
  remove_gone f n f' : remove_file f n = (f', Ok tt) -> file_bytes f' n = None }.

(** ** Verification and re-indexing *)

Section Reindex.
Context `{HR : RocksDb} `{HW : !RocksWal} `{HC : HeaderCodec} `{HB : BlockLib} `{HT : TxLib}.
Context `{HF : BlockFiles}.

(** Only what has reached the file counts; the writer queue is not drained. *)
Definition verify_block (b : BlockStore) (pos : BlockPos) (expected_hash : hash256) : StorageResult bool :=
  match file_len (bs_files b) (file_num pos) with
  | Err _ => Ok false
  | Ok flen =>
      if u64 (offset pos + 4 + block_size pos) >? flen then Ok false
      else
        match read_exact_at b (file_num pos) (offset pos) 4 with
        | Err _ => Ok false
        | Ok size_buf =>
            let size := from_le size_buf in
            if negb (size =? block_size pos) then Ok false
            else
              match read_exact_at b (file_num pos) (offset pos + 4) size with
              | Err _ => Ok false
              | Ok data =>
                  match deserialize_block data with
                  | Some block => Ok (bool_decide (block_hash (header block) = expected_hash))
                  | None => Ok false
                  end
              end
        end
  end.

(** One height of [scan_block_store]: is it missing, and the stale position dropped. *)
Definition scan_height (b : BlockStore) (h : Z) : stm HeaderIndex StorageError bool := fun hi =>
  match get_hash_at_height hi h with
  | Ok (Some hash) =>
      match get_block_pos hi hash with
      | Ok (Some pos) =>
          match verify_block b pos hash with
          | Ok true => (hi, Ok false)
          | Ok false => ((remove_block_pos hash hi).1, Ok true)
          | Err _ => (hi, Ok true)
          end
      | _ => (hi, Ok true)
      end
  | _ => (hi, Ok true)
  end.

Definition scan_block_store (b : BlockStore) (from to : Z) : stm HeaderIndex StorageError (list Z) :=
  foldS (fun missing h => m ← scan_height b h; mret (if (m : bool) then missing ++ [h] else missing))
    [] (heights_between from to).

Definition MAX_REINDEX_BLOCK : Z := 4000000.

(** A block found in a file: indexed when it is on the canonical header chain
    and has no position yet. *)
Definition reindex_block (file_num offset size : Z) (data : bytes) : HeaderIndex -> HeaderIndex * bool := fun hi =>
  match deserialize_block data with
  | None => (hi, false)
  | Some block =>
      let hash := block_hash (header block) in
      let canonical :=
        match get_header hi hash with
        | Ok (Some stored) =>
            match get_hash_at_height hi (sh_height stored) with
            | Ok (Some canonical_hash) => bool_decide (canonical_hash = hash)
            | _ => false
            end
        | _ => false
        end in
      if negb canonical then (hi, false)
      else
        match get_block_pos hi hash with
        | Ok (Some _) => (hi, false)
        | _ =>
            let '(hi, r) := set_block_pos hash (mkBlockPos file_num offset size) hi in (hi, is_ok r)
        end
  end.

(** The scan of one file; every record takes at least five bytes. *)
Fixpoint reindex_file (fuel : nat) (b : BlockStore) (file_num flen offset : Z) (indexed : Z) (hi : HeaderIndex) : HeaderIndex * Z :=
  match fuel with
  | O => (hi, indexed)
  | S fuel =>
      if u64 (offset + 4) <? flen then
        match read_exact_at b file_num offset 4 with
        | Err _ => (hi, indexed)
        | Ok size_buf =>
            let size := from_le size_buf in
            if (size =? 0) || (size >? MAX_REINDEX_BLOCK) || (u64 (offset + 4 + size) >? flen) then (hi, indexed)
            else
              match read_exact_at b file_num (offset + 4) size with
              | Err _ => (hi, indexed)
              | Ok data =>
                  let '(hi, new) := reindex_block file_num offset size data hi in
                  reindex_file fuel b file_num flen (u64 (offset + (4 + size))) (if new : bool then u32 (indexed + 1) else indexed) hi
              end
        end
      else (hi, indexed)
  end.

(** The loop over the files, from [blk00000.dat] up to the first that does not
    exist; [shutting_down] is the flag as read before each file. *)
Fixpoint reindex_loop (fuel : nat) (b : BlockStore) (shutting_down : Z -> bool) (file_num total_indexed : Z)
    (hi : HeaderIndex) : HeaderIndex * outcome Z :=
  match fuel with
  | O => (hi, OutOfFuel)
  | S fuel =>
      if shutting_down file_num then (hi, Done total_indexed)
      else
        match file_bytes (bs_files b) file_num with
        | None => (hi, Done total_indexed)
        | Some data =>
            let '(hi, total) := reindex_file (length data) b file_num (len data) 0 total_indexed hi in
            reindex_loop fuel b shutting_down (u32 (file_num + 1)) total hi
        end
  end.

Definition reindex_block_files_cancellable (fuel : nat) (b : BlockStore) (shutting_down : option (Z -> bool)) :
    HeaderIndex -> HeaderIndex * outcome Z :=
  reindex_loop fuel b (default (fun _ => false) shutting_down) 0 0.

Definition reindex_block_files (fuel : nat) (b : BlockStore) : HeaderIndex -> HeaderIndex * outcome Z :=
  reindex_block_files_cancellable fuel b None.
End Reindex.

(** ** File names round-trip *)

Lemma strip_prefix_app p s : strip_prefix p (p +:+ s) = Some s.
Proof. induction p as [|a p IH]; [done|]. change (String a p +:+ s) with (String a (p +:+ s)). cbn [strip_prefix]. by rewrite bool_decide_eq_true_2. Qed.

Lemma string_length_app (s t : string) : String.length (s +:+ t) = (String.length s + String.length t)%nat.
Proof. induction s as [|a s IH]; [done|]. change (String a s +:+ t) with (String a (s +:+ t)). cbn. by rewrite <- IH. Qed.

Lemma strip_suffix_app s suf : strip_suffix suf (s +:+ suf) = Some s.
Proof.
  induction s as [|a s IH].
  - change ("" +:+ suf) with suf. by destruct suf; cbn [strip_suffix]; rewrite bool_decide_eq_true_2.
  - change (String a s +:+ suf) with (String a (s +:+ suf)). cbn [strip_suffix]. rewrite bool_decide_eq_false_2; [by rewrite IH|]. intros Heq.
    apply (f_equal String.length) in Heq. cbn in Heq. rewrite string_length_app in Heq. lia.
Qed.

Lemma digit_value_char d : 0 <= d < 10 -> digit_value (digit_char d) = Some d.
Proof.
  intros Hd. unfold digit_value, digit_char. rewrite Ascii.N_ascii_embedding by lia. rewrite Z2N.id by lia.
  destruct (Z.leb_spec 48 (48 + d)); [|lia]. destruct (Z.leb_spec (48 + d) 57); [|lia]. cbn. f_equal. lia.
Qed.

Lemma parse_dec_digits fuel : forall n rest,
  0 <= n < 2 ^ 32 -> n < 10 ^ Z.of_nat fuel -> (0 < fuel)%nat -> parse_digits 0 (dec_digits fuel n rest) = parse_digits n rest.
Proof.
  induction fuel as [|fuel IH]; intros n rest Hn Hlt Hf; [lia|]. cbn [dec_digits].
  pose proof (Z.mod_pos_bound n 10 ltac:(lia)) as Hm. pose proof (Z.div_mod n 10 ltac:(lia)) as Hdm.
  assert (Hlast : parse_digits (n / 10) (String (digit_char (n mod 10)) rest) = parse_digits n rest).
  { cbn [parse_digits]. rewrite digit_value_char by lia. cbn [mbind option_bind].
    replace (n / 10 * 10 + n mod 10) with n by lia. by destruct (Z.ltb_spec n (2 ^ 32)); [|lia]. }
  destruct (Z.eqb_spec (n / 10) 0) as [H0|H0]; [by rewrite <- H0 at 1|].
  rewrite IH; [done|lia| |].
  - rewrite Nat2Z.inj_succ, Z.pow_succ_r in Hlt by lia. lia.
  - destruct fuel; [|lia]. cbn in Hlt. lia.
Qed.

Lemma parse_zeros k s : parse_digits 0 (zeros k s) = parse_digits 0 s.
Proof. induction k as [|k IH]; [done|]. cbn [zeros parse_digits]. by rewrite digit_value_char by lia. Qed.

Lemma zeros_head k s : k <> O -> exists t, zeros k s = String (digit_char 0) t.
Proof. destruct k; [done|]. by eexists. Qed.

(** A file number is read back from the name it gives. *)
Lemma block_file_num_path n : fits 32 n -> block_file_num (block_file_path n) = Some n.
Proof.
  intros Hn. unfold block_file_num, block_file_path. rewrite strip_prefix_app. cbn [mbind option_bind].
  rewrite strip_suffix_app. cbn [mbind option_bind].
  assert (Hd : parse_digits 0 (format_05 n) = Some n).
  { unfold format_05. rewrite parse_zeros, parse_dec_digits; [done|exact Hn| |lia]. unfold fits in Hn. cbn. lia. }
  unfold parse_u32. destruct (format_05 n) as [|a s] eqn:Hs; [|destruct s; [done|]].
  - exfalso. apply (f_equal String.length) in Hs. revert Hs. unfold format_05. cbn [String.length].
    destruct (dec_digits 10 n "") as [|c t] eqn:Hdd; [done|]. destruct (5 - _)%nat; done.
  - rewrite bool_decide_eq_false_2; [done|]. intros ->. cbn in Hd. done.
Qed.

Lemma parse_digits_nonneg s : forall v n, 0 <= v -> parse_digits v s = Some n -> 0 <= n.
Proof.
  induction s as [|a s IH]; intros v n Hv; cbn [parse_digits]; [by intros [= <-]|].
  unfold digit_value. destruct (Z.leb_spec 48 (Z.of_N (Ascii.N_of_ascii a))); cbn [andb mbind option_bind]; [|done].
  destruct (_ <=? 57); cbn [mbind option_bind]; [|done]. destruct (_ <? _); [|done]. apply IH. lia.
Qed.

Lemma block_file_num_nonneg name n : block_file_num name = Some n -> 0 <= n.
Proof.
  unfold block_file_num. destruct (strip_prefix _ _) as [s|]; cbn [mbind option_bind]; [|done].
  destruct (strip_suffix _ _) as [[|a [|c r]]|]; cbn [mbind option_bind]; [done|by apply parse_digits_nonneg| |done].
  unfold parse_u32. case_bool_decide; by apply parse_digits_nonneg.
Qed.
