(* ===== verification/Prune.v ===== *)
(** * Pruning of block files

    [bitcoinpr-storage/src/prune.rs] and the prune tick of
    [bitcoinpr/src/node.rs]: which blocks may go, and one pass that removes the
    index entries and undo records of the oldest files and then the files. *)

From Stdlib Require Import ZArith Lia.
From stdpp Require Import base option numbers list gmap strings sorting.
From S2P Require Import Prelude Bytes Types Store HeaderIndex BlockStore UtxoSet BlockDir.

Definition MIN_KEEP_BLOCKS : Z := 288.
Definition MIN_PRUNE_TARGET_MIB : Z := 550.

Record PruneReport := mkReport { files_deleted : Z; bytes_freed : Z; pruned_height : Z }.

Definition prune_ceiling (tip_height : Z) (validated_height manual_height : option Z) : option Z :=
  if tip_height <? MIN_KEEP_BLOCKS then None
  else
    let ceiling := Z.min (tip_height - MIN_KEEP_BLOCKS) (default 0 validated_height) in
    let ceiling := match manual_height with Some manual => Z.min ceiling manual | None => ceiling end in
    if ceiling =? 0 then None else Some ceiling.

(** The oldest files, up to [keep_file] and until the total is within the target. *)
Fixpoint choose_files (keep_file target_bytes total : Z) (files : list (Z * Z)) : list Z :=
  match files with
  | [] => []
  | (num, size) :: rest =>
      if (num >=? keep_file) || (total <=? target_bytes) then []
      else num :: choose_files keep_file target_bytes (u64 (total - size)) rest
  end.

Section Prune.
Context `{HR : RocksDb} `{HW : !RocksWal} `{HF : BlockFiles} `{HD : !BlockDir}.

(** The three stores a prune pass works on. *)
Record Stores := mkStores {
  ps_blocks : BlockStore;
  ps_index : HeaderIndex;
  ps_utxo : UtxoSet }.

Abbreviation PM := (stm Stores StorageError).

Definition in_blocks {A} (m : stm BlockStore StorageError A) : PM A := fun s =>
  let '(b, r) := m (ps_blocks s) in (mkStores b (ps_index s) (ps_utxo s), r).
Definition in_index {A} (m : stm HeaderIndex StorageError A) : PM A := fun s =>
  let '(hi, r) := m (ps_index s) in (mkStores (ps_blocks s) hi (ps_utxo s), r).
Definition in_utxo {A} (m : stm UtxoSet StorageError A) : PM A := fun s =>
  let '(u, r) := m (ps_utxo s) in (mkStores (ps_blocks s) (ps_index s) u, r).

Definition hash_pos_file (hi : HeaderIndex) (height : Z) : StorageResult (option Z) :=
  hash ← get_hash_at_height hi height;
  match hash with
  | Some hash => pos ← get_block_pos hi hash; Ok (option_map file_num pos)
  | None => Ok None
  end.

(** The loop over [start..=ceiling_height]; it stops at a surviving file. *)
Fixpoint prune_entries (to_delete : gset Z) (heights : list Z) (pruned_height : Z) : PM Z :=
  match heights with
  | [] => mret pruned_height
  | height :: rest =>
      hi ← gets ps_index;
      hash ← lift (get_hash_at_height hi height);
      match hash with
      | Some hash =>
          pos ← lift (get_block_pos hi hash);
          match pos with
          | Some pos =>
              if bool_decide (file_num pos ∈ to_delete) then
                _ ← in_index (remove_block_pos hash);
                _ ← in_utxo (delete_undo hash);
                prune_entries to_delete rest height
              else mret pruned_height
          | None => prune_entries to_delete rest height
          end
      | None => prune_entries to_delete rest height
      end
  end.

Definition delete_files (nums : list Z) : PM (Z * Z) :=
  foldS (fun acc num =>
    n ← in_blocks (delete_block_file num); mret (u64 (acc.1 + n), u32 (acc.2 + 1))) (0, 0) nums.

Definition prune_block_files (ceiling_height target_bytes : Z) : PM (option PruneReport) :=
  b ← gets ps_blocks;
  files ← lift (list_block_files b);
  let total := foldl (fun t f => u64 (t + f.2)) 0 files in
  if total <=? target_bytes then mret None
  else
    hi ← gets ps_index;
    keep ← lift (hash_pos_file hi (u32 (ceiling_height + 1)));
    match keep with
    | None => mret None
    | Some file_num =>
        let keep_file := Z.min file_num (cur_file b) in
        let to_delete : gset Z := list_to_set (choose_files keep_file target_bytes total files) in
        if bool_decide (to_delete = ∅) then mret None
        else
          h ← lift (get_pruned_height hi);
          let start := match h with Some h => u32 (h + 1) | None => 0 end in
          pruned_height ← prune_entries to_delete (heights_between start ceiling_height) (sat_sub start 1);
          _ ← lift (guard_err (pruned_height <? start)
                (Serialization "prune: no indexed blocks found in files; refusing to delete"));
          _ ← in_index (set_pruned_height pruned_height);
          _ ← in_index flush_wal;
          '(bytes_freed, files_deleted) ← delete_files (merge_sort Z.le (elements to_delete));
          mret (Some (mkReport files_deleted bytes_freed pruned_height))
    end.

(** The prune tick of the event loop; a failure is logged. *)
Definition prune_tick (prune_target_bytes : option Z) (tip : Z) (s : Stores) : Stores :=
  match prune_target_bytes with
  | None => s
  | Some target_bytes =>
      let validated := match get_validated_height (ps_index s) with Ok v => v | Err _ => None end in
      match prune_ceiling tip validated None with
      | Some ceiling => (prune_block_files ceiling target_bytes s).1
      | None => s
      end
  end.
End Prune.
