(* ===== verification/PruneProofs.v ===== *)
(** * Properties of pruning

    A pass keeps every block it may still need readable, and removes no file an
    index entry of the chain still points into, whatever fails on the way. *)

From Stdlib Require Import ZArith Lia.
From stdpp Require Import base option numbers list gmap strings sorting.
From S2P Require Import Prelude Bytes U256 Types Signatures Consensus Validation Store HeaderIndex HeaderProofs BlockStore UtxoSet BlockFilter ChainState NodeChain BlockDir Prune.

Section Proofs.
Context `{HR : RocksDb} `{HW : !RocksWal} `{HRL : !RocksLaws}.
Context `{HF : BlockFiles} `{HFL : !BlockFilesLaws} `{HD : !BlockDir} `{HDL : !BlockDirLaws}.
Implicit Types (s : Stores) (hi : HeaderIndex) (u : UtxoSet) (D : gset Z).

(** ** What the stores hold *)

Definition pos_of hi (x : hash256) : option BlockPos := deserialize_pos <$> contents (hi_db hi) CF_BLOCK_POS x.
Definition undo_at u (x : hash256) : option bytes :=
  match find_undo (undo_buffer (write_buffer u)) x with
  | Some data => Some data
  | None => contents (us_db u) CF_UNDO x
  end.
Definition pruned_of hi : option Z := from_le <$> contents (hi_db hi) CF_HMETA META_PRUNED_HEIGHT.

Lemma get_block_pos_contents hi x v : get_block_pos hi x = Ok v -> v = pos_of hi x.
Proof.
  unfold get_block_pos, hi_get, pos_of. destruct (cf_handle _ _); cbn; [|done].
  destruct (get_cf (hi_db hi) CF_BLOCK_POS x) as [d|] eqn:Hg; cbn; [|done].
  apply get_cf_contents in Hg. rewrite <- Hg. destruct d as [d|]; [|by intros [= <-]].
  destruct (_ =? _)%nat; cbn; [|done]. by intros [= <-].
Qed.

Lemma get_pruned_contents hi v : get_pruned_height hi = Ok v -> v = pruned_of hi.
Proof.
  unfold get_pruned_height, read_height, hi_get, pruned_of.
  destruct (cf_handle _ _); cbn [negb guard_err mbind result_bind]; [|done].
  destruct (get_cf (hi_db hi) CF_HMETA META_PRUNED_HEIGHT) as [d|] eqn:Hg; cbn [mbind result_bind]; [|done].
  apply get_cf_contents in Hg. rewrite <- Hg. destruct d as [d|]; [|by intros [= <-]].
  destruct (_ =? _)%nat; [|done]. by intros [= <-].
Qed.

(** One checked write to the header index. *)
Lemma one_write name o hi :
  wp (_ ← hi_cf name; hi_write [o]) (fun hi' r => forall cf k, contents (hi_db hi') cf k =
    match r with Ok _ => apply_op (contents (hi_db hi)) o cf k | Err _ => contents (hi_db hi) cf k end) hi.
Proof.
  unfold wp, mbind, stm_bind, hi_cf. destruct (cf_handle _ _); cbn; [|done]. unfold hi_write.
  destruct (write (hi_db hi) [o]) as [d [[]|e]] eqn:Hw; cbn; intros cf k.
  - by rewrite (write_applies _ _ _ Hw).
  - by rewrite (write_atomic _ _ _ _ Hw).
Qed.

Lemma find_undo_filter l (x y : hash256) :
  find_undo (filter (fun p => p.1 <> x) l) y = if bool_decide (y = x) then None else find_undo l y.
Proof.
  unfold find_undo. case_bool_decide as Hd; induction l as [|[k d] l IH]; [done| |done|]; subst;
    rewrite !filter_cons; cbn [fst]; repeat (case_decide; try rewrite filter_cons; cbn [fst]); naive_solver.
Qed.

Lemma delete_undo_at (x : hash256) u :
  wp (delete_undo x) (fun u' r => (forall y, y <> x -> undo_at u' y = undo_at u y) /\ (is_ok r -> undo_at u' x = None)) u.
Proof.
  unfold delete_undo. apply wp_bind, wp_modify. cbn beta iota. apply wp_bind. unfold cf, wp at 1. cbn [fst snd].
  destruct (cf_handle _ _); cbn [negb guard_err].
  - unfold wp, db_write. cbn [us_db set_buffer]. destruct (write (us_db u) _) as [d [[]|e]] eqn:Hw; cbn [fst snd]; split; try done; unfold undo_at; cbn.
    + intros y Hy. rewrite find_undo_filter, bool_decide_eq_false_2, (write_applies _ _ _ Hw) by done.
      destruct (find_undo _ y); [done|]. apply apply_ops_other. constructor; [cbn; naive_solver|constructor].
    + intros _. rewrite find_undo_filter, bool_decide_eq_true_2, (write_applies _ _ _ Hw) by done.
      cbn. unfold apply_op. by rewrite bool_decide_eq_true_2.
    + intros y Hy. by rewrite find_undo_filter, bool_decide_eq_false_2, (write_atomic _ _ _ _ Hw) by done.
  - split; [|done]. intros y Hy. unfold undo_at. cbn. by rewrite find_undo_filter, bool_decide_eq_false_2 by done.
Qed.

Lemma wp_in_index {A} (m : stm HeaderIndex StorageError A) (Q : Stores -> StorageResult A -> Prop) s :
  wp m (fun hi r => Q (mkStores (ps_blocks s) hi (ps_utxo s)) r) (ps_index s) -> wp (in_index m) Q s.
Proof. unfold wp, in_index. by destruct (m (ps_index s)). Qed.
Lemma wp_in_utxo {A} (m : stm UtxoSet StorageError A) (Q : Stores -> StorageResult A -> Prop) s :
  wp m (fun u r => Q (mkStores (ps_blocks s) (ps_index s) u) r) (ps_utxo s) -> wp (in_utxo m) Q s.
Proof. unfold wp, in_utxo. by destruct (m (ps_utxo s)). Qed.
Lemma wp_in_blocks {A} (m : stm BlockStore StorageError A) (Q : Stores -> StorageResult A -> Prop) s :
  wp m (fun b r => Q (mkStores b (ps_index s) (ps_utxo s)) r) (ps_blocks s) -> wp (in_blocks m) Q s.
Proof. unfold wp, in_blocks. by destruct (m (ps_blocks s)). Qed.

(** ** The index entries *)

(** The block at one of the heights [hs] that lies in a doomed file. *)
Definition touched D (hs : list Z) s (x : hash256) : Prop :=
  exists h p, h ∈ hs /\ index_at (ps_index s) h = Some x /\ pos_of (ps_index s) x = Some p /\ file_num p ∈ D.

(** From [s] to [s'] only positions and undo records of such blocks went. *)
Record pruned_from D (hs : list Z) s s' : Prop := {
  pf_blocks : ps_blocks s' = ps_blocks s;
  pf_other cf k : cf <> CF_BLOCK_POS -> contents (hi_db (ps_index s')) cf k = contents (hi_db (ps_index s)) cf k;
  pf_pos x : pos_of (ps_index s') x = pos_of (ps_index s) x \/ (pos_of (ps_index s') x = None /\ touched D hs s x);
  pf_undo x : undo_at (ps_utxo s') x = undo_at (ps_utxo s) x \/ touched D hs s x }.

Lemma pf_index D hs s s' h : pruned_from D hs s s' -> index_at (ps_index s') h = index_at (ps_index s) h.
Proof. intros Hp. by apply (pf_other _ _ _ _ Hp). Qed.

Lemma pf_pos_back D hs s s' x p :
  pruned_from D hs s s' -> pos_of (ps_index s') x = Some p -> pos_of (ps_index s) x = Some p.
Proof. intros Hp Hx. destruct (pf_pos _ _ _ _ Hp x) as [He|[He _]]; congruence. Qed.

Lemma pf_pos_none D hs s s' x : pruned_from D hs s s' -> pos_of (ps_index s) x = None -> pos_of (ps_index s') x = None.
Proof. intros Hp Hx. destruct (pf_pos _ _ _ _ Hp x) as [He|[He _]]; congruence. Qed.

Lemma pf_refl D hs s : pruned_from D hs s s.
Proof. split; [done|done|by left|by left]. Qed.

Lemma touched_back D hs1 hs2 hs s s' x :
  hs1 ⊆ hs -> pruned_from D hs2 s s' -> touched D hs1 s' x -> touched D hs s x.
Proof.
  intros Hsub Hp (h & p & Hin & Hi & Hpos & Hf). exists h, p. split_and!; [by apply Hsub| | |done].
  - by rewrite <- (pf_index _ _ _ _ h Hp).
  - by eapply pf_pos_back.
Qed.

Lemma pf_trans D hs1 hs2 hs s s1 s2 :
  hs1 ⊆ hs -> hs2 ⊆ hs -> pruned_from D hs1 s s1 -> pruned_from D hs2 s1 s2 -> pruned_from D hs s s2.
Proof.
  intros Hs1 Hs2 H1 H2.
  assert (Ht : forall x, touched D hs1 s x -> touched D hs s x) by (intros x; by apply (touched_back D hs1 hs1 hs s s), pf_refl).
  split.
  - by rewrite (pf_blocks _ _ _ _ H2), (pf_blocks _ _ _ _ H1).
  - intros cf k Hc. by rewrite (pf_other _ _ _ _ H2), (pf_other _ _ _ _ H1).
  - intros x. destruct (pf_pos _ _ _ _ H2 x) as [He|[He Htx]].
    + rewrite He. destruct (pf_pos _ _ _ _ H1 x) as [He1|[He1 Htx]]; [by left|right; eauto].
    + right. split; [done|]. by eapply touched_back.
  - intros x. destruct (pf_undo _ _ _ _ H2 x) as [He|Htx]; [|right; by eapply touched_back].
    rewrite He. destruct (pf_undo _ _ _ _ H1 x) as [He1|Htx]; [by left|right; eauto].
Qed.

Lemma pf_weaken D h hs s s' : pruned_from D [h] s s' -> pruned_from D (h :: hs) s s'.
Proof.
  intros Hp. eapply (pf_trans D [h] []); [..|exact Hp|apply pf_refl]; intros y Hy; [|by apply not_elem_of_nil in Hy].
  apply list_elem_of_singleton in Hy. subst. by left.
Qed.

(** How far the loop came. *)
Definition scanned D (hs : list Z) (p q : Z) s s' : Prop :=
  exists dn td, hs = dn ++ td /\ q = default p (last dn) /\
    (forall h x, h ∈ dn -> index_at (ps_index s) h = Some x -> pos_of (ps_index s') x = None) /\
    (td = [] \/ exists h0 t x p0, td = h0 :: t /\ index_at (ps_index s) h0 = Some x /\
       pos_of (ps_index s) x = Some p0 /\ file_num p0 ∉ D).

(** One height done. *)
Lemma scanned_cons D h hs p q s s1 s' :
  pruned_from D [h] s s1 -> (forall x, index_at (ps_index s) h = Some x -> pos_of (ps_index s1) x = None) ->
  pruned_from D hs s1 s' -> scanned D hs h q s1 s' -> scanned D (h :: hs) p q s s'.
Proof.
  intros H1 Hh H2 (dn & td & -> & -> & Hdn & Htd). exists (h :: dn), td. split_and!; [done| | |].
  - by destruct dn as [|y dn _] using rev_ind; [|rewrite app_comm_cons, !last_snoc].
  - intros y x [->|Hy]%elem_of_cons Hx; [by eapply pf_pos_none, Hh|]. apply (Hdn y); [done|].
    by rewrite (pf_index _ _ _ _ y H1).
  - destruct Htd as [->|(h0 & t & x & p0 & -> & Hx & Hp & Hf)]; [by left|right]. exists h0, t, x, p0.
    split_and!; [done| | |done].
    + by rewrite <- (pf_index _ _ _ _ h0 H1).
    + by eapply pf_pos_back.
Qed.

(** Removing the position of the block at [h]. *)
Lemma remove_pos_pruned D h x p s :
  index_at (ps_index s) h = Some x -> pos_of (ps_index s) x = Some p -> file_num p ∈ D ->
  wp (in_index (remove_block_pos x)) (fun s' r => pruned_from D [h] s s' /\ (is_ok r -> pos_of (ps_index s') x = None)) s.
Proof.
  intros Hi Hp HD'. assert (Ht : touched D [h] s x) by (exists h, p; split_and!; by try left).
  apply wp_in_index. eapply wp_mono; [|apply (one_write CF_BLOCK_POS (Delete CF_BLOCK_POS x))].
  cbn. intros hi [[]|e] Hc.
  - assert (Hx : pos_of hi x = None).
    { unfold pos_of. rewrite Hc. unfold apply_op. by rewrite bool_decide_eq_true_2. }
    split; [split; [done| |intros y|by left]|done].
    + intros cf k Hcf. cbn. rewrite Hc. unfold apply_op. by rewrite bool_decide_eq_false_2 by naive_solver.
    + cbn. destruct (decide (y = x)) as [->|Hne]; [by right|left].
      unfold pos_of. rewrite Hc. unfold apply_op. by rewrite bool_decide_eq_false_2 by naive_solver.
  - split; [|done]. split; [done|intros cf k _; apply Hc|intros y; left; unfold pos_of; cbn; by rewrite Hc|by left].
Qed.

Lemma delete_undo_pruned D h x p s s1 :
  index_at (ps_index s) h = Some x -> pos_of (ps_index s) x = Some p -> file_num p ∈ D -> pruned_from D [h] s s1 ->
  wp (in_utxo (delete_undo x)) (fun s' _ => pruned_from D [h] s s' /\ ps_index s' = ps_index s1) s1.
Proof.
  intros Hi Hp HD' H1. apply wp_in_utxo. eapply wp_mono; [|apply delete_undo_at]. cbn. intros u r [Hu _].
  split; [|done]. destruct H1 as [Hb Ho Hpos Hundo]. split; [done|done|done|]. cbn. intros y.
  destruct (decide (y = x)) as [->|Hne]; [right; exists h, p; split_and!; by try left|].
  rewrite Hu by done. apply Hundo.
Qed.

Lemma prune_entries_spec D hs : forall p s,
  wp (prune_entries D hs p)
    (fun s' r => pruned_from D hs s s' /\ forall q, r = Ok q -> scanned D hs p q s s') s.
Proof.
  induction hs as [|h hs IH]; intros p s; cbn [prune_entries].
  { apply wp_ret. split; [apply pf_refl|]. intros q [= <-]. exists [], []. split_and!; [done..| |by left]. by intros h x ?%not_elem_of_nil. }
  (* the rest of the loop, from a state in which [h] is done *)
  assert (Hrest : forall s1, pruned_from D [h] s s1 ->
    (forall x, index_at (ps_index s) h = Some x -> pos_of (ps_index s1) x = None) ->
    wp (prune_entries D hs h) (fun s' r => pruned_from D (h :: hs) s s' /\ forall q, r = Ok q -> scanned D (h :: hs) p q s s') s1).
  { intros s1 H1 Hh. eapply wp_mono; [|apply IH]. cbn. intros s' r [H2 Hq]. split.
    - eapply (pf_trans D [h] hs); [..|done|done]; intros y Hy; apply elem_of_cons; [|by right].
      apply list_elem_of_singleton in Hy. by left.
    - intros q Hr. eapply scanned_cons; eauto. }
  assert (Hfail : forall r : StorageResult Z, (forall q, r <> Ok q) ->
    pruned_from D (h :: hs) s s /\ forall q, r = Ok q -> scanned D (h :: hs) p q s s)
    by (intros r Hr; split; [apply pf_refl|intros q ->; by destruct (Hr q)]).
  apply wp_bind, wp_gets. cbn beta iota. apply wp_bind, wp_lift.
  destruct (get_hash_at_height (ps_index s) h) as [ho|e] eqn:Hg; [|by apply Hfail].
  apply get_hash_contents in Hg. destruct ho as [x|]; [|apply Hrest; [apply pf_refl|congruence]].
  apply wp_bind, wp_lift. destruct (get_block_pos (ps_index s) x) as [po|e] eqn:Hp; [|by apply Hfail].
  apply get_block_pos_contents in Hp. destruct po as [p0|].
  - case_bool_decide as HinD.
    + apply wp_bind. eapply wp_mono; [|by eapply (remove_pos_pruned D h x p0)]. cbn. intros s1 r [H1 Hx].
      destruct r as [[]|e].
      * apply wp_bind. eapply wp_mono; [|by eapply (delete_undo_pruned D h x p0)]. cbn. intros s2 r [H2 Hi2].
        destruct r as [[]|e]; [apply Hrest; [done|]|split; [by apply pf_weaken|done]].
        intros y Hy. rewrite Hi2. replace y with x by congruence. by apply Hx.
      * split; [by apply pf_weaken|done].
    + apply wp_ret. split; [apply pf_refl|]. intros q [= <-]. exists [], (h :: hs).
      split_and!; [done..| |right; by exists h, hs, x, p0]. by intros y z ?%not_elem_of_nil.
  - apply Hrest; [apply pf_refl|]. intros y Hy. congruence.
Qed.

(** ** The files *)

Lemma list_block_files_spec b files :
  list_block_files b = Ok files ->
  StronglySorted num_le files /\ (forall n, n ∈ files.*1 -> 0 <= n) /\
  forall n data, fits 32 n -> file_bytes (bs_files b) n = Some data -> (n, len data) ∈ files.
Proof.
  unfold list_block_files. destruct (read_dir (bs_files b)) as [l|] eqn:Hl; cbn [mbind result_bind]; [|done].
  intros [= <-]. split_and!; [apply StronglySorted_merge_sort; apply _| |].
  { intros n. rewrite merge_sort_Permutation. intros ([m z] & -> & Hin)%list_elem_of_fmap.
    apply list_elem_of_omap in Hin as ([name so] & _ & He). cbn [fst snd] in He.
    destruct (block_file_num name) as [k|] eqn:Hk; [|done]. destruct so; [|done]. injection He as <- <-. by eapply block_file_num_nonneg. }
  intros n data Hn Hd.
  rewrite merge_sort_Permutation. apply list_elem_of_omap. exists (block_file_path n, Some (len data)).
  split; [by eapply read_dir_lists|]. cbn [fst snd]. by rewrite block_file_num_path.
Qed.

(** The doomed files: older than [keep_file], and closed downwards. *)
Lemma choose_files_lt keep t files : forall total n, n ∈ choose_files keep t total files -> n < keep.
Proof.
  induction files as [|[num size] files IH]; intros total n; cbn [choose_files]; [by intros ?%not_elem_of_nil|].
  destruct (Z.geb_spec num keep); cbn [orb]; [by intros ?%not_elem_of_nil|].
  destruct (total <=? t); [by intros ?%not_elem_of_nil|]. intros [->|Hn]%elem_of_cons; [lia|eauto].
Qed.

Lemma choose_files_mem keep t files : forall total n, n ∈ choose_files keep t total files -> n ∈ files.*1.
Proof.
  induction files as [|[num size] files IH]; intros total n; cbn [choose_files]; [done|].
  destruct (_ || _); [by intros ?%not_elem_of_nil|]. cbn. intros [->|Hn]%elem_of_cons; [by left|right; eauto].
Qed.

Lemma choose_files_down keep t files :
  StronglySorted num_le files -> forall total n m size,
  n ∈ choose_files keep t total files -> (m, size) ∈ files -> m <= n -> m ∈ choose_files keep t total files.
Proof.
  induction 1 as [|[num sz] files _ IH Hall]; intros total n m size; cbn [choose_files]; [by intros ?%not_elem_of_nil|].
  destruct (_ || _); [by intros ?%not_elem_of_nil|].
  intros Hn [[= -> ->]|Hm]%elem_of_cons Hle; [by left|].
  apply elem_of_cons in Hn as [->|Hn]; [|right; by eapply IH].
  rewrite Forall_forall in Hall. pose proof (Hall _ Hm) as H1. unfold num_le in H1. cbn in H1.
  replace m with num by lia. by left.
Qed.

(** Only the queue, the current position and the files not in [D] survive. *)
Definition files_kept D b b' : Prop :=
  cur_file b' = cur_file b /\ write_tx b' = write_tx b /\
  forall n, n ∉ D -> file_bytes (bs_files b') n = file_bytes (bs_files b) n.

Lemma delete_block_file_spec n b :
  wp (delete_block_file n) (fun b' r => files_kept {[n]} b b' /\
    forall size, r = Ok size -> file_bytes (bs_files b') n = None /\ exists data, file_bytes (bs_files b) n = Some data /\ size = len data) b.
Proof.
  unfold wp, delete_block_file. destruct (_ >=? _); [done|]. unfold file_len.
  destruct (file_bytes (bs_files b) n) as [data|]; [|done].
  destruct (remove_file (bs_files b) n) as [f r] eqn:Hr. cbn. split.
  - split_and!; [done|done|]. intros m Hm. cbn. eapply remove_other; [exact Hr|set_solver].
  - destruct r as [[]|e]; [|done]. intros size [= <-]. split; [by eapply remove_gone|]. by exists data.
Qed.

Lemma files_kept_trans D1 D2 D b b1 b2 :
  D1 ⊆ D -> D2 ⊆ D -> files_kept D1 b b1 -> files_kept D2 b1 b2 -> files_kept D b b2.
Proof.
  intros HD1 HD2 (H1 & H2 & H3) (G1 & G2 & G3). split_and!; [congruence|congruence|].
  intros n Hn. rewrite G3, H3; [done| |]; intros Hin; apply Hn; [by apply HD1|by apply HD2].
Qed.

Lemma delete_files_spec nums : forall acc s,
  wp (foldS (fun acc num => n ← in_blocks (delete_block_file num); mret (u64 (acc.1 + n), u32 (acc.2 + 1))) acc nums)
    (fun s' r => ps_index s' = ps_index s /\ ps_utxo s' = ps_utxo s /\
      files_kept (list_to_set nums) (ps_blocks s) (ps_blocks s') /\
      (is_ok r -> forall n, n ∈ nums -> file_bytes (bs_files (ps_blocks s')) n = None)) s.
Proof.
  induction nums as [|n nums IH]; intros acc s; cbn [foldS].
  { apply wp_ret. split_and!; [done|done|done|]. by intros _ n ?%not_elem_of_nil. }
  apply wp_bind, wp_bind, wp_in_blocks. eapply wp_mono; [|apply delete_block_file_spec]. cbn beta.
  intros b [size|e] [Hk Hs].
  - apply wp_ret. cbn beta iota. eapply wp_mono; [|apply IH]. cbn. intros s' r (Hi & Hu & Hf & Hgone).
    split_and!; [done|done| |].
    + eapply (files_kept_trans {[n]} (list_to_set nums)); [set_solver|set_solver|done|done].
    + intros Hr m [->|Hm]%elem_of_cons; [|by apply Hgone]. destruct (decide (n ∈ nums)) as [Hin|Hin]; [by apply Hgone|].
      destruct Hf as (_ & _ & Hf). rewrite Hf by by rewrite elem_of_list_to_set. by apply (Hs size).
  - cbn. split_and!; [done|done| |done].
    eapply (files_kept_trans {[n]} ∅); [set_solver|set_solver|exact Hk|by split_and!].
Qed.

(** ** The invariant of the stores *)

(** The validated chain: the heights up to its tip.  Blocks above it are not
    connected, or not yet again. *)
Section Chain.
Context (tip : Z).
Abbreviation active h := (0 <= h <= tip).

(** The height index names different blocks; their files are in the order of
    the heights, because a block is stored when it is connected; files before
    the current one are there; the genesis block is not stored; nothing up to
    the recorded height is left. *)
Record prune_inv s : Prop := {
  pi_tip : fits 32 tip;
  pi_inj h h' x : active h -> active h' ->
    index_at (ps_index s) h = Some x -> index_at (ps_index s) h' = Some x -> h = h';
  pi_ordered h h' x x' p p' : active h -> active h' -> h <= h' ->
    index_at (ps_index s) h = Some x -> index_at (ps_index s) h' = Some x' ->
    pos_of (ps_index s) x = Some p -> pos_of (ps_index s) x' = Some p' -> file_num p <= file_num p';
  pi_current h x p : active h -> index_at (ps_index s) h = Some x -> pos_of (ps_index s) x = Some p ->
    file_num p <= cur_file (ps_blocks s);
  pi_live h x p : active h -> index_at (ps_index s) h = Some x -> pos_of (ps_index s) x = Some p ->
    fits 32 (file_num p) /\
    (file_num p < cur_file (ps_blocks s) -> is_Some (file_bytes (bs_files (ps_blocks s)) (file_num p)));
  pi_genesis x : index_at (ps_index s) 0 = Some x -> pos_of (ps_index s) x = None;
  pi_pruned k h x : pruned_of (ps_index s) = Some k ->
    (0 <= k < 2 ^ 32 - 1) /\ (0 <= h <= k -> index_at (ps_index s) h = Some x -> pos_of (ps_index s) x = None) }.

(** What every outcome of a pass with ceiling [c] guarantees. *)
Record pass_safe (c : Z) s s' : Prop := {
  ps_chain h : index_at (ps_index s') h = index_at (ps_index s) h;
  ps_recent h x : active h -> c < h -> index_at (ps_index s) h = Some x ->
    pos_of (ps_index s') x = pos_of (ps_index s) x /\ undo_at (ps_utxo s') x = undo_at (ps_utxo s) x;
  ps_retained h x p : active h -> index_at (ps_index s) h = Some x -> pos_of (ps_index s') x = Some p ->
    pos_of (ps_index s) x = Some p /\
    file_bytes (bs_files (ps_blocks s')) (file_num p) = file_bytes (bs_files (ps_blocks s)) (file_num p);
  ps_queue : cur_file (ps_blocks s') = cur_file (ps_blocks s) /\ write_tx (ps_blocks s') = write_tx (ps_blocks s);
  ps_inv : prune_inv s' }.

Lemma heights_split a c dn td :
  heights_between a c = dn ++ td ->
  (forall h, h ∈ dn <-> a <= h < a + len dn) /\
  (dn <> [] -> last dn = Some (a + len dn - 1)) /\ a + len dn <= Z.max a (c + 1) /\
  (forall h0 t, td = h0 :: t -> h0 = a + len dn).
Proof.
  intros Heq. set (k := Z.to_nat (c + 1 - a)).
  assert (Hk : length (dn ++ td) = k) by (rewrite <- Heq; unfold heights_between; by rewrite length_map, length_seq).
  rewrite length_app in Hk.
  assert (Hi : forall i y, (dn ++ td) !! i = Some y -> y = a + Z.of_nat i /\ (i < k)%nat).
  { intros i y. rewrite <- Heq. unfold heights_between. rewrite list_lookup_fmap.
    intros (j & Hj & ->)%fmap_Some. apply lookup_seq in Hj as [-> Hj]. cbn. split; [done|exact Hj]. }
  split_and!.
  - intros h. rewrite list_elem_of_lookup. split.
    + intros [i Hh]. pose proof (lookup_lt_Some _ _ _ Hh). destruct (Hi i h) as [-> _]; [by apply lookup_app_l_Some|]. unfold len. lia.
    + intros Hh. exists (Z.to_nat (h - a)). destruct (lookup_lt_is_Some_2 dn (Z.to_nat (h - a))) as [y Hy]; [unfold len in Hh; lia|].
      destruct (Hi (Z.to_nat (h - a)) y) as [Hyy _]; [by apply lookup_app_l_Some|]. rewrite Hy. f_equal. lia.
  - intros Hne. rewrite last_lookup. destruct dn as [|y0 dn]; [done|].
    destruct (lookup_lt_is_Some_2 (y0 :: dn) (pred (length (y0 :: dn)))) as [y Hy]; [cbn; lia|].
    destruct (Hi _ y (lookup_app_l_Some _ _ _ _ Hy)) as [Hyy _]. rewrite Hy. f_equal. rewrite Hyy. unfold len. cbn. lia.
  - unfold len. lia.
  - intros h0 t ->. destruct (Hi (length dn) h0) as [-> _]; [by rewrite list_lookup_middle|done].
Qed.

(** *** Before any file is deleted *)

Lemma entries_safe D start c s s1 :
  0 <= start -> active c -> prune_inv s -> pruned_from D (heights_between start c) s s1 -> pass_safe c s s1.
Proof.
  intros Hst Hc Hinv Hp.
  assert (Hback : forall x p, pos_of (ps_index s1) x = Some p -> pos_of (ps_index s) x = Some p)
    by (intros; by eapply pf_pos_back).
  assert (Hnot : forall h x, active h -> c < h -> index_at (ps_index s) h = Some x -> ~ touched D (heights_between start c) s x).
  { intros h x Hh Hch Hx (h' & p & Hin & Hx' & _). pose proof (heights_split start c (heights_between start c) [] ltac:(by rewrite app_nil_r)) as (Hm & _ & Hle & _).
    apply Hm in Hin. assert (h' = h) by (eapply (pi_inj _ Hinv); eauto; lia). lia. }
  split.
  - intros h. by eapply pf_index.
  - intros h x Hh Hch Hx. pose proof (Hnot h x Hh Hch Hx). split.
    + by destruct (pf_pos _ _ _ _ Hp x) as [|[_ ?]].
    + by destruct (pf_undo _ _ _ _ Hp x).
  - intros h x p Hh Hx Hpos. split; [by apply Hback|]. by rewrite (pf_blocks _ _ _ _ Hp).
  - by rewrite (pf_blocks _ _ _ _ Hp).
  - destruct Hinv as [Htip Hinj Hord Hcurr Hlive Hgen Hpr]. assert (Hix := fun h => pf_index _ _ _ _ h Hp).
    split; intros *; rewrite ?Hix.
    + done.
    + apply Hinj.
    + intros ? ? ? ? ? Hp1 Hp2. eapply (Hord h h' x x'); auto.
    + intros ? ? Hp1. rewrite (pf_blocks _ _ _ _ Hp). eapply (Hcurr h x); auto.
    + intros ? ? Hp1. rewrite (pf_blocks _ _ _ _ Hp). eapply (Hlive h x); auto.
    + intros Hx. eapply pf_pos_none; [exact Hp|by apply Hgen].
    + intros Hk. destruct (Hpr k h x) as [Hkb Hk2].
      { unfold pruned_of in *. by rewrite <- (pf_other _ _ _ _ Hp). }
      split; [done|]. intros Hh Hx. eapply pf_pos_none; [exact Hp|by apply Hk2].
Qed.

(** *** After the scan *)

(** Doomed files are older than every file that holds a block above the
    ceiling, and no older file survives. *)
Definition doomed D (c : Z) s : Prop :=
  (forall n, n ∈ D -> 0 <= n < cur_file (ps_blocks s)) /\
  (forall h x p, active h -> c < h -> index_at (ps_index s) h = Some x -> pos_of (ps_index s) x = Some p -> file_num p ∉ D) /\
  (forall n m, n ∈ D -> m <= n -> fits 32 m -> is_Some (file_bytes (bs_files (ps_blocks s)) m) -> m ∈ D).

Lemma scan_result D start c q s s1 :
  prune_inv s -> doomed D c s -> active c -> start = match pruned_of (ps_index s) with Some k => k + 1 | None => 0 end ->
  pruned_from D (heights_between start c) s s1 -> scanned D (heights_between start c) (sat_sub start 1) q s s1 ->
  ~ q < start ->
  start <= q <= c /\ (forall h x, 0 <= h <= q -> index_at (ps_index s) h = Some x -> pos_of (ps_index s1) x = None) /\
  (forall h x p, active h -> q < h -> index_at (ps_index s) h = Some x -> pos_of (ps_index s) x = Some p -> file_num p ∉ D).
Proof.
  intros Hinv (Hcur & Habove & Hdown) Hc Hstart Hp (dn & td & Heq & Hq & Hdn & Htd) Hge.
  destruct (heights_split _ _ _ _ Heq) as (Hmem & Hlast & Hlen & Hhead).
  assert (Hst : 0 <= start).
  { rewrite Hstart. destruct (pruned_of _) as [k|] eqn:Hk; [|done]. destruct (pi_pruned _ Hinv k 0 [] Hk) as [? _]. lia. }
  assert (Hne : dn <> []).
  { intros ->. cbn in Hq. unfold sat_sub in Hq. assert (start = 0) as -> by lia.
    destruct Htd as [->|(h0 & t & x & p0 & -> & Hx & Hpx & _)].
    - apply (f_equal length) in Heq. unfold heights_between in Heq. rewrite length_map, length_seq in Heq. cbn in Heq. lia.
    - rewrite (Hhead _ _ eq_refl) in Hx. change (index_at (ps_index s) 0 = Some x) in Hx. pose proof (pi_genesis _ Hinv x Hx). congruence. }
  rewrite (Hlast Hne) in Hq. cbn in Hq.
  assert (Hln : 0 < len dn) by (unfold len; destruct dn; [done|cbn; lia]).
  assert (Hgone : forall h x, 0 <= h <= q -> index_at (ps_index s) h = Some x -> pos_of (ps_index s1) x = None).
  { intros h x Hh Hx. destruct (decide (h < start)) as [Hlt|Hlt]; [|apply (Hdn h); [apply Hmem; lia|done]].
    eapply pf_pos_none; [exact Hp|]. destruct (pruned_of (ps_index s)) as [k|] eqn:Hk; [|lia].
    destruct (pi_pruned _ Hinv k h x Hk) as [_ Hno]. apply Hno; [lia|done]. }
  split_and!; [lia|lia|done|]. intros h x p Hh Hhq Hx Hpos HinD.
  destruct (decide (c < h)) as [Hch|Hch]; [by eapply Habove|].
  destruct Htd as [->|(h0 & t & x0 & p0 & -> & Hx0 & Hp0 & Hf0)].
  - apply (f_equal length) in Heq. rewrite app_nil_r in Heq. unfold heights_between in Heq. rewrite length_map, length_seq in Heq. unfold len in *. lia.
  - pose proof (Hhead _ _ eq_refl) as Hh0.
    assert (Hf : file_num p0 <= file_num p) by (eapply (pi_ordered _ Hinv h0 h); eauto; lia).
    destruct (pi_live _ Hinv h0 x0 p0) as [Hfit Hex]; [lia|done|done|].
    apply Hf0. apply (Hdown (file_num p)); [done|done|done|]. apply Hex. pose proof (Hcur _ HinD). lia.
Qed.

(** *** Recording the height and deleting the files *)

Lemma pass_record c q s s1 hi :
  fits 32 q -> q < 2 ^ 32 - 1 -> pass_safe c s s1 ->
  (forall h x, 0 <= h <= q -> index_at (ps_index s) h = Some x -> pos_of (ps_index s1) x = None) ->
  (forall cf k, contents (hi_db hi) cf k = apply_op (contents (hi_db (ps_index s1))) (Put CF_HMETA META_PRUNED_HEIGHT (to_le 4 q)) cf k) ->
  let s2 := mkStores (ps_blocks s1) hi (ps_utxo s1) in
  pass_safe c s s2 /\ (forall x, pos_of hi x = pos_of (ps_index s1) x) /\ pruned_of hi = Some q.
Proof.
  intros Hq Hq' [Hch Hrec Hret Hqu Hinv] Hgone Hc s2.
  assert (Hsame : forall cf k, cf <> CF_HMETA -> contents (hi_db hi) cf k = contents (hi_db (ps_index s1)) cf k)
    by (intros cf k Hcf; rewrite Hc; unfold apply_op; by rewrite bool_decide_eq_false_2 by naive_solver).
  assert (Hpos : forall x, pos_of hi x = pos_of (ps_index s1) x) by (intros x; unfold pos_of; by rewrite Hsame).
  assert (Hix : forall h, index_at hi h = index_at (ps_index s1) h) by (intros h; unfold index_at; by rewrite Hsame).
  assert (Hpr : pruned_of hi = Some q).
  { unfold pruned_of. rewrite Hc. unfold apply_op. rewrite bool_decide_eq_true_2 by done. cbn -[to_le from_le].
    f_equal. rewrite from_to_le. by apply Z.mod_small. }
  split_and!; [|done|done]. split; cbn [ps_blocks ps_index ps_utxo s2]; intros *; rewrite ?Hix, ?Hpos; [apply Hch|apply Hrec|apply Hret|done|].
  destruct Hinv as [Htip Hinj Hord Hcurr Hlive Hgen _]. split; cbn [ps_blocks ps_index s2]; intros *; rewrite ?Hix, ?Hpos;
    [done|apply Hinj|apply Hord|apply Hcurr|apply Hlive|apply Hgen|].
  rewrite Hpr. intros [= <-]. split; [unfold fits in Hq; lia|]. rewrite Hch. apply Hgone.
Qed.

Lemma pass_same c s s1 hi :
  pass_safe c s s1 -> (forall cf k, contents (hi_db hi) cf k = contents (hi_db (ps_index s1)) cf k) ->
  pass_safe c s (mkStores (ps_blocks s1) hi (ps_utxo s1)).
Proof.
  intros [Hch Hrec Hret Hqu [Htip Hinj Hord Hcurr Hlive Hgen Hpr]] Hc.
  assert (Hpos : forall x, pos_of hi x = pos_of (ps_index s1) x) by (intros x; unfold pos_of; by rewrite Hc).
  assert (Hix : forall h, index_at hi h = index_at (ps_index s1) h) by (intros h; unfold index_at; by rewrite Hc).
  assert (Hp : pruned_of hi = pruned_of (ps_index s1)) by (unfold pruned_of; by rewrite Hc).
  split; cbn [ps_blocks ps_index ps_utxo]; intros *; rewrite ?Hix, ?Hpos; [apply Hch|apply Hrec|apply Hret|done|].
  split; cbn [ps_blocks ps_index]; intros *; rewrite ?Hix, ?Hpos, ?Hp; [done|apply Hinj|apply Hord|apply Hcurr|apply Hlive|apply Hgen|apply Hpr].
Qed.

Lemma pass_delete D c s s2 s3 :
  pass_safe c s s2 -> ps_blocks s2 = ps_blocks s -> ps_index s3 = ps_index s2 -> ps_utxo s3 = ps_utxo s2 ->
  files_kept D (ps_blocks s2) (ps_blocks s3) ->
  (forall h x p, active h -> index_at (ps_index s) h = Some x -> pos_of (ps_index s2) x = Some p -> file_num p ∉ D) ->
  pass_safe c s s3.
Proof.
  intros [Hch Hrec Hret Hqu Hinv] Hb Hi Hu (Hcur & Hw & Hf) HD'. split; rewrite ?Hi, ?Hu, ?Hcur, ?Hw; [done|done| |done|].
  - intros h x p Hh Hx Hp. split; [by apply (Hret h)|]. rewrite Hf, Hb; [done|]. by eapply HD'.
  - destruct Hinv as [Htip Hinj Hord Hcurr Hlive Hgen Hpr]. split; rewrite ?Hi, ?Hcur; [done..| |done|done].
    intros h x p Hh Hx Hp. rewrite Hf; [by eapply Hlive|]. eapply HD'; [done| |done]. by rewrite <- Hch.
Qed.

(** ** The byte target *)

Definition total_size (files : list (Z * Z)) : Z := foldr (fun f t => f.2 + t) 0 files.

Lemma total_size_cons f files : total_size (f :: files) = f.2 + total_size files.
Proof. done. Qed.

Lemma total_size_nonneg files : Forall (fun f => 0 <= f.2) files -> 0 <= total_size files.
Proof. induction 1; [done|]. rewrite total_size_cons. lia. Qed.

Lemma foldl_total files : forall t0,
  Forall (fun f => 0 <= f.2) files -> 0 <= t0 -> t0 + total_size files < 2 ^ 64 ->
  foldl (fun t (f : Z * Z) => u64 (t + f.2)) t0 files = t0 + total_size files.
Proof.
  induction files as [|[n z] files IH]; intros t0 Hz H0 Hlt; [cbn; lia|]. inversion_clear Hz as [|?? Hz0 Hz'].
  rewrite total_size_cons in *. cbn [foldl fst snd] in *. pose proof (total_size_nonneg _ Hz').
  rewrite wrap_small by (unfold fits; lia). rewrite IH; [lia|done|lia|lia].
Qed.

Lemma choose_files_budget keep t files : forall total,
  StronglySorted num_le files -> Forall (fun f => 0 <= f.2) files -> total = total_size files -> total < 2 ^ 64 ->
  exists pre suf, files = pre ++ suf /\ choose_files keep t total files = pre.*1 /\
    (total_size suf <= t \/ Forall (fun f => keep <= f.1) suf).
Proof.
  induction files as [|[n z] files IH]; intros total Hs Hz Ht Hlt.
  { exists [], []. split_and!; [done|done|by right]. }
  inversion_clear Hs as [|?? Hs' Hall]. inversion_clear Hz as [|?? Hz0 Hz']. cbn [choose_files fst snd] in *.
  destruct (Z.geb_spec n keep) as [Hk|Hk]; cbn [orb].
  { exists [], ((n, z) :: files). split_and!; [done|done|right]. constructor; [cbn; lia|].
    eapply Forall_impl; [exact Hall|]. intros [m y]. unfold num_le. cbn. lia. }
  destruct (Z.leb_spec total t) as [Hle|Hle].
  { exists [], ((n, z) :: files). split_and!; [done|done|left; lia]. }
  rewrite total_size_cons in Ht. cbn [snd] in Ht. pose proof (total_size_nonneg _ Hz').
  rewrite wrap_small by (unfold fits; lia).
  destruct (IH (total - z) Hs' Hz' ltac:(lia) ltac:(lia)) as (pre & suf & -> & Hc & Hor).
  exists ((n, z) :: pre), suf. split_and!; [done|cbn; by rewrite Hc|done].
Qed.

Lemma total_size_filter (P : Z * Z -> Prop) `{!forall f, Decision (P f)} files :
  Forall (fun f => 0 <= f.2) files -> total_size (filter P files) <= total_size files.
Proof.
  induction 1 as [|f files Hf _ IH]; [done|]. rewrite filter_cons. case_decide; rewrite ?total_size_cons; lia.
Qed.

(** What is left after removing the chosen files is within the target, or is
    all needed. *)
Lemma left_over keep t files D :
  StronglySorted num_le files -> Forall (fun f => 0 <= f.2) files -> total_size files < 2 ^ 64 ->
  D = list_to_set (choose_files keep t (total_size files) files) ->
  total_size (filter (fun f => f.1 ∉ D) files) <= t \/ forall n z, (n, z) ∈ files -> n ∉ D -> keep <= n.
Proof.
  intros Hs Hz Hlt ->. destruct (choose_files_budget keep t files _ Hs Hz eq_refl Hlt) as (pre & suf & Heq & Hc & Hor).
  rewrite Hc. assert (Hpre : forall n z, (n, z) ∈ pre -> n ∈ (list_to_set pre.*1 : gset Z)).
  { intros n z Hin. apply elem_of_list_to_set, list_elem_of_fmap. by exists (n, z). }
  destruct Hor as [Hle|Hall]; [left|right].
  - rewrite Heq, filter_app. replace (filter _ pre) with (@nil (Z * Z)).
    + cbn. etrans; [apply total_size_filter|exact Hle]. rewrite Heq in Hz. by apply Forall_app in Hz as [_ Hz].
    + symmetry. apply length_zero_iff_nil. destruct (filter _ pre) as [|[n z] l] eqn:Hf; [done|exfalso].
      assert (Hin : (n, z) ∈ filter (fun f : Z * Z => f.1 ∉ (list_to_set pre.*1 : gset Z)) pre) by (rewrite Hf; by left).
      apply list_elem_of_filter in Hin as [Hno Hin]. apply Hno. by eapply Hpre.
  - intros n z Hin Hno. rewrite Heq in Hin. apply elem_of_app in Hin as [Hin|Hin]; [by destruct Hno; eapply Hpre|].
    rewrite Forall_forall in Hall. by apply (Hall (n, z)).
Qed.

(** ** One pass *)

(** What a pass that deleted files has done. *)
Record pass_report (c t : Z) s s' (rep : PruneReport) : Prop := {
  pr_height : 0 <= pruned_height rep <= c;
  pr_mark : pruned_of (ps_index s') = Some (pruned_height rep);
  pr_gone h x : 0 <= h <= pruned_height rep -> index_at (ps_index s) h = Some x -> pos_of (ps_index s') x = None;
  pr_kept h x : active h -> pruned_height rep < h -> index_at (ps_index s) h = Some x ->
    pos_of (ps_index s') x = pos_of (ps_index s) x /\ undo_at (ps_utxo s') x = undo_at (ps_utxo s) x;
  pr_files : exists D files, D <> ∅ /\ doomed D c s /\
    (forall n, file_bytes (bs_files (ps_blocks s')) n = if bool_decide (n ∈ D) then None else file_bytes (bs_files (ps_blocks s)) n) /\
    list_block_files (ps_blocks s) = Ok files /\
    (Forall (fun f => 0 <= f.2) files -> total_size files < 2 ^ 64 ->
      total_size (filter (fun f => f.1 ∉ D) files) <= t \/
      exists x p, index_at (ps_index s) (c + 1) = Some x /\ pos_of (ps_index s) x = Some p /\
        forall n z, (n, z) ∈ files -> n ∉ D -> Z.min (file_num p) (cur_file (ps_blocks s)) <= n) }.

Lemma hash_pos_file_spec hi h f :
  hash_pos_file hi h = Ok (Some f) -> exists x p, index_at hi h = Some x /\ pos_of hi x = Some p /\ f = file_num p.
Proof.
  unfold hash_pos_file. destruct (get_hash_at_height hi h) as [[x|]|] eqn:Hg; cbn [mbind result_bind]; [|done|done].
  apply get_hash_contents in Hg. destruct (get_block_pos hi x) as [[p|]|] eqn:Hp; cbn; [|done|done].
  apply get_block_pos_contents in Hp. intros [= <-]. by exists x, p.
Qed.

Lemma chosen_doomed c t total files x p s :
  prune_inv s -> 0 <= c < tip -> list_block_files (ps_blocks s) = Ok files ->
  index_at (ps_index s) (c + 1) = Some x -> pos_of (ps_index s) x = Some p ->
  doomed (list_to_set (choose_files (Z.min (file_num p) (cur_file (ps_blocks s))) t total files)) c s.
Proof.
  intros Hinv Hc Hfiles Hx Hp. destruct (list_block_files_spec _ _ Hfiles) as (Hsort & Hnn & Hlist). split_and!.
  - intros n Hn. apply elem_of_list_to_set in Hn. pose proof (Hnn n (choose_files_mem _ _ _ _ _ Hn)). apply choose_files_lt in Hn. lia.
  - intros h y py Hh Hch Hy Hpy Hin. apply elem_of_list_to_set, choose_files_lt in Hin.
    pose proof (pi_ordered _ Hinv (c + 1) h x y p py ltac:(lia) Hh ltac:(lia) Hx Hy Hp Hpy). lia.
  - intros n m Hn Hle Hm [data Hd]. rewrite elem_of_list_to_set in *.
    by eapply choose_files_down; [exact Hsort|exact Hn|by apply Hlist|].
Qed.

(** The report of a completed pass. *)
Lemma report_made D files start c t q x p s s1 s3 n freed :
  list_block_files (ps_blocks s) = Ok files -> index_at (ps_index s) (c + 1) = Some x -> pos_of (ps_index s) x = Some p ->
  D = list_to_set (choose_files (Z.min (file_num p) (cur_file (ps_blocks s))) t
        (foldl (fun t (f : Z * Z) => u64 (t + f.2)) 0 files) files) ->
  D <> ∅ -> doomed D c s -> pruned_from D (heights_between start c) s s1 -> 0 <= start -> start <= q <= c ->
  (forall h y, 0 <= h <= q -> index_at (ps_index s) h = Some y -> pos_of (ps_index s1) y = None) ->
  (forall h y py, active h -> q < h -> index_at (ps_index s) h = Some y -> pos_of (ps_index s) y = Some py -> file_num py ∉ D) ->
  pruned_of (ps_index s3) = Some q -> (forall y, pos_of (ps_index s3) y = pos_of (ps_index s1) y) -> ps_utxo s3 = ps_utxo s1 ->
  (forall m, file_bytes (bs_files (ps_blocks s3)) m = if bool_decide (m ∈ D) then None else file_bytes (bs_files (ps_blocks s)) m) ->
  pass_report c t s s3 (mkReport n freed q).
Proof.
  intros Hfiles Hx Hp HDeq HD0 Hdoom Hpf Hst Hqc Hgone Habove Hmark Hpos Hu Hf. split; cbn [pruned_height].
  - lia.
  - done.
  - intros h y Hh Hy. rewrite Hpos. by apply (Hgone h).
  - intros h y Hh Hlt Hy. rewrite Hpos, Hu.
    assert (Hno : ~ touched D (heights_between start c) s y).
    { intros (h' & p' & Hin & Hy' & Hp' & HinD). eapply Habove; [exact Hh|exact Hlt|exact Hy|exact Hp'|exact HinD]. }
    split; [by destruct (pf_pos _ _ _ _ Hpf y) as [|[_ ?]]|by destruct (pf_undo _ _ _ _ Hpf y)].
  - exists D, files. split_and!; [done|done|done|done|].
    intros Hz Hlt. destruct (list_block_files_spec _ _ Hfiles) as [Hsort _].
    assert (Ht : foldl (fun t (f : Z * Z) => u64 (t + f.2)) 0 files = total_size files) by (rewrite foldl_total; [lia|done|lia|lia]).
    rewrite Ht in HDeq. destruct (left_over _ t files D Hsort Hz Hlt HDeq); [by left|right]. by exists x, p.
Qed.

(** The part of the pass that writes. *)
Lemma prune_work_safe c t files start x p s :
  prune_inv s -> 0 <= c < tip -> list_block_files (ps_blocks s) = Ok files ->
  index_at (ps_index s) (c + 1) = Some x -> pos_of (ps_index s) x = Some p ->
  start = match pruned_of (ps_index s) with Some k => k + 1 | None => 0 end ->
  let total := foldl (fun t (f : Z * Z) => u64 (t + f.2)) 0 files in
  let D := list_to_set (choose_files (Z.min (file_num p) (cur_file (ps_blocks s))) t total files) in
  D <> ∅ ->
  wp (pruned_height ← prune_entries D (heights_between start c) (sat_sub start 1);
      _ ← lift (guard_err (pruned_height <? start) (Serialization "prune: no indexed blocks found in files; refusing to delete"));
      _ ← in_index (set_pruned_height pruned_height);
      _ ← in_index flush_wal;
      '(bytes_freed, files_deleted) ← delete_files (merge_sort Z.le (elements D));
      mret (Some (mkReport files_deleted bytes_freed pruned_height)))
    (fun s' r => pass_safe c s s' /\ (r <> Ok None) /\ forall rep, r = Ok (Some rep) -> pass_report c t s s' rep) s.
Proof.
  intros Hinv Hc Hfiles Hx Hp Hstart total D HD0. pose proof (pi_tip _ Hinv) as Htip. unfold fits in Htip.
  pose proof (chosen_doomed c t total files x p s Hinv Hc Hfiles Hx Hp : doomed D c s) as Hdoom.
  assert (Hst : 0 <= start).
  { rewrite Hstart. destruct (pruned_of _) as [k|] eqn:Hk; [|done]. destruct (pi_pruned _ Hinv k 0 [] Hk) as [? _]. lia. }
  apply wp_bind. eapply wp_mono; [|apply prune_entries_spec]. cbn beta. intros s1 r [Hpf Hscan].
  pose proof (entries_safe D start c s s1 Hst ltac:(lia) Hinv Hpf) as Hsafe1.
  destruct r as [q|e]; [|by split_and!]. apply wp_bind, wp_lift.
  destruct (Z.ltb_spec q start) as [Hq|Hq]; [by split_and!|]. cbn [guard_err].
  destruct (scan_result D start c q s s1) as (Hqc & Hgone & Habove); auto; [lia|lia|].
  apply wp_bind, wp_in_index. eapply wp_mono; [|apply one_write]. cbn beta. intros hi [[]|e] Hhi.
  2: { split_and!; [by apply pass_same|done|done]. }
  destruct (pass_record c q s s1 hi) as (Hsafe2 & Hpos2 & Hmark); [unfold fits; lia|lia|done|done|done|].
  set (s2 := mkStores (ps_blocks s1) hi (ps_utxo s1)) in *.
  apply wp_bind, wp_in_index. unfold flush_wal, wp at 1. cbn [fst snd].
  change (mkStores (ps_blocks s2) (ps_index s2) (ps_utxo s2)) with s2.
  destruct (db_flush_wal _) as [[]|e]; [|by split_and!].
  apply wp_bind. unfold delete_files. eapply wp_mono; [|apply delete_files_spec]. cbn beta. intros s3 r (Hi3 & Hu3 & Hf3 & Hdel).
  assert (HnD : forall n, n ∈ merge_sort Z.le (elements D) <-> n ∈ D) by (intros n; by rewrite merge_sort_Permutation, elem_of_elements).
  assert (Hlist : (list_to_set (merge_sort Z.le (elements D)) : gset Z) = D) by (apply set_eq; intros n; by rewrite elem_of_list_to_set).
  rewrite Hlist in Hf3.
  assert (Hb2 : ps_blocks s2 = ps_blocks s) by apply (pf_blocks _ _ _ _ Hpf).
  assert (Hsafe3 : pass_safe c s s3).
  { eapply (pass_delete D c s s2 s3); [done..|]. intros h y py Hh Hy Hpy. cbn [s2 ps_index] in Hpy. rewrite Hpos2 in Hpy.
    destruct (decide (q < h)) as [Hlt|Hlt]; [eapply Habove; eauto; by eapply pf_pos_back|].
    rewrite (Hgone h y) in Hpy; [done|lia|done]. }
  destruct r as [[freed n]|e]; [|by split_and!]. apply wp_ret. split_and!; [done|done|]. intros rep [= <-].
  eapply (report_made D files start c t q x p s s1 s3); rewrite ?Hi3, ?Hu3; try done.
  intros m. case_bool_decide as Hm; [by apply Hdel, HnD|]. destruct Hf3 as (_ & _ & Hf3). by rewrite Hf3, Hb2.
Qed.

Lemma pass_unchanged c s : prune_inv s -> pass_safe c s s.
Proof. by split. Qed.

Lemma prune_pass c t s :
  prune_inv s -> 0 <= c < tip ->
  wp (prune_block_files c t)
    (fun s' r => pass_safe c s s' /\ (r = Ok None -> s' = s) /\ forall rep, r = Ok (Some rep) -> pass_report c t s s' rep) s.
Proof.
  intros Hinv Hc. pose proof (pass_unchanged c s Hinv). pose proof (pi_tip _ Hinv) as Htip. unfold fits in Htip.
  unfold prune_block_files.
  apply wp_bind, wp_gets. cbn beta iota. apply wp_bind, wp_lift.
  destruct (list_block_files (ps_blocks s)) as [files|e] eqn:Hfiles; [|by split_and!].
  cbn zeta. destruct (_ <=? t); [by apply wp_ret; split_and!|].
  apply wp_bind, wp_gets. cbn beta iota. apply wp_bind, wp_lift. rewrite wrap_small by (unfold fits; lia).
  destruct (hash_pos_file (ps_index s) (c + 1)) as [[f|]|e] eqn:Hk; [|by apply wp_ret; split_and!|by split_and!].
  destruct (hash_pos_file_spec _ _ _ Hk) as (x & p & Hx & Hp & ->).
  case_bool_decide as HD0; [by apply wp_ret; split_and!|]. apply wp_bind, wp_lift.
  destruct (get_pruned_height (ps_index s)) as [po|e] eqn:Hpr; [|by split_and!]. apply get_pruned_contents in Hpr.
  assert (Hstart : match po with Some h => u32 (h + 1) | None => 0 end = match pruned_of (ps_index s) with Some k => k + 1 | None => 0 end).
  { rewrite <- Hpr. destruct po as [k|]; [|done]. destruct (pi_pruned _ Hinv k 0 [] ltac:(done)) as [? _]. apply wrap_small. unfold fits. lia. }
  rewrite Hstart. eapply wp_mono; [|by eapply prune_work_safe]. cbn beta. intros s' r (H1 & H2 & H3). by split_and!.
Qed.

(** Reading back: what was in the files still is, what was queued still is. *)
Lemma kept_reads c s s' h x p raw :
  pass_safe c s s' -> active h -> index_at (ps_index s) h = Some x -> pos_of (ps_index s') x = Some p ->
  (on_disk (ps_blocks s) p raw -> read_block p (ps_blocks s') = (ps_blocks s', Ok raw)) /\
  (holds (ps_blocks s) p raw -> holds (ps_blocks s') p raw).
Proof.
  intros Hsafe Hh Hx Hp. destruct (ps_retained _ _ _ Hsafe h x p Hh Hx Hp) as [_ Hf].
  destruct (ps_queue _ _ _ Hsafe) as [_ Hq]. split.
  - intros Hd. apply read_block_disk. unfold on_disk, holds_in, on_file in *. by rewrite Hf.
  - unfold holds, holds_in, view, on_file. by rewrite Hf, Hq.
Qed.
End Chain.

(** Where the order comes from: a block connected on top of the tip is stored
    in the current file, whatever position it had before. *)
Lemma prune_inv_connect tip s s1 x p :
  prune_inv tip s -> 0 <= tip -> fits 32 (tip + 1) -> (forall k, pruned_of (ps_index s) = Some k -> k <= tip) ->
  (forall h, 0 <= h <= tip -> index_at (ps_index s1) h = index_at (ps_index s) h /\ index_at (ps_index s) h <> Some x) ->
  index_at (ps_index s1) (tip + 1) = Some x -> (forall y, y <> x -> pos_of (ps_index s1) y = pos_of (ps_index s) y) ->
  pos_of (ps_index s1) x = Some p -> file_num p = cur_file (ps_blocks s1) -> fits 32 (file_num p) ->
  cur_file (ps_blocks s) <= cur_file (ps_blocks s1) -> pruned_of (ps_index s1) = pruned_of (ps_index s) ->
  (forall n, n < cur_file (ps_blocks s1) -> is_Some (file_bytes (bs_files (ps_blocks s)) n) \/ n = cur_file (ps_blocks s) ->
    is_Some (file_bytes (bs_files (ps_blocks s1)) n)) ->
  prune_inv (tip + 1) s1.
Proof.
  intros [Htip Hinj Hord Hcurr Hlive Hgen Hpr] H0 Hfit Hk Hix Hx Hpos Hp Hfile Hfp Hcur Hpruned Hfiles.
  assert (Hat : forall h y, 0 <= h <= tip + 1 -> index_at (ps_index s1) h = Some y ->
    (h = tip + 1 /\ y = x) \/ (0 <= h <= tip /\ index_at (ps_index s) h = Some y /\ y <> x)).
  { intros h y Hh Hy. destruct (decide (h = tip + 1)) as [->|Hne]; [left; split; congruence|right].
    destruct (Hix h ltac:(lia)) as [Heq Hno]. split_and!; first [lia|congruence]. }
  assert (Hold : forall y q, y <> x -> pos_of (ps_index s1) y = Some q -> pos_of (ps_index s) y = Some q)
    by (intros y q Hy; by rewrite Hpos).
  split; [done|..].
  - intros h h' y Hh Hh' [[-> ->]|(? & Hy & Hn)]%Hat [[-> Hy']|(? & Hy' & Hn')]%Hat; try done. by eapply Hinj.
  - intros h h' y y' q q' Hh Hh' Hle [[-> ->]|(? & Hy & Hn)]%Hat [[-> ->]|(? & Hy' & Hn')]%Hat Hq Hq'; try done; try lia.
    + assert (q = q') as -> by congruence. done.
    + assert (q' = p) as -> by congruence. pose proof (Hcurr h y q ltac:(lia) Hy (Hold _ _ Hn Hq)). lia.
    + eapply (Hord h h' y y'); eauto.
  - intros h y q Hh [[-> ->]|(? & Hy & Hn)]%Hat Hq; [|pose proof (Hcurr h y q ltac:(lia) Hy (Hold _ _ Hn Hq)); lia|done].
    assert (q = p) as -> by congruence. lia.
  - intros h y q Hh [[-> ->]|(? & Hy & Hn)]%Hat Hq; [by assert (q = p) as -> by congruence; split; [|lia]| |done].
    destruct (Hlive h y q ltac:(lia) Hy (Hold _ _ Hn Hq)) as [Hf Hl]. split; [done|]. intros Hlt. apply Hfiles; [done|].
    pose proof (Hcurr h y q ltac:(lia) Hy (Hold _ _ Hn Hq)). destruct (decide (file_num q = cur_file (ps_blocks s))); [by right|].
    left. apply Hl. lia.
  - intros y [[? _]|(? & Hy & Hn)]%Hat; [lia| |lia]. rewrite Hpos by done. by apply Hgen.
  - intros k h y. rewrite Hpruned. intros Hpk. destruct (Hpr k h y Hpk) as [Hb Hno]. split; [done|]. intros Hh Hy.
    pose proof (Hk k Hpk). apply Hat in Hy as [[? _]|(? & Hy & Hn)]; [lia| |lia]. rewrite Hpos by done. by apply Hno.
Qed.

(** Disconnecting blocks only makes the chain shorter. *)
Lemma prune_inv_shorter tip tip' s : prune_inv tip s -> 0 <= tip' <= tip -> prune_inv tip' s.
Proof.
  intros [Htip Hinj Hord Hcurr Hlive Hgen Hpr] Hle. split; [unfold fits in *; lia|..|done|done]; intros h *.
  - intros ? ?. apply Hinj; lia.
  - intros ? ?. apply Hord; lia.
  - intros ?. apply Hcurr; lia.
  - intros ?. apply Hlive; lia.
Qed.

Lemma ceiling_bounds tip v m c :
  fits 32 tip -> prune_ceiling tip v m = Some c -> (forall y, v = Some y -> 0 <= y) -> (forall y, m = Some y -> 0 <= y) ->
  0 <= c /\ c + MIN_KEEP_BLOCKS <= tip /\ (forall y, v = Some y -> c <= y) /\ (forall y, m = Some y -> c <= y) /\ v <> None.
Proof.
  unfold fits, prune_ceiling, MIN_KEEP_BLOCKS. intros Ht. destruct (Z.ltb_spec tip 288); [done|].
  destruct v as [v|], m as [m|]; cbn; intros Hc Hv Hm; match type of Hc with context [?a =? 0] => destruct (Z.eqb_spec a 0) end; try done; injection Hc as <-;
    try (specialize (Hv _ eq_refl)); try (specialize (Hm _ eq_refl)); split_and!; try lia; try done; intros y [= <-]; lia.
Qed.
End Proofs.

(** ** Theorems *)

Section Theorems.
Context `{HR : RocksDb} `{HW : !RocksWal} `{HRL : !RocksLaws}.
Context `{HF : BlockFiles} `{HFL : !BlockFilesLaws} `{HD : !BlockDir} `{HDL : !BlockDirLaws}.

(** C33: pruning is safe for the validated chain, whatever step of the pass
    fails.  The pruner relies on the files of the chain's blocks following the
    heights up to the validated tip (the order in which they are connected; not
    so above the tip, where blocks waiting to be replayed keep older
    positions), on full files being there and on the recorded pruned height.
    From such stores, with the node's ceiling, a pass re-establishes this;
    blocks of the last 288 heights up to the tip, and those above the last
    flushed height, keep position and undo record; every block of the chain
    that still has a position and whose bytes were in its file reads back at
    once, and bytes still queued for the writer stay queued; a pass that
    deleted files has removed the positions of exactly the heights up to the
    one it reports, and what is left is within the byte target or must all be
    kept.  Positions of blocks off the chain may dangle. *)
Theorem prune_keeps_chain_readable (s s' : Stores) (tip v c t : Z) (m : option Z) (r : StorageResult (option PruneReport)) :
  prune_inv tip s -> 0 <= v -> (forall y, m = Some y -> 0 <= y) ->
  prune_ceiling tip (Some v) m = Some c -> prune_block_files c t s = (s', r) ->
  prune_inv tip s' /\
  (forall h x, 0 <= h <= tip -> tip - MIN_KEEP_BLOCKS < h \/ v < h -> index_at (ps_index s) h = Some x ->
    pos_of (ps_index s') x = pos_of (ps_index s) x /\ undo_at (ps_utxo s') x = undo_at (ps_utxo s) x) /\
  (forall h x p raw, 0 <= h <= tip -> index_at (ps_index s) h = Some x -> pos_of (ps_index s') x = Some p ->
    (on_disk (ps_blocks s) p raw -> read_block p (ps_blocks s') = (ps_blocks s', Ok raw)) /\
    (holds (ps_blocks s) p raw -> holds (ps_blocks s') p raw)) /\
  (r = Ok None -> s' = s) /\ (forall rep, r = Ok (Some rep) -> pass_report tip c t s s' rep).
Proof.
  intros Hinv Hv Hm Hceil Hrun. pose proof (pi_tip _ _ Hinv) as Htip.
  destruct (ceiling_bounds tip (Some v) m c Htip Hceil) as (Hc & Hkeep & Hcv & _); [by intros y [= <-]|done|].
  unfold MIN_KEEP_BLOCKS in *.
  pose proof (prune_pass tip c t s Hinv ltac:(lia)) as Hpass. unfold wp in Hpass. rewrite Hrun in Hpass. destruct Hpass as (Hsafe & Hnone & Hrep).
  split_and!; [by destruct Hsafe| | |done|done].
  - intros h x Hh Hhigh Hx. apply (ps_recent _ _ _ _ Hsafe h x Hh); [|done]. specialize (Hcv v eq_refl). lia.
  - intros h x p raw Hh Hx Hp. by eapply (kept_reads tip c s s' h).
Qed.
End Theorems.

(** ** The theorem at a concrete input *)

Section Examples.
#[local] Existing Instance SampleDb.rocks.
#[local] Existing Instance SampleDb.laws.
#[local] Existing Instance SampleCodec.wal.
#[local] Existing Instance BlockStore.sample_files.
#[local] Existing Instance BlockStore.sample_files_laws.

#[local] Instance sample_dir : @BlockDir BlockStore.sample_files := {|
  read_dir := fun f => Ok (map (fun p => (block_file_path p.1, Some (len p.2))) (map_to_list (f : gmap Z bytes)));
  remove_file := fun f n => (delete n (f : gmap Z bytes), Ok tt) |}.

#[local] Instance sample_dir_laws : @BlockDirLaws _ sample_dir.
Proof.
  constructor.
  - intros f l n data [= <-] _ Hd. apply list_elem_of_In, in_map_iff. exists (n, data).
    split; [done|]. apply list_elem_of_In. by apply elem_of_map_to_list.
  - intros f n f' r m [= <- _] Hm. by apply lookup_delete_ne.
  - intros f n f' [= <-]. apply lookup_delete_eq.
Defined.

(** Blocks 1, 2 and 3 of the chain, each in a file of its own; block 9 is on a
    fork and shares the first file. *)
Definition ex_pos (file offset : Z) : bytes := serialize_pos (mkBlockPos file offset 3).
Definition ex_chain_db : gmap (string * bytes) bytes := list_to_map
  [((CF_HEIGHT_INDEX, to_be 4 1), ex_hash 1); ((CF_HEIGHT_INDEX, to_be 4 2), ex_hash 2); ((CF_HEIGHT_INDEX, to_be 4 3), ex_hash 3);
   ((CF_BLOCK_POS, ex_hash 1), ex_pos 0 0); ((CF_BLOCK_POS, ex_hash 2), ex_pos 1 0); ((CF_BLOCK_POS, ex_hash 3), ex_pos 2 0);
   ((CF_BLOCK_POS, ex_hash 9), ex_pos 0 7)].
Definition ex_block_files : gmap Z bytes := list_to_map
  [(0, frame [1; 1; 1] ++ frame [9; 9; 9]); (1, frame [2; 2; 2]); (2, frame [3; 3; 3])].
Definition ex_stores : Stores :=
  mkStores (mkBlockStore 16 2 7 None ex_block_files false) (mkHeaderIndex (ex_chain_db : @DB SampleDb.rocks) ∅ 0)
    (mkUtxoSet (∅ : @DB SampleDb.rocks) ∅ 0 buffer_new 0).

Lemma ex_chain_at h x :
  fits 32 h -> index_at (ps_index ex_stores) h = Some x -> (h = 1 \/ h = 2 \/ h = 3) /\ x = ex_hash h.
Proof.
  intros Hh Hx. assert (Hin : ((CF_HEIGHT_INDEX, to_be 4 h), x) ∈ map_to_list ex_chain_db) by by apply elem_of_map_to_list.
  unfold ex_chain_db in Hin. rewrite map_to_list_to_map in Hin; [|by apply (bool_decide_unpack _); vm_compute].
  repeat (apply elem_of_cons in Hin as [[[Hc Hk]%pair_eq ->]%pair_eq|Hin];
    [first [discriminate Hc | apply to_be4_inj in Hk; [subst h; auto|done|done]]|]).
  by apply not_elem_of_nil in Hin.
Qed.

Lemma ex_stores_inv : prune_inv 300 ex_stores.
Proof.
  assert (Hpos : forall h p, h = 1 \/ h = 2 \/ h = 3 -> pos_of (ps_index ex_stores) (ex_hash h) = Some p -> p = mkBlockPos (h - 1) 0 3).
  { intros h p [-> | [-> | ->]] Hp; vm_compute in Hp; by injection Hp as <-. }
  assert (Hfit : forall h, 0 <= h <= 300 -> fits 32 h) by (unfold fits; lia).
  split; [unfold fits; lia|..].
  - intros h h' x Hh%Hfit Hh'%Hfit [H1 ->]%ex_chain_at [H2 Heq]%ex_chain_at; [|done|done]. apply (f_equal head) in Heq. by injection Heq.
  - intros h h' x x' p p' Hh%Hfit Hh'%Hfit Hle [H1 ->]%ex_chain_at [H2 ->]%ex_chain_at; [|done|done]. intros Hp Hp'.
    rewrite (Hpos _ _ H1 Hp), (Hpos _ _ H2 Hp'). cbn. lia.
  - intros h x p Hh%Hfit [H1 ->]%ex_chain_at Hp; [|done]. rewrite (Hpos _ _ H1 Hp). cbn. lia.
  - intros h x p Hh%Hfit [H1 ->]%ex_chain_at Hp; [|done]. rewrite (Hpos _ _ H1 Hp). cbn [file_num].
    destruct H1 as [-> | [-> | ->]]; (split; [unfold fits; lia|]); intros _; vm_compute; eauto.
  - intros x [H1 _]%ex_chain_at; [lia|unfold fits; lia].
  - intros k h x Hk. vm_compute in Hk. done.
Qed.

Lemma prune_keeps_chain_readable_witness :
  (prune_block_files 2 0 ex_stores).2 = Ok (Some (mkReport 2 21 2)) /\
  (read_block (mkBlockPos 2 0 3) (ps_blocks (prune_block_files 2 0 ex_stores).1)).2 = Ok [3; 3; 3].
Proof.
  split; [vm_compute; reflexivity|].
  destruct (prune_keeps_chain_readable ex_stores (prune_block_files 2 0 ex_stores).1 300 2 2 0 None
    (prune_block_files 2 0 ex_stores).2) as (_ & Hrec & Hread & _).
  - apply ex_stores_inv.
  - lia.
  - done.
  - reflexivity.
  - apply surjective_pairing.
  - destruct (Hread 3 (ex_hash 3) (mkBlockPos 2 0 3) [3; 3; 3]) as [Hd _]; [lia|vm_compute; reflexivity|vm_compute; reflexivity|].
    rewrite Hd; [done|]. exists [], []. split_and!; [vm_compute; reflexivity|done|done|vm_compute; done|cbn; lia].
Defined.

(** The position of the fork block survives the file it points into. *)
Lemma stale_block_position_dangles :
  let s' := (prune_block_files 2 0 ex_stores).1 in
  (prune_block_files 2 0 ex_stores).2 = Ok (Some (mkReport 2 21 2)) /\
  get_block_pos (ps_index s') (ex_hash 1) = Ok None /\
  get_block_pos (ps_index s') (ex_hash 9) = Ok (Some (mkBlockPos 0 7 3)) /\
  (read_block (mkBlockPos 0 7 3) (ps_blocks ex_stores)).2 = Ok [9; 9; 9] /\
  (read_block (mkBlockPos 0 7 3) (ps_blocks s')).2 = Err (Io "No such file").
Proof. vm_compute. split_and!; reflexivity. Qed.

(** Above the tip the order does not hold.  Blocks 1 to 289 have been replayed
    and stored again in files 1 and 2; block 290 waits with its old position in
    file 0, and a pass at the node's ceiling removes that file. *)
Definition ex_replay_db : gmap (string * bytes) bytes := list_to_map
  [((CF_HEIGHT_INDEX, to_be 4 1), ex_hash 1); ((CF_HEIGHT_INDEX, to_be 4 2), ex_hash 2); ((CF_HEIGHT_INDEX, to_be 4 290), ex_hash 9);
   ((CF_BLOCK_POS, ex_hash 1), ex_pos 1 0); ((CF_BLOCK_POS, ex_hash 2), ex_pos 2 0); ((CF_BLOCK_POS, ex_hash 9), ex_pos 0 0)].
Definition ex_replay : Stores :=
  mkStores (mkBlockStore 16 2 7 None (list_to_map [(0, frame [9; 9; 9]); (1, frame [1; 1; 1]); (2, frame [2; 2; 2])] : gmap Z bytes) false)
    (mkHeaderIndex (ex_replay_db : @DB SampleDb.rocks) ∅ 0) (mkUtxoSet (∅ : @DB SampleDb.rocks) ∅ 0 buffer_new 0).

Lemma replay_prune_loses_waiting_block :
  prune_ceiling 289 (Some 289) None = Some 1 /\
  let s' := (prune_block_files 1 0 ex_replay).1 in
  (read_block (mkBlockPos 0 0 3) (ps_blocks ex_replay)).2 = Ok [9; 9; 9] /\
  get_block_pos (ps_index s') (ex_hash 9) = Ok (Some (mkBlockPos 0 0 3)) /\
  (read_block (mkBlockPos 0 0 3) (ps_blocks s')).2 = Err (Io "No such file").
Proof. vm_compute. split_and!; reflexivity. Qed.
End Examples.
