(* ===== verification/ReindexProofs.v ===== *)
(** * Properties of the block directory

    Reopening the store, rebuilding the position index from the files, and what
    is left of that after pruning. *)

From Stdlib Require Import ZArith Lia.
From stdpp Require Import base option numbers list gmap strings sorting.
From S2P Require Import Prelude Bytes U256 Types Signatures Consensus Validation Store HeaderIndex HeaderProofs BlockStore UtxoSet BlockFilter ChainState NodeChain BlockDir Prune PruneProofs.

(** A database that answers every call. *)
Record db_reliable `{RocksLaws} : Prop := {
  dr_handle d cf : cf_handle d cf = true;
  dr_get d cf k : get_cf d cf k = Ok (contents d cf k);
  dr_write d ops : (write d ops).2 = Ok tt }.

Section Proofs.
Context `{HR : RocksDb} `{HW : !RocksWal} `{HRL : !RocksLaws} `{HC : HeaderCodec} `{HB : BlockLib} `{HT : TxLib}.
Context `{HF : BlockFiles} `{HFL : !BlockFilesLaws}.
Implicit Types (hi : HeaderIndex) (b : BlockStore).

(** On the best header chain: what the two families of the index hold. *)
Definition canonical hi (x : hash256) : Prop :=
  exists data stored, contents (hi_db hi) CF_HEADERS x = Some data /\ deserialize_stored data = Ok stored /\
    index_at hi (sh_height stored) = Some x /\ length x = 32%nat.

(** Stored in [b] at [p]: a record whose block has hash [x]. *)
Definition stored_at b (p : BlockPos) (x : hash256) : Prop :=
  exists raw block, on_disk b p raw /\ deserialize_block raw = Some block /\ block_hash (header block) = x.

(** From [hi] to [hi'] only canonical blocks gained a position. *)
Record reindexed b hi hi' : Prop := {
  ri_other cf k : cf <> CF_BLOCK_POS -> contents (hi_db hi') cf k = contents (hi_db hi) cf k;
  ri_pos x : pos_of hi' x = pos_of hi x \/ (canonical hi x /\ exists p, pos_of hi' x = Some p /\ stored_at b p x);
  ri_first x : db_reliable -> is_Some (pos_of hi x) -> pos_of hi' x = pos_of hi x }.

(** Position records have the right length. *)
Definition positions_ok hi : Prop := forall x data, contents (hi_db hi) CF_BLOCK_POS x = Some data -> length data = 16%nat.

Lemma canonical_same hi hi' x :
  (forall cf k, cf <> CF_BLOCK_POS -> contents (hi_db hi') cf k = contents (hi_db hi) cf k) -> canonical hi x <-> canonical hi' x.
Proof. intros Hc. unfold canonical, index_at. by setoid_rewrite Hc. Qed.

Lemma reindexed_refl b hi : reindexed b hi hi.
Proof. split; [done|by left|done]. Qed.

Lemma reindexed_trans b hi hi1 hi2 : reindexed b hi hi1 -> reindexed b hi1 hi2 -> reindexed b hi hi2.
Proof.
  intros [Ho1 Hp1 Hf1] [Ho2 Hp2 Hf2]. split.
  - intros cf k Hcf. by rewrite Ho2, Ho1.
  - intros x. destruct (Hp2 x) as [->|(Hcan & Hst)]; [apply Hp1|right].
    split; [by apply (canonical_same hi hi1)|done].
  - intros x Hr Hx. pose proof (Hf1 x Hr Hx) as H1. rewrite Hf2, H1; [done|done|by rewrite H1].
Qed.

Lemma reindexed_keeps b hi hi' x : reindexed b hi hi' -> is_Some (pos_of hi x) -> is_Some (pos_of hi' x).
Proof. intros [_ Hp _] Hx. destruct (Hp x) as [->|(_ & p & -> & _)]; [done|by exists p]. Qed.

Lemma length_serialize_pos p : length (serialize_pos p) = 16%nat.
Proof. unfold serialize_pos. by rewrite !length_app, !length_to_le. Qed.

(** What the answers of a database that never fails are. *)
Section Reliable.
Hypothesis Hrel : db_reliable.

Lemma hi_get_reliable hi cf k : hi_get hi cf k = Ok (contents (hi_db hi) cf k).
Proof. unfold hi_get. rewrite (dr_handle Hrel). cbn. apply (dr_get Hrel). Qed.

Lemma canonical_found hi x : canonical hi x ->
  exists stored, get_header hi x = Ok (Some stored) /\ get_hash_at_height hi (sh_height stored) = Ok (Some x).
Proof.
  intros (data & stored & Hd & Hs & Hi & Hl). exists stored. unfold get_header, get_hash_at_height. rewrite !hi_get_reliable, Hd.
  unfold index_at in Hi. rewrite Hi. cbn. unfold hash_from_bytes. by rewrite Hs, Hl.
Qed.

Lemma get_block_pos_reliable hi x : positions_ok hi -> get_block_pos hi x = Ok (pos_of hi x).
Proof.
  intros Hok. unfold get_block_pos, pos_of. rewrite hi_get_reliable. cbn [mbind result_bind].
  destruct (contents _ _ _) as [d|] eqn:Hd; [|done]. by rewrite (Hok x d Hd).
Qed.

Lemma set_block_pos_reliable x p hi : (set_block_pos x p hi).2 = Ok tt.
Proof.
  unfold set_block_pos, hi_cf, hi_write, mbind, stm_bind. rewrite (dr_handle Hrel). cbn.
  pose proof (dr_write Hrel (hi_db hi) [Put CF_BLOCK_POS x (serialize_pos p)]) as Hd. by destruct (write _ _).
Qed.
End Reliable.

(** What the code takes for canonical is. *)
Lemma found_canonical hi x stored :
  get_header hi x = Ok (Some stored) -> get_hash_at_height hi (sh_height stored) = Ok (Some x) -> canonical hi x.
Proof.
  unfold get_header, hi_get. destruct (cf_handle _ _); cbn; [|done].
  destruct (get_cf (hi_db hi) CF_HEADERS x) as [[data|]|] eqn:Hg; cbn; [|done..]. apply get_cf_contents in Hg.
  destruct (deserialize_stored data) as [st|] eqn:Hs; cbn; [|done]. intros [= ->] Hh. exists data, stored.
  split_and!; [done|done|by apply get_hash_contents in Hh|]. unfold get_hash_at_height, hi_get in Hh.
  destruct (cf_handle _ _); cbn in Hh; [|done]. destruct (get_cf _ _ (to_be 4 _)) as [[y|]|]; cbn in Hh; [|done..].
  unfold hash_from_bytes in Hh. destruct (Nat.eqb_spec (length y) 32); cbn in Hh; [congruence|done].
Qed.

(** Recording a position. *)
Lemma set_block_pos_spec b n o size data block hi :
  let x := block_hash (header block) in
  positions_ok hi -> deserialize_block data = Some block -> deserialize_pos (serialize_pos (mkBlockPos n o size)) = mkBlockPos n o size ->
  on_disk b (mkBlockPos n o size) data -> canonical hi x -> (db_reliable -> pos_of hi x = None) ->
  let hi' := (set_block_pos x (mkBlockPos n o size) hi).1 in
  reindexed b hi hi' /\ positions_ok hi' /\ (db_reliable -> is_Some (pos_of hi' x)).
Proof.
  intros x Hok Hd Hpos Hh Hcan Hnone hi'. set (o' := Put CF_BLOCK_POS x (serialize_pos (mkBlockPos n o size))).
  pose proof (one_write CF_BLOCK_POS o' hi) as Hw. unfold wp in Hw.
  change (_ ← hi_cf CF_BLOCK_POS; hi_write [o']) with (set_block_pos x (mkBlockPos n o size)) in Hw. fold hi' in Hw.
  destruct (set_block_pos x (mkBlockPos n o size) hi).2 as [[]|e] eqn:Hr.
  2: { assert (Hp : forall y, pos_of hi' y = pos_of hi y) by (intros y; unfold pos_of; by rewrite Hw).
    split_and!; [split; [by intros; rewrite Hw|by left|done]|intros y d; rewrite Hw; apply Hok|].
    intros Hrel. by rewrite (set_block_pos_reliable Hrel) in Hr. }
  assert (Hx : pos_of hi' x = Some (mkBlockPos n o size)).
  { unfold pos_of. rewrite Hw. unfold apply_op. rewrite bool_decide_eq_true_2 by done. cbn -[serialize_pos]. by rewrite Hpos. }
  assert (Hy : forall y, y <> x -> pos_of hi' y = pos_of hi y).
  { intros y Hne. unfold pos_of. rewrite Hw. unfold apply_op. by rewrite bool_decide_eq_false_2 by naive_solver. }
  split_and!; [split| |by rewrite Hx].
  - intros cf k Hcf. rewrite Hw. unfold apply_op. by rewrite bool_decide_eq_false_2 by naive_solver.
  - intros y. destruct (decide (y = x)) as [->|Hne]; [right|left; by apply Hy].
    split; [done|]. exists (mkBlockPos n o size). split; [done|]. by exists data, block.
  - intros y Hrel [p Hp]. apply Hy. intros ->. rewrite Hnone in Hp by done. done.
  - intros y d. rewrite Hw. unfold apply_op. case_bool_decide; [|by apply Hok]. intros [= <-]. apply length_serialize_pos.
Qed.

(** A block found in a file. *)
Lemma reindex_block_spec b n o size data block hi :
  positions_ok hi -> deserialize_block data = Some block -> deserialize_pos (serialize_pos (mkBlockPos n o size)) = mkBlockPos n o size ->
  on_disk b (mkBlockPos n o size) data ->
  let hi' := (reindex_block n o size data hi).1 in
  reindexed b hi hi' /\ positions_ok hi' /\
  (db_reliable -> canonical hi (block_hash (header block)) -> is_Some (pos_of hi' (block_hash (header block)))).
Proof.
  intros Hok Hd Hpos Hh. set (x := block_hash (header block)). unfold reindex_block. rewrite Hd. fold x. cbn zeta.
  match goal with |- context [negb ?f] => assert (Hcan : if f then canonical hi x else db_reliable -> ~ canonical hi x) end.
  { destruct (get_header hi x) as [[st|]|] eqn:Hg;
      [|intros Hrel (st & H1 & _)%(canonical_found Hrel); congruence..].
    destruct (get_hash_at_height hi (sh_height st)) as [[c|]|] eqn:Hc;
      [|intros Hrel (st' & H1 & H2)%(canonical_found Hrel); congruence..].
    case_bool_decide as He; [subst c; by eapply found_canonical|].
    intros Hrel (st' & H1 & H2)%(canonical_found Hrel). congruence. }
  match goal with |- context [negb ?f] => destruct f end; cbn [negb].
  2: { split_and!; [apply reindexed_refl|done|]. intros Hrel Hno. by destruct (Hcan Hrel). }
  destruct (get_block_pos hi x) as [[p|]|e] eqn:Hp.
  { split_and!; [apply reindexed_refl|done|]. intros _ _. apply get_block_pos_contents in Hp. cbn [fst]. by rewrite <- Hp. }
  all: assert (Hnone : db_reliable -> pos_of hi x = None)
    by (intros Hrel; rewrite (get_block_pos_reliable Hrel hi x Hok) in Hp; congruence);
    destruct (set_block_pos_spec b n o size data block hi Hok Hd Hpos Hh Hcan Hnone) as (R1 & R2 & R3); fold x in R1, R2, R3;
    destruct (set_block_pos x (mkBlockPos n o size) hi) as [hi' r]; cbn [fst] in *; by split_and!; [..|intros Hrel _; apply R3].
Qed.

(** *** One file *)

(** Where the scan stops: no complete record follows. *)
Definition torn (tail : bytes) : Prop :=
  len tail <= 4 \/ from_le (take 4 tail) = 0 \/ MAX_REINDEX_BLOCK < from_le (take 4 tail) \/ len tail < 4 + from_le (take 4 tail).

Definition record_ok (raw : bytes) : Prop := 0 < len raw <= MAX_REINDEX_BLOCK.

Lemma read_at b n data o k :
  file_bytes (bs_files b) n = Some data -> 0 <= o -> 0 <= k -> o + k <= len data ->
  read_exact_at b n o k = Ok (take (Z.to_nat k) (drop (Z.to_nat o) data)).
Proof. intros Hf Ho Hk Hle. unfold read_exact_at. rewrite Hf. by destruct (Z.leb_spec (o + k) (len data)); [|lia]. Qed.

Lemma pos_roundtrip n o z : fits 32 n -> fits 64 o -> fits 32 z -> deserialize_pos (serialize_pos (mkBlockPos n o z)) = mkBlockPos n o z.
Proof.
  intros Hn Ho Hz. unfold deserialize_pos, serialize_pos. cbn [file_num offset block_size].
  rewrite take_app_length' by by rewrite length_to_le. rewrite drop_app_length' by by rewrite length_to_le.
  rewrite take_app_length' by by rewrite length_to_le. rewrite app_assoc, drop_app_length' by by rewrite length_app, !length_to_le.
  rewrite take_ge by by rewrite length_to_le. by rewrite !from_to_le_small.
Qed.

Lemma record_read b n data pre raw rest :
  file_bytes (bs_files b) n = Some data -> data = pre ++ frame raw ++ rest -> record_ok raw -> len data < 2 ^ 63 ->
  read_exact_at b n (len pre) 4 = Ok (to_le 4 (len raw)) /\ read_exact_at b n (len pre + 4) (len raw) = Ok raw /\
  len pre + 4 + len raw <= len data /\ on_disk b (mkBlockPos n (len pre) (len raw)) raw.
Proof.
  intros Hf Hdata [Hr1 Hr2] Hlim. pose proof (len_nonneg pre). pose proof (len_nonneg rest). unfold MAX_REINDEX_BLOCK in *.
  assert (Hlen : len data = len pre + (4 + len raw) + len rest).
  { rewrite Hdata. unfold frame. rewrite !len_app, len_to_le4. lia. }
  split_and!.
  - rewrite (read_at b n data) by (done || lia). subst data. rewrite to_nat_len, drop_app_length. unfold frame.
    rewrite <- app_assoc. by rewrite take_app_length' by by rewrite length_to_le.
  - rewrite (read_at b n data) by (done || lia). subst data. unfold frame.
    rewrite <- app_assoc, app_assoc, drop_app_length', to_nat_len, take_app_length; [done|].
    rewrite length_app, length_to_le. unfold len. lia.
  - lia.
  - exists pre, rest. cbn [file_num offset block_size]. split_and!; [|done|done|lia|lia].
    unfold on_file. by rewrite Hf.
Qed.

Lemma reindex_file_stops fuel b n data pre tail indexed hi :
  file_bytes (bs_files b) n = Some data -> data = pre ++ tail -> torn tail -> bytes_ok data -> len data < 2 ^ 63 ->
  (reindex_file fuel b n (len data) (len pre) indexed hi).1 = hi.
Proof.
  intros Hf Hdata Htorn Hb Hlim. destruct fuel as [|fuel]; [done|]. cbn [reindex_file].
  pose proof (len_nonneg pre). pose proof (len_nonneg tail).
  assert (Hlen : len data = len pre + len tail) by by rewrite Hdata, len_app.
  rewrite wrap_small by (unfold fits; lia). destruct (Z.ltb_spec (len pre + 4) (len data)); [|done].
  rewrite (read_at b n data) by (done || lia). replace (drop (Z.to_nat (len pre)) data) with tail by (rewrite Hdata, to_nat_len; by rewrite drop_app_length).
  change (Z.to_nat 4) with 4%nat. cbn zeta. assert (Hsz : fits 32 (from_le (take 4 tail))).
  { rewrite Hdata in Hb. apply bytes_ok_app in Hb as [_ Hb].
    pose proof (from_le_bound (take 4 tail) ltac:(by apply Forall_take)) as Hbd. unfold fits. rewrite length_take_le in Hbd; [exact Hbd|].
    unfold len in *. lia. }
  unfold fits in Hsz. rewrite (wrap_small 64 (len pre + 4 + from_le (take 4 tail))) by (unfold fits; lia).
  destruct (Z.eqb_spec (from_le (take 4 tail)) 0); [done|]. cbn [orb].
  destruct (Z.gtb_spec (from_le (take 4 tail)) MAX_REINDEX_BLOCK); [done|]. cbn [orb].
  destruct (Z.gtb_spec (len pre + 4 + from_le (take 4 tail)) (len data)); [done|].
  unfold torn in Htorn. lia.
Qed.

Lemma reindex_file_spec b n data tail raws : forall fuel pre indexed hi,
  file_bytes (bs_files b) n = Some data -> data = pre ++ concat (map frame raws) ++ tail -> torn tail -> bytes_ok data -> len data < 2 ^ 63 ->
  Forall record_ok raws -> fits 32 n -> positions_ok hi -> (length raws <= fuel)%nat ->
  let hi' := (reindex_file fuel b n (len data) (len pre) indexed hi).1 in
  reindexed b hi hi' /\ positions_ok hi' /\
  (forall raw block, db_reliable -> raw ∈ raws -> deserialize_block raw = Some block -> canonical hi (block_hash (header block)) ->
    is_Some (pos_of hi' (block_hash (header block)))).
Proof.
  induction raws as [|raw raws IH]; intros fuel pre indexed hi Hf Hdata Htorn Hb Hlim Hraws Hn Hok Hfuel.
  { rewrite (reindex_file_stops fuel b n data pre tail) by done. split_and!; [apply reindexed_refl|done|]. by intros ? ? _ ?%not_elem_of_nil. }
  inversion_clear Hraws as [|?? Hraw Hraws']. destruct fuel as [|fuel]; [cbn in Hfuel; lia|].
  cbn [map concat] in Hdata. rewrite <- app_assoc in Hdata.
  destruct (record_read b n data pre raw _ Hf Hdata Hraw Hlim) as (Hr4 & Hr & Hle & Hhold).
  pose proof (len_nonneg pre). destruct Hraw as [Hraw1 Hraw2]. unfold MAX_REINDEX_BLOCK in Hraw2.
  cbn [reindex_file]. rewrite (wrap_small 64 (len pre + 4)) by (unfold fits; lia). destruct (Z.ltb_spec (len pre + 4) (len data)); [|lia].
  rewrite Hr4. cbn zeta. rewrite (from_to_le_small 4 (len raw)) by (change (fits 32 (len raw)); unfold fits; lia).
  destruct (Z.eqb_spec (len raw) 0); [lia|]. unfold MAX_REINDEX_BLOCK. destruct (Z.gtb_spec (len raw) 4000000); [lia|].
  rewrite (wrap_small 64 (len pre + 4 + len raw)) by (unfold fits; lia).
  destruct (Z.gtb_spec (len pre + 4 + len raw) (len data)); [lia|]. cbn [orb]. rewrite Hr.
  rewrite (wrap_small 64 (len pre + (4 + len raw))) by (unfold fits; lia).
  assert (Hstep : let hi1 := (reindex_block n (len pre) (len raw) raw hi).1 in reindexed b hi hi1 /\ positions_ok hi1 /\
    forall block, db_reliable -> deserialize_block raw = Some block -> canonical hi (block_hash (header block)) -> is_Some (pos_of hi1 (block_hash (header block)))).
  { destruct (deserialize_block raw) as [block|] eqn:Hd.
    - destruct (reindex_block_spec b n (len pre) (len raw) raw block hi) as (R1 & R2 & R3); try done.
      + apply pos_roundtrip; unfold fits in *; lia.
      + split_and!; [done|done|]. intros block' Hrel [= <-]. by apply R3.
    - unfold reindex_block. rewrite Hd. split_and!; [apply reindexed_refl|done|done]. }
  destruct (reindex_block n (len pre) (len raw) raw hi) as [hi1 new]. cbn [fst] in Hstep. destruct Hstep as (R1 & Hok1 & Hnew).
  replace (len pre + (4 + len raw)) with (len (pre ++ frame raw)) by (unfold frame; rewrite !len_app, len_to_le4; lia).
  destruct (IH fuel (pre ++ frame raw) (if new then u32 (indexed + 1) else indexed) hi1) as (R2 & Hok2 & Hrest);
    [done|by rewrite <- !app_assoc|done..|cbn in Hfuel; lia|].
  split_and!; [by eapply reindexed_trans|done|]. intros r block Hrel [->|Hin]%elem_of_cons Hd Hcan.
  - eapply reindexed_keeps; [exact R2|]. by apply Hnew.
  - apply (Hrest r); [done|done|done|]. by apply (canonical_same hi hi1); [apply (ri_other _ _ _ R1)|].
Qed.

(** *** All the files *)

(** The files from [n] on: complete records, then possibly a torn one. *)
Fixpoint files_from b (n : Z) (fs : list (list bytes * bytes)) : Prop :=
  match fs with
  | [] => file_bytes (bs_files b) n = None
  | (raws, tail) :: fs =>
      let data := concat (map frame raws) ++ tail in
      file_bytes (bs_files b) n = Some data /\ torn tail /\ bytes_ok data /\ len data < 2 ^ 63 /\ Forall record_ok raws /\
      files_from b (n + 1) fs
  end.

Lemma records_fit raws tail : Forall record_ok raws -> (length raws <= length (concat (map frame raws) ++ tail))%nat.
Proof.
  induction 1 as [|raw raws [Hr _] _ IH]; [cbn; lia|]. cbn [map concat length]. unfold frame at 1.
  rewrite !length_app, length_to_le in *. lia.
Qed.

Lemma reindex_loop_spec b fs : forall fuel n total hi,
  files_from b n fs -> 0 <= n -> n + len fs < 2 ^ 32 -> positions_ok hi -> (length fs < fuel)%nat ->
  exists hi' k, reindex_loop fuel b (fun _ => false) n total hi = (hi', Done k) /\ reindexed b hi hi' /\ positions_ok hi' /\
    forall raws tail raw block, db_reliable -> (raws, tail) ∈ fs -> raw ∈ raws -> deserialize_block raw = Some block ->
      canonical hi (block_hash (header block)) -> is_Some (pos_of hi' (block_hash (header block))).
Proof.
  induction fs as [|[raws tail] fs IH]; intros fuel n total hi Hfs Hn0 Hn Hok Hfuel; (destruct fuel as [|fuel]; [cbn in Hfuel; lia|]); cbn [reindex_loop].
  { cbn in Hfs. rewrite Hfs. exists hi, total. split_and!; [done|apply reindexed_refl|done|]. by intros ? ? ? ? _ ?%not_elem_of_nil. }
  destruct Hfs as (Hf & Htorn & Hb & Hlim & Hraws & Hfs). rewrite Hf, len_cons in *.
  pose proof (len_nonneg fs).
  destruct (reindex_file_spec b n _ tail raws (length (concat (map frame raws) ++ tail)) [] total hi Hf eq_refl Htorn Hb Hlim Hraws)
    as (R1 & Hok1 & Hnew); [unfold fits; lia|done|by apply records_fit|]. change (len []) with 0 in *.
  destruct (reindex_file _ _ _ _ _ _ hi) as [hi1 total1]. cbn [fst] in *.
  rewrite wrap_small by (unfold fits; lia).
  destruct (IH fuel (n + 1) total1 hi1 Hfs ltac:(lia) ltac:(lia) Hok1 ltac:(cbn in Hfuel; lia)) as (hi2 & k & Hrun & R2 & Hok2 & Hrest).
  exists hi2, k. split_and!; [done|by eapply reindexed_trans|done|].
  intros rs tl raw block Hrel [[= -> ->]|Hin]%elem_of_cons Hraw Hd Hcan.
  - eapply reindexed_keeps; [exact R2|]. by apply (Hnew raw).
  - apply (Hrest rs tl raw); [done|done|done|done|]. by apply (canonical_same hi hi1); [apply (ri_other _ _ _ R1)|].
Qed.
End Proofs.

(** ** Reopening *)

Section Open.
Context `{HF : BlockFiles} `{HD : !BlockDir} `{HDL : !BlockDirLaws}.

Lemma foldl_max_ge l : forall x, x <= foldl Z.max x l /\ forall y, y ∈ l -> y <= foldl Z.max x l.
Proof.
  induction l as [|z l IH]; intros x; cbn; [split; [lia|by intros ? ?%not_elem_of_nil]|].
  destruct (IH (Z.max x z)) as [Hx Hl]. split; [lia|]. intros y [->|Hy]%elem_of_cons; [lia|by apply Hl].
Qed.

(** A reopened store appends at the end of the newest file, or starts the
    next one: what [store_block] needs. *)
Lemma reopen_store_inv f m l :
  read_dir f = Ok l -> 0 < m -> (forall n, is_Some (file_bytes f n) -> 0 <= n < 2 ^ 32 - 1) ->
  Forall (fun e => forall n, block_file_num e.1 = Some n -> n < 2 ^ 32 - 1) l ->
  store_inv (open_with_max_file_size f m) /\ bs_files (open_with_max_file_size f m) = f.
Proof.
  intros Hl Hm Hrange Hnames. unfold open_with_max_file_size, find_latest_file. rewrite Hl.
  assert (Hall : forall n, is_Some (file_bytes f n) -> n ∈ omap (fun e => block_file_num e.1) l).
  { intros n [data Hd]. destruct (Hrange n ltac:(eauto)). apply list_elem_of_omap. exists (block_file_path n, Some (len data)).
    split; [eapply read_dir_lists; eauto; unfold fits; lia|]. apply block_file_num_path. unfold fits. lia. }
  assert (Hno : forall b n, bs_files b = f -> write_tx b = None -> ~ is_Some (file_bytes f n) -> view b n = []).
  { intros b n Hb Hw Hf. unfold view, on_file. rewrite Hb, Hw. destruct (file_bytes f n) eqn:He; [by destruct Hf; eauto|done]. }
  destruct (omap _ l) as [|x r] eqn:Hnums.
  { cbn zeta. split; [|done]. split; cbn [cur_file cur_offset]; [rewrite Hno|intros n _; apply Hno]; try done;
      intros Hs; by apply Hall, not_elem_of_nil in Hs. }
  destruct (foldl_max_ge r x) as [Hx Hr]. set (k := foldl Z.max x r) in *.
  assert (Hmax : forall n, k < n -> ~ is_Some (file_bytes f n)).
  { intros n Hn Hs. apply Hall, elem_of_cons in Hs as [->|Hs]; [lia|]. specialize (Hr _ Hs). lia. }
  unfold file_len. destruct (file_bytes f k) as [data|] eqn:Hk.
  - destruct (Z.ltb_spec (len data) m) as [Hlt|Hge]; (split; [|done]); split; cbn [cur_file cur_offset].
    + unfold view, on_file. cbn. by rewrite Hk, app_nil_r.
    + intros n Hn. by apply Hno; [..|apply Hmax].
    + destruct (Hrange k ltac:(eauto)). rewrite wrap_small by (unfold fits; lia). rewrite Hno; [done..|apply Hmax; lia].
    + destruct (Hrange k ltac:(eauto)). rewrite wrap_small by (unfold fits; lia). intros n Hn. apply Hno; [done..|apply Hmax; lia].
  - destruct (Z.ltb_spec 0 m); [|lia]. split; [|done]. split; cbn [cur_file cur_offset].
    + rewrite Hno; [done..|]. rewrite Hk. by intros [? ?].
    + intros n Hn. by apply Hno; [..|apply Hmax].
Qed.
End Open.

(** ** Theorems *)

Section Theorems.
Context `{HR : RocksDb} `{HW : !RocksWal} `{HRL : !RocksLaws} `{HC : HeaderCodec} `{HB : BlockLib} `{HT : TxLib}.
Context `{HF : BlockFiles} `{HFL : !BlockFilesLaws} `{HD : !BlockDir} `{HDL : !BlockDirLaws}.


(** rebuilding finds nothing on a pruned node: once a prune pass has deleted
    files of a store that started at [blk00000.dat], the scan stops at the
    missing first file and indexes no block of the files that survive. *)
Theorem reindex_after_prune_finds_nothing (s s' : Stores) (tip c t : Z) (rep : PruneReport) (fuel : nat) (hi : HeaderIndex) :
  prune_inv tip s -> 0 <= c < tip -> is_Some (file_bytes (bs_files (ps_blocks s)) 0) ->
  prune_block_files c t s = (s', Ok (Some rep)) ->
  reindex_block_files (S fuel) (ps_blocks s') hi = (hi, Done 0).
Proof.
  intros Hinv Hc H0 Hrun. pose proof (prune_pass tip c t s Hinv Hc) as Hpass. unfold wp in Hpass. rewrite Hrun in Hpass.
  destruct Hpass as (_ & _ & Hrep). destruct (pr_files _ _ _ _ _ _ (Hrep rep eq_refl)) as (D & files & HD0 & (Hnn & _ & Hdown) & Hf & _).
  apply set_choose_L in HD0 as [n Hn].
  assert (Hin : 0 ∈ D) by (apply (Hdown n); [done|by destruct (Hnn n Hn)|unfold fits; lia|done]).
  unfold reindex_block_files, reindex_block_files_cancellable. cbn [reindex_loop default from_option id].
  by rewrite Hf, bool_decide_eq_true_2.
Qed.
End Theorems.

(** ** The theorems at concrete inputs *)

Section Examples.
#[local] Existing Instance SampleDb.rocks.
#[local] Existing Instance SampleDb.laws.
#[local] Existing Instance SampleCodec.codec.
#[local] Existing Instance SampleCodec.wal.
#[local] Existing Instance Sample.tx_lib.
#[local] Existing Instance BlockStore.sample_files.
#[local] Existing Instance BlockStore.sample_files_laws.
#[local] Existing Instance PruneProofs.sample_dir.
#[local] Existing Instance PruneProofs.sample_dir_laws.

(** A block is its nonce and its time. *)
#[local] Instance sample_block_lib : BlockLib := {|
  deserialize_block := fun raw =>
    match raw with
    | [n; t] => Some (mkBlock (mkHeader 1 (replicate 32 0) (replicate 32 0) t 0 n) [])
    | _ => None
    end;
  block_total_size := fun _ => 2 |}.

Definition rx_header (n t : Z) : Header := mkHeader 1 (replicate 32 0) (replicate 32 0) t 0 n.
Definition rx_hash (n t : Z) : hash256 := block_hash (rx_header n t).
Definition rx_index : HeaderIndex :=
  (insert_header (rx_hash 7 1) (mkStored (rx_header 7 1) 1 (replicate 32 0)) (mkHeaderIndex (∅ : @DB SampleDb.rocks) ∅ 0)).1.

(** Two files: a block of the chain and one of a fork, then a torn record. *)
Definition rx_files : list (list bytes * bytes) := [([[7; 1]; [8; 1]], []); ([], [2; 0])].
Definition rx_store : BlockStore :=
  mkBlockStore 16 1 2 None (list_to_map (imap (fun i f => (Z.of_nat i, concat (map frame f.1) ++ f.2)) rx_files) : gmap Z bytes) false.

Lemma rx_files_ok : files_from rx_store 0 rx_files.
Proof.
  assert (Hf0 : concat (map frame [[7; 1]; [8; 1]]) ++ [] = [2; 0; 0; 0; 7; 1; 2; 0; 0; 0; 8; 1]) by (vm_compute; reflexivity).
  cbn [files_from rx_files]. rewrite Hf0. change (concat (map frame []) ++ [2; 0]) with [2; 0]. change (0 + 1) with 1. change (1 + 1) with 2.
  assert (Hr : Forall record_ok [[7; 1]; [8; 1]])
    by (constructor; [|constructor; [|constructor]]; unfold record_ok, MAX_REINDEX_BLOCK, len; cbn; lia).
  assert (Hb : bytes_ok [2; 0; 0; 0; 7; 1; 2; 0; 0; 0; 8; 1]) by (repeat (constructor; [unfold fits; lia|]); constructor).
  split_and!; [vm_compute; reflexivity|left; unfold len; cbn; lia|exact Hb|unfold len; cbn; lia|exact Hr|vm_compute; reflexivity| | | | |vm_compute; reflexivity].
  - left. unfold len. cbn. lia.
  - repeat (constructor; [unfold fits; lia|]); constructor.
  - unfold len. cbn. lia.
  - constructor.
Qed.


Lemma reindex_after_prune_finds_nothing_witness :
  reindex_block_files 4 (ps_blocks (prune_block_files 2 0 ex_stores).1) (ps_index ex_stores) = (ps_index ex_stores, Done 0).
Proof.
  apply (reindex_after_prune_finds_nothing ex_stores (prune_block_files 2 0 ex_stores).1 300 2 0 (mkReport 2 21 2) 3).
  - apply ex_stores_inv.
  - lia.
  - vm_compute. eauto.
  - assert (Hr : (prune_block_files 2 0 ex_stores).2 = Ok (Some (mkReport 2 21 2))) by (vm_compute; reflexivity).
    rewrite <- Hr. apply surjective_pairing.
Defined.
End Examples.
