(* ===== verification/CompactBlock.v ===== *)
(** * Compact blocks

    [bitcoinpr-core/src/compact_block.rs]: short transaction ids, the compact
    form of a block, reconstruction from the mempool and filling in the missing
    transactions; and the messages [cmpctblock] and [blocktxn] of
    [bitcoinpr-p2p/src/manager.rs], which have a reconstruction of their own. *)

From Stdlib Require Import ZArith Lia.
From stdpp Require Import base option numbers list gmap.
From S2P Require Import Prelude Bytes Types BlockSync.

Record ShortIdKey := mkShortIdKey { k0 : Z; k1 : Z }.

Abbreviation ShortId := bytes.

(** ** SipHash-2-4 *)

(** [u64::rotate_left] *)
Definition rotl64 (x r : Z) : Z := Z.lor (u64 (Z.shiftl x r)) (Z.shiftr x (64 - r)).

Definition sipround (v : Z * Z * Z * Z) : Z * Z * Z * Z :=
  let '(v0, v1, v2, v3) := v in
  let v0 := u64 (v0 + v1) in
  let v1 := rotl64 v1 13 in
  let v1 := Z.lxor v1 v0 in
  let v0 := rotl64 v0 32 in
  let v2 := u64 (v2 + v3) in
  let v3 := rotl64 v3 16 in
  let v3 := Z.lxor v3 v2 in
  let v0 := u64 (v0 + v3) in
  let v3 := rotl64 v3 21 in
  let v3 := Z.lxor v3 v0 in
  let v2 := u64 (v2 + v1) in
  let v1 := rotl64 v1 17 in
  let v1 := Z.lxor v1 v2 in
  let v2 := rotl64 v2 32 in
  (v0, v1, v2, v3).

(** [v3 ^= m; sipround; sipround; v0 ^= m] *)
Definition absorb (v : Z * Z * Z * Z) (m : Z) : Z * Z * Z * Z :=
  let '(v0, v1, v2, v3) := v in
  let '(v0, v1, v2, v3) := sipround (sipround (v0, v1, v2, Z.lxor v3 m)) in
  (Z.lxor v0 m, v1, v2, v3).

Definition siphash_2_4 (k0 k1 : Z) (data : bytes) : Z :=
  let v := (Z.lxor 0x736f6d6570736575 k0, Z.lxor 0x646f72616e646f6d k1,
            Z.lxor 0x6c7967656e657261 k0, Z.lxor 0x7465646279746573 k1) in
  let blocks := (length data / 8)%nat in
  let v := foldl (fun v i => absorb v (from_le (take 8 (drop (i * 8) data)))) v (seq 0 blocks) in
  let last := u64 (Z.shiftl (len data) 56) in
  let last := foldl (fun last '(i, byte) => Z.lor last (Z.shiftl byte (Z.of_nat i * 8))) last
                (imap pair (drop (blocks * 8) data)) in
  let '(v0, v1, v2, v3) := absorb v last in
  let '(v0, v1, v2, v3) := sipround (sipround (sipround (sipround (v0, v1, Z.lxor v2 0xff, v3)))) in
  Z.lxor (Z.lxor (Z.lxor v0 v1) v2) v3.

Section Core.
Context `{HH : Hashes} `{HT : TxLib}.

(** The key comes from the block hash, not from the 80 header bytes. *)
Definition from_header_nonce (header_hash : hash256) (nonce : Z) : ShortIdKey :=
  let hash := sha256d (header_hash ++ to_le 8 nonce) in
  mkShortIdKey (from_le (take 8 hash)) (from_le (take 8 (drop 8 hash))).

Definition short_id (key : ShortIdKey) (txid : hash256) : ShortId :=
  take 6 (to_le 8 (siphash_2_4 (k0 key) (k1 key) txid)).

Record PrefilledTx := mkPrefilled { pf_index : Z; pf_tx : Transaction }.

Record CompactBlock := mkCompact {
  cb_header : Header;
  cb_nonce : Z;
  short_ids : list ShortId;
  prefilled_txs : list PrefilledTx }.

Record BlockTxnResponse := mkBlockTxn { bt_hash : hash256; bt_transactions : list Transaction }.

(** [None]: indexing an empty block panics. *)
Definition from_block (block : Block) (nonce : Z) : option CompactBlock :=
  let key := from_header_nonce (block_hash (header block)) nonce in
  match txdata block with
  | [] => None
  | coinbase :: rest =>
      Some (mkCompact (header block) nonce (map (fun tx => short_id key (compute_txid tx)) rest) [mkPrefilled 0 coinbase])
  end.

Definition short_id_key (c : CompactBlock) : ShortIdKey := from_header_nonce (block_hash (cb_header c)) (cb_nonce c).

(** Later transactions replace earlier ones with the same short id. *)
Definition id_map (ids : Transaction -> ShortId) (mempool_txs : list Transaction) : gmap ShortId Transaction :=
  foldl (fun m tx => <[ids tx := tx]> m) ∅ mempool_txs.

(** The prefilled transactions at their absolute positions, those in range. *)
Definition place_prefilled (result : list (option Transaction)) (pfs : list PrefilledTx) : list (option Transaction) :=
  (foldl (fun '(result, prefill_offset) pf =>
      let abs_index := u32 (prefill_offset + pf_index pf) in
      (if abs_index <? len result then <[Z.to_nat abs_index := Some (pf_tx pf)]> result else result, u32 (abs_index + 1)))
    (result, 0) pfs).1.

(** The empty slots take the short ids in order. *)
Fixpoint fill_slots (pool : gmap ShortId Transaction) (i : Z) (slots : list (option Transaction)) (ids : list ShortId) :
    list (option Transaction) * list Z :=
  match slots with
  | [] => ([], [])
  | Some tx :: rest => let '(r, m) := fill_slots pool (i + 1) rest ids in (Some tx :: r, m)
  | None :: rest =>
      match ids with
      | [] => let '(r, m) := fill_slots pool (i + 1) rest [] in (None :: r, m)
      | sid :: ids =>
          let '(r, m) := fill_slots pool (i + 1) rest ids in
          match pool !! sid with
          | Some tx => (Some tx :: r, m)
          | None => (None :: r, u32 i :: m)
          end
      end
  end.

Definition reconstruct (c : CompactBlock) (mempool_txs : list Transaction) : list (option Transaction) * list Z :=
  let key := short_id_key c in
  let pool := id_map (fun tx => short_id key (compute_txid tx)) mempool_txs in
  let total_txs := (length (prefilled_txs c) + length (short_ids c))%nat in
  fill_slots pool 0 (place_prefilled (replicate total_txs None) (prefilled_txs c)) (short_ids c).

(** The slots as they are left when the response does not fit. *)
Fixpoint fill_loop (txs : list (option Transaction)) (missing : list Z) (response : list Transaction) : list (option Transaction) * bool :=
  match missing, response with
  | idx :: missing, tx :: response =>
      if idx <? len txs then fill_loop (<[Z.to_nat idx := Some tx]> txs) missing response else (txs, false)
  | _, _ => (txs, true)
  end.
Definition fill_missing (txs : list (option Transaction)) (missing_indices : list Z) (response : BlockTxnResponse) :
    list (option Transaction) * bool :=
  if (length (bt_transactions response) =? length missing_indices)%nat
  then fill_loop txs missing_indices (bt_transactions response) else (txs, false).
End Core.

(** ** The peer manager *)

(** [bitcoin::bip152]: the SipHash keys of a header and nonce, and the short id
    of a witness transaction id under them. *)
Class Bip152 := {
  SipKeys : Type;
  calculate_siphash_keys : Header -> Z -> SipKeys;
  with_siphash_keys : hash256 -> SipKeys -> ShortId }.

Section Relay.
Context `{HT : TxLib} `{HB : Bip152}.

Record PendingCompactBlock := mkPendingCompact {
  pc_header : Header;
  pc_txs : list (option Transaction);
  pc_peer : PeerId }.

Record CompactRelay := mkRelay {
  pending_compact : gmap hash256 PendingCompactBlock;
  relay_peers : gset PeerId }.

(** What the handlers get through: the block to the node, requests to a peer. *)
Inductive RelayOut : Type :=
| EmitBlock (peer : PeerId) (block : Block)
| SendGetBlockTxn (peer : PeerId) (hash : hash256) (indexes : list Z)
| SendGetDataBlock (peer : PeerId) (hash : hash256).

(** Which of the bounded channels take a message at this moment: the one of
    block events and the write channels of the peers. *)
Record Room := mkRoom { events_room : bool; peer_room : PeerId -> bool }.

(** [let _ = self.block_event_tx.try_send(..)]: without room the block is dropped. *)
Definition emit_block (q : Room) (peer : PeerId) (block : Block) : list RelayOut :=
  if events_room q then [EmitBlock peer block] else [].

(** [if let Some(peer) = self.peers.get(..) { let _ = peer.send(msg); }] *)
Definition peer_send (q : Room) (peers : gset PeerId) (peer : PeerId) (msg : RelayOut) : list RelayOut :=
  if bool_decide (peer ∈ peers) && peer_room q peer then [msg] else [].

(** Absolute positions of the prefilled transactions. *)
Fixpoint prefill_abs (idx : Z) (pfs : list PrefilledTx) : list (Z * Transaction) :=
  match pfs with
  | [] => []
  | pf :: rest => let idx := usize (idx + pf_index pf) in (idx, pf_tx pf) :: prefill_abs (usize (idx + 1)) rest
  end.

(** The loop over the slots: the next prefilled transaction when it belongs
    here, else the next short id, else a missing transaction. *)
Fixpoint relay_slots (pool : gmap ShortId Transaction) (n : nat) (i : Z) (pre : list (Z * Transaction)) (ids : list ShortId) :
    list (option Transaction) * list Z :=
  match n with
  | O => ([], [])
  | S n =>
      let here := match pre with (j, tx) :: _ => if j =? i then Some tx else None | [] => None end in
      match here with
      | Some tx => let '(r, m) := relay_slots pool n (i + 1) (drop 1 pre) ids in (Some tx :: r, m)
      | None =>
          match ids with
          | sid :: ids =>
              let '(r, m) := relay_slots pool n (i + 1) pre ids in
              match pool !! sid with
              | Some tx => (Some tx :: r, m)
              | None => (None :: r, i :: m)
              end
          | [] => let '(r, m) := relay_slots pool n (i + 1) pre [] in (None :: r, i :: m)
          end
      end
  end.

(** [cmpctblock]; [mempool] is [mempool.entries()] in the order of the map. *)
Definition handle_cmpctblock (q : Room) (peer : PeerId) (compact : CompactBlock) (mempool : list Transaction) (s : CompactRelay) :
    CompactRelay * list RelayOut :=
  let hash := block_hash (cb_header compact) in
  let keys := calculate_siphash_keys (cb_header compact) (cb_nonce compact) in
  let pool := id_map (fun tx => with_siphash_keys (compute_wtxid tx) keys) mempool in
  let total_tx_count := (length (short_ids compact) + length (prefilled_txs compact))%nat in
  let '(txs, missing_indices) := relay_slots pool total_tx_count 0 (prefill_abs 0 (prefilled_txs compact)) (short_ids compact) in
  if bool_decide (missing_indices = []) then (s, emit_block q peer (mkBlock (cb_header compact) (omap id txs)))
  else
    (mkRelay (<[hash := mkPendingCompact (cb_header compact) txs peer]> (pending_compact s)) (relay_peers s),
     peer_send q (relay_peers s) peer (SendGetBlockTxn peer hash missing_indices)).

(** The empty slots take the transactions in order. *)
Fixpoint fill_empty (slots : list (option Transaction)) (txs : list Transaction) : list (option Transaction) :=
  match slots, txs with
  | None :: slots, tx :: txs => Some tx :: fill_empty slots txs
  | slot :: slots, txs => slot :: fill_empty slots txs
  | [], _ => []
  end.

(** [blocktxn]; the answer is taken from any peer. *)
Definition handle_blocktxn (q : Room) (peer : PeerId) (response : BlockTxnResponse) (s : CompactRelay) : CompactRelay * list RelayOut :=
  let hash := bt_hash response in
  match pending_compact s !! hash with
  | None => (s, [])
  | Some pending =>
      let s := mkRelay (delete hash (pending_compact s)) (relay_peers s) in
      let txs := fill_empty (pc_txs pending) (bt_transactions response) in
      if bool_decide (Forall is_Some txs) then (s, emit_block q peer (mkBlock (pc_header pending) (omap id txs)))
      else (s, peer_send q (relay_peers s) peer (SendGetDataBlock peer hash))
  end.
End Relay.
