(* ===== verification/CompactProofs.v ===== *)
(** * Properties of compact blocks

    An honest announcement is reconstructed exactly, by both implementations;
    the two SipHash implementations agree; the answer of any peer completes a
    block that another peer announced. *)

From Stdlib Require Import ZArith Lia.
From stdpp Require Import base option numbers list gmap strings sorting.
From S2P Require Import Prelude Bytes U256 Types ScriptBytes Signatures Merkle Consensus Validation Store HeaderIndex HeaderProofs TxIndex BlockStore Bip110 UtxoSet UtxoProofs SplitMonitor BlockSync HeaderSync HeaderSyncProofs ChainState ChainProofs ReorgProofs NodeChain NodeProofs BlockFilter CompactBlock.

Section Proofs.
Implicit Types (pool : gmap ShortId Transaction) (ids : Transaction -> ShortId).

(** ** The announcement of a block

    [mask] says which transactions are sent in full; [gap] counts the ones left
    out since the last such transaction, which is how positions are encoded. *)
Fixpoint compact_parts ids (gap : Z) (mask : list bool) (txs : list Transaction) : list PrefilledTx * list ShortId :=
  match mask, txs with
  | true :: mask, tx :: txs => let '(p, s) := compact_parts ids 0 mask txs in (mkPrefilled gap tx :: p, s)
  | false :: mask, tx :: txs => let '(p, s) := compact_parts ids (gap + 1) mask txs in (p, ids tx :: s)
  | _, _ => ([], [])
  end.

(** What the slots hold and which are missing. *)
Definition slots_of pool ids (mask : list bool) (txs : list Transaction) : list (option Transaction) :=
  zip_with (fun (m : bool) tx => if m then Some tx else pool !! ids tx) mask txs.
Fixpoint missing_of pool ids (i : Z) (mask : list bool) (txs : list Transaction) : list Z :=
  match mask, txs with
  | m :: mask, tx :: txs =>
      if negb m && bool_decide (pool !! ids tx = None) then i :: missing_of pool ids (i + 1) mask txs
      else missing_of pool ids (i + 1) mask txs
  | _, _ => []
  end.

Lemma parts_first ids mask : forall gap txs pf r s,
  compact_parts ids gap mask txs = (pf :: r, s) -> gap <= pf_index pf <= gap + len txs.
Proof.
  induction mask as [|[] mask IH]; intros gap [|tx txs] pf r s; cbn [compact_parts]; try done.
  - destruct (compact_parts ids 0 mask txs). intros [= <- <- <-]. rewrite len_cons. pose proof (len_nonneg txs). cbn. lia.
  - destruct (compact_parts ids (gap + 1) mask txs) as [p s'] eqn:Hp. intros [= -> <-]. apply IH in Hp. rewrite len_cons. lia.
Qed.

(** The manager's loop on an announcement. *)
Lemma relay_slots_parts pool ids mask : forall txs base gap i,
  length mask = length txs -> 0 <= base -> 0 <= gap -> i = base + gap -> i + len txs < 2 ^ 32 ->
  let '(p, s) := compact_parts ids gap mask txs in
  relay_slots pool (length txs) i (prefill_abs base p) s = (slots_of pool ids mask txs, missing_of pool ids i mask txs).
Proof.
  induction mask as [|m mask IH]; intros [|tx txs] base gap i Hlen Hb Hg Hi Hlim; try done.
  injection Hlen as Hlen. rewrite len_cons in Hlim. pose proof (len_nonneg txs). cbn [slots_of zip_with missing_of length].
  destruct m; cbn [compact_parts negb andb].
  - pose proof (IH txs (i + 1) 0 (i + 1) Hlen ltac:(lia) ltac:(lia) ltac:(lia) ltac:(lia)) as IH'.
    destruct (compact_parts ids 0 mask txs) as [p s]. cbn [prefill_abs relay_slots pf_index pf_tx drop].
    rewrite <- Hi. rewrite !(wrap_small 64) by (unfold fits; lia). rewrite Z.eqb_refl, drop_0.
    unfold slots_of in IH'. by rewrite IH'.
  - pose proof (IH txs base (gap + 1) (i + 1) Hlen ltac:(lia) ltac:(lia) ltac:(lia) ltac:(lia)) as IH'.
    destruct (compact_parts ids (gap + 1) mask txs) as [p s] eqn:Hp. cbn [relay_slots].
    replace (match prefill_abs base p with (j, tx0) :: _ => if j =? i then Some tx0 else None | [] => None end) with (@None Transaction).
    + unfold slots_of in IH'. rewrite IH'. destruct (pool !! ids tx) as [t|]; [by rewrite bool_decide_eq_false_2|by rewrite bool_decide_eq_true_2].
    + destruct p as [|pf p]; [done|]. cbn [prefill_abs]. apply parts_first in Hp.
      rewrite wrap_small by (unfold fits; lia). by destruct (Z.eqb_spec (base + pf_index pf) i); [lia|].
Qed.

(** ** Without colliding short ids *)

Lemma id_map_spec ids mempool : forall pool sid t,
  foldl (fun m tx => <[ids tx := tx]> m) pool mempool !! sid = Some t -> pool !! sid = Some t \/ (t ∈ mempool /\ ids t = sid).
Proof.
  induction mempool as [|tx mempool IH]; intros pool sid t Ht; [by left|]. cbn in Ht.
  destruct (IH _ _ _ Ht) as [Hl|[Hin Hs]]; [|right; split; [by right|done]].
  apply lookup_insert_Some in Hl as [[<- <-]|[_ Hl]]; [right; split; [by left|done]|by left].
Qed.

(** A transaction of the mempool with the short id of one of the block is it. *)
Definition no_collision ids (mempool txs : list Transaction) : Prop :=
  forall t tx, t ∈ mempool -> tx ∈ txs -> ids t = ids tx -> t = tx.

Lemma pool_exact ids mempool txs tx t :
  no_collision ids mempool txs -> tx ∈ txs -> id_map ids mempool !! ids tx = Some t -> t = tx.
Proof.
  intros Hnc Htx Ht. apply id_map_spec in Ht as [Ht|[Hin Hs]]; [by rewrite lookup_empty in Ht|by apply Hnc].
Qed.

Lemma id_map_finds ids mempool : forall pool t, t ∈ mempool ->
  is_Some (foldl (fun m tx => <[ids tx := tx]> m) pool mempool !! ids t).
Proof.
  assert (Hkeep : forall l pool sid, is_Some (pool !! sid) -> is_Some (foldl (fun m tx => <[ids tx := tx]> m) pool l !! sid)).
  { induction l as [|tx l IH]; intros pool sid Hs; [done|]. apply IH. apply lookup_insert_is_Some'. by right. }
  induction mempool as [|tx mempool IH]; intros pool t Ht; [by apply not_elem_of_nil in Ht|].
  apply elem_of_cons in Ht as [->|Ht]; [|by apply IH]. cbn. apply Hkeep. rewrite lookup_insert_eq. eauto.
Qed.

(** So a short id is unknown exactly when the transaction is not there. *)
Lemma pool_unknown ids mempool txs tx :
  no_collision ids mempool txs -> tx ∈ txs -> id_map ids mempool !! ids tx = None <-> tx ∉ mempool.
Proof.
  intros Hnc Htx. split.
  - intros Hn Hin. destruct (id_map_finds ids mempool ∅ tx Hin) as [t Ht]. unfold id_map in Hn. congruence.
  - intros Hno. destruct (id_map ids mempool !! ids tx) as [t|] eqn:Ht; [|done]. destruct Hno.
    pose proof (pool_exact _ _ _ _ _ Hnc Htx Ht) as ->. by apply id_map_spec in Ht as [Ht|[Hin _]]; [rewrite lookup_empty in Ht|].
Qed.

(** A slot is empty or holds its own transaction. *)
Definition slots_ok (txs : list Transaction) (slots : list (option Transaction)) : Prop :=
  Forall2 (fun tx slot => slot = None \/ slot = Some tx) txs slots.

Lemma slots_of_ok pool ids mask : forall txs,
  (forall tx t, tx ∈ txs -> pool !! ids tx = Some t -> t = tx) -> length mask = length txs -> slots_ok txs (slots_of pool ids mask txs).
Proof.
  induction mask as [|m mask IH]; intros [|tx txs] Hex Hlen; try done; [constructor|]. injection Hlen as Hlen.
  constructor; [|apply IH; [intros; apply Hex; [by right|done]|done]].
  destruct m; [by right|]. destruct (pool !! ids tx) as [t|] eqn:Ht; [right; f_equal; apply Hex; [by left|done]|by left].
Qed.

(** The empty slots are the missing indices. *)
Fixpoint empty_at (i : Z) (slots : list (option Transaction)) : list Z :=
  match slots with
  | [] => []
  | None :: rest => i :: empty_at (i + 1) rest
  | Some _ :: rest => empty_at (i + 1) rest
  end.

Lemma missing_empty pool ids mask : forall txs i, length mask = length txs ->
  missing_of pool ids i mask txs = empty_at i (slots_of pool ids mask txs).
Proof.
  induction mask as [|m mask IH]; intros [|tx txs] i Hlen; try done. injection Hlen as Hlen. cbn [missing_of slots_of zip_with empty_at].
  destruct m; cbn [negb andb]; [by apply IH|]. destruct (pool !! ids tx) as [t|].
  - rewrite bool_decide_eq_false_2 by done. by apply IH.
  - rewrite bool_decide_eq_true_2 by done. f_equal. by apply IH.
Qed.

(** Which indices these are. *)
Lemma missing_of_mem pool ids mask : forall txs i k, length mask = length txs ->
  k ∈ missing_of pool ids i mask txs <->
  exists j tx, k = i + Z.of_nat j /\ mask !! j = Some false /\ txs !! j = Some tx /\ pool !! ids tx = None.
Proof.
  induction mask as [|m mask IH]; intros [|tx txs] i k Hlen; try done.
  { cbn. rewrite elem_of_nil. split; [done|]. by intros (j & tx & _ & Hj & _). }
  injection Hlen as Hlen. cbn [missing_of].
  assert (Hrest : k ∈ missing_of pool ids (i + 1) mask txs <->
    exists j t, k = i + Z.of_nat (S j) /\ mask !! j = Some false /\ txs !! j = Some t /\ pool !! ids t = None).
  { rewrite IH by done. split; intros (j & t & -> & Hj); exists j, t; (split; [lia|done]). }
  assert (Hall : (exists j t, k = i + Z.of_nat j /\ (m :: mask) !! j = Some false /\ (tx :: txs) !! j = Some t /\ pool !! ids t = None) <->
    (k = i /\ m = false /\ pool !! ids tx = None) \/ k ∈ missing_of pool ids (i + 1) mask txs).
  { rewrite Hrest. split.
    - intros ([|j] & t & -> & Hm & Ht & Hp); cbn in Hm, Ht; [|right; by exists j, t]. left. split; [lia|]. split; congruence.
    - intros [(-> & -> & Hp)|(j & t & Hk & Hj)]; [exists 0%nat, tx; split_and!; [lia|done..]|by exists (S j), t]. }
  rewrite Hall. destruct m; cbn [negb andb]; [naive_solver|].
  destruct (pool !! ids tx); [rewrite bool_decide_eq_false_2 by done; naive_solver|].
  rewrite bool_decide_eq_true_2 by done. rewrite elem_of_cons. naive_solver.
Qed.

Lemma missing_of_sorted pool ids mask : forall txs i, length mask = length txs ->
  StronglySorted Z.lt (missing_of pool ids i mask txs).
Proof.
  induction mask as [|m mask IH]; intros [|tx txs] i Hlen; try done; [constructor|]. injection Hlen as Hlen. cbn [missing_of].
  destruct (negb m && _); [|by apply IH]. constructor; [by apply IH|]. apply Forall_forall.
  intros k (j & t & -> & _)%missing_of_mem; [lia|done].
Qed.

Lemma empty_none txs slots : slots_ok txs slots -> forall i, empty_at i slots = [] -> slots = map Some txs.
Proof.
  induction 1 as [|tx slot txs slots [->| ->] _ IH]; intros i He; [done|done|]. cbn in He |- *. f_equal. by eapply IH.
Qed.

Lemma omap_id_some {A} (l : list A) : omap id (map Some l) = l.
Proof. induction l as [|x l IH]; [done|]. cbn. by rewrite IH. Qed.

(** The transactions of a block at given indices. *)
Definition txs_at (txs : list Transaction) (indexes : list Z) : list Transaction := omap (fun i => txs !! Z.to_nat i) indexes.

Lemma txs_at_empty txs slots : slots_ok txs slots -> forall pre,
  txs_at (pre ++ txs) (empty_at (len pre) slots) = omap (fun '(slot, tx) => if slot is Some _ then None else Some tx) (zip slots txs).
Proof.
  induction 1 as [|tx slot txs slots Hs Hok IH]; intros pre; [done|].
  assert (IH' := IH (pre ++ [tx])). rewrite <- app_assoc, len_app in IH'. cbn [app] in IH'. change (len [tx]) with 1 in IH'.
  destruct slot as [t|]; cbn [empty_at zip zip_with omap list_omap]; [exact IH'|].
  unfold txs_at in *. cbn [omap list_omap]. rewrite to_nat_len, list_lookup_middle by done. by f_equal.
Qed.

Lemma length_missing txs slots : slots_ok txs slots -> forall pre,
  length (txs_at (pre ++ txs) (empty_at (len pre) slots)) = length (empty_at (len pre) slots).
Proof.
  intros Hok pre. rewrite (txs_at_empty _ _ Hok). generalize (len pre).
  induction Hok as [|tx slot txs slots Hs Hok IH]; intros i; [done|]. destruct slot; cbn; [apply IH|f_equal; apply IH].
Qed.

Lemma fill_empty_exact txs slots : slots_ok txs slots ->
  fill_empty slots (omap (fun '(slot, tx) => if slot is Some _ then None else Some tx) (zip slots txs)) = map Some txs.
Proof.
  induction 1 as [|tx slot txs slots Hs Hok IH]; [done|].
  destruct Hs as [-> | ->]; cbn [zip zip_with omap list_omap fill_empty map]; by rewrite IH.
Qed.

(** ** The reconstruction of the core *)

Lemma fill_slots_none pool ids txs : forall i, 0 <= i -> i + len txs < 2 ^ 32 ->
  fill_slots pool i (replicate (length txs) None) (map ids txs) =
  (slots_of pool ids (replicate (length txs) false) txs, missing_of pool ids i (replicate (length txs) false) txs).
Proof.
  induction txs as [|tx txs IH]; intros i Hi Hlim; [done|]. rewrite len_cons in Hlim. pose proof (len_nonneg txs).
  cbn [length replicate map fill_slots slots_of zip_with missing_of negb andb]. rewrite IH by lia.
  destruct (pool !! ids tx); [by rewrite bool_decide_eq_false_2|]. rewrite bool_decide_eq_true_2 by done.
  by rewrite wrap_small by (unfold fits; lia).
Qed.

Lemma fill_loop_exact txs slots : slots_ok txs slots -> forall pre pre',
  length pre = length pre' ->
  fill_loop (pre' ++ slots) (empty_at (len pre) slots) (txs_at (pre ++ txs) (empty_at (len pre) slots)) = (pre' ++ map Some txs, true).
Proof.
  intros Hok pre. rewrite (txs_at_empty _ _ Hok). revert pre.
  induction Hok as [|tx slot txs slots Hs Hok IH]; intros pre pre' Hlen; [done|].
  assert (IH' := IH (pre ++ [tx]) (pre' ++ [Some tx]) ltac:(by rewrite !length_app, Hlen)).
  rewrite len_app in IH'. change (len [tx]) with 1 in IH'. rewrite <- !app_assoc in IH'. cbn [app] in IH'.
  destruct slot as [t|]; cbn [empty_at zip zip_with omap list_omap map].
  - destruct Hs as [|[= ->]]; [done|]. exact IH'.
  - cbn [fill_loop]. assert (Hn : Z.to_nat (len pre) = length pre') by by rewrite to_nat_len.
    rewrite len_app, len_cons. pose proof (len_nonneg slots). replace (len pre') with (len pre) by (unfold len; lia).
    destruct (Z.ltb_spec (len pre) (len pre + (1 + len slots))); [|lia].
    rewrite Hn. replace (length pre') with (length pre' + 0)%nat at 1 by lia. rewrite insert_app_r. exact IH'.
Qed.
End Proofs.

(** ** Theorems *)

Section Core.
Context `{HH : Hashes} `{HT : TxLib}.

(** A compact block and the answer to the request for what is missing give the
    block back. *)
Lemma compact_block_roundtrip (block : Block) (c : CompactBlock) (nonce : Z) (mempool : list Transaction) :
  from_block block nonce = Some c -> len (txdata block) < 2 ^ 32 ->
  no_collision (fun tx => short_id (short_id_key c) (compute_txid tx)) mempool (txdata block) ->
  let '(slots, missing) := reconstruct c mempool in
  fill_missing slots missing (mkBlockTxn (block_hash (header block)) (txs_at (txdata block) missing)) = (map Some (txdata block), true).
Proof.
  unfold from_block. destruct (txdata block) as [|cb txs] eqn:Htx; [done|]. intros [= <-] Hlim Hnc. rewrite len_cons in Hlim.
  unfold reconstruct, short_id_key in *. cbn [cb_header cb_nonce short_ids prefilled_txs] in *.
  set (ids := fun tx => short_id (from_header_nonce (block_hash (header block)) nonce) (compute_txid tx)) in *.
  set (pool := id_map ids mempool). rewrite length_map.
  change (place_prefilled _ _) with (place_prefilled (None :: replicate (length txs) None) [mkPrefilled 0 cb]).
  assert (Hp : place_prefilled (None :: replicate (length txs) None) [mkPrefilled 0 cb] = Some cb :: replicate (length txs) None).
  { unfold place_prefilled. cbn [foldl fst pf_index pf_tx]. rewrite (wrap_small 32 (0 + 0)) by (unfold fits; lia).
    rewrite len_cons. pose proof (len_nonneg (replicate (length txs) (@None Transaction))). by destruct (Z.ltb_spec (0 + 0) (1 + len (replicate (length txs) (@None Transaction)))); [|lia]. }
  rewrite Hp. cbn [fill_slots]. rewrite fill_slots_none by lia.
  assert (Hok : slots_ok txs (slots_of pool ids (replicate (length txs) false) txs)).
  { apply slots_of_ok; [|by rewrite length_replicate]. intros tx t Hin. apply (pool_exact _ _ (cb :: txs)); [done|by right]. }
  rewrite missing_empty by by rewrite length_replicate. set (slots := slots_of _ _ _ _) in *.
  assert (Hok' : slots_ok (cb :: txs) (Some cb :: slots)) by (constructor; [by right|done]).
  pose proof (fill_loop_exact _ _ Hok' [] [] eq_refl) as Hf. pose proof (length_missing _ _ Hok' []) as Hl.
  change (len []) with 0 in Hf, Hl. cbn [app empty_at] in Hf, Hl. change (0 + 1) with 1 in *.
  unfold fill_missing. cbn [bt_transactions]. by rewrite Hl, Nat.eqb_refl.
Qed.
End Core.

Section Relay.
Context `{HT : TxLib} `{HB : Bip152}.

(** The message a peer sends for a block, with the transactions of [mask] in full. *)
Definition announcement (block : Block) (nonce : Z) (mask : list bool) : CompactBlock :=
  let keys := calculate_siphash_keys (header block) nonce in
  let '(p, s) := compact_parts (fun tx => with_siphash_keys (compute_wtxid tx) keys) 0 mask (txdata block) in
  mkCompact (header block) nonce s p.

Lemma parts_length ids mask : forall gap txs, length mask = length txs ->
  (length (compact_parts ids gap mask txs).2 + length (compact_parts ids gap mask txs).1)%nat = length txs.
Proof.
  induction mask as [|[] mask IH]; intros gap [|tx txs] Hlen; try done; injection Hlen as Hlen; cbn [compact_parts].
  - specialize (IH 0 txs Hlen). destruct (compact_parts ids 0 mask txs). cbn in *. lia.
  - specialize (IH (gap + 1) txs Hlen). destruct (compact_parts ids (gap + 1) mask txs). cbn in *. lia.
Qed.

(** C35: an announced block is relayed exactly.  The peer sends any of the
    transactions in full and short ids for the others; no two transactions of
    mempool and block share a short id.  The missing ones are those neither
    sent nor in the mempool.  If there are none the announced block is handed
    to the node; otherwise their indices, each once and in order, are requested
    from the peer when it is connected and its write channel has room, and the
    answer, from whichever peer, completes the announced block, which is handed
    to the node and no longer awaited.  When the channel to the node is full
    the block is dropped: [emit_block] hands it over only if there is room.
    Blocks have at most 2^16 transactions, as the encoding requires. *)
Theorem compact_relay_exact (q : Room) (peer : PeerId) (block : Block) (nonce : Z) (mask : list bool) (mempool : list Transaction) (s : CompactRelay) :
  length mask = length (txdata block) -> len (txdata block) <= 2 ^ 16 -> peer ∈ relay_peers s -> peer_room q peer = true ->
  no_collision (fun tx => with_siphash_keys (compute_wtxid tx) (calculate_siphash_keys (header block) nonce)) mempool (txdata block) ->
  exists missing,
    (forall k, k ∈ missing <-> exists j tx, k = Z.of_nat j /\ mask !! j = Some false /\ txdata block !! j = Some tx /\ tx ∉ mempool) /\
    StronglySorted Z.lt missing /\
    if bool_decide (missing = []) then
      handle_cmpctblock q peer (announcement block nonce mask) mempool s = (s, emit_block q peer block)
    else exists s',
      handle_cmpctblock q peer (announcement block nonce mask) mempool s = (s', [SendGetBlockTxn peer (block_hash (header block)) missing]) /\
      length (txs_at (txdata block) missing) = length missing /\
      forall q' peer', handle_blocktxn q' peer' (mkBlockTxn (block_hash (header block)) (txs_at (txdata block) missing)) s' =
        (mkRelay (delete (block_hash (header block)) (pending_compact s)) (relay_peers s), emit_block q' peer' block).
Proof.
  intros Hmask Hlim Hpeer Hroom Hnc. unfold handle_cmpctblock, announcement.
  set (ids := fun tx => with_siphash_keys (compute_wtxid tx) (calculate_siphash_keys (header block) nonce)) in *.
  set (pool := id_map ids mempool). pose proof (parts_length ids mask 0 _ Hmask) as Hpl.
  pose proof (relay_slots_parts pool ids mask (txdata block) 0 0 0 Hmask ltac:(lia) ltac:(lia) ltac:(lia) ltac:(lia)) as Hr.
  destruct (compact_parts ids 0 mask (txdata block)) as [p sids]. cbn [fst snd cb_header cb_nonce short_ids prefilled_txs] in *.
  fold ids. fold pool. rewrite Hpl, Hr. exists (missing_of pool ids 0 mask (txdata block)). split_and!.
  { intros k. rewrite missing_of_mem by done. split; intros (j & tx & -> & Hm & Ht & Hp); exists j, tx;
      (split_and!; [lia|done|done|]); apply (pool_unknown ids mempool (txdata block)); try done; by eapply list_elem_of_lookup_2. }
  { by apply missing_of_sorted. }
  assert (Hok : slots_ok (txdata block) (slots_of pool ids mask (txdata block))).
  { apply slots_of_ok; [|done]. intros tx t. by apply pool_exact. }
  rewrite missing_empty by done. set (slots := slots_of pool ids mask (txdata block)) in *. case_bool_decide as Hm.
  - rewrite (empty_none _ _ Hok 0 Hm), omap_id_some. by destruct block.
  - eexists _. unfold peer_send. rewrite bool_decide_eq_true_2, Hroom by done. cbn [andb].
    split_and!; [done|by apply (length_missing _ _ Hok [])|].
    intros q' peer'. unfold handle_blocktxn. cbn [bt_hash bt_transactions pending_compact relay_peers]. rewrite lookup_insert_eq.
    cbn [pc_txs pc_header]. rewrite (txs_at_empty _ _ Hok [] : txs_at (txdata block) (empty_at 0 slots) = _), (fill_empty_exact _ _ Hok), omap_id_some.
    rewrite bool_decide_eq_true_2; [|apply Forall_forall; intros x (tx & -> & _)%list_elem_of_fmap; eauto].
    rewrite delete_insert_eq. by destruct block.
Qed.
End Relay.

(** ** The two SipHash implementations *)

Definition sip_tuple (s : SipState) : Z * Z * Z * Z := (v0 s, v1 s, v2 s, v3 s).

Lemma sipround_agrees s : sipround (sip_tuple s) = sip_tuple (sip_round s).
Proof. done. Qed.

Lemma absorb_eq a b c d m a' b' c' d' :
  sipround (sipround (a, b, c, Z.lxor d m)) = (a', b', c', d') -> absorb (a, b, c, d) m = (Z.lxor a' m, b', c', d').
Proof. intros Ht. unfold absorb. by rewrite Ht. Qed.

Lemma sip_word_eq a b c d m a' b' c' d' :
  sip_round (sip_round (mkSip a b c (Z.lxor d m))) = mkSip a' b' c' d' ->
  sip_word (mkSip a b c d) m = mkSip (Z.lxor a' m) b' c' d'.
Proof. intros Ht. unfold sip_word. cbn [v0 v1 v2 v3]. by rewrite Ht. Qed.

Lemma absorb_agrees s m : absorb (sip_tuple s) m = sip_tuple (sip_word s m).
Proof.
  destruct s as [a b c d]. destruct (sip_round (sip_round (mkSip a b c (Z.lxor d m)))) as [a' b' c' d'] eqn:Ht.
  rewrite (sip_word_eq _ _ _ _ _ _ _ _ _ Ht). apply absorb_eq.
  pose proof (sipround_agrees (mkSip a b c (Z.lxor d m))) as H1. pose proof (sipround_agrees (sip_round (mkSip a b c (Z.lxor d m)))) as H2.
  rewrite Ht, <- H1 in H2. exact H2.
Qed.

Lemma foldl_absorb_agrees {A} (f : A -> Z) l : forall s,
  foldl (fun v i => absorb v (f i)) (sip_tuple s) l = sip_tuple (foldl (fun s i => sip_word s (f i)) s l).
Proof. induction l as [|x l IH]; intros s; [done|]. cbn [foldl]. by rewrite absorb_agrees, IH. Qed.

Lemma length_byte n : 0 <= n -> u64 (Z.shiftl n 56) = Z.shiftl (Z.land n 0xff) 56.
Proof.
  intros Hn. change 0xff with (Z.ones 8). rewrite Z.land_ones, !Z.shiftl_mul_pow2 by lia. unfold wrap.
  change (2 ^ 64) with (2 ^ 8 * 2 ^ 56). by rewrite Z.mul_mod_distr_r by lia.
Qed.

(** The SipHash of [compact_block.rs] is the one of [block_filter.rs]. *)
Lemma siphash_implementations_agree (key data : bytes) :
  CompactBlock.siphash_2_4 (from_le (take 8 key)) (from_le (take 8 (drop 8 key))) data = BlockFilter.siphash_2_4 key data.
Proof.
  unfold CompactBlock.siphash_2_4, BlockFilter.siphash_2_4. cbv zeta. rewrite length_byte by apply len_nonneg.
  match goal with |- context [foldl (fun v i => absorb v _) ?t] => change t with
    (sip_tuple (mkSip (Z.lxor 0x736f6d6570736575 (from_le (take 8 key))) (Z.lxor 0x646f72616e646f6d (from_le (take 8 (drop 8 key))))
                 (Z.lxor 0x6c7967656e657261 (from_le (take 8 key))) (Z.lxor 0x7465646279746573 (from_le (take 8 (drop 8 key)))))) end.
  rewrite foldl_absorb_agrees, absorb_agrees. generalize (sip_word (foldl (fun s i => sip_word s (from_le (take 8 (drop (i * 8) data))))
    (mkSip (Z.lxor 0x736f6d6570736575 (from_le (take 8 key))) (Z.lxor 0x646f72616e646f6d (from_le (take 8 (drop 8 key))))
       (Z.lxor 0x6c7967656e657261 (from_le (take 8 key))) (Z.lxor 0x7465646279746573 (from_le (take 8 (drop 8 key)))))
    (seq 0 (length data / 8)))
    (foldl (fun last '(i, byte) => Z.lor last (Z.shiftl byte (Z.of_nat i * 8))) (Z.shiftl (Z.land (len data) 0xff) 56)
       (imap pair (drop (length data / 8 * 8) data)))) as w. intros w. unfold sip_tuple at 1.
  change (v0 w, v1 w, Z.lxor (v2 w) 0xff, v3 w) with (sip_tuple (mkSip (v0 w) (v1 w) (Z.lxor (v2 w) 0xff) (v3 w))).
  rewrite !sipround_agrees. by generalize (sip_round (sip_round (sip_round (sip_round (mkSip (v0 w) (v1 w) (Z.lxor (v2 w) 0xff) (v3 w)))))).
Qed.

(** ** Answers of other peers *)

Section Attack.
Context `{HH : Hashes} `{HSL : ScriptLib} `{HSg : SigLib} `{HT : TxLib} `{HO : OutPointOrd} `{HZ : TxSizes} `{HR : RocksDb} `{HL : !RocksLaws}
  `{HW : !RocksWal} `{HC : HeaderCodec} `{HCL : !HeaderCodecLaws} `{HF : BlockFiles} `{HFL : !BlockFilesLaws} `{HM : MapIter} `{HMI : !MapIterLaws}
  `{HRt : Runtime} `{HRL : !RuntimeLaws} `{HTI : TipIter} `{HSI : SyncIter} `{HB : BlockLib} `{HNI : NodeIter} `{HNL : !NodeIterLaws}.
Context `{HB152 : Bip152}.

(** any peer can spoil a block that another one announced: for an announced
    block of two transactions of which the second is missing, an unrequested
    [blocktxn] with a copy of the first is taken as the answer; the body it
    completes is handed to the node, and when the node tries to connect it the
    hash is marked invalid, so that the valid block is refused as well. *)
Theorem blocktxn_from_any_peer_spoils_block (q q' : Room) (peer attacker : PeerId) (block : Block) (cb tx : Transaction) (bnonce : Z)
    (mempool : list Transaction) (s : CompactRelay) (now : Z) (clock : nat -> Z) (n : Node) (valid_raw : option bytes) (c' : ChainState) (txids : list hash256) :
  txdata block = [cb; tx] ->
  (forall t, t ∈ mempool -> with_siphash_keys (compute_wtxid t) (calculate_siphash_keys (header block) bnonce)
     <> with_siphash_keys (compute_wtxid tx) (calculate_siphash_keys (header block) bnonce)) ->
  let s' := (handle_cmpctblock q peer (announcement block bnonce [true; false]) mempool s).1 in
  let bad := mkBlock (header block) [cb; cb] in
  (handle_blocktxn q' attacker (mkBlockTxn (block_hash (header block)) [cb]) s').2 = emit_block q' attacker bad /\
  (next_up n bad None -> marker_written n (block_hash (header block)) ->
   connect_block_with_raw now block (u32 (ChainState.best_height (chain_state n) + 1)) valid_raw (chain_state n) = (c', Ok txids) ->
   refused (drain_one now clock n).1 (block_hash (header block))).
Proof.
  intros Htx Hno s' bad. split; [|intros Hn Hmark Hok; by apply (repeated_body_lost now clock n block cb None valid_raw c' txids)].
  unfold s', handle_cmpctblock, announcement. rewrite Htx. cbn [compact_parts cb_header cb_nonce short_ids prefilled_txs length Nat.add prefill_abs].
  cbn [relay_slots pf_index pf_tx]. rewrite !(wrap_small 64) by (unfold fits; lia). cbn [Z.eqb Z.add drop].
  set (ids := fun t => with_siphash_keys (compute_wtxid t) (calculate_siphash_keys (header block) bnonce)).
  assert (Hnone : id_map ids mempool !! ids tx = None).
  { destruct (id_map ids mempool !! ids tx) as [t|] eqn:Ht; [|done]. apply id_map_spec in Ht as [Ht|[Hin Hs]]; [by rewrite lookup_empty in Ht|].
    by destruct (Hno t Hin). }
  fold ids. change (with_siphash_keys (compute_wtxid tx) (calculate_siphash_keys (header block) bnonce)) with (ids tx). rewrite Hnone.
  change (0 + 0 =? 0) with true. cbv beta iota zeta. rewrite (bool_decide_eq_false_2 ([0 + 1] = [])) by done. unfold handle_blocktxn.
  cbn [fst bt_hash pending_compact]. rewrite lookup_insert_eq.
  cbn [pc_txs pc_header bt_transactions fill_empty]. rewrite bool_decide_eq_true_2; [done|]. repeat constructor; eauto.
Qed.
End Attack.

(** ** The theorems at concrete inputs *)

Section Examples.
#[local] Existing Instance Sample.hashes.
#[local] Existing Instance Sample.tx_lib.
#[local] Existing Instance Sample.sig_lib.
#[local] Existing Instance SampleScript.script_lib.
#[local] Existing Instance SampleDb.rocks.
#[local] Existing Instance SampleDb.laws.
#[local] Existing Instance SampleCodec.codec.
#[local] Existing Instance SampleCodec.laws.
#[local] Existing Instance SampleCodec.wal.
#[local] Existing Instance ValidationProofs.sample_ord.
#[local] Existing Instance UtxoProofs.sample_iter.
#[local] Existing Instance UtxoProofs.sample_iter_laws.
#[local] Existing Instance BlockStore.sample_files.
#[local] Existing Instance BlockStore.sample_files_laws.
#[local] Existing Instance NodeProofs.ex_sizes.
#[local] Existing Instance NodeProofs.ex_runtime.
#[local] Existing Instance NodeProofs.ex_runtime_laws.
#[local] Existing Instance NodeProofs.ex_tips.
#[local] Existing Instance NodeProofs.ex_sync.
#[local] Existing Instance NodeProofs.ex_node.
#[local] Existing Instance NodeProofs.ex_node_laws.
#[local] Existing Instance NodeProofs.nx_lib.

(** Short ids are the first six bytes of the witness transaction id. *)
#[local] Instance sample_bip152 : Bip152 := {|
  SipKeys := Z;
  calculate_siphash_keys := fun _ n => n;
  with_siphash_keys := fun h _ => take 6 h |}.

(** A block that spends a coin anyone may spend. *)
Definition cx_out : OutPoint := mkOutPoint (replicate 32 9) 0.
Definition cx_spend : Transaction := mkTransaction 2 7 [mkTxIn cx_out [] 0xffffffff []] [mkTxOut 5 [0x51]].
Definition cx_txids : list hash256 := map compute_txid [nx_coinbase 1; cx_spend].
Definition cx_header : Header :=
  mkHeader 4 (nx_hash 0 0) (default [] (root_detecting_mutation cx_txids).1) 101 0xffffffff 1001.
Definition cx_block : Block := mkBlock cx_header [nx_coinbase 1; cx_spend].
Definition cx_db : gmap (string * bytes) bytes :=
  {[(CF_UTXO, outpoint_key cx_out) := serialize_entry (mkUtxoEntry 10 [0x51] 0 false)]}.
Definition cx_chain : ChainState :=
  chain_new regtest nx_index (from_db (cx_db : @DB SampleDb.rocks)) (mkBlockStore 1000000 0 0 (Some []) (∅ : gmap Z bytes) false) 0 (block_hash nx_genesis).
Definition cx_bad : Block := mkBlock cx_header [nx_coinbase 1; nx_coinbase 1].
Definition cx_node : Node :=
  set_pending (mkNode cx_chain (hsync_new regtest nx_index 0 (block_hash nx_genesis)) sync_new [mkDownloadPeer 7 1 true false] ∅ ∅ None
    (0, block_hash nx_genesis) []) {[nx_hash 0 0 := [(cx_bad, None)]]}.
Definition cx_valid := connect_block_with_raw 1000 cx_block 1 None cx_chain.

Definition cx_room : Room := mkRoom true (fun _ => true).

Lemma blocktxn_from_any_peer_spoils_block_witness :
  refused (drain_one 1000 nx_clock cx_node).1 (block_hash cx_header).
Proof.
  refine (proj2 (blocktxn_from_any_peer_spoils_block cx_room cx_room
    7 8 cx_block (nx_coinbase 1) cx_spend 0 [] (mkRelay ∅ {[7]}) 1000 nx_clock cx_node None cx_valid.1 cx_txids eq_refl _) _ _ _).
  - intros t Ht. by apply not_elem_of_nil in Ht.
  - split; [eexists; vm_compute; reflexivity|vm_compute; by left|vm_compute; reflexivity|reflexivity].
  - intros height reason. reflexivity.
  - assert (Hh : u32 (ChainState.best_height (chain_state cx_node) + 1) = 1) by (vm_compute; reflexivity). rewrite Hh.
    assert (Hr : cx_valid.2 = Ok cx_txids) by (vm_compute; reflexivity). rewrite <- Hr. apply surjective_pairing.
Defined.

(** A block of three transactions: one sent, one in the mempool, one missing. *)
Definition cx_lost : Transaction := mkTransaction 2 8 [mkTxIn cx_out [] 0xffffffff []] [mkTxOut 4 [0x51]].
Definition cx_three : Block := mkBlock cx_header [nx_coinbase 1; cx_spend; cx_lost].

Lemma compact_relay_exact_witness :
  exists s' missing,
    handle_cmpctblock cx_room 7 (announcement cx_three 0 [true; false; false]) [nx_coinbase 2; cx_spend] (mkRelay ∅ {[7]}) =
      (s', [SendGetBlockTxn 7 (block_hash cx_header) missing]) /\ missing = [2] /\
    (handle_blocktxn cx_room 8 (mkBlockTxn (block_hash cx_header) (txs_at (txdata cx_three) missing)) s').2 = [EmitBlock 8 cx_three].
Proof.
  destruct (compact_relay_exact cx_room 7 cx_three 0 [true; false; false] [nx_coinbase 2; cx_spend] (mkRelay ∅ {[7]}))
    as (missing & Hmem & _ & Hrun).
  - reflexivity.
  - vm_compute. discriminate.
  - apply (bool_decide_unpack _). vm_compute. exact I.
  - reflexivity.
  - intros t tx [->|[->|Ht]%elem_of_cons]%elem_of_cons; [..|by apply not_elem_of_nil in Ht];
      intros [->|[->|[->|Htx]%elem_of_cons]%elem_of_cons]%elem_of_cons He; try done; try (vm_compute in He; discriminate); by apply not_elem_of_nil in Htx.
  - assert (Hin : 2 ∈ missing).
    { apply Hmem. exists 2%nat, cx_lost. split_and!; [done..|]. apply (bool_decide_unpack (cx_lost ∉ [nx_coinbase 2; cx_spend])). vm_compute. exact I. }
    rewrite bool_decide_eq_false_2 in Hrun by (intros ->; by apply not_elem_of_nil in Hin).
    destruct Hrun as (s' & Hrun & _ & Hfill). exists s', missing. split_and!; [exact Hrun| |].
    + apply (f_equal snd) in Hrun. vm_compute in Hrun. by injection Hrun.
    + change (header cx_three) with cx_header in Hfill. by rewrite Hfill.
Defined.
End Examples.
