(* ===== verification/ScriptHash.v ===== *)
(** * The scripthash index

    [bitcoinpr-index/src/scripthash.rs]: history and balance per scripthash for
    Electrum clients.  A block adds its outputs and subtracts the outputs it
    spends; those of earlier blocks come from a cache or are resolved through
    the transaction index and the block files.  Worker threads only split the
    work of the resolver and are not modelled. *)

From Stdlib Require Import ZArith Lia.
From stdpp Require Import base option numbers list gmap strings.
From S2P Require Import Prelude Bytes Types Store HeaderIndex TxIndex BlockStore.

Definition CF_SCRIPTHASH_TXIDS : string := "scripthash_txids".
Definition CF_SCRIPTHASH_BALANCE : string := "scripthash_balance".
Definition CF_SH_META : string := "meta".
Definition META_SH_INDEXED_HEIGHT : bytes := ascii_bytes "indexed_height".
Definition KEY_SIZE : Z := 40.
Definition VALUE_SIZE : Z := 32.

(** [z as i64], and the wrap-around of [i64] arithmetic. *)
Definition i64 (z : Z) : Z := (z + 2 ^ 63) mod 2 ^ 64 - 2 ^ 63.

(** Partial decoding of the [bitcoin] crate: the value and the bytes it took. *)
Class TxDecode := {
  decode_varint : bytes -> option (Z * Z);
  decode_tx : bytes -> option (Transaction * Z);
  deserialize_tx : bytes -> option Transaction }.

Abbreviation CachedOutput := (bytes * Z)%type.

(** [lru::LruCache] *)
Class OutputCache := {
  Cache : Type;
  cache_new : Cache;
  cache_pop : Cache -> OutPoint -> Cache * option CachedOutput;
  cache_put : Cache -> OutPoint -> CachedOutput -> Cache }.

(** Documented behaviour of an LRU cache: [pop] removes, [put] stores and may
    evict other entries. *)
Class OutputCacheLaws `{OutputCache} := {
  cached : Cache -> OutPoint -> option CachedOutput;
  cached_new o : cached cache_new o = None;
  pop_returns c o : (cache_pop c o).2 = cached c o;
  pop_removes c o o' : cached (cache_pop c o).1 o' = if bool_decide (o' = o) then None else cached c o';
  put_stores c o v : cached (cache_put c o v) o = Some v;
  put_others c o v o' : o' <> o -> cached (cache_put c o v) o' = None \/ cached (cache_put c o v) o' = cached c o' }.

(** Iteration orders of hash maps and sets. *)
Abbreviation DirectWant := (nat * Z * Z * Z * Z)%type.
Abbreviation PrevoutWant := (nat * Z * Z)%type.
Abbreviation WantGroup := (list DirectWant * list PrevoutWant)%type.
Class ScriptHashIter := {
  iter_groups : gmap hash256 WantGroup -> list (hash256 * WantGroup);
  iter_outputs : gmap OutPoint CachedOutput -> list (OutPoint * CachedOutput);
  iter_touches : gset (bytes * Z * bytes) -> list (bytes * Z * bytes);
  iter_deltas : gmap bytes Z -> list (bytes * Z) }.

Class ScriptHashIterLaws `{ScriptHashIter} := {
  iter_groups_perm g : iter_groups g ≡ₚ map_to_list g;
  iter_outputs_perm m : iter_outputs m ≡ₚ map_to_list m;
  iter_touches_perm t : iter_touches t ≡ₚ elements t;
  iter_deltas_perm d : iter_deltas d ≡ₚ map_to_list d }.

(** [iterator_cf_opt] from a key up to an exclusive bound. *)
Class RocksIter `{RocksDb} := {
  iterator_cf : DB -> string -> bytes -> option bytes -> list (StorageResult (bytes * bytes)) }.

Section Keys.
Context `{HH : Hashes}.

Definition compute_scripthash (script_pubkey : bytes) : bytes := reverse (sha256 script_pubkey).

Definition make_key (scripthash : bytes) (height tx_index : Z) : bytes :=
  scripthash ++ to_be 4 height ++ to_be 4 tx_index.
End Keys.

(** ** The prevout resolver *)

Section Resolver.
Context `{HR : RocksDb} `{HF : BlockFiles} `{HT : TxDecode} `{HI : ScriptHashIter}.

Record Resolver := mkResolver {
  rs_tx : TxIndex;
  rs_headers : HeaderIndex;
  rs_blocks : BlockStore }.

(** [get_many]: an error or a malformed entry is a miss. *)
Definition get_many (t : TxIndex) (txids : list hash256) : list (option TxIndexEntry) :=
  map (fun txid => match tx_index_get t txid with Ok e => e | Err _ => None end) txids.

(** Transactions up to the highest position wanted; [offset] is where the next
    one starts. *)
Fixpoint extract_loop (n : nat) (raw : bytes) (pos offset : Z) (wants : list PrevoutWant) :
    list (nat * CachedOutput) * list (Z * Z * Z) :=
  match n with
  | O => ([], [])
  | S n =>
      if offset >? len raw then ([], [])
      else
        match decode_tx (drop (Z.to_nat offset) raw) with
        | None => ([], [])
        | Some (tx, used) =>
            let wanted := filter (fun w : PrevoutWant => w.1.2 = u32 pos) wants in
            let '(out, locs) := extract_loop n raw (pos + 1) (usize (offset + used)) wants in
            (omap (fun w : PrevoutWant => o ← output tx !! Z.to_nat w.2; Some (w.1.1, (script_pubkey o, value o))) wanted ++ out,
             (if bool_decide (wanted = []) then [] else [(u32 pos, u32 offset, u32 used)]) ++ locs)
        end
  end.

Definition extract_outputs_from_raw_block (raw : bytes) (wants : list PrevoutWant) :
    list (nat * CachedOutput) * list (Z * Z * Z) :=
  match wants with
  | [] => ([], [])
  | w :: rest =>
      let max_pos := foldl (fun m (w : PrevoutWant) => Z.max m w.1.2) w.1.2 rest in
      if 80 >? len raw then ([], [])
      else
        match decode_varint (drop 80 raw) with
        | None => ([], [])
        | Some (count, used) => extract_loop (Z.to_nat (Z.min (max_pos + 1) count)) raw 0 (80 + used) wants
        end
  end.

(** One direct read of a transaction; a failure leaves a want for the scan. *)
Definition direct_read (pos : BlockPos) (acc : BlockStore * list (nat * CachedOutput) * list PrevoutWant) (w : DirectWant) :
    BlockStore * list (nat * CachedOutput) * list PrevoutWant :=
  let '(b, out, scan) := acc in
  let '(i, tx_pos, vout, offset, n) := w in
  let '(b, raw) := read_block_slice pos offset n b in
  match (match raw with Ok raw => deserialize_tx raw | Err _ => None end) with
  | Some tx =>
      (b, match output tx !! Z.to_nat vout with Some o => out ++ [(i, (script_pubkey o, value o))] | None => out end, scan)
  | None => (b, out, scan ++ [(i, tx_pos, vout)])
  end.

(** The first outpoint wanted at a position names the transaction there. *)
Definition txid_at (outpoints : list OutPoint) (wants : list PrevoutWant) (tx_pos : Z) : option hash256 :=
  w ← head (filter (fun w : PrevoutWant => w.1.2 = tx_pos) wants); op_txid <$> outpoints !! w.1.1.

Definition resolve_group (hi : HeaderIndex) (outpoints : list OutPoint)
    (acc : BlockStore * list (nat * CachedOutput) * list (hash256 * TxIndexEntry)) (g : hash256 * WantGroup) :
    BlockStore * list (nat * CachedOutput) * list (hash256 * TxIndexEntry) :=
  let '(b, out, upgrades) := acc in
  let '(hash, (direct, scan)) := g in
  match get_block_pos hi hash with
  | Ok (Some pos) =>
      let '(b, out, scan_wants) := foldl (direct_read pos) (b, out, scan) direct in
      if bool_decide (scan_wants = []) then (b, out, upgrades)
      else
        let '(b, raw) := read_block pos b in
        match raw with
        | Err _ => (b, out, upgrades)
        | Ok raw =>
            let '(found, locs) := extract_outputs_from_raw_block raw scan_wants in
            (b, out ++ found,
             upgrades ++ omap (fun '(tx_pos, offset, n) =>
               (fun txid => (txid, mkTxIndexEntry hash tx_pos (Some (offset, n)))) <$> txid_at outpoints scan_wants tx_pos) locs)
        end
  | _ => (b, out, upgrades)
  end.

(** The wants of each funding block. *)
Definition group_want (groups : gmap hash256 WantGroup) (iw : nat * OutPoint * option TxIndexEntry) : gmap hash256 WantGroup :=
  let '(i, op, entry) := iw in
  match entry with
  | None => groups
  | Some e =>
      let g := default ([], []) (groups !! te_block_hash e) in
      <[te_block_hash e := match tx_loc e with
                           | Some (offset, n) => (g.1 ++ [(i, tx_pos e, op_vout op, offset, n)], g.2)
                           | None => (g.1, g.2 ++ [(i, tx_pos e, op_vout op)])
                           end]> groups
  end.

Definition resolve_spent_outputs (outpoints : list OutPoint) (r : Resolver) : Resolver * list (option CachedOutput) :=
  let located := get_many (rs_tx r) (map op_txid outpoints) in
  let groups := foldl group_want ∅ (zip (imap pair outpoints) located) in
  let '(b, out, upgrades) := foldl (resolve_group (rs_headers r) outpoints) (rs_blocks r, [], []) (iter_groups groups) in
  let results := foldl (fun res '(i, v) => <[i := Some v]> res) (replicate (length outpoints) None) out in
  (mkResolver (upgrade_tx_locations upgrades (rs_tx r)).1 (rs_headers r) b, results).
End Resolver.

(** ** Indexing a block *)

Section Index.
Context `{HH : Hashes} `{HSL : ScriptLib} `{HTx : TxLib} `{HR : RocksDb} `{HF : BlockFiles} `{HT : TxDecode} `{HI : ScriptHashIter}
  `{HOC : OutputCache} `{HIt : !RocksIter}.

Record ScripthashIndex := mkScripthashIndex {
  sh_db : DB;
  sh_resolver : option Resolver;
  resolver_cache : Cache }.

Abbreviation SM := (stm ScripthashIndex StorageError).

Definition set_sh_db (s : ScripthashIndex) (d : DB) : ScripthashIndex := mkScripthashIndex d (sh_resolver s) (resolver_cache s).
Definition set_cache (s : ScripthashIndex) (c : Cache) : ScripthashIndex := mkScripthashIndex (sh_db s) (sh_resolver s) c.
Definition set_sh_resolver (s : ScripthashIndex) (r : option Resolver) : ScripthashIndex := mkScripthashIndex (sh_db s) r (resolver_cache s).

Definition clear_resolver_cache (s : ScripthashIndex) : ScripthashIndex := set_cache s cache_new.
Definition set_prevout_resolver (t : TxIndex) (hi : HeaderIndex) (b : BlockStore) (s : ScripthashIndex) : ScripthashIndex :=
  set_sh_resolver s (Some (mkResolver t hi b)).

(** The touches and balance changes of a block. *)
Record ShAcc := mkShAcc {
  touches : gset (bytes * Z * bytes);
  balance_deltas : gmap bytes Z }.

Definition touch (scripthash : bytes) (tx_idx : Z) (txid : bytes) (delta : Z) (a : ShAcc) : ShAcc :=
  mkShAcc ({[(scripthash, tx_idx, txid)]} ∪ touches a)
    (<[scripthash := i64 (default 0 (balance_deltas a !! scripthash) + delta)]> (balance_deltas a)).

(** Pass 1: every output. *)
Definition add_output (tx_idx : Z) (txid : bytes) (acc : ShAcc * gmap OutPoint CachedOutput) (vo : nat * TxOut) :
    ShAcc * gmap OutPoint CachedOutput :=
  let '(vout, out) := vo in
  (touch (compute_scripthash (script_pubkey out)) tx_idx txid (i64 (value out)) acc.1,
   <[mkOutPoint txid (u32 (Z.of_nat vout)) := (script_pubkey out, value out)]> acc.2).
Definition add_tx (acc : ShAcc * gmap OutPoint CachedOutput) (it : nat * Transaction) : ShAcc * gmap OutPoint CachedOutput :=
  let '(tx_index, tx) := it in
  foldl (add_output (u32 (Z.of_nat tx_index)) (compute_txid tx)) acc (imap pair (output tx)).
Definition index_outputs (block : Block) : ShAcc * gmap OutPoint CachedOutput :=
  foldl add_tx (mkShAcc ∅ ∅, ∅) (imap pair (txdata block)).

(** A spend of a known output. *)
Definition spend (tx_idx : Z) (txid : bytes) (v : CachedOutput) (a : ShAcc) : ShAcc :=
  touch (compute_scripthash v.1) tx_idx txid (- i64 v.2) a.

(** Pass 2: the spends of outputs of the block, and the others. *)
Record SpendAcc := mkSpendAcc {
  sa_acc : ShAcc;
  intra_spent : gset OutPoint;
  pending_spends : list (Z * bytes * OutPoint) }.
Definition spend_input (block_outputs : gmap OutPoint CachedOutput) (tx_idx : Z) (txid : bytes) (a : SpendAcc) (i : TxIn) : SpendAcc :=
  let o := previous_output i in
  match block_outputs !! o with
  | Some v => mkSpendAcc (spend tx_idx txid v (sa_acc a)) ({[o]} ∪ intra_spent a) (pending_spends a)
  | None => mkSpendAcc (sa_acc a) (intra_spent a) (pending_spends a ++ [(tx_idx, txid, o)])
  end.
Definition spend_tx (block_outputs : gmap OutPoint CachedOutput) (a : SpendAcc) (it : nat * Transaction) : SpendAcc :=
  let '(tx_index, tx) := it in
  if is_coinbase tx then a
  else foldl (spend_input block_outputs (u32 (Z.of_nat tx_index)) (compute_txid tx)) a (input tx).
Definition index_spends (block : Block) (block_outputs : gmap OutPoint CachedOutput) (a : ShAcc) : SpendAcc :=
  foldl (spend_tx block_outputs) (mkSpendAcc a ∅ []) (imap pair (txdata block)).

(** The cache first; hits are removed from it. *)
Definition pop_spend (acc : Cache * ShAcc * list (Z * bytes * OutPoint)) (p : Z * bytes * OutPoint) :
    Cache * ShAcc * list (Z * bytes * OutPoint) :=
  let '(cache, a, misses) := acc in
  let '(tx_idx, txid, o) := p in
  let '(cache, hit) := cache_pop cache o in
  match hit with
  | Some v => (cache, spend tx_idx txid v a, misses)
  | None => (cache, a, misses ++ [p])
  end.
Definition resolved_spend (a : ShAcc) (p : Z * bytes * OutPoint * option CachedOutput) : ShAcc :=
  let '(tx_idx, txid, _, spent) := p in
  match spent with Some v => spend tx_idx txid v a | None => a end.

(** The spends of outputs of earlier blocks; skipped without a resolver. *)
Definition cross_block_spends (pending : list (Z * bytes * OutPoint)) (a : ShAcc) (s : ScripthashIndex) : ScripthashIndex * ShAcc :=
  match sh_resolver s with
  | None => (s, a)
  | Some r =>
      if bool_decide (pending = []) then (s, a)
      else
        let '(cache, a, misses) := foldl pop_spend (resolver_cache s, a, []) pending in
        let s := set_cache s cache in
        if bool_decide (misses = []) then (s, a)
        else
          let '(r, spents) := resolve_spent_outputs (map snd misses) r in
          (set_sh_resolver s (Some r), foldl resolved_spend a (zip misses spents))
  end.

Definition parse_balance (data : option bytes) : Z * Z :=
  match data with
  | Some data => if len data >=? 16 then (from_le (take 8 data), from_le (take 8 (drop 8 data))) else (0, 0)
  | None => (0, 0)
  end.

Definition sh_cf (name : string) : SM unit :=
  fun s => (s, guard_err (negb (cf_handle (sh_db s) name)) (MissingColumnFamily name)).
Definition sh_get (name : string) (key : bytes) : SM (option bytes) := fun s => (s, get_cf (sh_db s) name key).
Definition sh_write (ops : list batch_op) : SM unit :=
  fun s => let '(d, r) := write (sh_db s) ops in (set_sh_db s d, r).

(** One balance, read and rewritten; it never goes below zero. *)
Definition balance_put (ops : list batch_op) (d : bytes * Z) : SM (list batch_op) :=
  let '(scripthash, delta) := d in
  data ← sh_get CF_SCRIPTHASH_BALANCE scripthash;
  let '(confirmed, unconfirmed) := parse_balance data in
  let confirmed := u64 (Z.max (i64 (i64 confirmed + delta)) 0) in
  mret (ops ++ [Put CF_SCRIPTHASH_BALANCE scripthash (to_le 8 confirmed ++ to_le 8 unconfirmed)]).

(** The outputs of the block that are still unspent enter the cache. *)
Definition seed_cache (block_outputs : gmap OutPoint CachedOutput) (spent : gset OutPoint) (c : Cache) : Cache :=
  foldl (fun c '(o, v) => if bool_decide (o ∈ spent) || script_is_op_return v.1 then c else cache_put c o v)
    c (iter_outputs block_outputs).

Definition index_block_transactions (block : Block) (height : Z) : SM unit :=
  _ ← sh_cf CF_SCRIPTHASH_TXIDS;
  _ ← sh_cf CF_SCRIPTHASH_BALANCE;
  let '(a, block_outputs) := index_outputs block in
  let sa := index_spends block block_outputs a in
  a ← (fun s => let '(s, a) := cross_block_spends (pending_spends sa) (sa_acc sa) s in (s, Ok a));
  let ops := map (fun '(scripthash, tx_idx, txid) => Put CF_SCRIPTHASH_TXIDS (make_key scripthash height tx_idx) txid)
               (iter_touches (touches a)) in
  ops ← foldS balance_put ops (iter_deltas (balance_deltas a));
  _ ← sh_cf CF_SH_META;
  _ ← sh_write (ops ++ [Put CF_SH_META META_SH_INDEXED_HEIGHT (to_le 4 height)]);
  modify (fun s => if sh_resolver s then set_cache s (seed_cache block_outputs (intra_spent sa) (resolver_cache s)) else s).

(** ** Queries *)

Record ScripthashBalance := mkBalance { confirmed : Z; unconfirmed : Z }.

Definition get_balance (s : ScripthashIndex) (scripthash : bytes) : StorageResult ScripthashBalance :=
  _ ← guard_err (negb (cf_handle (sh_db s) CF_SCRIPTHASH_BALANCE)) (MissingColumnFamily CF_SCRIPTHASH_BALANCE);
  data ← get_cf (sh_db s) CF_SCRIPTHASH_BALANCE scripthash;
  Ok (let '(c, u) := parse_balance data in mkBalance c u).

Definition get_sh_indexed_height (s : ScripthashIndex) : StorageResult (option Z) :=
  _ ← guard_err (negb (cf_handle (sh_db s) CF_SH_META)) (MissingColumnFamily CF_SH_META);
  data ← get_cf (sh_db s) CF_SH_META META_SH_INDEXED_HEIGHT;
  Ok (match data with Some data => if len data >=? 4 then Some (from_le (take 4 data)) else None | None => None end).

Definition set_sh_indexed_height (height : Z) : SM unit :=
  _ ← sh_cf CF_SH_META; sh_write [Put CF_SH_META META_SH_INDEXED_HEIGHT (to_le 4 height)].

(** The least key above every key with this prefix, if there is one. *)
Fixpoint increment (rev_prefix : bytes) : option bytes :=
  match rev_prefix with
  | [] => None
  | b :: rest => if b =? 0xff then (fun r => 0 :: r) <$> increment rest else Some (b + 1 :: rest)
  end.
Definition upper_bound (prefix : bytes) : option bytes := reverse <$> increment (reverse prefix).

Record ScripthashTxEntry := mkTxEntry { e_txid : hash256; e_height : Z; e_tx_index : Z }.

Fixpoint history_loop (scripthash : bytes) (l : list (StorageResult (bytes * bytes))) : StorageResult (list ScripthashTxEntry) :=
  match l with
  | [] => Ok []
  | kv :: l =>
      '(key, value) ← kv;
      if negb (len key =? KEY_SIZE) || negb (bool_decide (take 32 key = scripthash)) then Ok []
      else
        _ ← guard_err (negb (len value =? VALUE_SIZE)) (Serialization "scripthash tx value has invalid length");
        rest ← history_loop scripthash l;
        Ok (mkTxEntry value (from_be (take 4 (drop 32 key))) (from_be (take 4 (drop 36 key))) :: rest)
  end.

Definition get_tx_history (s : ScripthashIndex) (scripthash : bytes) : StorageResult (list ScripthashTxEntry) :=
  _ ← guard_err (negb (cf_handle (sh_db s) CF_SCRIPTHASH_TXIDS)) (MissingColumnFamily CF_SCRIPTHASH_TXIDS);
  history_loop scripthash (iterator_cf (sh_db s) CF_SCRIPTHASH_TXIDS scripthash (upper_bound scripthash)).
End Index.
