(* ===== verification/ScriptHashProofs.v ===== *)
(** * Properties of the scripthash index

    Balances follow the unspent outputs exactly as long as blocks are only
    connected. *)

From Stdlib Require Import ZArith Lia.
From stdpp Require Import base option numbers list gmap strings sorting.
From S2P Require Import Prelude Bytes Types Store HeaderIndex TxIndex BlockStore ScriptHash.

(** ** Wrap-around of [i64] *)

Lemma i64_small z : - 2 ^ 63 <= z < 2 ^ 63 -> i64 z = z.
Proof. intros Hz. unfold i64. rewrite Z.mod_small by lia. lia. Qed.

Lemma i64_add a b : i64 (i64 a + b) = i64 (a + b).
Proof.
  unfold i64. replace ((a + 2 ^ 63) mod 2 ^ 64 - 2 ^ 63 + b + 2 ^ 63) with ((a + 2 ^ 63) mod 2 ^ 64 + b) by lia.
  rewrite Zplus_mod_idemp_l. f_equal. f_equal. lia.
Qed.

Lemma i64_add_r a b : i64 (a + i64 b) = i64 (a + b).
Proof. rewrite Z.add_comm, i64_add. f_equal. lia. Qed.

Lemma i64_sub_r a b : i64 (a + - i64 b) = i64 (a - b).
Proof.
  unfold i64. replace (a + - ((b + 2 ^ 63) mod 2 ^ 64 - 2 ^ 63) + 2 ^ 63) with (a + 2 ^ 63 + 2 ^ 63 - (b + 2 ^ 63) mod 2 ^ 64) by lia.
  rewrite Zminus_mod_idemp_r. f_equal. f_equal. lia.
Qed.

Section Proofs.
Context `{HH : Hashes} `{HSL : ScriptLib} `{HTx : TxLib} `{HR : RocksDb} `{HRL : !RocksLaws} `{HF : BlockFiles} `{HFL : !BlockFilesLaws}.
Context `{HT : TxDecode} `{HI : ScriptHashIter} `{HIL : !ScriptHashIterLaws} `{HOC : OutputCache} `{HOL : !OutputCacheLaws} `{HIt : !RocksIter}.
Abbreviation coin := (bytes * Z)%type.
Abbreviation coins := (gmap OutPoint (bytes * Z)).
Implicit Types (m : coins) (sh : bytes).

(** ** What a scripthash owns *)

Definition share sh (c : coin) : Z := if bool_decide (compute_scripthash c.1 = sh) then c.2 else 0.
Definition owned m sh : Z := map_fold (fun _ c t => share sh c + t) 0 m.

Lemma owned_insert m sh o c : m !! o = None -> owned (<[o := c]> m) sh = share sh c + owned m sh.
Proof. intros Hm. unfold owned. rewrite map_fold_insert_L; [done|intros; lia|done]. Qed.

Lemma owned_delete m sh o c : m !! o = Some c -> owned (delete o m) sh = owned m sh - share sh c.
Proof. intros Hm. unfold owned. rewrite (map_fold_delete_L _ _ o c m); [lia|intros; lia|done]. Qed.

Lemma owned_union m m' sh : m ##ₘ m' -> owned (m ∪ m') sh = owned m sh + owned m' sh.
Proof.
  intros Hd. induction m as [|o c m Hm IH] using map_ind; [by rewrite (left_id_L ∅ (∪))|].
  apply map_disjoint_insert_l in Hd as [Ho Hd]. rewrite <- insert_union_l, !owned_insert, IH by (done || by apply lookup_union_None). lia.
Qed.

Definition values_ok m : Prop := forall o c, m !! o = Some c -> 0 <= c.2.

(** The value of all coins together. *)
Definition supply m : Z := map_fold (fun _ c t => c.2 + t) 0 m.

Lemma owned_bounds m sh : values_ok m -> 0 <= owned m sh <= supply m.
Proof.
  intros Hv. induction m as [|o c m Hm IH] using map_ind; [done|].
  rewrite owned_insert by done. unfold supply. rewrite map_fold_insert_L; [|intros; lia|done]. fold (supply m).
  destruct IH as [H1 H2]; [intros o' c' Hc; apply (Hv o'); rewrite lookup_insert_ne; [done|congruence]|].
  pose proof (Hv o c (lookup_insert_eq _ _ _)). unfold share. case_bool_decide; lia.
Qed.

(** ** The accumulated changes *)

Definition delta_of (a : ShAcc) sh : Z := default 0 (balance_deltas a !! sh).

(** [a] stands for the changes [T]: modulo [i64], and listing every
    scripthash that changed. *)
Definition tracks (a : ShAcc) (T : bytes -> Z) : Prop :=
  forall sh, delta_of a sh = i64 (T sh) /\ (balance_deltas a !! sh = None -> T sh = 0).

Lemma tracks_touch a T sh0 idx txid d v :
  tracks a T -> (forall z, i64 (z + d) = i64 (z + v)) ->
  tracks (touch sh0 idx txid d a) (fun sh => T sh + if bool_decide (sh0 = sh) then v else 0).
Proof.
  intros Ht Hd sh. unfold delta_of, touch. cbn [balance_deltas]. destruct (Ht sh) as [H1 H2]. unfold delta_of in H1.
  case_bool_decide as Hs; [subst|].
  - rewrite lookup_insert_eq. cbn. split; [|done]. by rewrite H1, i64_add, Hd.
  - rewrite lookup_insert_ne by done. rewrite Z.add_0_r. done.
Qed.

Lemma tracks_ext a T T' : (forall sh, T sh = T' sh) -> tracks a T -> tracks a T'.
Proof. intros He Ht sh. rewrite <- He. apply Ht. Qed.

Lemma tracks_spend a T idx txid c : tracks a T -> tracks (spend idx txid c a) (fun sh => T sh - share sh c).
Proof.
  intros Ht. unfold spend. eapply tracks_ext; [|apply (tracks_touch _ _ _ _ _ _ (- c.2) Ht)].
  - intros sh. cbn. unfold share. case_bool_decide; lia.
  - intros z. by rewrite i64_sub_r.
Qed.

(** ** Pass 1: the outputs *)

Definition coin_of (txid : bytes) (vo : nat * TxOut) : OutPoint * coin :=
  (mkOutPoint txid (u32 (Z.of_nat vo.1)), (script_pubkey vo.2, value vo.2)).
Definition tx_coins (tx : Transaction) : list (OutPoint * coin) := map (coin_of (compute_txid tx)) (imap pair (output tx)).
Definition block_coins (block : Block) : list (OutPoint * coin) := concat (map tx_coins (txdata block)).

Definition shares sh (l : list (OutPoint * coin)) : Z := foldr (fun p t => share sh p.2 + t) 0 l.
Definition insert_coins m (l : list (OutPoint * coin)) : coins := foldl (fun m p => <[p.1 := p.2]> m) m l.

Lemma shares_cons sh p l : shares sh (p :: l) = share sh p.2 + shares sh l.
Proof. done. Qed.
Lemma shares_app sh l l' : shares sh (l ++ l') = shares sh l + shares sh l'.
Proof. induction l as [|p l IH]; [done|]. rewrite <- app_comm_cons, !shares_cons, IH. lia. Qed.

Lemma imap_pair_values {A} (l : list A) : (imap pair l).*2 = l.
Proof. apply list_eq. intros i. rewrite list_lookup_fmap, list_lookup_imap. by destruct (l !! i). Qed.

Lemma add_outputs idx txid l : forall a m T, tracks a T ->
  exists a', foldl (add_output idx txid) (a, m) l = (a', insert_coins m (map (coin_of txid) l)) /\
    tracks a' (fun sh => T sh + shares sh (map (coin_of txid) l)).
Proof.
  induction l as [|[vout out] l IH]; intros a m T Ht.
  { exists a. split; [done|]. eapply tracks_ext; [|exact Ht]. intros sh. cbn. lia. }
  cbn [foldl map]. unfold add_output at 2. cbn [fst snd].
  destruct (IH (touch (compute_scripthash (script_pubkey out)) idx txid (i64 (value out)) a)
    (<[mkOutPoint txid (u32 (Z.of_nat vout)) := (script_pubkey out, value out)]> m)
    (fun sh => T sh + if bool_decide (compute_scripthash (script_pubkey out) = sh) then value out else 0)) as (a' & Hf & Ht').
  { apply tracks_touch; [done|]. intros z. apply i64_add_r. }
  exists a'. split; [exact Hf|]. eapply tracks_ext; [|exact Ht']. intros sh. cbn beta. rewrite shares_cons. unfold share, coin_of at 2. cbn. lia.
Qed.

Lemma index_outputs_spec block :
  exists a, index_outputs block = (a, insert_coins ∅ (block_coins block)) /\ tracks a (fun sh => shares sh (block_coins block)).
Proof.
  assert (Hgen : forall l a m T, tracks a T -> exists a', foldl add_tx (a, m) l = (a', insert_coins m (concat (map tx_coins l.*2))) /\
    tracks a' (fun sh => T sh + shares sh (concat (map tx_coins l.*2)))).
  { induction l as [|[i tx] l IH]; intros a m T Ht.
    { exists a. split; [done|]. eapply tracks_ext; [|exact Ht]. intros sh. cbn. lia. }
    cbn [foldl]. unfold add_tx at 2. destruct (add_outputs (u32 (Z.of_nat i)) (compute_txid tx) (imap pair (output tx)) a m T Ht) as (a1 & -> & Ht1).
    destruct (IH a1 (insert_coins m (tx_coins tx)) _ Ht1) as (a2 & Hf & Ht2). exists a2. rewrite fmap_cons. cbn [map concat snd]. split.
    - unfold insert_coins in *. rewrite foldl_app. exact Hf.
    - eapply tracks_ext; [|exact Ht2]. intros sh. cbn beta. rewrite shares_app. unfold tx_coins. lia. }
  destruct (Hgen (imap pair (txdata block)) (mkShAcc ∅ ∅) ∅ (fun _ => 0)) as (a & Hf & Ht).
  { intros sh. done. }
  rewrite imap_pair_values in *. exists a. split; [exact Hf|]. eapply tracks_ext; [|exact Ht]. intros sh. cbn beta. unfold block_coins. lia.
Qed.

Lemma insert_coins_owned sh l : forall m,
  NoDup l.*1 -> (forall o, o ∈ l.*1 -> m !! o = None) ->
  owned (insert_coins m l) sh = owned m sh + shares sh l /\ forall o, insert_coins m l !! o = match (list_to_map l : coins) !! o with Some c => Some c | None => m !! o end.
Proof.
  induction l as [|[o c] l IH]; intros m Hnd Hfresh; [split; [cbn; lia|done]|].
  apply NoDup_cons in Hnd as [Ho Hnd]. cbn [insert_coins foldl fst snd].
  destruct (IH (<[o := c]> m) Hnd) as [H1 H2].
  { intros o' Ho'. rewrite lookup_insert_ne by (intros ->; by apply Ho). apply Hfresh. by right. }
  split.
  - unfold insert_coins in H1. rewrite H1, owned_insert, shares_cons by (apply Hfresh; by left). cbn. lia.
  - intros o'. unfold insert_coins in H2. rewrite H2, list_to_map_cons. destruct (decide (o' = o)) as [->|Hne].
    + rewrite !lookup_insert_eq. by rewrite (not_elem_of_list_to_map_1 l o Ho).
    + by rewrite !lookup_insert_ne.
Qed.

(** ** Pass 2: the spends *)

Abbreviation spend_item := (Z * bytes * OutPoint)%type.
Definition tx_spends (it : nat * Transaction) : list spend_item :=
  if is_coinbase it.2 then []
  else map (fun i => (u32 (Z.of_nat it.1), compute_txid it.2, previous_output i)) (input it.2).
Definition block_spends (block : Block) : list spend_item := concat (map tx_spends (imap pair (txdata block))).

(** The shares of the coins of [m] that the items spend. *)
Definition spent_shares m sh (l : list spend_item) : Z :=
  foldr (fun p t => match m !! p.2 with Some c => share sh c | None => 0 end + t) 0 l.

Lemma spent_shares_cons m sh p l :
  spent_shares m sh (p :: l) = match m !! p.2 with Some c => share sh c | None => 0 end + spent_shares m sh l.
Proof. done. Qed.
Lemma spent_shares_app m sh l l' : spent_shares m sh (l ++ l') = spent_shares m sh l + spent_shares m sh l'.
Proof. induction l as [|p l IH]; [done|]. rewrite <- app_comm_cons, !spent_shares_cons, IH. lia. Qed.

Definition spend_one m (a : SpendAcc) (p : spend_item) : SpendAcc :=
  let '(idx, txid, o) := p in spend_input m idx txid a (mkTxIn o [] 0 []).

Lemma index_spends_items m block a : index_spends block m a = foldl (spend_one m) (mkSpendAcc a ∅ []) (block_spends block).
Proof.
  unfold index_spends, block_spends. generalize (mkSpendAcc a ∅ []). generalize (imap pair (txdata block)).
  induction l as [|[i tx] l IH]; intros a0; [done|]. cbn [foldl map concat]. rewrite foldl_app, <- IH. f_equal.
  unfold spend_tx, tx_spends. cbn [fst snd]. destruct (is_coinbase tx); [done|]. by rewrite foldl_fmap.
Qed.

Lemma spend_items_spec m l : forall a T, tracks (sa_acc a) T ->
  let a' := foldl (spend_one m) a l in
  tracks (sa_acc a') (fun sh => T sh - spent_shares m sh l) /\
  (forall o, o ∈ intra_spent a' <-> o ∈ intra_spent a \/ (o ∈ l.*2 /\ is_Some (m !! o))) /\
  pending_spends a' = pending_spends a ++ filter (fun p => m !! p.2 = None) l.
Proof.
  induction l as [|[[idx txid] o] l IH]; intros a T Ht; cbn [foldl].
  { split_and!; [|set_solver|by rewrite app_nil_r]. eapply tracks_ext; [|exact Ht]. intros sh. cbn. lia. }
  destruct (m !! o) as [c|] eqn:Hc.
  - assert (Hone : spend_one m a (idx, txid, o) = mkSpendAcc (spend idx txid c (sa_acc a)) ({[o]} ∪ intra_spent a) (pending_spends a)).
    { unfold spend_one, spend_input. cbn [previous_output]. by rewrite Hc. }
    rewrite Hone. destruct (IH (mkSpendAcc (spend idx txid c (sa_acc a)) ({[o]} ∪ intra_spent a) (pending_spends a)) (fun sh => T sh - share sh c)) as (H1 & H2 & H3); [by apply tracks_spend|].
    split_and!.
    + eapply tracks_ext; [|exact H1]. intros sh. cbn beta. rewrite spent_shares_cons. cbn [snd]. rewrite Hc. lia.
    + intros o'. rewrite H2. cbn [intra_spent]. rewrite fmap_cons, elem_of_cons, elem_of_union, elem_of_singleton. cbn [snd]. naive_solver.
    + rewrite H3. cbn [pending_spends]. rewrite filter_cons. cbn [snd]. by rewrite decide_False by by rewrite Hc.
  - assert (Hone : spend_one m a (idx, txid, o) = mkSpendAcc (sa_acc a) (intra_spent a) (pending_spends a ++ [(idx, txid, o)])).
    { unfold spend_one, spend_input. cbn [previous_output]. by rewrite Hc. }
    rewrite Hone. destruct (IH (mkSpendAcc (sa_acc a) (intra_spent a) (pending_spends a ++ [(idx, txid, o)])) T Ht) as (H1 & H2 & H3).
    split_and!.
    + eapply tracks_ext; [|exact H1]. intros sh. cbn beta. rewrite spent_shares_cons. cbn [snd]. rewrite Hc. lia.
    + intros o'. rewrite H2. cbn [intra_spent]. rewrite fmap_cons, elem_of_cons. cbn [snd].
      split; [naive_solver|]. intros [|[[->|]  [x Hx]]]; [by left|congruence|right; eauto].
    + rewrite H3. cbn [pending_spends]. rewrite filter_cons. cbn [snd]. rewrite decide_True by done. by rewrite <- app_assoc.
Qed.

(** ** Spends of earlier outputs *)

Lemma filter_agree {A} (P Q : A -> Prop) `{!forall x, Decision (P x)} `{!forall x, Decision (Q x)} (l : list A) :
  (forall x, x ∈ l -> P x <-> Q x) -> filter P l = filter Q l.
Proof.
  induction l as [|x l IH]; intros He; [done|]. rewrite !filter_cons, IH by (intros; apply He; by right).
  pose proof (He x ltac:(by left)). repeat case_decide; tauto.
Qed.

Definition cache_sound (c : Cache) m : Prop := forall o v, cached c o = Some v -> m !! o = Some v.

Lemma pop_spends m pending : forall c a T misses0,
  cache_sound c m -> NoDup pending.*2 -> tracks a T ->
  exists c' a', foldl pop_spend (c, a, misses0) pending = (c', a', misses0 ++ filter (fun p => cached c p.2 = None) pending) /\
    tracks a' (fun sh => T sh - spent_shares m sh (filter (fun p => cached c p.2 <> None) pending)) /\
    (forall o, cached c' o = if bool_decide (o ∈ pending.*2) then None else cached c o).
Proof.
  induction pending as [|[[idx txid] o] pending IH]; intros c a T misses0 Hs Hnd Ht.
  { exists c, a. split_and!; [by rewrite app_nil_r| |done]. eapply tracks_ext; [|exact Ht]. intros sh. cbn. lia. }
  rewrite fmap_cons in Hnd. apply NoDup_cons in Hnd as [Ho Hnd]. cbn [snd] in Ho.
  cbn [foldl]. unfold pop_spend at 2. pose proof (pop_returns c o) as Hr. pose proof (pop_removes c o) as Hrem.
  destruct (cache_pop c o) as [c1 hit]. cbn [fst snd] in *. subst hit.
  assert (Hs1 : cache_sound c1 m) by (intros o' v; rewrite Hrem; case_bool_decide; [done|apply Hs]).
  assert (Hsame : forall p, p ∈ pending -> cached c1 p.2 = cached c p.2).
  { intros p Hp. rewrite Hrem, bool_decide_eq_false_2; [done|]. intros <-. apply Ho, list_elem_of_fmap. eauto. }
  assert (Hf1 : filter (fun p : spend_item => cached c1 p.2 = None) pending = filter (fun p => cached c p.2 = None) pending)
    by (apply filter_agree; intros p Hp; by rewrite (Hsame p Hp)).
  assert (Hf2 : filter (fun p : spend_item => cached c1 p.2 <> None) pending = filter (fun p => cached c p.2 <> None) pending)
    by (apply filter_agree; intros p Hp; by rewrite (Hsame p Hp)).
  assert (Hpop : forall o', (if bool_decide (o' ∈ pending.*2) then None else cached c1 o') =
    (if bool_decide (o' ∈ ((idx, txid, o) :: pending).*2) then None else cached c o')).
  { intros o'. rewrite Hrem, fmap_cons. cbn [snd]. destruct (decide (o' ∈ pending.*2)) as [Hin|Hin].
    - rewrite !bool_decide_eq_true_2; [done|by right|done].
    - rewrite (bool_decide_eq_false_2 (o' ∈ pending.*2)) by done. case_bool_decide as Hoo; case_bool_decide as Hin'; set_solver. }
  destruct (cached c o) as [v|] eqn:Hc; rewrite !filter_cons; cbn [snd]; rewrite Hc.
  - rewrite decide_False, decide_True by done.
    destruct (IH c1 (spend idx txid v a) (fun sh => T sh - share sh v) misses0 Hs1 Hnd) as (c' & a' & Hrun & Htr & Hc'); [by apply tracks_spend|].
    exists c', a'. rewrite Hf1 in Hrun. rewrite Hf2 in Htr. split_and!; [done| |intros o'; by rewrite Hc'].
    eapply tracks_ext; [|exact Htr]. intros sh. cbn beta. rewrite spent_shares_cons. cbn [snd]. rewrite (Hs _ _ Hc). lia.
  - rewrite decide_True, decide_False by (done || naive_solver).
    destruct (IH c1 a T (misses0 ++ [(idx, txid, o)]) Hs1 Hnd Ht) as (c' & a' & Hrun & Htr & Hc').
    exists c', a'. rewrite Hf1 in Hrun. rewrite Hf2 in Htr. split_and!; [by rewrite Hrun, <- app_assoc|done|intros o'; by rewrite Hc'].
Qed.

Lemma resolved_spends m misses : forall a T, tracks a T ->
  tracks (foldl resolved_spend a (zip misses (map (fun p => m !! p.2) misses))) (fun sh => T sh - spent_shares m sh misses).
Proof.
  induction misses as [|[[idx txid] o] misses IH]; intros a T Ht; cbn [map zip zip_with foldl].
  { eapply tracks_ext; [|exact Ht]. intros sh. cbn. lia. }
  cbn [resolved_spend snd]. destruct (m !! o) as [v|] eqn:Hv.
  - eapply tracks_ext; [|apply (IH _ (fun sh => T sh - share sh v)), tracks_spend, Ht]. intros sh. cbn beta. rewrite spent_shares_cons. cbn [snd]. rewrite Hv. lia.
  - eapply tracks_ext; [|apply (IH _ T), Ht]. intros sh. cbn beta. rewrite spent_shares_cons. cbn [snd]. rewrite Hv. lia.
Qed.

Lemma spent_shares_split m sh (P : spend_item -> Prop) `{!forall x, Decision (P x)} l :
  spent_shares m sh (filter P l) + spent_shares m sh (filter (fun x => ~ P x) l) = spent_shares m sh l.
Proof.
  induction l as [|p l IH]; [done|]. rewrite !filter_cons, spent_shares_cons.
  destruct (decide (P p)); [rewrite decide_False by tauto|rewrite decide_True by done]; rewrite spent_shares_cons; lia.
Qed.

(** The resolver finds the coins of [m] that are needed. *)
Definition resolves (needed : OutPoint -> Prop) (r : Resolver) m : Prop :=
  forall ops, Forall needed ops -> (resolve_spent_outputs ops r).2 = map (fun o => m !! o) ops.

Lemma cross_block_spends_spec m pending a T s r :
  sh_resolver s = Some r -> resolves (fun o => o ∈ pending.*2 /\ cached (resolver_cache s) o = None) r m ->
  cache_sound (resolver_cache s) m -> NoDup pending.*2 ->
  Forall (fun p => is_Some (m !! p.2)) pending -> tracks a T ->
  exists s' a', cross_block_spends pending a s = (s', a') /\ sh_db s' = sh_db s /\ is_Some (sh_resolver s') /\
    tracks a' (fun sh => T sh - spent_shares m sh pending) /\
    (forall o, cached (resolver_cache s') o = if bool_decide (o ∈ pending.*2) then None else cached (resolver_cache s) o).
Proof.
  intros Hr Hres Hs Hnd Hall Ht. unfold cross_block_spends. rewrite Hr. case_bool_decide as Hp.
  { exists s, a. subst. split_and!; [done|done|by rewrite Hr| |done]. eapply tracks_ext; [|exact Ht]. intros sh. cbn. lia. }
  destruct (pop_spends m pending (resolver_cache s) a T [] Hs Hnd Ht) as (c' & a' & Hrun & Htr & Hc). cbn [app] in Hrun. rewrite Hrun.
  set (misses := filter (fun p => cached (resolver_cache s) p.2 = None) pending) in *.
  assert (Hsum : forall sh, spent_shares m sh (filter (fun p => cached (resolver_cache s) p.2 <> None) pending) + spent_shares m sh misses = spent_shares m sh pending).
  { intros sh. rewrite <- (spent_shares_split m sh (fun p : spend_item => cached (resolver_cache s) p.2 = None) pending). unfold misses. lia. }
  case_bool_decide as Hm.
  - exists (set_cache s c'), a'. split_and!; [done|done|by cbn; rewrite Hr| |done].
    eapply tracks_ext; [|exact Htr]. intros sh. cbn beta. rewrite <- Hsum, Hm. cbn. lia.
  - assert (Hf : Forall (fun o => o ∈ pending.*2 /\ cached (resolver_cache s) o = None) (map snd misses)).
    { apply Forall_fmap, Forall_forall. intros p [Hn Hin]%list_elem_of_filter. split; [apply list_elem_of_fmap; eauto|done]. }
    pose proof (Hres _ Hf) as Hsp. destruct (resolve_spent_outputs (map snd misses) r) as [r' spents]. cbn [snd] in Hsp. subst spents.
    rewrite map_map. eexists _, _. split_and!; [done|done|done| |done].
    eapply tracks_ext; [|apply (resolved_spends m misses _ _ Htr)]. intros sh. cbn beta. rewrite <- Hsum. lia.
Qed.

(** ** Connecting a block *)

(** The unspent outputs after a block: its outputs added, what it spends removed. *)
Definition connect_coins m block : coins :=
  foldr delete (insert_coins m (block_coins block)) (block_spends block).*2.

Record applies m block : Prop := {
  ap_new : NoDup (block_coins block).*1;
  ap_fresh o : o ∈ (block_coins block).*1 -> m !! o = None;
  ap_once : NoDup (block_spends block).*2;
  ap_unspent o : o ∈ (block_spends block).*2 -> is_Some (insert_coins m (block_coins block) !! o) }.

Lemma spent_shares_sources m m' bo sh l :
  (forall o, m' !! o = match bo !! o with Some c => Some c | None => m !! o end) ->
  spent_shares m' sh l = spent_shares bo sh l + spent_shares m sh (filter (fun p => bo !! p.2 = None) l).
Proof.
  intros Hm. induction l as [|p l IH]; [done|]. rewrite filter_cons, !spent_shares_cons, Hm.
  destruct (bo !! p.2) as [c|] eqn:Hb; [rewrite decide_False by done|rewrite decide_True by done; rewrite spent_shares_cons]; lia.
Qed.

Lemma deletes_lookup m (os : list OutPoint) o : foldr delete m os !! o = if bool_decide (o ∈ os) then None else m !! o.
Proof.
  induction os as [|o' os IH]; cbn; [by rewrite bool_decide_eq_false_2 by apply not_elem_of_nil|].
  destruct (decide (o = o')) as [->|Hne].
  - rewrite lookup_delete_eq, bool_decide_eq_true_2 by by left. done.
  - rewrite lookup_delete_ne, IH by done. repeat case_bool_decide; set_solver.
Qed.

Lemma owned_deletes m sh (l : list spend_item) :
  NoDup l.*2 -> (forall o, o ∈ l.*2 -> is_Some (m !! o)) -> owned (foldr delete m l.*2) sh = owned m sh - spent_shares m sh l.
Proof.
  induction l as [|p l IH]; intros Hnd Hs; [cbn; lia|]. rewrite fmap_cons in *. apply NoDup_cons in Hnd as [Hp Hnd]. cbn [foldr].
  destruct (Hs p.2 ltac:(by left)) as [c Hc]. rewrite (owned_delete _ sh p.2 c).
  - rewrite IH, spent_shares_cons, Hc; [lia|done|]. intros o Ho. apply Hs. by right.
  - by rewrite deletes_lookup, bool_decide_eq_false_2.
Qed.

Lemma block_outputs_lookup block o :
  NoDup (block_coins block).*1 -> insert_coins ∅ (block_coins block) !! o = (list_to_map (block_coins block) : coins) !! o.
Proof.
  intros Hnew. destruct (insert_coins_owned [] (block_coins block) ∅ Hnew) as [_ ->]; [done|].
  rewrite lookup_empty. by destruct (list_to_map _ !! o).
Qed.

(** The change of what a scripthash owns, as the index computes it. *)
Lemma connect_owned m block sh :
  applies m block ->
  let bo := insert_coins ∅ (block_coins block) in
  owned (connect_coins m block) sh = owned m sh + (shares sh (block_coins block) - spent_shares bo sh (block_spends block)
    - spent_shares m sh (filter (fun p => bo !! p.2 = None) (block_spends block))).
Proof.
  intros [Hnew Hfresh Honce Huns] bo. unfold connect_coins. rewrite owned_deletes by done.
  destruct (insert_coins_owned sh (block_coins block) m Hnew Hfresh) as [-> Hl].
  rewrite (spent_shares_sources m _ bo); [lia|]. intros o. rewrite Hl. unfold bo. by rewrite block_outputs_lookup.
Qed.

Lemma connect_values_ok m block : values_ok m -> Forall (fun p => 0 <= p.2.2) (block_coins block) -> applies m block ->
  values_ok (insert_coins m (block_coins block)) /\ values_ok (connect_coins m block) /\
  forall sh, owned (connect_coins m block) sh <= owned (insert_coins m (block_coins block)) sh.
Proof.
  intros Hv Hn [Hnew Hfresh Honce Huns].
  assert (Hi : values_ok (insert_coins m (block_coins block))).
  { intros o c. destruct (insert_coins_owned [] (block_coins block) m Hnew Hfresh) as [_ ->].
    destruct (list_to_map _ !! o) as [c'|] eqn:Hl; [|apply Hv]. intros [= <-]. apply elem_of_list_to_map_2 in Hl.
    rewrite Forall_forall in Hn. by apply (Hn (o, c')). }
  split_and!; [done| |].
  - intros o c. unfold connect_coins. rewrite deletes_lookup. case_bool_decide; [done|apply Hi].
  - intros sh. unfold connect_coins. rewrite owned_deletes by done.
    assert (0 <= spent_shares (insert_coins m (block_coins block)) sh (block_spends block)); [|lia].
    induction (block_spends block) as [|p l IH]; [done|]. rewrite fmap_cons in *. apply NoDup_cons in Honce as [_ Honce].
    rewrite spent_shares_cons. destruct (Huns p.2 ltac:(by left)) as [c Hc]. rewrite Hc.
    pose proof (Hi _ _ Hc). unfold share. case_bool_decide; [|]; (etrans; [|apply Z.add_le_mono_l, IH; [done|intros o Ho; apply Huns; by right]]); lia.
Qed.

(** ** The batch *)

Definition confirmed_of (d : DB) sh : Z := (parse_balance (contents d CF_SCRIPTHASH_BALANCE sh)).1.

Definition new_balance (d : DB) (p : bytes * Z) : batch_op :=
  let '(c, u) := parse_balance (contents d CF_SCRIPTHASH_BALANCE p.1) in
  Put CF_SCRIPTHASH_BALANCE p.1 (to_le 8 (u64 (Z.max (i64 (i64 c + p.2)) 0)) ++ to_le 8 u).

Lemma balance_puts l : forall ops s s' ops',
  foldS balance_put ops l s = (s', Ok ops') -> s' = s /\ ops' = ops ++ map (new_balance (sh_db s)) l.
Proof.
  induction l as [|[sh d] l IH]; intros ops s s' ops'; cbn [foldS map]; [intros [= <- <-]; by rewrite app_nil_r|].
  unfold mbind at 1, stm_bind. unfold balance_put at 1. unfold mbind, stm_bind, sh_get.
  destruct (get_cf (sh_db s) CF_SCRIPTHASH_BALANCE sh) as [data|e] eqn:Hg; [|done]. apply get_cf_contents in Hg.
  destruct (parse_balance data) as [c u] eqn:Hp. cbn [mret stm_ret]. intros Hrun. apply IH in Hrun as [-> ->]. split; [done|].
  rewrite <- app_assoc. cbn [app]. unfold new_balance at 2. cbn [fst snd]. by rewrite <- Hg, Hp.
Qed.

Lemma parse_new (c u : Z) : fits 64 c -> (parse_balance (Some (to_le 8 c ++ to_le 8 u))).1 = c.
Proof.
  intros Hc. unfold parse_balance. unfold len. rewrite length_app, !length_to_le. cbn [Z.of_nat Nat.add].
  change (Z.of_nat 16 >=? 16) with true. cbn [fst]. rewrite take_app_length' by by rewrite length_to_le. by apply from_to_le_small.
Qed.

(** The balances after the batch is written. *)
Lemma written_balances d touch_ops deltas meta d' sh :
  (forall o, o ∈ touch_ops -> op_cf o = CF_SCRIPTHASH_TXIDS) -> op_cf meta = CF_SH_META ->
  write d (touch_ops ++ map (new_balance d) (iter_deltas deltas) ++ [meta]) = (d', Ok tt) ->
  contents d' CF_SCRIPTHASH_BALANCE sh =
    match deltas !! sh with Some x => op_value (new_balance d (sh, x)) | None => contents d CF_SCRIPTHASH_BALANCE sh end.
Proof.
  intros Htouch Hmeta Hw. rewrite (write_applies _ _ _ Hw). destruct (deltas !! sh) as [x|] eqn:Hx.
  - assert (Hin : (sh, x) ∈ iter_deltas deltas) by (rewrite iter_deltas_perm; by apply elem_of_map_to_list).
    apply apply_ops_agree.
    + exists (new_balance d (sh, x)). split_and!.
      * apply elem_of_app. right. apply elem_of_app. left. by apply (list_elem_of_fmap_2 (new_balance d)).
      * unfold new_balance. by destruct (parse_balance _).
      * unfold new_balance. by destruct (parse_balance _).
    + intros o [Ho|[Ho| ->%list_elem_of_singleton]%elem_of_app]%elem_of_app Hcf Hk; [by rewrite (Htouch _ Ho) in Hcf| |by rewrite Hmeta in Hcf].
      apply list_elem_of_fmap in Ho as ([sh' x'] & -> & Ho). rewrite iter_deltas_perm in Ho. apply elem_of_map_to_list in Ho.
      assert (sh' = sh) as -> by (unfold new_balance in Hk; destruct (parse_balance _); exact Hk). congruence.
  - apply apply_ops_other, Forall_forall. intros o [Ho|[Ho| ->%list_elem_of_singleton]%elem_of_app]%elem_of_app [Hcf Hk];
      [by rewrite (Htouch _ Ho) in Hcf| |by rewrite Hmeta in Hcf].
    apply list_elem_of_fmap in Ho as ([sh' x'] & -> & Ho). rewrite iter_deltas_perm in Ho. apply elem_of_map_to_list in Ho.
    assert (sh' = sh) as -> by (unfold new_balance in Hk; destruct (parse_balance _); exact Hk). congruence.
Qed.

(** The index agrees with the unspent outputs. *)
Definition exact (s : ScripthashIndex) m : Prop := forall sh, confirmed_of (sh_db s) sh = owned m sh.

Lemma balance_exact d d' sh (a : ShAcc) T b b' :
  contents d' CF_SCRIPTHASH_BALANCE sh = match balance_deltas a !! sh with
    | Some x => op_value (new_balance d (sh, x)) | None => contents d CF_SCRIPTHASH_BALANCE sh end ->
  tracks a T -> confirmed_of d sh = b -> 0 <= b < 2 ^ 63 -> 0 <= b' < 2 ^ 63 -> b' = b + T sh -> confirmed_of d' sh = b'.
Proof.
  intros Hc Ht Hb Hb0 Hb1 Heq. destruct (Ht sh) as [H1 H2]. unfold delta_of in H1. unfold confirmed_of in *. rewrite Hc.
  destruct (balance_deltas a !! sh) as [x|]; [|rewrite Hb, Heq, H2; [lia|done]].
  unfold new_balance. cbn [fst snd]. destruct (parse_balance (contents d CF_SCRIPTHASH_BALANCE sh)) as [c u]. cbn [fst] in Hb. subst c.
  cbn [op_value]. cbn in H1. assert (Hn : i64 (i64 b + x) = b') by (rewrite H1, i64_add, i64_add_r, <- Heq; apply i64_small; lia).
  rewrite Hn, Z.max_l by lia. rewrite wrap_small by (unfold fits; lia). apply parse_new. unfold fits. lia.
Qed.

Lemma seed_cache_sound bo spent c m :
  cache_sound c m -> (forall o v, bo !! o = Some v -> o ∉ spent -> m !! o = Some v) -> cache_sound (seed_cache bo spent c) m.
Proof.
  intros Hs Hbo. unfold seed_cache.
  assert (Hin : forall o v, (o, v) ∈ iter_outputs bo -> bo !! o = Some v) by (intros o v; rewrite iter_outputs_perm; by rewrite elem_of_map_to_list).
  revert c Hs Hin. induction (iter_outputs bo) as [|[o v] l IH]; intros c Hs Hin; [done|]. cbn [foldl]. apply IH.
  - destruct (bool_decide (o ∈ spent)) eqn:Hsp; cbn [orb]; [done|]. apply bool_decide_eq_false in Hsp.
    destruct (script_is_op_return v.1); [done|]. intros o' v' Hc. destruct (decide (o' = o)) as [->|Hne].
    + rewrite put_stores in Hc. injection Hc as <-. apply Hbo; [apply Hin; by left|done].
    + destruct (put_others c o v o' Hne) as [Hn|He]; [congruence|]. apply Hs. congruence.
  - intros o' v' Ho. apply Hin. by right.
Qed.

(** The block is indexed: what the run did. *)
Lemma index_block_run block h s s' :
  index_block_transactions block h s = (s', Ok tt) ->
  let bo := (index_outputs block).2 in
  let sa := index_spends block bo (index_outputs block).1 in
  exists s1 a d', cross_block_spends (pending_spends sa) (sa_acc sa) s = (s1, a) /\
    write (sh_db s1) (map (fun '(sh, tx_idx, txid) => Put CF_SCRIPTHASH_TXIDS (make_key sh h tx_idx) txid) (iter_touches (touches a))
      ++ map (new_balance (sh_db s1)) (iter_deltas (balance_deltas a)) ++ [Put CF_SH_META META_SH_INDEXED_HEIGHT (to_le 4 h)]) = (d', Ok tt) /\
    sh_db s' = d' /\ resolver_cache s' = (if sh_resolver s1 then seed_cache bo (intra_spent sa) (resolver_cache s1) else resolver_cache s1).
Proof.
  unfold index_block_transactions, mbind, stm_bind, sh_cf. destruct (cf_handle _ CF_SCRIPTHASH_TXIDS); cbn [negb guard_err]; [|done].
  destruct (cf_handle _ CF_SCRIPTHASH_BALANCE); cbn [negb guard_err]; [|done].
  destruct (index_outputs block) as [a0 bo]. cbn [fst snd]. set (sa := index_spends block bo a0).
  destruct (cross_block_spends _ _ s) as [s1 a] eqn:Hcross.
  destruct (foldS balance_put _ _ s1) as [s2 [ops|e]] eqn:Hops; [|done]. apply balance_puts in Hops as [-> ->].
  destruct (cf_handle _ CF_SH_META); cbn [negb guard_err]; [|done]. unfold sh_write. rewrite <- app_assoc.
  destruct (write (sh_db s1) _) as [d' [[]|e]] eqn:Hw; [|done]. unfold modify. cbn [sh_resolver set_sh_db].
  intros [= <-]. exists s1, a, d'. split_and!; [done|exact Hw| |]; by destruct (sh_resolver s1).
Qed.

(** What the resolver is asked for: outputs of earlier blocks that the cache
    does not have. *)
Definition asked s m block (o : OutPoint) : Prop :=
  o ∈ (block_spends block).*2 /\ is_Some (m !! o) /\ cached (resolver_cache s) o = None.

Lemma index_block_exact_spec m block h s s' r :
  applies m block -> values_ok m -> Forall (fun p => 0 <= p.2.2) (block_coins block) -> supply (insert_coins m (block_coins block)) < 2 ^ 63 ->
  sh_resolver s = Some r -> resolves (asked s m block) r m -> exact s m -> cache_sound (resolver_cache s) m ->
  index_block_transactions block h s = (s', Ok tt) ->
  exact s' (connect_coins m block) /\ cache_sound (resolver_cache s') (connect_coins m block).
Proof.
  intros Hap Hv Hvb Hsup Hr Hres Hex Hcs Hrun. destruct (index_block_run _ _ _ _ Hrun) as (s1 & a & d' & Hcross & Hw & Hd & Hcache).
  destruct (connect_values_ok m block Hv Hvb Hap) as (Hvi & Hvc & Hle).
  destruct (index_outputs_spec block) as (a0 & Hout & Ht0). rewrite Hout in *. cbn [fst snd] in *.
  set (bo := insert_coins ∅ (block_coins block)) in *. rewrite index_spends_items in *.
  destruct (spend_items_spec bo (block_spends block) (mkSpendAcc a0 ∅ []) _ Ht0) as (Ht1 & Hintra & Hpend).
  set (sa := foldl (spend_one bo) (mkSpendAcc a0 ∅ []) (block_spends block)) in *. cbn [pending_spends intra_spent app] in Hpend, Hintra.
  assert (Hbo : forall o, insert_coins m (block_coins block) !! o = match bo !! o with Some c => Some c | None => m !! o end).
  { intros o. destruct (insert_coins_owned [] (block_coins block) m (ap_new _ _ Hap) (ap_fresh _ _ Hap)) as [_ ->].
    unfold bo. by rewrite block_outputs_lookup by apply (ap_new _ _ Hap). }
  assert (Hnd : NoDup (pending_spends sa).*2).
  { rewrite Hpend. eapply sublist_NoDup; [apply (ap_once _ _ Hap)|]. apply fmap_sublist, sublist_filter. }
  assert (Hall : Forall (fun p => is_Some (m !! p.2)) (pending_spends sa)).
  { rewrite Hpend. apply Forall_forall. intros p [Hn Hin]%list_elem_of_filter.
    destruct (ap_unspent _ _ Hap p.2) as [c Hcc]; [apply list_elem_of_fmap; eauto|]. rewrite Hbo, Hn in Hcc. eauto. }
  assert (Hres1 : resolves (fun o => o ∈ (pending_spends sa).*2 /\ cached (resolver_cache s) o = None) r m).
  { intros ops Hops. apply Hres. eapply Forall_impl; [exact Hops|]. intros o [(p & -> & Hin)%list_elem_of_fmap Hn].
    rewrite Forall_forall in Hall. split_and!; [|by apply Hall|done]. rewrite Hpend in Hin.
    apply list_elem_of_filter in Hin as [_ Hin]. apply list_elem_of_fmap. eauto. }
  destruct (cross_block_spends_spec m _ _ _ s r Hr Hres1 Hcs Hnd Hall Ht1) as (s1' & a' & Hcross' & Hdb & [r1 Hres'] & Htr & Hc).
  rewrite Hcross in Hcross'. injection Hcross' as <- <-. rewrite Hpend in Htr, Hc. split.
  - intros sh. rewrite Hd. eapply (balance_exact (sh_db s1) d' sh a _ (owned m sh)).
    + eapply written_balances; [| |exact Hw]; [|reflexivity]. intros o Ho. apply list_elem_of_fmap in Ho as ([[? ?] ?] & -> & _). done.
    + exact Htr.
    + rewrite Hdb. apply Hex.
    + pose proof (owned_bounds m sh Hv). destruct (insert_coins_owned sh (block_coins block) m (ap_new _ _ Hap) (ap_fresh _ _ Hap)) as [Hown _].
      pose proof (owned_bounds _ sh Hvi). assert (0 <= shares sh (block_coins block)); [|lia].
      clear -Hvb. induction Hvb as [|p l Hp _ IH]; [done|]. rewrite shares_cons. unfold share. case_bool_decide; lia.
    + pose proof (owned_bounds _ sh Hvc). pose proof (owned_bounds _ sh Hvi). specialize (Hle sh). lia.
    + rewrite (connect_owned m block sh Hap). fold bo. lia.
  - rewrite Hcache, Hres'. apply seed_cache_sound.
    + intros o v. rewrite Hc. case_bool_decide as Hin; [done|]. intros Hcv. apply Hcs in Hcv.
      unfold connect_coins. rewrite deletes_lookup, Hbo. assert (Hb : bo !! o = None).
      { destruct (bo !! o) as [c|] eqn:Hb; [|done]. unfold bo in Hb. rewrite block_outputs_lookup in Hb by apply (ap_new _ _ Hap).
        apply elem_of_list_to_map_2 in Hb. rewrite (ap_fresh _ _ Hap o) in Hcv; [done|]. apply list_elem_of_fmap. by exists (o, c). }
      rewrite Hb, bool_decide_eq_false_2; [done|]. intros Ho. apply Hin. apply list_elem_of_fmap in Ho as (p & -> & Hp).
      apply list_elem_of_fmap. exists p. split; [done|]. by apply list_elem_of_filter.
    + intros o v Hb Hsp. unfold connect_coins. rewrite deletes_lookup, Hbo, Hb, bool_decide_eq_false_2; [done|].
      intros Ho. apply Hsp, Hintra. right. split; [done|]. by rewrite Hb.
Qed.
End Proofs.
