(* ===== verification/ResolverProofs.v ===== *)
(** * The prevout resolver finds the outputs

    When the transaction index names the block and position of a funding
    transaction and the block files hold that block, the resolver of
    [scripthash.rs] returns the output, whether it reads the transaction
    directly or scans the block. *)

From Stdlib Require Import ZArith Lia.
From stdpp Require Import base option numbers list gmap strings sorting.
From S2P Require Import Prelude Bytes Types Store HeaderIndex TxIndex BlockStore ScriptHash ScriptHashProofs.

Section Proofs.
Context `{HR : RocksDb} `{HRL : !RocksLaws} `{HF : BlockFiles} `{HFL : !BlockFilesLaws} `{HT : TxDecode} `{HI : ScriptHashIter} `{HIL : !ScriptHashIterLaws}.
Implicit Types (b : BlockStore) (r : Resolver).

(** ** Reading *)

(** A slice of a block in the files is read at once. *)
Lemma slice_at_disk b p raw o n :
  on_disk b p raw -> 0 <= o -> 0 <= n -> o + n <= len raw -> len raw + offset p + 4 < 2 ^ 64 ->
  read_block_slice_at b p o n = Ok (take (Z.to_nat n) (drop (Z.to_nat o) raw)).
Proof.
  intros (pre & post & Hv & Hpre & Hsize & Hl & _) Ho Hn Hle Hlim. unfold read_block_slice_at, read_exact_at, on_file in *.
  pose proof (len_nonneg pre). pose proof (len_nonneg post). rewrite wrap_small by (unfold fits; lia).
  destruct (file_bytes (bs_files b) (file_num p)) as [data|].
  2: { apply (f_equal len) in Hv. unfold frame in Hv. rewrite !len_app, len_to_le4 in Hv. change (len (default [] None)) with 0 in Hv. lia. }
  cbn [default from_option id] in Hv. subst data. rewrite <- Hpre. unfold frame. rewrite !len_app, len_to_le4.
  destruct (Z.leb_spec (len pre + 4 + o + n) (len pre + (4 + len raw + len post))); [|lia]. f_equal. rewrite <- !app_assoc.
  replace (pre ++ to_le 4 (len raw) ++ raw ++ post) with ((pre ++ to_le 4 (len raw)) ++ raw ++ post) by by rewrite <- app_assoc.
  rewrite drop_app_ge by (rewrite length_app, length_to_le; unfold len; lia).
  replace (Z.to_nat (len pre + 4 + o) - length (pre ++ to_le 4 (len raw)))%nat with (Z.to_nat o) by (rewrite length_app, length_to_le; unfold len; lia).
  unfold len in *. rewrite drop_app_le by lia. by rewrite take_app_le by (rewrite length_drop; lia).
Qed.

Lemma read_slice_disk b p raw o n :
  on_disk b p raw -> 0 <= o -> 0 <= n -> len raw + offset p + 4 < 2 ^ 64 -> block_size p = len raw ->
  exists x : StorageResult bytes, read_block_slice p o n b = (b, x) /\
    forall y, x = Ok y -> o + n <= len raw /\ y = take (Z.to_nat n) (drop (Z.to_nat o) raw).
Proof.
  intros Hd Ho Hn Hlim Hsz. unfold read_block_slice. destruct (_ >=? _); [by eexists|].
  destruct (Z.gtb_spec (o + n) (block_size p)); [by eexists|]. rewrite (slice_at_disk b p raw) by (done || lia).
  eexists. split; [done|]. intros y [= <-]. split; [lia|done].
Qed.

(** ** Blocks on disk *)

(** The transactions start at [o], one after the other. *)
Fixpoint encodes (raw : bytes) (o : Z) (txs : list Transaction) : Prop :=
  match txs with
  | [] => True
  | tx :: txs => 0 <= o <= len raw /\ exists used, 0 <= used /\ o + used < 2 ^ 64 /\
      decode_tx (drop (Z.to_nat o) raw) = Some (tx, used) /\ encodes raw (o + used) txs
  end.

Definition block_layout (raw : bytes) (txs : list Transaction) : Prop :=
  80 <= len raw /\ len txs < 2 ^ 32 /\
  exists used, 0 <= used /\ decode_varint (drop 80 raw) = Some (len txs, used) /\ encodes raw (80 + used) txs.

(** Blocks by hash: where the index says, in the files. *)
Definition stored_blocks_ok (hi : HeaderIndex) b (B : gmap hash256 (bytes * list Transaction)) : Prop :=
  forall hash raw txs, B !! hash = Some (raw, txs) ->
    exists p, get_block_pos hi hash = Ok (Some p) /\ on_disk b p raw /\ len raw + offset p + 4 < 2 ^ 64 /\ block_layout raw txs.

(** The index entry of a transaction leads to it. *)
Definition entry_ok (B : gmap hash256 (bytes * list Transaction)) (e : TxIndexEntry) (tx : Transaction) : Prop :=
  exists raw txs, B !! te_block_hash e = Some (raw, txs) /\ 0 <= tx_pos e /\ txs !! Z.to_nat (tx_pos e) = Some tx /\
    forall o n, tx_loc e = Some (o, n) -> 0 <= o /\ 0 <= n /\
      (o + n <= len raw -> deserialize_tx (take (Z.to_nat n) (drop (Z.to_nat o) raw)) ∈ [None; Some tx]).

(** ** Scanning a block *)

Lemma extract_loop_spec raw wants : forall n txs pos o,
  encodes raw o txs -> (n <= length txs)%nat -> 0 <= pos -> pos + Z.of_nat n < 2 ^ 32 + 1 ->
  forall i v, (i, v) ∈ (extract_loop n raw pos o wants).1 <->
    exists k tx vout out, (k < n)%nat /\ txs !! k = Some tx /\ (i, pos + Z.of_nat k, vout) ∈ wants /\ output tx !! Z.to_nat vout = Some out /\
      v = (script_pubkey out, value out).
Proof.
  induction n as [|n IH]; intros txs pos o Henc Hn Hpos Hlim i v; cbn [extract_loop].
  { split; [by intros ?%not_elem_of_nil|]. intros (k & ? & ? & ? & ? & _). lia. }
  destruct txs as [|tx txs]; [cbn in Hn; lia|]. destruct Henc as (Ho & used & Hu & Hlt & Hdec & Henc).
  destruct (Z.gtb_spec o (len raw)); [lia|]. rewrite Hdec. rewrite (wrap_small 64 (o + used)) by (unfold fits; lia).
  rewrite (wrap_small 32 pos) by (unfold fits; lia).
  specialize (IH txs (pos + 1) (o + used) Henc ltac:(cbn in Hn; lia) ltac:(lia) ltac:(lia) i v).
  destruct (extract_loop n raw (pos + 1) (o + used) wants) as [out locs]. cbn [fst] in *. rewrite elem_of_app, IH, list_elem_of_omap. split.
  - intros [(w & Hw & Hv)|(k & tx' & vout & ou & Hk & Htx & Hin & Hout & ->)].
    + apply list_elem_of_filter in Hw as [Hwp Hw]. destruct w as [[i' p'] vout]. cbn [fst snd] in *. subst p'.
      destruct (output tx !! Z.to_nat vout) as [ou|] eqn:Hout; [|done]. injection Hv as <- <-.
      exists 0%nat, tx, vout, ou. split_and!; [lia|done| |done|done]. by rewrite Z.add_0_r.
    + exists (S k), tx', vout, ou. split_and!; [lia|done| |done|done]. by replace (pos + Z.of_nat (S k)) with (pos + 1 + Z.of_nat k) by lia.
  - intros ([|k] & tx' & vout & ou & Hk & Htx & Hin & Hout & ->).
    + left. injection Htx as <-. exists (i, pos, vout). split; [|cbn; by rewrite Hout]. apply list_elem_of_filter.
      split; [done|]. by rewrite Z.add_0_r in Hin.
    + right. exists k, tx', vout, ou. split_and!; [lia|done| |done|done]. by replace (pos + 1 + Z.of_nat k) with (pos + Z.of_nat (S k)) by lia.
Qed.

Lemma max_pos_ge (l : list PrevoutWant) : forall z, z <= foldl (fun m (w : PrevoutWant) => Z.max m w.1.2) z l /\
  forall w, w ∈ l -> w.1.2 <= foldl (fun m (w : PrevoutWant) => Z.max m w.1.2) z l.
Proof.
  induction l as [|w l IH]; intros z; cbn; [split; [lia|by intros ? ?%not_elem_of_nil]|].
  destruct (IH (Z.max z w.1.2)) as [H1 H2]. split; [lia|]. intros w' [->|Hw]%elem_of_cons; [lia|by apply H2].
Qed.

Lemma extract_outputs_spec raw txs wants i v :
  block_layout raw txs -> Forall (fun w : PrevoutWant => 0 <= w.1.2 < len txs) wants ->
  (i, v) ∈ (extract_outputs_from_raw_block raw wants).1 <->
  exists pos tx vout out, (i, pos, vout) ∈ wants /\ txs !! Z.to_nat pos = Some tx /\ output tx !! Z.to_nat vout = Some out /\
    v = (script_pubkey out, value out).
Proof.
  intros (H80 & Hlen & used & Hu & Hvar & Henc) Hw. unfold extract_outputs_from_raw_block. destruct wants as [|w rest] eqn:Hwants.
  { split; [by intros ?%not_elem_of_nil|]. by intros (? & ? & ? & ? & ?%not_elem_of_nil & _). }
  rewrite <- Hwants in *. destruct (Z.gtb_spec 80 (len raw)); [lia|]. rewrite Hvar.
  destruct (max_pos_ge rest w.1.2) as [Hm1 Hm2]. set (mx := foldl _ _ rest) in *.
  assert (Hmax : forall x, x ∈ wants -> x.1.2 <= mx) by (rewrite Hwants; intros x [->|Hx]%elem_of_cons; [done|by apply Hm2]).
  pose proof (len_nonneg txs). rewrite Forall_forall in Hw.
  rewrite (extract_loop_spec raw wants _ txs 0 (80 + used) Henc); [|unfold len in *; lia|lia|unfold len in *; lia].
  split.
  - intros (k & tx & vout & out & Hk & Htx & Hin & Hout & ->). exists (0 + Z.of_nat k), tx, vout, out. split_and!; [done| |done|done].
    by replace (Z.to_nat (0 + Z.of_nat k)) with k by lia.
  - intros (pos & tx & vout & out & Hin & Htx & Hout & ->). pose proof (Hw _ Hin) as Hp. pose proof (Hmax _ Hin) as Hpm. cbn [fst snd] in *.
    exists (Z.to_nat pos), tx, vout, out. split_and!; [unfold len in *; lia|done| |done|done].
    by replace (0 + Z.of_nat (Z.to_nat pos)) with pos by lia.
Qed.

(** ** The wants *)

Section Wants.
Context (ops : list OutPoint) (t : TxIndex) (m : gmap OutPoint (bytes * Z)) (B : gmap hash256 (bytes * list Transaction)).

(** The coin of [o] is where the index says. *)
Definition funded (o : OutPoint) : Prop :=
  exists e tx out, tx_index_get t (op_txid o) = Ok (Some e) /\ entry_ok B e tx /\ output tx !! Z.to_nat (op_vout o) = Some out /\
    m !! o = Some (script_pubkey out, value out).
Hypothesis Hfunded : Forall funded ops.

Definition names (i : nat) (hash : hash256) (pos vout : Z) (loc : option (Z * Z)) : Prop :=
  exists o e, ops !! i = Some o /\ tx_index_get t (op_txid o) = Ok (Some e) /\ te_block_hash e = hash /\ tx_pos e = pos /\
    op_vout o = vout /\ tx_loc e = loc.

Definition right_coin (i : nat) (v : bytes * Z) : Prop := exists o, ops !! i = Some o /\ m !! o = Some v.

Lemma want_coin i hash pos vout loc :
  names i hash pos vout loc ->
  exists raw txs tx out, B !! hash = Some (raw, txs) /\ 0 <= pos < len txs /\ txs !! Z.to_nat pos = Some tx /\
    output tx !! Z.to_nat vout = Some out /\ right_coin i (script_pubkey out, value out) /\
    forall o n, loc = Some (o, n) -> 0 <= o /\ 0 <= n /\
      (o + n <= len raw -> deserialize_tx (take (Z.to_nat n) (drop (Z.to_nat o) raw)) ∈ [None; Some tx]).
Proof.
  intros (o & e & Ho & He & <- & <- & <- & <-). rewrite Forall_forall in Hfunded.
  destruct (Hfunded o ltac:(by eapply list_elem_of_lookup_2)) as (e' & tx & out & He' & (raw & txs & HB & Hp & Htx & Hloc) & Hout & Hm).
  rewrite He in He'. injection He' as <-. exists raw, txs, tx, out. split_and!; [done|done| |done|done|by exists o|done].
  apply lookup_lt_Some in Htx. unfold len. lia.
Qed.

(** The wants of a group are about its block. *)
Definition group_ok (hash : hash256) (g : WantGroup) : Prop :=
  (forall i pos vout o n, (i, pos, vout, o, n) ∈ g.1 -> names i hash pos vout (Some (o, n))) /\
  (forall i pos vout, (i, pos, vout) ∈ g.2 -> names i hash pos vout None).
Definition wanted (groups : gmap hash256 WantGroup) (i : nat) : Prop :=
  exists hash g, groups !! hash = Some g /\ ((exists pos vout o n, (i, pos, vout, o, n) ∈ g.1) \/ exists pos vout, (i, pos, vout) ∈ g.2).

Lemma group_want_spec groups i o e :
  ops !! i = Some o -> tx_index_get t (op_txid o) = Ok (Some e) -> (forall hash g, groups !! hash = Some g -> group_ok hash g) ->
  let groups' := group_want groups (i, o, Some e) in
  (forall hash g, groups' !! hash = Some g -> group_ok hash g) /\ wanted groups' i /\ forall j, wanted groups j -> wanted groups' j.
Proof.
  intros Ho He Hok. cbn [group_want]. set (h0 := te_block_hash e). set (g0 := default ([], []) (groups !! h0)).
  assert (Hg0 : group_ok h0 g0).
  { unfold g0. destruct (groups !! h0) eqn:Hg; [by apply Hok|]. split; cbn; intros *; by intros ?%not_elem_of_nil. }
  assert (Hname : forall loc, tx_loc e = loc -> names i h0 (tx_pos e) (op_vout o) loc) by (intros loc Hl; by exists o, e).
  set (g1 := match tx_loc e with Some (offset, n) => _ | None => _ end).
  assert (Hg1 : group_ok h0 g1 /\ ((exists pos vout o n, (i, pos, vout, o, n) ∈ g1.1) \/ exists pos vout, (i, pos, vout) ∈ g1.2) /\
    g0.1 ⊆ g1.1 /\ g0.2 ⊆ g1.2).
  { destruct Hg0 as [Hd Hs]. unfold g1. destruct (tx_loc e) as [[off n]|] eqn:Hl; cbn [fst snd]; split_and!.
    - split; cbn [fst snd]; [|done]. intros j pos vout o' n' [Hin|Heq%list_elem_of_singleton]%elem_of_app; [by apply Hd|].
      injection Heq as -> -> -> -> ->. by apply Hname.
    - left. exists (tx_pos e), (op_vout o), off, n. apply elem_of_app. right. by left.
    - intros x Hx. apply elem_of_app. by left.
    - done.
    - split; cbn [fst snd]; [done|]. intros j pos vout [Hin|Heq%list_elem_of_singleton]%elem_of_app; [by apply Hs|].
      injection Heq as -> -> ->. by apply Hname.
    - right. exists (tx_pos e), (op_vout o). apply elem_of_app. right. by left.
    - done.
    - intros x Hx. apply elem_of_app. by left. }
  destruct Hg1 as (Hok1 & Hwant & Hsub1 & Hsub2). split_and!.
  - intros hash g [[<- <-]|[_ Hg]]%lookup_insert_Some; [done|by apply Hok].
  - exists h0, g1. by rewrite lookup_insert_eq.
  - intros j (hash & g & Hg & Hj). destruct (decide (hash = h0)) as [->|Hne].
    + exists h0, g1. rewrite lookup_insert_eq. split; [done|]. unfold g0 in *. rewrite Hg in *. cbn [default from_option id] in *.
      destruct Hj as [(? & ? & ? & ? & Hj)|(? & ? & Hj)]; [left|right]; repeat eexists; eauto.
    + exists hash, g. by rewrite lookup_insert_ne.
Qed.

Lemma group_wants_spec (L : list (nat * OutPoint * option TxIndexEntry)) : forall groups,
  Forall (fun w => ops !! w.1.1 = Some w.1.2 /\ exists e, w.2 = Some e /\ tx_index_get t (op_txid w.1.2) = Ok (Some e)) L ->
  (forall hash g, groups !! hash = Some g -> group_ok hash g) ->
  (forall hash g, foldl group_want groups L !! hash = Some g -> group_ok hash g) /\
  (forall w, w ∈ L -> wanted (foldl group_want groups L) w.1.1) /\
  forall j, wanted groups j -> wanted (foldl group_want groups L) j.
Proof.
  induction L as [|[[i o] en] L IH]; intros groups HL Hok; cbn [foldl].
  { split_and!; [done| |done]. by intros w ?%not_elem_of_nil. }
  apply Forall_cons in HL as [[Ho (e & He & Hg)] HL']. cbn [fst snd] in *. subst en.
  destruct (group_want_spec groups i o e Ho Hg Hok) as (Hok1 & Hw1 & Hkeep).
  destruct (IH (group_want groups (i, o, Some e)) HL' Hok1) as (H1 & H2 & H3). split_and!; [done| |].
  - intros w [->|Hw]%elem_of_cons; [by apply H3|by apply H2].
  - intros j Hj. by apply H3, Hkeep.
Qed.

Lemma all_wanted :
  let groups := foldl group_want ∅ (zip (imap pair ops) (get_many t (map op_txid ops))) in
  (forall hash g, groups !! hash = Some g -> group_ok hash g) /\ forall i, (i < length ops)%nat -> wanted groups i.
Proof.
  intros groups. assert (HL : Forall (fun w : nat * OutPoint * option TxIndexEntry => ops !! w.1.1 = Some w.1.2 /\
    exists e, w.2 = Some e /\ tx_index_get t (op_txid w.1.2) = Ok (Some e)) (zip (imap pair ops) (get_many t (map op_txid ops)))).
  { apply Forall_lookup. intros k [[i o] en] (p & en' & Hp & Hz & He)%lookup_zip_with_Some. injection Hp as <- <-.
    rewrite list_lookup_imap in Hz. destruct (ops !! k) as [o'|] eqn:Hk; [|done]. injection Hz as <- <-. cbn [fst snd]. split; [done|].
    rewrite Forall_forall in Hfunded. destruct (Hfunded o' ltac:(by eapply list_elem_of_lookup_2)) as (e & tx & out & Hget & _).
    exists e. split; [|done]. unfold get_many in He. rewrite map_map in He. rewrite list_lookup_fmap, Hk in He. cbn in He. rewrite Hget in He. congruence. }
  destruct (group_wants_spec _ ∅ HL) as (H1 & H2 & _); [intros hash g; by rewrite lookup_empty|]. split; [exact H1|].
  intros i Hi. destruct (lookup_lt_is_Some_2 ops i Hi) as [o Ho].
  assert (Hin' : exists en, ((i, o), en) ∈ zip (imap pair ops) (get_many t (map op_txid ops))).
  { eexists. apply list_elem_of_lookup. exists i. rewrite lookup_zip_with, list_lookup_imap, Ho. cbn.
    unfold get_many. rewrite map_map, list_lookup_fmap, Ho. cbn. done. }
  destruct Hin' as [en Hen]. by apply (H2 _ Hen).
Qed.

(** ** One funding block *)

Definition out_ok (out : list (nat * (bytes * Z))) : Prop := forall i v, (i, v) ∈ out -> right_coin i v.

Lemma direct_reads_spec hash p raw txs b direct : forall out scan,
  B !! hash = Some (raw, txs) -> on_disk b p raw -> len raw + offset p + 4 < 2 ^ 64 -> block_size p = len raw ->
  (forall i pos vout o n, (i, pos, vout, o, n) ∈ direct -> names i hash pos vout (Some (o, n))) -> out_ok out ->
  let '(b', out', scan') := foldl (direct_read p) (b, out, scan) direct in
  b' = b /\ out_ok out' /\ out ⊆ out' /\ scan ⊆ scan' /\
  (forall i pos vout, (i, pos, vout) ∈ scan' -> (i, pos, vout) ∈ scan \/ exists o n, (i, pos, vout, o, n) ∈ direct) /\
  (forall i pos vout o n, (i, pos, vout, o, n) ∈ direct -> i ∈ out'.*1 \/ (i, pos, vout) ∈ scan').
Proof.
  induction direct as [|[[[[i pos] vout] o] n] direct IH]; intros out scan HB Hh Hlim Hsz Hnames Hok; cbn [foldl].
  { split_and!; try done; [by left|]. by intros ? ? ? ? ? ?%not_elem_of_nil. }
  destruct (want_coin i hash pos vout (Some (o, n)) (Hnames _ _ _ _ _ ltac:(by left))) as (raw' & txs' & tx & outp & HB' & Hpos & Htx & Hout & Hright & Hloc).
  rewrite HB in HB'. injection HB' as <- <-. destruct (Hloc o n eq_refl) as (Ho0 & Hn0 & Hdes).
  unfold direct_read at 2. destruct (read_slice_disk b p raw o n Hh Ho0 Hn0 Hlim Hsz) as (res & -> & Hread).
  assert (Hn' : forall i pos vout o n, (i, pos, vout, o, n) ∈ direct -> names i hash pos vout (Some (o, n))) by (intros; apply Hnames; by right).
  assert (Hcase : match match res with Ok raw => deserialize_tx raw | Err _ => None end with Some tx' => tx' = tx | None => True end).
  { destruct res as [x|]; [|done]. destruct (Hread x eq_refl) as [Hle ->]. specialize (Hdes Hle).
    apply elem_of_cons in Hdes as [->|Hdes]; [done|]. apply list_elem_of_singleton in Hdes. by rewrite Hdes. }
  destruct (match res with Ok raw => deserialize_tx raw | Err _ => None end) as [tx'|].
  - subst tx'. rewrite Hout. specialize (IH (out ++ [(i, (script_pubkey outp, value outp))]) scan HB Hh Hlim Hsz Hn').
    destruct (foldl (direct_read p) _ direct) as [[b' out'] scan'].
    destruct IH as (I1 & I2 & I3 & I4 & I5 & I6).
    { intros j v [Hin|[= -> ->]%list_elem_of_singleton]%elem_of_app; [by apply Hok|done]. }
    split_and!; [done|done|intros x Hx; apply I3, elem_of_app; by left|done| |].
    + intros j ps vo Hin. destruct (I5 _ _ _ Hin) as [|(o' & n' & Hin')]; [by left|right; exists o', n'; by right].
    + intros j ps vo o' n' [Heq|Hin]%elem_of_cons; [|by eapply I6]. injection Heq as -> -> -> -> ->. left.
      apply list_elem_of_fmap. eexists. split; [|apply I3, elem_of_app; right; by left]. done.
  - specialize (IH out (scan ++ [(i, pos, vout)]) HB Hh Hlim Hsz Hn' Hok).
    destruct (foldl (direct_read p) _ direct) as [[b' out'] scan']. destruct IH as (I1 & I2 & I3 & I4 & I5 & I6).
    split_and!; [done|done|done|intros x Hx; apply I4, elem_of_app; by left| |].
    + intros j ps vo Hin. destruct (I5 _ _ _ Hin) as [[Hs|[= -> -> ->]%list_elem_of_singleton]%elem_of_app|(o' & n' & Hin')];
        [by left|right; exists o, n; by left|right; exists o', n'; by right].
    + intros j ps vo o' n' [Heq|Hin]%elem_of_cons; [|by eapply I6]. injection Heq as -> -> -> -> ->. right.
      apply I4, elem_of_app. right. by left.
Qed.

(** The scan of a block finds every want. *)
Lemma scan_spec hash raw txs wants out :
  B !! hash = Some (raw, txs) -> block_layout raw txs -> out_ok out ->
  (forall i pos vout, (i, pos, vout) ∈ wants -> exists loc, names i hash pos vout loc) ->
  let found := (extract_outputs_from_raw_block raw wants).1 in
  out_ok (out ++ found) /\ forall i pos vout, (i, pos, vout) ∈ wants -> i ∈ (out ++ found).*1.
Proof.
  intros HB Hlay Hok Hnames found.
  assert (Hpos : Forall (fun w : PrevoutWant => 0 <= w.1.2 < len txs) wants).
  { apply Forall_forall. intros [[i pos] vout] Hin. destruct (Hnames _ _ _ Hin) as [loc Hn].
    destruct (want_coin _ _ _ _ _ Hn) as (raw' & txs' & tx & o & HB' & Hp & _). rewrite HB in HB'. injection HB' as <- <-. exact Hp. }
  assert (Hcoin : forall i pos vout, (i, pos, vout) ∈ wants -> exists tx o, txs !! Z.to_nat pos = Some tx /\ output tx !! Z.to_nat vout = Some o /\
    right_coin i (script_pubkey o, value o)).
  { intros i pos vout Hin. destruct (Hnames _ _ _ Hin) as [loc Hn].
    destruct (want_coin _ _ _ _ _ Hn) as (raw' & txs' & tx & o & HB' & _ & Htx & Ho & Hr & _). rewrite HB in HB'. injection HB' as <- <-. eauto. }
  split.
  - intros i v [Hin|Hin]%elem_of_app; [by apply Hok|]. apply (extract_outputs_spec raw txs wants i v Hlay Hpos) in Hin as (pos & tx & vout & o & Hin & Htx & Ho & ->).
    destruct (Hcoin _ _ _ Hin) as (tx' & o' & Htx' & Ho' & Hr). rewrite Htx in Htx'. injection Htx' as <-. congruence.
  - intros i pos vout Hin. destruct (Hcoin _ _ _ Hin) as (tx & o & Htx & Ho & _). rewrite fmap_app. apply elem_of_app. right.
    apply list_elem_of_fmap. exists (i, (script_pubkey o, value o)). split; [done|].
    apply (extract_outputs_spec raw txs wants _ _ Hlay Hpos). by exists pos, tx, vout, o.
Qed.

Lemma resolve_group_spec hi b out up hash g :
  stored_blocks_ok hi b B -> group_ok hash g -> out_ok out ->
  let '(b', out', up') := resolve_group hi ops (b, out, up) (hash, g) in
  b' = b /\ out_ok out' /\ out ⊆ out' /\
  (forall i pos vout o n, (i, pos, vout, o, n) ∈ g.1 -> i ∈ out'.*1) /\ (forall i pos vout, (i, pos, vout) ∈ g.2 -> i ∈ out'.*1).
Proof.
  intros Hst [Hd Hs] Hok. destruct g as [direct scan]. cbn [fst snd] in *. cbn [resolve_group].
  destruct (decide (direct = [] /\ scan = [])) as [[-> ->]|Hne].
  { destruct (get_block_pos hi hash) as [[p|]|]; cbn [foldl]; [rewrite bool_decide_eq_true_2 by done|..];
      (split_and!; [done|done|done|by intros ? ? ? ? ? ?%not_elem_of_nil|by intros ? ? ? ?%not_elem_of_nil]). }
  assert (HB : exists raw txs, B !! hash = Some (raw, txs)).
  { destruct direct as [|[[[[i pos] vout] o] n] direct].
    - destruct scan as [|[[i pos] vout] scan]; [by destruct Hne|].
      destruct (want_coin _ _ _ _ _ (Hs i pos vout ltac:(by left))) as (raw & txs & _ & _ & HB & _). eauto.
    - destruct (want_coin _ _ _ _ _ (Hd i pos vout o n ltac:(by left))) as (raw & txs & _ & _ & HB & _). eauto. }
  destruct HB as (raw & txs & HB). destruct (Hst _ _ _ HB) as (p & Hp & Hh & Hlim & Hlay). rewrite Hp.
  assert (Hsz : block_size p = len raw) by by destruct Hh as (? & ? & _ & _ & ? & _).
  pose proof (direct_reads_spec hash p raw txs b direct out scan HB Hh Hlim Hsz Hd Hok) as Hdir.
  destruct (foldl (direct_read p) (b, out, scan) direct) as [[b1 out1] scan1].
  destruct Hdir as (-> & Hok1 & Hsub1 & Hsub2 & Hsrc & Hall). case_bool_decide as Hscan.
  - subst scan1. split_and!; [done|done|done| |].
    + intros i pos vout o n Hin. destruct (Hall _ _ _ _ _ Hin) as [|Hbad]; [done|by apply not_elem_of_nil in Hbad].
    + intros i pos vout Hin. apply Hsub2 in Hin. by apply not_elem_of_nil in Hin.
  - rewrite (read_block_disk b p raw Hh).
    destruct (scan_spec hash raw txs scan1 out1 HB Hlay Hok1) as [Hok2 Hall2].
    { intros i pos vout Hin. destruct (Hsrc _ _ _ Hin) as [Hin'|(o & n & Hin')]; eauto. }
    destruct (extract_outputs_from_raw_block raw scan1) as [found locs]. cbn [fst] in *.
    split_and!; [done|done|intros x Hx; apply elem_of_app; left; by apply Hsub1| |].
    + intros i pos vout o n Hin. destruct (Hall _ _ _ _ _ Hin) as [Hin'|Hin']; [|by eapply Hall2]. rewrite fmap_app. apply elem_of_app. by left.
    + intros i pos vout Hin. by eapply Hall2, Hsub2.
Qed.

(** ** All of them *)

Definition group_found (out : list (nat * (bytes * Z))) (g : WantGroup) : Prop :=
  (forall i pos vout o n, (i, pos, vout, o, n) ∈ g.1 -> i ∈ out.*1) /\ (forall i pos vout, (i, pos, vout) ∈ g.2 -> i ∈ out.*1).

Lemma group_found_mono out out' g : out ⊆ out' -> group_found out g -> group_found out' g.
Proof.
  intros Hsub [H1 H2]. assert (Hm : forall i, i ∈ out.*1 -> i ∈ out'.*1).
  { intros i (x & -> & Hx)%list_elem_of_fmap. apply list_elem_of_fmap. exists x. auto. }
  split; eauto.
Qed.

Lemma resolve_groups_spec hi (L : list (hash256 * WantGroup)) : forall b out up,
  stored_blocks_ok hi b B -> Forall (fun hg => group_ok hg.1 hg.2) L -> out_ok out ->
  let '(b', out', up') := foldl (resolve_group hi ops) (b, out, up) L in
  stored_blocks_ok hi b' B /\ out_ok out' /\ out ⊆ out' /\ Forall (fun hg => group_found out' hg.2) L.
Proof.
  induction L as [|[hash g] L IH]; intros b out up Hst HL Hok; cbn [foldl]; [by split_and!|].
  apply Forall_cons in HL as [Hg HL]. cbn [fst snd] in Hg. pose proof (resolve_group_spec hi b out up hash g Hst Hg Hok) as Hone.
  destruct (resolve_group hi ops (b, out, up) (hash, g)) as [[b1 out1] up1]. destruct Hone as (-> & Hok1 & Hsub1 & Hd & Hs).
  specialize (IH b out1 up1 Hst HL Hok1). destruct (foldl _ _ L) as [[b2 out2] up2]. destruct IH as (Hst2 & Hok2 & Hsub2 & HF2).
  split_and!; [done|done|by etrans|]. constructor; [|done]. by apply (group_found_mono out1).
Qed.

Lemma fill_results (out : list (nat * (bytes * Z))) : forall res,
  out_ok out -> length res = length ops ->
  (forall i, (i < length ops)%nat -> i ∈ out.*1 \/ res !! i = map (fun o => m !! o) ops !! i) ->
  foldl (fun res '(i, v) => <[i := Some v]> res) res out = map (fun o => m !! o) ops.
Proof.
  induction out as [|[i v] out IH]; intros res Hok Hlen Hall; cbn [foldl].
  { apply list_eq_same_length with (length ops); [by rewrite length_map|done|]. intros i x y Hi Hx Hy.
    destruct (Hall i Hi) as [Hbad|Heq]; [by apply not_elem_of_nil in Hbad|]. congruence. }
  destruct (Hok i v ltac:(by left)) as (o & Ho & Hm). apply IH; [intros j w Hin; apply Hok; by right|by rewrite length_insert|].
  intros j Hj. destruct (decide (j = i)) as [->|Hne].
  - right. rewrite list_lookup_insert_eq by lia. by rewrite list_lookup_fmap, Ho; cbn; rewrite Hm.
  - rewrite list_lookup_insert_ne by done. destruct (Hall j Hj) as [Hin|Heq]; [|by right].
    left. cbn in Hin. apply elem_of_cons in Hin as [->|Hin]; done.
Qed.

Lemma resolve_spent_spec r :
  rs_tx r = t -> stored_blocks_ok (rs_headers r) (rs_blocks r) B ->
  (resolve_spent_outputs ops r).2 = map (fun o => m !! o) ops /\
  stored_blocks_ok (rs_headers r) (rs_blocks (resolve_spent_outputs ops r).1) B.
Proof.
  intros Ht Hst. unfold resolve_spent_outputs. rewrite Ht. destruct all_wanted as [Hok Hall].
  set (groups := foldl group_want ∅ _) in *.
  assert (HL : Forall (fun hg => group_ok hg.1 hg.2) (iter_groups groups)).
  { apply Forall_forall. intros [hash g] Hin. rewrite iter_groups_perm in Hin. apply Hok. by apply elem_of_map_to_list. }
  pose proof (resolve_groups_spec (rs_headers r) _ (rs_blocks r) [] [] Hst HL) as Hres.
  destruct (foldl _ _ (iter_groups groups)) as [[b out] up]. cbn [fst snd rs_blocks].
  destruct Hres as (Hst' & Hok' & _ & Hfound); [by intros i v ?%not_elem_of_nil|]. split; [|done].
  apply fill_results; [done|by rewrite length_replicate|]. intros i Hi. left.
  destruct (Hall i Hi) as (hash & g & Hg & Hin). rewrite Forall_forall in Hfound.
  destruct (Hfound (hash, g)) as [Hd Hs]; [rewrite iter_groups_perm; by apply elem_of_map_to_list|].
  destruct Hin as [(pos & vout & o & n & Hin)|(pos & vout & Hin)]; eauto.
Qed.
End Wants.

(** Every output that is needed is where the transaction index says, in a block
    whose bytes are in the files. *)
Definition locates (needed : OutPoint -> Prop) (r : Resolver) (m : gmap OutPoint (bytes * Z)) (B : gmap hash256 (bytes * list Transaction)) : Prop :=
  stored_blocks_ok (rs_headers r) (rs_blocks r) B /\ forall o, needed o -> funded (rs_tx r) m B o.

Lemma locates_resolves needed r m B : locates needed r m B -> resolves needed r m.
Proof.
  intros [Hst Hf] ops Hops. apply (resolve_spent_spec ops (rs_tx r) m B); [|done|done].
  eapply Forall_impl; [exact Hops|]. exact Hf.
Qed.
End Proofs.
