(* ===== verification/IndexTheorems.v ===== *)
(** * The balances of the scripthash index

    The index follows the chain block by block while other components add to
    the transaction index, the header index and the block files it shares with
    them.  Its balances are those of the unspent outputs. *)

From Stdlib Require Import ZArith Lia.
From stdpp Require Import base option numbers list gmap strings.
From S2P Require Import Prelude Bytes Types Store ScriptBytes HeaderIndex TxIndex BlockStore ScriptHash ScriptHashProofs ResolverProofs.

Section Theorems.
Context `{HH : Hashes} `{HSL : ScriptLib} `{HTx : TxLib} `{HR : RocksDb} `{HRL : !RocksLaws} `{HF : BlockFiles} `{HFL : !BlockFilesLaws}.
Context `{HT : TxDecode} `{HI : ScriptHashIter} `{HIL : !ScriptHashIterLaws} `{HOC : OutputCache} `{HOL : !OutputCacheLaws} `{HIt : !RocksIter}.
Implicit Types (s : ScripthashIndex) (m : gmap OutPoint (bytes * Z)).

(** A block the index can take: it spends outputs that exist, each once, creates
    new ones with values that add up to less than 2^63, and the resolver can
    find what it spends, unless it is in the block itself or in the cache. *)
Record next_block s m (block : Block) : Prop := {
  nb_applies : applies m block;
  nb_values : Forall (fun p => 0 <= p.2.2) (block_coins block);
  nb_supply : supply (insert_coins m (block_coins block)) < 2 ^ 63;
  nb_resolver : exists r B, sh_resolver s = Some r /\ locates (asked s m block) r m B }.

(** A run of the index, with the unspent outputs of the chain it has seen. *)
Inductive index_run : ScripthashIndex -> gmap OutPoint (bytes * Z) -> ScripthashIndex -> gmap OutPoint (bytes * Z) -> Prop :=
| run_start s m : index_run s m s m
| run_stores s0 m0 s m r : index_run s0 m0 s m -> index_run s0 m0 (set_sh_resolver s (Some r)) m
| run_clear s0 m0 s m : index_run s0 m0 s m -> index_run s0 m0 (clear_resolver_cache s) m
| run_block s0 m0 s m block h s' :
    index_run s0 m0 s m -> next_block s m block -> index_block_transactions block h s = (s', Ok tt) ->
    index_run s0 m0 s' (connect_coins m block).

Definition fresh_index s : Prop :=
  (forall sh, contents (sh_db s) CF_SCRIPTHASH_BALANCE sh = None) /\ resolver_cache s = cache_new.

Definition index_ok s m : Prop := exact s m /\ cache_sound (resolver_cache s) m /\ values_ok m.

Lemma fresh_index_ok s : fresh_index s -> index_ok s ∅.
Proof.
  intros [Hc Hn]. split_and!.
  - intros sh. unfold confirmed_of. by rewrite Hc.
  - intros o v. by rewrite Hn, cached_new.
  - by intros o c ?%lookup_empty_Some.
Qed.

Lemma index_run_ok s0 m0 s m : index_run s0 m0 s m -> index_ok s0 m0 -> index_ok s m.
Proof.
  induction 1 as [s m|s0 m0 s m r _ IH|s0 m0 s m _ IH|s0 m0 s m block h s' _ IH [Hap Hv Hsup (r & B & Hr & Hloc)] Hrun];
    [done|intros Hok; exact (IH Hok)| |]; intros Hok; destruct (IH Hok) as (Hex & Hcs & Hvo).
  - split_and!; [done| |done]. intros o v. cbn. by rewrite cached_new.
  - destruct (index_block_exact_spec m block h s s' r) as [Hex' Hcs']; try done; [by eapply locates_resolves|].
    destruct (connect_values_ok m block Hvo Hv Hap) as (_ & Hvc & _). done.
Qed.

(** C32: Starting from an empty index, after any sequence of blocks of one chain
    (none is replaced) the confirmed balance served for a scripthash is the sum
    of the unspent outputs it owns.  Each block spends existing outputs, each
    once, creates new outpoints, and keeps the total value below 2^63; the
    resolver is set, and the transaction index and the block files have every
    output the block spends that is neither created in it nor cached, as they
    do with the transaction index enabled and the earlier blocks written.
    Without them the code skips the spend and the balance is too high.  Between
    blocks the cache may be cleared and the other components may write to the
    shared stores.  Calls that fail are not part of the sequence. *)
Theorem scripthash_balance_exact s0 s m (sh : bytes) (b : ScripthashBalance) :
  fresh_index s0 -> index_run s0 ∅ s m -> get_balance s sh = Ok b -> confirmed b = owned m sh.
Proof.
  intros Hf Hrun Hb. destruct (index_run_ok _ _ _ _ Hrun (fresh_index_ok _ Hf)) as (Hex & _ & _). rewrite <- (Hex sh).
  unfold get_balance in Hb. destruct (negb _); [done|]. cbn [guard_err mbind result_bind] in Hb.
  destruct (get_cf _ _ _) as [data|] eqn:Hg; [|done]. apply get_cf_contents in Hg as ->. cbn [mbind result_bind] in Hb.
  injection Hb as <-. unfold confirmed_of. by destruct (parse_balance _).
Qed.
End Theorems.

(** ** The theorem at a concrete input *)

Section Examples.
#[local] Existing Instance Sample.hashes.
#[local] Existing Instance Sample.tx_lib.
#[local] Existing Instance SampleScript.script_lib.
#[local] Existing Instance SampleDb.rocks.
#[local] Existing Instance SampleDb.laws.
#[local] Existing Instance BlockStore.sample_files.
#[local] Existing Instance BlockStore.sample_files_laws.

#[local] Instance sample_sh_iter : ScriptHashIter := {|
  iter_groups := map_to_list; iter_outputs := map_to_list; iter_touches := elements; iter_deltas := map_to_list |}.
#[local] Instance sample_sh_iter_laws : ScriptHashIterLaws.
Proof. by constructor. Defined.

(** A cache that never evicts. *)
#[local] Instance sample_cache : OutputCache := {|
  Cache := gmap OutPoint (bytes * Z); cache_new := ∅;
  cache_pop := fun c o => (delete o c, c !! o); cache_put := fun c o v => <[o := v]> c |}.
#[local] Instance sample_cache_laws : OutputCacheLaws.
Proof.
  refine {| cached := fun (c : @Cache sample_cache) o => (c : gmap OutPoint (bytes * Z)) !! o |}.
  - done.
  - done.
  - intros c o o'. cbn. case_bool_decide as Ho; [subst; apply lookup_delete_eq|by apply lookup_delete_ne].
  - intros c o v. apply lookup_insert_eq.
  - intros c o v o' Ho. right. by apply lookup_insert_ne.
Defined.
#[local] Instance sample_rocks_iter : RocksIter := {| iterator_cf := fun _ _ _ _ => [] |}.

Definition ix_coinbase (n : Z) (outs : list TxOut) : Transaction :=
  mkTransaction 2 n [mkTxIn (mkOutPoint (replicate 32 0) 0xffffffff) [] 0 []] outs.
Definition ix_fund : Transaction := ix_coinbase 1 [mkTxOut 50 [1]].
Definition ix_spend : Transaction :=
  mkTransaction 2 2 [mkTxIn (mkOutPoint (compute_txid ix_fund) 0) [] 0 []] [mkTxOut 30 [1]; mkTxOut 20 [2]].
Definition ix_header (n : Z) : Header := mkHeader 1 (replicate 32 0) (replicate 32 0) 0 0 n.
Definition ix_block1 : Block := mkBlock (ix_header 1) [ix_fund].
Definition ix_block2 : Block := mkBlock (ix_header 2) [ix_coinbase 3 []; ix_spend].

(** A transaction is one byte on disk, its lock time. *)
#[local] Instance sample_decode : TxDecode := {|
  decode_varint := fun raw => match raw with n :: _ => Some (n, 1) | [] => None end;
  decode_tx := fun raw => match raw with 1 :: _ => Some (ix_fund, 1) | _ => None end;
  deserialize_tx := fun raw => match raw with [1] => Some ix_fund | _ => None end |}.

Definition ix_raw : bytes := replicate 80 0 ++ [1; 1].
Definition ix_hash : hash256 := block_hash (ix_header 1).
Definition ix_resolver0 : Resolver :=
  mkResolver ex_tx_index (mkHeaderIndex (∅ : gmap (string * bytes) bytes) ∅ 0) (mkBlockStore 1000 0 0 None (∅ : gmap Z bytes) false).
Definition ix_resolver1 : Resolver :=
  mkResolver (index_block ix_hash [compute_txid ix_fund] ex_tx_index).1
    (set_block_pos ix_hash (mkBlockPos 0 0 82) (mkHeaderIndex (∅ : gmap (string * bytes) bytes) ∅ 0)).1
    (mkBlockStore 1000 0 86 None ({[0 := frame ix_raw]} : gmap Z bytes) false).
Definition ix_s0 : ScripthashIndex := mkScripthashIndex (∅ : gmap (string * bytes) bytes) (Some ix_resolver0) (∅ : gmap OutPoint (bytes * Z)).
Definition ix_s1 : ScripthashIndex := (index_block_transactions ix_block1 1 ix_s0).1.
(** The node restarts: the cache is empty and the stores have block 1. *)
Definition ix_s2 : ScripthashIndex := set_sh_resolver (clear_resolver_cache ix_s1) (Some ix_resolver1).
Definition ix_s3 : ScripthashIndex := (index_block_transactions ix_block2 2 ix_s2).1.
Definition ix_m1 : gmap OutPoint (bytes * Z) := connect_coins ∅ ix_block1.
Definition ix_m2 : gmap OutPoint (bytes * Z) := connect_coins ix_m1 ix_block2.

Lemma ix_m1_coins : ix_m1 = {[mkOutPoint (compute_txid ix_fund) 0 := ([1], 50)]}.
Proof.
  unfold ix_m1, connect_coins. assert (Hs : block_spends ix_block1 = []) by (vm_compute; reflexivity). by rewrite Hs.
Qed.

Lemma ix_locates needed : (forall o, needed o -> is_Some (ix_m1 !! o)) -> locates needed ix_resolver1 ix_m1 {[ix_hash := (ix_raw, [ix_fund])]}.
Proof.
  assert (Hlen : len ix_raw = 82) by (vm_compute; reflexivity).
  intros Hneed. pose proof ix_m1_coins as Hm.
  split.
  - intros hash raw txs [<- [= <- <-]]%lookup_singleton_Some. exists (mkBlockPos 0 0 82).
    split_and!; [vm_compute; reflexivity| |rewrite Hlen; cbn; lia|].
    + exists [], []. split_and!; [vm_compute; reflexivity|done|by rewrite Hlen|rewrite Hlen; lia|cbn; lia].
    + split_and!; [rewrite Hlen; lia|unfold len; cbn; lia|]. exists 1. split_and!; [lia|vm_compute; reflexivity|].
      split; [rewrite Hlen; lia|]. exists 1. split_and!; [lia|lia|vm_compute; reflexivity|done].
  - intros o Ho%Hneed. revert Ho. rewrite Hm. intros [c [<- <-]%lookup_singleton_Some].
    exists (mkTxIndexEntry ix_hash 0 None), ix_fund, (mkTxOut 50 [1]).
    split_and!; [vm_compute; reflexivity| |done|apply lookup_singleton_eq].
    exists ix_raw, [ix_fund]. split_and!; [apply lookup_singleton_eq|done|done|done].
Qed.

(** The empty chain needs no resolver. *)
Lemma ix_locates_nothing needed : (forall o, needed o -> is_Some ((∅ : gmap OutPoint (bytes * Z)) !! o)) -> locates needed ix_resolver0 ∅ ∅.
Proof. intros Hneed. split; [by intros ? ? ? ?%lookup_empty_Some|]. intros o [? ?%lookup_empty_Some]%Hneed. done. Qed.

Lemma ix_applies1 : applies ∅ ix_block1.
Proof.
  split.
  - apply (bool_decide_eq_true _). vm_compute. reflexivity.
  - intros o _. apply lookup_empty.
  - apply (bool_decide_eq_true _). vm_compute. reflexivity.
  - intros o Ho. by apply not_elem_of_nil in Ho.
Qed.

Lemma ix_applies2 : applies ix_m1 ix_block2.
Proof.
  split.
  - apply (bool_decide_eq_true _). vm_compute. reflexivity.
  - apply Forall_forall, (bool_decide_eq_true _). vm_compute. reflexivity.
  - apply (bool_decide_eq_true _). vm_compute. reflexivity.
  - apply Forall_forall, (bool_decide_eq_true _). vm_compute. reflexivity.
Qed.

Lemma scripthash_balance_exact_witness :
  get_balance ix_s3 (compute_scripthash [1]) = Ok (mkBalance 30 0) /\ owned ix_m2 (compute_scripthash [1]) = 30.
Proof.
  assert (Hb : get_balance ix_s3 (compute_scripthash [1]) = Ok (mkBalance 30 0)) by (vm_compute; reflexivity).
  split; [exact Hb|]. symmetry. apply (scripthash_balance_exact ix_s0 ix_s3 ix_m2 _ (mkBalance 30 0)); [|apply (run_block _ _ ix_s2 ix_m1 ix_block2 2)|exact Hb].
  - split; [intros sh; apply lookup_empty|reflexivity].
  - apply run_stores, run_clear. apply (run_block _ _ ix_s0 ∅ ix_block1 1); [apply run_start| |].
    + split; [exact ix_applies1|by repeat constructor|vm_compute; reflexivity|]. exists ix_resolver0, ∅. split; [reflexivity|by apply ix_locates_nothing; intros o (_ & Ho & _)].
    + assert (Hr : (index_block_transactions ix_block1 1 ix_s0).2 = Ok tt) by (vm_compute; reflexivity).
      rewrite <- Hr. apply surjective_pairing.
  - split; [exact ix_applies2|by repeat constructor|vm_compute; reflexivity|]. eexists _, _. split; [reflexivity|by apply ix_locates; intros o (_ & Ho & _)].
  - assert (Hr : (index_block_transactions ix_block2 2 ix_s2).2 = Ok tt) by (vm_compute; reflexivity).
    rewrite <- Hr. apply surjective_pairing.
Defined.

(** Without a resolver nothing is subtracted: the spent output still counts. *)
Lemma spend_without_resolver_still_counted :
  let s := (index_block_transactions ix_block2 2 (set_sh_resolver (clear_resolver_cache ix_s1) None)).1 in
  get_balance s (compute_scripthash [1]) = Ok (mkBalance 80 0) /\ owned ix_m2 (compute_scripthash [1]) = 30.
Proof. vm_compute. auto. Qed.

(** Nothing leaves the index when a block leaves the chain: after a
    reorganisation that replaces block 1, the recipient of its coinbase keeps
    the balance. *)
Lemma replaced_block_still_counted :
  let replacement := mkBlock (ix_header 9) [ix_coinbase 9 [mkTxOut 50 [2]]] in
  let s := (index_block_transactions replacement 1 ix_s1).1 in
  get_balance s (compute_scripthash [1]) = Ok (mkBalance 50 0) /\ owned (connect_coins ∅ replacement) (compute_scripthash [1]) = 0 /\
  get_sh_indexed_height s = Ok (Some 1).
Proof. vm_compute. auto. Qed.
End Examples.
