(* ===== verification/V2Cipher.v ===== *)
(** * The ciphers of the encrypted transport

    [bitcoinpr-p2p/src/v2_transport.rs], first part: the ChaCha20 block
    function, Poly1305 on 26-bit limbs, the AEAD of RFC 8439 built from them,
    and the rekeying wrappers of BIP 324. *)

From Stdlib Require Import ZArith Lia.
From stdpp Require Import base option numbers list.
From S2P Require Import Prelude Bytes.

(** [slice.chunks(n)] *)
Fixpoint chunks_of {A} (fuel n : nat) (l : list A) : list (list A) :=
  match fuel, l with
  | S fuel, _ :: _ => take n l :: chunks_of fuel n (drop n l)
  | _, _ => []
  end.
Definition chunks {A} (n : nat) (l : list A) : list (list A) := chunks_of (length l) n l.

(** [u32::from_le_bytes] of the four bytes at [k]. *)
Definition le32 (b : bytes) (k : nat) : Z := from_le (take 4 (drop k b)).

(** ** ChaCha20 *)

Definition rotl32 (x r : Z) : Z := Z.lor (u32 (Z.shiftl x r)) (Z.shiftr x (32 - r)).
Definition word (s : list Z) (i : nat) : Z := nth i s 0.

Definition quarter_round (a b c d : nat) (s : list Z) : list Z :=
  let s := <[a := u32 (word s a + word s b)]> s in
  let s := <[d := rotl32 (Z.lxor (word s d) (word s a)) 16]> s in
  let s := <[c := u32 (word s c + word s d)]> s in
  let s := <[b := rotl32 (Z.lxor (word s b) (word s c)) 12]> s in
  let s := <[a := u32 (word s a + word s b)]> s in
  let s := <[d := rotl32 (Z.lxor (word s d) (word s a)) 8]> s in
  let s := <[c := u32 (word s c + word s d)]> s in
  <[b := rotl32 (Z.lxor (word s b) (word s c)) 7]> s.

(** Column rounds, then diagonal rounds. *)
Definition double_round (s : list Z) : list Z :=
  let s := quarter_round 0 4 8 12 s in
  let s := quarter_round 1 5 9 13 s in
  let s := quarter_round 2 6 10 14 s in
  let s := quarter_round 3 7 11 15 s in
  let s := quarter_round 0 5 10 15 s in
  let s := quarter_round 1 6 11 12 s in
  let s := quarter_round 2 7 8 13 s in
  quarter_round 3 4 9 14 s.

Definition chacha20_block (key nonce : bytes) (counter : Z) : bytes :=
  let state := [0x61707865; 0x3320646e; 0x79622d32; 0x6b206574] ++
    map (fun i => le32 key (4 * i)) (seq 0 8) ++ [counter] ++ map (fun i => le32 nonce (4 * i)) (seq 0 3) in
  let working := Nat.iter 10 double_round state in
  concat (map (fun i => to_le 4 (u32 (word working i + word state i))) (seq 0 16)).

Fixpoint xor_chunks (key nonce : bytes) (counter : Z) (data : list bytes) : bytes :=
  match data with
  | [] => []
  | chunk :: data => zip_with Z.lxor chunk (chacha20_block key nonce counter) ++ xor_chunks key nonce (u32 (counter + 1)) data
  end.
Definition chacha20_xor (key nonce : bytes) (counter : Z) (data : bytes) : bytes :=
  xor_chunks key nonce counter (chunks 64 data).

(** ** Poly1305 *)

Definition MASK26 : Z := 0x3ffffff.
Abbreviation limbs := (Z * Z * Z * Z * Z)%type.

(** The clamped multiplier. *)
Definition poly_r (key : bytes) : limbs :=
  (Z.land (le32 key 0) 0x03ffffff, Z.land (Z.shiftr (le32 key 3) 2) 0x03ffff03, Z.land (Z.shiftr (le32 key 6) 4) 0x03ffc0ff,
   Z.land (Z.shiftr (le32 key 9) 6) 0x03f03fff, Z.land (Z.shiftr (le32 key 12) 8) 0x000fffff).

(** The padded block and its high bit. *)
Definition poly_buf (block : bytes) : bytes * Z :=
  if (length block =? 16)%nat then (block ++ [0], Z.shiftl 1 24)
  else (block ++ [1] ++ replicate (16 - length block) 0, 0).

Definition poly_add (h : limbs) (block : bytes) : limbs :=
  let '(h0, h1, h2, h3, h4) := h in
  let '(buf, hibit) := poly_buf block in
  (u32 (h0 + Z.land (le32 buf 0) MASK26), u32 (h1 + Z.land (Z.shiftr (le32 buf 3) 2) MASK26),
   u32 (h2 + Z.land (Z.shiftr (le32 buf 6) 4) MASK26), u32 (h3 + Z.land (Z.shiftr (le32 buf 9) 6) MASK26),
   u32 (h4 + Z.lor (Z.shiftr (le32 buf 12) 8) hibit)).

(** The five 64-bit columns of [h * r] modulo [2^130 - 5]. *)
Definition poly_mul (r h : limbs) : limbs :=
  let '(r0, r1, r2, r3, r4) := r in
  let '(h0, h1, h2, h3, h4) := h in
  let '(s1, s2, s3, s4) := (u32 (r1 * 5), u32 (r2 * 5), u32 (r3 * 5), u32 (r4 * 5)) in
  (u64 (h0 * r0 + h1 * s4 + h2 * s3 + h3 * s2 + h4 * s1), u64 (h0 * r1 + h1 * r0 + h2 * s4 + h3 * s3 + h4 * s2),
   u64 (h0 * r2 + h1 * r1 + h2 * r0 + h3 * s4 + h4 * s3), u64 (h0 * r3 + h1 * r2 + h2 * r1 + h3 * r0 + h4 * s4),
   u64 (h0 * r4 + h1 * r3 + h2 * r2 + h3 * r1 + h4 * r0)).

(** Partial carry propagation. *)
Definition poly_reduce (d : limbs) : limbs :=
  let '(d0, d1, d2, d3, d4) := d in
  let c := Z.shiftr d0 26 in
  let h0 := u32 (Z.land d0 MASK26) in
  let d1 := u64 (d1 + c) in
  let c := Z.shiftr d1 26 in
  let h1 := u32 (Z.land d1 MASK26) in
  let d2 := u64 (d2 + c) in
  let c := Z.shiftr d2 26 in
  let h2 := u32 (Z.land d2 MASK26) in
  let d3 := u64 (d3 + c) in
  let c := Z.shiftr d3 26 in
  let h3 := u32 (Z.land d3 MASK26) in
  let d4 := u64 (d4 + c) in
  let c := Z.shiftr d4 26 in
  let h4 := u32 (Z.land d4 MASK26) in
  let h0 := u32 (h0 + u32 (u32 c * 5)) in
  let c2 := Z.shiftr h0 26 in
  let h0 := Z.land h0 MASK26 in
  let h1 := u32 (h1 + c2) in
  (h0, h1, h2, h3, h4).

Definition poly_step (r h : limbs) (block : bytes) : limbs := poly_reduce (poly_mul r (poly_add h block)).

(** The full carry. *)
Definition poly_carry (h : limbs) : limbs :=
  let '(h0, h1, h2, h3, h4) := h in
  let c := Z.shiftr h1 26 in
  let h1 := Z.land h1 MASK26 in
  let h2 := u32 (h2 + c) in
  let c := Z.shiftr h2 26 in
  let h2 := Z.land h2 MASK26 in
  let h3 := u32 (h3 + c) in
  let c := Z.shiftr h3 26 in
  let h3 := Z.land h3 MASK26 in
  let h4 := u32 (h4 + c) in
  let c := Z.shiftr h4 26 in
  let h4 := Z.land h4 MASK26 in
  let h0 := u32 (h0 + u32 (c * 5)) in
  let c := Z.shiftr h0 26 in
  let h0 := Z.land h0 MASK26 in
  let h1 := u32 (h1 + c) in
  (h0, h1, h2, h3, h4).

(** [h] if it is below [2^130 - 5], else [h + 5 - 2^130], selected by masks. *)
Definition poly_freeze (h : limbs) : limbs :=
  let '(h0, h1, h2, h3, h4) := h in
  let g0 := u32 (h0 + 5) in
  let c := Z.shiftr g0 26 in
  let g0 := Z.land g0 MASK26 in
  let g1 := u32 (h1 + c) in
  let c := Z.shiftr g1 26 in
  let g1 := Z.land g1 MASK26 in
  let g2 := u32 (h2 + c) in
  let c := Z.shiftr g2 26 in
  let g2 := Z.land g2 MASK26 in
  let g3 := u32 (h3 + c) in
  let c := Z.shiftr g3 26 in
  let g3 := Z.land g3 MASK26 in
  let g4 := u32 (u32 (h4 + c) - Z.shiftl 1 26) in
  let mask := u32 (Z.shiftr g4 31 - 1) in
  let nmask := Z.lxor mask 0xffffffff in
  let sel h g := Z.lor (Z.land h nmask) (Z.land g mask) in
  (sel h0 g0, sel h1 g1, sel h2 g2, sel h3 g3, sel h4 g4).

(** Repack into 32-bit words and add the second half of the key. *)
Definition poly_tag (key : bytes) (h : limbs) : bytes :=
  let '(h0, h1, h2, h3, h4) := h in
  let w0 := Z.lor h0 (u32 (Z.shiftl h1 26)) in
  let w1 := Z.lor (Z.shiftr h1 6) (u32 (Z.shiftl h2 20)) in
  let w2 := Z.lor (Z.shiftr h2 12) (u32 (Z.shiftl h3 14)) in
  let w3 := Z.lor (Z.shiftr h3 18) (u32 (Z.shiftl h4 8)) in
  let f0 := u64 (w0 + le32 key 16) in
  let f1 := u64 (w1 + le32 key 20 + Z.shiftr f0 32) in
  let f2 := u64 (w2 + le32 key 24 + Z.shiftr f1 32) in
  let f3 := u64 (w3 + le32 key 28 + Z.shiftr f2 32) in
  to_le 4 (u32 f0) ++ to_le 4 (u32 f1) ++ to_le 4 (u32 f2) ++ to_le 4 (u32 f3).

Definition poly1305_mac (key msg : bytes) : bytes :=
  poly_tag key (poly_freeze (poly_carry (foldl (poly_step (poly_r key)) (0, 0, 0, 0, 0) (chunks 16 msg)))).

(** ** The AEAD *)

Definition AEAD_TAG_LEN : nat := 16.

(** [resize(len.div_ceil(16) * 16, 0)] *)
Definition pad16 (b : bytes) : bytes := b ++ replicate ((length b + 15) / 16 * 16 - length b) 0.

Definition chacha20_poly1305_tag (key nonce aad ciphertext : bytes) : bytes :=
  let otk := take 32 (chacha20_block key nonce 0) in
  poly1305_mac otk (pad16 (pad16 aad ++ ciphertext) ++ to_le 8 (len aad) ++ to_le 8 (len ciphertext)).

Definition aead_chacha20_poly1305_encrypt (key nonce aad plaintext : bytes) : bytes :=
  let out := chacha20_xor key nonce 1 plaintext in
  out ++ chacha20_poly1305_tag key nonce aad out.

(** The comparison that looks at every byte. *)
Definition tag_diff (expected tag : bytes) : Z := foldl (fun diff '(a, b) => Z.lor diff (Z.lxor a b)) 0 (zip expected tag).

Definition aead_chacha20_poly1305_decrypt (key nonce aad ciphertext : bytes) : option bytes :=
  if (length ciphertext <? AEAD_TAG_LEN)%nat then None
  else
    let at_ := (length ciphertext - AEAD_TAG_LEN)%nat in
    let '(ct, tag) := (take at_ ciphertext, drop at_ ciphertext) in
    let expected := chacha20_poly1305_tag key nonce aad ct in
    if negb (tag_diff expected tag =? 0) then None else Some (chacha20_xor key nonce 1 ct).

(** ** The rekeying wrappers *)

Definition REKEY_INTERVAL : Z := 224.

Record FsChaCha20 := mkFsChaCha20 {
  fs_key : bytes;
  block_counter : Z;
  chunk_counter : Z;
  keystream : bytes }.

Definition FsChaCha20_new (initial_key : bytes) : FsChaCha20 := mkFsChaCha20 initial_key 0 0 [].

(** The loop adds 64 bytes per round, so [nbytes] rounds are enough. *)
Fixpoint fill_keystream (fuel : nat) (nbytes : nat) (s : FsChaCha20) : FsChaCha20 :=
  match fuel with
  | O => s
  | S fuel =>
      if (length (keystream s) <? nbytes)%nat then
        let nonce := replicate 4 0 ++ to_le 8 (chunk_counter s / REKEY_INTERVAL) in
        fill_keystream fuel nbytes
          (mkFsChaCha20 (fs_key s) (u32 (block_counter s + 1)) (chunk_counter s)
             (keystream s ++ chacha20_block (fs_key s) nonce (block_counter s)))
      else s
  end.
Definition get_keystream_bytes (nbytes : nat) (s : FsChaCha20) : FsChaCha20 * bytes :=
  let s := fill_keystream nbytes nbytes s in
  (mkFsChaCha20 (fs_key s) (block_counter s) (chunk_counter s) (drop nbytes (keystream s)), take nbytes (keystream s)).

Definition crypt (chunk : bytes) (s : FsChaCha20) : FsChaCha20 * bytes :=
  let '(s, ks) := get_keystream_bytes (length chunk) s in
  let ret := zip_with Z.lxor ks chunk in
  let s :=
    if u64 (chunk_counter s + 1) mod REKEY_INTERVAL =? 0 then
      let '(s, new_key) := get_keystream_bytes 32 s in mkFsChaCha20 new_key 0 (chunk_counter s) (keystream s)
    else s in
  (mkFsChaCha20 (fs_key s) (block_counter s) (u64 (chunk_counter s + 1)) (keystream s), ret).

Record FsChaCha20Poly1305 := mkFsAead { fp_key : bytes; packet_counter : Z }.

Definition FsChaCha20Poly1305_new (initial_key : bytes) : FsChaCha20Poly1305 := mkFsAead initial_key 0.

Definition fp_nonce (s : FsChaCha20Poly1305) : bytes :=
  to_le 4 (packet_counter s mod REKEY_INTERVAL) ++ to_le 8 (packet_counter s / REKEY_INTERVAL).

Definition advance (nonce : bytes) (s : FsChaCha20Poly1305) : FsChaCha20Poly1305 :=
  let key :=
    if u64 (packet_counter s + 1) mod REKEY_INTERVAL =? 0 then
      let rekey_nonce := replicate 4 0xff ++ drop 4 nonce in
      take 32 (aead_chacha20_poly1305_encrypt (fp_key s) rekey_nonce [] (replicate 32 0))
    else fp_key s in
  mkFsAead key (u64 (packet_counter s + 1)).

Definition encrypt (aad plaintext : bytes) (s : FsChaCha20Poly1305) : FsChaCha20Poly1305 * bytes :=
  let nonce := fp_nonce s in
  (advance nonce s, aead_chacha20_poly1305_encrypt (fp_key s) nonce aad plaintext).

(** The counter advances even when the packet is not authentic. *)
Definition decrypt (aad ciphertext : bytes) (s : FsChaCha20Poly1305) : FsChaCha20Poly1305 * option bytes :=
  let nonce := fp_nonce s in
  (advance nonce s, aead_chacha20_poly1305_decrypt (fp_key s) nonce aad ciphertext).
