(* ===== verification/Poly1305.v ===== *)
(** * Poly1305 on limbs computes Poly1305

    The five 26-bit limbs of [v2_transport.rs] with partial carries, the mask
    selection and the repacking agree with the definition of RFC 8439: the
    polynomial of the message blocks at the clamped key, modulo [2^130 - 5],
    plus the second half of the key modulo [2^128].  No intermediate value
    overflows its machine word. *)

From Stdlib Require Import ZArith Lia.
From stdpp Require Import base option numbers list.
From S2P Require Import Prelude Bytes V2Cipher.

(** ** The definition of RFC 8439 *)

Definition P1305 : Z := 2 ^ 130 - 5.
Definition CLAMP : Z := 0x0ffffffc0ffffffc0ffffffc0fffffff.

Definition poly1305 (key msg : bytes) : bytes :=
  let r := Z.land (from_le (take 16 key)) CLAMP in
  let s := from_le (take 16 (drop 16 key)) in
  to_le 16 (foldl (fun acc block => (acc + from_le (block ++ [1])) * r mod P1305) 0 (chunks 16 msg) + s).

(** ** Limbs *)

Definition val (h : limbs) : Z :=
  let '(h0, h1, h2, h3, h4) := h in h0 + 2 ^ 26 * h1 + 2 ^ 52 * h2 + 2 ^ 78 * h3 + 2 ^ 104 * h4.

Definition limb (n i : Z) : Z := n / 2 ^ (26 * i) mod 2 ^ 26.

Lemma land_mask26 z : Z.land z MASK26 = z mod 2 ^ 26.
Proof. change MASK26 with (Z.ones 26). by apply Z.land_ones. Qed.

Lemma shiftr_div z k : 0 <= k -> Z.shiftr z k = z / 2 ^ k.
Proof. apply Z.shiftr_div_pow2. Qed.

(** Bits that do not overlap. *)
Lemma lor_add_low a b k : 0 <= k -> 0 <= a < 2 ^ k -> Z.lor a (2 ^ k * b) = a + 2 ^ k * b.
Proof.
  intros Hk Ha. assert (Hland : Z.land a (2 ^ k * b) = 0).
  { apply Z.bits_inj'. intros i Hi. rewrite Z.land_spec, Z.bits_0, (Z.mul_comm (2 ^ k)). destruct (Z.ltb_spec i k).
    - by rewrite Z.mul_pow2_bits_low, andb_false_r by lia.
    - rewrite <- (Z.mod_small a (2 ^ k)) by done. by rewrite Z.mod_pow2_bits_high by lia. }
  by rewrite Z.add_nocarry_lxor, Z.lxor_lor.
Qed.

(** Four bytes at [k] are 32 bits of the number. *)
Lemma le32_at b k : bytes_ok b -> (k + 4 <= length b)%nat -> le32 b k = from_le b / 2 ^ (8 * Z.of_nat k) mod 2 ^ 32.
Proof.
  intros Hb Hk. unfold le32. pose proof (from_le_bound (take k b) (bytes_ok_take _ _ Hb)) as H1.
  pose proof (from_le_bound (take 4 (drop k b)) (bytes_ok_take _ _ (bytes_ok_drop _ _ Hb))) as H2.
  rewrite length_take, length_drop in *. rewrite Nat.min_l in H1, H2 by lia.
  replace (from_le b) with (from_le (take k b) + pow256 k * (from_le (take 4 (drop k b)) + pow256 4 * from_le (drop 4 (drop k b)))).
  2: { rewrite <- (take_drop k b) at 4. rewrite from_le_app, length_take, Nat.min_l by lia. f_equal. f_equal.
       rewrite <- (take_drop 4 (drop k b)) at 3. by rewrite from_le_app, length_take, length_drop, Nat.min_l by lia. }
  change (2 ^ (8 * Z.of_nat k)) with (pow256 k). change (2 ^ 32) with (pow256 4). pose proof (pow256_pos k).
  rewrite (Z.mul_comm (pow256 k)), Z.div_add by lia. rewrite Z.div_small, Z.add_0_l by lia.
  rewrite Z.add_comm, Z.mul_comm, Z.add_comm, Z.mod_add by (pose proof (pow256_pos 4); lia). by rewrite Z.mod_small.
Qed.

Lemma div_mod_pow a x y : 0 <= x -> 0 <= y -> (a mod 2 ^ (x + y)) / 2 ^ x = a / 2 ^ x mod 2 ^ y.
Proof.
  intros Hx Hy. rewrite Z.pow_add_r by lia. rewrite Z.rem_mul_r by lia.
  rewrite Z.mul_comm, Z.div_add by lia. rewrite (Z.div_small (a mod 2 ^ x)); [lia|]. apply Z.mod_pos_bound. lia.
Qed.

Lemma mod_mod_pow a x y : 0 <= x <= y -> (a mod 2 ^ y) mod 2 ^ x = a mod 2 ^ x.
Proof. intros H. replace y with (x + (y - x)) by lia. rewrite Z.pow_add_r by lia. apply Z.mod_mod_divide. by apply Z.divide_factor_l. Qed.

(** The word at byte [3i], shifted by [2i], is the [i]th limb. *)
Lemma limb_of_word b (i : nat) :
  bytes_ok b -> (3 * i + 4 <= length b)%nat -> (i <= 3)%nat ->
  Z.land (Z.shiftr (le32 b (3 * i)) (2 * Z.of_nat i)) MASK26 = limb (from_le b) (Z.of_nat i).
Proof.
  intros Hb Hl Hi. rewrite land_mask26, shiftr_div, le32_at by (done || lia). unfold limb.
  replace (2 ^ 32) with (2 ^ (2 * Z.of_nat i + (32 - 2 * Z.of_nat i))) by (f_equal; lia).
  rewrite div_mod_pow, mod_mod_pow, Z.div_div by lia.
  rewrite <- Z.pow_add_r by lia. do 3 f_equal. lia.
Qed.

Lemma val_limbs n : 0 <= n < 2 ^ 128 -> val (limb n 0, limb n 1, limb n 2, limb n 3, n / 2 ^ 104) = n.
Proof.
  intros Hn. unfold val, limb. change (2 ^ (26 * 0)) with 1. change (2 ^ (26 * 1)) with (2 ^ 26). change (2 ^ (26 * 2)) with (2 ^ 52).
  change (2 ^ (26 * 3)) with (2 ^ 78). rewrite Z.div_1_r.
  Z.div_mod_to_equations. lia.
Qed.

(** ** One block *)

Lemma wrap_le w z b : 0 <= z <= b -> b < 2 ^ w -> wrap w z = z.
Proof. intros Hz Hb. apply wrap_small. unfold fits. lia. Qed.

(** The value of a block with the bit above its last byte. *)
Lemma poly_buf_value block :
  bytes_ok block -> (length block <= 16)%nat ->
  let '(buf, hibit) := poly_buf block in
  bytes_ok buf /\ length buf = 17%nat /\ 0 <= from_le buf < 2 ^ 128 /\ (hibit = 0 \/ hibit = 2 ^ 24) /\
  from_le buf + 2 ^ 104 * hibit = from_le (block ++ [1]).
Proof.
  intros Hb Hl. pose proof (from_le_bound block Hb) as Hv. unfold poly_buf. rewrite from_le_app. cbn [from_le].
  destruct (Nat.eqb_spec (length block) 16) as [H16|H16].
  - rewrite H16 in *. change (pow256 16) with (2 ^ 128) in *. rewrite from_le_app. cbn [from_le].
    split_and!; [apply bytes_ok_app; split; [done|by repeat constructor]|rewrite length_app; cbn; lia|lia|lia|by right|].
    change (Z.shiftl 1 24) with (2 ^ 24). lia.
  - assert (Hz : forall n, from_le (replicate n 0) = 0) by (induction n as [|n IH]; cbn; lia).
    rewrite from_le_app. cbn [app from_le]. rewrite Hz. set (n := length block) in *.
    assert (Hp : pow256 n <= pow256 15) by (apply Z.pow_le_mono_r; lia). change (pow256 15) with (2 ^ 120) in Hp.
    split_and!; [|rewrite length_app; cbn; rewrite length_replicate; unfold n in *; lia|lia|lia|by left|lia].
    apply bytes_ok_app. split; [done|]. apply bytes_ok_cons. split; [done|]. apply Forall_replicate. done.
Qed.

Definition below (B : Z) (h : limbs) : Prop :=
  let '(h0, h1, h2, h3, h4) := h in 0 <= h0 <= B /\ 0 <= h1 <= B /\ 0 <= h2 <= B /\ 0 <= h3 <= B /\ 0 <= h4 <= B.
(** Limbs between two blocks. *)
Definition reduced (h : limbs) : Prop :=
  let '(h0, h1, h2, h3, h4) := h in
  0 <= h0 < 2 ^ 26 /\ 0 <= h1 < 2 ^ 26 + 64 /\ 0 <= h2 < 2 ^ 26 /\ 0 <= h3 < 2 ^ 26 /\ 0 <= h4 < 2 ^ 26.

Lemma limb_bound n i : 0 <= limb n i < 2 ^ 26.
Proof. by apply Z.mod_pos_bound. Qed.

Lemma poly_add_spec h block :
  reduced h -> bytes_ok block -> (length block <= 16)%nat ->
  below (2 ^ 27 + 64) (poly_add h block) /\ val (poly_add h block) = val h + from_le (block ++ [1]).
Proof.
  intros Hh Hb Hl. pose proof (poly_buf_value block Hb Hl) as Hbuf. unfold poly_add. destruct (poly_buf block) as [buf hibit].
  destruct Hbuf as (Hbb & Hlen & Hn & Hhi & Hval). destruct h as [[[[h0 h1] h2] h3] h4]. destruct Hh as (H0 & H1 & H2 & H3 & H4).
  assert (E0 : Z.land (le32 buf 0) MASK26 = limb (from_le buf) 0)
    by (rewrite <- (Z.shiftr_0_r (le32 buf 0)); apply (limb_of_word buf 0); done || lia).
  assert (E1 : Z.land (Z.shiftr (le32 buf 3) 2) MASK26 = limb (from_le buf) 1) by (apply (limb_of_word buf 1); done || lia).
  assert (E2 : Z.land (Z.shiftr (le32 buf 6) 4) MASK26 = limb (from_le buf) 2) by (apply (limb_of_word buf 2); done || lia).
  assert (E3 : Z.land (Z.shiftr (le32 buf 9) 6) MASK26 = limb (from_le buf) 3) by (apply (limb_of_word buf 3); done || lia).
  rewrite E0, E1, E2, E3. set (n := from_le buf) in *.
  assert (E4 : Z.lor (Z.shiftr (le32 buf 12) 8) hibit = n / 2 ^ 104 + hibit /\ 0 <= n / 2 ^ 104 < 2 ^ 24).
  { assert (Hq : 0 <= n / 2 ^ 104 < 2 ^ 24) by (split; [apply Z.div_pos|apply Z.div_lt_upper_bound]; lia). split; [|done].
    rewrite shiftr_div, le32_at by (done || lia). change (2 ^ 32) with (2 ^ (8 + 24)). rewrite div_mod_pow, Z.div_div by lia. fold n.
    change (2 ^ (8 * Z.of_nat 12) * 2 ^ 8) with (2 ^ 104). rewrite Z.mod_small by done.
    destruct Hhi as [->| ->]; [by rewrite Z.lor_0_r, Z.add_0_r|]. by rewrite <- (Z.mul_1_r (2 ^ 24)), lor_add_low. }
  destruct E4 as [-> Hq]. pose proof (limb_bound n 0). pose proof (limb_bound n 1). pose proof (limb_bound n 2). pose proof (limb_bound n 3).
  rewrite !wrap_small by (unfold fits; lia). split; [cbn; lia|]. pose proof (val_limbs n Hn) as Hvn. cbn [val] in *. lia.
Qed.

(** The columns, and the multiple of [2^130 - 5] that folding drops. *)
Lemma mul_bound a b A B : 0 <= a <= A -> 0 <= b <= B -> 0 <= a * b <= A * B.
Proof. nia. Qed.

Lemma dot_bound h0 h1 h2 h3 h4 x0 x1 x2 x3 x4 H X :
  below H (h0, h1, h2, h3, h4) -> below X (x0, x1, x2, x3, x4) ->
  0 <= h0 * x0 + h1 * x1 + h2 * x2 + h3 * x3 + h4 * x4 <= 5 * (H * X).
Proof.
  intros (H0 & H1 & H2 & H3 & H4) (X0 & X1 & X2 & X3 & X4).
  pose proof (mul_bound _ _ _ _ H0 X0). pose proof (mul_bound _ _ _ _ H1 X1). pose proof (mul_bound _ _ _ _ H2 X2).
  pose proof (mul_bound _ _ _ _ H3 X3). pose proof (mul_bound _ _ _ _ H4 X4). lia.
Qed.

Definition columns_ok (d : limbs) : Prop :=
  let '(d0, d1, d2, d3, d4) := d in
  0 <= d0 < 2 ^ 59 /\ 0 <= d1 < 2 ^ 59 /\ 0 <= d2 < 2 ^ 59 /\ 0 <= d3 < 2 ^ 59 /\ 0 <= d4 <= 5 * ((2 ^ 27 + 64) * 2 ^ 26).

Lemma poly_mul_spec r h :
  below (2 ^ 26) r -> below (2 ^ 27 + 64) h ->
  columns_ok (poly_mul r h) /\ exists q, val (poly_mul r h) = val h * val r - P1305 * q.
Proof.
  destruct r as [[[[r0 r1] r2] r3] r4], h as [[[[h0 h1] h2] h3] h4]. intros Hr Hh. unfold poly_mul.
  assert (Hr' := Hr). destruct Hr' as (R0 & R1 & R2 & R3 & R4).
  rewrite (wrap_small 32 (r1 * 5)), (wrap_small 32 (r2 * 5)), (wrap_small 32 (r3 * 5)), (wrap_small 32 (r4 * 5)) by (unfold fits; lia).
  set (X := 5 * 2 ^ 26).
  pose proof (dot_bound h0 h1 h2 h3 h4 r0 (r4 * 5) (r3 * 5) (r2 * 5) (r1 * 5) _ X Hh ltac:(cbn; unfold X; lia)) as D0.
  pose proof (dot_bound h0 h1 h2 h3 h4 r1 r0 (r4 * 5) (r3 * 5) (r2 * 5) _ X Hh ltac:(cbn; unfold X; lia)) as D1.
  pose proof (dot_bound h0 h1 h2 h3 h4 r2 r1 r0 (r4 * 5) (r3 * 5) _ X Hh ltac:(cbn; unfold X; lia)) as D2.
  pose proof (dot_bound h0 h1 h2 h3 h4 r3 r2 r1 r0 (r4 * 5) _ X Hh ltac:(cbn; unfold X; lia)) as D3.
  pose proof (dot_bound h0 h1 h2 h3 h4 r4 r3 r2 r1 r0 _ (2 ^ 26) Hh ltac:(cbn; lia)) as D4. unfold X in *.
  rewrite !(wrap_le 64 _ (2 ^ 59)) by lia. split; [unfold columns_ok; lia|].
  exists ((h1 * r4 + h2 * r3 + h3 * r2 + h4 * r1) + 2 ^ 26 * (h2 * r4 + h3 * r3 + h4 * r2) + 2 ^ 52 * (h3 * r4 + h4 * r3) + 2 ^ 78 * (h4 * r4)).
  unfold val, P1305. ring.
Qed.

(** One carry: quotient and remainder. *)
Lemma split26 z : exists c e, Z.shiftr z 26 = c /\ Z.land z MASK26 = e /\ z = 2 ^ 26 * c + e /\ 0 <= e < 2 ^ 26.
Proof.
  exists (z / 2 ^ 26), (z mod 2 ^ 26). rewrite shiftr_div, land_mask26 by lia. split_and!; [done|done|by apply Z.div_mod|..];
    by apply Z.mod_pos_bound.
Qed.

Ltac carry z c e := let Hc := fresh in let He := fresh in
  destruct (split26 z) as (c & e & Hc & He & ? & ?); rewrite ?Hc, ?He; clear Hc He.

Lemma poly_reduce_spec d :
  columns_ok d -> reduced (poly_reduce d) /\ exists q, val (poly_reduce d) = val d - P1305 * q.
Proof.
  destruct d as [[[[d0 d1] d2] d3] d4]. intros (D0 & D1 & D2 & D3 & D4). unfold poly_reduce.
  carry d0 c0 e0. rewrite (wrap_le 64 (d1 + c0) (2 ^ 60)) by lia. carry (d1 + c0) c1 e1.
  rewrite (wrap_le 64 (d2 + c1) (2 ^ 60)) by lia. carry (d2 + c1) c2 e2.
  rewrite (wrap_le 64 (d3 + c2) (2 ^ 60)) by lia. carry (d3 + c2) c3 e3.
  rewrite (wrap_le 64 (d4 + c3) (2 ^ 60)) by lia. carry (d4 + c3) c4 e4.
  rewrite (wrap_small 32 e0), (wrap_small 32 e1), (wrap_small 32 e2), (wrap_small 32 e3), (wrap_small 32 e4) by (unfold fits; lia).
  rewrite (wrap_le 32 c4 (2 ^ 30)), (wrap_le 32 (c4 * 5) (26 * 2 ^ 27)), (wrap_le 32 (e0 + c4 * 5) (27 * 2 ^ 27)) by lia.
  carry (e0 + c4 * 5) c5 e5. rewrite (wrap_le 32 (e1 + c5) (2 ^ 27)) by lia. split; [unfold reduced; lia|].
  exists c4. unfold val, P1305. lia.
Qed.

Lemma poly_step_spec r h block :
  below (2 ^ 26) r -> reduced h -> bytes_ok block -> (length block <= 16)%nat ->
  reduced (poly_step r h block) /\ val (poly_step r h block) mod P1305 = (val h + from_le (block ++ [1])) * val r mod P1305.
Proof.
  intros Hr Hh Hb Hl. unfold poly_step. destruct (poly_add_spec h block Hh Hb Hl) as [Ha Hav].
  destruct (poly_mul_spec r _ Hr Ha) as [Hm [q Hmv]]. destruct (poly_reduce_spec _ Hm) as [Hred [q' Hrv]]. split; [done|].
  rewrite Hrv, Hmv, Hav. set (x := (val h + _) * val r).
  replace (x - P1305 * q - P1305 * q') with (x + (- q - q') * P1305) by ring. by apply Z.mod_add.
Qed.

(** ** The multiplier *)

Lemma limb_land n i : 0 <= i -> limb n i = Z.land (Z.shiftr n (26 * i)) (Z.ones 26).
Proof. intros Hi. unfold limb. by rewrite Z.land_ones, shiftr_div by lia. Qed.

Lemma limb_mask n m i : 0 <= i -> limb (Z.land n m) i = Z.land (limb n i) (limb m i).
Proof.
  intros Hi. rewrite !limb_land, Z.shiftr_land by done. set (a := Z.shiftr n _). set (b := Z.shiftr m _). set (o := Z.ones 26).
  apply Z.bits_inj. intros k. rewrite !Z.land_spec. by destruct (Z.testbit a k), (Z.testbit b k), (Z.testbit o k).
Qed.

Lemma le32_take b n k : (k + 4 <= n)%nat -> le32 (take n b) k = le32 b k.
Proof. intros Hk. unfold le32. rewrite skipn_firstn_comm, take_take. by rewrite Nat.min_l by lia. Qed.

(** A mask inside 26 bits. *)
Lemma land_within z mask : Z.land MASK26 mask = mask -> Z.land z mask = Z.land (Z.land z MASK26) mask.
Proof. intros Hm. by rewrite <- Z.land_assoc, Hm. Qed.

Lemma poly_r_spec key :
  bytes_ok key -> length key = 32%nat -> below (2 ^ 26) (poly_r key) /\ val (poly_r key) = Z.land (from_le (take 16 key)) CLAMP.
Proof.
  intros Hk Hl. set (n := from_le (take 16 key)). assert (Hb16 : bytes_ok (take 16 key)) by by apply bytes_ok_take.
  assert (Hl16 : length (take 16 key) = 16%nat) by (rewrite length_take; lia).
  assert (Hn : 0 <= n < 2 ^ 128) by (unfold n; pose proof (from_le_bound _ Hb16) as Hv; by rewrite Hl16 in Hv).
  set (x := Z.land n CLAMP).
  assert (Hx : 0 <= x < 2 ^ 128).
  { assert (Hxm : x = x mod 2 ^ 128) by (rewrite <- Z.land_ones by lia; unfold x; by rewrite <- Z.land_assoc).
    rewrite Hxm. by apply Z.mod_pos_bound. }
  assert (Hpoly : poly_r key = (limb x 0, limb x 1, limb x 2, limb x 3, x / 2 ^ 104)).
  { unfold poly_r. rewrite <- !(le32_take key 16) by lia.
    rewrite (land_within (le32 _ 0)), (land_within (Z.shiftr (le32 _ 3) 2)), (land_within (Z.shiftr (le32 _ 6) 4)),
      (land_within (Z.shiftr (le32 _ 9) 6)) by done.
    rewrite <- (Z.shiftr_0_r (le32 _ 0)). unfold x. rewrite !limb_mask by lia. rewrite <- (shiftr_div _ 104), Z.shiftr_land by lia.
    assert (E4 : Z.shiftr (le32 (take 16 key) 12) 8 = Z.shiftr n 104).
    { rewrite !shiftr_div, le32_at by (done || lia). change (2 ^ 32) with (2 ^ (8 + 24)). rewrite div_mod_pow, Z.div_div by lia.
      apply Z.mod_small. split; [apply Z.div_pos|apply Z.div_lt_upper_bound]; fold n; cbn; lia. }
    rewrite E4. repeat f_equal; [apply (limb_of_word _ 0)|apply (limb_of_word _ 1)|apply (limb_of_word _ 2)|apply (limb_of_word _ 3)]; done || lia. }
  rewrite Hpoly. split; [|by apply val_limbs]. pose proof (limb_bound x 0). pose proof (limb_bound x 1). pose proof (limb_bound x 2).
  pose proof (limb_bound x 3). assert (0 <= x / 2 ^ 104 < 2 ^ 24) by (split; [apply Z.div_pos|apply Z.div_lt_upper_bound]; lia). cbn. lia.
Qed.

(** ** The last reduction *)

Definition canonical (h : limbs) : Prop :=
  let '(h0, h1, h2, h3, h4) := h in
  0 <= h0 < 2 ^ 26 /\ 0 <= h1 < 2 ^ 26 /\ 0 <= h2 < 2 ^ 26 /\ 0 <= h3 < 2 ^ 26 /\ 0 <= h4 < 2 ^ 26.

Lemma poly_carry_spec h : reduced h -> canonical (poly_carry h) /\ exists q, val (poly_carry h) = val h - P1305 * q.
Proof.
  destruct h as [[[[h0 h1] h2] h3] h4]. intros (H0 & H1 & H2 & H3 & H4). unfold poly_carry.
  carry h1 c1 e1. rewrite (wrap_le 32 (h2 + c1) (2 ^ 27)) by lia. carry (h2 + c1) c2 e2.
  rewrite (wrap_le 32 (h3 + c2) (2 ^ 27)) by lia. carry (h3 + c2) c3 e3. rewrite (wrap_le 32 (h4 + c3) (2 ^ 27)) by lia. carry (h4 + c3) c4 e4.
  rewrite (wrap_le 32 (c4 * 5) 10), (wrap_le 32 (h0 + c4 * 5) (2 ^ 27)) by lia. carry (h0 + c4 * 5) c0 e0.
  rewrite (wrap_le 32 (e1 + c0) (2 ^ 27)) by lia. split; [unfold canonical; lia|]. exists c4. unfold val, P1305. lia.
Qed.

Lemma select_first h g : fits 32 h -> Z.lor (Z.land h 0xffffffff) (Z.land g 0) = h.
Proof. intros Hh. rewrite Z.land_0_r, Z.lor_0_r. change 0xffffffff with (Z.ones 32). by rewrite Z.land_ones, Z.mod_small by done. Qed.
Lemma select_second h g : fits 32 g -> Z.lor (Z.land h 0) (Z.land g 0xffffffff) = g.
Proof. intros Hg. rewrite Z.land_0_r, Z.lor_0_l. change 0xffffffff with (Z.ones 32). by rewrite Z.land_ones, Z.mod_small by done. Qed.

Lemma poly_freeze_spec h : canonical h -> canonical (poly_freeze h) /\ val (poly_freeze h) = val h mod P1305.
Proof.
  destruct h as [[[[h0 h1] h2] h3] h4]. intros (H0 & H1 & H2 & H3 & H4). unfold poly_freeze.
  rewrite (wrap_le 32 (h0 + 5) (2 ^ 27)) by lia. carry (h0 + 5) c0 g0. rewrite (wrap_le 32 (h1 + c0) (2 ^ 27)) by lia. carry (h1 + c0) c1 g1.
  rewrite (wrap_le 32 (h2 + c1) (2 ^ 27)) by lia. carry (h2 + c1) c2 g2. rewrite (wrap_le 32 (h3 + c2) (2 ^ 27)) by lia. carry (h3 + c2) c3 g3.
  rewrite (wrap_le 32 (h4 + c3) (2 ^ 27)) by lia. change (Z.shiftl 1 26) with (2 ^ 26). destruct (Z.ltb_spec (h4 + c3) (2 ^ 26)).
  - assert (Hw : u32 (h4 + c3 - 2 ^ 26) = h4 + c3 - 2 ^ 26 + 2 ^ 32).
    { unfold wrap. rewrite <- (Z.mod_add _ 1) by lia. rewrite Z.mul_1_l. apply Z.mod_small. lia. }
    rewrite Hw, shiftr_div by lia. replace ((h4 + c3 - 2 ^ 26 + 2 ^ 32) / 2 ^ 31) with 1 by (apply (Z.div_unique _ _ 1 (h4 + c3 - 2 ^ 26 + 2 ^ 31)); lia).
    change (u32 (1 - 1)) with 0. change (Z.lxor 0 0xffffffff) with 0xffffffff. rewrite !select_first by (unfold fits; lia).
    split; [done|]. symmetry. apply Z.mod_small. unfold val, P1305. lia.
  - rewrite (wrap_le 32 (h4 + c3 - 2 ^ 26) (2 ^ 26)), shiftr_div by lia. rewrite Z.div_small by lia. change (u32 (0 - 1)) with 0xffffffff.
    change (Z.lxor 0xffffffff 0xffffffff) with 0. rewrite !select_second by (unfold fits; lia). split; [unfold canonical; lia|].
    apply (Z.mod_unique _ _ 1); [left|]; unfold val, P1305; lia.
Qed.

(** ** The tag *)

Lemma poly_words h0 h1 h2 h3 h4 :
  canonical (h0, h1, h2, h3, h4) ->
  let w0 := Z.lor h0 (u32 (Z.shiftl h1 26)) in let w1 := Z.lor (Z.shiftr h1 6) (u32 (Z.shiftl h2 20)) in
  let w2 := Z.lor (Z.shiftr h2 12) (u32 (Z.shiftl h3 14)) in let w3 := Z.lor (Z.shiftr h3 18) (u32 (Z.shiftl h4 8)) in
  0 <= w0 < 2 ^ 32 /\ 0 <= w1 < 2 ^ 32 /\ 0 <= w2 < 2 ^ 32 /\ 0 <= w3 < 2 ^ 32 /\
  exists q, w0 + 2 ^ 32 * w1 + 2 ^ 64 * w2 + 2 ^ 96 * w3 = val (h0, h1, h2, h3, h4) - 2 ^ 128 * q.
Proof.
  intros (H0 & H1 & H2 & H3 & H4). assert (Hsh : forall x k, 0 <= k <= 32 -> u32 (Z.shiftl x k) = 2 ^ k * (x mod 2 ^ (32 - k))).
  { intros x k Hk. rewrite Z.shiftl_mul_pow2 by lia. unfold wrap. replace 32 with (k + (32 - k)) at 1 by lia.
    rewrite Z.pow_add_r, Z.mul_comm by lia. apply Z.mul_mod_distr_l; lia. }
  rewrite !Hsh, !shiftr_div by lia.
  assert (B1 : 0 <= h1 / 2 ^ 6 < 2 ^ 20) by (split; [apply Z.div_pos|apply Z.div_lt_upper_bound]; lia).
  assert (B2 : 0 <= h2 / 2 ^ 12 < 2 ^ 14) by (split; [apply Z.div_pos|apply Z.div_lt_upper_bound]; lia).
  assert (B3 : 0 <= h3 / 2 ^ 18 < 2 ^ 8) by (split; [apply Z.div_pos|apply Z.div_lt_upper_bound]; lia).
  rewrite !lor_add_low by lia. change (2 ^ (32 - 26)) with (2 ^ 6). change (2 ^ (32 - 20)) with (2 ^ 12). change (2 ^ (32 - 14)) with (2 ^ 18).
  change (2 ^ (32 - 8)) with (2 ^ 24).
  pose proof (Z.mod_pos_bound h1 (2 ^ 6)). pose proof (Z.mod_pos_bound h2 (2 ^ 12)). pose proof (Z.mod_pos_bound h3 (2 ^ 18)). pose proof (Z.mod_pos_bound h4 (2 ^ 24)).
  pose proof (Z.div_mod h1 (2 ^ 6)). pose proof (Z.div_mod h2 (2 ^ 12)). pose proof (Z.div_mod h3 (2 ^ 18)). pose proof (Z.div_mod h4 (2 ^ 24)).
  split_and!; try lia. exists (h4 / 2 ^ 24). unfold val. lia.
Qed.

(** Addition word by word, modulo [2^128]. *)
Lemma words_add w0 w1 w2 w3 s0 s1 s2 s3 :
  0 <= w0 < 2 ^ 32 -> 0 <= w1 < 2 ^ 32 -> 0 <= w2 < 2 ^ 32 -> 0 <= w3 < 2 ^ 32 ->
  0 <= s0 < 2 ^ 32 -> 0 <= s1 < 2 ^ 32 -> 0 <= s2 < 2 ^ 32 -> 0 <= s3 < 2 ^ 32 ->
  let f0 := u64 (w0 + s0) in let f1 := u64 (w1 + s1 + Z.shiftr f0 32) in
  let f2 := u64 (w2 + s2 + Z.shiftr f1 32) in let f3 := u64 (w3 + s3 + Z.shiftr f2 32) in
  u32 f0 + 2 ^ 32 * (u32 f1 + 2 ^ 32 * (u32 f2 + 2 ^ 32 * u32 f3)) =
  (w0 + 2 ^ 32 * w1 + 2 ^ 64 * w2 + 2 ^ 96 * w3 + (s0 + 2 ^ 32 * (s1 + 2 ^ 32 * (s2 + 2 ^ 32 * s3)))) mod 2 ^ 128.
Proof.
  intros W0 W1 W2 W3 S0 S1 S2 S3. assert (Hsplit : forall z, exists c e, Z.shiftr z 32 = c /\ u32 z = e /\ z = 2 ^ 32 * c + e /\ 0 <= e < 2 ^ 32).
  { intros z. exists (z / 2 ^ 32), (z mod 2 ^ 32). rewrite shiftr_div by lia. unfold wrap. split_and!; [done|done|by apply Z.div_mod|..]; by apply Z.mod_pos_bound. }
  cbv zeta. rewrite (wrap_le 64 (w0 + s0) (2 ^ 34)) by lia. destruct (Hsplit (w0 + s0)) as (c0 & e0 & -> & -> & ? & ?).
  rewrite (wrap_le 64 (w1 + s1 + c0) (2 ^ 34)) by lia. destruct (Hsplit (w1 + s1 + c0)) as (c1 & e1 & -> & -> & ? & ?).
  rewrite (wrap_le 64 (w2 + s2 + c1) (2 ^ 34)) by lia. destruct (Hsplit (w2 + s2 + c1)) as (c2 & e2 & -> & -> & ? & ?).
  rewrite (wrap_le 64 (w3 + s3 + c2) (2 ^ 34)) by lia. destruct (Hsplit (w3 + s3 + c2)) as (c3 & e3 & _ & -> & ? & ?).
  apply (Z.mod_unique _ _ c3); [left|]; lia.
Qed.

Lemma from_le_words b : bytes_ok b -> length b = 16%nat ->
  from_le b = le32 b 0 + 2 ^ 32 * (le32 b 4 + 2 ^ 32 * (le32 b 8 + 2 ^ 32 * le32 b 12)) /\ forall k, (k <= 12)%nat -> 0 <= le32 b k < 2 ^ 32.
Proof.
  intros Hb Hl. split.
  - do 17 (destruct b as [|? b]; [try (cbn in Hl; lia)|]); [|cbn in Hl; lia]. cbn. lia.
  - intros k Hk. unfold le32. pose proof (from_le_bound (take 4 (drop k b)) (bytes_ok_take _ _ (bytes_ok_drop _ _ Hb))) as Hv.
    rewrite length_take, length_drop, Hl, Nat.min_l in Hv by lia. exact Hv.
Qed.

Lemma poly_tag_spec key h :
  bytes_ok key -> length key = 32%nat -> canonical h -> poly_tag key h = to_le 16 (val h + from_le (take 16 (drop 16 key))).
Proof.
  intros Hk Hl Hh. destruct h as [[[[h0 h1] h2] h3] h4]. unfold poly_tag.
  destruct (poly_words h0 h1 h2 h3 h4 Hh) as (W0 & W1 & W2 & W3 & q & Hw).
  set (b := take 16 (drop 16 key)). assert (Hb : bytes_ok b) by by apply bytes_ok_take, bytes_ok_drop.
  assert (Hbl : length b = 16%nat) by (unfold b; rewrite length_take, length_drop; lia).
  destruct (from_le_words b Hb Hbl) as [Hs Hbound].
  assert (Hword : forall k, (k <= 12)%nat -> le32 key (16 + k) = le32 b k).
  { intros k Hk'. unfold le32, b. rewrite skipn_firstn_comm, take_take, drop_drop. by rewrite Nat.min_l by lia. }
  pose proof (Hword 0%nat ltac:(lia)) as E0. pose proof (Hword 4%nat ltac:(lia)) as E1. pose proof (Hword 8%nat ltac:(lia)) as E2.
  pose proof (Hword 12%nat ltac:(lia)) as E3. cbn [Nat.add] in E0, E1, E2, E3. rewrite E0, E1, E2, E3.
  pose proof (words_add _ _ _ _ _ _ _ _ W0 W1 W2 W3 (Hbound 0%nat ltac:(lia)) (Hbound 4%nat ltac:(lia)) (Hbound 8%nat ltac:(lia)) (Hbound 12%nat ltac:(lia))) as Hadd.
  cbv zeta in Hadd. rewrite <- Hs, Hw in Hadd. set (f0 := u64 _) in *. set (f1 := u64 (_ + _ + Z.shiftr f0 32)) in *.
  set (f2 := u64 (_ + _ + Z.shiftr f1 32)) in *. set (f3 := u64 (_ + _ + Z.shiftr f2 32)) in *.
  apply from_le_inj; [repeat (apply bytes_ok_app; split); apply bytes_ok_to_le|apply bytes_ok_to_le|by rewrite !length_app, !length_to_le|].
  rewrite !from_le_app, !length_to_le, !from_to_le. change (pow256 4) with (2 ^ 32). change (pow256 16) with (2 ^ 128).
  assert (Hmod : forall z, u32 z mod 2 ^ 32 = u32 z) by (intros z; apply Z.mod_small; by apply Z.mod_pos_bound).
  rewrite !Hmod, Hadd. replace (val (h0, h1, h2, h3, h4) - 2 ^ 128 * q + from_le b) with (val (h0, h1, h2, h3, h4) + from_le b + (- q) * 2 ^ 128) by ring.
  by apply Z.mod_add.
Qed.

(** ** The theorem *)

Lemma chunks_of_spec {A} (n : nat) (l : list A) : forall fuel, (0 < n)%nat -> (length l <= fuel)%nat ->
  concat (chunks_of fuel n l) = l /\ Forall (fun c => 0 < length c <= n)%nat (chunks_of fuel n l).
Proof.
  intros fuel Hn. revert l. induction fuel as [|fuel IH]; intros l Hl; [by destruct l; [|cbn in Hl; lia]|].
  destruct l as [|x l]; [done|]. cbn [chunks_of concat]. destruct (IH (drop n (x :: l))) as [Hc Hf]; [rewrite length_drop; cbn in *; lia|].
  rewrite Hc, take_drop. split; [done|]. constructor; [|done]. rewrite length_take. cbn. lia.
Qed.

Lemma chunks_spec {A} (n : nat) (l : list A) : (0 < n)%nat ->
  concat (chunks n l) = l /\ Forall (fun c => 0 < length c <= n)%nat (chunks n l).
Proof. intros Hn. by apply chunks_of_spec. Qed.

Lemma poly_fold_spec r rv (l : list bytes) : forall h acc,
  below (2 ^ 26) r -> rv = val r -> reduced h -> val h mod P1305 = acc mod P1305 -> Forall (fun c => bytes_ok c /\ length c <= 16)%nat l ->
  reduced (foldl (poly_step r) h l) /\
  val (foldl (poly_step r) h l) mod P1305 = foldl (fun acc block => (acc + from_le (block ++ [1])) * rv mod P1305) acc l mod P1305.
Proof.
  induction l as [|b l IH]; intros h acc Hr -> Hh Hacc Hl; cbn [foldl]; [done|]. apply Forall_cons in Hl as [[Hb Hb16] Hl].
  destruct (poly_step_spec r h b Hr Hh Hb Hb16) as [Hred Hval]. apply IH; [done|done|done| |done].
  rewrite Hval, Z.mod_mod by done. rewrite Z.mul_mod, Z.add_mod, Hacc, <- Z.add_mod, <- Z.mul_mod by done. done.
Qed.

(** C25: The limb arithmetic of [poly1305_mac], with its 32- and 64-bit words that
    wrap around, computes the Poly1305 tag of RFC 8439 for every 32-byte key
    and every message. *)
Theorem poly1305_mac_exact (key msg : bytes) :
  bytes_ok key -> length key = 32%nat -> bytes_ok msg -> poly1305_mac key msg = poly1305 key msg.
Proof.
  intros Hk Hl Hm. unfold poly1305_mac, poly1305. destruct (poly_r_spec key Hk Hl) as [Hr Hrv].
  assert (Hch : Forall (fun c => bytes_ok c /\ length c <= 16)%nat (chunks 16 msg)).
  { destruct (chunks_spec 16 msg ltac:(lia)) as [Hc Hf]. rewrite Forall_forall in Hf |- *. intros c Hin. split; [|by apply Hf].
    unfold bytes_ok in *. rewrite <- Hc in Hm. apply Forall_concat in Hm. rewrite Forall_forall in Hm. by apply Hm. }
  destruct (poly_fold_spec _ _ _ (0, 0, 0, 0, 0) 0 Hr (eq_sym Hrv) ltac:(cbn; lia) eq_refl Hch) as [Hred Hval].
  destruct (poly_carry_spec _ Hred) as [Hcan [q Hq]]. destruct (poly_freeze_spec _ Hcan) as [Hcan' Hfz].
  rewrite (poly_tag_spec key _ Hk Hl Hcan'), Hfz, Hq. f_equal. f_equal.
  replace (_ - P1305 * q) with (val (foldl (poly_step (poly_r key)) (0, 0, 0, 0, 0) (chunks 16 msg)) + (- q) * P1305) by ring.
  rewrite Z.mod_add, Hval by done. destruct (chunks 16 msg) as [|b l] using rev_ind; [done|]. rewrite foldl_app. cbn [foldl]. by rewrite Z.mod_mod.
Qed.

(** The test vector of RFC 8439, section 2.5.2. *)
Definition rfc_key : bytes :=
  [0x85; 0xd6; 0xbe; 0x78; 0x57; 0x55; 0x6d; 0x33; 0x7f; 0x44; 0x52; 0xfe; 0x42; 0xd5; 0x06; 0xa8;
   0x01; 0x03; 0x80; 0x8a; 0xfb; 0x0d; 0xb2; 0xfd; 0x4a; 0xbf; 0xf6; 0xaf; 0x41; 0x49; 0xf5; 0x1b].
Definition rfc_msg : bytes :=
  [67; 114; 121; 112; 116; 111; 103; 114; 97; 112; 104; 105; 99; 32; 70; 111; 114; 117; 109; 32;
   82; 101; 115; 101; 97; 114; 99; 104; 32; 71; 114; 111; 117; 112].

Lemma poly1305_mac_exact_witness :
  poly1305 rfc_key rfc_msg = [0xa8; 0x06; 0x1d; 0xc1; 0x30; 0x51; 0x36; 0xc6; 0xc2; 0x2b; 0x8b; 0xaf; 0x0c; 0x01; 0x27; 0xa9].
Proof.
  rewrite <- (poly1305_mac_exact rfc_key rfc_msg); [vm_compute; reflexivity| | |].
  - apply bytes_okb_ok. reflexivity.
  - reflexivity.
  - apply bytes_okb_ok. reflexivity.
Defined.
