(* ===== verification/WireCodec.v ===== *)
(** * The wire format of messages

    [bitcoinpr-p2p/src/codec.rs] and [error.rs]: a message is a 24-byte header
    and a payload; the header is checked before the payload is read.  The
    connection is what the peer has sent and what has been sent to it; waiting
    for more bytes is not modelled. *)

From Stdlib Require Import ZArith Lia Ascii String.
From stdpp Require Import base option numbers list strings.
From S2P Require Import Prelude Bytes Types Store.

Inductive P2pError : Type :=
| Io (e : string)
| Connection (e : string)
| Protocol (e : string)
| HandshakeFailed (e : string)
| Timeout (e : string)
| PeerBanned (e : string)
| P2pSerialization (e : string)
| DnsResolution (e : string).

(** ** Streams *)

Record Link := mkLink {
  incoming : bytes;   (* sent by the peer and not yet read *)
  outgoing : bytes;   (* written so far *)
  writable : bool     (* the peer still accepts bytes *) }.

Abbreviation LM := (stm Link P2pError).

Definition read_exact (n : nat) (error : string) : LM bytes := fun k =>
  if (length (incoming k) <? n)%nat then (mkLink [] (outgoing k) (writable k), Err (Connection error))
  else (mkLink (drop n (incoming k)) (outgoing k) (writable k), Ok (take n (incoming k))).

Definition write_all (data : bytes) (error : string) : LM unit := fun k =>
  if writable k then (mkLink (incoming k) (outgoing k ++ data) true, Ok tt) else (k, Err (Connection error)).

(** ** Messages *)

(** [RawNetworkMessage] of the [bitcoin] crate. *)
Class MsgLib := {
  RawNetworkMessage : Type;
  consensus_encode : RawNetworkMessage -> bytes;
  consensus_decode : bytes -> option RawNetworkMessage }.

Definition MAX_MESSAGE_SIZE : Z := 32 * 1024 * 1024.
Definition MAX_BLOCK_PAYLOAD : Z := 4000000 + 8 * 1024.
Definition MAX_TX_PAYLOAD : Z := 1000000.
Definition MAX_HEADERS_PAYLOAD : Z := 170000.
Definition MAX_INV_PAYLOAD : Z := 1900000.
Definition MAX_ADDR_PAYLOAD : Z := 100000.
Definition MAX_LOCATOR_PAYLOAD : Z := 8000.
Definition MAX_DEFAULT_PAYLOAD : Z := 64 * 1024.
Definition READ_CHUNK_SIZE : Z := 256 * 1024.

(** The bytes before the first NUL. *)
Fixpoint until_nul (b : bytes) : bytes :=
  match b with
  | [] => []
  | x :: b => if x =? 0 then [] else x :: until_nul b
  end.

Definition max_payload_for_command (command : bytes) : Z :=
  let c := until_nul command in
  let named s := bool_decide (c = ascii_bytes s) in
  if named "block" then MAX_BLOCK_PAYLOAD
  else if named "tx" then MAX_TX_PAYLOAD
  else if named "headers" then MAX_HEADERS_PAYLOAD
  else if named "inv" || named "getdata" || named "notfound" then MAX_INV_PAYLOAD
  else if named "addr" || named "addrv2" then MAX_ADDR_PAYLOAD
  else if named "getheaders" || named "getblocks" then MAX_LOCATOR_PAYLOAD
  else MAX_DEFAULT_PAYLOAD.

Section Codec.
Context `{HM : MsgLib}.

Record MessageCodec := mkMessageCodec { magic : Z }.

(** The payload arrives in chunks; [payload_len / READ_CHUNK_SIZE + 1] reads
    are enough. *)
Fixpoint read_payload (fuel : nat) (payload_len : Z) (payload : bytes) : LM bytes :=
  match fuel with
  | O => mret payload
  | S fuel =>
      if len payload <? payload_len then
        chunk ← read_exact (Z.to_nat (Z.min (payload_len - len payload) READ_CHUNK_SIZE)) "failed to read message payload";
        read_payload fuel payload_len (payload ++ chunk)
      else mret payload
  end.

Definition read_message (c : MessageCodec) : LM (RawNetworkMessage * bytes) :=
  header_buf ← read_exact 24 "failed to read message header";
  _ ← lift (guard_err (negb (bool_decide (take 4 header_buf = to_le 4 (magic c)))) (Protocol "bad network magic"));
  let payload_len := from_le (take 4 (drop 16 header_buf)) in
  _ ← lift (guard_err (payload_len >? MAX_MESSAGE_SIZE) (Protocol "message payload too large"));
  let command := take 12 (drop 4 header_buf) in
  let cap := max_payload_for_command command in
  _ ← lift (guard_err (payload_len >? cap) (Protocol "payload too large for command"));
  payload ← read_payload (Z.to_nat (payload_len / READ_CHUNK_SIZE + 1)) payload_len [];
  msg ← lift (ok_or (consensus_decode (header_buf ++ payload)) (P2pSerialization "decode message"));
  mret (msg, payload).

Definition write_message (msg : RawNetworkMessage) : LM unit :=
  write_all (consensus_encode msg) "failed to write message".
End Codec.
