(* ===== verification/V2Session.v ===== *)
(** * Sessions of the encrypted transport

    [bitcoinpr-p2p/src/v2_transport.rs], second part: key material, the key
    derivation of both roles, the two halves of a session, and the encryption
    and decryption of packets.  The ElligatorSwift exchange and HMAC are
    parameters. *)

From Stdlib Require Import ZArith Lia Ascii String.
From stdpp Require Import base option numbers list strings.
From S2P Require Import Prelude Bytes Types Store WireCodec V2Cipher.

(** ** Session keys *)

(** [bitcoin_hashes] and [secp256k1]: HMAC-SHA256, and ElligatorSwift with its
    BIP 324 shared secret of the two encodings, a secret key and the side it
    belongs to. *)
Class V2Crypto := {
  SecretKey : Type;
  hmac_sha256 : bytes -> bytes -> bytes;
  ellswift_from_seckey : SecretKey -> bytes;
  ellswift_shared_secret : bytes -> bytes -> SecretKey -> bool -> bytes }.

Section Keys.
Context `{HV : V2Crypto}.

Record V2KeyMaterial := mkKeyMaterial { secret_key : SecretKey; elligatorsw_pubkey : bytes }.
(** The random choice of the secret key is the argument. *)
Definition generate (sk : SecretKey) : V2KeyMaterial := mkKeyMaterial sk (ellswift_from_seckey sk).

Definition hkdf_extract (salt ikm : bytes) : bytes := hmac_sha256 salt ikm.
Definition hkdf_expand (prk info : bytes) : bytes := hmac_sha256 prk (info ++ [1]).

Record DerivedKeys := mkDerived {
  initiator_l : bytes;
  initiator_p : bytes;
  responder_l : bytes;
  responder_p : bytes;
  garbage_terminators : bytes;
  dk_session_id : bytes }.

Definition derive_keys (shared_secret network_magic : bytes) : DerivedKeys :=
  let prk := hkdf_extract (ascii_bytes "bitcoin_v2_shared_secret" ++ network_magic) shared_secret in
  mkDerived (hkdf_expand prk (ascii_bytes "initiator_L")) (hkdf_expand prk (ascii_bytes "initiator_P"))
    (hkdf_expand prk (ascii_bytes "responder_L")) (hkdf_expand prk (ascii_bytes "responder_P"))
    (hkdf_expand prk (ascii_bytes "garbage_terminators")) (hkdf_expand prk (ascii_bytes "session_id")).

Record V2SessionKeys := mkSession {
  session_id : bytes;
  send_garbage_terminator : bytes;
  recv_garbage_terminator : bytes;
  send_l : FsChaCha20;
  send_p : FsChaCha20Poly1305;
  recv_l : FsChaCha20;
  recv_p : FsChaCha20Poly1305 }.

Definition derive (shared_secret network_magic : bytes) (is_initiator : bool) : V2SessionKeys :=
  let keys := derive_keys shared_secret network_magic in
  let initiator_term := take 16 (garbage_terminators keys) in
  let responder_term := drop 16 (garbage_terminators keys) in
  if is_initiator then
    mkSession (dk_session_id keys) initiator_term responder_term
      (FsChaCha20_new (initiator_l keys)) (FsChaCha20Poly1305_new (initiator_p keys))
      (FsChaCha20_new (responder_l keys)) (FsChaCha20Poly1305_new (responder_p keys))
  else
    mkSession (dk_session_id keys) responder_term initiator_term
      (FsChaCha20_new (responder_l keys)) (FsChaCha20Poly1305_new (responder_p keys))
      (FsChaCha20_new (initiator_l keys)) (FsChaCha20Poly1305_new (initiator_p keys)).

Definition ecdh_shared_secret (our_secret : SecretKey) (our_es peer_es : bytes) (initiator : bool) : option bytes :=
  let '(ell_a, ell_b) := if initiator then (our_es, peer_es) else (peer_es, our_es) in
  Some (ellswift_shared_secret ell_a ell_b our_secret initiator).

(** *** The transport object *)

Inductive V2State : Type := AwaitingKeys | AwaitingVersion | Established | FallbackV1.

Record V2Transport := mkTransport {
  state : V2State;
  keys : option V2SessionKeys;
  is_initiator : bool;
  our_key_material : V2KeyMaterial;
  garbage : bytes;
  network_magic : bytes }.

Definition new_initiator (network_magic : bytes) (km : V2KeyMaterial) : V2Transport := mkTransport AwaitingKeys None true km [] network_magic.
Definition new_responder (network_magic : bytes) (km : V2KeyMaterial) : V2Transport := mkTransport AwaitingKeys None false km [] network_magic.
Definition our_pubkey (t : V2Transport) : bytes := elligatorsw_pubkey (our_key_material t).

Definition process_peer_pubkey (peer_pubkey : bytes) (t : V2Transport) : V2Transport * bool :=
  match ecdh_shared_secret (secret_key (our_key_material t)) (elligatorsw_pubkey (our_key_material t)) peer_pubkey (is_initiator t) with
  | Some shared =>
      (mkTransport AwaitingVersion (Some (derive shared (network_magic t) (is_initiator t))) (is_initiator t) (our_key_material t) (garbage t) (network_magic t), true)
  | None => (t, false)
  end.

Definition take_keys (peer_pubkey : bytes) (t : V2Transport) : V2Transport * option V2SessionKeys :=
  let '(t, ok) := process_peer_pubkey peer_pubkey t in
  if negb ok then (t, None)
  else (mkTransport (state t) None (is_initiator t) (our_key_material t) (garbage t) (network_magic t), keys t).
End Keys.

(** ** Packets *)

Definition MAX_CONTENTS_LEN : Z := 2 ^ 24 - 1.
Definition LENGTH_FIELD_LEN : nat := 3.
Definition HEADER_LEN : nat := 1.
Definition IGNORE_BIT : Z := 0x80.

(** The cipher pair of one direction: [V2Sender] and [V2Receiver]. *)
Record Half := mkHalf { half_l : FsChaCha20; half_p : FsChaCha20Poly1305 }.

Definition encrypt_half (header : Z) (contents aad : bytes) (h : Half) : Half * bytes :=
  let '(p, aead_ciphertext) := encrypt aad (header :: contents) (half_p h) in
  let '(l, enc_len) := crypt (take LENGTH_FIELD_LEN (to_le 4 (u32 (len contents)))) (half_l h) in
  (mkHalf l p, enc_len ++ aead_ciphertext).

(** [decrypt_len] and [decrypt_packet_len] *)
Definition decrypt_len (enc_len : bytes) (h : Half) : Half * Z :=
  let '(l, dec) := crypt enc_len (half_l h) in
  (mkHalf l (half_p h), Z.lor (Z.lor (nth 0 dec 0) (Z.shiftl (nth 1 dec 0) 8)) (Z.shiftl (nth 2 dec 0) 16)).

Definition decrypt_packet (aead_ciphertext aad : bytes) (h : Half) : Half * option (bool * bytes) :=
  let '(p, plaintext) := decrypt aad aead_ciphertext (half_p h) in
  (mkHalf (half_l h) p,
   match plaintext with
   | Some (x :: contents) => Some (negb (Z.land x IGNORE_BIT =? 0), contents)
   | _ => None
   end).

Definition send_half (k : V2SessionKeys) : Half := mkHalf (send_l k) (send_p k).
Definition recv_half (k : V2SessionKeys) : Half := mkHalf (recv_l k) (recv_p k).
Definition into_halves (k : V2SessionKeys) : Half * Half := (send_half k, recv_half k).
Definition set_send (k : V2SessionKeys) (h : Half) : V2SessionKeys :=
  mkSession (session_id k) (send_garbage_terminator k) (recv_garbage_terminator k) (half_l h) (half_p h) (recv_l k) (recv_p k).
Definition set_recv (k : V2SessionKeys) (h : Half) : V2SessionKeys :=
  mkSession (session_id k) (send_garbage_terminator k) (recv_garbage_terminator k) (send_l k) (send_p k) (half_l h) (half_p h).

(** [V2SessionKeys::encrypt_packet]; [None] is the assertion on the length. *)
Definition session_encrypt_packet (contents aad : bytes) (ignore : bool) (k : V2SessionKeys) : V2SessionKeys * option bytes :=
  if len contents >? MAX_CONTENTS_LEN then (k, None)
  else let '(h, out) := encrypt_half (if ignore then IGNORE_BIT else 0) contents aad (send_half k) in (set_send k h, Some out).

(** [V2Sender::encrypt_packet] *)
Definition sender_encrypt_packet (contents : bytes) (h : Half) : Half * bytes := encrypt_half 0 contents [] h.
