(* ===== verification/V2Channel.v ===== *)
(** * Messages over the encrypted transport

    [v2_transport.rs] (message types) and [bitcoinpr-p2p/src/transport.rs]: the
    short message ids, the framing of messages inside packets, the handshake of
    both roles on a connection, and the two sides that carry messages. *)

From Stdlib Require Import ZArith Lia Ascii String.
From stdpp Require Import base option numbers list strings.
From S2P Require Import Prelude Bytes Types Store WireCodec V2Cipher V2Session.

(** ** Short message ids *)

Inductive ShortMsgId : Type :=
| IdAddr | IdBlock | IdBlocktxn | IdCmpctBlock | IdFeeFilter | IdFilterAdd | IdFilterClear
| IdFilterLoad | IdGetBlocks | IdGetBlockTxn | IdGetData | IdGetHeaders | IdHeaders | IdInv
| IdMempool | IdMerkleBlock | IdNotFound | IdPing | IdPong | IdSendCmpct | IdTx
| IdGetCFilters | IdCFilter | IdGetCFHeaders | IdCFHeaders | IdGetCFCheckPt | IdCFCheckPt | IdAddrv2.

(** [self as u8]: the discriminants. *)
Definition short_id_u8 (id : ShortMsgId) : Z :=
  match id with
  | IdAddr => 1 | IdBlock => 2 | IdBlocktxn => 3 | IdCmpctBlock => 4 | IdFeeFilter => 5 | IdFilterAdd => 6 | IdFilterClear => 7
  | IdFilterLoad => 8 | IdGetBlocks => 9 | IdGetBlockTxn => 10 | IdGetData => 11 | IdGetHeaders => 12 | IdHeaders => 13 | IdInv => 14
  | IdMempool => 15 | IdMerkleBlock => 16 | IdNotFound => 17 | IdPing => 18 | IdPong => 19 | IdSendCmpct => 20 | IdTx => 21
  | IdGetCFilters => 22 | IdCFilter => 23 | IdGetCFHeaders => 24 | IdCFHeaders => 25 | IdGetCFCheckPt => 26 | IdCFCheckPt => 27 | IdAddrv2 => 28
  end.

Definition command_table : list (string * ShortMsgId) :=
    [("addr", IdAddr); ("block", IdBlock); ("blocktxn", IdBlocktxn); ("cmpctblock", IdCmpctBlock); ("feefilter", IdFeeFilter);
     ("filteradd", IdFilterAdd); ("filterclear", IdFilterClear); ("filterload", IdFilterLoad); ("getblocks", IdGetBlocks); ("getblocktxn", IdGetBlockTxn);
     ("getdata", IdGetData); ("getheaders", IdGetHeaders); ("headers", IdHeaders); ("inv", IdInv); ("mempool", IdMempool);
     ("merkleblock", IdMerkleBlock); ("notfound", IdNotFound); ("ping", IdPing); ("pong", IdPong); ("sendcmpct", IdSendCmpct);
     ("tx", IdTx); ("getcfilters", IdGetCFilters); ("cfilter", IdCFilter); ("getcfheaders", IdGetCFHeaders); ("cfheaders", IdCFHeaders);
     ("getcfcheckpt", IdGetCFCheckPt); ("cfcheckpt", IdCFCheckPt); ("addrv2", IdAddrv2)].
Definition from_command (cmd : bytes) : option ShortMsgId :=
  (fun r => r.2.2) <$> list_find (fun p : string * ShortMsgId => cmd = ascii_bytes p.1) command_table.

Definition command_for_id (id : Z) : option bytes :=
  ascii_bytes <$> (if id <=? 0 then None else
    ["addr"; "block"; "blocktxn"; "cmpctblock"; "feefilter"; "filteradd"; "filterclear"; "filterload";
     "getblocks"; "getblocktxn"; "getdata"; "getheaders"; "headers"; "inv"; "mempool"; "merkleblock";
     "notfound"; "ping"; "pong"; "sendcmpct"; "tx"; "getcfilters"; "cfilter"; "getcfheaders";
     "cfheaders"; "getcfcheckpt"; "cfcheckpt"; "addrv2"] !! Z.to_nat (id - 1)).

Definition from_u8 (id : Z) : option ShortMsgId := command_for_id id ≫= from_command.
(** Every id has a command. *)
Definition to_command (id : ShortMsgId) : bytes := default [] (command_for_id (short_id_u8 id)).

(** ** [String::from_utf8_lossy] *)

Definition between (lo hi x : Z) : bool := (lo <=? x) && (x <=? hi).
(** The allowed second byte after a leading byte, and the continuation bytes
    after that. *)
Definition utf8_lead (b : Z) : option (Z * Z * nat) :=
  if between 0xc2 0xdf b then Some (0x80, 0xbf, 0%nat)
  else if b =? 0xe0 then Some (0xa0, 0xbf, 1%nat)
  else if b =? 0xed then Some (0x80, 0x9f, 1%nat)
  else if between 0xe1 0xef b then Some (0x80, 0xbf, 1%nat)
  else if b =? 0xf0 then Some (0x90, 0xbf, 2%nat)
  else if between 0xf1 0xf3 b then Some (0x80, 0xbf, 2%nat)
  else if b =? 0xf4 then Some (0x80, 0x8f, 2%nat)
  else None.

(** The longest part of a sequence that is valid, and whether it is complete. *)
Fixpoint utf8_tail (n : nat) (b : bytes) : nat * bool :=
  match n, b with
  | O, _ => (0%nat, true)
  | S n, x :: b => if between 0x80 0xbf x then let '(k, ok) := utf8_tail n b in (S k, ok) else (0%nat, false)
  | S _, [] => (0%nat, false)
  end.
Definition utf8_seq (lead : Z) (rest : bytes) : nat * bool :=
  match utf8_lead lead, rest with
  | Some (lo, hi, n), x :: rest => if between lo hi x then let '(k, ok) := utf8_tail n rest in (S k, ok) else (0%nat, false)
  | _, _ => (0%nat, false)
  end.

(** An invalid part becomes U+FFFD; the input shrinks in every round. *)
Fixpoint utf8_lossy (fuel : nat) (b : bytes) : bytes :=
  match fuel, b with
  | S fuel, x :: rest =>
      if x <? 0x80 then x :: utf8_lossy fuel rest
      else
        let '(k, ok) := utf8_seq x rest in
        (if ok then x :: take k rest else [0xef; 0xbf; 0xbd]) ++ utf8_lossy fuel (drop k rest)
  | _, _ => []
  end.
Definition from_utf8_lossy (b : bytes) : bytes := utf8_lossy (length b) b.

(** ** Packet contents *)

Inductive V2MessageType : Type := Short (id : Z) | Full (cmd : bytes).
Record V2Packet := mkPacket { ignore : bool; msg_type : V2MessageType; payload : bytes }.

(** A 12-byte command field. *)
Definition cmd_field (cmd : bytes) : bytes := take 12 cmd ++ replicate (12 - length cmd) 0.

Definition encode_contents (p : V2Packet) : bytes :=
  match msg_type p with
  | Short id => [id]
  | Full cmd => 0 :: cmd_field cmd
  end ++ payload p.

Definition decode_contents (data : bytes) (ignore : bool) : option V2Packet :=
  match data with
  | [] => None
  | type_byte :: rest =>
      if type_byte =? 0 then
        if len data <? 13 then None
        else Some (mkPacket ignore (Full (from_utf8_lossy (until_nul (take 12 rest)))) (drop 12 rest))
      else Some (mkPacket ignore (Short type_byte) rest)
  end.

Section Channel.
Context `{HH : Hashes} `{HM : MsgLib} `{HV : V2Crypto}.

Definition split_v1_message (msg : RawNetworkMessage) : result P2pError (bytes * bytes) :=
  let buf := consensus_encode msg in
  _ ← guard_err (len buf <? 24) (P2pSerialization "short v1 frame");
  Ok (from_utf8_lossy (until_nul (take 12 (drop 4 buf))), drop 24 buf).

Definition encode_v2_contents (msg : RawNetworkMessage) : result P2pError bytes :=
  '(command, payload) ← split_v1_message msg;
  let msg_type := match from_command command with Some id => Short (short_id_u8 id) | None => Full command end in
  Ok (encode_contents (mkPacket false msg_type payload)).

Definition decode_v2_contents (magic contents : bytes) : result P2pError (RawNetworkMessage * bytes) :=
  packet ← ok_or (decode_contents contents false) (Protocol "malformed v2 packet contents");
  command ← match msg_type packet with
            | Short id => id ← ok_or (from_u8 id) (Protocol "unknown v2 short msg id"); Ok (to_command id)
            | Full cmd => Ok cmd
            end;
  _ ← guard_err (len command >? 12) (Protocol "v2 command too long");
  let payload := payload packet in
  let cap := max_payload_for_command (cmd_field command) in
  _ ← guard_err (len payload >? cap) (Protocol "v2 payload too large");
  let frame := magic ++ cmd_field command ++ to_le 4 (u32 (len payload)) ++ take 4 (sha256d payload) ++ payload in
  msg ← ok_or (consensus_decode frame) (P2pSerialization "decode v2 message");
  Ok (msg, payload).

(** ** Send and receive sides *)

Definition MAX_GARBAGE_LEN : Z := 4095.
Definition GARBAGE_TERM_LEN : nat := 16.
Definition MAX_V2_CONTENTS : Z := 4000000 + 8 * 1024.

(** The bytes by which the responder recognises a plain connection. *)
Definition v1_version_prefix (magic : bytes) : bytes := magic ++ ascii_bytes "version" ++ replicate 5 0.

Inductive SendTransport : Type := SendV1 (codec : MessageCodec) | SendV2 (sender : Half).
Inductive RecvTransport : Type := RecvV1 (codec : MessageCodec) | RecvV2 (recv : Half) (magic : bytes).

(** A computation on the connection that also owns the ciphers. *)
Definition on_link {S A} (m : LM A) : stm (S * Link) P2pError A := fun '(s, k) => let '(k, r) := m k in ((s, k), r).
Definition on_state {S A} (f : S -> S * A) : stm (S * Link) P2pError A := fun '(s, k) => let '(s, a) := f s in ((s, k), Ok a).

Definition send (msg : RawNetworkMessage) : stm (SendTransport * Link) P2pError unit := fun '(t, k) =>
  match t with
  | SendV1 _ => let '(k, r) := write_message msg k in ((t, k), r)
  | SendV2 sender =>
      match encode_v2_contents msg with
      | Err e => ((t, k), Err e)
      | Ok contents =>
          let '(sender, packet) := sender_encrypt_packet contents sender in
          let '(k, r) := write_all packet "v2 write" k in ((SendV2 sender, k), r)
      end
  end.

(** One packet: the length, the body, and its authentication with [aad]. *)
Definition read_packet (aad : bytes) (e_len e_large e_body e_auth : string) : stm (Half * Link) P2pError (bool * bytes) :=
  enc_len ← on_link (read_exact LENGTH_FIELD_LEN e_len);
  contents_len ← on_state (decrypt_len enc_len);
  _ ← lift (guard_err (contents_len >? MAX_V2_CONTENTS) (Protocol e_large));
  let total := (Z.to_nat contents_len + HEADER_LEN + AEAD_TAG_LEN)%nat in
  body ← on_link (read_exact total e_body);
  r ← on_state (decrypt_packet body aad);
  lift (ok_or r (Protocol e_auth)).

(** Decoys are skipped.  A packet takes at least 20 bytes of the input, so its
    length bounds the rounds: without fuel nothing is left to read. *)
Fixpoint read_v2_packet (fuel : nat) : stm (Half * Link) P2pError bytes :=
  match fuel with
  | O => _ ← on_link (read_exact LENGTH_FIELD_LEN "v2 read len"); mret []
  | S fuel =>
      '(ignore, contents) ← read_packet [] "v2 read len" "v2 packet contents too large" "v2 read body" "v2 packet auth failed";
      if (ignore : bool) then read_v2_packet fuel else mret contents
  end.

(** Packets without contents are skipped too. *)
Fixpoint recv_v2 (fuel : nat) (magic : bytes) : stm (Half * Link) P2pError (RawNetworkMessage * bytes) :=
  match fuel with
  | O => _ ← on_link (read_exact LENGTH_FIELD_LEN "v2 read len"); lift (Err (Connection "v2 read len"))
  | S fuel =>
      n ← gets (fun s : Half * Link => length (incoming s.2));
      contents ← read_v2_packet n;
      if bool_decide (contents = []) then recv_v2 fuel magic else lift (decode_v2_contents magic contents)
  end.

Definition recv : stm (RecvTransport * Link) P2pError (RawNetworkMessage * bytes) := fun '(t, k) =>
  match t with
  | RecvV1 codec => let '(k, r) := read_message codec k in ((t, k), r)
  | RecvV2 half magic => let '((half, k), r) := recv_v2 (length (incoming k)) magic (half, k) in ((RecvV2 half magic, k), r)
  end.

(** ** Handshake *)

(** Byte by byte until the terminator; [window] is what has been read. *)
Fixpoint scan_terminator (terminator window inp : bytes) : bytes * result P2pError bytes :=
  match inp with
  | [] => ([], Err (Connection "v2 garbage read"))
  | byte :: inp =>
      let window := window ++ [byte] in
      let n := length window in
      if (GARBAGE_TERM_LEN <=? n)%nat && bool_decide (drop (n - GARBAGE_TERM_LEN) window = terminator)
      then (inp, Ok (take (n - GARBAGE_TERM_LEN) window))
      else if len window >? MAX_GARBAGE_LEN + Z.of_nat GARBAGE_TERM_LEN then (inp, Err (Protocol "v2 garbage terminator not found"))
      else scan_terminator terminator window inp
  end.
Definition read_until_terminator (terminator : bytes) : LM bytes := fun k =>
  let '(inp, r) := scan_terminator terminator [] (incoming k) in (mkLink inp (outgoing k) (writable k), r).

(** Packets until the first that is not a decoy; the first is authenticated
    with the garbage. *)
Fixpoint read_version_packet (fuel : nat) (aad : bytes) : stm (Half * Link) P2pError unit :=
  match fuel with
  | O => _ ← on_link (read_exact LENGTH_FIELD_LEN "v2 hs read len"); mret tt
  | S fuel =>
      '(ignore, _) ← read_packet aad "v2 hs read len" "v2 hs packet too large" "v2 hs read body" "v2 hs auth failed";
      if (ignore : bool) then read_version_packet fuel [] else mret tt
  end.

Definition await_version (keys : V2SessionKeys) (peer_garbage : bytes) : LM (Half * Half) := fun k =>
  match read_version_packet (length (incoming k)) peer_garbage (recv_half keys, k) with
  | ((h, k), Ok tt) => (k, Ok (into_halves (set_recv keys h)))
  | ((_, k), Err e) => (k, Err e)
  end.

Definition finish_v2 (keys : V2SessionKeys) : LM (Half * Half) :=
  _ ← write_all (send_garbage_terminator keys) "v2 send term";
  let '(keys, version_pkt) := session_encrypt_packet [] [] false keys in
  _ ← write_all (default [] version_pkt) "v2 send version";
  peer_garbage ← read_until_terminator (recv_garbage_terminator keys);
  await_version keys peer_garbage.

Definition initiate_v2 (km : V2KeyMaterial) (magic : bytes) : LM (Half * Half) :=
  let transport := new_initiator magic km in
  _ ← write_all (our_pubkey transport) "v2 send key";
  peer_key ← read_exact 64 "v2 read peer key";
  keys ← lift (ok_or (take_keys peer_key transport).2 (Protocol "v2 ECDH/key derivation failed"));
  finish_v2 keys.

Definition respond_v2 (km : V2KeyMaterial) (magic : bytes) : LM (Half * Half) :=
  let transport := new_responder magic km in
  peer_key ← read_exact 64 "v2 read peer key";
  let '(transport, keys) := take_keys peer_key transport in
  keys ← lift (ok_or keys (Protocol "v2 ECDH/key derivation failed"));
  _ ← write_all (our_pubkey transport) "v2 send key";
  finish_v2 keys.
End Channel.
