(* ===== verification/V2Proofs.v ===== *)
(** * The encrypted transport delivers what was sent

    The ciphers undo themselves, the two ends of a connection keep the same
    cipher states, the handshake of both roles ends with matching halves, and
    messages arrive unchanged and in order. *)

From Stdlib Require Import ZArith Lia Ascii String.
From stdpp Require Import base option numbers list strings.
From S2P Require Import Prelude Bytes Types Store WireCodec V2Cipher Poly1305 V2Session V2Channel.

(** ** The stream cipher *)

Lemma lxor_twice a b : Z.lxor a (Z.lxor a b) = b.
Proof. by rewrite <- Z.lxor_assoc, Z.lxor_nilpotent, Z.lxor_0_l. Qed.

Lemma zip_lxor_left (ks c : bytes) : (length c <= length ks)%nat -> zip_with Z.lxor ks (zip_with Z.lxor ks c) = c.
Proof.
  revert c. induction ks as [|k ks IH]; intros [|x c] Hl; cbn in *; [done|lia|done|]. by rewrite lxor_twice, IH by lia.
Qed.

Lemma zip_lxor_comm (a b : bytes) : zip_with Z.lxor a b = zip_with Z.lxor b a.
Proof. revert b. induction a as [|x a IH]; intros [|y b]; cbn; [done..|]. by rewrite Z.lxor_comm, IH. Qed.

Lemma zip_lxor_right (c ks : bytes) : (length c <= length ks)%nat -> zip_with Z.lxor (zip_with Z.lxor c ks) ks = c.
Proof. intros Hl. rewrite (zip_lxor_comm c ks), (zip_lxor_comm _ ks). by apply zip_lxor_left. Qed.

Lemma length_chacha20_block key nonce counter : length (chacha20_block key nonce counter) = 64%nat.
Proof. reflexivity. Qed.
#[local] Opaque chacha20_block.

Lemma xor_chunks_length key nonce : forall fuel data counter, (length data <= fuel)%nat ->
  length (xor_chunks key nonce counter (chunks_of fuel 64 data)) = length data.
Proof.
  induction fuel as [|fuel IH]; intros data counter Hl; [by destruct data; [|cbn in Hl; lia]|].
  destruct data as [|x data]; [done|]. cbn [chunks_of xor_chunks]. set (d := x :: data) in *.
  rewrite length_app, length_zip_with, length_take, length_chacha20_block, IH by (rewrite length_drop; unfold d in *; cbn in *; lia).
  rewrite length_drop. lia.
Qed.

Lemma xor_chunks_twice key nonce : forall fuel data counter, (length data <= fuel)%nat ->
  xor_chunks key nonce counter (chunks_of fuel 64 (xor_chunks key nonce counter (chunks_of fuel 64 data))) = data.
Proof.
  induction fuel as [|fuel IH]; intros data counter Hl; [by destruct data; [|cbn in Hl; lia]|].
  destruct data as [|x data]; [done|]. set (d := x :: data) in *. assert (Hd : (0 < length d)%nat) by (cbn; lia).
  change (chunks_of (S fuel) 64 d) with (take 64 d :: chunks_of fuel 64 (drop 64 d)). cbn [xor_chunks].
  set (z := zip_with Z.lxor (take 64 d) _). set (c1 := u32 (counter + 1)). set (rest := xor_chunks key nonce c1 _).
  assert (Hz : length z = Nat.min 64 (length d)) by (unfold z; rewrite length_zip_with, length_take, length_chacha20_block; lia).
  assert (Hrest : length rest = (length d - 64)%nat) by (unfold rest; rewrite xor_chunks_length, length_drop by (rewrite length_drop; lia); done).
  assert (Htake : take 64 (z ++ rest) = z).
  { destruct (decide (64 <= length d)%nat); [by rewrite take_app_length' by lia|].
    rewrite (nil_length_inv rest), app_nil_r by lia. apply take_ge. lia. }
  assert (Hdrop : drop 64 (z ++ rest) = rest).
  { destruct (decide (64 <= length d)%nat); [by rewrite drop_app_length' by lia|].
    rewrite (nil_length_inv rest), app_nil_r by lia. apply drop_ge. lia. }
  destruct (z ++ rest) as [|y zr] eqn:Hzr; [apply (f_equal length) in Hzr; rewrite length_app, Hz in Hzr; cbn [length] in Hzr; lia|].
  change (chunks_of (S fuel) 64 (y :: zr)) with (take 64 (y :: zr) :: chunks_of fuel 64 (drop 64 (y :: zr))).
  rewrite Htake, Hdrop. cbn [xor_chunks]. unfold z. rewrite zip_lxor_right by (rewrite length_take, length_chacha20_block; lia).
  unfold rest. rewrite IH by (rewrite length_drop; lia). apply take_drop.
Qed.

Lemma length_chacha20_xor key nonce counter data : length (chacha20_xor key nonce counter data) = length data.
Proof. unfold chacha20_xor. by apply xor_chunks_length. Qed.

Lemma chacha20_xor_twice key nonce counter data : chacha20_xor key nonce counter (chacha20_xor key nonce counter data) = data.
Proof. unfold chacha20_xor at 1. unfold chunks. rewrite length_chacha20_xor. by apply xor_chunks_twice. Qed.

(** ** The AEAD *)

Lemma length_poly1305_mac key msg : length (poly1305_mac key msg) = 16%nat.
Proof. unfold poly1305_mac, poly_tag. destruct (poly_freeze _) as [[[[? ?] ?] ?] ?]. by rewrite !length_app, !length_to_le. Qed.

Lemma tag_diff_zero (a b : bytes) : length a = length b -> tag_diff a b = 0 <-> a = b.
Proof.
  unfold tag_diff. assert (Hgen : forall a b z, length a = length b -> foldl (fun diff '(a, b) => Z.lor diff (Z.lxor a b)) z (zip a b) = 0 <-> z = 0 /\ a = b).
  { clear. induction a as [|x a IH]; intros [|y b] z Hl; try done; cbn in *; [naive_solver|]. rewrite IH by lia.
    rewrite Z.lor_eq_0_iff, Z.lxor_eq_0_iff. naive_solver. }
  intros Hl. rewrite Hgen by done. naive_solver.
Qed.

Lemma aead_encrypt_length key nonce aad pt : length (aead_chacha20_poly1305_encrypt key nonce aad pt) = (length pt + 16)%nat.
Proof.
  unfold aead_chacha20_poly1305_encrypt, chacha20_poly1305_tag. by rewrite length_app, length_chacha20_xor, length_poly1305_mac.
Qed.

Lemma aead_roundtrip key nonce aad pt :
  aead_chacha20_poly1305_decrypt key nonce aad (aead_chacha20_poly1305_encrypt key nonce aad pt) = Some pt.
Proof.
  unfold aead_chacha20_poly1305_decrypt. rewrite aead_encrypt_length. destruct (Nat.ltb_spec (length pt + 16) AEAD_TAG_LEN) as [Hlt|_]; [unfold AEAD_TAG_LEN in Hlt; lia|].
  replace (length pt + 16 - AEAD_TAG_LEN)%nat with (length pt) by (unfold AEAD_TAG_LEN; lia).
  unfold aead_chacha20_poly1305_encrypt. rewrite take_app_length', drop_app_length' by by rewrite length_chacha20_xor.
  set (tag := chacha20_poly1305_tag _ _ _ _). assert (Hd : tag_diff tag tag = 0) by by apply tag_diff_zero.
  by rewrite Hd, chacha20_xor_twice.
Qed.

(** An accepted ciphertext carries the tag of RFC 8439. *)
Lemma aead_authentic key nonce aad ct pt :
  aead_chacha20_poly1305_decrypt key nonce aad ct = Some pt -> ct = aead_chacha20_poly1305_encrypt key nonce aad pt.
Proof.
  unfold aead_chacha20_poly1305_decrypt. destruct (Nat.ltb_spec (length ct) AEAD_TAG_LEN) as [|Hl]; [done|]. unfold AEAD_TAG_LEN in *.
  set (n := (length ct - 16)%nat). set (tag := chacha20_poly1305_tag _ _ _ _).
  destruct (Z.eqb_spec (tag_diff tag (drop n ct)) 0) as [Hd|]; [|done]. cbn [negb]. intros [= <-].
  apply tag_diff_zero in Hd; [|unfold tag, chacha20_poly1305_tag; rewrite length_poly1305_mac, length_drop; unfold n; lia].
  unfold aead_chacha20_poly1305_encrypt. rewrite chacha20_xor_twice. fold tag. by rewrite Hd, take_drop.
Qed.

(** ** The rekeying ciphers *)

Lemma fill_keystream_enough n s : forall fuel, (n <= fuel + length (keystream s))%nat -> (n <= length (keystream (fill_keystream fuel n s)))%nat.
Proof.
  intros fuel. revert s. induction fuel as [|fuel IH]; intros s Hf; [done|]. cbn [fill_keystream].
  destruct (Nat.ltb_spec (length (keystream s)) n); [|done]. apply IH. cbn [keystream]. rewrite length_app, length_chacha20_block. lia.
Qed.

Lemma get_keystream_length n s : length (get_keystream_bytes n s).2 = n.
Proof. unfold get_keystream_bytes. cbn [snd]. pose proof (fill_keystream_enough n s n ltac:(lia)). rewrite length_take. lia. Qed.

Lemma crypt_length chunk s : length (crypt chunk s).2 = length chunk.
Proof.
  unfold crypt. pose proof (get_keystream_length (length chunk) s) as Hl. destruct (get_keystream_bytes (length chunk) s) as [s1 ks].
  cbn [snd] in *. rewrite length_zip_with. lia.
Qed.

(** Decryption is encryption, and leaves the same state. *)
Lemma crypt_twice chunk s : crypt (crypt chunk s).2 s = ((crypt chunk s).1, chunk).
Proof.
  pose proof (crypt_length chunk s) as Hlen. unfold crypt at 1. rewrite Hlen. unfold crypt in *.
  pose proof (get_keystream_length (length chunk) s) as Hl. destruct (get_keystream_bytes (length chunk) s) as [s1 ks]. cbn [fst snd] in *.
  by rewrite zip_lxor_left by lia.
Qed.

Lemma decrypt_encrypt aad pt s : decrypt aad (encrypt aad pt s).2 s = ((encrypt aad pt s).1, Some pt).
Proof. unfold decrypt, encrypt. cbn [fst snd]. by rewrite aead_roundtrip. Qed.

(** ** Packets *)

Lemma three_bytes n : 0 <= n < 2 ^ 24 ->
  let b := take LENGTH_FIELD_LEN (to_le 4 (u32 n)) in
  length b = 3%nat /\ Z.lor (Z.lor (nth 0 b 0) (Z.shiftl (nth 1 b 0) 8)) (Z.shiftl (nth 2 b 0) 16) = n.
Proof.
  intros Hn. rewrite (wrap_small 32 n) by (unfold fits; lia). unfold LENGTH_FIELD_LEN. cbn [to_le take nth length]. split; [done|].
  rewrite !Z.shiftl_mul_pow2, !(Z.mul_comm _ (2 ^ _)) by lia. rewrite !lor_add_low.
  - rewrite !Z.div_div by lia. Z.div_mod_to_equations. lia.
  - lia.
  - by apply Z.mod_pos_bound.
  - lia.
  - rewrite lor_add_low by (lia || by apply Z.mod_pos_bound). Z.div_mod_to_equations. lia.
Qed.

(** What one half encrypts, the matching half decrypts, and both end in the
    same state. *)
Lemma packet_roundtrip (ignore : bool) (contents aad : bytes) (h : Half) :
  len contents < 2 ^ 24 ->
  let '(h', out) := encrypt_half (if ignore then IGNORE_BIT else 0) contents aad h in
  exists enc_len body, out = enc_len ++ body /\ length enc_len = 3%nat /\ length body = (length contents + 17)%nat /\
    decrypt_len enc_len h = (mkHalf (half_l h') (half_p h), len contents) /\
    decrypt_packet body aad (mkHalf (half_l h') (half_p h)) = (h', Some (ignore, contents)).
Proof.
  intros Hlen. unfold encrypt_half. set (header := if ignore then IGNORE_BIT else 0).
  pose proof (decrypt_encrypt aad (header :: contents) (half_p h)) as Hp.
  assert (Hbody : length (encrypt aad (header :: contents) (half_p h)).2 = (length contents + 17)%nat)
    by (unfold encrypt; cbn [snd]; rewrite aead_encrypt_length; cbn; lia).
  destruct (encrypt aad (header :: contents) (half_p h)) as [p' ct]. cbn [fst snd] in *.
  pose proof (len_nonneg contents). destruct (three_bytes (len contents) ltac:(lia)) as [Hb3 Hval]. set (b := take LENGTH_FIELD_LEN _) in *.
  pose proof (crypt_twice b (half_l h)) as Hl. pose proof (crypt_length b (half_l h)) as Hll. destruct (crypt b (half_l h)) as [l' enc]. cbn [fst snd] in *.
  exists enc, ct. split_and!; [done|lia|done| |].
  - unfold decrypt_len. by rewrite Hl, Hval.
  - unfold decrypt_packet. cbn [half_p half_l]. rewrite Hp. do 3 f_equal. unfold header. by destruct ignore.
Qed.

Lemma run_bind {S E A B} (m : stm S E A) (f : A -> stm S E B) s s' a : m s = (s', Ok a) -> (m ≫= f) s = f a s'.
Proof. intros Hm. unfold mbind, stm_bind. by rewrite Hm. Qed.

Lemma read_exact_app (n : nat) e (a b out : bytes) w :
  length a = n -> read_exact n e (mkLink (a ++ b) out w) = (mkLink b out w, Ok a).
Proof.
  intros Hl. unfold read_exact. cbn [incoming outgoing writable]. destruct (Nat.ltb_spec (length (a ++ b)) n) as [Hlt|_]; [rewrite length_app in Hlt; lia|].
  by rewrite take_app_length', drop_app_length'.
Qed.

Lemma read_packet_spec (ignore : bool) (contents aad : bytes) e1 e2 e3 e4 (h : Half) rest out w :
  len contents <= MAX_V2_CONTENTS ->
  let '(h', pkt) := encrypt_half (if ignore then IGNORE_BIT else 0) contents aad h in
  read_packet aad e1 e2 e3 e4 (h, mkLink (pkt ++ rest) out w) = ((h', mkLink rest out w), Ok (ignore, contents)) /\ (20 <= length pkt)%nat.
Proof.
  intros Hlen. assert (Hlen24 : len contents < 2 ^ 24) by (unfold MAX_V2_CONTENTS in Hlen; lia).
  pose proof (packet_roundtrip ignore contents aad h Hlen24) as Hrt. destruct (encrypt_half _ contents aad h) as [h' pkt].
  destruct Hrt as (enc & body & -> & Hel & Hbl & Hdl & Hdp). split; [|rewrite length_app; lia].
  unfold read_packet. rewrite <- app_assoc.
  rewrite (run_bind _ _ _ (h, mkLink (body ++ rest) out w) enc) by (unfold on_link; by rewrite read_exact_app).
  rewrite (run_bind _ _ _ (mkHalf (half_l h') (half_p h), mkLink (body ++ rest) out w) (len contents)) by (unfold on_state; by rewrite Hdl).
  destruct (Z.gtb_spec (len contents) MAX_V2_CONTENTS) as [|_]; [lia|]. cbn [guard_err]. rewrite (run_bind _ _ _ _ tt) by done.
  rewrite (run_bind _ _ _ (mkHalf (half_l h') (half_p h), mkLink rest out w) body)
    by (unfold on_link; rewrite read_exact_app by (unfold HEADER_LEN, AEAD_TAG_LEN; rewrite to_nat_len; lia); done).
  rewrite (run_bind _ _ _ (h', mkLink rest out w) (Some (ignore, contents))) by (unfold on_state; by rewrite Hdp). done.
Qed.

(** ** Messages inside packets *)

Lemma until_nul_app cmd n : Forall (fun b => 0 < b < 128) cmd -> until_nul (cmd ++ replicate n 0) = cmd.
Proof.
  induction 1 as [|b cmd Hb _ IH]; [by destruct n|]. cbn. destruct (Z.eqb_spec b 0); [lia|]. by rewrite IH.
Qed.

Lemma utf8_lossy_ascii cmd : Forall (fun b => 0 < b < 128) cmd -> from_utf8_lossy cmd = cmd.
Proof.
  unfold from_utf8_lossy. induction 1 as [|b cmd Hb _ IH]; [done|]. cbn [utf8_lossy length].
  destruct (Z.ltb_spec b 0x80); [|lia]. by rewrite IH.
Qed.

Lemma cmd_field_short cmd : (length cmd <= 12)%nat -> cmd_field cmd = cmd ++ replicate (12 - length cmd) 0 /\ length (cmd_field cmd) = 12%nat.
Proof. intros Hl. unfold cmd_field. rewrite take_ge by done. split; [done|]. rewrite length_app, length_replicate. lia. Qed.

(** The two tables of the source agree. *)
Lemma command_table_agrees :
  Forall (fun p : string * ShortMsgId => from_u8 (short_id_u8 p.2) = Some p.2 /\ to_command p.2 = ascii_bytes p.1 /\ 0 < short_id_u8 p.2 < 256) command_table.
Proof. repeat (apply Forall_cons; split; [split_and!; [vm_compute; reflexivity..|cbn; lia|cbn; lia]|]). constructor. Qed.

Lemma from_command_spec cmd id : from_command cmd = Some id -> from_u8 (short_id_u8 id) = Some id /\ to_command id = cmd /\ 0 < short_id_u8 id < 256.
Proof.
  unfold from_command. destruct (list_find _ _) as [[i p]|] eqn:Hf; [|done]. cbn. intros [= <-].
  apply list_find_Some in Hf as (Hi & -> & _). pose proof command_table_agrees as Ht. rewrite Forall_lookup in Ht. by apply (Ht i p).
Qed.

(** The frame of the plain protocol. *)
Definition v1_frame `{Hashes} (mag cmd payload : bytes) : bytes :=
  mag ++ cmd_field cmd ++ to_le 4 (u32 (len payload)) ++ take 4 (sha256d payload) ++ payload.

(** Documented behaviour of [RawNetworkMessage]: it is encoded as a frame,
    decoding inverts encoding, and commands are ASCII. *)
Class MsgLaws `{HH : Hashes} `{HM : MsgLib} := {
  msg_magic : RawNetworkMessage -> bytes;
  msg_command : RawNetworkMessage -> bytes;
  msg_payload : RawNetworkMessage -> bytes;
  magic_length m : length (msg_magic m) = 4%nat;
  command_ascii m : Forall (fun b => 0 < b < 128) (msg_command m) /\ (length (msg_command m) <= 12)%nat;
  encode_frame m : consensus_encode m = v1_frame (msg_magic m) (msg_command m) (msg_payload m);
  decode_encode m : consensus_decode (consensus_encode m) = Some m;
  sha256d_length b : length (sha256d b) = 32%nat }.

Section Messages.
Context `{HH : Hashes} `{HM : MsgLib} `{HL : !MsgLaws}.
Implicit Types m : RawNetworkMessage.

(** A message of our network within the size limits of both formats. *)
Definition sendable (mag : bytes) m : Prop :=
  msg_magic m = mag /\ len (msg_payload m) <= max_payload_for_command (cmd_field (msg_command m)) /\
  len (msg_payload m) + 13 <= MAX_V2_CONTENTS.

Lemma frame_parts m :
  let buf := consensus_encode m in
  len buf >= 24 /\ take 4 buf = msg_magic m /\ take 12 (drop 4 buf) = cmd_field (msg_command m) /\
  take 4 (drop 16 buf) = to_le 4 (u32 (len (msg_payload m))) /\ drop 24 buf = msg_payload m.
Proof.
  cbv zeta. rewrite encode_frame. unfold v1_frame. pose proof (magic_length m) as Hm. destruct (command_ascii m) as [_ Hc].
  destruct (cmd_field_short _ Hc) as [_ Hf]. set (f := cmd_field _) in *. set (n := to_le 4 _). assert (Hn : length n = 4%nat) by apply length_to_le.
  set (h := take 4 (sha256d _)). assert (Hh : length h = 4%nat) by (unfold h; rewrite length_take, sha256d_length; lia).
  split_and!.
  - unfold len. rewrite !length_app. lia.
  - by rewrite take_app_length'.
  - rewrite drop_app_length' by done. by rewrite take_app_length'.
  - rewrite (app_assoc (msg_magic m)), drop_app_length' by (rewrite length_app; lia). by rewrite take_app_length'.
  - rewrite !app_assoc, drop_app_length'; [done|]. rewrite !length_app. lia.
Qed.

Lemma split_v1_message_spec m : split_v1_message m = Ok (msg_command m, msg_payload m).
Proof.
  destruct (frame_parts m) as (Hlen & _ & Hcmd & _ & Hpay). destruct (command_ascii m) as [Ha Hc]. unfold split_v1_message.
  destruct (Z.ltb_spec (len (consensus_encode m)) 24); [lia|]. cbn [guard_err mbind result_bind].
  rewrite Hcmd, Hpay, (proj1 (cmd_field_short _ Hc)), until_nul_app, utf8_lossy_ascii by done. done.
Qed.

Lemma contents_roundtrip mag m :
  sendable mag m -> exists contents, encode_v2_contents m = Ok contents /\ contents <> [] /\ len contents <= MAX_V2_CONTENTS /\
    decode_v2_contents mag contents = Ok (m, msg_payload m).
Proof.
  intros (Hmag & Hcap & Hmax). destruct (command_ascii m) as [Ha Hc]. destruct (cmd_field_short _ Hc) as [Hf Hfl].
  unfold encode_v2_contents. rewrite split_v1_message_spec. cbn [mbind result_bind]. eexists. split; [done|].
  assert (Hfin : (_ ← guard_err (len (msg_command m) >? 12) (Protocol "v2 command too long");
     _ ← guard_err (len (msg_payload m) >? max_payload_for_command (cmd_field (msg_command m))) (Protocol "v2 payload too large");
     msg ← ok_or (consensus_decode (mag ++ cmd_field (msg_command m) ++ to_le 4 (u32 (len (msg_payload m))) ++ take 4 (sha256d (msg_payload m)) ++ msg_payload m))
       (P2pSerialization "decode v2 message"); Ok (msg, msg_payload m)) = Ok (m, msg_payload m)).
  { destruct (Z.gtb_spec (len (msg_command m)) 12); [unfold len in *; lia|]. destruct (Z.gtb_spec (len (msg_payload m)) (max_payload_for_command (cmd_field (msg_command m)))); [lia|].
    cbn [guard_err mbind result_bind]. rewrite <- Hmag. fold (v1_frame (msg_magic m) (msg_command m) (msg_payload m)). by rewrite <- encode_frame, decode_encode. }
  destruct (from_command (msg_command m)) as [id|] eqn:Hid.
  - destruct (from_command_spec _ _ Hid) as (Hu8 & Hto & Hr). unfold encode_contents. cbn [msg_type payload app].
    split_and!; [done|rewrite len_cons; lia|]. unfold decode_v2_contents, decode_contents. destruct (Z.eqb_spec (short_id_u8 id) 0); [lia|].
    cbn [ok_or mbind result_bind msg_type payload]. rewrite Hu8. cbn [ok_or mbind result_bind]. rewrite Hto. exact Hfin.
  - unfold encode_contents. cbn [msg_type payload app]. set (f := cmd_field (msg_command m)) in *. split_and!; [done|rewrite len_cons, len_app; unfold len in *; lia|].
    unfold decode_v2_contents, decode_contents. cbn [Z.eqb]. destruct (Z.ltb_spec (len (0 :: f ++ msg_payload m)) 13) as [Hlt|_].
    { rewrite len_cons, len_app in Hlt. unfold len in *. lia. }
    rewrite take_app_length', drop_app_length' by done. cbn [ok_or mbind result_bind msg_type payload].
    rewrite Hf, until_nul_app, utf8_lossy_ascii by done. fold f. exact Hfin.
Qed.

(** ** Plain frames *)

Lemma read_payload_spec : forall fuel n acc p rest out w,
  len acc + len p = n -> len p <= Z.of_nat fuel * READ_CHUNK_SIZE ->
  read_payload fuel n acc (mkLink (p ++ rest) out w) = (mkLink rest out w, Ok (acc ++ p)).
Proof.
  induction fuel as [|fuel IH]; intros n acc p rest out w Hn Hf; cbn [read_payload].
  { pose proof (len_nonneg p). assert (p = []) as -> by (apply nil_length_inv; unfold len in *; lia). by rewrite app_nil_r. }
  destruct (Z.ltb_spec (len acc) n).
  - set (k := Z.to_nat (Z.min (n - len acc) READ_CHUNK_SIZE)). assert (Hk : (k <= length p)%nat) by (unfold k, READ_CHUNK_SIZE, len in *; lia).
    rewrite (run_bind _ _ _ (mkLink (drop k p ++ rest) out w) (take k p)).
    2: { rewrite <- (take_drop k p) at 1. rewrite <- app_assoc. apply read_exact_app. rewrite length_take. lia. }
    rewrite IH; [by rewrite <- app_assoc, take_drop|unfold len in *; rewrite length_app, length_take, length_drop; lia|].
    unfold len in *. rewrite length_drop. unfold k, READ_CHUNK_SIZE in *. lia.
  - pose proof (len_nonneg p). assert (p = []) as -> by (apply nil_length_inv; unfold len in *; lia). by rewrite app_nil_r.
Qed.

Lemma read_message_spec (c : MessageCodec) m rest out w :
  sendable (to_le 4 (magic c)) m -> read_message c (mkLink (consensus_encode m ++ rest) out w) = (mkLink rest out w, Ok (m, msg_payload m)).
Proof.
  intros (Hmag & Hcap & Hmax). destruct (frame_parts m) as (Hlen & Hm & Hcmd & Hsz & Hpay). set (buf := consensus_encode m) in *.
  pose proof (len_nonneg (msg_payload m)) as Hn0. unfold read_message.
  assert (Hhl : length (take 24 buf) = 24%nat) by (rewrite length_take; unfold len in *; lia).
  rewrite (run_bind _ _ _ (mkLink (msg_payload m ++ rest) out w) (take 24 buf))
    by (rewrite <- (take_drop 24 buf) at 1; rewrite <- app_assoc, Hpay; by apply read_exact_app).
  assert (Hpart : forall i n, (i + n <= 24)%nat -> take n (drop i (take 24 buf)) = take n (drop i buf))
    by (intros i n Hin; rewrite skipn_firstn_comm, take_take; f_equal; lia).
  rewrite (Hpart 16%nat 4%nat), (Hpart 4%nat 12%nat), Hcmd, Hsz by lia.
  rewrite bool_decide_eq_true_2 by (rewrite <- Hmag, <- Hm, take_take; done). cbn [negb guard_err]. rewrite (run_bind _ _ _ _ tt) by done.
  rewrite from_to_le, (wrap_small 32) by (unfold fits, MAX_V2_CONTENTS in *; lia). change (pow256 4) with (2 ^ 32). rewrite Z.mod_small by (unfold MAX_V2_CONTENTS in *; lia).
  destruct (Z.gtb_spec (len (msg_payload m)) MAX_MESSAGE_SIZE); [unfold MAX_MESSAGE_SIZE, MAX_V2_CONTENTS in *; lia|]. cbn [guard_err]. rewrite (run_bind _ _ _ _ tt) by done.
  destruct (Z.gtb_spec (len (msg_payload m)) (max_payload_for_command (cmd_field (msg_command m)))); [lia|]. cbn [guard_err]. rewrite (run_bind _ _ _ _ tt) by done.
  rewrite (run_bind _ _ _ (mkLink rest out w) (msg_payload m)).
  2: { apply (read_payload_spec _ _ []); [done|]. unfold READ_CHUNK_SIZE. rewrite Z2Nat.id by (pose proof (Z.div_pos (len (msg_payload m)) (256 * 1024)); lia).
       pose proof (Z.div_mod (len (msg_payload m)) (256 * 1024)). pose proof (Z.mod_pos_bound (len (msg_payload m)) (256 * 1024)). lia. }
  rewrite <- Hpay, take_drop. unfold buf. rewrite decode_encode. by rewrite (run_bind _ _ _ (mkLink rest out w) m).
Qed.

(** ** Either transport *)

(** The receiving side matches the sending side. *)
Definition paired (mag : bytes) (s : SendTransport) (r : RecvTransport) : Prop :=
  match s, r with
  | SendV1 _, RecvV1 c => mag = to_le 4 (magic c)
  | SendV2 h, RecvV2 h' mag' => h = h' /\ mag' = mag
  | _, _ => False
  end.

Lemma recv_v2_spec (h : Half) mag m contents rest out w :
  contents <> [] -> len contents <= MAX_V2_CONTENTS -> decode_v2_contents mag contents = Ok (m, msg_payload m) ->
  let '(h', pkt) := sender_encrypt_packet contents h in
  recv_v2 (length (pkt ++ rest)) mag (h, mkLink (pkt ++ rest) out w) = ((h', mkLink rest out w), Ok (m, msg_payload m)).
Proof.
  intros Hne Hlen Hdec. unfold sender_encrypt_packet.
  pose proof (read_packet_spec false contents [] "v2 read len" "v2 packet contents too large" "v2 read body" "v2 packet auth failed" h rest out w Hlen) as Hp.
  cbn iota in Hp. destruct (encrypt_half 0 contents [] h) as [h' pkt]. destruct Hp as [Hp H20].
  destruct (length (pkt ++ rest)) as [|n] eqn:Hn; [rewrite length_app in Hn; lia|]. cbn [recv_v2].
  rewrite (run_bind _ _ _ (h, mkLink (pkt ++ rest) out w) (S n)) by (unfold gets; cbn [snd incoming]; by rewrite Hn).
  rewrite (run_bind _ _ _ (h', mkLink rest out w) contents).
  - rewrite bool_decide_eq_false_2 by done. unfold lift. by rewrite Hdec.
  - cbn [read_v2_packet]. by rewrite (run_bind _ _ _ _ _ Hp).
Qed.

Lemma message_arrives mag s r m inp :
  paired mag s r -> sendable mag m ->
  exists s' r' pkt, (forall out, send m (s, mkLink inp out true) = ((s', mkLink inp (out ++ pkt) true), Ok tt)) /\ paired mag s' r' /\
    forall rest out w, recv (r, mkLink (pkt ++ rest) out w) = ((r', mkLink rest out w), Ok (m, msg_payload m)).
Proof.
  intros Hp Hs. destruct s as [c|h], r as [c'|h2 mag2]; try done.
  - cbn in Hp. exists (SendV1 c), (RecvV1 c'), (consensus_encode m). split_and!; [done|done|]. intros rest out w. subst mag.
    unfold recv. by rewrite read_message_spec.
  - destruct Hp as [<- ->]. destruct (contents_roundtrip mag m Hs) as (contents & Henc & Hne & Hlen & Hdec).
    pose proof (fun rest out w => recv_v2_spec h mag m contents rest out w Hne Hlen Hdec) as Hrecv. unfold send. rewrite Henc.
    destruct (sender_encrypt_packet contents h) as [h' pkt]. exists (SendV2 h'), (RecvV2 h' mag), pkt.
    split_and!; [done|done|]. intros rest out w. unfold recv. cbn [incoming]. by rewrite Hrecv.
Qed.

(** All the messages of a list. *)
Definition send_all (ms : list RawNetworkMessage) : stm (SendTransport * Link) P2pError unit := foldS (fun _ m => send m) tt ms.
Fixpoint recv_n (n : nat) : stm (RecvTransport * Link) P2pError (list RawNetworkMessage) :=
  match n with
  | O => mret []
  | S n => '(m, _) ← recv; ms ← recv_n n; mret (m :: ms)
  end.

Lemma messages_arrive mag (ms : list RawNetworkMessage) : forall s r inp,
  paired mag s r -> Forall (sendable mag) ms ->
  exists s' r' bytes, (forall out, send_all ms (s, mkLink inp out true) = ((s', mkLink inp (out ++ bytes) true), Ok tt)) /\ paired mag s' r' /\
    forall rest out w, recv_n (length ms) (r, mkLink (bytes ++ rest) out w) = ((r', mkLink rest out w), Ok ms).
Proof.
  induction ms as [|m ms IH]; intros s r inp Hp Hms.
  { exists s, r, []. split_and!; [intros out; by rewrite app_nil_r|done|done]. }
  apply Forall_cons in Hms as [Hm Hms]. destruct (message_arrives mag s r m inp Hp Hm) as (s1 & r1 & pkt & Hsend & Hp1 & Hrecv).
  destruct (IH s1 r1 inp Hp1 Hms) as (s2 & r2 & bs & Hsend2 & Hp2 & Hrecv2). exists s2, r2, (pkt ++ bs). split_and!; [|done|].
  - intros out. unfold send_all. cbn [foldS]. rewrite (run_bind _ _ _ _ tt (Hsend out)). rewrite app_assoc. apply Hsend2.
  - intros rest out w. cbn [recv_n length]. rewrite <- app_assoc. rewrite (run_bind _ _ _ _ _ (Hrecv (bs ++ rest) out w)).
    by rewrite (run_bind _ _ _ _ _ (Hrecv2 rest out w)).
Qed.
End Messages.

(** ** The handshake *)

(** The terminator is found where the garbage ends. *)
Lemma scan_terminator_spec term g rest :
  length term = 16%nat -> len g <= MAX_GARBAGE_LEN -> (forall n, (n < length g)%nat -> take 16 (drop n (g ++ term)) <> term) ->
  scan_terminator term [] (g ++ term ++ rest) = (rest, Ok g).
Proof.
  intros Ht Hg Hno. unfold MAX_GARBAGE_LEN in Hg. assert (Hgen : forall t w, w ++ t = g ++ term -> t <> [] -> scan_terminator term w (t ++ rest) = (rest, Ok g)).
  { induction t as [|b t IH]; intros w Hw Hne; [done|]. cbn [scan_terminator app]. set (w' := w ++ [b]).
    assert (Hw' : w' ++ t = g ++ term) by (unfold w'; by rewrite <- app_assoc).
    assert (Hlen : (length w' + length t = length g + 16)%nat) by (rewrite <- length_app, Hw', length_app; lia).
    unfold GARBAGE_TERM_LEN. destruct (Nat.leb_spec 16 (length w')) as [H16|H16]; cbn [andb]; [case_bool_decide as Hd|].
    - assert (Hpos : take 16 (drop (length w' - 16) (g ++ term)) = term)
        by (rewrite <- Hw', drop_app_le by lia; rewrite Hd, take_app_le by lia; by apply take_ge; lia).
      destruct (decide (length w' - 16 < length g)%nat) as [Hlt|Hge]; [by apply Hno in Hlt|].
      assert (Ht0 : t = []) by (apply nil_length_inv; lia). subst t. rewrite app_nil_r in Hw'. rewrite Hw', take_app_length' by (rewrite length_app; lia). done.
    - destruct (Z.gtb_spec (len w') (MAX_GARBAGE_LEN + Z.of_nat 16)) as [Hbig|_]; [unfold MAX_GARBAGE_LEN, len in *; lia|].
      apply IH; [done|]. intros ->. apply Hd. rewrite app_nil_r in Hw'. rewrite Hw', drop_app_length' by (rewrite length_app; lia). done.
    - destruct (Z.gtb_spec (len w') (MAX_GARBAGE_LEN + Z.of_nat 16)) as [Hbig|_]; [unfold MAX_GARBAGE_LEN, len in *; lia|].
      apply IH; [done|]. intros ->. cbn in Hlen. lia. }
  rewrite app_assoc. apply Hgen; [done|]. intros Hnil. apply (f_equal length) in Hnil. rewrite length_app in Hnil. cbn in Hnil. lia.
Qed.

(** Decoys and then the version packet; the garbage authenticates the first. *)
Fixpoint opening (decoys : list bytes) (version aad : bytes) (h : Half) : Half * bytes :=
  match decoys with
  | [] => encrypt_half 0 version aad h
  | d :: decoys =>
      let '(h, pkt) := encrypt_half IGNORE_BIT d aad h in
      let '(h, rest) := opening decoys version [] h in (h, pkt ++ rest)
  end.

Lemma read_opening decoys version : forall aad h rest out w fuel,
  Forall (fun d => len d <= MAX_V2_CONTENTS) (version :: decoys) ->
  let '(h', bs) := opening decoys version aad h in
  (length decoys < fuel)%nat -> read_version_packet fuel aad (h, mkLink (bs ++ rest) out w) = ((h', mkLink rest out w), Ok tt).
Proof.
  induction decoys as [|d decoys IH]; intros aad h rest out w fuel Hall; cbn [opening].
  - apply Forall_cons in Hall as [Hv _].
    pose proof (read_packet_spec false version aad "v2 hs read len" "v2 hs packet too large" "v2 hs read body" "v2 hs auth failed" h rest out w Hv) as Hp.
    cbn iota in Hp. destruct (encrypt_half 0 version aad h) as [h' bs]. destruct Hp as [Hp _]. intros Hf. destruct fuel as [|fuel]; [cbn in Hf; lia|].
    cbn [read_version_packet]. by rewrite (run_bind _ _ _ _ _ Hp).
  - apply Forall_cons in Hall as [Hv Hall]. apply Forall_cons in Hall as [Hd Hall].
    pose proof (fun rest => read_packet_spec true d aad "v2 hs read len" "v2 hs packet too large" "v2 hs read body" "v2 hs auth failed" h rest out w Hd) as Hp.
    cbn iota in Hp. destruct (encrypt_half IGNORE_BIT d aad h) as [h1 pkt].
    specialize (fun fuel => IH [] h1 rest out w fuel ltac:(by constructor)). destruct (opening decoys version [] h1) as [h2 bs].
    intros Hf. destruct fuel as [|fuel]; [cbn in Hf; lia|]. cbn [read_version_packet]. rewrite <- app_assoc.
    destruct (Hp (bs ++ rest)) as [Hp1 _]. rewrite (run_bind _ _ _ _ _ Hp1). apply IH. cbn in Hf. lia.
Qed.

Lemma opening_length decoys version : forall aad h, Forall (fun d => len d <= MAX_V2_CONTENTS) (version :: decoys) ->
  (length decoys < length (opening decoys version aad h).2)%nat.
Proof.
  induction decoys as [|d decoys IH]; intros aad h Hall; cbn [opening].
  - apply Forall_cons in Hall as [Hv _]. pose proof (read_packet_spec false version aad "" "" "" "" h [] [] true Hv) as Hp. cbn iota in Hp.
    destruct (encrypt_half 0 version aad h) as [h' bs]. cbn [snd length]. lia.
  - apply Forall_cons in Hall as [Hv Hall]. apply Forall_cons in Hall as [Hd Hall].
    pose proof (read_packet_spec true d aad "" "" "" "" h [] [] true Hd) as Hp. cbn iota in Hp. destruct (encrypt_half IGNORE_BIT d aad h) as [h1 pkt].
    specialize (IH [] h1 ltac:(by constructor)). destruct (opening decoys version [] h1) as [h2 bs]. cbn [snd length] in *. rewrite length_app. lia.
Qed.

Lemma half_eta (h : Half) : mkHalf (half_l h) (half_p h) = h.
Proof. by destruct h. Qed.

Section Handshake.
Context `{HV : V2Crypto}.

(** What our side sends once it has the keys, and its sending half after that. *)
Definition our_opening (keys : V2SessionKeys) : Half * bytes :=
  let '(h, version) := encrypt_half 0 [] [] (send_half keys) in (h, send_garbage_terminator keys ++ version).

(** Any peer that follows the protocol is accepted: garbage within the limit
    before the terminator, then decoys, then a version packet. *)
Lemma finish_v2_spec (keys : V2SessionKeys) g decoys version rest out :
  length (recv_garbage_terminator keys) = 16%nat -> len g <= MAX_GARBAGE_LEN ->
  (forall n, (n < length g)%nat -> take 16 (drop n (g ++ recv_garbage_terminator keys)) <> recv_garbage_terminator keys) ->
  Forall (fun d => len d <= MAX_V2_CONTENTS) (version :: decoys) ->
  let '(sh, mine) := our_opening keys in
  let '(rh, theirs) := opening decoys version g (recv_half keys) in
  finish_v2 keys (mkLink (g ++ recv_garbage_terminator keys ++ theirs ++ rest) out true) = (mkLink rest (out ++ mine) true, Ok (sh, rh)).
Proof.
  intros Ht Hg Hno Hall. unfold our_opening. pose proof (fun fuel => read_opening decoys version g (recv_half keys) rest (out ++ send_garbage_terminator keys ++ (encrypt_half 0 [] [] (send_half keys)).2) true fuel Hall) as Hread.
  pose proof (opening_length decoys version g (recv_half keys) Hall) as Hlen. destruct (opening decoys version g (recv_half keys)) as [rh theirs]. cbn [snd] in Hlen.
  unfold finish_v2. rewrite (run_bind _ _ _ (mkLink (g ++ recv_garbage_terminator keys ++ theirs ++ rest) (out ++ send_garbage_terminator keys) true) tt) by done.
  unfold session_encrypt_packet. change (len (@nil Z) >? MAX_CONTENTS_LEN) with false. cbn iota.
  destruct (encrypt_half 0 [] [] (send_half keys)) as [sh version_pkt]. cbn [snd default from_option id] in *.
  rewrite (run_bind _ _ _ (mkLink (g ++ recv_garbage_terminator keys ++ theirs ++ rest) (out ++ send_garbage_terminator keys ++ version_pkt) true) tt)
    by (unfold write_all; cbn [writable incoming outgoing]; by rewrite <- app_assoc).
  rewrite (run_bind _ _ _ (mkLink (theirs ++ rest) (out ++ send_garbage_terminator keys ++ version_pkt) true) g).
  2: { unfold read_until_terminator. cbn [incoming outgoing writable recv_garbage_terminator set_send]. by rewrite scan_terminator_spec. }
  unfold await_version. cbn [incoming]. change (recv_half (set_send keys sh)) with (recv_half keys). rewrite Hread by (rewrite length_app; lia).
  unfold into_halves, send_half, recv_half. cbn. by rewrite !half_eta.
Qed.

(** Reading writes nothing. *)
Definition quiet {S A} (m : stm (S * Link) P2pError A) : Prop := forall s, outgoing (m s).1.2 = outgoing s.2.

Lemma quiet_bind {S A B} (m : stm (S * Link) P2pError A) (f : A -> stm (S * Link) P2pError B) : quiet m -> (forall a, quiet (f a)) -> quiet (m ≫= f).
Proof. intros Hm Hf s. unfold mbind, stm_bind. specialize (Hm s). destruct (m s) as [s' [a|e]]; [|done]. by rewrite Hf. Qed.
Lemma quiet_read {S} n e : quiet (S := S) (on_link (read_exact n e)).
Proof. intros [s k]. unfold on_link, read_exact. by destruct (_ <? _)%nat. Qed.
Lemma quiet_state {S A} (f : S -> S * A) : quiet (on_state f).
Proof. intros [s k]. unfold on_state. by destruct (f s). Qed.
Lemma quiet_lift {S A} (r : result P2pError A) : quiet (S := S) (lift r).
Proof. done. Qed.

Lemma quiet_read_packet aad e1 e2 e3 e4 : quiet (read_packet aad e1 e2 e3 e4).
Proof.
  unfold read_packet. apply quiet_bind; [apply quiet_read|intros enc]. apply quiet_bind; [apply quiet_state|intros n].
  apply quiet_bind; [apply quiet_lift|intros _]. apply quiet_bind; [apply quiet_read|intros body].
  apply quiet_bind; [apply quiet_state|intros r]. apply quiet_lift.
Qed.

Lemma quiet_read_version fuel : forall aad, quiet (read_version_packet fuel aad).
Proof.
  induction fuel as [|fuel IH]; intros aad; cbn [read_version_packet]; (apply quiet_bind; [apply quiet_read || apply quiet_read_packet|]); [done|].
  intros [[] c]; [apply IH|done].
Qed.

Lemma finish_v2_writes (keys : V2SessionKeys) inp out :
  outgoing (finish_v2 keys (mkLink inp out true)).1 = out ++ (our_opening keys).2.
Proof.
  unfold finish_v2, our_opening. rewrite (run_bind _ _ _ (mkLink inp (out ++ send_garbage_terminator keys) true) tt) by done.
  unfold session_encrypt_packet. change (len (@nil Z) >? MAX_CONTENTS_LEN) with false. cbn iota.
  destruct (encrypt_half 0 [] [] (send_half keys)) as [sh version_pkt]. cbn [snd default from_option id] in *.
  rewrite (run_bind _ _ _ (mkLink inp ((out ++ send_garbage_terminator keys) ++ version_pkt) true) tt) by done.
  unfold mbind, stm_bind, read_until_terminator. cbn [incoming outgoing writable]. destruct (scan_terminator _ _ _) as [inp' [g|e]]; cbn [fst outgoing]; [|by rewrite app_assoc].
  unfold await_version. pose proof (quiet_read_version (length inp') g (recv_half (set_send keys sh), mkLink inp' ((out ++ send_garbage_terminator keys) ++ version_pkt) true)) as Hq.
  cbn [incoming]. destruct (read_version_packet _ _ _) as [[h k] [[]|e]]; cbn [fst snd outgoing] in *; by rewrite Hq, app_assoc.
Qed.
End Handshake.
