(* ===== verification/V2Theorems.v ===== *)
(** * Connections over the encrypted transport

    The two roles of the handshake agree on keys and cipher states, and the
    connection they set up, or a plain one, delivers every message. *)

From Stdlib Require Import ZArith Lia Ascii String.
From stdpp Require Import base option numbers list strings.
From S2P Require Import Prelude Bytes Types Store WireCodec V2Cipher V2Session V2Channel V2Proofs.

(** Documented behaviour of HMAC-SHA256 and of ElligatorSwift: lengths, and
    both sides compute the same secret. *)
Class V2CryptoLaws `{HV : V2Crypto} := {
  hmac_length k d : length (hmac_sha256 k d) = 32%nat;
  pubkey_length sk : length (ellswift_from_seckey sk) = 64%nat;
  secret_agreement a b :
    ellswift_shared_secret (ellswift_from_seckey a) (ellswift_from_seckey b) a true =
    ellswift_shared_secret (ellswift_from_seckey a) (ellswift_from_seckey b) b false }.

Section Theorems.
Context `{HH : Hashes} `{HM : MsgLib} `{HML : !MsgLaws} `{HV : V2Crypto} `{HVL : !V2CryptoLaws}.

(** ** Keys *)

(** The keys of a connection, seen from either side. *)
Definition connection_keys (a b : SecretKey) (mag : bytes) (initiator : bool) : V2SessionKeys :=
  derive (ellswift_shared_secret (ellswift_from_seckey a) (ellswift_from_seckey b) a true) mag initiator.

Lemma terminator_length shared mag side : length (recv_garbage_terminator (derive shared mag side)) = 16%nat.
Proof.
  unfold derive. assert (Hg : length (garbage_terminators (derive_keys shared mag)) = 32%nat) by apply hmac_length.
  destruct side; cbn [recv_garbage_terminator]; rewrite ?length_drop, ?length_take; lia.
Qed.

(** One side receives with what the other side sends with. *)
Lemma connection_keys_match a b mag side :
  recv_half (connection_keys a b mag side) = send_half (connection_keys a b mag (negb side)) /\
  recv_garbage_terminator (connection_keys a b mag side) = send_garbage_terminator (connection_keys a b mag (negb side)).
Proof. by destruct side. Qed.

(** ** What each role writes *)

Lemma initiate_writes_key a mag inp :
  exists t, outgoing (initiate_v2 (generate a) mag (mkLink inp [] true)).1 = ellswift_from_seckey a ++ t.
Proof.
  unfold initiate_v2. rewrite (run_bind _ _ _ (mkLink inp (ellswift_from_seckey a) true) tt) by done.
  destruct (Nat.ltb_spec (length inp) 64) as [Hlt|Hge].
  - exists []. unfold mbind, stm_bind, read_exact. cbn [incoming outgoing writable]. rewrite (proj2 (Nat.ltb_lt _ _) Hlt). by rewrite app_nil_r.
  - rewrite (run_bind _ _ _ (mkLink (drop 64 inp) (ellswift_from_seckey a) true) (take 64 inp))
      by (rewrite <- (take_drop 64 inp) at 1; apply read_exact_app; rewrite length_take; lia).
    set (keys := derive (ellswift_shared_secret (ellswift_from_seckey a) (take 64 inp) a true) mag true).
    rewrite (run_bind _ _ _ (mkLink (drop 64 inp) (ellswift_from_seckey a) true) keys) by done. exists (our_opening keys).2. apply finish_v2_writes.
Qed.

Lemma initiate_unfold a b mag inp :
  initiate_v2 (generate a) mag (mkLink (ellswift_from_seckey b ++ inp) [] true) =
  finish_v2 (connection_keys a b mag true) (mkLink inp (ellswift_from_seckey a) true).
Proof.
  unfold initiate_v2. rewrite (run_bind _ _ _ (mkLink (ellswift_from_seckey b ++ inp) (ellswift_from_seckey a) true) tt) by done.
  rewrite (run_bind _ _ _ (mkLink inp (ellswift_from_seckey a) true) (ellswift_from_seckey b)) by (apply read_exact_app, pubkey_length).
  by rewrite (run_bind _ _ _ (mkLink inp (ellswift_from_seckey a) true) (connection_keys a b mag true)).
Qed.

Lemma respond_unfold a b mag inp :
  respond_v2 (generate b) mag (mkLink (ellswift_from_seckey a ++ inp) [] true) =
  finish_v2 (connection_keys a b mag false) (mkLink inp (ellswift_from_seckey b) true).
Proof.
  unfold respond_v2. rewrite (run_bind _ _ _ (mkLink inp [] true) (ellswift_from_seckey a)) by (apply read_exact_app, pubkey_length).
  unfold take_keys, process_peer_pubkey, ecdh_shared_secret. cbn [new_responder is_initiator our_key_material generate secret_key elligatorsw_pubkey negb fst snd keys].
  rewrite (run_bind _ _ _ (mkLink inp [] true) (connection_keys a b mag false)).
  - by rewrite (run_bind _ _ _ (mkLink inp (ellswift_from_seckey b) true) tt).
  - unfold connection_keys. by rewrite secret_agreement.
Qed.

Lemma our_opening_alone (keys : V2SessionKeys) (peer : V2SessionKeys) rest out :
  recv_half keys = send_half peer -> recv_garbage_terminator keys = send_garbage_terminator peer -> length (recv_garbage_terminator keys) = 16%nat ->
  finish_v2 keys (mkLink ((our_opening peer).2 ++ rest) out true) =
  (mkLink rest (out ++ (our_opening keys).2) true, Ok ((our_opening keys).1, (our_opening peer).1)).
Proof.
  intros Hh Ht Hl. pose proof (finish_v2_spec keys [] [] [] rest out Hl ltac:(done) ltac:(cbn; lia) ltac:(by repeat constructor)) as Hf.
  cbn [opening app] in Hf. rewrite Hh, Ht in Hf. unfold our_opening in *. destruct (encrypt_half 0 [] [] (send_half keys)) as [sh mine].
  destruct (encrypt_half 0 [] [] (send_half peer)) as [rh theirs]. cbn [fst snd]. rewrite <- app_assoc. exact Hf.
Qed.

(** ** The theorems *)

(** Every list of messages can be sent, and when the bytes [sent] after the
    handshake are those it puts on the wire, the receiver gets exactly these
    messages. *)
Definition delivers (mag : bytes) (s : SendTransport) (sent : bytes) (r : RecvTransport) (k : Link) : Prop :=
  forall ms, Forall (sendable mag) ms ->
    exists s' wire, send_all ms (s, mkLink [] [] true) = ((s', mkLink [] wire true), Ok tt) /\
      (sent = wire -> (recv_n (length ms) (r, k)).2 = Ok ms).

Lemma delivers_paired mag s r sent out w : paired mag s r -> delivers mag s sent r (mkLink sent out w).
Proof.
  intros Hp ms Hms. destruct (messages_arrive mag ms s r [] Hp Hms) as (s2 & r2 & bs & Hs & _ & Hr).
  exists s2, bs. split; [exact (Hs [])|]. intros ->. specialize (Hr [] out w). rewrite app_nil_r in Hr. by rewrite Hr.
Qed.

(** C21: When an initiator and a responder of the same network talk to each other,
    both handshakes succeed, each side keeps exactly the bytes that follow the
    handshake, and in both directions every list of messages sent over the
    encrypted connection is received unchanged and in order.  The messages are
    of the network and within the limits the receiver enforces: the payload cap
    of their command and the maximal size of an encrypted packet; larger ones
    are refused.  Both links accept all writes, nothing alters the bytes in
    between, and the libraries for keys, hashes and message encoding behave as
    documented. *)
Theorem v2_connection_delivers (a b : SecretKey) (mag : bytes) (la lb la' lb' : Link) (ra rb : result P2pError (Half * Half)) (sent_a sent_b : bytes) :
  la = mkLink (incoming la) [] true -> lb = mkLink (incoming lb) [] true ->
  initiate_v2 (generate a) mag la = (la', ra) -> respond_v2 (generate b) mag lb = (lb', rb) ->
  incoming la = outgoing lb' ++ sent_b -> incoming lb = outgoing la' ++ sent_a ->
  exists sa qa sb qb, ra = Ok (sa, qa) /\ rb = Ok (sb, qb) /\ incoming la' = sent_b /\ incoming lb' = sent_a /\
    delivers mag (SendV2 sa) sent_a (RecvV2 qb mag) lb' /\ delivers mag (SendV2 sb) sent_b (RecvV2 qa mag) la'.
Proof.
  intros Hla Hlb Ha Hb Hina Hinb. destruct (initiate_writes_key a mag (incoming la)) as [t Ht]. rewrite <- Hla, Ha in Ht. cbn [fst] in Ht.
  set (ka := connection_keys a b mag true). set (kb := connection_keys a b mag false).
  assert (Hob : outgoing lb' = ellswift_from_seckey b ++ (our_opening kb).2).
  { rewrite Hlb, Hinb, Ht, <- app_assoc, respond_unfold in Hb. rewrite <- (finish_v2_writes kb (t ++ sent_a)). unfold kb. by rewrite Hb. }
  assert (Hoa : outgoing la' = ellswift_from_seckey a ++ (our_opening ka).2).
  { rewrite Hla, Hina, Hob, <- app_assoc, initiate_unfold in Ha. rewrite <- (finish_v2_writes ka ((our_opening kb).2 ++ sent_b)). unfold ka. by rewrite Ha. }
  destruct (connection_keys_match a b mag true) as [Hha Hta]. destruct (connection_keys_match a b mag false) as [Hhb Htb]. cbn [negb] in *.
  rewrite Hla, Hina, Hob, <- app_assoc, initiate_unfold, our_opening_alone in Ha by (done || apply terminator_length).
  rewrite Hlb, Hinb, Hoa, <- app_assoc, respond_unfold, our_opening_alone in Hb by (done || apply terminator_length).
  apply pair_equal_spec in Ha as [<- <-]. apply pair_equal_spec in Hb as [<- <-].
  exists (our_opening ka).1, (our_opening kb).1, (our_opening kb).1, (our_opening ka).1. cbn [incoming].
  repeat (split; [reflexivity|]). split; apply delivers_paired; split; reflexivity.
Qed.
End Theorems.

(** ** The theorem at a concrete input *)

Section Examples.
#[local] Existing Instance Sample.hashes.

#[local] Instance sample_v2 : V2Crypto := {|
  SecretKey := Z; hmac_sha256 := fun _ d => Sample.pad_to 32 d; ellswift_from_seckey := fun sk => replicate 64 sk;
  ellswift_shared_secret := fun _ _ _ _ => replicate 32 7 |}.
#[local] Instance sample_v2_laws : V2CryptoLaws.
Proof. split; [intros k d; apply Sample.length_pad_to|intros sk; apply length_replicate|done]. Defined.

(** Two messages: [ping] with a nonce, and [verack]. *)
Definition vx_magic : bytes := [0xf9; 0xbe; 0xb4; 0xd9].
Definition vx_command (m : bool) : bytes := ascii_bytes (if m then "ping" else "verack").
Definition vx_payload (m : bool) : bytes := if m then [1; 2; 3; 4; 5; 6; 7; 8] else [].
Definition vx_encode (m : bool) : bytes := v1_frame vx_magic (vx_command m) (vx_payload m).
#[local] Instance sample_msgs : MsgLib := {|
  RawNetworkMessage := bool; consensus_encode := vx_encode;
  consensus_decode := fun b => if bool_decide (b = vx_encode true) then Some true else if bool_decide (b = vx_encode false) then Some false else None |}.
#[local] Instance sample_msgs_laws : MsgLaws.
Proof.
  refine {| msg_magic := fun _ : @RawNetworkMessage sample_msgs => vx_magic; msg_command := vx_command; msg_payload := vx_payload |}.
  - done.
  - intros []; (split; [vm_compute; repeat (constructor; [split; reflexivity|]); constructor|apply Nat.leb_le; reflexivity]).
  - done.
  - intros []; vm_compute; reflexivity.
  - apply Sample.length_pad_to.
Defined.

Definition vx_keys (initiator : bool) : V2SessionKeys := connection_keys (1 : @SecretKey sample_v2) (2 : @SecretKey sample_v2) vx_magic initiator.
Definition vx_sent : bytes := outgoing (send_all [true; false] (SendV2 (our_opening (vx_keys true)).1, mkLink [] [] true)).1.2.
Definition vx_link_a : Link := mkLink (replicate 64 2 ++ (our_opening (vx_keys false)).2 ++ []) [] true.
Definition vx_link_b : Link := mkLink (replicate 64 1 ++ (our_opening (vx_keys true)).2 ++ vx_sent) [] true.

Lemma vx_sendable : Forall (sendable vx_magic) [true; false].
Proof. repeat (constructor; [split_and!; vm_compute; congruence|]). constructor. Qed.

Lemma vx_initiate :
  initiate_v2 (generate (1 : @SecretKey sample_v2)) vx_magic vx_link_a =
  (mkLink [] (replicate 64 1 ++ (our_opening (vx_keys true)).2) true, Ok ((our_opening (vx_keys true)).1, (our_opening (vx_keys false)).1)).
Proof.
  pose proof (initiate_unfold (1 : @SecretKey sample_v2) (2 : @SecretKey sample_v2) vx_magic ((our_opening (vx_keys false)).2 ++ [])) as Hu.
  unfold vx_link_a. etrans; [exact Hu|]. apply our_opening_alone; [reflexivity|reflexivity|apply terminator_length].
Qed.

Lemma vx_respond :
  respond_v2 (generate (2 : @SecretKey sample_v2)) vx_magic vx_link_b =
  (mkLink vx_sent (replicate 64 2 ++ (our_opening (vx_keys false)).2) true, Ok ((our_opening (vx_keys false)).1, (our_opening (vx_keys true)).1)).
Proof.
  pose proof (respond_unfold (1 : @SecretKey sample_v2) (2 : @SecretKey sample_v2) vx_magic ((our_opening (vx_keys true)).2 ++ vx_sent)) as Hu.
  unfold vx_link_b. etrans; [exact Hu|]. apply our_opening_alone; [reflexivity|reflexivity|apply terminator_length].
Qed.

Lemma ok_pair_fst {E A B} (a c : A) (b d : B) : @Ok E _ (a, b) = Ok (c, d) -> a = c.
Proof. congruence. Qed.

Lemma v2_connection_delivers_witness :
  exists sa qa sb qb, initiate_v2 (generate (1 : @SecretKey sample_v2)) vx_magic vx_link_a = (mkLink [] (replicate 64 1 ++ (our_opening (vx_keys true)).2) true, Ok (sa, qa)) /\
    respond_v2 (generate (2 : @SecretKey sample_v2)) vx_magic vx_link_b = (mkLink vx_sent (replicate 64 2 ++ (our_opening (vx_keys false)).2) true, Ok (sb, qb)) /\
    (recv_n 2 (RecvV2 qb vx_magic, mkLink vx_sent (replicate 64 2 ++ (our_opening (vx_keys false)).2) true)).2 = Ok [true; false].
Proof.
  destruct (v2_connection_delivers (1 : @SecretKey sample_v2) (2 : @SecretKey sample_v2) vx_magic vx_link_a vx_link_b _ _ _ _ vx_sent []
    eq_refl eq_refl vx_initiate vx_respond) as (sa & qa & sb & qb & Ha & Hb & _ & _ & Hd & _).
  - cbn [incoming outgoing]. unfold vx_link_a. cbn [incoming]. apply app_assoc.
  - cbn [incoming outgoing]. unfold vx_link_b. cbn [incoming]. apply app_assoc.
  - exists sa, qa, sb, qb. rewrite <- Ha, <- Hb. split; [exact vx_initiate|]. split; [exact vx_respond|].
    destruct (Hd _ vx_sendable) as (s' & wire & Hs & Hr). apply Hr. unfold vx_sent.
    rewrite (ok_pair_fst _ _ _ _ Ha), Hs. reflexivity.
Defined.
End Examples.
