(* ===== verification/HeaderCheck.v ===== *)
(** * Opening and checking the header index

    [bitcoinpr-storage/src/header_index.rs]: loading the invalid-block markers
    when the index is opened, listing and clearing them, the record of an
    abandoned deployment, and the integrity check of the stored header chain
    with the repair of cumulative work.  The work of a target is computed by
    the [bitcoin] crate and is a parameter. *)

From Stdlib Require Import ZArith Lia.
From stdpp Require Import base option numbers list gmap strings.
From S2P Require Import Prelude Bytes U256 Types Consensus Validation Store HeaderIndex TxIndex BlockStore ScriptHash.

Definition META_BIP110_ABANDONED : bytes := ascii_bytes "bip110_abandoned".

(** [Target::to_work().to_be_bytes()] on the big-endian target. *)
Class WorkLib := { to_work : bytes -> bytes }.
(** The work of a target [t] is [2^256 / (t + 1)]. *)
Class WorkLaws `{WorkLib} := { to_work_value t : arr32 t -> from_be t <> 0 -> arr32 (to_work t) /\ from_be (to_work t) = 2 ^ 256 / (from_be t + 1) }.

Section Check.
Context `{HR : RocksDb} `{HW : !RocksWal} `{HIt : !RocksIter} `{HC : HeaderCodec} `{HT : TxLib} `{HWk : WorkLib}.

Abbreviation HM := (stm HeaderIndex StorageError).

(** ** Markers *)

(** [iterator_cf(cf, IteratorMode::Start)] with [entry?]. *)
Definition scan_cf (d : DB) (cf : string) : StorageResult (list (bytes * bytes)) :=
  foldM (fun acc e => kv ← e; Ok (acc ++ [kv])) [] (iterator_cf d cf [] None).

Definition load_invalid_set (d : DB) : StorageResult (gset hash256) :=
  _ ← guard_err (negb (cf_handle d CF_INVALID)) (MissingColumnFamily CF_INVALID);
  foldM (fun acc e => kv ← e; h ← hash_from_bytes kv.1; Ok ({[h]} ∪ acc)) ∅ (iterator_cf d CF_INVALID [] None).

(** [open] on an opened database. *)
Definition index_open (d : DB) : StorageResult HeaderIndex :=
  s ← load_invalid_set d; Ok (mkHeaderIndex d s 0).

Definition iter_invalid (hi : HeaderIndex) : StorageResult (list (hash256 * Z * Z)) :=
  _ ← guard_err (negb (cf_handle (hi_db hi) CF_INVALID)) (MissingColumnFamily CF_INVALID);
  foldM (fun acc e =>
    '(key, value) ← e;
    _ ← guard_err (negb (length value =? 5)%nat) (Serialization "invalid marker data length");
    h ← hash_from_bytes key;
    Ok (acc ++ [(h, from_le (drop 1 value), default 0 (head value))])) [] (iterator_cf (hi_db hi) CF_INVALID [] None).

Definition clear_all_invalid : HM unit :=
  _ ← hi_cf CF_INVALID;
  hi ← gets id;
  l ← lift (scan_cf (hi_db hi) CF_INVALID);
  _ ← hi_write (map (fun kv => Delete CF_INVALID kv.1) l);
  _ ← flush_wal;
  modify (fun hi => set_invalid hi ∅ (u64 (invalid_generation hi + 1))).

Definition set_bip110_abandoned (unix_ts : Z) : HM unit :=
  _ ← hi_cf CF_HMETA;
  _ ← hi_write [Put CF_HMETA META_BIP110_ABANDONED (to_le 8 unix_ts)];
  flush_wal.

Definition get_bip110_abandoned (hi : HeaderIndex) : StorageResult (option Z) :=
  data ← hi_get hi CF_HMETA META_BIP110_ABANDONED;
  match data with
  | Some data => if (length data =? 8)%nat then Ok (Some (from_le data)) else Err (Serialization "invalid bip110_abandoned bytes")
  | None => Ok None
  end.

(** ** Integrity *)

Definition CHECK_DEPTH : Z := 1000.

Record Scan := mkScan {
  scan_prev : option hash256;
  prev_work : option bytes;
  work_repairs : list (hash256 * StoredHeader) }.

(** The cumulative work of a header, given that of its parent; without one the
    stored value is adopted. *)
Definition verify_work (hash : hash256) (stored : StoredHeader) (s : Scan) : Scan :=
  match prev_work s with
  | Some pw =>
      let expected := add_work pw (to_work (header_target (sh_header stored))) in
      mkScan (Some hash) (Some expected)
        (if bool_decide (chain_work stored = expected) then work_repairs s
         else work_repairs s ++ [(hash, mkStored (sh_header stored) (sh_height stored) expected)])
  | None => mkScan (Some hash) (Some (chain_work stored)) (work_repairs s)
  end.

(** One height of either loop; [None] is a gap or a broken link. *)
Definition verify_height (hi : HeaderIndex) (height : Z) (s : Scan) : StorageResult (option Scan) :=
  hash ← get_hash_at_height hi height;
  match hash with
  | None => Ok None
  | Some hash =>
      stored ← get_header hi hash;
      match stored with
      | None => Ok None
      | Some stored =>
          if negb (sh_height stored =? height) then Ok None
          else if match scan_prev s with Some p => negb (bool_decide (prev_blockhash (sh_header stored) = p)) | None => false end
          then Ok None
          else Ok (Some (verify_work hash stored s))
      end
  end.

(** The heights in order, up to the first that fails. *)
Fixpoint verify_loop (hi : HeaderIndex) (heights : list Z) (s : Scan) : StorageResult (Scan * option Z) :=
  match heights with
  | [] => Ok (s, None)
  | h :: rest =>
      r ← verify_height hi h s;
      match r with
      | Some s => verify_loop hi rest s
      | None => Ok (s, Some h)
      end
  end.

Definition apply_work_repairs (repairs : list (hash256 * StoredHeader)) : HM unit :=
  match repairs with [] => mret tt | _ => insert_headers_hash_only repairs end.

(** The block below the window and its work. *)
Definition stored_work (hi : HeaderIndex) (p : option hash256) : StorageResult (option bytes) :=
  match p with
  | Some h =>
      stored ← get_header hi h;
      match stored with Some x => Ok (Some (chain_work x)) | None => Ok None end
  | None => Ok None
  end.
Definition seed_scan (hi : HeaderIndex) (start_height : Z) : StorageResult Scan :=
  p ← (if 0 <? start_height then get_hash_at_height hi (sat_sub start_height 1) else Ok None);
  w ← stored_work hi p;
  Ok (mkScan p w []).

(** The verified height and the stored height. *)
Definition verify_chain_integrity : HM (Z * Z) :=
  hi ← gets id;
  best ← lift (get_best_height hi);
  match best with
  | None => mret (0, 0)
  | Some best_height =>
      let start_height := sat_sub best_height CHECK_DEPTH in
      s ← lift (seed_scan hi start_height);
      '(s, gap) ← lift (verify_loop hi (heights_between start_height best_height) s);
      match gap with
      | Some height => _ ← apply_work_repairs (work_repairs s); mret (sat_sub height 1, best_height)
      | None =>
          tip ← lift (get_header_tip_height hi);
          '(s, _) ← lift (verify_loop hi (heights_between (best_height + 1) (default best_height tip)) s);
          _ ← apply_work_repairs (work_repairs s);
          mret (best_height, best_height)
      end
  end.
End Check.
