(* ===== verification/Recovery.v ===== *)
(** * Startup recovery

    [bitcoinpr/src/recovery.rs] and the start of [bitcoinpr/src/main.rs]: the
    integrity check with the roll-back of a broken chain, the wipes behind
    [--reindex] and [--reindex-chainstate], loading the chain tip, the
    reconciliation of the tip with the flushed UTXO set, the search for a
    stored tip block, the scan for missing blocks, the repair of the height
    index and the local replay.  The databases of the data directory are
    opened, handed on and reopened as in the code; opening and removing a
    database directory are parameters, as is the genesis header. *)

From Stdlib Require Import ZArith Lia.
From stdpp Require Import base option numbers list gmap strings.
From S2P Require Import Prelude Bytes U256 Types ScriptBytes Signatures Consensus Validation Store HeaderIndex TxIndex BlockStore Bip110 UtxoSet SplitMonitor ChainState NodeChain BlockDir ScriptHash HeaderCheck.

(** [DB::open_cf_descriptors] with the given column families, which are
    created when missing, and [remove_dir_all] on an existing directory. *)
Class RocksDirs `{RocksDb} := {
  open_db : DB -> list string -> StorageResult DB;
  remove_dir : DB -> DB * StorageResult unit }.

(** Documented behaviour: opening keeps the contents, and a database opened in
    a removed directory is empty. *)
Class RocksDirsLaws `{RocksLaws} `{!RocksDirs} := {
  open_contents d cfs d' cf k : open_db d cfs = Ok d' -> contents d' cf k = contents d cf k;
  open_families d cfs d' cf : open_db d cfs = Ok d' -> cf ∈ cfs -> cf_handle d' cf = true;
  remove_empties d d' cf k : remove_dir d = (d', Ok tt) -> contents d' cf k = None }.

Definition HEADER_CFS : list string := [CF_HEADERS; CF_HEIGHT_INDEX; CF_HMETA; CF_BLOCK_POS; CF_INVALID].
Definition UTXO_CFS : list string := [CF_UTXO; CF_UNDO; CF_META].

(** [anyhow::Error] *)
Inductive StartupError : Type :=
| StartupStorage (e : StorageError)
| Unrecoverable (msg : string).

Definition lift_startup {A} (r : StorageResult A) : result StartupError A :=
  match r with Ok a => Ok a | Err e => Err (StartupStorage e) end.

(** [.ok().flatten()] *)
Definition found {A} (r : StorageResult (option A)) : option A := match r with Ok o => o | Err _ => None end.

Section Recovery.
Context `{HH : Hashes} `{HSc : ScriptLib} `{HSi : SigLib} `{HT : TxLib} `{HO : OutPointOrd} `{HTS : TxSizes} `{HR : RocksDb}
  `{HW : !RocksWal} `{HIt : !RocksIter} `{HRD : !RocksDirs} `{HC : HeaderCodec} `{HF : BlockFiles} `{HM : MapIter} `{HRun : Runtime}
  `{HB : BlockLib} `{HWk : WorkLib}.

(** ** The data directory *)

Record NetDir := mkNetDir {
  nd_headers : DB;
  nd_utxo : DB;
  nd_txindex : DB;
  nd_index : DB;
  nd_blocks : BlockStore }.

Inductive Subdir : Type := DirUtxo | DirHeaders | DirTxindex | DirIndex.

Definition subdir_db (nd : NetDir) (s : Subdir) : DB :=
  match s with DirUtxo => nd_utxo nd | DirHeaders => nd_headers nd | DirTxindex => nd_txindex nd | DirIndex => nd_index nd end.
Definition set_subdir (nd : NetDir) (s : Subdir) (d : DB) : NetDir :=
  match s with
  | DirUtxo => mkNetDir (nd_headers nd) d (nd_txindex nd) (nd_index nd) (nd_blocks nd)
  | DirHeaders => mkNetDir d (nd_utxo nd) (nd_txindex nd) (nd_index nd) (nd_blocks nd)
  | DirTxindex => mkNetDir (nd_headers nd) (nd_utxo nd) d (nd_index nd) (nd_blocks nd)
  | DirIndex => mkNetDir (nd_headers nd) (nd_utxo nd) (nd_txindex nd) d (nd_blocks nd)
  end.
Definition set_nd_blocks (nd : NetDir) (b : BlockStore) : NetDir :=
  mkNetDir (nd_headers nd) (nd_utxo nd) (nd_txindex nd) (nd_index nd) b.

Abbreviation DM := (stm NetDir StartupError).

Definition remove_subdir (_ : unit) (s : Subdir) : DM unit := fun nd =>
  let '(d, r) := remove_dir (subdir_db nd s) in (set_subdir nd s d, lift_startup r).

Definition open_headers (d : DB) : StorageResult HeaderIndex := d ← open_db d HEADER_CFS; index_open d.
Definition open_utxo (d : DB) (dbcache_mb : option Z) : StorageResult UtxoSet :=
  d ← open_db d UTXO_CFS; Ok (utxo_open d dbcache_mb).

(** A header index opened for some steps and dropped. *)
Definition with_headers {A} (m : stm HeaderIndex StorageError A) : DM A := fun nd =>
  match open_headers (nd_headers nd) with
  | Err e => (nd, Err (StartupStorage e))
  | Ok hi => let '(hi, r) := m hi in (set_subdir nd DirHeaders (hi_db hi), lift_startup r)
  end.

Definition reindex_chainstate_wipe (genesis : Header) (reindex_chainstate : bool) : DM unit :=
  if reindex_chainstate then
    _ ← foldS remove_subdir tt [DirUtxo; DirTxindex; DirIndex];
    with_headers (_ ← clear_validated_height; set_best_tip (block_hash genesis) 0)
  else mret tt.

(** ** The integrity check *)

Definition max_height (validated flushed : option Z) : option Z :=
  match validated, flushed with
  | Some v, Some f => Some (Z.max v f)
  | Some v, None => Some v
  | None, Some f => Some f
  | None, None => None
  end.

(** Headers above the last consistent UTXO height are cut off. *)
Definition truncate_unclean (validated flush_height : option Z) : stm HeaderIndex StorageError unit :=
  hi ← gets id;
  best ← lift (get_best_height hi);
  match max_height validated flush_height with
  | Some sh => if sh <? default 0 best then truncate_to sh else mret tt
  | None => mret tt
  end.

(** The header tip leaves a branch that is marked invalid. *)
Definition reset_invalid_tip : stm HeaderIndex StorageError unit :=
  hi ← gets id;
  header_tip ← lift (get_header_tip hi);
  best_tip ← lift (get_best_tip hi);
  match header_tip, best_tip with
  | Some header_tip, Some best_hash =>
      best ← lift (get_best_height hi);
      let best_height := default 0 best in
      bad ← lift (first_invalid_ancestor hi header_tip best_height 10000);
      match bad with
      | Some _ => _ ← restore_branch_height_index best_hash; reset_fork_header_tip best_height best_hash
      | None => mret tt
      end
  | _, _ => mret tt
  end.

(** One round of the disconnect loop; [false] when it has to stop. *)
Definition disconnect_stored (c : ChainState) : ChainState * bool :=
  match get_block_pos (ChainState.header_index c) (ChainState.best_hash c) with
  | Ok (Some pos) =>
      let '(bs, raw) := read_block pos (ChainState.block_store c) in
      let c := set_blocks c bs in
      match raw with
      | Err _ => (c, false)
      | Ok raw =>
          match deserialize_block raw with
          | None => (c, false)
          | Some block =>
              let '(c, r) := disconnect_block block (ChainState.best_height c) c in
              (c, match r with Ok _ => true | Err _ => false end)
          end
      end
  | _ => (c, false)
  end.

(** [while cs_tmp.best_height > verified]; the height goes down by one. *)
Fixpoint disconnect_down (fuel : nat) (verified : Z) (c : ChainState) : ChainState * bool :=
  if ChainState.best_height c >? verified then
    match fuel with
    | O => (c, false)
    | S fuel =>
        match disconnect_stored c with
        | (c, true) => disconnect_down fuel verified c
        | (c, false) => (c, false)
        end
    end
  else (c, true).

Abbreviation CM := (stm ChainState StartupError).
Definition on_cs_utxo {A} (m : stm UtxoSet StorageError A) : CM A :=
  fun c => let '(u, r) := m (ChainState.utxo_set c) in (set_utxo c u, lift_startup r).
Definition on_cs_index {A} (m : stm HeaderIndex StorageError A) : CM A :=
  fun c => let '(hi, r) := m (ChainState.header_index c) in (ChainState.set_index c hi, lift_startup r).
Definition try_utxo {A} (m : stm UtxoSet StorageError A) : CM (StorageResult A) :=
  fun c => let '(u, r) := m (ChainState.utxo_set c) in (set_utxo c u, Ok r).

(** A chain break: blocks are disconnected; when that fails the UTXO set is
    rolled back by its undo records, to the verified height or at least to the
    flush height. *)
Definition recover_break (verified : Z) : CM unit :=
  ok ← (fun c => let '(c, ok) := disconnect_down (Z.to_nat (ChainState.best_height c - verified)) verified c in (c, Ok ok));
  if ok : bool then
    _ ← on_cs_utxo flush_to_disk; on_cs_index (truncate_to verified)
  else
    r ← try_utxo (rollback_to verified);
    match r with
    | Ok _ => on_cs_index (truncate_to verified)
    | Err _ =>
        snapshot ← try_utxo get_flush_height;
        match found snapshot with
        | Some snap_h =>
            if snap_h <=? verified then on_cs_index (truncate_to snap_h)
            else
              r ← try_utxo (rollback_to snap_h);
              match r with
              | Ok _ => on_cs_index (truncate_to snap_h)
              | Err _ => lift (Err (Unrecoverable "rerun with --reindex-chainstate"))
              end
        | None => lift (Err (Unrecoverable "rerun with --reindex-chainstate"))
        end
    end.

(** The temporary header index and the directory it was opened from. *)
Record Checking := mkChecking { ck_index : HeaderIndex; ck_dir : NetDir }.
Abbreviation KM := (stm Checking StartupError).

Definition try_index {A} (m : stm HeaderIndex StorageError A) : KM (StorageResult A) :=
  fun k => let '(hi, r) := m (ck_index k) in (mkChecking hi (ck_dir k), Ok r).
Definition on_ck_index {A} (m : stm HeaderIndex StorageError A) : KM A :=
  r ← try_index m; lift (lift_startup r).

(** A UTXO set opened for some steps and dropped; what it had buffered is lost. *)
Definition with_utxo {A} (dbcache_mb : option Z) (m : stm UtxoSet StorageError A) : KM A := fun k =>
  match open_utxo (nd_utxo (ck_dir k)) dbcache_mb with
  | Err e => (k, Err (StartupStorage e))
  | Ok u => let '(u, r) := m u in (mkChecking (ck_index k) (set_subdir (ck_dir k) DirUtxo (us_db u)), lift_startup r)
  end.

(** The temporary chain state takes the header index over. *)
Definition chain_break (params : ConsensusParams) (genesis : Header) (dbcache_mb : option Z) (verified : Z) : KM unit := fun k =>
  let hi := ck_index k in
  match open_utxo (nd_utxo (ck_dir k)) dbcache_mb with
  | Err e => (k, Err (StartupStorage e))
  | Ok u =>
      let tip_height := default 0 (found (get_best_height hi)) in
      let tip_hash := default (block_hash genesis) (found (get_best_tip hi)) in
      let '(c, r) := recover_break verified (chain_new params hi u (nd_blocks (ck_dir k)) tip_height tip_hash) in
      (mkChecking (ChainState.header_index c)
         (set_nd_blocks (set_subdir (ck_dir k) DirUtxo (us_db (ChainState.utxo_set c))) (ChainState.block_store c)), r)
  end.

(** [true] forces a full reindex. *)
Definition check_integrity (params : ConsensusParams) (genesis : Header) (dbcache_mb : option Z) : KM bool :=
  validated ← on_ck_index (hi ← gets id; lift (get_validated_height hi));
  utxo_flush_height ← with_utxo dbcache_mb get_flush_height;
  _ ← on_ck_index (truncate_unclean validated utxo_flush_height);
  _ ← on_ck_index reset_invalid_tip;
  r ← try_index verify_chain_integrity;
  match r with
  | Ok (verified, best) =>
      if verified <? best then _ ← chain_break params genesis dbcache_mb verified; mret false else mret false
  | Err _ => mret true
  end.

Definition run_integrity (params : ConsensusParams) (genesis : Header) (dbcache_mb : option Z) : DM bool := fun nd =>
  match open_headers (nd_headers nd) with
  | Err e => (nd, Err (StartupStorage e))
  | Ok hi =>
      let '(k, r) := check_integrity params genesis dbcache_mb (mkChecking hi nd) in
      (set_subdir (ck_dir k) DirHeaders (hi_db (ck_index k)), r)
  end.

Definition check_integrity_and_reindex (params : ConsensusParams) (genesis : Header) (dbcache_mb : option Z)
    (reindex reindex_chainstate : bool) : DM unit :=
  force_reindex ← (if negb reindex && negb reindex_chainstate then run_integrity params genesis dbcache_mb else mret false);
  if reindex || force_reindex then foldS remove_subdir tt [DirUtxo; DirHeaders; DirTxindex; DirIndex] else mret tt.

(** ** The chain tip *)

(** The opened stores. *)
Record Startup := mkStartup {
  su_index : HeaderIndex;
  su_utxo : UtxoSet;
  su_blocks : BlockStore;
  su_txindex : DB;
  su_shindex : DB }.
Abbreviation SM := (stm Startup StartupError).

Definition set_su_index (s : Startup) (hi : HeaderIndex) : Startup :=
  mkStartup hi (su_utxo s) (su_blocks s) (su_txindex s) (su_shindex s).
Definition set_su_utxo (s : Startup) (u : UtxoSet) : Startup :=
  mkStartup (su_index s) u (su_blocks s) (su_txindex s) (su_shindex s).
Definition set_su_blocks (s : Startup) (b : BlockStore) : Startup :=
  mkStartup (su_index s) (su_utxo s) b (su_txindex s) (su_shindex s).

Definition on_su_index {A} (m : stm HeaderIndex StorageError A) : SM A :=
  fun s => let '(hi, r) := m (su_index s) in (set_su_index s hi, lift_startup r).
Definition read_su {A} (f : HeaderIndex -> StorageResult A) : SM A := fun s => (s, lift_startup (f (su_index s))).
Definition try_su_utxo {A} (m : stm UtxoSet StorageError A) : SM (StorageResult A) :=
  fun s => let '(u, r) := m (su_utxo s) in (set_su_utxo s u, Ok r).

(** [raw_iterator_cf], [seek_to_first] and [valid]. *)
Definition is_db_empty (u : UtxoSet) : StorageResult bool :=
  _ ← guard_err (negb (cf_handle (us_db u) CF_UTXO)) (MissingColumnFamily CF_UTXO);
  Ok match iterator_cf (us_db u) CF_UTXO [] None with Ok _ :: _ => false | _ => true end.

Definition load_chain_tip (genesis : Header) : SM (Z * hash256) :=
  tip ← read_su get_best_tip;
  '(best_height, best_hash) ← match tip with
    | Some hash => h ← read_su get_best_height; mret (default 0 h, hash)
    | None =>
        let genesis_hash := block_hash genesis in
        _ ← on_su_index (insert_header genesis_hash (mkStored genesis 0 (replicate 32 0)));
        _ ← on_su_index (set_best_tip genesis_hash 0);
        mret (0, genesis_hash)
    end;
  if 0 <? best_height then
    empty ← (fun s => (s, lift_startup (is_db_empty (su_utxo s))));
    if empty : bool then
      _ ← on_su_index (set_best_tip (block_hash genesis) 0);
      mret (0, block_hash genesis)
    else mret (best_height, best_hash)
  else mret (best_height, best_hash).

(** [remove_dir_all] of the three directories in turn. *)
Definition remove_chainstate (_ : unit) (d : Subdir) : SM unit := fun s =>
  match d with
  | DirUtxo => let '(d, r) := remove_dir (us_db (su_utxo s)) in (set_su_utxo s (set_db (su_utxo s) d), lift_startup r)
  | DirTxindex =>
      let '(d, r) := remove_dir (su_txindex s) in
      (mkStartup (su_index s) (su_utxo s) (su_blocks s) d (su_shindex s), lift_startup r)
  | DirIndex =>
      let '(d, r) := remove_dir (su_shindex s) in
      (mkStartup (su_index s) (su_utxo s) (su_blocks s) (su_txindex s) d, lift_startup r)
  | DirHeaders => (s, Ok tt)
  end.

Definition reopen_utxo (dbcache_mb : option Z) : SM unit := fun s =>
  match open_utxo (us_db (su_utxo s)) dbcache_mb with
  | Ok u => (set_su_utxo s u, Ok tt)
  | Err e => (s, Err (StartupStorage e))
  end.

(** The UTXO set and the indexes removed, the tip at genesis. *)
Definition wipe_chainstate (genesis : Header) (dbcache_mb : option Z) : SM unit :=
  _ ← foldS remove_chainstate tt [DirUtxo; DirTxindex; DirIndex];
  _ ← on_su_index (set_best_tip (block_hash genesis) 0);
  reopen_utxo dbcache_mb.

(** The hash recorded with the flush, or that of the height index. *)
Definition flush_tip (utxo_height : Z) : SM (option hash256) :=
  h ← try_su_utxo get_flush_hash;
  s ← gets id;
  mret match h with
       | Ok (Some utxo_hash) => Some utxo_hash
       | _ => found (get_hash_at_height (su_index s) utxo_height)
       end.

(** The reconciled tip, and whether the UTXO set is known to match it. *)
Definition phase_a_reconcile_utxo (genesis : Header) (dbcache_mb : option Z) (best_height : Z) (best_hash : hash256) :
    SM (Z * hash256 * bool) :=
  if 0 <? best_height then
    flushed ← try_su_utxo get_flush_height;
    match flushed with
    | Ok (Some utxo_height) =>
        if utxo_height =? best_height then mret (best_height, best_hash, true)
        else
          tip ← flush_tip utxo_height;
          match tip with
          | Some hash =>
              _ ← on_su_index (set_best_tip hash utxo_height);
              mret (utxo_height, hash, utxo_height >? best_height)
          | None =>
              if utxo_height <? best_height then mret (best_height, best_hash, false)
              else
                r ← try_su_utxo (rollback_to best_height);
                match r with
                | Ok _ => mret (best_height, best_hash, true)
                | Err _ => _ ← wipe_chainstate genesis dbcache_mb; mret (0, block_hash genesis, false)
                end
          end
    | _ => mret (best_height, best_hash, false)
    end
  else mret (best_height, best_hash, false).

(** ** Stored blocks *)

(** The bytes of a block, if it has a position and can be read. *)
Definition read_stored (hash : hash256) (s : Startup) : Startup * option bytes :=
  match get_block_pos (su_index s) hash with
  | Ok (Some pos) =>
      let '(b, r) := read_block pos (su_blocks s) in
      (set_su_blocks s b, match r with Ok raw => Some raw | Err _ => None end)
  | _ => (s, None)
  end.

(** [while fallback_height > search_floor]; one iteration per height. *)
Fixpoint find_stored (n : nat) (fallback_height : Z) (s : Startup) : Startup * option (Z * hash256) :=
  match n with
  | O => (s, None)
  | S n =>
      let fallback_height := fallback_height - 1 in
      match get_hash_at_height (su_index s) fallback_height with
      | Ok (Some hash) =>
          match read_stored hash s with
          | (s, Some _) => (s, Some (fallback_height, hash))
          | (s, None) => find_stored n fallback_height s
          end
      | _ => find_stored n fallback_height s
      end
  end.

Definition verify_tip_block_stored (genesis : Header) (dbcache_mb : option Z) (best_height : Z) (best_hash : hash256)
    (utxo_verified : bool) : SM (Z * hash256) :=
  if (0 <? best_height) && negb utxo_verified then
    raw ← (fun s => let '(s, raw) := read_stored best_hash s in (s, Ok raw));
    match raw ≫= deserialize_block with
    | Some _ => mret (best_height, best_hash)
    | None =>
        let search_floor := sat_sub best_height 2000 in
        r ← (fun s => let '(s, r) := find_stored (Z.to_nat (best_height - search_floor)) best_height s in (s, Ok r));
        match r with
        | Some (fallback_height, hash) =>
            _ ← on_su_index (set_best_tip hash fallback_height); mret (fallback_height, hash)
        | None => _ ← wipe_chainstate genesis dbcache_mb; mret (0, block_hash genesis)
        end
    end
  else mret (best_height, best_hash).

Definition phase_c_scan_missing_blocks (best_height : Z) (s : Startup) : Startup * list Z :=
  if 0 <? best_height then
    let '(hi, r) := scan_block_store (su_blocks s) (sat_sub best_height 1000) best_height (su_index s) in
    (set_su_index s hi, match r with Ok missing => missing | Err _ => [] end)
  else (s, []).

(** ** Repair of the height index *)

(** The walk down from the tip: the blocks without a height entry, highest
    first.  It ends at two consecutive entries or after a retarget period. *)
Fixpoint repair_walk (fuel : nat) (floor walk_height : Z) (walk_hash : hash256) (consecutive_valid : Z)
    (missing : list (Z * hash256 * Header)) (s : Startup) : Startup * list (Z * hash256 * Header) :=
  match fuel with
  | O => (s, missing)
  | S fuel =>
      let has_entry := match found (get_hash_at_height (su_index s) walk_height) with Some _ => true | None => false end in
      let consecutive_valid := if has_entry then consecutive_valid + 1 else 0 in
      if has_entry && (2 <=? consecutive_valid) then (s, missing)
      else
        let '(s, raw) := read_stored walk_hash s in
        match raw ≫= deserialize_block with
        | None => (s, missing)
        | Some block =>
            let missing := if has_entry then missing else missing ++ [(walk_height, walk_hash, header block)] in
            if (walk_height =? 0) || (walk_height <=? floor) then (s, missing)
            else repair_walk fuel floor (walk_height - 1) (prev_blockhash (header block)) consecutive_valid missing s
        end
  end.

(** A missing header stored with the work of its branch; a failure is logged. *)
Definition repair_header (hi : HeaderIndex) (m : Z * hash256 * Header) : HeaderIndex :=
  let '(h, hash, header) := m in
  let prev_work := match found (get_header hi (prev_blockhash header)) with Some x => chain_work x | None => replicate 32 0 end in
  (insert_header hash (mkStored header h (add_chain_work prev_work (calculate_work (header_target header)))) hi).1.

Definition phase_d_repair_height_index (best_height : Z) (best_hash : hash256) (s : Startup) : Startup :=
  if 0 <? best_height then
    let scan_limit := Z.min best_height 2016 in
    let '(s, missing) := repair_walk (S (Z.to_nat scan_limit)) (sat_sub best_height scan_limit) best_height best_hash 0 [] s in
    match missing with
    | [] => s
    | _ =>
        let hi := foldl repair_header (su_index s) (reverse missing) in
        set_su_index s (set_header_tip best_hash best_height hi).1
    end
  else s.

(** ** The local replay of [main] *)

(** [while replay_h <= header_chain_height]; one iteration per height. *)
Fixpoint replay_loop (clock : nat -> Z) (n : nat) (replay_h consecutive_missing : Z) (c : ChainState) : ChainState :=
  match n with
  | O => c
  | S n =>
      match get_hash_at_height (ChainState.header_index c) replay_h with
      | Ok (Some hash) =>
          match read_raw hash c with
          | (c, None) =>
              if consecutive_missing + 1 >=? 3 then c
              else replay_loop clock n (replay_h + 1) (consecutive_missing + 1) c
          | (c, Some raw) =>
              match deserialize_block raw with
              | None => c
              | Some block =>
                  match connect_block_with_raw (clock n) block replay_h (Some raw) c with
                  | (c, Ok _) => replay_loop clock n (replay_h + 1) 0 c
                  | (c, Err _) => c
                  end
              end
          end
      | _ => c
      end
  end.

(** Whether the stored chain is above the tip, which starts the replay. *)
Definition replay_gap (hi : HeaderIndex) (best_height : Z) : StorageResult Z :=
  h ← get_best_height hi; Ok (default best_height h - best_height).

Definition local_replay (reindex_fuel : nat) (clock : nat -> Z) (c : ChainState) : ChainState * StorageResult unit :=
  match replay_gap (ChainState.header_index c) (ChainState.best_height c) with
  | Err e => (c, Err e)
  | Ok gap =>
      if 0 <? gap then
        let best_height := ChainState.best_height c in
        let next_has_pos :=
          match found (get_hash_at_height (ChainState.header_index c) (best_height + 1)) with
          | Some h => match found (get_block_pos (ChainState.header_index c) h) with Some _ => true | None => false end
          | None => false
          end in
        let c := if negb next_has_pos && (10 <? gap)
                 then ChainState.set_index c (reindex_block_files reindex_fuel (ChainState.block_store c) (ChainState.header_index c)).1
                 else c in
        (replay_loop clock (Z.to_nat gap) (best_height + 1) 0 c, Ok tt)
      else (c, Ok tt)
  end.

(** ** The phases in order *)

Definition without_bip110 (p : ConsensusParams) : ConsensusParams :=
  mkConsensusParams (network p) (magic p) (default_port p) (pow_limit p) (pow_target_timespan p) (pow_target_spacing p)
    (subsidy_halving_interval p) (bip16_time p) (bip34_height p) (bip65_height p) (csv_height p) (bip66_height p) (segwit_height p)
    (taproot_height p) (assume_valid p) (min_chain_work p) (pow_no_retargeting p) (pow_allow_min_difficulty_blocks p)
    (coinbase_maturity p) (max_block_weight p) (max_datacarrier_size p) (datacarrier p) (permit_bare_multisig p) (reject_parasites p)
    (reject_tokens p) None None (signet_challenge p).

(** An operator who abandoned BIP-110: no enforcement, no markers, no rival. *)
Definition apply_abandoned (params : ConsensusParams) : SM ConsensusParams :=
  a ← read_su get_bip110_abandoned;
  match a with
  | Some _ =>
      _ ← on_su_index clear_all_invalid;
      _ ← on_su_index clear_split_rival_tips;
      mret (without_bip110 params)
  | None => mret params
  end.

(** The tip that agrees with the flushed UTXO set. *)
Definition reconcile_tip (genesis : Header) (dbcache_mb : option Z) : SM (Z * hash256 * bool) :=
  '(best_height, best_hash) ← load_chain_tip genesis;
  phase_a_reconcile_utxo genesis dbcache_mb best_height best_hash.

Definition open_stores (nd : NetDir) (dbcache_mb : option Z) : StorageResult Startup :=
  hi ← open_headers (nd_headers nd);
  u ← open_utxo (nd_utxo nd) dbcache_mb;
  Ok (mkStartup hi u (start_background_writer (nd_blocks nd)) (nd_txindex nd) (nd_index nd)).

(** From the data directory to the opened stores and the reconciled tip. *)
Definition open_and_reconcile (params : ConsensusParams) (genesis : Header) (dbcache_mb : option Z) (reindex reindex_chainstate : bool)
    (nd : NetDir) : result StartupError (Startup * (ConsensusParams * (Z * hash256 * bool))) :=
  let '(nd, r) := (_ ← reindex_chainstate_wipe genesis reindex_chainstate;
                   check_integrity_and_reindex params genesis dbcache_mb reindex reindex_chainstate) nd in
  _ ← r;
  s ← lift_startup (open_stores nd dbcache_mb);
  let '(s, r) := (params ← apply_abandoned params; tip ← reconcile_tip genesis dbcache_mb; mret (params, tip)) s in
  r ← r; Ok (s, r).

(** The chain state [main] builds, and the blocks to download again. *)
Definition start_chain (params : ConsensusParams) (genesis : Header) (dbcache_mb : option Z) (reindex reindex_chainstate : bool)
    (nd : NetDir) : result StartupError (ChainState * list Z) :=
  '(s, (params, (best_height, best_hash, utxo_verified))) ← open_and_reconcile params genesis dbcache_mb reindex reindex_chainstate nd;
  let '(s, r) := verify_tip_block_stored genesis dbcache_mb best_height best_hash utxo_verified s in
  '(best_height, best_hash) ← r;
  let '(s, missing) := phase_c_scan_missing_blocks best_height s in
  let s := phase_d_repair_height_index best_height best_hash s in
  Ok (chain_new params (su_index s) (su_utxo s) (su_blocks s) best_height best_hash, missing).
End Recovery.
