(* ===== verification/CrashProofs.v ===== *)
(** * What a crash leaves on disk

    The databases are the only state that survives a crash, and every write of
    them may be the last.  At any point of connecting or disconnecting a block
    the flushed coins are those of a chain the node has been on, apart from
    coins of an interrupted flush, and the recorded tips belong to the same
    branch. *)

From Stdlib Require Import ZArith Lia.
From stdpp Require Import base option numbers list gmap strings.
From S2P Require Import Prelude Bytes U256 Types ScriptBytes Signatures VerifyScript Consensus Validation Store HeaderIndex TxIndex BlockStore Bip110 UtxoSet UtxoProofs ChainState ChainProofs ReorgProofs.

Lemma wp_and {S E A} (m : stm S E A) (P Q : S -> result E A -> Prop) s : wp m P s -> wp m Q s -> wp m (fun s' r => P s' r /\ Q s' r) s.
Proof. by split. Qed.

(** ** The UTXO database *)

Section Utxo.
Context `{HR : RocksDb} `{HL : !RocksLaws} `{HM : MapIter} `{HMI : !MapIterLaws}.
Implicit Types u : UtxoSet.

Definition flush_record u : option bytes * option bytes :=
  (contents (us_db u) CF_META (ascii_bytes "flush_height"), contents (us_db u) CF_META (ascii_bytes "flush_hash")).

(** Undo records aside, the same database contents. *)
Definition same_disk u u' : Prop :=
  flush_record u' = flush_record u /\ forall k, contents (us_db u') CF_UTXO k = contents (us_db u) CF_UTXO k.

(** The coins on disk are [m], or coins of [m'] that were written ahead. *)
Definition between (d : DB) (m m' : coin_map) : Prop :=
  forall k, disk_coin d k = m k \/ exists e, disk_coin d k = Some e /\ m' k = Some e.

Lemma same_disk_refl u : same_disk u u.
Proof. done. Qed.
Lemma same_disk_trans u1 u2 u3 : same_disk u1 u2 -> same_disk u2 u3 -> same_disk u1 u3.
Proof. intros [H1 H2] [H3 H4]. split; [congruence|]. intros k. by rewrite H4, H2. Qed.
Lemma same_disk_coin u u' k : same_disk u u' -> disk_coin (us_db u') k = disk_coin (us_db u) k.
Proof. intros [_ Hc]. unfold disk_coin. by rewrite Hc. Qed.

Lemma wrote_undo u w u' : wrote u w u' -> Forall (fun o => op_cf o = CF_UNDO) w -> same_disk u u'.
Proof.
  intros [_ Hc] Hw. assert (Hsame : forall cf k, cf <> CF_UNDO -> contents (us_db u') cf k = contents (us_db u) cf k).
  { intros cf k Hcf. rewrite Hc. apply apply_ops_other. eapply Forall_impl; [exact Hw|]. intros o Ho [? _]. congruence. }
  split; [|intros k; by apply Hsame]. unfold flush_record. by rewrite !Hsame.
Qed.

Lemma delete_undo_disk h u : wp (delete_undo h) (fun u' _ => same_disk u u') u.
Proof.
  unfold delete_undo. apply wp_bind, wp_modify. apply wp_bind, wp_cf. intros [[]|e]; [|done].
  eapply wp_mono; [|apply db_write_spec]. cbv beta. intros u' [[]|e] Hw; (eapply (wrote_undo (set_buffer u _)); [exact Hw|]); repeat constructor.
Qed.

Lemma flush_meta_hash c wb h :
  pending_flush_hash wb = Some h -> apply_ops c (flush_ops wb) CF_META (ascii_bytes "flush_hash") = Some h.
Proof.
  intros Hh. apply apply_ops_agree.
  - exists (Put CF_META (ascii_bytes "flush_hash") h). split_and!; [|done..].
    unfold flush_ops, meta_puts. rewrite Hh, !elem_of_app. right. right. right. by left.
  - intros o Ho Hcf Hk. unfold flush_ops in Ho. rewrite !elem_of_app in Ho. destruct Ho as [Ho|[Ho|Ho]].
    + by apply all_puts_meta in Ho.
    + apply elem_of_deletions in Ho as (k & _ & ->). done.
    + unfold meta_puts in Ho. rewrite Hh, elem_of_app in Ho. destruct Ho as [Ho|Ho].
      * destruct (pending_flush_height wb); [apply list_elem_of_singleton in Ho as ->; done|by apply not_elem_of_nil in Ho].
      * by apply list_elem_of_singleton in Ho as ->.
Qed.

(** A flush with a pending tip that completes has written everything. *)
Lemma flush_wrote u h :
  pending_flush_height (write_buffer u) = Some h ->
  wp flush_to_disk (fun u' r => is_ok r = true ->
    (forall c k, contents (us_db u') c k = apply_ops (contents (us_db u)) (flush_ops (write_buffer u)) c k) /\
    write_buffer u' = buffer_cleared (write_buffer u)) u.
Proof.
  intros Hh. unfold flush_to_disk. apply wp_bind, wp_gets. rewrite (bool_decide_eq_false_2 (_ = None)) by by rewrite Hh.
  rewrite andb_false_r. do 3 (apply wp_bind, wp_cf; intros [[]|?]; [|done]). cbv zeta.
  apply wp_bind. eapply wp_mono; [|apply (chunk_put_spec u [] _ []); [apply wrote_nil|done]]. intros u1 [acc1|e] H1; [|done].
  destruct H1 as (w1 & Hw1 & Ha1). apply wp_bind.
  eapply wp_mono; [|exact (chunk_put_spec u _ (undo_puts (undo_buffer (write_buffer u))) w1 acc1 u1 Hw1 Ha1)]. intros u2 [acc2|e] H2; [|done].
  destruct H2 as (w2 & Hw2 & Ha2). rewrite app_nil_l in Ha2. fold (all_puts (write_buffer u)) in Ha2.
  apply wp_bind. eapply wp_mono; [|apply db_write_wrote, Hw2]. intros u3 [[]|e] Hw3; [|done]. cbv beta iota in *.
  rewrite app_assoc, Ha2 in Hw3. fold (flush_ops (write_buffer u)) in Hw3. apply wp_bind, wp_modify, wp_modify. intros _.
  by destruct Hw3 as [[d ->] Hc].
Qed.

(** The disk after a flush with a pending tip. *)
Lemma flush_disk u h x :
  utxo_inv u -> pending_flush_height (write_buffer u) = Some h -> pending_flush_hash (write_buffer u) = Some x ->
  wp flush_to_disk (fun u' r =>
    match r with
    | Ok _ => flush_record u' = (Some (to_le 4 h), Some x) /\ forall k, disk_coin (us_db u') k = coins u k
    | Err _ => flush_record u' = flush_record u /\ between (us_db u') (disk_coin (us_db u)) (coins u)
    end) u.
Proof.
  intros Hu Hh Hx. pose proof (flush_spec u Hu) as Hs. pose proof (flush_wrote u h Hh) as Hw. unfold wp in *.
  destruct (flush_to_disk u) as [u' [[]|e]]; cbn [fst snd] in *; destruct Hs as (_ & _ & Hs).
  - destruct Hs as [(_ & Hc & Hm) _]. destruct (Hw eq_refl) as [Hw' _]. split.
    + unfold flush_record. rewrite (Hm h Hh), Hw', (flush_meta_hash _ _ x Hx). done.
    + intros k. destruct (coins u k) as [e|] eqn:Hk.
      * apply disk_coin_serialized; [by eapply coins_entry_ok|]. by rewrite Hc, Hk.
      * apply disk_coin_None. by rewrite Hc, Hk.
  - destruct Hs as (_ & _ & Hmeta & Hc). split; [unfold flush_record; by rewrite !Hmeta|]. intros k.
    destruct (Hc k) as [Hsame|(e' & He & Hv)]; [left; unfold disk_coin; by rewrite Hsame|right]. exists e'. split.
    + apply disk_coin_serialized; [|done]. destruct Hu as (_ & Hp & _). by apply (Hp k).
    + unfold coins. by rewrite He.
Qed.

(** The buffer after a batch. *)
Lemma buffered_pending wb b :
  pending_flush_height (buffered wb b) = pending_flush_height wb /\ pending_flush_hash (buffered wb b) = pending_flush_hash wb.
Proof.
  assert (Hi : forall l wb, pending_flush_height (foldl buffer_insert wb l) = pending_flush_height wb /\
    pending_flush_hash (foldl buffer_insert wb l) = pending_flush_hash wb).
  { intros l. induction l as [|[o e] l IH]; intros w; [done|]. cbn [foldl]. destruct (IH (buffer_insert w (o, e))) as [-> ->].
    unfold buffer_insert. by destruct (entries w !! _) as [[|]|]. }
  assert (Hr : forall l wb, pending_flush_height (foldl buffer_remove wb l) = pending_flush_height wb /\
    pending_flush_hash (foldl buffer_remove wb l) = pending_flush_hash wb).
  { intros l. induction l as [|o l IH]; intros w; [done|]. cbn [foldl]. destruct (IH (buffer_remove w o)) as [-> ->].
    unfold buffer_remove. by destruct (entries w !! _) as [[|]|]. }
  unfold buffered. cbn [count_block pending_flush_height pending_flush_hash].
  destruct (Hr (removals b) (foldl buffer_insert wb (inserts b))) as [-> ->]. apply Hi.
Qed.

(** A batch is buffered, and flushed or not. *)
Lemma apply_batch_cut u b (Q : UtxoSet -> StorageResult bool -> Prop) :
  utxo_inv u -> batch_ok (coins u) b ->
  (forall c, let u1 := set_cache (set_buffer u (buffered (write_buffer u) b)) c in
    utxo_inv u1 -> (forall k, coins u1 k = spec_batch (coins u) b k) ->
    Q u1 (Ok false) /\ wp flush_to_disk (fun u' r => Q u' (match r with Ok _ => Ok true | Err e => Err e end)) u1) ->
  wp (apply_batch b) Q u.
Proof.
  intros Hinv Hb HQ. unfold apply_batch.
  do 3 (apply wp_bind, wp_modify). apply wp_bind, wp_gets. apply wp_bind, wp_modify. apply wp_bind, wp_modify.
  cbn [set_buffer set_cache write_buffer cache cache_capacity us_db]. set (ev := if _ <=? _ then _ else _).
  assert (Hev : exists c, ev = set_cache (set_buffer u (buffered (write_buffer u) b)) c /\
    forall k x, c !! k = Some x -> cache u !! k = Some x /\ k ∉ map outpoint_key (removals b)).
  { unfold ev. rewrite foldl_delete_keys. set (c1 := foldl _ (cache u) _).
    assert (H1 : forall k x, c1 !! k = Some x -> cache u !! k = Some x /\ k ∉ map outpoint_key (removals b))
      by (intros k x; apply foldl_delete_lookup).
    destruct (Z.of_nat (size c1) <=? cache_capacity u); [exists c1; split; [reflexivity|exact H1]|].
    eexists. split; [reflexivity|]. intros k x Hx. apply foldl_delete_lookup in Hx as [Hx _]. by apply H1. }
  destruct Hev as (c & -> & Hsub). destruct (buffered_inv u b c Hinv Hb Hsub) as [Hinv' Hcoins].
  destruct (HQ c Hinv' Hcoins) as [Hno Hyes]. destruct (_ || _); [|by apply wp_ret].
  apply wp_bind. eapply wp_mono; [|exact Hyes]. by intros u' [[]|e] HQ'.
Qed.

Definition pending_is u (h : Z) (x : bytes) : Prop :=
  pending_flush_height (write_buffer u) = Some h /\ pending_flush_hash (write_buffer u) = Some x.

(** The tip stays pending. *)
Lemma apply_batch_pending u b h x :
  utxo_inv u -> batch_ok (coins u) b -> pending_is u h x -> wp (apply_batch b) (fun u' r => is_ok r = true -> pending_is u' h x) u.
Proof.
  intros Hu Hb [Hh Hx]. apply apply_batch_cut; [done|done|]. intros c u1 _ _. destruct (buffered_pending (write_buffer u) b) as [Hp1 Hp2].
  assert (H1 : pending_is u1 h x) by (split; cbn [u1 set_cache set_buffer write_buffer]; congruence). split; [done|].
  eapply wp_mono; [|apply (flush_wrote u1 h), H1]. cbv beta. intros u' [[]|e] Hw; [|done]. intros _. destruct (Hw eq_refl) as [_ Hwb].
  unfold pending_is. rewrite Hwb. exact H1.
Qed.

Lemma delete_undo_pending h u n x : pending_is u n x -> wp (delete_undo h) (fun u' _ => pending_is u' n x) u.
Proof.
  intros Hp. unfold delete_undo. apply wp_bind, wp_modify. apply wp_bind, wp_cf. intros [[]|e]; [|done].
  unfold wp, db_write. by destruct (write _ _).
Qed.

(** The disk after a batch with a pending tip. *)
Lemma apply_batch_disk u b h x :
  utxo_inv u -> batch_ok (coins u) b -> pending_flush_height (write_buffer u) = Some h -> pending_flush_hash (write_buffer u) = Some x ->
  wp (apply_batch b) (fun u' r =>
    match r with
    | Ok false => same_disk u u'
    | Ok true => flush_record u' = (Some (to_le 4 h), Some x) /\ forall k, disk_coin (us_db u') k = spec_batch (coins u) b k
    | Err _ => flush_record u' = flush_record u /\ between (us_db u') (disk_coin (us_db u)) (spec_batch (coins u) b)
    end) u.
Proof.
  intros Hu Hb Hh Hx. apply apply_batch_cut; [done|done|]. intros c u1 Hu1 Hc1. split; [by split|].
  destruct (buffered_pending (write_buffer u) b) as [Hp1 Hp2].
  eapply wp_mono; [|apply (flush_disk u1 h x Hu1); cbn [u1 set_cache set_buffer write_buffer]; congruence].
  cbv beta. intros u' [[]|e] [Hf Hd]; (split; [done|]); intros k.
  - by rewrite Hd.
  - destruct (Hd k) as [?|(e' & He & Hv)]; [by left|right]. exists e'. by rewrite <- Hc1.
Qed.
End Utxo.

(** ** The records of the header index *)

Section Index.
Context `{HR : RocksDb} `{HL : !RocksLaws} `{HW : !RocksWal} `{HC : HeaderCodec}.
Implicit Types hi : HeaderIndex.

Definition tip_record hi : option bytes * option bytes :=
  (contents (hi_db hi) CF_HMETA META_BEST_HEIGHT, contents (hi_db hi) CF_HMETA META_BEST_HASH).

Definition same_records hi hi' : Prop := tip_record hi' = tip_record hi.

(** A step that leaves the records alone, whether it succeeds or not. *)
Definition keeps_records {A} (m : stm HeaderIndex StorageError A) : Prop := forall hi, same_records hi (m hi).1.

Lemma same_records_refl hi : same_records hi hi.
Proof. done. Qed.
Lemma same_records_trans h1 h2 h3 : same_records h1 h2 -> same_records h2 h3 -> same_records h1 h3.
Proof. unfold same_records. congruence. Qed.

Lemma keeps_records_bind {A B} (m : stm HeaderIndex StorageError A) (f : A -> stm HeaderIndex StorageError B) :
  keeps_records m -> (forall a, keeps_records (f a)) -> keeps_records (m ≫= f).
Proof.
  intros Hm Hf hi. specialize (Hm hi). unfold mbind, stm_bind. destruct (m hi) as [hi' [a|e]]; [|done].
  eapply same_records_trans; [exact Hm|apply Hf].
Qed.
Lemma keeps_records_ret {A} (a : A) : keeps_records (mret a).
Proof. done. Qed.
Lemma keeps_records_gets {A} (f : HeaderIndex -> A) : keeps_records (gets f).
Proof. done. Qed.
Lemma keeps_records_lift {A} (r : StorageResult A) : keeps_records (lift r).
Proof. done. Qed.
Lemma keeps_records_cf name : keeps_records (hi_cf name).
Proof. done. Qed.
Lemma keeps_records_wal : keeps_records flush_wal.
Proof. done. Qed.

(** The keys of the record. *)
Definition record_key (k : bytes) : Prop := k ∈ [META_BEST_HEIGHT; META_BEST_HASH].

Lemma other_key cf k : bool_decide (k ∈ [META_BEST_HEIGHT; META_BEST_HASH]) = false -> ~ (cf = CF_HMETA /\ record_key k).
Proof. by intros Hk%bool_decide_eq_false [_ ?]. Qed.

Lemma write_contents (d d' : DB) ops r cf k :
  write d ops = (d', r) -> contents d' cf k = apply_ops (contents d) (match r with Ok _ => ops | Err _ => [] end) cf k.
Proof. destruct r as [[]|e]; intros Hw; [by apply write_applies|by eapply write_atomic]. Qed.

Lemma keeps_records_write ops :
  Forall (fun o => ~ (op_cf o = CF_HMETA /\ record_key (op_key o))) ops -> keeps_records (hi_write ops).
Proof.
  intros Ho hi. unfold hi_write. destruct (write (hi_db hi) ops) as [d r] eqn:Hw.
  assert (Hk : forall k, record_key k -> contents d CF_HMETA k = contents (hi_db hi) CF_HMETA k).
  { intros k Hk. rewrite (write_contents _ _ _ _ _ _ Hw). apply apply_ops_other. destruct r; [|constructor].
    eapply Forall_impl; [exact Ho|]. cbn. intros o Hn [H1 H2]. apply Hn. by rewrite H1, H2. }
  unfold same_records, tip_record. cbn [fst set_hi_db hi_db].
  rewrite !Hk by (unfold record_key; rewrite !elem_of_cons; tauto). done.
Qed.

Lemma set_best_tip_record hash height hi :
  let '(hi', r) := set_best_tip hash height hi in
  tip_record hi' = match r with Ok _ => (Some (to_le 4 height), Some hash) | Err _ => tip_record hi end.
Proof.
  unfold set_best_tip, mbind, stm_bind, hi_cf, hi_write. destruct (guard_err _ _) as [[]|e]; [|done].
  destruct (write _ _) as [d r] eqn:Hw. unfold tip_record. cbn [set_hi_db hi_db]. rewrite !(write_contents _ _ _ _ _ _ Hw). by destruct r.
Qed.
End Index.

(** Steps of the header index that write other keys. *)
Ltac solve_keeps_records :=
  repeat first
    [ apply keeps_records_ret | apply keeps_records_gets | apply keeps_records_lift | apply keeps_records_cf | apply keeps_records_wal
    | apply keeps_records_write; solve [repeat (constructor; [first [cbn; by intros [? ?] | by apply other_key]|]); constructor]
    | apply keeps_records_bind; [|intros ?]
    | case_match ].

(** ** The node *)

Section Crash.
Context `{HH : Hashes} `{HSc : ScriptLib} `{HSi : SigLib} `{HT : TxLib} `{HO : OutPointOrd} `{HTS : TxSizes} `{HR : RocksDb}
  `{HL : !RocksLaws} `{HW : !RocksWal} `{HC : HeaderCodec} `{HF : BlockFiles} `{HM : MapIter} `{HMI : !MapIterLaws} `{HRun : Runtime}
  `{HRL : !RuntimeLaws}.
Implicit Types c : ChainState.

Definition durable c c' : Prop := same_disk (utxo_set c) (utxo_set c') /\ same_records (header_index c) (header_index c').

(** A step outside the UTXO set that leaves the records alone. *)
Definition keeps_tips {A} (m : stm ChainState CoreError A) : Prop :=
  keeps m /\ forall c, same_records (header_index c) (header_index (m c).1).

Lemma keeps_tips_index {A} (m : stm HeaderIndex StorageError A) : keeps_records m -> keeps_tips (on_index m).
Proof.
  intros Hm. split; [apply keeps_on_index|]. intros c. unfold on_index. specialize (Hm (header_index c)). by destruct (m (header_index c)).
Qed.
Lemma keeps_tips_blocks {A} (m : stm BlockStore StorageError A) : keeps_tips (on_blocks m).
Proof. split; [apply keeps_on_blocks|]. intros c. unfold on_blocks. by destruct (m _). Qed.
Lemma keeps_tips_tx_index (m : stm TxIndex StorageError unit) : keeps_tips (on_tx_index m).
Proof. split; [apply keeps_on_tx_index|]. intros c. unfold on_tx_index. destruct (tx_index c); [|done]. by destruct (m _). Qed.
Lemma keeps_tips_read {A} (f : HeaderIndex -> StorageResult A) : keeps_tips (read_index f).
Proof. split; [apply keeps_read_index|done]. Qed.
Lemma keeps_tips_ret {A} (a : A) : keeps_tips (mret a).
Proof. done. Qed.
Lemma keeps_tips_bind {A B} (m : stm ChainState CoreError A) (f : A -> stm ChainState CoreError B) :
  keeps_tips m -> (forall a, keeps_tips (f a)) -> keeps_tips (m ≫= f).
Proof.
  intros [Hm Hr] Hf. split; [apply keeps_bind; [done|]; intros a; apply Hf|]. intros c. specialize (Hr c).
  unfold mbind, stm_bind. destruct (m c) as [c' [a|e]]; [|done]. eapply same_records_trans; [exact Hr|apply Hf].
Qed.
Lemma keeps_tips_header block height hash : keeps_tips (ensure_header block height hash).
Proof.
  unfold ensure_header. apply keeps_tips_bind; [apply keeps_tips_read|]. intros [?|]; [done|].
  apply keeps_tips_bind; [apply keeps_tips_read|]. intros [?|]; [|done]. apply keeps_tips_index. unfold insert_header. solve_keeps_records.
Qed.

(** What holds of the disk survives such a step, and its failure. *)
Definition stable (R : ChainState -> Prop) : Prop := forall c c', durable c c' -> R c -> R c'.

Lemma wp_stable {A B} (R : ChainState -> Prop) (m : stm ChainState CoreError A) (f : A -> stm ChainState CoreError B)
    (Q : ChainState -> result CoreError B -> Prop) c :
  stable R -> keeps_tips m -> R c -> (forall c' e, R c' -> Q c' (Err e)) ->
  (forall c' a, R c' -> same_frame c c' -> wp (f a) Q c') -> wp (m ≫= f) Q c.
Proof.
  intros HR' [Hk Hr] Hc He Hf. apply wp_bind. unfold wp at 1. specialize (Hk c). specialize (Hr c). destruct (m c) as [c' r]; cbn [fst snd] in *.
  destruct Hk as [(Hu & Hp) _]. assert (Hc' : R c') by (apply (HR' c); [split; [by rewrite Hu|done]|done]).
  destruct r as [a|e]; [by apply Hf|by apply He].
Qed.

Abbreviation hash_of block := (block_hash (header block)).
Context (c0 : ChainState).
Abbreviation base := (coins (utxo_set c0)).
Abbreviation h0 := (best_height c0).

Definition chain_record (chain : list Block) : option bytes * option bytes :=
  (Some (to_le 4 (h0 + len chain)), Some (tip_hash c0 chain)).

(** The flushed coins are those of the chain [f], apart from coins of the
    chain [y] of an interrupted flush. *)
Definition on_disk c (f y : list Block) : Prop :=
  flush_record (utxo_set c) = chain_record f /\ between (us_db (utxo_set c)) (chain_coins base h0 f) (chain_coins base h0 y).

(** Between two operations: the flushed chain [f] is part of the active chain
    and the recorded tip is its tip. *)
Definition persisted c (chain : list Block) : Prop :=
  exists f, f `suffix_of` chain /\ on_disk c f f /\ tip_record (header_index c) = chain_record f.

(** At any write of an operation on the chain [x]. *)
Definition crashed c (x : list Block) : Prop :=
  exists f b y, f `suffix_of` x /\ b `suffix_of` x /\ y `suffix_of` x /\ on_disk c f y /\
    tip_record (header_index c) = chain_record b.

Lemma durable_refl c : durable c c.
Proof. done. Qed.

Lemma on_disk_durable c c' f y : durable c c' -> on_disk c f y -> on_disk c' f y.
Proof.
  intros [Hd _] [Hf Hb]. split; [by rewrite (proj1 Hd)|]. intros k. rewrite (same_disk_coin _ _ k Hd). apply Hb.
Qed.

Lemma stable_persisted chain : stable (fun c => persisted c chain).
Proof.
  intros c c' Hd (f & Hs & Ho & Ht). exists f. split_and!; [done|by eapply on_disk_durable|]. by rewrite (proj2 Hd).
Qed.

Lemma stable_crashed x : stable (fun c => crashed c x).
Proof.
  intros c c' Hd (f & b & y & Hf & Hb & Hy & Ho & Ht). exists f, b, y. split_and!; [done..|by eapply on_disk_durable|]. by rewrite (proj2 Hd).
Qed.

Lemma persisted_crashed c chain x : chain `suffix_of` x -> persisted c chain -> crashed c x.
Proof. intros Hx (f & Hs & Ho & Ht). exists f, f, f. assert (f `suffix_of` x) by by transitivity chain. split_and!; done. Qed.

Lemma persisted_grow c chain block : persisted c chain -> persisted c (block :: chain).
Proof. intros (f & Hs & H'). exists f. split; [by apply suffix_cons_r|done]. Qed.

Lemma durable_of_same_chain c c' : same_chain c c' -> durable c c'.
Proof. intros (_ & Hi & _ & _ & _ & _ & _ & Hdb & _). split; [|by rewrite Hi]. split; [unfold flush_record; by rewrite Hdb|intros k; by rewrite Hdb]. Qed.

(** ** Connecting *)

Lemma wp_on_index {A} (m : stm HeaderIndex StorageError A) (Q : ChainState -> result CoreError A -> Prop) c :
  wp m (fun hi r => Q (set_index c hi) (lift_storage r)) (header_index c) -> wp (on_index m) Q c.
Proof. unfold wp, on_index. by destruct (m (header_index c)). Qed.

(** After a flush the tip follows. *)
Lemma record_flush c x f hash height :
  on_disk c x x -> tip_record (header_index c) = chain_record f -> f `suffix_of` x -> hash = tip_hash c0 x -> height = h0 + len x ->
  wp (on_index (set_best_tip hash height))
    (fun c' r => same_frame c c' /\ match r with Ok _ => persisted c' x | Err _ => crashed c' x end) c.
Proof.
  intros Ho Ht Hs -> ->. apply wp_on_index. unfold wp. pose proof (set_best_tip_record (tip_hash c0 x) (h0 + len x) (header_index c)) as H1.
  destruct (set_best_tip _ _ _) as [hi1 [[]|e]]; cbn [fst snd lift_storage]; (split; [done|]).
  - exists x. split_and!; [done|done|exact H1].
  - exists x, f, x. cbn [set_index header_index]. split_and!; [done..|congruence].
Qed.

(** The coins after a validated batch. *)
Lemma batch_coins c chain M block b :
  history_inv c0 c chain -> block_wf c block (best_height c + 1) -> batch_inv c M block (best_height c + 1) b ->
  forall k, spec_batch (coins (utxo_set c)) b k = chain_coins base h0 (block :: chain) k.
Proof.
  intros Hi Hwf Hb k. pose proof (batch_inv_undoable _ _ _ _ _ (hi_utxo _ _ _ Hi) Hwf Hb) as Hua.
  rewrite (spec_batch_ext _ (chain_coins base h0 chain) _ _ (hi_coins _ _ _ Hi)). cbn [chain_coins]. apply spec_batch_same.
  - rewrite (ua_inserts _ _ _ _ Hua). cbn [inserts]. f_equal. rewrite (hi_height _ _ _ Hi), len_cons. lia.
  - by destruct Hb as (? & ? & ? & _ & _ & ? & _).
Qed.

(** The second half of [connect_block_with_raw]. *)
Lemma commit_crash c chain block height b txids tx_step :
  let x := block :: chain in
  utxo_inv (utxo_set c) -> batch_ok (coins (utxo_set c)) b -> persisted c chain ->
  (forall k, spec_batch (coins (utxo_set c)) b k = chain_coins base h0 x k) -> height = h0 + len x ->
  wp (_ ← on_utxo (store_undo (hash_of block) (batch_spent b) (map fst (inserts b)) (prev_blockhash (header block)));
      _ ← on_utxo (set_pending_flush_height height (hash_of block));
      flushed ← on_utxo (apply_batch b);
      _ ← on_tx_index tx_step;
      _ ← modify (fun c => set_tip c height (hash_of block));
      _ ← (if flushed : bool then
             _ ← on_index (set_best_tip (hash_of block) height);
             _ ← on_index (set_validated_height height);
             on_index flush_wal
           else mret tt);
      _ ← (if height mod 10000 =? 0 then modify (fun c => set_sig_cache c (cache_clear (sig_cache c))) else mret tt);
      mret txids)
    (fun c' (r : result CoreError (list hash256)) => match r with Ok _ => persisted c' x | Err _ => crashed c' x end) c.
Proof.
  intros x Hu Hb (f & Hs & [Hf Hbt] & Ht) Hx Hh. assert (Hsx : f `suffix_of` x) by (by apply suffix_cons_r).
  assert (Hkeep : forall (c' : ChainState) (cond : bool), persisted c' x -> wp (_ ← (if cond then modify (fun c => set_sig_cache c (cache_clear (sig_cache c))) else mret tt); mret txids)
    (fun c' (r : result CoreError (list hash256)) => match r with Ok _ => persisted c' x | Err _ => crashed c' x end) c') by (by intros ? []).
  apply wp_bind, wp_on_utxo, wp_modify. apply wp_bind, wp_on_utxo, wp_modify. apply wp_bind, wp_on_utxo. cbn [set_utxo utxo_set lift_storage].
  match goal with |- wp _ _ ?u => set (u2 := u) end. destruct (same_coins_inv (utxo_set c) u2 Hu) as [Hu2 Hc2]; [done..|].
  assert (Hb2 : batch_ok (coins u2) b) by (intros i Hi'; rewrite Hc2; by apply Hb).
  eapply wp_mono; [|by apply (apply_batch_disk u2 b height (hash_of block) Hu2 Hb2)]. cbv beta.
  assert (Hx2 : forall k, spec_batch (coins u2) b k = chain_coins base h0 x k) by (intros k; rewrite <- Hx; by apply spec_batch_ext).
  intros u3 [[]|e] Hd; cbn [lift_storage].
  - destruct Hd as [Hfr Hdc]. eapply (wp_stable (fun c' => on_disk c' x x /\ tip_record (header_index c') = chain_record f)).
    + intros c1 c2 Hd [H1 H2]. split; [by eapply on_disk_durable|]. by rewrite (proj2 Hd).
    + apply keeps_tips_tx_index.
    + split; [|exact Ht]. split; cbn [set_utxo utxo_set]; [rewrite Hfr; unfold chain_record; by rewrite <- Hh|]. intros k. left. by rewrite Hdc.
    + intros c' e [H1 H2]. by exists x, f, x.
    + intros c4 ? [H1 H2] _. apply wp_bind, wp_modify. apply wp_bind. apply wp_bind.
      eapply wp_mono; [|by apply (record_flush (set_tip c4 height (hash_of block)) x f)]. cbv beta. intros c5 [[]|e] [_ H5]; [|done].
      assert (Hend : forall c', persisted c' x -> crashed c' x) by (intros; by apply (persisted_crashed _ x)).
      eapply (wp_stable _ _ _ _ _ (stable_persisted x)); [|exact H5|by intros; apply Hend|].
      { apply keeps_tips_index. unfold set_validated_height. solve_keeps_records. }
      intros c6 ? H6 _. apply wp_on_index. unfold wp, flush_wal. cbn [fst snd]. destruct (db_flush_wal _); [by apply Hkeep|by apply Hend].
  - assert (Hp3 : persisted (set_utxo c u3) x).
    { exists f. split_and!; [done| |exact Ht]. split; cbn [set_utxo utxo_set]; [by rewrite (proj1 Hd)|].
      intros k. rewrite (same_disk_coin _ _ k Hd). apply Hbt. }
    eapply (wp_stable _ _ _ _ _ (stable_persisted x) (keeps_tips_tx_index _) Hp3); [intros; by apply (persisted_crashed _ x)|].
    intros c4 ? Hp4 _. apply wp_bind, wp_modify. apply wp_bind, wp_ret. apply Hkeep. exact Hp4.
  - destruct Hd as [Hfr Hbw]. exists f, f, x. split_and!; [done..| |exact Ht]. split; cbn [set_utxo utxo_set]; [by rewrite Hfr|].
    intros k. destruct (Hbw k) as [Hk|(e' & He & Hk)]; [|right; exists e'; by rewrite <- Hx2].
    left. rewrite Hk. destruct (Hbt k) as [?|(e' & ? & ?)]; [done|]. change (us_db u2) with (us_db (utxo_set c)). congruence.
Qed.

Lemma connect_crash c chain now block raw :
  base_ok c0 -> history_inv c0 c chain -> persisted c chain -> block_wf c block (best_height c + 1) ->
  wp (connect_block_with_raw now block (best_height c + 1) raw)
    (fun c' r => match r with Ok _ => persisted c' (block :: chain) | Err _ => crashed c' (block :: chain) end) c.
Proof.
  intros Hbase Hi Hp Hwf. pose proof (hi_utxo _ _ _ Hi) as Hu. destruct (chain_backed_value _ _ _ (hi_backed _ _ _ Hi)) as (M & HM' & Ht).
  assert (Hr : represents M (coins (utxo_set c))) by (intros k; by rewrite (hi_coins _ _ _ Hi)).
  set (x := block :: chain). assert (Hx : chain `suffix_of` x) by (by apply suffix_cons_r).
  assert (Hh : best_height c + 1 = h0 + len x) by (rewrite (hi_height _ _ _ Hi); unfold x; rewrite len_cons; lia).
  assert (Hend : forall c', persisted c' chain -> crashed c' x) by (intros; by eapply persisted_crashed).
  unfold connect_block_with_raw. apply wp_bind.
  eapply wp_mono; [|apply (validate_block_inv c M now block (best_height c + 1) Hu Hr (chain_supply c0 Hbase _ _ Ht) Hwf c), same_chain_refl, Hu].
  cbv beta. intros c1 [b|e] [Hc1 Hb]; [|by apply Hend, (stable_persisted _ c), Hp; apply durable_of_same_chain].
  specialize (Hb b eq_refl). assert (Hp1 : persisted c1 chain) by (apply (stable_persisted _ c); [by apply durable_of_same_chain|done]).
  destruct Hc1 as (_ & _ & _ & _ & _ & _ & Hu1 & _ & Hwb1 & Hco1).
  apply (wp_stable _ _ _ _ _ (stable_persisted chain) (keeps_tips_blocks _) Hp1); [by intros; apply Hend|]. intros c2 pos Hp2 (Hs2 & _).
  eapply (wp_stable _ _ _ _ _ (stable_persisted chain)); [|exact Hp2|by intros; apply Hend|].
  { apply keeps_tips_index. unfold set_block_pos. solve_keeps_records. } intros c3 ? Hp3 (Hs3 & _).
  eapply (wp_stable _ _ _ _ _ (stable_persisted chain)); [|exact Hp3|by intros; apply Hend|].
  { apply keeps_tips_index. unfold set_height_hash. solve_keeps_records. } intros c4 ? Hp4 (Hs4 & _).
  apply (wp_stable _ _ _ _ _ (stable_persisted chain) (keeps_tips_header _ _ _) Hp4); [by intros; apply Hend|]. intros c5 ? Hp5 (Hs5 & _).
  assert (Hu5 : utxo_set c5 = utxo_set c1) by congruence.
  apply commit_crash; [by rewrite Hu5| |done| |done]; rewrite Hu5.
  - intros i Hin. rewrite Hco1. by apply (batch_inv_ok c M block (best_height c + 1) b).
  - intros k. rewrite <- (batch_coins c chain M block b Hi Hwf Hb k). by apply spec_batch_ext.
Qed.

(** ** Disconnecting *)

(** While a block of [x] is disconnected: the chain below it, or a shorter one,
    is on disk. *)
Definition receding (x : list Block) c : Prop :=
  exists f b, f `suffix_of` x /\ b `suffix_of` x /\ on_disk c f f /\ tip_record (header_index c) = chain_record b.

Lemma stable_receding x : stable (receding x).
Proof.
  intros c c' Hd (f & b & Hf & Hb & Ho & Ht). exists f, b. split_and!; [done..|by eapply on_disk_durable|]. by rewrite (proj2 Hd).
Qed.

Lemma receding_crashed x c : receding x c -> crashed c x.
Proof. intros (f & b & Hf & Hb & Ho & Ht). by exists f, b, f. Qed.

(** A possible flush of the coins of [y] with its tip. *)
Lemma flush_crash {A} c x y (m : stm UtxoSet StorageError A) (out : A -> bool) (u : UtxoSet) :
  y `suffix_of` x -> receding x (set_utxo c u) ->
  wp m (fun u' r =>
    match r with
    | Ok a => if out a then flush_record u' = chain_record y /\ forall k, disk_coin (us_db u') k = chain_coins base h0 y k else same_disk u u'
    | Err _ => flush_record u' = flush_record u /\ between (us_db u') (disk_coin (us_db u)) (chain_coins base h0 y)
    end) u ->
  wp m (fun u' r => match r with Ok a => receding x (set_utxo c u') /\ (out a = true -> on_disk (set_utxo c u') y y) | Err _ => crashed (set_utxo c u') x end) u.
Proof.
  intros Hy (f & b & Hf & Hb & [Hfr Hbt] & Ht) Hm. eapply wp_mono; [|exact Hm]. cbv beta. intros u' [a|e].
  - destruct (out a) eqn:Ha.
    + intros [H1 H2]. assert (Ho : on_disk (set_utxo c u') y y) by (split; [done|]; intros k; left; apply H2). split; [|done]. by exists y, b.
    + intros Hd. split; [|done]. exists f, b. split_and!; [done..| |done]. split; [cbn [set_utxo utxo_set]; by rewrite (proj1 Hd)|].
      intros k. cbn [set_utxo utxo_set]. rewrite (same_disk_coin _ _ k Hd). apply Hbt.
  - intros [H1 H2]. exists f, b, y. split_and!; [done..| |done]. split; cbn [set_utxo utxo_set] in *; [by rewrite H1|]. intros k.
    destruct (H2 k) as [Hk|?]; [|by right]. rewrite Hk. destruct (Hbt k) as [?|(e' & ? & ?)]; [by left|left; congruence].
Qed.

Lemma persisted_receding c chain : persisted c chain -> receding chain c.
Proof. intros (f & Hs & Ho & Ht). by exists f, f. Qed.

(** The second half of [disconnect_block]. *)
Lemma uncommit_crash c chain block height ub tx_step :
  let x := block :: chain in let hash := hash_of block in let prev := prev_blockhash (header block) in
  utxo_inv (utxo_set c) -> batch_ok (coins (utxo_set c)) ub -> receding x c ->
  (forall k, spec_batch (coins (utxo_set c)) ub k = chain_coins base h0 chain k) -> sat_sub height 1 = h0 + len chain -> prev = tip_hash c0 chain ->
  wp (_ ← on_utxo (set_pending_flush_height (sat_sub height 1) prev);
      _ ← on_utxo (apply_batch ub);
      _ ← on_utxo (delete_undo hash);
      _ ← on_tx_index tx_step;
      _ ← modify (fun c => set_tip c (sat_sub height 1) prev);
      c ← gets id;
      _ ← match get_hash_at_height (header_index c) height with
          | Ok (Some h) => if bool_decide (h = hash) then on_index (delete_height_entry height) else mret tt
          | _ => on_index (delete_height_entry height)
          end;
      _ ← on_utxo flush_to_disk;
      c ← gets id;
      on_index (set_best_tip (best_hash c) (best_height c)))
    (fun c' (r : result CoreError unit) => match r with Ok _ => persisted c' chain | Err _ => crashed c' x end) c.
Proof.
  intros x hash prev Hu Hb Hp Hc Hh Hprev. assert (Hsx : chain `suffix_of` x) by (by apply suffix_cons_r).
  assert (Hrec : (Some (to_le 4 (sat_sub height 1)), Some prev) = chain_record chain) by (unfold chain_record; by rewrite Hh, Hprev).
  assert (Hend : forall c', receding x c' -> crashed c' x) by (intros; by apply receding_crashed).
  apply wp_bind, wp_on_utxo, wp_modify. cbn [lift_storage]. apply wp_bind, wp_on_utxo. cbn [set_utxo utxo_set].
  match goal with |- wp _ _ ?u => set (u2 := u) end. destruct (same_coins_inv (utxo_set c) u2 Hu) as [Hu2 Hc2]; [done..|].
  assert (Hb2 : batch_ok (coins u2) ub) by (intros i Hi'; rewrite Hc2; by apply Hb).
  assert (Hx2 : forall k, spec_batch (coins u2) ub k = chain_coins base h0 chain k) by (intros k; rewrite <- Hc; by apply spec_batch_ext).
  assert (Hp2 : receding x (set_utxo c u2)) by (by apply (stable_receding x c)).
  assert (Hd2 := apply_batch_disk u2 ub _ _ Hu2 Hb2 eq_refl eq_refl).
  eapply wp_mono; [|apply wp_and; [apply (apply_batch_spec u2 ub Hu2 Hb2)|apply wp_and;
    [apply (apply_batch_pending u2 ub _ _ Hu2 Hb2 (conj eq_refl eq_refl))|apply (flush_crash c x chain (apply_batch ub) id u2 Hsx Hp2)]]].
  2: { eapply wp_mono; [|exact Hd2]. cbv beta. intros u' [[]|e]; cbn [id].
       - intros [H1 H2]. split; [by rewrite H1|]. intros k. by rewrite H2.
       - done.
       - intros [H1 H2]. split; [done|]. intros k. destruct (H2 k) as [?|(e' & ? & Hk)]; [by left|right]. exists e'. by rewrite <- Hx2. }
  cbv beta. intros u3 r (Hi3 & Hpe3 & Hr3). destruct r as [fl|e]; cbn [lift_storage]; [|done]. destruct Hr3 as [Hr3 _].
  destruct Hi3 as (Hu3 & Hc3 & _). specialize (Hpe3 eq_refl).
  apply wp_bind, wp_on_utxo. cbn [set_utxo utxo_set].
  eapply wp_mono; [|apply wp_and; [apply (delete_undo_spec hash u3 Hu3)|apply wp_and; [apply (delete_undo_disk hash u3)|apply (delete_undo_pending hash u3 _ _ Hpe3)]]].
  cbv beta. intros u4 r ((Hu4 & Hc4) & Hd4 & Hpe4).
  assert (Hr4 : receding x (set_utxo (set_utxo c u3) u4)) by (apply (stable_receding x (set_utxo c u3)); [by split|done]).
  destruct r as [[]|e]; cbn [lift_storage]; [|by apply Hend].
  apply (wp_stable _ _ _ _ _ (stable_receding x) (keeps_tips_tx_index _) Hr4); [by intros; apply Hend|]. intros c5 ? Hr5 (Hs5 & _).
  apply wp_bind, wp_modify. apply wp_bind, wp_gets. cbn [id].
  apply (wp_stable (receding x)); [apply stable_receding| |exact Hr5|by intros; apply Hend|].
  { assert (Hk : keeps_tips (on_index (delete_height_entry height))) by (apply keeps_tips_index; unfold delete_height_entry; solve_keeps_records).
    repeat case_match; done. }
  intros c6 ? Hr6 (Hs6 & _ & Hh6 & Hb6). cbn [set_tip utxo_set best_height best_hash] in Hs6, Hh6, Hb6. rewrite Hs5 in Hs6.
  apply wp_bind, wp_on_utxo. rewrite Hs6. eapply wp_mono; [|apply (flush_crash c6 x chain flush_to_disk (fun _ => true) u4 Hsx)].
  - cbv beta. intros u7 [[]|e] H7; cbn [lift_storage]; [|done]. destruct H7 as [Hr7 Ho7]. specialize (Ho7 eq_refl).
    apply wp_bind, wp_gets. cbn [id set_utxo best_height best_hash]. apply wp_on_index. unfold wp. rewrite Hh6, Hb6.
    pose proof (set_best_tip_record prev (sat_sub height 1) (header_index (set_utxo c6 u7))) as H8.
    destruct (set_best_tip _ _ _) as [hi8 [[]|e]]; cbn [fst snd lift_storage].
    + exists chain. split_and!; [done|exact Ho7|]. cbn [set_index header_index]. by rewrite H8.
    + apply Hend, (stable_receding x (set_utxo c6 u7)); [split; [done|exact H8]|done].
  - apply (stable_receding x c6); [by split; [cbn [set_utxo utxo_set]; rewrite Hs6|]|done].
  - destruct Hpe4 as [Hpe1 Hpe2]. eapply wp_mono; [|apply (flush_disk u4 _ _ Hu4 Hpe1 Hpe2)]. cbv beta.
    assert (Hcc : forall k, coins u4 k = chain_coins base h0 chain k) by (intros k; by rewrite Hc4, Hc3).
    intros u' [[]|e] [H1 H2]; (split; [by rewrite ?H1|]); intros k; [by rewrite H2|].
    destruct (H2 k) as [?|(e' & ? & ?)]; [by left|right]. exists e'. by rewrite <- Hcc.
Qed.

Lemma disconnect_crash c chain block :
  base_ok c0 -> history_inv c0 c (block :: chain) -> persisted c (block :: chain) ->
  wp (disconnect_block block (best_height c))
    (fun c' r => match r with Ok _ => persisted c' chain | Err _ => crashed c' (block :: chain) end) c.
Proof.
  intros Hbase Hi Hp%persisted_receding. set (x := block :: chain) in *. assert (Hsx : chain `suffix_of` x) by (by apply suffix_cons_r).
  pose proof (hi_utxo _ _ _ Hi) as Hu. pose proof (hi_backed _ _ _ Hi) as Hbk. unfold x in Hbk. cbn [chain_backed] in Hbk.
  destruct Hbk as (_ & Hprev & _ & (b & Hua & Hrem & Hrec) & _).
  assert (Hco : forall k, coins (utxo_set c) k = spec_batch (chain_coins base h0 chain) b k).
  { intros k. rewrite (hi_coins _ _ _ Hi). unfold x. cbn [chain_coins]. apply spec_batch_same; [by rewrite (ua_inserts _ _ _ _ Hua)|done]. }
  assert (Hh : sat_sub (best_height c) 1 = h0 + len chain).
  { destruct Hbase as (_ & _ & Hpos & _). rewrite (hi_height _ _ _ Hi). unfold x. rewrite len_cons. unfold sat_sub, len. lia. }
  assert (Hend : forall c', receding x c' -> crashed c' x) by (intros; by apply receding_crashed).
  unfold disconnect_block. apply wp_bind, wp_gets. cbn [id].
  apply wp_bind, wp_lift. destruct (guard_err _ _) as [[]|e]; [|by apply Hend]. apply wp_bind, wp_lift. destruct (guard_err _ _) as [[]|e]; [|by apply Hend].
  apply wp_bind, wp_on_utxo. eapply wp_mono; [|apply load_undo_data]. cbv beta. intros u1 r [-> Hload].
  assert (Hp1 : receding x (set_utxo c (utxo_set c))) by (by apply (stable_receding x c)).
  destruct r as [o|e]; cbn [lift_storage]; [|by apply Hend]. specialize (Hload o eq_refl). rewrite Hrec in Hload.
  destruct o as [undo|]; [|done]. destruct Hload as (d & [= <-] & Hd). rewrite (undo_record_reads _ _ _ _ Hua) in Hd. injection Hd as <-.
  apply wp_bind, wp_lift. cbn [ok_or]. apply uncommit_crash; cbn [set_utxo utxo_set]; [done| |done| |done|done].
  - intros i Hin. rewrite Hco. by apply (undo_batch_ok _ _ _ _ Hua).
  - intros k. rewrite <- (undo_inverts _ _ _ _ k Hua). by apply spec_batch_ext.
Qed.

(** ** Sessions *)

(** As [history], where whatever else the node does leaves the recorded tip
    alone. *)
Inductive session : ChainState -> list Block -> Prop :=
| session_start : session c0 []
| session_connect c chain c' now block raw txids :
    session c chain -> block_wf c block (best_height c + 1) ->
    prev_blockhash (header block) = best_hash c -> hash_of block ∉ map (fun b => hash_of b) chain ->
    connect_block_with_raw now block (best_height c + 1) raw c = (c', Ok txids) ->
    session c' (block :: chain)
| session_reject c chain c' now block height raw e :
    session c chain -> (validate_block now block height (hash_of block) (map compute_txid (txdata block)) c).2 = Err e ->
    connect_block_with_raw now block height raw c = (c', Err e) ->
    session c' chain
| session_disconnect c chain c' block :
    session c (block :: chain) -> disconnect_block block (best_height c) c = (c', Ok tt) -> session c' chain
| session_other c chain c' :
    session c chain -> same_frame c c' -> same_records (header_index c) (header_index c') -> session c' chain.

(** The last operation before a crash, which stops at any of its writes. *)
Inductive crash : ChainState -> list Block -> Prop :=
| crash_idle c chain : session c chain -> crash c chain
| crash_connecting c chain c' now block raw e :
    session c chain -> block_wf c block (best_height c + 1) ->
    connect_block_with_raw now block (best_height c + 1) raw c = (c', Err e) -> crash c' (block :: chain)
| crash_disconnecting c chain c' block e :
    session c (block :: chain) -> disconnect_block block (best_height c) c = (c', Err e) -> crash c' (block :: chain).

Lemma session_history c chain : session c chain -> history c0 c chain.
Proof. induction 1; [apply history_start|by eapply history_connect|by eapply history_reject|by eapply history_disconnect|by eapply history_other]. Qed.

Lemma session_persisted c chain : base_ok c0 -> persisted c0 [] -> session c chain -> persisted c chain.
Proof.
  intros Hbase H0 Hs. induction Hs as [|c chain c' now block raw txids Hs IH Hwf Hprev Hn Hrun|c chain c' now block height raw e Hs IH Hv Hrun
    |c chain c' block Hs IH Hrun|c chain c' Hs IH Hf Hr]; [done|..]; pose proof (history_sound c0 Hbase _ _ (session_history _ _ Hs)) as Hi.
  - pose proof (connect_crash c chain now block raw Hbase Hi IH Hwf) as Hc. unfold wp in Hc. by rewrite Hrun in Hc.
  - rewrite (connect_rejected _ _ _ _ _ _ Hv) in Hrun. injection Hrun as <-. apply (stable_persisted chain c); [|done].
    apply durable_of_same_chain, (validate_block_only_reads c now block height (hash_of block) (map compute_txid (txdata block)) c).
    by apply same_chain_refl, Hi.
  - pose proof (disconnect_crash c chain block Hbase Hi IH) as Hd. unfold wp in Hd. by rewrite Hrun in Hd.
  - apply (stable_persisted chain c); [|done]. split; [|done]. by rewrite (proj1 Hf).
Qed.

(** At every crash point the disk describes a chain the node was on. *)
Lemma crash_crashed c x : base_ok c0 -> persisted c0 [] -> crash c x -> crashed c x.
Proof.
  intros Hbase H0 [c1 chain Hs|c1 chain c' now block raw e Hs Hwf Hrun|c1 chain c' block e Hs Hrun];
    pose proof (session_persisted _ _ Hbase H0 Hs) as Hp; pose proof (history_sound c0 Hbase _ _ (session_history _ _ Hs)) as Hi.
  - by apply (persisted_crashed _ chain).
  - pose proof (connect_crash c1 chain now block raw Hbase Hi Hp Hwf) as Hc. unfold wp in Hc. by rewrite Hrun in Hc.
  - pose proof (disconnect_crash c1 chain block Hbase Hi Hp) as Hd. unfold wp in Hd. by rewrite Hrun in Hd.
Qed.
End Crash.
