(* ===== verification/RecoveryProofs.v ===== *)
(** * Restarting after a crash

    Whatever a crash leaves on disk, the startup phases bring the recorded tip
    and the flushed UTXO set together again; the places where they do not are
    shown on examples. *)

From Stdlib Require Import ZArith Lia.
From stdpp Require Import base option numbers list gmap strings.
From S2P Require Import Prelude Bytes U256 Types ScriptBytes Signatures VerifyScript Consensus Validation Store HeaderIndex HeaderProofs TxIndex BlockStore Bip110 UtxoSet UtxoProofs SplitMonitor ChainState ChainProofs ReorgProofs NodeChain BlockDir ScriptHash HeaderCheck Recovery CrashProofs.

Section Reads.
Context `{HH : Hashes} `{HSc : ScriptLib} `{HSi : SigLib} `{HT : TxLib} `{HO : OutPointOrd} `{HTS : TxSizes} `{HR : RocksDb}
  `{HL : !RocksLaws} `{HW : !RocksWal} `{HIt : !RocksIter} `{HRD : !RocksDirs} `{HRDL : !RocksDirsLaws} `{HC : HeaderCodec} `{HF : BlockFiles}
  `{HM : MapIter} `{HMI : !MapIterLaws} `{HRun : Runtime} `{HRL : !RuntimeLaws} `{HB : BlockLib} `{HWk : WorkLib}.
Implicit Types hi : HeaderIndex.

(** ** Reading the records *)

Hypothesis reads_succeed : forall d cf k, exists v, get_cf d cf k = Ok v.
Hypothesis handles_exist : forall d cf, cf_handle d cf = true.

Lemma get_cf_read d cf k : get_cf d cf k = Ok (contents d cf k).
Proof. destruct (reads_succeed d cf k) as [v Hv]. rewrite Hv. f_equal. by apply get_cf_contents. Qed.

Lemma hi_get_read hi cf k : hi_get hi cf k = Ok (contents (hi_db hi) cf k).
Proof. unfold hi_get. rewrite handles_exist. apply get_cf_read. Qed.

Lemma best_height_read hi h x : tip_record hi = (Some (to_le 4 h), x) -> fits 32 h -> get_best_height hi = Ok (Some h).
Proof.
  intros [Hh _]%pair_equal_spec Hf. unfold get_best_height, read_height. rewrite hi_get_read. cbn [mbind result_bind]. rewrite Hh. cbv beta iota. rewrite length_to_le.
  cbn [Nat.eqb]. by rewrite from_to_le4.
Qed.

Lemma best_tip_read hi h x : tip_record hi = (h, Some x) -> length x = 32%nat -> get_best_tip hi = Ok (Some x).
Proof.
  intros [_ Hx]%pair_equal_spec Hl. unfold get_best_tip, read_hash. rewrite hi_get_read. cbn [mbind result_bind]. rewrite Hx. unfold hash_from_bytes. by rewrite Hl.
Qed.

Lemma cf_read (u : UtxoSet) name : cf name u = (u, Ok tt).
Proof. unfold cf. by rewrite handles_exist. Qed.
Lemma db_get_read (u : UtxoSet) name k : db_get name k u = (u, Ok (contents (us_db u) name k)).
Proof. unfold db_get. by rewrite get_cf_read. Qed.

Lemma flush_height_read (u : UtxoSet) h x : flush_record u = (Some (to_le 4 h), x) -> fits 32 h -> get_flush_height u = (u, Ok (Some h)).
Proof.
  intros [Hh _]%pair_equal_spec Hf. unfold get_flush_height, mbind, stm_bind. rewrite cf_read, db_get_read, Hh. unfold len. rewrite length_to_le. cbn [Z.of_nat Pos.of_succ_nat Z.eqb Pos.eqb Pos.succ].
  unfold mret, stm_ret. by rewrite from_to_le4.
Qed.

Lemma flush_hash_read (u : UtxoSet) h x : flush_record u = (h, Some x) -> length x = 32%nat -> get_flush_hash u = (u, Ok (Some x)).
Proof.
  intros [_ Hx]%pair_equal_spec Hl. unfold get_flush_hash, mbind, stm_bind. rewrite cf_read, db_get_read, Hx. unfold len. by rewrite Hl.
Qed.

Lemma hash_at_read hi h :
  get_hash_at_height hi h =
  match index_at hi h with Some z => if (length z =? 32)%nat then Ok (Some z) else Err (Serialization "invalid slice length") | None => Ok None end.
Proof.
  unfold get_hash_at_height. rewrite hi_get_read. cbn [mbind result_bind]. unfold index_at. destruct (contents _ _ _); [|done].
  unfold hash_from_bytes. by destruct (_ =? 32)%nat.
Qed.

(** ** The recorded tip through the integrity check *)

(** The recorded tip is at a positive height, and when its height is that of
    the flush, it is the flushed block. *)
Definition tip_near hi (fl : Z) (fx : bytes) : Prop :=
  exists n z, tip_record hi = (Some (to_le 4 n), Some z) /\ fits 32 n /\ 0 < n /\ length z = 32%nat /\ (n = fl -> z = fx).

Lemma tip_near_same hi hi' fl fx : same_records hi hi' -> tip_near hi fl fx -> tip_near hi' fl fx.
Proof. intros Hs (n & z & Ht & H'). exists n, z. by rewrite Hs. Qed.

Lemma elem_of_heights_between (lo up h : Z) : h ∈ heights_between lo up <-> lo <= h <= up.
Proof.
  unfold heights_between. rewrite list_elem_of_fmap. setoid_rewrite elem_of_seq. split.
  - intros (i & -> & Hi). lia.
  - intros Hh. exists (Z.to_nat (h - lo)). lia.
Qed.

(** Cutting the height index leaves what is at or below the cut. *)
Lemma cut_index hi hi' r lo n h :
  hi_write (map height_delete (heights_between (lo + 1) n)) hi = (hi', r) -> 0 <= h <= lo -> fits 32 n -> index_at hi' h = index_at hi h.
Proof.
  unfold hi_write. destruct (write _ _) as [d r'] eqn:Hw. intros [= <- <-] Hh Hn. unfold index_at. cbn [set_hi_db hi_db].
  rewrite (write_contents _ _ _ _ _ _ Hw). apply apply_ops_other. destruct r'; [|constructor]. apply Forall_forall.
  intros o (m & -> & Hm)%list_elem_of_fmap [_ Hk]. apply elem_of_heights_between in Hm. cbn in Hk.
  apply to_be4_inj in Hk; unfold fits in *; lia.
Qed.

Lemma truncate_near (v : option Z) hi fl fx :
  tip_near hi fl fx -> 0 < fl -> (forall z, index_at hi fl = Some z -> z = fx) ->
  wp (truncate_unclean v (Some fl)) (fun hi' r => is_ok r = true -> tip_near hi' fl fx) hi.
Proof.
  intros Hnear Hfl Hidx. pose proof Hnear as (n & z & Ht & Hn & Hpos & Hz & Heq). unfold truncate_unclean. apply wp_bind, wp_gets. cbn [id].
  apply wp_bind, wp_lift. rewrite (best_height_read _ _ _ Ht Hn). change (default 0 (Some n)) with n.
  assert (Hm : exists sh, max_height v (Some fl) = Some sh /\ fl <= sh) by (destruct v as [v|]; cbn; eexists; split; [done|lia|done|lia]).
  destruct Hm as (sh & -> & Hsh). destruct (Z.ltb_spec sh n) as [Hlt|Hge]; [|by apply wp_ret]. unfold truncate_to.
  apply wp_bind, wp_gets. cbn [id]. apply wp_bind, wp_lift. rewrite (best_height_read _ _ _ Ht Hn). change (default 0 (Some n)) with n.
  rewrite Z.geb_leb. destruct (Z.leb_spec n sh); [lia|]. apply wp_bind. unfold wp at 1, hi_cf. rewrite handles_exist. cbn [negb guard_err fst snd].
  apply wp_bind. unfold wp at 1. destruct (hi_write _ _) as [hi1 [[]|e]] eqn:Hw; cbn [fst snd]; [|done].
  assert (H1 : same_records hi hi1).
  { pose proof (keeps_records_write (map height_delete (heights_between (sh + 1) n))) as Hk. specialize (Hk ltac:(apply Forall_forall; by intros o (m & -> & _)%list_elem_of_fmap [? _])). specialize (Hk hi). by rewrite Hw in Hk. }
  apply wp_bind, wp_gets. cbn [id]. apply wp_bind, wp_lift. rewrite hash_at_read, (cut_index _ _ _ _ _ sh Hw) by (done || lia).
  destruct (index_at hi sh) as [y|] eqn:Hy; [|by intros _; eapply tip_near_same].
  destruct (Nat.eqb_spec (length y) 32) as [Hl|]; [|done]. unfold wp. pose proof (set_best_tip_record y sh hi1) as Hs.
  destruct (set_best_tip y sh hi1) as [hi2 [[]|e]]; [|done]. intros _. exists sh, y. unfold fits in *.
  split_and!; [done|lia|lia|lia|done|]. intros ->. by apply Hidx.
Qed.

(** *** Steps that write other keys *)

Lemma restore_loop_height hi fuel : forall x b batch fixed r,
  Forall (fun o => op_cf o = CF_HEIGHT_INDEX) batch -> restore_loop hi fuel x b batch fixed = Ok r -> Forall (fun o => op_cf o = CF_HEIGHT_INDEX) r.1.
Proof.
  induction fuel as [|fuel IH]; intros x b batch fixed r Hb; cbn [restore_loop]; (destruct (get_hash_at_height _ _) as [o|e]; [|done]);
    cbn [mbind result_bind]; (case_bool_decide; [by intros [= <-]|]);
    (assert (Hb' : Forall (fun o => op_cf o = CF_HEIGHT_INDEX) (batch ++ [Put CF_HEIGHT_INDEX (to_be 4 (sh_height b)) x]))
      by (apply Forall_app; split; [done|by repeat constructor]));
    (destruct (_ =? 0); [by intros [= <-]|]); (destruct (get_header _ _) as [[q|]|e]; try done); cbn [mbind result_bind].
  destruct (_ <? _); [|done]. by apply IH.
Qed.

Lemma keeps_records_height ops : Forall (fun o => op_cf o = CF_HEIGHT_INDEX) ops -> keeps_records (hi_write ops).
Proof. intros Ho. apply keeps_records_write. eapply Forall_impl; [exact Ho|]. cbn. intros o Hcf [Hm _]. by rewrite Hcf in Hm. Qed.

Lemma restore_keeps x : keeps_records (restore_branch_height_index x).
Proof.
  unfold restore_branch_height_index. intros hi. unfold mbind at 1, stm_bind at 1, gets. cbn [id].
  unfold mbind at 1, stm_bind at 1, lift. destruct (get_header hi x) as [o|e]; [|done]. unfold mbind at 1, stm_bind at 1.
  destruct (ok_or _ _) as [tip|e]; [|done]. unfold mbind at 1, stm_bind at 1, hi_cf. rewrite handles_exist. cbn [negb guard_err].
  unfold mbind at 1, stm_bind at 1. destruct (restore_loop hi _ x tip [] 0) as [[batch fixed]|e] eqn:Hl; [|done].
  apply keeps_records_bind; [|intros ?; apply keeps_records_ret]. apply keeps_records_height. by apply (restore_loop_height hi _ x tip [] 0 _ (Forall_nil_2 _) Hl).
Qed.

Lemma reset_fork_keeps n x : keeps_records (reset_fork_header_tip n x).
Proof.
  unfold reset_fork_header_tip. apply keeps_records_bind; [apply keeps_records_gets|intros hi]. apply keeps_records_bind; [apply keeps_records_lift|intros tip].
  apply keeps_records_bind; [apply keeps_records_cf|intros _]. apply keeps_records_bind; [|intros _; unfold set_header_tip; solve_keeps_records].
  apply keeps_records_height, Forall_app. split; [|by repeat constructor]. destruct (_ >? _); [|constructor].
  apply Forall_forall. by intros o (m & -> & _)%list_elem_of_fmap.
Qed.

Lemma reset_invalid_keeps : keeps_records reset_invalid_tip.
Proof.
  unfold reset_invalid_tip. apply keeps_records_bind; [apply keeps_records_gets|intros hi]. apply keeps_records_bind; [apply keeps_records_lift|intros t].
  apply keeps_records_bind; [apply keeps_records_lift|intros b]. destruct t as [t|], b as [b|]; try apply keeps_records_ret.
  apply keeps_records_bind; [apply keeps_records_lift|intros n]. apply keeps_records_bind; [apply keeps_records_lift|intros [bad|]]; [|apply keeps_records_ret].
  apply keeps_records_bind; [apply restore_keeps|intros _; apply reset_fork_keeps].
Qed.

Lemma verify_keeps : keeps_records verify_chain_integrity.
Proof.
  assert (Hw : forall l : list (hash256 * StoredHeader), keeps_records (apply_work_repairs l)).
  { intros [|p l]; [apply keeps_records_ret|]. unfold apply_work_repairs, insert_headers_hash_only.
    apply keeps_records_bind; [apply keeps_records_cf|intros _]. apply keeps_records_write, Forall_forall. by intros o (q & -> & _)%list_elem_of_fmap [? _]. }
  unfold verify_chain_integrity. apply keeps_records_bind; [apply keeps_records_gets|intros hi]. apply keeps_records_bind; [apply keeps_records_lift|intros [n|]];
    [|apply keeps_records_ret]. apply keeps_records_bind; [apply keeps_records_lift|intros s]. apply keeps_records_bind; [apply keeps_records_lift|intros [s1 [gap|]]].
  - apply keeps_records_bind; [apply Hw|intros _; apply keeps_records_ret].
  - apply keeps_records_bind; [apply keeps_records_lift|intros t]. apply keeps_records_bind; [apply keeps_records_lift|intros [s2 g]].
    apply keeps_records_bind; [apply Hw|intros _; apply keeps_records_ret].
Qed.

Lemma clear_all_keeps : keeps_records clear_all_invalid.
Proof.
  unfold clear_all_invalid. apply keeps_records_bind; [apply keeps_records_cf|intros _]. apply keeps_records_bind; [apply keeps_records_gets|intros hi].
  apply keeps_records_bind; [apply keeps_records_lift|intros l]. apply keeps_records_bind; [|intros _; apply keeps_records_bind; [apply keeps_records_wal|done]].
  apply keeps_records_write, Forall_forall. by intros o (q & -> & _)%list_elem_of_fmap [? _].
Qed.

Lemma clear_split_keeps : keeps_records clear_split_rival_tips.
Proof. unfold clear_split_rival_tips. solve_keeps_records. Qed.

(** ** The phases *)

Definition is_storage_failure (e : StartupError) : Prop := exists se, e = StartupStorage se.

(** The index has no gap when the integrity check looks at it. *)
Definition header_chain_intact (nd : NetDir) (fl : Z) : Prop :=
  forall v hi hi1 hi2, open_headers (nd_headers nd) = Ok hi -> truncate_unclean v (Some fl) hi = (hi1, Ok tt) ->
    reset_invalid_tip hi1 = (hi2, Ok tt) -> exists h, (verify_chain_integrity hi2).2 = Ok (h, h).

Lemma wp_ck_index {A} (m : stm HeaderIndex StorageError A) (Q : Checking -> result StartupError A -> Prop) k :
  wp m (fun hi r => Q (mkChecking hi (ck_dir k)) (lift_startup r)) (ck_index k) -> wp (on_ck_index m) Q k.
Proof. unfold wp, on_ck_index, try_index, mbind, stm_bind. by destruct (m (ck_index k)). Qed.

Lemma lift_startup_failure {A} (r : StorageResult A) e : lift_startup r = Err e -> is_storage_failure e.
Proof. destruct r; [done|]. intros [= <-]. by eexists. Qed.

(** The flushed height read from a directory. *)
Lemma open_utxo_flush d dbcache u fl fx :
  open_utxo d dbcache = Ok u -> contents d CF_META (ascii_bytes "flush_height") = Some (to_le 4 fl) ->
  contents d CF_META (ascii_bytes "flush_hash") = Some fx ->
  flush_record u = (Some (to_le 4 fl), Some fx) /\ (forall cf k, contents (us_db u) cf k = contents d cf k) /\ (forall k, coins u k = disk_coin d k).
Proof.
  unfold open_utxo. destruct (open_db d UTXO_CFS) as [d'|e] eqn:Ho; [|done]. intros [= <-] Hh Hx.
  assert (Hc : forall cf k, contents d' cf k = contents d cf k) by (intros; by eapply open_contents).
  unfold utxo_open. destruct (split_dbcache dbcache) as [[bc lru] wb]. unfold flush_record. cbn [us_db]. rewrite !Hc, Hh, Hx.
  split_and!; [done|done|]. intros k. unfold coins, disk_coin. cbn [write_buffer us_db buffer_new entries]. by rewrite lookup_empty, Hc.
Qed.

Lemma check_integrity_near params genesis dbcache hi nd fl fx :
  tip_near hi fl fx -> 0 < fl -> fits 32 fl -> (forall z, index_at hi fl = Some z -> z = fx) ->
  contents (nd_utxo nd) CF_META (ascii_bytes "flush_height") = Some (to_le 4 fl) -> contents (nd_utxo nd) CF_META (ascii_bytes "flush_hash") = Some fx ->
  open_headers (nd_headers nd) = Ok hi -> header_chain_intact nd fl ->
  wp (check_integrity params genesis dbcache) (fun k r =>
    match r with
    | Ok force => force = false /\ tip_near (ck_index k) fl fx /\ forall cf j, contents (nd_utxo (ck_dir k)) cf j = contents (nd_utxo nd) cf j
    | Err e => is_storage_failure e
    end) (mkChecking hi nd).
Proof.
  intros Hnear Hpos Hfit Hidx Hh Hx Hop Hint. unfold check_integrity. apply wp_bind, wp_ck_index. apply wp_bind, wp_gets. cbn [id ck_index].
  apply wp_lift. destruct (get_validated_height hi) as [v|e]; [|by eexists]. cbn [lift_startup ck_dir].
  apply wp_bind. unfold wp at 1, with_utxo. cbn [ck_dir ck_index]. destruct (open_utxo (nd_utxo nd) dbcache) as [u|e] eqn:Hu; [|by eexists].
  destruct (open_utxo_flush _ _ _ _ _ Hu Hh Hx) as (Hfr & Hcu & _). rewrite (flush_height_read _ _ _ Hfr Hfit). cbn [fst snd lift_startup].
  apply wp_bind, wp_ck_index. cbn [ck_index ck_dir]. pose proof (truncate_near v hi fl fx Hnear Hpos Hidx) as Ht. unfold wp in Ht |- *.
  destruct (truncate_unclean v (Some fl) hi) as [hi1 [[]|e]] eqn:Htr; cbn [fst snd lift_startup] in *; [|by eexists]. specialize (Ht eq_refl).
  apply wp_bind, wp_ck_index. cbn [ck_index ck_dir]. pose proof (reset_invalid_keeps hi1) as Hk. unfold wp.
  destruct (reset_invalid_tip hi1) as [hi2 [[]|e]] eqn:Hrs; cbn [fst snd lift_startup] in *; [|by eexists].
  destruct (Hint v hi hi1 hi2 Hop Htr Hrs) as [h Hv]. pose proof (verify_keeps hi2) as Hk2.
  apply wp_bind. unfold wp at 1, try_index. cbn [ck_index ck_dir]. destruct (verify_chain_integrity hi2) as [hi3 r]; cbn [fst snd] in *. subst r.
  rewrite Z.ltb_irrefl. apply wp_ret. split_and!; [done| |].
  - cbn [ck_index]. apply (tip_near_same hi2); [done|]. by apply (tip_near_same hi1).
  - intros cf j. cbn [ck_dir]. by destruct nd.
Qed.

Hypothesis iterator_starts : forall d cf k v, contents d cf k = Some v -> exists kv rest, iterator_cf d cf [] None = Ok kv :: rest.

Lemma wp_su_index {A} (m : stm HeaderIndex StorageError A) (Q : Startup -> result StartupError A -> Prop) s :
  wp m (fun hi r => Q (set_su_index s hi) (lift_startup r)) (su_index s) -> wp (on_su_index m) Q s.
Proof. unfold wp, on_su_index. by destruct (m (su_index s)). Qed.

Lemma reconcile_near genesis dbcache (s : Startup) fl fx :
  tip_near (su_index s) fl fx -> fits 32 fl -> length fx = 32%nat -> flush_record (su_utxo s) = (Some (to_le 4 fl), Some fx) ->
  (exists k v, contents (us_db (su_utxo s)) CF_UTXO k = Some v) ->
  wp (reconcile_tip genesis dbcache) (fun s' r =>
    match r with
    | Ok (h, x, _) => h = fl /\ x = fx /\ tip_record (su_index s') = (Some (to_le 4 fl), Some fx) /\ su_utxo s' = su_utxo s
    | Err e => is_storage_failure e
    end) s.
Proof.
  intros (n & z & Ht & Hn & Hpos & Hz & Heq) Hfl Hlx Hfr (k & v & Hkv). unfold reconcile_tip. apply wp_bind. unfold load_chain_tip.
  apply wp_bind. unfold wp at 1, read_su. rewrite (best_tip_read _ _ _ Ht Hz). cbn [fst snd lift_startup].
  apply wp_bind. apply wp_bind. unfold wp at 1. rewrite (best_height_read _ _ _ Ht Hn). cbn [fst snd lift_startup].
  apply wp_ret. change (default 0 (Some n)) with n. cbv beta iota. rewrite (proj2 (Z.ltb_lt 0 n) Hpos).
  apply wp_bind. unfold wp at 1, is_db_empty. rewrite handles_exist. destruct (iterator_starts _ _ _ _ Hkv) as (kv & rest & ->). cbn [fst snd negb guard_err mbind result_bind lift_startup].
  apply wp_ret. cbv beta iota. unfold phase_a_reconcile_utxo. rewrite (proj2 (Z.ltb_lt 0 n) Hpos).
  assert (Hsu : forall u : UtxoSet, u = su_utxo s -> set_su_utxo s u = s) by (intros u ->; by destruct s).
  apply wp_bind. unfold wp at 1, try_su_utxo. rewrite (flush_height_read _ _ _ Hfr Hfl). cbn [fst snd]. rewrite Hsu by done.
  destruct (Z.eqb_spec fl n) as [->|Hne]; [apply wp_ret; rewrite (Heq eq_refl) in *; done|].
  apply wp_bind. unfold flush_tip. apply wp_bind. unfold wp at 1, try_su_utxo. rewrite (flush_hash_read _ _ _ Hfr Hlx). cbn [fst snd]. rewrite Hsu by done.
  apply wp_bind, wp_gets. apply wp_ret. cbv beta iota. apply wp_bind, wp_su_index. unfold wp. pose proof (set_best_tip_record fx fl (su_index s)) as Hs.
  destruct (set_best_tip _ _ _) as [hi1 [[]|e]]; cbn [fst snd lift_startup]; [|by eexists]. done.
Qed.

Lemma abandoned_keeps params (s : Startup) :
  same_records (su_index s) (su_index (apply_abandoned params s).1) /\ su_utxo (apply_abandoned params s).1 = su_utxo s /\
  forall e, (apply_abandoned params s).2 = Err e -> is_storage_failure e.
Proof.
  unfold apply_abandoned, mbind, stm_bind, read_su. destruct (get_bip110_abandoned _) as [[t|]|e]; cbn [lift_startup]; [|done|split_and!; [done..|]; intros e' [= <-]; by eexists].
  unfold on_su_index. pose proof (clear_all_keeps (su_index s)) as H1. destruct (clear_all_invalid (su_index s)) as [hi1 [[]|e]]; cbn [fst snd lift_startup] in *;
    [|split_and!; [done..|]; intros e' [= <-]; by eexists]. cbn [set_su_index su_index].
  pose proof (clear_split_keeps hi1) as H2. destruct (clear_split_rival_tips hi1) as [hi2 [[]|e]]; cbn [fst snd lift_startup] in *;
    (split_and!; [by eapply same_records_trans|done|]); [done|]. intros e' [= <-]. by eexists.
Qed.

(** The startup without flags, on a directory whose records are near. *)
Lemma open_and_reconcile_near params genesis dbcache nd fl fx :
  (forall hi, open_headers (nd_headers nd) = Ok hi -> tip_near hi fl fx /\ forall z, index_at hi fl = Some z -> z = fx) ->
  0 < fl -> fits 32 fl -> length fx = 32%nat ->
  contents (nd_utxo nd) CF_META (ascii_bytes "flush_height") = Some (to_le 4 fl) -> contents (nd_utxo nd) CF_META (ascii_bytes "flush_hash") = Some fx ->
  (exists k v, contents (nd_utxo nd) CF_UTXO k = Some v) -> header_chain_intact nd fl ->
  match open_and_reconcile params genesis dbcache false false nd with
  | Ok (s, (_, (h, x, _))) =>
      h = fl /\ x = fx /\ tip_record (su_index s) = (Some (to_le 4 fl), Some fx) /\ forall k, coins (su_utxo s) k = disk_coin (nd_utxo nd) k
  | Err e => is_storage_failure e
  end.
Proof.
  intros Hnear Hpos Hfit Hlx Hh Hx (ck & cv & Hcoin) Hint. unfold open_and_reconcile, reindex_chainstate_wipe, check_integrity_and_reindex.
  unfold mbind at 1, stm_bind at 1, mret, stm_ret. cbn [negb andb]. unfold mbind at 1, stm_bind at 1, run_integrity.
  destruct (open_headers (nd_headers nd)) as [hi|e] eqn:Hop; [|by eexists]. destruct (Hnear hi eq_refl) as [Hn Hidx].
  pose proof (check_integrity_near params genesis dbcache hi nd fl fx Hn Hpos Hfit Hidx Hh Hx Hop Hint) as Hck. unfold wp in Hck.
  destruct (check_integrity params genesis dbcache (mkChecking hi nd)) as [k [force|e]]; cbn [fst snd] in Hck; [|exact Hck].
  destruct Hck as (-> & Hn2 & Hcu). cbn [orb]. cbn [mbind result_bind]. set (nd2 := set_subdir (ck_dir k) DirHeaders (hi_db (ck_index k))).
  unfold open_stores. assert (Hh2 : nd_headers nd2 = hi_db (ck_index k)) by done. assert (Hu2 : nd_utxo nd2 = nd_utxo (ck_dir k)) by done.
  destruct (open_headers (nd_headers nd2)) as [hi2|e] eqn:Hop2; [|by eexists]. cbn [mbind result_bind].
  destruct (open_utxo (nd_utxo nd2) dbcache) as [u|e] eqn:Hou; [|by eexists]. cbn [mbind result_bind lift_startup].
  destruct (open_utxo_flush _ _ _ fl fx Hou) as (Hfr & Hcc & Hco); [by rewrite Hu2, Hcu..|].
  set (s0 := mkStartup hi2 u _ _ _).
  assert (Hn3 : tip_near (su_index s0) fl fx).
  { apply (tip_near_same (ck_index k)); [|done]. unfold same_records, tip_record. cbn [s0 su_index]. unfold open_headers in Hop2.
    destruct (open_db (nd_headers nd2) HEADER_CFS) as [d|e] eqn:Hod; [|done]. cbn [mbind result_bind] in Hop2. unfold index_open in Hop2.
    destruct (load_invalid_set d); [|done]. injection Hop2 as <-. cbn [hi_db]. by rewrite !(open_contents _ _ _ _ _ Hod), Hh2. }
  destruct (abandoned_keeps params s0) as (Hk & Hus & Her). unfold mbind at 1, stm_bind at 1.
  destruct (apply_abandoned params s0) as [s1 [p'|e]]; cbn [fst snd] in *; [|by apply Her].
  pose proof (reconcile_near genesis dbcache s1 fl fx (tip_near_same _ _ _ _ Hk Hn3) Hfit Hlx) as Hr. rewrite Hus in Hr.
  specialize (Hr Hfr). unfold mbind at 1, stm_bind at 1. unfold wp in Hr.
  destruct (reconcile_tip genesis dbcache s1) as [s2 [[[h x] ver]|e]]; cbn [fst snd] in *.
  - cbn [mbind result_bind]. destruct Hr as (-> & -> & Htr & Hut); [exists ck, cv; cbn [s0 su_utxo]; by rewrite Hcc, Hu2, Hcu|].
    split_and!; [done|done|done|]. intros j. rewrite Hut. cbn [s0 su_utxo]. rewrite Hco, Hu2. unfold disk_coin. by rewrite Hcu.
  - apply Hr. exists ck, cv. cbn [s0 su_utxo]. by rewrite Hcc, Hu2, Hcu.
Qed.
End Reads.

(** ** Restart *)

Section Theorems.
Context `{HH : Hashes} `{HSc : ScriptLib} `{HSi : SigLib} `{HT : TxLib} `{HO : OutPointOrd} `{HTS : TxSizes} `{HR : RocksDb}
  `{HL : !RocksLaws} `{HW : !RocksWal} `{HIt : !RocksIter} `{HRD : !RocksDirs} `{HRDL : !RocksDirsLaws} `{HC : HeaderCodec} `{HF : BlockFiles}
  `{HM : MapIter} `{HMI : !MapIterLaws} `{HRun : Runtime} `{HRL : !RuntimeLaws} `{HB : BlockLib} `{HWk : WorkLib}.

(** The header index of the directory has no gap, and its entry at the flushed
    height, if any, is the flushed block. *)
Definition headers_sound (nd : NetDir) : Prop :=
  forall fl fx, fits 32 fl -> contents (nd_utxo nd) CF_META (ascii_bytes "flush_height") = Some (to_le 4 fl) ->
    contents (nd_utxo nd) CF_META (ascii_bytes "flush_hash") = Some fx ->
    header_chain_intact nd fl /\ forall z, contents (nd_headers nd) CF_HEIGHT_INDEX (to_be 4 fl) = Some z -> z = fx.

Lemma suffix_same_length {A} (f b x : list A) : f `suffix_of` x -> b `suffix_of` x -> length f = length b -> f = b.
Proof. intros [l1 ->] [l2 Hl] Hlen. by apply app_inj_2 in Hl as [_ ?]. Qed.


(** A coin of a block that an interrupted flush has already written makes the
    block unacceptable where duplicate transactions are checked: the block
    cannot be connected again after the restart. *)
Lemma coin_written_ahead_blocks_replay (c c' : ChainState) M now (block : Block) height raw i r :
  utxo_inv (utxo_set c) -> represents M (coins (utxo_set c)) -> total M <= MAX_MONEY -> block_wf c block height ->
  i ∈ block_coins height (imap pair (txdata block)) -> is_Some (coins (utxo_set c) (outpoint_key i.1)) ->
  connect_block_with_raw now block height raw c = (c', r) -> exists e, r = Err e.
Proof.
  intros Hu Hr Ht Hwf Hi [x Hx] Hrun. destruct r as [txids|e]; [exfalso|by eexists].
  pose proof (connect_spec c M now block height raw Hu Hr Ht Hwf) as Hs. unfold wp in Hs. rewrite Hrun in Hs. cbn [fst snd] in Hs.
  destruct (Hs _ eq_refl) as (_ & _ & _ & _ & b & (W & spent & intra & Hinv & Hins & _) & _). rewrite <- Hins in Hi.
  destruct (inv_inserts _ _ _ _ _ Hinv i Hi) as (_ & _ & Hn). congruence.
Qed.

(** The search for a stored tip block moves the tip without the UTXO set. *)
Lemma stored_tip_search_leaves_coins genesis dbcache n x v (s s' : Startup) h z :
  verify_tip_block_stored genesis dbcache n x v s = (s', Ok (h, z)) -> 0 < h -> su_utxo s' = su_utxo s.
Proof.
  assert (Hread : forall y s, su_utxo (read_stored y s).1 = su_utxo s).
  { intros y s1. unfold read_stored. destruct (get_block_pos _ _) as [[p|]|e]; [|done..]. by destruct (read_block _ _). }
  assert (Hfind : forall k m s, su_utxo (find_stored k m s).1 = su_utxo s).
  { induction k as [|k IH]; intros m s1; [done|]. cbn [find_stored]. destruct (get_hash_at_height _ _) as [[y|]|e]; [|apply IH..].
    specialize (Hread y s1). destruct (read_stored y s1) as [s2 [raw|]]; cbn [fst] in Hread; [done|]. by rewrite IH. }
  unfold verify_tip_block_stored. destruct (_ && _); [|unfold mret, stm_ret; congruence]. unfold mbind at 1, stm_bind at 1.
  specialize (Hread x s). destruct (read_stored x s) as [s1 raw]; cbn [fst] in Hread. destruct (raw ≫= deserialize_block); [unfold mret, stm_ret; congruence|].
  unfold mbind at 1, stm_bind at 1. specialize (Hfind (Z.to_nat (n - sat_sub n 2000)) n s1). destruct (find_stored _ _ s1) as [s2 [[h1 z1]|]]; cbn [fst] in Hfind.
  - unfold mbind, stm_bind, on_su_index. destruct (set_best_tip _ _ _) as [hi [[]|e]]; cbn [lift_startup]; unfold mret, stm_ret; intros Heq _; [|congruence].
    injection Heq as <- <- <-. cbn [set_su_index su_utxo]. congruence.
  - unfold mbind at 1, stm_bind at 1. destruct (wipe_chainstate _ _ s2) as [s3 [[]|e]]; unfold mret, stm_ret; intros Heq Hh; [|congruence].
    injection Heq as _ <- _. lia.
Qed.
End Theorems.

(** ** The theorem at a concrete input *)

Section Examples.
#[local] Existing Instance Sample.hashes.
#[local] Existing Instance Sample.tx_lib.
#[local] Existing Instance Sample.sig_lib.
#[local] Existing Instance SampleScript.script_lib.
#[local] Existing Instance SampleDb.rocks.
#[local] Existing Instance SampleDb.laws.
#[local] Existing Instance SampleCodec.codec.
#[local] Existing Instance SampleCodec.wal.
#[local] Existing Instance ValidationProofs.sample_ord.
#[local] Existing Instance UtxoProofs.sample_iter.
#[local] Existing Instance UtxoProofs.sample_iter_laws.
#[local] Existing Instance BlockStore.sample_files.
#[local] Existing Instance ReorgProofs.sample_sizes.
#[local] Existing Instance ReorgProofs.sample_runtime.
#[local] Existing Instance ReorgProofs.sample_runtime_laws.

Abbreviation store := (gmap (string * bytes) bytes).

#[local] Instance sample_scan : RocksIter :=
  {| iterator_cf := fun (d : @DB SampleDb.rocks) c _ _ => map (fun p => Ok (p.1.2, p.2)) (filter (fun p => p.1.1 = c) (map_to_list (d : store))) |}.
#[local] Instance sample_dirs : RocksDirs := {| open_db := fun (d : @DB SampleDb.rocks) _ => Ok d; remove_dir := fun _ => (((∅ : store) : @DB SampleDb.rocks), Ok tt) |}.
#[local] Instance sample_dirs_laws : RocksDirsLaws.
Proof. split; [by intros d cfs d' cf k [= <-]|done|]. intros d d' cf k [= <-]. apply lookup_empty. Qed.
#[local] Instance sample_work : WorkLib := {| to_work := calculate_work |}.
#[local] Instance sample_blocks : BlockLib := {| deserialize_block := fun _ => None; block_total_size := fun _ => 100 |}.

Lemma sample_iterator_starts (d : store) cf k v :
  contents (d : @DB SampleDb.rocks) cf k = Some v -> exists kv rest, iterator_cf (d : @DB SampleDb.rocks) cf [] None = Ok kv :: rest.
Proof.
  intros Hk. change (d !! (cf, k) = Some v) in Hk. cbn [iterator_cf sample_scan].
  assert (Hin : ((cf, k), v) ∈ filter (fun p : string * bytes * bytes => p.1.1 = cf) (map_to_list d)).
  { apply list_elem_of_filter. split; [done|]. by apply elem_of_map_to_list. }
  destruct (filter _ _) as [|p rest]; [by apply not_elem_of_nil in Hin|]. by eexists _, _.
Qed.

(** A regtest node at height 1, flushed there, that has connected a block
    without flushing. *)
Definition wx_parent : Header := mkHeader 4 (block_hash rx_genesis) (replicate 32 0) 150 5 7.
Definition wx_index : HeaderIndex :=
  (set_best_tip (block_hash wx_parent) 1 (insert_header (block_hash wx_parent) (mkStored wx_parent 1 (replicate 32 0)) rx_index).1).1.
Definition wx_db : store :=
  <[(CF_META, ascii_bytes "flush_hash") := block_hash wx_parent]> (<[(CF_META, ascii_bytes "flush_height") := to_le 4 1]>
    (<[(CF_UTXO, outpoint_key rx_outpoint) := serialize_entry rx_coin]> ∅)).
Definition wx_state : ChainState :=
  chain_new regtest wx_index (from_db wx_db) (mkBlockStore 1000000 0 0 (Some []) (∅ : gmap Z bytes) false) 1 (block_hash wx_parent).
Definition wx_coinbase : Transaction :=
  mkTransaction 2 0 [mkTxIn null_outpoint [0x52; 0x00] 0xffffffff []] [mkTxOut 5000000100 [0x51]].
Definition wx_txs : list Transaction := [wx_coinbase; rx_spend].
Definition wx_block : Block := mkBlock (mkHeader 4 (block_hash wx_parent) (compute_txid wx_coinbase) 200 5 2) wx_txs.
Definition wx_run := connect_block_with_raw 1000 wx_block 2 None wx_state.

Lemma wx_connects : connect_block_with_raw 1000 wx_block 2 None wx_state = (wx_run.1, Ok (map compute_txid wx_txs)).
Proof.
  assert (Hr : wx_run.2 = Ok (map compute_txid wx_txs)) by (vm_compute; reflexivity).
  rewrite <- Hr. apply surjective_pairing.
Qed.

Lemma wx_contents k : contents (wx_db : @DB SampleDb.rocks) CF_UTXO k = contents (us_db rx_utxo) CF_UTXO k.
Proof.
  change (wx_db !! (CF_UTXO, k) = contents (us_db rx_utxo) CF_UTXO k). unfold wx_db. rewrite !lookup_insert_ne by done. done.
Qed.

Lemma wx_coins k : coins (from_db (wx_db : @DB SampleDb.rocks)) k = coins rx_utxo k.
Proof. unfold coins, disk_coin. cbn [from_db write_buffer buffer_new entries us_db]. by rewrite wx_contents. Qed.

Lemma wx_utxo_inv : utxo_inv (utxo_set wx_state).
Proof.
  split_and!; [|done|done|done]. intros k data. cbn [wx_state chain_new utxo_set from_db us_db]. rewrite wx_contents. apply rx_utxo_inv.
Qed.

Lemma wx_represents : represents rx_set (coins (utxo_set wx_state)).
Proof. intros k. rewrite rx_represents. symmetry. apply wx_coins. Qed.

Lemma wx_base_ok : base_ok wx_state.
Proof.
  unfold base_ok. split_and!; [apply wx_utxo_inv|done|done|done|cbn; lia|]. exists rx_set. split; [apply wx_represents|].
  rewrite rx_total. vm_compute. congruence.
Qed.

Lemma wx_tx_wf tx : tx ∈ wx_txs -> tx_wf tx.
Proof.
  intros Htx. unfold wx_txs in Htx. apply elem_of_cons in Htx as [->|Htx]; [|apply list_elem_of_singleton in Htx as ->];
  (unfold tx_wf, outpoint_ok; split_and!; cbn;
   [apply Forall_singleton; cbn; split_and!; [done|by apply bytes_okb_ok|unfold fits; lia]
   |apply Forall_singleton; cbn; split_and!; [unfold fits; lia|by repeat constructor; unfold fits; lia|unfold len; cbn; lia]
   |unfold len; cbn; lia|done|by apply bytes_okb_ok]).
Qed.

Lemma wx_block_wf : block_wf wx_state wx_block 2.
Proof.
  unfold block_wf. split_and!; [apply Forall_forall, wx_tx_wf|unfold fits; lia|done| |done|vm_compute; congruence|vm_compute; congruence].
  intros _ tx vout Htx Hv. change (txdata wx_block) with wx_txs in Htx. rewrite <- wx_represents. unfold rx_set.
  apply lookup_singleton_ne. unfold wx_txs in Htx. apply elem_of_cons in Htx as [->|Htx]; [|apply list_elem_of_singleton in Htx as ->];
    (cbn in Hv; destruct vout; [|lia]; vm_compute; congruence).
Qed.

Lemma wx_session : session wx_state wx_run.1 [wx_block].
Proof.
  apply (session_connect wx_state wx_state [] wx_run.1 1000 wx_block None (map compute_txid wx_txs)).
  - apply session_start.
  - apply wx_block_wf.
  - reflexivity.
  - apply not_elem_of_nil.
  - apply wx_connects.
Qed.

Lemma wx_persisted : persisted wx_state wx_state [].
Proof.
  exists []. split_and!; [done| |vm_compute; reflexivity]. split; [vm_compute; reflexivity|]. intros k. left.
  cbn [chain_coins wx_state chain_new utxo_set]. unfold coins. cbn [from_db write_buffer buffer_new entries]. by rewrite lookup_empty.
Qed.

(** The data directory after the crash. *)
Definition wx_dir : NetDir :=
  mkNetDir (hi_db (header_index wx_run.1)) (us_db (utxo_set wx_run.1)) (∅ : store) (∅ : store) (mkBlockStore 1000000 0 0 (Some []) (∅ : gmap Z bytes) false).
Definition wx_opened : HeaderIndex := mkHeaderIndex (nd_headers wx_dir) ∅ 0.

Lemma to_le4_inj a b : fits 32 a -> fits 32 b -> to_le 4 a = to_le 4 b -> a = b.
Proof. intros Ha Hb Heq%(f_equal from_le). by rewrite !from_to_le4 in Heq. Qed.

Lemma wx_flush_height : contents (nd_utxo wx_dir) CF_META (ascii_bytes "flush_height") = Some (to_le 4 1).
Proof. vm_compute. reflexivity. Qed.
Lemma wx_flush_hash : contents (nd_utxo wx_dir) CF_META (ascii_bytes "flush_hash") = Some (block_hash wx_parent).
Proof. vm_compute. reflexivity. Qed.
Lemma wx_height_entry : contents (nd_headers wx_dir) CF_HEIGHT_INDEX (to_be 4 1) = Some (block_hash wx_parent).
Proof. vm_compute. reflexivity. Qed.
Lemma wx_no_markers : load_invalid_set (nd_headers wx_dir) = Ok ∅.
Proof. vm_compute. reflexivity. Qed.
Lemma wx_open hi : open_headers (nd_headers wx_dir) = Ok hi -> hi = wx_opened.
Proof.
  change (open_headers (nd_headers wx_dir)) with (index_open (nd_headers wx_dir)). unfold index_open. rewrite wx_no_markers. cbn [mbind result_bind].
  by intros [= <-].
Qed.
Lemma wx_best : get_best_height wx_opened = Ok (Some 1).
Proof. vm_compute. reflexivity. Qed.
Lemma wx_verify : (verify_chain_integrity wx_opened).2 = Ok (1, 1).
Proof. vm_compute. reflexivity. Qed.

(** Nothing is cut off when the flushed height is the recorded one. *)
Lemma truncate_at_tip (hi hi' : HeaderIndex) v n : get_best_height hi = Ok (Some n) -> truncate_unclean v (Some n) hi = (hi', Ok tt) -> hi' = hi.
Proof.
  intros Hb. unfold truncate_unclean, mbind, stm_bind, gets, lift. cbn [id]. rewrite Hb. change (default 0 (Some n)) with n.
  assert (Hm : exists sh, max_height v (Some n) = Some sh /\ n <= sh) by (destruct v as [v|]; cbn; eexists; split; [done|lia|done|lia]).
  destruct Hm as (sh & -> & Hsh). rewrite (proj2 (Z.ltb_ge sh n) Hsh). by intros [= <-].
Qed.

(** Without markers the header tip stays. *)
Lemma reset_unmarked (hi hi' : HeaderIndex) r : invalid_set hi = ∅ -> reset_invalid_tip hi = (hi', r) -> hi' = hi.
Proof.
  intros Hs. unfold reset_invalid_tip, mbind, stm_bind, gets, lift, mret, stm_ret. cbn [id].
  destruct (get_header_tip hi) as [[t|]|e]; [|destruct (get_best_tip hi); congruence|congruence]. destruct (get_best_tip hi) as [[b|]|e]; [|congruence..].
  destruct (get_best_height hi) as [n|e]; [|congruence]. unfold first_invalid_ancestor. rewrite (bool_decide_eq_true_2 _ Hs). congruence.
Qed.

Lemma wx_headers_sound : headers_sound wx_dir.
Proof.
  intros fl fx Hfit Hh Hx.
  assert (Hfl : 1 = fl) by exact (to_le4_inj 1 fl ltac:(unfold fits; lia) Hfit (inj Some _ _ (eq_trans (eq_sym wx_flush_height) Hh))).
  assert (Hfx : block_hash wx_parent = fx) by exact (inj Some _ _ (eq_trans (eq_sym wx_flush_hash) Hx)). clear Hh Hx. subst fl fx. split.
  - intros v hi hi1 hi2 Hop Htr Hrs. pose proof (wx_open _ Hop) as ->. clear Hop.
    pose proof (truncate_at_tip _ _ _ _ wx_best Htr) as ->. clear Htr.
    pose proof (reset_unmarked wx_opened hi2 (Ok tt) eq_refl Hrs) as ->. clear Hrs. exists 1. exact wx_verify.
  - intros z Hz. exact (eq_sym (inj Some _ _ (eq_trans (eq_sym wx_height_entry) Hz))).
Qed.

Lemma wx_has_coin : exists k v, contents (nd_utxo wx_dir) CF_UTXO k = Some v.
Proof. exists (outpoint_key rx_outpoint), (serialize_entry rx_coin). vm_compute. reflexivity. Qed.


(** ** Where the phases go wrong *)

Definition wx_db_at (height : Z) (hash : bytes) : store :=
  <[(CF_META, ascii_bytes "flush_hash") := hash]> (<[(CF_META, ascii_bytes "flush_height") := to_le 4 height]>
    (<[(CF_UTXO, outpoint_key rx_outpoint) := serialize_entry rx_coin]> ∅)).
Definition dir_of (hi : HeaderIndex) (u : store) : NetDir :=
  mkNetDir (hi_db hi) u (∅ : store) (∅ : store) (mkBlockStore 1000000 0 0 (Some []) (∅ : gmap Z bytes) false).
Definition start_at (nd : NetDir) : option (Z * hash256 * bool) :=
  match open_and_reconcile regtest rx_genesis None false false nd with Ok (_, (_, tip)) => Some tip | Err _ => None end.

(** A crash between the flush of a disconnected block and the record of its
    tip, during a reorganisation and with an older validated height: the
    headers are cut at the flushed height, the entry there is already that of
    the other branch, and as the heights agree the UTXO set of one branch is
    taken for that of the other. *)
Definition wx_rival : Header := mkHeader 4 (block_hash wx_parent) (replicate 32 0) 160 5 9.
Definition wx_switched : HeaderIndex :=
  (set_best_tip (replicate 32 3) 3 (set_validated_height 1
    (insert_header (block_hash wx_rival) (mkStored wx_rival 2 (replicate 32 0)) wx_index).1).1).1.
Lemma truncation_adopts_other_branch :
  start_at (dir_of wx_switched (wx_db_at 2 (replicate 32 2))) = Some (2, block_hash wx_rival, true).
Proof. vm_compute. reflexivity. Qed.

(** A crash between the first flush and the record of its tip: the recorded
    tip is the genesis block and nothing is reconciled. *)
Definition wx_fresh : HeaderIndex := (set_best_tip (block_hash rx_genesis) 0 rx_index).1.
Lemma first_flush_not_reconciled :
  start_at (dir_of wx_fresh (wx_db_at 5 (replicate 32 5))) = Some (0, block_hash rx_genesis, false).
Proof. vm_compute. reflexivity. Qed.
End Examples.
