(* ===== verification/ReplayProofs.v ===== *)
(** * What the start leaves undone

    The local replay at the end of the start never runs: after the phases the
    recorded height is the height of the tip they return. *)

From Stdlib Require Import ZArith Lia.
From stdpp Require Import base option numbers list gmap strings.
From S2P Require Import Prelude Bytes U256 Types ScriptBytes Signatures Consensus Validation Store HeaderIndex TxIndex BlockStore Bip110 UtxoSet UtxoProofs SplitMonitor ChainState ReorgProofs NodeChain BlockDir ScriptHash HeaderCheck Recovery CrashProofs RecoveryProofs.

Section Replay.
Context `{HH : Hashes} `{HSc : ScriptLib} `{HSi : SigLib} `{HT : TxLib} `{HO : OutPointOrd} `{HTS : TxSizes} `{HR : RocksDb}
  `{HL : !RocksLaws} `{HW : !RocksWal} `{HIt : !RocksIter} `{HRD : !RocksDirs} `{HC : HeaderCodec} `{HF : BlockFiles}
  `{HM : MapIter} `{HRun : Runtime} `{HB : BlockLib} `{HWk : WorkLib}.
Implicit Types hi : HeaderIndex.

(** The recorded height, if any, is not above [n]. *)
Definition recorded_by hi (n : Z) : Prop :=
  match (tip_record hi).1 with Some d => length d = 4%nat -> from_le d <= n | None => True end.

Lemma recorded_same hi hi' n : same_records hi hi' -> recorded_by hi n -> recorded_by hi' n.
Proof. unfold recorded_by. by intros ->. Qed.

Lemma best_height_inv hi r : get_best_height hi = Ok r ->
  match (tip_record hi).1 with Some d => length d = 4%nat /\ r = Some (from_le d) | None => r = None end.
Proof.
  unfold get_best_height, read_height, hi_get. destruct (guard_err _ _) as [[]|]; [|done]. cbn [mbind result_bind].
  destruct (get_cf _ _ _) as [v|] eqn:Hg; [|done]. cbn [mbind result_bind]. apply get_cf_contents in Hg. unfold tip_record. cbn [fst]. rewrite <- Hg.
  destruct v as [d|]; [|by intros [= <-]]. destruct (Nat.eqb_spec (length d) 4); [|done]. by intros [= <-].
Qed.

Lemma recorded_read hi r : get_best_height hi = Ok r -> recorded_by hi (default 0 r).
Proof. intros Hr%best_height_inv. unfold recorded_by. destruct (tip_record hi).1 as [d|]; [|done]. destruct Hr as [_ ->]. cbn. lia. Qed.

Lemma recorded_gap hi n gap : recorded_by hi n -> replay_gap hi n = Ok gap -> gap <= 0.
Proof.
  unfold replay_gap, recorded_by. destruct (get_best_height hi) as [r|] eqn:Hr; [|done]. apply best_height_inv in Hr. cbn [mbind result_bind].
  intros Hrec [= <-]. destruct (tip_record hi).1 as [d|]; [destruct Hr as [Hl ->]; specialize (Hrec Hl)|subst r]; cbn; lia.
Qed.

Lemma set_best_tip_recorded x n hi hi' : 0 <= n -> set_best_tip x n hi = (hi', Ok tt) -> recorded_by hi' n.
Proof.
  intros Hn Hs. pose proof (set_best_tip_record x n hi) as Hr. rewrite Hs in Hr. unfold recorded_by. rewrite Hr. cbn [fst]. intros _.
  rewrite from_to_le. apply Z.mod_le; [done|]. by compute.
Qed.

(** The recorded height after a step that returns a tip. *)
Definition returns_tip {A} (tip : A -> Z) (m : stm Startup StartupError A) (s : Startup) : Prop :=
  forall s' a, m s = (s', Ok a) -> 0 <= tip a -> recorded_by (su_index s') (tip a).

Lemma wp_returns_tip {A} (tip : A -> Z) (m : stm Startup StartupError A) s :
  wp m (fun s' r => forall a, r = Ok a -> 0 <= tip a -> recorded_by (su_index s') (tip a)) s -> returns_tip tip m s.
Proof. intros Hw s' a Hm. unfold wp in Hw. rewrite Hm in Hw. by apply Hw. Qed.

(** [set_best_tip] and the return of the tip set. *)
Lemma set_then_return {A} (tip : A -> Z) x n (a : A) s : tip a = n ->
  returns_tip tip (_ ← on_su_index (set_best_tip x n); mret a) s.
Proof.
  intros <- s' a'. unfold mbind, stm_bind, on_su_index. destruct (set_best_tip x (tip a) (su_index s)) as [hi [[]|e]] eqn:Hs; cbn [lift_startup]; [|done].
  unfold mret, stm_ret. intros [= <- <-] Hn. cbn [set_su_index su_index]. by eapply set_best_tip_recorded.
Qed.

Lemma wipe_recorded {A} (tip : A -> Z) genesis dbcache (a : A) s : tip a = 0 ->
  returns_tip tip (_ ← wipe_chainstate genesis dbcache; mret a) s.
Proof.
  intros Ha s' a'. unfold wipe_chainstate, mbind, stm_bind. destruct (foldS remove_chainstate tt _ s) as [s1 [[]|e]]; [|done].
  unfold on_su_index. destruct (set_best_tip _ 0 _) as [hi [[]|e]] eqn:Hs; cbn [lift_startup]; [|done]. unfold reopen_utxo.
  destruct (open_utxo _ _); [|done]. unfold mret, stm_ret. intros [= <- <-] _. rewrite Ha. cbn [set_su_utxo set_su_index su_index].
  by eapply set_best_tip_recorded.
Qed.

Lemma load_recorded genesis s s' n x : load_chain_tip genesis s = (s', Ok (n, x)) -> recorded_by (su_index s') n.
Proof.
  unfold load_chain_tip, mbind, stm_bind, read_su. destruct (get_best_tip (su_index s)) as [[z|]|e]; cbn [lift_startup]; [| |done].
  - destruct (get_best_height (su_index s)) as [r|e] eqn:Hr; cbn [lift_startup]; [|done]. unfold mret, stm_ret.
    destruct (0 <? default 0 r); [|by intros [= <- <- _]; apply recorded_read]. destruct (is_db_empty (su_utxo s)) as [[]|e]; cbn [lift_startup]; [| |done].
    + unfold on_su_index. destruct (set_best_tip _ 0 _) as [hi [[]|e]] eqn:Hs; cbn [lift_startup]; [|done]. intros [= <- <- _].
      by eapply set_best_tip_recorded.
    + intros [= <- <- _]. by apply recorded_read.
  - unfold on_su_index. destruct (insert_header _ _ (su_index s)) as [hi [[]|e]]; cbn [lift_startup]; [|done]. cbn [set_su_index su_index].
    destruct (set_best_tip _ 0 hi) as [hi1 [[]|e]] eqn:Hs; cbn [lift_startup]; [|done]. unfold mret, stm_ret. intros [= <- <- _]. cbn [set_su_index su_index].
    by eapply set_best_tip_recorded.
Qed.

(** Steps that leave the index of the startup alone. *)
Lemma try_su_utxo_index {A} (m : stm UtxoSet StorageError A) s : su_index (try_su_utxo m s).1 = su_index s.
Proof. unfold try_su_utxo. by destruct (m (su_utxo s)). Qed.

Lemma phase_a_recorded genesis dbcache n x s : recorded_by (su_index s) n ->
  returns_tip (fun t => t.1.1) (phase_a_reconcile_utxo genesis dbcache n x) s.
Proof.
  intros Hn. unfold phase_a_reconcile_utxo. destruct (0 <? n); [|by intros s' a [= <- <-] _].
  apply wp_returns_tip, wp_bind. unfold wp at 1. pose proof (try_su_utxo_index get_flush_height s) as H1.
  destruct (try_su_utxo get_flush_height s) as [s1 [r|e]]; cbn [fst snd] in *; [|done]. rewrite <- H1 in Hn. clear H1.
  destruct r as [[fl|]|e]; [|by intros a [= <-]..]. destruct (fl =? n); [by intros a [= <-]|].
  apply wp_bind. unfold flush_tip. apply wp_bind. unfold wp at 1. pose proof (try_su_utxo_index get_flush_hash s1) as H1.
  destruct (try_su_utxo get_flush_hash s1) as [s2 [r|e]]; cbn [fst snd] in *; [|done]. rewrite <- H1 in Hn. clear H1.
  apply wp_bind, wp_gets, wp_ret. cbv beta iota. destruct (match r with Ok _ => _ | Err _ => _ end) as [z|].
  { intros a Ha. refine (set_then_return (fun t : Z * hash256 * bool => t.1.1) z fl (fl, z, fl >? n) s2 eq_refl _ a _). rewrite <- Ha. apply surjective_pairing. }
  destruct (fl <? n); [by intros a [= <-]|]. apply wp_bind. unfold wp at 1. pose proof (try_su_utxo_index (rollback_to n) s2) as H1.
  destruct (try_su_utxo (rollback_to n) s2) as [s3 [q|e]]; cbn [fst snd] in *; [|done]. rewrite <- H1 in Hn. destruct q as [[]|e]; [by intros a [= <-]|].
  intros a Ha. refine (wipe_recorded (fun t : Z * hash256 * bool => t.1.1) genesis dbcache (0, block_hash genesis, false) s3 eq_refl _ a _). rewrite <- Ha. apply surjective_pairing.
Qed.

Lemma read_stored_index x s : su_index (read_stored x s).1 = su_index s.
Proof. unfold read_stored. destruct (get_block_pos _ _) as [[p|]|e]; [|done..]. by destruct (read_block _ _). Qed.

Lemma find_stored_index n : forall h s, su_index (find_stored n h s).1 = su_index s.
Proof.
  induction n as [|n IH]; intros h s; [done|]. cbn [find_stored]. destruct (get_hash_at_height _ _) as [[x|]|e]; [|by apply IH..].
  pose proof (read_stored_index x s) as H1. destruct (read_stored x s) as [s1 [raw|]]; cbn [fst] in H1; [done|]. by rewrite IH.
Qed.

Lemma verify_tip_recorded genesis dbcache n x v s : recorded_by (su_index s) n ->
  returns_tip fst (verify_tip_block_stored genesis dbcache n x v) s.
Proof.
  intros Hn. unfold verify_tip_block_stored. destruct (_ && _); [|by intros s' a [= <- <-] _].
  apply wp_returns_tip, wp_bind. unfold wp at 1. pose proof (read_stored_index x s) as H1. destruct (read_stored x s) as [s1 raw]; cbn [fst snd] in *.
  rewrite <- H1 in Hn. destruct (raw ≫= deserialize_block); [by intros a [= <-]|]. apply wp_bind. unfold wp at 1.
  destruct (find_stored _ _ s1) as [s2 [[h z]|]]; cbn [fst snd]; intros a Ha.
  - refine (set_then_return fst z h (h, z) s2 eq_refl _ a _). rewrite <- Ha. apply surjective_pairing.
  - refine (wipe_recorded fst genesis dbcache (0, block_hash genesis) s2 eq_refl _ a _). rewrite <- Ha. apply surjective_pairing.
Qed.

Lemma scan_keeps b lo up : keeps_records (scan_block_store b lo up).
Proof.
  unfold scan_block_store. match goal with |- keeps_records (foldS ?f _ _) => assert (Hf : forall l acc, keeps_records (foldS f acc l)); [|apply Hf] end.
  induction l as [|h l IH]; intros acc; [done|]. cbn [foldS].
  apply keeps_records_bind; [|intros; apply IH]. apply keeps_records_bind; [|intros; apply keeps_records_ret]. intros hi. unfold scan_height.
  destruct (get_hash_at_height hi h) as [[x|]|e]; [|done..]. destruct (get_block_pos hi x) as [[p|]|e]; [|done..].
  destruct (verify_block b p x) as [[]|e]; [done| |done]. cbn [fst]. revert hi. change (keeps_records (remove_block_pos x)). unfold remove_block_pos. solve_keeps_records.
Qed.

Lemma phase_c_keeps n s : same_records (su_index s) (su_index (phase_c_scan_missing_blocks n s).1).
Proof.
  unfold phase_c_scan_missing_blocks. destruct (0 <? n); [|done]. pose proof (scan_keeps (su_blocks s) (sat_sub n 1000) n (su_index s)) as Hk.
  by destruct (scan_block_store _ _ _ _).
Qed.

Lemma repair_walk_index fuel : forall fl h x cv missing s, su_index (repair_walk fuel fl h x cv missing s).1 = su_index s.
Proof.
  induction fuel as [|fuel IH]; intros fl h x cv missing s; [done|]. cbn [repair_walk]. destruct (_ && _); [done|].
  pose proof (read_stored_index x s) as H1. destruct (read_stored x s) as [s1 raw]; cbn [fst] in H1. destruct (raw ≫= deserialize_block); [|done].
  destruct (_ || _); [done|]. by rewrite IH.
Qed.

Lemma phase_d_keeps n x s : same_records (su_index s) (su_index (phase_d_repair_height_index n x s)).
Proof.
  unfold phase_d_repair_height_index. destruct (0 <? n); [|done].
  pose proof (repair_walk_index (S (Z.to_nat (Z.min n 2016))) (sat_sub n (Z.min n 2016)) n x 0 [] s) as H1.
  destruct (repair_walk _ _ _ _ _ _ _) as [s1 missing]; cbn [fst] in H1. rewrite <- H1. clear H1. destruct missing as [|m ms]; [done|].
  cbn [set_su_index su_index]. eapply same_records_trans; [|revert n x; intros n x; assert (Ht : keeps_records (set_header_tip x n)) by (unfold set_header_tip; solve_keeps_records); apply Ht].
  generalize (su_index s1). induction (reverse (m :: ms)) as [|[[h y] hd] l IH]; intros hi; [done|]. cbn [foldl].
  eapply same_records_trans; [|apply IH]. unfold repair_header. assert (Hi : forall st, keeps_records (insert_header y st)) by (intros; unfold insert_header; solve_keeps_records). apply Hi.
Qed.

(** C39: The promise of the local replay is not kept: whatever the start found on
    disk, when it reaches the replay the recorded height is not above the tip
    it returns, so the replay connects no block and indexes no file. *)
Theorem local_replay_never_starts params genesis dbcache reindex reindex_chainstate (nd : NetDir) s p h x v c missing fuel clock :
  open_and_reconcile params genesis dbcache reindex reindex_chainstate nd = Ok (s, (p, (h, x, v))) ->
  start_chain params genesis dbcache reindex reindex_chainstate nd = Ok (c, missing) -> 0 <= h -> 0 <= ChainState.best_height c ->
  (local_replay fuel clock c).1 = c.
Proof.
  intros Hop. unfold start_chain. rewrite Hop. cbn [mbind result_bind]. unfold open_and_reconcile in Hop.
  match type of Hop with context [let '(_, _) := ?m nd in _] => destruct (m nd) as [nd1 [[]|e]] end; [|done]. cbn [mbind result_bind] in Hop. destruct (lift_startup (open_stores nd1 dbcache)) as [s0|e]; [|done].
  cbn [mbind result_bind] in Hop. unfold mbind at 1, stm_bind at 1 in Hop. destruct (apply_abandoned params s0) as [s1 [p'|e]]; [|done].
  unfold reconcile_tip in Hop. unfold mbind at 1, stm_bind at 1 in Hop. unfold mbind at 1, stm_bind at 1 in Hop.
  destruct (load_chain_tip genesis s1) as [s2 [[n y]|e]] eqn:Hl; [|done]. apply load_recorded in Hl.
  pose proof (phase_a_recorded genesis dbcache n y s2 Hl) as Ha. unfold returns_tip in Ha. destruct (phase_a_reconcile_utxo genesis dbcache n y s2) as [s3 [t|e]]; [|done].
  unfold mret, stm_ret in Hop. cbn [mbind result_bind] in Hop. injection Hop as -> -> ->. intros Hst Hh Hc.
  specialize (Ha s (h, x, v) eq_refl Hh). cbn [fst] in Ha. pose proof (verify_tip_recorded genesis dbcache h x v s Ha) as Hv. unfold returns_tip in Hv.
  destruct (verify_tip_block_stored genesis dbcache h x v s) as [s4 [[n2 z]|e]]; [|done]. cbn [mbind result_bind] in Hst.
  pose proof (phase_c_keeps n2 s4) as Hk. destruct (phase_c_scan_missing_blocks n2 s4) as [s5 ms]; cbn [fst] in Hk. injection Hst as <- <-.
  cbn [chain_new ChainState.best_height] in Hc. specialize (Hv s4 (n2, z) eq_refl Hc). cbn [fst] in Hv.
  pose proof (recorded_same _ _ _ (phase_d_keeps n2 z s5) (recorded_same _ _ _ Hk Hv)) as Hr. unfold local_replay.
  cbn [chain_new ChainState.header_index ChainState.best_height]. destruct (replay_gap _ _) as [gap|e] eqn:Hg; [|done].
  apply (recorded_gap _ _ _ Hr) in Hg. destruct (Z.ltb_spec 0 gap); [lia|done].
Qed.
End Replay.

(** ** The theorem at a concrete input *)

Section ReplayExample.
#[local] Existing Instance Sample.hashes.
#[local] Existing Instance Sample.tx_lib.
#[local] Existing Instance Sample.sig_lib.
#[local] Existing Instance SampleScript.script_lib.
#[local] Existing Instance SampleDb.rocks.
#[local] Existing Instance SampleDb.laws.
#[local] Existing Instance SampleCodec.codec.
#[local] Existing Instance SampleCodec.wal.
#[local] Existing Instance ValidationProofs.sample_ord.
#[local] Existing Instance UtxoProofs.sample_iter.
#[local] Existing Instance BlockStore.sample_files.
#[local] Existing Instance ReorgProofs.sample_sizes.
#[local] Existing Instance ReorgProofs.sample_runtime.
#[local] Existing Instance RecoveryProofs.sample_scan.
#[local] Existing Instance RecoveryProofs.sample_dirs.
#[local] Existing Instance RecoveryProofs.sample_work.
#[local] Existing Instance RecoveryProofs.sample_blocks.

(** A node whose header of height 2 is stored and recorded as the tip, and
    whose UTXO set was flushed at height 1. *)
Definition wx_behind : NetDir :=
  dir_of (set_best_tip (block_hash wx_rival) 2 (insert_header (block_hash wx_rival) (mkStored wx_rival 2 (replicate 32 0)) wx_index).1).1
    (wx_db_at 1 (block_hash wx_parent)).

Lemma local_replay_never_starts_witness : exists c missing,
  start_chain regtest rx_genesis None false false wx_behind = Ok (c, missing) /\ ChainState.best_height c = 1 /\
  (local_replay 10 (fun _ => 0) c).1 = c.
Proof.
  assert (Ho : match open_and_reconcile regtest rx_genesis None false false wx_behind with Ok (_, (_, (h, _, _))) => h = 1 | Err _ => False end)
    by (vm_compute; reflexivity).
  assert (Hs : match start_chain regtest rx_genesis None false false wx_behind with Ok (c, _) => ChainState.best_height c = 1 | Err _ => False end)
    by (vm_compute; reflexivity).
  destruct (open_and_reconcile _ _ _ _ _ wx_behind) as [[s [p [[h x] v]]]|e] eqn:E1; [|destruct Ho].
  destruct (start_chain _ _ _ _ _ wx_behind) as [[c missing]|e] eqn:E2; [|destruct Hs].
  assert (Hh : 0 <= h) by (rewrite Ho; exact (Z.le_0_1)). assert (Hc : 0 <= ChainState.best_height c) by (rewrite Hs; exact (Z.le_0_1)).
  exists c, missing. split; [reflexivity|]. split; [exact Hs|].
  exact (local_replay_never_starts _ _ _ _ _ _ _ _ _ _ _ _ _ _ _ E1 E2 Hh Hc).
Defined.
End ReplayExample.
