(* ===== verification/Bloom.v ===== *)
(** * Bloom filters of light clients

    [bitcoinpr-p2p/src/bloom.rs] (BIP 37): MurmurHash3, the filter a peer
    loads, membership, insertion, matching of transactions with and without
    update, and the handlers of [manager.rs] that load and clear a filter,
    answer [mempool] and serve filtered blocks.

    The filter never misses: what was loaded or added matches, and the spend of
    an output that matched and was followed matches whenever it comes. *)

From Stdlib Require Import ZArith Lia.
From stdpp Require Import base option numbers list gmap strings.
From S2P Require Import Prelude Bytes Types ScriptBytes Store HeaderIndex BlockStore NodeChain V2Cipher.

Definition MAX_BLOOM_FILTER_SIZE : Z := 36000.
Definition MAX_HASH_FUNCS : Z := 50.

(** [BloomFlags] of the [bitcoin] crate. *)
Inductive BloomFlags : Type := UpdateNone | UpdateAll | UpdatePubkeyOnly.

(** [FilterLoad] of the [bitcoin] crate. *)
Record FilterLoad := mkFilterLoad { fl_filter : bytes; fl_hash_funcs : Z; fl_tweak : Z; fl_flags : BloomFlags }.

Record BloomFilter := mkBloomFilter { data : bytes; hash_funcs : Z; tweak : Z; flags : BloomFlags }.

(** The script templates of the [bitcoin] crate that [UpdatePubkeyOnly] asks for. *)
Class PubkeyScripts := { is_p2pk : bytes -> bool; is_multisig : bytes -> bool }.

(** ** MurmurHash3 *)

Definition murmur_mix (k1 : Z) : Z := u32 (rotl32 (u32 (k1 * 0xcc9e2d51)) 15 * 0x1b873593).
Definition murmur_block (d : bytes) (h1 : Z) (i : nat) : Z :=
  u32 (u32 (rotl32 (Z.lxor h1 (murmur_mix (le32 d (4 * i)))) 13 * 5) + 0xe6546b64).

Definition murmur_tail (tail : bytes) (h1 : Z) : Z :=
  match tail with
  | [] => h1
  | [a] => Z.lxor h1 (murmur_mix a)
  | [a; b] => Z.lxor h1 (murmur_mix (Z.lxor (Z.shiftl b 8) a))
  | a :: b :: c :: _ => Z.lxor h1 (murmur_mix (Z.lxor (Z.lxor (Z.shiftl c 16) (Z.shiftl b 8)) a))
  end.

Definition murmur_final (n h1 : Z) : Z :=
  let h1 := Z.lxor h1 (u32 n) in
  let h1 := Z.lxor h1 (Z.shiftr h1 16) in
  let h1 := u32 (h1 * 0x85ebca6b) in
  let h1 := Z.lxor h1 (Z.shiftr h1 13) in
  let h1 := u32 (h1 * 0xc2b2ae35) in
  Z.lxor h1 (Z.shiftr h1 16).

Definition murmur3_32 (seed : Z) (d : bytes) : Z :=
  let nblocks := (length d / 4)%nat in
  murmur_final (len d) (murmur_tail (drop (4 * nblocks) d) (foldl (murmur_block d) seed (seq 0 nblocks))).

(** ** The filter *)

Definition from_filter_load (fl : FilterLoad) : BloomFilter :=
  mkBloomFilter (take (Z.to_nat MAX_BLOOM_FILTER_SIZE) (fl_filter fl)) (Z.min (fl_hash_funcs fl) MAX_HASH_FUNCS) (fl_tweak fl) (fl_flags fl).

Definition is_empty (f : BloomFilter) : bool := bool_decide (data f = []) || forallb (fun b => b =? 0) (data f).
Definition is_full (f : BloomFilter) : bool := negb (bool_decide (data f = [])) && forallb (fun b => b =? 0xff) (data f).

(** The bit of the [n_hash]-th function. *)
Definition hash (f : BloomFilter) (n_hash : Z) (d : bytes) : Z :=
  murmur3_32 (u32 (u32 (n_hash * 0xFBA4C795) + tweak f)) d mod u32 (u32 (len (data f)) * 8).

(** [0..self.hash_funcs] *)
Definition functions (f : BloomFilter) : list Z := seqZ 0 (hash_funcs f).

Definition bit_at (d : bytes) (idx : Z) : bool :=
  negb (Z.land (nth (Z.to_nat (Z.shiftr idx 3)) d 0) (Z.shiftl 1 (Z.land 7 idx)) =? 0).

Definition contains (f : BloomFilter) (d : bytes) : bool :=
  if bool_decide (data f = []) then true else forallb (fun i => bit_at (data f) (hash f i d)) (functions f).

Definition set_bit (d : bytes) (idx : Z) : bytes :=
  alter (fun b => Z.lor b (Z.shiftl 1 (Z.land 7 idx))) (Z.to_nat (Z.shiftr idx 3)) d.
Definition set_data (f : BloomFilter) (d : bytes) : BloomFilter := mkBloomFilter d (hash_funcs f) (tweak f) (flags f).

Definition insert (f : BloomFilter) (d : bytes) : BloomFilter :=
  if bool_decide (data f = []) then f
  else foldl (fun f i => set_data f (set_bit (data f) (hash f i d))) f (functions f).

Definition outpoint_bytes (o : OutPoint) : bytes := op_txid o ++ to_le 4 (op_vout o).

Section Matching.
Context `{HSc : ScriptLib} `{HT : TxLib} `{HPk : PubkeyScripts}.

(** A data push before the first parse error. *)
Definition script_matches (f : BloomFilter) (script : bytes) : bool :=
  existsb (fun i => match i with PushBytes b => negb (bool_decide (b = [])) && contains f b | Op _ => false end)
    (until_error (instructions script)).

Definition input_matches (f : BloomFilter) (i : TxIn) : bool :=
  contains f (outpoint_bytes (previous_output i)) || script_matches f (script_sig i).

Definition matches_tx (f : BloomFilter) (tx : Transaction) : bool :=
  if bool_decide (data f = []) then true
  else contains f (compute_txid tx) || existsb (fun o => script_matches f (script_pubkey o)) (output tx)
    || existsb (input_matches f) (input tx).

(** Whether a matched output is followed. *)
Definition follows (fl : BloomFlags) (spk : bytes) : bool :=
  match fl with UpdateAll => true | UpdatePubkeyOnly => is_p2pk spk || is_multisig spk | UpdateNone => false end.

Definition update_output (txid : hash256) (s : BloomFilter * bool) (p : nat * TxOut) : BloomFilter * bool :=
  let '(f, found) := s in
  let '(i, o) := p in
  if script_matches f (script_pubkey o) then
    (if follows (flags f) (script_pubkey o) then insert f (outpoint_bytes (mkOutPoint txid (u32 (Z.of_nat i)))) else f, true)
  else (f, found).

Definition is_relevant_and_update (f : BloomFilter) (tx : Transaction) : BloomFilter * bool :=
  if bool_decide (data f = []) then (f, true)
  else
    let txid := compute_txid tx in
    let '(f, found) := foldl (update_output txid) (f, contains f txid) (imap pair (output tx)) in
    if found : bool then (f, true) else (f, existsb (input_matches f) (input tx)).
End Matching.

(** ** The filters of the peers *)

(** What [PeerManager] keeps for light clients: the switch, the filter of each
    tracked peer and the connections. *)
Record FilterService := mkFilterService {
  peer_bloom_filters : bool;
  peer_state : gmap Z (option BloomFilter);
  peers : gset Z }.

Definition set_peer_state (m : FilterService) (s : gmap Z (option BloomFilter)) : FilterService :=
  mkFilterService (peer_bloom_filters m) s (peers m).

Definition handle_filterload (m : FilterService) (peer_id : Z) (fl : FilterLoad) : FilterService :=
  if peer_bloom_filters m then set_peer_state m (alter (fun _ => Some (from_filter_load fl)) peer_id (peer_state m)) else m.
Definition handle_filteradd (m : FilterService) (peer_id : Z) (d : bytes) : FilterService :=
  if peer_bloom_filters m then set_peer_state m (alter (fmap (fun f => insert f d)) peer_id (peer_state m)) else m.
Definition handle_filterclear (m : FilterService) (peer_id : Z) : FilterService :=
  set_peer_state m (alter (fun _ => None) peer_id (peer_state m)).

Section Serving.
Context `{HSc : ScriptLib} `{HT : TxLib} `{HPk : PubkeyScripts}.

(** The [inv] messages that answer [mempool]; [txs] is the pool in the order
    of its iteration. *)
Definition handle_mempool (m : FilterService) (peer_id : Z) (txs : list (hash256 * Transaction)) : list (list hash256) :=
  if peer_bloom_filters m then
    let inv := match mjoin (peer_state m !! peer_id) with
               | Some f => map fst (filter (fun p => matches_tx f p.2 = true) txs)
               | None => map fst txs
               end in
    if bool_decide (peer_id ∈ peers m) then chunks 50000 inv else []
  else [].

(** The transactions of a block that match, and the filter afterwards. *)
Definition match_block (f : BloomFilter) (txs : list Transaction) : BloomFilter * list Transaction :=
  foldl (fun '(f, matched) tx => let '(f, relevant) := is_relevant_and_update f tx in (f, if relevant : bool then matched ++ [tx] else matched))
    (f, []) txs.

(** A [merkleblock] of the block with the ids of its matches, and the matches. *)
Inductive FilteredMsg : Type := MerkleBlockMsg (block : Block) (matched : list hash256) | TxMsg (tx : Transaction).

Context `{HR : RocksDb} `{HC : HeaderCodec} `{HF : BlockFiles} `{HB : BlockLib}.

Definition serve_filtered_block (hi : HeaderIndex) (bs : BlockStore) (m : FilterService) (peer_id : Z) (hash : hash256) :
    BlockStore * FilterService * list FilteredMsg :=
  if peer_bloom_filters m then
    match get_block_pos hi hash with
    | Ok (Some pos) =>
        let '(bs, raw) := read_block pos bs in
        match raw with
        | Err _ => (bs, m, [])
        | Ok raw =>
            match deserialize_block raw with
            | None => (bs, m, [])
            | Some block =>
                match mjoin (peer_state m !! peer_id) with
                | None => (bs, m, [])
                | Some f =>
                    let '(f, matched) := match_block f (txdata block) in
                    (bs, set_peer_state m (<[peer_id := Some f]> (peer_state m)),
                     if bool_decide (peer_id ∈ peers m)
                     then MerkleBlockMsg block (map compute_txid matched) :: map TxMsg matched else [])
                end
            end
        end
    | _ => (bs, m, [])
    end
  else (bs, m, []).
End Serving.

(** ** Bits *)

Lemma bit_at_spec d idx : Forall (fun b => 0 <= b) d -> bit_at d idx = Z.testbit (nth (Z.to_nat (Z.shiftr idx 3)) d 0) (Z.land 7 idx).
Proof.
  intros Hd. unfold bit_at. set (b := nth _ d 0). assert (Hk : 0 <= Z.land 7 idx) by (apply Z.land_nonneg; lia).
  rewrite Z.shiftl_1_l. destruct (Z.testbit b (Z.land 7 idx)) eqn:Ht.
  - apply negb_true_iff, Z.eqb_neq. intros Hz. apply (f_equal (fun z => Z.testbit z (Z.land 7 idx))) in Hz.
    by rewrite Z.land_spec, Ht, Z.pow2_bits_true, Z.bits_0 in Hz.
  - apply negb_false_iff, Z.eqb_eq. apply Z.bits_inj_0. intros j. rewrite Z.land_spec, Z.pow2_bits_eqb by done.
    destruct (Z.eqb_spec (Z.land 7 idx) j) as [<-|]; [by rewrite Ht|apply andb_false_r].
Qed.

(** [e] has every bit of [d]. *)
Definition covers (d e : bytes) : Prop := length e = length d /\ forall idx, bit_at d idx = true -> bit_at e idx = true.

Lemma covers_refl d : covers d d.
Proof. done. Qed.
Lemma covers_trans d1 d2 d3 : covers d1 d2 -> covers d2 d3 -> covers d1 d3.
Proof. intros [? H1] [? H2]. split; [congruence|]. auto. Qed.

Lemma nth_alter (g : Z -> Z) i j d : (i < length d)%nat -> nth j (alter g i d) 0 = if (j =? i)%nat then g (nth i d 0) else nth j d 0.
Proof.
  intros Hi. rewrite !nth_lookup, list_lookup_alter. destruct (Nat.eqb_spec j i) as [->|Hne].
  - rewrite decide_True by done. by destruct (lookup_lt_is_Some_2 d i Hi) as [x ->].
  - by rewrite decide_False.
Qed.

(** Setting a bit inside the filter. *)
Lemma bit_at_set d idx j : 0 <= idx < 8 * len d -> Forall (fun b => 0 <= b) d ->
  bit_at (set_bit d idx) j = bit_at d j || ((Z.to_nat (Z.shiftr j 3) =? Z.to_nat (Z.shiftr idx 3))%nat && (Z.land 7 j =? Z.land 7 idx)).
Proof.
  intros Hi Hd. assert (Hk : 0 <= Z.land 7 idx) by (apply Z.land_nonneg; lia).
  assert (Hs : (Z.to_nat (Z.shiftr idx 3) < length d)%nat).
  { rewrite Z.shiftr_div_pow2 by lia. unfold len in Hi. change (2 ^ 3) with 8. assert (idx / 8 < Z.of_nat (length d)) by (apply Z.div_lt_upper_bound; lia). lia. }
  assert (Hd' : Forall (fun b => 0 <= b) (set_bit d idx)).
  { apply Forall_alter; [done|]. intros b _ Hb. apply Z.lor_nonneg. split; [done|]. apply Z.shiftl_nonneg. lia. }
  rewrite !bit_at_spec by done. unfold set_bit. rewrite nth_alter by done. destruct (Nat.eqb_spec (Z.to_nat (Z.shiftr j 3)) (Z.to_nat (Z.shiftr idx 3))) as [->|]; [|by rewrite orb_false_r].
  rewrite Z.lor_spec, Z.shiftl_1_l, Z.pow2_bits_eqb by done. by rewrite Z.eqb_sym.
Qed.

Lemma set_bit_length d idx : length (set_bit d idx) = length d.
Proof. apply length_alter. Qed.

Lemma covers_set d idx : 0 <= idx < 8 * len d -> Forall (fun b => 0 <= b) d -> covers d (set_bit d idx) /\ bit_at (set_bit d idx) idx = true.
Proof.
  intros Hi Hd. split; [split; [apply set_bit_length|]|].
  - intros j Hj. rewrite bit_at_set, Hj by done. done.
  - rewrite bit_at_set, Nat.eqb_refl, Z.eqb_refl by done. apply orb_true_r.
Qed.

(** ** Growing filters *)

Definition filter_ok (f : BloomFilter) : Prop := Forall (fun b => 0 <= b) (data f) /\ len (data f) <= MAX_BLOOM_FILTER_SIZE.

(** [g] is [f] with more bits. *)
Definition grown (f g : BloomFilter) : Prop :=
  hash_funcs g = hash_funcs f /\ tweak g = tweak f /\ flags g = flags f /\ covers (data f) (data g).

Lemma grown_refl f : grown f f.
Proof. done. Qed.
Lemma grown_trans f g h : grown f g -> grown g h -> grown f h.
Proof. intros (Ha & Hb & Hc & H1) (Ha2 & Hb2 & Hc2 & H2). split_and!; [congruence..|]. by eapply covers_trans. Qed.

Lemma hash_grown f g i d : grown f g -> hash g i d = hash f i d.
Proof. intros (_ & Ht & _ & Hl & _). unfold hash, len. by rewrite Ht, Hl. Qed.

Lemma grown_nil f g : grown f g -> data g = [] <-> data f = [].
Proof. intros (_ & _ & _ & Hl & _). rewrite <- !length_zero_iff_nil. lia. Qed.

Lemma contains_grown f g d : grown f g -> contains f d = true -> contains g d = true.
Proof.
  intros Hg. unfold contains. pose proof (grown_nil _ _ Hg) as Hn. destruct (bool_decide_reflect (data g = [])); [done|].
  rewrite bool_decide_eq_false_2 by tauto. rewrite !forallb_forall. intros Hf i Hi. rewrite (hash_grown _ _ _ _ Hg).
  apply Hg, Hf. unfold functions in *. by destruct Hg as (<- & _).
Qed.

Lemma hash_range f i d : filter_ok f -> data f <> [] -> 0 <= hash f i d < 8 * len (data f).
Proof.
  intros [_ Hl] Hne. assert (0 < len (data f)) by (unfold len; destruct (data f); [done|cbn; lia]). unfold hash, MAX_BLOOM_FILTER_SIZE in *.
  rewrite (wrap_small 32 (len _)), (wrap_small 32 (len _ * 8)), (Z.mul_comm 8) by (unfold fits; lia). apply Z.mod_pos_bound. lia.
Qed.

Lemma set_bit_grown f i d : filter_ok f -> data f <> [] ->
  let g := set_data f (set_bit (data f) (hash f i d)) in grown f g /\ filter_ok g /\ bit_at (data g) (hash f i d) = true.
Proof.
  intros Hok Hne. pose proof (hash_range f i d Hok Hne) as Hr. destruct Hok as [Hb Hl]. destruct (covers_set _ _ Hr Hb) as [Hc Hs].
  split_and!; [done| |done]. split; cbn [data set_data]; [|unfold len; by rewrite set_bit_length].
  apply Forall_alter; [done|]. intros b _ Hb'. apply Z.lor_nonneg. split; [done|]. apply Z.shiftl_nonneg. lia.
Qed.

Lemma insert_loop d l : forall f, filter_ok f -> data f <> [] ->
  let g := foldl (fun f i => set_data f (set_bit (data f) (hash f i d))) f l in
  grown f g /\ filter_ok g /\ forall i, i ∈ l -> bit_at (data g) (hash f i d) = true.
Proof.
  induction l as [|i l IH]; intros f Hok Hne; cbn [foldl]; [split_and!; [done..|]; by intros i ?%elem_of_nil|].
  destruct (set_bit_grown f i d Hok Hne) as (Hg & Hok' & Hbit). set (f' := set_data f _) in *.
  destruct (IH f' Hok') as (Hg2 & Hok2 & Hin); [by rewrite (grown_nil f f')|]. split_and!; [by eapply grown_trans|done|].
  intros j [->|Hj]%elem_of_cons; [by apply Hg2|]. rewrite <- (hash_grown f f') by done. by apply Hin.
Qed.

(** An insertion keeps what was there and adds its element. *)
Lemma insert_spec f d : filter_ok f -> grown f (insert f d) /\ filter_ok (insert f d) /\ contains (insert f d) d = true.
Proof.
  intros Hok. unfold insert. destruct (bool_decide_reflect (data f = [])) as [He|Hne].
  - split_and!; [done..|]. unfold contains. by rewrite bool_decide_eq_true_2.
  - destruct (insert_loop d (functions f) f Hok Hne) as (Hg & Hok' & Hin). split_and!; [done..|]. set (g := foldl _ f _) in *. unfold contains.
    case_bool_decide; [done|]. apply forallb_forall. intros i Hi%list_elem_of_In. rewrite (hash_grown _ _ _ _ Hg). apply Hin.
    unfold functions in Hi |- *. by rewrite (proj1 Hg) in Hi.
Qed.

Section Relevance.
Context `{HSc : ScriptLib} `{HT : TxLib} `{HPk : PubkeyScripts}.

Lemma script_matches_grown f g s : grown f g -> script_matches f s = true -> script_matches g s = true.
Proof.
  intros Hg. unfold script_matches. rewrite !existsb_exists. intros (i & Hi & Hm). exists i. split; [done|]. destruct i as [b|]; [|done].
  apply andb_true_iff in Hm as [H1 H2]. rewrite H1. by apply (contains_grown f).
Qed.

Lemma update_output_spec txid p f found : filter_ok f ->
  let '(g, found') := update_output txid (f, found) p in
  grown f g /\ filter_ok g /\ (g = f \/ found' = true) /\ found' = found || script_matches f (script_pubkey p.2) /\
  (script_matches f (script_pubkey p.2) = true -> follows (flags f) (script_pubkey p.2) = true ->
   contains g (outpoint_bytes (mkOutPoint txid (u32 (Z.of_nat p.1)))) = true).
Proof.
  intros Hok. destruct p as [i o]. cbn [update_output fst snd]. destruct (script_matches f (script_pubkey o)) eqn:Hm.
  - destruct (follows (flags f) (script_pubkey o)) eqn:Hf.
    + destruct (insert_spec f (outpoint_bytes (mkOutPoint txid (u32 (Z.of_nat i)))) Hok) as (Hg & Hok' & Hc). rewrite orb_true_r. by split_and!; auto.
    + rewrite orb_true_r. by split_and!; auto using grown_refl.
  - rewrite orb_false_r. by split_and!; auto using grown_refl.
Qed.

Lemma update_loop_spec txid l : forall f found, filter_ok f ->
  let '(g, found') := foldl (update_output txid) (f, found) l in
  grown f g /\ filter_ok g /\ (g = f \/ found' = true) /\
  found' = found || existsb (fun p => script_matches f (script_pubkey p.2)) l /\
  (forall p, p ∈ l -> script_matches f (script_pubkey p.2) = true -> follows (flags f) (script_pubkey p.2) = true ->
    contains g (outpoint_bytes (mkOutPoint txid (u32 (Z.of_nat p.1)))) = true).
Proof.
  induction l as [|p l IH]; intros f found Hok; cbn [foldl existsb].
  { rewrite orb_false_r. split_and!; [done..|by left|done|]. by intros p ?%elem_of_nil. }
  pose proof (update_output_spec txid p f found Hok) as Hp. destruct (update_output txid (f, found) p) as [f1 fd1].
  destruct Hp as (Hg & Hok1 & Heq & Hfd & Hc). pose proof (IH f1 fd1 Hok1) as Hl. destruct (foldl (update_output txid) (f1, fd1) l) as [g fd].
  destruct Hl as (Hg2 & Hok2 & Heq2 & Hfd2 & Hc2). split_and!; [by eapply grown_trans|done| | |].
  - destruct Heq2 as [->|]; [|by right]. destruct Heq as [->| ->]; [by left|right]. by rewrite Hfd2.
  - rewrite Hfd2, Hfd. destruct Heq as [->|Hfd1]; [by rewrite orb_assoc|]. rewrite Hfd in Hfd1. rewrite orb_assoc, Hfd1. done.
  - intros q [->|Hq]%elem_of_cons Hm Hf; [by apply (contains_grown f1); [|apply Hc]|]. apply Hc2; [done|by apply (script_matches_grown f)|].
    by destruct Hg as (_ & _ & -> & _).
Qed.

(** Matching with update answers what matching without update does, and keeps
    the filter growing. *)
Lemma relevant_spec f tx : filter_ok f ->
  let '(g, relevant) := is_relevant_and_update f tx in grown f g /\ filter_ok g /\ relevant = matches_tx f tx.
Proof.
  intros Hok. unfold is_relevant_and_update, matches_tx. destruct (bool_decide_reflect (data f = [])) as [He|Hne]; [done|].
  pose proof (update_loop_spec (compute_txid tx) (imap pair (output tx)) f (contains f (compute_txid tx)) Hok) as Hl.
  destruct (foldl _ _ _) as [g found]. destruct Hl as (Hg & Hok' & Heq & Hfd & _).
  assert (He : existsb (fun p : nat * TxOut => script_matches f (script_pubkey p.2)) (imap pair (output tx)) = existsb (fun o => script_matches f (script_pubkey o)) (output tx)).
  { apply eq_true_iff_eq. rewrite !existsb_exists. split.
    - intros ([i o] & Hin%list_elem_of_In & Hm). apply elem_of_lookup_imap in Hin as (j & o' & [= -> ->] & Hj). exists o'. split; [|done].
      apply list_elem_of_In. by eapply list_elem_of_lookup_2.
    - intros (o & Hin%list_elem_of_In & Hm). apply list_elem_of_lookup in Hin as [j Hj]. exists (j, o). split; [|done].
      apply list_elem_of_In, elem_of_lookup_imap. by eexists _, _. }
  rewrite He in Hfd. rewrite <- Hfd. destruct found; [done|]. destruct Heq as [->|]; [|done]. done.
Qed.

Lemma matches_grown f g tx : grown f g -> matches_tx f tx = true -> matches_tx g tx = true.
Proof.
  intros Hg. unfold matches_tx. pose proof (grown_nil _ _ Hg) as Hn. destruct (bool_decide_reflect (data g = [])); [done|].
  rewrite bool_decide_eq_false_2 by tauto. rewrite !orb_true_iff, !existsb_exists. intros [[Hc|(o & Ho & Hm)]|(i & Hi & Hm)].
  - left; left. by apply (contains_grown f).
  - left; right. exists o. split; [done|]. by apply (script_matches_grown f).
  - right. exists i. split; [done|]. unfold input_matches in *. apply orb_true_iff in Hm as [Hm|Hm]; apply orb_true_iff;
      [left; by apply (contains_grown f)|right; by apply (script_matches_grown f)].
Qed.

(** The output [i] of [tx] matches and is followed. *)
Definition watched (f : BloomFilter) (tx : Transaction) (i : nat) : Prop :=
  exists o, output tx !! i = Some o /\ script_matches f (script_pubkey o) = true /\ follows (flags f) (script_pubkey o) = true.
Definition watched_outpoint (tx : Transaction) (i : nat) : OutPoint := mkOutPoint (compute_txid tx) (u32 (Z.of_nat i)).

Lemma watched_grown f g tx i : grown f g -> watched f tx i -> watched g tx i.
Proof. intros Hg (o & Ho & Hm & Hf). exists o. split_and!; [done|by apply (script_matches_grown f)|]. by destruct Hg as (_ & _ & -> & _). Qed.

Lemma watched_added f tx i : filter_ok f -> watched f tx i -> contains (is_relevant_and_update f tx).1 (outpoint_bytes (watched_outpoint tx i)) = true.
Proof.
  intros Hok (o & Ho & Hm & Hf). unfold is_relevant_and_update. destruct (bool_decide_reflect (data f = [])) as [He|Hne].
  { unfold contains. by rewrite bool_decide_eq_true_2. }
  pose proof (update_loop_spec (compute_txid tx) (imap pair (output tx)) f (contains f (compute_txid tx)) Hok) as Hl.
  destruct (foldl _ _ _) as [g found]. destruct Hl as (_ & _ & _ & _ & Hc).
  assert (contains g (outpoint_bytes (watched_outpoint tx i)) = true) by (apply (Hc (i, o)); [apply elem_of_lookup_imap; by eexists _, _|done..]).
  by destruct found.
Qed.

Lemma watched_matches f tx i : data f <> [] -> watched f tx i -> matches_tx f tx = true.
Proof.
  intros Hne (o & Ho & Hm & _). unfold matches_tx. rewrite bool_decide_eq_false_2 by done. rewrite !orb_true_iff. left; right.
  apply existsb_exists. exists o. split; [|done]. apply list_elem_of_In. by eapply list_elem_of_lookup_2.
Qed.

(** A spend of something in the filter matches. *)
Lemma spend_matches f tx inp : inp ∈ input tx -> contains f (outpoint_bytes (previous_output inp)) = true -> matches_tx f tx = true.
Proof.
  intros Hin Hc. unfold matches_tx. destruct (bool_decide _); [done|]. rewrite orb_true_iff. right. apply existsb_exists. exists inp.
  split; [by apply list_elem_of_In|]. unfold input_matches. by rewrite Hc.
Qed.

Lemma match_block_from txs : forall f acc, filter_ok f ->
  let '(g, matched) := foldl (fun '(f, matched) tx => let '(f, relevant) := is_relevant_and_update f tx in (f, if relevant : bool then matched ++ [tx] else matched)) (f, acc) txs in
  grown f g /\ filter_ok g /\ (forall tx, tx ∈ acc -> tx ∈ matched) /\ (forall tx, tx ∈ txs -> matches_tx f tx = true -> tx ∈ matched) /\
  (forall tx i, tx ∈ txs -> watched f tx i -> contains g (outpoint_bytes (watched_outpoint tx i)) = true).
Proof.
  induction txs as [|t txs IH]; intros f acc Hok; cbn [foldl]; [split_and!; [done..|by intros tx ?%elem_of_nil|by intros tx i ?%elem_of_nil]|].
  pose proof (relevant_spec f t Hok) as Hr. pose proof (watched_added f t) as Hw. destruct (is_relevant_and_update f t) as [f1 rel]; cbn [fst] in Hw.
  destruct Hr as (Hg & Hok1 & Hrel). pose proof (IH f1 (if rel then acc ++ [t] else acc) Hok1) as Hi. destruct (foldl _ _ txs) as [g matched].
  destruct Hi as (Hg2 & Hok2 & Hacc & Hin & Hwa). split_and!; [by eapply grown_trans|done| | |].
  - intros tx Htx. apply Hacc. destruct rel; [|done]. apply elem_of_app. by left.
  - intros tx [->|Htx]%elem_of_cons Hm; [|by apply Hin; [|apply (matches_grown f)]]. rewrite Hm in Hrel. subst rel. apply Hacc, elem_of_app. right. by apply list_elem_of_singleton.
  - intros tx i [->|Htx]%elem_of_cons Hwt; [by apply (contains_grown f1); [|apply Hw]|]. apply Hwa; [done|]. by apply (watched_grown f).
Qed.

Lemma match_block_spec f txs g matched : filter_ok f -> match_block f txs = (g, matched) ->
  grown f g /\ filter_ok g /\ (forall tx, tx ∈ txs -> matches_tx f tx = true -> tx ∈ matched) /\
  (forall tx i, tx ∈ txs -> watched f tx i -> contains g (outpoint_bytes (watched_outpoint tx i)) = true).
Proof. intros Hok Hm. pose proof (match_block_from txs f [] Hok) as H1. unfold match_block in Hm. rewrite Hm in H1. tauto. Qed.
End Relevance.

(** ** Serving a light client *)

Section Client.
Context `{HSc : ScriptLib} `{HT : TxLib} `{HPk : PubkeyScripts} `{HR : RocksDb} `{HC : HeaderCodec} `{HF : BlockFiles} `{HB : BlockLib}.
Implicit Types m : FilterService.

Definition peer_filter m (peer : Z) : option BloomFilter := mjoin (peer_state m !! peer).

(** What can happen between two requests of a peer that does not load or clear
    its filter: additions and requests of any peer, other peers' filters. *)
Inductive meanwhile (peer : Z) : FilterService -> FilterService -> Prop :=
| mw_refl m : meanwhile peer m m
| mw_add m m' p d : meanwhile peer (handle_filteradd m p d) m' -> meanwhile peer m m'
| mw_serve m m' hi bs p hash : meanwhile peer (serve_filtered_block hi bs m p hash).1.2 m' -> meanwhile peer m m'
| mw_load m m' p fl : p <> peer -> meanwhile peer (handle_filterload m p fl) m' -> meanwhile peer m m'
| mw_clear m m' p : p <> peer -> meanwhile peer (handle_filterclear m p) m' -> meanwhile peer m m'.

(** The filter of [peer] in [m'] has grown from [f]. *)
Definition serving m' (peer : Z) (f : BloomFilter) : Prop := exists g, peer_filter m' peer = Some g /\ grown f g /\ filter_ok g.

Lemma peer_filter_alter m (F : option BloomFilter -> option BloomFilter) p peer :
  peer_filter (set_peer_state m (alter F p (peer_state m))) peer = if decide (p = peer) then mjoin (F <$> peer_state m !! peer) else peer_filter m peer.
Proof. unfold peer_filter. cbn [set_peer_state peer_state]. case_decide as Hp; [subst p; by rewrite lookup_alter_eq|by rewrite lookup_alter_ne]. Qed.

Lemma serving_add m p d peer f : serving m peer f -> serving (handle_filteradd m p d) peer f.
Proof.
  intros (g & Hg & Hgr & Hok). unfold handle_filteradd. destruct (peer_bloom_filters m); [|by exists g]. unfold serving. rewrite peer_filter_alter.
  case_decide as Hp; [|by exists g]. unfold peer_filter in Hg. destruct (peer_state m !! peer) as [[g'|]|]; [|done..]. injection Hg as ->.
  destruct (insert_spec g d Hok) as (H1 & H2 & _). exists (insert g d). split_and!; [done|by eapply grown_trans|done].
Qed.

(** A request that is answered. *)
Lemma serve_answers hi bs m p hash bs' m' msgs : serve_filtered_block hi bs m p hash = (bs', m', msgs) ->
  (m' = m /\ msgs = []) \/
  exists block f g matched, peer_filter m p = Some f /\ match_block f (txdata block) = (g, matched) /\
    m' = set_peer_state m (<[p := Some g]> (peer_state m)) /\
    msgs = if bool_decide (p ∈ peers m) then MerkleBlockMsg block (map compute_txid matched) :: map TxMsg matched else [].
Proof.
  unfold serve_filtered_block. destruct (peer_bloom_filters m); [|intros [= <- <- <-]; by left]. destruct (get_block_pos hi hash) as [[pos|]|]; [|intros [= <- <- <-]; by left..].
  destruct (read_block pos bs) as [bs1 [raw|]]; [|intros [= <- <- <-]; by left]. destruct (deserialize_block raw) as [block|]; [|intros [= <- <- <-]; by left].
  fold (peer_filter m p). destruct (peer_filter m p) as [f|] eqn:Hf; [|intros [= <- <- <-]; by left]. destruct (match_block f (txdata block)) as [g matched] eqn:Hm.
  intros [= <- <- <-]. right. by exists block, f, g, matched.
Qed.

Lemma serving_serve m hi bs p hash peer f : serving m peer f -> serving (serve_filtered_block hi bs m p hash).1.2 peer f.
Proof.
  intros Hs. destruct (serve_filtered_block hi bs m p hash) as [[bs' m'] msgs] eqn:He. cbn [fst snd].
  destruct (serve_answers _ _ _ _ _ _ _ _ He) as [[-> _]|(block & f1 & g1 & matched & Hf & Hm & -> & _)]; [done|].
  unfold serving, peer_filter. cbn [set_peer_state peer_state]. destruct (decide (p = peer)) as [->|Hne]; [|by rewrite lookup_insert_ne].
  rewrite lookup_insert_eq. destruct Hs as (g & Hg & Hgr & Hok). rewrite Hf in Hg. injection Hg as ->.
  destruct (match_block_spec g _ _ _ Hok Hm) as (H1 & H2 & _). exists g1. split_and!; [done|by eapply grown_trans|done].
Qed.

Lemma serving_meanwhile peer m m' : meanwhile peer m m' -> forall f, serving m peer f -> serving m' peer f.
Proof.
  induction 1 as [m|m m' p d _ IH|m m' hi bs p hash _ IH|m m' p fl Hp _ IH|m m' p Hp _ IH]; intros f Hs; [done|apply IH..].
  - by apply serving_add.
  - by apply serving_serve.
  - unfold handle_filterload. destruct (peer_bloom_filters m); [|done]. unfold serving in *. by rewrite peer_filter_alter, decide_False.
  - unfold handle_filterclear, serving in *. by rewrite peer_filter_alter, decide_False.
Qed.

(** C36: A light client misses nothing: when a filtered block was served to a peer,
    then of that block the peer got every transaction that matched its filter;
    and whatever other requests and additions come in between, a filtered block
    served later contains, among the transactions sent, every spend of an
    output of the first block that matched the filter and is followed by its
    flags, as well as every transaction that matches the filter as it was. *)
Theorem light_client_misses_nothing (hi hi' : HeaderIndex) (bs bs1 bs2 bs3 : BlockStore) m m1 m2 m3 peer h h' f b b' ids ids' sent sent' :
  peer_filter m peer = Some f -> filter_ok f ->
  serve_filtered_block hi bs m peer h = (bs1, m1, MerkleBlockMsg b ids :: sent) ->
  meanwhile peer m1 m2 ->
  serve_filtered_block hi' bs2 m2 peer h' = (bs3, m3, MerkleBlockMsg b' ids' :: sent') ->
  (forall tx, tx ∈ txdata b -> matches_tx f tx = true -> TxMsg tx ∈ sent) /\
  (forall tx, tx ∈ txdata b' -> matches_tx f tx = true -> TxMsg tx ∈ sent') /\
  (forall tx i tx' inp, tx ∈ txdata b -> watched f tx i ->
    tx' ∈ txdata b' -> inp ∈ input tx' -> previous_output inp = watched_outpoint tx i -> TxMsg tx' ∈ sent').
Proof.
  intros Hf Hok Hs1 Hmw Hs2.
  destruct (serve_answers _ _ _ _ _ _ _ _ Hs1) as [[_ ?]|(b1 & f1 & g1 & mt1 & Hf1 & Hm1 & Heq1 & Hmsg1)]; [done|].
  destruct (serve_answers _ _ _ _ _ _ _ _ Hs2) as [[_ ?]|(b2 & f2 & g2 & mt2 & Hf2 & Hm2 & _ & Hmsg2)]; [done|].
  destruct (bool_decide (peer ∈ peers m)); [|done]. injection Hmsg1 as -> -> ->. destruct (bool_decide (peer ∈ peers m2)); [|done]. injection Hmsg2 as -> -> ->.
  rewrite Hf in Hf1. injection Hf1 as <-. destruct (match_block_spec f _ _ _ Hok Hm1) as (Hg1 & Hok1 & Hin1 & Hw1).
  destruct (serving_meanwhile peer m1 m2 Hmw g1) as (g & Hg & Hgr & Hokg).
  { exists g1. split_and!; [|done..]. rewrite Heq1. unfold peer_filter. cbn [set_peer_state peer_state]. by rewrite lookup_insert_eq. }
  rewrite Hf2 in Hg. injection Hg as ->. destruct (match_block_spec g _ _ _ Hokg Hm2) as (_ & _ & Hin2 & _).
  pose proof (grown_trans _ _ _ Hg1 Hgr) as Hfg. split_and!.
  - intros tx Htx Hm. apply list_elem_of_fmap_2. by apply Hin1.
  - intros tx Htx Hm. apply list_elem_of_fmap_2, Hin2; [done|]. by apply (matches_grown f).
  - intros tx i tx' inp Htx Hw Htx' Hinp Hp. apply list_elem_of_fmap_2, Hin2; [done|]. apply (spend_matches g tx' inp Hinp).
    rewrite Hp. apply (contains_grown g1); [done|]. by apply Hw1.
Qed.
End Client.

(** ** The theorem at a concrete input *)

Section ClientExample.
#[local] Existing Instance Sample.hashes.
#[local] Existing Instance Sample.tx_lib.
#[local] Existing Instance SampleScript.script_lib.
#[local] Existing Instance SampleDb.rocks.
#[local] Existing Instance SampleCodec.codec.
#[local] Existing Instance BlockStore.sample_files.

#[local] Instance bx_templates : PubkeyScripts := {| is_p2pk := fun _ => false; is_multisig := fun _ => false |}.

(** The first block pays to a script with the element [7; 7], the second spends it. *)
Definition bx_pay : Transaction := mkTransaction 2 9 [mkTxIn null_outpoint [0x51] 0 []] [mkTxOut 5 [2; 7; 7]].
Definition bx_spend : Transaction := mkTransaction 2 8 [mkTxIn (mkOutPoint (compute_txid bx_pay) 0) [] 0 []] [mkTxOut 4 [0x51]].
Definition bx_header (n : Z) : Header := mkHeader 4 (replicate 32 n) (replicate 32 0) 150 5 n.
Definition bx_block1 : Block := mkBlock (bx_header 1) [bx_pay].
Definition bx_block2 : Block := mkBlock (bx_header 2) [bx_spend].
#[local] Instance bx_blocks : BlockLib :=
  {| deserialize_block := fun raw => if bool_decide (raw = [1]) then Some bx_block1 else if bool_decide (raw = [2]) then Some bx_block2 else None;
     block_total_size := fun _ => 100 |}.

Definition bx_store : BlockStore := mkBlockStore 1000000 0 0 (Some []) ({[0 := to_le 4 1 ++ [1] ++ to_le 4 1 ++ [2]]} : gmap Z bytes) false.
Definition bx_index : HeaderIndex :=
  (set_block_pos (replicate 32 2) (mkBlockPos 0 5 1) (set_block_pos (replicate 32 1) (mkBlockPos 0 0 1) (mkHeaderIndex (∅ : gmap (string * bytes) bytes) ∅ 0)).1).1.
Definition bx_filter : BloomFilter := insert (from_filter_load (mkFilterLoad (replicate 8 0) 3 5 UpdateAll)) [7; 7].
Definition bx_service : FilterService := mkFilterService true {[4 := Some bx_filter]} {[4]}.
Definition bx_first := serve_filtered_block bx_index bx_store bx_service 4 (replicate 32 1).
Definition bx_second := serve_filtered_block bx_index bx_first.1.1 (handle_filteradd bx_first.1.2 4 [1; 2; 3]) 4 (replicate 32 2).

Lemma bx_first_sent : bx_first = (bx_first.1.1, bx_first.1.2, [MerkleBlockMsg bx_block1 [compute_txid bx_pay]; TxMsg bx_pay]).
Proof.
  assert (Hs : bx_first.2 = [MerkleBlockMsg bx_block1 [compute_txid bx_pay]; TxMsg bx_pay]) by (vm_compute; reflexivity).
  rewrite <- Hs. by destruct bx_first as [[? ?] ?].
Qed.

Lemma bx_second_sent : bx_second = (bx_second.1.1, bx_second.1.2, [MerkleBlockMsg bx_block2 [compute_txid bx_spend]; TxMsg bx_spend]).
Proof.
  assert (Hs : bx_second.2 = [MerkleBlockMsg bx_block2 [compute_txid bx_spend]; TxMsg bx_spend]) by (vm_compute; reflexivity).
  rewrite <- Hs. by destruct bx_second as [[? ?] ?].
Qed.

Lemma light_client_misses_nothing_witness : exists ids sent, bx_second.2 = MerkleBlockMsg bx_block2 ids :: sent /\ TxMsg bx_spend ∈ sent.
Proof.
  exists [compute_txid bx_spend], [TxMsg bx_spend]. split; [by rewrite bx_second_sent|].
  assert (Hok : filter_ok bx_filter).
  { apply insert_spec. assert (Hd : data (from_filter_load (mkFilterLoad (replicate 8 0) 3 5 UpdateAll)) = replicate 8 0) by (vm_compute; reflexivity).
    unfold filter_ok. rewrite Hd. split; [by apply Forall_replicate|by apply Z.leb_le]. }
  assert (Hw : watched bx_filter bx_pay 0) by (exists (mkTxOut 5 [2; 7; 7]); split_and!; vm_compute; reflexivity).
  assert (Hmw : meanwhile 4 bx_first.1.2 (handle_filteradd bx_first.1.2 4 [1; 2; 3])) by (apply (mw_add 4 _ _ 4 [1; 2; 3]), mw_refl).
  destruct (light_client_misses_nothing bx_index bx_index bx_store bx_first.1.1 bx_first.1.1 bx_second.1.1 bx_service bx_first.1.2
    (handle_filteradd bx_first.1.2 4 [1; 2; 3]) bx_second.1.2 4 (replicate 32 1) (replicate 32 2) bx_filter bx_block1 bx_block2
    [compute_txid bx_pay] [compute_txid bx_spend] [TxMsg bx_pay] [TxMsg bx_spend] eq_refl Hok bx_first_sent Hmw bx_second_sent) as (_ & _ & H3).
  apply (H3 bx_pay 0%nat bx_spend (mkTxIn (mkOutPoint (compute_txid bx_pay) 0) [] 0 [])); [by left|done|by left|by left|reflexivity].
Defined.
End ClientExample.
