(* ===== verification/NetAddr.v ===== *)
(** * Peer addresses

    [bitcoinpr-p2p/src/netaddr.rs]: addresses of every network, their BIP 155
    form, base32, the checksum of onion names with its SHA3-256, and the text
    form with its parser.  Text is a list of code points; what the code takes
    from the standard library (trimming, decimal numbers, the text form of
    socket addresses) is modelled here as well.

    An address survives its text form and its BIP 155 form. *)

From Stdlib Require Import ZArith Lia.
From stdpp Require Import base option numbers list strings.
From S2P Require Import Prelude Bytes Types Store.

Abbreviation text := (list Z).

(** ** Addresses *)

(** The groups of an IPv6 address are sixteen bits wide. *)
Inductive SocketAddr : Type :=
| V4 (ip : bytes) (port : Z)
| V6 (ip : list Z) (port flowinfo scope_id : Z).

Inductive NetAddr : Type :=
| Ip (sa : SocketAddr)
| OnionV3 (pubkey : bytes) (port : Z)
| I2p (hash : bytes) (port : Z).

Inductive AddrNetwork : Type := NetIpv4 | NetIpv6 | NetOnion | NetI2p.

(** [AddrV2] of the [bitcoin] crate. *)
Inductive AddrV2 : Type :=
| A2Ipv4 (ip : bytes) | A2Ipv6 (ip : list Z) | A2TorV2 (b : bytes) | A2TorV3 (b : bytes) | A2I2p (b : bytes) | A2Cjdns (ip : list Z)
| A2Unknown (id : Z) (b : bytes).

Definition network (a : NetAddr) : AddrNetwork :=
  match a with Ip (V4 _ _) => NetIpv4 | Ip (V6 _ _ _ _) => NetIpv6 | OnionV3 _ _ => NetOnion | I2p _ _ => NetI2p end.
Definition socket_port (sa : SocketAddr) : Z := match sa with V4 _ p => p | V6 _ p _ _ => p end.
Definition port (a : NetAddr) : Z := match a with Ip sa => socket_port sa | OnionV3 _ p => p | I2p _ p => p end.
Definition is_ip (a : NetAddr) : bool := match a with Ip _ => true | _ => false end.
Definition to_socket_addr (a : NetAddr) : option SocketAddr := match a with Ip sa => Some sa | _ => None end.

Definition to_addr_v2 (a : NetAddr) : AddrV2 * Z :=
  match a with
  | Ip (V4 ip p) => (A2Ipv4 ip, p)
  | Ip (V6 ip p _ _) => (A2Ipv6 ip, p)
  | OnionV3 k p => (A2TorV3 k, p)
  | I2p h p => (A2I2p h, p)
  end.
Definition from_addr_v2 (a : AddrV2) (p : Z) : option NetAddr :=
  match a with
  | A2Ipv4 ip => Some (Ip (V4 ip p))
  | A2Ipv6 ip => Some (Ip (V6 ip p 0 0))
  | A2TorV3 k => Some (OnionV3 k p)
  | A2I2p h => Some (I2p h p)
  | A2TorV2 _ | A2Cjdns _ | A2Unknown _ _ => None
  end.

(** ** SHA3-256 *)

Definition RC : list Z :=
  [0x0000000000000001; 0x0000000000008082; 0x800000000000808a; 0x8000000080008000; 0x000000000000808b; 0x0000000080000001;
   0x8000000080008081; 0x8000000000008009; 0x000000000000008a; 0x0000000000000088; 0x0000000080008009; 0x000000008000000a;
   0x000000008000808b; 0x800000000000008b; 0x8000000000008089; 0x8000000000008003; 0x8000000000008002; 0x8000000000000080;
   0x000000000000800a; 0x800000008000000a; 0x8000000080008081; 0x8000000000008080; 0x0000000080000001; 0x8000000080008008].
Definition ROTC : list Z := [1; 3; 6; 10; 15; 21; 28; 36; 45; 55; 2; 14; 27; 41; 56; 8; 25; 43; 62; 18; 39; 61; 20; 44].
Definition PILN : list nat := [10; 7; 11; 17; 18; 3; 5; 16; 8; 21; 24; 4; 15; 23; 19; 13; 12; 2; 20; 14; 22; 9; 6; 1]%nat.

Definition rotl64 (x r : Z) : Z := Z.lor (u64 (Z.shiftl x r)) (Z.shiftr x (64 - r)).
Definition lane (st : list Z) (i : nat) : Z := nth i st 0.

Definition theta (st : list Z) : list Z :=
  let bc i := foldl Z.lxor (lane st i) [lane st (i + 5); lane st (i + 10); lane st (i + 15); lane st (i + 20)] in
  let bcs := map bc (seq 0 5) in
  imap (fun k x => let i := (k mod 5)%nat in Z.lxor x (Z.lxor (nth ((i + 4) mod 5) bcs 0) (rotl64 (nth ((i + 1) mod 5) bcs 0) 1))) st.
Definition rho_pi (st : list Z) : list Z :=
  (foldl (fun '(st, t) '(j, r) => (<[j := rotl64 t r]> st, lane st j)) (st, lane st 1) (zip PILN ROTC)).1.
Definition chi (st : list Z) : list Z :=
  imap (fun k x => let j := (5 * (k / 5))%nat in let i := (k mod 5)%nat in
    Z.lxor x (Z.land (Z.lxor (lane st (j + (i + 1) mod 5)) (2 ^ 64 - 1)) (lane st (j + (i + 2) mod 5)))) st.
Definition keccak_round (st : list Z) (round : Z) : list Z :=
  alter (Z.lxor round) 0%nat (chi (rho_pi (theta st))).
Definition keccak_f (st : list Z) : list Z := foldl keccak_round st RC.

Definition RATE : nat := 136.
Definition absorb_block (st : list Z) (block : bytes) : list Z :=
  keccak_f (imap (fun i x => if (i <? RATE / 8)%nat then Z.lxor x (from_le (take 8 (drop (8 * i) block))) else x) st).

(** [chunks_exact] and the padded remainder. *)
Fixpoint absorb (n : nat) (st : list Z) (data : bytes) : list Z * bytes :=
  match n with
  | O => (st, data)
  | S n => absorb n (absorb_block st (take RATE data)) (drop RATE data)
  end.
Definition sha3_256 (data : bytes) : bytes :=
  let '(st, rem) := absorb (length data / RATE) (replicate 25 0) data in
  let block := rem ++ [0x06] ++ replicate (RATE - 1 - length rem) 0 in
  let st := absorb_block st (alter (fun b => Z.lor b 0x80) (RATE - 1)%nat block) in
  concat (map (to_le 8) (take 4 st)).

(** ** Base32 *)

Definition B32_ALPHABET : text := ascii_bytes "abcdefghijklmnopqrstuvwxyz234567".
Definition b32_char (idx : Z) : Z := nth (Z.to_nat idx) B32_ALPHABET 0.

(** [while bits >= 5]; [bits] is at most 12, so two rounds are enough. *)
Fixpoint b32_drain (fuel : nat) (out : text) (buffer bits : Z) : text * Z :=
  match fuel with
  | O => (out, bits)
  | S fuel =>
      if 5 <=? bits then
        let bits := bits - 5 in
        b32_drain fuel (out ++ [b32_char (Z.land (Z.shiftr buffer bits) 0x1f)]) buffer bits
      else (out, bits)
  end.
Definition b32_push (s : text * Z * Z) (byte : Z) : text * Z * Z :=
  let '(out, buffer, bits) := s in
  let buffer := Z.lor (u32 (Z.shiftl buffer 8)) byte in
  let '(out, bits) := b32_drain 2 out buffer (bits + 8) in (out, buffer, bits).
Definition base32_encode (data : bytes) : text :=
  let '(out, buffer, bits) := foldl b32_push ([], 0, 0) data in
  if 0 <? bits then out ++ [b32_char (Z.land (u32 (Z.shiftl buffer (5 - bits))) 0x1f)] else out.

Definition b32_value (c : Z) : option Z :=
  if (97 <=? c) && (c <=? 122) then Some (c - 97)
  else if (65 <=? c) && (c <=? 90) then Some (c - 65)
  else if (50 <=? c) && (c <=? 55) then Some (c - 50 + 26)
  else None.
Fixpoint b32_decode_from (s : text) (out : bytes) (buffer bits : Z) : option bytes :=
  match s with
  | [] => Some out
  | c :: s =>
      v ← b32_value c;
      let buffer := Z.lor (u32 (Z.shiftl buffer 5)) v in
      let bits := bits + 5 in
      if 8 <=? bits then b32_decode_from s (out ++ [wrap 8 (Z.shiftr buffer (bits - 8))]) buffer (bits - 8)
      else b32_decode_from s out buffer bits
  end.
Definition base32_decode (s : text) : option bytes := b32_decode_from s [] 0 0.

(** ** Onion names *)

Definition ONION_VERSION : Z := 0x03.
Definition onion_checksum (pubkey : bytes) : bytes := take 2 (sha3_256 (ascii_bytes ".onion checksum" ++ pubkey ++ [ONION_VERSION])).
Definition encode_onion_v3_label (pubkey : bytes) : text := base32_encode (pubkey ++ onion_checksum pubkey ++ [ONION_VERSION]).
Definition encode_onion_v3 (pubkey : bytes) : text := encode_onion_v3_label pubkey ++ ascii_bytes ".onion".
Definition decode_onion_v3 (label : text) : option bytes :=
  raw ← base32_decode label;
  if negb (length raw =? 35)%nat || negb (nth 34 raw 0 =? ONION_VERSION) then None
  else
    let pubkey := take 32 raw in
    if bool_decide (take 2 (drop 32 raw) = onion_checksum pubkey) then Some pubkey else None.

Definition onion_host (a : NetAddr) : option text := match a with OnionV3 k _ => Some (encode_onion_v3 k) | _ => None end.
Definition i2p_host (a : NetAddr) : option text :=
  match a with I2p h _ => Some (base32_encode h ++ ascii_bytes ".b32.i2p") | _ => None end.

(** ** Text *)

(** [char::is_whitespace] *)
Definition is_whitespace (c : Z) : bool :=
  ((9 <=? c) && (c <=? 13)) || (c =? 32) || (c =? 0x85) || (c =? 0xa0) || (c =? 0x1680) || ((0x2000 <=? c) && (c <=? 0x200a))
  || (c =? 0x2028) || (c =? 0x2029) || (c =? 0x202f) || (c =? 0x205f) || (c =? 0x3000).
Fixpoint trim_start (s : text) : text :=
  match s with [] => [] | c :: r => if is_whitespace c then trim_start r else s end.
Definition trim (s : text) : text := reverse (trim_start (reverse (trim_start s))).

Definition ascii_lower (c : Z) : Z := if (65 <=? c) && (c <=? 90) then c + 32 else c.
Definition to_ascii_lowercase (s : text) : text := map ascii_lower s.

(** [str::strip_suffix], [str::ends_with] and [str::rsplit_once]. *)
Definition strip_end (suffix s : text) : option text :=
  let n := (length s - length suffix)%nat in if bool_decide (take n s ++ suffix = s) then Some (take n s) else None.
Definition ends_with (suffix s : text) : bool := match strip_end suffix s with Some _ => true | None => false end.
Fixpoint split_once (c : Z) (s : text) : option (text * text) :=
  match s with
  | [] => None
  | x :: s => if x =? c then Some ([], s) else (fun '(a, b) => (x :: a, b)) <$> split_once c s
  end.
Definition rsplit_once (c : Z) (s : text) : option (text * text) :=
  (fun '(b, a) => (reverse a, reverse b)) <$> split_once c (reverse s).

(** [char::to_digit] *)
Definition to_digit (radix c : Z) : option Z :=
  let d := if (48 <=? c) && (c <=? 57) then Some (c - 48)
           else if (97 <=? c) && (c <=? 122) then Some (c - 97 + 10)
           else if (65 <=? c) && (c <=? 90) then Some (c - 65 + 10) else None in
  v ← d; if v <? radix then Some v else None.

(** [u16::from_str]: digits with an optional sign, none of them too many. *)
Fixpoint parse_digits (bound v : Z) (s : text) : option Z :=
  match s with
  | [] => Some v
  | c :: s => d ← to_digit 10 c; let v := v * 10 + d in if v <=? bound then parse_digits bound v s else None
  end.
Definition parse_u16 (s : text) : option Z :=
  match s with
  | [] => None
  | [c] => parse_digits 65535 0 [c]
  | c :: r => if c =? 43 then parse_digits 65535 0 r else parse_digits 65535 0 s
  end.

(** The network names of the command line and the RPC interface. *)
Definition as_str (n : AddrNetwork) : text :=
  ascii_bytes match n with NetIpv4 => "ipv4" | NetIpv6 => "ipv6" | NetOnion => "onion" | NetI2p => "i2p" end.
Definition network_from_str (s : text) : option AddrNetwork :=
  let s := to_ascii_lowercase (trim s) in
  let named x := bool_decide (s = ascii_bytes x) in
  if named "ipv4" then Some NetIpv4
  else if named "ipv6" then Some NetIpv6
  else if named "onion" || named "tor" then Some NetOnion
  else if named "i2p" then Some NetI2p
  else None.

(** *** The parser of socket addresses in the standard library

    A reader takes the input and gives the value with what is left, or
    nothing, and then the input is as it was. *)

Fixpoint read_digits (radix bound : Z) (max_digits : option nat) (count : nat) (v : Z) (s : text) : option (Z * nat * text) :=
  match s with
  | [] => Some (v, count, s)
  | c :: r =>
      match to_digit radix c with
      | None => Some (v, count, s)
      | Some d =>
          let v := v * radix + d in
          if (bound <? v) || (match max_digits with Some m => (m <? S count)%nat | None => false end) then None
          else read_digits radix bound max_digits (S count) v r
      end
  end.
Definition read_number (radix bound : Z) (max_digits : option nat) (allow_zero_prefix : bool) (s : text) : option (Z * text) :=
  '(v, count, r) ← read_digits radix bound max_digits 0 0 s;
  if (count =? 0)%nat then None
  else if negb allow_zero_prefix && bool_decide (head s = Some 48) && (1 <? count)%nat then None
  else Some (v, r).
Definition read_char (c : Z) (s : text) : option text := match s with x :: r => if x =? c then Some r else None | [] => None end.
(** [read_separator]: the separator is expected from the second item on. *)
Definition read_sep {A} (c : Z) (index : nat) (m : text -> option (A * text)) (s : text) : option (A * text) :=
  s ← (if (0 <? index)%nat then read_char c s else Some s); m s.

Fixpoint read_octets (n index : nat) (acc : bytes) (s : text) : option (bytes * text) :=
  match n with
  | O => Some (acc, s)
  | S n => '(b, s) ← read_sep 46 index (read_number 10 255 (Some 3%nat) false) s; read_octets n (S index) (acc ++ [b]) s
  end.
Definition read_ipv4_addr (s : text) : option (bytes * text) := read_octets 4 0 [] s.

(** Up to [limit] groups; [true] when they end with an embedded IPv4 address. *)
Fixpoint read_groups (n limit index : nat) (acc : list Z) (s : text) : list Z * bool * text :=
  match n with
  | O => (acc, false, s)
  | S n =>
      match (if (index <? limit - 1)%nat then read_sep 58 index read_ipv4_addr s else None) with
      | Some ([a; b; c; d], s) => (acc ++ [a * 256 + b; c * 256 + d], true, s)
      | _ =>
          match read_sep 58 index (read_number 16 65535 (Some 4%nat) true) s with
          | Some (g, s) => read_groups n limit (S index) (acc ++ [g]) s
          | None => (acc, false, s)
          end
      end
  end.
Definition read_ipv6_addr (s : text) : option (list Z * text) :=
  let '(head, head_ipv4, s) := read_groups 8 8 0 [] s in
  if (length head =? 8)%nat then Some (head, s)
  else if (head_ipv4 : bool) then None
  else
    s ← read_char 58 s; s ← read_char 58 s;
    let limit := (8 - (length head + 1))%nat in
    let '(tail, _, s) := read_groups limit limit 0 [] s in
    Some (head ++ replicate (8 - length head - length tail) 0 ++ tail, s).

Definition read_port (s : text) : option (Z * text) := s ← read_char 58 s; read_number 10 65535 None true s.
Definition read_socket_addr_v4 (s : text) : option (SocketAddr * text) :=
  '(ip, s) ← read_ipv4_addr s; '(p, s) ← read_port s; Some (V4 ip p, s).
Definition read_scope_id (s : text) : option (Z * text) := s ← read_char 37 s; read_number 10 (2 ^ 32 - 1) None true s.
Definition read_socket_addr_v6 (s : text) : option (SocketAddr * text) :=
  s ← read_char 91 s; '(ip, s) ← read_ipv6_addr s;
  let '(scope_id, s) := match read_scope_id s with Some r => r | None => (0, s) end in
  s ← read_char 93 s; '(p, s) ← read_port s; Some (V6 ip p 0 scope_id, s).
(** [SocketAddr::from_str]: the whole input. *)
Definition parse_socket_addr (s : text) : option SocketAddr :=
  match (match read_socket_addr_v4 s with Some r => Some r | None => read_socket_addr_v6 s end) with
  | Some (sa, []) => Some sa
  | _ => None
  end.

(** *** Printing *)

Definition digit_code (d : Z) : Z := if d <? 10 then 48 + d else 87 + d.
(** Most significant digit first; thirty-two rounds are enough for 32 bits. *)
Fixpoint print_loop (fuel : nat) (radix n : Z) (acc : text) : text :=
  match fuel with
  | O => acc
  | S fuel =>
      let acc := digit_code (n mod radix) :: acc in
      if n / radix =? 0 then acc else print_loop fuel radix (n / radix) acc
  end.
Definition decimal (n : Z) : text := print_loop 32 10 n [].
Definition hexadecimal (n : Z) : text := print_loop 32 16 n [].

Fixpoint join (sep : text) (l : list text) : text :=
  match l with [] => [] | [x] => x | x :: l => x ++ sep ++ join sep l end.
Definition show_ipv4 (ip : bytes) : text := join [46] (map decimal ip).

(** The longest run of zero groups, the first of several: start and length. *)
Fixpoint zero_span (l : list Z) (i cur_start cur_len best_start best_len : nat) : nat * nat :=
  match l with
  | [] => (best_start, best_len)
  | g :: l =>
      if g =? 0 then
        let start := if (cur_len =? 0)%nat then i else cur_start in
        let n := S cur_len in
        if (best_len <? n)%nat then zero_span l (S i) start n start n else zero_span l (S i) start n best_start best_len
      else zero_span l (S i) 0 0 best_start best_len
  end.
Definition show_groups (l : list Z) : text := join [58] (map hexadecimal l).
Definition show_ipv6 (ip : list Z) : text :=
  match ip with
  | [0; 0; 0; 0; 0; 0xffff; a; b] => ascii_bytes "::ffff:" ++ show_ipv4 [a / 256; a mod 256; b / 256; b mod 256]
  | _ =>
      let '(start, n) := zero_span ip 0 0 0 0 0 in
      if (1 <? n)%nat then show_groups (take start ip) ++ ascii_bytes "::" ++ show_groups (drop (start + n) ip) else show_groups ip
  end.
Definition show_socket_addr (sa : SocketAddr) : text :=
  match sa with
  | V4 ip p => show_ipv4 ip ++ [58] ++ decimal p
  | V6 ip p _ scope => [91] ++ show_ipv6 ip ++ (if scope =? 0 then [] else [37] ++ decimal scope) ++ [93; 58] ++ decimal p
  end.

(** ** The text form of an address *)

(** [Display] *)
Definition display (a : NetAddr) : text :=
  match a with
  | Ip sa => show_socket_addr sa
  | OnionV3 k p => encode_onion_v3_label k ++ ascii_bytes ".onion:" ++ decimal p
  | I2p h _ => base32_encode h ++ ascii_bytes ".b32.i2p"
  end.

Definition ONION : text := ascii_bytes ".onion".
Definition B32_I2P : text := ascii_bytes ".b32.i2p".

(** [[u8; 32]::try_from] *)
Definition array32 (b : bytes) : option bytes := if (length b =? 32)%nat then Some b else None.

Definition parse (s : text) (default_port : Z) : option NetAddr :=
  let s := trim s in
  let lower := to_ascii_lowercase s in
  '(host, p) ← match rsplit_once 58 lower with
               | Some (h, p) => if ends_with ONION h || ends_with B32_I2P h then p ← parse_u16 p; Some (h, p) else Some (lower, default_port)
               | None => Some (lower, default_port)
               end;
  match strip_end B32_I2P host with
  | Some rest => hash ← base32_decode rest; hash ← array32 hash; Some (I2p hash p)
  | None =>
      match strip_end ONION host with
      | Some label => pubkey ← decode_onion_v3 label; Some (OnionV3 pubkey p)
      | None => Ip <$> parse_socket_addr s
      end
  end.
