(* ===== verification/NetAddrProofs.v ===== *)
(** * Properties of peer addresses

    Base32 and onion names decode to what was encoded, and an address survives
    its text form and its BIP 155 form. *)

From Stdlib Require Import ZArith Lia.
From stdpp Require Import base option numbers list strings.
From S2P Require Import Prelude Bytes Types Store Poly1305 NetAddr.

(** Side conditions on powers of two. *)
Ltac pow_side := solve [lia | apply Z.pow_nonzero; lia | apply Z.pow_pos_nonneg; lia].

(** ** Base32 *)

Definition digit5 (d : Z) : Prop := 0 <= d < 32.
Fixpoint val32 (l : list Z) : Z := match l with [] => 0 | d :: l => d * 32 ^ len l + val32 l end.

Lemma val32_app a b : val32 (a ++ b) = val32 a * 32 ^ len b + val32 b.
Proof.
  induction a as [|d a IH]; [done|]. cbn [app val32]. rewrite IH. unfold len. rewrite length_app, Nat2Z.inj_add, Z.pow_add_r by lia. ring.
Qed.
Lemma val32_snoc a d : val32 (a ++ [d]) = val32 a * 32 + d.
Proof. rewrite val32_app. change (len [d]) with 1. cbn [val32]. change (32 ^ len []) with 1. lia. Qed.

Lemma b32_value_char d : digit5 d -> b32_value (b32_char d) = Some d.
Proof.
  intros Hd. assert (Ha : forallb (fun d => bool_decide (b32_value (b32_char d) = Some d)) (seqZ 0 32) = true) by (vm_compute; reflexivity).
  rewrite forallb_forall in Ha. assert (Hin : In d (seqZ 0 32)) by (apply list_elem_of_In, elem_of_seqZ; unfold digit5 in Hd; lia).
  specialize (Ha d Hin). by apply bool_decide_eq_true in Ha.
Qed.

(** The low bits of the buffer after a shift and a new digit of [k] bits. *)
Lemma buffer_push buffer bits k x : 0 <= bits -> 0 <= k -> bits + k <= 32 -> 0 <= x < 2 ^ k ->
  Z.lor (u32 (Z.shiftl buffer k)) x mod 2 ^ (bits + k) = (buffer mod 2 ^ bits) * 2 ^ k + x.
Proof.
  intros Hb Hk Hbk Hx. unfold wrap. rewrite Z.shiftl_mul_pow2 by done.
  assert (H1 : (buffer * 2 ^ k) mod 2 ^ 32 = 2 ^ k * (buffer mod 2 ^ (32 - k))).
  { replace 32 with (k + (32 - k)) at 1 by lia. rewrite Z.pow_add_r, (Z.mul_comm buffer) by lia. apply Z.mul_mod_distr_l; apply Z.pow_nonzero; lia. }
  rewrite H1, Z.lor_comm, lor_add_low by done. rewrite Z.add_comm, (Z.add_comm bits), Z.pow_add_r by lia.
  rewrite Z.rem_mul_r by (apply Z.pow_nonzero || apply Z.pow_pos_nonneg; lia).
  rewrite (Z.mul_comm (2 ^ k) (buffer mod _)), Z.add_comm, (Z.add_comm _ x), Z.mod_add, Z.div_add by (apply Z.pow_nonzero; lia).
  rewrite (Z.mod_small x), (Z.div_small x) by done. rewrite Z.add_0_l, Z.mod_mod_divide; [lia|].
  exists (2 ^ (32 - k - bits)). rewrite <- Z.pow_add_r by lia. f_equal. lia.
Qed.

(** [X] is in the digits and the low [bits] of the buffer. *)
Definition holds (X : Z) (digits : list Z) (buffer bits : Z) : Prop :=
  Forall digit5 digits /\ 0 <= bits /\ X = val32 digits * 2 ^ bits + buffer mod 2 ^ bits.

Lemma drain_digit X digits buffer bits : holds X digits buffer bits -> 5 <= bits ->
  holds X (digits ++ [Z.land (Z.shiftr buffer (bits - 5)) 0x1f]) buffer (bits - 5).
Proof.
  intros (Hd & _ & HX) Hb. change 0x1f with (Z.ones 5). rewrite Z.land_ones, Z.shiftr_div_pow2 by lia. change (2 ^ 5) with 32.
  split_and!; [apply Forall_app; split; [done|repeat constructor]; apply Z.mod_pos_bound; lia|lia|]. rewrite HX, val32_snoc.
  replace bits with ((bits - 5) + 5) at 1 2 by lia. rewrite !Z.pow_add_r, Z.rem_mul_r by pow_side.
  change (2 ^ 5) with 32. ring.
Qed.

Lemma b32_drain_spec X buffer : forall fuel digits bits out bits', holds X digits buffer bits -> bits < 5 * Z.of_nat fuel + 5 ->
  b32_drain fuel (map b32_char digits) buffer bits = (out, bits') ->
  exists ds, out = map b32_char ds /\ holds X ds buffer bits' /\ bits' < 5 /\ 5 * len ds + bits' = 5 * len digits + bits.
Proof.
  induction fuel as [|fuel IH]; intros digits bits out bits' Hh Hf; cbn [b32_drain].
  - intros [= <- <-]. exists digits. split_and!; [done|done|lia|done].
  - destruct (Z.leb_spec 5 bits) as [Hb|Hb].
    + pose proof (drain_digit _ _ _ _ Hh Hb) as Hh'. set (d := Z.land _ _) in *. intros Hr. replace (map b32_char digits ++ [b32_char d]) with (map b32_char (digits ++ [d])) in Hr by apply map_app.
      destruct (IH _ _ _ _ Hh' ltac:(lia) Hr) as (ds & -> & Hds & Hb' & Hl). exists ds. split_and!; [done..|]. rewrite Hl. unfold len. rewrite length_app. cbn. lia.
    + intros [= <- <-]. exists digits. split_and!; [done|done|lia|done].
Qed.

Lemma push_spec X n byte out buffer bits out' buffer' bits' digits : byte_ok byte ->
  out = map b32_char digits -> holds X digits buffer bits -> bits < 5 -> 5 * len digits + bits = 8 * n ->
  b32_push (out, buffer, bits) byte = (out', buffer', bits') ->
  exists ds, out' = map b32_char ds /\ holds (X * 256 + byte) ds buffer' bits' /\ bits' < 5 /\ 5 * len ds + bits' = 8 * (n + 1).
Proof.
  intros Hby -> (Hd & Hb0 & HX) Hb Hn. unfold b32_push. set (bf := Z.lor _ byte). destruct (b32_drain _ _ _ _) as [o b] eqn:Hdr. intros [= <- <- <-].
  assert (Hh : holds (X * 256 + byte) digits bf (bits + 8)).
  { split_and!; [done|lia|]. unfold bf. rewrite buffer_push by (unfold byte_ok in Hby; change (2 ^ 8) with 256; lia). rewrite HX, Z.pow_add_r by lia.
    change (2 ^ 8) with 256. ring. }
  destruct (b32_drain_spec _ _ 2 _ _ _ _ Hh ltac:(lia) Hdr) as (ds & -> & Hds & Hb' & Hl). exists ds. split_and!; [done..|lia].
Qed.

Lemma encode_loop data : forall X n digits out buffer bits out' buffer' bits', bytes_ok data ->
  out = map b32_char digits -> holds X digits buffer bits -> bits < 5 -> 5 * len digits + bits = 8 * n ->
  foldl b32_push (out, buffer, bits) data = (out', buffer', bits') ->
  exists ds, out' = map b32_char ds /\ holds (X * pow256 (length data) + from_be data) ds buffer' bits' /\ bits' < 5 /\ 5 * len ds + bits' = 8 * (n + len data).
Proof.
  induction data as [|byte data IH]; intros X n digits out buffer bits out' buffer' bits' Hok Ho Hh Hb Hn; cbn [foldl].
  - intros [= <- <- <-]. exists digits. rewrite from_be_nil. change (pow256 (length (@nil Z))) with 1. rewrite Z.mul_1_r, Z.add_0_r. split_and!; [done..|]. unfold len in *. cbn. lia.
  - apply Forall_cons in Hok as [Hby Hok]. destruct (b32_push _ byte) as [[o1 bf1] b1] eqn:Hp. intros Hf.
    destruct (push_spec _ _ _ _ _ _ _ _ _ _ Hby Ho Hh Hb Hn Hp) as (ds1 & Ho1 & Hh1 & Hb1 & Hn1).
    destruct (IH _ _ _ _ _ _ _ _ _ Hok Ho1 Hh1 Hb1 Hn1 Hf) as (ds & -> & Hds & Hb' & Hl). exists ds. rewrite from_be_cons. cbn [length]. rewrite pow256_S.
    replace (X * (256 * pow256 (length data)) + (byte * pow256 (length data) + from_be data)) with ((X * 256 + byte) * pow256 (length data) + from_be data) by ring.
    split_and!; [done..|]. rewrite Hl. unfold len. cbn [length]. lia.
Qed.

(** The digits of an encoding: the value with up to four zero bits behind it. *)
Lemma encode_digits data : bytes_ok data -> exists digits pad,
  base32_encode data = map b32_char digits /\ Forall digit5 digits /\ 0 <= pad < 5 /\ 5 * len digits = 8 * len data + pad /\
  val32 digits = from_be data * 2 ^ pad.
Proof.
  intros Hok. unfold base32_encode. destruct (foldl b32_push _ data) as [[out buffer] bits] eqn:Hf.
  assert (H0 : holds 0 [] 0 0) by (split_and!; [constructor|done|done]).
  destruct (encode_loop data 0 0 [] [] 0 0 _ _ _ Hok eq_refl H0 eq_refl eq_refl Hf) as (ds & -> & (Hd & Hb0 & HX) & Hb & Hl).
  rewrite Z.mul_0_l, Z.add_0_l in HX. destruct (Z.ltb_spec 0 bits) as [Hp|Hp].
  - set (d := Z.land _ _). assert (Hdv : d = (buffer mod 2 ^ bits) * 2 ^ (5 - bits)).
    { unfold d. change 0x1f with (Z.ones 5). rewrite Z.land_ones by lia. unfold wrap. rewrite Z.shiftl_mul_pow2 by lia.
      rewrite Z.mod_mod_divide by (exists (2 ^ 27); done). replace 5 with (bits + (5 - bits)) at 2 by lia. rewrite Z.pow_add_r by lia.
      apply Z.mul_mod_distr_r; apply Z.pow_nonzero; lia. }
    exists (ds ++ [d]), (5 - bits). rewrite map_app. split_and!; [done| |lia|lia| |].
    + apply Forall_app. split; [done|]. repeat constructor; unfold d; change 0x1f with (Z.ones 5); rewrite Z.land_ones by lia; apply Z.mod_pos_bound; lia.
    + unfold len in *. rewrite length_app. cbn. lia.
    + rewrite val32_snoc, HX, Hdv, Z.mul_add_distr_r, <- Z.mul_assoc, <- Z.pow_add_r by lia. by replace (bits + (5 - bits)) with 5 by lia.
  - assert (bits = 0) as -> by lia. exists ds, 0. rewrite Z.mod_1_r in HX. change (2 ^ 0) with 1 in *. split_and!; [done|done|lia|lia|lia|lia].
Qed.

(** Decoding digits: the value is in the bytes and the low bits of the buffer. *)
Lemma decode_loop digits : forall Y out buffer bits, Forall digit5 digits -> bytes_ok out -> 0 <= bits < 8 ->
  Y = from_be out * 2 ^ bits + buffer mod 2 ^ bits ->
  exists res rest bits', b32_decode_from (map b32_char digits) out buffer bits = Some res /\ bytes_ok res /\ 0 <= bits' < 8 /\ 0 <= rest < 2 ^ bits' /\
    Y * 32 ^ len digits + val32 digits = from_be res * 2 ^ bits' + rest /\ 8 * len res + bits' = 8 * len out + bits + 5 * len digits.
Proof.
  induction digits as [|d digits IH]; intros Y out buffer bits Hd Hok Hb HY; cbn [map b32_decode_from val32].
  { exists out, (buffer mod 2 ^ bits), bits. change (32 ^ len []) with 1. split_and!; [done|done|lia|lia|apply Z.mod_pos_bound; pow_side|apply Z.mod_pos_bound; pow_side|lia|unfold len; cbn; lia]. }
  apply Forall_cons in Hd as [Hd1 Hd]. rewrite b32_value_char by done. cbn [mbind option_bind]. set (bf := Z.lor _ d).
  assert (Hbf : bf mod 2 ^ (bits + 5) = (buffer mod 2 ^ bits) * 32 + d) by (unfold bf; rewrite buffer_push by (unfold digit5 in Hd1; change (2 ^ 5) with 32; lia); done).
  assert (HY' : Y * 32 + d = from_be out * 2 ^ (bits + 5) + bf mod 2 ^ (bits + 5)) by (rewrite Hbf, HY, Z.pow_add_r by lia; change (2 ^ 5) with 32; ring).
  assert (Hlen : len (d :: digits) = len digits + 1) by (unfold len; cbn [length]; lia).
  assert (Hval : Y * 32 ^ len (d :: digits) + (d * 32 ^ len digits + val32 digits) = (Y * 32 + d) * 32 ^ len digits + val32 digits)
    by (rewrite Hlen, Z.pow_add_r by (unfold len; lia); ring).
  rewrite Hval, Hlen. destruct (Z.leb_spec 8 (bits + 5)) as [H8|H8].
  - set (b := wrap 8 _). assert (Hbok : byte_ok b) by (unfold b, wrap; apply Z.mod_pos_bound; lia).
    destruct (IH (Y * 32 + d) (out ++ [b]) bf (bits + 5 - 8) Hd) as (res & rest & bits' & Hr & Hro & Hb' & Hrest & Hv & Hl).
    + apply Forall_app. split; [done|]. by constructor.
    + lia.
    + rewrite HY', from_be_app. change (length [b]) with 1%nat. change (pow256 1) with 256. rewrite from_be_cons, from_be_nil. change (pow256 (length (@nil Z))) with 1.
      replace (bits + 5) with ((bits + 5 - 8) + 8) at 1 2 by lia. rewrite !Z.pow_add_r, Z.rem_mul_r by pow_side. unfold b, wrap.
      rewrite Z.shiftr_div_pow2 by lia. change (2 ^ 8) with 256. ring.
    + exists res, rest, bits'. split_and!; [done|done|lia|lia|lia|lia|done|]. revert Hl. unfold len. rewrite length_app. cbn [length]. lia.
  - destruct (IH (Y * 32 + d) out bf (bits + 5) Hd Hok ltac:(lia) HY') as (res & rest & bits' & Hr & Hro & Hb' & Hrest & Hv & Hl).
    exists res, rest, bits'. split_and!; [done|done|lia|lia|lia|lia|done|lia].
Qed.

(** Decoding gives back what was encoded. *)
Lemma base32_roundtrip data : bytes_ok data -> base32_decode (base32_encode data) = Some data.
Proof.
  intros Hok. destruct (encode_digits data Hok) as (ds & pad & -> & Hd & Hpad & Hl & Hv).
  destruct (decode_loop ds 0 [] 0 0 Hd ltac:(constructor) ltac:(lia) eq_refl) as (res & rest & bits & Hr & Hro & Hb & Hrest & Hv2 & Hl2).
  unfold base32_decode. rewrite Hr. f_equal. assert (Hlen : len res = len data /\ bits = pad) by (change (len (@nil Z)) with 0 in Hl2; lia). destruct Hlen as [Hlen ->].
  apply from_be_inj; [done|done|unfold len in Hlen; lia|]. rewrite Hv, Z.mul_0_l, Z.add_0_l in Hv2.
  assert (Hz : (from_be data - from_be res) * 2 ^ pad = rest) by lia. assert (Hp : 0 < 2 ^ pad) by pow_side. nia.
Qed.

(** ** Onion names *)

Lemma foldl_keeps_length {A B} (f : list A -> B -> list A) l : (forall st x, length (f st x) = length st) -> forall st, length (foldl f st l) = length st.
Proof. intros Hf. induction l as [|x l IH]; intros st; [done|]. cbn [foldl]. by rewrite IH. Qed.

Lemma length_rho_pi st : length (rho_pi st) = length st.
Proof.
  unfold rho_pi. generalize (lane st 1). generalize (zip PILN ROTC). intros l. revert st.
  induction l as [|[j r] l IH]; intros st t; [done|]. cbn [foldl]. rewrite IH. apply length_insert.
Qed.
Lemma length_keccak st : length (keccak_f st) = length st.
Proof.
  apply foldl_keeps_length. clear st. intros st x. unfold keccak_round, chi, theta. by rewrite length_alter, length_imap, length_rho_pi, length_imap.
Qed.
Lemma length_absorb_block st block : length (absorb_block st block) = length st.
Proof. unfold absorb_block. by rewrite length_keccak, length_imap. Qed.
Lemma length_absorb n : forall st data, length (absorb n st data).1 = length st.
Proof. induction n as [|n IH]; intros st data; [done|]. cbn [absorb]. by rewrite IH, length_absorb_block. Qed.

Lemma sha3_digest data : length (sha3_256 data) = 32%nat /\ bytes_ok (sha3_256 data).
Proof.
  unfold sha3_256. pose proof (length_absorb (length data / RATE) (replicate 25 0) data) as Hl. rewrite length_replicate in Hl.
  destruct (absorb _ _ _) as [st rem]; cbn [fst] in Hl. set (st' := absorb_block st _). assert (Hl' : length st' = 25%nat) by (unfold st'; by rewrite length_absorb_block).
  destruct st' as [|a [|b [|c [|d st']]]]; [done..|]. cbn [take map concat]. rewrite !length_app, !length_to_le. split; [done|].
  unfold bytes_ok. rewrite !Forall_app. split_and!; (apply bytes_ok_to_le || constructor).
Qed.

Lemma checksum_ok k : length (onion_checksum k) = 2%nat /\ bytes_ok (onion_checksum k).
Proof. destruct (sha3_digest (ascii_bytes ".onion checksum" ++ k ++ [ONION_VERSION])) as [Hl Hok]. unfold onion_checksum. rewrite length_take, Hl. split; [done|]. by apply bytes_ok_take. Qed.

Lemma onion_roundtrip k : bytes_ok k -> length k = 32%nat -> decode_onion_v3 (encode_onion_v3_label k) = Some k.
Proof.
  intros Hok Hl. destruct (checksum_ok k) as [Hcl Hco]. unfold decode_onion_v3, encode_onion_v3_label. rewrite base32_roundtrip.
  2: { unfold bytes_ok. rewrite !Forall_app. split_and!; [done..|]. by repeat constructor. }
  cbn [mbind option_bind]. set (c := onion_checksum k) in *.
  assert (Hlen : length (k ++ c ++ [ONION_VERSION]) = 35%nat) by (rewrite !length_app, Hl, Hcl; done).
  assert (Hnth : nth 34 (k ++ c ++ [ONION_VERSION]) 0 = ONION_VERSION) by (rewrite app_nth2, Hl, app_nth2, Hcl by lia; done).
  rewrite Hlen, Hnth. cbn [Nat.eqb negb orb]. rewrite Z.eqb_refl. cbn [negb orb].
  assert (Ht : take 32 (k ++ c ++ [ONION_VERSION]) = k) by (by rewrite take_app_length').
  assert (Hd : take 2 (drop 32 (k ++ c ++ [ONION_VERSION])) = c) by (by rewrite drop_app_length', take_app_length').
  rewrite Ht, Hd. by rewrite bool_decide_eq_true_2.
Qed.

(** ** Decimal numbers *)

Definition digit10 (d : Z) : Prop := 0 <= d < 10.
Fixpoint val10 (l : list Z) : Z := match l with [] => 0 | d :: l => d * 10 ^ len l + val10 l end.
Definition codes (ds : list Z) : text := map (fun d => 48 + d) ds.

Lemma val10_app a b : val10 (a ++ b) = val10 a * 10 ^ len b + val10 b.
Proof.
  induction a as [|d a IH]; [done|]. cbn [app val10]. rewrite IH. unfold len. rewrite length_app, Nat2Z.inj_add, Z.pow_add_r by lia. ring.
Qed.
Lemma val10_bound ds : Forall digit10 ds -> 0 <= val10 ds < 10 ^ len ds.
Proof.
  induction 1 as [|d ds Hd _ IH]; [by split|]. cbn [val10]. unfold len in *. cbn [length]. rewrite Nat2Z.inj_succ, Z.pow_succ_r by lia. unfold digit10 in Hd. nia.
Qed.

(** The printed digits: their value, and no zero in front. *)
Lemma print_digits fuel : forall n acc, 0 <= n < 10 ^ Z.of_nat fuel -> (0 < fuel)%nat -> exists ds,
  print_loop fuel 10 n acc = codes ds ++ acc /\ Forall digit10 ds /\ ds <> [] /\ val10 ds = n /\ (n = 0 \/ 10 ^ (len ds - 1) <= n) /\ (n = 0 -> ds = [0]).
Proof.
  induction fuel as [|fuel IH]; intros n acc Hn Hf; [lia|]. cbn [print_loop]. pose proof (Z.mod_pos_bound n 10 ltac:(lia)) as Hm.
  assert (Hc : digit_code (n mod 10) = 48 + n mod 10) by (unfold digit_code; by destruct (Z.ltb_spec (n mod 10) 10); [|lia]). rewrite Hc.
  pose proof (Z.div_mod n 10 ltac:(lia)) as Hdm. destruct (Z.eqb_spec (n / 10) 0) as [H0|H0].
  - exists [n mod 10]. split_and!; [done|by apply Forall_singleton|done| | |].
    + cbn [val10]. change (10 ^ len []) with 1. lia.
    + destruct (Z.eq_dec n 0); [by left|right]. change (len [n mod 10] - 1) with 0. lia.
    + intros ->. done.
  - assert (Hpos : 0 < n / 10) by (pose proof (Z.div_pos n 10); lia). destruct fuel as [|fuel']; [cbn in Hn; lia|].
    destruct (IH (n / 10) ((48 + n mod 10) :: acc)) as (ds & Hp & Hd & Hne & Hv & Hle & _).
    { rewrite Nat2Z.inj_succ, Z.pow_succ_r in Hn by lia. lia. } { lia. }
    exists (ds ++ [n mod 10]). split_and!.
    + rewrite Hp. unfold codes. by rewrite map_app, <- app_assoc.
    + apply Forall_app. split; [done|]. by apply Forall_singleton.
    + by destruct ds.
    + rewrite val10_app, Hv. change (len [n mod 10]) with 1. cbn [val10]. change (10 ^ len []) with 1. lia.
    + right. destruct Hle as [|Hle]; [lia|]. unfold len in *. rewrite length_app. cbn [length].
      assert (0 < length ds)%nat by (destruct ds; [done|cbn; lia]). replace (Z.of_nat (length ds + 1) - 1) with (Z.succ (Z.of_nat (length ds) - 1)) by lia.
      rewrite Z.pow_succ_r by lia. lia.
    + intros ->. lia.
Qed.

Lemma decimal_digits n : fits 16 n -> exists ds, decimal n = codes ds /\ Forall digit10 ds /\ ds <> [] /\ val10 ds = n /\
  (n = 0 \/ 10 ^ (len ds - 1) <= n) /\ (n = 0 -> ds = [0]).
Proof.
  intros Hn. destruct (print_digits 32 n []) as (ds & Hp & H); [unfold fits in Hn; split; [lia|]; eapply Z.lt_trans; [apply Hn|done]|lia|].
  exists ds. unfold decimal. by rewrite Hp, app_nil_r.
Qed.

Lemma to_digit_code d : digit10 d -> to_digit 10 (48 + d) = Some d.
Proof.
  intros Hd. unfold to_digit, digit10 in *. destruct (Z.leb_spec 48 (48 + d)); [|lia]. destruct (Z.leb_spec (48 + d) 57); [|lia]. cbn [andb mbind option_bind].
  replace (48 + d - 48) with d by lia. by destruct (Z.ltb_spec d 10); [|lia].
Qed.

Lemma parse_codes bound ds : forall v, Forall digit10 ds -> 0 <= v -> v * 10 ^ len ds + val10 ds <= bound ->
  parse_digits bound v (codes ds) = Some (v * 10 ^ len ds + val10 ds).
Proof.
  induction ds as [|d ds IH]; intros v Hd Hv Hb; [cbn [codes map parse_digits val10]; change (10 ^ len []) with 1; f_equal; lia|]. apply Forall_cons in Hd as [Hd1 Hd]. pose proof (val10_bound ds Hd) as Hvb.
  cbn [codes map parse_digits]. rewrite to_digit_code by done. cbn [mbind option_bind val10] in *.
  assert (He : v * 10 ^ len (d :: ds) + (d * 10 ^ len ds + val10 ds) = (v * 10 + d) * 10 ^ len ds + val10 ds).
  { unfold len. cbn [length]. rewrite Nat2Z.inj_succ, Z.pow_succ_r by lia. ring. }
  rewrite He in *. unfold digit10 in Hd1. assert (1 <= 10 ^ len ds) by (apply (Z.pow_le_mono_r 10 0); unfold len; lia).
  destruct (Z.leb_spec (v * 10 + d) bound); [|nia]. apply IH; [done|lia|done].
Qed.

(** The next character is not a digit. *)
Definition no_digit (rest : text) : Prop := match rest with [] => True | c :: _ => to_digit 10 c = None end.

Lemma read_codes bound max ds rest : forall count v, Forall digit10 ds -> 0 <= v -> v * 10 ^ len ds + val10 ds <= bound ->
  (match max with Some m => (count + length ds <= m)%nat | None => True end) -> no_digit rest ->
  read_digits 10 bound max count v (codes ds ++ rest) = Some (v * 10 ^ len ds + val10 ds, (count + length ds)%nat, rest).
Proof.
  induction ds as [|d ds IH]; intros count v Hd Hv Hb Hm Hrest.
  - cbn [codes map app len length val10]. change (len []) with 0. rewrite Z.pow_0_r, Z.mul_1_r, Z.add_0_r, Nat.add_0_r. destruct rest as [|c rest]; [done|].
    cbn [read_digits]. cbn in Hrest. by rewrite Hrest.
  - apply Forall_cons in Hd as [Hd1 Hd]. pose proof (val10_bound ds Hd) as Hvb. cbn [codes map app read_digits]. rewrite to_digit_code by done. cbn [val10] in *.
    assert (He : v * 10 ^ len (d :: ds) + (d * 10 ^ len ds + val10 ds) = (v * 10 + d) * 10 ^ len ds + val10 ds).
    { unfold len. cbn [length]. rewrite Nat2Z.inj_succ, Z.pow_succ_r by lia. ring. }
    rewrite He in *. unfold digit10 in Hd1. assert (1 <= 10 ^ len ds) by (apply (Z.pow_le_mono_r 10 0); unfold len; lia).
    assert (Hg : (bound <? v * 10 + d) || (match max with Some m => (m <? S count)%nat | None => false end) = false).
    { apply orb_false_iff. split; [apply Z.ltb_ge; nia|]. destruct max as [m|]; [|done]. apply Nat.ltb_ge. cbn [length] in Hm. lia. }
    rewrite Hg. rewrite IH; [|done|lia|done| |done].
    + do 2 f_equal. f_equal. cbn [length]. lia.
    + destruct max; [|done]. cbn [length] in Hm. lia.
Qed.

Lemma read_decimal bound max allow n rest : fits 16 n -> n <= bound -> (match max with Some m => n < 10 ^ Z.of_nat m /\ (0 < m)%nat | None => True end) -> no_digit rest ->
  read_number 10 bound max allow (decimal n ++ rest) = Some (n, rest).
Proof.
  intros Hn Hb Hm Hrest. destruct (decimal_digits n Hn) as (ds & -> & Hd & Hne & Hv & Hle & H0). unfold read_number.
  assert (Hlen : (0 < length ds)%nat) by (destruct ds; [done|cbn; lia]).
  rewrite read_codes; [|done|lia|lia| |done].
  - rewrite Z.mul_0_l, Z.add_0_l, Hv. cbn [mbind option_bind Nat.add]. destruct (Nat.eqb_spec (length ds) 0); [lia|].
    destruct (negb allow && bool_decide (head (codes ds ++ rest) = Some 48) && (1 <? length ds)%nat) eqn:Hz; [|done]. exfalso.
    apply andb_true_iff in Hz as [[_ Hh%bool_decide_eq_true]%andb_true_iff Hl%Nat.ltb_lt]. destruct ds as [|d ds]; [done|]. cbn in Hh. injection Hh as Hh.
    assert (d = 0) as -> by lia. apply Forall_cons in Hd as [_ Hd]. pose proof (val10_bound ds Hd) as Hvb. cbn [val10] in Hv. destruct Hle as [->|Hle].
    + specialize (H0 eq_refl). injection H0 as ->. cbn in Hl. lia.
    + unfold len in *. cbn [length] in Hle. replace (Z.of_nat (S (length ds)) - 1) with (Z.of_nat (length ds)) in Hle by lia. lia.
  - destruct max as [m|]; [|done]. destruct Hm as [Hm Hm0]. destruct Hle as [->|Hle]; [rewrite (H0 eq_refl); cbn; lia|].
    cbn [Nat.add]. assert (Hlt : 10 ^ (len ds - 1) < 10 ^ Z.of_nat m) by lia. apply Z.pow_lt_mono_r_iff in Hlt; unfold len in *; lia.
Qed.

Lemma parse_u16_decimal n : fits 16 n -> parse_u16 (decimal n) = Some n.
Proof.
  intros Hn. destruct (decimal_digits n Hn) as (ds & -> & Hd & Hne & Hv & _). assert (Hp : parse_digits 65535 0 (codes ds) = Some n).
  { rewrite parse_codes by (done || lia || (unfold fits in Hn; lia)). f_equal. lia. }
  destruct ds as [|d [|d2 ds]]; [done|exact Hp|]. unfold parse_u16. cbn [codes map] in *. apply Forall_cons in Hd as [Hd1 _]. unfold digit10 in Hd1.
  by destruct (Z.eqb_spec (48 + d) 43); [lia|].
Qed.

(** ** Text *)

(** The characters of the text forms without IPv6: digits, lower case, [.], [:]. *)
Definition plain (c : Z) : bool := (c =? 46) || ((48 <=? c) && (c <=? 58)) || ((97 <=? c) && (c <=? 122)).

Ltac char_cases := repeat match goal with
  | |- context [?a <=? ?b] => destruct (Z.leb_spec a b); try lia
  | |- context [?a =? ?b] => destruct (Z.eqb_spec a b); try lia
  | H : context [?a <=? ?b] |- _ => destruct (Z.leb_spec a b); try lia
  | H : context [?a =? ?b] |- _ => destruct (Z.eqb_spec a b); try lia
  end; cbn in *; try done; try lia.

Lemma plain_not_space c : plain c = true -> is_whitespace c = false.
Proof. unfold plain, is_whitespace. intros H. char_cases. Qed.
Lemma plain_lower c : plain c = true -> ascii_lower c = c.
Proof. unfold plain, ascii_lower. intros H. char_cases. Qed.

Lemma lower_plain s : Forall (fun c => plain c = true) s -> to_ascii_lowercase s = s.
Proof. induction 1 as [|c s Hc _ IH]; [done|]. cbn [to_ascii_lowercase map]. rewrite plain_lower by done. f_equal. exact IH. Qed.

Lemma trim_start_plain s : Forall (fun c => plain c = true) s -> trim_start s = s.
Proof. destruct 1 as [|c s Hc _]; [done|]. cbn [trim_start]. by rewrite plain_not_space. Qed.
Lemma trim_plain s : Forall (fun c => plain c = true) s -> trim s = s.
Proof.
  intros Hs. unfold trim. rewrite (trim_start_plain s Hs), trim_start_plain; [apply reverse_involutive|]. by apply Forall_reverse.
Qed.

Lemma b32_char_plain d : digit5 d -> plain (b32_char d) = true /\ b32_char d <> 58.
Proof.
  intros Hd. assert (Ha : forallb (fun d => plain (b32_char d) && negb (b32_char d =? 58)) (seqZ 0 32) = true) by (vm_compute; reflexivity).
  rewrite forallb_forall in Ha. assert (Hin : In d (seqZ 0 32)) by (apply list_elem_of_In, elem_of_seqZ; unfold digit5 in Hd; lia).
  specialize (Ha d Hin). apply andb_true_iff in Ha as [H1 H2%negb_true_iff%Z.eqb_neq]. done.
Qed.

(** Characters that are plain and not a colon. *)
Definition word_char (c : Z) : Prop := plain c = true /\ c <> 58.

Lemma base32_word data : bytes_ok data -> Forall word_char (base32_encode data).
Proof.
  intros Hok. destruct (encode_digits data Hok) as (ds & pad & -> & Hd & _). apply Forall_fmap. eapply Forall_impl; [exact Hd|]. intros d. apply b32_char_plain.
Qed.
Lemma decimal_word n : fits 16 n -> Forall (fun c => word_char c /\ 48 <= c <= 57) (decimal n) /\ decimal n <> [].
Proof.
  intros Hn. destruct (decimal_digits n Hn) as (ds & -> & Hd & Hne & _). split; [|by destruct ds]. apply Forall_fmap. eapply Forall_impl; [exact Hd|].
  intros d Hd1. unfold digit10 in Hd1. cbn. split; [split; [|lia]|lia]. unfold plain. char_cases.
Qed.

Lemma word_plain s : Forall word_char s -> Forall (fun c => plain c = true) s.
Proof. intros Hs. eapply Forall_impl; [exact Hs|]. by intros c []. Qed.

Lemma split_once_first c a b : c ∉ a -> split_once c (a ++ c :: b) = Some (a, b).
Proof.
  induction a as [|x a IH]; intros Hn; cbn [app split_once]; [by rewrite Z.eqb_refl|]. apply not_elem_of_cons in Hn as [Hx Hn].
  destruct (Z.eqb_spec x c); [done|]. by rewrite IH.
Qed.
Lemma split_once_none c a : c ∉ a -> split_once c a = None.
Proof.
  induction a as [|x a IH]; intros Hn; cbn [split_once]; [done|]. apply not_elem_of_cons in Hn as [Hx Hn]. destruct (Z.eqb_spec x c); [done|]. by rewrite IH.
Qed.
Lemma rsplit_last c a b : c ∉ b -> rsplit_once c (a ++ c :: b) = Some (a, b).
Proof.
  intros Hn. unfold rsplit_once. rewrite reverse_app, reverse_cons, <- app_assoc. cbn [app]. rewrite split_once_first by (by rewrite elem_of_reverse).
  cbn. by rewrite !reverse_involutive.
Qed.
Lemma rsplit_none c a : c ∉ a -> rsplit_once c a = None.
Proof. intros Hn. unfold rsplit_once. rewrite split_once_none; [done|]. by rewrite elem_of_reverse. Qed.

Lemma word_no_colon s : Forall word_char s -> 58 ∉ s.
Proof. rewrite Forall_forall. intros Hs Hin. by destruct (Hs _ Hin). Qed.

Lemma strip_end_app suffix a : strip_end suffix (a ++ suffix) = Some a.
Proof.
  unfold strip_end. replace (length (a ++ suffix) - length suffix)%nat with (length a) by (rewrite length_app; lia).
  rewrite take_app_length. by rewrite bool_decide_eq_true_2.
Qed.
(** A text with another last character. *)
Lemma strip_end_other suffix s x y : last suffix = Some x -> last s = Some y -> x <> y -> strip_end suffix s = None.
Proof.
  intros Hx Hy Hne. unfold strip_end. case_bool_decide as Heq; [|done]. rewrite <- Heq, last_app, Hx in Hy. congruence.
Qed.

Lemma last_digit n a : fits 16 n -> exists c, last (a ++ decimal n) = Some c /\ 48 <= c <= 57.
Proof.
  intros Hn. destruct (decimal_word n Hn) as [Hw Hne]. rewrite last_app. destruct (last (decimal n)) as [c|] eqn:Hl; [|by apply last_None in Hl].
  exists c. split; [done|]. rewrite Forall_forall in Hw. apply Hw. by apply last_Some_elem_of.
Qed.

(** ** Round trips *)

(** The values the types of the source can hold. *)
Definition addr_ok (a : NetAddr) : Prop :=
  fits 16 (port a) /\
  match a with
  | Ip (V4 ip _) => bytes_ok ip /\ length ip = 4%nat
  | Ip (V6 ip _ flow scope) => Forall (fits 16) ip /\ length ip = 8%nat /\ fits 32 flow /\ fits 32 scope
  | OnionV3 k _ => bytes_ok k /\ length k = 32%nat
  | I2p h _ => bytes_ok h /\ length h = 32%nat
  end.

Lemma no_digit_dot rest : no_digit (46 :: rest).
Proof. done. Qed.
Lemma no_digit_colon rest : no_digit (58 :: rest).
Proof. done. Qed.

Lemma read_octet b rest : byte_ok b -> no_digit rest -> read_number 10 255 (Some 3%nat) false (decimal b ++ rest) = Some (b, rest).
Proof. unfold byte_ok. intros Hb Hr. apply read_decimal; [unfold fits; lia|lia|change (10 ^ Z.of_nat 3) with 1000; lia|done]. Qed.

Lemma read_sep_first {A} c (m : text -> option (A * text)) s : read_sep c 0 m s = m s.
Proof. done. Qed.
Lemma read_sep_next {A} c i (m : text -> option (A * text)) s : read_sep c (S i) m (c :: s) = m s.
Proof. unfold read_sep. cbn [Nat.ltb Nat.leb read_char]. by rewrite Z.eqb_refl. Qed.

Lemma read_ipv4_show ip rest : bytes_ok ip -> length ip = 4%nat -> no_digit rest -> read_ipv4_addr (show_ipv4 ip ++ rest) = Some (ip, rest).
Proof.
  intros Hok Hl Hr. destruct ip as [|a [|b [|c [|d [|e ip]]]]]; try done. unfold bytes_ok in Hok. rewrite !Forall_cons in Hok. destruct Hok as (Ha & Hb & Hc & Hd & _).
  unfold show_ipv4, read_ipv4_addr. cbn [map join]. rewrite <- !app_assoc. cbn [app read_octets]. rewrite read_sep_first.
  rewrite read_octet by (done || apply no_digit_dot). cbn [mbind option_bind].
  do 2 (rewrite read_sep_next, read_octet by (done || apply no_digit_dot); cbn [mbind option_bind]).
  rewrite read_sep_next, read_octet by done. done.
Qed.

Lemma parse_socket_show ip p : bytes_ok ip -> length ip = 4%nat -> fits 16 p -> parse_socket_addr (show_socket_addr (V4 ip p)) = Some (V4 ip p).
Proof.
  intros Hok Hl Hp. unfold parse_socket_addr, read_socket_addr_v4. cbn [show_socket_addr]. rewrite read_ipv4_show by (done || apply no_digit_colon).
  cbn [mbind option_bind app]. unfold read_port. cbn [read_char]. rewrite Z.eqb_refl. cbn [mbind option_bind].
  rewrite <- (app_nil_r (decimal p)), read_decimal by (done || (unfold fits in Hp; lia)). done.
Qed.

Lemma show_ipv4_word ip : bytes_ok ip -> ip <> [] -> Forall word_char (show_ipv4 ip) /\ exists c, last (show_ipv4 ip) = Some c /\ 48 <= c <= 57.
Proof.
  unfold show_ipv4. induction 1 as [|b ip Hb Hok IH]; intros Hne; [done|]. assert (Hf : fits 16 b) by (unfold byte_ok, fits in *; lia).
  destruct (decimal_word b Hf) as [Hw _]. assert (Hw' : Forall word_char (decimal b)) by (eapply Forall_impl; [exact Hw|]; by intros c []).
  destruct ip as [|b2 ip].
  - split; [done|]. apply (last_digit b [] Hf).
  - destruct IH as [IHw (c & Hc & Hcd)]; [done|]. change (join [46] (map decimal (b :: b2 :: ip))) with (decimal b ++ [46] ++ join [46] (map decimal (b2 :: ip))).
    set (rest := join [46] (map decimal (b2 :: ip))) in *. split.
    + rewrite !Forall_app. split_and!; [done|by repeat constructor|done].
    + exists c. split; [|done]. by rewrite !last_app, Hc.
Qed.

Lemma suffix_word : Forall word_char ONION /\ Forall word_char B32_I2P.
Proof. split; apply Forall_forall; intros c Hc; (assert (Hb : forallb (fun c => plain c && negb (c =? 58)) (ONION ++ B32_I2P) = true) by (vm_compute; reflexivity));
  rewrite forallb_forall in Hb; (specialize (Hb c ltac:(apply list_elem_of_In, elem_of_app; auto))); apply andb_true_iff in Hb as [H1 H2%negb_true_iff%Z.eqb_neq]; done. Qed.

Lemma parse_onion k p dp : bytes_ok k -> length k = 32%nat -> fits 16 p -> parse (display (OnionV3 k p)) dp = Some (OnionV3 k p).
Proof.
  intros Hok Hl Hp. cbn [display]. destruct (decimal_word p Hp) as [Hw Hne]. assert (Hpw : Forall word_char (decimal p)) by (eapply Forall_impl; [exact Hw|]; by intros c []).
  assert (Hlw : Forall word_char (encode_onion_v3_label k)).
  { destruct (checksum_ok k) as [_ Hco]. apply base32_word. unfold bytes_ok. rewrite !Forall_app. split_and!; [done..|]. by repeat constructor. }
  change (ascii_bytes ".onion:") with (ONION ++ [58]). rewrite <- !app_assoc, (app_assoc _ ONION). cbn [app]. set (host := encode_onion_v3_label k ++ ONION).
  assert (Hhw : Forall word_char host) by (apply Forall_app; split; [done|apply suffix_word]).
  assert (Hplain : Forall (fun c => plain c = true) (host ++ 58 :: decimal p)) by (apply Forall_app; split; [by apply word_plain|constructor; [done|by apply word_plain]]).
  unfold parse. rewrite trim_plain, lower_plain by done. rewrite rsplit_last by (by apply word_no_colon).
  assert (Hon : strip_end ONION host = Some (encode_onion_v3_label k)) by apply strip_end_app.
  unfold ends_with at 1. rewrite Hon. cbn [orb]. rewrite parse_u16_decimal by done. cbn [mbind option_bind].
  rewrite (strip_end_other B32_I2P host 112 110), Hon by (done || (unfold host; by rewrite last_app)). rewrite onion_roundtrip by done. done.
Qed.

Lemma parse_i2p h p dp : bytes_ok h -> length h = 32%nat -> parse (display (I2p h p)) dp = Some (I2p h dp).
Proof.
  intros Hok Hl. cbn [display]. change (ascii_bytes ".b32.i2p") with B32_I2P.
  assert (Hw : Forall word_char (base32_encode h ++ B32_I2P)) by (apply Forall_app; split; [by apply base32_word|apply suffix_word]).
  unfold parse. rewrite trim_plain, lower_plain by (by apply word_plain). rewrite rsplit_none by (by apply word_no_colon). cbn [mbind option_bind].
  rewrite strip_end_app, base32_roundtrip by done. cbn [mbind option_bind]. unfold array32. by rewrite Hl.
Qed.

Lemma parse_ipv4 ip p dp : bytes_ok ip -> length ip = 4%nat -> fits 16 p -> parse (display (Ip (V4 ip p))) dp = Some (Ip (V4 ip p)).
Proof.
  intros Hok Hl Hp. cbn [display]. pose proof (parse_socket_show ip p Hok Hl Hp) as Hparse. cbn [show_socket_addr] in *. cbn [app] in *.
  destruct (show_ipv4_word ip Hok) as [Hiw (ci & Hci & Hcid)]; [by destruct ip|]. destruct (decimal_word p Hp) as [Hw Hne].
  assert (Hpw : Forall word_char (decimal p)) by (eapply Forall_impl; [exact Hw|]; by intros c []).
  assert (Hplain : Forall (fun c => plain c = true) (show_ipv4 ip ++ 58 :: decimal p)) by (apply Forall_app; split; [by apply word_plain|constructor; [done|by apply word_plain]]).
  unfold parse. rewrite trim_plain, lower_plain by done. rewrite rsplit_last by (by apply word_no_colon).
  unfold ends_with. rewrite (strip_end_other ONION (show_ipv4 ip) 110 ci), (strip_end_other B32_I2P (show_ipv4 ip) 112 ci) by (done || lia).
  cbn [orb mbind option_bind]. destruct (last_digit p (show_ipv4 ip ++ [58]) Hp) as (c & Hc & Hcd). rewrite <- app_assoc in Hc. cbn [app] in Hc.
  rewrite (strip_end_other B32_I2P _ 112 c), (strip_end_other ONION _ 110 c) by (done || lia). by rewrite Hparse.
Qed.

(** C38: An address that is sent in a BIP 155 message comes back as it was, except
    that an IPv6 address loses its flow label and its zone; and an IPv4 or
    onion address that is printed and read comes back as it was, an I2P address
    with the default port instead of its own, which is not printed. *)
Theorem address_roundtrip (a : NetAddr) (default_port : Z) : addr_ok a ->
  from_addr_v2 (to_addr_v2 a).1 (to_addr_v2 a).2 = Some match a with Ip (V6 ip p _ _) => Ip (V6 ip p 0 0) | _ => a end /\
  match a with
  | Ip (V6 _ _ _ _) => True
  | I2p h _ => parse (display a) default_port = Some (I2p h default_port)
  | _ => parse (display a) default_port = Some a
  end.
Proof.
  intros [Hp Ha]. destruct a as [[ip p|ip p fl sc]|k p|h p]; cbn [port socket_port] in Hp; (split; [done|]); [|done|..]; destruct Ha as [Hok Hl].
  - by apply parse_ipv4.
  - by apply parse_onion.
  - by apply parse_i2p.
Qed.

Lemma address_roundtrip_witness :
  parse (display (OnionV3 (replicate 32 7) 9050)) 8333 = Some (OnionV3 (replicate 32 7) 9050).
Proof.
  assert (Hok : addr_ok (OnionV3 (replicate 32 7) 9050)).
  { split; [by split; [apply Z.leb_le|apply Z.ltb_lt]|]. split; [apply bytes_okb_ok; reflexivity|reflexivity]. }
  exact (proj2 (address_roundtrip _ 8333 Hok)).
Defined.
