(* ===== verification/PeerBook.v ===== *)
(** * Peer scores, bans and the address book

    [bitcoinpr-p2p/src/scoring.rs] and [addr_manager.rs]: misbehaviour scores,
    bans with their expiry, the bounded book of addresses, what is offered for
    relay and for connection, and both files.  Times are nanoseconds and the
    clock is an argument; the iteration order of the hash maps, the shuffle and
    the JSON codec are parameters.

    A ban lasts until its end whatever happens, a restart included, and the
    book stays within its bound. *)

From Stdlib Require Import ZArith Lia.
From stdpp Require Import base option numbers list gmap strings.
From S2P Require Import Prelude Bytes Types Store NetAddr.

#[global] Instance SocketAddr_eq_dec : EqDecision SocketAddr.
Proof. solve_decision. Defined.
#[global] Instance NetAddr_eq_dec : EqDecision NetAddr.
Proof. solve_decision. Defined.
#[global] Program Instance NetAddr_countable : Countable NetAddr :=
  inj_countable' (fun a => match a with
      | Ip (V4 ip p) => inl (inl (ip, p)) | Ip (V6 ip p f s) => inl (inr (ip, p, f, s))
      | OnionV3 k p => inr (inl (k, p)) | I2p h p => inr (inr (h, p)) end)
    (fun x => match x with
      | inl (inl (ip, p)) => Ip (V4 ip p) | inl (inr (ip, p, f, s)) => Ip (V6 ip p f s)
      | inr (inl (k, p)) => OnionV3 k p | inr (inr (h, p)) => I2p h p end) _.
Next Obligation. by intros [[]| |]. Qed.

(** [IpAddr] *)
Inductive IpAddr : Type := IpV4 (octets : bytes) | IpV6 (groups : list Z).
#[global] Instance IpAddr_eq_dec : EqDecision IpAddr.
Proof. solve_decision. Defined.
#[global] Program Instance IpAddr_countable : Countable IpAddr :=
  inj_countable' (fun a => match a with IpV4 b => inl b | IpV6 g => inr g end) (fun x => match x with inl b => IpV4 b | inr g => IpV6 g end) _.
Next Obligation. by intros []. Qed.

(** [NetAddr::ip] *)
Definition ip (a : NetAddr) : option IpAddr :=
  match to_socket_addr a with Some (V4 o _) => Some (IpV4 o) | Some (V6 g _ _ _) => Some (IpV6 g) | None => None end.

Definition SECOND : Z := 1000000000.

(** ** Misbehaviour *)

Definition DEFAULT_BAN_DURATION : Z := 24 * 60 * 60 * SECOND.
Definition BAN_THRESHOLD : Z := 100.
Definition BANLIST_FORMAT_VERSION : Z := 1.

Inductive Misbehavior : Type :=
| InvalidHeader | UnconnectingHeaders | InvalidBlock | InvalidTransaction | MessageFlooding | UnexpectedMessage | PingTimeout | DuplicateData.

Definition score (m : Misbehavior) : Z :=
  match m with
  | InvalidHeader => 20 | UnconnectingHeaders => 20 | InvalidBlock => 100 | InvalidTransaction => 10
  | MessageFlooding => 50 | UnexpectedMessage => 1 | PingTimeout => 5 | DuplicateData => 5
  end.
(** [Debug] *)
Definition misbehavior_name (m : Misbehavior) : text :=
  ascii_bytes match m with
  | InvalidHeader => "InvalidHeader" | UnconnectingHeaders => "UnconnectingHeaders" | InvalidBlock => "InvalidBlock"
  | InvalidTransaction => "InvalidTransaction" | MessageFlooding => "MessageFlooding" | UnexpectedMessage => "UnexpectedMessage"
  | PingTimeout => "PingTimeout" | DuplicateData => "DuplicateData"
  end.

Record BanEntry := mkBanEntry { reason : text; until : Z }.
Record PersistedBanlist := mkPersistedBanlist { bl_version : Z; bans : list (IpAddr * BanEntry) }.

Record PeerScoring := mkPeerScoring {
  scores : gmap Z Z;
  peer_ips : gmap Z IpAddr;
  banned : gmap IpAddr BanEntry }.
Definition scoring_new : PeerScoring := mkPeerScoring ∅ ∅ ∅.

(** ** Addresses *)

Definition MAX_ADDRESSES : nat := Z.to_nat 4096.
Definition ADDR_FRESH_DURATION : Z := 3 * 60 * 60 * SECOND.
Definition PEERS_FORMAT_VERSION : Z := 2.
Definition MAX_ANCHORS : nat := 2.

Record AddrEntry := mkAddrEntry { addr : NetAddr; services : Z; last_seen : Z; success_count : Z; failure_count : Z }.
Record PersistedPeers := mkPersistedPeers { pp_version : Z; addrs : list AddrEntry; anchors : list NetAddr }.

(** The address book. *)
Abbreviation AddrManager := (gmap NetAddr AddrEntry).

(** [HashMap] iteration, [shuffle] and [serde_json]. *)
Class PeerRuntime := {
  iter_bans : gmap IpAddr BanEntry -> list (IpAddr * BanEntry);
  iter_addrs : AddrManager -> list (NetAddr * AddrEntry);
  shuffle : list NetAddr -> list NetAddr;
  ban_json : PersistedBanlist -> option bytes;
  ban_of_json : bytes -> option PersistedBanlist;
  peers_json : PersistedPeers -> option bytes;
  peers_of_json : bytes -> option PersistedPeers }.

(** Iteration visits every entry once, a shuffle permutes, and JSON that was
    written is read back. *)
Class PeerRuntimeLaws `{PeerRuntime} := {
  iter_bans_perm m : iter_bans m ≡ₚ map_to_list m;
  iter_addrs_perm m : iter_addrs m ≡ₚ map_to_list m;
  shuffle_perm l : shuffle l ≡ₚ l;
  ban_json_read x b : ban_json x = Some b -> ban_of_json b = Some x;
  peers_json_read x b : peers_json x = Some b -> peers_of_json b = Some x }.

Section Scoring.
Context `{HP : PeerRuntime}.

Definition register_peer (peer_id : Z) (ip : IpAddr) (s : PeerScoring) : PeerScoring :=
  mkPeerScoring (match scores s !! peer_id with Some _ => scores s | None => <[peer_id := 0]> (scores s) end) (<[peer_id := ip]> (peer_ips s)) (banned s).
Definition unregister_peer (peer_id : Z) (s : PeerScoring) : PeerScoring :=
  mkPeerScoring (delete peer_id (scores s)) (delete peer_id (peer_ips s)) (banned s).

Definition ban_ip (now : Z) (ip : IpAddr) (reason : text) (duration : Z) (s : PeerScoring) : PeerScoring :=
  mkPeerScoring (scores s) (peer_ips s) (<[ip := mkBanEntry reason (now + duration)]> (banned s)).

Definition record_misbehavior (now peer_id : Z) (m : Misbehavior) (s : PeerScoring) : PeerScoring * bool :=
  let total := Z.min (default 0 (scores s !! peer_id) + score m) (2 ^ 32 - 1) in
  let s := mkPeerScoring (<[peer_id := total]> (scores s)) (peer_ips s) (banned s) in
  if BAN_THRESHOLD <=? total then
    (match peer_ips s !! peer_id with
     | Some ip => ban_ip now ip (misbehavior_name m ++ ascii_bytes " (score: " ++ decimal total ++ ascii_bytes ")") DEFAULT_BAN_DURATION s
     | None => s
     end, true)
  else (s, false).

Definition get_score (s : PeerScoring) (peer_id : Z) : Z := default 0 (scores s !! peer_id).
Definition is_banned (now : Z) (s : PeerScoring) (ip : IpAddr) : bool :=
  match banned s !! ip with Some e => now <? until e | None => false end.
Definition cleanup_expired_bans (now : Z) (s : PeerScoring) : PeerScoring :=
  mkPeerScoring (scores s) (peer_ips s) (filter (fun p => now < until p.2) (banned s)).
(** The clock is read once per entry. *)
Definition banned_ips (clock : nat -> Z) (s : PeerScoring) : list (IpAddr * text) :=
  map (fun p => (p.2.1, reason p.2.2)) (filter (fun p => clock p.1 < until p.2.2) (imap pair (iter_bans (banned s)))).

Definition bans_to_bytes (s : PeerScoring) : bytes := default [] (ban_json (mkPersistedBanlist BANLIST_FORMAT_VERSION (iter_bans (banned s)))).
Definition bans_from_bytes (now : Z) (d : bytes) (s : PeerScoring) : PeerScoring :=
  match ban_of_json d with
  | Some st =>
      if bl_version st =? BANLIST_FORMAT_VERSION then
        mkPeerScoring (scores s) (peer_ips s) (foldl (fun m p => if until p.2 >? now then <[p.1 := p.2]> m else m) (banned s) (bans st))
      else s
  | None => s
  end.
End Scoring.

Section Book.
Context `{HP : PeerRuntime}.

(** [min_by_key]: the first of the smallest. *)
Fixpoint oldest (best : NetAddr * AddrEntry) (l : list (NetAddr * AddrEntry)) : NetAddr * AddrEntry :=
  match l with [] => best | p :: l => oldest (if last_seen p.2 <? last_seen best.2 then p else best) l end.
Definition evict_oldest (m : AddrManager) : AddrManager :=
  match iter_addrs m with [] => m | p :: l => delete (oldest p l).1 m end.

(** The time given to a new entry is overwritten at once. *)
Definition add (now : Z) (a : NetAddr) (services : Z) (m : AddrManager) : AddrManager * bool :=
  let is_new := match m !! a with Some _ => false | None => true end in
  let m := if (MAX_ADDRESSES <=? size m)%nat && is_new then evict_oldest m else m in
  let e := default (mkAddrEntry a services now 0 0) (m !! a) in
  (<[a := mkAddrEntry (addr e) services now (success_count e) (failure_count e)]> m, is_new).

Definition mark_good (now : Z) (a : NetAddr) (m : AddrManager) : AddrManager :=
  alter (fun e => mkAddrEntry (addr e) (services e) now (u32 (success_count e + 1)) (failure_count e)) a m.
Definition mark_failed (a : NetAddr) (m : AddrManager) : AddrManager :=
  alter (fun e => mkAddrEntry (addr e) (services e) (last_seen e) (success_count e) (u32 (failure_count e + 1))) a m.

(** [sort_by] is stable: an element goes behind its equals. *)
Fixpoint insert_by {A} (key : A -> Z) (x : A) (l : list A) : list A :=
  match l with [] => [x] | y :: r => if key y <? key x then x :: l else y :: insert_by key x r end.
Definition sort_descending {A} (key : A -> Z) (l : list A) : list A := foldl (fun acc x => insert_by key x acc) [] l.

Definition get_for_relay (now : Z) (max : nat) (m : AddrManager) : list AddrEntry :=
  let fresh e := (now <? last_seen e) || (now - last_seen e <? ADDR_FRESH_DURATION) in
  take max (sort_descending last_seen (filter (fun e => fresh e = true) (map snd (iter_addrs m)))).

Definition net_score (e : AddrEntry) : Z := success_count e - failure_count e.
Definition get_for_connect (max : nat) (m : AddrManager) : list NetAddr :=
  let usable := filter (fun p => ~ net_score p.2 < -2) (iter_addrs m) in
  let is_untried e := (success_count e =? 0) && (failure_count e =? 0) in
  let untried := map fst (filter (fun p => is_untried p.2 = true) usable) in
  let tried := map (fun p => (p.1, net_score p.2)) (filter (fun p => is_untried p.2 = false) usable) in
  take max (shuffle untried ++ map fst (sort_descending snd tried)).

Definition book_to_bytes (m : AddrManager) (anchors : list NetAddr) : bytes :=
  default [] (peers_json (mkPersistedPeers PEERS_FORMAT_VERSION (map snd (iter_addrs m)) (take MAX_ANCHORS anchors))).
Definition book_from_bytes (d : bytes) (m : AddrManager) : AddrManager * list NetAddr :=
  match peers_of_json d with
  | Some st =>
      if pp_version st =? PEERS_FORMAT_VERSION then
        (foldl (fun m e => <[addr e := e]> m) m (take MAX_ADDRESSES (addrs st)), take MAX_ANCHORS (anchors st))
      else (m, [])
  | None => (m, [])
  end.
End Book.

(** ** Bans *)

Section Bans.
Context `{HP : PeerRuntime} `{HL : !PeerRuntimeLaws}.

(** The ban of [ip] does not end before [t]. *)
Definition banned_until (s : PeerScoring) (ip : IpAddr) (t : Z) : Prop := exists e, banned s !! ip = Some e /\ t <= until e.

(** What happens to the scores at a time [now]; a restart keeps the ban list only. *)
Inductive scoring_step (now : Z) : PeerScoring -> PeerScoring -> Prop :=
| st_register s peer ip : scoring_step now s (register_peer peer ip s)
| st_unregister s peer : scoring_step now s (unregister_peer peer s)
| st_misbehave s peer m : scoring_step now s (record_misbehavior now peer m s).1
| st_cleanup s : scoring_step now s (cleanup_expired_bans now s)
| st_restart s b : ban_json (mkPersistedBanlist BANLIST_FORMAT_VERSION (iter_bans (banned s))) = Some b ->
    scoring_step now s (bans_from_bytes now (bans_to_bytes s) scoring_new).

(** Steps at times from [t0] up to [t], in order. *)
Inductive scoring_run : Z -> PeerScoring -> Z -> PeerScoring -> Prop :=
| run_stay t0 t s : t0 <= t -> scoring_run t0 s t s
| run_step t0 t1 t s s1 s2 : t0 <= t1 -> scoring_step t1 s s1 -> scoring_run t1 s1 t s2 -> scoring_run t0 s t s2.

Lemma run_times t0 s t s' : scoring_run t0 s t s' -> t0 <= t.
Proof. induction 1; lia. Qed.

Lemma ban_ip_keeps now ip ip' why s t : t <= now + DEFAULT_BAN_DURATION -> banned_until s ip t -> banned_until (ban_ip now ip' why DEFAULT_BAN_DURATION s) ip t.
Proof.
  intros Ht (e & He & Hu). unfold banned_until. cbn [ban_ip banned]. destruct (decide (ip' = ip)) as [->|Hne].
  - rewrite lookup_insert_eq. by eexists.
  - rewrite lookup_insert_ne by done. by exists e.
Qed.

(** Loading a saved list gives the bans that are not over. *)
Lemma load_bans_lookup now l (m : gmap IpAddr BanEntry) ip : NoDup l.*1 ->
  foldl (fun m (p : IpAddr * BanEntry) => if until p.2 >? now then <[p.1 := p.2]> m else m) m l !! ip =
  match list_find (fun p => p.1 = ip /\ until p.2 > now) l with Some (_, p) => Some p.2 | None => m !! ip end.
Proof.
  revert m. induction l as [|[j e] l IH]; intros m Hnd; [done|]. cbn [foldl fmap list_fmap fst snd] in *. apply NoDup_cons in Hnd as [Hj Hnd]. rewrite IH by done.
  assert (Hnone : j = ip -> list_find (fun p : IpAddr * BanEntry => p.1 = ip /\ until p.2 > now) l = None).
  { intros ->. apply list_find_None, Forall_forall. intros p Hp [Hpi _]. apply Hj. rewrite <- Hpi. by apply list_elem_of_fmap_2. }
  cbn [list_find]. destruct (decide _) as [[Hji Hu]|Hn]; cbn [fst snd] in *.
  - rewrite Hnone by done. subst j. destruct (Z.gtb_spec (until e) now); [|lia]. by rewrite lookup_insert_eq.
  - destruct (list_find _ l) as [[i p]|]; cbn; [done|]. destruct (Z.gtb_spec (until e) now); [|done]. rewrite lookup_insert_ne; [done|]. intros ->. apply Hn. split; [done|lia].
Qed.

Lemma restart_bans now s ip b : ban_json (mkPersistedBanlist BANLIST_FORMAT_VERSION (iter_bans (banned s))) = Some b ->
  banned (bans_from_bytes now (bans_to_bytes s) scoring_new) !! ip = (e ← banned s !! ip; if until e >? now then Some e else None).
Proof.
  intros Hb. assert (Hd : bans_to_bytes s = b) by (unfold bans_to_bytes; by rewrite Hb). unfold bans_from_bytes. rewrite Hd, (ban_json_read _ _ Hb). cbn [bl_version bans]. rewrite Z.eqb_refl.
  cbn [banned scoring_new]. assert (Hnd : NoDup (iter_bans (banned s)).*1) by (rewrite iter_bans_perm; apply NoDup_fst_map_to_list). rewrite load_bans_lookup by done.
  destruct (list_find _ _) as [[i p]|] eqn:Hf.
  - apply list_find_Some in Hf as (Hi & [<- Hu] & _). assert (Hin : (p.1, p.2) ∈ map_to_list (banned s)) by (rewrite <- iter_bans_perm; destruct p; by eapply list_elem_of_lookup_2).
    apply elem_of_map_to_list in Hin. rewrite Hin. cbn. destruct (Z.gtb_spec (until p.2) now); [done|lia].
  - rewrite lookup_empty. apply list_find_None in Hf. rewrite Forall_forall in Hf. destruct (banned s !! ip) as [e|] eqn:He; [|done]. cbn.
    destruct (Z.gtb_spec (until e) now) as [Hu|]; [|done]. exfalso. apply elem_of_map_to_list in He. rewrite <- iter_bans_perm in He. apply (Hf _ He). split; [done|cbn; lia].
Qed.

Lemma step_keeps_ban now s s' ip t : scoring_step now s s' -> now < t -> t <= now + DEFAULT_BAN_DURATION -> banned_until s ip t -> banned_until s' ip t.
Proof.
  intros Hst Hn Ht Hb. destruct Hst as [s peer ip'|s peer|s peer m|s|s b Hj]; [done|done| | |].
  - unfold record_misbehavior. destruct (_ <=? _); [|done]. cbn [fst]. cbn [peer_ips]. destruct (peer_ips s !! peer); [|done]. by apply ban_ip_keeps.
  - destruct Hb as (e & He & Hu). exists e. split; [|done]. cbn [cleanup_expired_bans banned]. apply map_lookup_filter_Some. split; [done|]. cbn. lia.
  - destruct Hb as (e & He & Hu). exists e. split; [|done]. rewrite (restart_bans _ _ _ b) by done. rewrite He. cbn. by destruct (Z.gtb_spec (until e) now); [|lia].
Qed.

Lemma run_keeps_ban t0 s t1 s' ip t : scoring_run t0 s t1 s' -> t1 < t -> t <= t0 + DEFAULT_BAN_DURATION -> banned_until s ip t -> banned_until s' ip t.
Proof.
  induction 1 as [|t0 t1 t2 s s1 s2 Ht Hs Hr IH]; intros Hlt Hle Hb; [done|]. pose proof (run_times _ _ _ _ Hr).
  apply IH; [done|lia|]. apply (step_keeps_ban t1 s); [done|lia|lia|done].
Qed.

(** A peer whose score reaches the threshold is to be disconnected, and its
    address is banned for the full day: whatever else happens meanwhile, other
    offences, clean-ups, reconnections and restarts included, it is banned at
    every moment of the day that follows; a peer below the threshold is not
    banned by the offence. *)
Theorem ban_lasts (s : PeerScoring) (peer t0 t : Z) (m : Misbehavior) (ip : IpAddr) (s1 s2 : PeerScoring) (should_ban : bool) :
  peer_ips s !! peer = Some ip -> record_misbehavior t0 peer m s = (s1, should_ban) ->
  scoring_run t0 s1 t s2 -> t < t0 + DEFAULT_BAN_DURATION ->
  get_score s1 peer = Z.min (get_score s peer + score m) (2 ^ 32 - 1) /\
  (should_ban = true <-> BAN_THRESHOLD <= get_score s1 peer) /\
  (should_ban = true -> is_banned t s2 ip = true) /\
  (should_ban = false -> forall ip' now, is_banned now s1 ip' = is_banned now s ip').
Proof.
  intros Hip Hrec Hrun Ht. unfold record_misbehavior in Hrec. cbn [peer_ips] in Hrec. rewrite Hip in Hrec. set (total := Z.min _ _) in Hrec.
  assert (Htot : get_score s1 peer = total).
  { destruct (BAN_THRESHOLD <=? total); injection Hrec as <- <-; unfold get_score; cbn [ban_ip scores]; by rewrite lookup_insert_eq. }
  split; [rewrite Htot; done|]. destruct (Z.leb_spec BAN_THRESHOLD total) as [Hb|Hb]; injection Hrec as <- <-; (split; [rewrite Htot; split; [|]; (done || lia)|]); (split; [|done]); [|done].
  intros _. destruct (run_keeps_ban _ _ _ _ ip (t0 + DEFAULT_BAN_DURATION) Hrun Ht ltac:(lia)) as (e & He & Hu).
  - eexists. cbn [ban_ip banned]. rewrite lookup_insert_eq. split; [done|]. done.
  - unfold is_banned. rewrite He. apply Z.ltb_lt. lia.
Qed.
End Bans.

(** ** The address book *)

Section Bounds.
Context `{HP : PeerRuntime} `{HL : !PeerRuntimeLaws}.
Implicit Types m : AddrManager.

Definition book_ok m : Prop := (size m <= MAX_ADDRESSES)%nat /\ forall a e, m !! a = Some e -> addr e = a.

Lemma oldest_in l : forall p, oldest p l ∈ p :: l.
Proof.
  induction l as [|q l IH]; intros p; cbn [oldest]; [by left|]. specialize (IH (if last_seen q.2 <? last_seen p.2 then q else p)).
  rewrite !elem_of_cons in *. destruct (_ <? _); tauto.
Qed.

Lemma evict_size m : m <> ∅ -> S (size (evict_oldest m)) = size m /\ forall a e, evict_oldest m !! a = Some e -> m !! a = Some e.
Proof.
  intros Hne. unfold evict_oldest. destruct (iter_addrs m) as [|p l] eqn:Hi.
  - exfalso. apply Hne, map_to_list_empty_iff. apply Permutation_nil. rewrite <- iter_addrs_perm, Hi. done.
  - assert (Hin : oldest p l ∈ map_to_list m) by (rewrite <- iter_addrs_perm, Hi; apply oldest_in). destruct (oldest p l) as [k e].
    apply elem_of_map_to_list in Hin. cbn [fst]. split.
    + rewrite map_size_delete_Some by done. assert (size m <> 0)%nat by (by apply map_size_ne_0_lookup_2 with k). lia.
    + intros a e' Ha. by apply lookup_delete_Some in Ha as [_ ?].
Qed.

Lemma add_ok now a sv m : book_ok m -> book_ok (add now a sv m).1.
Proof.
  intros [Hs Hk]. unfold add. cbn [fst]. set (m1 := if _ && _ then _ else _).
  assert (H1 : (m !! a = None -> (S (size m1) <= MAX_ADDRESSES)%nat) /\ (size m1 <= MAX_ADDRESSES)%nat /\ (forall b e, m1 !! b = Some e -> m !! b = Some e) /\ (is_Some (m !! a) -> m1 = m)).
  { unfold m1. destruct (m !! a) eqn:Ha; [rewrite andb_false_r; split_and!; [done..|by auto|done]|]. rewrite andb_true_r.
    destruct (Nat.leb_spec MAX_ADDRESSES (size m)) as [Hf|Hf]; [|split_and!; [lia|lia|by auto|by intros []]].
    destruct (evict_size m) as [He Hl]; [intros ->; rewrite map_size_empty in Hf; unfold MAX_ADDRESSES in Hf; lia|]. split_and!; [lia|lia|done|by intros []]. }
  destruct H1 as (Hn & Hle & Hsub & Hsame). split.
  - destruct (m !! a) as [e|] eqn:Ha; [rewrite map_size_insert_Some; [done|by rewrite Hsame; [|done]]|].
    rewrite map_size_insert_None; [by apply Hn|]. destruct (m1 !! a) eqn:H1; [|done]. apply Hsub in H1. congruence.
  - intros b e Hb. apply lookup_insert_Some in Hb as [[<- <-]|[_ Hb]]; [|by apply Hk, Hsub]. cbn [addr]. destruct (m1 !! a) as [e0|] eqn:H1; cbn; [|done]. by apply Hk, Hsub.
Qed.

Lemma alter_ok (f : AddrEntry -> AddrEntry) a m : (forall e, addr (f e) = addr e) -> book_ok m -> book_ok (alter f a m).
Proof.
  intros Hf [Hs Hk]. split.
  - rewrite <- !size_dom in *. by rewrite dom_alter_L.
  - intros b e Hb. destruct (decide (a = b)) as [->|Hne]; [rewrite lookup_alter_eq in Hb|rewrite lookup_alter_ne in Hb by done; by apply Hk].
    destruct (m !! b) as [e0|] eqn:Hm; [|done]. injection Hb as <-. rewrite Hf. by apply Hk.
Qed.

(** The book after any sequence of operations. *)
Inductive book_reachable : AddrManager -> Prop :=
| bk_new : book_reachable ∅
| bk_add now a sv m : book_reachable m -> book_reachable (add now a sv m).1
| bk_good now a m : book_reachable m -> book_reachable (mark_good now a m)
| bk_failed a m : book_reachable m -> book_reachable (mark_failed a m)
| bk_restart m l b : book_reachable m -> peers_json (mkPersistedPeers PEERS_FORMAT_VERSION (map snd (iter_addrs m)) (take MAX_ANCHORS l)) = Some b ->
    book_reachable (book_from_bytes (book_to_bytes m l) ∅).1.

Lemma load_entries (l : list (NetAddr * AddrEntry)) : forall m0 : AddrManager, (forall p, p ∈ l -> addr p.2 = p.1) ->
  foldl (fun m e => <[addr e := e]> m) m0 (map snd l) = foldl (fun m p => <[p.1 := p.2]> m) m0 l.
Proof.
  induction l as [|p l IH]; intros m0 Hl; [done|]. cbn [map foldl]. rewrite (Hl p) by (by left). apply IH. intros q Hq. apply Hl. by right.
Qed.
Lemma insert_all (l : list (NetAddr * AddrEntry)) : forall m0 : AddrManager, foldl (fun m p => <[p.1 := p.2]> m) m0 l = list_to_map (reverse l) ∪ m0.
Proof.
  induction l as [|[k e] l IH]; intros m0; cbn [foldl fst snd]; [symmetry; apply (map_empty_union (M := gmap NetAddr))|].
  rewrite IH, reverse_cons, list_to_map_app, <- map_union_assoc. f_equal. rewrite list_to_map_cons, list_to_map_nil, <- (insert_union_l ∅ m0). by rewrite (map_empty_union (M := gmap NetAddr)).
Qed.

(** A saved book is read back entry for entry, with up to two anchors. *)
Lemma book_reloads m l b : book_ok m -> peers_json (mkPersistedPeers PEERS_FORMAT_VERSION (map snd (iter_addrs m)) (take MAX_ANCHORS l)) = Some b ->
  book_from_bytes (book_to_bytes m l) ∅ = (m, take MAX_ANCHORS l).
Proof.
  intros [Hs Hk] Hb. assert (Hd : book_to_bytes m l = b) by (unfold book_to_bytes; by rewrite Hb). unfold book_from_bytes. rewrite Hd, (peers_json_read _ _ Hb).
  cbn [pp_version addrs anchors]. rewrite Z.eqb_refl. assert (Hperm : iter_addrs m ≡ₚ map_to_list m) by apply iter_addrs_perm.
  assert (Hlen : (length (map snd (iter_addrs m)) <= MAX_ADDRESSES)%nat) by (by rewrite length_map, Hperm, length_map_to_list).
  rewrite (take_ge (map snd _)), take_take, Nat.min_id by done. f_equal. rewrite load_entries.
  - assert (Hnd : NoDup (reverse (iter_addrs m)).*1) by (rewrite reverse_Permutation, Hperm; apply NoDup_fst_map_to_list).
    rewrite insert_all, map_union_empty, (list_to_map_proper _ (map_to_list m)), list_to_map_to_list; [done|done|]. by rewrite reverse_Permutation.
  - intros [k e] Hin. rewrite Hperm in Hin. apply elem_of_map_to_list in Hin. cbn. by apply Hk.
Qed.

(** The book never holds more than its bound, each entry under its address. *)
Lemma book_bounded m : book_reachable m -> book_ok m.
Proof.
  induction 1 as [|now a sv m _ IH|now a m _ IH|a m _ IH|m l b _ IH Hb].
  - split; [rewrite map_size_empty; lia|by intros a e ?%lookup_empty_Some].
  - by apply add_ok.
  - by apply alter_ok.
  - by apply alter_ok.
  - by rewrite (book_reloads m l b).
Qed.

(** Candidates for a connection are known addresses that have not failed three
    times more often than they succeeded, without repetition. *)
Lemma connect_candidates max m : 
  (length (get_for_connect max m) <= max)%nat /\ forall a, a ∈ get_for_connect max m -> exists e, m !! a = Some e /\ -2 <= net_score e.
Proof.
  assert (Hsort : forall (l : list (NetAddr * Z)), sort_descending snd l ≡ₚ l).
  { assert (Hi : forall (x : NetAddr * Z) l, insert_by snd x l ≡ₚ x :: l).
    { intros x l. induction l as [|y l IH]; [done|]. cbn [insert_by]. destruct (_ <? _); [done|]. rewrite IH. apply perm_swap. }
    unfold sort_descending. intros l. assert (Hg : forall acc, foldl (fun acc x => insert_by snd x acc) acc l ≡ₚ acc ++ l); [|apply (Hg [])].
    induction l as [|x l IH]; intros acc; cbn [foldl]; [by rewrite app_nil_r|]. rewrite IH, Hi. apply Permutation_middle. }
  unfold get_for_connect. split; [rewrite length_take; lia|]. intros a Ha. apply elem_of_take in Ha as (i & Ha & _). apply list_elem_of_lookup_2 in Ha.
  assert (Huse : forall p, p ∈ filter (fun p : NetAddr * AddrEntry => ~ net_score p.2 < -2) (iter_addrs m) -> exists e, m !! p.1 = Some e /\ -2 <= net_score e).
  { intros [k e] [Hn Hin]%list_elem_of_filter. rewrite iter_addrs_perm in Hin. apply elem_of_map_to_list in Hin. exists e. cbn in *. split; [done|lia]. }
  apply elem_of_app in Ha as [Ha|Ha].
  - rewrite shuffle_perm in Ha. apply list_elem_of_fmap in Ha as (p & -> & Hp). apply list_elem_of_filter in Hp as [_ Hp]. by apply Huse.
  - apply list_elem_of_fmap in Ha as (q & -> & Hq). rewrite Hsort in Hq. apply list_elem_of_fmap in Hq as (p & -> & Hp). apply list_elem_of_filter in Hp as [_ Hp]. by apply Huse.
Qed.
End Bounds.

(** ** The ban theorem at a concrete input *)

Section BanExample.
(** A runtime: maps in key order, no shuffle, records coded as one number. *)
#[local] Instance BanEntry_eq_dec : EqDecision BanEntry.
Proof. solve_decision. Defined.
#[local] Program Instance BanEntry_countable : Countable BanEntry := inj_countable' (fun e => (reason e, until e)) (fun x => mkBanEntry x.1 x.2) _.
Next Obligation. by intros []. Qed.
#[local] Instance AddrEntry_eq_dec : EqDecision AddrEntry.
Proof. solve_decision. Defined.
#[local] Program Instance AddrEntry_countable : Countable AddrEntry :=
  inj_countable' (fun e => (addr e, services e, last_seen e, success_count e, failure_count e)) (fun '(a, s, l, g, f) => mkAddrEntry a s l g f) _.
Next Obligation. by intros []. Qed.

#[local] Instance sample_peers : PeerRuntime := {|
  iter_bans := map_to_list; iter_addrs := map_to_list; shuffle := id;
  ban_json := fun x => Some [Z.pos (encode (bl_version x, bans x))];
  ban_of_json := fun b => '(v, l) ← match b with [Z.pos p] => decode (A := Z * list (IpAddr * BanEntry)) p | _ => None end; Some (mkPersistedBanlist v l);
  peers_json := fun x => Some [Z.pos (encode (pp_version x, addrs x, anchors x))];
  peers_of_json := fun b => '(v, l, a) ← match b with [Z.pos p] => decode (A := Z * list AddrEntry * list NetAddr) p | _ => None end; Some (mkPersistedPeers v l a) |}.
#[local] Instance sample_peers_laws : PeerRuntimeLaws.
Proof.
  constructor; [done..| |].
  - intros [v l] b [= <-]. cbn -[encode decode]. by rewrite decode_encode.
  - intros [v l a] b [= <-]. cbn -[encode decode]. by rewrite decode_encode.
Qed.

(** A peer that sends an invalid block, leaves and, after a restart one hour
    later, wants to come back. *)
Definition px_ip : IpAddr := IpV4 [1; 2; 3; 4].
Definition px_start : PeerScoring := register_peer 7 px_ip scoring_new.
Definition px_banned : PeerScoring := (record_misbehavior 0 7 InvalidBlock px_start).1.
Definition px_left : PeerScoring := unregister_peer 7 px_banned.
Definition px_later : PeerScoring := bans_from_bytes (3600 * SECOND) (bans_to_bytes px_left) scoring_new.

Lemma ban_lasts_witness : is_banned (7200 * SECOND) px_later px_ip = true.
Proof.
  assert (Hrun : scoring_run 0 px_banned (7200 * SECOND) px_later).
  { apply (run_step 0 0 _ _ px_left); [lia|apply st_unregister|]. apply (run_step 0 (3600 * SECOND) _ _ px_later); [by apply Z.leb_le| |].
    - eapply st_restart. reflexivity.
    - apply run_stay. by apply Z.leb_le. }
  destruct (ban_lasts px_start 7 0 (7200 * SECOND) InvalidBlock px_ip px_banned px_later true) as (_ & _ & Hb & _);
    [reflexivity|reflexivity|exact Hrun|by apply Z.ltb_lt|]. by apply Hb.
Defined.
End BanExample.
